(* ===== verification/_CoqProject ===== *)
-Q . S2P
Prelude.v
Version.v
Calendar.v
RingBuffer.v
RingQueue.v
RingVectors.v
BufferPool.v
PoolSafety.v
RaftMessage.v
RaftAgent.v
RaftEffects.v
RaftCluster.v
RaftSafety.v
Links.v
DList.v
SingleList.v
Monitors.v
Interpreter.v
Packed.v
TreeBlocks.v
FreeList.v
LRUCache.v
LRUSpec.v
LRUSession.v
BlockFile.v
SchedulerImpl.v
BPTree.v
BPTreeSpec.v
BPTreeScan.v
BPTreeWorld.v
BPTreeInsert.v
BPTreeErase.v
BPTreeRange.v
BPTreeSession.v
BPTreePacked.v
StateMonad.v
LinkLogFormat.v
LinkLogReplay.v
LinkLogServer.v
LinkLogWiring.v
LinkLogRegistry.v
LinkLogSession.v
ThreadPool.v
ThreadPoolSafety.v
ThreadPoolBounds.v
ThreadPoolLiveness.v
ThreadPoolShutdown.v
ThreadPoolTermination.v
ThreadPoolRaces.v
OrderedFile.v
LRUCalm.v
LinkLogIndex.v
TimeText.v
RecordFiles.v
Disk.v
RingHistory.v
LinkLogStorage.v
LinkLogQuery.v
LinkLogCenter.v
LinkLogSpec.v
LinkLogSearch.v
LinkLogBook.v
LinkLogCenterSpec.v
LinkLogCenterSession.v
Errors.v
EventLoop.v
Channel.v
TcpAgent.v
Reactor.v
ReactorSafety.v
ScheduledThread.v
SystemLog.v
LogStream.v
LinkLogPipeline.v
LinkLogPipelineSafety.v
