(* ===== verification/Prelude.v ===== *)
(** * Verification of tinyBackend

    A shallow embedding of the parts of tinyBackend that carry its own logic.  Each file
    models the C++ files it names, operation by operation, and proves what makes them correct.

    ** Conventions

    Integers are [Z]; the wrap-around of the unsigned types is written out ([u16], [u32],
    [u64]).  A call returns in [res]: [Ret] with the result, or [Fault] with the reason it does
    not return (a failed [assert], an exception, an access outside of a block, a pointer that
    is not valid, two threads in the same data without a lock, the end of the process).  [OutOfFuel] is the outcome of a loop that was
    given too little fuel; every theorem that an operation returns excludes it, so the fuel
    each loop gets (the length of what it walks over, or the depth of a tree) is enough.
    Memory is a list of bytes; [mem_read], [mem_write], [mem_copy] and [mem_move] are the
    accesses the code makes, with a fault outside of the block and, for [memcpy], on overlap.
    What is outside of src/ (system calls, the network, clocks, the allocator) is an argument
    of the operation that uses it, or a type class with the laws the code relies on.

    ** Parts

    - Version.v: VersionNumber32 and VersionNumber64 (Base/VersionNumber.hpp): arithmetic modulo
      the width and the half-circle order.
    - Calendar.v, TimeText.v: dates, intervals and times as text (Base/Time/).
    - RingBuffer.v, RingQueue.v, RingVectors.v: RingBufferWrapper (Base/Buffer/).  RingBuffer.v has the
      operations over the block and its two positions; RingQueue.v the refinement of a FIFO
      queue of bytes, the transfer between rings, moving and resizing.  RingVectors.v: a ring
      handed to readv and writev.
    - BufferPool.v, PoolSafety.v: BufferPool (Base/Buffer/).  BufferPool.v has the tree of free
      sizes and its invariant; PoolSafety.v that live buffers are disjoint and inside the
      pool, and that a refusal is justified.
    - RaftMessage.v, RaftAgent.v, RaftEffects.v, RaftCluster.v, RaftSafety.v: Distributed/raft/.
      Messages and node state; every handler and thread loop; what one turn of a thread does to
      the election state; a cluster on a lossy, reordering network; one leader per version.
    - Links.v, DList.v, SingleList.v: the two linked lists (Base/Container/).  Links.v has sequences of
      cells behind pointers; the other two the member functions over a heap of nodes.
    - Monitors.v: Poller, Selector and EPoller (Net/monitors/) behind one interface, the class
      [Monitor], and its laws.
    - Interpreter.v, Packed.v, TreeBlocks.v, FreeList.v: the B+ tree file (Base/BPTree_impls/).
      Interpreter.v has the byte layouts; Packed.v the sorted array of pairs that data and
      index blocks share; TreeBlocks.v the two classes over it, the scheduler that holds the
      blocks and the chain of data blocks; FreeList.v the header, the stack of deleted blocks and
      the creation and deletion of blocks.
    - LRUCache.v, LRUSpec.v, LRUSession.v: the write-back cache (Base/LRUCache.hpp) over a helper
      class.  LRUCache.v has the list, the map and the operations; LRUSpec.v their behaviour
      against an abstract store with a recency order; LRUSession.v sequences of calls.
    - BlockFile.v: BlockFile and DioFile (Base/Detail/) over a file and the bytes
      the library holds back and has read ahead.
    - SchedulerImpl.v: the scheduler of the tree file, which is the cache over the block file;
      it discharges what TreeBlocks.v asks of a scheduler.
    - BPTree.v, BPTreeSpec.v, BPTreeScan.v, BPTreeWorld.v, BPTreeInsert.v, BPTreeErase.v,
      BPTreeRange.v, BPTreeSession.v, BPTreePacked.v: the B+ tree itself
      (Base/BPTree_impls/BPTree.hpp), over blocks whose behaviour is an interface.  BPTree.v has
      the operations; BPTreeSpec.v trees as a value and their invariant; BPTreeScan.v the
      searches; BPTreeWorld.v the heap of blocks and the chain of leaves; the next three the
      operations that change the tree; BPTreeSession.v sequences of calls against a sorted list;
      BPTreePacked.v discharges the interface with the blocks of Packed.v.
    - StateMonad.v: state and faults, with the rules of a weakest precondition.
    - LinkLogFormat.v, LinkLogReplay.v: the messages of the link log (LogSystem/linkLog/) as packed
      fields, the functions that write them, and the replay of a record file by the center.
    - LinkLogServer.v, LinkLogWiring.v, LinkLogRegistry.v, LinkLogSession.v: the registry of
      loggers (LinkLogServer.cpp, LinkLogger.cpp).  LinkLogServer.v has the map of nodes, the timers
      and the flags they share, with every operation; LinkLogWiring.v the invariant that ties
      them; LinkLogRegistry.v that each operation keeps it; LinkLogSession.v sequences of calls.
    - ThreadPool.v, ThreadPoolSafety.v, ThreadPoolBounds.v, ThreadPoolLiveness.v, ThreadPoolShutdown.v,
      ThreadPoolTermination.v, ThreadPoolRaces.v: the pool of threads (Base/ThreadPool.hpp,
      src/ThreadPool.cpp, Condition.hpp).  ThreadPool.v has one step of each thread;
      ThreadPoolSafety.v what holds in every interleaving; ThreadPoolBounds.v the size of the queue;
      ThreadPoolLiveness.v and ThreadPoolShutdown.v what is true when nothing can happen any
      more; ThreadPoolTermination.v that this is reached; ThreadPoolRaces.v interleavings that
      go wrong.
    - LinkLogPipeline.v, LinkLogPipelineSafety.v: what happens to the records the loggers write
      (LinkLogServer.cpp): buffers, the pipe to the server's thread, the steps of its turns, the link to the
      center and the closing; then where every record is, and what a link carries.
    - OrderedFile.v, LRUCalm.v: the interfaces between the tree and the cache and their clients.
    - RecordFiles.v, Disk.v, RingHistory.v, LinkLogIndex.v, LinkLogStorage.v, LinkLogQuery.v,
      LinkLogCenter.v: the record files of a server, and the storage and the center
      (LinkLogInterpreter.cpp, LinkLogCenter.cpp).  Disk.v has files by name; LinkLogIndex.v the index of
      nodes, a cache over a tree; LinkLogStorage.v the log files; LinkLogQuery.v the searches;
      LinkLogCenter.v the handlers of the messages.
    - LinkLogSpec.v, LinkLogSearch.v, LinkLogBook.v, LinkLogCenterSpec.v, LinkLogCenterSession.v: that the center
      keeps a book.  LinkLogSpec.v says what the bytes of a log file, the ring and the index mean
      together; LinkLogBook.v is the book; LinkLogCenterSession.v the life of a center against it.
    - Errors.v: marks of errors and the tables of their texts (Net/error/).
    - EventLoop.v, Channel.v, TcpAgent.v, Reactor.v, ReactorSafety.v: the reactor (Net/).  EventLoop.v has the loop of
      the thread and the others that put events; Channel.v the callbacks of an agent, a class
      [MessageAgent]; TcpAgent.v the agent of a socket, an instance of it over two rings; Reactor.v the map,
      the timers and the distributor, over any monitor with the laws of Monitors.v;
      ReactorSafety.v that they agree after every turn.
    - ScheduledThread.v, SystemLog.v, LogStream.v: periodic tasks on one thread, the text log that gives it
      full buffers, and the stream that collects a line (Base/).

    ** Theorems

    Refinements: RingQueue.ring_refines_queue, DList.list_refines, SingleList.single_list_refines,
    Monitors.poller_refines, Monitors.selector_refines, FreeList.free_list_is_stack, RaftSafety.raft_turn_refines,
    LRUSession.cache_session_safe, SchedulerImpl.scheduler_refines, BPTreeSession.bptree_refines_list,
    BlockFile.block_file_refines, TcpAgent.tcp_streams, LinkLogCenterSession.center_refines_book.
    Safety and invariants: RaftSafety.raft_election_safety, PoolSafety.pool_safe, LRUSession.cache_nothing_lost,
    LinkLogSession.link_log_registry_safe, LinkLogPipelineSafety.pipeline_loses_nothing and
    center_gets_whole_buffers, RecordFiles.record_files_hold, ReactorSafety.reactor_consistent,
    ThreadPoolSafety.tasks_exactly_once, ThreadPoolShutdown.shutdown_leaves_nothing,
    ScheduledThread.tasks_run_in_order, SystemLog.log_loses_nothing.
    Liveness and termination: ThreadPoolLiveness.running_pool_serves_all (no notification is lost
    that matters), ThreadPoolTermination.runs_end, EventLoop.loop_delivers, EventLoop.stop_ends,
    Channel.invoke_event_ends.
    Equivalences: LRUSession.cache_eviction_order (eviction is by recency of use), TimeText.names_sort_by_time,
    BPTreePacked.packed_blocks_keep_contract (the packed blocks are what the tree asks for).
    Bounds: ThreadPoolBounds.queue_bounded, LogStream.stream_pushes.  Round trips:
    Calendar.date_roundtrip, LinkLogReplay.record_replay (what is recorded is what is replayed, wherever the
    file is cut).  Functional behaviour: BPTreeSession.erase_range_in_one_leaf,
    ReactorSafety.timeouts_exact, RingQueue.resize_correct, and the theorems on every branch of the operations in RingQueue.v, PoolSafety.v,
    Packed.v, TreeBlocks.v, FreeList.v and Version.v.
    The [Example]s show inputs on which the code does not do what it means to.

    ** Bounds

    The election theorems are for versions below 2^31 (the order of versions is a half circle)
    and for a cluster whose members do not change while it runs.  BufferPool holds for pools of
    fewer than 2^31 blocks of 4096 bytes.  Blocks of the B+ tree hold 4096 bytes; keys and values
    have a fixed size and their pairs fit a block.  The tree theorems are for data blocks that
    hold at least one pair and index blocks that hold two entries, and fuel of the number of
    blocks plus the number of pairs ([fuel_of]); the range erase is proved for a range inside one
    leaf, since across leaves the code loses pairs (BPTreeSession.v has the input).

    The thread pool's liveness and termination theorems start with running workers and exclude the calls
    that race with each other in ThreadPoolRaces.v.

    The center's book is kept as long as one log file is enough, since the first log of a new file is entered in
    the old one.  [Channel.invoke_event] gets fuel for two turns, which is enough when the user's functions
    ask for nothing more than a hang-up.  The thread of ScheduledThread.v has at most four
    schedulers at a time: with more, its vector of iterators gets null iterators.  In SystemLog.v [push] gets fuel for two turns, enough for a
    message that fits a buffer; a line is written with fuel of its length and two; and the times
    read before [horizon] must give different names of files.  In LinkLogPipelineSafety.v nobody writes to a
    buffer while another thread waits for it, since that loses records (the example shows it).

    BlockFile.v lets the library hold written bytes back as it likes; resizing such a file lets cut bytes come
    back, so the theorem has resizes only for a stream that passes writes on.  LRUCache.v is for a map that keeps
    its iterators when it grows.  In SystemLog.v a flush that meets the thread inside [invoke] is a data
    race and ends the session.  LinkLogCenterSession.v is for identifiers of eight bytes that do not end in 0 or 255;
    ReactorSafety.v for a monitor that reports what Poller does.

    ** Not modelled

    The multiplexer (Net/TCP_Multiplexer.hpp): the side that connects is never told the name of the other side's
    channel, so whatever it sends is addressed to no channel and ends the peer by an assertion; there is no
    behaviour of a conversation to state.  LinkedThreadPool, BlockQueue and TimerLoop: used by tests only;
    the first does what ThreadPool.v models over another list, BlockQueue does not compile when its members are
    used, and TimerLoop is a loop around sleep.  Of the link log: the query that fills a ring (it reads
    one file with fread and readv, whose positions differ), the center's connections and the set of
    descriptors a server's thread watches; the stream of a LinkLogger is that of LogStream.v.  Wrappers of system calls (sockets, addresses, files,
    directories, threads, mutexes, timers of the system), the metaprograms of AOP.hpp and the tests have no state of their own
    to verify. *)

From Stdlib Require Export ZArith Lia.
From stdpp Require Export base tactics list numbers.

(** ** Machine integers *)

Declare Scope tb_scope.
Delimit Scope tb_scope with tb.

Definition MAX_UINT : Z := 4294967295.
Definition MAX_ULLONG : Z := 18446744073709551615.

(** Wrap-around of the unsigned types of Base/Detail/config.hpp. *)
Definition u16 (z : Z) : Z := (z mod 65536)%Z.
Definition u32 (z : Z) : Z := (z mod 4294967296)%Z.
Definition u64 (z : Z) : Z := (z mod 18446744073709551616)%Z.

(** ** Outcomes

    A C++ call of the program returns, fails an [assert], throws an exception, ends the
    process ([emergency_exit]) or does something the language leaves undefined. *)

Inductive fault :=
  | AssertFailed
  | Thrown
  | OutOfBounds
  | BadPointer
  | DividedByZero
  | Exited
  | DataRace
  | OutOfFuel.

Inductive res (A : Type) :=
  | Ret (a : A)
  | Fault (f : fault).
Arguments Ret {A} a.
Arguments Fault {A} f.

#[export] Instance res_ret : MRet res := fun A a => Ret a.
#[export] Instance res_bind : MBind res := fun A B k m =>
  match m with Ret a => k a | Fault f => Fault f end.

Definition massert (b : bool) : res unit := if b then Ret tt else Fault AssertFailed.
Definition mcheck (b : bool) (f : fault) : res unit := if b then Ret tt else Fault f.
Definition of_option {A} (o : option A) (f : fault) : res A :=
  match o with Some a => Ret a | None => Fault f end.

Lemma bind_ret {A B} (a : A) (k : A -> res B) : (x ← Ret a; k x) = k a.
Proof. reflexivity. Qed.

Lemma bind_Ret_inv {A B} (m : res A) (k : A -> res B) b :
  (x ← m; k x) = Ret b -> exists a, m = Ret a /\ k a = Ret b.
Proof. destruct m; simpl; [eauto | done]. Qed.

Lemma massert_true b : b = true -> massert b = Ret tt.
Proof. by intros ->. Qed.

Lemma massert_inv b u : massert b = Ret u -> b = true.
Proof. by destruct b. Qed.

Lemma mcheck_true b f : b = true -> mcheck b f = Ret tt.
Proof. by intros ->. Qed.

(** [minv] takes a successful bind in a hypothesis apart. *)
Ltac minv :=
  repeat match goal with
  | H : mbind _ _ = Ret _ |- _ =>
      let a := fresh "a" in let E := fresh "E" in
      apply bind_Ret_inv in H as (a & E & H)
  | H : massert _ = Ret ?u |- _ => apply massert_inv in H; try destruct u
  | H : Ret _ = Ret _ |- _ => injection H as H; subst
  | H : Fault _ = Ret _ |- _ => discriminate H
  end.

(** ** Boolean tests as propositions *)

Ltac zbool :=
  repeat match goal with
  | H : (_ <? _)%Z = true |- _ => apply Z.ltb_lt in H
  | H : (_ <? _)%Z = false |- _ => apply Z.ltb_ge in H
  | H : (_ <=? _)%Z = true |- _ => apply Z.leb_le in H
  | H : (_ <=? _)%Z = false |- _ => apply Z.leb_gt in H
  | H : (_ =? _)%Z = true |- _ => apply Z.eqb_eq in H
  | H : (_ =? _)%Z = false |- _ => apply Z.eqb_neq in H
  | H : (_ && _)%bool = true |- _ => apply andb_true_iff in H as [? ?]
  | H : (_ || _)%bool = false |- _ => apply orb_false_iff in H as [? ?]
  | H : negb _ = true |- _ => apply negb_true_iff in H
  | H : negb _ = false |- _ => apply negb_false_iff in H
  end.

(** [zcases] splits on every comparison the goal branches on. *)
Ltac zcases :=
  repeat match goal with
  | |- context [if (?a <? ?b)%Z then _ else _] => destruct (Z.ltb_spec a b)
  | |- context [if (?a <=? ?b)%Z then _ else _] => destruct (Z.leb_spec a b)
  | |- context [if (?a =? ?b)%Z then _ else _] => destruct (Z.eqb_spec a b)
  | |- context [(?a <? ?b)%Z] => destruct (Z.ltb_spec a b)
  | |- context [(?a <=? ?b)%Z] => destruct (Z.leb_spec a b)
  | |- context [(?a =? ?b)%Z] => destruct (Z.eqb_spec a b)
  end.

(** ** Reachability *)

Section Reach.
Context {S L : Type} (init : S -> Prop) (step : L -> S -> S -> Prop).

Inductive reachable : S -> Prop :=
  | reach_init s : init s -> reachable s
  | reach_step l s s' : reachable s -> step l s s' -> reachable s'.

Lemma reachable_inv (I : S -> Prop) :
  (forall s, init s -> I s) ->
  (forall l s s', reachable s -> I s -> step l s s' -> I s') ->
  forall s, reachable s -> I s.
Proof. intros Hi Hs s. induction 1; eauto. Qed.
End Reach.

(** ** Memory blocks

    A block of bytes is a list; [mem_read] and [mem_write] are the accesses [memcpy]
    makes to it, with a fault when they leave the block. *)

Section Memory.
Context {A : Type}.
Implicit Types (l src : list A).
Local Open Scope Z_scope.

Definition zlen l : Z := Z.of_nat (length l).

Definition slice (off len : Z) l : list A :=
  take (Z.to_nat len) (drop (Z.to_nat off) l).

Definition blit (off : Z) src l : list A :=
  take (Z.to_nat off) l ++ src ++ drop (Z.to_nat (off + zlen src)) l.

Definition in_block (off len : Z) l : bool :=
  (0 <=? off) && (0 <=? len) && (off + len <=? zlen l).

Definition mem_read l (off len : Z) : res (list A) :=
  if in_block off len l then Ret (slice off len l) else Fault OutOfBounds.

Definition mem_write l (off : Z) src : res (list A) :=
  if in_block off (zlen src) l then Ret (blit off src l) else Fault OutOfBounds.

(** [memmove] inside one block, and [memcpy], undefined when the two regions overlap. *)
Definition mem_move l (dst src len : Z) : res (list A) :=
  data ← mem_read l src len; mem_write l dst data.

Definition overlap (dst src len : Z) : bool :=
  (0 <? len) && (dst <? src + len) && (src <? dst + len).

Definition mem_copy l (dst src len : Z) : res (list A) :=
  if overlap dst src len then Fault OutOfBounds else mem_move l dst src len.

Lemma zlen_nonneg l : 0 <= zlen l.
Proof. unfold zlen. lia. Qed.

Lemma zlen_nil : zlen [] = 0.
Proof. reflexivity. Qed.

Lemma zlen_app l1 l2 : zlen (l1 ++ l2) = zlen l1 + zlen l2.
Proof. unfold zlen. rewrite length_app. lia. Qed.

Lemma zlen_cons (x : A) l : zlen (x :: l) = 1 + zlen l.
Proof. unfold zlen. simpl. lia. Qed.

Lemma zlen_replicate n (x : A) : zlen (replicate n x) = Z.of_nat n.
Proof. unfold zlen. by rewrite length_replicate. Qed.

Lemma zlen_slice off len l :
  in_block off len l = true -> zlen (slice off len l) = len.
Proof.
  unfold in_block, zlen, slice. intros. zbool. rewrite length_take, length_drop. lia.
Qed.

Lemma zlen_blit off src l :
  in_block off (zlen src) l = true -> zlen (blit off src l) = zlen l.
Proof.
  unfold in_block, blit. intros. zbool. rewrite !zlen_app.
  unfold zlen in *. rewrite length_take, length_drop. lia.
Qed.

Lemma in_block_intro off len l :
  0 <= off -> 0 <= len -> off + len <= zlen l -> in_block off len l = true.
Proof. unfold in_block. intros. zcases; simpl; lia. Qed.

Lemma mem_read_ok l off len :
  0 <= off -> 0 <= len -> off + len <= zlen l -> mem_read l off len = Ret (slice off len l).
Proof. intros. unfold mem_read. by rewrite in_block_intro. Qed.

Lemma mem_write_ok l off src :
  0 <= off -> off + zlen src <= zlen l -> mem_write l off src = Ret (blit off src l).
Proof.
  intros. unfold mem_write. rewrite in_block_intro; [done | done | apply zlen_nonneg | done].
Qed.

Lemma lookup_slice off len l i :
  slice off len l !! i =
    if decide (Z.of_nat i < len) then l !! (Z.to_nat off + i)%nat else None.
Proof.
  unfold slice. case_decide.
  - rewrite lookup_take_lt, lookup_drop by lia. done.
  - apply lookup_take_ge. lia.
Qed.

Lemma lookup_app_dec l1 l2 i :
  (l1 ++ l2) !! i =
    if decide (Z.of_nat i < zlen l1) then l1 !! i else l2 !! (i - length l1)%nat.
Proof.
  unfold zlen. case_decide; [apply lookup_app_l | apply lookup_app_r]; lia.
Qed.

Lemma lookup_blit off src l i :
  0 <= off -> off + zlen src <= zlen l ->
  blit off src l !! i =
    if decide (off <= Z.of_nat i < off + zlen src)
    then src !! (i - Z.to_nat off)%nat else l !! i.
Proof.
  intros Ho Hl. pose proof (zlen_nonneg src). unfold blit, zlen in *.
  assert (Hlen : length (take (Z.to_nat off) l) = Z.to_nat off).
  { rewrite length_take. lia. }
  destruct (decide (Z.of_nat i < off)).
  - rewrite lookup_app_l by lia. rewrite lookup_take_lt by lia.
    rewrite decide_False by lia. done.
  - rewrite lookup_app_r by lia. rewrite Hlen. case_decide.
    + apply lookup_app_l. lia.
    + rewrite lookup_app_r by lia. rewrite lookup_drop. f_equal. lia.
Qed.

Lemma lookup_ge_zlen l i : zlen l <= Z.of_nat i -> l !! i = None.
Proof. unfold zlen. intros. apply lookup_ge_None. lia. Qed.

Lemma slice_all l n : n = zlen l -> slice 0 n l = l.
Proof. intros ->. unfold slice, zlen. rewrite drop_0. apply take_ge. lia. Qed.

Lemma zlen_take n l : 0 <= n <= zlen l -> zlen (take (Z.to_nat n) l) = n.
Proof. unfold zlen. rewrite length_take. lia. Qed.

Lemma slice_zero off l : slice off 0 l = [].
Proof. reflexivity. Qed.
End Memory.

(** Accesses to a block written as a concatenation of its parts. *)

Section Parts.
Context {A : Type}.
Implicit Types (X Y B G W : list A).
Local Open Scope Z_scope.

Lemma take_zlen X Y n : n = zlen X -> take (Z.to_nat n) (X ++ Y) = X.
Proof. intros ->. unfold zlen. rewrite Nat2Z.id. apply take_app_length. Qed.

Lemma drop_zlen X Y n : n = zlen X -> drop (Z.to_nat n) (X ++ Y) = Y.
Proof. intros ->. unfold zlen. rewrite Nat2Z.id. apply drop_app_length. Qed.

Lemma slice_mid X Y W off len : off = zlen X -> len = zlen Y -> slice off len (X ++ Y ++ W) = Y.
Proof. intros Ho Hl. unfold slice. rewrite drop_zlen by done. by rewrite take_zlen. Qed.

Lemma blit_mid X Y Y' W off :
  off = zlen X -> zlen Y' = zlen Y -> blit off Y' (X ++ Y ++ W) = X ++ Y' ++ W.
Proof.
  intros Ho Hl. unfold blit. rewrite take_zlen by done. do 2 f_equal.
  rewrite app_assoc. rewrite drop_zlen; [done |]. rewrite zlen_app. lia.
Qed.

Lemma mem_read_mid X Y W off len :
  off = zlen X -> len = zlen Y -> mem_read (X ++ Y ++ W) off len = Ret Y.
Proof.
  intros Ho Hl. pose proof (zlen_nonneg X). pose proof (zlen_nonneg Y). pose proof (zlen_nonneg W).
  rewrite mem_read_ok by (rewrite ?zlen_app; lia). by rewrite slice_mid.
Qed.

Lemma mem_write_mid X Y Y' W off :
  off = zlen X -> zlen Y' = zlen Y -> mem_write (X ++ Y ++ W) off Y' = Ret (X ++ Y' ++ W).
Proof.
  intros Ho Hl. pose proof (zlen_nonneg X). pose proof (zlen_nonneg W).
  rewrite mem_write_ok by (rewrite ?zlen_app; lia). by rewrite (blit_mid X Y).
Qed.

Lemma split_at (l : list A) n : 0 <= n <= zlen l -> exists X Y, l = X ++ Y /\ zlen X = n.
Proof.
  intros Hn. exists (take (Z.to_nat n) l), (drop (Z.to_nat n) l).
  rewrite take_drop. split; [done |]. by apply zlen_take.
Qed.

(** [memmove] upwards by the length of [G]: what it leaves in the gap does not matter. *)
Lemma mem_move_up X B G W dst src len :
  src = zlen X -> len = zlen B -> dst = zlen X + zlen G ->
  exists J, zlen J = zlen G /\ mem_move (X ++ B ++ G ++ W) dst src len = Ret (X ++ J ++ B ++ W).
Proof.
  intros Hs Hl Hd. unfold mem_move. rewrite mem_read_mid by done. simpl.
  destruct (split_at (B ++ G) (zlen G)) as (J & R & HJ & HJl).
  { rewrite zlen_app. pose proof (zlen_nonneg B). pose proof (zlen_nonneg G). lia. }
  exists J. split; [done |]. rewrite (app_assoc B G W), HJ, <- app_assoc, app_assoc.
  rewrite mem_write_mid; [by rewrite <- app_assoc | rewrite zlen_app; lia |].
  apply (f_equal zlen) in HJ. rewrite !zlen_app in HJ. lia.
Qed.

(** [memmove] downwards over [G]. *)
Lemma mem_move_down X G B W dst src len :
  dst = zlen X -> len = zlen B -> src = zlen X + zlen G ->
  exists J, zlen J = zlen G /\ mem_move (X ++ G ++ B ++ W) dst src len = Ret (X ++ B ++ J ++ W).
Proof.
  intros Hd Hl Hs. unfold mem_move. rewrite (app_assoc X G).
  rewrite mem_read_mid; [| rewrite zlen_app; lia | done]. simpl.
  destruct (split_at (G ++ B) (zlen B)) as (J & R & HJ & HJl).
  { rewrite zlen_app. pose proof (zlen_nonneg B). pose proof (zlen_nonneg G). lia. }
  exists R. apply (f_equal zlen) in HJ as HJ'. rewrite !zlen_app in HJ'. split; [lia |].
  rewrite <- app_assoc, (app_assoc G B W), HJ, <- app_assoc.
  by rewrite mem_write_mid by (try done; lia).
Qed.

Lemma mem_move_zero (l l' : list A) dst src : mem_move l dst src 0 = Ret l' -> l' = l.
Proof.
  unfold mem_move, mem_read, mem_write. destruct (in_block src 0 l); simpl; [| done].
  rewrite slice_zero. destruct (in_block _ _ l); [| done]. intros [= <-].
  unfold blit. change (zlen []) with 0. rewrite Z.add_0_r. simpl. apply take_drop.
Qed.
End Parts.

(** Lengths of concatenations, by [autorewrite with lens]. *)
Create Rewrite HintDb lens.
#[export] Hint Rewrite @zlen_app @zlen_cons @zlen_nil @zlen_replicate : lens.

(** [list_ext] proves two lists equal entry by entry: every lookup becomes a case split on
    the index, closed by [lia]. *)
Ltac lookup_step :=
  first
  [ rewrite lookup_slice
  | rewrite lookup_app_dec
  | rewrite lookup_blit by (try lia) ].

Ltac same_index :=
  first
  [ reflexivity
  | f_equal; lia
  | rewrite !lookup_ge_zlen by lia; reflexivity
  | rewrite lookup_ge_zlen by lia; reflexivity
  | symmetry; rewrite lookup_ge_zlen by lia; reflexivity
  | exfalso; lia ].
