(* ===== verification/Version.v ===== *)
(** * Version numbers (src/Base/VersionNumber.hpp)

    [VersionNumber32] orders the terms of the Raft component and [VersionNumber64] its
    message serials.  Both wrap around, and compare "in the circle": a version is less
    than the ones of the half circle ahead of it.  The operations are written once over
    the largest value [MAXV] of the width and instantiated at the two widths. *)

From S2P Require Import Prelude.
Local Open Scope Z_scope.

Section Width.
Variable MAXV : Z.

(** The unsigned arithmetic of the width. *)
Definition wrapv (z : Z) : Z := z mod (MAXV + 1).

Definition incr (v : Z) : Z :=
  if negb (v =? MAXV) then wrapv (v + 1) else 0.

Definition addv (v step : Z) : Z :=
  let res := wrapv (MAXV - v) in
  if step <? res then wrapv (v + step) else wrapv (step - res - 1).

Definition ltv (l r : Z) : bool :=
  if l <? r then wrapv (r - l) <=? MAXV / 2
  else MAXV / 2 <? wrapv (l - r).

Definition gtv (l r : Z) : bool :=
  if r <? l then wrapv (l - r) <=? MAXV / 2
  else MAXV / 2 <? wrapv (r - l).

Definition lev (l r : Z) : bool := (l =? r) || ltv l r.
Definition gev (l r : Z) : bool := (l =? r) || gtv l r.

Definition wfv (v : Z) : Prop := 0 <= v <= MAXV.

Context (Hmax : 1 <= MAXV).

Lemma wrapv_small z : 0 <= z <= MAXV -> wrapv z = z.
Proof using Hmax. intros ?. unfold wrapv. apply Z.mod_small. lia. Qed.

Lemma wrapv_bound z : wfv (wrapv z).
Proof using Hmax.
  unfold wfv, wrapv. pose proof (Z.mod_pos_bound z (MAXV + 1)). lia.
Qed.

Lemma addv_mod v s : wfv v -> wfv s -> addv v s = (v + s) mod (MAXV + 1).
Proof using Hmax.
  unfold addv, wfv. intros Hv Hs. rewrite (wrapv_small (MAXV - v)) by lia.
  zcases; [reflexivity|]. unfold wrapv.
  rewrite <- (Z_mod_plus_full (s - _ - 1) 1). f_equal. lia.
Qed.

Lemma incr_addv v : wfv v -> incr v = addv v 1.
Proof using Hmax.
  intros Hv. rewrite addv_mod by (unfold wfv in *; lia).
  unfold incr, wfv in *. destruct (Z.eqb_spec v MAXV) as [->|]; simpl; [|reflexivity].
  by rewrite Z_mod_same_full.
Qed.

(** The distance from [l] forward to [r], a number below [MAXV + 1]. *)
Definition ahead (l r : Z) : Z := (r - l) mod (MAXV + 1).

Lemma ahead_cases l r :
  wfv l -> wfv r -> ahead l r = if r <? l then r - l + (MAXV + 1) else r - l.
Proof using Hmax.
  unfold ahead, wfv. intros. zcases.
  - rewrite <- (Z_mod_plus_full _ 1), Z.mod_small; lia.
  - apply Z.mod_small. lia.
Qed.

(** [l < r] says that [r] is in the half circle ahead of [l]; the antipode, which is as
    far in both directions, is resolved by the plain order. *)
Lemma ltv_spec l r :
  wfv l -> wfv r -> MAXV mod 2 = 1 ->
  ltv l r = true <->
  0 < ahead l r /\ (ahead l r <= MAXV / 2 \/ (ahead l r = MAXV / 2 + 1 /\ r < l)).
Proof using Hmax.
  intros Hl Hr Hodd. rewrite ahead_cases by done. unfold ltv, wfv in *.
  assert (MAXV = 2 * (MAXV / 2) + 1) by (pose proof (Z_div_mod_eq_full MAXV 2); lia).
  destruct (Z.ltb_spec l r), (Z.ltb_spec r l); try lia;
    rewrite wrapv_small by lia; rewrite ?Z.leb_le, ?Z.ltb_lt; lia.
Qed.

Lemma gtv_ltv l r : gtv l r = ltv r l.
Proof using Type. reflexivity. Qed.

Lemma ltv_trichotomy l r :
  wfv l -> wfv r ->
  (ltv l r = true /\ ltv r l = false /\ l <> r) \/
  (ltv l r = false /\ ltv r l = true /\ l <> r) \/
  (ltv l r = false /\ ltv r l = false /\ l = r).
Proof using Hmax.
  intros Hl Hr. unfold ltv, wfv in *.
  pose proof (Z_div_mod_eq_full MAXV 2). pose proof (Z.mod_pos_bound MAXV 2).
  destruct (Z.ltb_spec l r), (Z.ltb_spec r l); try lia;
    rewrite !wrapv_small by lia; zcases; lia.
Qed.

(** Below the half circle the comparison is the plain one. *)
Lemma ltv_window l r :
  wfv l -> wfv r -> Z.abs (r - l) <= MAXV / 2 -> ltv l r = (l <? r).
Proof using Hmax.
  intros Hl Hr Hw. unfold ltv, wfv in *. destruct (Z.ltb_spec l r).
  - rewrite wrapv_small by lia. zcases; lia.
  - rewrite wrapv_small by lia. zcases; lia.
Qed.

Lemma ltv_addv v s :
  wfv v -> 1 <= s <= MAXV / 2 -> ltv v (addv v s) = true.
Proof using Hmax.
  intros Hv Hs.
  assert (MAXV / 2 <= MAXV) by (apply Z.div_le_upper_bound; lia).
  rewrite addv_mod by (unfold wfv in *; lia).
  pose proof (Z_div_mod_eq_full MAXV 2). pose proof (Z.mod_pos_bound MAXV 2).
  unfold ltv, wfv in *. destruct (decide (v + s <= MAXV)).
  - rewrite Z.mod_small by lia. rewrite (proj2 (Z.ltb_lt _ _)) by lia.
    rewrite wrapv_small by lia. zcases; lia.
  - rewrite <- (Z_mod_plus_full _ (-1)), Z.mod_small by lia.
    rewrite (proj2 (Z.ltb_ge _ _)) by lia. rewrite wrapv_small by lia. zcases; lia.
Qed.
End Width.

(** ** VersionNumber64 *)

Definition VersionNumber64_incr : Z -> Z := incr MAX_ULLONG.
Definition VersionNumber64_add : Z -> Z -> Z := addv MAX_ULLONG.
Definition VersionNumber64_lt : Z -> Z -> bool := ltv MAX_ULLONG.
Definition VersionNumber64_gt : Z -> Z -> bool := gtv MAX_ULLONG.
Definition VersionNumber64_le : Z -> Z -> bool := lev MAX_ULLONG.
Definition VersionNumber64_ge : Z -> Z -> bool := gev MAX_ULLONG.

(** ** VersionNumber32 *)

Definition VersionNumber32_incr : Z -> Z := incr MAX_UINT.
Definition VersionNumber32_add : Z -> Z -> Z := addv MAX_UINT.
Definition VersionNumber32_lt : Z -> Z -> bool := ltv MAX_UINT.
Definition VersionNumber32_gt : Z -> Z -> bool := gtv MAX_UINT.
Definition VersionNumber32_le : Z -> Z -> bool := lev MAX_UINT.
Definition VersionNumber32_ge : Z -> Z -> bool := gev MAX_UINT.

(** ** Properties *)

(**  [VersionNumber32] addition is addition modulo 2^32 whatever branch it takes,
    [++] is adding one, and a version is below each of the 2^31 - 1 versions ahead of it. *)
Theorem version32_add_modular v s :
  wfv MAX_UINT v -> wfv MAX_UINT s ->
  VersionNumber32_add v s = u32 (v + s) /\
  VersionNumber32_incr v = u32 (v + 1) /\
  (1 <= s <= MAX_UINT / 2 -> VersionNumber32_lt v (VersionNumber32_add v s) = true).
Proof.
  intros Hv Hs. assert (1 <= MAX_UINT) by (unfold MAX_UINT; lia).
  unfold VersionNumber32_add, VersionNumber32_incr, VersionNumber32_lt, u32.
  rewrite addv_mod, incr_addv, addv_mod by (done || (unfold wfv, MAX_UINT in *; lia)).
  repeat split. intros ?. rewrite <- addv_mod by done. by apply ltv_addv.
Qed.

Lemma version32_add_modular_witness :
  VersionNumber32_add MAX_UINT 3 = 2 /\ VersionNumber32_lt MAX_UINT 2 = true.
Proof.
  destruct (version32_add_modular MAX_UINT 3) as (A & _ & B).
  - unfold wfv, MAX_UINT; lia.
  - unfold wfv, MAX_UINT; lia.
  - rewrite A in B. split; [exact A | apply B; unfold MAX_UINT; cbv; split; congruence].
Defined.

(**  The comparison of [VersionNumber32] is a strict total choice between any two
    versions (exactly one of less, greater, equal), [<=] and [>=] agree with it, it holds
    exactly towards the half circle ahead, and it is the plain order on two versions at
    most 2^31 - 1 apart. *)
Theorem version32_order l r :
  wfv MAX_UINT l -> wfv MAX_UINT r ->
  ((VersionNumber32_lt l r = true /\ VersionNumber32_gt l r = false /\ l <> r) \/
   (VersionNumber32_lt l r = false /\ VersionNumber32_gt l r = true /\ l <> r) \/
   (VersionNumber32_lt l r = false /\ VersionNumber32_gt l r = false /\ l = r)) /\
  VersionNumber32_le l r = negb (VersionNumber32_gt l r) /\
  VersionNumber32_ge l r = negb (VersionNumber32_lt l r) /\
  (VersionNumber32_lt l r = true <->
     0 < ahead MAX_UINT l r /\
     (ahead MAX_UINT l r <= MAX_UINT / 2 \/
      (ahead MAX_UINT l r = MAX_UINT / 2 + 1 /\ r < l))) /\
  (Z.abs (r - l) <= MAX_UINT / 2 -> VersionNumber32_lt l r = (l <? r)).
Proof.
  intros Hl Hr. assert (Hm : 1 <= MAX_UINT) by (unfold MAX_UINT; lia).
  unfold VersionNumber32_lt, VersionNumber32_gt, VersionNumber32_le, VersionNumber32_ge.
  unfold lev, gev. rewrite gtv_ltv.
  pose proof (ltv_trichotomy MAX_UINT Hm l r Hl Hr) as T.
  split; [done|]. split; [|split; [|split]].
  - destruct (Z.eqb_spec l r); destruct T as [(->&->&?)|[(->&->&?)|(->&->&?)]]; done.
  - destruct (Z.eqb_spec l r); destruct T as [(->&->&?)|[(->&->&?)|(->&->&?)]]; done.
  - by apply ltv_spec.
  - by apply ltv_window.
Qed.

Lemma version32_order_witness :
  VersionNumber32_le 5 MAX_UINT = negb (VersionNumber32_gt 5 MAX_UINT) /\
  VersionNumber32_gt 5 MAX_UINT = true.
Proof.
  split; [|vm_compute; reflexivity].
  apply (version32_order 5 MAX_UINT); unfold wfv, MAX_UINT; lia.
Defined.
