(* ===== verification/Calendar.v ===== *)
(** * Dates and time values (src/Base/Time/)

    The Julian day numbers of [Date], the conversions of [TimeInterval] and [TimeStamp]
    to the system's [timespec] and [timeval], and the duration [Timer::sleep] computes.
    Integers are [Z] with C's truncating division ([Z.quot], [Z.rem]); the theorems about
    dates carry the range in which no [int32] intermediate overflows. *)

From S2P Require Import Prelude.
Local Open Scope Z_scope.

(** [lia] reads quotients and remainders by constants as their euclidean equations. *)
#[local] Ltac Zify.zify_post_hook ::= Z.to_euclidean_division_equations.

(** ** Date.cpp *)

Record Date_data := mkDate { year : Z; month : Z; day : Z }.

(** The values the body of [get_julianDayNumber] computes, in order; the result is the
    last one. *)
Definition julian_terms (year month day : Z) : list Z :=
  let a := Z.quot (14 - month) 12 in
  let y := year + 4800 - a in
  let m := month + 12 * a - 3 in
  [14 - month; a; year + 4800; y; 12 * a; m; 153 * m + 2; Z.quot (153 * m + 2) 5;
   y * 365; Z.quot y 4; Z.quot y 100; Z.quot y 400;
   day + Z.quot (153 * m + 2) 5 + y * 365;
   day + Z.quot (153 * m + 2) 5 + y * 365 + Z.quot y 4 - Z.quot y 100 + Z.quot y 400 - 32045].

Definition get_julianDayNumber (year month day : Z) : Z :=
  let a := Z.quot (14 - month) 12 in
  let y := year + 4800 - a in
  let m := month + 12 * a - 3 in
  day + Z.quot (153 * m + 2) 5 + y * 365 + Z.quot y 4 - Z.quot y 100 + Z.quot y 400 - 32045.

Definition get_Date_data (julianDayNumber : Z) : Date_data :=
  let a := julianDayNumber + 32044 in
  let b := Z.quot (4 * a + 3) 146097 in
  let c := a - Z.quot (b * 146097) 4 in
  let d := Z.quot (4 * c + 3) 1461 in
  let e := c - Z.quot (1461 * d) 4 in
  let m := Z.quot (5 * e + 2) 153 in
  {| day := e - Z.quot (153 * m + 2) 5 + 1;
     month := m + 3 - 12 * Z.quot m 10;
     year := b * 100 + d - 4800 + Z.quot m 10 |}.

Definition Date_sub (left right : Z) : Z := left - right.
Definition Date_add_days (date days : Z) : Z := date + days.

(** The six operators [Date_operator] generates: the macro pastes its argument into the
    operator's name only, every body is [<]. *)
Definition Date_lt (left right : Z) : bool := left <? right.
Definition Date_le (left right : Z) : bool := left <? right.
Definition Date_gt (left right : Z) : bool := left <? right.
Definition Date_ge (left right : Z) : bool := left <? right.
Definition Date_eq (left right : Z) : bool := left <? right.
Definition Date_ne (left right : Z) : bool := left <? right.

(** ** TimeInterval.hpp *)

Definition US_ : Z := 1000.
Definition MS_ : Z := 1000000.
Definition SEC_ : Z := 1000000000.

(** Seconds and sub-second parts of [timespec] and [timeval]. *)
Record timespec := mkTimespec { tv_sec : Z; tv_nsec : Z }.
Record timeval := mkTimeval { tv_sec_ : Z; tv_usec : Z }.

Definition TimeInterval_of_timeval (tv : timeval) : Z := tv_sec_ tv * SEC_ + tv_usec tv * US_.
Definition TimeInterval_of_timespec (ts : timespec) : Z := tv_sec ts * SEC_ + tv_nsec ts.

Definition to_timeval (nanoseconds : Z) : timeval :=
  mkTimeval (Z.quot nanoseconds SEC_) (Z.quot (Z.rem nanoseconds SEC_) 1000).
Definition to_timespec (nanoseconds : Z) : timespec :=
  mkTimespec (Z.quot nanoseconds SEC_) (Z.rem nanoseconds SEC_).

(** ** TimeStamp.hpp *)

Definition coefficient : Z := 1000 * 1000.

Definition TimeStamp_of_timeval (tv : timeval) : Z := tv_sec_ tv * coefficient + tv_usec tv.
Definition TimeStamp_to_timeval (us : Z) : timeval :=
  mkTimeval (Z.quot us coefficient) (Z.quot (Z.rem us coefficient) 1000).
Definition TimeStamp_to_timespec (us : Z) : timespec :=
  mkTimespec (Z.quot us coefficient) (Z.rem us coefficient).

(** ** Timer.cpp: the [timespec] [Timer::sleep] passes to [nanosleep]; [None] is the
    early return. *)
Definition Timer_sleep (nanoseconds timeouts : Z) : option timespec :=
  if (timeouts <=? 0) || (nanoseconds <=? 0) then None
  else
    let sec := Z.quot nanoseconds SEC_ * timeouts in
    let nsec := Z.rem nanoseconds SEC_ in
    let sec := sec + Z.quot (timeouts * nsec) SEC_ in
    let nsec := nsec + Z.rem (timeouts * nsec) SEC_ in
    Some (mkTimespec sec nsec).

(** ** Civil dates *)

Definition leap (y : Z) : bool :=
  ((y mod 4 =? 0) && negb (y mod 100 =? 0)) || (y mod 400 =? 0).

Definition days_in_month (y m : Z) : Z :=
  if m =? 2 then if leap y then 29 else 28
  else if (m =? 4) || (m =? 6) || (m =? 9) || (m =? 11) then 30 else 31.

Definition valid_date (y m d : Z) : Prop := 1 <= m <= 12 /\ 1 <= d <= days_in_month y m.

Definition int32_ok (z : Z) : Prop := -2147483648 <= z <= 2147483647.

(** The day count of a year [Y] starting on 1 March and a day [k] of it. *)
Definition march_days (Y k : Z) : Z := 365 * Y + Y / 4 - Y / 100 + Y / 400 + k.

(** The first day of the [m]-th month from March. *)
Definition march_month (m : Z) : Z := (153 * m + 2) / 5.

Lemma julian_march y m d :
  -4799 <= y -> 1 <= m <= 12 ->
  get_julianDayNumber y m d =
    march_days (y + 4800 - (14 - m) / 12)
      (d - 1 + march_month (m + 12 * ((14 - m) / 12) - 3)) - 32044.
Proof.
  intros Hy Hm. unfold get_julianDayNumber, march_days, march_month.
  rewrite (Z.quot_div_nonneg (14 - m)) by lia.
  assert (Ha : (14 - m) / 12 = 0 /\ 3 <= m \/ (14 - m) / 12 = 1 /\ m <= 2) by lia.
  destruct Ha as [[-> ?]|[-> ?]]; rewrite !Z.quot_div_nonneg by lia; lia.
Qed.

(** Day 365 of a March year exists when the following February has 29 days. *)
Definition march_day_ok (Y k : Z) : Prop := 0 <= k <= 364 \/ (k = 365 /\ leap (Y + 1) = true).

Lemma leap_true y : leap y = true -> (y mod 4 = 0 /\ y mod 100 <> 0) \/ y mod 400 = 0.
Proof.
  unfold leap. rewrite orb_true_iff, andb_true_iff, negb_true_iff.
  rewrite !Z.eqb_eq, Z.eqb_neq. tauto.
Qed.

Lemma march_century Y k :
  0 <= Y -> march_day_ok Y k -> (4 * march_days Y k + 3) / 146097 = Y / 100.
Proof.
  intros HY Hk. unfold march_days. symmetry.
  apply Z.div_unique with (4 * (march_days Y k) + 3 - 146097 * (Y / 100)); unfold march_days; [|lia].
  left. destruct Hk as [?|[-> Hl%leap_true]]; lia.
Qed.

Lemma march_year_of_century Y k :
  0 <= Y -> march_day_ok Y k ->
  march_days Y k - Y / 100 * 146097 / 4 = 365 * (Y mod 100) + (Y mod 100) / 4 + k.
Proof. intros HY _. unfold march_days. lia. Qed.

Lemma march_year Y k :
  0 <= Y -> march_day_ok Y k ->
  (4 * (365 * (Y mod 100) + (Y mod 100) / 4 + k) + 3) / 1461 = Y mod 100.
Proof.
  intros HY Hk. symmetry.
  apply Z.div_unique with (4 * (365 * (Y mod 100) + (Y mod 100) / 4 + k) + 3 - 1461 * (Y mod 100)); [|lia].
  left. destruct Hk as [?|[-> Hl%leap_true]]; lia.
Qed.

Lemma march_month_inv m d :
  0 <= m <= 11 -> 0 <= d <= march_month (m + 1) - march_month m - 1 \/ (m = 11 /\ d = 28) ->
  (5 * (march_month m + d) + 2) / 153 = m.
Proof. unfold march_month. intros Hm Hd. lia. Qed.

(** [get_Date_data] splits a March day count into March year, month and day. *)
Lemma date_of_march Y k :
  0 <= Y -> march_day_ok Y k ->
  get_Date_data (march_days Y k - 32044) =
    let m := (5 * k + 2) / 153 in
    {| year := Y - 4800 + m / 10; month := m + 3 - 12 * (m / 10); day := k - march_month m + 1 |}.
Proof.
  intros HY Hk. assert (0 <= march_days Y k) by (unfold march_days, march_day_ok in *; lia).
  unfold get_Date_data. replace (march_days Y k - 32044 + 32044) with (march_days Y k) by lia.
  rewrite (Z.quot_div_nonneg (4 * march_days Y k + 3)) by lia. rewrite march_century by done.
  rewrite (Z.quot_div_nonneg (Y / 100 * 146097)) by lia. rewrite march_year_of_century by done.
  assert (0 <= k) by (destruct Hk; lia).
  rewrite (Z.quot_div_nonneg (4 * _ + 3)) by lia. rewrite march_year by done.
  rewrite (Z.quot_div_nonneg (1461 * _)) by lia.
  replace (365 * (Y mod 100) + Y mod 100 / 4 + k - 1461 * (Y mod 100) / 4) with k by lia.
  rewrite (Z.quot_div_nonneg (5 * k + 2)) by lia.
  rewrite !Z.quot_div_nonneg by lia. unfold march_month.
  cbv zeta. f_equal; lia.
Qed.

(** A valid civil date, as a March year and a day of it. *)
Lemma valid_march y m d :
  -4799 <= y -> valid_date y m d ->
  let a := (14 - m) / 12 in
  let M := m + 12 * a - 3 in
  0 <= M <= 11 /\ a = M / 10 /\
  march_day_ok (y + 4800 - a) (d - 1 + march_month M) /\
  (5 * (d - 1 + march_month M) + 2) / 153 = M.
Proof.
  intros Hy [Hm Hd] a M.
  assert (Ha : a = 0 /\ 3 <= m \/ a = 1 /\ m <= 2) by lia.
  assert (HM : 0 <= M <= 11 /\ a = M / 10) by lia.
  split; [tauto|]. split; [tauto|].
  assert (Hlen : 0 <= d - 1 <= march_month (M + 1) - march_month M - 1 /\ (M = 11 -> d - 1 <= 27) \/
                 (M = 11 /\ d - 1 = 28 /\ leap y = true)).
  { unfold days_in_month, march_month in *.
    destruct (Z.eqb_spec m 2) as [->|]; [destruct (leap y); lia|].
    revert Hd. zcases; simpl; lia. }
  split.
  - unfold march_day_ok, march_month in *. destruct Hlen as [?|(-> & -> & Hl)]; [left; lia|].
    right. split; [lia|]. assert (a = 1) as -> by lia. revert Hl. unfold leap.
    rewrite !orb_true_iff, !andb_true_iff, !negb_true_iff, !Z.eqb_eq, !Z.eqb_neq. lia.
  - replace (d - 1 + march_month M) with (march_month M + (d - 1)) by lia.
    apply march_month_inv; [lia|]. destruct Hlen; [left|right]; lia.
Qed.

Lemma date_of_julian y m d :
  -4799 <= y -> valid_date y m d ->
  get_Date_data (get_julianDayNumber y m d) = mkDate y m d.
Proof.
  intros Hy Hv. rewrite julian_march by (destruct Hv; lia).
  destruct (valid_march y m d Hy Hv) as (HM & Ha & Hok & Hm).
  rewrite date_of_march by (try lia; done). cbv zeta. rewrite Hm.
  unfold march_month in *. f_equal; lia.
Qed.

(** C13.  Round trip of dates: every valid civil date from 4800 B.C. to the year 1460000 is
    recovered by [get_Date_data] from its Julian day number, and no intermediate value of
    [get_julianDayNumber] leaves [int32]. *)
Theorem date_roundtrip y m d :
  -4799 <= y <= 1460000 -> valid_date y m d ->
  get_Date_data (get_julianDayNumber y m d) = mkDate y m d /\
  Forall int32_ok (julian_terms y m d) /\
  List.last (julian_terms y m d) 0 = get_julianDayNumber y m d.
Proof.
  intros Hy Hv. split; [apply date_of_julian; [lia|done]|]. split; [|reflexivity].
  destruct Hv as [Hm Hd].
  assert (Hd' : 1 <= d <= 31).
  { unfold days_in_month in Hd. destruct (m =? 2), (leap y); revert Hd; zcases; simpl; lia. }
  unfold julian_terms, int32_ok. repeat constructor; lia.
Qed.

Lemma date_roundtrip_witness :
  valid_date 2024 2 29 /\ get_Date_data (get_julianDayNumber 2024 2 29) = mkDate 2024 2 29.
Proof.
  assert (valid_date 2024 2 29) by (unfold valid_date; vm_compute; intuition congruence).
  split; [done|]. apply (date_roundtrip 2024 2 29); [lia | done].
Defined.

Lemma quot_bounds x k : 0 <= x -> 0 < k -> k * Z.quot x k <= x < k * Z.quot x k + k.
Proof.
  intros. rewrite Z.quot_div_nonneg by lia.
  pose proof (Z_div_mod_eq_full x k). pose proof (Z.mod_pos_bound x k). lia.
Qed.

(** Names a quotient and keeps only its bounds. *)
Ltac quot_var x k q H :=
  let Hq := fresh in
  assert (Hq : 0 <= x) by lia;
  pose proof (quot_bounds x k Hq ltac:(lia)) as H; clear Hq;
  generalize dependent (Z.quot x k); intros q H.

(**  The other way round: the date computed for a Julian day number from 4801 B.C. on
    has that day number, so [Date] loses nothing between the two forms. *)
Theorem julian_roundtrip n :
  -32044 <= n ->
  let D := get_Date_data n in
  get_julianDayNumber (year D) (month D) (day D) = n.
Proof.
  intros Hn. unfold get_Date_data, get_julianDayNumber. cbv zeta. cbn [year month day].
  quot_var (4 * (n + 32044) + 3) 146097 b Hb. quot_var (b * 146097) 4 r Hr.
  assert (Hc : 0 <= n + 32044 - r <= 36524) by lia.
  quot_var (4 * (n + 32044 - r) + 3) 1461 d Hd. quot_var (1461 * d) 4 s Hs.
  assert (He : 0 <= n + 32044 - r - s <= 365) by lia.
  quot_var (5 * (n + 32044 - r - s) + 2) 153 m Hm. quot_var (153 * m + 2) 5 t Ht.
  quot_var m 10 q Hq. assert (q = 0 \/ q = 1) by lia.
  quot_var (14 - (m + 3 - 12 * q)) 12 a Ha. assert (a = q) as -> by lia.
  replace (b * 100 + d - 4800 + q + 4800 - q) with (100 * b + d) by lia.
  replace (m + 3 - 12 * q + 12 * q - 3) with m by lia.
  assert (0 <= b /\ 0 <= d <= 99) by lia.
  quot_var (153 * m + 2) 5 t' Ht'.
  quot_var (100 * b + d) 4 u Hu. quot_var (100 * b + d) 100 v Hv. quot_var (100 * b + d) 400 w Hw.
  lia.
Qed.

Lemma julian_roundtrip_witness :
  let D := get_Date_data 2460370 in get_julianDayNumber (year D) (month D) (day D) = 2460370.
Proof. apply (julian_roundtrip 2460370). lia. Defined.

(**  [TimeInterval] and the system types: the [timespec] form loses nothing (for
    negative intervals too, C's division truncates), its parts have one sign and the
    nanoseconds stay below one second; the [timeval] form is within a microsecond. *)
Theorem time_interval_conversions ns :
  TimeInterval_of_timespec (to_timespec ns) = ns /\
  Z.abs (tv_nsec (to_timespec ns)) < SEC_ /\
  Z.abs (TimeInterval_of_timeval (to_timeval ns) - ns) < US_ /\
  (0 <= ns -> 0 <= tv_sec (to_timespec ns) /\ 0 <= tv_nsec (to_timespec ns)).
Proof.
  unfold TimeInterval_of_timespec, TimeInterval_of_timeval, to_timespec, to_timeval, SEC_, US_.
  cbn. repeat split; lia.
Qed.

(** ** Findings *)

(** Two equal dates are not [==], nor [<=]. *)
Lemma Date_eq_irreflexive d : Date_eq d d = false /\ Date_le d d = false.
Proof. unfold Date_eq, Date_le. split; apply Z.ltb_ge; lia. Qed.

(** [TimeStamp::to_timeval] divides the microseconds by 1000, so it does not invert the
    constructor: half a second comes back as half a millisecond. *)
Lemma TimeStamp_timeval_lossy :
  TimeStamp_of_timeval (TimeStamp_to_timeval 1500000) = 1000500.
Proof. reflexivity. Qed.

(** [Timer::sleep(1)] adds the sub-second part twice: a timer of 0.6 s asks for
    1.2e9 nanoseconds, which [nanosleep] rejects. *)
Lemma Timer_sleep_doubles :
  Timer_sleep 600000000 1 = Some (mkTimespec 0 1200000000).
Proof. reflexivity. Qed.
