(* ===== verification/RingBuffer.v ===== *)
(** * Ring buffers (src/Base/Buffer/RingBufferWrapper.*, src/Base/Detail/BufferArray.hpp)

    [RingBufferWrapper] keeps a block of [_size] bytes, a read and a write pointer into it
    and the number of readable bytes.  Pointers are offsets from [_buffer].  Every
    [memcpy] is an access to the block that faults outside it (and, inside one block, when
    its regions overlap); every [assert] is a fault too, so the theorems that an operation
    returns say it stays inside the block.

    The specification is a FIFO queue of bytes: [contents] reads a state as the queue. *)

From S2P Require Import Prelude.
Local Open Scope Z_scope.

Abbreviation byte := Z (only parsing).

(** ** BufferArray.hpp: an [iovec] is a base (an offset of the block) and a length. *)

Record iovec := mkIovec { iov_base : Z; iov_len : Z }.

Fixpoint array_advance (arr : list iovec) (step : Z) : list iovec :=
  match arr with
  | [] => []
  | v :: arr' =>
      if step =? 0 then arr
      else if iov_len v <? step
      then mkIovec (iov_base v + iov_len v) 0 :: array_advance arr' (step - iov_len v)
      else mkIovec (iov_base v + step) (iov_len v - step) :: array_advance arr' 0
  end.

Fixpoint array_size_of (arr : list iovec) : Z :=
  match arr with [] => 0 | v :: arr' => u64 (iov_len v + array_size_of arr') end.

(** ** State *)

Record ring := mkRing {
  _buffer : list byte;
  _read : Z;
  _write : Z;
  _readable : Z
}.

Definition _size (r : ring) : Z := zlen (_buffer r).

Definition ring_init (buf : list byte) : ring := mkRing buf 0 0 0.

Definition readable_len (r : ring) : Z := _readable r.
Definition writable_len (r : ring) : Z := _size r - _readable r.

Definition continuously_readable (r : ring) : Z :=
  let dis := _size r - _read r in
  if _readable r <=? dis then _readable r else dis.

Definition continuously_writable (r : ring) : Z :=
  if _write r <? _read r then _read r - _write r
  else if (_read r =? _write r) && negb (_readable r =? 0) then 0
  else _size r - _write r.

Definition is_empty (r : ring) : bool := (_read r =? _write r) && (_readable r =? 0).

(** ** Moving the pointers *)

Definition read_advance (step : Z) (r : ring) : res ring :=
  massert (step <=? readable_len r);;
  let rd := _read r + step in
  let rd := if _size r <=? rd then rd - _size r else rd in
  Ret (mkRing (_buffer r) rd (_write r) (_readable r - step)).

Definition read_back (step : Z) (r : ring) : res ring :=
  massert (step <=? writable_len r);;
  let rd := _read r - step in
  let rd := if rd <? 0 then rd + _size r else rd in
  Ret (mkRing (_buffer r) rd (_write r) (_readable r + step)).

Definition write_advance (step : Z) (r : ring) : res ring :=
  massert (step <=? writable_len r);;
  let wr := _write r + step in
  let wr := if _size r <=? wr then wr - _size r else wr in
  Ret (mkRing (_buffer r) (_read r) wr (_readable r + step)).

Definition write_back (step : Z) (r : ring) : res ring :=
  massert (step <=? readable_len r);;
  let wr := _write r - step in
  let wr := if wr <? 0 then wr + _size r else wr in
  Ret (mkRing (_buffer r) (_read r) wr (_readable r - step)).

Definition clear_input (r : ring) : res ring := read_advance (readable_len r) r.
Definition clear_output (r : ring) : res ring := read_advance (readable_len r) r.

(** ** Reading *)

(** The bytes [memcpy]'d from [from], continuing at the start of the block. *)
Definition read_from (r : ring) (from size : Z) : res (list byte) :=
  let len := _size r - from in
  if size <=? len then mem_read (_buffer r) from size
  else
    a ← mem_read (_buffer r) from len;
    b ← mem_read (_buffer r) 0 (size - len);
    Ret (a ++ b).

Definition read (size : Z) (r : ring) : res (list byte * ring) :=
  let size := if readable_len r <? size then readable_len r else size in
  data ← read_from r (_read r) size;
  r' ← read_advance size r;
  Ret (data, r').

(** [read(N, array)]: [lens] are the lengths of the destinations; the result is what was
    put in them, one after the other. *)
Fixpoint read_iov (lens : list Z) (r : ring) : res (list byte * ring) :=
  match lens with
  | [] => Ret ([], r)
  | n :: lens' =>
      if n =? 0 then read_iov lens' r
      else if readable_len r =? 0 then Ret ([], r)
      else
        '(data, r1) ← read (u32 n) r;
        '(rest, r2) ← read_iov lens' r1;
        Ret (data ++ rest, r2)
  end.

Definition try_read (size offset : Z) (r : ring) : res (list byte) :=
  if readable_len r <=? offset then Ret []
  else
    let size := if readable_len r <? u32 (offset + size) then readable_len r - offset else size in
    let read_record := _read r + offset in
    let read_record := if _size r <=? read_record then read_record - _size r else read_record in
    read_from r read_record size.

Fixpoint try_read_iov (lens : list Z) (offset read_size : Z) (r : ring) : res (list byte) :=
  match lens with
  | [] => Ret []
  | n :: lens' =>
      if n =? 0 then try_read_iov lens' offset read_size r
      else if readable_len r <=? u32 (offset + read_size) then Ret []
      else
        data ← try_read (u32 n) (u32 (offset + read_size)) r;
        rest ← try_read_iov lens' offset (u32 (read_size + zlen data)) r;
        Ret (data ++ rest)
  end.

Definition fix_read (size : Z) (r : ring) : res (list byte * ring) :=
  if readable_len r <? size then Ret ([], r) else read size r.

Definition fix_read_iov (lens : list Z) (r : ring) : res (list byte * ring) :=
  let size := foldl (fun s n => u64 (s + n)) 0 lens in
  if readable_len r <? size then Ret ([], r) else read_iov lens r.

(** ** Writing *)

(** The two [memcpy]s that put [data] at [from], continuing at the start of the block. *)
Definition write_at (buf : list byte) (from : Z) (data : list byte) : res (list byte) :=
  let len := zlen buf - from in
  b1 ← mem_write buf from (take (Z.to_nat len) data);
  mem_write b1 0 (drop (Z.to_nat len) data).

Definition write (target : list byte) (r : ring) : res (Z * ring) :=
  let writable := writable_len r in
  let size := if writable <? zlen target then writable else zlen target in
  let data := take (Z.to_nat size) target in
  buf ← (if _write r + size <=? _size r then mem_write (_buffer r) (_write r) data
         else write_at (_buffer r) (_write r) data);
  r' ← write_advance size (mkRing buf (_read r) (_write r) (_readable r));
  Ret (size, r').

Fixpoint write_iov (array : list (list byte)) (r : ring) : res (Z * ring) :=
  match array with
  | [] => Ret (0, r)
  | v :: array' =>
      if zlen v =? 0 then write_iov array' r
      else if writable_len r =? 0 then Ret (0, r)
      else
        '(n, r1) ← write v r;
        '(m, r2) ← write_iov array' r1;
        Ret (u32 (n + m), r2)
  end.

Definition fix_write (target : list byte) (r : ring) : res (Z * ring) :=
  if writable_len r <? zlen target then Ret (0, r) else write target r.

Definition fix_write_iov (array : list (list byte)) (r : ring) : res (Z * ring) :=
  let size := foldl (fun s v => u64 (s + zlen v)) 0 array in
  if writable_len r <? size then Ret (0, r) else write_iov array r.

Definition try_write (target : list byte) (offset : Z) (r : ring) : res (Z * ring) :=
  if writable_len r <=? offset then Ret (0, r)
  else
    let size := zlen target in
    let size := if writable_len r <? u32 (offset + size) then writable_len r - offset else size in
    let data := take (Z.to_nat size) target in
    let cw := continuously_writable r in
    buf ← (if cw <=? offset then mem_write (_buffer r) (offset - cw) data
           else
             let len := _size r - _write r - offset in
             let len := if size <? len then size else len in
             b1 ← mem_write (_buffer r) (_write r + offset) (take (Z.to_nat len) data);
             mem_write b1 0 (drop (Z.to_nat len) data));
    Ret (size, mkRing buf (_read r) (_write r) (_readable r)).

Definition change_written (offset : Z) (data : list byte) (r : ring) : res (Z * ring) :=
  if readable_len r <? offset then Ret (0, r)
  else
    let size := zlen data in
    let size := if readable_len r <? u32 (offset + size) then readable_len r - offset else size in
    let read_record := _read r + offset in
    let read_record := if _size r <=? read_record then read_record - _size r else read_record in
    let len := _size r - read_record in
    buf ← (if size <=? len then mem_write (_buffer r) read_record (take (Z.to_nat size) data)
           else write_at (_buffer r) read_record (take (Z.to_nat size) data));
    Ret (size, mkRing buf (_read r) (_write r) (_readable r)).

Fixpoint try_write_iov (array : list (list byte)) (offset written : Z) (r : ring)
  : res (Z * ring) :=
  match array with
  | [] => Ret (written, r)
  | v :: array' =>
      if zlen v =? 0 then try_write_iov array' offset written r
      else if writable_len r <=? u32 (offset + written) then Ret (written, r)
      else
        '(n, r1) ← try_write v (u32 (offset + written)) r;
        try_write_iov array' offset (u32 (written + n)) r1
  end.

Fixpoint change_written_iov (offset : Z) (array : list (list byte)) (written : Z) (r : ring)
  : res (Z * ring) :=
  match array with
  | [] => Ret (written, r)
  | v :: array' =>
      if zlen v =? 0 then change_written_iov offset array' written r
      else if readable_len r <=? u32 (offset + written) then Ret (written, r)
      else
        '(n, r1) ← change_written (u32 (offset + written)) v r;
        change_written_iov offset array' (u32 (written + n)) r1
  end.

(** ** Views of the block as two segments *)

Definition read_array (size offset : Z) (r : ring) : list iovec :=
  if readable_len r <=? offset then [mkIovec (_read r) 0; mkIovec 0 0]
  else
    let size := if readable_len r <? u32 (offset + size) then readable_len r - offset else size in
    let size := u32 (size + offset) in
    let len0 := if size <? continuously_readable r then size else continuously_readable r in
    array_advance [mkIovec (_read r) len0; mkIovec 0 (size - len0)] offset.

Definition write_array (size offset : Z) (r : ring) : list iovec :=
  if writable_len r <=? offset then [mkIovec (_read r) 0; mkIovec 0 0]
  else
    let size := if writable_len r <? size then writable_len r - offset else size in
    let size := u32 (size + offset) in
    let len0 := if size <? continuously_writable r then size else continuously_writable r in
    array_advance [mkIovec (_write r) len0; mkIovec 0 (size - len0)] offset.

Definition readable_array (r : ring) : res (list iovec) :=
  massert (continuously_readable r <=? readable_len r);;
  let len0 := continuously_readable r in
  Ret [mkIovec (_read r) len0; mkIovec 0 (readable_len r - len0)].

Definition writable_array (r : ring) : res (list iovec) :=
  massert (continuously_writable r <=? writable_len r);;
  let len0 := continuously_writable r in
  Ret [mkIovec (_write r) len0; mkIovec 0 (writable_len r - len0)].

(** What the segments of an array hold, and storing bytes into them in order. *)
Fixpoint array_get (buf : list byte) (arr : list iovec) : res (list (list byte)) :=
  match arr with
  | [] => Ret []
  | v :: arr' =>
      a ← mem_read buf (iov_base v) (iov_len v);
      rest ← array_get buf arr';
      Ret (a :: rest)
  end.

Fixpoint array_put (buf : list byte) (arr : list iovec) (data : list byte) : res (list byte) :=
  match arr with
  | [] => Ret buf
  | v :: arr' =>
      b ← mem_write buf (iov_base v) (take (Z.to_nat (iov_len v)) data);
      array_put b arr' (drop (Z.to_nat (iov_len v)) data)
  end.

(** [read(const OutputBuffer &, size)] into another ring, and the converse [write]. *)
Definition read_to (other : ring) (size : Z) (r : ring) : res (Z * ring * ring) :=
  let size := if readable_len r <? size then readable_len r else size in
  chunks ← array_get (_buffer r) (read_array size 0 r);
  '(n, other') ← write_iov chunks other;
  r' ← read_advance n r;
  Ret (n, other', r').

Definition write_from (other : ring) (size : Z) (r : ring) : res (Z * ring * ring) :=
  let size := if writable_len r <? size then writable_len r else size in
  let arr := write_array size 0 r in
  '(data, other') ← read_iov (map iov_len arr) other;
  buf ← array_put (_buffer r) arr data;
  r' ← write_advance (zlen data) (mkRing buf (_read r) (_write r) (_readable r));
  Ret (zlen data, other', r').

(** ** Moving the contents *)

Definition reposition (r : ring) : res ring :=
  if _read r =? 0 then Ret r
  else
    buf ←
      (if _read r + _readable r <=? _size r
       then mem_move (_buffer r) 0 (_read r) (_readable r)
       else
         let len := _size r - _read r in
         let another := _readable r - len in
         if len <? another then
           t ← mem_read (_buffer r) (_read r) len;
           b1 ← mem_copy (_buffer r) len 0 another;
           mem_write b1 0 t
         else
           t ← mem_read (_buffer r) 0 another;
           b1 ← mem_copy (_buffer r) 0 (_read r) len;
           mem_write b1 len t);
    Ret (mkRing buf 0 (_readable r) (_readable r)).

(** [resize(buf, size)]: the new block [buf] at address [buf_at], the old one at
    [old_at]; the result is the new state, the old block being returned to the caller. *)
Definition resize (buf : list byte) (buf_at old_at : Z) (r : ring) : res ring :=
  let size := zlen buf in
  massert (readable_len r <=? size);;
  let old_readable := readable_len r in
  buf' ←
    (if ((buf_at <=? old_at) && (old_at <? buf_at + size)) ||
        ((old_at <? buf_at) && (buf_at <? old_at + _size r))
     then
       r1 ← reposition r;
       data ← mem_read (_buffer r1) 0 old_readable;
       mem_write buf 0 data
     else
       '(data, _) ← read old_readable r;
       mem_write buf 0 data);
  write_advance old_readable (mkRing buf' 0 0 0).

(** ** The queue a state stands for *)

Definition contents (r : ring) : list byte :=
  slice (_read r) (_readable r) (_buffer r ++ _buffer r).

(** Where the writing continues, and where byte [i] of the queue is stored. *)
Definition ring_pos (r : ring) (i : Z) : Z :=
  if _read r + i <? _size r then _read r + i else _read r + i - _size r.

(** The invariant of a ring.  [reposition] may leave [_write] at the end of the block
    instead of wrapping it to the start; both stand for the same position. *)
Record ring_wf (r : ring) : Prop := {
  wf_size : _size r <= MAX_UINT;
  wf_readable : 0 <= _readable r <= _size r;
  wf_read : 0 <= _read r /\ (_read r < _size r \/ _size r = 0 /\ _read r = 0);
  wf_write : _write r = ring_pos r (_readable r) \/
             (ring_pos r (_readable r) = 0 /\ _write r = _size r)
}.

Lemma ring_init_wf buf : zlen buf <= MAX_UINT -> ring_wf (ring_init buf).
Proof.
  intros H. pose proof (zlen_nonneg buf).
  split; unfold _size, ring_pos, _size; cbn in *; try lia. zcases; lia.
Qed.

(** All facts of the invariant as linear arithmetic. *)
Ltac ring_arith :=
  unfold ring_pos, readable_len, writable_len, continuously_readable, continuously_writable,
    u32, MAX_UINT, _size in *; cbn [_buffer _read _write _readable] in *.

Ltac wf_facts Hwf :=
  let H1 := fresh "Hsz" in let H2 := fresh "Hrdb" in
  let H3 := fresh "Hrd" in let H4 := fresh "Hwr" in
  pose proof (wf_size _ Hwf) as H1; pose proof (wf_readable _ Hwf) as H2;
  pose proof (wf_read _ Hwf) as H3; pose proof (wf_write _ Hwf) as H4;
  ring_arith.

Ltac zsplit := repeat (case_decide || match goal with
  | |- context [if (?a <? ?b) then _ else _] => destruct (Z.ltb_spec a b)
  | |- context [if (?a <=? ?b) then _ else _] => destruct (Z.leb_spec a b)
  | H : context [if (?a <? ?b) then _ else _] |- _ => destruct (Z.ltb_spec a b)
  | H : context [if (?a <=? ?b) then _ else _] |- _ => destruct (Z.leb_spec a b)
  end).

Lemma contents_lookup r i :
  ring_wf r ->
  contents r !! i =
    if decide (Z.of_nat i < _readable r)
    then _buffer r !! Z.to_nat (ring_pos r (Z.of_nat i)) else None.
Proof.
  intros Hwf. wf_facts Hwf. unfold contents. rewrite lookup_slice.
  case_decide; [|done]. rewrite lookup_app_dec. unfold zlen in *.
  zsplit; f_equal; lia.
Qed.

Lemma zlen_contents r : ring_wf r -> zlen (contents r) = _readable r.
Proof.
  intros Hwf. wf_facts Hwf. unfold contents. apply zlen_slice, in_block_intro; [lia|lia|].
  rewrite zlen_app. lia.
Qed.

(** *** Moving the pointers *)

Lemma read_advance_spec n r :
  ring_wf r -> 0 <= n <= _readable r ->
  exists r', read_advance n r = Ret r' /\ ring_wf r' /\ _buffer r' = _buffer r /\
             _readable r' = _readable r - n /\ contents r' = drop (Z.to_nat n) (contents r).
Proof.
  intros Hwf Hn. unfold read_advance. rewrite massert_true by (apply Z.leb_le; apply Hn).
  rewrite bind_ret. eexists. split; [reflexivity|].
  assert (Hwf' : ring_wf (mkRing (_buffer r)
    (if _size r <=? _read r + n then _read r + n - _size r else _read r + n)
    (_write r) (_readable r - n))).
  { wf_facts Hwf. split; ring_arith; try lia; zsplit; lia. }
  split; [done|]. repeat split. apply list_eq. intros i.
  rewrite lookup_drop, !contents_lookup by done. wf_facts Hwf. zsplit; try lia; try done;
    f_equal; lia.
Qed.

Lemma write_advance_wf n r :
  ring_wf r -> 0 <= n <= writable_len r ->
  exists r', write_advance n r = Ret r' /\ ring_wf r' /\ _buffer r' = _buffer r /\
             _read r' = _read r /\ _readable r' = _readable r + n.
Proof.
  intros Hwf Hn. unfold write_advance. rewrite massert_true by (apply Z.leb_le; apply Hn).
  rewrite bind_ret. eexists. split; [reflexivity|]. repeat split; wf_facts Hwf; ring_arith;
    try lia; zsplit; lia.
Qed.

(** *** Reading *)

(** The two-part copy out of the block, from the place of byte [o] of the queue. *)
Lemma read_from_spec r o n :
  ring_wf r -> 0 <= o -> 0 <= n -> o + n <= _readable r ->
  read_from r (ring_pos r o) n = Ret (slice o n (contents r)).
Proof.
  intros Hwf Ho Hn Hon. unfold read_from.
  assert (Hp : 0 <= ring_pos r o <= _size r) by (wf_facts Hwf; zsplit; lia).
  destruct (Z.leb_spec n (_size r - ring_pos r o)).
  - rewrite mem_read_ok by (unfold _size in *; lia). f_equal. apply list_eq. intros i.
    rewrite !lookup_slice, contents_lookup by done. wf_facts Hwf. zsplit; try done; try lia;
      f_equal; lia.
  - rewrite !mem_read_ok by (wf_facts Hwf; zsplit; lia). cbn. f_equal. apply list_eq. intros i.
    rewrite lookup_app_dec, !lookup_slice, contents_lookup by done.
    rewrite zlen_slice by (apply in_block_intro; wf_facts Hwf; zsplit; lia).
    unfold slice. rewrite length_take, length_drop.
    wf_facts Hwf. unfold zlen in *. zsplit; try done; try lia; f_equal; lia.
Qed.

Lemma ring_pos_0 r : ring_wf r -> _read r = ring_pos r 0.
Proof. intros Hwf. wf_facts Hwf. zsplit; lia. Qed.

Lemma read_spec n r :
  ring_wf r -> 0 <= n ->
  exists r', read n r = Ret (take (Z.to_nat n) (contents r), r') /\ ring_wf r' /\
             contents r' = drop (Z.to_nat n) (contents r) /\
             _readable r' = _readable r - Z.min n (_readable r) /\ _buffer r' = _buffer r.
Proof.
  intros Hwf Hn. unfold read, readable_len.
  assert (Hrd : 0 <= _readable r) by apply (wf_readable _ Hwf).
  set (s := if _readable r <? n then _readable r else n).
  assert (Hs : s = Z.min n (_readable r)) by (subst s; zcases; lia).
  assert (E : read_from r (_read r) s = Ret (slice 0 s (contents r))).
  { rewrite (ring_pos_0 r Hwf). apply read_from_spec; (done || lia). }
  rewrite E. cbn. clear E.
  destruct (read_advance_spec s r Hwf) as (r' & -> & Hwf' & Hb & Hr & Hc); [lia|].
  cbn. exists r'. refine (conj _ (conj Hwf' (conj _ (conj _ Hb)))).
  - do 2 f_equal. unfold slice. rewrite drop_0. pose proof (zlen_contents r Hwf).
    unfold zlen in *. destruct (decide (n <= _readable r)); [f_equal; lia|].
    rewrite !take_ge by lia. done.
  - rewrite Hc. pose proof (zlen_contents r Hwf). unfold zlen in *.
    destruct (decide (n <= _readable r)); [f_equal; lia|]. rewrite !drop_ge by lia. done.
  - lia.
Qed.

(** *** Writing *)

(** Storing [data] behind byte [o] of the queue keeps the invariant and every byte of the
    queue below [o]. *)
Definition store (r : ring) (o : Z) (data : list byte) (buf : list byte) : Prop :=
  zlen buf = _size r /\
  forall i : nat, (Z.of_nat i < _size r) ->
    buf !! Z.to_nat (ring_pos r (Z.of_nat i)) =
      if decide (o <= Z.of_nat i < o + zlen data)
      then data !! (i - Z.to_nat o)%nat
      else _buffer r !! Z.to_nat (ring_pos r (Z.of_nat i)).

Lemma write_at_store r o data from :
  ring_wf r -> 0 <= o -> o + zlen data <= _size r ->
  (from = ring_pos r o \/ ring_pos r o = 0 /\ from = _size r) ->
  exists buf,
    (if from + zlen data <=? _size r then mem_write (_buffer r) from data
     else write_at (_buffer r) from data) = Ret buf /\ store r o data buf.
Proof.
  intros Hwf Ho Hlen Hfrom. pose proof (zlen_nonneg data).
  assert (Hf : 0 <= from <= _size r) by (wf_facts Hwf; zsplit; lia).
  destruct (Z.leb_spec (from + zlen data) (_size r)).
  - rewrite mem_write_ok by (unfold _size in *; lia). eexists. split; [reflexivity|].
    split; [apply zlen_blit, in_block_intro; unfold _size in *; lia|].
    intros i Hi. rewrite lookup_blit by (unfold _size in *; lia).
    wf_facts Hwf. zsplit; try done; try lia; f_equal; lia.
  - unfold write_at. fold (_size r).
    assert (Ht : zlen (take (Z.to_nat (_size r - from)) data) = _size r - from)
      by (apply zlen_take; lia).
    rewrite mem_write_ok by (rewrite ?Ht; unfold _size in *; lia). cbn.
    assert (Hb : zlen (blit from (take (Z.to_nat (_size r - from)) data) (_buffer r)) = _size r).
    { apply zlen_blit, in_block_intro; rewrite ?Ht; unfold _size in *; lia. }
    assert (Hd : zlen (drop (Z.to_nat (_size r - from)) data) = zlen data - (_size r - from)).
    { unfold zlen. rewrite length_drop. unfold zlen in *. lia. }
    rewrite mem_write_ok by (rewrite ?Hd, ?Hb; unfold _size in *; lia).
    eexists. split; [reflexivity|].
    split; [rewrite zlen_blit; [done|apply in_block_intro; rewrite ?Hd, ?Hb; unfold _size in *; lia]|].
    intros i Hi. rewrite lookup_blit by (rewrite ?Hd, ?Hb; unfold _size in *; lia).
    rewrite lookup_blit by (rewrite ?Ht; unfold _size in *; lia).
    rewrite Hd, Ht, lookup_drop. wf_facts Hwf.
    zsplit; try done; try lia; try (f_equal; lia);
      try (rewrite lookup_take_lt by lia; f_equal; lia).
Qed.

(** A ring whose block is replaced by one with the same queue. *)
Lemma store_contents r o data buf :
  ring_wf r -> store r o data buf -> _readable r <= o ->
  contents (mkRing buf (_read r) (_write r) (_readable r)) = contents r /\
  ring_wf (mkRing buf (_read r) (_write r) (_readable r)).
Proof.
  intros Hwf [Hl Hb] Ho.
  assert (Hwf' : ring_wf (mkRing buf (_read r) (_write r) (_readable r))).
  { destruct Hwf as [? ? ? ?]. split; unfold ring_pos, _size in *; cbn; rewrite ?Hl; auto. }
  split; [|done]. apply list_eq. intros i. rewrite !contents_lookup by done. cbn.
  case_decide; [|done].
  replace (ring_pos (mkRing buf (_read r) (_write r) (_readable r)) (Z.of_nat i))
    with (ring_pos r (Z.of_nat i)) by (unfold ring_pos, _size in *; cbn; by rewrite Hl).
  rewrite Hb by (wf_facts Hwf; lia). rewrite decide_False by lia. done.
Qed.

(** What the queue becomes when bytes stored behind it are committed. *)
Lemma store_commit r data buf r' :
  ring_wf r -> store r (_readable r) data buf -> ring_wf r' -> _buffer r' = buf ->
  _read r' = _read r -> _readable r' = _readable r + zlen data ->
  contents r' = contents r ++ data.
Proof.
  intros Hwf [Hl Hb] Hwf' Hbuf Hr Hn. pose proof (zlen_nonneg data). apply list_eq. intros i.
  rewrite lookup_app_dec, !contents_lookup by done. rewrite zlen_contents by done.
  assert (length (contents r) = Z.to_nat (_readable r)) as ->.
  { pose proof (zlen_contents r Hwf). unfold zlen in *. lia. }
  assert (Hp : ring_pos r' (Z.of_nat i) = ring_pos r (Z.of_nat i)).
  { unfold ring_pos, _size in *. by rewrite Hbuf, Hr, Hl. }
  rewrite Hbuf, Hn. wf_facts Hwf. pose proof (wf_readable _ Hwf') as Hrb.
  unfold _size in Hrb. rewrite Hbuf, Hn, Hl in Hrb. unfold _size in *.
  destruct (decide (Z.of_nat i < _readable r)).
  - rewrite decide_True by lia. fold (ring_pos r' (Z.of_nat i)).
    unfold ring_pos, _size in Hp. rewrite Hbuf, Hl, Hr. unfold _size. rewrite Hb by lia.
    rewrite decide_False by lia. done.
  - case_decide; [|rewrite lookup_ge_zlen by lia; done].
    rewrite Hbuf, Hl, Hr. unfold _size. rewrite Hb by lia. rewrite decide_True by lia. done.
Qed.

Lemma write_spec data r :
  ring_wf r ->
  exists r', write data r = Ret (Z.min (zlen data) (writable_len r), r') /\ ring_wf r' /\
             contents r' = contents r ++ take (Z.to_nat (writable_len r)) data /\
             _size r' = _size r.
Proof.
  intros Hwf. pose proof (zlen_nonneg data). unfold write. cbv zeta.
  assert (0 <= writable_len r) by (wf_facts Hwf; lia).
  set (n := if writable_len r <? zlen data then writable_len r else zlen data).
  assert (Hn : n = Z.min (zlen data) (writable_len r)) by (subst n; zcases; lia).
  assert (Ht : take (Z.to_nat n) data = take (Z.to_nat (writable_len r)) data).
  { unfold zlen in *. destruct (decide (zlen data <= writable_len r)); unfold zlen in *.
    - rewrite !take_ge by lia. done.
    - f_equal. lia. }
  assert (Hz : zlen (take (Z.to_nat n) data) = n) by (apply zlen_take; lia).
  destruct (write_at_store r (_readable r) (take (Z.to_nat n) data) (_write r))
    as (buf & E & Hst); [done|apply (wf_readable _ Hwf)|rewrite Hz; unfold writable_len in *; lia|
                         apply (wf_write _ Hwf)|].
  rewrite Hz in E. rewrite E. cbn.
  destruct (store_contents r _ _ buf Hwf Hst ltac:(lia)) as [Hc Hwf1].
  destruct (write_advance_wf n _ Hwf1) as (r' & -> & Hwf' & Hb & Hr & Hrb).
  { unfold writable_len, _size in *. cbn. destruct Hst as [-> _]. unfold _size. lia. }
  cbn. exists r'. rewrite Hn. refine (conj eq_refl (conj Hwf' (conj _ _))).
  - rewrite <- Ht. eapply store_commit; eauto. cbn in Hrb. lia.
  - unfold _size. rewrite Hb. cbn. apply Hst.
Qed.

(** *** Reading and overwriting inside the queue *)

Lemma offset_pos r o :
  ring_wf r -> 0 <= o <= _readable r ->
  (if _size r <=? _read r + o then _read r + o - _size r else _read r + o) = ring_pos r o.
Proof. intros Hwf Ho. unfold ring_pos. zcases; lia. Qed.

Lemma slice_past {A} o n (l : list A) : zlen l <= o -> slice o n l = [].
Proof.
  intros. unfold slice. rewrite drop_ge by (unfold zlen in *; lia). apply take_nil.
Qed.

Lemma try_read_spec n o r :
  ring_wf r -> 0 <= o -> 0 <= n -> o + n <= MAX_UINT ->
  try_read n o r = Ret (slice o n (contents r)).
Proof.
  intros Hwf Ho Hn Hw. pose proof (zlen_contents r Hwf) as Hz.
  unfold try_read, readable_len. destruct (Z.leb_spec (_readable r) o) as [|Hlt].
  { by rewrite slice_past by lia. }
  cbv zeta. rewrite offset_pos by (done || lia).
  unfold u32. rewrite Z.mod_small by (unfold MAX_UINT in *; lia).
  destruct (Z.ltb_spec (_readable r) (o + n)).
  - rewrite read_from_spec by (done || lia). f_equal. apply list_eq. intros i.
    rewrite !lookup_slice. repeat case_decide; try done; try lia.
    symmetry. apply lookup_ge_zlen. lia.
  - rewrite read_from_spec by (done || lia). done.
Qed.

Lemma contents_store r o data buf :
  ring_wf r -> store r o data buf -> 0 <= o -> o + zlen data <= _readable r ->
  contents (mkRing buf (_read r) (_write r) (_readable r)) = blit o data (contents r) /\
  ring_wf (mkRing buf (_read r) (_write r) (_readable r)).
Proof.
  intros Hwf [Hl Hb] Ho Hd. pose proof (zlen_contents r Hwf) as Hz.
  assert (Hwf' : ring_wf (mkRing buf (_read r) (_write r) (_readable r))).
  { destruct Hwf as [? ? ? ?]. split; unfold ring_pos, _size in *; cbn; rewrite ?Hl; auto. }
  split; [|done]. apply list_eq. intros i.
  rewrite lookup_blit, !contents_lookup by (done || lia). cbn.
  replace (ring_pos (mkRing buf (_read r) (_write r) (_readable r)) (Z.of_nat i))
    with (ring_pos r (Z.of_nat i)) by (unfold ring_pos, _size in *; cbn; by rewrite Hl).
  pose proof (zlen_nonneg data). pose proof (wf_readable _ Hwf).
  destruct (decide (Z.of_nat i < _readable r)).
  - rewrite Hb by lia. repeat case_decide; (done || lia).
  - rewrite decide_False by lia. done.
Qed.

Lemma change_written_store o data r :
  ring_wf r -> 0 <= o <= _readable r -> o + zlen data <= MAX_UINT ->
  exists buf, change_written o data r = Ret (Z.min (zlen data) (_readable r - o), mkRing buf (_read r) (_write r) (_readable r)) /\
              store r o (take (Z.to_nat (_readable r - o)) data) buf.
Proof.
  intros Hwf Ho Hw. pose proof (zlen_nonneg data). unfold change_written, readable_len. cbv zeta.
  rewrite (proj2 (Z.ltb_ge _ _)) by lia. rewrite offset_pos by done.
  unfold u32. rewrite (Z.mod_small (o + zlen data)) by (unfold MAX_UINT in *; lia).
  set (n := if _readable r <? o + zlen data then _readable r - o else zlen data).
  assert (Hn : n = Z.min (zlen data) (_readable r - o)) by (subst n; zcases; lia).
  assert (Ht : take (Z.to_nat n) data = take (Z.to_nat (_readable r - o)) data).
  { unfold zlen in *. destruct (decide (Z.of_nat (length data) <= _readable r - o)).
    - rewrite !take_ge by lia. done.
    - f_equal. lia. }
  assert (Hz : zlen (take (Z.to_nat n) data) = n) by (apply zlen_take; lia).
  pose proof (wf_readable _ Hwf).
  destruct (write_at_store r o (take (Z.to_nat n) data) (ring_pos r o))
    as (buf & E & Hst); [done|lia|rewrite Hz; lia|by left|].
  rewrite Hz in E.
  assert (E' : (if n <=? _size r - ring_pos r o
                then mem_write (_buffer r) (ring_pos r o) (take (Z.to_nat n) data)
                else write_at (_buffer r) (ring_pos r o) (take (Z.to_nat n) data)) = Ret buf).
  { rewrite <- E. zcases; (done || lia). }
  rewrite E'. cbn. exists buf. rewrite Hn. split; [reflexivity|]. by rewrite <- Ht.
Qed.

Lemma change_written_spec o data r :
  ring_wf r -> 0 <= o <= _readable r -> o + zlen data <= MAX_UINT ->
  exists r', change_written o data r = Ret (Z.min (zlen data) (_readable r - o), r') /\
             ring_wf r' /\ _size r' = _size r /\
             contents r' = blit o (take (Z.to_nat (_readable r - o)) data) (contents r).
Proof.
  intros Hwf Ho Hw. destruct (change_written_store o data r Hwf Ho Hw) as (buf & E & Hst).
  destruct (contents_store r o _ buf Hwf Hst) as [Hc Hwf']; [lia | |].
  { unfold zlen. rewrite length_take. lia. }
  eexists. split; [exact E |]. split; [exact Hwf'|]. split; [apply Hst | exact Hc].
Qed.

(** *** Segments *)

(** Advancing a two-segment array by no more than it holds. *)
Lemma array_advance_two b0 l0 b1 l1 o :
  0 <= l0 -> 0 <= o <= l0 + l1 ->
  array_advance [mkIovec b0 l0; mkIovec b1 l1] o =
    if l0 <? o then [mkIovec (b0 + l0) 0; mkIovec (b1 + (o - l0)) (l1 - (o - l0))]
    else [mkIovec (b0 + o) (l0 - o); mkIovec b1 l1].
Proof.
  intros H0 Ho. cbn [array_advance iov_base iov_len].
  destruct (Z.eqb_spec o 0) as [->|].
  - rewrite (proj2 (Z.ltb_ge _ _)) by lia. repeat f_equal; lia.
  - destruct (Z.ltb_spec l0 o); [|done]. f_equal.
    rewrite (proj2 (Z.eqb_neq _ _)) by lia. rewrite (proj2 (Z.ltb_ge _ _)) by lia. done.
Qed.

(** Loading from and storing to two segments. *)
Lemma array_get_two buf b0 l0 b1 l1 :
  0 <= b0 -> 0 <= l0 -> b0 + l0 <= zlen buf -> 0 <= b1 -> 0 <= l1 -> b1 + l1 <= zlen buf ->
  exists a b, array_get buf [mkIovec b0 l0; mkIovec b1 l1] = Ret [a; b] /\
    zlen (a ++ b) = l0 + l1 /\
    forall i : nat, (a ++ b) !! i =
      if decide (Z.of_nat i < l0) then buf !! Z.to_nat (b0 + Z.of_nat i)
      else if decide (Z.of_nat i < l0 + l1) then buf !! Z.to_nat (b1 + Z.of_nat i - l0) else None.
Proof.
  intros. cbn. rewrite !mem_read_ok by lia. cbn. eexists _, _. split; [reflexivity|].
  assert (HB0 : in_block b0 l0 buf = true) by (apply in_block_intro; lia).
  assert (HB1 : in_block b1 l1 buf = true) by (apply in_block_intro; lia).
  split; [rewrite zlen_app, !zlen_slice by done; done|]. intros i.
  rewrite lookup_app_dec, !lookup_slice, zlen_slice by done.
  assert (Hl : length (slice b0 l0 buf) = Z.to_nat l0).
  { pose proof (zlen_slice _ _ _ HB0) as Hl. unfold zlen in Hl. lia. }
  rewrite Hl. repeat case_decide; try done; try lia; f_equal; lia.
Qed.

Lemma array_put_two buf b0 l0 b1 l1 data :
  0 <= b0 -> 0 <= l0 -> b0 + l0 <= zlen buf -> 0 <= b1 -> 0 <= l1 -> b1 + l1 <= zlen buf ->
  l0 + l1 = zlen data ->
  exists buf', array_put buf [mkIovec b0 l0; mkIovec b1 l1] data = Ret buf' /\
    zlen buf' = zlen buf /\
    forall i : nat, buf' !! i =
      if decide (b1 <= Z.of_nat i < b1 + l1) then data !! Z.to_nat (l0 + Z.of_nat i - b1)
      else if decide (b0 <= Z.of_nat i < b0 + l0) then data !! Z.to_nat (Z.of_nat i - b0)
      else buf !! i.
Proof.
  intros Hb0 Hl0 Hf0 Hb1 Hl1 Hf1 Hd. cbn.
  assert (Hd1 : zlen (take (Z.to_nat l0) data) = l0) by (apply zlen_take; lia).
  assert (Hd2 : zlen (take (Z.to_nat l1) (drop (Z.to_nat l0) data)) = l1).
  { unfold zlen in *. rewrite length_take, length_drop. lia. }
  rewrite mem_write_ok by (rewrite ?Hd1; lia). cbn.
  assert (Hz : zlen (blit b0 (take (Z.to_nat l0) data) buf) = zlen buf).
  { apply zlen_blit, in_block_intro; rewrite ?Hd1; lia. }
  rewrite mem_write_ok by (rewrite ?Hd2, ?Hz; lia). cbn.
  eexists. split; [reflexivity|].
  split; [rewrite zlen_blit; [done|apply in_block_intro; rewrite ?Hd2, ?Hz; lia]|].
  intros i. rewrite !lookup_blit by (rewrite ?Hd2, ?Hd1, ?Hz; lia). rewrite Hd1, Hd2.
  repeat case_decide; try done; rewrite lookup_take_lt, ?lookup_drop by lia; f_equal; lia.
Qed.

(** Bytes [o] to [o + n] of the queue are in the two segments of [read_array n o]. *)
Lemma read_array_spec n o r :
  ring_wf r -> 0 <= o -> 0 <= n -> o + n <= MAX_UINT ->
  exists a b, array_get (_buffer r) (read_array n o r) = Ret [a; b] /\
              a ++ b = slice o n (contents r).
Proof.
  intros Hwf Ho Hn Hw. pose proof (zlen_contents r Hwf) as Hz.
  assert (Hrd : 0 <= _read r <= _size r) by (wf_facts Hwf; lia).
  unfold read_array, readable_len. destruct (Z.leb_spec (_readable r) o).
  { cbn. rewrite !mem_read_ok by (unfold _size in *; lia). cbn. rewrite !slice_zero.
    exists [], []. by rewrite slice_past by lia. }
  cbv zeta. unfold u32. rewrite (Z.mod_small (o + n)) by (unfold MAX_UINT in *; lia).
  set (m := if _readable r <? o + n then _readable r - o else n).
  assert (Hm : m = Z.min n (_readable r - o)) by (subst m; zcases; lia).
  assert (Hs : slice o n (contents r) = slice o m (contents r)).
  { apply list_eq. intros i. rewrite !lookup_slice. repeat case_decide; try done; try lia.
    apply lookup_ge_zlen. lia. }
  rewrite Hs. clearbody m. pose proof (wf_readable _ Hwf). pose proof (wf_size _ Hwf).
  rewrite Z.mod_small by (unfold MAX_UINT in *; lia).
  set (c := continuously_readable r).
  assert (Hc : c = Z.min (_readable r) (_size r - _read r)).
  { subst c. unfold continuously_readable. zcases; lia. }
  set (l0 := if m + o <? c then m + o else c).
  assert (Hl0 : l0 = Z.min (m + o) c) by (subst l0; zcases; lia). clearbody l0 c.
  assert (HN : _read r < _size r) by (destruct (wf_read _ Hwf); lia).
  rewrite array_advance_two by lia. clear Hs.
  destruct (Z.ltb_spec l0 o);
    (edestruct array_get_two as (a & b & E & Hab & Hl); [..|exists a, b; split; [exact E|]]);
    try (unfold _size in *; lia);
    apply list_eq; intros i; rewrite Hl, lookup_slice, contents_lookup by done;
    unfold ring_pos; clear Hwf Hab Hl Hz; zsplit; try done; try lia; f_equal; lia.
Qed.

(** The free segment that follows the write pointer ends at the end of the block, or holds
    all the free bytes. *)
Lemma continuously_writable_cases r :
  ring_wf r ->
  (continuously_writable r = _size r - _write r \/
   _write r + writable_len r <= _size r /\ continuously_writable r = writable_len r) /\
  0 <= continuously_writable r <= writable_len r.
Proof.
  intros Hwf. unfold continuously_writable. destruct Hwf as [? ? ? Hwr].
  unfold ring_pos, writable_len in *.
  destruct (Z.ltb_spec (_write r) (_read r));
    [|destruct (Z.eqb_spec (_read r) (_write r)), (Z.eqb_spec (_readable r) 0); cbn];
    revert Hwr; zcases; lia.
Qed.

(** The free part of the block, as [write_array] cuts it: storing [data] in the segments
    of [write_array n 0] puts it behind the queue. *)
Lemma write_array_store n data r :
  ring_wf r -> 0 <= n -> zlen data = Z.min n (writable_len r) ->
  exists buf, array_put (_buffer r) (write_array n 0 r) data = Ret buf /\
              store r (_readable r) data buf /\
              foldl Z.add 0 (map iov_len (write_array n 0 r)) = zlen data.
Proof.
  intros Hwf Hn Hd. pose proof (zlen_nonneg data) as Hd0.
  assert (Hrw : 0 <= _write r <= _size r /\ 0 <= _read r <= _size r) by (wf_facts Hwf; zsplit; lia).
  pose proof (wf_size _ Hwf) as Hsz. pose proof (wf_readable _ Hwf) as Hrb.
  unfold write_array. rewrite !Z.sub_0_r. destruct (Z.leb_spec (writable_len r) 0).
  { destruct (array_put_two (_buffer r) (_read r) 0 0 0 data) as (buf & E & Hl & Hi);
      [unfold writable_len, _size in *; lia..|].
    exists buf. split; [exact E|]. split; [|cbn; unfold writable_len in *; lia].
    split; [exact Hl|]. intros i Hi'. rewrite Hi. unfold writable_len in *.
    repeat case_decide; (done || lia). }
  set (m := if writable_len r <? n then writable_len r else n).
  assert (Hm : m = zlen data) by (subst m; zcases; lia). clearbody m. subst m.
  rewrite Z.add_0_r. unfold u32. rewrite Z.mod_small by (unfold MAX_UINT, writable_len in *; lia).
  set (c := continuously_writable r).
  pose proof (continuously_writable_cases r Hwf) as Hc. fold c in Hc.
  set (l0 := if zlen data <? c then zlen data else c).
  assert (Hl0 : l0 = Z.min (zlen data) c) by (subst l0; zcases; lia). clearbody l0 c.
  assert (Hc0 : 0 <= c) by lia.
  cbn [array_advance]. rewrite Z.eqb_refl.
  destruct (array_put_two (_buffer r) (_write r) l0 0 (zlen data - l0) data) as (buf & E & Hl & Hi);
    [unfold writable_len, _size in *; lia..|].
  exists buf. split; [exact E|]. split; [|cbn; lia]. split; [exact Hl|].
  intros i Hi'. rewrite Hi. clear E Hi Hl. assert (HN : 0 <= _read r < _size r) by (destruct (wf_read _ Hwf); lia).
  destruct (wf_write _ Hwf) as [Hw|[Hp Hw]]; unfold ring_pos, writable_len in *; clear Hwf;
    revert Hw; try revert Hp; zsplit; intros; try done; try lia; f_equal; lia.
Qed.
