(* ===== verification/RingQueue.v ===== *)
(** * The ring buffer as a FIFO queue

    The abstract specification of RingBuffer.v: a queue of bytes with the free bytes behind
    it, its operations, and the refinement theorem that a ring returns the queue's answers on
    every sequence of operations.  Then the operations outside the queue's interface: segments,
    transfers between rings, [reposition] and [resize]. *)

From S2P Require Import Prelude RingBuffer.
Local Open Scope Z_scope.

(** ** The specification *)

(** The queued bytes, and the free bytes of the block in the order in which they will be
    written over: the last of them are those that were read last. *)
Record queue := mkQueue { items : list byte; spare : list byte }.

Definition room (q : queue) : Z := zlen (spare q).

Inductive ring_op :=
  | OpRead (n : Z)
  | OpFixRead (n : Z)
  | OpTryRead (n offset : Z)
  | OpWrite (data : list byte)
  | OpFixWrite (data : list byte)
  | OpTryWrite (data : list byte) (offset : Z)
  | OpChange (offset : Z) (data : list byte)
  | OpAdvance (n : Z)
  | OpReadBack (n : Z)
  | OpWriteAdvance (n : Z)
  | OpWriteBack (n : Z)
  | OpClear.

Inductive answer := Bytes (data : list byte) | Count (n : Z) | Done.

(** Taking [n] bytes from the front, putting bytes behind. *)
Definition dequeue (n : Z) (q : queue) : queue :=
  mkQueue (drop (Z.to_nat n) (items q)) (spare q ++ take (Z.to_nat n) (items q)).
Definition enqueue (data : list byte) (q : queue) : queue :=
  mkQueue (items q ++ data) (drop (length data) (spare q)).

(** What each operation answers on a queue and what queue it leaves. *)
Definition queue_step (o : ring_op) (q : queue) : answer * queue :=
  match o with
  | OpRead n => (Bytes (take (Z.to_nat n) (items q)), dequeue n q)
  | OpFixRead n =>
      if zlen (items q) <? n then (Bytes [], q)
      else (Bytes (take (Z.to_nat n) (items q)), dequeue n q)
  | OpTryRead n o => (Bytes (slice o n (items q)), q)
  | OpWrite data =>
      (Count (Z.min (zlen data) (room q)), enqueue (take (Z.to_nat (room q)) data) q)
  | OpFixWrite data =>
      if room q <? zlen data then (Count 0, q) else (Count (zlen data), enqueue data q)
  | OpTryWrite data o =>
      if room q <=? o then (Count 0, q)
      else (Count (Z.min (zlen data) (room q - o)),
            mkQueue (items q) (blit o (take (Z.to_nat (room q - o)) data) (spare q)))
  | OpChange o data =>
      if zlen (items q) <? o then (Count 0, q)
      else (Count (Z.min (zlen data) (zlen (items q) - o)),
            mkQueue (blit o (take (Z.to_nat (zlen (items q) - o)) data) (items q)) (spare q))
  | OpAdvance n => (Done, dequeue n q)
  | OpReadBack n =>
      (Done, mkQueue (drop (Z.to_nat (room q - n)) (spare q) ++ items q)
               (take (Z.to_nat (room q - n)) (spare q)))
  | OpWriteAdvance n => (Done, enqueue (take (Z.to_nat n) (spare q)) q)
  | OpWriteBack n =>
      let keep := Z.to_nat (zlen (items q) - n) in
      (Done, mkQueue (take keep (items q)) (drop keep (items q) ++ spare q))
  | OpClear => (Done, mkQueue [] (spare q ++ items q))
  end.

(** The arguments the callers may pass: counts are unsigned, [offset + size] stays an
    unsigned 32-bit number, and the pointers are not moved further than the bytes there are. *)
Definition op_ok (o : ring_op) (q : queue) : bool :=
  match o with
  | OpRead n | OpFixRead n => 0 <=? n
  | OpTryRead n o => (0 <=? n) && (0 <=? o) && (o + n <=? MAX_UINT)
  | OpWrite _ | OpFixWrite _ | OpClear => true
  | OpTryWrite data o | OpChange o data => (0 <=? o) && (o + zlen data <=? MAX_UINT)
  | OpAdvance n | OpWriteBack n => (0 <=? n) && (n <=? zlen (items q))
  | OpReadBack n | OpWriteAdvance n => (0 <=? n) && (n <=? room q)
  end.

(** The same operations on a ring. *)
Definition ring_step (o : ring_op) (r : ring) : res (answer * ring) :=
  match o with
  | OpRead n => '(d, r') ← read n r; Ret (Bytes d, r')
  | OpFixRead n => '(d, r') ← fix_read n r; Ret (Bytes d, r')
  | OpTryRead n o => d ← try_read n o r; Ret (Bytes d, r)
  | OpWrite data => '(n, r') ← write data r; Ret (Count n, r')
  | OpFixWrite data => '(n, r') ← fix_write data r; Ret (Count n, r')
  | OpTryWrite data o => '(n, r') ← try_write data o r; Ret (Count n, r')
  | OpChange o data => '(n, r') ← change_written o data r; Ret (Count n, r')
  | OpAdvance n => r' ← read_advance n r; Ret (Done, r')
  | OpReadBack n => r' ← read_back n r; Ret (Done, r')
  | OpWriteAdvance n => r' ← write_advance n r; Ret (Done, r')
  | OpWriteBack n => r' ← write_back n r; Ret (Done, r')
  | OpClear => r' ← clear_input r; Ret (Done, r')
  end.

Fixpoint ring_run (os : list ring_op) (r : ring) : res (list answer * ring) :=
  match os with
  | [] => Ret ([], r)
  | o :: os' =>
      '(a, r1) ← ring_step o r;
      '(rest, r2) ← ring_run os' r1;
      Ret (a :: rest, r2)
  end.

Fixpoint queue_run (os : list ring_op) (q : queue) : list answer * queue :=
  match os with
  | [] => ([], q)
  | o :: os' =>
      let '(a, q1) := queue_step o q in
      let '(rest, q2) := queue_run os' q1 in (a :: rest, q2)
  end.

Fixpoint ops_ok (os : list ring_op) (q : queue) : bool :=
  match os with
  | [] => true
  | o :: os' => op_ok o q && ops_ok os' (queue_step o q).2
  end.

(** The block from the reading position on, once round; the free bytes are behind the
    readable ones. *)
Definition cells (r : ring) : list byte := slice (_read r) (_size r) (_buffer r ++ _buffer r).

Definition abs_ring (r : ring) : queue :=
  mkQueue (contents r) (drop (Z.to_nat (_readable r)) (cells r)).

(** ** The block seen from the reading position *)

Lemma cells_lookup r i :
  ring_wf r ->
  cells r !! i =
    if decide (Z.of_nat i < _size r) then _buffer r !! Z.to_nat (ring_pos r (Z.of_nat i)) else None.
Proof.
  intros Hwf. wf_facts Hwf. unfold cells. rewrite lookup_slice. unfold _size.
  case_decide; [|done]. rewrite lookup_app_dec. unfold zlen in *. zsplit; f_equal; lia.
Qed.

Lemma zlen_cells r : ring_wf r -> zlen (cells r) = _size r.
Proof.
  intros Hwf. wf_facts Hwf. unfold cells, _size. apply zlen_slice, in_block_intro; [lia|lia|].
  rewrite zlen_app. lia.
Qed.

Lemma contents_cells r : ring_wf r -> contents r = take (Z.to_nat (_readable r)) (cells r).
Proof.
  intros Hwf. apply list_eq. intros i. rewrite contents_lookup by done. pose proof (wf_readable _ Hwf).
  destruct (decide (Z.of_nat i < _readable r)).
  - rewrite lookup_take_lt, cells_lookup by (done || lia). by rewrite decide_True by lia.
  - by rewrite lookup_take_ge by lia.
Qed.

Lemma room_abs r : ring_wf r -> room (abs_ring r) = writable_len r.
Proof.
  intros Hwf. unfold room, writable_len. cbn. pose proof (zlen_cells r Hwf). pose proof (wf_readable _ Hwf).
  unfold zlen in *. rewrite length_drop. lia.
Qed.

(** Two states with the same bytes in the same order differ in how many are readable. *)
Lemma abs_same_cells r r' n :
  ring_wf r -> ring_wf r' -> cells r' = cells r -> _readable r' = n ->
  abs_ring r' = mkQueue (take (Z.to_nat n) (cells r)) (drop (Z.to_nat n) (cells r)).
Proof. intros Hwf Hwf' Hc <-. unfold abs_ring. by rewrite contents_cells, Hc. Qed.

Lemma cells_same r r' : _buffer r' = _buffer r -> _read r' = _read r -> cells r' = cells r.
Proof. intros Hb Hr. unfold cells, _size. by rewrite Hb, Hr. Qed.

(** The reading position moved by [n], once round at most. *)
Lemma cells_rotate r r' n :
  ring_wf r -> ring_wf r' -> _buffer r' = _buffer r -> 0 <= n <= _size r ->
  _read r' = (if _size r <=? _read r + n then _read r + n - _size r else _read r + n) ->
  cells r' = drop (Z.to_nat n) (cells r) ++ take (Z.to_nat n) (cells r).
Proof.
  intros Hwf Hwf' Hb Hn Hr. pose proof (zlen_cells r Hwf) as Hz. apply list_eq. intros i.
  rewrite lookup_app_dec, length_drop, lookup_drop, !cells_lookup by done.
  assert (Hs : _size r' = _size r) by (unfold _size; by rewrite Hb). rewrite Hs.
  assert (Hd : zlen (drop (Z.to_nat n) (cells r)) = _size r - n) by (unfold zlen in *; rewrite length_drop; lia).
  rewrite Hd. unfold zlen in Hz. clear Hd.
  assert (0 <= _read r < _size r \/ _size r = 0 /\ _read r = 0) by (destruct (wf_read _ Hwf); lia).
  unfold ring_pos. rewrite Hs, Hr, Hb. destruct (decide (Z.of_nat i < _size r - n)).
  - rewrite !decide_True by lia. zsplit; f_equal; lia.
  - destruct (decide (Z.of_nat i < _size r)).
    + rewrite lookup_take_lt, cells_lookup by (done || lia). rewrite decide_True by lia.
      unfold ring_pos. zsplit; f_equal; lia.
    + by rewrite lookup_take_ge by lia.
Qed.

(** What [store] puts into the block. *)
Lemma store_cells r o data buf :
  ring_wf r -> store r o data buf -> 0 <= o -> o + zlen data <= _size r ->
  let r' := mkRing buf (_read r) (_write r) (_readable r) in
  ring_wf r' /\ cells r' = blit o data (cells r).
Proof.
  intros Hwf [Hl Hb] Ho Hd. cbv zeta. pose proof (zlen_cells r Hwf) as Hz.
  assert (Hwf' : ring_wf (mkRing buf (_read r) (_write r) (_readable r))).
  { destruct Hwf as [? ? ? ?]. split; unfold ring_pos, _size in *; cbn; rewrite ?Hl; auto. }
  split; [done|]. apply list_eq. intros i. rewrite lookup_blit, !cells_lookup by (done || lia).
  assert (Hs : _size (mkRing buf (_read r) (_write r) (_readable r)) = _size r)
    by (unfold _size in *; cbn; by rewrite Hl). rewrite Hs. cbn [_buffer].
  replace (ring_pos (mkRing buf (_read r) (_write r) (_readable r)) (Z.of_nat i))
    with (ring_pos r (Z.of_nat i)) by (unfold ring_pos in *; by rewrite Hs).
  pose proof (zlen_nonneg data). destruct (decide (Z.of_nat i < _size r)).
  - rewrite Hb by lia. repeat case_decide; (done || lia).
  - rewrite decide_False by lia. done.
Qed.

(** ** Each operation refines the queue's *)

Lemma write_back_spec n r :
  ring_wf r -> 0 <= n <= _readable r ->
  exists r', write_back n r = Ret r' /\ ring_wf r' /\ _size r' = _size r /\
             contents r' = take (Z.to_nat (_readable r - n)) (contents r).
Proof.
  intros Hwf Hn. unfold write_back. rewrite massert_true by (apply Z.leb_le; apply Hn).
  rewrite bind_ret. eexists. split; [reflexivity|].
  assert (Hwf' : ring_wf (mkRing (_buffer r) (_read r)
    (if _write r - n <? 0 then _write r - n + _size r else _write r - n) (_readable r - n))).
  { wf_facts Hwf. split; ring_arith; try lia; zsplit; lia. }
  split; [done|]. split; [done|]. apply list_eq. intros i. rewrite contents_lookup by done. cbn.
  destruct (decide (Z.of_nat i < _readable r - n)).
  - rewrite lookup_take_lt, contents_lookup by (done || lia). rewrite decide_True by lia. done.
  - rewrite lookup_take_ge by lia. done.
Qed.

(** Where [try_write] puts its first byte. *)
Lemma try_write_pos o r :
  ring_wf r -> 0 <= o < writable_len r ->
  if continuously_writable r <=? o
  then ring_pos r (_readable r + o) = o - continuously_writable r /\
       o - continuously_writable r + (writable_len r - o) <= _size r
  else ring_pos r (_readable r + o) = _write r + o.
Proof.
  intros Hwf Ho. pose proof (wf_readable _ Hwf). pose proof (wf_read _ Hwf).
  pose proof (wf_write _ Hwf) as Hwr. clear Hwf. unfold continuously_writable, ring_pos, writable_len in *.
  destruct (Z.ltb_spec (_write r) (_read r));
    [|destruct (Z.eqb_spec (_read r) (_write r)), (Z.eqb_spec (_readable r) 0); cbn [andb negb]];
    revert Hwr; zcases; lia.
Qed.

Lemma mem_write_nil {A} o (l : list A) : 0 <= o <= zlen l -> mem_write l o [] = Ret l.
Proof.
  intros Ho. rewrite mem_write_ok by (rewrite ?zlen_nil; lia). f_equal.
  unfold blit. rewrite zlen_nil, Z.add_0_r. cbn. apply take_drop.
Qed.

(** [try_write] stores behind the queue, at [offset] bytes from its end. *)
Lemma try_write_store data o r :
  ring_wf r -> 0 <= o -> o + zlen data <= MAX_UINT ->
  exists buf n, try_write data o r = Ret (n, mkRing buf (_read r) (_write r) (_readable r)) /\
                n = Z.max 0 (Z.min (zlen data) (writable_len r - o)) /\
                store r (_readable r + o) (take (Z.to_nat n) data) buf.
Proof.
  intros Hwf Ho Hw. pose proof (zlen_nonneg data). unfold try_write.
  destruct (Z.leb_spec (writable_len r) o) as [|Hor].
  { exists (_buffer r), 0. split; [by destruct r|]. split; [lia|]. split; [done|]. intros i Hi.
    change (take (Z.to_nat 0) data) with (@nil Z). rewrite zlen_nil, decide_False by lia. done. }
  cbv zeta. unfold u32. rewrite Z.mod_small by (unfold MAX_UINT in *; lia).
  set (n := if writable_len r <? o + zlen data then writable_len r - o else zlen data).
  assert (Hn : n = Z.min (zlen data) (writable_len r - o)) by (subst n; zcases; lia).
  clearbody n. set (d := take (Z.to_nat n) data).
  assert (Hz : zlen d = n) by (apply zlen_take; lia).
  pose proof (try_write_pos o r Hwf ltac:(lia)) as Hp.
  destruct (write_at_store r (_readable r + o) d (ring_pos r (_readable r + o)))
    as (buf & E & Hst); [done|wf_facts Hwf; lia|unfold writable_len in *; lia|by left|].
  exists buf, n. split; [|split; [lia|done]].
  rewrite <- (bind_ret buf (fun b => Ret (n, mkRing b (_read r) (_write r) (_readable r)))).
  f_equal. rewrite <- E. clear E Hst. rewrite Hz.
  assert (Hpos : 0 <= ring_pos r (_readable r + o)).
  { clear Hp. wf_facts Hwf. zsplit; lia. }
  destruct (Z.leb_spec (continuously_writable r) o) as [Hco|Hco].
  { destruct Hp as [-> Hp]. rewrite (proj2 (Z.leb_le _ _)) by lia. done. }
  rewrite Hp in *. replace (_size r - _write r - o) with (_size r - (_write r + o)) by lia.
  destruct (Z.leb_spec (_write r + o + n) (_size r)).
  - rewrite (take_ge d), (drop_ge d) by (unfold zlen in *; zcases; lia).
    rewrite mem_write_ok by (rewrite ?Hz; unfold _size in *; lia).
    rewrite bind_ret. apply mem_write_nil. rewrite zlen_blit; [pose proof (zlen_nonneg (_buffer r)); lia|].
    apply in_block_intro; rewrite ?Hz; unfold _size in *; lia.
  - unfold write_at. fold (_size r). rewrite (proj2 (Z.ltb_ge _ _)) by lia. done.
Qed.

Lemma advance_abs n r :
  ring_wf r -> 0 <= n <= _readable r ->
  exists r', read_advance n r = Ret r' /\ ring_wf r' /\ abs_ring r' = dequeue n (abs_ring r).
Proof.
  intros Hwf Hn. pose proof (zlen_cells r Hwf) as Hz. pose proof (wf_readable _ Hwf) as Hrd.
  destruct (read_advance_spec n r Hwf Hn) as (r' & E & Hwf' & Hb & Hr & Hc).
  exists r'. split; [done|]. split; [done|].
  assert (Hp : _read r' = if _size r <=? _read r + n then _read r + n - _size r else _read r + n).
  { unfold read_advance in E. by minv. }
  unfold abs_ring, dequeue. cbn [items spare]. rewrite Hc, Hr. f_equal.
  rewrite (cells_rotate r r' n) by (done || lia).
  rewrite drop_app_le by (unfold zlen in *; rewrite length_drop; lia).
  rewrite drop_drop, contents_cells, take_take by done. f_equal; f_equal; lia.
Qed.

Lemma dequeue_min n q : dequeue (Z.min n (zlen (items q))) q = dequeue n q.
Proof.
  unfold dequeue. destruct (Z.le_ge_cases n (zlen (items q))); [by rewrite Z.min_l|].
  rewrite Z.min_r by done. unfold zlen in *.
  by rewrite !drop_ge, !take_ge by lia.
Qed.

Lemma read_abs n r :
  ring_wf r -> 0 <= n ->
  exists r', read n r = Ret (take (Z.to_nat n) (contents r), r') /\ ring_wf r' /\
             abs_ring r' = dequeue n (abs_ring r).
Proof.
  intros Hwf Hn. pose proof (zlen_contents r Hwf) as Hz. pose proof (wf_readable _ Hwf).
  destruct (read_spec n r Hwf Hn) as (r' & E & Hwf' & _). exists r'. split; [exact E|]. split; [done|].
  unfold read in E. cbv zeta in E. destruct (read_from _ _ _) as [d|]; [|done]. rewrite bind_ret in E.
  unfold readable_len in E.
  replace (if _readable r <? n then _readable r else n) with (Z.min n (_readable r)) in E by (zcases; lia).
  destruct (advance_abs (Z.min n (_readable r)) r Hwf) as (r1 & E1 & _ & Ha); [lia|].
  rewrite E1, bind_ret in E. injection E as _ <-. rewrite Ha, <- Hz. apply (dequeue_min n (abs_ring r)).
Qed.

(** Bytes stored behind the queue and committed. *)
Lemma commit_abs data buf r :
  ring_wf r -> store r (_readable r) data buf -> zlen data <= writable_len r ->
  exists r', write_advance (zlen data) (mkRing buf (_read r) (_write r) (_readable r)) = Ret r' /\
             ring_wf r' /\ abs_ring r' = enqueue data (abs_ring r).
Proof.
  intros Hwf Hst Hd. pose proof (zlen_cells r Hwf) as Hz. pose proof (wf_readable _ Hwf).
  pose proof (zlen_nonneg data). unfold writable_len in *.
  destruct (store_cells r _ data buf Hwf Hst) as [Hwf1 Hc]; [lia..|].
  destruct (write_advance_wf (zlen data) _ Hwf1) as (r' & E & Hwf' & Hb & Hr & Hrb).
  { unfold writable_len, _size in *. cbn. destruct Hst as [-> _]. unfold _size. lia. }
  exists r'. split; [done|]. split; [done|].
  rewrite (abs_same_cells _ r' (_readable r + zlen data) Hwf1 Hwf' (cells_same _ _ Hb Hr) Hrb), Hc.
  unfold enqueue, abs_ring. cbn [items spare]. rewrite contents_cells by done. unfold zlen in *. f_equal.
  - apply list_eq. intros i. rewrite lookup_app_dec, length_take. unfold zlen in *.
    destruct (decide (i < Z.to_nat (_readable r + Z.of_nat (length data)))%nat).
    + rewrite lookup_take_lt, lookup_blit by (unfold zlen; lia). unfold zlen.
      rewrite length_take. repeat case_decide; try lia; rewrite ?lookup_take_lt by lia; f_equal; lia.
    + rewrite lookup_take_ge by lia. rewrite length_take.
      case_decide; [lia|]. symmetry. apply lookup_ge_None. lia.
  - rewrite drop_drop. apply list_eq. intros i. rewrite !lookup_drop, lookup_blit by (unfold zlen; lia).
    unfold zlen. rewrite decide_False by lia. f_equal. lia.
Qed.

Lemma take_zmin {A} (l : list A) k : take (Z.to_nat (Z.min (zlen l) k)) l = take (Z.to_nat k) l.
Proof.
  unfold zlen. destruct (Z.le_ge_cases (Z.of_nat (length l)) k);
    [rewrite !take_ge by lia; done | f_equal; lia].
Qed.

(** [write] stores behind the queue and commits. *)
Lemma write_abs data r :
  ring_wf r ->
  exists r', write data r = Ret (Z.min (zlen data) (writable_len r), r') /\ ring_wf r' /\
             abs_ring r' = enqueue (take (Z.to_nat (writable_len r)) data) (abs_ring r).
Proof.
  intros Hwf. pose proof (zlen_nonneg data). assert (0 <= writable_len r) by (wf_facts Hwf; lia).
  unfold write. cbv zeta.
  replace (if writable_len r <? zlen data then writable_len r else zlen data)
    with (Z.min (zlen data) (writable_len r)) by (zcases; lia).
  set (n := Z.min (zlen data) (writable_len r)).
  assert (Ht : take (Z.to_nat n) data = take (Z.to_nat (writable_len r)) data) by apply take_zmin.
  assert (Hz : zlen (take (Z.to_nat n) data) = n) by (apply zlen_take; lia).
  destruct (write_at_store r (_readable r) (take (Z.to_nat n) data) (_write r))
    as (buf & E & Hst); [done|apply (wf_readable _ Hwf)|rewrite Hz; unfold writable_len in *; lia|
                         apply (wf_write _ Hwf)|].
  rewrite Hz in E. rewrite E, bind_ret.
  destruct (commit_abs _ buf r Hwf Hst) as (r' & E' & Hwf' & Ha); [lia|].
  rewrite Hz in E'. rewrite E', bind_ret. exists r'. by rewrite Ha, Ht.
Qed.

Lemma write_advance_abs n r :
  ring_wf r -> 0 <= n <= writable_len r ->
  exists r', write_advance n r = Ret r' /\ ring_wf r' /\
             abs_ring r' = enqueue (take (Z.to_nat n) (spare (abs_ring r))) (abs_ring r).
Proof.
  intros Hwf Hn. pose proof (zlen_cells r Hwf). pose proof (wf_readable _ Hwf). unfold writable_len in *.
  destruct (write_advance_wf n r Hwf Hn) as (r' & E & Hwf' & Hb & Hr & Hrb).
  exists r'. split; [done|]. split; [done|].
  rewrite (abs_same_cells _ r' _ Hwf Hwf' (cells_same _ _ Hb Hr) Hrb).
  unfold enqueue, abs_ring. cbn [items spare]. rewrite contents_cells by done.
  rewrite Z2Nat.inj_add by lia. rewrite drop_drop, length_take, length_drop. f_equal.
  - by rewrite take_take_drop.
  - f_equal. unfold zlen in *. lia.
Qed.

Lemma write_back_abs n r :
  ring_wf r -> 0 <= n <= _readable r ->
  exists r', write_back n r = Ret r' /\ ring_wf r' /\
    let keep := Z.to_nat (_readable r - n) in
    abs_ring r' = mkQueue (take keep (contents r)) (drop keep (contents r) ++ spare (abs_ring r)).
Proof.
  intros Hwf Hn. pose proof (zlen_cells r Hwf). destruct (write_back_spec n r Hwf Hn) as (r' & E & Hwf' & _ & _).
  exists r'. split; [done|]. split; [done|]. unfold write_back in E. minv. cbv zeta.
  rewrite (abs_same_cells r _ (_readable r - n) Hwf Hwf') by done.
  rewrite contents_cells by done. cbn [spare abs_ring]. f_equal.
  - rewrite take_take. f_equal. lia.
  - rewrite <- (take_drop (Z.to_nat (_readable r)) (cells r)) at 1.
    rewrite drop_app_le; [done|]. rewrite length_take. unfold zlen in *. pose proof (wf_readable _ Hwf). lia.
Qed.

Lemma read_back_abs n r :
  ring_wf r -> 0 <= n <= writable_len r ->
  exists r', read_back n r = Ret r' /\ ring_wf r' /\
    let keep := Z.to_nat (writable_len r - n) in
    abs_ring r' = mkQueue (drop keep (spare (abs_ring r)) ++ contents r) (take keep (spare (abs_ring r))).
Proof.
  intros Hwf Hn. pose proof (zlen_cells r Hwf) as Hz. pose proof (wf_readable _ Hwf). unfold read_back.
  rewrite massert_true by (apply Z.leb_le; apply Hn). rewrite bind_ret. eexists. split; [reflexivity|].
  set (r' := mkRing _ _ _ _).
  assert (Hwf' : ring_wf r') by (wf_facts Hwf; subst r'; split; ring_arith; try lia; zsplit; lia).
  split; [done|]. cbv zeta. unfold writable_len in *. unfold abs_ring. cbn [spare].
  rewrite (contents_cells r), (contents_cells r') by done.
  rewrite (cells_rotate r r' (_size r - n)) by (done || lia ||
    (subst r'; cbn [_read]; destruct (wf_read _ Hwf); zcases; lia)).
  subst r'. cbn [_readable]. set (l := cells r) in *. clearbody l. unfold zlen in Hz.
  rewrite !drop_drop. f_equal.
  - rewrite take_app_ge by (rewrite length_drop; lia). rewrite length_drop, take_take. f_equal; f_equal; lia.
  - rewrite drop_app_ge by (rewrite length_drop; lia). rewrite length_drop.
    rewrite take_drop_commute. f_equal; [lia|]. f_equal. lia.
Qed.

(** Bytes stored into the free part, or over the queued ones. *)
Lemma store_spare o data buf r :
  ring_wf r -> store r (_readable r + o) data buf -> 0 <= o -> o + zlen data <= writable_len r ->
  let r' := mkRing buf (_read r) (_write r) (_readable r) in
  ring_wf r' /\ abs_ring r' = mkQueue (contents r) (blit o data (spare (abs_ring r))).
Proof.
  intros Hwf Hst Ho Hd. pose proof (zlen_cells r Hwf) as Hz. pose proof (wf_readable _ Hwf).
  pose proof (zlen_nonneg data). unfold writable_len in *.
  destruct (store_cells r _ data buf Hwf Hst) as [Hwf' Hc]; [lia..|]. split; [done|].
  unfold abs_ring. rewrite Hc. cbn [_readable spare]. f_equal.
  - destruct (store_contents r _ data buf Hwf Hst); [lia|done].
  - apply list_eq. intros i. rewrite lookup_drop, !lookup_blit, lookup_drop;
      try (unfold zlen in *; rewrite ?length_drop; lia).
    repeat case_decide; try lia; f_equal; lia.
Qed.

Lemma store_items o data buf r :
  ring_wf r -> store r o data buf -> 0 <= o -> o + zlen data <= _readable r ->
  let r' := mkRing buf (_read r) (_write r) (_readable r) in
  ring_wf r' /\ abs_ring r' = mkQueue (blit o data (contents r)) (spare (abs_ring r)).
Proof.
  intros Hwf Hst Ho Hd. pose proof (zlen_cells r Hwf) as Hz. pose proof (wf_readable _ Hwf).
  pose proof (zlen_nonneg data).
  destruct (store_cells r _ data buf Hwf Hst) as [Hwf' Hc]; [lia..|]. split; [done|].
  unfold abs_ring. rewrite Hc. cbn [_readable spare]. f_equal.
  - destruct (contents_store r o data buf Hwf Hst); [lia..|done].
  - apply list_eq. intros i. rewrite !lookup_drop, lookup_blit by lia.
    case_decide; [lia|done].
Qed.

Lemma ring_step_refines o r :
  ring_wf r -> op_ok o (abs_ring r) = true ->
  exists r', ring_step o r = Ret ((queue_step o (abs_ring r)).1, r') /\ ring_wf r' /\
             abs_ring r' = (queue_step o (abs_ring r)).2.
Proof.
  intros Hwf Hok. pose proof (zlen_contents r Hwf) as Hz. pose proof (room_abs r Hwf) as Hroom.
  pose proof (wf_readable _ Hwf). assert (0 <= writable_len r) by (unfold writable_len; lia).
  destruct o as [n|n|n o|data|data|data o|o data|n|n|n|n|]; cbn in Hok; zbool;
    cbn [ring_step queue_step]; change (items (abs_ring r)) with (contents r);
    change (items (abs_ring r)) with (contents r) in *; rewrite ?Hroom, ?Hz in *.
  - destruct (read_abs n r) as (r' & E & Hwf' & Ha); [done..|]. rewrite E, bind_ret. by exists r'.
  - unfold fix_read, readable_len. case_match; [by exists r|].
    destruct (read_abs n r) as (r' & E & Hwf' & Ha); [done..|]. rewrite E, bind_ret. by exists r'.
  - rewrite try_read_spec by done. by exists r.
  - destruct (write_abs data r Hwf) as (r' & E & Hwf' & Ha). rewrite E, bind_ret. by exists r'.
  - unfold fix_write. case_match; [by exists r|]. zbool.
    destruct (write_abs data r Hwf) as (r' & E & Hwf' & Ha).
    rewrite take_ge in Ha by (unfold zlen in *; lia). rewrite Z.min_l in E by lia.
    rewrite E, bind_ret. by exists r'.
  - destruct (Z.leb_spec (writable_len r) o).
    { exists r. unfold try_write. by rewrite (proj2 (Z.leb_le _ _)) by done. }
    destruct (try_write_store data o r) as (buf & n & E & -> & Hst); [done..|].
    pose proof (zlen_nonneg data). rewrite Z.max_r in E, Hst by lia. rewrite E, bind_ret.
    rewrite take_zmin in Hst. destruct (store_spare o _ buf r Hwf Hst) as [Hwf' Ha]; [done| |by eexists].
    unfold zlen. rewrite length_take. lia.
  - destruct (Z.ltb_spec (_readable r) o) as [Ho|Ho].
    { exists r. unfold change_written, readable_len. by rewrite (proj2 (Z.ltb_lt _ _)) by done. }
    destruct (change_written_store o data r Hwf) as (buf & E & Hst); [lia|done|]. rewrite E, bind_ret.
    destruct (store_items o _ buf r Hwf Hst) as [Hwf' Ha]; [done| |by eexists].
    unfold zlen. rewrite length_take. lia.
  - destruct (advance_abs n r) as (r' & E & Hwf' & Ha); [done|lia|]. rewrite E, bind_ret. by exists r'.
  - destruct (read_back_abs n r) as (r' & E & Hwf' & Ha); [done|lia|]. rewrite E, bind_ret. by exists r'.
  - destruct (write_advance_abs n r) as (r' & E & Hwf' & Ha); [done|lia|]. rewrite E, bind_ret. by exists r'.
  - destruct (write_back_abs n r) as (r' & E & Hwf' & Ha); [done|lia|]. rewrite E, bind_ret. by exists r'.
  - unfold clear_input, readable_len.
    destruct (advance_abs (_readable r) r) as (r' & E & Hwf' & Ha); [done|lia|]. rewrite E, bind_ret.
    exists r'. split; [done|]. split; [done|]. rewrite Ha. unfold dequeue. cbn [abs_ring items spare].
    by rewrite drop_ge, take_ge by (unfold zlen in *; lia).
Qed.

(** ** The refinement theorem *)

(** C12. On every sequence of operations with admissible arguments ([ops_ok]: [offset + size]
    stays below 2^32, and no pointer is moved further than there are bytes, queued ones for
    [read_advance] and [write_back], free ones for [write_advance] and [read_back]) a ring
    returns exactly the answers of the FIFO queue it stands for: no access leaves the block
    and no assertion fails, and at the end the queued bytes and the free bytes, in their
    order, are those of the queue.  So what [try_write] placed is what [write_advance]
    commits, and what was read last is what [read_back] brings back. *)
Theorem ring_refines_queue os r :
  ring_wf r -> ops_ok os (abs_ring r) = true ->
  exists r', ring_run os r = Ret ((queue_run os (abs_ring r)).1, r') /\ ring_wf r' /\
             abs_ring r' = (queue_run os (abs_ring r)).2.
Proof.
  revert r. induction os as [|o os IH]; intros r Hwf Hok; cbn [ops_ok] in Hok; [by exists r|].
  apply andb_true_iff in Hok as [Ho Hos].
  destruct (ring_step_refines o r Hwf Ho) as (r1 & E1 & Hwf1 & Ha1).
  rewrite <- Ha1 in Hos. destruct (IH r1 Hwf1 Hos) as (r2 & E2 & Hwf2 & Ha2).
  exists r2. cbn [ring_run queue_run]. rewrite E1. cbn. rewrite E2. cbn.
  destruct (queue_step o (abs_ring r)) as [a q1]. cbn in *. subst q1.
  by destruct (queue_run os (abs_ring r1)).
Qed.

Definition ring_demo : list ring_op :=
  [OpWrite [1;2;3]; OpRead 2; OpWrite [4;5;6]; OpTryRead 2 1; OpChange 1 [9]; OpWriteBack 1;
   OpTryWrite [7;8;8] 0; OpWriteAdvance 1; OpRead 9; OpReadBack 2; OpRead 9].

Lemma ring_refines_queue_witness :
  (queue_run ring_demo (mkQueue [] [0;0;0;0])).1 =
    [Count 3; Bytes [1;2]; Count 3; Bytes [4;5]; Count 1; Done; Count 1; Done; Bytes [3;9;5;7];
     Done; Bytes [5;7]] /\
  exists r', ring_run ring_demo (ring_init [0;0;0;0]) =
               Ret ((queue_run ring_demo (abs_ring (ring_init [0;0;0;0]))).1, r') /\
             ring_wf r' /\
             abs_ring r' = (queue_run ring_demo (abs_ring (ring_init [0;0;0;0]))).2.
Proof.
  split; [vm_compute; reflexivity|].
  apply (ring_refines_queue ring_demo (ring_init [0;0;0;0]));
    [apply ring_init_wf; vm_compute; discriminate | vm_compute; reflexivity].
Defined.

(** ** Segments and transfers *)

Lemma read_iov_spec lens r :
  ring_wf r -> Forall (fun n => 0 <= n <= MAX_UINT) lens ->
  exists r', read_iov lens r = Ret (take (Z.to_nat (foldr Z.add 0 lens)) (contents r), r') /\
             ring_wf r' /\ _size r' = _size r /\
             contents r' = drop (Z.to_nat (foldr Z.add 0 lens)) (contents r).
Proof.
  intros Hwf Hlens. revert r Hwf. induction Hlens as [|n lens Hn Hlens IH]; intros r Hwf.
  { exists r. cbn. by rewrite drop_0. }
  assert (Hsum : 0 <= foldr Z.add 0 lens) by (clear IH; induction Hlens; cbn; lia).
  cbn [read_iov foldr]. pose proof (zlen_contents r Hwf) as Hz. unfold readable_len.
  destruct (Z.eqb_spec n 0) as [->|]; [destruct (IH r Hwf) as (r' & ? & ?); by exists r'|].
  destruct (Z.eqb_spec (_readable r) 0) as [E|].
  { exists r. rewrite E in Hz. destruct (contents r); [|unfold zlen in Hz; cbn in Hz; lia].
    by rewrite take_nil, drop_nil. }
  unfold u32. rewrite Z.mod_small by (unfold MAX_UINT in *; lia).
  destruct (read_spec n r) as (r1 & E1 & Hwf1 & Hc1 & _ & Hb1); [done|lia|].
  destruct (IH r1 Hwf1) as (r2 & E2 & Hwf2 & Hs2 & Hc2). exists r2.
  rewrite E1. cbn. rewrite E2. cbn. rewrite Hc1, Hc2, Hs2, Hc1, drop_drop.
  rewrite Z2Nat.inj_add by lia. rewrite take_take_drop. unfold _size. by rewrite Hb1.
Qed.

Lemma write_iov_spec chunks r :
  ring_wf r ->
  exists r', write_iov chunks r = Ret (Z.min (zlen (concat chunks)) (writable_len r), r') /\
             ring_wf r' /\ _size r' = _size r /\
             contents r' = contents r ++ take (Z.to_nat (writable_len r)) (concat chunks).
Proof.
  revert r. induction chunks as [|d chunks IH]; intros r Hwf.
  { exists r. cbn [write_iov concat]. rewrite take_nil, app_nil_r. change (zlen (@nil Z)) with 0.
    rewrite Z.min_l by (wf_facts Hwf; lia). done. }
  cbn [write_iov concat]. rewrite zlen_app.
  pose proof (zlen_nonneg d). pose proof (zlen_nonneg (concat chunks)).
  assert (Hw : 0 <= writable_len r <= MAX_UINT) by (wf_facts Hwf; lia).
  destruct (Z.eqb_spec (zlen d) 0) as [E|].
  { destruct d; [|unfold zlen in E; cbn in E; lia]. destruct (IH r Hwf) as (r' & ? & ?). by exists r'. }
  destruct (Z.eqb_spec (writable_len r) 0) as [E|].
  { exists r. rewrite E, Z.min_r, app_nil_r by lia. done. }
  destruct (write_spec d r Hwf) as (r1 & E1 & Hwf1 & Hc1 & Hs1).
  destruct (IH r1 Hwf1) as (r2 & E2 & Hwf2 & Hs2 & Hc2). exists r2.
  assert (Hw1 : writable_len r1 = Z.max 0 (writable_len r - zlen d)).
  { unfold writable_len. rewrite Hs1, <- (zlen_contents r1), Hc1, zlen_app, zlen_contents by done.
    unfold writable_len, zlen in *. rewrite length_take. lia. }
  rewrite E1. cbn. rewrite E2. cbn. rewrite Hs2, Hc2, Hc1, Hs1, Hw1, <- app_assoc.
  split; [do 2 f_equal; unfold u32; rewrite Z.mod_small by (unfold MAX_UINT in *; lia); lia|].
  split; [done|]. split; [done|]. f_equal. rewrite take_app. unfold zlen in *. f_equal. f_equal. lia.
Qed.

(** The two segments of [read_array n o] hold, one after the other, bytes [o] to
    [o + n] of the queue; bytes stored in order into the segments of [write_array n 0] and
    committed with [write_advance] are appended to the queue. *)
Theorem ring_segments r n o data :
  ring_wf r -> 0 <= n -> 0 <= o -> o + n <= MAX_UINT -> zlen data = Z.min n (writable_len r) ->
  (exists a b, array_get (_buffer r) (read_array n o r) = Ret [a; b] /\
               a ++ b = slice o n (contents r)) /\
  (exists buf r', array_put (_buffer r) (write_array n 0 r) data = Ret buf /\
     write_advance (zlen data) (mkRing buf (_read r) (_write r) (_readable r)) = Ret r' /\
     ring_wf r' /\ contents r' = contents r ++ data).
Proof.
  intros Hwf Hn Ho Hw Hd. split; [by apply read_array_spec|].
  destruct (write_array_store n data r) as (buf & E & Hst & _); [done..|].
  destruct (store_contents r _ _ buf Hwf Hst ltac:(lia)) as [_ Hwf1].
  pose proof (zlen_nonneg data).
  destruct (write_advance_wf (zlen data) _ Hwf1) as (r' & E' & Hwf' & Hb & Hr & Hrb).
  { unfold writable_len, _size in *. cbn. destruct Hst as [-> _]. unfold _size. lia. }
  exists buf, r'. do 3 (split; [done|]). by eapply store_commit.
Qed.

Lemma ring_segments_witness :
  let r := mkRing [13;0;0;11;12] 3 1 3 in
  (exists a b, array_get (_buffer r) (read_array 2 1 r) = Ret [a; b] /\
               a ++ b = slice 1 2 (contents r)) /\
  (exists buf r', array_put (_buffer r) (write_array 2 0 r) [7;8] = Ret buf /\
     write_advance (zlen [7;8]) (mkRing buf (_read r) (_write r) (_readable r)) = Ret r' /\
     ring_wf r' /\ contents r' = contents r ++ [7;8]).
Proof.
  apply (ring_segments (mkRing [13;0;0;11;12] 3 1 3) 2 1 [7;8]); try reflexivity; try discriminate.
  split; vm_compute; intuition discriminate.
Defined.

(** [read(OutputBuffer, size)] moves bytes from the front of one ring to the back of
    another: as many as were asked for, as there are, and as fit; no byte is lost,
    duplicated or reordered, and neither ring faults. *)
Theorem ring_transfer r other n :
  ring_wf r -> ring_wf other -> 0 <= n ->
  exists m other' r', read_to other n r = Ret (m, other', r') /\
    m = Z.min n (Z.min (_readable r) (writable_len other)) /\
    ring_wf other' /\ ring_wf r' /\
    contents other' = contents other ++ take (Z.to_nat m) (contents r) /\
    contents r = take (Z.to_nat m) (contents r) ++ contents r'.
Proof.
  intros Hwf Hwfo Hn. unfold read_to, readable_len. pose proof (wf_readable _ Hwf).
  pose proof (wf_size _ Hwf). pose proof (wf_readable _ Hwfo). pose proof (zlen_contents r Hwf) as Hz.
  assert (Hwo : 0 <= writable_len other) by (unfold writable_len; lia).
  set (s := if _readable r <? n then _readable r else n).
  assert (Hs : s = Z.min n (_readable r)) by (subst s; zcases; lia). clearbody s.
  destruct (read_array_spec s 0 r) as (a & b & E & Hab); [done|lia..|]. rewrite E. cbn.
  destruct (write_iov_spec [a; b] other Hwfo) as (o' & E' & Hwfo' & _ & Hco). cbn in E', Hco.
  rewrite app_nil_r, Hab in E', Hco. rewrite E'. cbn.
  rewrite zlen_slice by (apply in_block_intro; lia).
  set (m := s `min` writable_len other).
  destruct (read_advance_spec m r) as (r' & E'' & Hwf' & Hb & _ & Hc); [done|lia|].
  rewrite E''. cbn. exists m, o', r'. split; [done|]. split; [lia|]. do 2 (split; [done|]).
  split; [|by rewrite Hc, take_drop]. rewrite Hco. unfold slice. f_equal.
  rewrite drop_0, take_take. f_equal. lia.
Qed.

Lemma ring_transfer_witness :
  let r := mkRing [13;0;0;11;12] 3 1 3 in let other := mkRing [5;0;0] 0 1 1 in
  exists m other' r', read_to other 9 r = Ret (m, other', r') /\
    m = Z.min 9 (Z.min (_readable r) (writable_len other)) /\
    ring_wf other' /\ ring_wf r' /\
    contents other' = contents other ++ take (Z.to_nat m) (contents r) /\
    contents r = take (Z.to_nat m) (contents r) ++ contents r'.
Proof.
  apply (ring_transfer (mkRing [13;0;0;11;12] 3 1 3) (mkRing [5;0;0] 0 1 1) 9);
    [split; vm_compute; intuition discriminate..|discriminate].
Defined.

(** ** Moving the contents *)

(** [reposition]'s undefined case: the bytes wrap round the end of the block and the
    [memcpy] of the longer part, or of the first part, has overlapping regions. *)
Definition reposition_overlaps (r : ring) : bool :=
  let len := _size r - _read r in
  negb (_read r =? 0) && (_size r <? _read r + _readable r) &&
  ((len <? _readable r - len) || (_read r <? len)).

Lemma reposition_fault r :
  ring_wf r -> reposition_overlaps r = true -> reposition r = Fault OutOfBounds.
Proof.
  intros Hwf Ho. unfold reposition_overlaps in Ho. apply andb_true_iff in Ho as [Ho Ho2].
  apply andb_true_iff in Ho as [Ho0 Ho1]. zbool. unfold reposition.
  rewrite (proj2 (Z.eqb_neq _ _)), (proj2 (Z.leb_gt _ _)) by lia. cbv zeta.
  pose proof (wf_read _ Hwf). pose proof (wf_readable _ Hwf).
  destruct (Z.ltb_spec (_size r - _read r) (_readable r - (_size r - _read r))).
  - rewrite mem_read_ok by (unfold _size in *; lia). rewrite bind_ret.
    unfold mem_copy, overlap. rewrite !(proj2 (Z.ltb_lt _ _)) by lia. done.
  - cbn in Ho2. apply Z.ltb_lt in Ho2. rewrite mem_read_ok by (unfold _size in *; lia).
    rewrite bind_ret. unfold mem_copy, overlap. rewrite !(proj2 (Z.ltb_lt _ _)) by lia. done.
Qed.

(** A block whose first bytes are the queue is a ring read from its start. *)
Lemma front_ring r buf :
  ring_wf r -> zlen buf = _size r ->
  (forall i : nat, Z.of_nat i < _readable r ->
     buf !! i = _buffer r !! Z.to_nat (ring_pos r (Z.of_nat i))) ->
  let r' := mkRing buf 0 (_readable r) (_readable r) in
  ring_wf r' /\ _read r' = 0 /\ _size r' = _size r /\ contents r' = contents r.
Proof.
  intros Hwf Hl Hb. assert (Hwf' : ring_wf (mkRing buf 0 (_readable r) (_readable r))).
  { wf_facts Hwf. split; ring_arith; try lia. zsplit; lia. }
  split; [done|]. split; [done|]. split; [done|].
  apply list_eq. intros i. rewrite !contents_lookup by done. cbn.
  case_decide as Hi; [|done]. rewrite <- Hb by done. unfold ring_pos, _size. cbn.
  pose proof (wf_readable _ Hwf). rewrite Hl, (proj2 (Z.ltb_lt _ _)) by lia. f_equal. lia.
Qed.

Ltac front_of r Hwf :=
  match goal with
  | |- context [mkRing ?b 0 _ _] => eexists; split; [reflexivity|]; apply (front_ring r b Hwf)
  end.

Lemma reposition_keeps r :
  ring_wf r -> reposition_overlaps r = false ->
  exists r', reposition r = Ret r' /\ ring_wf r' /\ _read r' = 0 /\ _size r' = _size r /\
             contents r' = contents r.
Proof.
  intros Hwf Ho. unfold reposition_overlaps in Ho. unfold reposition.
  destruct (Z.eqb_spec (_read r) 0) as [E|E]; [by exists r|]. cbn in Ho.
  pose proof (wf_read _ Hwf). pose proof (wf_readable _ Hwf).
  destruct (Z.leb_spec (_read r + _readable r) (_size r)) as [Hl|Hl].
  - unfold mem_move. rewrite mem_read_ok by (unfold _size in *; lia). rewrite bind_ret.
    assert (Hz : zlen (slice (_read r) (_readable r) (_buffer r)) = _readable r)
      by (apply zlen_slice, in_block_intro; unfold _size in *; lia).
    rewrite mem_write_ok by (rewrite ?Hz; unfold _size in *; lia). cbn.
    front_of r Hwf; [apply zlen_blit, in_block_intro;
      rewrite ?Hz; unfold _size in *; lia|].
    intros i Hi. rewrite lookup_blit by (rewrite ?Hz; unfold _size in *; lia).
    rewrite Hz, lookup_slice. clear Hwf Hz Ho. unfold ring_pos. zsplit; try lia. f_equal. lia.
  - cbv zeta. rewrite (proj2 (Z.ltb_lt _ _)) in Ho by lia. cbn in Ho.
    apply orb_false_iff in Ho as [Ho1 Ho2]. rewrite Ho1. apply Z.ltb_ge in Ho1, Ho2.
    set (len := _size r - _read r) in *. set (another := _readable r - len) in *.
    rewrite mem_read_ok by (unfold _size in *; lia). rewrite bind_ret.
    unfold mem_copy, overlap. rewrite (proj2 (Z.ltb_ge (_read r) (0 + len))), andb_false_r by lia.
    unfold mem_move. rewrite mem_read_ok by (unfold _size in *; lia). rewrite bind_ret.
    assert (Hz : zlen (slice (_read r) len (_buffer r)) = len)
      by (apply zlen_slice, in_block_intro; unfold _size in *; lia).
    assert (Hz2 : zlen (slice 0 another (_buffer r)) = another)
      by (apply zlen_slice, in_block_intro; unfold _size in *; lia).
    rewrite mem_write_ok by (rewrite ?Hz; unfold _size in *; lia). rewrite bind_ret.
    set (b1 := blit 0 (slice (_read r) len (_buffer r)) (_buffer r)).
    assert (Hb1 : zlen b1 = _size r)
      by (apply zlen_blit, in_block_intro; rewrite ?Hz; unfold _size in *; lia).
    rewrite mem_write_ok by (rewrite ?Hz2; unfold _size in *; lia). cbn.
    front_of r Hwf; [rewrite <- Hb1; apply zlen_blit, in_block_intro;
      rewrite ?Hz2; lia|].
    intros i Hi. rewrite lookup_blit by (rewrite ?Hz2; lia). subst b1.
    rewrite lookup_blit by (rewrite ?Hz; unfold _size in *; lia).
    rewrite Hz, Hz2, !lookup_slice. clear Hwf Hz Hz2 Hb1. unfold ring_pos, _size in *.
    zsplit; try lia; f_equal; lia.
Qed.

(** [reposition] either has the undefined behaviour of an overlapping [memcpy], exactly
    in the case [reposition_overlaps], or moves the queue to the start of the block with
    its bytes unchanged. *)
Theorem reposition_correct r :
  ring_wf r ->
  (reposition r = Fault OutOfBounds <-> reposition_overlaps r = true) /\
  (reposition_overlaps r = false ->
   exists r', reposition r = Ret r' /\ ring_wf r' /\ _read r' = 0 /\ _size r' = _size r /\
              contents r' = contents r).
Proof.
  intros Hwf. split; [|by apply reposition_keeps]. split; [|by apply reposition_fault].
  intros E. destruct (reposition_overlaps r) eqn:Ho; [done|].
  destruct (reposition_keeps r Hwf Ho) as (r' & E' & _). by rewrite E' in E.
Qed.

Lemma reposition_correct_witness :
  let r := mkRing [12;0;0;0;11] 4 1 2 in
  reposition_overlaps r = false /\
  ((reposition r = Fault OutOfBounds <-> reposition_overlaps r = true) /\
   (reposition_overlaps r = false ->
    exists r', reposition r = Ret r' /\ ring_wf r' /\ _read r' = 0 /\ _size r' = _size r /\
               contents r' = contents r)).
Proof.
  split; [reflexivity|]. apply (reposition_correct (mkRing [12;0;0;0;11] 4 1 2)).
  split; vm_compute; intuition discriminate.
Defined.

(** A wrapped ring whose [reposition] is undefined. *)
Example reposition_undefined :
  reposition (mkRing [13;14;0;11;12] 3 2 4) = Ret (mkRing [11;12;13;14;12] 0 4 4) /\
  reposition (mkRing [13;14;15;11;12] 3 3 5) = Fault OutOfBounds.
Proof. split; reflexivity. Qed.

(** Draining a full repositioned ring leaves [_write] at the end of the block and
    [is_empty] false. *)
Example drained_not_empty :
  exists r, (r1 ← reposition (mkRing [13;14;11;12] 2 2 4); read_advance 4 r1) = Ret r /\
            _readable r = 0 /\ is_empty r = false.
Proof. eexists. split; [reflexivity|]. split; reflexivity. Qed.

(** [write_array] with a size that fits but not behind [offset] hands out more room than
    there is: its segments end inside the queue. *)
Example write_array_overruns :
  let r := mkRing [0;0;0;9] 3 0 1 in
  writable_len r = 3 /\ write_array 3 2 r = [mkIovec 2 1; mkIovec 0 2].
Proof. split; reflexivity. Qed.

(** *** [resize] *)

Lemma zero_ring_write buf data n r1 :
  zlen buf <= MAX_UINT -> zlen data <= zlen buf -> n = zlen data ->
  mem_write buf 0 data = Ret r1 ->
  exists r', write_advance n (mkRing r1 0 0 0) = Ret r' /\ ring_wf r' /\
             _size r' = zlen buf /\ contents r' = data.
Proof.
  intros Hmax Hlen -> E. pose proof (zlen_nonneg data).
  rewrite mem_write_ok in E by lia. injection E as <-.
  assert (Hb : zlen (blit 0 data buf) = zlen buf) by (apply zlen_blit, in_block_intro; lia).
  assert (Hwf : ring_wf (mkRing (blit 0 data buf) 0 0 0)) by (apply ring_init_wf; lia).
  destruct (write_advance_wf (zlen data) _ Hwf) as (r' & E & Hwf' & Hbuf & Hr & Hn).
  { unfold writable_len, _size. cbn. lia. }
  exists r'. split; [done|]. split; [done|]. split; [unfold _size; by rewrite Hbuf|].
  apply list_eq. intros i. rewrite contents_lookup by done. rewrite Hn, Hbuf. cbn.
  case_decide as Hi; [|by rewrite lookup_ge_zlen by lia].
  unfold ring_pos, _size. rewrite Hbuf, Hr. cbn. rewrite Hb.
  rewrite (proj2 (Z.ltb_lt _ _)) by lia.
  rewrite lookup_blit by lia. rewrite decide_True by lia. f_equal. lia.
Qed.

(** C35. [resize] refuses a block smaller than the queue by an assertion; otherwise it moves the
    queue, with its bytes unchanged, to the new block, whose size becomes the capacity.  The new
    block is at another address; when it overlaps the old one, this needs a [reposition] whose
    [memcpy] does not overlap, which it can ([reposition_overlaps]). *)
Theorem resize_correct buf buf_at old_at r :
  ring_wf r -> zlen buf <= MAX_UINT ->
  (zlen buf < _readable r -> resize buf buf_at old_at r = Fault AssertFailed) /\
  (_readable r <= zlen buf ->
   reposition_overlaps r = false \/ buf_at + zlen buf <= old_at \/ old_at + _size r <= buf_at ->
   buf_at <> old_at ->
   exists r', resize buf buf_at old_at r = Ret r' /\ ring_wf r' /\ _size r' = zlen buf /\
              contents r' = contents r).
Proof.
  intros Hwf Hmax. unfold resize, readable_len. cbv zeta. split; intros Hle.
  { by rewrite (proj2 (Z.leb_gt (_readable r) (zlen buf))) by lia. }
  intros Ho Hne. rewrite (proj2 (Z.leb_le (_readable r) (zlen buf))) by lia. cbn [massert]. rewrite bind_ret.
  pose proof (zlen_contents r Hwf) as Hz. pose proof (wf_readable _ Hwf).
  assert (Hw : exists b, mem_write buf 0 (contents r) = Ret b)
    by (rewrite mem_write_ok by lia; by eexists).
  destruct Hw as [b Hw].
  destruct (zero_ring_write buf (contents r) (_readable r) b) as (r' & E & Hr'); [lia..|done|].
  case_match eqn:Hov.
  - destruct (reposition_overlaps r) eqn:Hrp.
    { exfalso. destruct Ho as [Ho|Ho]; [done|].
      apply orb_true_iff in Hov as [Hov|Hov]; apply andb_true_iff in Hov as [? ?]; zbool; lia. }
    destruct (reposition_keeps r Hwf Hrp) as (r1 & -> & Hwf1 & H0 & Hs1 & Hc1). rewrite bind_ret.
    pose proof (zlen_contents r1 Hwf1) as Hz1. rewrite Hc1, Hz in Hz1.
    pose proof (wf_readable _ Hwf1). rewrite mem_read_ok by (unfold _size in *; lia).
    pose proof (read_from_spec r1 0 (_readable r) Hwf1) as Hrf.
    unfold read_from in Hrf. rewrite <- (ring_pos_0 r1 Hwf1), H0 in Hrf.
    rewrite (proj2 (Z.leb_le _ _)), mem_read_ok, Hc1 in Hrf by (unfold _size in *; lia).
    assert (Hsl : slice 0 (_readable r) (_buffer r1) = contents r).
    { specialize (Hrf ltac:(lia) ltac:(lia) ltac:(lia)). injection Hrf as ->.
      by apply slice_all. }
    rewrite Hsl, bind_ret, Hw, bind_ret. by exists r'.
  - destruct (read_spec (_readable r) r) as (r1 & -> & _); [done|lia|].
    rewrite bind_ret, take_ge by (unfold zlen in *; lia). rewrite Hw, bind_ret. by exists r'.
Qed.

Lemma resize_correct_witness :
  let r := mkRing [12;0;0;11] 3 1 2 in
  (zlen (replicate 8 0) < _readable r -> resize (replicate 8 0) 100 0 r = Fault AssertFailed) /\
  (_readable r <= zlen (replicate 8 0) ->
   reposition_overlaps r = false \/ 100 + zlen (replicate 8 0) <= 0 \/ 0 + _size r <= 100 ->
   100 <> 0 ->
   exists r', resize (replicate 8 0) 100 0 r = Ret r' /\ ring_wf r' /\
              _size r' = zlen (replicate 8 0) /\ contents r' = contents r).
Proof.
  apply (resize_correct (replicate 8 0) 100 0 (mkRing [12;0;0;11] 3 1 2));
    [split; vm_compute; intuition discriminate | vm_compute; discriminate].
Defined.
