(* ===== verification/RingVectors.v ===== *)
(** * RingVectors: a ring handed to the system (Base/Buffer/src/RingBufferWrapper.cpp)

    [readable_array] and [writable_array] describe what a ring holds and the room it has, for
    [writev] and [readv]; [read_advance] and [write_advance] tell the ring what became of them. *)

From S2P Require Import Prelude RingBuffer RingQueue.
Local Open Scope Z_scope.

(** [readv] into [writable_array] and [write_advance]. *)
Lemma writable_array_spec b : ring_wf b ->
  exists w f, writable_array b = Ret [mkIovec (_write b) w; mkIovec 0 f] /\ 0 <= w /\ 0 <= f /\
    w + f = writable_len b /\ (w = _size b - _write b \/ f = 0).
Proof.
  intros Hb. pose proof (continuously_writable_cases b Hb) as [Hc [H0 H1]]. unfold writable_array.
  rewrite massert_true by (by apply Z.leb_le). rewrite bind_ret. eexists _, _. split; [reflexivity |]. lia.
Qed.

(** Fewer bytes than an array holds go where a shorter array would put them. *)
Lemma array_put_less buf b0 l0 b1 l1 data :
  0 <= l0 -> 0 <= l1 -> zlen data <= l0 + l1 ->
  array_put buf [mkIovec b0 l0; mkIovec b1 l1] data =
  array_put buf [mkIovec b0 (Z.min l0 (zlen data)); mkIovec b1 (zlen data - Z.min l0 (zlen data))] data.
Proof.
  intros H0 H1 Hd. cbn [array_put iov_base iov_len]. pose proof (zlen_nonneg data).
  assert (Ht : take (Z.to_nat l0) data = take (Z.to_nat (l0 `min` zlen data)) data).
  { destruct (Z.le_ge_cases l0 (zlen data)); [f_equal; lia |]. unfold zlen in *. rewrite !take_ge by lia. done. }
  rewrite Ht. destruct (mem_write buf b0 _) as [buf' |]; [| done]. simpl. f_equal.
  assert (Hr : drop (Z.to_nat l0) data = drop (Z.to_nat (l0 `min` zlen data)) data).
  { destruct (Z.le_ge_cases l0 (zlen data)); [f_equal; lia |]. unfold zlen in *. rewrite !drop_ge by lia. done. }
  rewrite Hr. unfold zlen in *. rewrite !take_ge; [done | |]; rewrite length_drop; lia.
Qed.

Lemma array_put_nothing buf b0 : 0 <= b0 <= zlen buf -> array_put buf [mkIovec b0 0; mkIovec 0 0] [] = Ret buf.
Proof.
  intros H0. cbn [array_put iov_base iov_len]. change (take (Z.to_nat 0) []) with ([] : list Z).
  rewrite mem_write_nil by lia. rewrite bind_ret. change (drop (Z.to_nat 0) []) with ([] : list Z).
  change (take (Z.to_nat 0) []) with ([] : list Z). by rewrite mem_write_nil by lia.
Qed.

Lemma fill_spec b data : ring_wf b -> zlen data <= writable_len b ->
  exists arr buf b', writable_array b = Ret arr /\ array_size_of arr = writable_len b /\
    array_put (_buffer b) arr data = Ret buf /\
    write_advance (zlen data) (mkRing buf (_read b) (_write b) (_readable b)) = Ret b' /\
    ring_wf b' /\ contents b' = contents b ++ data /\ _size b' = _size b.
Proof.
  intros Hb Hd. pose proof (zlen_nonneg data) as Hd0. pose proof (wf_size _ Hb) as Hsz. pose proof (wf_readable _ Hb) as Hrd.
  destruct (writable_array_spec b Hb) as (w & f & Harr & Hw & Hf & Hsum & Hcase).
  destruct (write_array_store (zlen data) data b) as (buf & Hput & Hst & _); [done | lia | lia |].
  destruct (store_contents b _ data buf Hb Hst ltac:(lia)) as [_ Hwf1].
  destruct (write_advance_wf (zlen data) _ Hwf1) as (b' & Hadv & Hb' & Hbuf & Hr & Hn).
  { unfold writable_len, _size in *. cbn. destruct Hst as [-> _]. unfold _size. lia. }
  exists [mkIovec (_write b) w; mkIovec 0 f], buf, b'. split; [done |]. split.
  { cbn. unfold u64. unfold writable_len, MAX_UINT in *. rewrite !Z.mod_small; try lia; rewrite !Z.mod_small; lia. }
  split.
  { rewrite array_put_less by lia. rewrite <- Hput. unfold write_array. rewrite !Z.sub_0_r.
    destruct (Z.leb_spec (writable_len b) 0) as [Hz | Hz].
    - assert (zlen data = 0) as Hz0 by lia. rewrite Hz0. assert (data = []) as -> by (by destruct data).
      replace (w `min` 0) with 0 by lia. rewrite !array_put_nothing; [done | |];
      pose proof (wf_read _ Hb); destruct (wf_write _ Hb) as [Hwr | [Hwr Hwr']];
      unfold ring_pos in *; unfold _size in *; revert Hwr; zcases; lia.
    - assert ((if writable_len b <? zlen data then writable_len b else zlen data) = zlen data) as -> by (zcases; lia).
      rewrite Z.add_0_r. unfold u32. rewrite Z.mod_small by (unfold writable_len, MAX_UINT in *; lia).
      cbn [array_advance]. rewrite Z.eqb_refl. unfold writable_array in Harr. minv.
      assert ((if zlen data <? continuously_writable b then zlen data else continuously_writable b) = continuously_writable b `min` zlen data) as ->
        by (zcases; lia). done. }
  split; [exact Hadv |]. split; [done |]. split.
  - eapply store_commit; eauto.
  - unfold _size. rewrite Hbuf. cbn. apply Hst.
Qed.

(** The segments [writev] gets hold what the ring holds, in order. *)
Lemma drain_spec b : ring_wf b ->
  exists arr x y, readable_array b = Ret arr /\ array_get (_buffer b) arr = Ret [x; y] /\ x ++ y = contents b.
Proof.
  intros Hb. wf_facts Hb. pose proof (wf_readable _ Hb). pose proof (wf_read _ Hb). unfold readable_array.
  assert (Hc : 0 <= continuously_readable b <= _readable b /\ _read b + continuously_readable b <= _size b /\ _readable b - continuously_readable b <= _read b).
  { unfold continuously_readable, ring_pos in *. zcases; lia. }
  rewrite massert_true by (apply Z.leb_le; unfold readable_len; lia). rewrite bind_ret. unfold readable_len.
  destruct (array_get_two (_buffer b) (_read b) (continuously_readable b) 0 (_readable b - continuously_readable b)) as (x & y & E & Hz & Hl);
    try (unfold _size in *; lia).
  eexists _, x, y. split; [done |]. split; [done |]. apply list_eq. intros i. rewrite Hl, contents_lookup by done. unfold ring_pos, continuously_readable in *.
  clear Hl E. zsplit; try done; try lia; f_equal; lia.
Qed.
