(* ===== verification/BufferPool.v ===== *)
(** * The buffer pool (src/Base/Buffer/BufferPool.hpp, src/Base/Buffer/src/BufferPool.cpp)

    [BufferPool] is a buddy allocator: [_rest] is a binary heap whose node [i] holds the
    size of the largest block that can still be handed out below it.  Blocks are named by
    their offset in [_buffer].  The invariant [pool_inv] is local to each node and speaks
    about the set of nodes handed out; [get] and [put] keep it although their loops stop
    as soon as an ancestor is unchanged. *)

From S2P Require Import Prelude.
From stdpp Require Import gmap.
Local Open Scope Z_scope.

#[local] Ltac Zify.zify_post_hook ::= Z.to_euclidean_division_equations.

Definition BLOCK_SIZE : Z := 4096.

(** ** Operations *)

Definition parent_sibling (i : Z) : Z * Z :=
  if Z.odd i then (Z.shiftr (i - 1) 1, i + 1) else (Z.shiftr (i - 2) 1, i - 1).

(** The loop of [round_size]; a 64-bit size doubles at most 64 times before it wraps. *)
Fixpoint round_loop (fuel : nat) (target pre size : Z) : res Z :=
  match fuel with
  | O => Fault OutOfFuel
  | S fuel =>
      if (size <? target) && (pre <? size)
      then round_loop fuel target size (u64 (Z.shiftl size 1))
      else Ret (if size <? pre then pre else size)
  end.

Definition round_size (target : Z) : res Z := round_loop 66 target 0 BLOCK_SIZE.

Record BufferPool := mkPool { pool_size : Z; _rest : list Z }.

Definition max_block (p : BufferPool) : res Z := of_option (_rest p !! O) OutOfBounds.

Definition rest_get (rest : list Z) (i : Z) : res Z :=
  if 0 <=? i then of_option (rest !! Z.to_nat i) OutOfBounds else Fault OutOfBounds.

Definition rest_set (rest : list Z) (i v : Z) : res (list Z) :=
  if (0 <=? i) && (i <? zlen rest) then Ret (<[Z.to_nat i := v]> rest) else Fault OutOfBounds.

(** The constructor: level by level, [t] nodes of size [s]. *)
Fixpoint fill_rest (fuel : nat) (s t i : Z) (rest : list Z) : res (list Z) :=
  match fuel with
  | O => Fault OutOfFuel
  | S fuel =>
      if BLOCK_SIZE <=? s then
        rest' ← mem_write rest i (replicate (Z.to_nat t) s);
        fill_rest fuel (Z.shiftr s 1) (Z.shiftl t 1) (i + t) rest'
      else Ret rest
  end.

(** [memalign_ok]: whether [posix_memalign] returned a buffer. *)
Definition pool_new (total_size : Z) (memalign_ok : bool) : res BufferPool :=
  size ← round_size total_size;
  let rest := replicate (Z.to_nat (Z.shiftl (size / BLOCK_SIZE) 1)) 0 in
  if memalign_ok then
    rest' ← fill_rest 66 size 1 0 rest;
    Ret (mkPool size rest')
  else Ret (mkPool 0 rest).

(** [1 << n] on [int]. *)
Definition int_pow2 (n : Z) : res Z :=
  mcheck ((0 <=? n) && (n <? 31)) OutOfBounds;; Ret (Z.shiftl 1 n).

Fixpoint positioning_loop (fuel : nat) (rest : list Z) (size i n s : Z) : res (Z * Z) :=
  match fuel with
  | O => Fault OutOfFuel
  | S fuel =>
      if s =? size then
        p ← int_pow2 n;
        Ret (i, (i - (p - 1)) * size)
      else
        let _l := Z.shiftl i 1 + 1 in
        let _r := Z.shiftl i 1 + 2 in
        vl ← rest_get rest _l;
        vr ← rest_get rest _r;
        massert ((size <=? vl) || (size <=? vr));;
        let i' := if (vr <? size) || ((size <=? vl) && (vl <=? vr)) then _l else _r in
        positioning_loop fuel rest size i' (n + 1) (Z.shiftr s 1)
  end.

Definition positioning (size : Z) (p : BufferPool) : res (Z * Z) :=
  positioning_loop 66 (_rest p) size 0 0 (pool_size p).

Fixpoint location_loop (fuel : nat) (size s i : Z) : res Z :=
  match fuel with
  | O => Fault OutOfFuel
  | S fuel => if s <? size then location_loop fuel size (Z.shiftl s 1) (i + 1) else Ret i
  end.

Definition location (target size : Z) (p : BufferPool) : res Z :=
  i ← location_loop 66 (pool_size p) size 0;
  b ← int_pow2 i;
  Ret (b - 1 + target / size).

Fixpoint get_loop (fuel : nat) (i : Z) (rest : list Z) : res (list Z) :=
  match fuel with
  | O => Fault OutOfFuel
  | S fuel =>
      if 0 <? i then
        let '(p, s) := parent_sibling i in
        vi ← rest_get rest i;
        vs ← rest_get rest s;
        let ms := Z.max vi vs in
        vp ← rest_get rest p;
        massert (ms <=? vp);;
        if vp =? ms then Ret rest
        else
          rest' ← rest_set rest p ms;
          get_loop fuel p rest'
      else Ret rest
  end.

(** A [Buffer] with a null pointer is [None]. *)
Definition get (size : Z) (p : BufferPool) : res (option (Z * Z) * BufferPool) :=
  size ← round_size size;
  root ← rest_get (_rest p) 0;
  if root <? size then Ret (None, p)
  else
    '(i, ptr) ← positioning size p;
    v ← rest_get (_rest p) i;
    massert (v =? size);;
    rest1 ← rest_set (_rest p) i 0;
    rest2 ← get_loop 66 i rest1;
    Ret (Some (ptr, size), mkPool (pool_size p) rest2).

Fixpoint put_loop (fuel : nat) (i fs : Z) (rest : list Z) : res (list Z) :=
  match fuel with
  | O => Fault OutOfFuel
  | S fuel =>
      if 0 <? i then
        let '(p, s) := parent_sibling i in
        vi ← rest_get rest i;
        vs ← rest_get rest s;
        let ms := if (vi =? fs) && (fs =? vs) then Z.shiftl fs 1 else Z.max vi vs in
        vp ← rest_get rest p;
        massert (vp <=? ms);;
        if vp =? ms then Ret rest
        else
          rest' ← rest_set rest p ms;
          put_loop fuel p (Z.shiftl fs 1) rest'
      else Ret rest
  end.

Definition put (buffer : Z * Z) (p : BufferPool) : res BufferPool :=
  let '(buf, size) := buffer in
  i ← location buf size p;
  v ← rest_get (_rest p) i;
  massert (v =? 0);;
  rest1 ← rest_set (_rest p) i size;
  rest2 ← put_loop 66 i size rest1;
  Ret (mkPool (pool_size p) rest2).

(** ** Nodes of the heap *)

Section Heap.
Context (L : Z).

Definition node (i : Z) : bool := (0 <=? i) && (i <? 2 ^ (L + 1) - 1).
Definition internal (i : Z) : bool := (0 <=? i) && (i <? 2 ^ L - 1).

Definition level (i : Z) : Z := Z.log2 (i + 1).

(** The size of the block of node [i] and its offset in the buffer. *)
Definition node_size (i : Z) : Z := BLOCK_SIZE * 2 ^ (L - level i).
Definition node_off (i : Z) : Z := (i + 1 - 2 ^ level i) * node_size i.

Definition nd (rest : list Z) (i : Z) : Z := default 0 (rest !! Z.to_nat i).

Definition full (rest : list Z) (i : Z) : bool := nd rest i =? node_size i.

(** What a node that is not handed out holds. *)
Definition target_of (rest : list Z) (i : Z) : Z :=
  if internal i then
    if full rest (2 * i + 1) && full rest (2 * i + 2) then node_size i
    else Z.max (nd rest (2 * i + 1)) (nd rest (2 * i + 2))
  else node_size i.

Definition node_ok (rest : list Z) (U : gset Z) (i : Z) : Prop :=
  if decide (i ∈ U)
  then nd rest i = 0 /\
       (internal i = true -> full rest (2 * i + 1) = true /\ full rest (2 * i + 2) = true)
  else nd rest i = target_of rest i.

Record pool_inv (p : BufferPool) (U : gset Z) : Prop := {
  inv_level : 0 <= L < 31;
  inv_size : pool_size p = BLOCK_SIZE * 2 ^ L;
  inv_len : zlen (_rest p) = 2 ^ (L + 1);
  inv_used : forall i, i ∈ U -> node i = true;
  inv_nodes : forall i, node i = true -> node_ok (_rest p) U i
}.

Definition parent (i : Z) : Z := (i - 1) / 2.
Fixpoint ancestor (k : nat) (i : Z) : Z :=
  match k with O => i | S k => ancestor k (parent i) end.

(** *** Arithmetic of the heap *)

Context (HL : 0 <= L).

Lemma level_children i : 0 <= i -> level (2 * i + 1) = level i + 1 /\ level (2 * i + 2) = level i + 1.
Proof.
  intros Hi. unfold level. replace (2 * i + 1 + 1) with (2 * (i + 1)) by lia.
  replace (2 * i + 2 + 1) with (2 * (i + 1) + 1) by lia.
  rewrite Z.log2_double, Z.log2_succ_double by lia. lia.
Qed.

Lemma level_nonneg i : 0 <= level i.
Proof. apply Z.log2_nonneg. Qed.

Lemma internal_level i : 0 <= i -> internal i = true <-> level i < L.
Proof.
  intros Hi. unfold internal, level. rewrite <- Z.log2_lt_pow2 by lia.
  rewrite andb_true_iff, Z.leb_le, Z.ltb_lt. lia.
Qed.

Lemma node_level i : 0 <= i -> node i = true <-> level i <= L.
Proof.
  intros Hi. unfold node, level. rewrite <- Z.lt_succ_r, <- Z.log2_lt_pow2 by lia.
  rewrite andb_true_iff, Z.leb_le, Z.ltb_lt, <- Z.add_1_r. lia.
Qed.

Lemma node_nonneg i : node i = true -> 0 <= i.
Proof. unfold node. intros. zbool. done. Qed.

Lemma internal_nonneg i : internal i = true -> 0 <= i.
Proof. unfold internal. intros. zbool. done. Qed.

Lemma internal_node i : internal i = true -> node i = true.
Proof.
  intros Hi. pose proof (internal_nonneg i Hi). apply node_level; [done|].
  apply internal_level in Hi; lia.
Qed.

Lemma internal_children i :
  internal i = true -> node (2 * i + 1) = true /\ node (2 * i + 2) = true.
Proof.
  intros Hi. pose proof (internal_nonneg i Hi). apply internal_level in Hi; [|done].
  destruct (level_children i) as [E1 E2]; [done|]. split; apply node_level; lia.
Qed.

Lemma node_size_pos i : node i = true -> 0 < node_size i.
Proof.
  intros Hi. apply node_level in Hi; [|by apply node_nonneg].
  unfold node_size, BLOCK_SIZE. pose proof (Z.pow_pos_nonneg 2 (L - level i)). lia.
Qed.

Lemma node_size_children i :
  internal i = true ->
  node_size i = 2 * node_size (2 * i + 1) /\ node_size (2 * i + 2) = node_size (2 * i + 1).
Proof.
  intros Hi. pose proof (internal_nonneg i Hi). apply internal_level in Hi; [|done].
  destruct (level_children i) as [E1 E2]; [done|]. unfold node_size. rewrite E1, E2.
  split; [|done]. replace (L - level i) with (Z.succ (L - (level i + 1))) by lia.
  rewrite Z.pow_succ_r by lia. lia.
Qed.

Lemma node_parent i :
  node i = true -> 0 < i ->
  internal (parent i) = true /\ (i = 2 * parent i + 1 \/ i = 2 * parent i + 2).
Proof.
  intros Hi Hp. unfold parent.
  assert (Hc : i = 2 * ((i - 1) / 2) + 1 \/ i = 2 * ((i - 1) / 2) + 2).
  { pose proof (Z.div_mod (i - 1) 2). pose proof (Z.mod_pos_bound (i - 1) 2). lia. }
  split; [|done]. apply internal_level; [apply Z.div_pos; lia|].
  destruct (level_children ((i - 1) / 2)) as [E1 E2]; [apply Z.div_pos; lia|].
  apply node_level in Hi; [|lia]. destruct Hc as [E|E]; rewrite E in Hi; lia.
Qed.

(** [parent_sibling] gives the parent and the other child. *)
Lemma parent_sibling_spec i :
  node i = true -> 0 < i ->
  exists s, parent_sibling i = (parent i, s) /\
    ((i = 2 * parent i + 1 /\ s = 2 * parent i + 2) \/
     (i = 2 * parent i + 2 /\ s = 2 * parent i + 1)).
Proof.
  intros Hi Hp. destruct (node_parent i Hi Hp) as [Hint Hc]. unfold parent_sibling.
  rewrite !Z.shiftr_div_pow2 by lia. change (2 ^ 1) with 2. rewrite Zodd_mod.
  clear Hint. unfold parent in *. generalize dependent ((i - 1) / 2). intros q Hc.
  destruct Hc as [->| ->].
  - assert ((2 * q + 1) mod 2 = 1) as -> by (rewrite Z.add_comm, Z.mul_comm; apply Z_mod_plus_full).
    exists (2 * q + 1 + 1). split; [|lia]. cbn.
    f_equal; symmetry; apply Z.div_unique with (r := 0); lia.
  - assert ((2 * q + 2) mod 2 = 0) as ->.
    { replace (2 * q + 2) with (0 + (q + 1) * 2) by lia. apply Z_mod_plus_full. }
    exists (2 * q + 2 - 1). split; [|lia]. cbn.
    f_equal; symmetry; apply Z.div_unique with (r := 0); lia.
Qed.

(** *** Values of the nodes *)

Lemma nd_insert rest x v j :
  0 <= x < zlen rest -> 0 <= j ->
  nd (<[Z.to_nat x := v]> rest) j = if decide (j = x) then v else nd rest j.
Proof.
  intros Hx Hj. unfold nd. case_decide as E.
  - subst. rewrite list_lookup_insert_eq; [done|]. unfold zlen in Hx. lia.
  - by rewrite list_lookup_insert_ne by lia.
Qed.

Lemma target_insert rest x v j :
  0 <= x < zlen rest -> 0 <= j -> j <> parent x ->
  target_of (<[Z.to_nat x := v]> rest) j = target_of rest j.
Proof.
  intros Hx Hj Hp. unfold target_of, full, parent in *. rewrite !nd_insert by lia.
  rewrite !decide_False by lia. done.
Qed.

Lemma node_ok_insert rest U x v j :
  0 <= x < zlen rest -> 0 <= j -> j <> x -> j <> parent x ->
  node_ok (<[Z.to_nat x := v]> rest) U j <-> node_ok rest U j.
Proof.
  intros Hx Hj Hne Hp. unfold node_ok. rewrite target_insert by done.
  destruct (decide (j ∈ U)); unfold full, parent in *; rewrite !nd_insert by lia;
    rewrite !decide_False by lia; done.
Qed.

Lemma nd_bounds rest U lo :
  (forall j, node j = true -> lo < j -> node_ok rest U j) ->
  forall j, node j = true -> lo < j -> 0 <= nd rest j <= node_size j.
Proof.
  intros Hok j. remember (Z.to_nat (2 ^ (L + 1) - j)) as n eqn:Hn. revert j Hn.
  induction (lt_wf n) as [n _ IH]. intros j -> Hj Hlo.
  pose proof (node_size_pos j Hj). pose proof (Hok j Hj Hlo) as Hk. unfold node_ok in Hk.
  case_decide; [destruct Hk as [-> _]; lia|]. rewrite Hk. unfold target_of.
  destruct (internal j) eqn:Hint; [|lia].
  destruct (internal_children j Hint) as [H1 H2]. destruct (node_size_children j Hint) as [E1 E2].
  pose proof (node_nonneg j Hj). unfold node in H1, H2. zbool.
  assert (Hc : 0 <= nd rest (2 * j + 1) <= node_size (2 * j + 1)).
  { eapply IH; [|reflexivity| |lia]; [lia|unfold node; zcases; done || lia]. }
  assert (Hd : 0 <= nd rest (2 * j + 2) <= node_size (2 * j + 2)).
  { eapply IH; [|reflexivity| |lia]; [lia|unfold node; zcases; done || lia]. }
  case_match; lia.
Qed.

(** A node is full exactly when its block and all blocks below it are free. *)
Lemma full_children rest U i :
  (forall j, node j = true -> i <= j -> node_ok rest U j) -> node i = true ->
  full rest i = true ->
  (i ∉ U) /\ (internal i = true -> full rest (2 * i + 1) = true /\ full rest (2 * i + 2) = true).
Proof.
  intros Hok Hi Hf. pose proof (Hok i Hi (Z.le_refl i)) as Hk. unfold node_ok in Hk.
  unfold full in Hf. apply Z.eqb_eq in Hf. pose proof (node_size_pos i Hi).
  case_decide; [lia|]. split; [done|]. intros Hint. rewrite Hf in Hk. unfold target_of in Hk.
  rewrite Hint in Hk. case_match eqn:E; [by apply andb_true_iff|].
  exfalso. destruct (internal_children i Hint). destruct (node_size_children i Hint) as [E1 E2].
  pose proof (node_nonneg i Hi).
  pose proof (nd_bounds rest U i ltac:(intros; apply Hok; (done || lia))) as Hb.
  pose proof (Hb (2 * i + 1)). pose proof (Hb (2 * i + 2)). lia.
Qed.

(** *** Ancestors *)

Definition free_above (U : gset Z) (i : Z) : Prop := forall k, ancestor (S k) i ∉ U.

Lemma free_above_parent U i : free_above U i -> (parent i ∉ U) /\ free_above U (parent i).
Proof. intros H. split; [apply (H O)|intros k; apply (H (S k))]. Qed.

Lemma free_above_child U i c :
  i ∉ U -> free_above U i -> parent c = i -> free_above U c.
Proof. intros Hi H E [|k]; cbn; rewrite E; [done|apply (H k)]. Qed.

Lemma ancestor_neg k i : i < 0 -> ancestor k i < 0.
Proof.
  revert i. induction k as [|k IH]; intros i Hi; cbn; [done|]. apply IH. unfold parent. lia.
Qed.

Lemma ancestor_below k i : 0 <= i -> ancestor (S k) i < i.
Proof.
  revert i. induction k as [|k IH]; intros i Hi; [cbn; unfold parent; lia|].
  change (ancestor (S k) (parent i) < i). destruct (Z.eq_dec i 0) as [->|].
  - by apply (ancestor_neg (S k)).
  - pose proof (IH (parent i)). unfold parent in *. lia.
Qed.

Lemma not_full_parent rest U i :
  (forall j, node j = true -> node_ok rest U j) -> node i = true -> 0 < i ->
  full rest i = false ->
  node (parent i) = true /\ (parent i ∉ U) /\ full rest (parent i) = false.
Proof.
  intros Hok Hi Hp Hf. destruct (node_parent i Hi Hp) as [Hint Hc].
  pose proof (internal_node _ Hint) as Hn. split; [done|].
  assert (Hch : ~ (full rest (2 * parent i + 1) = true /\ full rest (2 * parent i + 2) = true)).
  { intros [H1 H2]. destruct Hc as [E|E]; rewrite E in Hf; congruence. }
  pose proof (Hok _ Hn) as Hk. unfold node_ok in Hk. case_decide as Hu.
  - destruct Hk as [_ Hk]. by destruct (Hch (Hk Hint)).
  - split; [done|]. destruct (full rest (parent i)) eqn:Hfp; [|done].
    destruct (full_children rest U (parent i)) as [_ Hch']; [auto..|].
    by destruct (Hch (Hch' Hint)).
Qed.

(** Above a node that is not full, no block is handed out. *)
Lemma not_full_above rest U i :
  (forall j, node j = true -> node_ok rest U j) -> (forall j, j ∈ U -> node j = true) ->
  node i = true -> full rest i = false -> free_above U i.
Proof.
  intros Hok HU Hi Hf k. revert i Hi Hf. induction k as [|k IH]; intros i Hi Hf.
  all: destruct (Z.eq_dec i 0) as [->|];
    [intros Hu; apply HU, node_nonneg in Hu; match goal with k : nat |- _ => pose proof (ancestor_below k 0 (Z.le_refl 0))
     | |- _ => pose proof (ancestor_below O 0 (Z.le_refl 0)) end;
      eapply Z.lt_irrefl, Z.le_lt_trans; eassumption|].
  all: pose proof (node_nonneg i Hi);
    destruct (not_full_parent rest U i Hok Hi ltac:(lia) Hf) as (Hp & Hu & Hpf).
  - done.
  - by apply (IH (parent i)).
Qed.
(** *** The loops of [get] and [put]

    Both walk from a changed node to the root and give each parent the value its
    children ask for. *)

Definition ok_except (rest : list Z) (U : gset Z) (e : Z) : Prop :=
  forall j, node j = true -> j <> e -> node_ok rest U j.

Lemma ok_except_all rest U e :
  ok_except rest U e -> (node e = true -> node_ok rest U e) ->
  forall j, node j = true -> node_ok rest U j.
Proof. intros Hx He j Hj. destruct (Z.eq_dec j e) as [->|]; auto. Qed.

Lemma node_ok_unused rest U j : j ∉ U -> node_ok rest U j <-> nd rest j = target_of rest j.
Proof. intros Hu. unfold node_ok. by rewrite decide_False. Qed.

Lemma ok_except_step rest U i :
  zlen rest = 2 ^ (L + 1) -> node i = true -> 0 < i -> parent i ∉ U ->
  ok_except rest U (parent i) ->
  ok_except (<[Z.to_nat (parent i) := target_of rest (parent i)]> rest) U (parent (parent i)).
Proof.
  intros Hl Hi Hp Hu Hx j Hj Hne. destruct (node_parent i Hi Hp) as [Hint _].
  pose proof (internal_node _ Hint) as Hn. pose proof (node_nonneg j Hj).
  assert (Hr : 0 <= parent i < zlen rest) by (unfold node in Hn; zbool; lia).
  destruct (Z.eq_dec j (parent i)) as [->|Hji].
  - apply node_ok_unused; [done|]. rewrite target_insert by (done || unfold parent; lia).
    rewrite nd_insert by lia. by rewrite decide_True.
  - apply node_ok_insert; [done..|]. by apply Hx.
Qed.

(** What a parent asks for grows with its children. *)
Lemma target_mono rest i v w :
  zlen rest = 2 ^ (L + 1) -> node i = true -> 0 < i -> v <= w <= node_size i ->
  (forall j, node j = true -> parent i < j -> j <> i -> nd rest j <= node_size j) ->
  target_of (<[Z.to_nat i := v]> rest) (parent i) <=
  target_of (<[Z.to_nat i := w]> rest) (parent i).
Proof.
  intros Hl Hi Hp Hvw Hb. destruct (node_parent i Hi Hp) as [Hint Hc].
  assert (Hr : 0 <= i < zlen rest) by (unfold node in Hi; zbool; lia).
  unfold target_of, full. rewrite Hint. destruct (node_size_children _ Hint) as [E1 E2].
  destruct (internal_children _ Hint) as [H1 H2].
  pose proof (internal_nonneg _ Hint). pose proof (node_size_pos i Hi). rewrite !nd_insert by lia.
  destruct Hc as [E|E]; rewrite <- E in E2 |- *; try rewrite <- E in E1.
  - rewrite !(decide_True (P := i = i)), !(decide_False (P := 2 * parent i + 2 = i)) by lia.
    pose proof (Hb (2 * parent i + 2) H2 ltac:(lia) ltac:(lia)). zcases; cbn [andb]; lia.
  - rewrite !(decide_True (P := i = i)), !(decide_False (P := 2 * parent i + 1 = i)) by lia.
    pose proof (Hb (2 * parent i + 1) H1 ltac:(lia) ltac:(lia)). zcases; cbn [andb]; lia.
Qed.

(** The value the loops compute for the parent is the one it asks for. *)
Lemma ms_target rest i s :
  internal (parent i) = true ->
  ((i = 2 * parent i + 1 /\ s = 2 * parent i + 2) \/
   (i = 2 * parent i + 2 /\ s = 2 * parent i + 1)) ->
  (if (nd rest i =? node_size i) && (node_size i =? nd rest s) then node_size (parent i)
   else Z.max (nd rest i) (nd rest s)) = target_of rest (parent i).
Proof.
  intros Hint Hc. unfold target_of, full. rewrite Hint.
  destruct (node_size_children _ Hint) as [E1 E2].
  destruct Hc as [[E ->]|[E ->]]; rewrite <- E in E2 |- *; try rewrite <- E in E1; zcases; cbn [andb]; lia.
Qed.

Lemma rest_get_node rest i :
  zlen rest = 2 ^ (L + 1) -> node i = true -> rest_get rest i = Ret (nd rest i).
Proof.
  intros Hl Hi. unfold node in Hi. zbool. unfold rest_get, nd.
  rewrite (proj2 (Z.leb_le _ _)) by done. unfold zlen in Hl.
  destruct (lookup_lt_is_Some_2 rest (Z.to_nat i)) as [x ->]; [lia|done].
Qed.

Lemma rest_set_node rest i v :
  zlen rest = 2 ^ (L + 1) -> node i = true ->
  rest_set rest i v = Ret (<[Z.to_nat i := v]> rest) /\
  zlen (<[Z.to_nat i := v]> rest) = 2 ^ (L + 1).
Proof.
  intros Hl Hi. unfold node in Hi. zbool. unfold rest_set.
  rewrite (proj2 (Z.leb_le _ _)), (proj2 (Z.ltb_lt _ _)) by lia. split; [done|].
  unfold zlen in *. by rewrite length_insert.
Qed.

(** What the loops know about the node they stand on: all other nodes but its parent are
    fine, and the parent was fine when the node held [v]. *)
Record loop_inv (rest : list Z) (U : gset Z) (i v : Z) : Prop := {
  li_len : zlen rest = 2 ^ (L + 1);
  li_node : node i = true;
  li_above : free_above U i;
  li_ok : ok_except rest U (parent i);
  li_old : 0 < i -> nd rest (parent i) = target_of (<[Z.to_nat i := v]> rest) (parent i)
}.

Lemma loop_bounds rest U i v j :
  loop_inv rest U i v -> node j = true -> parent i < j -> 0 <= nd rest j <= node_size j.
Proof.
  intros Hli. apply (nd_bounds rest U (parent i)). intros k Hk Hlt.
  apply (li_ok _ _ _ _ Hli); [done|lia].
Qed.

Lemma parent_lt i : 0 <= i -> parent i < i.
Proof. unfold parent. lia. Qed.

(** One step up. *)
Lemma loop_step rest U i v :
  loop_inv rest U i v -> 0 < i ->
  loop_inv (<[Z.to_nat (parent i) := target_of rest (parent i)]> rest) U (parent i)
           (nd rest (parent i)) /\
  nd (<[Z.to_nat (parent i) := target_of rest (parent i)]> rest) (parent i) =
    target_of rest (parent i).
Proof.
  intros [Hl Hi Ha Hok _] Hp. destruct (free_above_parent U i Ha) as [Hu Ha'].
  destruct (node_parent i Hi Hp) as [Hint _]. pose proof (internal_node _ Hint) as Hn.
  destruct (rest_set_node rest (parent i) (target_of rest (parent i)) Hl Hn) as [_ Hl'].
  assert (Hr : 0 <= parent i < zlen rest) by (unfold node in Hn; zbool; lia).
  split; [|rewrite nd_insert by lia; by rewrite decide_True].
  split; [done|done|done|by apply ok_except_step|]. intros Hpp.
  rewrite list_insert_insert_eq, (list_insert_id rest _ (nd rest (parent i))).
  - rewrite nd_insert by (unfold parent in *; lia).
    rewrite decide_False by (unfold parent in *; lia). apply node_ok_unused with (U := U).
    + by apply (free_above_parent U (parent i)).
    + apply Hok; [|unfold parent in *; lia].
      apply internal_node. by apply node_parent.
  - unfold nd. destruct (lookup_lt_is_Some_2 rest (Z.to_nat (parent i))) as [x Hx];
      [unfold zlen in Hr; lia|]. by rewrite Hx.
Qed.

Definition nodes_ok (rest : list Z) (U : gset Z) : Prop :=
  zlen rest = 2 ^ (L + 1) /\ forall j, node j = true -> node_ok rest U j.

Lemma level_parent i : node i = true -> 0 < i -> level i = level (parent i) + 1.
Proof.
  intros Hi Hp. destruct (node_parent i Hi Hp) as [Hint Hc].
  destruct (level_children (parent i)) as [E1 E2]; [by apply internal_nonneg|].
  destruct Hc as [E|E]; rewrite E at 1; done.
Qed.

Lemma loop_done rest U i v :
  loop_inv rest U i v -> (0 < i -> nd rest (parent i) = target_of rest (parent i)) ->
  nodes_ok rest U.
Proof.
  intros [Hl Hi Ha Hok _] Hp. split; [done|]. apply (ok_except_all rest U (parent i) Hok).
  intros Hn. pose proof (node_nonneg _ Hn). apply node_ok_unused; [apply (Ha O)|].
  apply Hp. unfold parent in *. lia.
Qed.

(** The value computed at node [i], with everything the C++ reads on the way. *)
Lemma loop_reads rest U i v :
  loop_inv rest U i v -> 0 < i ->
  exists s, parent_sibling i = (parent i, s) /\
    rest_get rest i = Ret (nd rest i) /\ rest_get rest s = Ret (nd rest s) /\
    rest_get rest (parent i) = Ret (nd rest (parent i)) /\
    (forall x, rest_set rest (parent i) x = Ret (<[Z.to_nat (parent i) := x]> rest)) /\
    (if (nd rest i =? node_size i) && (node_size i =? nd rest s) then node_size (parent i)
     else Z.max (nd rest i) (nd rest s)) = target_of rest (parent i) /\
    0 <= nd rest s <= node_size i /\ 2 * node_size i = node_size (parent i).
Proof.
  intros Hli Hp. pose proof Hli as [Hl Hi Ha Hok _].
  destruct (parent_sibling_spec i Hi Hp) as (s & E & Hc).
  destruct (node_parent i Hi Hp) as [Hint _]. destruct (internal_children _ Hint) as [H1 H2].
  destruct (node_size_children _ Hint) as [E1 E2]. pose proof (internal_node _ Hint).
  assert (Hs : node s = true) by (destruct Hc as [[_ ->]|[_ ->]]; done).
  assert (Hss : node_size s = node_size i /\ 2 * node_size i = node_size (parent i)).
  { destruct Hc as [[Ei ->]|[Ei ->]]; rewrite Ei at 2; rewrite ?E2, E1; try rewrite <- Ei;
      split; try done; rewrite Ei at 1; lia. }
  exists s. split; [done|]. rewrite !rest_get_node by done.
  do 3 (split; [done|]). split; [intros x; by apply rest_set_node|].
  split; [by apply ms_target|]. split; [|apply Hss].
  destruct Hss as [<- _]. apply (loop_bounds rest U i v); [done..|].
  pose proof (parent_lt i). lia.
Qed.

Lemma target_old rest U i v :
  loop_inv rest U i v -> 0 < i ->
  (v <= nd rest i -> nd rest (parent i) <= target_of rest (parent i)) /\
  (nd rest i <= v <= node_size i -> target_of rest (parent i) <= nd rest (parent i)).
Proof.
  intros Hli Hp. pose proof Hli as [Hl Hi Ha Hok Hold]. rewrite Hold by done.
  assert (Hid : <[Z.to_nat i := nd rest i]> rest = rest).
  { apply list_insert_id. unfold nd, node in *. zbool. unfold zlen in Hl.
    destruct (lookup_lt_is_Some_2 rest (Z.to_nat i)) as [x Hx]; [lia|]. by rewrite Hx. }
  assert (target_of rest (parent i) = target_of (<[Z.to_nat i := nd rest i]> rest) (parent i))
    as -> by (by rewrite Hid).
  assert (Hb : forall j, node j = true -> parent i < j -> j <> i -> nd rest j <= node_size j)
    by (intros; apply (loop_bounds rest U i v); done).
  pose proof (parent_lt i ltac:(lia)). pose proof (loop_bounds rest U i v i Hli Hi).
  split; intros; apply target_mono; (done || lia).
Qed.

Lemma old_bound rest U i v :
  loop_inv rest U i v -> 0 < i -> v <= node_size i ->
  nd rest (parent i) <= node_size (parent i).
Proof.
  intros Hli Hp Hv. pose proof Hli as [Hl Hi Ha Hok Hold]. rewrite Hold by done.
  destruct (node_parent i Hi Hp) as [Hint Hc]. destruct (internal_children _ Hint) as [H1 H2].
  destruct (node_size_children _ Hint) as [E1 E2]. pose proof (internal_nonneg _ Hint).
  pose proof (node_size_pos _ H1).
  pose proof (loop_bounds rest U i v _ Hli H1 ltac:(lia)).
  pose proof (loop_bounds rest U i v _ Hli H2 ltac:(lia)).
  assert (Hr : 0 <= i < zlen rest) by (unfold node in Hi; zbool; lia).
  unfold target_of, full. rewrite Hint, !nd_insert by lia.
  destruct Hc as [E|E]; [rewrite <- E in *; rewrite (decide_True (P := i = i)) by done|
                         assert (node_size i = node_size (2 * parent i + 2)) by (by rewrite <- E)];
    repeat case_decide; zcases; cbn [andb]; lia.
Qed.

Lemma get_loop_ok fuel i v rest U :
  (Z.to_nat (level i) < fuel)%nat -> loop_inv rest U i v ->
  nd rest i < node_size i -> nd rest i <= v <= node_size i ->
  exists rest', get_loop fuel i rest = Ret rest' /\ nodes_ok rest' U.
Proof.
  revert i v rest. induction fuel as [|fuel IH]; intros i v rest Hf Hli Hlt Hv; [lia|].
  cbn [get_loop]. destruct (Z.ltb_spec 0 i) as [Hp|Hp];
    [|exists rest; split; [done|]; eapply loop_done; [done|lia]].
  destruct (loop_reads rest U i v Hli Hp) as (s & -> & -> & -> & -> & Hset & Hms & Hs & Hsz).
  cbn [mbind res_bind]. rewrite (proj2 (Z.eqb_neq (nd rest i) (node_size i))) in Hms by lia.
  cbn [andb] in Hms. rewrite Hms. destruct (target_old rest U i v Hli Hp) as [_ Hle].
  rewrite massert_true by (apply Z.leb_le; auto).
  cbn [mbind res_bind]. destruct (Z.eqb_spec (nd rest (parent i)) (target_of rest (parent i))).
  { exists rest. split; [done|]. by eapply loop_done. }
  rewrite Hset. cbn [mbind res_bind]. destruct (loop_step rest U i v Hli Hp) as [Hli' Hnd].
  pose proof (level_parent i (li_node _ _ _ _ Hli) Hp). pose proof (level_nonneg (parent i)).
  pose proof (node_size_pos i (li_node _ _ _ _ Hli)).
  eapply IH; [lia|exact Hli'| |]; rewrite Hnd; [lia|]. split; [auto|].
  eapply old_bound; [exact Hli|done|lia].
Qed.

Lemma put_loop_ok fuel i v rest U :
  (Z.to_nat (level i) < fuel)%nat -> loop_inv rest U i v ->
  v <= nd rest i ->
  exists rest', put_loop fuel i (node_size i) rest = Ret rest' /\ nodes_ok rest' U.
Proof.
  revert i v rest. induction fuel as [|fuel IH]; intros i v rest Hf Hli Hv; [lia|].
  cbn [put_loop]. destruct (Z.ltb_spec 0 i) as [Hp|Hp];
    [|exists rest; split; [done|]; eapply loop_done; [done|lia]].
  destruct (loop_reads rest U i v Hli Hp) as (s & -> & -> & -> & -> & Hset & Hms & Hs & Hsz).
  cbn [mbind res_bind]. assert (Hsh : Z.shiftl (node_size i) 1 = node_size (parent i))
    by (rewrite Z.shiftl_mul_pow2; lia).
  rewrite Hsh, Hms. destruct (target_old rest U i v Hli Hp) as [Hle _].
  rewrite massert_true by (apply Z.leb_le; auto).
  cbn [mbind res_bind]. destruct (Z.eqb_spec (nd rest (parent i)) (target_of rest (parent i))).
  { exists rest. split; [done|]. by eapply loop_done. }
  rewrite Hset. cbn [mbind res_bind]. destruct (loop_step rest U i v Hli Hp) as [Hli' Hnd].
  pose proof (level_parent i (li_node _ _ _ _ Hli) Hp). pose proof (level_nonneg (parent i)).
  eapply IH; [lia|exact Hli'|]. rewrite Hnd. auto.
Qed.

(** *** [positioning] and [location] *)

Lemma int_pow2_ok n : 0 <= n < 31 -> int_pow2 n = Ret (2 ^ n).
Proof.
  intros. unfold int_pow2. rewrite mcheck_true by (zcases; done || lia).
  rewrite bind_ret, Z.shiftl_mul_pow2, Z.mul_1_l by lia. done.
Qed.

(** A free block of the wanted size. *)
Definition available (rest : list Z) (U : gset Z) (size i : Z) : Prop :=
  node i = true /\ node_size i = size /\ full rest i = true /\ free_above U i.

Lemma child_has_room rest U i size :
  nodes_ok rest U -> internal i = true -> i ∉ U -> size <= node_size (2 * i + 1) ->
  size <= nd rest i ->
  size <= nd rest (2 * i + 1) \/ size <= nd rest (2 * i + 2).
Proof.
  intros [Hl Hok] Hint Hu Hsz Hnd. pose proof (Hok i (internal_node i Hint)) as Hk.
  apply node_ok_unused in Hk; [|done]. rewrite Hk in Hnd. unfold target_of in Hnd.
  rewrite Hint in Hnd. destruct (node_size_children i Hint) as [E1 E2].
  case_match eqn:Hf; [|lia]. left. unfold full in Hf. zbool. lia.
Qed.

Lemma positioning_step rest U i c size k :
  nodes_ok rest U -> internal i = true -> i ∉ U -> free_above U i ->
  c = 2 * i + 1 \/ c = 2 * i + 2 -> size <= nd rest c -> 0 < size ->
  node c = true /\ parent c = i /\ (c ∉ U) /\ free_above U c /\ level c = level i + 1 /\
  (size = BLOCK_SIZE * 2 ^ k -> k < L - level i -> k <= L - level c).
Proof.
  intros [Hl Hok] Hint Hu Ha Hc Hsz Hpos. destruct (internal_children i Hint) as [H1 H2].
  pose proof (internal_nonneg i Hint). destruct (level_children i) as [E1 E2]; [done|].
  assert (Hn : node c = true) by (destruct Hc as [-> | ->]; done).
  assert (Hpc : parent c = i) by (unfold parent; destruct Hc; lia).
  assert (Hlc : level c = level i + 1) by (destruct Hc as [-> | ->]; done).
  do 2 (split; [done|]). split.
  - intros Hcu. pose proof (Hok c Hn) as Hk. unfold node_ok in Hk.
    rewrite decide_True in Hk by done. lia.
  - split; [by eapply free_above_child|]. split; [done|]. intros; lia.
Qed.

Lemma positioning_ok fuel rest U size k i :
  nodes_ok rest U -> L < 31 -> size = BLOCK_SIZE * 2 ^ k -> 0 <= k ->
  node i = true -> i ∉ U -> free_above U i -> k <= L - level i -> size <= nd rest i ->
  (Z.to_nat (L - level i) < fuel)%nat ->
  exists j, positioning_loop fuel rest size i (level i) (node_size i) = Ret (j, node_off j) /\
            available rest U size j.
Proof.
  intros Hok HL31 Hsize Hk0. revert i. induction fuel as [|fuel IH]; intros i Hi Hu Ha Hk Hnd Hf; [lia|].
  cbn [positioning_loop]. pose proof (node_nonneg i Hi) as Hi0. pose proof Hok as [Hl Hnodes].
  pose proof (level_nonneg i) as Hlv. pose proof (proj1 (node_level i Hi0) Hi) as HlL.
  assert (Hpos : 0 < size).
  { unfold BLOCK_SIZE in Hsize. pose proof (Z.pow_pos_nonneg 2 k). lia. }
  destruct (Z.eqb_spec (node_size i) size) as [E|E].
  { rewrite int_pow2_ok by lia. rewrite bind_ret. exists i. split.
    - unfold node_off. do 2 f_equal. rewrite E. f_equal. lia.
    - split; [done|]. split; [done|]. split; [|done]. unfold full. apply Z.eqb_eq.
      pose proof (nd_bounds rest U (-1) ltac:(auto) i Hi ltac:(lia)). lia. }
  assert (Hlt : k < L - level i).
  { destruct (Z.eq_dec k (L - level i)) as [->|]; [|lia]. unfold node_size in E. lia. }
  assert (Hint : internal i = true) by (apply internal_level; lia).
  destruct (node_size_children i Hint) as [E1 E2]. destruct (internal_children i Hint) as [H1 H2].
  assert (Hsc : size <= node_size (2 * i + 1)).
  { unfold node_size. destruct (level_children i Hi0) as [-> _]. rewrite Hsize.
    apply Z.mul_le_mono_nonneg_l; [discriminate|]. apply Z.pow_le_mono_r; lia. }
  pose proof (child_has_room rest U i size Hok Hint Hu Hsc Hnd) as Hroom.
  rewrite !Z.shiftl_mul_pow2, !(Z.mul_comm i (2 ^ 1)) by lia. change (2 ^ 1) with 2.
  rewrite !rest_get_node by done. rewrite !bind_ret.
  rewrite massert_true by (apply orb_true_iff; rewrite !Z.leb_le; done).
  rewrite bind_ret. rewrite Z.shiftr_div_pow2 by lia. change (2 ^ 1) with 2.
  set (c := if (_ : bool) then _ else _).
  assert (Hc : (c = 2 * i + 1 \/ c = 2 * i + 2) /\ size <= nd rest c).
  { subst c. zcases; cbn [andb orb]; split; auto; lia. }
  clearbody c. destruct Hc as [Hc Hszc].
  destruct (positioning_step rest U i c size k Hok Hint Hu Ha Hc Hszc Hpos)
    as (Hn & Hpc & Hcu & Hca & Hlc & Hkc).
  assert (Hsz : node_size i / 2 = node_size c).
  { rewrite E1. destruct Hc as [-> | ->]; rewrite ?E2, Z.mul_comm; apply Z.div_mul; done. }
  rewrite Hsz, <- Hlc. apply IH; (done || lia || auto).
Qed.

Lemma location_loop_ok fuel k n :
  0 <= k -> (Z.to_nat k < fuel)%nat -> 0 <= L - k ->
  location_loop fuel (BLOCK_SIZE * 2 ^ L) (BLOCK_SIZE * 2 ^ (L - k)) n = Ret (n + k).
Proof.
  revert k n. induction fuel as [|fuel IH]; intros k n Hk Hf Hlk; [lia|]. cbn [location_loop].
  destruct (Z.ltb_spec (BLOCK_SIZE * 2 ^ (L - k)) (BLOCK_SIZE * 2 ^ L)) as [Hlt|Hge].
  - assert (k <> 0) by (intros ->; rewrite Z.sub_0_r in Hlt; lia).
    replace (Z.shiftl (BLOCK_SIZE * 2 ^ (L - k)) 1) with (BLOCK_SIZE * 2 ^ (L - (k - 1))).
    + rewrite IH by lia. f_equal. lia.
    + rewrite Z.shiftl_mul_pow2 by lia. replace (L - (k - 1)) with (Z.succ (L - k)) by lia.
      rewrite Z.pow_succ_r by lia. lia.
  - assert (k = 0); [|f_equal; lia]. destruct (Z.eq_dec k 0); [done|]. exfalso.
    pose proof (Z.pow_lt_mono_r 2 (L - k) L). unfold BLOCK_SIZE in *. lia.
Qed.

Lemma node_off_div i : node i = true -> node_off i / node_size i = i + 1 - 2 ^ level i.
Proof. intros Hi. unfold node_off. apply Z.div_mul. pose proof (node_size_pos i Hi). lia. Qed.

Lemma location_ok p i :
  pool_size p = BLOCK_SIZE * 2 ^ L -> L < 31 -> node i = true ->
  location (node_off i) (node_size i) p = Ret i.
Proof.
  intros Hs HL31 Hi. unfold location. rewrite Hs. pose proof (node_nonneg i Hi).
  pose proof (proj1 (node_level i ltac:(done)) Hi). pose proof (level_nonneg i).
  pose proof (location_loop_ok 66 (level i) 0 ltac:(done) ltac:(lia) ltac:(lia)) as E.
  change (BLOCK_SIZE * 2 ^ (L - level i)) with (node_size i) in E.
  rewrite E, bind_ret, Z.add_0_l.
  rewrite int_pow2_ok by lia. rewrite bind_ret, node_off_div by done. f_equal. lia.
Qed.

(** *** [get] and [put] *)

Lemma insert_nd_id rest i x :
  zlen rest = 2 ^ (L + 1) -> node i = true ->
  <[Z.to_nat i := nd rest i]> (<[Z.to_nat i := x]> rest) = rest.
Proof.
  intros Hl Hi. rewrite list_insert_insert_eq. apply list_insert_id.
  unfold nd, node, zlen in *. zbool.
  destruct (lookup_lt_is_Some_2 rest (Z.to_nat i)) as [y Hy]; [lia|]. by rewrite Hy.
Qed.

(** Changing one node starts a loop. *)
Lemma loop_start rest U U' i w :
  nodes_ok rest U -> node i = true -> (forall j, j <> i -> j ∈ U' <-> j ∈ U) ->
  free_above U' i -> node_ok (<[Z.to_nat i := w]> rest) U' i ->
  loop_inv (<[Z.to_nat i := w]> rest) U' i (nd rest i) /\
  nd (<[Z.to_nat i := w]> rest) i = w.
Proof.
  intros [Hl Hok] Hi HU Ha Hki. pose proof (node_nonneg i Hi).
  assert (Hr : 0 <= i < zlen rest) by (unfold node in Hi; zbool; lia).
  split; [|rewrite nd_insert by lia; by rewrite decide_True].
  destruct (rest_set_node rest i w Hl Hi) as [_ Hl']. split; [done|done|done| |].
  - intros j Hj Hne. destruct (Z.eq_dec j i) as [->|Hji]; [done|].
    pose proof (node_nonneg j Hj). apply node_ok_insert; [done..|].
    pose proof (Hok j Hj) as Hk. unfold node_ok in *.
    destruct (decide (j ∈ U)), (decide (j ∈ U')); try done; exfalso; naive_solver.
  - intros Hp. rewrite insert_nd_id by done.
    destruct (node_parent i Hi Hp) as [Hint _]. pose proof (internal_nonneg _ Hint).
    rewrite nd_insert by lia. rewrite decide_False by (unfold parent; lia).
    apply (node_ok_unused rest U); [|by apply Hok, internal_node].
    rewrite <- HU by (unfold parent; lia). apply (Ha O).
Qed.

Lemma full_insert_children rest i w :
  zlen rest = 2 ^ (L + 1) -> node i = true ->
  full (<[Z.to_nat i := w]> rest) (2 * i + 1) = full rest (2 * i + 1) /\
  full (<[Z.to_nat i := w]> rest) (2 * i + 2) = full rest (2 * i + 2).
Proof.
  intros Hl Hi. pose proof (node_nonneg i Hi). unfold full, node in *. zbool.
  rewrite !nd_insert by lia. rewrite !decide_False by lia. done.
Qed.

Lemma free_above_take U i : node i = true -> free_above U i -> free_above ({[i]} ∪ U) i.
Proof.
  intros Hi Ha k Hk. apply elem_of_union in Hk as [Hk|Hk]; [|by apply (Ha k)].
  apply elem_of_singleton in Hk. pose proof (ancestor_below k i (node_nonneg i Hi)). lia.
Qed.

Lemma level_fuel i : L < 31 -> node i = true -> (Z.to_nat (level i) < 66)%nat.
Proof. intros HL31 Hi. pose proof (node_nonneg i Hi). apply node_level in Hi; lia. Qed.

Lemma take_node rest U i :
  L < 31 -> nodes_ok rest U -> node i = true -> full rest i = true -> free_above U i ->
  exists rest', get_loop 66 i (<[Z.to_nat i := 0]> rest) = Ret rest' /\
                nodes_ok rest' ({[i]} ∪ U).
Proof.
  intros HL31 Hok Hi Hf Ha. pose proof Hok as [Hl Hnodes].
  destruct (full_children rest U i) as [Hu Hch]; [auto..|].
  destruct (full_insert_children rest i 0 Hl Hi) as [F1 F2].
  destruct (loop_start rest U ({[i]} ∪ U) i 0) as [Hli Hnd];
    [done|done|set_solver|by apply free_above_take| |].
  { unfold node_ok. rewrite decide_True by set_solver. rewrite F1, F2. split; [|done].
    unfold node in Hi. zbool. rewrite nd_insert by lia. by rewrite decide_True. }
  pose proof (node_size_pos i Hi). unfold full in Hf. zbool.
  eapply get_loop_ok; [by apply level_fuel|exact Hli|lia|lia].
Qed.

Lemma return_node rest U i :
  L < 31 -> nodes_ok rest U -> (forall j, j ∈ U -> node j = true) -> i ∈ U ->
  nd rest i = 0 /\
  exists rest', put_loop 66 i (node_size i) (<[Z.to_nat i := node_size i]> rest) = Ret rest' /\
                nodes_ok rest' (U ∖ {[i]}).
Proof.
  intros HL31 Hok HU Hiu. pose proof (HU i Hiu) as Hi. pose proof Hok as [Hl Hnodes].
  pose proof (Hnodes i Hi) as Hk. unfold node_ok in Hk. rewrite decide_True in Hk by done.
  destruct Hk as [Hnd0 Hch]. split; [done|]. pose proof (node_size_pos i Hi).
  destruct (full_insert_children rest i (node_size i) Hl Hi) as [F1 F2].
  assert (Ha : free_above U i).
  { apply (not_full_above rest U); [done..|]. unfold full. rewrite Hnd0. apply Z.eqb_neq. lia. }
  assert (Hset : nd (<[Z.to_nat i := node_size i]> rest) i = node_size i).
  { unfold node in Hi. zbool. rewrite nd_insert by lia. by rewrite decide_True. }
  destruct (loop_start rest U (U ∖ {[i]}) i (node_size i)) as [Hli Hnd];
    [done|done|set_solver|intros k Hk; apply (Ha k); set_solver| |].
  { apply node_ok_unused; [set_solver|]. rewrite Hset. unfold target_of. rewrite F1, F2.
    case_match; [|done]. destruct (Hch eq_refl) as [-> ->]. done. }
  eapply put_loop_ok; [by apply level_fuel|exact Hli|]. lia.
Qed.
End Heap.

(** ** Whole operations *)

Lemma round_loop_ok fuel target k pre :
  0 <= k <= 51 -> target <= 2 ^ 63 -> 0 <= pre < BLOCK_SIZE * 2 ^ k ->
  (k = 0 \/ BLOCK_SIZE * 2 ^ (k - 1) < target) -> (Z.to_nat (51 - k) < fuel)%nat ->
  exists m, round_loop fuel target pre (BLOCK_SIZE * 2 ^ k) = Ret (BLOCK_SIZE * 2 ^ m) /\
            0 <= m <= 51 /\ target <= BLOCK_SIZE * 2 ^ m /\
            (m = 0 \/ BLOCK_SIZE * 2 ^ (m - 1) < target).
Proof.
  revert k pre. induction fuel as [|fuel IH]; intros k pre Hk Ht Hpre Hprev Hf; [lia|].
  cbn [round_loop]. rewrite (proj2 (Z.ltb_lt pre _)), andb_true_r by lia.
  destruct (Z.ltb_spec (BLOCK_SIZE * 2 ^ k) target) as [Hlt|Hge].
  - assert (k < 51).
    { destruct (Z.eq_dec k 51) as [->|]; [|lia]. exfalso. unfold BLOCK_SIZE in Hlt. lia. }
    replace (u64 (Z.shiftl (BLOCK_SIZE * 2 ^ k) 1)) with (BLOCK_SIZE * 2 ^ (k + 1)).
    + apply IH; try lia.
      * rewrite Z.pow_add_r by lia. unfold BLOCK_SIZE in *. lia.
      * right. by replace (k + 1 - 1) with k by lia.
    + rewrite Z.shiftl_mul_pow2, Z.pow_add_r by lia. unfold u64. rewrite Z.mod_small; [lia|].
      pose proof (Z.pow_le_mono_r 2 k 50 ltac:(lia) ltac:(lia)).
      pose proof (Z.pow_pos_nonneg 2 k ltac:(lia) ltac:(lia)). unfold BLOCK_SIZE. lia.
  - rewrite (proj2 (Z.ltb_ge _ pre)) by lia. by exists k.
Qed.

(** [round_size] terminates without overflow and gives the smallest size
    [4096 * 2^k] that holds the request. *)
Theorem round_size_least target :
  0 <= target <= 2 ^ 63 ->
  exists k, round_size target = Ret (BLOCK_SIZE * 2 ^ k) /\ 0 <= k <= 51 /\
            target <= BLOCK_SIZE * 2 ^ k /\
            forall j, 0 <= j -> target <= BLOCK_SIZE * 2 ^ j -> k <= j.
Proof.
  intros Ht. destruct (round_loop_ok 66 target 0 0) as (k & E & Hk & Hle & Hmin);
    [lia|lia|unfold BLOCK_SIZE; lia|by left|lia|].
  exists k. split; [exact E|]. split; [done|]. split; [done|]. intros j Hj Hjt.
  destruct Hmin as [->|Hmin]; [done|]. destruct (Z.le_gt_cases k j); [done|].
  pose proof (Z.pow_le_mono_r 2 j (k - 1)). unfold BLOCK_SIZE in *. lia.
Qed.

Lemma round_size_least_witness :
  0 <= 10000 <= 2 ^ 63 /\
  exists k, round_size 10000 = Ret (BLOCK_SIZE * 2 ^ k) /\ 0 <= k <= 51 /\
            10000 <= BLOCK_SIZE * 2 ^ k /\
            forall j, 0 <= j -> 10000 <= BLOCK_SIZE * 2 ^ j -> k <= j.
Proof. split; [lia|]. apply (round_size_least 10000). lia. Defined.
