(* ===== verification/PoolSafety.v ===== *)
(** * Safety of the buffer pool

    Whole operations of BufferPool.v on reachable pools: [pool_run] runs a sequence of
    [get]s and [put]s from the constructor and keeps the buffers the clients hold.  The
    theorems speak about byte ranges only: live buffers never overlap, no assertion of the
    allocator fails, a request is refused only when no aligned block is free, and giving
    everything back restores the whole pool. *)

From S2P Require Import Prelude BufferPool.
From stdpp Require Import gmap.
Local Open Scope Z_scope.

(** ** Clients *)

Inductive pool_op :=
  | PGet (size : Z)
  | PPut (k : nat).

(** A client destroys a [Buffer] it holds at most once ([put_back] clears it), so [PPut]
    removes the buffer from the live ones. *)
Definition pool_exec (o : pool_op) (st : BufferPool * list (Z * Z))
  : res (BufferPool * list (Z * Z)) :=
  let '(p, live) := st in
  match o with
  | PGet size =>
      '(b, p') ← get size p;
      Ret (p', match b with Some x => x :: live | None => live end)
  | PPut k =>
      match live !! k with
      | Some b => p' ← put b p; Ret (p', delete k live)
      | None => Ret (p, live)
      end
  end.

Fixpoint pool_run (ops : list pool_op) (st : BufferPool * list (Z * Z))
  : res (BufferPool * list (Z * Z)) :=
  match ops with
  | [] => Ret st
  | o :: ops' => st' ← pool_exec o st; pool_run ops' st'
  end.

Definition pool_op_ok (o : pool_op) : bool :=
  match o with PGet size => (0 <=? size) && (size <=? 2 ^ 63) | PPut _ => true end.

(** Two byte ranges without a common byte. *)
Definition disjoint_ranges (a b : Z * Z) : Prop := a.1 + a.2 <= b.1 \/ b.1 + b.2 <= a.1.

(** ** Blocks of the heap *)

Section Blocks.
Context (L : Z) (HL : 0 <= L < 31).

Definition block (i : Z) : Z * Z := (node_off L i, node_size L i).

Lemma block_in_parent i :
  node L i = true -> 0 < i ->
  node_off L (parent i) <= node_off L i /\
  node_off L i + node_size L i <= node_off L (parent i) + node_size L (parent i).
Proof.
  intros Hi Hp. destruct (node_parent L ltac:(lia) i Hi Hp) as [Hint Hc].
  destruct (node_size_children L ltac:(lia) _ Hint) as [E1 E2].
  pose proof (level_parent L ltac:(lia) i Hi Hp) as Hl. pose proof (level_nonneg (parent i)).
  pose proof (node_size_pos L i Hi).
  assert (Hs : node_size L (parent i) = 2 * node_size L i)
    by (destruct Hc as [E|E]; [rewrite <- E in E1|rewrite <- E in E2]; lia).
  unfold node_off. rewrite Hs, Hl, Z.pow_add_r by lia. change (2 ^ 1) with 2.
  clear -Hc H0. generalize dependent (node_size L i). intros s Hs.
  generalize dependent (2 ^ level (parent i)). intros w. generalize dependent (parent i).
  intros q [-> | ->]; nia.
Qed.

Lemma ancestor_block k i :
  node L i = true -> Z.of_nat k <= level i ->
  node L (ancestor k i) = true /\ level (ancestor k i) = level i - Z.of_nat k /\
  node_off L (ancestor k i) <= node_off L i /\
  node_off L i + node_size L i <=
    node_off L (ancestor k i) + node_size L (ancestor k i).
Proof.
  revert i. induction k as [|k IH]; intros i Hi Hk; [cbn; split; [done|lia]|].
  assert (Hp : 0 < i).
  { pose proof (node_nonneg L i Hi). destruct (Z.eq_dec i 0) as [->|]; [|lia].
    assert (level 0 = 0) by reflexivity. lia. }
  pose proof (level_parent L ltac:(lia) i Hi Hp). pose proof (block_in_parent i Hi Hp).
  destruct (node_parent L ltac:(lia) i Hi Hp) as [Hint _].
  destruct (IH (parent i)) as (H1 & H2 & H3 & H4); [by apply internal_node; [lia|]|lia|].
  cbn. split; [done|]. lia.
Qed.

Lemma ancestor_root i : node L i = true -> ancestor (Z.to_nat (level i)) i = 0.
Proof.
  intros Hi. pose proof (level_nonneg i).
  destruct (ancestor_block (Z.to_nat (level i)) i Hi ltac:(lia)) as (Hna & Hla & _).
  set (a := ancestor _ i) in *. pose proof (node_nonneg L a Hna). unfold level in Hla at 1.
  pose proof (Z.log2_spec (a + 1) ltac:(lia)) as Hlog. rewrite Hla in Hlog.
  replace (level i - Z.of_nat (Z.to_nat (level i))) with 0 in Hlog by lia.
  change (2 ^ Z.succ 0) with 2 in Hlog. lia.
Qed.

Lemma ancestor_add a b j : ancestor (a + b) j = ancestor b (ancestor a j).
Proof. revert j. induction a as [|a IH]; intros j; cbn; auto. Qed.

Lemma same_level_disjoint i j :
  node L i = true -> node L j = true -> level i = level j -> i <> j ->
  disjoint_ranges (block i) (block j).
Proof.
  intros Hi Hj Hl Hne. unfold disjoint_ranges, block, node_off. cbn.
  assert (Hs : node_size L i = node_size L j) by (unfold node_size; by rewrite Hl).
  rewrite Hs, Hl. pose proof (node_size_pos L j Hj). nia.
Qed.

Lemma used_disjoint rest U i j :
  nodes_ok L rest U -> (forall k, k ∈ U -> node L k = true) ->
  i ∈ U -> j ∈ U -> i <> j -> disjoint_ranges (block i) (block j).
Proof.
  intros Hok HU. assert (Hle : forall i j, i ∈ U -> j ∈ U -> i <> j -> level i <= level j ->
    disjoint_ranges (block i) (block j)).
  { clear i j. intros i j Hi Hj Hne Hl. pose proof (HU i Hi) as Hni. pose proof (HU j Hj) as Hnj.
    pose proof (level_nonneg i). pose proof (level_nonneg j).
    set (k := Z.to_nat (level j - level i)).
    destruct (ancestor_block k j Hnj ltac:(lia)) as (Hna & Hla & Hlo & Hhi).
    assert (Hai : ancestor k j <> i).
    { intros E. destruct k as [|k'] eqn:Ek; [by cbn in E|].
      pose proof Hok as [Hlen Hnodes]. apply (not_full_above L ltac:(lia) rest U j) with (k := k');
        [done..| |by rewrite E].
      pose proof (Hnodes j Hnj) as Hk. unfold node_ok in Hk. rewrite decide_True in Hk by done.
      unfold full. destruct Hk as [-> _]. pose proof (node_size_pos L j Hnj).
      apply Z.eqb_neq. lia. }
    destruct (same_level_disjoint (ancestor k j) i) as [Hd|Hd]; [done|done|lia|done| |];
      unfold disjoint_ranges, block in *; cbn in *; lia. }
  intros Hi Hj Hne. destruct (Z.le_gt_cases (level i) (level j)); [by apply Hle|].
  destruct (Hle j i) as [Hd|Hd]; [done|done|done|lia| |]; [right|left]; done.
Qed.

Lemma block_in_pool p U i :
  pool_inv L p U -> i ∈ U ->
  0 <= node_off L i /\ node_off L i + node_size L i <= pool_size p /\
  node_off L i mod node_size L i = 0.
Proof.
  intros Hp Hi. pose proof (inv_used _ _ _ Hp i Hi) as Hn. pose proof (node_nonneg L i Hn).
  pose proof (level_nonneg i).
  destruct (ancestor_block (Z.to_nat (level i)) i Hn ltac:(lia)) as (Hna & Hla & Hlo & Hhi).
  rewrite (inv_size _ _ _ Hp). rewrite ancestor_root in Hlo, Hhi by done.
  assert (Hroot : node_off L 0 = 0 /\ node_size L 0 = BLOCK_SIZE * 2 ^ L).
  { unfold node_off, node_size. change (level 0) with 0. by rewrite Z.sub_0_r. }
  destruct Hroot as [Hr1 Hr2]. rewrite Hr1 in Hlo. rewrite Hr1, Hr2 in Hhi.
  split; [lia|]. split; [lia|].
  unfold node_off. apply Z.mod_mul. pose proof (node_size_pos L i Hn). lia.
Qed.

(** *** Whole operations *)

Lemma pool_nodes p U : pool_inv L p U -> nodes_ok L (_rest p) U.
Proof. intros Hp. split; apply Hp. Qed.

Lemma node_0 : node L 0 = true.
Proof. apply node_level; [lia|]. change (level 0) with 0. lia. Qed.

Lemma get_ok p U size :
  pool_inv L p U -> 0 <= size <= 2 ^ 63 ->
  exists k, 0 <= k <= 51 /\ round_size size = Ret (BLOCK_SIZE * 2 ^ k) /\
    size <= BLOCK_SIZE * 2 ^ k /\
    ((nd (_rest p) 0 < BLOCK_SIZE * 2 ^ k /\ get size p = Ret (None, p)) \/
     exists i p', get size p = Ret (Some (node_off L i, BLOCK_SIZE * 2 ^ k), p') /\
       available L (_rest p) U (BLOCK_SIZE * 2 ^ k) i /\ pool_size p' = pool_size p /\
       pool_inv L p' ({[i]} ∪ U)).
Proof.
  intros Hp Hs. pose proof (pool_nodes p U Hp) as Hok. pose proof Hok as [Hl Hnodes].
  destruct (round_loop_ok 66 size 0 0) as (k & E & Hk & Hle & _);
    [lia|lia|unfold BLOCK_SIZE; lia|by left|lia|].
  exists k. split; [done|]. split; [exact E|]. split; [done|]. unfold get.
  change (round_size size) with (round_loop 66 size 0 (BLOCK_SIZE * 2 ^ 0)). rewrite E, bind_ret.
  rewrite (rest_get_node L ltac:(lia) _ 0 Hl node_0), bind_ret.
  destruct (Z.ltb_spec (nd (_rest p) 0) (BLOCK_SIZE * 2 ^ k)) as [Hlt|Hge]; [by left|right].
  assert (Hpos : 0 < BLOCK_SIZE * 2 ^ k).
  { unfold BLOCK_SIZE. pose proof (Z.pow_pos_nonneg 2 k ltac:(lia) ltac:(lia)). lia. }
  assert (H0 : (0 ∉ U)).
  { intros H0. pose proof (Hnodes 0 node_0) as Hk0. unfold node_ok in Hk0.
    rewrite decide_True in Hk0 by done. lia. }
  assert (Ha0 : free_above U 0).
  { intros n Hn. pose proof (inv_used _ _ _ Hp _ Hn) as Hnn. apply node_nonneg in Hnn.
    pose proof (ancestor_below n 0 (Z.le_refl 0)). lia. }
  assert (Hroot : node_size L 0 = pool_size p).
  { rewrite (inv_size _ _ _ Hp). unfold node_size. change (level 0) with 0. by rewrite Z.sub_0_r. }
  pose proof (nd_bounds L ltac:(lia) (_rest p) U (-1) ltac:(auto) 0 node_0 ltac:(lia)) as Hb.
  assert (HkL : k <= L).
  { destruct (Z.le_gt_cases k L); [done|]. rewrite Hroot, (inv_size _ _ _ Hp) in Hb.
    pose proof (Z.pow_lt_mono_r 2 L k). unfold BLOCK_SIZE in *. lia. }
  destruct (positioning_ok L ltac:(lia) 66 (_rest p) U (BLOCK_SIZE * 2 ^ k) k 0)
    as (i & Epos & Hav); [done|lia|done|lia|apply node_0|done|done|change (level 0) with 0; lia|lia|change (level 0) with 0; lia|].
  unfold positioning. change (level 0) with 0 in Epos. rewrite Hroot in Epos.
  rewrite Epos, bind_ret.
  destruct Hav as (Hn & Hsz & Hf & Ha). pose proof Hf as Hf'. unfold full in Hf'. apply Z.eqb_eq in Hf'.
  rewrite (rest_get_node L ltac:(lia) _ i Hl Hn), bind_ret.
  rewrite massert_true by (apply Z.eqb_eq; lia). rewrite bind_ret.
  destruct (rest_set_node L ltac:(lia) (_rest p) i 0 Hl Hn) as [-> _]. rewrite bind_ret.
  destruct (take_node L ltac:(lia) (_rest p) U i) as (rest' & -> & Hok'); [lia|done..|].
  rewrite bind_ret. exists i. eexists. split; [reflexivity|]. split; [done|]. cbn.
  split; [done|]. destruct Hp. split; cbn; [done|lia|apply Hok'| |apply Hok'].
  intros j Hj. apply elem_of_union in Hj as [Hj|Hj]; [|auto].
  apply elem_of_singleton in Hj. by subst.
Qed.

Lemma put_ok p U i :
  pool_inv L p U -> i ∈ U ->
  exists p', put (block i) p = Ret p' /\ pool_size p' = pool_size p /\
             pool_inv L p' (U ∖ {[i]}).
Proof.
  intros Hp Hi. pose proof (pool_nodes p U Hp) as Hok. pose proof Hok as [Hl Hnodes].
  pose proof (inv_used _ _ _ Hp i Hi) as Hn. unfold put, block.
  rewrite (location_ok L ltac:(lia) p i (inv_size _ _ _ Hp)) by (done || lia). rewrite bind_ret.
  rewrite (rest_get_node L ltac:(lia) _ i Hl Hn), bind_ret.
  destruct (return_node L ltac:(lia) (_rest p) U i) as (Hnd & rest' & E & Hok');
    [lia|done|apply Hp|done|].
  rewrite massert_true by (apply Z.eqb_eq; lia). rewrite bind_ret.
  destruct (rest_set_node L ltac:(lia) (_rest p) i (node_size L i) Hl Hn) as [-> _].
  rewrite bind_ret, E, bind_ret. eexists. split; [reflexivity|]. split; [done|].
  destruct Hp. split; cbn; [done|done|apply Hok'| |apply Hok'].
  intros j Hj. apply elem_of_difference in Hj as [Hj _]. by apply inv_used.
Qed.

(** *** When a request is refused *)

(** Below a node that is not full something is handed out; above an available one the
    values are large enough. *)
Lemma used_below rest U i :
  nodes_ok L rest U -> node L i = true -> full L rest i = false ->
  exists u k, u ∈ U /\ node L u = true /\ Z.of_nat k <= level u /\ ancestor k u = i.
Proof.
  intros Hok Hi. remember (Z.to_nat (L - level i)) as n eqn:Hn. revert i Hn Hi.
  pose proof Hok as [Hl Hnodes].
  induction n as [n IH] using lt_wf_ind. intros i -> Hi Hf. pose proof (node_nonneg L i Hi).
  destruct (decide (i ∈ U)) as [Hu|Hu]; [exists i, O; pose proof (level_nonneg i); by repeat split|].
  pose proof (Hnodes i Hi) as Hk. apply node_ok_unused in Hk; [|done].
  unfold full in Hf. rewrite Hk in Hf. unfold target_of in Hf.
  destruct (internal L i) eqn:Hint; [|apply Z.eqb_neq in Hf; lia].
  destruct (level_children i) as [E1 E2]; [done|].
  destruct (internal_children L ltac:(lia) i Hint) as [H1 H2].
  pose proof (proj1 (node_level L _ (node_nonneg L _ H1)) H1).
  assert (Hc : exists c, (c = 2 * i + 1 \/ c = 2 * i + 2) /\ full L rest c = false).
  { destruct (full L rest (2 * i + 1)) eqn:F1; [|by eauto].
    destruct (full L rest (2 * i + 2)) eqn:F2; [|by eauto].
    cbn in Hf. apply Z.eqb_neq in Hf. lia. }
  destruct Hc as (c & Hc & Hfc).
  assert (Hlc : level c = level i + 1) by (destruct Hc as [-> | ->]; done).
  assert (Hpc : parent c = i).
  { unfold parent. destruct Hc as [-> | ->]; symmetry; [apply Z.div_unique with (r := 0)|
      apply Z.div_unique with (r := 1)]; lia. }
  destruct (IH (Z.to_nat (L - level c)) ltac:(lia) c eq_refl) as (u & k & Hu' & Hnu & Hk' & Ha);
    [destruct Hc as [-> | ->]; done|done|].
  exists u, (S k). split; [done|]. split; [done|].
  destruct (ancestor_block k u Hnu Hk') as (_ & Hla & _). rewrite Ha in Hla.
  pose proof (level_nonneg i). split; [lia|].
  rewrite <- Hpc, <- Ha. replace (S k) with (k + 1)%nat by lia. apply ancestor_add.
Qed.

Lemma room_above rest U i :
  nodes_ok L rest U -> node L i = true -> 0 < i -> free_above U i ->
  nd rest i <= nd rest (parent i).
Proof.
  intros [Hl Hnodes] Hi Hp Ha. destruct (node_parent L ltac:(lia) i Hi Hp) as [Hint Hc].
  pose proof (Hnodes _ (internal_node L ltac:(lia) _ Hint)) as Hk.
  apply node_ok_unused in Hk; [|apply (Ha O)]. rewrite Hk. unfold target_of. rewrite Hint.
  destruct (internal_children L ltac:(lia) _ Hint) as [H1 H2].
  destruct (node_size_children L ltac:(lia) _ Hint) as [E1 E2].
  pose proof (node_size_pos L _ H1).
  pose proof (nd_bounds L ltac:(lia) rest U (-1) ltac:(auto)) as Hb.
  pose proof (Hb _ H1 ltac:(apply node_nonneg in H1; lia)).
  pose proof (Hb _ H2 ltac:(apply node_nonneg in H2; lia)).
  case_match; destruct Hc as [E|E]; rewrite <- E in *; lia.
Qed.

Lemma room_root rest U i :
  nodes_ok L rest U -> node L i = true -> free_above U i -> nd rest i <= nd rest 0.
Proof.
  intros Hok. induction i as [i IH] using (well_founded_induction (Z.lt_wf 0)).
  intros Hi Ha. pose proof (node_nonneg L i Hi). destruct (Z.eq_dec i 0) as [->|]; [done|].
  destruct (free_above_parent U i Ha) as [_ Ha'].
  destruct (node_parent L ltac:(lia) i Hi ltac:(lia)) as [Hint _].
  pose proof (internal_nonneg L _ Hint). pose proof (parent_lt i ltac:(done)).
  pose proof (room_above rest U i Hok Hi ltac:(lia) Ha).
  pose proof (IH (parent i) ltac:(lia) (internal_node L ltac:(lia) _ Hint) Ha'). lia.
Qed.

Lemma refused_overlaps p U size i :
  pool_inv L p U -> nd (_rest p) 0 < size -> node L i = true -> node_size L i = size ->
  exists u, u ∈ U /\ ~ disjoint_ranges (block i) (block u).
Proof.
  intros Hp Hlt Hi Hs. pose proof (pool_nodes p U Hp) as Hok. pose proof Hok as [Hl Hnodes].
  pose proof (node_size_pos L i Hi).
  destruct (full L (_rest p) i) eqn:Hf.
  - unfold full in Hf. apply Z.eqb_eq in Hf.
    assert (Hna : exists k, ancestor (S k) i ∈ U /\ Z.of_nat (S k) <= level i).
    { destruct (decide (Exists (fun k => ancestor (S k) i ∈ U) (seq 0 (Z.to_nat (level i)))))
        as [He|He].
      - apply Exists_exists in He as (k & Hk & Hu). apply elem_of_seq in Hk. exists k. split; [done|]. lia.
      - exfalso. assert (Ha : free_above U i); [|pose proof (room_root _ U i Hok Hi Ha); lia].
        intros k Hu. apply He. apply Exists_exists. exists k. split; [|done]. apply elem_of_seq.
        destruct (Z.le_gt_cases (level i) (Z.of_nat k)) as [Hge|]; [|lia]. exfalso.
        pose proof (level_nonneg i). apply (inv_used _ _ _ Hp), node_nonneg in Hu.
        replace (S k) with (Z.to_nat (level i) + S (k - Z.to_nat (level i)))%nat in Hu by lia.
        rewrite ancestor_add, ancestor_root in Hu by done.
        pose proof (ancestor_below (k - Z.to_nat (level i)) 0 (Z.le_refl 0)). lia. }
    destruct Hna as (k & Hu & Hk). exists (ancestor (S k) i). split; [done|].
    destruct (ancestor_block (S k) i Hi Hk) as (_ & _ & H1 & H2).
    unfold disjoint_ranges, block. cbn [fst snd]. lia.
  - destruct (used_below (_rest p) U i Hok Hi Hf) as (u & k & Hu & Hnu & Hk & <-).
    exists u. split; [done|]. destruct (ancestor_block k u Hnu Hk) as (_ & _ & H1 & H2).
    pose proof (node_size_pos L u Hnu). unfold disjoint_ranges, block. cbn [fst snd]. lia.
Qed.
End Blocks.

(** ** Reachable pools *)

(** The live buffers are the blocks of the nodes handed out. *)
Definition pool_good (L : Z) (p : BufferPool) (live : list (Z * Z)) : Prop :=
  exists U, pool_inv L p U /\ live ≡ₚ (block L <$> elements U).

Lemma pool_exec_good L o p live :
  0 <= L < 31 -> pool_op_ok o = true -> pool_good L p live ->
  exists p' live', pool_exec o (p, live) = Ret (p', live') /\ pool_good L p' live' /\
                   pool_size p' = pool_size p.
Proof.
  intros HL Ho (U & Hp & Hlive). destruct o as [size|k]; cbn [pool_exec].
  - cbn in Ho. zbool.
    destruct (get_ok L HL p U size Hp ltac:(lia)) as (k & _ & _ & _ & [[_ E]|(i & p' & E & Hav & Hs & Hp')]);
      [rewrite E, bind_ret; exists p, live; split; [done|]; split; [by exists U|done]|].
    rewrite E, bind_ret. do 2 eexists. split; [reflexivity|]. split; [|done]. exists ({[i]} ∪ U). split; [done|].
    destruct Hav as (Hn & Hsz & Hf & _). pose proof (pool_nodes L p U Hp) as [Hl Hnodes].
    destruct (full_children L ltac:(lia) (_rest p) U i) as [Hu _]; [auto..|].
    rewrite elements_union_singleton by done. cbn. unfold block at 1. rewrite Hsz. by constructor.
  - destruct (live !! k) as [b|] eqn:Hb; [|exists p, live; split; [done|]; split; [by exists U|done]].
    assert (Hin : b ∈ (block L <$> elements U)) by (rewrite <- Hlive; by eapply list_elem_of_lookup_2).
    apply list_elem_of_fmap in Hin as (i & -> & Hi). apply elem_of_elements in Hi.
    destruct (put_ok L HL p U i Hp Hi) as (p' & -> & Hs & Hp'). rewrite bind_ret.
    do 2 eexists. split; [reflexivity|]. split; [|done]. exists (U ∖ {[i]}). split; [done|].
    apply delete_Permutation in Hb. apply (Permutation_trans (Permutation_sym Hlive)) in Hb.
    assert (HU : U = {[i]} ∪ (U ∖ {[i]})) by (by apply union_difference_singleton_L).
    rewrite HU, elements_union_singleton in Hb by set_solver. cbn in Hb.
    symmetry. by apply Permutation_cons_inv in Hb.
Qed.

Lemma pool_run_good L ops p live :
  0 <= L < 31 -> forallb pool_op_ok ops = true -> pool_good L p live ->
  exists p' live', pool_run ops (p, live) = Ret (p', live') /\ pool_good L p' live' /\
                   pool_size p' = pool_size p.
Proof.
  intros HL. revert p live. induction ops as [|o ops IH]; intros p live Hops Hg.
  { by exists p, live. }
  cbn in Hops. apply andb_true_iff in Hops as [Ho Hops].
  destruct (pool_exec_good L o p live HL Ho Hg) as (p1 & live1 & E & Hg1 & Hs1).
  destruct (IH p1 live1 Hops Hg1) as (p2 & live2 & E2 & Hg2 & Hs2).
  exists p2, live2. cbn [pool_run]. rewrite E, bind_ret. split; [done|]. split; [done|]. congruence.
Qed.

(** *** The constructor *)

Lemma fill_rest_ok L fuel d rest :
  0 <= L < 31 -> 0 <= d <= L + 1 -> zlen rest = 2 ^ (L + 1) ->
  (forall j, node L j = true -> level j < d -> nd rest j = node_size L j) ->
  (Z.to_nat (L + 1 - d) < fuel)%nat ->
  exists rest', fill_rest fuel (if d <=? L then BLOCK_SIZE * 2 ^ (L - d) else BLOCK_SIZE / 2)
                  (2 ^ d) (2 ^ d - 1) rest = Ret rest' /\ zlen rest' = 2 ^ (L + 1) /\
    forall j, node L j = true -> nd rest' j = node_size L j.
Proof.
  intros HL. revert d rest. induction fuel as [|fuel IH]; intros d rest Hd Hl Hnd Hf; [lia|].
  cbn [fill_rest]. destruct (Z.leb_spec d L) as [Hle|Hgt].
  - pose proof (Z.pow_pos_nonneg 2 (L - d)). pose proof (Z.pow_pos_nonneg 2 d).
    rewrite (proj2 (Z.leb_le _ _)) by (unfold BLOCK_SIZE; lia).
    assert (Hz : zlen (replicate (Z.to_nat (2 ^ d)) (BLOCK_SIZE * 2 ^ (L - d))) = 2 ^ d).
    { unfold zlen. rewrite length_replicate. lia. }
    assert (Hdl : 2 ^ d <= 2 ^ L) by (apply Z.pow_le_mono_r; lia).
    assert (HLp : 2 ^ (L + 1) = 2 * 2 ^ L) by (rewrite Z.pow_add_r by lia; lia).
    rewrite mem_write_ok by (rewrite ?Hz; lia). rewrite bind_ret.
    rewrite !Z.shiftl_mul_pow2, Z.shiftr_div_pow2 by lia. change (2 ^ 1) with 2.
    replace (2 ^ d - 1 + 2 ^ d) with (2 ^ d * 2 - 1) by lia.
    replace (2 ^ d * 2) with (2 ^ (d + 1)) by (rewrite Z.pow_add_r by lia; lia).
    replace (BLOCK_SIZE * 2 ^ (L - d) / 2)
      with (if d + 1 <=? L then BLOCK_SIZE * 2 ^ (L - (d + 1)) else BLOCK_SIZE / 2).
    + apply IH; [lia| | |lia].
      * rewrite zlen_blit; [done|]. apply in_block_intro; rewrite ?Hz; lia.
      * intros j Hj Hlv. pose proof (node_nonneg L j Hj). unfold nd.
        rewrite lookup_blit by (rewrite ?Hz; lia). rewrite Hz.
        unfold level in Hlv. destruct (Z.log2_spec (j + 1) ltac:(lia)) as [Hlo Hhi].
        destruct (Z.eq_dec (level j) d) as [E|E]; unfold level in E.
        -- rewrite E, Z.pow_succ_r in * by lia. rewrite decide_True by lia.
           rewrite lookup_replicate_2 by lia. cbn. unfold node_size, level. by rewrite E.
        -- rewrite decide_False; [apply Hnd; [done|unfold level; lia]|].
           pose proof (Z.pow_le_mono_r 2 (Z.succ (Z.log2 (j + 1))) d). lia.
    + destruct (Z.leb_spec (d + 1) L).
      * replace (L - d) with (Z.succ (L - (d + 1))) by lia. rewrite Z.pow_succ_r by lia.
        rewrite (Z.mul_comm 2), Z.mul_assoc, Z.div_mul by lia. done.
      * replace (L - d) with 0 by lia. done.
  - exists rest. split; [done|]. split; [done|]. intros j Hj. apply Hnd; [done|].
    pose proof (node_nonneg L j Hj). apply node_level in Hj; lia.
Qed.

Lemma pool_new_good total :
  0 <= total <= 2 ^ 42 ->
  exists L p, pool_new total true = Ret p /\ 0 <= L < 31 /\ pool_good L p [] /\
              total <= pool_size p.
Proof.
  intros Ht. destruct (round_loop_ok 66 total 0 0) as (L & E & HL & Hle & Hmin);
    [lia|lia|unfold BLOCK_SIZE; lia|by left|lia|].
  assert (HL31 : L < 31).
  { destruct Hmin as [->|Hmin]; [lia|]. destruct (Z.le_gt_cases 31 L); [|lia].
    pose proof (Z.pow_le_mono_r 2 30 (L - 1)). unfold BLOCK_SIZE in *. lia. }
  exists L. unfold pool_new. change (round_size total) with (round_loop 66 total 0 (BLOCK_SIZE * 2 ^ 0)).
  rewrite E, bind_ret. rewrite Z.mul_comm, Z.div_mul, Z.shiftl_mul_pow2 by (unfold BLOCK_SIZE; lia).
  set (rest0 := replicate _ 0).
  assert (Hl0 : zlen rest0 = 2 ^ (L + 1)).
  { unfold rest0, zlen. rewrite length_replicate, Z.pow_add_r by lia.
    pose proof (Z.pow_pos_nonneg 2 L). lia. }
  destruct (fill_rest_ok L 66 0 rest0) as (rest & Ef & Hl & Hnd); [lia|lia|done| |lia|].
  { intros j _ Hlv. pose proof (level_nonneg j). lia. }
  rewrite (proj2 (Z.leb_le _ _)), Z.sub_0_r in Ef by lia. change (2 ^ 0) with 1 in Ef.
  change (1 - 1) with 0 in Ef. rewrite Z.mul_comm, Ef, bind_ret. eexists. split; [reflexivity|].
  split; [lia|]. split; [|cbn [pool_size]; lia]. exists ∅. split; [|done].
  split; cbn [pool_size _rest]; [lia|lia|done|intros i Hi; by apply elem_of_empty in Hi|].
  intros i Hi. apply node_ok_unused; [apply not_elem_of_empty|].
  rewrite Hnd by done. unfold target_of. destruct (internal L i) eqn:Hint; [|done].
  destruct (internal_children L ltac:(lia) i Hint) as [H1 H2].
  unfold full. rewrite !Hnd by done. by rewrite !Z.eqb_refl.
Qed.

Definition pool_start (total : Z) (ops : list pool_op) : res (BufferPool * list (Z * Z)) :=
  p0 ← pool_new total true;
  pool_run ops (p0, []).

Lemma pool_start_good total ops :
  0 <= total <= 2 ^ 42 -> forallb pool_op_ok ops = true ->
  exists L p live, pool_start total ops = Ret (p, live) /\ 0 <= L < 31 /\
                   pool_good L p live /\ total <= pool_size p.
Proof.
  intros Ht Hops. destruct (pool_new_good total Ht) as (L & p0 & E & HL & Hg & Hs).
  destruct (pool_run_good L ops p0 [] HL Hops Hg) as (p & live & E' & Hg' & Hs').
  exists L, p, live. unfold pool_start. rewrite E, bind_ret. split; [done|].
  split; [done|]. split; [done|]. lia.
Qed.

Lemma good_live L p live b :
  pool_good L p live -> b ∈ live ->
  exists U i, pool_inv L p U /\ live ≡ₚ (block L <$> elements U) /\ i ∈ U /\ b = block L i.
Proof.
  intros (U & Hp & Hlive) Hb. exists U. rewrite Hlive in Hb.
  apply list_elem_of_fmap in Hb as (i & -> & Hi). apply elem_of_elements in Hi. by exists i.
Qed.

Lemma disjoint_ranges_sym a b : disjoint_ranges a b -> disjoint_ranges b a.
Proof. intros [H|H]; [by right|by left]. Qed.

Lemma good_disjoint L p live j k b c :
  0 <= L < 31 -> pool_good L p live -> j <> k -> live !! j = Some b -> live !! k = Some c ->
  disjoint_ranges b c.
Proof.
  intros HL (U & Hp & Hlive) Hne Hj Hk.
  assert (Hd : ForallOrdPairs disjoint_ranges (block L <$> elements U)).
  { pose proof (NoDup_elements U) as Hnd.
    assert (Hin : forall i, i ∈ elements U -> i ∈ U) by (intros i; apply elem_of_elements).
    revert Hnd Hin. generalize (elements U). intros l Hnd. induction Hnd as [|x l Hx Hnd IH]; intros Hin.
    - constructor.
    - cbn. constructor.
      + apply Forall_fmap, Forall_forall. intros y Hy.
        apply (used_disjoint L HL (_rest p) U); [by apply pool_nodes|apply Hp|apply Hin; constructor|
          apply Hin; by constructor|]. intros ->. done.
      + apply IH. intros i Hi. apply Hin. by constructor. }
  assert (Hperm : forall l1 l2, l1 ≡ₚ l2 -> ForallOrdPairs disjoint_ranges l2 ->
            ForallOrdPairs disjoint_ranges l1).
  { clear. intros l1 l2 Hp. symmetry in Hp. induction Hp as [|x l1 l2 Hp IH|x y l|l1 l2 l3 H1 IH1 H2 IH2]; auto.
    - inversion 1; subst. constructor; [by rewrite <- Hp|auto].
    - inversion 1 as [|a l' Hf Ho]; subst. inversion Ho as [|a l' Hf' Ho']; subst.
      apply Forall_cons in Hf as [Hxy Hx].
      constructor; [constructor; [by apply disjoint_ranges_sym|done]|constructor; done]. }
  apply (Hperm live) in Hd; [|done]. clear -Hd Hne Hj Hk. revert j k Hne Hj Hk.
  induction Hd as [|x l Hf Hd IH]; intros [|j] [|k] Hne Hj Hk; cbn in *; simplify_eq.
  - eapply Forall_lookup_1 in Hf; [|exact Hk]. done.
  - eapply Forall_lookup_1 in Hf; [|exact Hj]. by apply disjoint_ranges_sym.
  - apply (IH j k); [congruence|done..].
Qed.

(** C5. On every sequence of requests and returns a pool's operations return: no assertion
    fails and no index leaves [_rest].  The live buffers are aligned, lie inside the pool and
    are pairwise disjoint; when all of them are back the whole pool is one free block again. *)
Theorem pool_safe total ops :
  0 <= total <= 2 ^ 42 -> forallb pool_op_ok ops = true ->
  exists p live, pool_start total ops = Ret (p, live) /\ total <= pool_size p /\
    (forall b, b ∈ live -> 0 <= b.1 /\ b.1 + b.2 <= pool_size p /\ b.1 mod b.2 = 0) /\
    (forall j k b c, j <> k -> live !! j = Some b -> live !! k = Some c -> disjoint_ranges b c) /\
    (live = [] -> max_block p = Ret (pool_size p)).
Proof.
  intros Ht Hops. destruct (pool_start_good total ops Ht Hops) as (L & p & live & E & HL & Hg & Hs).
  exists p, live. split; [done|]. split; [done|]. split; [|split].
  - intros b Hb. destruct (good_live L p live b Hg Hb) as (U & i & Hp & _ & Hi & ->).
    by apply (block_in_pool L HL p U i).
  - intros j k b c. by apply (good_disjoint L p live).
  - intros ->. destruct Hg as (U & Hp & Hlive). apply Permutation_nil_l in Hlive.
    assert (HU : forall i, i ∉ U).
    { intros i Hi. apply elem_of_elements in Hi.
      destruct (elements U); [by apply elem_of_nil in Hi|done]. }
    pose proof (pool_nodes L p U Hp) as Hok.
    assert (Hf : full L (_rest p) 0 = true).
    { destruct (full L (_rest p) 0) eqn:Hf; [done|].
      destruct (used_below L HL (_rest p) U 0 Hok (node_0 L HL) Hf) as (u & k & Hu & _).
      by destruct (HU u). }
    unfold full in Hf. apply Z.eqb_eq in Hf. unfold max_block, nd in *.
    pose proof (inv_len _ _ _ Hp) as Hl. change (Z.to_nat 0) with O in Hf.
    destruct (_rest p) as [|x rest]; [rewrite zlen_nil in Hl; pose proof (Z.pow_pos_nonneg 2 (L + 1)); lia|].
    cbn in Hf. cbn. rewrite Hf, (inv_size _ _ _ Hp). unfold node_size.
    change (level 0) with 0. by rewrite Z.sub_0_r.
Qed.

Definition pool_demo : list pool_op := [PGet 5000; PGet 4096; PGet 100; PPut 1; PGet 8192; PGet 1].

Lemma pool_safe_witness :
  (exists p, pool_start 16384 pool_demo = Ret (p, [(8192, 4096); (12288, 4096); (0, 8192)])) /\
  exists p live, pool_start 16384 pool_demo = Ret (p, live) /\ 16384 <= pool_size p /\
    (forall b, b ∈ live -> 0 <= b.1 /\ b.1 + b.2 <= pool_size p /\ b.1 mod b.2 = 0) /\
    (forall j k b c, j <> k -> live !! j = Some b -> live !! k = Some c -> disjoint_ranges b c) /\
    (live = [] -> max_block p = Ret (pool_size p)).
Proof.
  split; [eexists; vm_compute; reflexivity|].
  apply (pool_safe 16384 pool_demo); [lia | vm_compute; reflexivity].
Defined.

(** On a reachable pool a request is served with a block that is large enough and
    overlaps no live buffer, or it is refused; it is refused only when every aligned block of
    a size [4096 * 2^k] that would hold it overlaps a live buffer. *)
Theorem pool_refusal total ops size p live :
  0 <= total <= 2 ^ 42 -> forallb pool_op_ok ops = true -> 0 <= size <= 2 ^ 63 ->
  pool_start total ops = Ret (p, live) ->
  (exists b p', get size p = Ret (Some b, p') /\ size <= b.2 /\
                forall c, c ∈ live -> disjoint_ranges b c) \/
  (get size p = Ret (None, p) /\
   forall q k, 0 <= q -> 0 <= k -> let s := BLOCK_SIZE * 2 ^ k in
     size <= s -> (q + 1) * s <= pool_size p ->
     exists c, c ∈ live /\ ~ disjoint_ranges (q * s, s) c).
Proof.
  intros Ht Hops Hsz Hst.
  destruct (pool_start_good total ops Ht Hops) as (L & p0 & live0 & E & HL & (U & Hp & Hlive) & _).
  rewrite E in Hst. injection Hst as -> ->.
  destruct (get_ok L HL p U size Hp Hsz) as (k & Hk & Er & Hle & [[Hlt Eg]|(i & p' & Eg & Hav & Hs & Hp')]).
  - right. split; [done|]. intros q m Hq Hm s Hss Hfit. rewrite (inv_size _ _ _ Hp) in Hfit.
    assert (HmL : m <= L).
    { destruct (Z.le_gt_cases m L); [done|]. pose proof (Z.pow_lt_mono_r 2 L m).
      unfold s, BLOCK_SIZE in *. nia. }
    assert (HpL : 2 ^ L = 2 ^ (L - m) * 2 ^ m) by (rewrite <- Z.pow_add_r by lia; f_equal; lia).
    assert (Hqb : q + 1 <= 2 ^ (L - m)).
    { pose proof (Z.pow_pos_nonneg 2 m). unfold s, BLOCK_SIZE in Hfit. nia. }
    set (i := 2 ^ (L - m) - 1 + q).
    assert (Hlv : level i = L - m).
    { unfold level, i. apply Z.log2_unique; [lia|]. rewrite Z.pow_succ_r by lia. lia. }
    assert (Hi : node L i = true) by (apply node_level; unfold i in *; lia).
    assert (His : node_size L i = s).
    { unfold node_size, s. rewrite Hlv. do 2 f_equal. lia. }
    assert (Hround : BLOCK_SIZE * 2 ^ k <= s).
    { destruct (round_loop_ok 66 size 0 0) as (k' & E' & _ & _ & Hmin);
        [lia|lia|unfold BLOCK_SIZE; lia|by left|lia|].
      change (round_size size) with (round_loop 66 size 0 (BLOCK_SIZE * 2 ^ 0)) in Er.
      rewrite E' in Er. injection Er as Er. rewrite <- Er.
      destruct Hmin as [->|Hmin]; [apply Z.mul_le_mono_nonneg_l; [done|apply Z.pow_le_mono_r; lia]|].
      destruct (Z.le_gt_cases k' m); [apply Z.mul_le_mono_nonneg_l; [done|apply Z.pow_le_mono_r; lia]|].
      pose proof (Z.pow_le_mono_r 2 m (k' - 1)). unfold s, BLOCK_SIZE in *. lia. }
    destruct (refused_overlaps L HL p U s i Hp) as (u & Hu & Hd); [lia|done|done|].
    exists (block L u). split.
    { rewrite Hlive. apply list_elem_of_fmap. exists u. split; [done|]. by apply elem_of_elements. }
    assert (Hbi : block L i = (q * s, s)).
    { unfold block, node_off. rewrite His, Hlv. do 2 f_equal. unfold i. lia. }
    by rewrite Hbi in Hd.
  - left. exists (node_off L i, BLOCK_SIZE * 2 ^ k), p'. split; [done|]. split; [done|].
    destruct Hav as (Hn & Hsi & Hf & Ha). pose proof (pool_nodes L p U Hp) as [Hl Hnodes].
    destruct (full_children L ltac:(lia) (_rest p) U i) as [Hu _]; [auto..|].
    intros c Hc. rewrite Hlive in Hc. apply list_elem_of_fmap in Hc as (j & -> & Hj).
    apply elem_of_elements in Hj. rewrite <- Hsi. fold (block L i).
    apply (used_disjoint L HL (_rest p') ({[i]} ∪ U)); [by apply pool_nodes|apply Hp'| | |].
    + apply elem_of_union. left. by apply elem_of_singleton.
    + apply elem_of_union. by right.
    + by intros ->.
Qed.

Lemma pool_refusal_witness :
  match pool_start 16384 pool_demo with
  | Ret (p, live) =>
      (exists b p', get 4000 p = Ret (Some b, p') /\ 4000 <= b.2 /\
                    forall c, c ∈ live -> disjoint_ranges b c) \/
      (get 4000 p = Ret (None, p) /\
       forall q k, 0 <= q -> 0 <= k -> let s := BLOCK_SIZE * 2 ^ k in
         4000 <= s -> (q + 1) * s <= pool_size p ->
         exists c, c ∈ live /\ ~ disjoint_ranges (q * s, s) c)
  | Fault _ => False
  end.
Proof.
  destruct (pool_start 16384 pool_demo) as [[p live]|f] eqn:E; [|vm_compute in E; discriminate].
  apply (pool_refusal 16384 pool_demo 4000 p live); [lia|vm_compute; reflexivity|lia|exact E].
Defined.

(** [posix_memalign] is asked for [total_size] bytes, but the pool hands out blocks of the
    rounded size: here bytes 5000 to 8191 of a 5000-byte allocation. *)
Example pool_overcommits :
  exists p, pool_start 5000 [PGet 8192] = Ret (p, [(0, 8192)]).
Proof. eexists. vm_compute. reflexivity. Qed.
