(* ===== verification/RaftMessage.v ===== *)
(** * Raft messages and nodes (src/Distributed/raft)

    The data of a node ([RaftInstance] with its [RaftTransmitter]), the messages it sends and
    the monad its handlers run in.  A handler threads the node, reads the clock
    ([Unix_to_now], one reading per call), calls the user's state machine and leaves the
    messages it sends in [outbox]; it ends with a fault when an [assert] fails or the node
    exits.  Addresses are numbers, [0] being the default-constructed, invalid one. *)

From S2P Require Import Prelude Version.
From stdpp Require Import gmap.
Local Open Scope Z_scope.

Abbreviation Address := Z (only parsing).

(** ** RaftMessage.hpp *)

Inductive Type_ :=
  | Invalid | LeaderCheck | FollowerAck | AskForVote | Vote
  | Request | Online | OnlineAck | Offline | OfflineAck.

#[export] Instance Type_eq_dec : EqDecision Type_.
Proof. solve_decision. Defined.

Definition type_eqb (a b : Type_) : bool := bool_decide (a = b).

Record RaftMessage := mkMessage {
  type : Type_;
  extra_data_size : Z;
  mchoose : bool;
  mversion : Z;
  mserial : Z;
  time_of_departure : Z;
  extra_data : list Z
}.

Definition EXTRA_SIZE : Z := 40.

(** A message as [MESSAGE_INIT] leaves it. *)
Definition message_init (t : Type_) (version serial now : Z) : RaftMessage :=
  mkMessage t 0 false version serial now (replicate (Z.to_nat EXTRA_SIZE) 0).

Definition vote_init (version serial now : Z) (val : bool) : RaftMessage :=
  mkMessage Vote 0 val version serial now (replicate (Z.to_nat EXTRA_SIZE) 0).

Definition add_extra_message (data : list Z) (m : RaftMessage) : bool * RaftMessage :=
  if u64 (EXTRA_SIZE - extra_data_size m) <? zlen data then (false, m)
  else
    (true, mkMessage (type m) ((extra_data_size m + zlen data) mod 256) (mchoose m) (mversion m)
             (mserial m) (time_of_departure m) (blit (extra_data_size m) data (extra_data m))).

(** ** RaftStateMachine.hpp: the interface the user implements *)

Class RaftStateMachine (M : Type) := {
  can_be_leader : Address -> RaftMessage -> M -> bool * M;
  leader_notify_message : Address -> M -> list Z * M;
  need_synchronize_from : Address -> RaftMessage -> M -> bool * M;
  ready_to_receiving : Address -> RaftMessage -> M -> list Z * M;
  ready_to_send_to : Address -> RaftMessage -> M -> M;
  update_log : M -> M
}.

(** ** RaftInstance.hpp, RaftTransmitter.hpp: the state of a node *)

Inductive State := Leader | Candidate | Follower.

#[export] Instance State_eq_dec : EqDecision State.
Proof. solve_decision. Defined.

Definition state_eqb (a b : State) : bool := bool_decide (a = b).

(** The system clock: its readings, in order. *)
Class Clock := clock : nat -> Z.

Section Node.
Context {M : Type}.

(** [ticks] counts the clock readings, [outbox] holds what was handed to [sendto]. *)
Record RaftInstance := mkInstance {
  _peers : gmap Address Z;
  _state : State;
  _leader : Address;
  _last_flush_time : Z;
  version : Z;
  serial_number : Z;
  votes : Z;
  machine : M;
  ticks : nat;
  outbox : list (Address * RaftMessage)
}.

Definition set_peers p (s : RaftInstance) : RaftInstance :=
  mkInstance p (_state s) (_leader s) (_last_flush_time s) (version s) (serial_number s)
    (votes s) (machine s) (ticks s) (outbox s).
Definition set_state st (s : RaftInstance) : RaftInstance :=
  mkInstance (_peers s) st (_leader s) (_last_flush_time s) (version s) (serial_number s)
    (votes s) (machine s) (ticks s) (outbox s).
Definition set_leader a (s : RaftInstance) : RaftInstance :=
  mkInstance (_peers s) (_state s) a (_last_flush_time s) (version s) (serial_number s)
    (votes s) (machine s) (ticks s) (outbox s).
Definition set_flush t (s : RaftInstance) : RaftInstance :=
  mkInstance (_peers s) (_state s) (_leader s) t (version s) (serial_number s)
    (votes s) (machine s) (ticks s) (outbox s).
Definition set_version v (s : RaftInstance) : RaftInstance :=
  mkInstance (_peers s) (_state s) (_leader s) (_last_flush_time s) v (serial_number s)
    (votes s) (machine s) (ticks s) (outbox s).
Definition set_serial n (s : RaftInstance) : RaftInstance :=
  mkInstance (_peers s) (_state s) (_leader s) (_last_flush_time s) (version s) n
    (votes s) (machine s) (ticks s) (outbox s).
Definition set_votes n (s : RaftInstance) : RaftInstance :=
  mkInstance (_peers s) (_state s) (_leader s) (_last_flush_time s) (version s)
    (serial_number s) n (machine s) (ticks s) (outbox s).
Definition set_machine m (s : RaftInstance) : RaftInstance :=
  mkInstance (_peers s) (_state s) (_leader s) (_last_flush_time s) (version s)
    (serial_number s) (votes s) m (ticks s) (outbox s).
Definition set_ticks n (s : RaftInstance) : RaftInstance :=
  mkInstance (_peers s) (_state s) (_leader s) (_last_flush_time s) (version s)
    (serial_number s) (votes s) (machine s) n (outbox s).
Definition set_outbox o (s : RaftInstance) : RaftInstance :=
  mkInstance (_peers s) (_state s) (_leader s) (_last_flush_time s) (version s)
    (serial_number s) (votes s) (machine s) (ticks s) o.

(** *** The monad of the handlers *)

Definition act (A : Type) : Type := RaftInstance -> res (A * RaftInstance).

#[export] Instance act_ret : MRet act := fun A a s => Ret (a, s).
#[export] Instance act_bind : MBind act := fun A B k m s =>
  match m s with Ret (a, s') => k a s' | Fault f => Fault f end.

Definition get_s : act RaftInstance := fun s => Ret (s, s).
Definition modify (f : RaftInstance -> RaftInstance) : act unit := fun s => Ret (tt, f s).
Definition assert_ (b : bool) : act unit := fun s => if b then Ret (tt, s) else Fault AssertFailed.
Definition exit_ : act unit := fun _ => Fault Exited.
Definition with_machine {A} (f : M -> A * M) : act A :=
  fun s => let '(a, m) := f (machine s) in Ret (a, set_machine m s).
Definition when (b : bool) (m : act unit) : act unit := if b then m else mret tt.
Fixpoint for_each {A} (l : list A) (f : A -> act unit) : act unit :=
  match l with [] => mret tt | x :: l' => f x;; for_each l' f end.

(** The readings of the clock. *)
Context `{Clock}.

Definition Unix_to_now : act Z := fun s => Ret (clock (ticks s), set_ticks (S (ticks s)) s).

Definition sendto (a : Address) (m : RaftMessage) : act unit :=
  modify (fun s => set_outbox (outbox s ++ [(a, m)]) s).

(** ** RaftTransmitter.cpp *)

(** [FILLING_PARAMETER]: the version and the serial number, which is advanced. *)
Definition filling_parameter : act (Z * Z) :=
  fun s => Ret ((version s, serial_number s),
                set_serial (VersionNumber64_incr (serial_number s)) s).

Definition new_message (t : Type_) : act RaftMessage :=
  '(v, n) ← filling_parameter;
  now ← Unix_to_now;
  mret (message_init t v n now).

Definition send_plain (t : Type_) (a : Address) : act unit :=
  message ← new_message t;
  sendto a message.

Definition send_extra (t : Type_) (a : Address) (data : list Z) : act unit :=
  message ← new_message t;
  let '(ok, message) := add_extra_message data message in
  if ok then sendto a message else mret tt.

Definition notify_follower (follower : Address) (data : list Z) : act unit :=
  send_extra LeaderCheck follower data.
Definition respond_leader (leader : Address) : act unit := send_plain FollowerAck leader.
Definition request_vote (peer : Address) : act unit := send_plain AskForVote peer.
Definition tr_vote_to (peer : Address) (result : bool) : act unit :=
  '(v, n) ← filling_parameter;
  now ← Unix_to_now;
  sendto peer (vote_init v n now result).
Definition tr_request_logs (address : Address) (data : list Z) : act unit :=
  send_extra Request address data.
Definition this_one_online (peer : Address) : act unit := send_plain Online peer.
Definition affirm_online (address : Address) : act unit := send_plain OnlineAck address.
Definition this_one_offline (peer : Address) : act unit := send_plain Offline peer.
Definition affirm_offline (address : Address) : act unit := send_plain OfflineAck address.
End Node.
Arguments RaftInstance M : clear implicits.
