(* ===== verification/RaftAgent.v ===== *)
(** * Raft handlers (src/Distributed/raft/src/RaftAgent.cpp, RaftInstance.cpp)

    One definition per handler of [RaftAgent], in the order of the file, then the three
    thread loops and [synchronize_logs_to_followers], [join_to_cluster], [exit_cluster] of
    [RaftInstance].  Logging is left out; the [operator[]] reads in the log lines are of
    addresses that were just found. *)

From S2P Require Import Prelude Version RaftMessage.
From stdpp Require Import gmap.
Local Open Scope Z_scope.

Section Agent.
Context {M : Type} `{RaftStateMachine M} `{Clock}.
Implicit Types (message : RaftMessage) (address : Address).

Definition valid (a : Address) : bool := negb (a =? 0).

(** What a handler's [const Address&] argument names: the sender's address, or the field
    [instance._leader] itself, which the handler may change while it still uses the
    argument. *)
Inductive address_ref := sender (a : Address) | leader_field.

Definition deref (r : address_ref) (s : RaftInstance M) : Address :=
  match r with sender a => a | leader_field => _leader s end.

(** [instance._peers[address] = now] *)
Definition touch_peer (a : Address) (now : Z) : act (M := M) unit :=
  modify (fun s => set_peers (<[a := now]> (_peers s)) s).

Definition is_peer (a : Address) (s : RaftInstance M) : bool := bool_decide (is_Some (_peers s !! a)).

Definition peer_list (s : RaftInstance M) : list Address := (map_to_list (_peers s)).*1.

(** The range-for over [_peers] that notifies every follower. *)
Definition notify_all : act unit :=
  s ← get_s;
  for_each (peer_list s) (fun address =>
    data ← with_machine (leader_notify_message address);
    notify_follower address data).

Definition assert_split_brain (message : RaftMessage) (address : Address) : act (M := M) unit :=
  s ← get_s;
  when (VersionNumber32_lt (mversion message) (version s)
        || ((mversion message =? version s) && state_eqb (_state s) Leader)) exit_.

Definition become_candidate : act (M := M) unit :=
  modify (set_state Candidate);;
  modify (set_leader 0);;
  now ← Unix_to_now;
  modify (set_flush now);;
  modify (fun s => set_version (VersionNumber32_incr (version s)) s);;
  modify (set_votes 1).

Definition become_leader : act (M := M) unit :=
  modify (set_state Leader);;
  modify (set_leader 0);;
  now ← Unix_to_now;
  modify (set_flush now);;
  modify (set_votes 0).

Definition change_leader_to (message : RaftMessage) (address : Address) : act (M := M) unit :=
  assert_split_brain message address;;
  modify (set_state Follower);;
  modify (set_leader address);;
  modify (set_version (mversion message));;
  when (valid address) (now ← Unix_to_now; modify (set_flush now));;
  modify (set_votes 0).

Definition check_outdated (message : RaftMessage) (address : Address) : act (M := M) bool :=
  s ← get_s;
  mret (VersionNumber32_lt (mversion message) (version s)
        && negb (type_eqb (type message) Online) && negb (type_eqb (type message) Offline)).

Definition respond_leader_check (message : RaftMessage) : act (M := M) unit :=
  s ← get_s;
  assert_ (state_eqb (_state s) Follower);;
  modify (set_version (mversion message));;
  choose ← with_machine (need_synchronize_from (_leader s) message);
  if negb choose then respond_leader (_leader s)
  else
    extra_data ← with_machine (ready_to_receiving (_leader s) message);
    tr_request_logs (_leader s) extra_data.

Definition vote_to_be_leader : act (M := M) unit :=
  become_candidate;;
  s ← get_s;
  for_each (peer_list s) request_vote.

(** The [&&] asks the state machine only when the version is newer.  The address is read
    again for the answer: a refusal to [instance._leader], which the refusal has just
    emptied, goes to the empty address. *)
Definition vote_to (message : RaftMessage) (address : address_ref) : act (M := M) unit :=
  s ← get_s;
  let newer := VersionNumber32_gt (mversion message) (version s) in
  can ← (if newer then with_machine (can_be_leader (deref address s) message) else mret true);
  if newer && can then
    change_leader_to message (deref address s);;
    s ← get_s;
    tr_vote_to (deref address s) true
  else
    when (negb can) (change_leader_to message 0);;
    s ← get_s;
    tr_vote_to (deref address s) false.

Definition accept_vote (message : RaftMessage) (address : Address) : act (M := M) unit :=
  s ← get_s;
  if negb (state_eqb (_state s) Candidate) then mret tt
  else if negb (mchoose message) then mret tt
  else
    modify (set_votes (votes s + 1));;
    when ((Z.of_nat (size (_peers s)) + 1) / 2 + 1 <=? votes s + 1)
      (become_leader;; notify_all).

Definition synchronize_logs (message : RaftMessage) (address : Address) : act (M := M) unit :=
  with_machine (fun m => (tt, ready_to_send_to address message m)).

Definition new_one_online (address : Address) : act (M := M) unit :=
  now ← Unix_to_now;
  s ← get_s;
  when (negb (is_peer address s)) (touch_peer address now);;
  if state_eqb (_state s) Leader then
    data ← with_machine (leader_notify_message address);
    notify_follower address data
  else affirm_online address.

(** [accept_online_ack] and [accept_offline_ack] differ in their log lines only. *)
Definition accept_ack (address : Address) : act (M := M) bool :=
  s ← get_s;
  match _peers s !! address with
  | None => mret false
  | Some time => if negb (time =? 0) then touch_peer address 0;; mret true else mret false
  end.
Definition accept_online_ack : Address -> act bool := accept_ack.
Definition accept_offline_ack : Address -> act bool := accept_ack.

Definition peer_offline (address : address_ref) : act (M := M) unit :=
  modify (fun s => set_peers (delete (deref address s) (_peers s)) s);;
  s ← get_s;
  affirm_offline (deref address s);;
  s ← get_s;
  when (deref address s =? _leader s) (modify (set_leader 0)).

(** [error_type] only writes to the log. *)
Definition error_type : act (M := M) unit := mret tt.

(** ** The handlers of the three roles *)

(** The peer's time is set, or the message must come from a node that joins or leaves. *)
Definition accept_from (message : RaftMessage) (address : Address) : act (M := M) unit :=
  s ← get_s;
  if is_peer address s then
    now ← Unix_to_now;
    touch_peer address now
  else
    assert_ (type_eqb (type message) Online || type_eqb (type message) Offline).

Definition handle_messages_from_follower (message : RaftMessage) (address : Address)
  : act (M := M) unit :=
  s ← get_s;
  assert_ (state_eqb (_state s) Leader);;
  accept_from message address;;
  match type message with
  | FollowerAck => mret tt
  | Request => synchronize_logs message address
  | AskForVote => vote_to message (sender address)
  | Vote => accept_vote message address
  | Online => new_one_online address
  | Offline => peer_offline (sender address)
  | LeaderCheck =>
      can ← (if VersionNumber32_lt (mversion message) (version s)
             then with_machine (can_be_leader address message) else mret false);
      if (can : bool) then
        data ← with_machine (leader_notify_message address);
        notify_follower address data
      else
        change_leader_to message address;;
        respond_leader_check message
  | _ => error_type
  end.

Definition handle_messages_from_leader (message : RaftMessage) : act (M := M) unit :=
  s ← get_s;
  assert_ (negb (state_eqb (_state s) Leader));;
  outdated ← check_outdated message (_leader s);
  if (outdated : bool) then mret tt
  else
    assert_ (is_peer (_leader s) s);;
    now ← Unix_to_now;
    touch_peer (_leader s) now;;
    modify (set_flush now);;
    match type message with
    | LeaderCheck => respond_leader_check message
    | AskForVote => vote_to message leader_field
    | Offline => peer_offline leader_field
    | _ => error_type
    end.

Definition handle_messages_from_peer (message : RaftMessage) (address : Address)
  : act (M := M) unit :=
  s ← get_s;
  assert_ (negb (_leader s =? address));;
  outdated ← check_outdated message address;
  if (outdated : bool) then mret tt
  else
    accept_from message address;;
    match type message with
    | AskForVote => vote_to message (sender address)
    | Vote => accept_vote message address
    | LeaderCheck => change_leader_to message address;; respond_leader_check message
    | Online => new_one_online address
    | Offline => peer_offline (sender address)
    | _ => error_type
    end.

Definition handle_leader_timeout : act (M := M) unit :=
  notify_all;;
  now ← Unix_to_now;
  modify (set_flush now).

Definition handle_candidate_timeout : act (M := M) unit := vote_to_be_leader.
Definition handle_follower_timeout : act (M := M) unit := vote_to_be_leader.

Definition handle_message_when_online (message : RaftMessage) (address : Address)
  : act (M := M) bool :=
  match type message with
  | OnlineAck => accept_online_ack address
  | LeaderCheck =>
      change_leader_to message address;; respond_leader_check message;; mret false
  | AskForVote => vote_to message (sender address);; mret false
  | Online => new_one_online address;; this_one_online address;; mret false
  | Offline => this_one_online address;; peer_offline (sender address);; mret false
  | _ => error_type;; mret false
  end.

Definition handle_message_when_offline (message : RaftMessage) (address : Address)
  : act (M := M) bool :=
  match type message with
  | OfflineAck => accept_offline_ack address
  | Online => this_one_offline address;; new_one_online address;; mret false
  | Offline => peer_offline (sender address);; this_one_offline address;; mret false
  | _ => error_type;; mret false
  end.

(** Sets the times of the confirmed peers; whether all of them confirmed. *)
Definition end_status_check (online : bool) : act (M := M) bool :=
  now ← Unix_to_now;
  s ← get_s;
  modify (set_peers ((fun time => if negb (time =? 0) then time else now) <$> _peers s));;
  mret (forallb (fun time => time =? 0) (map_to_list (_peers s)).*2).

(** ** RaftInstance.cpp *)

Definition LEADER_SENT_TIMEOUT : Z := 1 * 1000000000.
Definition CANDIDATE_RECEIVE_TIMEOUT : Z := 3 * 1000000000.
Definition FOLLOWER_RECEIVE_TIMEOUT : Z := 3 * 1000000000.
Definition ONLINE_WAIT_TIMEOUT : Z := 2 * 1000000000.
Definition OFFLINE_WAIT_TIMEOUT : Z := 2 * 1000000000.

Definition follower_receive_timeout (s : RaftInstance M) : Z :=
  let hundredth := Z.quot FOLLOWER_RECEIVE_TIMEOUT 100 in
  _last_flush_time s + hundredth * (Z.rem (_last_flush_time s) 25 + 76).

(** What [receive] returned: a sender and its message, or nothing. *)
Abbreviation received := (option (Address * RaftMessage)) (only parsing).

Definition leader_thread_loop (r : received) : act (M := M) unit :=
  match r with
  | Some (address, message) => handle_messages_from_follower message address
  | None => mret tt
  end;;
  s ← get_s;
  now ← Unix_to_now;
  when (_last_flush_time s + LEADER_SENT_TIMEOUT <? now) handle_leader_timeout.

Definition candidate_thread_loop (r : received) : act (M := M) unit :=
  match r with
  | Some (address, message) => handle_messages_from_peer message address
  | None => handle_candidate_timeout
  end.

Definition follower_thread_loop (r : received) : act (M := M) unit :=
  match r with
  | Some (address, message) =>
      s ← get_s;
      if address =? _leader s then handle_messages_from_leader message
      else handle_messages_from_peer message address
  | None => handle_follower_timeout
  end.

(** One turn of the thread's [while]. *)
Definition thread_turn (r : received) : act (M := M) unit :=
  s ← get_s;
  match _state s with
  | Leader => leader_thread_loop r
  | Candidate => candidate_thread_loop r
  | Follower => follower_thread_loop r
  end.

Definition synchronize_logs_to_followers : act (M := M) unit :=
  s ← get_s;
  when (state_eqb (_state s) Leader)
    (with_machine (fun m => (tt, update_log m));;
     notify_all;;
     now ← Unix_to_now;
     modify (set_flush now)).

Definition add_peer (peer : Address) : act (M := M) unit :=
  now ← Unix_to_now;
  s ← get_s;
  when (negb (is_peer peer s)) (touch_peer peer now).

(** The rounds of [join_to_cluster] and [exit_cluster]: what is received in a round is an
    argument; a round ends when it is used up or every peer confirmed. *)
Definition announce (send : Address -> act unit) : act (M := M) unit :=
  s ← get_s;
  for_each (map_to_list (_peers s)) (fun p =>
    when (negb (p.2 =? 0)) (send p.1));;
  now ← Unix_to_now;
  modify (set_flush now).

Fixpoint wait_acks (handle : RaftMessage -> Address -> act bool) (confirm_size : Z)
    (rs : list (Address * RaftMessage)) : act (M := M) Z :=
  match rs with
  | [] => mret confirm_size
  | (address, message) :: rs' =>
      s ← get_s;
      if confirm_size <? Z.of_nat (size (_peers s)) then
        ok ← handle message address;
        wait_acks handle (if (ok : bool) then confirm_size + 1 else confirm_size) rs'
      else mret confirm_size
  end.

Fixpoint rounds (send : Address -> act unit) (handle : RaftMessage -> Address -> act bool)
    (confirm_size : Z) (rss : list (list (Address * RaftMessage))) : act (M := M) unit :=
  match rss with
  | [] => mret tt
  | rs :: rss' =>
      s ← get_s;
      if confirm_size <? Z.of_nat (size (_peers s)) then
        announce send;;
        n ← wait_acks handle confirm_size rs;
        rounds send handle n rss'
      else mret tt
  end.

Definition join_to_cluster (rs1 rs2 rs3 : list (Address * RaftMessage)) : act (M := M) bool :=
  rounds this_one_online handle_message_when_online 0 [rs1; rs2; rs3];;
  end_status_check true.

Definition exit_cluster (rs1 rs2 rs3 : list (Address * RaftMessage)) : act (M := M) bool :=
  rounds this_one_offline handle_message_when_offline 0 [rs1; rs2; rs3];;
  end_status_check false.
End Agent.
