(* ===== verification/RaftEffects.v ===== *)
(** * What one turn of a Raft node can do

    The abstract specification of a node in a fixed cluster: a turn of its thread either
    leaves the election alone ([quiet]), grants its vote, follows a leader, counts a vote
    (and perhaps wins) or runs for the next version.  [thread_turn_effect] shows that the
    handlers of RaftAgent.v implement it; RaftCluster.v uses nothing else about them. *)

From S2P Require Import Prelude Version RaftMessage RaftAgent.
From stdpp Require Import gmap.
Local Open Scope Z_scope.

Section Effects.
Context {M : Type} `{RaftStateMachine M} `{Clock}.
Implicit Types (s : RaftInstance M) (message : RaftMessage) (address : Address).

(** ** Weakest preconditions of handlers that return *)

Definition wp {A} (m : act (M := M) A) (Q : A -> RaftInstance M -> Prop) s : Prop :=
  match m s with Ret (a, s') => Q a s' | Fault _ => True end.

Lemma wp_bind {A B} (m : act A) (k : A -> act B) Q s :
  wp m (fun a => wp (k a) Q) s -> wp (x ← m; k x) Q s.
Proof. unfold wp, mbind, act_bind. destruct (m s) as [[a s']|]; done. Qed.

Lemma wp_mono {A} (m : act A) (Q Q' : A -> RaftInstance M -> Prop) s :
  wp m Q s -> (forall a s', Q a s' -> Q' a s') -> wp m Q' s.
Proof. unfold wp. destruct (m s) as [[a s']|]; auto. Qed.

Lemma wp_if {A} (b : bool) (m1 m2 : act A) Q s :
  (b = true -> wp m1 Q s) -> (b = false -> wp m2 Q s) -> wp (if b then m1 else m2) Q s.
Proof. destruct b; auto. Qed.

Lemma wp_when (b : bool) (m : act unit) (Q : unit -> RaftInstance M -> Prop) s :
  (b = true -> wp m Q s) -> (b = false -> Q tt s) -> wp (when b m) Q s.
Proof. destruct b; intros H1 H2; [by apply H1|by apply H2]. Qed.

Lemma wp_assert b (Q : unit -> RaftInstance M -> Prop) s :
  (b = true -> Q tt s) -> wp (assert_ b) Q s.
Proof. destruct b; unfold wp, assert_; intros HQ; [by apply HQ|done]. Qed.

Lemma wp_get (Q : RaftInstance M -> RaftInstance M -> Prop) s : Q s s -> wp get_s Q s.
Proof. auto. Qed.

Lemma wp_modify f (Q : unit -> RaftInstance M -> Prop) s : Q tt (f s) -> wp (modify f) Q s.
Proof. auto. Qed.

Lemma wp_ret {A} (a : A) (Q : A -> RaftInstance M -> Prop) s : Q a s -> wp (mret a) Q s.
Proof. auto. Qed.

Lemma wp_now (Q : Z -> RaftInstance M -> Prop) s :
  Q (clock (ticks s)) (set_ticks (S (ticks s)) s) -> wp Unix_to_now Q s.
Proof. auto. Qed.

Lemma wp_machine {A} (f : M -> A * M) Q s :
  (forall a m, Q a (set_machine m s)) -> wp (with_machine f) Q s.
Proof. intros HQ. unfold wp, with_machine. by destruct (f (machine s)). Qed.

(** Runs the straight-line part of a handler. *)
Ltac run :=
  unfold wp, new_message, filling_parameter, Unix_to_now, sendto, modify, get_s, clock;
  cbv [mbind act_bind mret act_ret]; cbn beta iota zeta.

(** ** Messages *)

Definition grantb (m : RaftMessage) : bool := type_eqb (type m) Vote && mchoose m.

(** A message that neither grants nor asks for a vote, nor changes the membership. *)
Definition plain (v : Z) (p : Address * RaftMessage) : Prop :=
  mversion p.2 = v /\ grantb p.2 = false /\
  type p.2 <> AskForVote /\ type p.2 <> Online /\ type p.2 <> Offline.

Definition asks (v : Z) (p : Address * RaftMessage) : Prop :=
  mversion p.2 = v /\ type p.2 = AskForVote.

(** ** Quiet steps *)

Record quiet (s s' : RaftInstance M) : Prop := {
  q_state : _state s' = _state s;
  q_leader : _leader s' = _leader s;
  q_version : version s' = version s;
  q_votes : votes s' = votes s;
  q_dom : dom (_peers s') = dom (_peers s);
  q_out : exists new, outbox s' = outbox s ++ new /\ Forall (plain (version s)) new
}.

Lemma quiet_refl s : quiet s s.
Proof. split; try done. exists []. by rewrite app_nil_r. Qed.

Lemma quiet_trans s1 s2 s3 : quiet s1 s2 -> quiet s2 s3 -> quiet s1 s3.
Proof.
  intros [A1 A2 A3 A4 A5 (n1 & A6 & A7)] [B1 B2 B3 B4 B5 (n2 & B6 & B7)].
  split; try congruence. exists (n1 ++ n2). rewrite B6, A6, app_assoc. split; [done|].
  rewrite A3 in B7. by apply Forall_app.
Qed.

#[local] Instance quiet_preorder : PreOrder quiet.
Proof. split; [intros s; apply quiet_refl|intros s1 s2 s3; apply quiet_trans]. Qed.

(** The two shapes a quiet handler ends in. *)
Lemma quiet_nothing s s' :
  _state s' = _state s -> _leader s' = _leader s -> version s' = version s ->
  votes s' = votes s -> _peers s' = _peers s -> outbox s' = outbox s -> quiet s s'.
Proof. intros. split; try congruence. exists []. by rewrite app_nil_r. Qed.

Lemma quiet_sent p s s' :
  _state s' = _state s -> _leader s' = _leader s -> version s' = version s ->
  votes s' = votes s -> _peers s' = _peers s -> outbox s' = outbox s ++ [p] ->
  plain (version s) p -> quiet s s'.
Proof. intros. split; try congruence. exists [p]. split; [done|]. by constructor. Qed.

Definition always_quiet {A} (m : act (M := M) A) : Prop := forall s, wp m (fun _ => quiet s) s.

Lemma always_quiet_bind {A B} (m : act A) (k : A -> act B) :
  always_quiet m -> (forall a, always_quiet (k a)) -> always_quiet (x ← m; k x).
Proof.
  intros Hm Hk s. apply wp_bind. eapply wp_mono; [apply Hm|]. intros a s1 H1.
  eapply wp_mono; [apply Hk|]. intros b s2 H2. by apply (quiet_trans s s1 s2).
Qed.

Lemma always_quiet_for_each {A} (l : list A) (f : A -> act unit) :
  (forall x, always_quiet (f x)) -> always_quiet (for_each l f).
Proof.
  intros Hf. induction l as [|x l IH]; [intros s; apply quiet_refl|].
  cbn. apply always_quiet_bind; [apply Hf|done].
Qed.

Lemma always_quiet_get : always_quiet get_s.
Proof. intros s. apply quiet_refl. Qed.

Lemma always_quiet_machine {A} (f : M -> A * M) : always_quiet (with_machine f).
Proof. intros s. apply wp_machine. intros. by apply quiet_nothing. Qed.

Lemma always_quiet_when b m : always_quiet m -> always_quiet (when b m).
Proof. intros Hm s. apply wp_when; [intros; apply Hm|intros; apply quiet_refl]. Qed.

(** Sending a message of the node's version. *)
Lemma quiet_new_message s t v n now a :
  v = version s -> t <> Vote -> t <> AskForVote -> t <> Online -> t <> Offline ->
  plain (version s) (a, message_init t v n now).
Proof.
  intros -> H1 H2 H3 H4. split; [done|]. split; [|done]. unfold grantb, type_eqb. cbn.
  by rewrite bool_decide_false.
Qed.

Lemma send_plain_quiet t a :
  t <> Vote -> t <> AskForVote -> t <> Online -> t <> Offline -> always_quiet (send_plain t a).
Proof.
  intros H1 H2 H3 H4 s. unfold send_plain. run.
  eapply quiet_sent; [reflexivity..|]. by apply quiet_new_message.
Qed.

Lemma add_extra_same data m :
  let m' := (add_extra_message data m).2 in
  mversion m' = mversion m /\ type m' = type m /\ mchoose m' = mchoose m.
Proof. unfold add_extra_message. case_match; done. Qed.

Lemma send_extra_quiet t a data :
  t <> Vote -> t <> AskForVote -> t <> Online -> t <> Offline ->
  always_quiet (send_extra t a data).
Proof.
  intros H1 H2 H3 H4 s. unfold send_extra. run.
  pose proof (add_extra_same data (message_init t (version s) (serial_number s) (H0 (ticks s)))) as Hs.
  destruct (add_extra_message _ _) as [ok m]. cbn in Hs. destruct Hs as (Hv & Ht & Hc).
  destruct ok.
  - eapply quiet_sent; [reflexivity..|]. split; [done|]. unfold grantb. cbn. rewrite Ht, Hc. split; [|done].
    unfold type_eqb. by rewrite bool_decide_false.
  - by apply quiet_nothing.
Qed.

Lemma vote_false_quiet a : always_quiet (tr_vote_to a false).
Proof.
  intros s. unfold tr_vote_to. run.
  by eapply quiet_sent.
Qed.

Lemma notify_all_quiet : always_quiet notify_all.
Proof.
  apply always_quiet_bind; [apply always_quiet_get|]. intros s0. apply always_quiet_for_each.
  intros a. apply always_quiet_bind; [apply always_quiet_machine|]. intros data.
  by apply send_extra_quiet.
Qed.

Lemma flush_now_quiet : always_quiet (now ← Unix_to_now; modify (set_flush now)).
Proof. intros s. by apply quiet_nothing. Qed.

Lemma handle_leader_timeout_quiet : always_quiet handle_leader_timeout.
Proof. apply always_quiet_bind; [apply notify_all_quiet|]. intros _. apply flush_now_quiet. Qed.

Lemma synchronize_logs_to_followers_quiet : always_quiet synchronize_logs_to_followers.
Proof.
  apply always_quiet_bind; [apply always_quiet_get|]. intros s0. apply always_quiet_when.
  apply always_quiet_bind; [apply always_quiet_machine|]. intros _. apply handle_leader_timeout_quiet.
Qed.

(** Refreshing the time of a known peer. *)
Lemma quiet_touch_peer a now n s :
  is_peer a s = true -> quiet s (set_peers (<[a := now]> (_peers s)) (set_ticks n s)).
Proof.
  intros Hp. split; try done; [|exists []; by rewrite app_nil_r]. cbn.
  unfold is_peer in Hp. apply bool_decide_eq_true in Hp. by apply dom_insert_lookup_L.
Qed.

Lemma accept_from_quiet m a :
  type m <> Online -> type m <> Offline -> always_quiet (accept_from m a).
Proof.
  intros H1 H2 s. unfold accept_from. apply wp_bind. run.
  apply wp_if; intros Hp.
  - exact (quiet_touch_peer a (H0 (ticks s)) (S (ticks s)) s Hp).
  - apply wp_assert. intros Ht. exfalso. unfold type_eqb in Ht.
    by rewrite !bool_decide_false in Ht.
Qed.

(** ** The changes *)

Definition quorum (s : RaftInstance M) : Z := (Z.of_nat (size (_peers s)) + 1) / 2 + 1.

(** Following a node: the version never goes back, and a leader only follows a strictly
    newer version. *)
Record follows (m : RaftMessage) (s s' : RaftInstance M) : Prop := {
  fo_old : VersionNumber32_lt (mversion m) (version s) = false;
  fo_leader : _state s = Leader -> mversion m <> version s;
  fo_version : version s' = mversion m;
  fo_state : _state s' = Follower;
  fo_dom : dom (_peers s') = dom (_peers s);
  fo_out : outbox s' = outbox s
}.

Inductive change (r : option (Address * RaftMessage)) (s s' : RaftInstance M) : Prop :=
  | ch_none : quiet s s' -> change r s s'
  | ch_follow src m : r = Some (src, m) -> follows m s s' -> change r s s'
  | ch_grant src m s1 p :
      r = Some (src, m) -> type m = AskForVote ->
      VersionNumber32_gt (mversion m) (version s) = true -> follows m s s1 ->
      _state s' = _state s1 -> version s' = version s1 -> dom (_peers s') = dom (_peers s1) ->
      outbox s' = outbox s1 ++ [(src, p)] -> grantb p = true -> mversion p = mversion m ->
      change r s s'
  | ch_count src m :
      r = Some (src, m) -> grantb m = true ->
      VersionNumber32_lt (mversion m) (version s) = false -> _state s = Candidate ->
      version s' = version s -> dom (_peers s') = dom (_peers s) -> outbox s' = outbox s ->
      (_state s' = Candidate /\ votes s' = votes s + 1 /\ votes s + 1 < quorum s \/
       _state s' = Leader /\ quorum s <= votes s + 1) ->
      change r s s'
  | ch_run new :
      r = None -> _state s <> Leader -> _state s' = Candidate ->
      version s' = VersionNumber32_incr (version s) -> votes s' = 1 ->
      dom (_peers s') = dom (_peers s) -> outbox s' = outbox s ++ new ->
      Forall (asks (version s')) new -> change r s s'.

(** A turn: one change between quiet steps. *)
Definition effect (r : option (Address * RaftMessage)) (s s' : RaftInstance M) : Prop :=
  exists s0 s1, quiet s s0 /\ change r s0 s1 /\ quiet s1 s'.

Definition has_effect {A} (r : option (Address * RaftMessage)) (m : act (M := M) A) : Prop :=
  forall s, wp m (fun _ => effect r s) s.

Lemma effect_change r s s' : change r s s' -> effect r s s'.
Proof. intros Hc. exists s, s'. split; [reflexivity|]. by split. Qed.

Lemma effect_pre r s s1 s2 : quiet s s1 -> effect r s1 s2 -> effect r s s2.
Proof. intros Hq (x & y & Hx & Hc & Hy). exists x, y. split; [by etrans|]. by split. Qed.

Lemma effect_post r s s1 s2 : effect r s s1 -> quiet s1 s2 -> effect r s s2.
Proof. intros (x & y & Hx & Hc & Hy) Hq. exists x, y. split; [done|]. split; [done|]. by etrans. Qed.

Lemma wp_effect_pre {A} r (m : act A) s s1 :
  quiet s s1 -> wp m (fun _ => effect r s1) s1 -> wp m (fun _ => effect r s) s1.
Proof.
  intros Hq Hm. eapply wp_mono; [exact Hm|]. intros a s2 He. by apply (effect_pre r s s1 s2).
Qed.

Lemma effect_quiet {A} r (m : act A) : always_quiet m -> has_effect r m.
Proof. intros Hm s. eapply wp_mono; [apply Hm|]. intros a s' Hq. by apply effect_change, ch_none. Qed.

Lemma effect_bind_pre {A B} r (m : act A) (k : A -> act B) :
  always_quiet m -> (forall a, has_effect r (k a)) -> has_effect r (x ← m; k x).
Proof.
  intros Hm Hk s. apply wp_bind. eapply wp_mono; [apply Hm|]. intros a s1 H1.
  eapply wp_mono; [apply Hk|]. intros b s2 H2. by apply (effect_pre r s s1 s2).
Qed.

Lemma effect_bind_post {A B} r (m : act A) (k : A -> act B) :
  has_effect r m -> (forall a, always_quiet (k a)) -> has_effect r (x ← m; k x).
Proof.
  intros Hm Hk s. apply wp_bind. eapply wp_mono; [apply Hm|]. intros a s1 H1.
  eapply wp_mono; [apply Hk|]. intros b s2 H2. by apply (effect_post r s s1 s2).
Qed.

Lemma effect_if {A} r (b : bool) (m1 m2 : act A) :
  (b = true -> has_effect r m1) -> (b = false -> has_effect r m2) ->
  has_effect r (if b then m1 else m2).
Proof. destruct b; auto. Qed.

(** ** The handlers *)

Lemma lt_self v : VersionNumber32_lt v v = false.
Proof.
  unfold VersionNumber32_lt, ltv. rewrite Z.ltb_irrefl, Z.sub_diag. reflexivity.
Qed.

Lemma change_leader_to_sets m a s :
  wp (change_leader_to m a) (fun _ s' => follows m s s' /\ _leader s' = a) s.
Proof.
  unfold change_leader_to, assert_split_brain. apply wp_bind. apply wp_bind. run.
  destruct (VersionNumber32_lt (mversion m) (version s)) eqn:Hlt; [done|]. cbn [orb].
  destruct ((mversion m =? version s) && state_eqb (_state s) Leader) eqn:Hsb; [done|].
  assert (Hl : _state s = Leader -> mversion m <> version s).
  { intros Hs Hv. unfold state_eqb in Hsb. rewrite Hs, Hv, Z.eqb_refl in Hsb. done. }
  cbn. unfold when. destruct (valid a); (split; [by split|done]).
Qed.

Lemma change_leader_to_follows m a s :
  wp (change_leader_to m a) (fun _ s' => follows m s s') s.
Proof. eapply wp_mono; [apply change_leader_to_sets|]. by intros ? s' [? _]. Qed.

Lemma respond_leader_check_follows m s :
  VersionNumber32_lt (mversion m) (version s) = false ->
  wp (respond_leader_check m) (fun _ s' => exists s1, follows m s s1 /\ quiet s1 s') s.
Proof.
  intros Hlt. unfold respond_leader_check. apply wp_bind, wp_get, wp_bind, wp_assert. intros Hs.
  unfold state_eqb in Hs. apply bool_decide_eq_true in Hs. apply wp_bind, wp_modify.
  assert (Hf : follows m s (set_version (mversion m) s)) by (split; try done; by rewrite Hs).
  apply (wp_mono _ (fun _ => quiet (set_version (mversion m) s)));
    [|intros [] s' Hq; exists (set_version (mversion m) s); exact (conj Hf Hq)].
  apply (always_quiet_bind _ _ (always_quiet_machine _)). intros ch.
  destruct ch; cbn; [|by apply send_plain_quiet].
  apply (always_quiet_bind _ _ (always_quiet_machine _)). intros d. by apply send_extra_quiet.
Qed.

(** [change_leader_to] followed by [respond_leader_check]. *)
Lemma follow_and_respond_effect m src a :
  has_effect (Some (src, m)) (change_leader_to m a;; respond_leader_check m).
Proof.
  intros s. apply wp_bind. eapply wp_mono; [apply change_leader_to_follows|].
  intros [] s1 Hf. eapply wp_mono; [apply respond_leader_check_follows|].
  { rewrite (fo_version _ _ _ Hf). apply lt_self. }
  intros [] s2 (s3 & Hf3 & Hq). exists s, s3. split; [apply quiet_refl|]. split; [|done].
  apply (ch_follow _ _ _ src m eq_refl). destruct Hf as [F1 F2 F3 F4 F5 F6], Hf3 as [G1 G2 G3 G4 G5 G6].
  split; try done; congruence.
Qed.

(** The argument names the sender when the handler starts, and still does when a vote is
    granted. *)
Lemma vote_to_effect m src a s :
  type m = AskForVote -> deref a s = src ->
  wp (vote_to m a) (fun _ => effect (Some (src, m)) s) s.
Proof.
  intros Ht Ha. unfold vote_to. apply wp_bind, wp_get, wp_bind.
  destruct (VersionNumber32_gt (mversion m) (version s)) eqn:Hgt.
  - apply wp_machine. intros can ms. cbn [andb]. destruct can.
    + apply wp_bind. rewrite Ha. eapply wp_mono; [apply change_leader_to_sets|].
      intros [] s1 [Hf Hl]. assert (Ha1 : deref a s1 = src) by (by destruct a).
      apply wp_bind, wp_get. rewrite Ha1.
      exists (set_machine ms s). eexists. split; [by apply quiet_nothing|]. split; [|reflexivity].
      eapply ch_grant; [reflexivity|done|exact Hgt|exact Hf|..]; try done.
      cbn. apply (fo_version _ _ _ Hf).
    + cbn [negb]. apply wp_bind. unfold when.
      eapply wp_mono; [apply change_leader_to_follows|]. intros [] s1 Hf.
      apply wp_bind, wp_get. eapply wp_mono; [apply vote_false_quiet|]. intros [] s2 Hq.
      exists (set_machine ms s), s1. split; [by apply quiet_nothing|]. split; [|done].
      by apply (ch_follow _ _ _ src m).
  - apply wp_ret. cbn [andb negb]. unfold when. apply wp_bind, wp_ret, wp_bind, wp_get.
    eapply wp_mono; [apply vote_false_quiet|]. intros [] s2 Hq. by apply effect_change, ch_none.
Qed.

Lemma accept_vote_effect m src :
  type m = Vote ->
  forall s, VersionNumber32_lt (mversion m) (version s) = false \/ _state s <> Candidate ->
  wp (accept_vote m src) (fun _ => effect (Some (src, m)) s) s.
Proof.
  intros Ht s Hlt. unfold accept_vote. apply wp_bind, wp_get.
  destruct (state_eqb (_state s) Candidate) eqn:Hs; cbn [negb];
    [|by apply wp_ret, effect_change, ch_none].
  unfold state_eqb in Hs. apply bool_decide_eq_true in Hs. destruct Hlt as [Hlt|]; [|done].
  destruct (mchoose m) eqn:Hc; cbn [negb]; [|by apply wp_ret, effect_change, ch_none].
  assert (Hg : grantb m = true) by (unfold grantb, type_eqb; by rewrite Ht, Hc, bool_decide_true).
  apply wp_bind, wp_modify. fold (quorum s). unfold when.
  destruct (Z.leb_spec (quorum s) (votes s + 1)) as [Hq|Hq].
  - apply wp_bind. unfold become_leader. run. eapply wp_mono; [apply notify_all_quiet|].
    intros [] s' Hq'. exists s. eexists. split; [apply quiet_refl|]. split; [|exact Hq'].
    eapply ch_count; try done. by right.
  - apply wp_ret. apply effect_change. eapply ch_count; try done. by left.
Qed.

Lemma vote_to_be_leader_effect s : _state s <> Leader -> wp vote_to_be_leader (fun _ => effect None s) s.
Proof.
  intros Hs. unfold vote_to_be_leader, become_candidate. apply wp_bind.
  assert (Hloop : forall l s1, wp (for_each l request_vote) (fun _ s' =>
    _state s' = _state s1 /\ version s' = version s1 /\ votes s' = votes s1 /\
    dom (_peers s') = dom (_peers s1) /\
    exists new, outbox s' = outbox s1 ++ new /\ Forall (asks (version s1)) new) s1).
  { induction l as [|a l IH]; intros s1.
    - do 4 (split; [done|]). exists []. by rewrite app_nil_r.
    - cbn [for_each]. apply wp_bind. unfold request_vote at 1, send_plain. run.
      eapply wp_mono; [apply IH|]. intros [] s' (H1 & H2 & H3 & H4 & new & H5 & H6).
      do 4 (split; [done|]). eexists (_ :: new). rewrite H5. cbn. rewrite <- app_assoc.
      split; [reflexivity|]. by constructor. }
  run. eapply wp_mono; [apply Hloop|]. intros [] s' (H1 & H2 & H3 & H4 & new & H5 & H6).
  apply effect_change. apply (ch_run _ _ _ new); try done. by rewrite H2.
Qed.

(** ** The roles *)

Definition election_message (m : RaftMessage) : Prop := type m <> Online /\ type m <> Offline.

Lemma wp_outdated m a (k : bool -> act unit) (Q : unit -> RaftInstance M -> Prop) s :
  election_message m ->
  (VersionNumber32_lt (mversion m) (version s) = true -> wp (k true) Q s) ->
  (VersionNumber32_lt (mversion m) (version s) = false -> wp (k false) Q s) ->
  wp (o ← check_outdated m a; k o) Q s.
Proof.
  intros [H1 H2] Ht Hf. apply wp_bind. unfold check_outdated. apply wp_bind, wp_get, wp_ret.
  unfold type_eqb. rewrite !bool_decide_false, !andb_true_r by done.
  destruct (VersionNumber32_lt _ _); auto.
Qed.

Lemma from_follower_effect m src :
  election_message m -> has_effect (Some (src, m)) (handle_messages_from_follower m src).
Proof.
  intros Hm s. unfold handle_messages_from_follower. apply wp_bind, wp_get, wp_bind, wp_assert.
  intros Hs. unfold state_eqb in Hs. apply bool_decide_eq_true in Hs. apply wp_bind.
  eapply wp_mono; [apply accept_from_quiet; apply Hm|]. intros [] s1 Hq.
  apply (wp_effect_pre _ _ _ _ Hq).
  destruct Hm as [Hm1 Hm2].
  destruct (type m) eqn:Ht; try done; try (by apply effect_change, ch_none).
  - apply (effect_bind_pre (B := unit)); [|intros can; apply effect_if; intros _].
    + case_match; [apply always_quiet_machine|intros s2; by apply quiet_nothing].
    + apply effect_quiet, (always_quiet_bind _ _ (always_quiet_machine _)). intros d.
      by apply send_extra_quiet.
    + apply follow_and_respond_effect.
  - by apply vote_to_effect.
  - apply accept_vote_effect; [done|]. right. rewrite (q_state _ _ Hq), Hs. done.
  - apply effect_quiet, always_quiet_machine.
Qed.

Lemma from_leader_effect m s :
  election_message m -> _leader s <> 0 ->
  wp (handle_messages_from_leader m) (fun _ => effect (Some (_leader s, m)) s) s.
Proof.
  intros Hm Hl. unfold handle_messages_from_leader. apply wp_bind, wp_get, wp_bind, wp_assert.
  intros Hs. apply wp_outdated; [done|intros _; by apply wp_ret, effect_change, ch_none|].
  intros Hlt. cbn. apply wp_bind, wp_assert. intros Hp. apply wp_bind, wp_now, wp_bind.
  unfold touch_peer. apply wp_modify, wp_bind, wp_modify.
  match goal with |- wp _ _ ?x => assert (Hq : quiet s x); [|set (s1 := x) in *] end.
  { split; try done; [|exists []; by rewrite app_nil_r]. cbn.
    unfold is_peer in Hp. apply bool_decide_eq_true in Hp. by apply dom_insert_lookup_L. }
  apply (wp_effect_pre _ _ _ _ Hq).
  destruct Hm as [Hm1 Hm2].
  destruct (type m) eqn:Ht; try done; try (by apply effect_change, ch_none).
  - eapply wp_mono; [by apply respond_leader_check_follows|]. intros [] s2 (s3 & Hf & Hq3).
    exists s1, s3. split; [apply quiet_refl|]. split; [|done]. by eapply ch_follow.
  - by apply vote_to_effect.
Qed.

Lemma from_peer_effect m src :
  election_message m -> has_effect (Some (src, m)) (handle_messages_from_peer m src).
Proof.
  intros Hm s. unfold handle_messages_from_peer. apply wp_bind, wp_get, wp_bind, wp_assert.
  intros _. apply wp_outdated; [done|intros _; by apply wp_ret, effect_change, ch_none|].
  intros Hlt. cbn. apply wp_bind.
  eapply wp_mono; [apply accept_from_quiet; apply Hm|]. intros [] s1 Hq.
  apply (wp_effect_pre _ _ _ _ Hq).
  destruct Hm as [Hm1 Hm2].
  destruct (type m) eqn:Ht; try done; try (by apply effect_change, ch_none).
  - apply follow_and_respond_effect.
  - by apply vote_to_effect.
  - apply accept_vote_effect; [done|]. left. by rewrite (q_version _ _ Hq).
Qed.

(** The messages a fixed cluster exchanges, from valid addresses. *)
Definition received_ok (r : option (Address * RaftMessage)) : Prop :=
  match r with Some (src, m) => election_message m /\ src <> 0 | None => True end.

Lemma thread_turn_has_effect r s : received_ok r -> wp (thread_turn r) (fun _ => effect r s) s.
Proof.
  intros Hr. unfold thread_turn. apply wp_bind, wp_get.
  destruct (_state s) eqn:Hs.
  - unfold leader_thread_loop. apply effect_bind_post.
    + destruct r as [[src m]|]; [apply from_follower_effect, Hr|].
      intros s1. by apply effect_change, ch_none.
    + intros []. apply always_quiet_bind; [apply always_quiet_get|]. intros s1.
      apply always_quiet_bind; [intros s2; by apply quiet_nothing|]. intros now.
      apply always_quiet_when, handle_leader_timeout_quiet.
  - unfold candidate_thread_loop. destruct r as [[src m]|]; [apply from_peer_effect, Hr|].
    apply vote_to_be_leader_effect. by rewrite Hs.
  - unfold follower_thread_loop. destruct r as [[src m]|].
    + apply wp_bind, wp_get. destruct Hr as [Hm Hsrc].
      destruct (Z.eqb_spec src (_leader s)) as [->|]; [by apply from_leader_effect|].
      by apply from_peer_effect.
    + apply vote_to_be_leader_effect. by rewrite Hs.
Qed.
End Effects.
