(* ===== verification/RaftCluster.v ===== *)
(** * Election safety of a Raft cluster

    A fixed set of nodes runs the thread loops of RaftAgent.v and exchanges their messages
    over a network that may lose, delay and reorder datagrams but delivers each at most once.
    [sent] keeps every datagram ever sent and is used by the proofs only.  The headline
    theorem says that no two nodes are leader of the same version, as long as versions stay
    in the lower half of the 32-bit circle. *)

From S2P Require Import Prelude Version RaftMessage RaftAgent RaftEffects.
From stdpp Require Import gmap.
Local Open Scope Z_scope.

Record packet := mkPacket { p_src : Address; p_dst : Address; p_msg : RaftMessage }.

Definition HALF : Z := MAX_UINT / 2.

Section Cluster.
Context {M : Type} `{RaftStateMachine M} `{Clock}.

Record cluster := mkCluster {
  nodes : gmap Address (RaftInstance M);
  flight : list packet;
  sent : list packet
}.

Definition outgoing (n : Address) (s : RaftInstance M) : list packet :=
  map (fun p => mkPacket n p.1 p.2) (outbox s).

(** Node [n] ran a handler that took it to [s]; what it sent is on its way. *)
Definition ran (n : Address) (s : RaftInstance M) (fl : list packet) (c : cluster) : cluster :=
  mkCluster (<[n := set_outbox [] s]> (nodes c)) (fl ++ outgoing n s) (sent c ++ outgoing n s).

(** The steps: a node receives a datagram, a node's receive times out, a user calls
    [synchronize_logs_to_followers], a datagram is lost. *)
Inductive cluster_step : cluster -> cluster -> Prop :=
  | step_receive c n s s' fl1 fl2 src m :
      nodes c !! n = Some s -> flight c = fl1 ++ mkPacket src n m :: fl2 ->
      thread_turn (Some (src, m)) s = Ret (tt, s') ->
      cluster_step c (ran n s' (fl1 ++ fl2) c)
  | step_timeout c n s s' :
      nodes c !! n = Some s -> thread_turn None s = Ret (tt, s') ->
      cluster_step c (ran n s' (flight c) c)
  | step_synchronize c n s s' :
      nodes c !! n = Some s -> synchronize_logs_to_followers s = Ret (tt, s') ->
      cluster_step c (ran n s' (flight c) c)
  | step_lose c fl1 fl2 p :
      flight c = fl1 ++ p :: fl2 ->
      cluster_step c (mkCluster (nodes c) (fl1 ++ fl2) (sent c)).

(** Before the first turn: the members know each other and run as followers. *)
Definition cluster_init (N : gset Address) (c : cluster) : Prop :=
  (0 ∉ N) /\ dom (nodes c) = N /\ flight c = [] /\ sent c = [] /\
  forall n s, nodes c !! n = Some s ->
    dom (_peers s) = N ∖ {[n]} /\ _state s = Follower /\ version s = 0 /\ outbox s = [].

(** No version has passed the middle of the circle. *)
Definition versions_small (c : cluster) : Prop :=
  forall n s, nodes c !! n = Some s -> version s <= HALF.

Definition small_step (l : unit) (c c' : cluster) : Prop := cluster_step c c' /\ versions_small c'.

Definition cluster_reachable (N : gset Address) : cluster -> Prop :=
  reachable (cluster_init N) small_step.

(** ** Counting votes *)

Definition is_grant (d v : Z) (p : packet) : bool :=
  grantb (p_msg p) && (p_dst p =? d) && (mversion (p_msg p) =? v).

Fixpoint gcount (d v : Z) (l : list packet) : Z :=
  match l with [] => 0 | p :: l' => (if is_grant d v p then 1 else 0) + gcount d v l' end.

Lemma gcount_app d v l1 l2 : gcount d v (l1 ++ l2) = gcount d v l1 + gcount d v l2.
Proof. induction l1 as [|p l1 IH]; cbn; [done|]. rewrite IH. lia. Qed.

Lemma gcount_nonneg d v l : 0 <= gcount d v l.
Proof. induction l as [|p l IH]; cbn; [done|]. destruct (is_grant d v p); lia. Qed.

Lemma gcount_zero d v l : (forall p, p ∈ l -> is_grant d v p = false) -> gcount d v l = 0.
Proof.
  induction l as [|p l IH]; cbn; intros Hl; [done|]. rewrite Hl by constructor.
  rewrite IH; [done|]. intros q Hq. apply Hl. by constructor.
Qed.

Definition gkey (p : packet) : Z * Z := (p_src p, mversion (p_msg p)).
Definition is_vote (p : packet) : bool := grantb (p_msg p).
Definition grants (l : list packet) : list packet := List.filter is_vote l.

(** ** What a turn does, with plain comparisons *)

Record turn_summary (r : option (Address * RaftMessage)) (s s' : RaftInstance M) : Prop := {
  ts_version : version s <= version s';
  ts_dom : dom (_peers s') = dom (_peers s);
  ts_out : Forall (fun p => 0 <= mversion p.2 <= version s' /\ election_message p.2) (outbox s');
  ts_grants :
    List.filter (fun p => grantb p.2) (outbox s') = [] \/
    exists src m p, r = Some (src, m) /\
      List.filter (fun p => grantb p.2) (outbox s') = [(src, p)] /\
      mversion p = mversion m /\ mversion m = version s' /\ version s < version s' /\
      _state s' = Follower;
  ts_candidate : _state s' = Candidate ->
    (version s < version s' /\ votes s' = 1) \/
    (_state s = Candidate /\ version s' = version s /\
     (votes s' = votes s \/
      votes s' = votes s + 1 /\ exists src m, r = Some (src, m) /\ grantb m = true /\
                                              version s <= mversion m));
  ts_leader : _state s' = Leader ->
    version s' = version s /\
    (_state s = Leader \/
     _state s = Candidate /\ quorum s <= votes s + 1 /\
     exists src m, r = Some (src, m) /\ grantb m = true /\ version s <= mversion m)
}.

Lemma lt_small a b :
  0 <= a <= HALF -> 0 <= b <= HALF -> VersionNumber32_lt a b = (a <? b).
Proof.
  unfold HALF. intros. assert (MAX_UINT / 2 <= MAX_UINT) by (vm_compute; discriminate).
  apply ltv_window; unfold wfv; [unfold MAX_UINT; lia|lia..].
Qed.

Lemma incr_small v : 0 <= v <= HALF -> VersionNumber32_incr v = v + 1.
Proof.
  unfold HALF. intros. assert (MAX_UINT / 2 < MAX_UINT) by (vm_compute; done).
  unfold VersionNumber32_incr, incr. rewrite (proj2 (Z.eqb_neq _ _)) by lia. cbn.
  apply Z.mod_small. unfold MAX_UINT in *. lia.
Qed.

Lemma plain_no_grants v l : Forall (plain v) l -> List.filter (fun p => grantb p.2) l = [].
Proof.
  induction 1 as [|p l Hp _ IH]; cbn; [done|]. destruct Hp as (_ & -> & _). done.
Qed.

Lemma plain_out v w l :
  0 <= v <= w -> Forall (plain v) l ->
  Forall (fun p => 0 <= mversion p.2 <= w /\ election_message p.2) l.
Proof.
  intros Hv Hl. eapply Forall_impl; [exact Hl|]. intros p (E & _ & _ & H1 & H2).
  split; [cbn in *; lia|]. done.
Qed.

Lemma asks_out v w l :
  0 <= v <= w -> Forall (asks v) l ->
  Forall (fun p => 0 <= mversion p.2 <= w /\ election_message p.2) l /\
  List.filter (fun p => grantb p.2) l = [].
Proof.
  intros Hv Hl. split.
  - eapply Forall_impl; [exact Hl|]. intros p (E & Ht). split; [cbn in *; lia|].
    unfold election_message. by rewrite Ht.
  - induction Hl as [|p l [_ Ht] _ IH]; cbn; [done|]. unfold grantb, type_eqb. rewrite Ht. done.
Qed.

Lemma quorum_dom (s s' : RaftInstance M) :
  dom (_peers s') = dom (_peers s) -> quorum s' = quorum s.
Proof. intros Hd. unfold quorum. by rewrite <- !(size_dom (D := gset Z)), Hd. Qed.

Lemma effect_summary r s s' :
  outbox s = [] -> 0 <= version s <= HALF -> version s' <= HALF ->
  (forall src m, r = Some (src, m) -> 0 <= mversion m <= HALF) ->
  effect r s s' -> turn_summary r s s'.
Proof.
  intros Ho Hv Hv' Hm (s0 & s1 & [A1 A2 A3 A4 A5 (n0 & A6 & A7)] & Hc & [B1 B2 B3 B4 B5 (n2 & B6 & B7)]).
  rewrite Ho in A6. cbn in A6. rewrite <- A3 in A7.
  assert (HF : version s0 = version s) by done.
  assert (Hgen : forall mid, outbox s1 = outbox s0 ++ mid -> outbox s' = n0 ++ mid ++ n2).
  { intros mid Hmid. by rewrite B6, Hmid, A6, app_assoc. }
  destruct Hc as [[C1 C2 C3 C4 C5 (n1 & C6 & C7)]|src m Er [F1 F2 F3 F4 F5 F6]
    |src m s2 p Er Ht Hgt [F1 F2 F3 F4 F5 F6] G1 G2 G3 G4 G5 G6
    |src m Er Hg Hlt Hs G1 G2 G3 G4|n1 Er Hs G1 G2 G3 G4 G5 G6].
  - (* no change *)
    specialize (Hgen n1 C6). assert (Hvv : version s' = version s) by congruence.
    split; rewrite ?Hgen; try (rewrite Hvv; lia); try congruence.
    + apply Forall_app; split; [|apply Forall_app; split]; eapply plain_out; eauto; lia.
    + left. rewrite !List.filter_app. by rewrite !(plain_no_grants _ _ A7), (plain_no_grants _ _ C7),
        (plain_no_grants _ _ B7).
    + intros Hst. right. split; [congruence|]. split; [done|]. left. congruence.
    + intros Hst. split; [done|]. left. congruence.
  - (* following *)
    specialize (Hgen [] ltac:(by rewrite app_nil_r)). cbn in Hgen.
    specialize (Hm src m Er). rewrite lt_small in F1 by lia. apply Z.ltb_ge in F1.
    assert (Hvv : version s' = mversion m) by congruence.
    split; rewrite ?Hgen; try (rewrite Hvv; lia); try congruence.
    + apply Forall_app; split; eapply plain_out; eauto; lia.
    + left. rewrite !List.filter_app. by rewrite (plain_no_grants _ _ A7), (plain_no_grants _ _ B7).
  - (* granting *)
    specialize (Hgen [(src, p)] ltac:(by rewrite G4, F6)). specialize (Hm src m Er).
    unfold VersionNumber32_gt in Hgt. rewrite gtv_ltv in Hgt.
    change (ltv MAX_UINT (version s0) (mversion m)) with (VersionNumber32_lt (version s0) (mversion m)) in Hgt.
    rewrite lt_small in Hgt by lia. apply Z.ltb_lt in Hgt.
    assert (Hvv : version s' = mversion m) by congruence.
    assert (Hst : _state s' = Follower) by congruence.
    split; rewrite ?Hgen; try (rewrite Hvv; lia); try congruence.
    + apply Forall_app; split; [|apply Forall_cons; split]; try (eapply plain_out; eauto; lia).
      cbn. split; [lia|]. unfold grantb, election_message, type_eqb in *.
      apply andb_true_iff in G5 as [G5 _]. apply bool_decide_eq_true in G5. by rewrite G5.
    + right. exists src, m, p. split; [done|]. split.
      * rewrite List.filter_app. cbn. rewrite (plain_no_grants _ _ A7), G5, (plain_no_grants _ _ B7). done.
      * split; [done|]. split; [congruence|]. split; [lia|done].
  - (* counting *)
    specialize (Hgen [] ltac:(by rewrite app_nil_r)). cbn in Hgen. specialize (Hm src m Er).
    rewrite lt_small in Hlt by lia. apply Z.ltb_ge in Hlt.
    assert (Hvv : version s' = version s) by congruence.
    assert (Hcount : exists src0 m0, r = Some (src0, m0) /\ grantb m0 = true /\ version s <= mversion m0)
      by (exists src, m; split; [done|]; split; [done|lia]).
    split; rewrite ?Hgen; try (rewrite Hvv; lia); try congruence.
    + apply Forall_app; split; eapply plain_out; eauto; lia.
    + left. rewrite !List.filter_app. by rewrite (plain_no_grants _ _ A7), (plain_no_grants _ _ B7).
    + intros Hst. right. split; [congruence|]. split; [done|]. right. split; [|done].
      destruct G4 as [(_ & E & _)|[E _]]; congruence.
    + intros Hst. split; [done|]. right. split; [congruence|]. split; [|done].
      destruct G4 as [(E & _)|[_ E]]; [congruence|]. rewrite (quorum_dom s s0), A4 in E by congruence. done.
  - (* running *)
    specialize (Hgen n1 G5). rewrite incr_small in G2 by lia.
    assert (Hvv : version s' = version s + 1) by lia.
    destruct (asks_out (version s1) (version s') n1 ltac:(lia) G6) as [HF1 HF2].
    split; rewrite ?Hgen; try lia; try congruence.
    + apply Forall_app; split; [|apply Forall_app; split]; try (eapply plain_out; eauto; lia). done.
    + left. rewrite !List.filter_app. by rewrite (plain_no_grants _ _ A7), HF2, (plain_no_grants _ _ B7).
Qed.

(** ** The invariant *)

Definition majority (N : gset Address) : Z := Z.of_nat (size N) / 2 + 1.

Record cluster_inv (N : gset Address) (c : cluster) : Prop := {
  ci_dom : dom (nodes c) = N;
  ci_zero : 0 ∉ N;
  ci_node : forall n s, nodes c !! n = Some s ->
    dom (_peers s) = N ∖ {[n]} /\ 0 <= version s <= HALF /\ outbox s = [];
  ci_sent : forall p, p ∈ sent c ->
    election_message (p_msg p) /\ 0 <= mversion (p_msg p) /\
    exists s, nodes c !! p_src p = Some s /\ mversion (p_msg p) <= version s;
  ci_flight : forall p, p ∈ flight c -> p ∈ sent c;
  (* a vote answers its candidate: the candidate's version is at least the vote's *)
  ci_answer : forall p s, p ∈ sent c -> is_vote p = true -> nodes c !! p_dst p = Some s ->
    mversion (p_msg p) <= version s;
  (* a node votes at most once per version *)
  ci_once : NoDup (map gkey (grants (sent c)));
  (* a candidate or leader has not voted in its version *)
  ci_self : forall n s p, nodes c !! n = Some s -> _state s <> Follower ->
    p ∈ sent c -> is_vote p = true -> p_src p = n -> mversion (p_msg p) <> version s;
  (* every counted vote was sent and is no longer in flight *)
  ci_votes : forall n s, nodes c !! n = Some s -> _state s = Candidate ->
    votes s + gcount n (version s) (flight c) <= 1 + gcount n (version s) (sent c);
  ci_leader : forall n s, nodes c !! n = Some s -> _state s = Leader ->
    majority N <= 1 + gcount n (version s) (sent c)
}.

Lemma quorum_majority N n (s : RaftInstance M) :
  dom (_peers s) = N ∖ {[n]} -> n ∈ N -> quorum s = majority N.
Proof.
  intros Hd Hn. unfold quorum, majority. rewrite <- (size_dom (D := gset Z)), Hd.
  rewrite size_difference by (intros x Hx; apply elem_of_singleton in Hx; by subst).
  rewrite size_singleton. assert (size N <> 0)%nat; [|do 2 f_equal; lia].
  intros Hz. apply size_empty_inv in Hz. by apply Hz, elem_of_empty in Hn.
Qed.

Lemma init_inv N c : cluster_init N c -> cluster_inv N c.
Proof.
  intros (Hz & Hd & Hf & Hs & Hn). split; rewrite ?Hf, ?Hs; try done.
  - intros n s Hns. destruct (Hn n s Hns) as (A & B & C & D). rewrite C. split; [done|].
    split; [split; vm_compute; discriminate|done].
  - intros p Hp. by apply elem_of_nil in Hp.
  - intros p s Hp. by apply elem_of_nil in Hp.
  - constructor.
  - intros n s p Hns Hst Hp. by apply elem_of_nil in Hp.
  - intros n s Hns Hst. destruct (Hn n s Hns) as (A & B & C & D). congruence.
  - intros n s Hns Hst. destruct (Hn n s Hns) as (A & B & C & D). congruence.
Qed.

(** The packets of a turn. *)
Lemma outgoing_elem n s p :
  p ∈ outgoing n s -> exists q, q ∈ outbox s /\ p = mkPacket n q.1 q.2.
Proof. intros Hp. apply list_elem_of_fmap in Hp as (q & -> & Hq). by exists q. Qed.

Lemma grants_outgoing n s :
  grants (outgoing n s) =
  map (fun p => mkPacket n p.1 p.2) (List.filter (fun p => grantb p.2) (outbox s)).
Proof.
  unfold grants, outgoing. induction (outbox s) as [|p l IH]; [done|]. cbn. unfold is_vote at 1.
  cbn. rewrite IH. by destruct (grantb p.2).
Qed.

Lemma grants_elem l p : p ∈ grants l <-> p ∈ l /\ is_vote p = true.
Proof. unfold grants. rewrite !list_elem_of_In, List.filter_In. done. Qed.

(** *** One turn keeps the invariant

    [fl] is what is left in flight once the datagram [r] was taken out. *)

Section Turn.
Variables (N : gset Address) (c : cluster) (n : Address) (s s' : RaftInstance M).
Variables (r : option (Address * RaftMessage)) (fl : list packet).
Hypothesis Hinv : cluster_inv N c.
Hypothesis Hn : nodes c !! n = Some s.
Hypothesis Hts : turn_summary r s s'.
Hypothesis Hhalf : version s' <= HALF.
Hypothesis Hfl : forall p, p ∈ fl -> p ∈ flight c.
Hypothesis Hcnt : forall d v, gcount d v fl <= gcount d v (flight c).
Hypothesis Hrs : forall src m, r = Some (src, m) -> mkPacket src n m ∈ sent c.
Hypothesis Hrc : forall src m, r = Some (src, m) -> grantb m = true ->
  gcount n (mversion m) fl + 1 <= gcount n (mversion m) (flight c).

Lemma ran_lookup m t :
  nodes (ran n s' fl c) !! m = Some t ->
  (m = n /\ t = set_outbox [] s') \/ (m <> n /\ nodes c !! m = Some t).
Proof. intros Hm. cbn in Hm. apply lookup_insert_Some in Hm as [[<- <-]|[Hne Hm]]; auto. Qed.

Lemma ran_out p :
  p ∈ outgoing n s' ->
  p_src p = n /\ 0 <= mversion (p_msg p) <= version s' /\ election_message (p_msg p).
Proof.
  intros Hp. apply outgoing_elem in Hp as (q & Hq & ->). cbn. split; [done|].
  pose proof (ts_out _ _ _ Hts) as T3. rewrite Forall_forall in T3. by apply (T3 q).
Qed.

(** The votes of the turn. *)
Lemma ran_votes_sent p :
  p ∈ outgoing n s' -> is_vote p = true ->
  exists src m, r = Some (src, m) /\ p_dst p = src /\ mversion (p_msg p) = mversion m /\
    mversion m = version s' /\ version s < version s' /\ _state s' = Follower /\
    grants (outgoing n s') = [p].
Proof.
  intros Hp Hvp. assert (Hpg : p ∈ grants (outgoing n s')) by by apply grants_elem.
  rewrite grants_outgoing in Hpg |- *.
  destruct (ts_grants _ _ _ Hts) as [E|(src & m & q & Er & E & Q1 & Q2 & Q3 & Q4)];
    rewrite E in Hpg |- *; [by apply elem_of_nil in Hpg|].
  cbn in Hpg |- *. apply list_elem_of_singleton in Hpg. subst p.
  exists src, m. by repeat split.
Qed.

Lemma ran_past p : p ∈ sent c -> p_src p = n -> mversion (p_msg p) <= version s.
Proof.
  intros Hp Hsrc. destruct (ci_sent _ _ Hinv p Hp) as (_ & _ & t & Ht & Hle).
  rewrite Hsrc, Hn in Ht. by simplify_eq.
Qed.

Lemma ran_no_votes d v : _state s' <> Follower -> gcount d v (outgoing n s') = 0.
Proof.
  intros Hst. apply gcount_zero. intros p Hp. unfold is_grant.
  destruct (grantb (p_msg p)) eqn:E; [|done]. exfalso.
  by destruct (ran_votes_sent p Hp E) as (src & m & _ & _ & _ & _ & _ & ? & _).
Qed.

(** Votes for a version the node never had. *)
Lemma ran_none_newer v : version s < v -> gcount n v (sent c) = 0 /\ gcount n v fl = 0.
Proof.
  intros Hv. assert (Hz : forall p, p ∈ sent c -> is_grant n v p = false).
  { intros p Hp. unfold is_grant. destruct (grantb (p_msg p)) eqn:Eg; [|done]. cbn.
    destruct (Z.eqb_spec (p_dst p) n) as [E|]; [|done]. cbn. apply Z.eqb_neq.
    rewrite <- E in Hn. pose proof (ci_answer _ _ Hinv p s Hp Eg Hn). lia. }
  split; apply gcount_zero; [done|]. intros p Hp. by apply Hz, (ci_flight _ _ Hinv), Hfl.
Qed.

Lemma ran_sent_ok p :
  p ∈ sent c ++ outgoing n s' ->
  election_message (p_msg p) /\ 0 <= mversion (p_msg p) /\
  exists t, nodes (ran n s' fl c) !! p_src p = Some t /\ mversion (p_msg p) <= version t.
Proof.
  intros Hp. pose proof (ts_version _ _ _ Hts). apply elem_of_app in Hp as [Hp|Hp].
  - destruct (ci_sent _ _ Hinv p Hp) as (A & B & t & Ht & Hle). split; [done|]. split; [done|]. cbn.
    destruct (decide (p_src p = n)) as [E|E].
    + rewrite E in *. rewrite lookup_insert_eq. eexists. split; [done|]. cbn. simplify_eq. lia.
    + rewrite lookup_insert_ne by done. by exists t.
  - destruct (ran_out p Hp) as (E & B & C). split; [done|]. split; [lia|]. cbn.
    rewrite E, lookup_insert_eq. eexists. split; [done|]. cbn. lia.
Qed.

Lemma ran_answer p t :
  p ∈ sent c ++ outgoing n s' -> is_vote p = true -> nodes (ran n s' fl c) !! p_dst p = Some t ->
  mversion (p_msg p) <= version t.
Proof.
  intros Hp Hvp Hm. pose proof (ts_version _ _ _ Hts).
  destruct (ran_lookup _ _ Hm) as [[E ->]|[Hne Hm']].
  - cbn. apply elem_of_app in Hp as [Hp|Hp].
    + pose proof (ci_answer _ _ Hinv p s Hp Hvp) as Hle. rewrite E in Hle. specialize (Hle Hn). lia.
    + destruct (ran_out p Hp) as (_ & B & _). lia.
  - apply elem_of_app in Hp as [Hp|Hp]; [by apply (ci_answer _ _ Hinv p)|].
    destruct (ran_votes_sent p Hp Hvp) as (src & m & Er & Ed & Ev & _). rewrite Ev. rewrite Ed in Hm'.
    destruct (ci_sent _ _ Hinv _ (Hrs src m Er)) as (_ & _ & t' & Ht' & Hle). cbn in *. by simplify_eq.
Qed.

Lemma ran_once : NoDup (map gkey (grants (sent c ++ outgoing n s'))).
Proof.
  unfold grants. rewrite List.filter_app, map_app. apply NoDup_app.
  split; [apply (ci_once _ _ Hinv)|]. fold (grants (outgoing n s')). split.
  - intros k Hk Hk2. apply list_elem_of_fmap in Hk as (p & -> & Hp). apply grants_elem in Hp as [Hp Hvp].
    apply list_elem_of_fmap in Hk2 as (q & Hkq & Hq). apply grants_elem in Hq as [Hq Hvq].
    destruct (ran_votes_sent q Hq Hvq) as (src & m & _ & _ & Ev & Em & Hlt & _).
    destruct (ran_out q Hq) as (Eq & _).
    unfold gkey in Hkq. injection Hkq as E1 E2. rewrite Eq in E1. pose proof (ran_past p Hp E1). lia.
  - destruct (grants (outgoing n s')) as [|p l] eqn:E; [constructor|].
    assert (Hp : p ∈ grants (outgoing n s')) by (rewrite E; constructor).
    apply grants_elem in Hp as [Hp Hvp].
    destruct (ran_votes_sent p Hp Hvp) as (src & m & _ & _ & _ & _ & _ & _ & Eg).
    rewrite E in Eg. injection Eg as ->. cbn. apply NoDup_singleton.
Qed.

Lemma ran_self m t p :
  nodes (ran n s' fl c) !! m = Some t -> _state t <> Follower ->
  p ∈ sent c ++ outgoing n s' -> is_vote p = true -> p_src p = m ->
  mversion (p_msg p) <> version t.
Proof.
  intros Hm Hst Hp Hvp Hsrc. destruct (ran_lookup _ _ Hm) as [[-> ->]|[Hne Hm']].
  - cbn in *. apply elem_of_app in Hp as [Hp|Hp].
    + pose proof (ran_past p Hp Hsrc). pose proof (ci_self _ _ Hinv n s p Hn) as Hs.
      destruct (_state s') eqn:Es; [| |done].
      * destruct (ts_leader _ _ _ Hts Es) as [-> Hor]. apply Hs; try done.
        destruct Hor as [->|[-> _]]; done.
      * destruct (ts_candidate _ _ _ Hts Es) as [[Hlt _]|(Hc & -> & _)]; [lia|].
        apply Hs; try done. by rewrite Hc.
    + by destruct (ran_votes_sent p Hp Hvp) as (src & m & _ & _ & _ & _ & _ & ? & _).
  - apply elem_of_app in Hp as [Hp|Hp]; [by apply (ci_self _ _ Hinv m t p)|].
    destruct (ran_out p Hp) as (E & _). congruence.
Qed.

Lemma ran_counts m t :
  nodes (ran n s' fl c) !! m = Some t -> _state t = Candidate ->
  votes t + gcount m (version t) (fl ++ outgoing n s') <=
    1 + gcount m (version t) (sent c ++ outgoing n s').
Proof.
  intros Hm Hst. rewrite !gcount_app. destruct (ran_lookup _ _ Hm) as [[-> ->]|[Hne Hm']].
  - cbn in Hst |- *. rewrite ran_no_votes by (by rewrite Hst).
    destruct (ts_candidate _ _ _ Hts Hst) as [[Hlt ->]|(Hc & Ev & Hvotes)].
    + destruct (ran_none_newer _ Hlt) as [-> ->]. lia.
    + rewrite Ev. pose proof (ci_votes _ _ Hinv n s Hn Hc). pose proof (Hcnt n (version s)).
      destruct Hvotes as [->|(-> & src & q & Er & Hg & Hle)]; [lia|].
      pose proof (ci_answer _ _ Hinv _ s (Hrs src q Er) Hg Hn) as Hans. cbn in Hans.
      pose proof (Hrc src q Er Hg) as Hc1. replace (mversion q) with (version s) in Hc1 by lia. lia.
  - pose proof (ci_votes _ _ Hinv m t Hm' Hst). pose proof (Hcnt m (version t)). lia.
Qed.

Lemma ran_leader m t :
  nodes (ran n s' fl c) !! m = Some t -> _state t = Leader ->
  majority N <= 1 + gcount m (version t) (sent c ++ outgoing n s').
Proof.
  intros Hm Hst. rewrite gcount_app. pose proof (gcount_nonneg m (version t) (outgoing n s')).
  destruct (ran_lookup _ _ Hm) as [[-> ->]|[Hne Hm']];
    [|pose proof (ci_leader _ _ Hinv m t Hm' Hst); lia].
  cbn in *. destruct (ts_leader _ _ _ Hts Hst) as [Ev [Hs|(Hc & Hq & src & q & Er & Hg & Hle)]]; rewrite Ev in *.
  - pose proof (ci_leader _ _ Hinv n s Hn Hs). lia.
  - pose proof (ci_votes _ _ Hinv n s Hn Hc). pose proof (gcount_nonneg n (version s) fl).
    pose proof (ci_answer _ _ Hinv _ s (Hrs src q Er) Hg Hn) as Hans. cbn in Hans.
    pose proof (Hrc src q Er Hg) as Hc1. replace (mversion q) with (version s) in Hc1 by lia.
    destruct (ci_node _ _ Hinv n s Hn) as (Hd & _).
    rewrite (quorum_majority N n s Hd) in Hq; [lia|].
    rewrite <- (ci_dom _ _ Hinv). apply elem_of_dom. by eexists.
Qed.

Lemma ran_inv : cluster_inv N (ran n s' fl c).
Proof.
  destruct (ci_node _ _ Hinv n s Hn) as (Hd & Hv & Ho). pose proof (ts_version _ _ _ Hts).
  split.
  - cbn. rewrite dom_insert_lookup_L by by eexists. apply Hinv.
  - apply Hinv.
  - intros m t Hm. destruct (ran_lookup m t Hm) as [[-> ->]|[_ Hm']]; [|by apply (ci_node _ _ Hinv)]. cbn.
    split; [by rewrite (ts_dom _ _ _ Hts)|]. split; [lia|done].
  - apply ran_sent_ok.
  - intros p Hp. cbn in Hp |- *. apply elem_of_app in Hp as [Hp|Hp]; apply elem_of_app; [left|by right].
    by apply (ci_flight _ _ Hinv), Hfl.
  - apply ran_answer.
  - apply ran_once.
  - apply ran_self.
  - apply ran_counts.
  - apply ran_leader.
Qed.
End Turn.

(** ** Every step keeps it *)

Lemma gcount_remove d v fl1 fl2 p :
  gcount d v (fl1 ++ p :: fl2) = (if is_grant d v p then 1 else 0) + gcount d v (fl1 ++ fl2).
Proof. rewrite !gcount_app. cbn. lia. Qed.

Lemma elem_of_remove (fl1 fl2 : list packet) p q : q ∈ fl1 ++ fl2 -> q ∈ fl1 ++ p :: fl2.
Proof. rewrite !elem_of_app. intros [Hq|Hq]; [by left|right; by right]. Qed.

Lemma turn_inv N c n s s' r fl :
  cluster_inv N c -> nodes c !! n = Some s -> effect r s s' ->
  versions_small (ran n s' fl c) ->
  (forall p, p ∈ fl -> p ∈ flight c) ->
  (forall d v, gcount d v fl <= gcount d v (flight c)) ->
  (forall src m, r = Some (src, m) -> mkPacket src n m ∈ sent c) ->
  (forall src m, r = Some (src, m) -> grantb m = true ->
     gcount n (mversion m) fl + 1 <= gcount n (mversion m) (flight c)) ->
  cluster_inv N (ran n s' fl c).
Proof.
  intros Hinv Hn He Hsmall Hfl Hcnt Hrs Hrc. destruct (ci_node _ _ Hinv n s Hn) as (Hd & Hv & Ho).
  assert (Hh : version s' <= HALF).
  { apply (Hsmall n (set_outbox [] s')). cbn. apply lookup_insert_eq. }
  apply (ran_inv N c n s s' r fl); try done. apply effect_summary; try done.
  intros src m Er. destruct (ci_sent _ _ Hinv _ (Hrs src m Er)) as (_ & Hm & t & Ht & Hle). cbn in *.
  destruct (ci_node _ _ Hinv _ t Ht) as (_ & Hvt & _). lia.
Qed.

Lemma step_inv N l c c' : cluster_inv N c -> small_step l c c' -> cluster_inv N c'.
Proof.
  intros Hinv [Hstep Hsmall].
  destruct Hstep as [c n s s' fl1 fl2 src m Hn Hf Ht|c n s s' Hn Ht|c n s s' Hn Ht|c fl1 fl2 p Hf].
  - assert (Hin : mkPacket src n m ∈ sent c).
    { apply (ci_flight _ _ Hinv). rewrite Hf. apply elem_of_app. right. by left. }
    destruct (ci_sent _ _ Hinv _ Hin) as (Hm & _ & t & Hsrc & _). cbn in *.
    apply (turn_inv N c n s s' (Some (src, m))); try done.
    + pose proof (thread_turn_has_effect (Some (src, m)) s) as Hw. unfold wp in Hw. rewrite Ht in Hw.
      apply Hw. split; [done|]. intros ->. apply (ci_zero _ _ Hinv).
      rewrite <- (ci_dom _ _ Hinv). apply elem_of_dom. by exists t.
    + intros p Hp. rewrite Hf. by apply elem_of_remove.
    + intros d v. rewrite Hf, gcount_remove. destruct (is_grant _ _ _); lia.
    + intros ? ? [= <- <-]. done.
    + intros ? ? [= <- <-] Hg. rewrite Hf, gcount_remove. unfold is_grant. cbn.
      rewrite Hg, !Z.eqb_refl. cbn. lia.
  - apply (turn_inv N c n s s' None); try done.
    pose proof (thread_turn_has_effect None s I) as Hw. unfold wp in Hw. by rewrite Ht in Hw.
  - apply (turn_inv N c n s s' None); try done. apply effect_change, ch_none.
    pose proof (synchronize_logs_to_followers_quiet s) as Hw. unfold wp in Hw. by rewrite Ht in Hw.
  - destruct Hinv as [I1 I2 I3 I4 I5 I6 I7 I8 I9 I10]. split; try done; cbn.
    + intros q Hq. apply I5. rewrite Hf. by apply elem_of_remove.
    + intros m t Hm Hst. pose proof (I9 m t Hm Hst) as Hc. rewrite Hf, gcount_remove in Hc.
      destruct (is_grant _ _ _); lia.
Qed.

Lemma reachable_cluster_inv N c : cluster_reachable N c -> cluster_inv N c.
Proof.
  apply reachable_inv; [apply init_inv|]. intros l c1 c2 _ Hinv. by apply step_inv.
Qed.

(** ** Two majorities meet *)

Definition backs (a b v : Z) (p : packet) : bool := is_grant a v p || is_grant b v p.

Lemma backs_length a b v l :
  a <> b -> gcount a v l + gcount b v l = Z.of_nat (length (List.filter (backs a b v) l)).
Proof.
  intros Hne. induction l as [|p l IH]; [done|]. cbn [gcount List.filter]. unfold backs at 1.
  destruct (is_grant a v p) eqn:Ea, (is_grant b v p) eqn:Eb; cbn [orb length]; try lia.
  exfalso. unfold is_grant in *. zbool. congruence.
Qed.

Lemma backs_nodup a b v l :
  NoDup (map gkey (grants l)) -> NoDup (map p_src (List.filter (backs a b v) l)).
Proof.
  unfold grants. induction l as [|p l IH]; cbn [List.filter map]; [constructor|].
  assert (Hb : forall q, backs a b v q = true -> is_vote q = true /\ mversion (p_msg q) = v).
  { intros q Hq. unfold backs, is_grant in Hq. apply orb_true_iff in Hq as [Hq|Hq]; zbool; done. }
  destruct (backs a b v p) eqn:Ep.
  - destruct (Hb p Ep) as [-> Hv]. cbn. rewrite !NoDup_cons. intros [Hp Hl]. split; [|auto].
    intros Hin. apply Hp. apply list_elem_of_fmap in Hin as (q & Eq & Hq).
    apply list_elem_of_In, List.filter_In in Hq as [Hq Hbq]. destruct (Hb q Hbq) as [Hvq Hvv].
    apply list_elem_of_fmap. exists q. split; [unfold gkey; congruence|].
    apply list_elem_of_In, List.filter_In. by split.
  - destruct (is_vote p); cbn; [rewrite NoDup_cons; intros [_ Hl]|]; auto.
Qed.

Lemma one_leader N c a b s t :
  cluster_inv N c -> nodes c !! a = Some s -> nodes c !! b = Some t ->
  _state s = Leader -> _state t = Leader -> version s = version t -> a = b.
Proof.
  intros Hinv Ha Hb Hsa Hsb Hv. destruct (Z.eq_dec a b) as [|Hne]; [done|exfalso].
  pose proof (ci_leader _ _ Hinv a s Ha Hsa) as Qa. pose proof (ci_leader _ _ Hinv b t Hb Hsb) as Qb.
  rewrite <- Hv in Qb. set (W := List.filter (backs a b (version s)) (sent c)).
  pose proof (backs_length a b (version s) (sent c) Hne) as Hlen. fold W in Hlen.
  assert (Hbk : forall p, p ∈ W -> p ∈ sent c /\ is_vote p = true /\ mversion (p_msg p) = version s).
  { intros p Hp. apply list_elem_of_In, List.filter_In in Hp as [Hp Hbp]. split; [by apply list_elem_of_In|].
    unfold backs, is_grant in Hbp. apply orb_true_iff in Hbp as [Hq|Hq]; zbool; done. }
  assert (Hself : forall n u, nodes c !! n = Some u -> _state u = Leader -> version u = version s ->
    n ∉ map p_src W).
  { intros n u Hn Hst Hvu Hin. apply list_elem_of_fmap in Hin as (p & Ep & Hp).
    destruct (Hbk p Hp) as (H1 & H2 & H3). apply (ci_self _ _ Hinv n u p Hn); try done; [by rewrite Hst|].
    by rewrite Hvu. }
  assert (Hnd : NoDup (a :: b :: map p_src W)).
  { apply NoDup_cons. split; [|apply NoDup_cons; split].
    - intros Hin. apply elem_of_cons in Hin as [|Hin]; [done|]. by apply (Hself a s) in Hin.
    - by apply (Hself b t).
    - apply backs_nodup, (ci_once _ _ Hinv). }
  assert (Hsub : list_to_set (a :: b :: map p_src W) ⊆ N).
  { intros x Hx. apply elem_of_list_to_set in Hx. rewrite <- (ci_dom _ _ Hinv). apply elem_of_dom.
    apply elem_of_cons in Hx as [->|Hx]; [by eexists|]. apply elem_of_cons in Hx as [->|Hx]; [by eexists|].
    apply list_elem_of_fmap in Hx as (p & -> & Hp). destruct (Hbk p Hp) as (H1 & _).
    destruct (ci_sent _ _ Hinv p H1) as (_ & _ & u & Hu & _). by exists u. }
  apply subseteq_size in Hsub. rewrite size_list_to_set in Hsub by done. cbn in Hsub.
  rewrite length_map in Hsub. unfold majority in *.
  pose proof (Z.div_mod (Z.of_nat (size N)) 2 ltac:(done)).
  pose proof (Z.mod_pos_bound (Z.of_nat (size N)) 2 ltac:(done)). lia.
Qed.
End Cluster.
