(* ===== verification/RaftSafety.v ===== *)
(** * Raft: the theorems, and what the code does at the edges

    Election safety of RaftCluster.v on a concrete run, the contract of a node's turn, and
    three executions that show why the assumptions are needed and where the code departs
    from Raft. *)

From S2P Require Import Prelude Version RaftMessage RaftAgent RaftEffects RaftCluster.
From stdpp Require Import gmap.
Local Open Scope Z_scope.

(** ** A state machine and clocks to run with *)

(** [can] is the answer of [can_be_leader]; logs are empty. *)
Definition demo_machine (can : bool) : RaftStateMachine unit := {|
  can_be_leader _ _ m := (can, m);
  leader_notify_message _ m := ([], m);
  need_synchronize_from _ _ m := (false, m);
  ready_to_receiving _ _ m := ([], m);
  ready_to_send_to _ _ m := m;
  update_log m := m
|}.

Definition still_clock : Clock := fun _ => 100.

Definition demo_node (members : list Address) (n : Address) : RaftInstance unit :=
  mkInstance (list_to_map (map (fun a => (a, 100)) (List.filter (fun a => negb (a =? n)) members)))
    Follower 0 100 0 0 0 tt 0 [].

Definition demo_cluster (members : list Address) : cluster :=
  mkCluster (list_to_map (map (fun n => (n, demo_node members n)) members)) [] [].

(** Functions that follow [cluster_step]. *)
Definition do_turn (can : bool) (r : option (Address * RaftMessage)) (s : RaftInstance unit)
  : RaftInstance unit :=
  match @thread_turn unit (demo_machine can) still_clock r s with
  | Ret (_, s') => s'
  | Fault _ => s
  end.

Definition node_of (c : @cluster unit) (n : Address) : RaftInstance unit :=
  default (demo_node [] n) (nodes c !! n).

Definition do_timeout (n : Address) (c : cluster) : cluster :=
  ran n (do_turn true None (node_of c n)) (flight c) c.

(** Delivers the [k]-th datagram in flight. *)
Definition do_receive (k : nat) (c : cluster) : cluster :=
  match flight c !! k with
  | Some p => ran (p_dst p) (do_turn true (Some (p_src p, p_msg p)) (node_of c (p_dst p)))
                (take k (flight c) ++ drop (S k) (flight c)) c
  | None => c
  end.

Definition turn_returns (r : option (Address * RaftMessage)) (s : RaftInstance unit) : bool :=
  match @thread_turn unit (demo_machine true) still_clock r s with Ret _ => true | Fault _ => false end.

Definition can_timeout (n : Address) (c : cluster) : bool :=
  match nodes c !! n with Some s => turn_returns None s | None => false end.

Definition can_receive (k : nat) (c : cluster) : bool :=
  match flight c !! k with
  | Some p =>
      match nodes c !! p_dst p with
      | Some s => turn_returns (Some (p_src p, p_msg p)) s
      | None => false
      end
  | None => false
  end.

#[local] Existing Instance still_clock.

Lemma do_turn_ok r s :
  turn_returns r s = true -> @thread_turn unit (demo_machine true) _ r s = Ret (tt, do_turn true r s).
Proof. unfold turn_returns, do_turn. by destruct (thread_turn r s) as [[[] s']|]. Qed.

Lemma do_timeout_step n c :
  can_timeout n c = true -> @cluster_step unit (demo_machine true) _ c (do_timeout n c).
Proof.
  unfold can_timeout, do_timeout, node_of. destruct (nodes c !! n) as [s|] eqn:E; [|done].
  intros Hr. eapply step_timeout; [exact E|]. by apply do_turn_ok.
Qed.

Lemma do_receive_step k c :
  can_receive k c = true -> @cluster_step unit (demo_machine true) _ c (do_receive k c).
Proof.
  unfold can_receive, do_receive, node_of. destruct (flight c !! k) as [[src d m]|] eqn:E; [|done]. cbn.
  destruct (nodes c !! d) as [s|] eqn:En; [|done]. intros Hr. eapply step_receive; [exact En| |].
  - symmetry. by apply take_drop_middle.
  - by apply do_turn_ok.
Qed.

(** Node 1 times out, node 2 grants its vote, node 1 counts it. *)
Definition asked : cluster := do_timeout 1 (demo_cluster [1; 2; 3]).
Definition granted : cluster := do_receive 0 asked.
Definition elected : cluster := do_receive 1 granted.

Definition elected_leader : RaftInstance unit := node_of elected 1.

Definition smallb (c : @cluster unit) : bool :=
  forallb (fun p => version p.2 <=? HALF) (map_to_list (nodes c)).

Lemma smallb_ok c : smallb c = true -> versions_small c.
Proof.
  unfold smallb. intros Hc n s Hn. rewrite forallb_forall in Hc.
  apply Z.leb_le, (Hc (n, s)), list_elem_of_In, elem_of_map_to_list, Hn.
Qed.

Definition fresh (N : gset Address) (n : Address) (s : RaftInstance unit) : bool :=
  bool_decide (dom (_peers s) = N ∖ {[n]}) && state_eqb (_state s) Follower &&
  (version s =? 0) && match outbox s with [] => true | _ => false end.

Lemma demo_init (N : gset Address) c :
  bool_decide (0 ∈ N) = false -> bool_decide (dom (nodes c) = N) = true ->
  flight c = [] -> sent c = [] ->
  forallb (fun p => fresh N p.1 p.2) (map_to_list (nodes c)) = true -> cluster_init N c.
Proof.
  intros H1 H2 H3 H4 H5. apply bool_decide_eq_false in H1. apply bool_decide_eq_true in H2.
  do 4 (split; [done|]). intros n s Hn. rewrite forallb_forall in H5.
  specialize (H5 (n, s) (proj1 (list_elem_of_In _ _) (proj2 (elem_of_map_to_list _ _ _) Hn))).
  unfold fresh, state_eqb in H5. cbn in H5. rewrite !andb_true_iff in H5.
  destruct H5 as (((E1 & E2) & E3) & E4). apply bool_decide_eq_true in E1, E2. apply Z.eqb_eq in E3.
  do 3 (split; [done|]). by destruct (outbox s).
Qed.

Lemma elected_reachable :
  @cluster_reachable unit (demo_machine true) _ {[1; 2; 3]} elected.
Proof.
  apply (reach_step _ _ tt granted); [apply (reach_step _ _ tt asked)|].
  - apply (reach_step _ _ tt (demo_cluster [1; 2; 3])).
    + apply reach_init, demo_init; vm_compute; reflexivity.
    + split; [apply do_timeout_step|apply smallb_ok]; vm_compute; reflexivity.
  - split; [apply do_receive_step|apply smallb_ok]; vm_compute; reflexivity.
  - split; [apply do_receive_step|apply smallb_ok]; vm_compute; reflexivity.
Qed.

(** C1. Election safety: in every reachable state of a fixed cluster whose network delivers
    each datagram at most once, and as long as no version has passed the middle of the
    32-bit circle, no two nodes are leader of the same version. *)
Theorem raft_election_safety {M} `{RaftStateMachine M} `{Clock} (N : gset Address)
    (c : cluster) a b (s t : RaftInstance M) :
  cluster_reachable N c -> nodes c !! a = Some s -> nodes c !! b = Some t ->
  _state s = Leader -> _state t = Leader -> version s = version t -> a = b.
Proof. intros Hc. apply (one_leader N), reachable_cluster_inv, Hc. Qed.

Lemma raft_election_safety_witness :
  _state elected_leader = Leader /\ version elected_leader = 1 /\ 1 = 1.
Proof.
  split; [vm_compute; reflexivity|]. split; [vm_compute; reflexivity|].
  apply (@raft_election_safety unit (demo_machine true) still_clock {[1; 2; 3]} elected 1 1
    elected_leader elected_leader elected_reachable); vm_compute; reflexivity.
Defined.

(** C11. One turn of a node's thread, on a datagram of the election protocol or on a timeout,
    does one of five things between steps that leave the election alone: nothing, follow a
    node of a version that is not older, grant its only vote of a newer version, count a
    vote, or run for the next version with one vote. *)
Theorem raft_turn_refines {M} `{RaftStateMachine M} `{Clock}
    (r : option (Address * RaftMessage)) (s s' : RaftInstance M) :
  received_ok r -> thread_turn r s = Ret (tt, s') -> effect r s s'.
Proof.
  intros Hr Ht. pose proof (thread_turn_has_effect r s Hr) as Hw. unfold wp in Hw. by rewrite Ht in Hw.
Qed.

Lemma raft_turn_refines_witness :
  _state (do_turn true None (demo_node [1; 2; 3] 1)) = Candidate /\
  @effect unit None (demo_node [1; 2; 3] 1) (do_turn true None (demo_node [1; 2; 3] 1)).
Proof.
  split; [vm_compute; reflexivity|].
  apply (@raft_turn_refines unit (demo_machine true) still_clock None); [exact I|vm_compute; reflexivity].
Defined.

(** A node grants at most one vote per version: of any two votes ever sent the voters or
    the versions differ; and no candidate or leader has voted for another in its version. *)
Theorem raft_one_vote {M} `{RaftStateMachine M} `{Clock} (N : gset Address) (c : cluster)
    l1 l2 l3 p q n (s : RaftInstance M) :
  cluster_reachable N c ->
  sent c = l1 ++ p :: l2 ++ q :: l3 -> is_vote p = true -> is_vote q = true ->
  gkey p <> gkey q /\
  (nodes c !! n = Some s -> _state s <> Follower -> p_src p = n -> mversion (p_msg p) <> version s).
Proof.
  intros Hc Hs Hp Hq. pose proof (reachable_cluster_inv N c Hc) as Hinv. split.
  - pose proof (ci_once _ _ Hinv) as Hnd. rewrite Hs in Hnd. unfold grants in Hnd.
    rewrite !List.filter_app in Hnd. cbn in Hnd. rewrite Hp, List.filter_app in Hnd. cbn in Hnd.
    rewrite Hq, map_app in Hnd. apply NoDup_app in Hnd as (_ & _ & Hnd). cbn in Hnd.
    apply NoDup_cons in Hnd as [Hnp _]. intros E. apply Hnp. rewrite E, map_app.
    apply elem_of_app. right. by left.
  - intros Hn Hst Hsrc. apply (ci_self _ _ Hinv n s p Hn Hst); [|done|done].
    rewrite Hs. apply elem_of_app. right. by left.
Qed.

(** Both followers of [asked] vote, then node 1 counts the first vote. *)
Definition both_voted : cluster := do_receive 0 (do_receive 0 asked).

Lemma raft_one_vote_witness :
  exists l1 l2 l3 p q,
    sent both_voted = l1 ++ p :: l2 ++ q :: l3 /\ is_vote p = true /\ is_vote q = true /\
    gkey p <> gkey q.
Proof.
  assert (Hr : @cluster_reachable unit (demo_machine true) _ {[1; 2; 3]} both_voted).
  { apply (reach_step _ _ tt granted); [apply (reach_step _ _ tt asked)|].
    - apply (reach_step _ _ tt (demo_cluster [1; 2; 3])).
      + apply reach_init, demo_init; vm_compute; reflexivity.
      + split; [apply do_timeout_step|apply smallb_ok]; vm_compute; reflexivity.
    - split; [apply do_receive_step|apply smallb_ok]; vm_compute; reflexivity.
    - split; [apply do_receive_step|apply smallb_ok]; vm_compute; reflexivity. }
  destruct (sent both_voted) as [|a [|b [|p [|q l]]]] eqn:E; try (vm_compute in E; discriminate E).
  exists [a; b], [], l, p, q. split; [reflexivity|].
  assert (Hp : is_vote p = true) by (vm_compute in E; injection E as <- <- <- <- <-; reflexivity).
  assert (Hq : is_vote q = true) by (vm_compute in E; injection E as <- <- <- <- <-; reflexivity).
  split; [exact Hp|]. split; [exact Hq|].
  apply (@raft_one_vote unit (demo_machine true) still_clock {[1; 2; 3]} both_voted
    [a; b] [] l p q 1 (node_of both_voted 1) Hr E Hp Hq).
Defined.

(** ** Edges *)

Definition run_turns (can : bool) (ck : Clock) (rs : list (option (Address * RaftMessage)))
    (s : RaftInstance unit) : RaftInstance unit :=
  foldl (fun s r => match @thread_turn unit (demo_machine can) ck r s with
                    | Ret (_, s') => s' | Fault _ => s end) s rs.

(** A datagram delivered twice is counted twice: a candidate of a cluster of five wins with
    the vote of one other node. *)
Example duplicate_vote_wins :
  let v := vote_init 1 0 100 true in
  _state (run_turns true still_clock [None; Some (2, v); Some (2, v)]
            (demo_node [1; 2; 3; 4; 5] 1)) = Leader.
Proof. vm_compute. reflexivity. Qed.

(** A leader that refuses a newer candidate steps down to follower of that version, but its
    loop still sends the leader's heartbeats, with the candidate's version: [_last_flush_time]
    was not renewed and the loop does not look at the state again. *)
Definition late_clock : Clock := fun _ => 5000000000.

Definition old_leader : RaftInstance unit :=
  set_state Leader (set_version 1 (demo_node [1; 2; 3] 1)).

Example demoted_leader_heartbeat :
  let s := run_turns false late_clock [Some (2, message_init AskForVote 2 0 100)] old_leader in
  _state s = Follower /\ version s = 2 /\
  map (fun p => (p.1, type p.2, mversion p.2)) (outbox s) =
    [(2, Vote, 2); (3, LeaderCheck, 2); (2, LeaderCheck, 2)].
Proof. vm_compute. done. Qed.

(** A heartbeat of an older leader that the state machine rejects ends the process. *)
Example stale_leader_check_exits :
  @thread_turn unit (demo_machine false) still_clock
    (Some (2, message_init LeaderCheck 0 0 100)) old_leader = Fault Exited.
Proof. vm_compute. reflexivity. Qed.

(** The handlers of the leader's messages pass [instance._leader] by reference: a follower
    that refuses to vote for its own leader has emptied the field when it sends the refusal,
    which goes to the empty address; a refusal to any other node arrives. *)
Definition follower_of_2 : RaftInstance unit :=
  set_leader 2 (set_version 1 (demo_node [1; 2; 3] 1)).

Example refusal_to_leader_lost :
  let answers sender :=
    map (fun p => (p.1, type p.2))
      (outbox (run_turns false still_clock [Some (sender, message_init AskForVote 2 0 100)]
                 follower_of_2)) in
  answers 2 = [(0, Vote)] /\ answers 3 = [(3, Vote)].
Proof. vm_compute. done. Qed.
