(* ===== verification/Links.v ===== *)
(** * Links: sequences of nodes behind pointers

    What DList.v and SingleList.v share: a heap of nodes stands for a sequence of cells, an
    address and an element each; the pointer to a segment is its first address or what follows. *)

From stdpp Require Import gmap.
From S2P Require Import Prelude.
Local Open Scope Z_scope.

Definition ptr : Type := option positive.
Definition is_null (p : ptr) : bool := match p with None => true | Some _ => false end.

Abbreviation cells_of D := (list (positive * D)).

(** The nodes outside [as_] are untouched. *)
Definition same_outside {A} (as_ : list positive) (h h' : gmap positive A) : Prop :=
  forall a, a ∉ as_ -> h' !! a = h !! a.

Lemma same_outside_trans {A} as1 as2 as3 (h1 h2 h3 : gmap positive A) :
  same_outside as1 h1 h2 -> same_outside as2 h2 h3 -> as1 ⊆ as3 -> as2 ⊆ as3 ->
  same_outside as3 h1 h3.
Proof. intros H1 H2 Hi1 Hi2 a Ha. rewrite H2, H1; [done | |]; set_solver. Qed.

Lemma same_outside_weaken {A} as1 as2 (h h' : gmap positive A) :
  same_outside as1 h h' -> as1 ⊆ as2 -> same_outside as2 h h'.
Proof. intros H1 Hi a Ha. apply H1. set_solver. Qed.

Section Cells.
Context {D : Type}.
#[local] Abbreviation cells := (cells_of D).
Implicit Types (xs ys : cells).

Definition first_ptr (xs : cells) (q : ptr) : ptr :=
  match xs with [] => q | (a, _) :: _ => Some a end.
Fixpoint last_ptr (xs : cells) (q : ptr) : ptr :=
  match xs with [] => q | (a, _) :: xs => last_ptr xs (Some a) end.

(** A node has one element, and is found by its address. *)
Lemma cells_functional xs a d d' : NoDup (map fst xs) -> (a, d) ∈ xs -> (a, d') ∈ xs -> d = d'.
Proof.
  induction xs as [| [b e] xs IH]; cbn [map fst]; [by intros _ ?%elem_of_nil |]. intros [Hb Hxs]%list.NoDup_cons.
  assert (Hin : forall d, (a, d) ∈ xs -> a ∈ map fst xs) by (intros v Hv; by apply (list_elem_of_fmap_2 fst xs (a, v))).
  intros Hd Hd'. apply elem_of_cons in Hd as [E | Hd]; apply elem_of_cons in Hd' as [E' | Hd']; simplify_eq; [done | | | by apply IH].
  - by destruct (Hb (Hin _ Hd')).
  - by destruct (Hb (Hin _ Hd)).
Qed.

Lemma find_node xs a d : NoDup (map fst xs) -> (a, d) ∈ xs -> List.find (fun c => bool_decide (c.1 = a)) xs = Some (a, d).
Proof.
  intros Hn Ha. induction xs as [| [b e] xs IH]; [by apply elem_of_nil in Ha |]. cbn [List.find fst].
  case_bool_decide as Hb; [subst b; f_equal; f_equal; eapply cells_functional; [exact Hn | by left | exact Ha] |].
  apply IH; [by apply list.NoDup_cons in Hn as [_ Hn] |]. apply elem_of_cons in Ha as [[= -> ->] | Ha]; done.
Qed.

Lemma first_ptr_app xs ys q : first_ptr (xs ++ ys) q = first_ptr xs (first_ptr ys q).
Proof. by destruct xs as [|[]]. Qed.

Lemma last_ptr_app xs ys q : last_ptr (xs ++ ys) q = last_ptr ys (last_ptr xs q).
Proof. revert q. induction xs as [|[a d] xs IH]; intros q; simpl; [done | apply IH]. Qed.

Lemma first_ptr_some xs q : is_null (first_ptr xs None) = false -> first_ptr xs q = first_ptr xs None.
Proof. by destruct xs as [|[]]. Qed.

Lemma last_ptr_snoc xs a d q : last_ptr (xs ++ [(a, d)]) q = Some a.
Proof. by rewrite last_ptr_app. Qed.

(** Taking a sequence apart at its last element. *)
Lemma snoc_cases (xs : cells) : xs = [] \/ exists xs' b e, xs = xs' ++ [(b, e)].
Proof.
  destruct xs as [|x xs _] using rev_ind; [by left |].
  right. destruct x as [b e]. eauto.
Qed.

Lemma last_ptr_snoc_cases (xs : cells) :
  (xs = [] /\ last_ptr xs None = None) \/
  (exists xs' b e, xs = xs' ++ [(b, e)] /\ last_ptr xs None = Some b).
Proof.
  destruct (snoc_cases xs) as [-> | (xs' & b & e & ->)]; [by left |].
  right. exists xs', b, e. by rewrite last_ptr_snoc.
Qed.

Lemma NoDup_mid_fresh (xs ys : cells) p d :
  NoDup (xs ++ ys).*1 -> p ∉ (xs ++ ys).*1 -> NoDup (xs ++ (p, d) :: ys).*1.
Proof.
  rewrite !fmap_app, !fmap_cons, !list.NoDup_app. simpl. rewrite list.NoDup_cons.
  intros (Hx & Hd & Hy) Hp. rewrite elem_of_app in Hp.
  split_and!; [done | | tauto | done].
  intros a Ha [-> | Hy']%elem_of_cons; [tauto | by apply (Hd a)].
Qed.
End Cells.

(** [nodup] takes every hypothesis on duplicates and membership apart; [not_in] then
    separates two addresses. *)
Ltac nodup :=
  repeat match goal with
  | H : context [fmap _ (_ ++ _)] |- _ => rewrite fmap_app in H
  | H : context [fmap _ (_ :: _)] |- _ => rewrite fmap_cons in H
  | H : context [fmap _ []] |- _ => rewrite fmap_nil in H
  | H : NoDup (_ ++ _) |- _ => apply list.NoDup_app in H as (? & ? & ?)
  | H : NoDup (_ :: _) |- _ => apply list.NoDup_cons in H as [? ?]
  | H : _ ∉ _ ++ _ |- _ => apply not_elem_of_app in H as [? ?]
  | H : _ ∉ _ :: _ |- _ => apply not_elem_of_cons in H as [? ?]
  end; simpl in *.

Ltac member :=
  rewrite ?fmap_app, ?fmap_cons, ?elem_of_app, ?elem_of_cons; simpl; first [tauto | solve [intuition auto]].

Ltac not_in :=
  nodup;
  first
  [ congruence
  | try intros Hin; subst;
    first
    [ tauto
    | match goal with
      | H : forall x, x ∈ ?l -> x ∉ ?k, a : positive |- _ => apply (H a); member
      end ] ].
