(* ===== verification/DList.v ===== *)
(** * Base/Container/List.hpp: the doubly linked list

    The nodes live in a heap of addresses; a [List] object holds the two end pointers and
    the counter.  Every member function reads and writes nodes through pointers, and a null
    or dangling dereference is the fault [BadPointer].  [repr] relates a heap and a [List]
    to the sequence of (address, element) pairs it stands for; the theorems say that each
    function is the sequence operation it is meant to be, and leaves every other node alone. *)

From stdpp Require Import gmap.
From S2P Require Import Prelude Links.
Local Open Scope Z_scope.

Section DList.
Context {D : Type}.

Record node := Node { _data : D; _prev : ptr; _next : ptr }.
#[local] Abbreviation heap := (gmap positive node).
Record List := mkList { _head : ptr; _tail : ptr; _size : Z }.

Definition List_empty : List := mkList None None 0.

(** ** Reads and writes through a pointer *)

Definition deref (p : ptr) (h : heap) : res (positive * node) :=
  match p with
  | None => Fault BadPointer
  | Some a => match h !! a with Some n => Ret (a, n) | None => Fault BadPointer end
  end.

Definition set_prev (p v : ptr) (h : heap) : res heap :=
  '(a, n) ← deref p h; Ret (<[a := Node (_data n) v (_next n)]> h).
Definition set_next (p v : ptr) (h : heap) : res heap :=
  '(a, n) ← deref p h; Ret (<[a := Node (_data n) (_prev n) v]> h).
Definition get_prev (p : ptr) (h : heap) : res ptr := '(_, n) ← deref p h; Ret (_prev n).
Definition get_next (p : ptr) (h : heap) : res ptr := '(_, n) ← deref p h; Ret (_next n).
Definition get_data (p : ptr) (h : heap) : res D := '(_, n) ← deref p h; Ret (_data n).

(** The pointer surgery [insert] makes around the new node [p]. *)
Definition List_link (dest p : ptr) (h : heap) (l : List) : res (heap * List) :=
  if negb (is_null dest) then
    dp ← get_prev dest h;
    h ← set_prev p dp h;
    h ← set_next p dest h;
    h ← set_prev dest p h;
    if decide (dest = _head l) then Ret (h, mkList p (_tail l) (_size l))
    else pp ← get_prev p h; h ← set_next pp p h; Ret (h, l)
  else
    h ← set_prev p (_tail l) h;
    if negb (is_null (_tail l))
    then h ← set_next (_tail l) p h; Ret (h, mkList (_head l) p (_size l))
    else Ret (h, mkList p p (_size l)).

(** The surgery that takes a node out. *)
Definition List_unlink (p : ptr) (h : heap) (l : List) : res (heap * List) :=
  pn ← get_next p h;
  pp ← get_prev p h;
  if negb (is_null pn) then
    h ← set_prev pn pp h;
    if negb (is_null pp) then h ← set_next pp pn h; Ret (h, l)
    else Ret (h, mkList pn (_tail l) (_size l))
  else
    if negb (is_null pp)
    then h ← set_next pp None h; Ret (h, mkList (_head l) pp (_size l))
    else Ret (h, mkList None pp (_size l)).

Definition grow (l : List) : List := mkList (_head l) (_tail l) (u64 (_size l + 1)).
Definition shrink (l : List) : List := mkList (_head l) (_tail l) (u64 (_size l - 1)).

(** [insert(dest, args...)]: [a] is the address [new Node] returns. *)
Definition List_insert (a : positive) (dest : ptr) (d : D) (h : heap) (l : List)
    : res (heap * List) :=
  let h := <[a := Node d None None]> h in
  '(h, l) ← List_link dest (Some a) h l;
  Ret (h, grow l).

(** [insert(dest, Val&&)]. *)
Definition List_insert_val (dest val : ptr) (h : heap) (l : List) : res (heap * List) :=
  h ← set_next val None h;
  h ← set_prev val None h;
  '(h, l) ← List_link dest val h l;
  Ret (h, grow l).

Definition List_move_to (dest target : ptr) (h : heap) (l : List) : res (heap * List) :=
  if is_null target then Ret (h, l) else
  tn ← get_next target h;
  if decide (tn = dest) then Ret (h, l) else
  '(h, l) ← List_unlink target h l;
  h ← (if is_null dest then set_next target None h else Ret h);
  List_link dest target h l.

Definition delete_node (p : ptr) (h : heap) : res heap :=
  '(a, _) ← deref p h; Ret (delete a h).

Definition List_erase (target : ptr) (h : heap) (l : List) : res (heap * List) :=
  if is_null target then Ret (h, l) else
  '(h, l) ← List_unlink target h l;
  h ← delete_node target h;
  Ret (h, shrink l).

(** [release]: the node stays allocated and is handed out as a [Val]. *)
Definition List_release (target : ptr) (h : heap) (l : List) : res (ptr * heap * List) :=
  if is_null target then Ret (None, h, l) else
  '(h, l) ← List_unlink target h l;
  Ret (target, h, shrink l).

(** The loop of [erase(begin, end)]: [delete (begin++)._ptr] until [end]. *)
Fixpoint List_erase_loop (fuel : nat) (b e : ptr) (h : heap) (l : List) : res (heap * List) :=
  if decide (b = e) then Ret (h, l) else
  match fuel with
  | O => Fault OutOfFuel
  | S fuel =>
      bn ← get_next b h;
      h ← delete_node b h;
      List_erase_loop fuel bn e h (shrink l)
  end.

Definition List_erase_range (fuel : nat) (b e : ptr) (h : heap) (l : List)
    : res (heap * List) :=
  if is_null b then Ret (h, l) else
  bp ← get_prev b h;
  '(h, l) ← (if negb (is_null bp) then h ← set_next bp e h; Ret (h, l)
             else Ret (h, mkList e (_tail l) (_size l)));
  '(h, l) ← (if negb (is_null e) then h ← set_prev e bp h; Ret (h, l)
             else Ret (h, mkList (_head l) bp (_size l)));
  List_erase_loop fuel b e h l.

(** The destructor. *)
Fixpoint List_destroy (fuel : nat) (h : heap) (l : List) : res heap :=
  if is_null (_head l) then Ret h else
  match fuel with
  | O => Fault OutOfFuel
  | S fuel =>
      hn ← get_next (_head l) h;
      h ← delete_node (_head l) h;
      List_destroy fuel h (mkList hn (_tail l) (_size l))
  end.

(** The move constructor: the new list, and the emptied other. *)
Definition List_move (other : List) : List * List :=
  (mkList (_head other) (_tail other) (_size other), mkList None None 0).

(** Iteration, [++iter] from [begin()] to [end()]. *)
Fixpoint List_iterate (fuel : nat) (it : ptr) (h : heap) : res (list D) :=
  match it with
  | None => Ret []
  | Some _ =>
      match fuel with
      | O => Fault OutOfFuel
      | S fuel => d ← get_data it h; n ← get_next it h; rest ← List_iterate fuel n h; Ret (d :: rest)
      end
  end.

(** ** The sequence a heap and a [List] stand for *)

#[local] Abbreviation cells := (cells_of D).

Fixpoint seg (h : heap) (pre : ptr) (xs : cells) (nxt : ptr) : Prop :=
  match xs with
  | [] => True
  | (a, d) :: xs => h !! a = Some (Node d pre (first_ptr xs nxt)) /\ seg h (Some a) xs nxt
  end.

Definition linked (h : heap) (l : List) (xs : cells) : Prop :=
  seg h None xs None /\ NoDup xs.*1 /\ _head l = first_ptr xs None /\
  _tail l = last_ptr xs None.

Definition repr (h : heap) (l : List) (xs : cells) : Prop :=
  linked h l xs /\ _size l = u64 (zlen xs).

Lemma seg_app h pre xs ys nxt :
  seg h pre (xs ++ ys) nxt <->
  seg h pre xs (first_ptr ys nxt) /\ seg h (last_ptr xs pre) ys nxt.
Proof.
  revert pre. induction xs as [|[a d] xs IH]; intros pre; simpl; [tauto |].
  rewrite IH, first_ptr_app. tauto.
Qed.

Lemma seg_agree h h' pre xs nxt :
  (forall a, a ∈ xs.*1 -> h' !! a = h !! a) -> seg h pre xs nxt -> seg h' pre xs nxt.
Proof.
  revert pre. induction xs as [|[a d] xs IH]; intros pre Ha; simpl; [done |].
  intros [Hd Hs]. rewrite Ha by (left; done). split; [done |]. apply IH; [| done].
  intros b Hb. apply Ha. by right.
Qed.

(** Only the last node of a segment knows what follows, only its first what precedes. *)
Lemma seg_snoc h pre xs a d nxt :
  seg h pre (xs ++ [(a, d)]) nxt <->
  seg h pre xs (Some a) /\ h !! a = Some (Node d (last_ptr xs pre) nxt).
Proof. rewrite seg_app. simpl. tauto. Qed.

Lemma seg_lookup h pre xs nxt a d :
  seg h pre xs nxt -> (a, d) ∈ xs -> exists n, h !! a = Some n /\ _data n = d.
Proof.
  revert pre. induction xs as [|[b e] xs IH]; intros pre; simpl.
  - intros _ Hin. by apply elem_of_nil in Hin.
  - intros [Hb Hs] Hin. apply elem_of_cons in Hin as [Heq|Hin]; [| eauto].
    injection Heq as -> ->. eauto.
Qed.

Lemma seg_fresh h pre xs nxt a : seg h pre xs nxt -> h !! a = None -> a ∉ xs.*1.
Proof.
  intros Hs Ha Hin. apply list_elem_of_fmap in Hin as ([b d] & -> & Hin).
  destruct (seg_lookup _ _ _ _ _ _ Hs Hin) as (n & Hn & _). simpl in Ha. congruence.
Qed.

Lemma set_prev_ok h a n v :
  h !! a = Some n -> set_prev (Some a) v h = Ret (<[a := Node (_data n) v (_next n)]> h).
Proof. intros Ha. unfold set_prev. simpl. by rewrite Ha. Qed.

Lemma set_next_ok h a n v :
  h !! a = Some n -> set_next (Some a) v h = Ret (<[a := Node (_data n) (_prev n) v]> h).
Proof. intros Ha. unfold set_next. simpl. by rewrite Ha. Qed.

Lemma get_prev_ok h a n : h !! a = Some n -> get_prev (Some a) h = Ret (_prev n).
Proof. intros Ha. unfold get_prev. simpl. by rewrite Ha. Qed.

Lemma get_next_ok h a n : h !! a = Some n -> get_next (Some a) h = Ret (_next n).
Proof. intros Ha. unfold get_next. simpl. by rewrite Ha. Qed.

Lemma delete_node_ok h a n : h !! a = Some n -> delete_node (Some a) h = Ret (delete a h).
Proof. intros Ha. unfold delete_node. simpl. by rewrite Ha. Qed.

(** One pointer access at a node whose contents are known. *)
Ltac heap_step :=
  first
  [ erewrite set_prev_ok by (simplify_map_eq; reflexivity)
  | erewrite set_next_ok by (simplify_map_eq; reflexivity)
  | erewrite get_prev_ok by (simplify_map_eq; reflexivity)
  | erewrite get_next_ok by (simplify_map_eq; reflexivity)
  | erewrite delete_node_ok by (simplify_map_eq; reflexivity) ]; simpl.

(** ** Linking and unlinking *)

(** A heap written at addresses outside a segment still has the segment. *)
Ltac seg_kept :=
  match goal with
  | |- seg _ _ _ _ =>
      eapply seg_agree; [| eassumption]; intros ?c ?Hc; rewrite ?lookup_insert_ne by not_in; done
  end.

Ltac untouched := intros ?c ?Hc; rewrite ?lookup_insert_ne by not_in; done.

Lemma link_back_spec h l xs p d pre0 :
  linked h l xs -> p ∉ xs.*1 -> h !! p = Some (Node d pre0 None) ->
  exists h' l', List_link None (Some p) h l = Ret (h', l') /\
    linked h' l' (xs ++ [(p, d)]) /\ _size l' = _size l /\
    same_outside (p :: xs.*1) h h'.
Proof.
  intros (Hx & Hnd & Hh & Ht) Hp Hpn. unfold List_link. simpl.
  pose proof (NoDup_mid_fresh xs [] p d) as Hnd'. rewrite app_nil_r in Hnd'.
  specialize (Hnd' Hnd Hp). heap_step. rewrite Ht.
  destruct (last_ptr_snoc_cases xs) as [[-> Hl] | (xs' & b & f & -> & Hl)]; rewrite Hl; simpl.
  - eexists _, _. split; [done |]. unfold linked; simpl; split_and!; simplify_map_eq; try done.
    untouched.
  - apply seg_snoc in Hx as [Hx Hb]. assert (p <> b) by not_in. heap_step.
    eexists _, _. split; [done |]. unfold linked; simpl; split_and!; simplify_map_eq; try done.
    + rewrite !seg_snoc, last_ptr_snoc. split_and!; simplify_map_eq; [seg_kept | done | done].
    + rewrite Hh. by destruct xs' as [|[]].
    + by rewrite !last_ptr_app.
    + untouched.
Qed.

Lemma link_before_spec h l xs q e ys p d pre0 nxt0 :
  linked h l (xs ++ (q, e) :: ys) -> p ∉ (xs ++ (q, e) :: ys).*1 ->
  h !! p = Some (Node d pre0 nxt0) ->
  exists h' l', List_link (Some q) (Some p) h l = Ret (h', l') /\
    linked h' l' (xs ++ (p, d) :: (q, e) :: ys) /\ _size l' = _size l /\
    same_outside (p :: (xs ++ (q, e) :: ys).*1) h h'.
Proof.
  intros (Hs & Hnd & Hh & Ht) Hp Hpn. unfold List_link.
  apply seg_app in Hs as [Hx Hy].
  pose proof (NoDup_mid_fresh xs _ p d Hnd Hp) as Hnd'.
  destruct Hy as [Hq Hy]. simpl in *. assert (p <> q) by not_in. do 4 heap_step.
  destruct (last_ptr_snoc_cases xs) as [[-> Hl] | (xs' & b & f & -> & Hl)];
    rewrite Hl in *; simpl in *.
  - rewrite decide_True by done. eexists _, _. split; [done |].
    unfold linked; simpl; split_and!; simplify_map_eq; try done; [seg_kept | untouched].
  - apply seg_snoc in Hx as [Hx Hb].
    assert (b <> q) by not_in. assert (b <> p) by not_in.
    rewrite decide_False by (rewrite Hh; destruct xs' as [|[]]; simpl; intros [= ->]; not_in).
    do 2 heap_step. eexists _, _. split; [done |].
    unfold linked; simpl; split_and!; simplify_map_eq; try done.
    + rewrite <- app_assoc, seg_app. simpl. split; [seg_kept |].
      simplify_map_eq. split_and!; try done. seg_kept.
    + rewrite Hh. by destruct xs' as [|[]].
    + by rewrite Ht, !last_ptr_app.
    + untouched.
Qed.

Lemma link_spec h l xs ys p d dest pre0 nxt0 :
  linked h l (xs ++ ys) -> p ∉ (xs ++ ys).*1 -> h !! p = Some (Node d pre0 nxt0) ->
  dest = first_ptr ys None -> (ys = [] -> nxt0 = None) ->
  exists h' l', List_link dest (Some p) h l = Ret (h', l') /\
    linked h' l' (xs ++ (p, d) :: ys) /\ _size l' = _size l /\
    same_outside (p :: (xs ++ ys).*1) h h'.
Proof.
  intros Hl Hp Hpn -> Hn. destruct ys as [|[q e] ys]; simpl.
  - rewrite Hn in Hpn by done. rewrite app_nil_r in *. by eapply link_back_spec.
  - by eapply link_before_spec.
Qed.

Lemma unlink_spec h l xs p d ys :
  linked h l (xs ++ (p, d) :: ys) ->
  exists h' l', List_unlink (Some p) h l = Ret (h', l') /\
    linked h' l' (xs ++ ys) /\ _size l' = _size l /\ (p ∉ (xs ++ ys).*1) /\
    same_outside ((xs ++ ys).*1) h h'.
Proof.
  intros (Hs & Hnd & Hh & Ht). unfold List_unlink.
  apply seg_app in Hs as [Hx Hp]. destruct Hp as [Hp Hy]. simpl in *.
  assert (Hnd' : NoDup (xs ++ ys).*1 /\ p ∉ (xs ++ ys).*1).
  { rewrite fmap_app. nodup. rewrite list.NoDup_app, not_elem_of_app.
    split_and!; try done; [intros c Hc; not_in |]. not_in. }
  destruct Hnd' as [Hnd' Hpf]. do 2 heap_step.
  destruct ys as [|[q e] ys];
    destruct (last_ptr_snoc_cases xs) as [[-> Hl] | (xs' & b & f & -> & Hl)];
    rewrite Hl in *; simpl in *.
  - eexists _, _. split; [done |]. unfold linked; simpl; split_and!; done.
  - apply seg_snoc in Hx as [Hx Hb]. heap_step. eexists _, _. split; [done |].
    rewrite app_nil_r in *.
    unfold linked; simpl; split_and!; try done.
    + rewrite seg_snoc. simplify_map_eq. split; [seg_kept | done].
    + rewrite Hh. by destruct xs' as [|[]].
    + untouched.
  - destruct Hy as [Hq Hy]. heap_step. eexists _, _. split; [done |].
    unfold linked; simpl; split_and!; simplify_map_eq; try done; [seg_kept | untouched].
  - destruct Hy as [Hq Hy]. apply seg_snoc in Hx as [Hx Hb].
    assert (b <> q) by not_in. do 2 heap_step. eexists _, _. split; [done |].
    unfold linked; simpl; split_and!; try done.
    + rewrite <- app_assoc, seg_app. simpl. split; [seg_kept |].
      simplify_map_eq. split_and!; try done. seg_kept.
    + rewrite Hh. by destruct xs' as [|[]].
    + by rewrite Ht, !last_ptr_app.
    + untouched.
Qed.
(** ** The operations *)

Lemma linked_agree h h' l xs :
  (forall a, a ∈ xs.*1 -> h' !! a = h !! a) -> linked h l xs -> linked h' l xs.
Proof. intros Ha (Hs & Hl). split; [by eapply seg_agree | done]. Qed.

Lemma linked_size h l l' xs :
  _head l' = _head l -> _tail l' = _tail l -> linked h l xs -> linked h l' xs.
Proof. unfold linked. by intros -> ->. Qed.

Lemma u64_succ z : u64 (u64 z + 1) = u64 (z + 1).
Proof. unfold u64. by rewrite Zplus_mod_idemp_l. Qed.

Lemma u64_pred z : u64 (u64 z - 1) = u64 (z - 1).
Proof. unfold u64. by rewrite Zminus_mod_idemp_l. Qed.

Lemma zlen_mid {A} (xs ys : list A) x : zlen (xs ++ x :: ys) = zlen (xs ++ ys) + 1.
Proof. rewrite !zlen_app. unfold zlen. simpl. lia. Qed.

Lemma repr_grow h l xs ys (x : positive * D) :
  linked h l (xs ++ x :: ys) -> _size l = u64 (zlen (xs ++ ys)) ->
  repr h (grow l) (xs ++ x :: ys).
Proof. intros Hl Hz. split; [done |]. simpl. by rewrite Hz, u64_succ, zlen_mid. Qed.

Lemma repr_shrink h l xs ys (x : positive * D) :
  linked h l (xs ++ ys) -> _size l = u64 (zlen (xs ++ x :: ys)) ->
  repr h (shrink l) (xs ++ ys).
Proof. intros Hl Hz. split; [done |]. simpl. rewrite Hz, u64_pred, zlen_mid. f_equal. lia. Qed.

Lemma linked_insert_fresh h l xs a n :
  a ∉ xs.*1 -> linked h l xs -> linked (<[a := n]> h) l xs.
Proof. intros Ha. apply linked_agree. intros b Hb. rewrite lookup_insert_ne; [done | by intros ->]. Qed.

Lemma linked_fresh h l xs a : linked h l xs -> h !! a = None -> a ∉ xs.*1.
Proof. intros (Hs & _). by apply (seg_fresh h None xs None). Qed.

Lemma insert_ok h l xs ys a d :
  repr h l (xs ++ ys) -> h !! a = None ->
  exists h' l', List_insert a (first_ptr ys None) d h l = Ret (h', l') /\
    repr h' l' (xs ++ (a, d) :: ys) /\ same_outside (a :: (xs ++ ys).*1) h h'.
Proof.
  intros [Hl Hz] Ha. pose proof (linked_fresh _ _ _ _ Hl Ha) as Hf. unfold List_insert.
  destruct (link_spec (<[a := Node d None None]> h) l xs ys a d _ None None
              (linked_insert_fresh _ _ _ _ _ Hf Hl) Hf
              ltac:(by simplify_map_eq) eq_refl ltac:(done)) as (h' & l' & E & Hl' & Hz' & Hs).
  rewrite E. simpl. eexists _, _. split; [done |]. split.
  - apply repr_grow; [done | congruence].
  - intros b Hb. rewrite Hs by done. rewrite lookup_insert_ne; [done | set_solver].
Qed.

(** A released node, whatever its links, goes back in. *)
Lemma insert_val_ok h l xs ys a n :
  repr h l (xs ++ ys) -> h !! a = Some n -> a ∉ (xs ++ ys).*1 ->
  exists h' l', List_insert_val (first_ptr ys None) (Some a) h l = Ret (h', l') /\
    repr h' l' (xs ++ (a, _data n) :: ys) /\ same_outside (a :: (xs ++ ys).*1) h h'.
Proof.
  intros [Hl Hz] Ha Hf. unfold List_insert_val. do 2 heap_step. rewrite insert_insert_eq.
  destruct (link_spec (<[a := Node (_data n) None None]> h) l xs ys a (_data n) _ None None
              (linked_insert_fresh _ _ _ _ _ Hf Hl) Hf
              ltac:(by simplify_map_eq) eq_refl ltac:(done)) as (h' & l' & E & Hl' & Hz' & Hs).
  rewrite E. simpl. eexists _, _. split; [done |]. split.
  - apply repr_grow; [done | congruence].
  - intros b Hb. rewrite Hs by done. rewrite lookup_insert_ne; [done | set_solver].
Qed.

Lemma linked_node h l xs p d ys :
  linked h l (xs ++ (p, d) :: ys) ->
  h !! p = Some (Node d (last_ptr xs None) (first_ptr ys None)).
Proof. intros (Hs & _). apply seg_app in Hs as [_ Hp]. simpl in Hp. tauto. Qed.

Lemma release_ok h l xs p d ys :
  repr h l (xs ++ (p, d) :: ys) ->
  exists h' l', List_release (Some p) h l = Ret (Some p, h', l') /\
    repr h' l' (xs ++ ys) /\ h' !! p = h !! p /\ (p ∉ (xs ++ ys).*1) /\
    same_outside ((xs ++ ys).*1) h h'.
Proof.
  intros [Hl Hz]. unfold List_release. simpl.
  destruct (unlink_spec _ _ _ _ _ _ Hl) as (h' & l' & E & Hl' & Hz' & Hp & Hs).
  rewrite E. simpl. eexists _, _. split; [done |]. split_and!; try done; [| by apply Hs].
  eapply repr_shrink; [done | by rewrite Hz'].
Qed.

Lemma erase_ok h l xs p d ys :
  repr h l (xs ++ (p, d) :: ys) ->
  exists h' l', List_erase (Some p) h l = Ret (h', l') /\
    repr h' l' (xs ++ ys) /\ (h' !! p = None) /\ same_outside (p :: (xs ++ ys).*1) h h'.
Proof.
  intros [Hl Hz]. unfold List_erase. simpl.
  destruct (unlink_spec _ _ _ _ _ _ Hl) as (h' & l' & E & Hl' & Hz' & Hp & Hs).
  rewrite E. simpl. pose proof (linked_node _ _ _ _ _ _ Hl) as Hn.
  rewrite <- Hs in Hn by done. heap_step. eexists _, _. split; [done |]. split_and!.
  - eapply repr_shrink; [| by rewrite Hz'].
    eapply linked_agree; [| done]. intros a Ha. by rewrite lookup_delete_ne by (intros ->; done).
  - by simplify_map_eq.
  - intros a Ha. rewrite lookup_delete_ne, Hs by set_solver. done.
Qed.

Lemma first_ptr_inj (xs1 ys1 xs2 ys2 : cells) :
  NoDup (xs1 ++ ys1).*1 -> xs1 ++ ys1 = xs2 ++ ys2 ->
  first_ptr ys1 None = first_ptr ys2 None -> xs1 = xs2 /\ ys1 = ys2.
Proof.
  revert xs2. induction xs1 as [|[a d] xs1 IH]; intros [|[b e] xs2] Hnd He Hf.
  - done.
  - simpl in He. subst ys1. destruct ys2 as [|[c f] ys2]; [done |].
    injection Hf as <-. exfalso. not_in.
  - simpl in He. subst ys2. destruct ys1 as [|[c f] ys1]; [done |].
    injection Hf as ->. exfalso. not_in.
  - injection He as -> -> He. apply list.NoDup_cons in Hnd as [_ Hnd].
    destruct (IH xs2 Hnd He Hf) as [-> ->]. done.
Qed.

Lemma move_to_ok h l xs p d ys zs1 zs2 :
  repr h l (xs ++ (p, d) :: ys) -> xs ++ ys = zs1 ++ zs2 ->
  exists h' l', List_move_to (first_ptr zs2 None) (Some p) h l = Ret (h', l') /\
    repr h' l' (zs1 ++ (p, d) :: zs2) /\ same_outside (p :: (xs ++ ys).*1) h h'.
Proof.
  intros [Hl Hz] Hzs. pose proof (linked_node _ _ _ _ _ _ Hl) as Hn.
  destruct (unlink_spec _ _ _ _ _ _ Hl) as (h1 & l1 & E1 & Hl1 & Hz1 & Hp & Hs1).
  unfold List_move_to. simpl. heap_step. case_decide as Hd.
  - destruct (first_ptr_inj xs ys zs1 zs2) as [-> ->]; [| done | done |].
    + by destruct Hl1 as (_ & ? & _).
    + eexists _, _. split; [done |]. split; [by split | done].
  - rewrite E1. simpl. pose proof (Hs1 p Hp) as Hp1. rewrite Hn in Hp1.
    assert (Hfix : exists h2 pre0 nxt0,
      (if is_null (first_ptr zs2 None) then set_next (Some p) None h1 else Ret h1) = Ret h2 /\
      h2 !! p = Some (Node d pre0 nxt0) /\ (zs2 = [] -> nxt0 = None) /\
      same_outside [p] h1 h2).
    { destruct zs2 as [|[q e] zs2]; simpl.
      - heap_step. eexists _, _, _. split; [done |]. simplify_map_eq. split_and!; try done.
        untouched.
      - eexists h1, _, _. split_and!; done. }
    destruct Hfix as (h2 & pre0 & nxt0 & E2 & Hp2 & Hn2 & Hs2). rewrite E2. simpl.
    rewrite Hzs in *.
    destruct (link_spec h2 l1 zs1 zs2 p d (first_ptr zs2 None) pre0 nxt0) as (h3 & l3 & E3 & Hl3 & Hz3 & Hs3);
      [| done | done | done | done |].
    { eapply linked_agree; [| done]. intros a Ha. apply Hs2. set_solver. }
    rewrite E3. eexists _, _. split; [done |]. split; [split; [done |] |].
    + rewrite Hz3, Hz1, Hz, !zlen_mid, Hzs. done.
    + eapply same_outside_trans; [| exact Hs3 | |]; [| set_solver | done].
      eapply (same_outside_trans _ _ (p :: (zs1 ++ zs2).*1)); [exact Hs1 | exact Hs2 | |]; set_solver.
Qed.

(** [erase(begin, end)]: the loop frees the nodes between, whatever they point back to. *)
Lemma erase_loop_ok fuel h l pre ms e :
  seg h pre ms e -> NoDup ms.*1 -> (forall q, e = Some q -> q ∉ ms.*1) ->
  (length ms <= fuel)%nat ->
  exists h', List_erase_loop fuel (first_ptr ms e) e h l =
      Ret (h', mkList (_head l) (_tail l) (_size (Nat.iter (length ms) shrink l))) /\
    (forall a, a ∈ ms.*1 -> h' !! a = None) /\ same_outside ms.*1 h h'.
Proof.
  revert fuel h l pre. induction ms as [|[a d] ms IH]; intros fuel h l pre Hs Hnd He Hf.
  - exists h. simpl. split_and!; [| set_solver | done].
    destruct fuel; simpl; rewrite decide_True by done; by destruct l.
  - destruct Hs as [Ha Hs]. apply list.NoDup_cons in Hnd as [Hna Hnd].
    destruct fuel as [|fuel]; [simpl in Hf; lia |]. cbn [length List_erase_loop first_ptr].
    rewrite decide_False by (intros <-; apply (He a); [done | left]).
    do 2 heap_step.
    destruct (IH fuel (delete a h) (shrink l) (Some a)) as (h' & E & Hd & Ho);
      [| done | | simpl in Hf; lia |].
    + eapply seg_agree; [| done]. intros c Hc. rewrite lookup_delete_ne; [done | by intros ->].
    + intros q Hq Hin. apply (He q Hq). by right.
    + rewrite E. exists h'. split; [| split].
      * do 3 f_equal. clear. generalize (length ms) as n.
        induction n as [|n IHn]; [done |]. simpl. by rewrite IHn.
      * intros c [-> | Hc]%elem_of_cons; [| by apply Hd].
        rewrite Ho by done. by simplify_map_eq.
      * intros c Hc. rewrite Ho by set_solver. rewrite lookup_delete_ne; [done | set_solver].
Qed.

Lemma size_iter_shrink n l z :
  _size l = u64 (z + Z.of_nat n) -> _size (Nat.iter n shrink l) = u64 z.
Proof.
  revert z. induction n as [|n IH]; intros z Hz; simpl.
  - rewrite Hz. f_equal. lia.
  - rewrite (IH (z + 1)), u64_pred by (rewrite Hz; f_equal; lia). f_equal. lia.
Qed.

(** Closing the gap: what the two assignments before the loop leave. *)
Definition close_gap (bp e : ptr) (h : heap) (l : List) : res (heap * List) :=
  '(h, l) ← (if negb (is_null bp) then h ← set_next bp e h; Ret (h, l)
             else Ret (h, mkList e (_tail l) (_size l)));
  if negb (is_null e) then h ← set_prev e bp h; Ret (h, l)
  else Ret (h, mkList (_head l) bp (_size l)).

Lemma close_gap_ok h l xs ms ys :
  linked h l (xs ++ ms ++ ys) ->
  exists h' l', close_gap (last_ptr xs None) (first_ptr ys None) h l = Ret (h', l') /\
    linked h' l' (xs ++ ys) /\ _size l' = _size l /\
    same_outside ((xs ++ ys).*1) h h'.
Proof.
  intros (Hs & Hnd & Hh & Ht). unfold close_gap.
  apply seg_app in Hs as [Hx Hs]. apply seg_app in Hs as [Hm Hy].
  assert (Hnd' : NoDup (xs ++ ys).*1).
  { rewrite fmap_app. nodup. rewrite list.NoDup_app.
    split_and!; try done; [intros c Hc; not_in]. }
  destruct ys as [|[q e] ys];
    destruct (last_ptr_snoc_cases xs) as [[-> Hl] | (xs' & b & f & -> & Hl)];
    rewrite Hl in *; cbn [first_ptr is_null negb] in *.
  - eexists _, _. split; [done |]. unfold linked; simpl; split_and!; done.
  - rewrite !app_nil_r in *. apply seg_snoc in Hx as [Hx Hb]. heap_step. eexists _, _. split; [done |].
    unfold linked; simpl; split_and!; try done.
    + rewrite seg_snoc. simplify_map_eq. split; [seg_kept | done].
    + rewrite Hh. by destruct xs' as [|[]].
    + untouched.
  - destruct Hy as [Hq Hy]. simpl. heap_step. eexists _, _. split; [done |].
    unfold linked; simpl; split_and!; simplify_map_eq; try done; [seg_kept | | untouched].
    by rewrite Ht, last_ptr_app.
  - destruct Hy as [Hq Hy]. apply seg_snoc in Hx as [Hx Hb].
    assert (b <> q) by not_in. do 2 heap_step. eexists _, _. split; [done |].
    unfold linked; simpl; split_and!; try done.
    + rewrite <- app_assoc, seg_app. simpl. split; [seg_kept |].
      simplify_map_eq. split_and!; try done. seg_kept.
    + rewrite Hh. by destruct xs' as [|[]].
    + by rewrite Ht, !last_ptr_app.
    + untouched.
Qed.

Lemma erase_range_gap fuel b e h l bp :
  is_null b = false -> get_prev b h = Ret bp ->
  List_erase_range fuel b e h l =
    ('(h, l) ← close_gap bp e h l; List_erase_loop fuel b e h l).
Proof.
  intros Hb Hbp. unfold List_erase_range, close_gap. rewrite Hb, Hbp. simpl.
  destruct (is_null bp); simpl; [| destruct (set_next bp e h); simpl; [| done]];
    (destruct (is_null e); simpl; [done |]); destruct (set_prev _ _ _); done.
Qed.

(** The nodes being cut out keep their forward links. *)
Lemma cut_segment h h1 xs ms ys :
  seg h (last_ptr xs None) ms (first_ptr ys None) ->
  NoDup (xs ++ ms ++ ys).*1 -> same_outside ((xs ++ ys).*1) h h1 ->
  seg h1 (last_ptr xs None) ms (first_ptr ys None).
Proof.
  intros Hs Hnd Ho. eapply seg_agree; [| done]. intros a Ha. apply Ho.
  rewrite fmap_app. apply not_elem_of_app. split; not_in.
Qed.

Lemma erase_range_ok fuel h l xs ms ys :
  repr h l (xs ++ ms ++ ys) -> (length ms <= fuel)%nat ->
  exists h' l', List_erase_range fuel (first_ptr (ms ++ ys) None) (first_ptr ys None) h l = Ret (h', l') /\
    repr h' l' (xs ++ ys) /\ (forall a, a ∈ ms.*1 -> h' !! a = None) /\
    same_outside ((xs ++ ms ++ ys).*1) h h'.
Proof.
  intros [Hl Hz] Hf. pose proof Hl as (Hs & Hnd & _). apply seg_app in Hs as [_ Hs].
  destruct (is_null (first_ptr (ms ++ ys) None)) eqn:Hnull.
  { assert (ms ++ ys = []) as Emy by (by destruct (ms ++ ys) as [|[]]).
    apply app_eq_nil in Emy as [-> ->]. eexists _, _. split; [done |]. rewrite app_nil_r in *.
    split_and!; [by split | set_solver | done]. }
  assert (Hgp : get_prev (first_ptr (ms ++ ys) None) h = Ret (last_ptr xs None)).
  { destruct (ms ++ ys) as [|[a d] rest]; [done |]. destruct Hs as [Ha _]. simpl. by heap_step. }
  rewrite (erase_range_gap _ _ _ _ _ _ Hnull Hgp). apply seg_app in Hs as [Hm _].
  destruct (close_gap_ok h l xs ms ys Hl) as (h1 & l1 & E1 & Hl1 & Hz1 & Ho1).
  rewrite E1. simpl. rewrite first_ptr_app.
  destruct (erase_loop_ok fuel h1 l1 _ ms _ (cut_segment _ _ _ _ _ Hm Hnd Ho1))
    as (h2 & E2 & Hd2 & Ho2); [by nodup | | done |].
  { intros q Hq. destruct ys as [|[q' e] ys]; [done |]. injection Hq as ->. not_in. }
  rewrite E2. eexists _, _. split; [done |]. split_and!; [split | done |].
  - eapply linked_size; [done | done |]. eapply linked_agree; [| done].
    intros a Ha. apply Ho2. rewrite fmap_app in Ha. apply elem_of_app in Ha as [Ha|Ha]; not_in.
  - simpl. rewrite (size_iter_shrink _ _ (zlen (xs ++ ys))); [done |].
    rewrite Hz1, Hz, !zlen_app. f_equal. unfold zlen. lia.
  - eapply same_outside_trans; [exact Ho1 | exact Ho2 | |];
      rewrite !fmap_app; set_solver.
Qed.

(** ** Every operation at once: the class implements a sequence with stable positions *)

Inductive list_op :=
  | OInsert (a : positive) (dest : ptr) (d : D)
  | OInsertVal (dest val : ptr)
  | OErase (target : ptr)
  | ORelease (target : ptr)
  | OMove (dest target : ptr)
  | OEraseRange (b e : ptr)
  | OWalk
  | OMoveConstruct
  | ODestroy.

(** What a member function returns: nothing, an iterator or [Val], the elements a walk from
    [begin()] to [end()] saw, or the list a move constructor took the nodes from. *)
Inductive list_answer := Nothing | At (p : ptr) | Elements (ds : list D) | Other (l : List).

(** [insert] returns an iterator to the node; after the destructor there is no list, which
    is as good as an empty one. *)
Definition list_exec (fuel : nat) (o : list_op) (h : heap) (l : List)
    : res (list_answer * heap * List) :=
  match o with
  | OInsert a dest d => '(h, l) ← List_insert a dest d h l; Ret (At (Some a), h, l)
  | OInsertVal dest val => '(h, l) ← List_insert_val dest val h l; Ret (At val, h, l)
  | OErase target => '(h, l) ← List_erase target h l; Ret (Nothing, h, l)
  | ORelease target => '(p, h, l) ← List_release target h l; Ret (At p, h, l)
  | OMove dest target => '(h, l) ← List_move_to dest target h l; Ret (Nothing, h, l)
  | OEraseRange b e => '(h, l) ← List_erase_range fuel b e h l; Ret (Nothing, h, l)
  | OWalk => ds ← List_iterate fuel (_head l) h; Ret (Elements ds, h, l)
  | OMoveConstruct => let '(l', other) := List_move l in Ret (Other other, h, l')
  | ODestroy => h ← List_destroy fuel h l; Ret (Nothing, h, List_empty)
  end.

(** What the operation does to the sequence, what it answers and which nodes it frees.  A
    position is the address of its node, or [None] for [end()]; a node keeps its address for
    as long as it is in the list.  [move_to] goes to a position of the other nodes: the node
    itself is no destination ([move_to_itself] below). *)
Inductive list_spec (h : heap) : list_op -> cells -> list_answer -> cells -> list positive -> Prop :=
  | spec_insert a d xs ys : h !! a = None ->
      list_spec h (OInsert a (first_ptr ys None) d) (xs ++ ys) (At (Some a)) (xs ++ (a, d) :: ys) []
  | spec_insert_val a n xs ys : h !! a = Some n -> a ∉ (xs ++ ys).*1 ->
      list_spec h (OInsertVal (first_ptr ys None) (Some a)) (xs ++ ys) (At (Some a))
        (xs ++ (a, _data n) :: ys) []
  | spec_erase_end xs : list_spec h (OErase None) xs Nothing xs []
  | spec_erase p d xs ys :
      list_spec h (OErase (Some p)) (xs ++ (p, d) :: ys) Nothing (xs ++ ys) [p]
  | spec_release_end xs : list_spec h (ORelease None) xs (At None) xs []
  | spec_release p d xs ys :
      list_spec h (ORelease (Some p)) (xs ++ (p, d) :: ys) (At (Some p)) (xs ++ ys) []
  | spec_move_end dest xs : list_spec h (OMove dest None) xs Nothing xs []
  | spec_move p d xs ys zs1 zs2 : xs ++ ys = zs1 ++ zs2 ->
      list_spec h (OMove (first_ptr zs2 None) (Some p)) (xs ++ (p, d) :: ys) Nothing
        (zs1 ++ (p, d) :: zs2) []
  | spec_range xs ms ys :
      list_spec h (OEraseRange (first_ptr (ms ++ ys) None) (first_ptr ys None))
        (xs ++ ms ++ ys) Nothing (xs ++ ys) ms.*1
  | spec_walk xs : list_spec h OWalk xs (Elements xs.*2) xs []
  | spec_move_construct xs : list_spec h OMoveConstruct xs (Other List_empty) xs []
  | spec_destroy xs : list_spec h ODestroy xs Nothing [] xs.*1.

(** Walking from [begin()] to [end()] visits the elements in order. *)
Lemma iterate_ok fuel h pre xs :
  seg h pre xs None -> (length xs <= fuel)%nat ->
  List_iterate fuel (first_ptr xs None) h = Ret xs.*2.
Proof.
  revert fuel pre. induction xs as [|[a d] xs IH]; intros fuel pre Hs Hf; [by destruct fuel |].
  destruct Hs as [Ha Hs]. destruct fuel as [|fuel]; [simpl in Hf; lia |].
  cbn [List_iterate first_ptr]. unfold get_data. simpl. rewrite Ha. simpl. heap_step.
  rewrite (IH _ _ Hs) by (simpl in Hf; lia). done.
Qed.

(** The destructor frees every node of the list and nothing else. *)
Lemma destroy_ok fuel h l xs :
  repr h l xs -> (length xs <= fuel)%nat ->
  exists h', List_destroy fuel h l = Ret h' /\
    (forall a, a ∈ xs.*1 -> h' !! a = None) /\ same_outside xs.*1 h h'.
Proof.
  intros [(Hs & Hnd & Hh & _) _] Hf.
  assert (Hpre : exists pre, seg h pre xs None) by eauto. clear Hs. destruct Hpre as [pre Hs].
  revert pre fuel h l Hs Hnd Hh Hf.
  induction xs as [|[a d] xs IH]; intros pre fuel h l Hs Hnd Hh Hf.
  - exists h. destruct fuel; simpl; rewrite Hh;
      (split_and!; [done | by intros a ?%elem_of_nil | done]).
  - destruct Hs as [Ha Hs]. apply list.NoDup_cons in Hnd as [Hna Hnd].
    destruct fuel as [|fuel]; [simpl in Hf; lia |]. cbn [List_destroy]. rewrite Hh. simpl.
    do 2 heap_step.
    destruct (IH (Some a) fuel (delete a h) (mkList (first_ptr xs None) (_tail l) (_size l)))
      as (h' & E & Hd & Ho); [| done | done | simpl in Hf; lia |].
    + eapply seg_agree; [| done]. intros c Hc. rewrite lookup_delete_ne; [done | by intros ->].
    + exists h'. split_and!; [done | |].
      * intros c [-> | Hc]%elem_of_cons; [| by apply Hd]. rewrite Ho by done. by simplify_map_eq.
      * intros c Hc. rewrite Ho by set_solver. rewrite lookup_delete_ne; [done | set_solver].
Qed.
(** C14. The member functions of [List] ([insert] of a value and of a released node, [erase] of
    a node and of a range, [release], [move_to] to another position, a walk with the iterators,
    the move constructor and the destructor), started on a heap that holds a list: each returns
    (no null dereference, no loop) with the answer of the sequence operation and leaves a heap
    that holds the sequence it gives; the nodes it frees are freed, and every node that is
    neither freed nor in the new list is as it was, a released one included.  Left out:
    [move_to] with the node itself as destination, which breaks the list, and the copy
    constructor, which does not compile. *)
Theorem list_refines fuel o h l xs ans xs' freed :
  repr h l xs -> list_spec h o xs ans xs' freed -> (length xs <= fuel)%nat ->
  exists h' l', list_exec fuel o h l = Ret (ans, h', l') /\ repr h' l' xs' /\
    (forall a, a ∈ freed -> h' !! a = None) /\ same_outside (xs'.*1 ++ freed) h h'.
Proof.
  intros Hr Ho Hf. destruct Ho; cbn [list_exec].
  - destruct (insert_ok _ _ _ _ a d Hr) as (h' & l' & E & Hr' & Hs); [done |].
    rewrite E. eexists _, _. split_and!; [done | done | set_solver |].
    eapply same_outside_weaken; [exact Hs |]. rewrite !fmap_app, fmap_cons. set_solver.
  - destruct (insert_val_ok _ _ _ _ a n Hr) as (h' & l' & E & Hr' & Hs); [done | done |].
    rewrite E. eexists _, _. split_and!; [done | done | set_solver |].
    eapply same_outside_weaken; [exact Hs |]. rewrite !fmap_app, fmap_cons. set_solver.
  - eexists _, _. split_and!; [done | done | set_solver | done].
  - destruct (erase_ok _ _ _ _ _ _ Hr) as (h' & l' & E & Hr' & Hd & Hs).
    rewrite E. eexists _, _. split_and!; [done | done | set_solver |].
    eapply same_outside_weaken; [exact Hs |]. set_solver.
  - eexists _, _. split_and!; [done | done | set_solver | done].
  - destruct (release_ok _ _ _ _ _ _ Hr) as (h' & l' & E & Hr' & _ & _ & Hs).
    rewrite E. eexists _, _. split_and!; [done | done | set_solver |].
    eapply same_outside_weaken; [exact Hs |]. set_solver.
  - eexists _, _. split_and!; [done | done | set_solver | done].
  - destruct (move_to_ok _ _ _ _ _ _ _ _ Hr H) as (h' & l' & E & Hr' & Hs).
    rewrite E. eexists _, _. split_and!; [done | done | set_solver |].
    eapply same_outside_weaken; [exact Hs |]. rewrite H, !fmap_app, fmap_cons. set_solver.
  - rewrite !length_app in Hf.
    destruct (erase_range_ok fuel _ _ _ _ _ Hr) as (h' & l' & E & Hr' & Hd & Hs); [lia |].
    rewrite E. eexists _, _. split_and!; [done | done | done |].
    eapply same_outside_weaken; [exact Hs |]. rewrite !fmap_app. set_solver.
  - pose proof Hr as [(Hs & _ & Hh & _) _]. rewrite Hh, (iterate_ok fuel h None xs Hs Hf).
    eexists _, _. split_and!; [done | done | set_solver | done].
  - eexists _, _. split_and!; [done | | set_solver | done]. destruct Hr as [Hl Hz]. by split.
  - destruct (destroy_ok fuel h l xs Hr Hf) as (h' & E & Hd & Hs). rewrite E.
    eexists _, _. split_and!; [done | | done | done]. split; [| done].
    unfold linked. simpl. split_and!; try done. constructor.
Qed.
End DList.
Arguments node : clear implicits.
Abbreviation heap D := (gmap positive (node D)).

(** ** Concrete runs *)

(** Three [push_back]s, one [push_front], and the erasure of the middle. *)
Definition demo_heap : heap Z := {[ 1%positive := Node 10 None None ]}.
Definition demo_list : List := mkList (Some 1%positive) (Some 1%positive) 1.

Lemma demo_repr : repr demo_heap demo_list [(1%positive, 10)].
Proof.
  split; [| done]. unfold linked, demo_heap, demo_list. simpl. split_and!; try done.
  apply NoDup_singleton.
Qed.

Lemma list_refines_witness :
  exists h' l', list_exec 1 (OInsert 2%positive None 20) demo_heap demo_list =
      Ret (At (Some 2%positive), h', l') /\
    repr h' l' ([(1%positive, 10)] ++ [(2%positive, 20)]) /\
    (forall a, a ∈ [] -> h' !! a = None) /\ same_outside [1%positive; 2%positive] demo_heap h'.
Proof.
  apply (list_refines 1 (OInsert 2%positive None 20) demo_heap demo_list [(1%positive, 10)]).
  - apply demo_repr.
  - apply (spec_insert demo_heap 2%positive 20 [(1%positive, 10)] []). reflexivity.
  - simpl. lia.
Defined.

(** [move_to(it, it)] makes the node its own successor: a later walk does not end. *)
Example move_to_itself :
  exists h l, List_move_to (Some 1%positive) (Some 1%positive) demo_heap demo_list = Ret (h, l) /\
    get_next (Some 1%positive) h = Ret (Some 1%positive).
Proof. do 2 eexists. split; vm_compute; reflexivity. Qed.
