(* ===== verification/SingleList.v ===== *)
(** * Base/Container/SingleList.hpp: the singly linked list

    As DList.v: the nodes live in a heap of addresses, a [SingleList] object holds the two end
    pointers and the counter.  A position is the node before the place that is meant,
    [before_begin()] being the null pointer.  The copy constructor does not compile (it asks a
    [const] list for [begin()]) and is left out. *)

From stdpp Require Import gmap.
From S2P Require Import Prelude Links.
Local Open Scope Z_scope.

Section SingleList.
Context {D : Type}.

Record node := SNode { _data : D; _next : ptr }.
#[local] Abbreviation heap := (gmap positive node).
#[local] Abbreviation cells := (cells_of D).
Implicit Types (xs ys ms : cells).
Record SingleList := mkSingle { _head : ptr; _tail : ptr; _size : Z }.

Definition single_empty : SingleList := mkSingle None None 0.

(** ** Reads and writes through a pointer *)

Definition deref (p : ptr) (h : heap) : res (positive * node) :=
  match p with
  | None => Fault BadPointer
  | Some a => match h !! a with Some n => Ret (a, n) | None => Fault BadPointer end
  end.
Definition get_data (p : ptr) (h : heap) : res D := '(_, n) ← deref p h; Ret (_data n).
Definition get_next (p : ptr) (h : heap) : res ptr := '(_, n) ← deref p h; Ret (_next n).
Definition set_next (p v : ptr) (h : heap) : res heap := '(a, n) ← deref p h; Ret (<[a := SNode (_data n) v]> h).
Definition delete_node (p : ptr) (h : heap) : res heap := '(a, _) ← deref p h; Ret (delete a h).

Definition with_head p l := mkSingle p (_tail l) (_size l).
Definition with_tail p l := mkSingle (_head l) p (_size l).
Definition grow l := mkSingle (_head l) (_tail l) (u64 (_size l + 1)).
Definition shrink l := mkSingle (_head l) (_tail l) (u64 (_size l - 1)).

(** ** The member functions *)

(** The body the two [insert_after] share; [p] is the new node. *)
Definition link_after (before_dest p : ptr) (h : heap) (l : SingleList) : res (heap * SingleList) :=
  if negb (is_null before_dest) then
    let l := if decide (before_dest = _tail l) then with_tail p l else l in
    n ← get_next before_dest h;
    h ← set_next p n h;
    h ← set_next before_dest p h;
    Ret (h, l)
  else
    '(h, l) ← (if negb (is_null (_head l)) then h ← set_next p (_head l) h; Ret (h, l) else Ret (h, with_tail p l));
    Ret (h, with_head p l).

(** [insert_after(before_dest, args...)]: [a] is the address [new Node] returns.  The iterator it
    returns is null. *)
Definition insert_after (a : positive) (before_dest : ptr) (d : D) (h : heap) (l : SingleList) : res (ptr * heap * SingleList) :=
  '(h, l) ← link_after before_dest (Some a) (<[a := SNode d None]> h) l;
  Ret (None, h, grow l).

(** [insert_after(before_dest, Val&&)]. *)
Definition insert_val_after (before_dest val : ptr) (h : heap) (l : SingleList) : res (ptr * heap * SingleList) :=
  h ← set_next val None h;
  '(h, l) ← link_after before_dest val h l;
  Ret (None, h, grow l).

Definition next_to_after (before_dest before_target : ptr) (h : heap) (l : SingleList) : res (heap * SingleList) :=
  if decide (before_dest = before_target) then Ret (h, l) else
  if negb (is_null before_dest) then
    if negb (is_null before_target) then
      p ← get_next before_target h;
      if is_null p || bool_decide (p = before_dest) then Ret (h, l) else
      let l := if decide (before_dest = _tail l) then with_tail p l else l in
      pn ← get_next p h;
      h ← set_next before_target pn h;
      dn ← get_next before_dest h;
      h ← set_next p dn h;
      h ← set_next before_dest p h;
      Ret (h, l)
    else
      let p := _head l in
      if decide (p = before_dest) then Ret (h, l) else
      let l := if decide (before_dest = _tail l) then with_tail (_head l) l else l in
      hn ← get_next (_head l) h;
      let l := with_head hn l in
      dn ← get_next before_dest h;
      h ← set_next p dn h;
      h ← set_next before_dest p h;
      Ret (h, l)
  else
    p ← get_next before_target h;
    if is_null p then Ret (h, l) else
    let l := if decide (p = _tail l) then with_tail before_target l else l in
    pn ← get_next p h;
    h ← set_next before_target pn h;
    h ← set_next p (_head l) h;
    Ret (h, with_head p l).

(** What [erase_after] and [release_after] do to the links: the node taken out. *)
Definition take_after (before_target : ptr) (h : heap) (l : SingleList) : res (ptr * heap * SingleList) :=
  if negb (is_null before_target) then
    p ← get_next before_target h;
    let l := if decide (p = _tail l) then with_tail before_target l else l in
    pn ← get_next p h;
    h ← set_next before_target pn h;
    Ret (p, h, l)
  else
    let p := _head l in
    let l := if decide (_head l = _tail l) then with_tail None l else l in
    hn ← get_next (_head l) h;
    Ret (p, h, with_head hn l).

Definition erase_after (before_target : ptr) (h : heap) (l : SingleList) : res (heap * SingleList) :=
  if decide (before_target = _tail l) then Ret (h, l) else
  '(p, h, l) ← take_after before_target h l;
  h ← delete_node p h;
  Ret (h, shrink l).

(** The node stays allocated and is handed out as a [Val]. *)
Definition release_after (before_target : ptr) (h : heap) (l : SingleList) : res (ptr * heap * SingleList) :=
  if decide (before_target = _tail l) then Ret (None, h, l) else
  '(p, h, l) ← take_after before_target h l;
  Ret (p, h, shrink l).

(** The loop of [erase_after(before_begin, end)]. *)
Fixpoint erase_loop (fuel : nat) (p e : ptr) (h : heap) (l : SingleList) : res (heap * SingleList) :=
  if decide (p = e) then Ret (h, l) else
  match fuel with
  | O => Fault OutOfFuel
  | S fuel => pn ← get_next p h; h ← delete_node p h; erase_loop fuel pn e h (shrink l)
  end.

Definition erase_range_after (fuel : nat) (before_begin e : ptr) (h : heap) (l : SingleList) : res (heap * SingleList) :=
  if decide (before_begin = _tail l) then Ret (h, l) else
  let l := if is_null e then with_tail before_begin l else l in
  '(p, h, l) ← (if negb (is_null before_begin)
                then p ← get_next before_begin h; h ← set_next before_begin e h; Ret (p, h, l)
                else Ret (_head l, h, with_head e l));
  erase_loop fuel p e h l.

(** The destructor. *)
Fixpoint destroy (fuel : nat) (h : heap) (l : SingleList) : res heap :=
  if is_null (_head l) then Ret h else
  match fuel with
  | O => Fault OutOfFuel
  | S fuel => n ← get_next (_head l) h; h ← delete_node (_head l) h; destroy fuel h (with_head n l)
  end.

(** The move constructor: the new list, and the emptied other. *)
Definition move_from (other : SingleList) : SingleList * SingleList := (mkSingle (_head other) (_tail other) (_size other), single_empty).

(** [++iter] from [begin()] to [end()]. *)
Fixpoint iterate (fuel : nat) (it : ptr) (h : heap) : res (list D) :=
  if is_null it then Ret [] else
  match fuel with
  | O => Fault OutOfFuel
  | S fuel => d ← get_data it h; n ← get_next it h; rest ← iterate fuel n h; Ret (d :: rest)
  end.

(** ** The sequence a heap and a [SingleList] stand for *)

Fixpoint seg (h : heap) (xs : cells) (nxt : ptr) : Prop :=
  match xs with
  | [] => True
  | (a, d) :: xs => h !! a = Some (SNode d (first_ptr xs nxt)) /\ seg h xs nxt
  end.

Definition linked (h : heap) (l : SingleList) (xs : cells) : Prop :=
  seg h xs None /\ NoDup xs.*1 /\ _head l = first_ptr xs None /\ _tail l = last_ptr xs None.
Definition repr (h : heap) (l : SingleList) (xs : cells) : Prop := linked h l xs /\ _size l = u64 (zlen xs).

Lemma single_seg_app h xs ys nxt : seg h (xs ++ ys) nxt <-> seg h xs (first_ptr ys nxt) /\ seg h ys nxt.
Proof. induction xs as [| [a d] xs IH]; simpl; [tauto |]. rewrite IH, first_ptr_app. tauto. Qed.

Lemma single_seg_snoc h xs a d nxt : seg h (xs ++ [(a, d)]) nxt <-> seg h xs (Some a) /\ h !! a = Some (SNode d nxt).
Proof. rewrite single_seg_app. simpl. tauto. Qed.

Lemma single_seg_agree h h' xs nxt : (forall a, a ∈ xs.*1 -> h' !! a = h !! a) -> seg h xs nxt -> seg h' xs nxt.
Proof.
  induction xs as [| [a d] xs IH]; intros Ha; simpl; [done |]. intros [Hd Hs]. rewrite Ha by (left; done). split; [done |].
  apply IH; [| done]. intros b Hb. apply Ha. by right.
Qed.

Lemma single_linked_agree h h' l xs : (forall a, a ∈ xs.*1 -> h' !! a = h !! a) -> linked h l xs -> linked h' l xs.
Proof. intros Ha (Hs & Hr). split; [by eapply single_seg_agree | done]. Qed.

Lemma single_seg_fresh h xs nxt a : seg h xs nxt -> h !! a = None -> a ∉ xs.*1.
Proof.
  induction xs as [| [b d] xs IH]; simpl; [by intros _ _ ?%elem_of_nil |]. intros [Hb Hs] Ha [-> | Hin]%elem_of_cons; [simplify_eq/= | by apply IH].
Qed.

Lemma single_set_next_ok h a n v : h !! a = Some n -> set_next (Some a) v h = Ret (<[a := SNode (_data n) v]> h).
Proof. intros Ha. unfold set_next. simpl. by rewrite Ha. Qed.
Lemma single_get_next_ok h a n : h !! a = Some n -> get_next (Some a) h = Ret (_next n).
Proof. intros Ha. unfold get_next. simpl. by rewrite Ha. Qed.
Lemma get_data_ok h a n : h !! a = Some n -> get_data (Some a) h = Ret (_data n).
Proof. intros Ha. unfold get_data. simpl. by rewrite Ha. Qed.
Lemma single_delete_node_ok h a n : h !! a = Some n -> delete_node (Some a) h = Ret (delete a h).
Proof. intros Ha. unfold delete_node. simpl. by rewrite Ha. Qed.

Ltac heap_step :=
  first [ erewrite single_set_next_ok by (simplify_map_eq; reflexivity) | erewrite single_get_next_ok by (simplify_map_eq; reflexivity)
        | erewrite get_data_ok by (simplify_map_eq; reflexivity) | erewrite single_delete_node_ok by (simplify_map_eq; reflexivity) ]; simpl.
Ltac seg_kept :=
  match goal with |- seg _ _ _ => eapply single_seg_agree; [| eassumption]; intros ?c ?Hc; rewrite ?lookup_insert_ne by not_in; done end.
Ltac untouched := intros ?c ?Hc; rewrite ?lookup_insert_ne by not_in; done.

(** A node is the last one exactly when nothing follows it. *)
Lemma last_here xs p d ys : NoDup (xs ++ (p, d) :: ys).*1 -> Some p = last_ptr (xs ++ (p, d) :: ys) None <-> ys = [].
Proof.
  intros Hnd. split; [| intros ->; by rewrite last_ptr_snoc]. destruct (snoc_cases ys) as [-> | (ys' & b & e & ->)]; [done |].
  rewrite app_comm_cons, app_assoc, last_ptr_snoc. intros [= <-]. nodup. exfalso. not_in.
Qed.

Lemma single_link_after_ok h l xs ys p d nxt0 :
  linked h l (xs ++ ys) -> p ∉ (xs ++ ys).*1 -> h !! p = Some (SNode d nxt0) -> (xs ++ ys = [] -> nxt0 = None) ->
  exists h' l', link_after (last_ptr xs None) (Some p) h l = Ret (h', l') /\ linked h' l' (xs ++ (p, d) :: ys) /\
    _size l' = _size l /\ same_outside (p :: xs.*1) h h'.
Proof.
  intros (Hs & Hnd & Hh & Ht) Hp Hpn Hnone. pose proof (NoDup_mid_fresh xs ys p d Hnd Hp) as Hnd'. apply single_seg_app in Hs as [Hx Hy].
  unfold link_after. destruct (last_ptr_snoc_cases xs) as [[-> Hl] | (xs' & b & f & -> & Hl)]; rewrite Hl; cbn [is_null negb].
  - rewrite Hh. simpl in Hh, Ht. destruct ys as [| [q e] ys]; simpl.
    + rewrite (Hnone eq_refl) in Hpn. eexists _, _. split; [done |]. unfold linked; simpl. split_and!; try done.
    + heap_step. eexists _, _. split; [done |]. assert (p <> q) by not_in. destruct Hy as [Hq Hy]. unfold linked; simpl. split_and!; simplify_map_eq; try done; [seg_kept | untouched].
  - apply single_seg_snoc in Hx as [Hx Hb]. assert (p <> b) by not_in. rewrite Ht. do 3 heap_step.
    assert (Hlink : seg (<[b := SNode f (Some p)]> (<[p := SNode d (first_ptr ys None)]> h)) ((xs' ++ [(b, f)]) ++ (p, d) :: ys) None).
    { rewrite single_seg_app, single_seg_snoc. simpl. split_and!; simplify_map_eq; try done; seg_kept. }
    assert (Hout : same_outside (p :: (xs' ++ [(b, f)]).*1) h (<[b := SNode f (Some p)]> (<[p := SNode d (first_ptr ys None)]> h))) by untouched.
    assert (Hfirst : forall zs, first_ptr ((xs' ++ [(b, f)]) ++ zs) None = first_ptr (xs' ++ [(b, f)]) None) by (intros zs; by destruct xs' as [| []]).
    pose proof (last_here xs' b f ys) as Hlast. rewrite cons_middle, app_assoc in Hlast. specialize (Hlast Hnd). case_decide as E.
    + apply Hlast in E as ->. eexists _, _. split; [done |]. unfold linked; simpl. split_and!; try done; [by rewrite Hh, !Hfirst | by rewrite last_ptr_app].
    + assert (ys <> []) by (intros ->; by apply E, Hlast). eexists _, _. split; [done |]. unfold linked; simpl. split_and!; try done; [by rewrite Hh, !Hfirst |].
      rewrite Ht, !last_ptr_app. simpl. by destruct ys as [| []].
Qed.

Lemma take_after_ok h l xs p d ys : linked h l (xs ++ (p, d) :: ys) ->
  exists h' l', take_after (last_ptr xs None) h l = Ret (Some p, h', l') /\ linked h' l' (xs ++ ys) /\ _size l' = _size l /\
    p ∉ (xs ++ ys).*1 /\ h' !! p = Some (SNode d (first_ptr ys None)) /\ same_outside xs.*1 h h' /\ (ys <> [] -> _tail l' = _tail l).
Proof.
  intros (Hs & Hnd & Hh & Ht). apply single_seg_app in Hs as [Hx [Hp Hy]].
  assert (Hnd' : NoDup (xs ++ ys).*1 /\ p ∉ (xs ++ ys).*1).
  { rewrite fmap_app. nodup. rewrite list.NoDup_app, not_elem_of_app. split_and!; try done; [intros c Hc; not_in | not_in]. }
  destruct Hnd' as [Hnd' Hpf]. pose proof (last_here _ _ _ _ Hnd) as Hlast. rewrite <- Ht in Hlast.
  assert (Hlast2 : ys <> [] -> last_ptr (xs ++ (p, d) :: ys) None = last_ptr (xs ++ ys) None) by (intros; rewrite !last_ptr_app; by destruct ys as [| []]).
  unfold take_after. destruct (last_ptr_snoc_cases xs) as [[-> Hl] | (xs' & b & f & -> & Hl)]; rewrite Hl; cbn [is_null negb].
  - simpl in Hh. rewrite Hh. case_decide as E; cbn [_head with_tail]; rewrite Hh; heap_step.
    + apply Hlast in E as ->. eexists _, _. split; [done |]. unfold linked; simpl. split_and!; try done.
    + assert (ys <> []) by (intros ->; by apply E, Hlast). eexists _, _. split; [done |]. unfold linked; simpl. split_and!; try done. by rewrite Ht, Hlast2.
  - apply single_seg_snoc in Hx as [Hx Hb]. assert (b <> p) by not_in. do 3 heap_step.
    assert (Hseg : seg (<[b := SNode f (first_ptr ys None)]> h) ((xs' ++ [(b, f)]) ++ ys) None).
    { rewrite single_seg_app, single_seg_snoc. split_and!; simplify_map_eq; try done; seg_kept. }
    assert (Hfirst : forall zs, first_ptr ((xs' ++ [(b, f)]) ++ zs) None = first_ptr (xs' ++ [(b, f)]) None) by (intros zs; by destruct xs' as [| []]).
    case_decide as E.
    + apply Hlast in E as ->. eexists _, _. split; [done |]. unfold linked; simpl. rewrite Hfirst in *. split_and!; simplify_map_eq; try done; [by rewrite app_nil_r, Hl | untouched].
    + assert (ys <> []) by (intros ->; by apply E, Hlast). eexists _, _. split; [done |]. unfold linked; simpl. rewrite Hfirst in *. split_and!; simplify_map_eq; try done; [by rewrite Ht, Hlast2 | untouched].
Qed.

(** ** The operations *)

Lemma size_grow l xs ys p d : _size l = u64 (zlen (xs ++ ys)) -> _size (grow l) = u64 (zlen (xs ++ (p, d) :: ys)).
Proof.
  intros Hz. simpl. rewrite Hz. unfold u64, zlen. rewrite !length_app. simpl. rewrite Zplus_mod_idemp_l. f_equal. lia.
Qed.
Lemma size_shrink l xs ys p d : _size l = u64 (zlen (xs ++ (p, d) :: ys)) -> _size (shrink l) = u64 (zlen (xs ++ ys)).
Proof.
  intros Hz. simpl. rewrite Hz. unfold u64, zlen. rewrite !length_app. simpl. rewrite Zminus_mod_idemp_l. f_equal. lia.
Qed.

Lemma single_insert_val_ok h l xs ys p n : repr h l (xs ++ ys) -> p ∉ (xs ++ ys).*1 -> h !! p = Some n ->
  exists h' l', insert_val_after (last_ptr xs None) (Some p) h l = Ret (None, h', l') /\ repr h' l' (xs ++ (p, _data n) :: ys) /\
    same_outside (p :: xs.*1) h h'.
Proof.
  intros [Hl Hz] Hp Hn. unfold insert_val_after. heap_step.
  destruct (single_link_after_ok (<[p := SNode (_data n) None]> h) l xs ys p (_data n) None) as (h' & l' & E & Hl' & Hz' & Ho); [| done | by simplify_map_eq | done |].
  { eapply single_linked_agree; [| done]. intros a Ha. apply lookup_insert_ne. by intros ->. }
  rewrite E. eexists _, _. split; [done |]. split; [split; [done |] |].
  - apply size_grow. by rewrite Hz'.
  - intros a Ha. rewrite Ho by done. apply lookup_insert_ne. intros ->. by apply Ha; left.
Qed.

Lemma single_insert_ok h l xs ys a d : repr h l (xs ++ ys) -> h !! a = None ->
  exists h' l', insert_after a (last_ptr xs None) d h l = Ret (None, h', l') /\ repr h' l' (xs ++ (a, d) :: ys) /\ same_outside (a :: xs.*1) h h'.
Proof.
  intros [Hl Hz] Ha. assert (Hf : a ∉ (xs ++ ys).*1) by (destruct Hl as [Hs _]; by eapply single_seg_fresh). unfold insert_after.
  destruct (single_link_after_ok (<[a := SNode d None]> h) l xs ys a d None) as (h' & l' & E & Hl' & Hz' & Ho); [| done | by simplify_map_eq | done |].
  { eapply single_linked_agree; [| done]. intros b Hb. apply lookup_insert_ne. by intros ->. }
  rewrite E. eexists _, _. split; [done |]. split; [split; [done |] |].
  - apply size_grow. by rewrite Hz'.
  - intros b Hb. rewrite Ho by done. apply lookup_insert_ne. intros ->. by apply Hb; left.
Qed.

(** The position before a node is not the last one. *)
Lemma before_not_tail h l xs p d ys : linked h l (xs ++ (p, d) :: ys) -> last_ptr xs None <> _tail l.
Proof.
  intros (_ & Hnd & _ & ->). rewrite last_ptr_app. simpl. destruct (last_ptr_snoc_cases xs) as [[-> ->] | (xs' & b & f & -> & ->)].
  - destruct (snoc_cases ys) as [-> | (ys' & c & e & ->)]; [done | by rewrite last_ptr_snoc].
  - rewrite <- app_assoc in Hnd. simpl in Hnd. pose proof (last_here _ _ _ _ Hnd) as [Hlast _]. rewrite last_ptr_app in Hlast. simpl in Hlast.
    intros E. by specialize (Hlast E).
Qed.

Lemma after_last h l xs : linked h l xs -> last_ptr xs None = _tail l.
Proof. by intros (_ & _ & _ & ->). Qed.

Lemma single_release_ok h l xs p d ys : repr h l (xs ++ (p, d) :: ys) ->
  exists h' l' q, release_after (last_ptr xs None) h l = Ret (Some p, h', l') /\ repr h' l' (xs ++ ys) /\
    h' !! p = Some (SNode d q) /\ p ∉ (xs ++ ys).*1 /\ same_outside xs.*1 h h'.
Proof.
  intros [Hl Hz]. unfold release_after. rewrite decide_False by (by eapply before_not_tail).
  destruct (take_after_ok _ _ _ _ _ _ Hl) as (h' & l' & E & Hl' & Hz' & Hp & Hn & Ho & _). rewrite E. eexists _, _, _. split; [done |].
  split_and!; try done. split; [done |]. eapply size_shrink. by rewrite Hz'.
Qed.

Lemma single_erase_ok h l xs p d ys : repr h l (xs ++ (p, d) :: ys) ->
  exists h' l', erase_after (last_ptr xs None) h l = Ret (h', l') /\ repr h' l' (xs ++ ys) /\ h' !! p = None /\ same_outside (p :: xs.*1) h h'.
Proof.
  intros [Hl Hz]. unfold erase_after. rewrite decide_False by (by eapply before_not_tail).
  destruct (take_after_ok _ _ _ _ _ _ Hl) as (h' & l' & E & Hl' & Hz' & Hp & Hn & Ho & _). rewrite E. simpl. heap_step. eexists _, _. split; [done |].
  split_and!; [split | by simplify_map_eq |].
  - apply (single_linked_agree h'); [| done]. intros a Ha. apply lookup_delete_ne. by intros ->.
  - eapply size_shrink. by rewrite Hz'.
  - intros a Ha. rewrite lookup_delete_ne by (intros ->; by apply Ha; left). apply Ho. intros Hin. by apply Ha; right.
Qed.

(** Moving a node that is not the last one is taking it out and linking it in again. *)
Lemma next_to_after_split dest target h l p h1 l1 : dest <> target -> take_after target h l = Ret (Some p, h1, l1) -> dest <> Some p ->
  _head l <> None -> (dest = None \/ _tail l <> Some p) ->
  next_to_after dest target h l = link_after dest (Some p) h1 l1.
Proof.
  intros Hne Htake Hp Hhead Htail. unfold next_to_after, take_after, link_after in *. rewrite decide_False by done.
  destruct dest as [b |], target as [t |]; cbn [is_null negb] in *; try done.
  - apply bind_Ret_inv in Htake as (q & Eq & Htake). apply bind_Ret_inv in Htake as (qn & Eqn & Htake).
    apply bind_Ret_inv in Htake as (h2 & Eh & Htake). injection Htake as -> -> <-. rewrite Eq, bind_ret. cbn [is_null orb].
    rewrite bool_decide_eq_false_2 by done. rewrite (decide_False (P := Some p = _tail l)) by naive_solver.
    rewrite Eqn, bind_ret, Eh. done.
  - apply bind_Ret_inv in Htake as (hn & Eh & Htake). injection Htake as Hhp -> <-.
    rewrite Hhp in *. rewrite (decide_False (P := Some p = _tail l)) in * by naive_solver. rewrite Hhp in *.
    rewrite (decide_False (P := Some p = Some b)) by naive_solver. cbn [_tail with_head]. case_decide; cbn [_head with_tail]; by rewrite ?Hhp, Eh.
  - apply bind_Ret_inv in Htake as (q & Eq & Htake). apply bind_Ret_inv in Htake as (qn & Eqn & Htake).
    apply bind_Ret_inv in Htake as (h2 & Eh & Htake). injection Htake as -> -> <-. rewrite Eq, bind_ret. cbn [is_null].
    rewrite Eqn, bind_ret, Eh, bind_ret. case_decide; cbn [_head with_tail];
      (destruct (_head l) as [q |]; [cbn [is_null negb]; by destruct (set_next _ _ h1) | done]).
Qed.

Lemma first_of_nonempty xs p d ys : first_ptr (xs ++ (p, d) :: ys) None <> None.
Proof. by destruct xs as [| []]. Qed.

(** Two positions of a sequence are equal only if they split it in the same place. *)
Lemma last_ptr_inj xs ys zs1 zs2 : NoDup (xs ++ ys).*1 -> xs ++ ys = zs1 ++ zs2 -> last_ptr xs None = last_ptr zs1 None -> xs = zs1 /\ ys = zs2.
Proof.
  intros Hnd He Hl. destruct (last_ptr_snoc_cases xs) as [[-> Hx] | (xs' & b & f & -> & Hx)], (last_ptr_snoc_cases zs1) as [[-> Hz] | (zs' & c & e & -> & Hz)];
    rewrite ?Hx, ?Hz in Hl; try done.
  injection Hl as ->. rewrite <- !app_assoc in He. cbn [app] in He. rewrite <- app_assoc in Hnd. cbn [app] in Hnd. clear Hx Hz.
  revert zs' He Hnd. induction xs' as [| [a g] xs' IH]; intros [| [a' g'] zs'] He Hnd; cbn [app] in *.
  - by injection He as -> ->.
  - injection He as -> -> ->. exfalso. nodup. congruence.
  - injection He as -> -> <-. exfalso. nodup. congruence.
  - injection He as -> -> He. rewrite fmap_cons in Hnd; apply list.NoDup_cons in Hnd as [_ Hnd]. destruct (IH zs' He Hnd) as [Hxs ->]. split; [| done].
    f_equal. by apply app_inj_tail in Hxs as [-> ->] || (by rewrite Hxs).
Qed.

Lemma next_to_after_ok h l xs p d ys zs1 zs2 : repr h l (xs ++ (p, d) :: ys) -> xs ++ ys = zs1 ++ zs2 -> (ys <> [] \/ zs1 = [] \/ zs1 = xs) ->
  exists h' l', next_to_after (last_ptr zs1 None) (last_ptr xs None) h l = Ret (h', l') /\ repr h' l' (zs1 ++ (p, d) :: zs2) /\
    same_outside (p :: (xs ++ ys).*1) h h'.
Proof.
  intros [Hl Hz] He Hend. destruct (take_after_ok _ _ _ _ _ _ Hl) as (h1 & l1 & E1 & Hl1 & Hz1 & Hp & Hn & Ho1 & _).
  destruct (decide (last_ptr zs1 None = last_ptr xs None)) as [Hsame | Hne].
  { destruct (last_ptr_inj zs1 zs2 xs ys) as [-> ->]; [| done | done |]; [rewrite <- He; apply Hl1 |].
    unfold next_to_after. rewrite decide_True by done. eexists _, _. split; [done |]. by split. }
  assert (Hpz : last_ptr zs1 None <> Some p).
  { rewrite He in Hp. destruct (last_ptr_snoc_cases zs1) as [[_ ->] | (zs' & b & f & -> & ->)]; [done |]. intros [= ->]. apply Hp. rewrite !fmap_app. set_solver. }
  rewrite (next_to_after_split _ _ _ _ _ _ _ Hne E1); [| done | | ].
  - destruct (single_link_after_ok h1 l1 zs1 zs2 p d (first_ptr ys None)) as (h2 & l2 & E2 & Hl2 & Hz2 & Ho2); [by rewrite <- He | by rewrite <- He | done | |].
    { rewrite <- He. by intros [_ ->]%app_eq_nil. }
    rewrite E2. eexists _, _. split; [done |]. split; [split; [done |] |].
    + rewrite Hz2, Hz1, Hz. f_equal. unfold zlen. rewrite !length_app in *. simpl. assert (length (xs ++ ys) = length (zs1 ++ zs2)) by (by rewrite He). rewrite !length_app in *. lia.
    + eapply same_outside_trans; [exact Ho1 | exact Ho2 | |]; [rewrite fmap_app | rewrite He, fmap_app]; set_solver.
  - destruct Hl as (_ & _ & -> & _). by destruct xs as [| []].
  - destruct Hend as [Hy | [-> | ->]]; [| by left | done]. right. destruct Hl as (_ & Hnd & _ & Ht). intros E. rewrite Ht in E. symmetry in E. by apply last_here in E.
Qed.

Lemma single_erase_loop_ok fuel h l ms e : seg h ms e -> NoDup ms.*1 -> (forall q, e = Some q -> q ∉ ms.*1) -> (length ms <= fuel)%nat ->
  exists h', erase_loop fuel (first_ptr ms e) e h l = Ret (h', mkSingle (_head l) (_tail l) (_size (Nat.iter (length ms) shrink l))) /\
    (forall a, a ∈ ms.*1 -> h' !! a = None) /\ same_outside ms.*1 h h'.
Proof.
  revert fuel h l. induction ms as [| [a d] ms IH]; intros fuel h l Hs Hnd He Hf.
  - exists h. simpl. split_and!; [| set_solver | done]. destruct fuel; simpl; rewrite decide_True by done; by destruct l.
  - destruct Hs as [Ha Hs]. apply list.NoDup_cons in Hnd as [Hna Hnd]. destruct fuel as [| fuel]; [simpl in Hf; lia |]. cbn [length erase_loop first_ptr].
    rewrite decide_False by (intros <-; apply (He a); [done | left]). do 2 heap_step.
    destruct (IH fuel (delete a h) (shrink l)) as (h' & E & Hd & Ho); [| done | | simpl in Hf; lia |].
    + eapply single_seg_agree; [| done]. intros c Hc. rewrite lookup_delete_ne; [done | by intros ->].
    + intros q Hq Hin. apply (He q Hq). by right.
    + rewrite E. exists h'. split; [| split].
      * do 3 f_equal. clear. generalize (length ms) as n. induction n as [| n IHn]; [done |]. simpl. by rewrite IHn.
      * intros c [-> | Hc]%elem_of_cons; [| by apply Hd]. rewrite Ho by done. by simplify_map_eq.
      * intros c Hc. rewrite Ho by set_solver. rewrite lookup_delete_ne; [done | set_solver].
Qed.

Lemma single_size_iter_shrink n l z : _size l = u64 (z + Z.of_nat n) -> _size (Nat.iter n shrink l) = u64 z.
Proof.
  revert z. induction n as [| n IH]; intros z Hz; simpl; [rewrite Hz; f_equal; lia |].
  rewrite (IH (z + 1)) by (rewrite Hz; f_equal; lia). unfold u64. rewrite Zminus_mod_idemp_l. f_equal. lia.
Qed.

(** Closing the gap: the node the loop starts with, and the list without the nodes between. *)
Lemma single_close_gap_ok h l xs ms ys : linked h l (xs ++ ms ++ ys) -> ms ++ ys <> [] ->
  let l0 := if is_null (first_ptr ys None) then with_tail (last_ptr xs None) l else l in
  exists h' l', (if negb (is_null (last_ptr xs None))
                 then p ← get_next (last_ptr xs None) h; h ← set_next (last_ptr xs None) (first_ptr ys None) h; Ret (p, h, l0)
                 else Ret (_head l0, h, with_head (first_ptr ys None) l0)) = Ret (first_ptr (ms ++ ys) None, h', l') /\
    linked h' l' (xs ++ ys) /\ _size l' = _size l /\ same_outside xs.*1 h h'.
Proof.
  intros (Hs & Hnd & Hh & Ht) Hne l0. apply single_seg_app in Hs as [Hx Hs]. apply single_seg_app in Hs as [Hm Hy].
  assert (Hl0 : _head l0 = _head l /\ _size l0 = _size l /\ _tail l0 = last_ptr (xs ++ ys) None).
  { unfold l0. destruct ys as [| [q e] ys]; simpl; [by rewrite app_nil_r |]. rewrite Ht, !last_ptr_app. done. }
  destruct Hl0 as (Hh0 & Hz0 & Ht0). assert (Hnd' : NoDup (xs ++ ys).*1).
  { rewrite fmap_app. nodup. rewrite list.NoDup_app. split_and!; try done. intros c Hc. not_in. }
  destruct (last_ptr_snoc_cases xs) as [[-> Hl] | (xs' & b & f & -> & Hl)]; rewrite Hl; cbn [is_null negb].
  - rewrite Hh0, Hh. eexists _, _. split; [done |]. unfold linked. cbn [_head _tail _size with_head]. split_and!; done.
  - apply single_seg_snoc in Hx as [Hx Hb]. do 2 heap_step. eexists _, _. split; [done |]. unfold linked. split_and!; try done.
    + rewrite single_seg_app, single_seg_snoc. simplify_map_eq. split_and!; try done; seg_kept.
    + rewrite Hh0, Hh. by destruct xs' as [| []].
    + untouched.
Qed.

Lemma single_erase_range_ok fuel h l xs ms ys : repr h l (xs ++ ms ++ ys) -> (length ms <= fuel)%nat ->
  exists h' l', erase_range_after fuel (last_ptr xs None) (first_ptr ys None) h l = Ret (h', l') /\ repr h' l' (xs ++ ys) /\
    (forall a, a ∈ ms.*1 -> h' !! a = None) /\ same_outside ((xs ++ ms).*1) h h'.
Proof.
  intros [Hl Hz] Hf. unfold erase_range_after. destruct (ms ++ ys) as [| [p d] rest] eqn:E.
  { apply app_eq_nil in E as [-> ->]. rewrite app_nil_r in *. rewrite decide_True by (by eapply after_last). eexists _, _. split; [done |]. split_and!; [by split | set_solver | done]. }
  rewrite decide_False by (by eapply before_not_tail). assert (Hne : ms ++ ys <> []) by (by rewrite E). rewrite <- E in *. clear E.
  pose proof Hl as (Hs & Hnd & _). apply single_seg_app in Hs as [_ Hs]. apply single_seg_app in Hs as [Hm _].
  destruct (single_close_gap_ok h l xs ms ys Hl Hne) as (h1 & l1 & E1 & Hl1 & Hz1 & Ho1). cbv zeta in E1. rewrite E1, bind_ret, first_ptr_app.
  destruct (single_erase_loop_ok fuel h1 l1 ms (first_ptr ys None)) as (h2 & E2 & Hd2 & Ho2); [| by nodup | | done |].
  { eapply single_seg_agree; [| done]. intros a Ha. apply Ho1. not_in. }
  { intros q Hq. destruct ys as [| [q' e] ys]; [done |]. injection Hq as ->. not_in. }
  rewrite E2. eexists _, _. split; [done |]. split_and!; [split | done |].
  - change (linked h2 (mkSingle (_head l1) (_tail l1) (_size (Nat.iter (length ms) shrink l1))) (xs ++ ys)).
    destruct Hl1 as (Hs1 & Hr1). split; [| done]. eapply single_seg_agree; [| done].
    intros a Ha. apply Ho2. rewrite fmap_app in Ha. apply elem_of_app in Ha as [Ha | Ha]; not_in.
  - simpl. apply single_size_iter_shrink. rewrite Hz1, Hz. f_equal. unfold zlen. rewrite !length_app. lia.
  - eapply same_outside_trans; [exact Ho1 | exact Ho2 | |]; rewrite !fmap_app; set_solver.
Qed.

(** ** Every operation at once *)

Inductive list_op :=
  | InsertAfter (a : positive) (before_dest : ptr) (d : D)
  | InsertVal (before_dest val : ptr)
  | EraseAfter (before_target : ptr)
  | ReleaseAfter (before_target : ptr)
  | NextTo (before_dest before_target : ptr)
  | EraseRange (before_begin e : ptr)
  | Walk
  | MoveConstruct
  | Destroy.

(** What a call returns: nothing, an iterator (which is null) or the node of a [Val], the
    elements a walk from [begin()] to [end()] saw, or the list a move constructor emptied. *)
Inductive list_answer := Nothing | At (p : ptr) | Elements (ds : list D) | Other (l : SingleList).

(** After the destructor there is no list, which is as good as an empty one. *)
Definition list_exec (fuel : nat) (o : list_op) (h : heap) (l : SingleList)
    : res (list_answer * heap * SingleList) :=
  let unit_ m := '(h, l) ← m; Ret (Nothing, h, l) in
  let iter m := '(p, h, l) ← m; Ret (At p, h, l) in
  match o with
  | InsertAfter a before_dest d => iter (insert_after a before_dest d h l)
  | InsertVal before_dest val => iter (insert_val_after before_dest val h l)
  | EraseAfter before_target => unit_ (erase_after before_target h l)
  | ReleaseAfter before_target => iter (release_after before_target h l)
  | NextTo before_dest before_target => unit_ (next_to_after before_dest before_target h l)
  | EraseRange before_begin e => unit_ (erase_range_after fuel before_begin e h l)
  | Walk => ds ← iterate fuel (_head l) h; Ret (Elements ds, h, l)
  | MoveConstruct => let '(l', other) := move_from l in Ret (Other other, h, l')
  | Destroy => h ← destroy fuel h l; Ret (Nothing, h, single_empty)
  end.

(** What an operation does to the sequence, what it answers and which nodes it frees.  A
    position is the address of the node before it, or [None] for [before_begin()].  A node
    that was released keeps its element.  The last node is moved to the front or not at all:
    elsewhere [_tail] would be wrong. *)
Inductive list_spec (h : heap) : list_op -> cells -> list_answer -> cells -> list positive -> Prop :=
  | spec_insert a d xs ys : h !! a = None ->
      list_spec h (InsertAfter a (last_ptr xs None) d) (xs ++ ys) (At None) (xs ++ (a, d) :: ys) []
  | spec_insert_val p n xs ys : h !! p = Some n -> p ∉ (xs ++ ys).*1 ->
      list_spec h (InsertVal (last_ptr xs None) (Some p)) (xs ++ ys) (At None) (xs ++ (p, _data n) :: ys) []
  | spec_erase_nothing xs : list_spec h (EraseAfter (last_ptr xs None)) xs Nothing xs []
  | spec_erase p d xs ys :
      list_spec h (EraseAfter (last_ptr xs None)) (xs ++ (p, d) :: ys) Nothing (xs ++ ys) [p]
  | spec_release_nothing xs : list_spec h (ReleaseAfter (last_ptr xs None)) xs (At None) xs []
  | spec_release p d xs ys :
      list_spec h (ReleaseAfter (last_ptr xs None)) (xs ++ (p, d) :: ys) (At (Some p)) (xs ++ ys) []
  | spec_next_to p d xs ys zs1 zs2 : xs ++ ys = zs1 ++ zs2 -> (ys <> [] \/ zs1 = [] \/ zs1 = xs) ->
      list_spec h (NextTo (last_ptr zs1 None) (last_ptr xs None)) (xs ++ (p, d) :: ys) Nothing
        (zs1 ++ (p, d) :: zs2) []
  | spec_next_to_itself p d xs ys :
      list_spec h (NextTo (Some p) (last_ptr xs None)) (xs ++ (p, d) :: ys) Nothing (xs ++ (p, d) :: ys) []
  | spec_next_to_nothing zs1 zs2 :
      list_spec h (NextTo (last_ptr zs1 None) (last_ptr (zs1 ++ zs2) None)) (zs1 ++ zs2) Nothing (zs1 ++ zs2) []
  | spec_range xs ms ys :
      list_spec h (EraseRange (last_ptr xs None) (first_ptr ys None)) (xs ++ ms ++ ys) Nothing (xs ++ ys) ms.*1
  | spec_walk xs : list_spec h Walk xs (Elements xs.*2) xs []
  | spec_move_construct xs : list_spec h MoveConstruct xs (Other single_empty) xs []
  | spec_destroy xs : list_spec h Destroy xs Nothing [] xs.*1.

(** The node is where it should go already. *)
Lemma next_to_itself h l xs p d ys :
  linked h l (xs ++ (p, d) :: ys) -> next_to_after (Some p) (last_ptr xs None) h l = Ret (h, l).
Proof.
  intros Hl. unfold next_to_after. case_decide as He; [done |]. cbn [is_null negb].
  destruct (last_ptr_snoc_cases xs) as [[-> E] | (xs' & b & f & -> & E)]; rewrite E in *; cbn [is_null negb].
  - destruct Hl as (_ & _ & Hh & _). by rewrite decide_True by exact Hh.
  - destruct Hl as (Hs & _). rewrite <- app_assoc in Hs. apply single_seg_app in Hs as [_ Hs].
    destruct Hs as [Hb _]. heap_step. by rewrite bool_decide_true by done.
Qed.

(** There is no node behind the last one. *)
Lemma next_to_nothing h l zs1 zs2 :
  linked h l (zs1 ++ zs2) ->
  next_to_after (last_ptr zs1 None) (last_ptr (zs1 ++ zs2) None) h l = Ret (h, l).
Proof.
  intros Hl. unfold next_to_after. case_decide as He; [done |].
  destruct (last_ptr_snoc_cases (zs1 ++ zs2)) as [[Hz E] | (xs' & b & f & Hz & E)]; rewrite E in *.
  { apply app_eq_nil in Hz as [-> ->]. done. }
  destruct Hl as (Hs & _). rewrite Hz in Hs. apply single_seg_app in Hs as [_ [Hb _]]. cbn [is_null negb].
  destruct (is_null (last_ptr zs1 None)); cbn [negb]; by heap_step.
Qed.

(** Walking from [begin()] to [end()] visits the elements in order. *)
Lemma single_iterate_ok fuel h xs : seg h xs None -> (length xs <= fuel)%nat -> iterate fuel (first_ptr xs None) h = Ret xs.*2.
Proof.
  revert fuel. induction xs as [| [a d] xs IH]; intros fuel Hs Hf; [by destruct fuel |].
  destruct Hs as [Ha Hs]. destruct fuel as [| fuel]; [simpl in Hf; lia |]. cbn [iterate first_ptr is_null]. do 2 heap_step.
  by rewrite (IH _ Hs) by (simpl in Hf; lia).
Qed.

(** The destructor frees the nodes of the list and nothing else. *)
Lemma single_destroy_ok fuel xs : forall h l, seg h xs None -> NoDup xs.*1 -> _head l = first_ptr xs None -> (length xs <= fuel)%nat ->
  exists h', destroy fuel h l = Ret h' /\ (forall a, a ∈ xs.*1 -> h' !! a = None) /\ same_outside xs.*1 h h'.
Proof.
  revert fuel. induction xs as [| [a d] xs IH]; intros fuel h l Hs Hnd Hh Hf.
  - exists h. destruct fuel; simpl; rewrite Hh; (split_and!; [done | by intros a ?%elem_of_nil | done]).
  - destruct Hs as [Ha Hs]. rewrite fmap_cons in *. apply list.NoDup_cons in Hnd as [Hna Hnd]. destruct fuel as [| fuel]; [simpl in Hf; lia |].
    cbn [destroy]. rewrite Hh. cbn [first_ptr is_null fst]. do 2 heap_step.
    destruct (IH fuel (delete a h) (with_head (first_ptr xs None) l)) as (h' & E & Hd & Ho); [| done | done | simpl in Hf; lia |].
    + eapply single_seg_agree; [| done]. intros c Hc. rewrite lookup_delete_ne; [done | by intros ->].
    + exists h'. split_and!; [done | |].
      * intros c [-> | Hc]%elem_of_cons; [| by apply Hd]. rewrite Ho by done. by simplify_map_eq.
      * intros c Hc. rewrite Ho by set_solver. rewrite lookup_delete_ne; [done | set_solver].
Qed.
(** C30. The member functions of [SingleList] ([insert_after] of a value and of a released node, both
    [erase_after], [release_after], [next_to_after], a walk with the iterators, the move
    constructor and the destructor), started on a heap that holds a list: each returns (no null
    dereference, no pointer to a freed node, no loop without end) with the answer of the sequence
    operation and leaves a heap that holds the sequence it gives, the right counter and the right
    last node included; the nodes it frees are freed, and every node that is neither freed nor in
    the new list is as it was, a released one included.  Left out: moving
    the last node somewhere else than to the front, which breaks the list
    ([next_to_after_loses_tail]), and the copy constructor, which does not compile. *)
Theorem single_list_refines fuel o h l xs ans xs' freed :
  repr h l xs -> list_spec h o xs ans xs' freed -> (length xs <= fuel)%nat ->
  exists h' l', list_exec fuel o h l = Ret (ans, h', l') /\ repr h' l' xs' /\
    (forall a, a ∈ freed -> h' !! a = None) /\ same_outside (xs'.*1 ++ freed) h h'.
Proof.
  intros Hr Ho Hf. destruct Ho as [a d xs ys Ha | p n xs ys Hn Hp | xs | p d xs ys | xs | p d xs ys
    | p d xs ys zs1 zs2 He Hend | p d xs ys | zs1 zs2 | xs ms ys | xs | xs | xs]; cbn [list_exec].
  - destruct (single_insert_ok _ _ _ _ a d Hr Ha) as (h' & l' & E & Hr' & Hs). rewrite E. eexists _, _. split_and!; [done | done | set_solver |].
    eapply same_outside_weaken; [exact Hs |]. rewrite fmap_app. set_solver.
  - destruct (single_insert_val_ok _ _ _ _ p n Hr Hp Hn) as (h' & l' & E & Hr' & Hs). rewrite E. eexists _, _. split_and!; [done | done | set_solver |].
    eapply same_outside_weaken; [exact Hs |]. rewrite fmap_app. set_solver.
  - unfold erase_after. rewrite decide_True by (destruct Hr as [Hl _]; by eapply after_last). eexists _, _. split_and!; [done | done | set_solver | done].
  - destruct (single_erase_ok _ _ _ _ _ _ Hr) as (h' & l' & E & Hr' & Hd & Hs). rewrite E. eexists _, _. split_and!; [done | done | set_solver |].
    eapply same_outside_weaken; [exact Hs |]. rewrite fmap_app. set_solver.
  - unfold release_after. rewrite decide_True by (destruct Hr as [Hl _]; by eapply after_last). eexists _, _. split_and!; [done | done | set_solver | done].
  - destruct (single_release_ok _ _ _ _ _ _ Hr) as (h' & l' & q & E & Hr' & _ & _ & Hs). rewrite E. eexists _, _. split_and!; [done | done | set_solver |].
    eapply same_outside_weaken; [exact Hs |]. rewrite fmap_app. set_solver.
  - destruct (next_to_after_ok _ _ _ _ _ _ _ _ Hr He Hend) as (h' & l' & E & Hr' & Hs). rewrite E. eexists _, _. split_and!; [done | done | set_solver |].
    eapply same_outside_weaken; [exact Hs |]. rewrite He, !fmap_app, fmap_cons. set_solver.
  - rewrite (next_to_itself h l xs p d ys) by apply Hr. eexists _, _. split_and!; [done | done | set_solver | done].
  - rewrite (next_to_nothing h l zs1 zs2) by apply Hr. eexists _, _. split_and!; [done | done | set_solver | done].
  - rewrite !length_app in Hf. destruct (single_erase_range_ok fuel _ _ _ _ _ Hr) as (h' & l' & E & Hr' & Hd & Hs); [lia |]. rewrite E. eexists _, _. split_and!; [done | done | done |].
    eapply same_outside_weaken; [exact Hs |]. rewrite !fmap_app. set_solver.
  - pose proof Hr as [(Hs & _ & Hh & _) _]. rewrite Hh, (single_iterate_ok fuel h xs Hs Hf). eexists _, _. split_and!; [done | done | set_solver | done].
  - eexists _, _. split_and!; [done | | set_solver | done]. destruct Hr as [Hl Hz]. by split.
  - pose proof Hr as [(Hs & Hnd & Hh & _) _]. destruct (single_destroy_ok fuel xs h l Hs Hnd Hh Hf) as (h' & E & Hd & Ho). rewrite E.
    eexists _, _. split_and!; [done | | done | done]. split; [| done]. unfold linked. simpl. split_and!; try done. constructor.
Qed.
End SingleList.
Arguments node : clear implicits.

(** ** Concrete runs *)

Definition demo_heap : gmap positive (node Z) := {[ 1%positive := SNode 10 (Some 2%positive); 2%positive := SNode 20 None ]}.
Definition demo_list : SingleList := mkSingle (Some 1%positive) (Some 2%positive) 2.

Lemma single_demo_repr : repr demo_heap demo_list [(1%positive, 10); (2%positive, 20)].
Proof. split; [| done]. unfold linked. simpl. split_and!; try done. apply (bool_decide_unpack _). by vm_compute. Qed.

Lemma single_list_refines_witness :
  exists h' l', list_exec 2 (NextTo (Some 2%positive) None) demo_heap demo_list = Ret (Nothing, h', l') /\
    repr h' l' [(2%positive, 20); (1%positive, 10)] /\
    (forall a, a ∈ [] -> h' !! a = None) /\ same_outside [2%positive; 1%positive] demo_heap h'.
Proof.
  apply (single_list_refines 2 (NextTo (Some 2%positive) None) demo_heap demo_list [(1%positive, 10); (2%positive, 20)]).
  - apply single_demo_repr.
  - apply (spec_next_to demo_heap 1%positive 10 [] [(2%positive, 20)] [(2%positive, 20)] []); [done | by left].
  - simpl. lia.
Defined.

(** The list 10, 20, 30; its last node moves behind the first one.  [tail()] is still that node,
    and what is inserted behind it is in the middle: 40 comes before 20. *)
Example next_to_after_loses_tail :
  match (
    '(_, h, l) ← insert_after 3 (Some 2%positive) 30 demo_heap demo_list;
    '(h, l) ← next_to_after (Some 1%positive) (Some 2%positive) h l;
    '(_, h, l) ← insert_after 4 (_tail l) 40 h l;
    iterate 9 (_head l) h) with Ret xs => xs | Fault _ => [] end = [10; 30; 40; 20].
Proof. vm_compute. reflexivity. Qed.
