(* ===== verification/Monitors.v ===== *)
(** * Net/monitors: Event, and the three implementations of the Monitor interface

    [Monitor.hpp] is an abstract class with three implementations.  Here it is a type class
    of operations ([Monitor]) and a class of laws ([MonitorLaws]): a monitor stands for the
    map from watched descriptors to their event mask and user data, and each call changes
    that map as its name says.  [Poller] and [Selector] are shown to satisfy the laws;
    [EPoller] is modelled too, and two of its calls do not.

    The system calls ([poll], [select], [epoll_ctl], [epoll_wait]) are arguments: what they
    answer is not in the repository. *)

From stdpp Require Import gmap sorting.
From S2P Require Import Prelude.
Local Open Scope Z_scope.

(** ** Event.hpp *)

Record Event := mkEvent { fd : Z; event : Z; extra_data : Z }.

(** The values of [sys/poll.h]. *)
Definition POLLIN : Z := 1.
Definition POLLPRI : Z := 2.
Definition POLLOUT : Z := 4.
Definition POLLERR : Z := 8.
Definition POLLHUP : Z := 16.
Definition POLLNVAL : Z := 32.

Definition NoEvent : Z := 0.
Definition Read : Z := POLLIN.
Definition Urgent : Z := POLLPRI.
Definition Write : Z := POLLOUT.
Definition Error : Z := POLLERR.
Definition Invalid : Z := POLLNVAL.
Definition HangUp : Z := POLLHUP.

Definition with_event (e : Event) (v : Z) : Event := mkEvent (fd e) v (extra_data e).

Definition set_read (e : Event) : Event := with_event e (Z.lor (event e) Read).
Definition set_write (e : Event) : Event := with_event e (Z.lor (event e) Write).
Definition set_error (e : Event) : Event := with_event e (Z.lor (event e) Error).
Definition set_HangUp (e : Event) : Event := with_event e (Z.lor (event e) HangUp).
Definition set_NoEvent (e : Event) : Event := with_event e 0.
Definition unset_read (e : Event) : Event :=
  with_event e (Z.land (event e) (Z.lnot (Z.lor (Z.lor Read Urgent) HangUp))).
Definition unset_write (e : Event) : Event := with_event e (Z.land (event e) (Z.lnot Write)).
Definition unset_error (e : Event) : Event := with_event e (Z.land (event e) (Z.lnot Error)).
Definition unset_HangUp (e : Event) : Event := with_event e (Z.land (event e) (Z.lnot HangUp)).

Definition truthy (z : Z) : bool := negb (z =? 0).
Definition canRead (e : Event) : bool :=
  truthy (Z.land (event e) (Z.lor (Z.lor Read Urgent) HangUp)).
Definition canWrite (e : Event) : bool := truthy (Z.land (event e) Write).
Definition hasError (e : Event) : bool := truthy (Z.land (event e) (Z.lor Error Invalid)).
Definition hasHangUp (e : Event) : bool := truthy (Z.land (event e) HangUp).
Definition is_NoEvent (e : Event) : bool := event e =? NoEvent.

(** Conversion of an [int] to [short]. *)
Definition s16 (z : Z) : Z := (z + 32768) mod 65536 - 32768.

(** ** Poller *)

Module Poller.

Record pollfd := mkPollfd { pfd : Z; events : Z; revents : Z }.

Record t := mk { _fds : list pollfd; _datas : list Z; _mapping : gmap Z Z }.

Definition empty : t := mk [] [] ∅.

(** [v[i]], undefined outside the vector. *)
Definition at_ {A} (l : list A) (i : Z) : res A :=
  of_option (l !! Z.to_nat i) OutOfBounds.

Definition add_fd (e : Event) (s : t) : res (bool * t) :=
  if (fd e <? 0) || bool_decide (is_Some (_mapping s !! fd e)) then Ret (false, s)
  else Ret (true,
    mk (_fds s ++ [mkPollfd (fd e) (s16 (event e)) 0]) (_datas s ++ [extra_data e])
       (<[fd e := zlen (_fds s)]> (_mapping s))).

(** [v[i] = v.back(); v.pop_back();] *)
Definition swap_remove {A} (i : Z) (l : list A) : res (list A) :=
  b ← of_option (list.last l) OutOfBounds;
  _ ← at_ l i;
  Ret (take (length l - 1) (<[Z.to_nat i := b]> l)).

Definition remove_fd (f : Z) (fd_closed : bool) (s : t) : res t :=
  match _mapping s !! f with
  | None => Ret s
  | Some i =>
      b ← of_option (list.last (_fds s)) OutOfBounds;
      let m := <[pfd b := i]> (_mapping s) in
      fds ← swap_remove i (_fds s);
      datas ← swap_remove i (_datas s);
      Ret (mk fds datas (delete f m))
  end.

Definition remove_all (s : t) : t := mk [] [] ∅.

Definition update_fd (e : Event) (s : t) : res t :=
  match _mapping s !! fd e with
  | None => Ret s
  | Some i =>
      p ← at_ (_fds s) i;
      _ ← at_ (_datas s) i;
      Ret (mk (<[Z.to_nat i := mkPollfd (pfd p) (s16 (event e)) (revents p)]> (_fds s))
              (<[Z.to_nat i := extra_data e]> (_datas s)) (_mapping s))
  end.

Definition exist_fd (f : Z) (s : t) : bool := bool_decide (is_Some (_mapping s !! f)).
Definition fd_size (s : t) : Z := zlen (_fds s).

(** [get_events]: the entries whose [revents] the system call filled in. *)
Fixpoint get_events_from (fds : list pollfd) (datas : list Z) (l : list Event)
    : res (list Event) :=
  match fds with
  | [] => Ret l
  | p :: fds =>
      match datas with
      | [] => if revents p <=? 0 then get_events_from fds [] l else Fault OutOfBounds
      | d :: datas =>
          get_events_from fds datas
            (if revents p <=? 0 then l else l ++ [mkEvent (pfd p) (revents p) d])
      end
  end.

Definition get_events (l : list Event) (s : t) : res (list Event) :=
  get_events_from (_fds s) (_datas s) l.

(** [poll] writes the [revents] fields and returns the number of ready descriptors. *)
Definition set_revents (rs : list Z) (s : t) : t :=
  mk (zip_with (fun p r => mkPollfd (pfd p) (events p) r) (_fds s) rs) (_datas s) (_mapping s).

Definition get_aliveEvent (poll : list pollfd -> Z -> Z * list Z) (timeoutMS : Z)
    (l : list Event) (s : t) : res (Z * list Event * t) :=
  let '(active, rs) := poll (_fds s) timeoutMS in
  let s := set_revents rs s in
  if 0 <? active then l ← get_events l s; Ret (active, l, s)
  else Ret (active, l, s).

End Poller.

(** ** Selector *)

Module Selector.

(** [FD_SETSIZE] of the C library. *)
Definition FD_SETSIZE : Z := 1024.

Record t := mk {
  _fds : list Event;
  read_size : Z; write_size : Z; error_size : Z; ndfs : Z }.

Definition empty : t := mk [] 0 0 0 0.

Fixpoint find_fd (f : Z) (l : list Event) : option nat :=
  match l with
  | [] => None
  | e :: l => if fd e =? f then Some O else S <$> find_fd f l
  end.

Definition b2z (b : bool) : Z := if b then 1 else 0.

(** [if (e.canRead()) ++read_size; ...], and the same with [--]. *)
Definition count_in (e : Event) (s : t) : t :=
  mk (_fds s) (s16 (read_size s + b2z (canRead e))) (s16 (write_size s + b2z (canWrite e)))
     (s16 (error_size s + b2z (hasError e))) (ndfs s).
Definition count_out (e : Event) (s : t) : t :=
  mk (_fds s) (s16 (read_size s - b2z (canRead e))) (s16 (write_size s - b2z (canWrite e)))
     (s16 (error_size s - b2z (hasError e))) (ndfs s).

Definition add_fd (e : Event) (s : t) : res (bool * t) :=
  if (FD_SETSIZE <=? fd e) || (fd e <? 0) || bool_decide (is_Some (find_fd (fd e) (_fds s)))
  then Ret (false, s)
  else
    let n := if ndfs s <? fd e then s16 (fd e) else ndfs s in
    Ret (true, count_in e
      (mk (_fds s ++ [e]) (read_size s) (write_size s) (error_size s) n)).

(** The loop that recomputes [ndfs]. *)
Definition max_fd (l : list Event) : Z :=
  fold_left (fun n e => if n <? fd e then s16 (fd e) else n) l 0.

Definition remove_fd (f : Z) (fd_closed : bool) (s : t) : res t :=
  match find_fd f (_fds s) with
  | None => Ret s
  | Some i =>
      e ← of_option (_fds s !! i) OutOfBounds;
      let s := count_out e s in
      fds ← Poller.swap_remove (Z.of_nat i) (_fds s);
      Ret (mk fds (read_size s) (write_size s) (error_size s)
        (if f =? ndfs s then max_fd fds else ndfs s))
  end.

Definition remove_all (s : t) : t := mk [] 0 0 0 0.

Definition update_fd (e : Event) (s : t) : res t :=
  match find_fd (fd e) (_fds s) with
  | None => Ret s
  | Some i =>
      old ← of_option (_fds s !! i) OutOfBounds;
      let s := count_out old s in
      Ret (count_in e
        (mk (<[i := e]> (_fds s)) (read_size s) (write_size s) (error_size s) (ndfs s)))
  end.

Definition exist_fd (f : Z) (s : t) : bool := bool_decide (is_Some (find_fd f (_fds s))).
Definition fd_size (s : t) : Z := zlen (_fds s).

(** [init_fd_set]: the three descriptor sets handed to [select]. *)
Definition init_fd_set (s : t) : gset Z * gset Z * gset Z :=
  (list_to_set (fd <$> filter (fun e => canRead e = true) (_fds s)),
   list_to_set (fd <$> filter (fun e => canWrite e = true) (_fds s)),
   list_to_set (fd <$> filter (fun e => hasError e = true) (_fds s))).

(** [fill_events], reading the sets as [select] left them. *)
Definition fill_one (sets : gset Z * gset Z * gset Z) (e : Event) : Event :=
  let '(r, w, x) := sets in
  let val := mkEvent (fd e) NoEvent (extra_data e) in
  let val := if canRead e && bool_decide (fd e ∈ r) then set_read val else val in
  let val := if canWrite e && bool_decide (fd e ∈ w) then set_write val else val in
  if hasError e && bool_decide (fd e ∈ x) then set_error val else val.

Definition fill_events (sets : gset Z * gset Z * gset Z) (l : list Event) (s : t)
    : list Event :=
  l ++ filter (fun v => is_NoEvent v = false) (fill_one sets <$> _fds s).

(** A [timeval]: seconds and microseconds. *)
Record timeval := mkTimeval { tv_sec : Z; tv_usec : Z }.

(** The rest of the milliseconds is stored as microseconds. *)
Definition select_timeout (timeoutMS : Z) : timeval :=
  mkTimeval (Z.quot timeoutMS 1000) (Z.rem timeoutMS 1000).

(** [select] gets null for an empty set, and leaves a null set's [fd_set] as it was. *)
Definition get_aliveEvent
    (select : Z -> option (gset Z) -> option (gset Z) -> option (gset Z) -> option timeval ->
              Z * (gset Z * gset Z * gset Z))
    (timeoutMS : Z) (l : list Event) (s : t) : Z * list Event :=
  let '(r, w, x) := init_fd_set s in
  let '(ret, (r', w', x')) :=
    select (ndfs s + 1)
      (if 0 <? read_size s then Some r else None)
      (if 0 <? write_size s then Some w else None)
      (if 0 <? error_size s then Some x else None)
      (if 0 <? timeoutMS then Some (select_timeout timeoutMS) else None) in
  let sets := (if 0 <? read_size s then r' else r, if 0 <? write_size s then w' else w,
               if 0 <? error_size s then x' else x) in
  if 0 <? ret then (ret, fill_events sets l s) else (ret, l).

End Selector.

(** ** EPoller *)

Module EPoller.

Inductive ctl := CTL_ADD | CTL_DEL | CTL_MOD.

(** One [epoll_ctl] call: operation, descriptor, event mask. *)
Definition call : Type := ctl * Z * Z.

Record t := mk { _fds : gmap Z Event; active : Z; calls : list call }.

Definition empty : t := mk ∅ 0 [].

(** The iteration order of [std::map]. *)
Definition fd_le (a b : Z * Event) : Prop := fst a <= fst b.
#[export] Instance fd_le_dec : RelDecision fd_le := fun a b => Z_le_dec (fst a) (fst b).

Section Kernel.
(** Whether the kernel accepts the call, given those made before it. *)
Context (epoll_ctl : list call -> call -> bool).

Definition operate (m : ctl) (e : Event) (s : t) : bool * t :=
  let c := (m, fd e, event e) in
  (epoll_ctl (calls s) c, mk (_fds s) (active s) (calls s ++ [c])).

Definition add_fd (e : Event) (s : t) : res (bool * t) :=
  if (fd e <? 0) || bool_decide (is_Some (_fds s !! fd e)) then Ret (false, s) else
  let k := if is_NoEvent e then - fd e else fd e in
  match _fds s !! k with
  | Some _ => Ret (false, s)
  | None =>
      let '(ok, s) := operate CTL_ADD e (mk (<[k := e]> (_fds s)) (active s) (calls s)) in
      if ok then Ret (true, mk (_fds s) (active s + 1) (calls s)) else Ret (false, s)
  end.

Definition remove_fd (f : Z) (fd_closed : bool) (s : t) : res t :=
  match _fds s !! f with
  | None => Ret s
  | Some e =>
      let s := if fd_closed then s else snd (operate CTL_DEL e s) in
      if active s =? 0 then Fault OutOfBounds
      else Ret (mk (delete f (_fds s)) (active s - 1) (calls s))
  end.

Definition remove_all (s : t) : t :=
  let s' := fold_left (fun s '(f, e) => if 0 <? f then snd (operate CTL_DEL e s) else s)
              (merge_sort fd_le (map_to_list (_fds s))) s in
  mk ∅ 0 (calls s').

(** [update_fd].  In the [NoEvent] branch the map node is erased and then read through the
    dangling iterator; in the last branch the new mask is compared with the stored one and
    never stored, so the kernel is given the old mask again. *)
Definition update_fd (e : Event) (s : t) : res t :=
  match _fds s !! fd e with
  | None =>
      let '(_, s) := operate CTL_ADD e (mk (<[fd e := e]> (_fds s)) (active s) (calls s)) in
      Ret (mk (_fds s) (active s + 1) (calls s))
  | Some old =>
      if is_NoEvent e then Fault BadPointer
      else
        let now := mkEvent (fd old) (event old) (extra_data e) in
        let s := mk (<[fd e := now]> (_fds s)) (active s) (calls s) in
        if event old =? event e then Ret s else Ret (snd (operate CTL_MOD now s))
  end.

Definition exist_fd (f : Z) (s : t) : bool := bool_decide (is_Some (_fds s !! f)).
Definition fd_size (s : t) : Z := Z.of_nat (size (_fds s)).

(** [get_events]: each ready entry carries the address of the node it was registered with. *)
Fixpoint get_events (ready : list (Z * Z)) (l : list Event) (s : t) : res (list Event) :=
  match ready with
  | [] => Ret l
  | (k, evs) :: ready =>
      match _fds s !! k with
      | None => Fault BadPointer
      | Some e => get_events ready (l ++ [mkEvent (fd e) evs (extra_data e)]) s
      end
  end.

End Kernel.
End EPoller.

(** ** The interface *)

(** The member functions of [Monitor.hpp] that change or read the watched set. *)
Class Monitor (M : Type) := {
  m_empty : M;
  m_add : Event -> M -> res (bool * M);
  m_remove : Z -> bool -> M -> res M;
  m_remove_all : M -> M;
  m_update : Event -> M -> res M;
  m_exist : Z -> M -> bool;
  m_size : M -> Z }.

#[export] Instance poller_monitor : Monitor Poller.t := {|
  m_empty := Poller.empty; m_add := Poller.add_fd; m_remove := Poller.remove_fd;
  m_remove_all := Poller.remove_all; m_update := Poller.update_fd;
  m_exist := Poller.exist_fd; m_size := Poller.fd_size |}.

#[export] Instance selector_monitor : Monitor Selector.t := {|
  m_empty := Selector.empty; m_add := Selector.add_fd; m_remove := Selector.remove_fd;
  m_remove_all := Selector.remove_all; m_update := Selector.update_fd;
  m_exist := Selector.exist_fd; m_size := Selector.fd_size |}.

(** The watched set: descriptor to event mask and user data. *)
Abbreviation watched := (gmap Z (Z * Z)).

Inductive monitor_call :=
  | CallAdd (e : Event)
  | CallRemove (f : Z) (closed : bool)
  | CallRemoveAll
  | CallUpdate (e : Event).

Section Spec.
(** What descriptors the implementation accepts, and how it stores an event mask. *)
Context (accepts : Z -> bool) (stored : Z -> Z).

Definition entry (e : Event) : Z * Z := (stored (event e), extra_data e).

Definition spec_call (c : monitor_call) (w : watched) : bool * watched :=
  match c with
  | CallAdd e =>
      if accepts (fd e) && bool_decide (w !! fd e = None)
      then (true, <[fd e := entry e]> w) else (false, w)
  | CallRemove f _ => (true, delete f w)
  | CallRemoveAll => (true, ∅)
  | CallUpdate e => (true, alter (fun _ => entry e) (fd e) w)
  end.

Definition spec_run (cs : list monitor_call) (w : watched) : watched :=
  fold_left (fun w c => snd (spec_call c w)) cs w.
End Spec.

Definition exec_call {M} `{Monitor M} (c : monitor_call) (m : M) : res (bool * M) :=
  match c with
  | CallAdd e => m_add e m
  | CallRemove f closed => m ← m_remove f closed m; Ret (true, m)
  | CallRemoveAll => Ret (true, m_remove_all m)
  | CallUpdate e => m ← m_update e m; Ret (true, m)
  end.

Fixpoint exec_run {M} `{Monitor M} (cs : list monitor_call) (m : M) : res M :=
  match cs with
  | [] => Ret m
  | c :: cs => '(_, m) ← exec_call c m; exec_run cs m
  end.

(** What a [Monitor] promises the reactor. *)
Class MonitorLaws (M : Type) `{Monitor M} (accepts : Z -> bool) (stored : Z -> Z) := {
  mon_inv : M -> Prop;
  view : M -> watched;
  empty_ok : mon_inv m_empty /\ view m_empty = ∅;
  call_ok c m : mon_inv m -> exists b m', exec_call c m = Ret (b, m') /\ mon_inv m' /\
    (b, view m') = spec_call accepts stored c (view m);
  exist_ok f m : mon_inv m -> m_exist f m = bool_decide (is_Some (view m !! f));
  size_ok m : mon_inv m -> m_size m = Z.of_nat (size (view m)) }.

(** A client's view: any sequence of calls on any lawful monitor succeeds and leaves the
    watched set the calls describe. *)
Lemma run_ok {M} `{MonitorLaws M accepts stored} cs m :
  mon_inv m -> exists m', exec_run cs m = Ret m' /\ mon_inv m' /\
    view m' = spec_run accepts stored cs (view m).
Proof.
  revert m. induction cs as [|c cs IH]; intros m Hm; [by exists m |].
  destruct (call_ok c m Hm) as (b & m1 & E & Hm1 & Hv).
  destruct (IH m1 Hm1) as (m' & E' & Hm' & Hv'). exists m'. simpl. rewrite E. simpl.
  split_and!; [done | done |]. rewrite Hv'. unfold spec_run. simpl. by rewrite <- Hv.
Qed.

(** ** Swapping with the last entry *)

Lemma take_insert_app {A} (l : list A) i b c :
  (i < length l)%nat -> take (length (l ++ [c]) - 1) (<[i := b]> (l ++ [c])) = <[i := b]> l.
Proof.
  intros Hi. rewrite insert_app_l by done. rewrite length_app. simpl.
  replace (length l + 1 - 1)%nat with (length (<[i:=b]> l)) by (rewrite length_insert; lia).
  apply take_app_length.
Qed.

(** The entry at [i] goes, the last one takes its place. *)
Lemma swap_remove_ok {A} (l : list A) (i : Z) x :
  0 <= i -> l !! Z.to_nat i = Some x ->
  exists b l', list.last l = Some b /\ l !! (length l - 1)%nat = Some b /\
    Poller.swap_remove i l = Ret l' /\ l ≡ₚ x :: l' /\ length l' = (length l - 1)%nat /\
    forall j, l' !! j =
      if decide (j < length l - 1)%nat
      then (if decide (j = Z.to_nat i) then Some b else l !! j) else None.
Proof.
  intros Hi Hx. destruct (exists_last (l := l)) as (l0 & b & ->); [by intros -> |].
  unfold Poller.swap_remove, Poller.at_. rewrite last_snoc. simpl. rewrite Hx. simpl.
  exists b. eexists. split_and!; [done | | done | | |].
  - rewrite lookup_app_r by (rewrite length_app; simpl; lia). rewrite length_app. simpl.
    by replace (length l0 + 1 - 1 - length l0)%nat with 0%nat by lia.
  - destruct (decide (Z.to_nat i < length l0)%nat) as [Hlt|Hge].
    + rewrite take_insert_app by done. rewrite lookup_app_l in Hx by done.
      rewrite <- (take_drop_middle l0 (Z.to_nat i) x Hx) at 1.
      rewrite insert_take_drop by done. rewrite <- app_assoc. simpl.
      rewrite Permutation_app_comm. simpl. constructor.
      rewrite (Permutation_app_comm (drop _ _) [b]). simpl.
      by rewrite <- Permutation_middle, Permutation_app_comm.
    + pose proof (lookup_lt_Some _ _ _ Hx) as Hlen. rewrite length_app in Hlen. simpl in Hlen.
      assert (Hi' : Z.to_nat i = length l0) by lia. rewrite Hi' in *.
      rewrite lookup_app_r, Nat.sub_diag in Hx by lia. injection Hx as ->.
      rewrite list_insert_id by (rewrite lookup_app_r, Nat.sub_diag by lia; done).
      rewrite length_app. simpl. rewrite Nat.add_sub, take_app_length.
      by rewrite Permutation_app_comm.
  - rewrite length_take, length_insert, length_app. simpl. lia.
  - intros j. case_decide as Hj.
    + rewrite lookup_take_lt by lia. case_decide as Hji; [subst j |].
      * rewrite list_lookup_insert_eq; [done | by eapply lookup_lt_Some].
      * by rewrite list_lookup_insert_ne.
    + apply lookup_take_ge. rewrite length_app in *. simpl in *. lia.
Qed.

(** ** Lists of cells with distinct keys, as maps *)

Section Keyed.
Context {V : Type}.
Implicit Types (l : list (Z * V)).

Abbreviation to_map := (list_to_map (M := gmap Z V)).

Lemma keyed_remove l l' x :
  NoDup l.*1 -> l ≡ₚ x :: l' -> NoDup l'.*1 /\ to_map l' = delete x.1 (to_map l).
Proof.
  intros Hn Hp. assert (Hn' : NoDup (x :: l').*1) by (by rewrite <- Hp).
  rewrite fmap_cons in Hn'. apply list.NoDup_cons in Hn' as [Hx Hn']. split; [done |].
  rewrite (list_to_map_proper l (x :: l')) by done. destruct x as [k v]. simpl.
  rewrite delete_insert_id; [done |]. by apply not_elem_of_list_to_map.
Qed.

Lemma delete_insert_same l i y : delete i (<[i := y]> l) = delete i l.
Proof. revert i. induction l as [|x l IH]; intros [|i]; simpl; [done | done | done |]. f_equal. apply IH. Qed.

Lemma keyed_update l i x v :
  NoDup l.*1 -> l !! i = Some x ->
  (<[i := (x.1, v)]> l).*1 = l.*1 /\
  to_map (<[i := (x.1, v)]> l) = alter (fun _ => v) x.1 (to_map l).
Proof.
  intros Hn Hx.
  assert (Hf : (<[i := (x.1, v)]> l).*1 = l.*1).
  { rewrite list_fmap_insert. simpl. apply list_insert_id. by rewrite list_lookup_fmap, Hx. }
  split; [done |].
  pose proof (delete_Permutation l i x Hx) as Hp.
  pose proof (delete_Permutation (<[i := (x.1, v)]> l) i (x.1, v)) as Hp'.
  rewrite delete_insert_same in Hp'.
  rewrite (list_to_map_proper l _ Hn Hp).
  rewrite (list_to_map_proper (<[i := (x.1, v)]> l) ((x.1, v) :: delete i l)); [| by rewrite Hf |].
  - destruct x as [k w]. simpl. rewrite alter_insert_eq. done.
  - apply Hp', list_lookup_insert_eq. by eapply lookup_lt_Some.
Qed.

Lemma keyed_add l k v :
  NoDup l.*1 -> k ∉ l.*1 ->
  NoDup (l ++ [(k, v)]).*1 /\ to_map (l ++ [(k, v)]) = <[k := v]> (to_map l).
Proof.
  intros Hn Hk. split; [| by apply list_to_map_snoc].
  rewrite fmap_app. apply list.NoDup_app. split_and!; [done | | apply NoDup_singleton].
  intros c Hc Hin. apply list_elem_of_singleton in Hin as ->. done.
Qed.

Lemma alter_absent (f : V -> V) k (m : gmap Z V) : m !! k = None -> alter f k m = m.
Proof.
  intros Hk. apply map_eq. intros j. destruct (decide (k = j)) as [<-|Hne].
  - by rewrite lookup_alter_eq, Hk.
  - by rewrite lookup_alter_ne.
Qed.
End Keyed.

(** ** Poller satisfies the laws *)

Section PollerLaws.
Import Poller.

Definition poller_cell (p : pollfd) (d : Z) : Z * (Z * Z) := (pfd p, (events p, d)).
Definition poller_cells (s : Poller.t) : list (Z * (Z * Z)) :=
  zip_with poller_cell (_fds s) (_datas s).
Definition poller_view (s : Poller.t) : watched := list_to_map (poller_cells s).

(** The index in [_mapping] is the position of the descriptor in both vectors. *)
Definition poller_inv (s : Poller.t) : Prop :=
  length (_datas s) = length (_fds s) /\
  (forall f i, _mapping s !! f = Some i <-> 0 <= i /\ pfd <$> _fds s !! Z.to_nat i = Some f).

Lemma cells_fst s :
  length (_datas s) = length (_fds s) -> (poller_cells s).*1 = pfd <$> _fds s.
Proof.
  unfold poller_cells. destruct s as [fds datas m]. simpl. revert datas.
  induction fds as [|p fds IH]; intros [|d datas] Hl; simpl in *; try done.
  f_equal. apply IH. lia.
Qed.

Lemma poller_NoDup s : poller_inv s -> NoDup (poller_cells s).*1.
Proof.
  intros [Hl Hm]. rewrite cells_fst by done. apply NoDup_alt. intros i j f Hi Hj.
  rewrite list_lookup_fmap in *.
  assert (Hi' : _mapping s !! f = Some (Z.of_nat i)) by (apply Hm; rewrite Nat2Z.id; split; [lia | done]).
  assert (Hj' : _mapping s !! f = Some (Z.of_nat j)) by (apply Hm; rewrite Nat2Z.id; split; [lia | done]).
  rewrite Hi' in Hj'. injection Hj'. lia.
Qed.

Lemma poller_view_lookup s f v :
  poller_inv s -> poller_view s !! f = Some v <-> (f, v) ∈ poller_cells s.
Proof. intros Hi. symmetry. apply elem_of_list_to_map. by apply poller_NoDup. Qed.

Lemma poller_view_dom s f :
  poller_inv s -> (poller_view s !! f = None <-> _mapping s !! f = None).
Proof.
  intros Hi. unfold poller_view.
  rewrite <- (not_elem_of_list_to_map (M := gmap Z)), cells_fst by apply Hi.
  destruct Hi as [_ Hm]. split.
  - intros Hn. destruct (_mapping s !! f) as [i|] eqn:E; [| done]. exfalso. apply Hn.
    apply Hm in E as [_ E]. apply list_elem_of_lookup. exists (Z.to_nat i). by rewrite list_lookup_fmap.
  - intros Hn Hin. apply list_elem_of_lookup in Hin as [i Hin]. rewrite list_lookup_fmap in Hin.
    assert (_mapping s !! f = Some (Z.of_nat i)) by (apply Hm; rewrite Nat2Z.id; split; [lia | done]).
    congruence.
Qed.

Lemma poller_add_ok e s :
  poller_inv s -> exists b s', add_fd e s = Ret (b, s') /\ poller_inv s' /\
    (b, poller_view s') = spec_call (fun f => 0 <=? f) s16 (CallAdd e) (poller_view s).
Proof.
  intros Hi. unfold add_fd. simpl.
  rewrite (bool_decide_ext (is_Some (_mapping s !! fd e)) (~ poller_view s !! fd e = None))
    by (rewrite poller_view_dom, <- not_eq_None_Some by done; done).
  rewrite bool_decide_not, Z.ltb_antisym.
  destruct (0 <=? fd e) eqn:Hf; [| by exists false, s]. simpl.
  destruct (bool_decide_reflect (poller_view s !! fd e = None)) as [Hn|Hn]; simpl; [| by exists false, s].
  apply poller_view_dom in Hn; [| done]. destruct Hi as [Hl Hm].
  eexists true, _. split; [done |]. split; [split |]; simpl.
  - rewrite !length_app. simpl. lia.
  - intros f i. destruct (decide (f = fd e)) as [->|Hne].
    + rewrite lookup_insert_eq. split.
      * intros [= <-]. split; [apply zlen_nonneg |]. unfold zlen. rewrite Nat2Z.id, lookup_app_r, Nat.sub_diag by lia. done.
      * intros [Hi0 Hi]. f_equal. destruct (decide (Z.to_nat i < length (_fds s))%nat) as [Hlt|Hge].
        -- rewrite lookup_app_l in Hi by done.
           assert (_mapping s !! fd e = Some i) by (by apply Hm). congruence.
        -- destruct (decide (Z.to_nat i = length (_fds s))); [unfold zlen; lia |].
           rewrite lookup_app_r, lookup_ge_None_2 in Hi by (simpl; lia). done.
    + rewrite lookup_insert_ne by done. rewrite Hm. apply and_iff_compat_l.
      destruct (decide (Z.to_nat i < length (_fds s))%nat) as [Hlt|Hge].
      * by rewrite lookup_app_l.
      * rewrite lookup_ge_None_2 by lia. rewrite lookup_app_r by lia.
        destruct (Z.to_nat i - length (_fds s))%nat as [|k]; simpl; [| by destruct k].
        split; [done | congruence].
  - f_equal. unfold poller_view, poller_cells. simpl.
    rewrite zip_with_app by done. cbn [zip_with]. unfold poller_cell at 2. simpl.
    change (zip_with _ (_fds s) (_datas s)) with (poller_cells s).
    rewrite list_to_map_snoc; [done |]. rewrite cells_fst by done.
    intros Hin. apply list_elem_of_lookup in Hin as [i Hi]. rewrite list_lookup_fmap in Hi.
    assert (_mapping s !! fd e = Some (Z.of_nat i)) by (apply Hm; rewrite Nat2Z.id; split; [lia | done]).
    congruence.
Qed.

(** Removing position [i] from both vectors removes the cell at [i]. *)
Lemma poller_swap s i p :
  poller_inv s -> 0 <= i -> _fds s !! Z.to_nat i = Some p ->
  exists b fds' datas', list.last (_fds s) = Some b /\
    swap_remove i (_fds s) = Ret fds' /\ swap_remove i (_datas s) = Ret datas' /\
    length datas' = length fds' /\
    (exists d, poller_cells s ≡ₚ poller_cell p d :: zip_with poller_cell fds' datas') /\
    _fds s !! (length (_fds s) - 1)%nat = Some b /\
    (forall j, fds' !! j =
      if decide (j < length (_fds s) - 1)%nat
      then (if decide (j = Z.to_nat i) then Some b else _fds s !! j) else None).
Proof.
  intros [Hl _] Hi Hp. pose proof (lookup_lt_Some _ _ _ Hp) as Hlt.
  destruct (lookup_lt_is_Some_2 (_datas s) (Z.to_nat i)) as [d Hd]; [lia |].
  assert (Hc : poller_cells s !! Z.to_nat i = Some (poller_cell p d))
    by (unfold poller_cells; by rewrite lookup_zip_with, Hp, Hd).
  destruct (swap_remove_ok _ _ _ Hi Hp) as (b & fds' & Hb & Hb' & E & _ & Hl' & Hj).
  destruct (swap_remove_ok _ _ _ Hi Hd) as (db & datas' & _ & Hdb' & E2 & _ & Hl2 & Hj2).
  destruct (swap_remove_ok _ _ _ Hi Hc) as (cb & cs' & _ & Hcb' & _ & Hperm & _ & Hj3).
  exists b, fds', datas'. split_and!; try done; [lia |]. exists d. rewrite Hperm. f_equiv.
  enough (cs' = zip_with poller_cell fds' datas') by (subst; done).
  assert (Hlc : length (poller_cells s) = length (_fds s)) by (unfold poller_cells; rewrite length_zip_with; lia).
  apply list_eq. intros j. rewrite Hj3, lookup_zip_with, Hj, Hj2, Hlc, Hl.
  case_decide; [| done]. case_decide.
  - simpl. rewrite Hlc in Hcb'. rewrite Hl in Hdb'. unfold poller_cells in Hcb'.
    rewrite lookup_zip_with, Hb', Hdb' in Hcb'. by injection Hcb' as ->.
  - unfold poller_cells. by rewrite lookup_zip_with.
Qed.

Lemma poller_remove_ok f c s :
  poller_inv s -> exists s', remove_fd f c s = Ret s' /\ poller_inv s' /\
    poller_view s' = delete f (poller_view s).
Proof.
  intros Hi. unfold remove_fd. destruct (_mapping s !! f) as [i|] eqn:Em.
  2:{ exists s. split_and!; [done | done |]. rewrite delete_id; [done |]. by apply poller_view_dom. }
  pose proof Hi as [Hl Hm]. apply Hm in Em as Hf. destruct Hf as [Hi0 Hf].
  apply fmap_Some in Hf as (p & Hp & ->).
  destruct (poller_swap s i p Hi Hi0 Hp) as (b & fds' & datas' & Hb & E1 & E2 & Hl' & (d & Hperm) & Hbl & Hj).
  rewrite Hb. simpl. rewrite E1. simpl. rewrite E2. simpl. eexists. split; [done |].
  destruct (keyed_remove _ _ _ (poller_NoDup s Hi) Hperm) as [_ Hv].
  split; [| exact Hv]. split; [done |]. simpl. intros g j.
  pose proof (lookup_lt_Some _ _ _ Hp) as Hlt.
  assert (Hpos : forall k q, 0 <= k -> _fds s !! Z.to_nat k = Some q -> _mapping s !! pfd q = Some k).
  { intros k q Hk Hq. apply Hm. split; [done |]. by rewrite Hq. }
  pose proof (Hpos (Z.of_nat (length (_fds s) - 1)) b ltac:(lia)) as Hmb. rewrite Nat2Z.id in Hmb.
  specialize (Hmb Hbl).
  rewrite Hj. destruct (decide (g = pfd p)) as [->|Hg].
  - rewrite lookup_delete_eq. split; [done |]. intros [Hj0 Hq]. exfalso.
    case_decide as Hjl; [| done]. case_decide as Hji; simpl in Hq.
    + injection Hq as Hq. rewrite Hq in Hmb. rewrite Em in Hmb. injection Hmb. lia.
    + apply fmap_Some in Hq as (q & Hq & Hpq). apply (Hpos j q Hj0) in Hq. rewrite <- Hpq, Em in Hq.
      injection Hq. lia.
  - rewrite lookup_delete_ne by done. destruct (decide (g = pfd b)) as [->|Hgb].
    + rewrite lookup_insert_eq. split.
      * intros [= <-]. split; [done |].
        assert (i <> Z.of_nat (length (_fds s) - 1)) by (intros ->; rewrite Nat2Z.id in Hp; congruence).
        rewrite decide_True by lia. by rewrite decide_True.
      * intros [Hj0 Hq]. case_decide as Hjl; [| done]. case_decide as Hji; [f_equal; lia |].
        apply fmap_Some in Hq as (q & Hq & Hpq). apply (Hpos j q Hj0) in Hq.
        rewrite <- Hpq, Hmb in Hq. injection Hq. lia.
    + rewrite lookup_insert_ne by done. rewrite Hm. apply and_iff_compat_l.
      case_decide as Hjl.
      * case_decide as Hji; [| done]. subst. simpl. split; [| congruence].
        intros Hq. rewrite Hji, Hp in Hq. simpl in Hq. congruence.
      * split; [| done]. intros (q & Hq & ->)%fmap_Some.
        pose proof (lookup_lt_Some _ _ _ Hq).
        assert (Z.to_nat j = length (_fds s) - 1)%nat by lia. congruence.
Qed.

Lemma poller_update_ok e s :
  poller_inv s -> exists s', update_fd e s = Ret s' /\ poller_inv s' /\
    poller_view s' = alter (fun _ => entry s16 e) (fd e) (poller_view s).
Proof.
  intros Hi. unfold update_fd. destruct (_mapping s !! fd e) as [i|] eqn:Em.
  2:{ exists s. split_and!; [done | done |]. rewrite alter_absent; [done |]. by apply poller_view_dom. }
  pose proof Hi as [Hl Hm]. apply Hm in Em as Hf. destruct Hf as [Hi0 Hf].
  apply fmap_Some in Hf as (p & Hp & Hpe). pose proof (lookup_lt_Some _ _ _ Hp) as Hlt.
  destruct (lookup_lt_is_Some_2 (_datas s) (Z.to_nat i)) as [d Hd]; [lia |].
  unfold at_. rewrite Hp. simpl. rewrite Hd. simpl. eexists. split; [done |].
  assert (Hc : poller_cells s !! Z.to_nat i = Some (poller_cell p d))
    by (unfold poller_cells; by rewrite lookup_zip_with, Hp, Hd).
  destruct (keyed_update _ _ _ (entry s16 e) (poller_NoDup s Hi) Hc) as [_ Hv].
  split.
  - split; simpl; [by rewrite !length_insert |]. intros f j. rewrite Hm. apply and_iff_compat_l.
    destruct (decide (Z.to_nat j = Z.to_nat i)) as [->|Hne].
    + by rewrite list_lookup_insert_eq, Hp.
    + by rewrite list_lookup_insert_ne by done.
  - rewrite Hpe. etrans; [| exact Hv]. unfold poller_view, poller_cells. simpl.
    f_equal. symmetry. 
    exact (insert_zip_with poller_cell (_fds s) (_datas s) (Z.to_nat i)
      (mkPollfd (pfd p) (s16 (event e)) (revents p)) (extra_data e)).
Qed.
End PollerLaws.

Lemma poller_call_ok c s :
  poller_inv s -> exists b s', exec_call c s = Ret (b, s') /\ poller_inv s' /\
    (b, poller_view s') = spec_call (fun f => 0 <=? f) s16 c (poller_view s).
Proof.
  intros Hi. destruct c as [e | f cl | | e]; simpl.
  - destruct (poller_add_ok e s Hi) as (b & s' & E & Hi' & Hv). eauto.
  - destruct (poller_remove_ok f cl s Hi) as (s' & E & Hi' & Hv). rewrite E. simpl.
    rewrite <- Hv. eauto.
  - exists true, Poller.empty. split_and!; [done | | done]. split; [done |].
    intros g i. simpl. rewrite lookup_empty. by split; [| intros [_ ?]].
  - destruct (poller_update_ok e s Hi) as (s' & E & Hi' & Hv). rewrite E. simpl.
    rewrite <- Hv. eauto.
Qed.

Lemma poller_size_ok s : poller_inv s -> Poller.fd_size s = Z.of_nat (size (poller_view s)).
Proof.
  intros Hi. unfold Poller.fd_size, zlen. f_equal. unfold poller_view.
  rewrite <- length_map_to_list, map_to_list_to_map by (by apply poller_NoDup).
  unfold poller_cells. rewrite length_zip_with. destruct Hi. lia.
Qed.

#[export] Instance poller_laws : MonitorLaws Poller.t (fun f => 0 <=? f) s16.
Proof.
  refine {| mon_inv := poller_inv; view := poller_view; call_ok := poller_call_ok;
            size_ok := poller_size_ok |}.
  - split; [| done]. split; [done |]. intros g i. simpl. rewrite lookup_empty.
    by split; [| intros [_ ?]].
  - intros f m Hm. apply bool_decide_ext. rewrite <- !not_eq_None_Some.
    by rewrite (poller_view_dom m f Hm).
Defined.

(** ** Selector satisfies the laws *)

Section SelectorLaws.
Import Selector.

Definition sel_cell (e : Event) : Z * (Z * Z) := (fd e, (event e, extra_data e)).
Definition sel_cells (s : Selector.t) : list (Z * (Z * Z)) := sel_cell <$> _fds s.
Definition selector_view (s : Selector.t) : watched := list_to_map (sel_cells s).

Definition count_of (p : Event -> bool) (l : list Event) : Z :=
  foldr (fun e n => b2z (p e) + n) 0 l.

Definition sel_accepts (f : Z) : bool := (0 <=? f) && (f <? FD_SETSIZE).

(** Descriptors are distinct and below [FD_SETSIZE]; the three counters count; [ndfs] bounds
    every descriptor, as [select] requires. *)
Definition selector_inv (s : Selector.t) : Prop :=
  NoDup (fd <$> _fds s) /\ Forall (fun e => sel_accepts (fd e) = true) (_fds s) /\
  read_size s = count_of canRead (_fds s) /\ write_size s = count_of canWrite (_fds s) /\
  error_size s = count_of hasError (_fds s) /\
  0 <= ndfs s < FD_SETSIZE /\ Forall (fun e => fd e <= ndfs s) (_fds s).

Lemma sel_cells_fst s : (sel_cells s).*1 = fd <$> _fds s.
Proof. unfold sel_cells. rewrite <- list_fmap_compose. done. Qed.

Lemma count_of_perm p l l' : l ≡ₚ l' -> count_of p l = count_of p l'.
Proof. induction 1; simpl; lia. Qed.

Lemma count_of_range p l : 0 <= count_of p l <= zlen l.
Proof.
  unfold zlen. induction l as [|e l IH]; simpl; [lia |]. unfold b2z in *. destruct (p e); lia.
Qed.

(** Fewer descriptors than [FD_SETSIZE], so the [short] counters do not wrap. *)
Lemma sel_bound (l : list Event) :
  NoDup (fd <$> l) -> Forall (fun e => sel_accepts (fd e) = true) l -> zlen l <= FD_SETSIZE.
Proof.
  intros Hn Hf. unfold zlen, FD_SETSIZE. rewrite <- (length_fmap fd).
  change 1024 with (Z.of_nat (length (seqZ 0 1024))). apply inj_le.
  apply submseteq_length, NoDup_submseteq; [done |]. intros f Hin.
  apply list_elem_of_fmap in Hin as (e & -> & He). rewrite list.Forall_forall in Hf.
  specialize (Hf e He). unfold sel_accepts, FD_SETSIZE in Hf. apply elem_of_seqZ. zbool. lia.
Qed.

Lemma find_fd_Some f l i :
  find_fd f l = Some i -> exists e, l !! i = Some e /\ fd e = f.
Proof.
  revert i. induction l as [|e l IH]; intros i; simpl; [done |].
  destruct (Z.eqb_spec (fd e) f) as [He|He].
  - intros [= <-]. eauto.
  - destruct (find_fd f l) as [j|] eqn:Ej; simpl; [| done]. intros [= <-]. by apply IH.
Qed.

Lemma find_fd_None f l : find_fd f l = None <-> f ∉ fd <$> l.
Proof.
  induction l as [|e l IH]; simpl; [split; [intros _ Hin; by apply elem_of_nil in Hin | done] |].
  rewrite not_elem_of_cons. destruct (Z.eqb_spec (fd e) f) as [He|He]; [naive_solver |].
  destruct (find_fd f l); simpl; naive_solver.
Qed.

Lemma sel_view_dom s f : selector_view s !! f = None <-> find_fd f (_fds s) = None.
Proof.
  unfold selector_view. rewrite <- (not_elem_of_list_to_map (M := gmap Z)), sel_cells_fst.
  by rewrite find_fd_None.
Qed.

Lemma s16_id z : -32768 <= z < 32768 -> s16 z = z.
Proof. intros. unfold s16. rewrite Z.mod_small; lia. Qed.

Lemma sel_accepts_range f : sel_accepts f = true <-> 0 <= f < FD_SETSIZE.
Proof. unfold sel_accepts. rewrite andb_true_iff, Z.leb_le, Z.ltb_lt. lia. Qed.

Lemma max_fd_from l n :
  Forall (fun e => sel_accepts (fd e) = true) l -> 0 <= n < FD_SETSIZE ->
  let m := fold_left (fun n e => if n <? fd e then s16 (fd e) else n) l n in
  n <= m < FD_SETSIZE /\ Forall (fun e => fd e <= m) l.
Proof.
  intros Hl. revert n. induction Hl as [|e l He _ IH]; intros n Hn; simpl; [auto with lia |].
  apply sel_accepts_range in He. unfold FD_SETSIZE in *. rewrite s16_id by lia.
  destruct (Z.ltb_spec n (fd e)).
  - destruct (IH (fd e)) as [? ?]; [lia |]. split; [lia |]. constructor; [lia | done].
  - destruct (IH n) as [? ?]; [lia |]. split; [lia |]. constructor; [lia | done].
Qed.

Lemma selector_NoDup s : selector_inv s -> NoDup (sel_cells s).*1.
Proof. intros [Hn _]. by rewrite sel_cells_fst. Qed.

Lemma counts_small s :
  selector_inv s -> 0 <= read_size s <= 1024 /\ 0 <= write_size s <= 1024 /\
  0 <= error_size s <= 1024 /\ zlen (_fds s) <= 1024.
Proof.
  intros (Hn & Hf & -> & -> & -> & _). pose proof (sel_bound _ Hn Hf).
  pose proof (count_of_range canRead (_fds s)). pose proof (count_of_range canWrite (_fds s)).
  pose proof (count_of_range hasError (_fds s)). unfold FD_SETSIZE in *. lia.
Qed.

Lemma b2z_range b : 0 <= b2z b <= 1.
Proof. destruct b; simpl; lia. Qed.

Lemma count_out_ok e l s :
  selector_inv s -> _fds s ≡ₚ e :: l ->
  read_size (count_out e s) = count_of canRead l /\
  write_size (count_out e s) = count_of canWrite l /\
  error_size (count_out e s) = count_of hasError l.
Proof.
  intros Hi Hp. pose proof (counts_small s Hi). destruct Hi as (_ & _ & Hr & Hw & Hx & _).
  rewrite (count_of_perm _ _ _ Hp) in Hr. rewrite (count_of_perm _ _ _ Hp) in Hw.
  rewrite (count_of_perm _ _ _ Hp) in Hx. simpl in *.
  pose proof (b2z_range (canRead e)). pose proof (b2z_range (canWrite e)).
  pose proof (b2z_range (hasError e)). rewrite !s16_id; lia.
Qed.

Lemma count_in_ok e l s :
  zlen l <= 1024 -> read_size s = count_of canRead l -> write_size s = count_of canWrite l ->
  error_size s = count_of hasError l ->
  read_size (count_in e s) = count_of canRead (e :: l) /\
  write_size (count_in e s) = count_of canWrite (e :: l) /\
  error_size (count_in e s) = count_of hasError (e :: l).
Proof.
  intros Hl Hr Hw Hx. simpl.
  pose proof (count_of_range canRead l). pose proof (count_of_range canWrite l).
  pose proof (count_of_range hasError l). pose proof (b2z_range (canRead e)).
  pose proof (b2z_range (canWrite e)). pose proof (b2z_range (hasError e)).
  rewrite !s16_id; lia.
Qed.

Lemma selector_add_ok e s :
  selector_inv s -> exists b s', add_fd e s = Ret (b, s') /\ selector_inv s' /\
    (b, selector_view s') = spec_call sel_accepts id (CallAdd e) (selector_view s).
Proof.
  intros Hi. unfold add_fd. simpl.
  rewrite (bool_decide_ext (is_Some _) (~ selector_view s !! fd e = None))
    by (rewrite sel_view_dom, <- not_eq_None_Some; done).
  rewrite bool_decide_not. unfold sel_accepts.
  destruct (Z.leb_spec FD_SETSIZE (fd e)); destruct (Z.ltb_spec (fd e) FD_SETSIZE); try lia;
    destruct (Z.ltb_spec (fd e) 0); destruct (Z.leb_spec 0 (fd e)); try lia; simpl;
    try (by exists false, s).
  destruct (bool_decide_reflect (selector_view s !! fd e = None)) as [Hn|Hn]; simpl;
    [| by exists false, s].
  assert (Hnin : fd e ∉ (sel_cells s).*1)
    by (by rewrite sel_cells_fst, <- find_fd_None, <- sel_view_dom).
  destruct (keyed_add _ (fd e) (event e, extra_data e) (selector_NoDup s Hi) Hnin) as [Hn' Hv].
  pose proof (counts_small s Hi) as Hsm. destruct Hi as (Hnd & Hf & Hr & Hw & Hx & Hm & Hle).
  assert (Hp : _fds s ++ [e] ≡ₚ e :: _fds s) by (by rewrite Permutation_app_comm).
  unfold FD_SETSIZE in *. rewrite s16_id by lia.
  set (n := if ndfs s <? fd e then fd e else ndfs s).
  set (s1 := mk _ _ _ _ _).
  destruct (count_in_ok e (_fds s) s1) as (Hr' & Hw' & Hx'); [lia | done | done | done |].
  exists true, (count_in e s1). split; [done |]. split.
  - assert (Hn1 : 0 <= n < 1024 /\ ndfs s <= n /\ fd e <= n)
      by (unfold n; destruct (Z.ltb_spec (ndfs s) (fd e)); lia).
    rewrite <- !(count_of_perm _ _ _ Hp) in *. split_and!; try done.
    + change (_fds (count_in e s1)) with (_fds s ++ [e]).
      rewrite fmap_app in Hn'. rewrite sel_cells_fst in Hn'. rewrite fmap_app. exact Hn'.
    + apply Forall_app. split; [done |]. constructor; [| done]. apply sel_accepts_range. unfold FD_SETSIZE. lia.
    + change (0 <= n). lia.
    + change (n < 1024). lia.
    + apply Forall_app. split; [| constructor; [change (fd e <= n); lia | done]].
      eapply list.Forall_impl; [done |]. simpl. intros; lia.
  - f_equal. etrans; [| exact Hv]. unfold selector_view, sel_cells. simpl. by rewrite fmap_app.
Qed.

Lemma find_cell e s i : _fds s !! i = Some e -> sel_cells s !! i = Some (sel_cell e).
Proof. intros He. unfold sel_cells. by rewrite list_lookup_fmap, He. Qed.

Lemma sel_view_absent s f : find_fd f (_fds s) = None -> selector_view s !! f = None.
Proof. by rewrite sel_view_dom. Qed.

Lemma selector_remove_ok f c s :
  selector_inv s -> exists s', remove_fd f c s = Ret s' /\ selector_inv s' /\
    selector_view s' = delete f (selector_view s).
Proof.
  intros Hi. unfold remove_fd. destruct (find_fd f (_fds s)) as [i|] eqn:Ef.
  2:{ exists s. split_and!; [done | done |]. rewrite delete_id; [done |]. by apply sel_view_absent. }
  apply find_fd_Some in Ef as (e & He & <-). rewrite He. simpl.
  destruct (swap_remove_ok (_fds s) (Z.of_nat i) e) as (b & l' & _ & _ & E & Hp & _);
    [lia | by rewrite Nat2Z.id |].
  rewrite E. simpl. destruct (count_out_ok e l' s Hi Hp) as (Hr & Hw & Hx).
  assert (Hc : sel_cells s ≡ₚ sel_cell e :: (sel_cell <$> l'))
    by (unfold sel_cells; by rewrite Hp).
  destruct (keyed_remove _ _ _ (selector_NoDup s Hi) Hc) as [Hn Hv].
  destruct Hi as (_ & Hf & _ & _ & _ & Hm & Hle).
  rewrite Hp in Hf, Hle. apply list.Forall_cons in Hf as [_ Hf]. apply list.Forall_cons in Hle as [_ Hle].
  destruct (max_fd_from l' 0 Hf) as [Hmax Hmle]; [unfold FD_SETSIZE; lia |].
  eexists. split; [done |]. split; [| exact Hv].
  rewrite <- list_fmap_compose in Hn.
  assert (Hnd : forall n, n = max_fd l' \/ n = ndfs s ->
            0 <= n < FD_SETSIZE /\ Forall (fun e => fd e <= n) l').
  { intros n [-> | ->]; [split; [unfold max_fd; lia | done] | split; [lia | done]]. }
  change (ndfs (count_out e s)) with (ndfs s).
  destruct (Hnd (if fd e =? ndfs s then max_fd l' else ndfs s)) as [Hn1 Hn2].
  { destruct (fd e =? ndfs s); auto. }
  split_and!; try done. all: apply Hn1.
Qed.

Lemma update_perm {A} (l : list A) i x y :
  l !! i = Some x -> exists r, l ≡ₚ x :: r /\ <[i := y]> l ≡ₚ y :: r.
Proof.
  intros Hx. exists (take i l ++ drop (S i) l). split.
  - rewrite <- (take_drop_middle l i x Hx) at 1. by rewrite Permutation_middle.
  - rewrite insert_take_drop by (by eapply lookup_lt_Some). by rewrite Permutation_middle.
Qed.

Lemma selector_update_ok e s :
  selector_inv s -> exists s', update_fd e s = Ret s' /\ selector_inv s' /\
    selector_view s' = alter (fun _ => entry id e) (fd e) (selector_view s).
Proof.
  intros Hi. unfold update_fd. destruct (find_fd (fd e) (_fds s)) as [i|] eqn:Ef.
  2:{ exists s. split_and!; [done | done |]. rewrite alter_absent; [done |]. by apply sel_view_absent. }
  apply find_fd_Some in Ef as (old & He & Hfd). rewrite He. simpl.
  destruct (update_perm (_fds s) i old e He) as (r & Hp & Hp').
  destruct (count_out_ok old r s Hi Hp) as (Hr & Hw & Hx).
  destruct (keyed_update _ _ _ (entry id e) (selector_NoDup s Hi) (find_cell _ _ _ He)) as [Hk Hv].
  pose proof (counts_small s Hi) as (_ & _ & _ & Hlen).
  destruct Hi as (Hn & Hf & _ & _ & _ & Hm & Hle).
  assert (Hri : zlen r <= 1024).
  { apply Permutation_length in Hp. unfold zlen in *. simpl in Hp. lia. }
  set (s1 := mk _ _ _ _ _).
  destruct (count_in_ok e r s1 Hri Hr Hw Hx) as (Hr' & Hw' & Hx').
  assert (Hfd' : fd <$> <[i := e]> (_fds s) = fd <$> _fds s).
  { rewrite list_fmap_insert, <- Hfd. apply list_insert_id. by rewrite list_lookup_fmap, He. }
  exists (count_in e s1). split; [done |]. split.
  - rewrite <- (count_of_perm _ _ _ Hp') in Hr'. rewrite <- (count_of_perm _ _ _ Hp') in Hw'.
    rewrite <- (count_of_perm _ _ _ Hp') in Hx'.
    assert (Hall : forall P : Z -> Prop, Forall (fun e => P (fd e)) (_fds s) ->
                     Forall (fun e => P (fd e)) (<[i := e]> (_fds s))).
    { intros P HP. apply list.Forall_fmap. rewrite Hfd'. by apply list.Forall_fmap. }
    split_and!; try done.
    + change (NoDup (fd <$> <[i := e]> (_fds s))). by rewrite Hfd'.
    + by apply (Hall (fun f => sel_accepts f = true)).
    + apply Hm.
    + apply Hm.
    + by apply (Hall (fun f => f <= ndfs s)).
  - rewrite <- Hfd. etrans; [| exact Hv]. unfold selector_view, sel_cells. simpl. f_equal.
    rewrite list_fmap_insert. unfold sel_cell at 1. by rewrite Hfd.
Qed.

Lemma selector_empty_ok : selector_inv Selector.empty.
Proof. unfold selector_inv, FD_SETSIZE. simpl. split_and!; (done || constructor). Qed.

Lemma selector_call_ok c s :
  selector_inv s -> exists b s', exec_call c s = Ret (b, s') /\ selector_inv s' /\
    (b, selector_view s') = spec_call sel_accepts id c (selector_view s).
Proof.
  intros Hi. destruct c as [e | f cl | | e]; simpl.
  - destruct (selector_add_ok e s Hi) as (b & s' & E & Hi' & Hv). eauto.
  - destruct (selector_remove_ok f cl s Hi) as (s' & E & Hi' & Hv). rewrite E. simpl.
    rewrite <- Hv. eauto.
  - exists true, Selector.empty. split_and!; [done | apply selector_empty_ok | done].
  - destruct (selector_update_ok e s Hi) as (s' & E & Hi' & Hv). rewrite E. simpl.
    rewrite <- Hv. eauto.
Qed.

Lemma selector_size_ok s : selector_inv s -> Selector.fd_size s = Z.of_nat (size (selector_view s)).
Proof.
  intros Hi. unfold Selector.fd_size, zlen. f_equal. unfold selector_view.
  rewrite <- length_map_to_list, map_to_list_to_map by (by apply selector_NoDup).
  unfold sel_cells. by rewrite length_fmap.
Qed.
End SelectorLaws.

#[export] Instance selector_laws : MonitorLaws Selector.t sel_accepts id.
Proof.
  refine {| mon_inv := selector_inv; view := selector_view; call_ok := selector_call_ok;
            size_ok := selector_size_ok |}.
  - split; [apply selector_empty_ok | done].
  - intros f m Hm. apply bool_decide_ext. rewrite <- !not_eq_None_Some.
    by rewrite sel_view_dom.
Defined.

(** ** Properties *)

(** C15. From an empty monitor, any sequence of [add_fd], [remove_fd], [remove_all] and
    [update_fd] calls on a [Poller] succeeds, and the descriptors it watches, with the masks
    it hands to [poll] and the data it reports, are those the calls describe: the parallel
    vectors and the index map never come apart. *)
Theorem poller_refines cs :
  exists s, exec_run cs Poller.empty = Ret s /\ poller_inv s /\
    poller_view s = spec_run (fun f => 0 <=? f) s16 cs ∅ /\
    Poller.fd_size s = Z.of_nat (size (spec_run (fun f => 0 <=? f) s16 cs ∅)).
Proof.
  destruct (run_ok cs Poller.empty) as (s & E & Hi & Hv); [exact (proj1 (empty_ok (M := Poller.t))) |].
  exists s. split_and!; [done | exact Hi | exact Hv |].
  rewrite (poller_size_ok s Hi). by change (poller_view s) with (view s); rewrite Hv.
Qed.

(** The descriptors of a watched set whose mask asks for [p]. *)
Definition selects (p : Event -> bool) (w : watched) : gset Z :=
  dom (filter (fun fc => p (mkEvent fc.1 fc.2.1 fc.2.2) = true) w).

Lemma elem_of_selects p f w :
  f ∈ selects p w <-> exists m x, w !! f = Some (m, x) /\ p (mkEvent f m x) = true.
Proof.
  unfold selects. rewrite elem_of_dom. split.
  - intros [[m x] [Hf Hp]%map_lookup_filter_Some]. eauto.
  - intros (m & x & Hf & Hp). exists (m, x). by apply map_lookup_filter_Some.
Qed.

(** What [init_fd_set] collects, and what the counter of the set counts. *)
Lemma selector_selects p s :
  selector_inv s ->
  list_to_set (fd <$> filter (fun e => p e = true) (Selector._fds s)) = selects p (selector_view s) /\
  count_of p (Selector._fds s) = Z.of_nat (size (selects p (selector_view s))).
Proof.
  intros Hi. pose proof (selector_NoDup s Hi) as Hc. destruct Hi as [Hn _].
  assert (Hs : list_to_set (fd <$> filter (fun e => p e = true) (Selector._fds s))
               = selects p (selector_view s)).
  { apply set_eq. intros f. rewrite elem_of_selects, elem_of_list_to_set, list_elem_of_fmap.
    setoid_rewrite list_elem_of_filter. unfold selector_view.
    setoid_rewrite <- elem_of_list_to_map; [| exact Hc]. unfold sel_cells. split.
    - intros (e & -> & Hp & He). exists (event e), (extra_data e). split; [|by destruct e].
      apply list_elem_of_fmap. by exists e.
    - intros (m & x & (e & He & Hin)%list_elem_of_fmap & Hp). injection He as -> -> ->.
      exists e. split; [done |]. split; [by destruct e | done]. }
  split; [exact Hs |]. rewrite <- Hs, size_list_to_set.
  - rewrite length_fmap. clear. induction (Selector._fds s) as [|e l IH]; [done |]. simpl.
    rewrite filter_cons, IH. unfold Selector.b2z.
    destruct (decide (p e = true)) as [He|He]; [rewrite He; simpl; lia |].
    apply not_true_is_false in He. rewrite He. simpl. lia.
  - clear -Hn. induction (Selector._fds s) as [|e l IH]; [constructor |]. simpl in Hn.
    apply list.NoDup_cons in Hn as [He Hn]. rewrite filter_cons. case_decide; [|by apply IH]. simpl.
    apply list.NoDup_cons. split; [| by apply IH]. intros (x & Hx & Hin)%list_elem_of_fmap.
    apply list_elem_of_filter in Hin as [_ Hin]. apply He. rewrite Hx. by apply list_elem_of_fmap_2.
Qed.

(** C16. The same for a [Selector], whose descriptors are below [FD_SETSIZE]: after any calls
    the three sets [init_fd_set] gives to [select] are the watched descriptors whose mask asks
    for reading, writing and errors; the three counters, 16 bits wide, are the sizes of these
    sets, so they decide exactly which of them [select] sees; and [ndfs] is below [FD_SETSIZE]
    and at least every watched descriptor. *)
Theorem selector_refines cs :
  exists s, exec_run cs Selector.empty = Ret s /\
    let w := spec_run sel_accepts id cs ∅ in
    selector_view s = w /\ Selector.fd_size s = Z.of_nat (size w) /\
    Selector.init_fd_set s = (selects canRead w, selects canWrite w, selects hasError w) /\
    Selector.read_size s = Z.of_nat (size (selects canRead w)) /\
    Selector.write_size s = Z.of_nat (size (selects canWrite w)) /\
    Selector.error_size s = Z.of_nat (size (selects hasError w)) /\
    0 <= Selector.ndfs s < Selector.FD_SETSIZE /\
    forall f, f ∈ dom w -> f <= Selector.ndfs s.
Proof.
  destruct (run_ok cs Selector.empty) as (s & E & Hi & Hv); [exact (proj1 (empty_ok (M := Selector.t))) |].
  exists s. split; [done |]. cbv zeta. change (selector_view s = spec_run sel_accepts id cs ∅) in Hv.
  rewrite <- Hv. destruct (selector_selects canRead s Hi) as [Hr Nr].
  destruct (selector_selects canWrite s Hi) as [Hw Nw].
  destruct (selector_selects hasError s Hi) as [Hx Nx].
  split; [done |]. split; [by apply selector_size_ok |].
  split; [unfold Selector.init_fd_set; by rewrite Hr, Hw, Hx |].
  pose proof Hi as (_ & _ & -> & -> & -> & Hm & Hle). do 3 (split; [done |]). split; [exact Hm |].
  intros f [[m x] Hf]%elem_of_dom. apply elem_of_list_to_map in Hf; [|by apply selector_NoDup].
  apply list_elem_of_fmap in Hf as (e & [= -> _ _] & He). by apply (list.Forall_forall _ _) with (x := e) in Hle.
Qed.

(** What [poll] writes changes nothing but the [revents]. *)
Lemma set_revents_ok rs s : poller_inv s -> length rs = length (Poller._fds s) ->
  poller_inv (Poller.set_revents rs s) /\ poller_view (Poller.set_revents rs s) = poller_view s.
Proof.
  intros [Hl Hm] Hrs. destruct s as [fds datas m]. simpl in *.
  assert (Hk : forall j, Poller.pfd <$> zip_with (fun p r => Poller.mkPollfd (Poller.pfd p) (Poller.events p) r) fds rs !! j
                       = Poller.pfd <$> fds !! j).
  { intros j. rewrite lookup_zip_with. destruct (fds !! j) eqn:Ej; simpl; [| done].
    destruct (lookup_lt_is_Some_2 rs j) as [r ->]; [| done].
    apply lookup_lt_Some in Ej. lia. }
  split; [split |]; simpl.
  - rewrite length_zip_with. lia.
  - intros f i. by rewrite Hk.
  - unfold poller_view, poller_cells. simpl. f_equal. clear Hm Hk.
    revert datas rs Hl Hrs. induction fds as [|p fds IH]; intros [|d datas] [|r rs] Hl Hrs;
      simpl in *; try discriminate; [done |]. f_equal. apply IH; lia.
Qed.

(** The events a [Poller] reports after [poll] are, in order, the watched descriptors whose
    [revents] the kernel set, each with the data it was registered with. *)
Theorem poller_reports poll timeoutMS l s active rs :
  poller_inv s -> poll (Poller._fds s) timeoutMS = (active, rs) ->
  length rs = length (Poller._fds s) -> 0 < active ->
  exists s', Poller.get_aliveEvent poll timeoutMS l s = Ret (active,
      l ++ omap (fun '(p, (d, r)) => if 0 <? r then Some (mkEvent (Poller.pfd p) r d) else None)
             (zip (Poller._fds s) (zip (Poller._datas s) rs)), s') /\
    poller_inv s' /\ poller_view s' = poller_view s.
Proof.
  intros Hi Hpoll Hrs Ha. pose proof Hi as [Hl Hm]. unfold Poller.get_aliveEvent. rewrite Hpoll.
  rewrite (proj2 (Z.ltb_lt 0 active) Ha). unfold Poller.get_events. destruct s as [fds datas m].
  simpl in *.
  assert (Hev : forall l, Poller.get_events_from
      (zip_with (fun p r => Poller.mkPollfd (Poller.pfd p) (Poller.events p) r) fds rs) datas l =
      Ret (l ++ omap (fun '(p, (d, r)) => if 0 <? r then Some (mkEvent (Poller.pfd p) r d) else None)
             (zip fds (zip datas rs)))).
  { clear Hi Hm Hpoll. revert datas rs Hl Hrs. induction fds as [|p fds IH];
      intros [|d datas] [|r rs] Hl Hrs l0; simpl in *; try discriminate; [by rewrite app_nil_r |].
    rewrite IH by lia. f_equal. rewrite Z.leb_antisym. destruct (0 <? r); simpl; [| done].
    by rewrite <- app_assoc. }
  rewrite Hev. simpl. eexists. split; [done |]. by apply (set_revents_ok rs (Poller.mk fds datas m)).
Qed.

Definition demo_poller : Poller.t :=
  Poller.mk [Poller.mkPollfd 5 1 0; Poller.mkPollfd 7 4 0] [50; 70] {[5 := 0; 7 := 1]}.

Definition demo_poll (fds : list Poller.pollfd) (timeoutMS : Z) : Z * list Z := (1, [0; 4]).

Lemma demo_poller_inv : poller_inv demo_poller.
Proof.
  destruct (run_ok [CallAdd (mkEvent 5 1 50); CallAdd (mkEvent 7 4 70)] Poller.empty)
    as (s & E & Hi & _); [exact (proj1 (empty_ok (M := Poller.t))) |].
  assert (Hd : Ret s = Ret demo_poller) by (rewrite <- E; reflexivity).
  injection Hd as ->. exact Hi.
Qed.

Lemma poller_reports_witness :
  exists s', Poller.get_aliveEvent demo_poll 10 [] demo_poller = Ret (1, [mkEvent 7 4 70], s') /\
    poller_inv s' /\ poller_view s' = poller_view demo_poller.
Proof.
  apply (poller_reports demo_poll 10 [] demo_poller 1 [0; 4]);
    [apply demo_poller_inv | reflexivity | reflexivity | lia].
Defined.

(** ** Where EPoller breaks the laws *)

Definition accept_all (past : list EPoller.call) (c : EPoller.call) : bool := true.

(** [EPoller::update_fd] with a new mask asks the kernel for the old one: the call that goes
    out, and the event that stays stored, carry the mask the descriptor already had. *)
Theorem epoller_update_keeps_mask ctl s e old :
  EPoller._fds s !! fd e = Some old -> is_NoEvent e = false -> event old <> event e ->
  exists s', EPoller.update_fd ctl e s = Ret s' /\
    EPoller.calls s' = EPoller.calls s ++ [(EPoller.CTL_MOD, fd old, event old)] /\
    event <$> EPoller._fds s' !! fd e = Some (event old).
Proof.
  intros Hold Hne Hev. unfold EPoller.update_fd. rewrite Hold, Hne.
  rewrite (proj2 (Z.eqb_neq _ _) Hev). eexists. split; [done |]. simpl.
  by rewrite lookup_insert_eq.
Qed.

Lemma epoller_update_keeps_mask_witness :
  exists s', EPoller.update_fd accept_all (mkEvent 5 POLLOUT 0)
      (EPoller.mk {[5 := mkEvent 5 POLLIN 0]} 1 []) = Ret s' /\
    EPoller.calls s' = [(EPoller.CTL_MOD, 5, POLLIN)] /\
    event <$> EPoller._fds s' !! 5 = Some POLLIN.
Proof.
  apply (epoller_update_keeps_mask accept_all (EPoller.mk {[5 := mkEvent 5 POLLIN 0]} 1 [])
           (mkEvent 5 POLLOUT 0) (mkEvent 5 POLLIN 0)); [reflexivity | reflexivity | done].
Defined.

(** [update_fd] with [NoEvent] erases the node and then reads it. *)
Example epoller_update_noevent :
  EPoller.update_fd accept_all (mkEvent 5 NoEvent 0)
    (EPoller.mk {[5 := mkEvent 5 POLLIN 0]} 1 []) = Fault BadPointer.
Proof. reflexivity. Qed.

(** A descriptor added with [NoEvent] is filed under its negation and cannot be found. *)
Example epoller_add_noevent :
  exists s, EPoller.add_fd accept_all (mkEvent 5 NoEvent 0) EPoller.empty = Ret (true, s) /\
    EPoller.exist_fd 5 s = false.
Proof. eexists. split; reflexivity. Qed.
