(* ===== verification/Interpreter.v ===== *)
(** * Base/BPTree_impls/Interpreter.hpp: the byte layout of B+ tree blocks

    A block is a buffer of [BLOCK_SIZE] bytes.  The helpers of the interpreter are pointers
    into it at fixed offsets; here they are reads and writes of little-endian fields, with a
    fault when an access leaves the buffer.  The lemmas at the end describe the
    fields of a buffer written as a concatenation of its parts. *)

From S2P Require Import Prelude.
Local Open Scope Z_scope.

Definition BLOCK_SIZE : Z := 4096.
Definition PTR_SIZE : Z := 4.

(** ** Little-endian fields *)

Fixpoint le_encode (n : nat) (z : Z) : list Z :=
  match n with
  | O => []
  | S n => z mod 256 :: le_encode n (z / 256)
  end.

Fixpoint le_decode (bs : list Z) : Z :=
  match bs with
  | [] => 0
  | b :: bs => b + 256 * le_decode bs
  end.

Definition rd (n : nat) (buf : list Z) (off : Z) : res Z :=
  bs ← mem_read buf off (Z.of_nat n); Ret (le_decode bs).
Definition wr (n : nat) (buf : list Z) (off v : Z) : res (list Z) :=
  mem_write buf off (le_encode n v).

Definition write_ptr (buf : list Z) (pos p : Z) : res (list Z) := wr 4 buf pos p.

(** ** Block kinds: the two low bits of the first byte *)

Definition kind (buf : list Z) : Z :=
  match buf with [] => -1 | b :: _ => Z.land b 3 end.

Definition is_head_block (buf : list Z) : bool := kind buf =? 0.
Definition is_record_deleted_block (buf : list Z) : bool := kind buf =? 1.
Definition is_data_block (buf : list Z) : bool := kind buf =? 2.
Definition is_index_block (buf : list Z) : bool := kind buf =? 3.

(** [memset(buffer, 0, BLOCK_SIZE)] and the kind byte. *)
Definition set_block (tag : Z) (buf : list Z) : res (list Z) :=
  buf ← mem_write buf 0 (replicate (Z.to_nat BLOCK_SIZE) 0); mem_write buf 0 [tag].

(** ** HeadBlockHelper *)

Module Head.

Definition begin_block_index (buf : list Z) : res Z := rd 4 buf 1.
Definition set_begin_block_index (buf : list Z) (v : Z) : res (list Z) := wr 4 buf 1 v.
Definition valid_blocks_size (buf : list Z) : res Z := rd 4 buf 5.
Definition set_valid_blocks_size (buf : list Z) (v : Z) : res (list Z) := wr 4 buf 5 v.
Definition begin_record_block_index (buf : list Z) : res Z := rd 4 buf 9.
Definition set_begin_record_block_index (buf : list Z) (v : Z) : res (list Z) := wr 4 buf 9 v.
Definition deleted_blocks_size (buf : list Z) : res Z := rd 4 buf 13.
Definition set_deleted_blocks_size (buf : list Z) (v : Z) : res (list Z) := wr 4 buf 13 v.

Definition have_extra_data (buf : list Z) : bool :=
  match buf with [] => false | b :: _ => negb (Z.land b 4 =? 0) end.
Definition extra_data_size (buf : list Z) : res Z := rd 2 buf 17.

(** The offset [get_pos_deleted_block] points at. *)
Definition get_pos_deleted_block (buf : list Z) (pos : Z) : res Z :=
  if have_extra_data buf
  then n ← extra_data_size buf; Ret (u32 (19 + n + u32 (pos * 4)))
  else Ret (u32 (17 + u32 (pos * 4))).

Definition can_get_deleted_block_from_this (buf : list Z) : res bool :=
  size ← deleted_blocks_size buf;
  r ← begin_record_block_index buf;
  Ret ((0 <? size) && (r =? 0)).

Definition rest_size (buf : list Z) : res Z :=
  n ← (if have_extra_data buf then n ← extra_data_size buf; Ret (2 + n) else Ret 0);
  let ret := u32 (BLOCK_SIZE - n - 17) in
  size ← deleted_blocks_size buf;
  if ret / 4 <? size then Ret (ret mod 4) else Ret (u32 (ret - u32 (size * 4))).

Definition can_add_deleted_block (buf : list Z) : res bool :=
  n ← rest_size buf; Ret (4 <=? n).

Definition get_new_record_block_index (buf : list Z) : res Z :=
  size ← deleted_blocks_size buf;
  pos ← get_pos_deleted_block buf (u32 (size - 1));
  rd 4 buf pos.

Definition add_deleted_block (buf : list Z) (index : Z) : res (list Z) :=
  size ← deleted_blocks_size buf;
  pos ← get_pos_deleted_block buf size;
  buf ← wr 4 buf pos index;
  set_deleted_blocks_size buf (u32 (size + 1)).

Definition pop_deleted_block_index (buf : list Z) : res (Z * list Z) :=
  size ← deleted_blocks_size buf;
  let size := u32 (size - 1) in
  buf ← set_deleted_blocks_size buf size;
  pos ← get_pos_deleted_block buf size;
  result ← rd 4 buf pos;
  buf ← wr 4 buf pos 0;
  Ret (result, buf).

Definition set_to_head_block (buf : list Z) : res (list Z) := set_block 0 buf.

Definition set_have_extra_data (buf : list Z) : list Z :=
  match buf with [] => [] | b :: bs => Z.lor b 4 :: bs end.

End Head.

(** ** RecordBlockHelper *)

Module Record_.

Definition last_index (buf : list Z) : res Z := rd 4 buf 1.
Definition set_last_index (buf : list Z) (v : Z) : res (list Z) := wr 4 buf 1 v.
Definition deleted_size (buf : list Z) : res Z := rd 2 buf 5.
Definition set_deleted_size (buf : list Z) (v : Z) : res (list Z) := wr 2 buf 5 v.

Definition can_get_deleted_block (buf : list Z) : res bool :=
  n ← deleted_size buf; Ret (0 <? n).
Definition get_pos_deleted_block (index : Z) : Z := u32 (7 + index * 4).
Definition can_add_deleted_block (buf : list Z) : res bool :=
  n ← deleted_size buf; Ret (n <? (BLOCK_SIZE - 7) / 4).

Definition add_deleted_block (buf : list Z) (index : Z) : res (list Z) :=
  n ← deleted_size buf;
  buf ← wr 4 buf (get_pos_deleted_block n) index;
  set_deleted_size buf (u16 (n + 1)).

Definition pop_deleted_block_index (buf : list Z) : res (Z * list Z) :=
  n ← deleted_size buf;
  let n := u16 (n - 1) in
  buf ← set_deleted_size buf n;
  result ← rd 4 buf (get_pos_deleted_block n);
  buf ← wr 4 buf (get_pos_deleted_block n) 0;
  Ret (result, buf).

(** The index expression [*deleted_size() - 1] is an [int] converted to [uint16]. *)
Definition get_new_record_block_index (buf : list Z) : res Z :=
  n ← deleted_size buf; rd 4 buf (get_pos_deleted_block (u16 (n - 1))).

Definition set_to_record_deleted_block (buf : list Z) : res (list Z) := set_block 1 buf.

End Record_.

(** ** Lemmas: a buffer as a concatenation *)

Lemma zlen_encode n z : zlen (le_encode n z) = Z.of_nat n.
Proof.
  unfold zlen. f_equal. revert z. induction n as [|n IH]; intros z; simpl; [done |]. by rewrite IH.
Qed.

Lemma le_decode_encode n z :
  0 <= z < 256 ^ Z.of_nat n -> le_decode (le_encode n z) = z.
Proof.
  revert z. induction n as [|n IH]; intros z Hz.
  - change (256 ^ Z.of_nat 0) with 1 in Hz. simpl. lia.
  - rewrite Nat2Z.inj_succ, Z.pow_succ_r in Hz by lia. cbn [le_encode le_decode].
    rewrite IH.
    + pose proof (Z.div_mod z 256). lia.
    + split; [apply Z.div_pos; lia | apply Z.div_lt_upper_bound; lia].
Qed.

Lemma rd_mid n X z W off :
  off = zlen X -> 0 <= z < 256 ^ Z.of_nat n -> rd n (X ++ le_encode n z ++ W) off = Ret z.
Proof.
  intros Ho Hz. unfold rd. rewrite mem_read_mid by (rewrite ?zlen_encode; done). simpl.
  by rewrite le_decode_encode.
Qed.

Lemma wr_mid n X z z' W off :
  off = zlen X -> wr n (X ++ le_encode n z ++ W) off z' = Ret (X ++ le_encode n z' ++ W).
Proof. intros Ho. unfold wr. apply mem_write_mid; [done |]. by rewrite !zlen_encode. Qed.

(** ** Fields of a buffer as variables

    A field written can be read back, and fields elsewhere keep their values. *)

Lemma mem_read_write_other (buf src : list Z) off o n :
  in_block off (zlen src) buf = true -> o + n <= off \/ off + zlen src <= o ->
  mem_read (blit off src buf) o n = mem_read buf o n.
Proof.
  intros Hb Ho. unfold mem_read. unfold in_block at 1 2. rewrite zlen_blit by done.
  destruct ((0 <=? o) && (0 <=? n) && (o + n <=? zlen buf)) eqn:E; [| done].
  f_equal. zbool. unfold in_block in Hb. zbool. apply list_eq. intros i.
  rewrite !lookup_slice. case_decide; [| done].
  rewrite lookup_blit by lia. case_decide; [exfalso; lia | done].
Qed.

Lemma wr_ok n buf off v :
  0 <= off -> off + Z.of_nat n <= zlen buf ->
  exists buf', wr n buf off v = Ret buf' /\ zlen buf' = zlen buf /\
    (0 <= v < 256 ^ Z.of_nat n -> rd n buf' off = Ret v) /\
    (forall m o, o + Z.of_nat m <= off \/ off + Z.of_nat n <= o -> rd m buf' o = rd m buf o) /\
    (0 < off -> head buf' = head buf).
Proof.
  intros Ho Hl. assert (Hin : in_block off (zlen (le_encode n v)) buf = true)
    by (rewrite zlen_encode; apply in_block_intro; lia).
  exists (blit off (le_encode n v) buf). unfold wr.
  rewrite mem_write_ok by (rewrite ?zlen_encode; lia).
  split_and!; [done | by apply zlen_blit | | |].
  - intros Hv. unfold rd. rewrite mem_read_ok by (rewrite ?zlen_blit by done; lia).
    unfold blit. rewrite slice_mid; [| symmetry; apply zlen_take; lia | by rewrite zlen_encode].
    simpl. by rewrite le_decode_encode.
  - intros m o Hm. unfold rd.
    rewrite mem_read_write_other; [done | exact Hin | rewrite zlen_encode; exact Hm].
  - intros Hpos. unfold blit. destruct buf as [|b buf]; [unfold zlen in Hl; simpl in Hl; lia |].
    destruct (Z.to_nat off) as [|k] eqn:Ek; [lia | done].
Qed.

Lemma kind_head buf buf' : head buf' = head buf -> kind buf' = kind buf.
Proof. destruct buf, buf'; simpl; congruence. Qed.

Lemma extra_head buf buf' : head buf' = head buf -> Head.have_extra_data buf' = Head.have_extra_data buf.
Proof. destruct buf, buf'; simpl; congruence. Qed.

(** A formatted block: zeros behind the kind byte. *)
Lemma set_block_ok t buf :
  zlen buf = BLOCK_SIZE -> set_block t buf = Ret (t :: replicate 4095 0).
Proof.
  intros Hl. unfold set_block, BLOCK_SIZE in *. change (Z.to_nat 4096) with 4096%nat.
  rewrite mem_write_ok by (rewrite ?zlen_replicate; lia). rewrite bind_ret.
  assert (Hz : blit 0 (replicate 4096 0) buf = 0 :: replicate 4095 0).
  { unfold blit. change (Z.to_nat 0) with 0%nat. rewrite take_0, zlen_replicate, app_nil_l.
    rewrite drop_ge, app_nil_r; [done |]. unfold zlen in Hl. lia. }
  rewrite Hz, mem_write_ok; [| lia |].
  - unfold blit. change (Z.to_nat (0 + zlen [t])) with 1%nat. done.
  - rewrite (zlen_cons 0 (replicate 4095 0)), zlen_replicate. change (zlen [t]) with 1. lia.
Qed.

#[export] Hint Rewrite zlen_encode : lens.
#[global] Opaque le_encode.
