(* ===== verification/Packed.v ===== *)
(** * Base/BPTree_impls: IndexBlock_Impl and DataBlock_Impl inside one buffer

    Both block classes keep a sorted array of fixed-size pairs behind a small header, and
    their code is the same at two layouts: [IndexBlock_Impl] has a 3-byte header and pairs of
    a key and a 32-bit block number, [DataBlock_Impl] an 11-byte header and pairs of a key and
    a value.  The operations are written once over a [layout] and instantiated below.

    [DataBlock_Impl] also has branches for values of varying size; they do not compile (the
    checker class has no [get_size] there) and are left out. *)

From Stdlib Require Strings.Byte.
From stdpp Require Import sorting.
From S2P Require Import Prelude Interpreter.
Local Open Scope Z_scope.

(** [size_helper<T>]: the size of a directly replicable type, and its bytes. *)
Class Fixed (T : Type) := {
  size_of : Z;
  enc : T -> list Z;
  dec : list Z -> T }.

Class FixedLaws (T : Type) `{Fixed T} := {
  size_pos : 0 < size_of (T := T);
  enc_size (x : T) : zlen (enc x) = size_of (T := T);
  dec_enc (x : T) : dec (enc x) = x }.

(** [operator<] and [operator==] of the keys. *)
Class KeyOrder (K : Type) := { klt : K -> K -> bool; keq : K -> K -> bool }.

Class KeyOrderLaws (K : Type) `{KeyOrder K} := {
  klt_irrefl (x : K) : klt x x = false;
  klt_trans (x y z : K) : klt x y = true -> klt y z = true -> klt x z = true;
  klt_total (x y : K) : klt x y = false -> klt y x = false -> x = y;
  keq_eq (x y : K) : keq x y = true <-> x = y }.

(** A block object: the index it was opened with, its two flags and its buffer. *)
Record Block := mkBlock {
  _index : Z; _need_update : bool; _need_put_back : bool; _buffer : list Z }.

Definition with_buffer (b : Block) (u : bool) (buf : list Z) : Block :=
  mkBlock (_index b) u (_need_put_back b) buf.

Record layout := mkLayout { tag : Z; size_off : Z }.

Section Packed.
Context (L : layout) {K V : Type} `{Fixed K, Fixed V, KeyOrder K}.
Abbreviation KeySize := (size_of (T := K)).

Definition BeginPos : Z := size_off L + 2.
Definition PairSize : Z := KeySize + size_of (T := V).

Definition get_size (buf : list Z) : res Z := rd 2 buf (size_off L).
Definition set_size (buf : list Z) (v : Z) : res (list Z) := wr 2 buf (size_off L) (u16 v).

Definition check_kind (buf : list Z) : res unit := mcheck (kind buf =? tag L) Thrown.

Definition get_key (buf : list Z) (offset : Z) : res K :=
  _ ← check_kind buf; bs ← mem_read buf offset KeySize; Ret (dec bs).
Definition get_value (buf : list Z) (offset : Z) : res V :=
  _ ← check_kind buf;
  bs ← mem_read buf (u32 (offset + KeySize)) (size_of (T := V)); Ret (dec bs).
Definition get_offset (buf : list Z) (from n : Z) : res Z :=
  _ ← check_kind buf; Ret (u32 (from + n * PairSize)).

Definition begin_pos : Z := BeginPos.
Definition end_pos (b : Block) : res Z := size ← get_size (_buffer b); Ret (BeginPos + size).

Definition can_insert (b : Block) : res bool :=
  size ← get_size (_buffer b); Ret (size + PairSize + BeginPos <=? BLOCK_SIZE).

Definition insert (pos : Z) (key : K) (val : V) (b : Block) : res Block :=
  let buf := _buffer b in
  size ← get_size buf;
  let behind_size := u32 (size + BeginPos - pos) in
  buf ← mem_move buf (pos + PairSize) pos behind_size;
  buf ← mem_write buf pos (enc key);
  buf ← mem_write buf (pos + KeySize) (enc val);
  size ← get_size buf;
  buf ← set_size buf (size + PairSize);
  Ret (with_buffer b true buf).

Definition update_key (pos : Z) (key : K) (b : Block) : res Block :=
  _ ← check_kind (_buffer b);
  buf ← mem_write (_buffer b) pos (enc key);
  Ret (with_buffer b true buf).

Definition update_value (pos : Z) (val : V) (b : Block) : res Block :=
  _ ← check_kind (_buffer b);
  buf ← mem_write (_buffer b) (u32 (pos + KeySize)) (enc val);
  Ret (with_buffer b true buf).

(** [erase] of one pair; the result says whether the block is still more than half full. *)
Definition erase (pos : Z) (b : Block) : res (bool * Block) :=
  let buf := _buffer b in
  size ← get_size buf;
  let behind_size := u32 (size + BeginPos - pos - PairSize) in
  buf ← mem_move buf pos (pos + PairSize) behind_size;
  size ← get_size buf;
  buf ← set_size buf (size - PairSize);
  size ← get_size buf;
  Ret ((BLOCK_SIZE - BeginPos) / 2 <? size, with_buffer b true buf).

Definition erase_range (first last : Z) (b : Block) : res Block :=
  let buf := _buffer b in
  size ← get_size buf;
  let behind_size := u32 (size + BeginPos - last) in
  buf ← mem_move buf first last behind_size;
  size ← get_size buf;
  buf ← set_size buf (size - (last - first));
  Ret (with_buffer b true buf).

(** [merge]: the other block is left empty. *)
Definition merge (b other : Block) : res (Block * Block) :=
  size ← get_size (_buffer b);
  osize ← get_size (_buffer other);
  data ← mem_read (_buffer other) BeginPos osize;
  buf ← mem_write (_buffer b) (size + BeginPos) data;
  size ← get_size buf;
  buf ← set_size buf (size + osize);
  obuf ← set_size (_buffer other) 0;
  Ret (with_buffer b true buf, mkBlock (_index other) (_need_update other) (_need_put_back other) obuf).

Definition move_other_block_data (dest : Block) (dest_pos : Z) (src : Block)
    (src_pos size : Z) : res (Block * Block) :=
  dsize ← get_size (_buffer dest);
  let dest_behind := u32 (dsize + BeginPos - dest_pos) in
  dbuf ← mem_move (_buffer dest) (dest_pos + size) dest_pos dest_behind;
  data ← mem_read (_buffer src) src_pos size;
  dbuf ← mem_write dbuf dest_pos data;
  dsize ← get_size dbuf;
  dbuf ← set_size dbuf (dsize + size);
  ssize ← get_size (_buffer src);
  let src_behind := u32 (ssize + BeginPos - src_pos - size) in
  sbuf ← mem_move (_buffer src) src_pos (src_pos + size) src_behind;
  ssize ← get_size sbuf;
  sbuf ← set_size sbuf (ssize - size);
  Ret (with_buffer dest true dbuf, with_buffer src true sbuf).

(** The binary search of [lower_bound]; the interval halves, so [BLOCK_SIZE] rounds are more
    than enough. *)
Fixpoint lower_bound_loop (fuel : nat) (buf : list Z) (key : K) (first last : Z) : res Z :=
  let size := (last - first) / PairSize in
  if size <=? 0 then Ret last else
  match fuel with
  | O => Fault OutOfFuel
  | S fuel =>
      let mid := first + (size / 2) * PairSize in
      k ← get_key buf mid;
      if klt k key then lower_bound_loop fuel buf key (mid + PairSize) last
      else if keq k key then Ret mid
      else lower_bound_loop fuel buf key first mid
  end.

Definition lower_bound (key : K) (b : Block) : res Z :=
  size ← get_size (_buffer b);
  lower_bound_loop (Z.to_nat BLOCK_SIZE) (_buffer b) key BeginPos (BeginPos + size).

(** [split]: the upper half of the pairs goes to the empty [new_block], and the new pair to
    whichever side it belongs. *)
Definition split (b new_block : Block) (key : K) (val : V) : res (Block * Block) :=
  this_size ← get_size (_buffer b);
  let target_size := (this_size + PairSize) / PairSize / 2 in
  lb ← lower_bound key b;
  let target_pos := (lb - BeginPos) / PairSize in
  if target_pos <? target_size then
    let move_size := u32 (this_size - (target_size - 1) * PairSize) in
    '(new_block, b) ← move_other_block_data new_block BeginPos b
                         (this_size + BeginPos - move_size) move_size;
    b ← insert (target_pos * PairSize + BeginPos) key val b;
    Ret (b, new_block)
  else
    let move_size := u32 (this_size - target_size * PairSize) in
    '(new_block, b) ← move_other_block_data new_block BeginPos b
                         (this_size + BeginPos - move_size) move_size;
    new_block ← insert ((target_pos - target_size) * PairSize + BeginPos) key val new_block;
    Ret (b, new_block).

Definition average (b other : Block) : res (Block * Block) :=
  size ← get_size (_buffer b);
  osize ← get_size (_buffer other);
  let half_kv_pair := (size + osize) / PairSize / 2 in
  if osize <? size then
    let move_size := u32 (size - half_kv_pair * PairSize) in
    '(other, b) ← move_other_block_data other BeginPos b
                     (half_kv_pair * PairSize + BeginPos) move_size;
    Ret (b, other)
  else
    let move_size := u32 (osize - half_kv_pair * PairSize) in
    move_other_block_data b (BeginPos + size) other BeginPos move_size.

Definition merge_keep_average (b other : Block) : res Z :=
  let MaxBlockSize := BLOCK_SIZE - BeginPos in
  this_size ← get_size (_buffer b);
  other_size ← get_size (_buffer other);
  if this_size + other_size <=? MaxBlockSize then Ret 1
  else
    let difference := if other_size <? this_size then this_size - other_size
                      else other_size - this_size in
    if difference <? MaxBlockSize / 2 then Ret 0 else Ret (-1).

(** ** The sequence of pairs a block holds *)

Definition enc_pair (p : K * V) : list Z := enc p.1 ++ enc p.2.
Definition body (es : list (K * V)) : list Z := mjoin (enc_pair <$> es).

(** [buf] holds the pairs [es] behind the header bytes [pre]. *)
Definition rep (pre : list Z) (es : list (K * V)) (buf : list Z) : Prop :=
  zlen pre = size_off L /\ kind pre = tag L /\ zlen buf = BLOCK_SIZE /\
  exists tail, buf = pre ++ le_encode 2 (zlen (body es)) ++ body es ++ tail.

Definition fits (n : Z) : Prop := BeginPos + n * PairSize <= BLOCK_SIZE.
End Packed.

Section PackedLaws.
Context (L : layout) {K V : Type} `{FixedLaws K, FixedLaws V, KeyOrderLaws K}.
Context (Hlayout : 0 < size_off L).
Implicit Types (es A B C D M : list (K * V)) (pre buf : list Z) (b : Block).
Abbreviation PairSize := (PairSize (K := K) (V := V)).
Abbreviation fits := (fits L (K := K) (V := V)).

Lemma PairSize_pos : 0 < PairSize.
Proof. unfold PairSize. pose proof (size_pos (T := K)). pose proof (size_pos (T := V)). lia. Qed.

Lemma zlen_enc_pair (p : K * V) : zlen (enc_pair p) = PairSize.
Proof. unfold enc_pair. by rewrite zlen_app, !enc_size. Qed.

Lemma body_app A B : body (A ++ B) = body A ++ body B.
Proof. unfold body. by rewrite fmap_app, join_app. Qed.

Lemma body_cons p B : body (p :: B) = enc_pair p ++ body B.
Proof. reflexivity. Qed.

Lemma zlen_body es : zlen (body es) = zlen es * PairSize.
Proof.
  induction es as [|p es IH]; [reflexivity |].
  rewrite body_cons, zlen_app, zlen_enc_pair, IH, zlen_cons. lia.
Qed.

Lemma rep_body_bound pre es buf :
  rep L pre es buf -> 0 <= zlen (body es) <= BLOCK_SIZE - BeginPos L.
Proof.
  intros (Hp & _ & Hb & tail & ->). rewrite !zlen_app, zlen_encode in Hb.
  pose proof (zlen_nonneg tail). pose proof (zlen_nonneg (body es)). unfold BeginPos. lia.
Qed.

Lemma rep_get_size pre es buf : rep L pre es buf -> get_size L buf = Ret (zlen es * PairSize).
Proof.
  intros Hr. pose proof (rep_body_bound _ _ _ Hr) as Hb. rewrite <- zlen_body.
  destruct Hr as (Hp & _ & _ & tail & ->). unfold get_size. apply rd_mid; [done |].
  change (256 ^ Z.of_nat 2) with 65536. unfold BLOCK_SIZE, BeginPos in *. lia.
Qed.

Lemma u32_small z : 0 <= z <= 65536 -> u32 z = z.
Proof. intros. unfold u32. apply Z.mod_small. lia. Qed.

Lemma u16_small z : 0 <= z < 65536 -> u16 z = z.
Proof. intros. unfold u16. apply Z.mod_small. lia. Qed.

(** Writing the size field of a buffer in parts. *)
Lemma set_size_parts pre z v rest :
  zlen pre = size_off L -> 0 <= v < 65536 ->
  set_size L (pre ++ le_encode 2 z ++ rest) v = Ret (pre ++ le_encode 2 v ++ rest).
Proof. intros Hp Hv. unfold set_size. rewrite u16_small by done. by apply wr_mid. Qed.

Lemma get_size_parts pre z rest :
  zlen pre = size_off L -> 0 <= z < 65536 -> get_size L (pre ++ le_encode 2 z ++ rest) = Ret z.
Proof. intros Hp Hz. unfold get_size. by apply rd_mid. Qed.

Lemma rep_intro pre es tail :
  zlen pre = size_off L -> kind pre = tag L ->
  zlen pre + 2 + zlen (body es) + zlen tail = BLOCK_SIZE ->
  rep L pre es (pre ++ le_encode 2 (zlen (body es)) ++ body es ++ tail).
Proof.
  intros Hp Hk Hl. split_and!; [done | done | | by exists tail].
  rewrite !zlen_app, zlen_encode. lia.
Qed.

Lemma mid_assoc {X} (a b c d e : list X) : a ++ b ++ (c ++ d) ++ e = (a ++ b ++ c) ++ d ++ e.
Proof. by rewrite <- !app_assoc. Qed.

(** Opening a gap and writing the new pair into it. *)
Lemma pack_insert_ok pre A B k v b :
  rep L pre (A ++ B) (_buffer b) -> fits (zlen (A ++ B) + 1) ->
  exists buf', insert L (BeginPos L + zlen A * PairSize) k v b = Ret (with_buffer b true buf') /\
    rep L pre (A ++ (k, v) :: B) buf'.
Proof.
  intros Hr Hf. pose proof (rep_get_size _ _ _ Hr) as Hs. pose proof (rep_body_bound _ _ _ Hr) as Hb.
  destruct Hr as (Hp & Hk & Hl & tail & E). destruct b as [i u p buf]. simpl in *. subst buf.
  unfold insert, with_buffer, fits in *. simpl. rewrite Hs. simpl. rewrite zlen_app in Hf |- *.
  pose proof (zlen_body A) as HA. pose proof (zlen_body B) as HB.
  pose proof (zlen_nonneg A). pose proof (zlen_nonneg B). pose proof PairSize_pos.
  rewrite body_app in *. autorewrite with lens in Hl. autorewrite with lens in Hb.
  autorewrite with lens. pose proof (zlen_nonneg (body B)).
  destruct (split_at tail PairSize) as (G & W & -> & HG); [unfold BeginPos in *; lia |].
  rewrite zlen_app in Hl. set (sz := le_encode 2 _). rewrite mid_assoc.
  assert (HX : zlen (pre ++ sz ++ body A) = BeginPos L + zlen A * PairSize).
  { rewrite !zlen_app. unfold sz. rewrite zlen_encode. unfold BeginPos. lia. }
  destruct (mem_move_up (pre ++ sz ++ body A) (body B) G W
              (BeginPos L + zlen A * PairSize + PairSize) (BeginPos L + zlen A * PairSize)
              (u32 ((zlen A + zlen B) * PairSize + BeginPos L - (BeginPos L + zlen A * PairSize))))
    as (J & HJ & ->); [done | rewrite u32_small; unfold BLOCK_SIZE, BeginPos in *; lia | lia |].
  simpl. destruct (split_at J (size_of (T := K))) as (J1 & J2 & -> & HJ1).
  { unfold Packed.PairSize in *. pose proof (size_pos (T := K)). pose proof (size_pos (T := V)). lia. }
  rewrite zlen_app, HG in HJ. unfold Packed.PairSize in HJ.
  rewrite <- (app_assoc J1), (mem_write_mid _ J1) by (rewrite ?enc_size; lia). simpl.
  rewrite (app_assoc (pre ++ sz ++ body A)).
  rewrite (mem_write_mid _ J2) by (rewrite ?zlen_app, ?enc_size in *; lia). simpl.
  subst sz. rewrite <- !app_assoc. rewrite get_size_parts by (unfold BLOCK_SIZE, BeginPos in *; lia).
  simpl.
  rewrite set_size_parts by (unfold BLOCK_SIZE, BeginPos in *; lia). simpl.
  eexists. split; [reflexivity |].
  pose proof (rep_intro pre (A ++ (k, v) :: B) W Hp Hk) as Hr.
  rewrite body_app, body_cons, !zlen_app, zlen_enc_pair in Hr.
  unfold enc_pair in Hr. simpl in Hr. rewrite <- !app_assoc in Hr.
  replace (zlen (body A) + zlen (body B) + PairSize) with (zlen (body A) + (PairSize + zlen (body B))) by lia.
  apply Hr. lia.
Qed.

(** The offset of pair number [n]. *)
Definition pos_of (n : Z) : Z := BeginPos L + n * PairSize.

Lemma fits_bound n : fits n -> 0 <= n -> 0 <= pos_of n <= BLOCK_SIZE /\ 0 <= n * PairSize <= BLOCK_SIZE.
Proof.
  unfold fits, pos_of, BeginPos, BLOCK_SIZE. pose proof PairSize_pos. intros Hf Hn.
  assert (0 <= n * PairSize) by (apply Z.mul_nonneg_nonneg; lia). lia.
Qed.

Lemma rep_fits pre es buf : rep L pre es buf -> fits (zlen es).
Proof.
  intros Hr. pose proof (rep_body_bound _ _ _ Hr) as Hb. rewrite zlen_body in Hb.
  unfold fits. lia.
Qed.

(** The parts of a block around pair number [zlen A]. *)
Lemma rep_parts pre A B buf :
  rep L pre (A ++ B) buf -> exists X tail,
    buf = X ++ body B ++ tail /\ zlen X = pos_of (zlen A) /\
    X = pre ++ le_encode 2 (zlen (A ++ B) * PairSize) ++ body A /\
    zlen pre = size_off L /\ kind pre = tag L /\ zlen X + zlen (body B) + zlen tail = BLOCK_SIZE.
Proof.
  intros (Hp & Hk & Hl & tail & ->).
  exists (pre ++ le_encode 2 (zlen (A ++ B) * PairSize) ++ body A), tail.
  rewrite zlen_body, body_app in *. unfold pos_of, BeginPos.
  autorewrite with lens in *. rewrite !zlen_body in *.
  split_and!; try done; [by rewrite <- !app_assoc | lia | lia].
Qed.

Lemma rep_of_parts pre A B n tail buf :
  buf = (pre ++ le_encode 2 n ++ body A) ++ body B ++ tail -> n = zlen (A ++ B) * PairSize ->
  zlen pre = size_off L -> kind pre = tag L -> zlen buf = BLOCK_SIZE ->
  rep L pre (A ++ B) buf.
Proof.
  intros -> -> Hp Hk Hl. split_and!; [done | done | done |]. exists tail.
  by rewrite zlen_body, body_app, <- !app_assoc.
Qed.

(** Closing the gap left by the pairs [M]. *)
Lemma remove_seg pre A M B buf :
  rep L pre (A ++ M ++ B) buf ->
  exists buf1 buf2,
    mem_move buf (pos_of (zlen A)) (pos_of (zlen A) + zlen M * PairSize) (zlen B * PairSize) = Ret buf1 /\
    get_size L buf1 = Ret (zlen (A ++ M ++ B) * PairSize) /\
    set_size L buf1 (zlen (A ++ B) * PairSize) = Ret buf2 /\ rep L pre (A ++ B) buf2.
Proof.
  intros Hr. pose proof (rep_fits _ _ _ Hr) as Hf.
  destruct (fits_bound _ Hf (zlen_nonneg _)) as [_ Hsz].
  destruct (rep_parts _ _ _ _ Hr) as (X & tail & -> & HX & EX & Hp & Hk & Hl).
  rewrite body_app in *. rewrite <- app_assoc. autorewrite with lens in Hl, Hsz.
  rewrite !zlen_body in Hl. pose proof PairSize_pos.
  pose proof (zlen_nonneg A). pose proof (zlen_nonneg B). pose proof (zlen_nonneg M).
  destruct (mem_move_down X (body M) (body B) tail (pos_of (zlen A))
    (pos_of (zlen A) + zlen M * PairSize) (zlen B * PairSize)) as (J & HJ & ->);
    [done | by rewrite zlen_body | rewrite zlen_body; lia |].
  rewrite zlen_body in HJ. eexists. subst X. rewrite <- !app_assoc in *.
  unfold BLOCK_SIZE in *.
  exists (pre ++ le_encode 2 (zlen (A ++ B) * PairSize) ++ body A ++ body B ++ J ++ tail).
  split_and!; [done | apply get_size_parts; [done |] | apply set_size_parts; [done |] |].
  - autorewrite with lens. nia.
  - autorewrite with lens. nia.
  - eapply rep_of_parts; [by rewrite <- !app_assoc | done | done | done |].
    unfold pos_of, BeginPos, BLOCK_SIZE in *. autorewrite with lens in *. rewrite !zlen_body in *. lia.
Qed.

(** Opening a gap for the pairs [M] and copying their bytes in. *)
Lemma insert_seg pre A M B buf :
  rep L pre (A ++ B) buf -> fits (zlen (A ++ M ++ B)) ->
  exists buf1 buf2 buf3,
    mem_move buf (pos_of (zlen A) + zlen M * PairSize) (pos_of (zlen A)) (zlen B * PairSize) = Ret buf1 /\
    mem_write buf1 (pos_of (zlen A)) (body M) = Ret buf2 /\
    get_size L buf2 = Ret (zlen (A ++ B) * PairSize) /\
    set_size L buf2 (zlen (A ++ M ++ B) * PairSize) = Ret buf3 /\ rep L pre (A ++ M ++ B) buf3.
Proof.
  intros Hr Hf. destruct (fits_bound _ Hf (zlen_nonneg _)) as [_ Hsz].
  destruct (rep_parts _ _ _ _ Hr) as (X & tail & -> & HX & EX & Hp & Hk & Hl).
  pose proof PairSize_pos. unfold fits in Hf. autorewrite with lens in Hsz, Hf.
  pose proof (zlen_nonneg A). pose proof (zlen_nonneg B). pose proof (zlen_nonneg M).
  destruct (split_at tail (zlen M * PairSize)) as (G & W & -> & HG).
  { rewrite zlen_body in Hl. unfold pos_of in *. nia. }
  destruct (mem_move_up X (body B) G W (pos_of (zlen A) + zlen M * PairSize)
    (pos_of (zlen A)) (zlen B * PairSize)) as (J & HJ & ->);
    [done | by rewrite zlen_body | lia |].
  eexists. exists (X ++ body M ++ body B ++ W).
  exists (pre ++ le_encode 2 (zlen (A ++ M ++ B) * PairSize) ++ body A ++ body M ++ body B ++ W).
  unfold BLOCK_SIZE in *. subst X. rewrite <- !app_assoc in *.
  split_and!; [done | | apply get_size_parts; [done |] | apply set_size_parts; [done |] |].
  - rewrite 2!app_assoc. rewrite (mem_write_mid _ J); [by rewrite <- !app_assoc | |].
    + rewrite <- app_assoc. done.
    + rewrite zlen_body. lia.
  - autorewrite with lens. nia.
  - autorewrite with lens. nia.
  - eapply rep_of_parts; [by rewrite body_app, <- !app_assoc | done | done | done |].
    unfold pos_of, BeginPos, BLOCK_SIZE in *. autorewrite with lens in *. rewrite !zlen_body in *. lia.
Qed.

Lemma zlen_three A M B : zlen (A ++ M ++ B) = zlen A + zlen M + zlen B.
Proof. autorewrite with lens. lia. Qed.

(** [behind_size] as the code computes it. *)
Lemma behind_ok n m : 0 <= m -> fits n -> m <= n ->
  u32 (n * PairSize + BeginPos L - pos_of m) = (n - m) * PairSize.
Proof.
  intros Hm Hf Hn. pose proof PairSize_pos.
  destruct (fits_bound n Hf) as [_ Hb]; [lia |]. unfold pos_of, BLOCK_SIZE in *.
  rewrite u32_small by nia. lia.
Qed.

Ltac sizes :=
  repeat match goal with
  | l : list (K * V) |- _ =>
      lazymatch goal with
      | H : 0 <= zlen l |- _ => fail
      | _ => pose proof (zlen_nonneg l)
      end
  end.

Lemma pack_erase_range_ok pre A M B b :
  rep L pre (A ++ M ++ B) (_buffer b) ->
  exists buf', erase_range L (pos_of (zlen A)) (pos_of (zlen A + zlen M)) b
      = Ret (with_buffer b true buf') /\ rep L pre (A ++ B) buf'.
Proof.
  intros Hr. pose proof (rep_fits _ _ _ Hr) as Hf. sizes.
  destruct (remove_seg _ _ _ _ _ Hr) as (buf1 & buf2 & E1 & E2 & E3 & Hr').
  unfold erase_range. rewrite (rep_get_size _ _ _ Hr). simpl.
  rewrite behind_ok by (rewrite ?zlen_three in *; (done || lia)).
  replace (zlen (A ++ M ++ B) - (zlen A + zlen M)) with (zlen B) by (rewrite zlen_three; lia).
  replace (pos_of (zlen A + zlen M)) with (pos_of (zlen A) + zlen M * PairSize) by (unfold pos_of; lia).
  rewrite E1. simpl. rewrite E2. simpl.
  replace (zlen (A ++ M ++ B) * PairSize - _) with (zlen (A ++ B) * PairSize)
    by (rewrite zlen_three, zlen_app; lia).
  rewrite E3. simpl. eauto.
Qed.

Lemma pack_erase_ok pre A p B b :
  rep L pre (A ++ p :: B) (_buffer b) ->
  exists buf', erase (K := K) (V := V) L (pos_of (zlen A)) b
      = Ret ((BLOCK_SIZE - BeginPos L) / 2 <? zlen (A ++ B) * PairSize, with_buffer b true buf') /\
    rep L pre (A ++ B) buf'.
Proof.
  intros Hr. change (p :: B) with ([p] ++ B) in Hr. pose proof (rep_fits _ _ _ Hr) as Hf. sizes.
  destruct (remove_seg _ _ _ _ _ Hr) as (buf1 & buf2 & E1 & E2 & E3 & Hr').
  unfold erase. rewrite (rep_get_size _ _ _ Hr). simpl.
  change (A ++ p :: B) with (A ++ [p] ++ B).
  pose proof (behind_ok (zlen (A ++ [p] ++ B)) (zlen A + 1)) as Hbh.
  rewrite zlen_three in *. change (zlen [p]) with 1 in *. rewrite Z.mul_1_l in *.
  replace (_ + BeginPos L - _ - PairSize)
    with ((zlen A + 1 + zlen B) * PairSize + BeginPos L - pos_of (zlen A + 1)) by (unfold pos_of; ring).
  rewrite Hbh by (done || lia). rewrite Z.add_simpl_l.
  rewrite E1. simpl. rewrite E2. simpl.
  replace ((zlen A + 1 + zlen B) * PairSize - PairSize) with (zlen (A ++ B) * PairSize)
    by (rewrite zlen_app; lia).
  rewrite E3. simpl. rewrite (rep_get_size _ _ _ Hr'). simpl. eauto.
Qed.

Lemma rep_kind pre es buf : rep L pre es buf -> check_kind L buf = Ret tt.
Proof.
  intros (Hp & Hk & _ & tail & ->). unfold check_kind. apply mcheck_true.
  destruct pre as [|x pre]; [change (zlen (@nil Z)) with 0 in Hp; lia |].
  simpl in *. by apply Z.eqb_eq.
Qed.

(** A pair of the block, apart from the bytes around it. *)
Lemma rep_pair pre A k v B buf :
  rep L pre (A ++ (k, v) :: B) buf -> exists X tail,
    buf = X ++ enc k ++ enc v ++ tail /\ zlen X = pos_of (zlen A) /\
    zlen buf = BLOCK_SIZE /\
    (forall k' v', rep L pre (A ++ (k', v') :: B) (X ++ enc k' ++ enc v' ++ tail)).
Proof.
  intros Hr. destruct (rep_parts _ _ _ _ Hr) as (X & tail & -> & HX & EX & Hp & Hk & Hl).
  exists X, (body B ++ tail). rewrite body_cons. unfold enc_pair. simpl. rewrite <- !app_assoc.
  assert (Hlen : zlen (X ++ enc k ++ enc v ++ body B ++ tail) = BLOCK_SIZE).
  { rewrite body_cons in Hl. unfold enc_pair in Hl. autorewrite with lens in *. simpl in Hl. lia. }
  split_and!; [done | done | done |]. intros k' v'. subst X.
  eapply rep_of_parts; [| | done | done |].
  - rewrite body_cons. unfold enc_pair. simpl. by rewrite <- !app_assoc.
  - f_equal. rewrite !zlen_app, !zlen_cons. done.
  - autorewrite with lens in *. rewrite !enc_size in *. lia.
Qed.

Lemma update_key_ok pre A k k' v B b :
  rep L pre (A ++ (k, v) :: B) (_buffer b) ->
  exists buf', update_key L (pos_of (zlen A)) k' b = Ret (with_buffer b true buf') /\
    rep L pre (A ++ (k', v) :: B) buf'.
Proof.
  intros Hr. unfold update_key. rewrite (rep_kind _ _ _ Hr). simpl.
  destruct (rep_pair _ _ _ _ _ _ Hr) as (X & tail & -> & HX & _ & Hrep).
  rewrite mem_write_mid by (rewrite ?enc_size; done). simpl. eauto.
Qed.

Lemma update_value_ok pre A k v v' B b :
  rep L pre (A ++ (k, v) :: B) (_buffer b) ->
  exists buf', update_value (K := K) L (pos_of (zlen A)) v' b = Ret (with_buffer b true buf') /\
    rep L pre (A ++ (k, v') :: B) buf'.
Proof.
  intros Hr. unfold update_value. rewrite (rep_kind _ _ _ Hr). simpl.
  pose proof (rep_fits _ _ _ Hr) as Hf. destruct (fits_bound _ Hf (zlen_nonneg _)) as [Hb _].
  destruct (rep_pair _ _ _ _ _ _ Hr) as (X & tail & E & HX & Hl & Hrep). rewrite E in *.
  pose proof (size_pos (T := K)). pose proof (zlen_nonneg X). pose proof (zlen_nonneg tail).
  assert (size_of (T := K) <= BLOCK_SIZE /\ zlen X <= BLOCK_SIZE).
  { autorewrite with lens in Hl. rewrite !enc_size in Hl. pose proof (size_pos (T := V)). lia. }
  rewrite u32_small by (unfold BLOCK_SIZE in *; lia). rewrite app_assoc.
  rewrite mem_write_mid by (rewrite ?zlen_app, ?enc_size; (done || lia)).
  simpl. rewrite <- app_assoc. eauto.
Qed.

Lemma get_key_ok pre A k v B buf :
  rep L pre (A ++ (k, v) :: B) buf -> get_key L buf (pos_of (zlen A)) = Ret k.
Proof.
  intros Hr. unfold get_key. rewrite (rep_kind _ _ _ Hr). simpl.
  destruct (rep_pair _ _ _ _ _ _ Hr) as (X & tail & -> & HX & _).
  rewrite mem_read_mid by (rewrite ?enc_size; done). simpl. by rewrite dec_enc.
Qed.

Lemma get_value_ok pre A k v B buf :
  rep L pre (A ++ (k, v) :: B) buf -> get_value (K := K) L buf (pos_of (zlen A)) = Ret v.
Proof.
  intros Hr. unfold get_value. rewrite (rep_kind _ _ _ Hr). simpl.
  destruct (rep_pair _ _ _ _ _ _ Hr) as (X & tail & -> & HX & Hl & _).
  pose proof (size_pos (T := K)). pose proof (zlen_nonneg X). pose proof (zlen_nonneg tail).
  assert (size_of (T := K) <= BLOCK_SIZE /\ zlen X <= BLOCK_SIZE).
  { autorewrite with lens in Hl. rewrite !enc_size in Hl. pose proof (size_pos (T := V)). lia. }
  rewrite u32_small by (unfold BLOCK_SIZE in *; lia). rewrite app_assoc.
  rewrite mem_read_mid by (rewrite ?zlen_app, ?enc_size; (done || lia)).
  simpl. by rewrite dec_enc.
Qed.

(** Moving the pairs [M] from one block into another. *)
Lemma move_ok pre1 A M B pre2 C D dest src :
  rep L pre1 (A ++ B) (_buffer dest) -> rep L pre2 (C ++ M ++ D) (_buffer src) ->
  fits (zlen (A ++ M ++ B)) ->
  exists dbuf sbuf,
    move_other_block_data L dest (pos_of (zlen A)) src (pos_of (zlen C)) (zlen M * PairSize)
      = Ret (with_buffer dest true dbuf, with_buffer src true sbuf) /\
    rep L pre1 (A ++ M ++ B) dbuf /\ rep L pre2 (C ++ D) sbuf.
Proof.
  intros Hd Hs Hf. unfold move_other_block_data. pose proof (rep_fits _ _ _ Hs) as Hfs.
  pose proof (rep_fits _ _ _ Hd) as Hfd. sizes.
  destruct (insert_seg _ _ M _ _ Hd Hf) as (d1 & d2 & d3 & E1 & E2 & E3 & E4 & Hd').
  destruct (remove_seg _ _ _ _ _ Hs) as (s1 & s2 & F1 & F2 & F3 & Hs').
  rewrite (rep_get_size _ _ _ Hd), (rep_get_size _ _ _ Hs). simpl.
  rewrite behind_ok by (rewrite ?zlen_app in *; (done || lia)).
  replace (zlen (A ++ B) - zlen A) with (zlen B) by (rewrite zlen_app; lia).
  rewrite E1. simpl.
  assert (Hread : mem_read (_buffer src) (pos_of (zlen C)) (zlen M * PairSize) = Ret (body M)).
  { destruct (rep_parts _ _ _ _ Hs) as (X & tail & -> & HX & _).
    rewrite body_app, <- app_assoc. apply mem_read_mid; [done | by rewrite zlen_body]. }
  rewrite Hread. simpl. rewrite E2. simpl. rewrite E3. simpl.
  replace (zlen (A ++ B) * PairSize + zlen M * PairSize) with (zlen (A ++ M ++ B) * PairSize)
    by (rewrite zlen_three, zlen_app; lia).
  rewrite E4. simpl.
  replace (zlen (C ++ M ++ D) * PairSize + BeginPos L - pos_of (zlen C) - zlen M * PairSize)
    with (zlen (C ++ M ++ D) * PairSize + BeginPos L - pos_of (zlen C + zlen M)) by (unfold pos_of; lia).
  rewrite behind_ok by (rewrite ?zlen_three in *; (done || lia)).
  replace (zlen (C ++ M ++ D) - (zlen C + zlen M)) with (zlen D) by (rewrite zlen_three; lia).
  rewrite F1. simpl. rewrite F2. simpl.
  replace (zlen (C ++ M ++ D) * PairSize - zlen M * PairSize) with (zlen (C ++ D) * PairSize)
    by (rewrite zlen_three, zlen_app; lia).
  rewrite F3. simpl. eauto.
Qed.

Lemma merge_ok pre1 es1 pre2 es2 b other :
  rep L pre1 es1 (_buffer b) -> rep L pre2 es2 (_buffer other) -> fits (zlen (es1 ++ es2)) ->
  exists buf1 buf2,
    merge L b other = Ret (with_buffer b true buf1,
      mkBlock (_index other) (_need_update other) (_need_put_back other) buf2) /\
    rep L pre1 (es1 ++ es2) buf1 /\ rep L pre2 [] buf2.
Proof.
  intros H1' H2' Hf. unfold merge. rewrite (rep_get_size _ _ _ H1'), (rep_get_size _ _ _ H2'). simpl.
  destruct (rep_parts _ [] _ _ H2') as (X2 & tail2 & E2 & HX2 & EX2 & Hp2 & Hk2 & Hl2).
  assert (Hread : mem_read (_buffer other) (BeginPos L) (zlen es2 * PairSize) = Ret (body es2)).
  { rewrite E2. apply mem_read_mid; [by rewrite HX2; unfold pos_of; change (zlen []) with 0; lia | by rewrite zlen_body]. }
  rewrite Hread. simpl. clear Hread.
  rewrite <- (app_nil_r es1) in H1'.
  destruct (insert_seg _ _ es2 _ _ H1') as (b1 & b2 & b3 & F1 & F2 & F3 & F4 & Hr);
    [by rewrite app_nil_r |].
  apply mem_move_zero in F1. subst b1. rewrite app_nil_r in *.
  replace (zlen es1 * PairSize + BeginPos L) with (pos_of (zlen es1)) by (unfold pos_of; lia).
  rewrite F2. simpl. rewrite F3. simpl.
  replace (zlen es1 * PairSize + zlen es2 * PairSize) with (zlen (es1 ++ es2) * PairSize)
    by (rewrite zlen_app; lia).
  rewrite F4. simpl.
  rewrite E2, EX2. rewrite <- !app_assoc.
  rewrite set_size_parts by (done || lia). simpl. eexists _, _. split; [reflexivity |].
  split; [done |]. change 0 with (zlen (body (@nil (K * V)))) at 1.
  pose proof (rep_intro pre2 [] (body es2 ++ tail2) Hp2 Hk2) as Hr2. apply Hr2.
  autorewrite with lens in *. rewrite HX2 in Hl2. unfold pos_of, BeginPos in *.
  change (zlen (body (@nil (K * V)))) with 0. change (zlen (@nil (K * V))) with 0 in *. lia.
Qed.

(** ** Binary search *)

Definition sorted es : Prop := StronglySorted (fun p q => klt p.1 q.1 = true) es.

(** How many pairs come before [k]: the reference [lower_bound] finds. *)
Fixpoint lb_index (k : K) es : nat :=
  match es with
  | [] => O
  | e :: es => if klt e.1 k then S (lb_index k es) else O
  end.

Lemma lb_index_le k es : (lb_index k es <= length es)%nat.
Proof. induction es as [|e es IH]; simpl; [lia |]. destruct (klt _ _); lia. Qed.

Lemma lb_not_before k es m p : es !! m = Some p -> klt p.1 k = false -> (lb_index k es <= m)%nat.
Proof.
  revert m. induction es as [|e es IH]; intros [|m] Hm Hk; simpl in *; try done.
  - injection Hm as ->. rewrite Hk. lia.
  - destruct (klt e.1 k); [| lia]. specialize (IH _ Hm Hk). lia.
Qed.

Lemma lb_before k es m p :
  sorted es -> es !! m = Some p -> klt p.1 k = true -> (m < lb_index k es)%nat.
Proof.
  intros Hs. revert m. induction Hs as [|e es Hs IH Hall]; intros [|m] Hm Hk; simpl in *; try done.
  - injection Hm as ->. rewrite Hk. lia.
  - assert (klt e.1 k = true) as ->.
    { rewrite list.Forall_forall in Hall. eapply klt_trans; [| exact Hk]. apply Hall.
      by eapply list_elem_of_lookup_2. }
    specialize (IH _ Hm Hk). lia.
Qed.

Lemma lb_at k es m p :
  sorted es -> es !! m = Some p -> p.1 = k -> lb_index k es = m.
Proof.
  intros Hs Hm <-. apply Nat.le_antisymm.
  - eapply lb_not_before; [done |]. apply klt_irrefl.
  - destruct m as [|m]; [lia |]. destruct (lookup_lt_is_Some_2 es m) as [q Hq].
    { apply lookup_lt_Some in Hm. lia. }
    enough (klt q.1 p.1 = true) as Hlt by (apply (lb_before _ _ _ _ Hs Hq) in Hlt; lia).
    clear -Hs Hm Hq. revert m Hm Hq. induction Hs as [|e es Hs IH Hall]; intros m Hm Hq; [done |].
    destruct m as [|m]; simpl in *; [| by eapply IH].
    injection Hq as ->. rewrite list.Forall_forall in Hall. apply Hall.
    by eapply list_elem_of_lookup_2.
Qed.

Lemma split_lookup es m p :
  es !! m = Some p -> exists A B, es = A ++ p :: B /\ zlen A = Z.of_nat m.
Proof.
  intros Hm. exists (take m es), (drop (S m) es). split; [by rewrite take_drop_middle |].
  unfold zlen. rewrite length_take. apply lookup_lt_Some in Hm. lia.
Qed.

Lemma lower_bound_loop_ok pre es buf k i j fuel :
  rep L pre es buf -> sorted es -> (i <= lb_index k es <= j)%nat -> (j <= length es)%nat ->
  (j - i <= fuel)%nat ->
  lower_bound_loop (V := V) L fuel buf k (pos_of (Z.of_nat i)) (pos_of (Z.of_nat j))
    = Ret (pos_of (Z.of_nat (lb_index k es))).
Proof.
  intros Hr Hs. pose proof PairSize_pos as HP. revert i j.
  induction fuel as [|fuel IH]; intros i j Hij Hj Hf.
  - assert (i = j) as -> by lia. cbn [lower_bound_loop]. rewrite Z.sub_diag, Z.div_0_l by lia.
    simpl. do 3 f_equal. lia.
  - cbn [lower_bound_loop].
    assert (Hsz : (pos_of (Z.of_nat j) - pos_of (Z.of_nat i)) / PairSize = Z.of_nat j - Z.of_nat i).
    { unfold pos_of. replace (_ - _) with ((Z.of_nat j - Z.of_nat i) * PairSize) by lia.
      apply Z.div_mul. lia. }
    rewrite Hsz. destruct (Z.leb_spec (Z.of_nat j - Z.of_nat i) 0).
    { do 2 f_equal. lia. }
    pose proof (Z.div_mod (Z.of_nat j - Z.of_nat i) 2 ltac:(lia)).
    pose proof (Z.mod_pos_bound (Z.of_nat j - Z.of_nat i) 2 ltac:(lia)).
    set (m := (i + Z.to_nat ((Z.of_nat j - Z.of_nat i) / 2))%nat).
    assert (Hm : (i <= m < j)%nat) by (unfold m; lia).
    replace (pos_of (Z.of_nat i) + (Z.of_nat j - Z.of_nat i) / 2 * PairSize)
      with (pos_of (Z.of_nat m)).
    2:{ unfold pos_of, m. rewrite Nat2Z.inj_add, Z2Nat.id by lia. ring. }
    destruct (lookup_lt_is_Some_2 es m) as [p Hp]; [lia |].
    destruct (split_lookup _ _ _ Hp) as (A & B & E & HA).
    assert (Hk : get_key L buf (pos_of (Z.of_nat m)) = Ret p.1).
    { rewrite <- HA. destruct p as [kp vp]. simpl. rewrite E in Hr. by apply (get_key_ok pre A kp vp B). }
    rewrite Hk. simpl. destruct (klt p.1 k) eqn:Hlt.
    + replace (pos_of (Z.of_nat m) + PairSize) with (pos_of (Z.of_nat (S m))) by (unfold pos_of; lia).
      apply IH; [| lia | lia]. pose proof (lb_before _ _ _ _ Hs Hp Hlt). lia.
    + destruct (keq p.1 k) eqn:Heq.
      * apply keq_eq in Heq. by rewrite (lb_at _ _ _ _ Hs Hp Heq).
      * apply IH; [| lia | lia]. pose proof (lb_not_before _ _ _ _ Hp Hlt). lia.
Qed.

Lemma fits_length es : fits (zlen es) -> (length es <= Z.to_nat BLOCK_SIZE)%nat.
Proof.
  intros Hf. destruct (fits_bound _ Hf (zlen_nonneg _)) as [_ Hb]. pose proof PairSize_pos.
  unfold zlen, BLOCK_SIZE in *. nia.
Qed.

Lemma lower_bound_ok pre es k b :
  rep L pre es (_buffer b) -> sorted es ->
  lower_bound (V := V) L k b = Ret (pos_of (Z.of_nat (lb_index k es))).
Proof.
  intros Hr Hs. unfold lower_bound. rewrite (rep_get_size _ _ _ Hr). rewrite bind_ret.
  replace (BeginPos L) with (pos_of (Z.of_nat 0)) at 1 by (unfold pos_of; lia).
  replace (BeginPos L + zlen es * PairSize) with (pos_of (Z.of_nat (length es))) by reflexivity.
  pose proof (lb_index_le k es). pose proof (fits_length es (rep_fits _ _ _ Hr)).
  by apply (lower_bound_loop_ok pre); [| | lia | lia | lia].
Qed.

(** ** Splitting and balancing *)

Definition ordered_insert (k : K) (v : V) es : list (K * V) :=
  take (lb_index k es) es ++ (k, v) :: drop (lb_index k es) es.

Lemma pos_div n : (pos_of n - BeginPos L) / PairSize = n.
Proof.
  pose proof PairSize_pos. unfold pos_of. rewrite Z.add_simpl_l. apply Z.div_mul. lia.
Qed.

Lemma size_half n : (n * PairSize + PairSize) / PairSize / 2 = (n + 1) / 2.
Proof.
  pose proof PairSize_pos. f_equal. replace (_ + _) with ((n + 1) * PairSize) by ring.
  apply Z.div_mul. lia.
Qed.

(** The upper [zlen M] pairs move to the front of an empty block. *)
Lemma move_tail_ok pre1 pre2 C M src dest :
  rep L pre1 (C ++ M) (_buffer src) -> rep L pre2 [] (_buffer dest) ->
  exists dbuf sbuf,
    move_other_block_data L dest (BeginPos L) src (pos_of (zlen C)) (zlen M * PairSize)
      = Ret (with_buffer dest true dbuf, with_buffer src true sbuf) /\
    rep L pre2 M dbuf /\ rep L pre1 C sbuf.
Proof.
  intros Hs Hd. pose proof (rep_fits _ _ _ Hs) as Hf. rewrite zlen_app in Hf.
  destruct (move_ok pre2 [] M [] pre1 C [] dest src) as (dbuf & sbuf & E & Hr1 & Hr2);
    [done | by rewrite app_nil_r | |].
  { rewrite app_nil_r. pose proof PairSize_pos. pose proof (zlen_nonneg C). unfold fits in *.
    simpl. nia. }
  rewrite !app_nil_r in *. exists dbuf, sbuf. split; [| done].
  rewrite <- E. f_equal. unfold pos_of. change (zlen []) with 0. lia.
Qed.

Lemma fits_le n m : fits m -> n <= m -> fits n.
Proof. unfold fits. pose proof PairSize_pos. nia. Qed.

Lemma zlen_take_drop es n :
  (n <= length es)%nat -> zlen (take n es) = Z.of_nat n /\ zlen (drop n es) = zlen es - Z.of_nat n.
Proof. unfold zlen. rewrite length_take, length_drop. lia. Qed.

Lemma move_pos n m : 0 <= m <= n -> fits n ->
  n * PairSize + BeginPos L - u32 (n * PairSize - m * PairSize) = pos_of m /\
  u32 (n * PairSize - m * PairSize) = (n - m) * PairSize.
Proof.
  intros Hm Hf. pose proof PairSize_pos. destruct (fits_bound n Hf) as [_ Hb]; [lia |].
  unfold BLOCK_SIZE in *. rewrite u32_small by nia. unfold pos_of. lia.
Qed.

#[local] Ltac Zify.zify_post_hook ::= Z.to_euclidean_division_equations.

(** The two halves of a split, by where the new pair goes. *)
Lemma split_low pre es pre2 k v b nb t :
  rep L pre es (_buffer b) -> sorted es -> rep L pre2 [] (_buffer nb) ->
  t = Z.to_nat ((zlen es + 1) / 2) -> (lb_index k es < t)%nat ->
  exists tbuf nbuf, split L b nb k v = Ret (with_buffer b true tbuf, with_buffer nb true nbuf) /\
    rep L pre (take (lb_index k es) es ++ (k, v) :: drop (lb_index k es) (take (t - 1) es)) tbuf /\
    rep L pre2 (drop (t - 1) es) nbuf.
Proof.
  intros Hr Hs Hn Ht Hlt. pose proof (rep_fits _ _ _ Hr) as Hf.
  assert (Hlen : Z.of_nat t = (zlen es + 1) / 2) by (unfold zlen in *; lia).
  assert (Htl : (t <= length es)%nat) by (unfold zlen in *; lia).
  destruct (zlen_take_drop es (t - 1)) as [HC HM]; [lia |].
  unfold split. rewrite (rep_get_size _ _ _ Hr), bind_ret, (lower_bound_ok _ _ _ _ Hr Hs), bind_ret.
  rewrite pos_div, size_half, <- Hlen. rewrite (proj2 (Z.ltb_lt _ _)) by lia.
  destruct (move_pos (zlen es) (Z.of_nat t - 1)) as [Hp1 Hp2]; [unfold zlen; lia | done |].
  rewrite Hp1, Hp2.
  destruct (move_tail_ok pre pre2 (take (t - 1) es) (drop (t - 1) es) b nb)
    as (dbuf & sbuf & E & Hd & Hsb); [by rewrite take_drop | done |].
  rewrite HC, HM in E. replace (Z.of_nat (t - 1)) with (Z.of_nat t - 1) in E by lia.
  replace (zlen es - (Z.of_nat t - 1)) with (zlen es - Z.of_nat t + 1) in * by lia.
  rewrite E. simpl.
  destruct (pack_insert_ok pre (take (lb_index k es) (take (t - 1) es))
              (drop (lb_index k es) (take (t - 1) es)) k v (with_buffer b true sbuf))
    as (buf' & E2 & Hr2); [by rewrite take_drop | rewrite take_drop, HC; eapply fits_le; [exact Hf | unfold zlen; lia] |].
  rewrite take_take, Nat.min_l in E2, Hr2 by lia.
  destruct (zlen_take_drop es (lb_index k es)) as [HA _]; [lia |]. rewrite HA in E2.
  rewrite (Z.add_comm (_ * PairSize)), E2. simpl. eauto.
Qed.

Lemma split_high pre es pre2 k v b nb t :
  rep L pre es (_buffer b) -> sorted es -> rep L pre2 [] (_buffer nb) -> fits 1 ->
  t = Z.to_nat ((zlen es + 1) / 2) -> (t <= lb_index k es)%nat ->
  exists tbuf nbuf, split L b nb k v = Ret (with_buffer b true tbuf, with_buffer nb true nbuf) /\
    rep L pre (take t es) tbuf /\
    rep L pre2 (take (lb_index k es - t) (drop t es) ++ (k, v) :: drop (lb_index k es) es) nbuf.
Proof.
  intros Hr Hs Hn Hf1 Ht Hlt. pose proof (rep_fits _ _ _ Hr) as Hf.
  assert (Hlen : Z.of_nat t = (zlen es + 1) / 2) by (unfold zlen in *; lia).
  pose proof (lb_index_le k es) as Hlb.
  destruct (zlen_take_drop es t) as [HC HM]; [lia |].
  unfold split. rewrite (rep_get_size _ _ _ Hr), bind_ret, (lower_bound_ok _ _ _ _ Hr Hs), bind_ret.
  rewrite pos_div, size_half, <- Hlen. rewrite (proj2 (Z.ltb_ge _ _)) by lia.
  destruct (move_pos (zlen es) (Z.of_nat t)) as [Hp1 Hp2]; [unfold zlen; lia | done |].
  rewrite Hp1, Hp2.
  destruct (move_tail_ok pre pre2 (take t es) (drop t es) b nb)
    as (dbuf & sbuf & E & Hd & Hsb); [by rewrite take_drop | done |].
  rewrite HC, HM in E. rewrite E. simpl.
  destruct (pack_insert_ok pre2 (take (lb_index k es - t) (drop t es))
              (drop (lb_index k es - t) (drop t es)) k v (with_buffer nb true dbuf))
    as (buf' & E2 & Hr2); [by rewrite take_drop | |].
  { rewrite take_drop, HM. destruct (decide (es = [])) as [->|Hne].
    - change (zlen []) with 0. rewrite Ht. exact Hf1.
    - eapply fits_le; [exact Hf |]. destruct es; [done |]. autorewrite with lens in *. unfold zlen in *. lia. }
  rewrite drop_drop in Hr2. replace (t + (lb_index k es - t))%nat with (lb_index k es) in Hr2 by lia.
  destruct (zlen_take_drop (drop t es) (lb_index k es - t)) as [HA _]; [rewrite length_drop; lia |].
  rewrite HA in E2. replace (Z.of_nat (lb_index k es - t)) with (Z.of_nat (lb_index k es) - Z.of_nat t) in E2 by lia.
  rewrite (Z.add_comm (_ * PairSize)), E2. simpl. eauto.
Qed.

(** Splitting with an insertion: the two blocks hold the ordered insertion of the new pair,
    cut in the middle. *)
Lemma split_ok pre es pre2 k v b nb :
  rep L pre es (_buffer b) -> sorted es -> rep L pre2 [] (_buffer nb) -> fits 1 ->
  exists tbuf nbuf es1 es2,
    split L b nb k v = Ret (with_buffer b true tbuf, with_buffer nb true nbuf) /\
    rep L pre es1 tbuf /\ rep L pre2 es2 nbuf /\ es1 ++ es2 = ordered_insert k v es /\
    zlen es1 = (zlen es + 1) / 2.
Proof.
  intros Hr Hs Hn Hf1. remember (Z.to_nat ((zlen es + 1) / 2)) as t eqn:Ht.
  pose proof (lb_index_le k es) as Hlb. unfold ordered_insert.
  destruct (decide (lb_index k es < t)%nat) as [Hlt|Hge].
  - destruct (split_low _ _ _ k v _ _ _ Hr Hs Hn Ht Hlt) as (tbuf & nbuf & E & H1' & H2').
    exists tbuf, nbuf, (take (lb_index k es) es ++ (k, v) :: drop (lb_index k es) (take (t - 1) es)),
      (drop (t - 1) es). split_and!; [done | done | done | |].
    + rewrite <- app_assoc. simpl. do 2 f_equal.
      transitivity (drop (lb_index k es) (take (t - 1) es ++ drop (t - 1) es)).
      * symmetry. apply drop_app_le. rewrite length_take. unfold zlen in *. lia.
      * by rewrite take_drop.
    + unfold zlen in *. rewrite length_app, length_take. simpl. rewrite length_drop, length_take. lia.
  - destruct (split_high _ _ _ k v _ _ _ Hr Hs Hn Hf1 Ht) as (tbuf & nbuf & E & H1' & H2'); [lia |].
    exists tbuf, nbuf, (take t es),
      (take (lb_index k es - t) (drop t es) ++ (k, v) :: drop (lb_index k es) es).
    split_and!; [done | done | done | |].
    + rewrite app_assoc. f_equal. rewrite take_take_drop. f_equal. lia.
    + unfold zlen in *. rewrite length_take. lia.
Qed.

Lemma size_mean n m : (n * PairSize + m * PairSize) / PairSize / 2 = (n + m) / 2.
Proof.
  pose proof PairSize_pos. f_equal. rewrite <- Z.mul_add_distr_r. apply Z.div_mul. lia.
Qed.

(** [average] moves pairs across so that neither block is more than one pair ahead. *)
Lemma average_ok pre1 es1 pre2 es2 b other :
  rep L pre1 es1 (_buffer b) -> rep L pre2 es2 (_buffer other) ->
  exists buf1 buf2 es1' es2',
    average (K := K) (V := V) L b other = Ret (with_buffer b true buf1, with_buffer other true buf2) /\
    rep L pre1 es1' buf1 /\ rep L pre2 es2' buf2 /\ es1' ++ es2' = es1 ++ es2 /\
    Z.abs (zlen es1' - zlen es2') <= 1 /\
    zlen es1' = (let half := (zlen es1 + zlen es2) / 2 in
      if zlen es2 <? zlen es1 then half else zlen es1 + (zlen es2 - half)).
Proof.
  intros Hr1 Hr2. pose proof (rep_fits _ _ _ Hr1) as Hf1. pose proof (rep_fits _ _ _ Hr2) as Hf2.
  pose proof PairSize_pos as HP. pose proof (zlen_nonneg es1) as Hn1. pose proof (zlen_nonneg es2) as Hn2.
  unfold average. rewrite (rep_get_size _ _ _ Hr1), bind_ret, (rep_get_size _ _ _ Hr2), bind_ret.
  rewrite size_mean. set (half := (zlen es1 + zlen es2) / 2).
  assert (Hh : 2 * half <= zlen es1 + zlen es2 <= 2 * half + 1) by (unfold half; lia).
  destruct (Z.ltb_spec (zlen es2 * PairSize) (zlen es1 * PairSize)) as [Hlt|Hge].
  - assert (zlen es2 < zlen es1) by nia.
    destruct (move_pos (zlen es1) half) as [_ ->]; [lia | done |].
    destruct (split_at es1 half) as (C & M & -> & HC); [lia |]. rewrite zlen_app in *.
    destruct (move_ok pre2 [] M es2 pre1 C [] other b) as (dbuf & sbuf & E & Hd & Hs);
      [done | by rewrite app_nil_r | simpl; rewrite zlen_app; eapply fits_le; [exact Hf1 | lia] |].
    rewrite app_nil_r in Hs. exists sbuf, dbuf, C, (M ++ es2).
    split_and!; [| done | done | by rewrite app_assoc | rewrite zlen_app; lia | cbv zeta; fold half; rewrite (proj2 (Z.ltb_lt _ _)) by lia; done].
    replace (zlen C + zlen M - half) with (zlen M) by lia.
    replace (half * PairSize + BeginPos L) with (pos_of (zlen C)) by (rewrite HC; unfold pos_of; lia).
    replace (pos_of (zlen [])) with (BeginPos L) in E by (unfold pos_of; change (zlen []) with 0; lia).
    rewrite E. done.
  - assert (zlen es1 <= zlen es2) by nia.
    destruct (move_pos (zlen es2) half) as [_ ->]; [lia | done |].
    destruct (split_at es2 (zlen es2 - half)) as (M & D & -> & HM); [lia |]. rewrite zlen_app in *.
    destruct (move_ok pre1 es1 M [] pre2 [] D b other) as (dbuf & sbuf & E & Hd & Hs);
      [by rewrite app_nil_r | done | rewrite app_nil_r, zlen_app; eapply fits_le; [exact Hf2 | lia] |].
    rewrite app_nil_r in Hd. exists dbuf, sbuf, (es1 ++ M), D.
    split_and!; [| done | done | by rewrite app_assoc | rewrite zlen_app; lia | cbv zeta; fold half; rewrite (proj2 (Z.ltb_ge _ _)), zlen_app by lia; lia].
    replace (zlen M + zlen D - half) with (zlen M) by lia.
    replace (pos_of (zlen [])) with (BeginPos L) in E by (unfold pos_of; change (zlen []) with 0; lia).
    exact E.
Qed.

(** ** Searching, inserting and erasing together *)

(** The verdict of [merge_keep_average]: 1 exactly when one block can hold both. *)
Lemma merge_keep_average_ok pre1 es1 pre2 es2 b other :
  rep L pre1 es1 (_buffer b) -> rep L pre2 es2 (_buffer other) ->
  exists r, merge_keep_average L b other = Ret r /\
    (r = 1 <-> fits (zlen (es1 ++ es2))) /\ (r = 1 \/ r = 0 \/ r = -1).
Proof.
  intros Hr1 Hr2. unfold merge_keep_average, fits.
  rewrite (rep_get_size _ _ _ Hr1), bind_ret, (rep_get_size _ _ _ Hr2), bind_ret, zlen_app.
  destruct (Z.leb_spec (zlen es1 * PairSize + zlen es2 * PairSize) (BLOCK_SIZE - BeginPos L)).
  - exists 1. split_and!; [done | | by left]. split; [intros _; lia | done].
  - destruct (_ <? (BLOCK_SIZE - BeginPos L) / 2); eexists;
      (split_and!; [done | split; [done | lia] | tauto]).
Qed.

(** Whether one more pair fits. *)
Lemma can_insert_ok pre es b :
  rep L pre es (_buffer b) ->
  exists r, can_insert (K := K) (V := V) L b = Ret r /\ (r = true <-> fits (zlen es + 1)).
Proof.
  intros Hr. unfold can_insert. rewrite (rep_get_size _ _ _ Hr), bind_ret. eexists. split; [done |].
  rewrite Z.leb_le. unfold fits. lia.
Qed.

(** ** Searching, inserting and erasing together *)

Lemma lb_prefix k es p : p ∈ take (lb_index k es) es -> klt p.1 k = true.
Proof.
  induction es as [|e es IH]; simpl; [intros Hp; by apply elem_of_nil in Hp |].
  destruct (klt e.1 k) eqn:He; simpl; [| intros Hp; by apply elem_of_nil in Hp].
  intros [-> | Hp]%elem_of_cons; [done | by apply IH].
Qed.

Lemma lb_suffix k es p :
  sorted es -> (forall v, (k, v) ∉ es) -> p ∈ drop (lb_index k es) es -> klt k p.1 = true.
Proof.
  intros Hs Hk Hp. destruct (klt k p.1) eqn:Hlt; [done |]. exfalso.
  apply list_elem_of_lookup in Hp as [m Hm]. rewrite lookup_drop in Hm.
  destruct (klt p.1 k) eqn:Hgt.
  - apply (lb_before _ _ _ _ Hs Hm) in Hgt. lia.
  - destruct p as [kp vp]. simpl in *. rewrite (klt_total _ _ Hlt Hgt) in Hk.
    apply (Hk vp). by eapply list_elem_of_lookup_2.
Qed.

Lemma sorted_app A B :
  sorted (A ++ B) <-> sorted A /\ sorted B /\ forall p q, p ∈ A -> q ∈ B -> klt p.1 q.1 = true.
Proof.
  unfold sorted. induction A as [|a A IH]; simpl.
  - split; [intros HB; split_and!; [constructor | done | intros p q Hp; by apply elem_of_nil in Hp] | tauto].
  - split.
    + intros Hs. inv Hs as [|? ? Hs' Hall]. apply IH in Hs' as (HA & HB & HAB).
      apply Forall_app in Hall as [HaA HaB]. rewrite list.Forall_forall in HaB.
      split_and!; [by constructor | done |]. intros p q [-> | Hp]%elem_of_cons Hq; auto.
    + intros (Hs & HB & HAB). inv Hs as [|? ? Hs' Hall]. constructor.
      * apply IH. split_and!; [done | done |]. intros p q Hp Hq. apply HAB; [by right | done].
      * apply Forall_app. split; [done |]. rewrite list.Forall_forall. intros q Hq.
        apply HAB; [left | done].
Qed.

Lemma ordered_insert_sorted k v es :
  sorted es -> (forall w, (k, w) ∉ es) -> sorted (ordered_insert k v es).
Proof.
  intros Hs Hk. unfold ordered_insert. pose proof Hs as Hs'.
  rewrite <- (take_drop (lb_index k es) es) in Hs'. apply sorted_app in Hs' as (HA & HB & HAB).
  apply sorted_app. split_and!; [done | |].
  - constructor; [done |]. rewrite list.Forall_forall. intros q Hq. exact (lb_suffix k es q Hs Hk Hq).
  - intros p q Hp [-> | Hq]%elem_of_cons; [by eapply lb_prefix | by apply HAB].
Qed.

(** A key that is not in the block goes in where [lower_bound] says: the block then holds
    its old pairs and the new one, in order, the size field counts them, and the bytes of the
    header before it are untouched. *)
Theorem block_insert_sorted pre es k v b :
  rep L pre es (_buffer b) -> sorted es -> (forall w, (k, w) ∉ es) -> fits (zlen es + 1) ->
  exists pos buf', lower_bound (V := V) L k b = Ret pos /\
    insert L pos k v b = Ret (with_buffer b true buf') /\
    rep L pre (ordered_insert k v es) buf' /\ sorted (ordered_insert k v es).
Proof.
  intros Hr Hs Hk Hf. rewrite (lower_bound_ok _ _ _ _ Hr Hs).
  destruct (zlen_take_drop es (lb_index k es)) as [HA _]; [apply lb_index_le |].
  destruct (pack_insert_ok pre (take (lb_index k es) es) (drop (lb_index k es) es) k v b)
    as (buf' & E & Hr'); [by rewrite take_drop | by rewrite take_drop |].
  rewrite HA in E. eexists _, buf'. split_and!; [done | exact E | exact Hr' |].
  by apply ordered_insert_sorted.
Qed.

(** A key that is in the block is found by [lower_bound]; reading there gives its value,
    and erasing there removes exactly that pair and says whether more than half the block is
    still in use. *)
Theorem block_find_erase pre A k v B b :
  rep L pre (A ++ (k, v) :: B) (_buffer b) -> sorted (A ++ (k, v) :: B) ->
  exists pos buf', lower_bound (V := V) L k b = Ret pos /\
    get_key L (_buffer b) pos = Ret k /\ get_value (K := K) L (_buffer b) pos = Ret v /\
    erase (K := K) (V := V) L pos b
      = Ret ((BLOCK_SIZE - BeginPos L) / 2 <? zlen (A ++ B) * PairSize, with_buffer b true buf') /\
    rep L pre (A ++ B) buf' /\ sorted (A ++ B).
Proof.
  intros Hr Hs. rewrite (lower_bound_ok _ _ _ _ Hr Hs).
  assert (Hm : (A ++ (k, v) :: B) !! length A = Some (k, v))
    by (by rewrite lookup_app_r, Nat.sub_diag).
  rewrite (lb_at k _ _ _ Hs Hm eq_refl).
  destruct (pack_erase_ok _ _ _ _ _ Hr) as (buf' & E & Hr').
  exists (pos_of (zlen A)), buf'. split_and!; [done | exact (get_key_ok _ _ _ _ _ _ Hr) | exact (get_value_ok _ _ _ _ _ _ Hr) | exact E | exact Hr' |].
  apply sorted_app in Hs as (HA & HB & HAB). inv HB as [|? ? HB' Hall]. apply sorted_app.
  split_and!; [done | done |]. intros p q Hp Hq. apply HAB; [done | by right].
Qed.

(** When [merge_keep_average] answers 1 and only then the two blocks fit into one; [merge]
    then concatenates them and empties the other block. *)
Theorem block_merge pre1 es1 pre2 es2 b other :
  rep L pre1 es1 (_buffer b) -> rep L pre2 es2 (_buffer other) ->
  exists r, merge_keep_average L b other = Ret r /\ (r = 1 <-> fits (zlen (es1 ++ es2))) /\
    (r = 1 -> exists buf1 buf2,
      merge L b other = Ret (with_buffer b true buf1,
        mkBlock (_index other) (_need_update other) (_need_put_back other) buf2) /\
      rep L pre1 (es1 ++ es2) buf1 /\ rep L pre2 [] buf2).
Proof.
  intros H1' H2'. destruct (merge_keep_average_ok _ _ _ _ _ _ H1' H2') as (r & E & Hr & _).
  exists r. split_and!; [done | done |]. intros ->. eapply merge_ok; [done | done | by apply Hr].
Qed.

(** [average] keeps the sequence of pairs of the two blocks and leaves neither more than one
    pair ahead of the other. *)
Theorem block_average pre1 es1 pre2 es2 b other :
  rep L pre1 es1 (_buffer b) -> rep L pre2 es2 (_buffer other) ->
  exists buf1 buf2 es1' es2',
    average (K := K) (V := V) L b other = Ret (with_buffer b true buf1, with_buffer other true buf2) /\
    rep L pre1 es1' buf1 /\ rep L pre2 es2' buf2 /\ es1' ++ es2' = es1 ++ es2 /\
    Z.abs (zlen es1' - zlen es2') <= 1.
Proof.
  intros Hr1 Hr2. destruct (average_ok _ _ _ _ _ _ Hr1 Hr2) as (buf1 & buf2 & es1' & es2' & E & H1' & H2' & He & Hd & _). by exists buf1, buf2, es1', es2'.
Qed.
End PackedLaws.

(** ** Concrete blocks *)

(** Keys and values of one byte. *)
#[export] Instance byte_fixed : Fixed Byte.byte := {|
  size_of := 1; enc x := [Z.of_N (Byte.to_N x)];
  dec bs := match bs with
            | [z] => match Byte.of_N (Z.to_N z) with Some x => x | None => Byte.x00 end
            | _ => Byte.x00
            end |}.
#[export] Instance byte_fixed_laws : FixedLaws Byte.byte.
Proof. split; [simpl; lia | done | by intros []]. Qed.

#[export] Instance byte_order : KeyOrder Byte.byte := {|
  klt x y := (Byte.to_N x <? Byte.to_N y)%N; keq x y := (Byte.to_N x =? Byte.to_N y)%N |}.

Lemma byte_to_N_inj x y : Byte.to_N x = Byte.to_N y -> x = y.
Proof.
  intros Hxy. pose proof (Byte.of_to_N x) as Hx. rewrite Hxy, Byte.of_to_N in Hx. congruence.
Qed.

#[export] Instance byte_order_laws : KeyOrderLaws Byte.byte.
Proof.
  split; simpl.
  - intros x. apply N.ltb_irrefl.
  - intros x y z. rewrite !N.ltb_lt. lia.
  - intros x y. rewrite !N.ltb_ge. intros. apply byte_to_N_inj. lia.
  - intros x y. rewrite N.eqb_eq. split; [apply byte_to_N_inj | by intros ->].
Qed.

(** A block buffer with the given header and pairs, padded with zeros. *)
Definition make_buffer (pre : list Z) (es : list (Byte.byte * Byte.byte)) : list Z :=
  let used := pre ++ le_encode 2 (zlen (body es)) ++ body es in
  used ++ replicate (Z.to_nat (BLOCK_SIZE - zlen used)) 0.

Lemma make_buffer_rep L pre es :
  zlen pre = size_off L -> kind pre = tag L -> fits L (K := Byte.byte) (V := Byte.byte) (zlen es) ->
  rep L pre es (make_buffer pre es).
Proof.
  intros Hp Hk Hf. unfold make_buffer. split_and!; [done | done | |].
  - rewrite zlen_app, zlen_replicate.
    assert (zlen (pre ++ le_encode 2 (zlen (body es)) ++ body es) <= BLOCK_SIZE); [| lia].
    autorewrite with lens. unfold fits, BeginPos in Hf. rewrite zlen_body. lia.
  - eexists. by rewrite <- !app_assoc.
Qed.

Definition demo_pairs : list (Byte.byte * Byte.byte) := [(Byte.x10, Byte.x01); (Byte.x20, Byte.x02)].
Definition demo_layout : layout := mkLayout 3 1.
Definition demo_block : Block := mkBlock 5 false true (make_buffer [3] demo_pairs).

Lemma demo_rep es : fits demo_layout (K := Byte.byte) (V := Byte.byte) (zlen es) ->
  rep demo_layout [3] es (make_buffer [3] es).
Proof. intros Hf. by apply make_buffer_rep. Qed.

Lemma demo_sorted : sorted demo_pairs.
Proof. repeat constructor. Qed.

Ltac demo_fits := unfold fits, BeginPos, PairSize, zlen; simpl; unfold BLOCK_SIZE; lia.

Lemma block_insert_sorted_witness :
  exists pos buf', lower_bound (V := Byte.byte) demo_layout Byte.x18 demo_block = Ret pos /\
    insert demo_layout pos Byte.x18 Byte.x07 demo_block = Ret (with_buffer demo_block true buf') /\
    rep demo_layout [3] [(Byte.x10, Byte.x01); (Byte.x18, Byte.x07); (Byte.x20, Byte.x02)] buf' /\
    sorted (ordered_insert Byte.x18 Byte.x07 demo_pairs).
Proof.
  change [(Byte.x10, Byte.x01); (Byte.x18, Byte.x07); (Byte.x20, Byte.x02)]
    with (ordered_insert Byte.x18 Byte.x07 demo_pairs).
  apply (block_insert_sorted demo_layout ltac:(simpl; lia) [3] demo_pairs Byte.x18 Byte.x07 demo_block).
  - apply demo_rep. demo_fits.
  - apply demo_sorted.
  - intros w Hw. unfold demo_pairs in Hw. rewrite !elem_of_cons, elem_of_nil in Hw. naive_solver.
  - demo_fits.
Defined.

Lemma block_find_erase_witness :
  exists pos buf', lower_bound (V := Byte.byte) demo_layout Byte.x20 demo_block = Ret pos /\
    get_key demo_layout (_buffer demo_block) pos = Ret Byte.x20 /\
    get_value (K := Byte.byte) demo_layout (_buffer demo_block) pos = Ret Byte.x02 /\
    erase (K := Byte.byte) (V := Byte.byte) demo_layout pos demo_block
      = Ret ((BLOCK_SIZE - BeginPos demo_layout) / 2 <?
               zlen ([(Byte.x10, Byte.x01)] ++ []) * PairSize (K := Byte.byte) (V := Byte.byte),
             with_buffer demo_block true buf') /\
    rep demo_layout [3] ([(Byte.x10, Byte.x01)] ++ []) buf' /\ sorted ([(Byte.x10, Byte.x01)] ++ []).
Proof.
  apply (block_find_erase demo_layout ltac:(simpl; lia) [3] [(Byte.x10, Byte.x01)] Byte.x20 Byte.x02 [] demo_block).
  - apply demo_rep. demo_fits.
  - apply demo_sorted.
Defined.

Lemma block_merge_witness :
  exists r, merge_keep_average demo_layout demo_block demo_block = Ret r /\
    (r = 1 <-> fits demo_layout (K := Byte.byte) (V := Byte.byte) (zlen (demo_pairs ++ demo_pairs))) /\
    (r = 1 -> exists buf1 buf2,
      merge demo_layout demo_block demo_block = Ret (with_buffer demo_block true buf1,
        mkBlock 5 false true buf2) /\
      rep demo_layout [3] (demo_pairs ++ demo_pairs) buf1 /\
      rep demo_layout [3] (@nil (Byte.byte * Byte.byte)) buf2).
Proof.
  apply (block_merge demo_layout ltac:(simpl; lia) [3] demo_pairs [3] demo_pairs demo_block demo_block);
    apply demo_rep; demo_fits.
Defined.

Lemma block_average_witness :
  exists buf1 buf2 es1' es2',
    average (K := Byte.byte) (V := Byte.byte) demo_layout demo_block
        (mkBlock 6 false true (make_buffer [3] [])) =
      Ret (with_buffer demo_block true buf1,
           with_buffer (mkBlock 6 false true (make_buffer [3] [])) true buf2) /\
    rep demo_layout [3] es1' buf1 /\ rep demo_layout [3] es2' buf2 /\
    es1' ++ es2' = demo_pairs ++ [] /\ Z.abs (zlen es1' - zlen es2') <= 1.
Proof.
  apply (block_average demo_layout ltac:(simpl; lia) [3] demo_pairs [3] []); apply demo_rep; demo_fits.
Defined.
