(* ===== verification/TreeBlocks.v ===== *)
(** * Base/BPTree_impls: the two block classes, and the chain of data blocks

    [Impl_Scheduler] hands out buffers by block number.  The model keeps the buffers in a
    map, the number of blocks in [_total_blocks], and a log of the calls with their flags; a
    block object works on the buffer it was given and [~IndexBlock_Impl], [~DataBlock_Impl]
    give it back.  Data blocks are linked by block numbers, 0 standing for none; the theorems
    say that splitting a data block inserts the new one behind it in the chain and that
    [erase_block] takes a block out of it. *)

From stdpp Require Import gmap.
From S2P Require Import Prelude Interpreter Packed.
Local Open Scope Z_scope.

(** ** Impl_Scheduler *)

Inductive sched_op :=
  | GetNew (i : Z)
  | Get (i : Z) (read_data : bool)
  | Put (i : Z) (need_update : bool).

Record Scheduler := mkScheduler {
  _buffers : gmap Z (list Z); _total_blocks : Z; _log : list sched_op }.

Definition set_buffer (i : Z) (buf : list Z) (s : Scheduler) : Scheduler :=
  mkScheduler (<[i := buf]> (_buffers s)) (_total_blocks s) (_log s).

(** [get_block()]: a new block at the end of the file; its buffer holds [fresh] bytes. *)
Definition get_new_block (fresh : list Z) (s : Scheduler) : Z * list Z * Scheduler :=
  let i := _total_blocks s in
  (i, fresh, mkScheduler (<[i := fresh]> (_buffers s)) (u32 (i + 1)) (_log s ++ [GetNew i])).

Definition get_block (i : Z) (read_data : bool) (s : Scheduler) : res (list Z * Scheduler) :=
  _ ← massert (i <? _total_blocks s);
  buf ← of_option (_buffers s !! i) Thrown;
  Ret (buf, mkScheduler (_buffers s) (_total_blocks s) (_log s ++ [Get i read_data])).

Definition put_block (i : Z) (need_update : bool) (s : Scheduler) : res Scheduler :=
  _ ← massert (i <? _total_blocks s);
  Ret (mkScheduler (_buffers s) (_total_blocks s) (_log s ++ [Put i need_update])).

(** ** Construction and destruction of block objects *)

Definition index_layout : layout := mkLayout 3 1.
Definition data_layout : layout := mkLayout 2 9.

(** [IndexBlock_Impl(impl)] and [IndexBlock_Impl(impl, index, buf)]. *)
Definition IndexBlock_new (fresh : list Z) (s : Scheduler) : res (Block * Scheduler) :=
  let '(i, buf, s) := get_new_block fresh s in
  buf ← set_block 3 buf;
  Ret (mkBlock i true true buf, s).
Definition IndexBlock_init (i : Z) (buf : list Z) : res Block :=
  buf ← set_block 3 buf; Ret (mkBlock i true true buf).
(** [IndexBlock_Impl(impl, index)]. *)
Definition IndexBlock_open (i : Z) (s : Scheduler) : res (Block * Scheduler) :=
  '(buf, s) ← get_block i true s;
  _ ← mcheck (is_index_block buf) Thrown;
  Ret (mkBlock i false true buf, s).

Definition prev_index (buf : list Z) : res Z := rd 4 buf 1.
Definition next_index (buf : list Z) : res Z := rd 4 buf 5.
Definition set_prev_index (buf : list Z) (v : Z) : res (list Z) := wr 4 buf 1 v.
Definition set_next_index (buf : list Z) (v : Z) : res (list Z) := wr 4 buf 5 v.

Definition DataBlock_new (fresh : list Z) (s : Scheduler) : res (Block * Scheduler) :=
  let '(i, buf, s) := get_new_block fresh s in
  buf ← set_block 2 buf;
  buf ← set_prev_index buf 0;
  buf ← set_next_index buf 0;
  Ret (mkBlock i true true buf, s).
Definition DataBlock_init (i : Z) (buf : list Z) : res Block :=
  buf ← set_block 2 buf; Ret (mkBlock i true true buf).
Definition DataBlock_open (i : Z) (s : Scheduler) : res (Block * Scheduler) :=
  '(buf, s) ← get_block i true s;
  _ ← mcheck (is_data_block buf) Thrown;
  Ret (mkBlock i false true buf, s).

(** The move constructor: the new object, and the source that no longer puts its block back. *)
Definition block_move (other : Block) : Block * Block :=
  (mkBlock (_index other) (_need_update other) true (_buffer other),
   mkBlock (_index other) (_need_update other) false (_buffer other)).

(** The destructor of both classes. *)
Definition close (b : Block) (s : Scheduler) : res Scheduler :=
  if _need_put_back b
  then put_block (_index b) (_need_update b) (set_buffer (_index b) (_buffer b) s)
  else Ret (set_buffer (_index b) (_buffer b) s).

(** [IndexBlock_Impl::operator=(IndexBlock_Impl&&)]. *)
Definition IndexBlock_assign (b other : Block) (s : Scheduler) : res (Block * Block * Scheduler) :=
  s ← close b s;
  let '(b, other) := block_move other in Ret (b, other, s).

Definition have_prev (b : Block) : res bool := p ← prev_index (_buffer b); Ret (negb (p =? 0)).
Definition have_next (b : Block) : res bool := n ← next_index (_buffer b); Ret (negb (n =? 0)).

(** [to_prev] and [to_next]: the object leaves its block for a neighbour. *)
Definition go_to (i : Z) (b : Block) (s : Scheduler) : res (Block * Scheduler) :=
  s ← close b s;
  '(buf, s) ← get_block i true s;
  _ ← mcheck (is_data_block buf) Thrown;
  Ret (mkBlock i false true buf, s).
Definition to_prev (b : Block) (s : Scheduler) : res (Block * Scheduler) :=
  i ← prev_index (_buffer b); go_to i b s.
Definition to_next (b : Block) (s : Scheduler) : res (Block * Scheduler) :=
  i ← next_index (_buffer b); go_to i b s.

Section Blocks.
Context {K V : Type} `{FixedLaws K, FixedLaws V, KeyOrderLaws K}.

(** The pointer part of an index pair, [write_ptr]. *)
Definition ptr_bytes (p : Z) : list Z := le_encode 4 p.

(** The block behind gets the new one as its predecessor; its kind is not checked. *)
Definition link_next (i next : Z) (s : Scheduler) : res Scheduler :=
  if 0 <? next then
    '(buf, s) ← get_block next true s;
    buf ← set_prev_index buf i;
    put_block next true (set_buffer next buf s)
  else Ret s.

(** The end of [DataBlock_Impl::split]: the new block goes behind this one in the chain. *)
Definition link_new (b nb : Block) (s : Scheduler) : res (Block * Block * Scheduler) :=
  nbuf ← set_prev_index (_buffer nb) (_index b);
  next ← next_index (_buffer b);
  nbuf ← set_next_index nbuf next;
  s ← link_next (_index nb) next s;
  buf ← set_next_index (_buffer b) (_index nb);
  Ret (with_buffer b (_need_update b) buf, with_buffer nb (_need_update nb) nbuf, s).

Definition DataBlock_split (b nb : Block) (key : K) (value : V) (s : Scheduler)
    : res (Block * Block * Scheduler) :=
  let b := with_buffer b true (_buffer b) in
  let nb := with_buffer nb true (_buffer nb) in
  '(b, nb) ← split data_layout b nb key value;
  link_new b nb s.

(** [DataBlock_Impl::erase_block]: its neighbours are linked to each other. *)
Definition set_next_of (prev next : Z) (s : Scheduler) : res Scheduler :=
  if prev =? 0 then Ret s else
  '(p, s) ← DataBlock_open prev s;
  buf ← set_next_index (_buffer p) next;
  close (with_buffer p true buf) s.

Definition set_prev_of (next prev : Z) (s : Scheduler) : res Scheduler :=
  if next =? 0 then Ret s else
  '(n, s) ← DataBlock_open next s;
  buf ← set_prev_index (_buffer n) prev;
  close (with_buffer n true buf) s.

Definition DataBlock_erase_block (i : Z) (s : Scheduler) : res Scheduler :=
  '(data, s) ← DataBlock_open i s;
  prev ← prev_index (_buffer data);
  next ← next_index (_buffer data);
  s ← set_next_of prev next s;
  s ← set_prev_of next prev s;
  put_block (_index data) (_need_update data) s.

(** ** The header of a data block *)

Definition data_pre (prev next : Z) : list Z := 2 :: le_encode 4 prev ++ le_encode 4 next.

Definition data_rep (prev next : Z) (es : list (K * V)) (buf : list Z) : Prop :=
  rep data_layout (data_pre prev next) es buf.

Definition is_u32 (z : Z) : Prop := 0 <= z < 4294967296.

Lemma data_pre_size prev next : zlen (data_pre prev next) = 9.
Proof. unfold data_pre. autorewrite with lens. lia. Qed.

Lemma data_rep_parts prev next es buf :
  data_rep prev next es buf -> exists rest,
    buf = [2] ++ le_encode 4 prev ++ le_encode 4 next ++ rest /\ zlen buf = BLOCK_SIZE /\
    (forall prev' next',
       data_rep prev' next' es ([2] ++ le_encode 4 prev' ++ le_encode 4 next' ++ rest)).
Proof.
  intros (Hp & Hk & Hl & tail & ->).
  exists (le_encode 2 (zlen (body es)) ++ body es ++ tail).
  split_and!; [| exact Hl |].
  - unfold data_pre. simpl. by rewrite <- !app_assoc.
  - intros prev' next'. split_and!; [apply data_pre_size | done | | exists tail].
    + rewrite <- Hl. unfold data_pre. autorewrite with lens. lia.
    + unfold data_pre. simpl. by rewrite <- !app_assoc.
Qed.

Lemma prev_index_ok prev next es buf :
  data_rep prev next es buf -> is_u32 prev -> prev_index buf = Ret prev.
Proof.
  intros (rest & -> & _ & _)%data_rep_parts Hp. unfold prev_index. apply rd_mid; [done | exact Hp].
Qed.

Lemma next_index_ok prev next es buf :
  data_rep prev next es buf -> is_u32 next -> next_index buf = Ret next.
Proof.
  intros (rest & -> & _ & _)%data_rep_parts Hn. unfold next_index. rewrite app_assoc.
  apply rd_mid; [autorewrite with lens; done | exact Hn].
Qed.

Lemma set_prev_index_ok prev next es buf v :
  data_rep prev next es buf ->
  exists buf', set_prev_index buf v = Ret buf' /\ data_rep v next es buf'.
Proof.
  intros (rest & -> & _ & Hr)%data_rep_parts. unfold set_prev_index.
  rewrite wr_mid by done. eauto.
Qed.

Lemma set_next_index_ok prev next es buf v :
  data_rep prev next es buf ->
  exists buf', set_next_index buf v = Ret buf' /\ data_rep prev v es buf'.
Proof.
  intros (rest & -> & _ & Hr)%data_rep_parts. unfold set_next_index. rewrite app_assoc.
  rewrite wr_mid by (autorewrite with lens; done). rewrite <- app_assoc. eauto.
Qed.

Lemma data_rep_kind prev next es buf : data_rep prev next es buf -> is_data_block buf = true.
Proof. by intros (rest & -> & _ & _)%data_rep_parts. Qed.

(** ** The chain of data blocks *)

Abbreviation leaves := (list (Z * list (K * V))).

Definition first_idx (xs : leaves) (q : Z) : Z := match xs with [] => q | (i, _) :: _ => i end.
Fixpoint last_idx (xs : leaves) (q : Z) : Z :=
  match xs with [] => q | (i, _) :: xs => last_idx xs i end.

Fixpoint chain (m : gmap Z (list Z)) (prev : Z) (xs : leaves) (nxt : Z) : Prop :=
  match xs with
  | [] => True
  | (i, es) :: xs =>
      0 < i < 4294967296 /\
      (exists buf, m !! i = Some buf /\ data_rep prev (first_idx xs nxt) es buf) /\
      chain m i xs nxt
  end.

Lemma first_idx_app xs ys q : first_idx (xs ++ ys) q = first_idx xs (first_idx ys q).
Proof. by destruct xs as [|[]]. Qed.

Lemma last_idx_snoc xs i es q : last_idx (xs ++ [(i, es)]) q = i.
Proof. revert q. induction xs as [|[j fs] xs IH]; intros q; simpl; [done | apply IH]. Qed.

Lemma chain_app m prev xs ys nxt :
  chain m prev (xs ++ ys) nxt <->
  chain m prev xs (first_idx ys nxt) /\ chain m (last_idx xs prev) ys nxt.
Proof.
  revert prev. induction xs as [|[i es] xs IH]; intros prev; simpl; [tauto |].
  rewrite IH, first_idx_app. tauto.
Qed.

Lemma chain_agree m m' prev xs nxt :
  (forall i, i ∈ xs.*1 -> m' !! i = m !! i) -> chain m prev xs nxt -> chain m' prev xs nxt.
Proof.
  revert prev. induction xs as [|[i es] xs IH]; intros prev Ha; simpl; [done |].
  intros (Hi & (buf & Hb & Hr) & Hc). split_and!; [lia | lia | |].
  - exists buf. rewrite Ha by (left; done). done.
  - apply IH; [| done]. intros j Hj. apply Ha. by right.
Qed.

(** Rewriting the link of the last block of a segment, or of the first. *)
Lemma chain_relink_last m prev xs j fs nxt nxt' :
  chain m prev (xs ++ [(j, fs)]) nxt -> NoDup (xs ++ [(j, fs)]).*1 ->
  exists buf buf', m !! j = Some buf /\ set_next_index buf nxt' = Ret buf' /\
    is_data_block buf = true /\ chain (<[j := buf']> m) prev (xs ++ [(j, fs)]) nxt'.
Proof.
  intros (Hx & Hj & (buf & Hb & Hr) & _)%chain_app Hnd. simpl in Hx.
  destruct (set_next_index_ok _ _ _ _ nxt' Hr) as (buf' & E & Hr').
  exists buf, buf'. split_and!; [done | done | by eapply data_rep_kind |].
  apply chain_app. simpl. split_and!; [| lia | lia | | done].
  - eapply chain_agree; [| done]. intros i Hi. rewrite lookup_insert_ne; [done |]. intros <-.
    rewrite fmap_app in Hnd. apply list.NoDup_app in Hnd as (_ & Hd & _). apply (Hd j Hi). left.
  - exists buf'. by rewrite lookup_insert_eq.
Qed.

Lemma chain_relink_first m prev prev' j fs xs nxt :
  chain m prev ((j, fs) :: xs) nxt -> NoDup ((j, fs) :: xs).*1 ->
  exists buf buf', m !! j = Some buf /\ set_prev_index buf prev' = Ret buf' /\
    is_data_block buf = true /\ chain (<[j := buf']> m) prev' ((j, fs) :: xs) nxt.
Proof.
  intros (Hj & (buf & Hb & Hr) & Hc) Hnd.
  destruct (set_prev_index_ok _ _ _ _ prev' Hr) as (buf' & E & Hr').
  exists buf, buf'. split_and!; [done | done | by eapply data_rep_kind |].
  simpl. split_and!; [lia | lia | |].
  - exists buf'. by rewrite lookup_insert_eq.
  - apply list.NoDup_cons in Hnd as [Hn _].
    eapply chain_agree; [| done]. intros i Hi. rewrite lookup_insert_ne; [done |]. by intros <-.
Qed.

Lemma leaves_snoc (xs : leaves) : xs = [] \/ exists xs' j fs, xs = xs' ++ [(j, fs)].
Proof.
  destruct xs as [|x xs _] using rev_ind; [by left |]. right. destruct x as [j fs]. eauto.
Qed.

Lemma last_idx_range m xs q nxt :
  0 <= q < 4294967296 -> chain m q xs nxt -> 0 <= last_idx xs q < 4294967296.
Proof.
  revert q. induction xs as [|[i es] xs IH]; intros q Hq; simpl; [done |].
  intros (Hi & _ & Hc). by apply IH; [lia |].
Qed.

Lemma first_idx_range m q xs nxt :
  0 <= nxt < 4294967296 -> chain m q xs nxt -> 0 <= first_idx xs nxt < 4294967296.
Proof. destruct xs as [|[i es] xs]; simpl; [done |]. intros _ (Hi & _). lia. Qed.

Definition below (s : Scheduler) (xs : leaves) : Prop := Forall (fun x => x.1 < _total_blocks s) xs.

(** What relinking leaves alone. *)
Definition kept (xs : leaves) (s s' : Scheduler) : Prop :=
  _total_blocks s' = _total_blocks s /\
  forall c, c ∉ xs.*1 -> _buffers s' !! c = _buffers s !! c.

Lemma kept_refl xs s : kept xs s s.
Proof. by split. Qed.

Lemma kept_chain xs ys s s' prev nxt :
  kept xs s s' -> (forall c, c ∈ ys.*1 -> c ∉ xs.*1) -> chain (_buffers s) prev ys nxt ->
  chain (_buffers s') prev ys nxt.
Proof. intros [_ Hk] Hd. apply chain_agree. intros i Hi. by apply Hk, Hd. Qed.

(** Looking up, writing and putting back one block of the store. *)
Lemma insert_kept m i buf t l (xs : leaves) s :
  i ∈ xs.*1 -> m = <[i := buf]> (_buffers s) -> t = _total_blocks s ->
  kept xs s (mkScheduler m t l).
Proof.
  intros Hi -> ->. split; [done |]. intros c Hc. simpl. rewrite lookup_insert_ne; [done |].
  by intros <-.
Qed.

Ltac in_range := rewrite (massert_true (_ <? _)) by (apply Z.ltb_lt; lia); simpl.

Lemma set_next_of_ok xs nxt nxt' s :
  chain (_buffers s) 0 xs nxt -> NoDup xs.*1 -> below s xs ->
  exists s', set_next_of (last_idx xs 0) nxt' s = Ret s' /\
    chain (_buffers s') 0 xs nxt' /\ kept xs s s'.
Proof.
  intros Hc Hnd Hb. destruct (leaves_snoc xs) as [-> | (xs' & j & fs & ->)].
  { exists s. split_and!; [done | done | apply kept_refl]. }
  destruct (chain_relink_last _ _ _ _ _ _ nxt' Hc Hnd) as (bj & bj' & Eb & Es & Ek & Hc').
  apply chain_app in Hc as (_ & Hj & _). apply Forall_app in Hb as [_ Hb].
  apply list.Forall_cons in Hb as [Hb _]. simpl in Hb. rewrite last_idx_snoc.
  unfold set_next_of, DataBlock_open, get_block, close, put_block.
  rewrite (proj2 (Z.eqb_neq j 0)) by lia. in_range. rewrite Eb. simpl. rewrite Ek. simpl.
  rewrite Es. simpl. in_range. eexists. split; [done |]. split; [exact Hc' |].
  eapply insert_kept; [| done | done]. rewrite fmap_app. apply elem_of_app. right. left.
Qed.

Lemma set_prev_of_ok xs prev prev' s :
  chain (_buffers s) prev xs 0 -> NoDup xs.*1 -> below s xs ->
  exists s', set_prev_of (first_idx xs 0) prev' s = Ret s' /\
    chain (_buffers s') prev' xs 0 /\ kept xs s s'.
Proof.
  intros Hc Hnd Hb. destruct xs as [|[j fs] xs].
  { exists s. split_and!; [done | done | apply kept_refl]. }
  destruct (chain_relink_first _ _ prev' _ _ _ _ Hc Hnd) as (bj & bj' & Eb & Es & Ek & Hc').
  destruct Hc as (Hj & _). apply list.Forall_cons in Hb as [Hb _]. simpl in Hb. simpl first_idx.
  unfold set_prev_of, DataBlock_open, get_block, close, put_block.
  rewrite (proj2 (Z.eqb_neq j 0)) by lia. in_range. rewrite Eb. simpl. rewrite Ek. simpl.
  rewrite Es. simpl. in_range. eexists. split; [done |]. split; [exact Hc' |].
  eapply insert_kept; [left | done | done].
Qed.

Lemma link_next_ok xs prev n s :
  chain (_buffers s) prev xs 0 -> NoDup xs.*1 -> below s xs ->
  exists s', link_next n (first_idx xs 0) s = Ret s' /\
    chain (_buffers s') n xs 0 /\ kept xs s s'.
Proof.
  intros Hc Hnd Hb. destruct xs as [|[j fs] xs].
  { exists s. split_and!; [done | done | apply kept_refl]. }
  destruct (chain_relink_first _ _ n _ _ _ _ Hc Hnd) as (bj & bj' & Eb & Es & Ek & Hc').
  destruct Hc as (Hj & _). apply list.Forall_cons in Hb as [Hb _]. simpl in Hb. simpl first_idx.
  unfold link_next, get_block, put_block.
  rewrite (proj2 (Z.ltb_lt 0 j)) by lia. in_range. rewrite Eb. simpl.
  rewrite Es. simpl. in_range. eexists. split; [done |]. split; [exact Hc' |].
  eapply insert_kept; [left | done | done].
Qed.

Lemma NoDup_parts (xs ys : leaves) x :
  NoDup (xs ++ x :: ys).*1 ->
  NoDup xs.*1 /\ NoDup ys.*1 /\ (x.1 ∉ xs.*1) /\ (x.1 ∉ ys.*1) /\
  (forall c, c ∈ xs.*1 -> c ∉ ys.*1).
Proof.
  rewrite fmap_app, fmap_cons, list.NoDup_app, list.NoDup_cons.
  intros (Hx & Hd & Hn & Hy). split_and!; try done.
  - intros Hi. apply (Hd _ Hi). left.
  - intros a Ha Hb. apply (Hd a Ha). by right.
Qed.

Lemma below_kept s s' xs ys : kept xs s s' -> below s ys -> below s' ys.
Proof. intros [Ht _]. unfold below. by rewrite Ht. Qed.

(** [erase_block] takes block [i] out of the chain of data blocks: its neighbours are
    linked to each other, every other block keeps its pairs, and no check fails. *)
Theorem data_erase_block_chain i es xs ys s :
  chain (_buffers s) 0 (xs ++ (i, es) :: ys) 0 -> NoDup (xs ++ (i, es) :: ys).*1 ->
  below s (xs ++ (i, es) :: ys) ->
  exists s', DataBlock_erase_block i s = Ret s' /\ chain (_buffers s') 0 (xs ++ ys) 0 /\
    _total_blocks s' = _total_blocks s.
Proof.
  intros Hc Hnd Ht. destruct (NoDup_parts _ _ _ Hnd) as (Hnx & Hny & _ & _ & Hd).
  apply chain_app in Hc as [Hx (Hi & (buf & Hb & Hr) & Hy)]. simpl in Hx.
  apply Forall_app in Ht as [Htx Hti]. apply list.Forall_cons in Hti as [Hti Hty]. simpl in Hti.
  unfold DataBlock_erase_block, DataBlock_open at 1, get_block. in_range. rewrite Hb. simpl.
  rewrite (data_rep_kind _ _ _ _ Hr). simpl.
  rewrite (prev_index_ok _ _ _ _ Hr) by (eapply last_idx_range; [| done]; lia).
  rewrite (next_index_ok _ _ _ _ Hr) by (eapply first_idx_range; [| done]; lia). simpl.
  set (s1 := mkScheduler _ _ _).
  destruct (set_next_of_ok xs i (first_idx ys 0) s1 Hx Hnx Htx) as (s2 & -> & Hx2 & Hk2). simpl.
  destruct (set_prev_of_ok ys i (last_idx xs 0) s2) as (s3 & -> & Hy3 & Hk3).
  { eapply kept_chain; [done | | exact Hy]. intros c Hc Hc'. by apply (Hd c). }
  { done. }
  { by eapply below_kept. }
  simpl. destruct Hk2 as [Ht2 _]. pose proof Hk3 as [Ht3 _]. simpl in Ht2.
  unfold put_block. in_range. eexists. split_and!; [done | | by rewrite Ht3, Ht2].
  simpl. apply chain_app. split; [| done]. by eapply kept_chain.
Qed.

(** The links [split] writes, given the two halves it has made. *)
Lemma link_new_ok prev p q es1 es2 ys b nb s :
  data_rep prev (first_idx ys 0) es1 (_buffer b) -> data_rep p q es2 (_buffer nb) ->
  0 < _index b < 4294967296 -> 0 < _index nb < 4294967296 ->
  chain (_buffers s) (_index b) ys 0 -> NoDup ys.*1 -> below s ys ->
  exists buf1 buf2 s',
    link_new b nb s = Ret (with_buffer b (_need_update b) buf1, with_buffer nb (_need_update nb) buf2, s') /\
    data_rep prev (_index nb) es1 buf1 /\ data_rep (_index b) (first_idx ys 0) es2 buf2 /\
    chain (_buffers s') (_index nb) ys 0 /\ kept ys s s'.
Proof.
  intros H1' H2' Hi Hn Hc Hnd Hb. unfold link_new.
  destruct (set_prev_index_ok _ _ _ _ (_index b) H2') as (nb1 & -> & Hn1). simpl.
  rewrite (next_index_ok _ _ _ _ H1') by (eapply first_idx_range; [| done]; lia). simpl.
  destruct (set_next_index_ok _ _ _ _ (first_idx ys 0) Hn1) as (nb2 & -> & Hn2). simpl.
  destruct (link_next_ok ys _ (_index nb) s Hc Hnd Hb) as (s' & -> & Hc' & Hk). simpl.
  destruct (set_next_index_ok _ _ _ _ (_index nb) H1') as (b1 & -> & Hb1). simpl.
  exists b1, nb2, s'. by split_and!.
Qed.

Lemma close_ok b s :
  _need_put_back b = true -> _index b < _total_blocks s ->
  exists s', close b s = Ret s' /\ _buffers s' = <[_index b := _buffer b]> (_buffers s) /\
    _total_blocks s' = _total_blocks s.
Proof.
  intros Hp Ht. unfold close, put_block. rewrite Hp. simpl.
  rewrite (massert_true (_ <? _)) by (apply Z.ltb_lt; lia). simpl. by eexists.
Qed.

(** Splitting data block [i] with a new pair: once both objects are closed, the chain holds
    block [i] and then the new block in place of [i], their pairs are the old ones with the
    new pair in its place, cut in the middle, and no other block's pairs have changed. *)
Theorem data_split_chain i n es xs ys b nb p q k v s :
  chain (_buffers s) 0 (xs ++ (i, es) :: ys) 0 -> NoDup (n :: (xs ++ (i, es) :: ys).*1) ->
  below s ((n, []) :: xs ++ (i, es) :: ys) -> 0 < n < 4294967296 ->
  _index b = i -> _need_put_back b = true -> _buffers s !! i = Some (_buffer b) ->
  _index nb = n -> _need_put_back nb = true -> data_rep p q [] (_buffer nb) ->
  sorted es -> fits data_layout (K := K) (V := V) 1 ->
  exists b' nb' s1 s2 s3 es1 es2,
    DataBlock_split b nb k v s = Ret (b', nb', s1) /\ close b' s1 = Ret s2 /\ close nb' s2 = Ret s3 /\
    es1 ++ es2 = ordered_insert k v es /\ zlen es1 = (zlen es + 1) / 2 /\
    chain (_buffers s3) 0 (xs ++ (i, es1) :: (n, es2) :: ys) 0.
Proof.
  intros Hc Hnd Ht Hn Hbi Hbp Hbb Hni Hnp Hnr Hs Hf. apply list.NoDup_cons in Hnd as [Hnn Hnd].
  destruct (NoDup_parts _ _ _ Hnd) as (Hnx & Hny & Hix & Hiy & Hd). simpl in Hix, Hiy.
  apply list.Forall_cons in Ht as [Htn Ht]. apply Forall_app in Ht as [Htx Hti].
  apply list.Forall_cons in Hti as [Hti Hty]. simpl in Hti, Htn.
  apply chain_app in Hc as [Hx (Hi & (buf & Hb & Hr) & Hy)]. simpl in Hx.
  rewrite Hbb in Hb. injection Hb as <-.
  assert (Hlay : 0 < size_off data_layout) by (simpl; lia).
  destruct (split_ok data_layout Hlay _ es _ k v (with_buffer b true (_buffer b))
      (with_buffer nb true (_buffer nb)) Hr Hs Hnr Hf)
    as (buf1 & buf2 & es1 & es2 & E & Hr1 & Hr2 & Hes & Hlen).
  unfold DataBlock_split. rewrite E. simpl.
  set (b1 := with_buffer (with_buffer b true (_buffer b)) true buf1).
  set (nb1 := with_buffer (with_buffer nb true (_buffer nb)) true buf2).
  destruct (link_new_ok (last_idx xs 0) p q es1 es2 ys b1 nb1 s)
    as (c1 & c2 & s1 & E1 & Hc1 & Hc2 & Hys & Hk);
    [done | done | by subst i | by subst n | simpl; by subst i | done | done |].
  rewrite E1. pose proof Hk as [Ht1 Hk1].
  destruct (close_ok (with_buffer b1 (_need_update b1) c1) s1) as (s2 & E2 & Hm2 & Ht2);
    [done | simpl; lia |].
  destruct (close_ok (with_buffer nb1 (_need_update nb1) c2) s2) as (s3 & E3 & Hm3 & Ht3);
    [done | simpl; lia |].
  eexists _, _, s1, s2, s3, es1, es2. split_and!; [done | done | done | done | done |].
  simpl in *. rewrite Hbi, Hni in *. rewrite Hm3, Hm2.
  rewrite fmap_app, fmap_cons, not_elem_of_app, not_elem_of_cons in Hnn. simpl in Hnn.
  destruct Hnn as (Hnx' & Hni' & Hny').
  apply chain_app. split; simpl.
  - eapply chain_agree; [| exact Hx]. intros c Hcx.
    rewrite !lookup_insert_ne by (intros <-; tauto). apply Hk1. by apply Hd.
  - split; [lia |]. split; [exists c1; by rewrite lookup_insert_ne, lookup_insert_eq |].
    split; [lia |]. split; [exists c2; by rewrite lookup_insert_eq |].
    eapply chain_agree; [| exact Hys]. intros c Hcy.
    by rewrite !lookup_insert_ne by (intros <-; tauto).
Qed.
End Blocks.

(** ** The two classes as instances *)

(** The block number of an index pair: 32 bits. *)
Definition ptr : Type := { z : Z | ((0 <=? z) && (z <? 4294967296)) = true }.

Definition mk_ptr (z : Z) (Hz : ((0 <=? z) && (z <? 4294967296)) = true) : ptr := exist _ z Hz.

Lemma ptr_eq (p q : ptr) : proj1_sig p = proj1_sig q -> p = q.
Proof.
  destruct p as [x Hx], q as [y Hy]. simpl. intros ->. f_equal. apply (proof_irrel Hx Hy).
Qed.

Definition ptr_of (z : Z) : ptr :=
  match decide (((0 <=? z) && (z <? 4294967296)) = true) with
  | left Hz => mk_ptr z Hz
  | right _ => mk_ptr 0 eq_refl
  end.

#[export] Instance ptr_fixed : Fixed ptr := {|
  size_of := PTR_SIZE; enc p := le_encode 4 (proj1_sig p); dec bs := ptr_of (le_decode bs) |}.

#[export] Instance ptr_fixed_laws : FixedLaws ptr.
Proof.
  split.
  - simpl. unfold PTR_SIZE. lia.
  - intros p. simpl. by rewrite zlen_encode.
  - intros [z Hz]. simpl. rewrite le_decode_encode.
    + unfold ptr_of. case_decide; [by apply ptr_eq | done].
    + change (256 ^ Z.of_nat 4) with 4294967296. clear -Hz. zbool. lia.
Qed.

Section Classes.
Context {K V : Type} `{Fixed K, Fixed V, KeyOrder K}.

Definition IndexBlock_insert (pos : Z) (key : K) (target : ptr) (b : Block) : res Block :=
  insert index_layout pos key target b.
Definition IndexBlock_update (pos : Z) (key : K) (b : Block) : res Block :=
  update_key index_layout pos key b.
Definition IndexBlock_erase (pos : Z) (b : Block) : res (bool * Block) :=
  erase index_layout (K := K) (V := ptr) pos b.
Definition IndexBlock_erase_range (first last : Z) (b : Block) : res Block :=
  erase_range index_layout first last b.
Definition IndexBlock_merge (b other : Block) : res (Block * Block) := merge index_layout b other.
Definition IndexBlock_split (b nb : Block) (key : K) (target : ptr) : res (Block * Block) :=
  split index_layout b nb key target.
Definition IndexBlock_average (b other : Block) : res (Block * Block) :=
  average index_layout (K := K) (V := ptr) b other.
Definition IndexBlock_merge_keep_average (b other : Block) : res Z :=
  merge_keep_average index_layout b other.
Definition IndexBlock_lower_bound (key : K) (b : Block) : res Z :=
  lower_bound index_layout (V := ptr) key b.
Definition IndexBlock_begin : Z := BeginPos index_layout.
Definition IndexBlock_end (b : Block) : res Z := end_pos index_layout b.
Definition IndexBlock_can_insert (b : Block) : res bool :=
  can_insert index_layout (K := K) (V := ptr) b.
Definition IndexBlock_get_key (buf : list Z) (offset : Z) : res K := get_key index_layout buf offset.
Definition IndexBlock_get_index (buf : list Z) (offset : Z) : res Z :=
  p ← get_value index_layout (K := K) (V := ptr) buf offset; Ret (proj1_sig p).
Definition IndexBlock_get_offset (buf : list Z) (from n : Z) : res Z :=
  get_offset index_layout (K := K) (V := ptr) buf from n.
Definition IndexBlock_move_other_block_data (dest : Block) (dest_pos : Z) (src : Block)
    (src_pos size : Z) : res (Block * Block) :=
  move_other_block_data index_layout dest dest_pos src src_pos size.

Definition DataBlock_insert (pos : Z) (key : K) (value : V) (b : Block) : res Block :=
  insert data_layout pos key value b.
Definition DataBlock_update (pos : Z) (value : V) (b : Block) : res (bool * Block) :=
  b ← update_value data_layout (K := K) pos value b; Ret (true, b).
(** The pair size comes from [iter.value()], which checks the block. *)
Definition DataBlock_erase (pos : Z) (b : Block) : res (bool * Block) :=
  _ ← check_kind data_layout (_buffer b);
  erase data_layout (K := K) (V := V) pos b.
Definition DataBlock_lower_bound (key : K) (b : Block) : res Z :=
  lower_bound data_layout (V := V) key b.
Definition DataBlock_can_insert (b : Block) : res bool :=
  can_insert data_layout (K := K) (V := V) b.
(** With values of fixed size the block's kind is not checked here. *)
Definition DataBlock_get_offset (from n : Z) : Z := u32 (from + PairSize (K := K) (V := V) * n).

(** The bound [data_size_check] asserts on the sizes of the types.  The conditional binds
    weaker than [+]: the key's size counts only when the value is no larger than a pointer. *)
Definition checked_size : Z :=
  if PTR_SIZE <? size_of (T := V) then size_of (T := V) else PTR_SIZE + size_of (T := K).
Definition data_size_check : bool := checked_size <=? (BLOCK_SIZE - BeginPos data_layout) / 2.

(** ** BlockIter

    An iterator names a block, or an offset in the buffer of one; [_block_ptr] is the number
    of the block whose buffer it points into. *)

Record Iter := mkIter {
  _self_valid : bool; _belong_data_block : bool; _index_or_offset : Z; _block_ptr : option Z }.

Definition Iter_default : Iter := mkIter false false 0 None.
Definition self_iter (is_data : bool) (b : Block) : Iter := mkIter true is_data (_index b) None.

Definition check_not_self_valid (it : Iter) : res unit := mcheck (negb (_self_valid it)) Thrown.

Definition iter_buffer (it : Iter) (s : Scheduler) : res (list Z) :=
  i ← of_option (_block_ptr it) BadPointer; of_option (_buffers s !! i) BadPointer.

Definition iter_key (it : Iter) (s : Scheduler) : res K :=
  _ ← check_not_self_valid it;
  buf ← iter_buffer it s;
  if _belong_data_block it then get_key data_layout buf (_index_or_offset it)
  else get_key index_layout buf (_index_or_offset it).

Definition iter_value (it : Iter) (s : Scheduler) : res V :=
  _ ← check_not_self_valid it;
  buf ← iter_buffer it s;
  get_value data_layout (K := K) buf (_index_or_offset it).

Definition iter_index (it : Iter) (s : Scheduler) : res Z :=
  if _self_valid it then Ret (_index_or_offset it)
  else buf ← iter_buffer it s; IndexBlock_get_index buf (_index_or_offset it).

Definition iter_offset (it : Iter) (n : Z) (s : Scheduler) : res Z :=
  _ ← check_not_self_valid it;
  if _belong_data_block it then Ret (DataBlock_get_offset (_index_or_offset it) n)
  else buf ← iter_buffer it s; IndexBlock_get_offset buf (_index_or_offset it) n.

Definition at_offset (it : Iter) (off : Z) : Iter :=
  mkIter (_self_valid it) (_belong_data_block it) off (_block_ptr it).

Definition iter_incr (it : Iter) (s : Scheduler) : res Iter :=
  off ← iter_offset it 1 s; Ret (at_offset it off).
Definition iter_decr (it : Iter) (s : Scheduler) : res Iter :=
  off ← iter_offset it (-1) s; Ret (at_offset it off).
Definition iter_add (it : Iter) (n : Z) (s : Scheduler) : res Iter :=
  off ← iter_offset it n s; Ret (mkIter false (_belong_data_block it) off (_block_ptr it)).
Definition iter_sub (it : Iter) (n : Z) (s : Scheduler) : res Iter :=
  off ← iter_offset it (- n) s; Ret (mkIter false (_belong_data_block it) off (_block_ptr it)).

Definition iter_eqb (a b : Iter) : bool :=
  eqb (_belong_data_block a) (_belong_data_block b) && (_index_or_offset a =? _index_or_offset b) &&
  bool_decide (_block_ptr a = _block_ptr b).

Definition iter_is_data_block (it : Iter) (s : Scheduler) : res (bool * Scheduler) :=
  if _self_valid it then Ret (_belong_data_block it, s) else
  i ← iter_index it s;
  '(buf, s) ← get_block i true s;
  s ← put_block i false s;
  Ret (is_data_block buf, s).

Definition iter_valid (it : Iter) : bool :=
  match _block_ptr it with Some _ => true | None => _self_valid it end.
End Classes.

(** ** Concrete chains *)

Definition demo_leaf (prev next : Z) (es : list (Byte.byte * Byte.byte)) : list Z :=
  make_buffer (data_pre prev next) es.

Lemma demo_leaf_rep prev next es :
  fits data_layout (K := Byte.byte) (V := Byte.byte) (zlen es) ->
  data_rep prev next es (demo_leaf prev next es).
Proof. intros Hf. apply make_buffer_rep; [apply data_pre_size | done | done]. Qed.

Definition demo_first : list (Byte.byte * Byte.byte) := [(Byte.x10, Byte.x01); (Byte.x20, Byte.x02)].
Definition demo_second : list (Byte.byte * Byte.byte) := [(Byte.x30, Byte.x03)].

(** Blocks 1 and 2 are the chain; block 3 has just been created. *)
Definition demo_store : Scheduler :=
  mkScheduler (<[1 := demo_leaf 0 2 demo_first]> (<[2 := demo_leaf 1 0 demo_second]>
                (<[3 := demo_leaf 0 0 []]> ∅))) 4 [].

Lemma demo_chain :
  chain (_buffers demo_store) 0 [(1, demo_first); (2, demo_second)] 0.
Proof.
  simpl. split_and!; try lia.
  - exists (demo_leaf 0 2 demo_first). split; [done |]. apply demo_leaf_rep. demo_fits.
  - exists (demo_leaf 1 0 demo_second). split; [done |]. apply demo_leaf_rep. demo_fits.
Qed.

Ltac distinct := apply (bool_decide_unpack _); vm_compute; exact I.

Lemma data_erase_block_chain_witness :
  exists s', DataBlock_erase_block 1 demo_store = Ret s' /\
    chain (_buffers s') 0 ([] ++ [(2, demo_second)]) 0 /\ _total_blocks s' = 4.
Proof.
  apply (data_erase_block_chain 1 demo_first [] [(2, demo_second)] demo_store).
  - apply demo_chain.
  - distinct.
  - repeat constructor.
Defined.

Lemma data_split_chain_witness :
  exists b' nb' s1 s2 s3 es1 es2,
    DataBlock_split (mkBlock 1 false true (demo_leaf 0 2 demo_first))
      (mkBlock 3 true true (demo_leaf 0 0 [])) Byte.x18 Byte.x07 demo_store = Ret (b', nb', s1) /\
    close b' s1 = Ret s2 /\ close nb' s2 = Ret s3 /\
    es1 ++ es2 = ordered_insert Byte.x18 Byte.x07 demo_first /\ zlen es1 = (zlen demo_first + 1) / 2 /\
    chain (_buffers s3) 0 ([] ++ (1, es1) :: (3, es2) :: [(2, demo_second)]) 0.
Proof.
  apply (data_split_chain 1 3 demo_first [] [(2, demo_second)]
           (mkBlock 1 false true (demo_leaf 0 2 demo_first))
           (mkBlock 3 true true (demo_leaf 0 0 [])) 0 0 Byte.x18 Byte.x07 demo_store);
    try reflexivity.
  - apply demo_chain.
  - distinct.
  - repeat constructor.
  - lia.
  - apply demo_leaf_rep. demo_fits.
  - repeat constructor.
  - demo_fits.
Defined.

(** A pair of a 2000-byte value and a 2500-byte key passes [data_size_check] and does not fit
    into a block at all. *)
Example size_check_ignores_key :
  let fk := {| size_of := 2500; enc (_ : unit) := []; dec _ := tt |} in
  let fv := {| size_of := 2000; enc (_ : bool) := []; dec _ := true |} in
  @data_size_check unit bool fk fv = true /\ ~ @fits data_layout unit bool fk fv 1.
Proof.
  split; [reflexivity |]. unfold fits, BeginPos, PairSize, BLOCK_SIZE. simpl. lia.
Qed.
