(* ===== verification/FreeList.v ===== *)
(** * Base/BPTree_impls/BPTree_impl.hpp: the header block and the free list

    Block 0 is the header: the root's number, the number of blocks in use, and the numbers of
    the blocks that have been erased.  When the header has no room left, the erased block on
    top of its list becomes a record block that lists further ones, and so on; the list is a
    stack spread over the header and a chain of record blocks.  The theorem
    [free_list_is_stack] says so: whatever sequence of erasures and creations the tree makes,
    a new block reuses the one erased last. *)

From stdpp Require Import gmap.
From S2P Require Import Prelude Interpreter Packed TreeBlocks.
Local Open Scope Z_scope.

(** [_header.buffer] is the buffer of block 0, [_deleted_record.buffer] that of block
    [_deleted_record_index] when [_deleted_record] is set and null otherwise. *)
Record BPTree_impl := mkTree {
  _scheduler : Scheduler; _deleted_record : bool; _deleted_record_index : Z;
  _head_need_update : bool; _deleted_record_need_update : bool }.

Definition with_scheduler (t : BPTree_impl) (s : Scheduler) : BPTree_impl :=
  mkTree s (_deleted_record t) (_deleted_record_index t) (_head_need_update t)
    (_deleted_record_need_update t).
Definition with_record (t : BPTree_impl) (r : bool) (i : Z) : BPTree_impl :=
  mkTree (_scheduler t) r i (_head_need_update t) (_deleted_record_need_update t).
Definition with_flags (t : BPTree_impl) (h r : bool) : BPTree_impl :=
  mkTree (_scheduler t) (_deleted_record t) (_deleted_record_index t) h r.

(** Reading and writing the buffer of block [i]. *)
Definition view_block {A} (i : Z) (f : list Z -> res A) (t : BPTree_impl) : res A :=
  buf ← of_option (_buffers (_scheduler t) !! i) BadPointer; f buf.
Definition edit_block (i : Z) (f : list Z -> res (list Z)) (t : BPTree_impl) : res BPTree_impl :=
  buf ← view_block i f t; Ret (with_scheduler t (set_buffer i buf (_scheduler t))).

Definition header {A} (f : list Z -> res A) (t : BPTree_impl) : res A := view_block 0 f t.
Definition edit_header (f : list Z -> res (list Z)) (t : BPTree_impl) : res BPTree_impl :=
  edit_block 0 f t.
Definition record {A} (f : list Z -> res A) (t : BPTree_impl) : res A :=
  view_block (_deleted_record_index t) f t.
Definition edit_record (f : list Z -> res (list Z)) (t : BPTree_impl) : res BPTree_impl :=
  edit_block (_deleted_record_index t) f t.

Definition put (i : Z) (need_update : bool) (t : BPTree_impl) : res BPTree_impl :=
  s ← put_block i need_update (_scheduler t); Ret (with_scheduler t s).
Definition get (i : Z) (read_data : bool) (t : BPTree_impl) : res (list Z * BPTree_impl) :=
  '(buf, s) ← get_block i read_data (_scheduler t); Ret (buf, with_scheduler t s).

(** [++], [--] on a header counter. *)
Definition bump_valid (n : Z) (buf : list Z) : res (list Z) :=
  v ← Head.valid_blocks_size buf; Head.set_valid_blocks_size buf (u32 (v + n)).
Definition bump_deleted (n : Z) (buf : list Z) : res (list Z) :=
  v ← Head.deleted_blocks_size buf; Head.set_deleted_blocks_size buf (u32 (v + n)).

(** [begin_block]. *)
Definition begin_block (t : BPTree_impl) : res (Iter * BPTree_impl) :=
  index ← header Head.begin_block_index t;
  if index =? 0 then Ret (Iter_default, t) else
  '(buf, t) ← get index true t;
  t ← put index false t;
  Ret (mkIter true (is_data_block buf) index None, t).

(** [set_begin_block]. *)
Definition set_begin_block {K} `{Fixed K} (it : Iter) (t : BPTree_impl) : res BPTree_impl :=
  let t := with_flags t true (_deleted_record_need_update t) in
  if negb (iter_valid it) then edit_header (fun b => Head.set_begin_block_index b 0) t
  else i ← iter_index (K := K) it (_scheduler t);
       edit_header (fun b => Head.set_begin_block_index b i) t.

(** The three statements that make block [new_record] the current record block. *)
Definition open_record (new_record last : Z) (t : BPTree_impl) : res BPTree_impl :=
  '(buf, t) ← get new_record false t;
  buf ← Record_.set_to_record_deleted_block buf;
  buf ← Record_.set_last_index buf last;
  let t := with_scheduler t (set_buffer new_record buf (_scheduler t)) in
  edit_header (fun b => Head.set_begin_record_block_index b new_record)
    (with_record t true new_record).

(** The branches of [erase_block] that put a block number on the free list. *)
Definition push_free (i : Z) (t : BPTree_impl) : res BPTree_impl :=
  if _deleted_record t then
    can ← record Record_.can_add_deleted_block t;
    t ← (if (can : bool) then Ret t else
           new_record ← record Record_.get_new_record_block_index t;
           t ← (if _deleted_record_need_update t then put (_deleted_record_index t) true t else Ret t);
           open_record new_record (_deleted_record_index t) t);
    t ← edit_record (fun b => Record_.add_deleted_block b i) t;
    let t := with_flags t (_head_need_update t) true in
    edit_header (bump_deleted 1) t
  else
    can ← header Head.can_add_deleted_block t;
    if (can : bool) then edit_header (fun b => Head.add_deleted_block b i) t
    else
      new_record ← header Head.get_new_record_block_index t;
      t ← open_record new_record 0 t;
      t ← edit_record (fun b => Record_.add_deleted_block b i) t;
      let t := with_flags t (_head_need_update t) true in
      edit_header (bump_deleted 1) t.

Definition erase_block {K} `{Fixed K} (it : Iter) (t : BPTree_impl) : res BPTree_impl :=
  _ ← massert (iter_valid it);
  '(is_data, s) ← iter_is_data_block (K := K) it (_scheduler t);
  i ← iter_index (K := K) it s;
  s ← (if (is_data : bool) then DataBlock_erase_block i s else Ret s);
  t ← edit_header (bump_valid (-1)) (with_scheduler t s);
  t ← push_free i t;
  Ret (with_flags t true (_deleted_record_need_update t)).

(** The current record block is exhausted: go back to the one below, or to the header. *)
Definition drop_record (t : BPTree_impl) : res BPTree_impl :=
  last ← record Record_.last_index t;
  t ← put (_deleted_record_index t) false t;
  t ← (if last =? 0 then Ret (with_record t false last) else
         '(buf, t) ← get last true t;
         _ ← mcheck (is_record_deleted_block buf) Thrown;
         Ret (with_record t true last));
  Ret (with_flags t (_head_need_update t) false).

Definition get_new_block_index (t : BPTree_impl) : res (Z * BPTree_impl) :=
  if negb (_deleted_record t) then
    '(i, buf) ← header Head.pop_deleted_block_index t;
    Ret (i, with_scheduler t (set_buffer 0 buf (_scheduler t)))
  else
    can ← record Record_.can_get_deleted_block t;
    _ ← massert can;
    '(i, buf) ← record Record_.pop_deleted_block_index t;
    let t := with_scheduler t (set_buffer (_deleted_record_index t) buf (_scheduler t)) in
    let t := with_flags t (_head_need_update t) true in
    can ← record Record_.can_get_deleted_block t;
    t ← (if (can : bool) then Ret t else drop_record t);
    t ← edit_header (bump_deleted (-1)) t;
    Ret (i, t).

Definition new_block_buffer (fresh : list Z) (t : BPTree_impl)
    : res (Z * list Z * BPTree_impl) :=
  t ← edit_header (bump_valid 1) t;
  let t := with_flags t true (_deleted_record_need_update t) in
  n ← header Head.deleted_blocks_size t;
  if n =? 0 then
    let '(i, buf, s) := get_new_block fresh (_scheduler t) in
    Ret (i, buf, with_scheduler t s)
  else
    '(i, t) ← get_new_block_index t;
    '(buf, t) ← get i false t;
    Ret (i, buf, t).

Definition create_data_block (fresh : list Z) (t : BPTree_impl) : res (Block * BPTree_impl) :=
  '(i, buf, t) ← new_block_buffer fresh t;
  b ← DataBlock_init i buf; Ret (b, t).

Definition create_index_block (fresh : list Z) (t : BPTree_impl) : res (Block * BPTree_impl) :=
  '(i, buf, t) ← new_block_buffer fresh t;
  b ← IndexBlock_init i buf; Ret (b, t).

(** [init], on a file with blocks and on an empty one. *)
Definition init (fresh : list Z) (s : Scheduler) : res BPTree_impl :=
  let t := mkTree s false 0 false false in
  if 0 <? _total_blocks s then
    '(buf, t) ← get 0 true t;
    _ ← mcheck (is_head_block buf) Thrown;
    i ← Head.begin_record_block_index buf;
    let t := with_record t false i in
    if i =? 0 then Ret t else
    '(buf, t) ← get i true t;
    _ ← mcheck (is_record_deleted_block buf) Thrown;
    Ret (with_record t true i)
  else
    let '(i, buf, s) := get_new_block fresh s in
    _ ← massert (i =? 0);
    buf ← Head.set_to_head_block buf;
    t ← put 0 true (with_scheduler t (set_buffer 0 buf s));
    '(_, t) ← get 0 true t;
    Ret t.

(** The destructor gives the header and the record block back; [invoke] then writes what is
    marked. *)
Definition destroy (t : BPTree_impl) : res BPTree_impl :=
  t ← put 0 (_head_need_update t) t;
  if _deleted_record_index t =? 0 then Ret t
  else put (_deleted_record_index t) (_deleted_record_need_update t) t.

(** [HeaderMessage(file)] returns before it reads anything: the field it tests is its own,
    still 0. *)
Record HeaderMessage := mkHeaderMessage {
  total_blocks_size : Z; valid_block_size : Z; deleted_block_size : Z;
  block_begin : Z; record_begin : Z; extra_data_ : list Z }.
Definition HeaderMessage_default : HeaderMessage := mkHeaderMessage 0 0 0 0 0 [].
Definition HeaderMessage_of_file (block_size total : Z) (is_open : bool)
    (first : option (list Z)) : res HeaderMessage :=
  let m := HeaderMessage_default in
  if total_blocks_size m =? 0 then Ret m
  else if negb (block_size =? BLOCK_SIZE) then Fault Thrown
  else if negb is_open then Ret m
  else
    match first with
    | None => Ret (mkHeaderMessage total 0 0 0 0 [])
    | Some buf =>
        _ ← mcheck (is_head_block buf) Thrown;
        v ← Head.valid_blocks_size buf;
        d ← Head.deleted_blocks_size buf;
        b ← Head.begin_block_index buf;
        r ← Head.begin_record_block_index buf;
        x ← (if Head.have_extra_data buf
             then n ← Head.extra_data_size buf; mem_read buf 19 n else Ret []);
        Ret (mkHeaderMessage total v d b r x)
    end.

(** ** The stack the free list stands for *)

Definition HEAD_ROOM : Z := (BLOCK_SIZE - 17) / 4.
Definition RECORD_ROOM : Z := (BLOCK_SIZE - 7) / 4.

(** The numbers at [base], [base + 4], ... *)
Definition entries (base : Z) (es : list Z) (buf : list Z) : Prop :=
  forall k x, es !! k = Some x -> rd 4 buf (base + Z.of_nat k * 4) = Ret x /\ 0 <= x < 4294967296.

Definition head_rep (total : Z) (es : list Z) (buf : list Z) : Prop :=
  zlen buf = BLOCK_SIZE /\ kind buf = 0 /\ Head.have_extra_data buf = false /\
  Head.deleted_blocks_size buf = Ret total /\ entries 17 es buf /\ zlen es <= HEAD_ROOM.

Definition record_rep (last : Z) (es : list Z) (buf : list Z) : Prop :=
  zlen buf = BLOCK_SIZE /\ kind buf = 1 /\ Record_.last_index buf = Ret last /\
  Record_.deleted_size buf = Ret (zlen es) /\ entries 7 es buf /\ zlen es <= RECORD_ROOM.

(** The record blocks, the newest first: each is the number on top of the one below it. *)
Fixpoint records (m : gmap Z (list Z)) (top : list Z) (rs : list (Z * list Z)) : Prop :=
  match rs with
  | [] => True
  | (i, es) :: rs' =>
      let below := match rs' with [] => top | (_, es') :: _ => es' end in
      let prev := match rs' with [] => 0 | (j, _) :: _ => j end in
      0 < i /\ es <> [] /\ list.last below = Some i /\
      zlen below = match rs' with [] => HEAD_ROOM | _ => RECORD_ROOM end /\
      (exists buf, m !! i = Some buf /\ record_rep prev es buf) /\ records m top rs'
  end.

Definition stack_of (top : list Z) (rs : list (Z * list Z)) : list Z :=
  top ++ mjoin (rev rs).*2.

Definition free_rep (t : BPTree_impl) (stack : list Z) : Prop :=
  exists top rs,
    stack = stack_of top rs /\ NoDup (0 :: stack) /\
    (exists buf, _buffers (_scheduler t) !! 0 = Some buf /\ head_rep (zlen stack) top buf) /\
    records (_buffers (_scheduler t)) top rs /\
    _deleted_record t = (match rs with [] => false | _ => true end) /\
    (forall i es rs', rs = (i, es) :: rs' -> _deleted_record_index t = i) /\
    (forall i, i ∈ stack -> 0 < i < _total_blocks (_scheduler t) /\
       exists buf, _buffers (_scheduler t) !! i = Some buf /\ zlen buf = BLOCK_SIZE) /\
    0 < _total_blocks (_scheduler t) < 4294967296.

Lemma HEAD_ROOM_eq : HEAD_ROOM = 1019.
Proof. reflexivity. Qed.
Lemma RECORD_ROOM_eq : RECORD_ROOM = 1022.
Proof. reflexivity. Qed.

Lemma u32_id z : 0 <= z < 4294967296 -> u32 z = z.
Proof. intros. unfold u32. by apply Z.mod_small. Qed.
Lemma u16_id z : 0 <= z < 65536 -> u16 z = z.
Proof. intros. unfold u16. by apply Z.mod_small. Qed.

(** ** Lists of numbers in a buffer *)

Lemma entries_keep base es buf buf' :
  (forall k, (k < length es)%nat -> rd 4 buf' (base + Z.of_nat k * 4) = rd 4 buf (base + Z.of_nat k * 4)) ->
  entries base es buf -> entries base es buf'.
Proof.
  intros Hk He k x Hx. rewrite Hk by (by eapply lookup_lt_Some). by apply He.
Qed.

Lemma entries_push base es x buf :
  entries base es buf -> rd 4 buf (base + zlen es * 4) = Ret x -> 0 <= x < 4294967296 ->
  entries base (es ++ [x]) buf.
Proof.
  intros He Hx Hr k y Hy. destruct (decide (k < length es)%nat).
  - rewrite lookup_app_l in Hy by done. by apply He.
  - rewrite lookup_app_r in Hy by lia. destruct (k - length es)%nat as [|j] eqn:Ek; [| by destruct j].
    injection Hy as <-. replace (Z.of_nat k) with (zlen es) by (unfold zlen; lia). done.
Qed.

Lemma entries_last base es x buf :
  entries base (es ++ [x]) buf -> rd 4 buf (base + zlen es * 4) = Ret x /\ 0 <= x < 4294967296.
Proof. intros He. apply (He (length es) x). by rewrite lookup_app_r, Nat.sub_diag. Qed.

Lemma entries_init base es x buf : entries base (es ++ [x]) buf -> entries base es buf.
Proof. intros He k y Hy. apply He. by apply lookup_app_l_Some. Qed.

(** [field] performs one write whose bounds are plain. *)
Ltac field :=
  match goal with
  | |- context [wr ?n ?buf ?off ?v] =>
      let buf' := fresh "buf" in let E := fresh "E" in let Hl := fresh "Hl" in
      let Hrd := fresh "Hrd" in let Ho := fresh "Ho" in let Hh := fresh "Hh" in
      destruct (wr_ok n buf off v) as (buf' & E & Hl & Hrd & Ho & Hh);
      [lia | lia |]; rewrite E; clear E;
      rewrite ?bind_ret
  end.

Lemma same_head_rep total total' es buf buf' :
  head_rep total es buf -> zlen buf' = zlen buf -> head buf' = head buf ->
  Head.deleted_blocks_size buf' = Ret total' ->
  (forall k, (k < length es)%nat -> rd 4 buf' (17 + Z.of_nat k * 4) = rd 4 buf (17 + Z.of_nat k * 4)) ->
  head_rep total' es buf'.
Proof.
  intros (Hl & Hk & Hx & Hd & He & Hr) Hl' Hh Hd' Hk'.
  split_and!; [lia | by rewrite (kind_head _ _ Hh) | by rewrite (extra_head _ _ Hh) | done | | done].
  by eapply entries_keep.
Qed.

Lemma head_pos buf k :
  Head.have_extra_data buf = false -> 0 <= k <= 1048576 ->
  Head.get_pos_deleted_block buf k = Ret (17 + k * 4).
Proof.
  intros Hx Hk. unfold Head.get_pos_deleted_block. rewrite Hx.
  rewrite (u32_id (k * 4)) by lia. by rewrite u32_id by lia.
Qed.

Lemma head_can_add total es buf :
  head_rep total es buf -> 0 <= total < 4294967296 ->
  Head.can_add_deleted_block buf = Ret (total <? HEAD_ROOM).
Proof.
  intros (Hl & _ & Hx & Hd & _) Ht. unfold Head.can_add_deleted_block, Head.rest_size.
  rewrite Hx, bind_ret, Hd, bind_ret. unfold BLOCK_SIZE. change (u32 (4096 - 0 - 17)) with 4079.
  change (4079 / 4) with 1019. rewrite HEAD_ROOM_eq.
  destruct (Z.ltb_spec 1019 total).
  - rewrite bind_ret. rewrite (proj2 (Z.ltb_ge total 1019)) by lia. done.
  - rewrite bind_ret, (u32_id (total * 4)), u32_id by lia. f_equal.
    destruct (Z.leb_spec 4 (4079 - total * 4)); destruct (Z.ltb_spec total 1019); (done || lia).
Qed.

Lemma head_push es x buf :
  head_rep (zlen es) es buf -> zlen es < HEAD_ROOM -> 0 <= x < 4294967296 ->
  exists buf', Head.add_deleted_block buf x = Ret buf' /\
    head_rep (zlen es + 1) (es ++ [x]) buf'.
Proof.
  intros Hr Hlt Hx. rewrite HEAD_ROOM_eq in Hlt. pose proof (zlen_nonneg es).
  pose proof Hr as (Hl & Hk & Hex & Hd & He & _). unfold BLOCK_SIZE in Hl.
  unfold Head.add_deleted_block, Head.set_deleted_blocks_size.
  rewrite Hd, bind_ret, head_pos, bind_ret by (done || lia). rewrite u32_id by lia.
  field. field. eexists. split; [done |].
  assert (Hr1 : head_rep (zlen es + 1) es buf1).
  { eapply same_head_rep; [exact Hr | lia | rewrite Hh0, Hh by lia; done | |].
    - apply Hrd0. change (256 ^ Z.of_nat 4) with 4294967296. lia.
    - intros k Hk'. rewrite Ho0, Ho by (unfold zlen in *; lia). done. }
  destruct Hr1 as (? & ? & ? & ? & He1 & _). split_and!; try done.
  - apply entries_push; [done | | done]. rewrite Ho0 by lia. by apply Hrd.
  - rewrite zlen_app, HEAD_ROOM_eq. change (zlen [x]) with 1. lia.
Qed.

Lemma head_top es x buf :
  head_rep (zlen (es ++ [x])) (es ++ [x]) buf -> Head.get_new_record_block_index buf = Ret x.
Proof.
  intros (Hl & Hk & Hex & Hd & He & Hr). rewrite HEAD_ROOM_eq in Hr.
  rewrite zlen_app in *. change (zlen [x]) with 1 in *. pose proof (zlen_nonneg es).
  unfold Head.get_new_record_block_index. rewrite Hd, bind_ret, u32_id by lia.
  rewrite Z.add_simpl_r, head_pos, bind_ret by (done || lia). by apply entries_last in He as [-> _].
Qed.

Lemma head_pop es x buf :
  head_rep (zlen (es ++ [x])) (es ++ [x]) buf ->
  exists buf', Head.pop_deleted_block_index buf = Ret (x, buf') /\ head_rep (zlen es) es buf'.
Proof.
  intros Hr0. pose proof Hr0 as (Hl & Hk & Hex & Hd & He & Hr). rewrite HEAD_ROOM_eq in Hr.
  rewrite zlen_app in *. change (zlen [x]) with 1 in *. pose proof (zlen_nonneg es).
  unfold BLOCK_SIZE in Hl. apply entries_last in He as He'. destruct He' as [Hx Hxr].
  unfold Head.pop_deleted_block_index, Head.set_deleted_blocks_size.
  rewrite Hd, bind_ret. rewrite (u32_id (zlen es + 1 - 1)) by lia. rewrite Z.add_simpl_r.
  field. assert (Hex0 : Head.have_extra_data buf0 = false) by (rewrite (extra_head buf buf0); [done | apply Hh; lia]).
  rewrite head_pos, bind_ret by (done || lia). rewrite Ho by lia. rewrite Hx, bind_ret. field. eexists. split; [done |].
  assert (Hre : head_rep (zlen es + 1) es buf).
  { split_and!; try done; [by eapply entries_init | rewrite HEAD_ROOM_eq; lia]. }
  eapply same_head_rep; [exact Hre | lia | rewrite Hh0, Hh by lia; done | |].
  - unfold Head.deleted_blocks_size. rewrite Ho0 by lia. apply Hrd.
    change (256 ^ Z.of_nat 4) with 4294967296. lia.
  - intros k Hk'. rewrite Ho0, Ho by (unfold zlen in *; lia). done.
Qed.

Lemma head_bump d total es buf :
  head_rep total es buf -> 0 <= total + d < 4294967296 ->
  exists buf', bump_deleted d buf = Ret buf' /\ head_rep (total + d) es buf'.
Proof.
  intros Hr Ht. pose proof Hr as (Hl & _ & _ & Hd & _ & Hle). rewrite HEAD_ROOM_eq in Hle.
  unfold BLOCK_SIZE in Hl. unfold bump_deleted, Head.set_deleted_blocks_size.
  rewrite Hd, bind_ret, u32_id by lia. field. eexists. split; [done |].
  eapply same_head_rep; [exact Hr | lia | by apply Hh | by apply Hrd |].
  intros k Hk. rewrite Ho by lia. done.
Qed.

(** Writing another header field. *)
Lemma head_field off v total es buf :
  head_rep total es buf -> 0 < off -> off + 4 <= 13 ->
  exists buf', wr 4 buf off v = Ret buf' /\ head_rep total es buf'.
Proof.
  intros Hr H1 H2. pose proof Hr as (Hl & _ & _ & Hd & _ & Hle). unfold BLOCK_SIZE in Hl. field.
  eexists. split; [done |]. eapply same_head_rep; [exact Hr | lia | by apply Hh | |].
  - unfold Head.deleted_blocks_size. rewrite Ho by lia. exact Hd.
  - intros k Hk. rewrite Ho by lia. done.
Qed.

Lemma head_valid total es buf :
  head_rep total es buf -> exists v, Head.valid_blocks_size buf = Ret v.
Proof.
  intros (Hl & _). unfold BLOCK_SIZE in Hl. unfold Head.valid_blocks_size, rd.
  rewrite mem_read_ok by lia. simpl. eauto.
Qed.

Lemma head_bump_valid d total es buf :
  head_rep total es buf -> exists buf', bump_valid d buf = Ret buf' /\ head_rep total es buf'.
Proof.
  intros Hr. destruct (head_valid _ _ _ Hr) as [v Hv]. unfold bump_valid. rewrite Hv, bind_ret.
  by apply head_field; [| lia | lia].
Qed.

(** ** Record blocks *)

Lemma same_record_rep last es es' buf buf' :
  record_rep last es buf -> zlen buf' = zlen buf -> head buf' = head buf ->
  Record_.last_index buf' = Record_.last_index buf ->
  Record_.deleted_size buf' = Ret (zlen es') -> entries 7 es' buf' -> zlen es' <= RECORD_ROOM ->
  record_rep last es' buf'.
Proof.
  intros (Hl & Hk & Hla & _) Hl' Hh Hla' Hd He Hr.
  split_and!; [lia | by rewrite (kind_head _ _ Hh) | congruence | done | done | done].
Qed.

Lemma record_pos k : 0 <= k <= 65535 -> Record_.get_pos_deleted_block k = 7 + k * 4.
Proof. intros. unfold Record_.get_pos_deleted_block. by rewrite u32_id by lia. Qed.

Lemma record_can_add last es buf :
  record_rep last es buf -> Record_.can_add_deleted_block buf = Ret (zlen es <? RECORD_ROOM).
Proof. intros (_ & _ & _ & Hd & _). unfold Record_.can_add_deleted_block. by rewrite Hd, bind_ret. Qed.

Lemma record_can_get last es buf :
  record_rep last es buf -> Record_.can_get_deleted_block buf = Ret (0 <? zlen es).
Proof. intros (_ & _ & _ & Hd & _). unfold Record_.can_get_deleted_block. by rewrite Hd, bind_ret. Qed.

Lemma record_push last es x buf :
  record_rep last es buf -> zlen es < RECORD_ROOM -> 0 <= x < 4294967296 ->
  exists buf', Record_.add_deleted_block buf x = Ret buf' /\ record_rep last (es ++ [x]) buf'.
Proof.
  intros Hr Hlt Hx. rewrite RECORD_ROOM_eq in Hlt. pose proof (zlen_nonneg es).
  pose proof Hr as (Hl & Hk & Hla & Hd & He & _). unfold BLOCK_SIZE in Hl.
  unfold Record_.add_deleted_block, Record_.set_deleted_size.
  rewrite Hd, bind_ret, record_pos by lia. rewrite u16_id by lia. field. field.
  eexists. split; [done |].
  eapply same_record_rep; [exact Hr | lia | rewrite Hh0, Hh by lia; done | | | |].
  - unfold Record_.last_index. by rewrite Ho0, Ho by lia.
  - rewrite zlen_app. apply Hrd0. change (zlen [x]) with 1. change (256 ^ Z.of_nat 2) with 65536. lia.
  - apply entries_push; [| | done].
    + eapply entries_keep; [| exact He]. intros k Hk'. unfold zlen in *. by rewrite Ho0, Ho by lia.
    + rewrite Ho0 by lia. by apply Hrd.
  - rewrite zlen_app, RECORD_ROOM_eq. change (zlen [x]) with 1. lia.
Qed.

Lemma record_top last es x buf :
  record_rep last (es ++ [x]) buf -> Record_.get_new_record_block_index buf = Ret x.
Proof.
  intros (Hl & Hk & _ & Hd & He & Hr). rewrite RECORD_ROOM_eq in Hr.
  rewrite zlen_app in *. change (zlen [x]) with 1 in *. pose proof (zlen_nonneg es).
  unfold Record_.get_new_record_block_index. rewrite Hd, bind_ret, u16_id by lia.
  rewrite Z.add_simpl_r, record_pos by lia. by apply entries_last in He as [-> _].
Qed.

Lemma record_pop last es x buf :
  record_rep last (es ++ [x]) buf ->
  exists buf', Record_.pop_deleted_block_index buf = Ret (x, buf') /\ record_rep last es buf'.
Proof.
  intros Hr0. pose proof Hr0 as (Hl & Hk & Hla & Hd & He & Hr). rewrite RECORD_ROOM_eq in Hr.
  rewrite zlen_app in *. change (zlen [x]) with 1 in *. pose proof (zlen_nonneg es).
  unfold BLOCK_SIZE in Hl. apply entries_last in He as He'. destruct He' as [Hx Hxr].
  unfold Record_.pop_deleted_block_index, Record_.set_deleted_size.
  rewrite Hd, bind_ret. rewrite (u16_id (zlen es + 1 - 1)) by lia. rewrite Z.add_simpl_r.
  field. rewrite record_pos by lia. rewrite Ho by lia. rewrite Hx, bind_ret. field.
  eexists. split; [done |].
  eapply same_record_rep; [exact Hr0 | lia | rewrite Hh0, Hh by lia; done | | | |].
  - unfold Record_.last_index. by rewrite Ho0, Ho by lia.
  - unfold Record_.deleted_size. rewrite Ho0 by lia. apply Hrd.
    change (256 ^ Z.of_nat 2) with 65536. lia.
  - apply entries_init in He. eapply entries_keep; [| exact He]. intros k Hk'.
    unfold zlen in *. by rewrite Ho0, Ho by lia.
  - rewrite RECORD_ROOM_eq. lia.
Qed.

(** A block formatted as a record. *)
Lemma record_format last buf :
  zlen buf = BLOCK_SIZE -> 0 <= last < 4294967296 ->
  exists buf1 buf2, Record_.set_to_record_deleted_block buf = Ret buf1 /\
    Record_.set_last_index buf1 last = Ret buf2 /\ record_rep last [] buf2.
Proof.
  intros Hl Hla. unfold Record_.set_to_record_deleted_block. rewrite set_block_ok by done.
  set (b1 := 1 :: replicate 4095 0).
  assert (Hb1 : zlen b1 = 4096) by reflexivity.
  unfold Record_.set_last_index. exists b1. destruct (wr_ok 4 b1 1 last) as (b2 & E & Hl2 & Hrd & Ho & Hh);
    [lia | lia |].
  exists b2. split_and!; [done | done |]. split_and!.
  - unfold BLOCK_SIZE. lia.
  - rewrite (kind_head b1 b2) by (apply Hh; lia). reflexivity.
  - by apply Hrd.
  - unfold Record_.deleted_size. rewrite Ho by lia. reflexivity.
  - intros k x Hx. done.
  - rewrite RECORD_ROOM_eq. change (zlen []) with 0. lia.
Qed.

(** ** The stack and its blocks *)

Lemma stack_cons top i es rs : stack_of top ((i, es) :: rs) = stack_of top rs ++ es.
Proof.
  unfold stack_of. simpl. rewrite fmap_app, join_app. simpl. by rewrite app_nil_r, app_assoc.
Qed.

Lemma records_agree m m' top rs :
  (forall i, i ∈ rs.*1 -> m' !! i = m !! i) -> records m top rs -> records m' top rs.
Proof.
  induction rs as [|[i es] rs IH]; intros Hm; simpl; [done |].
  intros (Hi & Hne & Hl & Hz & (buf & Hb & Hr) & Hrs). split_and!; try done.
  - exists buf. rewrite Hm by (left; done). done.
  - apply IH; [| done]. intros j Hj. apply Hm. by right.
Qed.

(** Every record block is itself on the stack, below the numbers it lists. *)
Lemma records_in m top i es rs j :
  records m top ((i, es) :: rs) -> j ∈ ((i, es) :: rs).*1 -> j ∈ stack_of top rs.
Proof.
  revert i es. induction rs as [|[k fs] rs IH]; intros i es Hr Hj.
  - simpl in Hj. apply list_elem_of_singleton in Hj as ->. destruct Hr as (_ & _ & Hl & _).
    unfold stack_of. simpl. rewrite app_nil_r. by apply last_Some_elem_of.
  - rewrite stack_cons. apply elem_of_app. destruct Hr as (_ & _ & Hl & _ & _ & Hr).
    rewrite fmap_cons in Hj. apply elem_of_cons in Hj as [-> | Hj].
    + right. simpl in Hl. by apply last_Some_elem_of.
    + left. by apply (IH k fs).
Qed.

(** So the number on top of the stack is not one of the record blocks. *)
Lemma top_not_record m top i es x rs :
  records m top ((i, es ++ [x]) :: rs) -> NoDup (stack_of top ((i, es ++ [x]) :: rs)) ->
  x ∉ ((i, es ++ [x]) :: rs).*1.
Proof.
  intros Hr Hnd Hx. apply (records_in _ _ _ _ _ _ Hr) in Hx. rewrite stack_cons in Hnd.
  apply list.NoDup_app in Hnd as (_ & Hd & _). apply (Hd x Hx). apply elem_of_app. right. left.
Qed.

Definition store (t : BPTree_impl) : gmap Z (list Z) := _buffers (_scheduler t).
Definition total (t : BPTree_impl) : Z := _total_blocks (_scheduler t).

(** The record fields of the tree object that describe the current record. *)
Definition current (t : BPTree_impl) (rs : list (Z * list Z)) : Prop :=
  _deleted_record t = (match rs with [] => false | _ => true end) /\
  (forall i es rs', rs = (i, es) :: rs' -> _deleted_record_index t = i).

Definition owned (t : BPTree_impl) (stack : list Z) : Prop :=
  (forall i, i ∈ stack -> 0 < i < total t /\ exists buf, store t !! i = Some buf /\ zlen buf = BLOCK_SIZE) /\
  0 < total t < 4294967296.

Lemma free_rep_intro t top rs stack buf :
  stack = stack_of top rs -> NoDup (0 :: stack) -> store t !! 0 = Some buf ->
  head_rep (zlen stack) top buf -> records (store t) top rs -> current t rs -> owned t stack ->
  free_rep t stack.
Proof.
  intros -> Hnd Hb Hh Hr [Hc1 Hc2] [Ho1 Ho2]. exists top, rs. split_and!; eauto; apply Ho2.
Qed.

Lemma view_ok {A} i (f : list Z -> res A) t buf r :
  store t !! i = Some buf -> f buf = r -> view_block i f t = r.
Proof. intros Hb Hf. unfold view_block. unfold store in Hb. by rewrite Hb. Qed.

Lemma edit_ok i f t buf buf' :
  store t !! i = Some buf -> f buf = Ret buf' ->
  edit_block i f t = Ret (with_scheduler t (set_buffer i buf' (_scheduler t))).
Proof. intros Hb Hf. unfold edit_block. by rewrite (view_ok _ _ _ _ _ Hb Hf). Qed.

Lemma get_block_ok i r t buf :
  i < total t -> store t !! i = Some buf ->
  exists t', get i r t = Ret (buf, t') /\ store t' = store t /\ total t' = total t /\
    _deleted_record t' = _deleted_record t /\ _deleted_record_index t' = _deleted_record_index t /\
    _deleted_record_need_update t' = _deleted_record_need_update t /\ _head_need_update t' = _head_need_update t.
Proof.
  intros Hi Hb. unfold get, get_block. unfold store, total in *.
  rewrite (massert_true (i <? _)) by (apply Z.ltb_lt; lia). simpl. rewrite Hb. simpl. eexists. by split_and!.
Qed.

Lemma put_block_ok i u t :
  i < total t ->
  exists t', put i u t = Ret t' /\ store t' = store t /\ total t' = total t /\
    _deleted_record t' = _deleted_record t /\ _deleted_record_index t' = _deleted_record_index t /\
    _deleted_record_need_update t' = _deleted_record_need_update t /\ _head_need_update t' = _head_need_update t.
Proof.
  intros Hi. unfold put, put_block. unfold store, total in *.
  rewrite (massert_true (i <? _)) by (apply Z.ltb_lt; lia). simpl. eexists. by split_and!.
Qed.

(** A block of the right size stays one when a buffer of that size is written anywhere. *)
Lemma owned_insert t t' stack i buf :
  owned t stack -> store t' = <[i := buf]> (store t) -> total t' = total t ->
  zlen buf = BLOCK_SIZE -> owned t' stack.
Proof.
  intros [Ho Ht] Hs Htot Hl. split; [| lia]. intros j Hj. destruct (Ho j Hj) as [Hr (b & Hb & Hbl)].
  split; [lia |]. rewrite Hs. destruct (decide (i = j)) as [->|Hne].
  - exists buf. by rewrite lookup_insert_eq.
  - exists b. by rewrite lookup_insert_ne.
Qed.

Lemma owned_sub t stack stack' : owned t stack -> (forall i, i ∈ stack' -> i ∈ stack) -> owned t stack'.
Proof. intros [Ho Ht] Hi. split; [| done]. intros i Hin. by apply Ho, Hi. Qed.

Lemma owned_snoc t stack i buf :
  owned t stack -> 0 < i < total t -> store t !! i = Some buf -> zlen buf = BLOCK_SIZE ->
  owned t (stack ++ [i]).
Proof.
  intros [Ho Ht] Hi Hb Hl. split; [| done]. intros j [Hj | ->%list_elem_of_singleton]%elem_of_app; eauto.
Qed.

Lemma record_size last es buf : record_rep last es buf -> zlen buf = BLOCK_SIZE.
Proof. by intros (? & _). Qed.
Lemma head_size n es buf : head_rep n es buf -> zlen buf = BLOCK_SIZE.
Proof. by intros (? & _). Qed.

(** Formatting block [n] as the new record block. *)
Lemma open_record_ok t n last buf hbuf k es :
  n <> 0 -> n < total t -> store t !! n = Some buf -> zlen buf = BLOCK_SIZE -> 0 <= last < 4294967296 ->
  store t !! 0 = Some hbuf -> head_rep k es hbuf ->
  exists t' buf' hbuf', open_record n last t = Ret t' /\
    store t' = <[0 := hbuf']> (<[n := buf']> (store t)) /\ total t' = total t /\
    record_rep last [] buf' /\ head_rep k es hbuf' /\
    _deleted_record t' = true /\ _deleted_record_index t' = n.
Proof.
  intros Hn Hlt Hb Hl Hla Hh Hhr. unfold open_record.
  destruct (get_block_ok n false t buf Hlt Hb) as (t1 & -> & Hs1 & Ht1 & _). simpl.
  destruct (record_format last buf Hl Hla) as (b1 & b2 & -> & E2 & Hr). simpl. rewrite E2. simpl.
  destruct (head_field 9 n k es hbuf Hhr) as (hb & Eh & Hhr'); [lia | lia |].
  eexists _, b2, hb. split; [| split_and!; [| | exact Hr | exact Hhr' | |]].
  - unfold edit_header. eapply edit_ok; [| exact Eh]. unfold store in *. simpl. rewrite Hs1.
    by rewrite lookup_insert_ne.
  - unfold store in *. simpl. by rewrite Hs1.
  - exact Ht1.
  - done.
  - done.
Qed.

(** Blocks in use keep their contents. *)
Definition used_kept (t t' : BPTree_impl) (stack : list Z) : Prop :=
  total t' = total t /\
  forall c, c <> 0 -> c ∉ stack -> store t' !! c = store t !! c.

Lemma stack_nil top : stack_of top [] = top.
Proof. unfold stack_of. simpl. apply app_nil_r. Qed.

Lemma snoc_inv (l : list Z) : l <> [] -> exists l0 x, l = l0 ++ [x].
Proof. destruct l as [|x l _] using rev_ind; [done |]. eauto. Qed.

Lemma NoDup0_snoc (stack : list Z) i :
  NoDup (0 :: stack) -> 0 < i -> i ∉ stack -> NoDup (0 :: stack ++ [i]).
Proof.
  rewrite !list.NoDup_cons. intros [H0 Hs] Hi Hn. split.
  - intros [? | Heq%list_elem_of_singleton]%elem_of_app; [done | lia].
  - apply list.NoDup_app. split_and!; [done | | apply NoDup_singleton].
    intros c Hc ->%list_elem_of_singleton. done.
Qed.

Lemma NoDup0_init (stack : list Z) x : NoDup (0 :: stack ++ [x]) -> NoDup (0 :: stack).
Proof.
  rewrite !list.NoDup_cons. intros [H0 Hs]. apply list.NoDup_app in Hs as (Hs & _ & _).
  split; [| done]. intros Hin. apply H0. apply elem_of_app. by left.
Qed.

Lemma records_pos m top rs j : records m top rs -> j ∈ rs.*1 -> 0 < j.
Proof.
  induction rs as [|[k es] rs IH]; intros Hr Hj; [by apply elem_of_nil in Hj |].
  destruct Hr as (Hk & _ & _ & _ & _ & Hr). rewrite fmap_cons in Hj.
  apply elem_of_cons in Hj as [-> | Hj]; auto.
Qed.

Lemma records_NoDup m top rs : records m top rs -> NoDup (stack_of top rs) -> NoDup rs.*1.
Proof.
  induction rs as [|[j es] rs IH]; intros Hr Hnd; [constructor |].
  pose proof Hr as (_ & _ & Hl & _ & _ & Hrs). rewrite fmap_cons. apply list.NoDup_cons.
  assert (Hnd' : NoDup (stack_of top rs)).
  { rewrite stack_cons in Hnd. by apply list.NoDup_app in Hnd as (? & _ & _). }
  split; [| by apply IH]. destruct rs as [|[k fs] rs]; [intros Hin; by apply elem_of_nil in Hin |].
  simpl in Hl. apply last_Some in Hl as [fs0 ->]. by eapply top_not_record.
Qed.

Definition free_state (t : BPTree_impl) (top : list Z) (rs : list (Z * list Z)) (hbuf : list Z) : Prop :=
  NoDup (0 :: stack_of top rs) /\ store t !! 0 = Some hbuf /\
  head_rep (zlen (stack_of top rs)) top hbuf /\ records (store t) top rs /\ current t rs /\
  owned t (stack_of top rs).

Lemma free_state_rep t top rs hbuf : free_state t top rs hbuf -> free_rep t (stack_of top rs).
Proof. intros (Hnd & Hb & Hh & Hr & Hc & Ho). by eapply free_rep_intro. Qed.

Lemma free_rep_state t stack :
  free_rep t stack -> exists top rs hbuf, stack = stack_of top rs /\ free_state t top rs hbuf.
Proof.
  intros (top & rs & -> & Hnd & (hbuf & Hb & Hh) & Hr & Hc1 & Hc2 & Ho & Ht).
  exists top, rs, hbuf. split; [done |]. split_and!; try done.
Qed.

Lemma zlen_snoc (l : list Z) x : zlen (l ++ [x]) = zlen l + 1.
Proof. rewrite zlen_app. done. Qed.

(** The number of free blocks is below the number of blocks. *)
Lemma stack_short t stack : owned t stack -> NoDup stack -> zlen stack < 4294967296 - 1.
Proof.
  intros [Ho Ht] Hnd. enough (zlen stack <= total t - 1) by lia. unfold zlen.
  assert (Hle : (length stack <= length (seqZ 1 (total t - 1)))%nat).
  { apply submseteq_length, NoDup_submseteq; [done |]. intros i Hi. apply elem_of_seqZ.
    destruct (Ho i Hi). lia. }
  rewrite length_seqZ in Hle. lia.
Qed.

(** Case: the header has room. *)
Lemma push_header t top hbuf i :
  free_state t top [] hbuf -> zlen top < HEAD_ROOM ->
  0 < i < total t -> i ∉ top -> (exists b, store t !! i = Some b /\ zlen b = BLOCK_SIZE) ->
  exists t', push_free i t = Ret t' /\ free_rep t' (top ++ [i]) /\ used_kept t t' (top ++ [i]).
Proof.
  intros (Hnd & Hb & Hh & _ & [Hc1 Hc2] & Ho) Hroom Hi Hni (bi & Hbi & Hbil).
  rewrite stack_nil in *. pose proof (zlen_nonneg top). pose proof Ho as [_ Htot].
  destruct (head_push top i hbuf Hh Hroom) as (hb & E & Hh'); [lia |].
  unfold push_free. rewrite Hc1. unfold header.
  rewrite (view_ok _ _ _ _ _ Hb (head_can_add _ _ _ Hh ltac:(rewrite HEAD_ROOM_eq in *; lia))).
  rewrite bind_ret, (proj2 (Z.ltb_lt _ _) Hroom). unfold edit_header. rewrite (edit_ok _ _ _ _ _ Hb E).
  eexists. split; [done |]. split; [| split; [done |]].
  - rewrite <- (stack_nil (top ++ [i])). eapply (free_rep_intro _ (top ++ [i]) [] _ hb).
    + done.
    + rewrite stack_nil. by apply NoDup0_snoc; [| lia |].
    + unfold store. simpl. by rewrite lookup_insert_eq.
    + rewrite stack_nil, zlen_snoc. exact Hh'.
    + done.
    + by split.
    + rewrite stack_nil. eapply owned_insert; [| reflexivity | done | by eapply head_size].
      by eapply owned_snoc.
  - intros c Hc _. unfold store. simpl. by rewrite lookup_insert_ne.
Qed.

(** Adding [i] to a record block that has room, and counting it. *)
Lemma record_push_step t top j es (rs : list (Z * list Z)) hbuf i n :
  store t !! 0 = Some hbuf -> head_rep n top hbuf -> 0 <= n + 1 < 4294967296 ->
  _deleted_record t = true -> _deleted_record_index t = j -> j <> 0 ->
  (exists buf, store t !! j = Some buf /\ record_rep (match rs with [] => 0 | (k, _) :: _ => k end) es buf) ->
  zlen es < RECORD_ROOM -> 0 <= i < 4294967296 ->
  exists t' buf' hbuf',
    (t ← edit_record (fun b => Record_.add_deleted_block b i) t;
     let t := with_flags t (_head_need_update t) true in edit_header (bump_deleted 1) t) = Ret t' /\
    store t' = <[0 := hbuf']> (<[j := buf']> (store t)) /\ total t' = total t /\
    record_rep (match rs with [] => 0 | (k, _) :: _ => k end) (es ++ [i]) buf' /\
    head_rep (n + 1) top hbuf' /\
    _deleted_record t' = true /\ _deleted_record_index t' = j.
Proof.
  intros Hb Hh Hn Hd Hj Hj0 (buf & Hbj & Hr) Hroom Hi.
  destruct (record_push _ _ i _ Hr Hroom Hi) as (b' & E & Hr').
  destruct (head_bump 1 _ _ _ Hh Hn) as (hb & Eh & Hh').
  unfold edit_record. rewrite Hj, (edit_ok _ _ _ _ _ Hbj E), bind_ret. cbv zeta.
  unfold edit_header. erewrite edit_ok; [| | exact Eh].
  2:{ unfold store in *. simpl. by rewrite lookup_insert_ne. }
  eexists _, b', hb. split; [reflexivity |]. by split_and!.
Qed.

(** Case: the current record block has room. *)
Lemma push_record t top j es rs hbuf i :
  free_state t top ((j, es) :: rs) hbuf -> zlen es < RECORD_ROOM ->
  0 < i < total t -> i ∉ stack_of top ((j, es) :: rs) ->
  (exists b, store t !! i = Some b /\ zlen b = BLOCK_SIZE) ->
  exists t', push_free i t = Ret t' /\ free_rep t' (stack_of top ((j, es) :: rs) ++ [i]) /\
    used_kept t t' (stack_of top ((j, es) :: rs) ++ [i]).
Proof.
  intros (Hnd & Hb & Hh & Hrs & [Hc1 Hc2] & Ho) Hroom Hi Hni (bi & Hbi & Hbil).
  pose proof Ho as [_ Htot]. pose proof Hrs as (Hj & Hne & Hla & Hz & (jb & Hjb & Hjr) & Hrs').
  specialize (Hc2 _ _ _ eq_refl). apply list.NoDup_cons in Hnd as Hnd'. destruct Hnd' as [_ Hnd'].
  pose proof (stack_short _ _ Ho Hnd') as Hshort. pose proof (zlen_nonneg (stack_of top ((j, es) :: rs))).
  pose proof (records_in _ _ _ _ _ j Hrs ltac:(left)) as Hjin.
  pose proof (records_NoDup _ _ _ Hrs Hnd') as Hjn. rewrite fmap_cons in Hjn.
  apply list.NoDup_cons in Hjn as [Hjn _]. simpl in Hjn.
  destruct (record_push_step t top j es rs hbuf i _ Hb Hh ltac:(lia) Hc1 Hc2 ltac:(lia)
              (ex_intro _ jb (conj Hjb Hjr)) Hroom ltac:(lia))
    as (t' & jb' & hb' & E & Hs & Ht & Hr' & Hh' & Hd' & Hi').
  exists t'. split; [| split].
  - unfold push_free. rewrite Hc1. unfold record.
    rewrite Hc2, (view_ok _ _ _ _ _ Hjb (record_can_add _ _ _ Hjr)), bind_ret, (proj2 (Z.ltb_lt _ _) Hroom).
    exact E.
  - replace (stack_of top ((j, es) :: rs) ++ [i]) with (stack_of top ((j, es ++ [i]) :: rs))
      by (rewrite !stack_cons, app_assoc; done).
    eapply (free_rep_intro _ top ((j, es ++ [i]) :: rs) _ hb'); [done | | | | | |].
    + rewrite stack_cons, app_assoc, <- (stack_cons top j es rs). by apply NoDup0_snoc; [| lia |].
    + rewrite Hs. apply lookup_insert_eq.
    + rewrite stack_cons, app_assoc, <- (stack_cons top j es rs), zlen_snoc. exact Hh'.
    + simpl. split_and!; [done | by destruct es | done | done | |].
      * exists jb'. split; [| exact Hr']. rewrite Hs, lookup_insert_ne by lia. apply lookup_insert_eq.
      * eapply records_agree; [| exact Hrs']. intros k Hk.
        pose proof (records_pos _ _ _ _ Hrs' Hk). rewrite Hs, !lookup_insert_ne; [done | | lia].
        by intros ->.
    + split; [done |]. by intros k fs rs' [= <- <- <-].
    + rewrite stack_cons, app_assoc, <- (stack_cons top j es rs).
      assert (Ho1 : owned t (stack_of top ((j, es) :: rs) ++ [i])) by (by eapply owned_snoc).
      pose proof (record_size _ _ _ Hr'). pose proof (head_size _ _ _ Hh').
      split; [| rewrite Ht; exact Htot]. intros c Hc. rewrite Ht. destruct Ho1 as [Ho1 _].
      destruct (Ho1 c Hc) as [Hcr (cb & Hcb & Hcl)]. split; [done |]. rewrite Hs.
      rewrite lookup_insert_ne by lia. destruct (decide (j = c)) as [<-|Hjc].
      * exists jb'. by rewrite lookup_insert_eq.
      * exists cb. by rewrite lookup_insert_ne.
  - split; [done |]. intros c Hc0 Hcn. rewrite Hs, !lookup_insert_ne; [done | | done].
    intros ->. apply Hcn. rewrite stack_cons. apply elem_of_app. left. apply elem_of_app. by left.
Qed.

(** What [open_record] followed by the first entry leaves, whatever the blocks below. *)
Lemma push_open t top rs0 n hbuf i last :
  NoDup (0 :: stack_of top rs0) -> store t !! 0 = Some hbuf ->
  head_rep (zlen (stack_of top rs0)) top hbuf -> records (store t) top rs0 ->
  owned t (stack_of top rs0) -> 0 < n -> n ∈ stack_of top rs0 -> n ∉ rs0.*1 ->
  last = (match rs0 with [] => 0 | (j, _) :: _ => j end) ->
  list.last (match rs0 with [] => top | (_, es) :: _ => es end) = Some n ->
  zlen (match rs0 with [] => top | (_, es) :: _ => es end)
    = (match rs0 with [] => HEAD_ROOM | _ => RECORD_ROOM end) ->
  0 < i < total t -> i ∉ stack_of top rs0 ->
  (exists b, store t !! i = Some b /\ zlen b = BLOCK_SIZE) ->
  exists t',
    (t ← open_record n last t;
     t ← edit_record (fun b => Record_.add_deleted_block b i) t;
     let t := with_flags t (_head_need_update t) true in edit_header (bump_deleted 1) t) = Ret t' /\
    free_rep t' (stack_of top rs0 ++ [i]) /\ used_kept t t' (stack_of top rs0 ++ [i]).
Proof.
  intros Hnd Hb Hh Hrs Ho Hn Hnin Hnr Hlast Htop Hz Hi Hni (bi & Hbi & Hbil).
  pose proof Ho as [Ho1 Htot]. destruct (Ho1 n Hnin) as [Hnr' (nb & Hnb & Hnl)].
  apply list.NoDup_cons in Hnd as Hnd'. destruct Hnd' as [_ Hnd'].
  pose proof (stack_short _ _ Ho Hnd') as Hshort. pose proof (zlen_nonneg (stack_of top rs0)).
  assert (Hlr : 0 <= last < 4294967296).
  { subst last. destruct rs0 as [|[j es] rs0]; [lia |].
    pose proof (records_in _ _ _ _ _ j Hrs ltac:(left)) as Hj. rewrite stack_cons in Ho1.
    destruct (Ho1 j) as [? _]; [apply elem_of_app; by left | lia]. }
  destruct (open_record_ok t n last nb hbuf _ _ ltac:(lia) ltac:(lia) Hnb Hnl Hlr Hb Hh)
    as (t1 & nb1 & hb1 & -> & Hs1 & Ht1 & Hr1 & Hh1 & Hd1 & Hi1). rewrite bind_ret.
  assert (Hb1 : store t1 !! 0 = Some hb1) by (rewrite Hs1; apply lookup_insert_eq).
  assert (Hn1 : store t1 !! n = Some nb1) by (rewrite Hs1, lookup_insert_ne by lia; apply lookup_insert_eq).
  rewrite Hlast in Hr1.
  destruct (record_push_step t1 top n [] rs0 hb1 i _ Hb1 Hh1 ltac:(lia) Hd1 Hi1 ltac:(lia)
      (ex_intro _ nb1 (conj Hn1 Hr1)) ltac:(rewrite RECORD_ROOM_eq; change (zlen []) with 0; lia) ltac:(lia))
    as (t' & nb' & hb' & E & Hs & Ht & Hr' & Hh' & Hd' & Hi').
  exists t'. split; [exact E |].
  assert (Hst : forall c, c <> 0 -> c <> n -> store t' !! c = store t !! c).
  { intros c Hc0 Hcn. by rewrite Hs, Hs1, !lookup_insert_ne. }
  assert (Hstn : store t' !! n = Some nb') by (rewrite Hs, lookup_insert_ne by lia; apply lookup_insert_eq).
  split; [| split; [lia |]].
  - replace (stack_of top rs0 ++ [i]) with (stack_of top ((n, [i]) :: rs0)) by (by rewrite stack_cons).
    eapply (free_rep_intro _ top ((n, [i]) :: rs0) _ hb'); [done | | | | | |].
    + rewrite stack_cons. by apply NoDup0_snoc; [| lia |].
    + rewrite Hs. apply lookup_insert_eq.
    + rewrite stack_cons, zlen_snoc. exact Hh'.
    + cbn [records]. split_and!; [done | done | done | done | by exists nb' |].
      eapply records_agree; [| exact Hrs]. intros k Hk. apply Hst; [| by intros ->].
      pose proof (records_pos _ _ _ _ Hrs Hk). lia.
    + split; [done |]. by intros k fs rs' [= <- <- <-].
    + rewrite stack_cons. pose proof (record_size _ _ _ Hr').
      assert (Ho2 : owned t (stack_of top rs0 ++ [i])) by (by eapply owned_snoc).
      split; [| lia]. intros c Hc. rewrite Ht, Ht1. destruct Ho2 as [Ho2 _].
      destruct (Ho2 c Hc) as [Hcr (cb & Hcb & Hcl)]. split; [done |].
      destruct (decide (c = n)) as [->|Hcn]; [by exists nb' | exists cb]. by rewrite Hst by lia.
  - intros c Hc0 Hcn. apply Hst; [done |]. intros ->. apply Hcn. apply elem_of_app. by left.
Qed.

(** Any push. *)
Lemma push_ok t stack i :
  free_rep t stack -> 0 < i < total t -> i ∉ stack ->
  (exists b, store t !! i = Some b /\ zlen b = BLOCK_SIZE) ->
  exists t', push_free i t = Ret t' /\ free_rep t' (stack ++ [i]) /\ used_kept t t' (stack ++ [i]).
Proof.
  intros (top & rs & hbuf & -> & Hst)%free_rep_state Hi Hni Hbi.
  pose proof Hst as (Hnd & Hb & Hh & Hrs & [Hc1 Hc2] & Ho).
  pose proof (zlen_nonneg top) as Htop0. pose proof Hh as (_ & _ & _ & _ & _ & Htop).
  apply list.NoDup_cons in Hnd as Hnd'. destruct Hnd' as [_ Hnd'].
  destruct rs as [|[j es] rs].
  - destruct (Z_lt_ge_dec (zlen top) HEAD_ROOM) as [Hlt|Hge].
    { rewrite stack_nil in *. by apply (push_header t top hbuf). }
    assert (Hfull : zlen top = HEAD_ROOM) by lia. rewrite HEAD_ROOM_eq in *.
    destruct (snoc_inv top) as (top0 & n & ->); [by intros -> |].
    unfold push_free. rewrite Hc1. unfold header.
    rewrite (view_ok _ _ _ _ _ Hb (head_can_add _ _ _ Hh ltac:(rewrite stack_nil; lia))), bind_ret.
    rewrite stack_nil in *. rewrite (proj2 (Z.ltb_ge (zlen (top0 ++ [n])) HEAD_ROOM)) by (rewrite HEAD_ROOM_eq; lia).
    rewrite (view_ok _ _ _ _ _ Hb (head_top _ _ _ Hh)), bind_ret.
    rewrite <- (stack_nil (top0 ++ [n])) in Hh, Hnd, Ho, Hni |- *.
    assert (Hnin : n ∈ stack_of (top0 ++ [n]) []) by (rewrite stack_nil; apply elem_of_app; right; left).
    destruct Ho as [Ho1 Ho2]. destruct (Ho1 n Hnin) as [Hn _].
    apply (push_open t (top0 ++ [n]) [] n hbuf i 0); try done;
      [by rewrite stack_nil in * | lia | apply not_elem_of_nil | by rewrite last_snoc].
  - destruct (Z_lt_ge_dec (zlen es) RECORD_ROOM) as [Hlt|Hge].
    { by apply (push_record t top j es rs hbuf). }
    pose proof Hrs as (Hj & Hne & Hla & Hz & (jb & Hjb & Hjr) & Hrs').
    specialize (Hc2 _ _ _ eq_refl). destruct (snoc_inv es Hne) as (es0 & n & ->).
    pose proof Hjr as (_ & _ & _ & _ & _ & Hroom).
    pose proof (records_in _ _ _ _ _ j Hrs ltac:(left)) as Hjin.
    destruct Ho as [Ho1 Ho2]. destruct (Ho1 j) as [Hjt _].
    { rewrite stack_cons. apply elem_of_app. by left. }
    unfold push_free. rewrite Hc1. unfold record.
    rewrite Hc2, (view_ok _ _ _ _ _ Hjb (record_can_add _ _ _ Hjr)), bind_ret.
    rewrite (proj2 (Z.ltb_ge _ _)) by lia.
    rewrite (view_ok _ _ _ _ _ Hjb (record_top _ _ _ _ Hjr)), bind_ret.
    assert (Hput : exists t1,
      (if _deleted_record_need_update t then put j true t else Ret t) = Ret t1 /\
      store t1 = store t /\ total t1 = total t /\ _deleted_record_index t1 = j).
    { destruct (_deleted_record_need_update t); [| by exists t].
      destruct (put_block_ok j true t ltac:(lia)) as (t1 & E & Hs & Ht & _ & Hi1 & _). exists t1. by rewrite Hi1. }
    destruct Hput as (t1 & -> & Hs1 & Ht1 & Hi1). rewrite bind_ret, Hi1.
    assert (Hnin : n ∈ stack_of top ((j, es0 ++ [n]) :: rs)).
    { rewrite stack_cons. apply elem_of_app. right. apply elem_of_app. right. left. }
    destruct (Ho1 n Hnin) as [Hn _].
    destruct (push_open t1 top ((j, es0 ++ [n]) :: rs) n hbuf i j) as (t' & E & Hf & Hk);
      try (rewrite ?Hs1, ?Ht1; done).
    + split; rewrite ?Hs1, ?Ht1; done.
    + lia.
    + by eapply top_not_record.
    + by rewrite last_snoc.
    + lia.
    + exists t'. split; [exact E |]. split; [done |]. destruct Hk as [Hk1 Hk2]. split; [lia |].
      intros c Hc0 Hcn. by rewrite Hk2, Hs1.
Qed.

(** Taking the number on top of the stack, from the header. *)
Lemma pop_header t top x hbuf :
  free_state t (top ++ [x]) [] hbuf ->
  exists t', get_new_block_index t = Ret (x, t') /\ free_rep t' top /\ used_kept t t' top.
Proof.
  intros (Hnd & Hb & Hh & _ & [Hc1 Hc2] & Ho). rewrite stack_nil in *.
  destruct (head_pop _ _ _ Hh) as (hb & E & Hh').
  unfold get_new_block_index. rewrite Hc1. unfold header. cbn [negb].
  rewrite (view_ok _ _ _ _ _ Hb E), bind_ret. eexists. split; [done |]. split; [| split; [done |]].
  - rewrite <- (stack_nil top). eapply (free_rep_intro _ top [] _ hb).
    + done.
    + rewrite stack_nil. by eapply NoDup0_init.
    + apply lookup_insert_eq.
    + rewrite stack_nil. exact Hh'.
    + done.
    + by split.
    + rewrite stack_nil. eapply owned_insert; [| reflexivity | done | by eapply head_size].
      eapply owned_sub; [exact Ho |]. intros c Hc. apply elem_of_app. by left.
  - intros c Hc _. unfold store. simpl. by rewrite lookup_insert_ne.
Qed.

Lemma drop_record_ok t top j (rs : list (Z * list Z)) jb :
  _deleted_record_index t = j -> j < total t -> store t !! j = Some jb ->
  record_rep (match rs with [] => 0 | (k, _) :: _ => k end) [] jb ->
  records (store t) top rs -> (forall k, k ∈ rs.*1 -> k < total t) ->
  exists t', drop_record t = Ret t' /\ store t' = store t /\ total t' = total t /\ current t' rs.
Proof.
  intros Hj Hjt Hjb Hjr Hrs Hlt. unfold drop_record, record.
  assert (Hla : Record_.last_index jb = Ret (match rs with [] => 0 | (k, _) :: _ => k end))
    by (by destruct Hjr as (_ & _ & ? & _)).
  rewrite Hj, (view_ok _ _ _ _ _ Hjb Hla), bind_ret.
  destruct (put_block_ok j false t Hjt) as (t1 & -> & Hs1 & Ht1 & _). rewrite bind_ret.
  destruct rs as [|[k es] rs].
  - simpl. eexists. split; [done |]. split_and!; [exact Hs1 | exact Ht1 |]. by split.
  - destruct Hrs as (Hk & _ & _ & _ & (kb & Hkb & Hkr) & _). rewrite (proj2 (Z.eqb_neq k 0)) by lia.
    destruct (get_block_ok k true t1 kb) as (t2 & -> & Hs2 & Ht2 & _).
    { rewrite Ht1. apply Hlt. left. }
    { by rewrite Hs1. }
    rewrite bind_ret. assert (Hkind : is_record_deleted_block kb = true).
    { destruct Hkr as (_ & Hkk & _). unfold is_record_deleted_block. by rewrite Hkk. }
    rewrite Hkind. simpl. eexists. split; [done |].
    split_and!; [by rewrite <- Hs1 | by rewrite <- Ht1 |]. split; [done |]. by intros ? ? ? [= <- <- <-].
Qed.

(** From a record block. *)
Lemma pop_record t top j es x rs hbuf :
  free_state t top ((j, es ++ [x]) :: rs) hbuf ->
  exists t', get_new_block_index t = Ret (x, t') /\ free_rep t' (stack_of top rs ++ es) /\
    used_kept t t' (stack_of top rs ++ es).
Proof.
  intros (Hnd & Hb & Hh & Hrs & [Hc1 Hc2] & Ho).
  pose proof Ho as [Ho1 Htot]. pose proof Hrs as (Hj & _ & Hla & Hz & (jb & Hjb & Hjr) & Hrs').
  specialize (Hc2 _ _ _ eq_refl). apply list.NoDup_cons in Hnd as Hnd'. destruct Hnd' as [_ Hnd'].
  pose proof (records_in _ _ _ _ _ j Hrs ltac:(left)) as Hjin.
  pose proof (records_NoDup _ _ _ Hrs Hnd') as Hjn. rewrite fmap_cons in Hjn.
  apply list.NoDup_cons in Hjn as [Hjn _]. simpl in Hjn.
  rewrite stack_cons, app_assoc in *. pose proof (stack_short _ _ Ho Hnd') as Hshort.
  pose proof (zlen_nonneg (stack_of top rs ++ es)). rewrite zlen_snoc in *.
  destruct (Ho1 j) as [Hjt _]; [rewrite !elem_of_app; tauto |].
  assert (Hrt : forall k, k ∈ rs.*1 -> k < total t).
  { intros k Hk. destruct (Ho1 k) as [? _]; [| lia]. rewrite !elem_of_app. left. left.
    eapply (records_in _ _ j); [exact Hrs |]. by right. }
  destruct (record_pop _ _ _ _ Hjr) as (jb' & E & Hjr').
  unfold get_new_block_index. rewrite Hc1. cbn [negb]. unfold record.
  rewrite Hc2, (view_ok _ _ _ _ _ Hjb (record_can_get _ _ _ Hjr)), bind_ret.
  rewrite massert_true, bind_ret by (apply Z.ltb_lt; rewrite zlen_snoc; pose proof (zlen_nonneg es); lia).
  rewrite (view_ok _ _ _ _ _ Hjb E), bind_ret. cbv zeta.
  set (t1 := with_flags _ _ true).
  assert (Hs1 : store t1 = <[j := jb']> (store t)) by (unfold store, t1; simpl; reflexivity).
  assert (Hj1 : store t1 !! j = Some jb') by (rewrite Hs1; apply lookup_insert_eq).
  assert (Hrs1 : records (store t1) top rs).
  { eapply records_agree; [| exact Hrs']. intros k Hk. rewrite Hs1, lookup_insert_ne; [done |]. by intros ->. }
  replace (_deleted_record_index t1) with j by (symmetry; exact Hc2).
  rewrite (view_ok _ _ _ _ _ Hj1 (record_can_get _ _ _ Hjr')), bind_ret.
  assert (Hdrop : exists t2 rs',
    (if 0 <? zlen es then Ret t1 else drop_record t1) = Ret t2 /\
    store t2 = store t1 /\ total t2 = total t /\ current t2 rs' /\
    records (store t1) top rs' /\ stack_of top rs' = stack_of top rs ++ es).
  { destruct (Z.ltb_spec 0 (zlen es)) as [Hpos|Hz0].
    - exists t1, ((j, es) :: rs). split_and!; try done; [| | by rewrite stack_cons].
      + split; [exact Hc1 |]. by intros ? ? ? [= <- <- <-].
      + simpl. split_and!; try done; [by intros -> | by exists jb'].
    - destruct es as [|? es]; [| rewrite zlen_cons in Hz0; pose proof (zlen_nonneg es); lia].
      destruct (drop_record_ok t1 top j rs jb' Hc2 ltac:(apply Hjt) Hj1 Hjr' Hrs1 Hrt) as (t2 & -> & Hs2 & Ht2 & Hcu).
      exists t2, rs. split_and!; try done. by rewrite app_nil_r. }
  destruct Hdrop as (t2 & rs' & E2 & Hs2 & Ht2 & Hcu2 & Hrs2 & Hst2).
  rewrite E2, bind_ret.
  destruct (head_bump (-1) _ _ _ Hh) as (hb & Eh & Hh'); [lia |].
  assert (Hb2 : store t2 !! 0 = Some hbuf) by (by rewrite Hs2, Hs1, lookup_insert_ne by lia).
  unfold edit_header. rewrite (edit_ok _ _ _ _ _ Hb2 Eh), bind_ret. eexists. split; [done |].
  set (t3 := with_scheduler _ _).
  assert (Hs3 : store t3 = <[0 := hb]> (<[j := jb']> (store t)))
    by (change (store t3) with (<[0 := hb]> (store t2)); by rewrite Hs2, Hs1).
  rewrite <- Hst2. split; [| split; [exact Ht2 |]].
  - eapply (free_rep_intro t3 top rs' _ hb); [done | | | | | |].
    + rewrite Hst2. by eapply NoDup0_init.
    + rewrite Hs3. apply lookup_insert_eq.
    + rewrite Hst2. by replace (zlen (stack_of top rs ++ es)) with (zlen (stack_of top rs ++ es) + 1 + -1) by lia.
    + eapply records_agree; [| exact Hrs2]. intros k Hk. pose proof (records_pos _ _ _ _ Hrs2 Hk).
      rewrite Hs3, Hs1, lookup_insert_ne by lia. done.
    + exact Hcu2.
    + rewrite Hst2. pose proof (record_size _ _ _ Hjr'). pose proof (head_size _ _ _ Hh').
      split; [| change (total t3) with (total t2); lia]. intros c Hc. change (total t3) with (total t2).
      rewrite Ht2. destruct (Ho1 c) as [Hcr (cb & Hcb & Hcl)]; [apply elem_of_app; by left |].
      split; [done |]. rewrite Hs3, lookup_insert_ne by lia. destruct (decide (j = c)) as [<-|Hjc].
      * exists jb'. by rewrite lookup_insert_eq.
      * exists cb. by rewrite lookup_insert_ne.
  - intros c Hc0 Hcn. rewrite Hs3, !lookup_insert_ne; [done | | done]. intros ->. apply Hcn.
    rewrite Hst2. apply elem_of_app. by left.
Qed.

(** Any pop. *)
Lemma pop_ok t stack x :
  free_rep t (stack ++ [x]) ->
  exists t', get_new_block_index t = Ret (x, t') /\ free_rep t' stack /\ used_kept t t' stack.
Proof.
  intros (top & rs & hbuf & Hst & Hf)%free_rep_state. destruct rs as [|[j es] rs].
  - rewrite stack_nil in Hst. subst top. by eapply pop_header.
  - assert (Hes : es <> []) by (destruct Hf as (_ & _ & _ & (_ & ? & _) & _); done).
    destruct (snoc_inv es Hes) as (es0 & y & ->). rewrite stack_cons, app_assoc in Hst.
    apply app_inj_tail in Hst as [-> ->]. by eapply pop_record.
Qed.

(** ** Properties *)

(** C17. The free list is a stack of block numbers.  Putting a block on it and taking one off
    never fails an assertion, a format check or a buffer bound, whether the number lands in
    the header, in a record block with room, or starts a new record block on the one below;
    what comes off is what was put on last, and no block that is not free is written. *)
Theorem free_list_is_stack t stack :
  free_rep t stack ->
  (forall i, 0 < i < total t -> i ∉ stack -> (exists b, store t !! i = Some b /\ zlen b = BLOCK_SIZE) ->
     exists t', push_free i t = Ret t' /\ free_rep t' (stack ++ [i]) /\ used_kept t t' (stack ++ [i])) /\
  (forall stack0 x, stack = stack0 ++ [x] ->
     exists t', get_new_block_index t = Ret (x, t') /\ free_rep t' stack0 /\ used_kept t t' stack0).
Proof.
  intros Hf. split.
  - intros i Hi Hn Hb. by apply push_ok.
  - intros stack0 x ->. by apply pop_ok.
Qed.

Lemma free_rep_flags t h r stack : free_rep t stack -> free_rep (with_flags t h r) stack.
Proof. exact id. Qed.

(** Header fields outside the free list can be written freely. *)
Lemma edit_header_keep f t stack :
  (forall n es buf, head_rep n es buf -> exists buf', f buf = Ret buf' /\ head_rep n es buf') ->
  free_rep t stack ->
  exists t', edit_header f t = Ret t' /\ free_rep t' stack /\ used_kept t t' [].
Proof.
  intros Hf (top & rs & hbuf & -> & Hst)%free_rep_state.
  destruct Hst as (Hnd & Hb & Hh & Hrs & Hc & Ho).
  destruct (Hf _ _ _ Hh) as (hb & E & Hh'). unfold edit_header. rewrite (edit_ok _ _ _ _ _ Hb E).
  eexists. split; [done |]. split; [| split; [done |]].
  - eapply (free_rep_intro _ top rs _ hb); [done | done | apply lookup_insert_eq | done | | done |].
    + eapply records_agree; [| exact Hrs]. intros k Hk. pose proof (records_pos _ _ _ _ Hrs Hk).
      unfold store. simpl. by rewrite lookup_insert_ne by lia.
    + eapply owned_insert; [exact Ho | reflexivity | done | by eapply head_size].
  - intros c Hc0 _. unfold store. simpl. by rewrite lookup_insert_ne.
Qed.

Lemma header_count t stack :
  free_rep t stack -> header Head.deleted_blocks_size t = Ret (zlen stack).
Proof.
  intros (top & rs & hbuf & -> & (_ & Hb & (_ & _ & _ & Hd & _) & _))%free_rep_state.
  exact (view_ok _ _ _ _ _ Hb Hd).
Qed.

(** The buffer a new block gets: the one on top of the free list, or one more at the end of
    the file. *)
Lemma new_buffer_reused t stack x fresh :
  free_rep t (stack ++ [x]) ->
  exists t' buf, new_block_buffer fresh t = Ret (x, buf, t') /\ free_rep t' stack /\
    zlen buf = BLOCK_SIZE /\ used_kept t t' stack.
Proof.
  intros Hf. unfold new_block_buffer.
  destruct (edit_header_keep (bump_valid 1) t _ (head_bump_valid 1) Hf) as (t1 & -> & Hf1 & Hk1).
  rewrite bind_ret. cbv zeta. set (t1' := with_flags _ _ _).
  assert (Hf1' : free_rep t1' (stack ++ [x])) by exact Hf1.
  rewrite (header_count _ _ Hf1'), bind_ret, zlen_snoc.
  rewrite (proj2 (Z.eqb_neq _ 0)) by (pose proof (zlen_nonneg stack); lia).
  destruct (pop_ok _ _ _ Hf1') as (t2 & -> & Hf2 & Hk2). rewrite bind_ret.
  destruct (free_rep_state _ _ Hf1') as (top & rs & hb & Es & (Hnd & _ & _ & _ & _ & Ho)).
  rewrite <- Es in Ho, Hnd. destruct Ho as [Ho _]. destruct (Ho x) as [Hx (b & Hb & Hl)].
  { apply elem_of_app. right. left. }
  apply list.NoDup_cons in Hnd as [H0 Hnd]. apply list.NoDup_app in Hnd as (_ & Hd & _).
  assert (Hxs : x ∉ stack) by (intros Hin; apply (Hd x Hin); left).
  destruct (get_block_ok x false t2 b) as (t3 & -> & Hs3 & Ht3 & Hd3 & Hi3 & _).
  { destruct Hk2 as [-> _]. lia. }
  { destruct Hk2 as [_ Hk2]. rewrite Hk2; [done | lia | done]. }
  rewrite bind_ret. exists t3, b. split; [done |]. split; [| split; [done |]].
  - destruct (free_rep_state _ _ Hf2) as (top2 & rs2 & hb2 & -> & (A1 & A2 & A3 & A4 & [A5 A6] & A7)).
    eapply (free_rep_intro t3 top2 rs2 _ hb2); [done | done | by rewrite Hs3 | done | by rewrite Hs3 | |].
    + split; [by rewrite Hd3 | by rewrite Hi3].
    + unfold owned. by rewrite Hs3, Ht3.
  - destruct Hk1 as [Hk1 Hk1'], Hk2 as [Hk2 Hk2']. split; [rewrite Ht3, Hk2; exact Hk1 |].
    intros c Hc0 Hcn. rewrite Hs3, Hk2' by done. apply Hk1'; [done | by apply not_elem_of_nil].
Qed.

Lemma new_buffer_fresh t fresh :
  free_rep t [] -> zlen fresh = BLOCK_SIZE -> total t + 1 < 4294967296 ->
  exists t', new_block_buffer fresh t = Ret (total t, fresh, t') /\ free_rep t' [] /\
    total t' = total t + 1.
Proof.
  intros Hf Hl Htot. unfold new_block_buffer.
  destruct (edit_header_keep (bump_valid 1) t _ (head_bump_valid 1) Hf) as (t1 & -> & Hf1 & [Hk1 _]).
  rewrite bind_ret. cbv zeta. set (t1' := with_flags _ _ _).
  assert (Hf1' : free_rep t1' []) by exact Hf1.
  rewrite (header_count _ _ Hf1'), bind_ret. change (zlen (@nil Z) =? 0) with true. cbv iota.
  destruct (free_rep_state _ _ Hf1') as (top & rs & hb & Es & (Hnd & Hb & Hh & Hrs & Hc & Ho)).
  assert (Ht : _total_blocks (_scheduler t1') = total t) by exact Hk1.
  unfold get_new_block. cbv zeta. rewrite Ht. eexists. split; [done |].
  destruct Ho as [_ Htt]. unfold total in Htt. rewrite Ht in Htt.
  assert (Htot' : total (with_scheduler t1'
    (mkScheduler (<[total t := fresh]> (_buffers (_scheduler t1'))) (u32 (total t + 1))
       (_log (_scheduler t1') ++ [GetNew (total t)]))) = total t + 1).
  { unfold total at 1. simpl. apply u32_id. lia. }
  split; [| exact Htot'].
  assert (Hrs0 : rs = []).
  { destruct rs as [|[j es] rs]; [done |]. exfalso. rewrite stack_cons in Es.
    symmetry in Es. apply app_eq_nil in Es as [_ ->]. by destruct Hrs as (_ & ? & _). }
  subst rs. rewrite stack_nil in *. subst top.
  eapply (free_rep_intro _ [] [] _ hb); [done | done | | done | done | exact Hc |].
  - unfold store. simpl. rewrite lookup_insert_ne by lia. exact Hb.
  - split; [intros i Hi; by apply elem_of_nil in Hi | rewrite Htot'; lia].
Qed.

(** [create_index_block] gives an empty index block: the one erased last when there is one,
    else one at the end of the file; the rest of the free list stays, and no block in use is
    touched. *)
Theorem create_index_block_ok t stack fresh :
  free_rep t stack -> zlen fresh = BLOCK_SIZE -> total t + 1 < 4294967296 ->
  exists b t', create_index_block fresh t = Ret (b, t') /\
    rep (K := Byte.byte) (V := ptr) index_layout [3] [] (_buffer b) /\
    ((exists stack0, stack = stack0 ++ [_index b] /\ free_rep t' stack0 /\ used_kept t t' stack0) \/
     (stack = [] /\ _index b = total t /\ free_rep t' [] /\ total t' = total t + 1)).
Proof.
  intros Hf Hl Ht. unfold create_index_block, IndexBlock_init.
  assert (Hrep : rep (K := Byte.byte) (V := ptr) index_layout [3] [] (3 :: replicate 4095 0)).
  { split_and!; [done | done | done |]. by exists (replicate 4093 0). }
  destruct (decide (stack = [])) as [->|Hne].
  - destruct (new_buffer_fresh t fresh Hf Hl Ht) as (t' & -> & Hf' & Ht'). rewrite bind_ret.
    rewrite set_block_ok by done. rewrite !bind_ret. eexists _, t'. split; [done |]. split; [done |].
    right. by split_and!.
  - destruct (snoc_inv stack Hne) as (stack0 & x & ->).
    destruct (new_buffer_reused t stack0 x fresh Hf) as (t' & buf & -> & Hf' & Hb & Hk). rewrite bind_ret.
    rewrite set_block_ok by done. rewrite !bind_ret. eexists _, t'. split; [done |]. split; [done |].
    left. exists stack0. by split_and!.
Qed.

(** ** A new file *)

Definition blank : list Z := replicate 4096 0.
Definition empty_file : Scheduler := mkScheduler ∅ 0 [].

Lemma zlen_blank : zlen blank = BLOCK_SIZE.
Proof. reflexivity. Qed.

(** Opening an empty file formats the header block and leaves an empty free list. *)
Theorem init_empty fresh :
  zlen fresh = BLOCK_SIZE -> exists t, init fresh empty_file = Ret t /\ free_rep t [] /\ total t = 1.
Proof.
  intros Hl. unfold init. simpl. unfold Head.set_to_head_block. rewrite set_block_ok by done.
  rewrite bind_ret. unfold put, put_block, get, get_block. simpl. eexists. split; [reflexivity |].
  split; [| done]. eapply (free_rep_intro _ [] [] _ (0 :: replicate 4095 0));
    [done | apply NoDup_singleton | done | | done | by split |].
  - split_and!; done.
  - split; [intros i Hi; by apply elem_of_nil in Hi | done].
Qed.

Lemma init_empty_witness :
  exists t, init blank empty_file = Ret t /\ free_rep t [] /\ total t = 1.
Proof. apply (init_empty blank). reflexivity. Defined.

Lemma blank_head : head_rep 0 [] (0 :: replicate 4095 0).
Proof. split_and!; done. Qed.

(** A file of three blocks in which block 1 is free. *)
Lemma demo_free : exists t, free_rep t [1] /\ total t = 3 /\ store t !! 2 = Some blank.
Proof.
  destruct (head_push [] 1 _ blank_head) as (hb & _ & Hh); [done | lia |].
  exists (mkTree (mkScheduler (<[0 := hb]> (<[1 := blank]> (<[2 := blank]> ∅))) 3 []) false 0 false false).
  split; [| done].
  eapply (free_rep_intro _ [1] [] _ hb); [done | | done | exact Hh | done | by split |].
  - apply (bool_decide_unpack _). vm_compute. exact I.
  - split; [| done]. intros i ->%list_elem_of_singleton. split; [done |]. by exists blank.
Qed.

Lemma free_list_is_stack_witness :
  exists t, free_rep t [1] /\
    (exists t1, push_free 2 t = Ret t1 /\ free_rep t1 ([1] ++ [2]) /\ used_kept t t1 ([1] ++ [2])) /\
    (exists t2, get_new_block_index t = Ret (1, t2) /\ free_rep t2 [] /\ used_kept t t2 []).
Proof.
  destruct demo_free as (t & Hf & Ht & Hb). exists t. split; [exact Hf |].
  destruct (free_list_is_stack t [1] Hf) as [Hpush Hpop]. split.
  - apply Hpush; [lia | | by exists blank].
    intros Hin%list_elem_of_singleton. done.
  - apply Hpop. reflexivity.
Defined.

Lemma create_index_block_ok_witness :
  exists t b t', free_rep t [1] /\ create_index_block blank t = Ret (b, t') /\
    rep (K := Byte.byte) (V := ptr) index_layout [3] [] (_buffer b) /\
    ((exists stack0, [1] = stack0 ++ [_index b] /\ free_rep t' stack0 /\ used_kept t t' stack0) \/
     ([1] = [] /\ _index b = total t /\ free_rep t' [] /\ total t' = total t + 1)).
Proof.
  destruct demo_free as (t & Hf & Ht & Hb).
  destruct (create_index_block_ok t [1] blank Hf zlen_blank) as (b & t' & H); [rewrite Ht; lia |].
  exists t, b, t'. split; [exact Hf | exact H].
Defined.

(** ** The record chain on disk

    When the last number of the only record block is taken, the tree object forgets the block
    but the header still names it; block 5 is then free to be used for data, and the next
    [init] refuses the file. *)
Definition stale_tree : res BPTree_impl :=
  h ← Head.set_to_head_block blank;
  h ← Head.set_deleted_blocks_size h 1;
  h ← Head.set_begin_record_block_index h 5;
  r ← Record_.set_to_record_deleted_block blank;
  r ← Record_.add_deleted_block r 7;
  Ret (mkTree (mkScheduler (<[0 := h]> (<[5 := r]> ∅)) 8 []) true 5 false false).

Example stale_record_index :
  (t ← stale_tree;
   '(i, t) ← get_new_block_index t;
   r ← header Head.begin_record_block_index t;
   Ret (i, _deleted_record t, r)) = Ret (7, false, 5).
Proof. vm_compute. reflexivity. Qed.

Example stale_record_refused :
  (t ← stale_tree;
   '(_, t) ← get_new_block_index t;
   d ← DataBlock_init 5 blank;
   init blank (set_buffer 5 (_buffer d) (_scheduler t))) = Fault Thrown.
Proof. vm_compute. reflexivity. Qed.

(** [HeaderMessage(file)] never reads its file. *)
Example header_message_empty block_size n is_open first :
  HeaderMessage_of_file block_size n is_open first = Ret HeaderMessage_default.
Proof. reflexivity. Qed.
