(* ===== verification/LRUCache.v ===== *)
(** * LRUCache: the write-back cache of Base/LRUCache.hpp

    The cache over its helper: the map of nodes, the three queues, and every member function
    of LRUCache.hpp.  A queue is the sequence of (node, element) pairs that DList.v shows the
    List operations to maintain, and a [QIter] is the address of a node or [end()].  A map
    iterator kept in a queue is the key of its element: it stays so because the model faults as
    soon as a queue keeps an iterator that is no longer valid, when [_map.erase] frees the node
    of a queued iterator ([map_erase]) and when [_map.emplace] rehashes and the implementation
    of the map does not keep iterators over that ([emplace_check]).  The helper (its type is a
    template argument) is a type class; its laws are those a client of the cache relies on. *)

From stdpp Require Import gmap sorting.
From S2P Require Import Prelude.
Local Open Scope Z_scope.

(** ** Outcomes that keep the state

    An exception leaves the objects as they were when it was thrown. *)

Inductive outcome (S A : Type) :=
  | Done (a : A) (s : S)
  | Threw (s : S)
  | Stuck (f : fault).
Arguments Done {S A} a s.
Arguments Threw {S A} s.
Arguments Stuck {S A} f.

(** What the template argument [Helper] provides, and of [std::unordered_map] whether an
    [emplace] into a map of so many elements makes its iterators invalid (the standard says so
    of an [emplace] that rehashes; in libstdc++ an iterator is the address of a node and stays
    good); [destroy] is the destructor of a [Value],
    [set_reads] what a client sets in the helper before a [get], [adjust] what else it changes
    there. *)
Class CacheHelper (St Key Value : Type) := {
  emplace_invalidates : Z -> bool;
  can_create : Key -> St -> bool;
  create : Key -> St -> outcome St Value;
  update : Key -> Value -> St -> outcome St unit;
  has_release_callable : bool;
  release : Key -> Value -> St -> St;
  release_key : Key -> St -> St;
  erase_notice : Key -> St -> St;
  destroy : Value -> St -> outcome St unit;
  set_reads : bool -> St -> St;
  adjustment : Type;
  adjust : adjustment -> St -> St;
}.

(** ** Queues *)

Section Queues.
Context {Key : Type}.

Record queue := mkQueue { items : list (Z * Key); next_id : Z }.

Definition empty_queue : queue := mkQueue [] 0.

Definition q_begin (q : queue) : option Z := fst <$> head (items q).

(** The element of the node [i] and the node after it. *)
Fixpoint q_find (i : Z) (l : list (Z * Key)) : option (Key * option Z) :=
  match l with
  | [] => None
  | (j, k) :: r => if i =? j then Some (k, fst <$> head r) else q_find i r
  end.

Definition q_push (k : Key) (q : queue) : queue :=
  mkQueue (items q ++ [(next_id q, k)]) (next_id q + 1).

Definition q_erase (it : option Z) (q : queue) : option queue :=
  match it with
  | None => Some q
  | Some i => if decide (i ∈ (items q).*1)
              then Some (mkQueue (filter (fun e => e.1 <> i) (items q)) (next_id q)) else None
  end.

Definition q_clear (q : queue) : queue := mkQueue [] (next_id q).
End Queues.
Arguments queue Key : clear implicits.

(** ** The cache *)

Record Node (Value : Type) := mkNode {
  value : Value; need_update : bool; is_persistent : bool; instantiated_size : Z;
  instantiated_time : Z; iter : option Z; obsolete_iter : option Z }.
Arguments mkNode {Value}.
Arguments value {Value}.
Arguments need_update {Value}.
Arguments is_persistent {Value}.
Arguments instantiated_size {Value}.
Arguments instantiated_time {Value}.
Arguments iter {Value}.
Arguments obsolete_iter {Value}.

Record Cache (St Key Value : Type) `{Countable Key} := mkCache {
  _helper : St; _map : gmap Key (Node Value);
  _persistent : queue Key; _temporary : queue Key; _obsolete : queue Key }.
Arguments mkCache {St Key Value _ _}.
Arguments _helper {St Key Value _ _}.
Arguments _map {St Key Value _ _}.
Arguments _persistent {St Key Value _ _}.
Arguments _temporary {St Key Value _ _}.
Arguments _obsolete {St Key Value _ _}.

Inductive which := Persistent | Temporary | Obsolete.

(** [TimeInterval threshold_time { 1 * SEC_ }], in nanoseconds. *)
Definition threshold_time : Z := 1000000000.

Section Cache.
Context {St Key Value : Type} `{Countable Key} `{CacheHelper St Key Value}.

Abbreviation cache := (Cache St Key Value).
Abbreviation node_of := (Node Value).

Definition M (A : Type) : Type := cache -> outcome cache A.
#[local] Instance M_ret : MRet M := fun A a c => Done a c.
#[local] Instance M_bind : MBind M := fun A B k m c =>
  match m c with Done a c' => k a c' | Threw c' => Threw c' | Stuck f => Stuck f end.

Definition gets {A} (f : cache -> A) : M A := fun c => Done (f c) c.
Definition modify (f : cache -> cache) : M unit := fun c => Done tt (f c).
Definition assert_ (b : bool) : M unit := fun c => if b then Done tt c else Stuck AssertFailed.
Definition deref {A} (o : option A) : M A := fun c =>
  match o with Some a => Done a c | None => Stuck BadPointer end.
Definition throw {A} : M A := fun c => Threw c.
Definition stuck {A} (f : fault) : M A := fun _ => Stuck f.
Definition when (b : bool) (m : M unit) : M unit := if b then m else mret tt.

Definition with_helper (h : St) (c : cache) : cache :=
  mkCache h (_map c) (_persistent c) (_temporary c) (_obsolete c).
Definition with_map (m : gmap Key node_of) (c : cache) : cache :=
  mkCache (_helper c) m (_persistent c) (_temporary c) (_obsolete c).

Definition get_q (w : which) (c : cache) : queue Key :=
  match w with Persistent => _persistent c | Temporary => _temporary c | Obsolete => _obsolete c end.
Definition set_q (w : which) (q : queue Key) (c : cache) : cache :=
  match w with
  | Persistent => mkCache (_helper c) (_map c) q (_temporary c) (_obsolete c)
  | Temporary => mkCache (_helper c) (_map c) (_persistent c) q (_obsolete c)
  | Obsolete => mkCache (_helper c) (_map c) (_persistent c) (_temporary c) q
  end.

(** A call of the helper. *)
Definition on_helper {A} (f : St -> outcome St A) : M A := fun c =>
  match f (_helper c) with
  | Done a h => Done a (with_helper h c)
  | Threw h => Threw (with_helper h c)
  | Stuck f => Stuck f
  end.
Definition tell (f : St -> St) : M unit := modify (fun c => with_helper (f (_helper c)) c).

Definition node (k : Key) : M node_of := c ← gets id; deref (_map c !! k).
Definition set_node (k : Key) (n : node_of) : M unit := modify (fun c => with_map (<[k := n]> (_map c)) c).

Definition erase_q (w : which) (it : option Z) : M unit :=
  q ← gets (get_q w); q' ← deref (q_erase it q); modify (set_q w q').
Definition push_q (w : which) (k : Key) : M (option Z) :=
  q ← gets (get_q w); modify (set_q w (q_push k q));; mret (Some (next_id q)).

(** The map iterators kept in the queues. *)
Definition kept_iters (c : cache) : list Key :=
  (items (_persistent c) ++ items (_temporary c) ++ items (_obsolete c)).*2.

(** Taking a node out of the map runs the destructor of the value. *)
Definition map_delete (k : Key) : M unit :=
  n ← node k; modify (fun c => with_map (delete k (_map c)) c);; on_helper (destroy (value n)).

(** [_map.erase(iter)], after which no queue may keep an iterator to the node. *)
Definition map_erase (k : Key) : M unit :=
  c ← gets id;
  if decide (k ∈ kept_iters c) then stuck BadPointer else map_delete k.

(** [_map.emplace]: no queue may keep an iterator that a rehash makes invalid. *)
Definition emplace_check : M unit :=
  c ← gets id;
  if emplace_invalidates (Z.of_nat (size (_map c))) && negb (bool_decide (kept_iters c = []))
  then stuck BadPointer else mret tt.

(** [node.need_update = false], [node.obsolete_iter = end()]. *)
Definition saved (n : node_of) : node_of :=
  mkNode (value n) false (is_persistent n) (instantiated_size n) (instantiated_time n) (iter n) None.

Definition get_change (k : Key) : M unit :=
  n ← node k;
  let n := mkNode (value n) (need_update n) (is_persistent n) (u32 (instantiated_size n + 1))
             (instantiated_time n) (iter n) (obsolete_iter n) in
  set_node k n;;
  if 1 <? instantiated_size n then mret tt else
  assert_ (bool_decide (is_Some (iter n)));;
  erase_q (if is_persistent n then Persistent else Temporary) (iter n);;
  let n := mkNode (value n) (need_update n) (is_persistent n) (instantiated_size n)
             (instantiated_time n) None (obsolete_iter n) in
  set_node k n;;
  match obsolete_iter n with
  | None => mret tt
  | Some i =>
      assert_ (need_update n);;
      erase_q Obsolete (Some i);;
      set_node k (mkNode (value n) (need_update n) (is_persistent n) (instantiated_size n)
                    (instantiated_time n) (iter n) None)
  end.

(** [now] is what [Unix_to_now()] returns. *)
Definition put_change (k : Key) (now : Z) : M unit :=
  n ← node k;
  let n := mkNode (value n) (need_update n) (is_persistent n) (u32 (instantiated_size n - 1))
             (instantiated_time n) (iter n) (obsolete_iter n) in
  set_node k n;;
  if 0 <? instantiated_size n then mret tt else
  let long := is_persistent n || (threshold_time <=? now - instantiated_time n) in
  i ← push_q (if long then Persistent else Temporary) k;
  let n := mkNode (value n) (need_update n) long (instantiated_size n) (instantiated_time n) i
             (obsolete_iter n) in
  set_node k n;;
  when (need_update n) (
    assert_ (bool_decide (obsolete_iter n = None));;
    i ← push_q Obsolete k;
    set_node k (mkNode (value n) (need_update n) (is_persistent n) (instantiated_size n)
                  (instantiated_time n) (iter n) i)).

(** The first loop of [reserve_space]: clean temporary nodes. *)
Fixpoint drop_clean (fuel : nat) (key : Key) (it : option Z) : M unit :=
  match fuel with
  | O => stuck OutOfFuel
  | S fuel =>
      match it with
      | None => mret tt
      | Some i =>
          h ← gets _helper;
          if can_create key h then mret tt else
          q ← gets _temporary;
          '(k, next) ← deref (q_find i (items q));
          n ← node k;
          (if need_update n then mret tt else
           erase_q Temporary (Some i);;
           when has_release_callable (tell (release k (value n)));;
           map_erase k);;
          drop_clean fuel key next
      end
  end.

(** The second loop: the temporary nodes left need an update. *)
Fixpoint drop_dirty (fuel : nat) (key : Key) (it : option Z) : M unit :=
  match fuel with
  | O => stuck OutOfFuel
  | S fuel =>
      match it with
      | None => mret tt
      | Some i =>
          h ← gets _helper;
          if can_create key h then mret tt else
          q ← gets _temporary;
          '(k, next) ← deref (q_find i (items q));
          n ← node k;
          assert_ (need_update n);;
          on_helper (update k (value n));;
          when has_release_callable (tell (release k (value n)));;
          erase_q Obsolete (obsolete_iter n);;
          erase_q Temporary (Some i);;
          map_erase k;;
          drop_dirty fuel key next
      end
  end.

(** The third loop: persistent nodes. *)
Fixpoint drop_persistent (fuel : nat) (key : Key) (it : option Z) : M unit :=
  match fuel with
  | O => stuck OutOfFuel
  | S fuel =>
      match it with
      | None => mret tt
      | Some i =>
          h ← gets _helper;
          if can_create key h then mret tt else
          q ← gets _persistent;
          '(k, next) ← deref (q_find i (items q));
          n ← node k;
          when (need_update n) (on_helper (update k (value n));; erase_q Obsolete (obsolete_iter n));;
          when has_release_callable (tell (release k (value n)));;
          erase_q Persistent (Some i);;
          map_erase k;;
          drop_persistent fuel key next
      end
  end.

Definition reserve_space (key : Key) : M unit :=
  h ← gets _helper; if can_create key h then mret tt else
  q ← gets _temporary; drop_clean (S (length (items q))) key (q_begin q);;
  h ← gets _helper; if can_create key h then mret tt else
  q ← gets _temporary; drop_dirty (S (length (items q))) key (q_begin q);;
  h ← gets _helper; if can_create key h then mret tt else
  q ← gets _persistent; drop_persistent (S (length (items q))) key (q_begin q);;
  h ← gets _helper; if can_create key h then mret tt else throw.

(** [get] returns the address of the value in its node; the model returns what is there. *)
Definition get (key : Key) (now : Z) : M Value :=
  m ← gets _map;
  match m !! key with
  | Some n => get_change key;; mret (value n)
  | None =>
      reserve_space key;;
      v ← on_helper (create key);
      m ← gets _map;
      assert_ (bool_decide (m !! key = None));;
      emplace_check;;
      set_node key (mkNode v false false 0 0 None None);;
      set_node key (mkNode v false false (u32 (0 + 1)) now None None);;
      mret v
  end.

Definition put (key : Key) (need : bool) (now : Z) : M unit :=
  m ← gets _map;
  assert_ (bool_decide (is_Some (m !! key)));;
  n ← node key;
  when need (set_node key (mkNode (value n) true (is_persistent n) (instantiated_size n)
                             (instantiated_time n) (iter n) (obsolete_iter n)));;
  put_change key now.

Definition update_one : M unit :=
  q ← gets _obsolete;
  if negb (0 <? zlen (items q)) then mret tt else
  i ← deref (q_begin q);
  '(k, _) ← deref (q_find i (items q));
  n ← node k;
  assert_ (need_update n);;
  assert_ (instantiated_size n =? 0);;
  assert_ (bool_decide (obsolete_iter n = Some i));;
  on_helper (update k (value n));;
  set_node k (mkNode (value n) false (is_persistent n) (instantiated_size n)
                (instantiated_time n) (iter n) (obsolete_iter n));;
  erase_q Obsolete (Some i);;
  set_node k (saved n).

(** The body of the loops of [update_all] and [update_all_with_order]. *)
Definition save (k : Key) : M unit :=
  n ← node k;
  assert_ (need_update n);;
  assert_ (instantiated_size n =? 0);;
  on_helper (update k (value n));;
  set_node k (saved n).

Fixpoint update_all_loop (fuel : nat) (it : option Z) : M unit :=
  match fuel with
  | O => stuck OutOfFuel
  | S fuel =>
      match it with
      | None => mret tt
      | Some i =>
          q ← gets _obsolete;
          '(k, next) ← deref (q_find i (items q));
          save k;;
          update_all_loop fuel next
      end
  end.

Definition update_all : M unit :=
  q ← gets _obsolete;
  update_all_loop (S (length (items q))) (q_begin q);;
  modify (fun c => set_q Obsolete (q_clear (_obsolete c)) c).

Fixpoint save_each (ks : list Key) : M unit :=
  match ks with [] => mret tt | k :: ks => save k;; save_each ks end.

(** The order [std::sort] establishes: [b] does not come before [a]. *)
Definition no_later (cmp : Key -> Key -> bool) (a b : Key) : Prop := Is_true (negb (cmp b a)).
#[local] Instance no_later_dec cmp a b : Decision (no_later cmp a b).
Proof. unfold no_later. apply _. Defined.

(** [cmp] is the order of the keys, [arr] the vector [std::sort] works on. *)
Definition update_all_with_order (cmp : Key -> Key -> bool) : M unit :=
  q ← gets _obsolete;
  let arr := (items q).*2 in
  save_each (merge_sort (no_later cmp) arr);;
  modify (fun c => set_q Obsolete (q_clear (_obsolete c)) c).

Definition remove (key : Key) : M unit :=
  m ← gets _map;
  match m !! key with
  | None => throw
  | Some n =>
      assert_ (instantiated_size n =? 0);;
      when (need_update n) (
        on_helper (update key (value n));;
        assert_ (bool_decide (is_Some (obsolete_iter n)));;
        erase_q Obsolete (obsolete_iter n));;
      when has_release_callable (tell (release key (value n)));;
      assert_ (bool_decide (is_Some (iter n)));;
      erase_q (if is_persistent n then Persistent else Temporary) (iter n);;
      map_erase key
  end.

(** [has_erase_callable] is computed from the same expression as [has_release_callable]. *)
Definition has_erase_callable : bool := has_release_callable.

Definition erase (key : Key) : M unit :=
  m ← gets _map;
  match m !! key with
  | None => when has_erase_callable (tell (erase_notice key))
  | Some n =>
      when has_release_callable (tell (release_key key));;
      when has_erase_callable (tell (erase_notice key));;
      assert_ (instantiated_size n =? 0);;
      when (need_update n) (
        assert_ (bool_decide (is_Some (obsolete_iter n)));;
        erase_q Obsolete (obsolete_iter n));;
      assert_ (bool_decide (is_Some (iter n)));;
      erase_q (if is_persistent n then Persistent else Temporary) (iter n);;
      map_erase key
  end.

Definition need_update_size (c : cache) : Z := u32 (zlen (items (_obsolete c))).
Definition total_size (c : cache) : Z := u32 (Z.of_nat (size (_map c))).

Definition cache_new (h : St) : cache := mkCache h ∅ empty_queue empty_queue empty_queue.

(** The destructor visits the nodes in the order [ks] of the map; the values are destroyed
    with the map, after the queues, which are declared after it. *)
Fixpoint close_nodes (ks : list Key) : M unit :=
  match ks with
  | [] => mret tt
  | k :: ks =>
      n ← node k;
      if negb (instantiated_size n =? 0) then stuck Exited else
      when (need_update n) (on_helper (update k (value n)));;
      when has_release_callable (tell (release k (value n)));;
      close_nodes ks
  end.

Fixpoint destroy_nodes (ks : list Key) : M unit :=
  match ks with [] => mret tt | k :: ks => map_delete k;; destroy_nodes ks end.

Definition cache_destroy (ks : list Key) : M unit := close_nodes ks;; destroy_nodes ks.

(** What the holder of a pointer writes into the value. *)
Definition write_value (k : Key) (f : Value -> Value) : M unit :=
  n ← node k;
  set_node k (mkNode (f (value n)) (need_update n) (is_persistent n) (instantiated_size n)
                (instantiated_time n) (iter n) (obsolete_iter n)).
End Cache.
