(* ===== verification/LRUSpec.v ===== *)
(** * LRUSpec: what the cache promises

    The invariant of LRUCache.v (each queue holds exactly the nodes whose flags say so), the
    value a client sees for a key, and that every member function keeps both: an eviction or a
    write-back never loses an update, and never touches a node a client holds. *)

From stdpp Require Import gmap sorting.
From S2P Require Import Prelude LRUCache.
Local Open Scope Z_scope.
Import LRUCache.

(** ** The helper's side of the contract

    [content] is what a client reads in a value, [backing] what the helper stores for a key,
    [owns] that the helper's resources are consistent with the values alive.  The map is one
    that keeps its iterators over a rehash, as libstdc++'s does ([emplace_keeps]);
    [rehash_faults] in LRUSession.v shows what happens with one that does not. *)

(** The settings [f] reads in the helper are as they were, whether the call returned or threw. *)
Definition keeps_settings {St T A : Type} (f : St -> T) (o : outcome St A) (h : St) : Prop :=
  match o with Done _ h' | Threw h' => f h' = f h | Stuck _ => True end.

Class HelperLaws (St Key Value Content : Type) `{EqDecision Key} `{CacheHelper St Key Value} := {
  content : Value -> Content;
  poke : Content -> Value -> Value;
  backing : St -> Key -> Content;
  Settings : Type;
  settings : St -> Settings;
  reading : Settings -> bool;
  usable : Settings -> Key -> Prop;
  adjustable : Settings -> adjustment -> Prop;
  owns : list (Key * Value) -> St -> Prop;
  emplace_keeps n : emplace_invalidates n = false;
  content_poke x v : content (poke x v) = x;
  owns_perm vs vs' h : vs ≡ₚ vs' -> owns vs h -> owns vs' h;
  owns_poke k x v vs h : owns ((k, v) :: vs) h -> owns ((k, poke x v) :: vs) h;
  create_ok k vs h : owns vs h -> can_create k h = true -> usable (settings h) k ->
    match create k h with
    | Done v h' => owns ((k, v) :: vs) h' /\ (forall j, backing h' j = backing h j) /\
                   (reading (settings h) = true -> content v = backing h k)
    | Threw h' => owns vs h' /\ (forall j, backing h' j = backing h j)
    | Stuck _ => False
    end;
  update_ok k v vs h : owns vs h -> (k, v) ∈ vs ->
    match update k v h with
    | Done _ h' => owns vs h' /\ (forall j, backing h' j = if decide (j = k) then content v else backing h j)
    | Threw h' => owns vs h' /\ (forall j, j <> k -> backing h' j = backing h j)
    | Stuck _ => False
    end;
  release_ok k v vs h : owns vs h ->
    owns vs (release k v h) /\ (forall j, backing (release k v h) j = backing h j);
  destroy_ok k v vs h : owns ((k, v) :: vs) h ->
    match destroy v h with
    | Done _ h' => owns vs h' /\ (forall j, backing h' j = backing h j)
    | _ => False
    end;
  release_key_ok k vs h : owns vs h ->
    owns vs (release_key k h) /\ forall j, j <> k -> backing (release_key k h) j = backing h j;
  erase_notice_ok k vs h : owns vs h ->
    owns vs (erase_notice k h) /\ forall j, j <> k -> backing (erase_notice k h) j = backing h j;
  set_reads_ok b vs h : owns vs h ->
    owns vs (set_reads b h) /\ forall j, backing (set_reads b h) j = backing h j;
  adjust_ok t vs h : owns vs h -> adjustable (settings h) t ->
    owns vs (adjust t h) /\ forall j, backing (adjust t h) j = backing h j;
  create_settings k h : keeps_settings settings (create k h) h;
  update_settings k v h : keeps_settings settings (update k v h) h;
  destroy_settings v h : keeps_settings settings (destroy v h) h;
  release_settings k v h : settings (release k v h) = settings h;
  release_key_settings k h : settings (release_key k h) = settings h;
  erase_notice_settings k h : settings (erase_notice k h) = settings h;
  set_reads_reading b h : reading (settings (set_reads b h)) = b;
  set_reads_usable b h k : usable (settings (set_reads b h)) k <-> usable (settings h) k;
}.

Section Spec.
Context {St Key Value Content : Type} `{Countable Key} `{!CacheHelper St Key Value}
  `{!HelperLaws St Key Value Content}.

Abbreviation cache := (Cache St Key Value).
Abbreviation node_of := (Node Value).
Abbreviation run := (M (St := St) (Key := Key) (Value := Value)).
#[local] Existing Instance M_ret.
#[local] Existing Instance M_bind.

(** ** Postconditions of a run: [Q] when it returns, [E] when it throws *)

Definition wp {A} (m : M A) (Q : A -> cache -> Prop) (E : cache -> Prop) (c : cache) : Prop :=
  match m c with Done a c' => Q a c' | Threw c' => E c' | Stuck _ => False end.

Lemma lwp_bind {A B} (m : M A) (k : A -> M B) Q E c :
  wp m (fun a c' => wp (k a) Q E c') E c -> wp (m ≫= k) Q E c.
Proof. unfold wp. simpl. unfold mbind, M_bind. by destruct (m c). Qed.

Lemma lwp_mono {A} (m : M A) (Q Q' : A -> cache -> Prop) (E E' : cache -> Prop) c :
  wp m Q E c -> (forall a c', Q a c' -> Q' a c') -> (forall c', E c' -> E' c') -> wp m Q' E' c.
Proof. unfold wp. destruct (m c); naive_solver. Qed.

Lemma lwp_ret {A} (a : A) (Q : A -> cache -> Prop) E c : Q a c -> wp (mret a) Q E c.
Proof. done. Qed.

Lemma wp_gets {A} (f : cache -> A) (Q : A -> cache -> Prop) E c : Q (f c) c -> wp (gets f) Q E c.
Proof. done. Qed.

Lemma lwp_modify f (Q : unit -> cache -> Prop) E c : Q tt (f c) -> wp (modify f) Q E c.
Proof. done. Qed.

Lemma wp_tell f (Q : unit -> cache -> Prop) E c :
  Q tt (with_helper (f (_helper c)) c) -> wp (tell f) Q E c.
Proof. done. Qed.

Lemma lwp_assert b (Q : unit -> cache -> Prop) E c : b = true -> Q tt c -> wp (assert_ b) Q E c.
Proof. by intros -> ?. Qed.

Lemma wp_deref {A} (o : option A) a (Q : A -> cache -> Prop) E c : o = Some a -> Q a c -> wp (deref o) Q E c.
Proof. by intros -> ?. Qed.

Lemma lwp_when b m (Q : unit -> cache -> Prop) E c :
  (b = true -> wp m Q E c) -> (b = false -> Q tt c) -> wp (when b m) Q E c.
Proof. destruct b; intros Ht Hf; [by apply Ht | by apply Hf]. Qed.

Lemma wp_node k n (Q : node_of -> cache -> Prop) E c : _map c !! k = Some n -> Q n c -> wp (node k) Q E c.
Proof. intros Hn HQ. unfold wp, node. unfold mbind, M_bind, gets, deref. simpl. by rewrite Hn. Qed.

Lemma wp_set_node k n (Q : unit -> cache -> Prop) E c :
  Q tt (with_map (<[k := n]> (_map c)) c) -> wp (set_node k n) Q E c.
Proof. done. Qed.

Lemma wp_erase_q w it q' (Q : unit -> cache -> Prop) E c :
  q_erase it (get_q w c) = Some q' -> Q tt (set_q w q' c) -> wp (erase_q w it) Q E c.
Proof. intros Hq HQ. unfold wp, erase_q, mbind, M_bind, gets, deref. simpl. by rewrite Hq. Qed.

Lemma wp_push_q w k (Q : option Z -> cache -> Prop) E c :
  Q (Some (next_id (get_q w c))) (set_q w (q_push k (get_q w c)) c) -> wp (push_q w k) Q E c.
Proof. done. Qed.

Lemma wp_helper {A} (f : St -> outcome St A) (Q : A -> cache -> Prop) (E : cache -> Prop) c :
  match f (_helper c) with
  | Done a h => Q a (with_helper h c) | Threw h => E (with_helper h c) | Stuck _ => False
  end -> wp (on_helper f) Q E c.
Proof. unfold wp, on_helper. by destruct (f (_helper c)). Qed.

(** ** Queues and the map *)

Definition tracks (slot : node_of -> option Z) (m : gmap Key node_of) (q : queue Key) : Prop :=
  NoDup (items q).*1 /\ Forall (fun e => e.1 < next_id q) (items q) /\
  forall i k, (i, k) ∈ items q <-> m !! k ≫= slot = Some i.

Definition agree_off (k : Key) (m m' : gmap Key node_of) : Prop := forall j, j <> k -> m' !! j = m !! j.

Lemma agree_off_insert k n m : agree_off k m (<[k := n]> m).
Proof. intros j Hj. by rewrite lookup_insert_ne. Qed.

Lemma agree_off_delete k m : agree_off k m (delete k m).
Proof. intros j Hj. by rewrite lookup_delete_ne. Qed.

Lemma tracks_keep slot k m m' q :
  agree_off k m m' -> m' !! k ≫= slot = m !! k ≫= slot -> tracks slot m q -> tracks slot m' q.
Proof.
  intros Ha Hk (Hn & Hf & Hi). split_and!; [done.. |]. intros i j. rewrite Hi.
  destruct (decide (j = k)) as [-> | Hj]; [by rewrite Hk | by rewrite (Ha j Hj)].
Qed.

Lemma tracks_push slot k m m' q :
  agree_off k m m' -> m !! k ≫= slot = None -> m' !! k ≫= slot = Some (next_id q) ->
  tracks slot m q -> tracks slot m' (q_push k q).
Proof.
  intros Ha Hk Hk' (Hn & Hf & Hi). unfold tracks, q_push. simpl.
  rewrite list.Forall_forall in Hf. split_and!.
  - rewrite fmap_app. apply list.NoDup_app. split_and!; [done | | apply NoDup_singleton].
    intros x [[i j] [-> Hx]]%list_elem_of_fmap Hl. apply list_elem_of_singleton in Hl.
    specialize (Hf _ Hx). simpl in Hf, Hl. lia.
  - apply list.Forall_app. split; [apply list.Forall_forall; intros e He; specialize (Hf e He); lia |].
    constructor; [simpl; lia | done].
  - intros i j. rewrite elem_of_app, list_elem_of_singleton, Hi.
    destruct (decide (j = k)) as [-> | Hj].
    + rewrite Hk, Hk'. split; [by intros [[=] | [= ->]] | intros [= <-]; by right].
    + rewrite (Ha j Hj). split; [intros [? | [= -> ->]]; [done | by destruct Hj] | by left].
Qed.

Lemma tracks_erase slot k m m' q it :
  agree_off k m m' -> m !! k ≫= slot = it -> m' !! k ≫= slot = None ->
  tracks slot m q -> exists q', q_erase it q = Some q' /\ tracks slot m' q'.
Proof.
  intros Ha <- Hk' Ht. destruct (m !! k ≫= slot) as [i |] eqn:Hk; simpl.
  2: { exists q. split; [done |]. by eapply tracks_keep; [| rewrite Hk' |]. }
  destruct Ht as (Hn & Hf & Hi). rewrite decide_True.
  2: { apply list_elem_of_fmap. exists (i, k). split; [done | by apply Hi]. }
  eexists. split; [done |]. unfold tracks. simpl. split_and!.
  - eapply sublist_NoDup; [exact Hn |]. apply fmap_sublist, sublist_filter.
  - apply list.Forall_forall. intros e [_ He]%list_elem_of_filter. by eapply list.Forall_forall in Hf.
  - intros i' j. rewrite list_elem_of_filter, Hi. simpl.
    destruct (decide (j = k)) as [-> | Hj]; [rewrite Hk, Hk'; split; [intros [? [= ->]]; done | done] |].
    rewrite (Ha j Hj). split; [by intros [? ?] |]. intros Hs. split; [| done]. intros ->.
    apply Hi in Hs. apply Hi in Hk. apply Hj.
    eapply elem_of_list_to_map in Hs, Hk; [congruence | done..].
Qed.

(** ** The invariant *)

Definition home (n : node_of) : which := if is_persistent n then Persistent else Temporary.

(** The queue node a map node is in, by its flags. *)
Definition tmp_slot (n : node_of) : option Z :=
  if (instantiated_size n =? 0) && negb (is_persistent n) then iter n else None.
Definition per_slot (n : node_of) : option Z :=
  if (instantiated_size n =? 0) && is_persistent n then iter n else None.

Definition alive (m : gmap Key node_of) : list (Key * Value) := (fun e => (e.1, value e.2)) <$> map_to_list m.

Definition pins (c : cache) (k : Key) : Z :=
  match _map c !! k with Some n => instantiated_size n | None => 0 end.

(** What a client that asks for [k] reads. *)
Definition view (c : cache) (k : Key) : Content :=
  match _map c !! k with Some n => content (value n) | None => backing (_helper c) k end.

(** [W] holds the keys whose value a client changed without having announced it yet
    ([put(key, true)]); only such a value may differ from the stored one when
    [need_update] is off. *)
Record lru_core (W : gset Key) (c : cache) : Prop := {
  core_tmp : tracks tmp_slot (_map c) (_temporary c);
  core_per : tracks per_slot (_map c) (_persistent c);
  core_count k n : _map c !! k = Some n -> 0 <= instantiated_size n < 4294967296;
  core_iter k n : _map c !! k = Some n -> instantiated_size n = 0 -> is_Some (iter n);
  core_dirty k n : _map c !! k = Some n -> is_Some (obsolete_iter n) ->
    instantiated_size n = 0 /\ need_update n = true;
  core_owns : owns (alive (_map c)) (_helper c);
  core_clean k n : _map c !! k = Some n -> need_update n = false -> k ∉ W ->
    content (value n) = backing (_helper c) k;
  core_written k : k ∈ W -> 0 < pins c k;
}.

Record lru_inv (W : gset Key) (c : cache) : Prop := {
  inv_core : lru_core W c;
  inv_obs : tracks obsolete_iter (_map c) (_obsolete c);
  inv_dirty k n : _map c !! k = Some n -> instantiated_size n = 0 -> need_update n = true ->
    is_Some (obsolete_iter n);
}.

(** What an operation the client did not ask for may do: nothing a client sees changes, and
    a value that is held stays where it is. *)
Record steady (c c' : cache) : Prop := {
  steady_view k : view c' k = view c k;
  steady_held k n : _map c !! k = Some n -> instantiated_size n <> 0 -> _map c' !! k = Some n;
  steady_pins k : pins c' k = pins c k;
  steady_reads : settings (_helper c') = settings (_helper c);
}.

#[local] Instance steady_preorder : PreOrder steady.
Proof.
  split; [by split |]. intros a b c [Hv1 Hh1 Hp1 Hr1] [Hv2 Hh2 Hp2 Hr2]. split; intros; [congruence | | congruence | congruence].
  by eapply Hh2; [eapply Hh1 |].
Qed.

Lemma alive_new m k n : m !! k = None -> alive (<[k := n]> m) ≡ₚ (k, value n) :: alive m.
Proof. intros Hk. unfold alive. by rewrite map_to_list_insert. Qed.

Lemma alive_delete m k n : m !! k = Some n -> alive m ≡ₚ (k, value n) :: alive (delete k m).
Proof. intros Hk. unfold alive. by rewrite <- (map_to_list_delete m k n Hk). Qed.

Lemma alive_replace m k n n' : m !! k = Some n -> alive (<[k := n']> m) ≡ₚ (k, value n') :: alive (delete k m).
Proof.
  intros Hk. rewrite <- insert_delete_eq. by rewrite alive_new by apply lookup_delete_eq.
Qed.

Lemma alive_elem m k n : m !! k = Some n -> (k, value n) ∈ alive m.
Proof. intros Hk. rewrite (alive_delete _ _ _ Hk). left. Qed.

(** ** Calls of the helper *)

Lemma wp_update k v vs (Q : unit -> cache -> Prop) (E : cache -> Prop) c :
  owns vs (_helper c) -> (k, v) ∈ vs ->
  (forall h, owns vs h ->
    (forall j, backing h j = if decide (j = k) then content v else backing (_helper c) j) ->
    settings h = settings (_helper c) -> Q tt (with_helper h c)) ->
  (forall h, owns vs h -> (forall j, j <> k -> backing h j = backing (_helper c) j) ->
    settings h = settings (_helper c) -> E (with_helper h c)) ->
  wp (on_helper (update k v)) Q E c.
Proof.
  intros Ho Hv HQ HE. apply wp_helper. pose proof (update_ok k v vs _ Ho Hv) as Hu.
  pose proof (update_settings k v (_helper c)) as Hs. unfold keeps_settings in Hs.
  destruct (update k v (_helper c)) as [[] h | h | f]; [apply HQ | apply HE |]; tauto.
Qed.

Lemma wp_release k v vs (Q : unit -> cache -> Prop) E c :
  owns vs (_helper c) ->
  (forall h, owns vs h -> (forall j, backing h j = backing (_helper c) j) ->
    settings h = settings (_helper c) -> Q tt (with_helper h c)) ->
  wp (when has_release_callable (tell (release k v))) Q E c.
Proof.
  intros Ho HQ. apply lwp_when; intros _.
  - apply wp_tell, HQ; [by apply (release_ok k v vs).. | apply release_settings].
  - specialize (HQ (_helper c) Ho (fun _ => eq_refl) eq_refl). by destruct c.
Qed.

Lemma wp_map_delete k n (Q : unit -> cache -> Prop) E c :
  _map c !! k = Some n -> owns (alive (_map c)) (_helper c) ->
  (forall h, owns (alive (delete k (_map c))) h -> (forall j, backing h j = backing (_helper c) j) ->
    settings h = settings (_helper c) -> Q tt (with_helper h (with_map (delete k (_map c)) c))) ->
  wp (map_delete k) Q E c.
Proof.
  intros Hn Ho HQ. unfold map_delete. apply lwp_bind. apply (wp_node _ n); [done |].
  apply lwp_bind, lwp_modify, wp_helper. simpl.
  eapply owns_perm in Ho; [| by apply alive_delete]. pose proof (destroy_ok _ _ _ _ Ho) as Hd.
  pose proof (destroy_settings (value n) (_helper c)) as Hs. unfold keeps_settings in Hs.
  destruct (destroy (value n) (_helper c)) as [[] h | h | f]; [| done..]. apply HQ; tauto.
Qed.

Lemma wp_map_erase k n (Q : unit -> cache -> Prop) E c :
  k ∉ kept_iters c -> _map c !! k = Some n -> owns (alive (_map c)) (_helper c) ->
  (forall h, owns (alive (delete k (_map c))) h -> (forall j, backing h j = backing (_helper c) j) ->
    settings h = settings (_helper c) -> Q tt (with_helper h (with_map (delete k (_map c)) c))) ->
  wp (map_erase k) Q E c.
Proof.
  intros Hk Hn Ho HQ. unfold map_erase. apply lwp_bind, wp_gets. cbn [id].
  rewrite decide_False by done. by apply (wp_map_delete _ n).
Qed.

Lemma wp_emplace_check (Q : unit -> cache -> Prop) E c : Q tt c -> wp emplace_check Q E c.
Proof. intros HQ. unfold emplace_check. apply lwp_bind, wp_gets. by rewrite emplace_keeps. Qed.

(** A queue whose map has no node for [k] keeps no iterator to one. *)
Lemma tracks_gone slot k m q : m !! k = None -> tracks slot m q -> k ∉ (items q).*2.
Proof.
  intros Hk (_ & _ & Hi) [[i j] [-> Hin]]%list_elem_of_fmap. apply Hi in Hin. simpl in *. by rewrite Hk in Hin.
Qed.

(** ** Evictions *)

(** The queue of the node, and none other but [_obsolete], holds it. *)
Lemma slot_home k n c W : lru_core W c -> _map c !! k = Some n -> instantiated_size n = 0 ->
  (tmp_slot n = if is_persistent n then None else iter n) /\ (per_slot n = if is_persistent n then iter n else None).
Proof. intros _ _ Hz. unfold tmp_slot, per_slot. rewrite Hz. simpl. by destruct (is_persistent n). Qed.

(** Taking an unpinned node out of the map and its queues leaves the invariant. *)
Lemma drop_prepare W c k n :
  lru_inv W c -> _map c !! k = Some n -> instantiated_size n = 0 ->
  exists qt qp qo,
    q_erase (tmp_slot n) (_temporary c) = Some qt /\ q_erase (per_slot n) (_persistent c) = Some qp /\
    q_erase (obsolete_iter n) (_obsolete c) = Some qo /\
    k ∉ (items qp ++ items qt ++ items qo).*2 /\
    forall h, owns (alive (delete k (_map c))) h ->
      (forall j, j <> k -> backing h j = backing (_helper c) j) ->
      lru_inv W (mkCache h (delete k (_map c)) qp qt qo).
Proof.
  intros [[Ht Hp Hc Hi Hd Ho Hcl Hw] Hobs Hdi] Hn Hz.
  assert (Hagree := agree_off_delete k (_map c)).
  assert (Hnone : forall slot : node_of -> option Z, delete k (_map c) !! k ≫= slot = None)
    by (intros slot; by rewrite lookup_delete_eq).
  destruct (tracks_erase tmp_slot k _ _ _ (tmp_slot n) Hagree ltac:(by rewrite Hn) (Hnone _) Ht) as (qt & Et & Ht').
  destruct (tracks_erase per_slot k _ _ _ (per_slot n) Hagree ltac:(by rewrite Hn) (Hnone _) Hp) as (qp & Ep & Hp').
  destruct (tracks_erase obsolete_iter k _ _ _ (obsolete_iter n) Hagree ltac:(by rewrite Hn) (Hnone _) Hobs) as (qo & Eo & Ho').
  exists qt, qp, qo. split_and!; [done.. | |].
  { rewrite !fmap_app, !not_elem_of_app. pose proof (lookup_delete_eq (_map c) k).
    split_and!; by eapply tracks_gone. }
  intros h Hh Hb.
  assert (Hsub : forall j m, delete k (_map c) !! j = Some m -> j <> k /\ _map c !! j = Some m)
    by (by intros j m [? ?]%lookup_delete_Some).
  split; [split | |]; simpl; [done | done | | | | done | | | done |].
  - intros j m [_ Hj]%Hsub. eauto.
  - intros j m [_ Hj]%Hsub. eauto.
  - intros j m [_ Hj]%Hsub. eauto.
  - intros j m [Hne Hj]%Hsub Hnu HW. rewrite Hb by done. eauto.
  - intros j HW. specialize (Hw j HW). unfold pins in *. simpl. destruct (decide (j = k)) as [-> | Hne].
    + rewrite Hn in Hw. lia.
    + by rewrite lookup_delete_ne.
  - intros j m [_ Hj]%Hsub. eauto.
Qed.

(** The reference for an eviction. *)
Definition evict (k : Key) : run unit :=
  n ← node k;
  when (need_update n) (on_helper (update k (value n)));;
  when has_release_callable (tell (release k (value n)));;
  erase_q Obsolete (obsolete_iter n);;
  erase_q (home n) (iter n);;
  map_erase k.

Lemma filter_same {A} (P Q : A -> Prop) `{!forall x, Decision (P x), !forall x, Decision (Q x)} (l : list A) :
  (forall x, x ∈ l -> P x <-> Q x) -> filter P l = filter Q l.
Proof.
  induction l as [| x l IH]; intros Heq; [done |]. rewrite !filter_cons.
  rewrite IH by (intros y Hy; apply Heq; by right). specialize (Heq x ltac:(left)).
  repeat case_decide; tauto.
Qed.

Lemma filter_all {A} (P : A -> Prop) `{!forall x, Decision (P x)} (l : list A) :
  (forall x, x ∈ l -> P x) -> filter P l = l.
Proof.
  induction l as [| x l IH]; intros Hall; [done |]. rewrite filter_cons, decide_True by (apply Hall; left).
  f_equal. apply IH. intros y Hy. apply Hall. by right.
Qed.

Definition without (k : Key) (l : list (Z * Key)) : list (Z * Key) := filter (fun e => e.2 <> k) l.

Lemma erase_items slot m q q' k :
  tracks slot m q -> q_erase (m !! k ≫= slot) q = Some q' -> items q' = without k (items q).
Proof.
  intros (Hn & _ & Hi). unfold without. destruct (m !! k ≫= slot) as [i |] eqn:Hk; simpl.
  - case_decide; [| done]. intros [= <-]. simpl. apply filter_same. intros [i' j] Hin. simpl.
    split; intros Hne ->; apply Hne.
    + apply Hi in Hin. congruence.
    + apply Hi in Hk. eapply elem_of_list_to_map in Hk, Hin; [congruence | done..].
  - intros [= <-]. symmetry. apply filter_all. intros [i j] Hin. simpl. intros ->.
    apply Hi in Hin. congruence.
Qed.

Record evicted (k : Key) (c c' : cache) : Prop := {
  evicted_map : _map c' = delete k (_map c);
  evicted_queue w : items (get_q w c') = without k (items (get_q w c));
  evicted_view j : view c' j = view c j;
  evicted_reads : settings (_helper c') = settings (_helper c);
}.

(** A call that threw may have changed the helper, nothing else. *)
Record stalled (c c' : cache) : Prop := {
  stalled_map : _map c' = _map c;
  stalled_queue w : get_q w c' = get_q w c;
  stalled_view j : view c' j = view c j;
  stalled_reads : settings (_helper c') = settings (_helper c);
}.

Lemma with_helper_core W c h :
  lru_core W c -> owns (alive (_map c)) h ->
  (forall k n, _map c !! k = Some n -> need_update n = false -> k ∉ W -> backing h k = backing (_helper c) k) ->
  lru_core W (with_helper h c).
Proof.
  intros [Ht Hp Hc Hi Hd Ho Hcl Hw] Hh Hb. split; simpl; try done.
  intros k n Hn Hnu HW. rewrite (Hb k n) by done. eauto.
Qed.

(** An update of [k] that threw. *)
Lemma failed_update W c h k n :
  lru_core W c -> _map c !! k = Some n -> need_update n = true -> owns (alive (_map c)) h ->
  (forall j, j <> k -> backing h j = backing (_helper c) j) -> settings h = settings (_helper c) ->
  lru_core W (with_helper h c) /\ stalled c (with_helper h c).
Proof.
  intros Hc Hn Hu Ho Hb Hr. split.
  - apply with_helper_core; [done.. |]. intros j m Hm Hnu _. apply Hb. intros ->. congruence.
  - split; [done | by intros [] | | done]. intros j. unfold view. simpl.
    destruct (_map c !! j) eqn:Hj; [done |]. apply Hb. intros ->. congruence.
Qed.

Lemma stalled_inv W c h : lru_inv W c -> lru_core W (with_helper h c) -> lru_inv W (with_helper h c).
Proof. intros [Hc Ho Hd] Hc'. by split. Qed.

(** The second half of an eviction, once the helper holds the value. *)
Lemma evict_stored W c k n h :
  lru_inv W c -> _map c !! k = Some n -> instantiated_size n = 0 -> owns (alive (_map c)) h ->
  (forall j, backing h j = if decide (j = k) then content (value n) else backing (_helper c) j) ->
  settings h = settings (_helper c) ->
  wp (when has_release_callable (tell (release k (value n)));;
      erase_q Obsolete (obsolete_iter n);; erase_q (home n) (iter n);; map_erase k)
    (fun _ c' => lru_inv W c' /\ evicted k c c') (fun _ => False) (with_helper h c).
Proof.
  intros Hinv Hn Hz Hh Hb Hr.
  destruct (drop_prepare W c k n Hinv Hn Hz) as (qt & qp & qo & Et & Ep & Eo & Hgone & Hdrop).
  pose proof (inv_core _ _ Hinv) as Hc.
  destruct (slot_home k n c W Hc Hn Hz) as [Hts Hps].
  apply lwp_bind. eapply wp_release; [exact Hh |]. intros h2 Hh2 Hb2 Hr2. simpl in Hb2, Hr2.
  apply lwp_bind. eapply wp_erase_q; [exact Eo |]. apply lwp_bind.
  eapply (wp_erase_q _ _ (if is_persistent n then qp else qt)).
  { unfold home. rewrite Hts in Et. rewrite Hps in Ep. by destruct (is_persistent n). }
  apply (wp_map_erase _ n); [| by unfold home; destruct (is_persistent n).. |].
  { unfold kept_iters, home. rewrite Hts in Et. rewrite Hps in Ep.
    destruct (is_persistent n); simpl in *; simplify_eq; done. }
  intros h3 Hh3 Hb3 Hr3.
  replace (with_helper h3 _) with (mkCache h3 (delete k (_map c)) qp qt qo).
  2: { unfold home. rewrite Hts in Et. rewrite Hps in Ep.
       destruct (is_persistent n); unfold with_helper, with_map; simpl in *; congruence. }
  assert (Hb' : forall j, backing h3 j = if decide (j = k) then content (value n) else backing (_helper c) j).
  { intros j. rewrite Hb3. rewrite <- Hb, <- Hb2. unfold home. by destruct (is_persistent n). }
  split.
  - apply Hdrop; [unfold home in Hh3; by destruct (is_persistent n) |]. intros j Hj. by rewrite Hb', decide_False.
  - assert (Hk : forall slot : node_of -> option Z, slot n = _map c !! k ≫= slot) by (intros slot; by rewrite Hn).
    rewrite Hk in Et, Ep, Eo. split; [done | | | unfold home in Hr3; destruct (is_persistent n); simpl in *; congruence].
    + intros []; simpl; (eapply erase_items; [| eassumption]); [apply Hc | apply Hc | apply Hinv].
    + intros j. unfold view. simpl. destruct (decide (j = k)) as [-> | Hj].
      * by rewrite lookup_delete_eq, Hb', decide_True, Hn.
      * by rewrite lookup_delete_ne, Hb', decide_False.
Qed.

Lemma unpinned_written W c k n :
  lru_core W c -> _map c !! k = Some n -> instantiated_size n = 0 -> k ∉ W.
Proof.
  intros Hc Hn Hz HW. pose proof (core_written _ _ Hc _ HW) as Hpin. unfold pins in Hpin.
  rewrite Hn in Hpin. lia.
Qed.

Lemma evict_ok W c k n :
  lru_inv W c -> _map c !! k = Some n -> instantiated_size n = 0 ->
  wp (evict k) (fun _ c' => lru_inv W c' /\ evicted k c c') (fun c' => lru_inv W c' /\ stalled c c') c.
Proof.
  intros Hinv Hn Hz. pose proof (inv_core _ _ Hinv) as Hc. pose proof (core_owns _ _ Hc) as Ho.
  unfold evict. apply lwp_bind. apply (wp_node _ n); [done |]. apply lwp_bind, lwp_when; intros Hnu.
  - eapply wp_update; [done | by eapply alive_elem | |].
    + intros h Hh Hb Hr. eapply lwp_mono; [by apply evict_stored | done..].
    + intros h Hh Hb Hr. destruct (failed_update W c h k n) as [Hc' Hs]; [done.. |].
      split; [by apply stalled_inv | done].
  - replace c with (with_helper (_helper c) c) at 1 by (by destruct c).
    eapply lwp_mono; [apply evict_stored; [done.. | | done] | done..]. intros j.
    case_decide as Hj; [subst | done]. symmetry. eapply core_clean; [done.. |]. by eapply unpinned_written.
Qed.

Lemma evicted_steady W c c' k n :
  lru_core W c -> _map c !! k = Some n -> instantiated_size n = 0 -> evicted k c c' -> steady c c'.
Proof.
  intros Hc Hn Hz [Hm _ Hv Hr]. split; [done | | | done].
  - intros j m Hj Hne. rewrite Hm, lookup_delete_ne; [done |]. intros ->. congruence.
  - intros j. unfold pins. rewrite Hm. destruct (decide (j = k)) as [-> | Hj].
    + by rewrite lookup_delete_eq, Hn.
    + by rewrite lookup_delete_ne.
Qed.

Lemma stalled_steady c c' : stalled c c' -> steady c c'.
Proof. intros [Hm _ Hv Hr]. split; [done | by rewrite Hm | intros k; unfold pins; by rewrite Hm | done]. Qed.

(** ** The order of evictions *)

(** Evict the keys in this order until the helper can create [key]. *)
Fixpoint evict_while (key : Key) (ks : list Key) : run unit :=
  match ks with
  | [] => mret tt
  | k :: ks => h ← gets _helper; if can_create key h then mret tt else evict k;; evict_while key ks
  end.

Definition dirty (c : cache) (k : Key) : bool :=
  match _map c !! k with Some n => need_update n | None => false end.

(** The order of eviction: temporary nodes before persistent ones, among the temporary ones
    those that are clean first, otherwise the one released longest ago. *)
Definition victims (c : cache) : list Key :=
  filter (fun k => dirty c k = false) (items (_temporary c)).*2 ++
  filter (fun k => dirty c k = true) (items (_temporary c)).*2 ++ (items (_persistent c)).*2.

Definition reserve_spec (key : Key) : run unit :=
  c ← gets id; evict_while key (victims c);;
  h ← gets _helper; if can_create key h then mret tt else throw.

Lemma evict_while_stop key ks c : can_create key (_helper c) = true -> evict_while key ks c = Done tt c.
Proof.
  intros Hc. destruct ks; [done |]. simpl. unfold mbind, M_bind, gets. simpl. by rewrite Hc.
Qed.

Lemma evict_while_step key k ks c : can_create key (_helper c) = false ->
  evict_while key (k :: ks) c = (evict k;; evict_while key ks) c.
Proof. intros Hc. simpl. unfold mbind, M_bind, gets. simpl. by rewrite Hc. Qed.

Lemma bind_app {A B} (m : run A) (f : A -> run B) c :
  (m ≫= f) c = match m c with Done a c' => f a c' | Threw c' => Threw c' | Stuck e => Stuck e end.
Proof. done. Qed.

Definition idle (c : cache) (k : Key) : Prop :=
  exists n, _map c !! k = Some n /\ instantiated_size n = 0.

Record drained (ks : list Key) (c c' : cache) : Prop := {
  drained_map j : _map c' !! j = if decide (j ∈ ks) then None else _map c !! j;
  drained_queue w : items (get_q w c') = filter (fun e => e.2 ∉ ks) (items (get_q w c));
}.

Lemma evict_while_ok W key ks c :
  lru_inv W c -> NoDup ks -> (forall k, k ∈ ks -> idle c k) ->
  wp (evict_while key ks)
    (fun _ c' => lru_inv W c' /\ steady c c' /\ _map c' ⊆ _map c /\
                 (can_create key (_helper c') = false -> drained ks c c'))
    (fun c' => lru_inv W c' /\ steady c c') c.
Proof.
  revert c. induction ks as [| k ks IH]; intros c Hinv Hnd Hks.
  { apply lwp_ret. split_and!; [done | reflexivity | done |]. intros _.
    split; [done |]. intros w. symmetry. apply filter_all. intros e _. apply not_elem_of_nil. }
  unfold wp. destruct (can_create key (_helper c)) eqn:Hc.
  { rewrite evict_while_stop by done. split_and!; [done | reflexivity | done | congruence]. }
  rewrite evict_while_step by done. change (wp (evict k;; evict_while key ks)
    (fun _ c' => lru_inv W c' /\ steady c c' /\ _map c' ⊆ _map c /\
                 (can_create key (_helper c') = false -> drained (k :: ks) c c'))
    (fun c' => lru_inv W c' /\ steady c c') c).
  apply list.NoDup_cons in Hnd as [Hk Hnd]. destruct (Hks k ltac:(left)) as (n & Hn & Hz).
  apply lwp_bind. eapply lwp_mono; [by eapply evict_ok | |].
  2: { intros c' [? ?]. split; [done | by apply stalled_steady]. }
  intros [] c1 [Hinv1 He]. pose proof (evicted_steady W c c1 k n (inv_core _ _ Hinv) Hn Hz He) as Hs.
  eapply lwp_mono; [apply IH; [done.. |] | |].
  - intros j Hj. destruct (Hks j ltac:(by right)) as (m & Hm & Hmz). exists m. split; [| done].
    rewrite (evicted_map _ _ _ He), lookup_delete_ne; [done | by intros ->].
  - intros [] c2 (Hinv2 & Hs2 & Hsub & Hd). split_and!; [done | by etrans | |].
    + etrans; [exact Hsub |]. rewrite (evicted_map _ _ _ He). apply delete_subseteq.
    + intros Hcan. destruct (Hd Hcan) as [Hm Hq]. split.
      * intros j. rewrite Hm, (evicted_map _ _ _ He). destruct (decide (j = k)) as [-> | Hj].
        -- rewrite lookup_delete_eq, (decide_True (P := k ∈ k :: ks)) by left. by case_decide.
        -- rewrite lookup_delete_ne by done. apply decide_ext. set_solver.
      * intros w. rewrite Hq, (evicted_queue _ _ _ He w). unfold without. rewrite list_filter_filter.
        apply filter_same. set_solver.
  - intros c2 [? ?]. split; [done | by etrans].
Qed.

(** ** The three loops of [reserve_space] *)

Definition slot_of (w : which) : node_of -> option Z :=
  match w with Temporary => tmp_slot | Persistent => per_slot | Obsolete => obsolete_iter end.

Lemma inv_tracks W c w : lru_inv W c -> tracks (slot_of w) (_map c) (get_q w c).
Proof. intros [[] ? ?]. by destruct w. Qed.

Lemma tracks_keys slot m q : tracks slot m q -> NoDup (items q).*2.
Proof.
  intros (Hn & _ & Hi).
  assert (Huniq : forall i j k, (i, k) ∈ items q -> (j, k) ∈ items q -> i = j).
  { intros i j k Hik%Hi Hjk%Hi. congruence. }
  clear Hi. induction (items q) as [| [i k] l IH]; [constructor |]. simpl in *.
  apply list.NoDup_cons in Hn as [Hi Hn]. apply list.NoDup_cons. split.
  - intros [[j k'] [Hk Hj]]%list_elem_of_fmap. simpl in Hk. subst k'. apply Hi, list_elem_of_fmap.
    exists (j, k). split; [| done]. simpl. apply (Huniq i j k); [left | by right].
  - apply IH; [done |]. intros a b k' Ha Hb. apply (Huniq a b k'); by right.
Qed.

Lemma queued W c w i k :
  lru_inv W c -> w <> Obsolete -> (i, k) ∈ items (get_q w c) ->
  exists n, _map c !! k = Some n /\ instantiated_size n = 0 /\ home n = w /\ iter n = Some i.
Proof.
  intros Hinv Hw Hin. pose proof (inv_tracks W c w Hinv) as (_ & _ & Hi). apply Hi in Hin.
  destruct (_map c !! k) as [n |] eqn:Hn; simpl in Hin; [| done]. exists n. split; [done |].
  unfold home. destruct w; [| | done]; simpl in Hin; unfold per_slot, tmp_slot in Hin;
    destruct (Z.eqb_spec (instantiated_size n) 0) as [Hz |]; simpl in Hin; try done;
    destruct (is_persistent n); simpl in Hin; done.
Qed.

Lemma q_find_mid i k (l1 l2 : list (Z * Key)) :
  NoDup (l1 ++ (i, k) :: l2).*1 -> q_find i (l1 ++ (i, k) :: l2) = Some (k, fst <$> head l2).
Proof.
  induction l1 as [| [j k'] l1 IH]; intros Hn; simpl in *; [by rewrite Z.eqb_refl |].
  apply list.NoDup_cons in Hn as [Hj Hn]. destruct (Z.eqb_spec i j) as [-> |]; [| by apply IH].
  destruct Hj. apply list_elem_of_fmap. exists (j, k). split; [done |]. apply elem_of_app. right. left.
Qed.

Lemma without_mid i k (l1 l2 : list (Z * Key)) :
  NoDup (l1 ++ (i, k) :: l2).*2 -> without k (l1 ++ (i, k) :: l2) = l1 ++ l2.
Proof.
  intros Hn. rewrite fmap_app, fmap_cons in Hn. apply list.NoDup_app in Hn as (_ & H1 & [H2 _]%list.NoDup_cons).
  unfold without. rewrite list.filter_app, filter_cons. simpl. rewrite decide_False by tauto.
  f_equal; apply filter_all; intros e He Hk.
  - apply (H1 e.2); [by apply list_elem_of_fmap; exists e | rewrite Hk; left].
  - apply H2. rewrite <- Hk. apply list_elem_of_fmap. by exists e.
Qed.

(** The head of what is left of a queue: its node, and where the loop goes on. *)
Lemma queue_head W c w l1 i k l2 :
  lru_inv W c -> w <> Obsolete -> items (get_q w c) = l1 ++ (i, k) :: l2 ->
  exists n, _map c !! k = Some n /\ instantiated_size n = 0 /\ home n = w /\ iter n = Some i /\
    q_find i (items (get_q w c)) = Some (k, fst <$> head l2) /\
    without k (items (get_q w c)) = l1 ++ l2 /\ k ∉ l2.*2.
Proof.
  intros Hinv Hw Hl. pose proof (inv_tracks W c w Hinv) as Ht. pose proof (tracks_keys _ _ _ Ht) as Hk.
  destruct Ht as (Hn & _ & _). rewrite Hl in Hn, Hk.
  destruct (queued W c w i k) as (n & ? & ? & ? & ?); [done.. | |].
  { rewrite Hl. apply elem_of_app. right. left. }
  exists n. rewrite Hl. split_and!; [done.. | by apply q_find_mid | by apply without_mid |].
  rewrite fmap_app, fmap_cons in Hk. by apply list.NoDup_app in Hk as (_ & _ & [? _]%list.NoDup_cons).
Qed.

Lemma evict_run W c k n :
  lru_inv W c -> _map c !! k = Some n -> instantiated_size n = 0 ->
  match evict k c with
  | Done _ c' => lru_inv W c' /\ evicted k c c'
  | Threw c' => lru_inv W c' /\ stalled c c'
  | Stuck _ => False
  end.
Proof. apply evict_ok. Qed.

(** One round of each loop is an eviction. *)
Lemma evict_eq k n c :
  _map c !! k = Some n ->
  evict k c = (when (need_update n) (on_helper (update k (value n)));;
               when has_release_callable (tell (release k (value n)));;
               erase_q Obsolete (obsolete_iter n);; erase_q (home n) (iter n);; map_erase k) c.
Proof. intros Hn. unfold evict, node, mbind, M_bind, gets, deref. simpl. by rewrite Hn. Qed.

(** [at_head] computes the guards of a loop's round at the head of what is left. *)
Ltac at_head := unfold node; unfold mbind, M_bind, mret, M_ret, gets, deref, assert_; simpl.

(** [runs] follows both sides of an equation of runs call by call. *)
Ltac runs := repeat (match goal with
  | |- context [match ?x with Done _ _ => _ | Threw _ => _ | Stuck _ => _ end] =>
      lazymatch x with context [match _ with Done _ _ => _ | Threw _ => _ | Stuck _ => _ end] => fail | _ => destruct x end
  end; simpl; try done).

Lemma clean_round fuel key i k n next c :
  can_create key (_helper c) = false -> q_find i (items (_temporary c)) = Some (k, next) ->
  _map c !! k = Some n -> home n = Temporary -> iter n = Some i ->
  (need_update n = false -> obsolete_iter n = None) ->
  drop_clean (S fuel) key (Some i) c =
  ((if need_update n then mret tt else evict k);; drop_clean fuel key next) c.
Proof.
  intros Hc Hq Hn Hh Hi Ho. rewrite bind_app. destruct (need_update n) eqn:Hu.
  - cbn [drop_clean]. at_head. rewrite Hc, Hq. simpl. rewrite Hn. simpl. by rewrite Hu.
  - rewrite (evict_eq k n c Hn), Hu, Hh, Hi, (Ho eq_refl). cbn [drop_clean]. at_head.
    rewrite Hc, Hq. simpl. rewrite Hn. simpl. rewrite Hu.
    unfold erase_q, when, tell, modify, map_erase, node; unfold gets, deref, mbind, M_bind, mret, M_ret. simpl.
    destruct c as [h m p t o]; simpl in *. destruct has_release_callable; simpl; repeat case_decide; simpl; by rewrite ?Hn.
Qed.

Lemma dirty_round fuel key i k n next c :
  can_create key (_helper c) = false -> q_find i (items (_temporary c)) = Some (k, next) ->
  _map c !! k = Some n -> home n = Temporary -> iter n = Some i -> need_update n = true ->
  drop_dirty (S fuel) key (Some i) c = (evict k;; drop_dirty fuel key next) c.
Proof.
  intros Hc Hq Hn Hh Hi Hu. rewrite bind_app, (evict_eq k n c Hn), Hu, Hh, Hi. cbn [drop_dirty]. at_head.
  rewrite Hc, Hq. simpl. rewrite Hn. simpl. rewrite Hu. simpl. runs.
Qed.

Lemma persistent_round fuel key i k n next c :
  can_create key (_helper c) = false -> q_find i (items (_persistent c)) = Some (k, next) ->
  _map c !! k = Some n -> home n = Persistent -> iter n = Some i ->
  (need_update n = false -> obsolete_iter n = None) -> is_Some (q_erase (obsolete_iter n) (_obsolete c)) ->
  drop_persistent (S fuel) key (Some i) c = (evict k;; drop_persistent fuel key next) c.
Proof.
  intros Hc Hq Hn Hh Hi Ho [qo Eo]. rewrite bind_app, (evict_eq k n c Hn), Hh, Hi. cbn [drop_persistent]. at_head.
  rewrite Hc, Hq. simpl. rewrite Hn. simpl. destruct c as [h m p t o]; simpl in *.
  unfold erase_q, on_helper, when, tell, modify, gets, deref, mbind, M_bind, mret, M_ret. simpl.
  destruct (need_update n) eqn:Hu; simpl.
  - destruct (update k (value n) h) as [[] h1 | h1 | f]; simpl; [| done..]. rewrite Eo. simpl.
    destruct has_release_callable; simpl; rewrite Eo; simpl; repeat case_decide; simpl; try done; unfold with_helper; simpl; runs.
  - rewrite (Ho eq_refl). destruct has_release_callable; simpl; repeat case_decide; simpl; try done; runs.
Qed.

Lemma clean_no_iter W c k n :
  lru_inv W c -> _map c !! k = Some n -> need_update n = false -> obsolete_iter n = None.
Proof.
  intros Hinv Hn Hu. destruct (obsolete_iter n) eqn:Ho; [| done].
  destruct (core_dirty _ _ (inv_core _ _ Hinv) k n Hn) as [_ Hd]; [by eexists | congruence].
Qed.

Lemma dirty_after c c1 k j : evicted k c c1 -> j <> k -> dirty c1 j = dirty c j.
Proof. intros He Hj. unfold dirty. by rewrite (evicted_map _ _ _ He), lookup_delete_ne. Qed.

Lemma filter_after c c1 k (l : list Key) b : evicted k c c1 -> k ∉ l ->
  filter (fun j => dirty c1 j = b) l = filter (fun j => dirty c j = b) l.
Proof.
  intros He Hk. apply filter_same. intros j Hj. rewrite (dirty_after c c1 k j He); [done |]. by intros ->.
Qed.

Lemma drop_clean_spec W key rest : forall l1 c fuel,
  lru_inv W c -> items (_temporary c) = l1 ++ rest -> (length rest < fuel)%nat ->
  drop_clean fuel key (fst <$> head rest) c = evict_while key (filter (fun k => dirty c k = false) rest.*2) c.
Proof.
  induction rest as [| [i k] rest IH]; intros l1 c [| fuel] Hinv Hl Hf; simpl in Hf; try lia; [done |].
  simpl fmap. destruct (can_create key (_helper c)) eqn:Hcan.
  { rewrite evict_while_stop by done. cbn [drop_clean]. at_head. by rewrite Hcan. }
  destruct (queue_head W c Temporary l1 i k rest) as (n & Hn & Hz & Hh & Hi & Hq & Hw & Hk); [done.. |].
  simpl in Hq, Hw. rewrite (clean_round fuel key i k n (fst <$> head rest)); [| done.. | by eapply clean_no_iter].
  rewrite filter_cons. assert (Hd : dirty c k = need_update n) by (unfold dirty; by rewrite Hn).
  cbn [fst snd]. rewrite bind_app. destruct (need_update n) eqn:Hu;
    [rewrite decide_False by congruence | rewrite decide_True by done].
  - by apply (IH (l1 ++ [(i, k)])); [| rewrite <- app_assoc |  lia].
  - rewrite evict_while_step, bind_app by done. pose proof (evict_run W c k n Hinv Hn Hz) as He.
    destruct (evict k c) as [[] c1 | c1 | f]; [| done..]. destruct He as [Hinv1 He].
    rewrite <- (filter_after c c1 k) by done. apply (IH l1); [done | | lia].
    etrans; [exact (evicted_queue _ _ _ He Temporary) | exact Hw].
Qed.

Lemma drop_dirty_spec W key rest : forall c fuel,
  lru_inv W c -> items (_temporary c) = rest -> (forall k, k ∈ rest.*2 -> dirty c k = true) ->
  (length rest < fuel)%nat ->
  drop_dirty fuel key (fst <$> head rest) c = evict_while key rest.*2 c.
Proof.
  induction rest as [| [i k] rest IH]; intros c [| fuel] Hinv Hl Hd Hf; simpl in Hf; try lia; [done |].
  simpl fmap. destruct (can_create key (_helper c)) eqn:Hcan.
  { rewrite evict_while_stop by done. cbn [drop_dirty]. at_head. by rewrite Hcan. }
  destruct (queue_head W c Temporary [] i k rest) as (n & Hn & Hz & Hh & Hi & Hq & Hw & Hk); [done.. |].
  simpl in Hq, Hw. assert (Hu : need_update n = true).
  { specialize (Hd k ltac:(left)). unfold dirty in Hd. by rewrite Hn in Hd. }
  rewrite (dirty_round fuel key i k n (fst <$> head rest)), evict_while_step, !bind_app by done.
  pose proof (evict_run W c k n Hinv Hn Hz) as He.
  destruct (evict k c) as [[] c1 | c1 | f]; [| done..]. destruct He as [Hinv1 He].
  apply IH; [done | etrans; [exact (evicted_queue _ _ _ He Temporary) | exact Hw] | | lia].
  intros j Hj. rewrite (dirty_after c c1 k) by (done || by intros ->). apply Hd. by right.
Qed.

Lemma drop_persistent_spec W key rest : forall c fuel,
  lru_inv W c -> items (_persistent c) = rest -> (length rest < fuel)%nat ->
  drop_persistent fuel key (fst <$> head rest) c = evict_while key rest.*2 c.
Proof.
  induction rest as [| [i k] rest IH]; intros c [| fuel] Hinv Hl Hf; simpl in Hf; try lia; [done |].
  simpl fmap. destruct (can_create key (_helper c)) eqn:Hcan.
  { rewrite evict_while_stop by done. cbn [drop_persistent]. at_head. by rewrite Hcan. }
  destruct (queue_head W c Persistent [] i k rest) as (n & Hn & Hz & Hh & Hi & Hq & Hw & Hk); [done.. |].
  simpl in Hq, Hw.
  destruct (drop_prepare W c k n Hinv Hn Hz) as (_ & _ & qo & _ & _ & Eo & _).
  rewrite (persistent_round fuel key i k n (fst <$> head rest)), evict_while_step, !bind_app;
    [| done.. | by eapply clean_no_iter | by eexists].
  pose proof (evict_run W c k n Hinv Hn Hz) as He.
  destruct (evict k c) as [[] c1 | c1 | f]; [| done..]. destruct He as [Hinv1 He].
  apply IH; [done | etrans; [exact (evicted_queue _ _ _ He Persistent) | exact Hw] | lia].
Qed.

Lemma evict_while_app key ks1 ks2 c :
  evict_while key (ks1 ++ ks2) c = (evict_while key ks1;; evict_while key ks2) c.
Proof.
  revert c. induction ks1 as [| k ks1 IH]; intros c; [done |]. rewrite bind_app. simpl app.
  destruct (can_create key (_helper c)) eqn:Hc.
  - by rewrite !evict_while_stop by done.
  - rewrite !evict_while_step, !bind_app by done. destruct (evict k c); [| done..]. by rewrite IH, bind_app.
Qed.

Lemma queued_idle W c w k : lru_inv W c -> w <> Obsolete -> k ∈ (items (get_q w c)).*2 -> idle c k.
Proof.
  intros Hinv Hw [[i j] [-> Hj]]%list_elem_of_fmap.
  destruct (queued W c w i j) as (n & ? & ? & _); [done.. |]. by exists n.
Qed.

Lemma victims_idle W c k : lru_inv W c -> k ∈ victims c -> idle c k.
Proof.
  intros Hinv. unfold victims. rewrite !elem_of_app, !list_elem_of_filter.
  intros [[_ ?] | [[_ ?] | ?]];
    [by apply (queued_idle W c Temporary) .. | by apply (queued_idle W c Persistent)].
Qed.

Lemma homes_disjoint W c k : lru_inv W c ->
  k ∈ (items (_temporary c)).*2 -> k ∈ (items (_persistent c)).*2 -> False.
Proof.
  intros Hinv [[i j] [-> Hj]]%list_elem_of_fmap [[i' j'] [Hk Hj']]%list_elem_of_fmap. simpl in Hk. subst j'.
  destruct (queued W c Temporary i j) as (n & Hn & _ & Hh & _); [done.. |].
  destruct (queued W c Persistent i' j) as (n' & Hn' & _ & Hh' & _); [done.. |]. congruence.
Qed.

Lemma victims_NoDup W c : lru_inv W c -> NoDup (victims c).
Proof.
  intros Hinv. unfold victims.
  pose proof (tracks_keys _ _ _ (inv_tracks W c Temporary Hinv)) as Ht.
  pose proof (tracks_keys _ _ _ (inv_tracks W c Persistent Hinv)) as Hp. simpl in Ht, Hp.
  apply list.NoDup_app. split_and!; [by apply list.NoDup_filter | |].
  - intros k [Hk Hkt]%list_elem_of_filter [[Hk' _]%list_elem_of_filter | Hkp]%elem_of_app; [congruence |].
    by apply (homes_disjoint W c k).
  - apply list.NoDup_app. split_and!; [by apply list.NoDup_filter | | done].
    intros k [_ Hk]%list_elem_of_filter Hk'. by apply (homes_disjoint W c k).
Qed.

Lemma q_begin_head (q : queue Key) : q_begin q = fst <$> head (items q).
Proof. done. Qed.

Lemma evict_while_can W key ks c : lru_inv W c -> NoDup ks -> (forall k, k ∈ ks -> idle c k) ->
  match evict_while key ks c with
  | Done _ c' => lru_inv W c' /\ steady c c' /\ _map c' ⊆ _map c /\ (can_create key (_helper c') = false -> drained ks c c')
  | Threw c' => lru_inv W c' /\ steady c c'
  | Stuck _ => False
  end.
Proof. apply evict_while_ok. Qed.

Lemma drained_dirty ks c c' k : drained ks c c' -> k ∉ ks -> dirty c' k = dirty c k.
Proof. intros [Hm _] Hk. unfold dirty. by rewrite Hm, decide_False. Qed.

Lemma reserve_cut key c (m : run unit) :
  (h ← gets _helper; if can_create key h then mret tt else m) c =
  if can_create key (_helper c) then Done tt c else m c.
Proof. unfold mbind, M_bind, gets. simpl. by destruct (can_create key (_helper c)). Qed.

Definition ending (key : Key) : run unit :=
  h ← gets _helper; if can_create key h then mret tt else throw.

Lemma filter_fmap_keys (P : Key -> Prop) `{!forall k, Decision (P k)} (l : list (Z * Key)) :
  (filter (fun e => P e.2) l).*2 = filter P l.*2.
Proof.
  induction l as [| [i k] l IH]; [done |]. rewrite fmap_cons, !filter_cons. cbn [snd].
  case_decide; [by rewrite fmap_cons, IH | exact IH].
Qed.

Lemma reserve_third W key c : lru_inv W c -> can_create key (_helper c) = false ->
  (q ← gets _persistent; drop_persistent (S (length (items q))) key (q_begin q);; ending key) c =
  (evict_while key (items (_persistent c)).*2;; ending key) c.
Proof.
  intros Hinv _. rewrite bind_app. cbn [gets]. rewrite !bind_app, q_begin_head.
  by rewrite (drop_persistent_spec W key (items (_persistent c))) by (done || lia).
Qed.

Lemma ending_can key c : can_create key (_helper c) = true -> ending key c = Done tt c.
Proof. intros Hc. unfold ending. rewrite bind_app. simpl. by rewrite Hc. Qed.

Lemma reserve_second W key c : lru_inv W c -> (forall k, k ∈ (items (_temporary c)).*2 -> dirty c k = true) ->
  (q ← gets _temporary; drop_dirty (S (length (items q))) key (q_begin q);;
   h ← gets _helper; if can_create key h then mret tt else
   q ← gets _persistent; drop_persistent (S (length (items q))) key (q_begin q);; ending key) c =
  (evict_while key ((items (_temporary c)).*2 ++ (items (_persistent c)).*2);; ending key) c.
Proof.
  intros Hinv Hd. rewrite bind_app. cbn [gets]. rewrite !bind_app, q_begin_head, evict_while_app, bind_app.
  rewrite (drop_dirty_spec W key (items (_temporary c))) by (done || lia).
  pose proof (evict_while_can W key (items (_temporary c)).*2 c Hinv
    (tracks_keys _ _ _ (inv_tracks W c Temporary Hinv))
    ltac:(intros k; by apply (queued_idle W c Temporary))) as He.
  destruct (evict_while key _ c) as [[] c1 | c1 | f]; [| done..]. destruct He as (Hinv1 & _ & _ & Hdr).
  rewrite reserve_cut. destruct (can_create key (_helper c1)) eqn:Hcan.
  { rewrite evict_while_stop by done. by rewrite ending_can. }
  rewrite (reserve_third W) by done. rewrite bind_app. pose proof (drained_queue _ _ _ (Hdr eq_refl) Persistent) as Hq.
  simpl in Hq. rewrite Hq, filter_all; [done |]. intros [i k] Hk Hkt.
  apply (homes_disjoint W c k); [done | done |]. apply list_elem_of_fmap. by exists (i, k).
Qed.

(** After the clean temporary nodes are gone, the dirty ones are left, and the persistent ones. *)
Lemma clean_drained W c c1 :
  lru_inv W c -> drained (filter (fun k => dirty c k = false) (items (_temporary c)).*2) c c1 ->
  (items (_temporary c1)).*2 = filter (fun k => dirty c k = true) (items (_temporary c)).*2 /\
  (items (_persistent c1)).*2 = (items (_persistent c)).*2 /\
  (forall k, k ∈ (items (_temporary c1)).*2 -> dirty c1 k = true).
Proof.
  intros Hinv Hd. pose proof (drained_queue _ _ _ Hd Temporary) as Ht. pose proof (drained_queue _ _ _ Hd Persistent) as Hp.
  simpl in Ht, Hp.
  assert (Hkeys : (items (_temporary c1)).*2 = filter (fun k => dirty c k = true) (items (_temporary c)).*2).
  { rewrite Ht, <- (filter_fmap_keys (fun k => dirty c k = true)). f_equal. apply filter_same. intros [i k] Hin. simpl.
    rewrite list_elem_of_filter. assert (k ∈ (items (_temporary c)).*2) by (apply list_elem_of_fmap; by exists (i, k)).
    destruct (dirty c k); [by split; intros; [| intros [? _]] |]. split; [by intros [] | done]. }
  split_and!; [done | |].
  - rewrite Hp, filter_all; [done |]. intros [i k] Hin [_ Hk]%list_elem_of_filter.
    apply (homes_disjoint W c k); [done | done |]. apply list_elem_of_fmap. by exists (i, k).
  - intros k. rewrite Hkeys, list_elem_of_filter. intros [Hdk Hk].
    rewrite (drained_dirty _ c c1) by (done || rewrite list_elem_of_filter; intros [? _]; congruence). done.
Qed.

(** [reserve_space] evicts exactly as the reference does. *)
Lemma reserve_space_eq W c key : lru_inv W c -> reserve_space key c = reserve_spec key c.
Proof.
  intros Hinv. unfold reserve_space. rewrite reserve_cut. unfold reserve_spec. fold (ending key).
  rewrite (bind_app (gets id)). cbn [gets id]. destruct (can_create key (_helper c)) eqn:Hc0.
  { by rewrite bind_app, evict_while_stop, ending_can. }
  rewrite bind_app. cbn [gets]. rewrite bind_app, q_begin_head. unfold victims.
  rewrite (drop_clean_spec W key (items (_temporary c)) []) by (done || lia).
  rewrite bind_app, evict_while_app, bind_app.
  pose proof (evict_while_can W key (filter (fun k => dirty c k = false) (items (_temporary c)).*2) c Hinv) as He.
  destruct (evict_while key _ c) as [[] c1 | c1 | f]; [| done..].
  destruct He as (Hinv1 & _ & _ & Hdr).
  { apply list.NoDup_filter, (tracks_keys tmp_slot (_map c)), Hinv. }
  { intros k [_ Hk]%list_elem_of_filter. by apply (queued_idle W c Temporary). }
  rewrite reserve_cut. destruct (can_create key (_helper c1)) eqn:Hc1.
  { by rewrite evict_while_stop, ending_can. }
  destruct (clean_drained W c c1 Hinv (Hdr eq_refl)) as (Ht & Hp & Hd).
  rewrite (reserve_second W) by done. by rewrite bind_app, Ht, Hp.
Qed.

Lemma reserve_space_ok W c key : lru_inv W c ->
  wp (reserve_space key)
    (fun _ c' => lru_inv W c' /\ steady c c' /\ _map c' ⊆ _map c /\ can_create key (_helper c') = true)
    (fun c' => lru_inv W c' /\ steady c c') c.
Proof.
  intros Hinv. unfold wp. rewrite (reserve_space_eq W) by done. unfold reserve_spec. fold (ending key).
  rewrite bind_app. cbn [gets id]. rewrite bind_app.
  pose proof (evict_while_can W key (victims c) c Hinv (victims_NoDup W c Hinv)
    ltac:(intros k; by apply (victims_idle W))) as He.
  destruct (evict_while key (victims c) c) as [[] c1 | c1 | f]; [| done..].
  destruct He as (Hinv1 & Hs & Hsub & _). unfold ending. rewrite bind_app. simpl.
  destruct (can_create key (_helper c1)) eqn:Hc; done.
Qed.

(** ** Settings

    No member function of the cache changes the settings of its helper. *)

Definition helper_settings (c : cache) : Settings (HelperLaws := HelperLaws0) := settings (_helper c).

Definition keeps {A} (m : run A) : Prop := forall c, keeps_settings helper_settings (m c) c.

Lemma keeps_ret {A} (a : A) : keeps (mret a : run A).
Proof. by intros c. Qed.

Lemma keeps_bind {A B} (m : run A) (k : A -> run B) : keeps m -> (forall a, keeps (k a)) -> keeps (x ← m; k x).
Proof.
  intros Hm Hk c. specialize (Hm c). unfold keeps_settings in *. unfold mbind, M_bind.
  destruct (m c) as [a c1 | c1 |]; [| done..]. rewrite <- Hm. apply Hk.
Qed.

Lemma keeps_gets {A} (f : cache -> A) : keeps (gets f).
Proof. by intros c. Qed.

Lemma keeps_modify f : (forall c, _helper (f c) = _helper c) -> keeps (modify f).
Proof. intros Hf c. unfold keeps_settings, modify, helper_settings. simpl. by rewrite Hf. Qed.

Lemma keeps_tell f : (forall h, settings (f h) = settings h) -> keeps (tell f).
Proof. intros Hf c. unfold keeps_settings, tell, modify, helper_settings. simpl. apply Hf. Qed.

Lemma keeps_helper {A} (f : St -> outcome St A) : (forall h, keeps_settings settings (f h) h) -> keeps (on_helper f).
Proof. intros Hf c. specialize (Hf (_helper c)). unfold keeps_settings, on_helper in *. by destruct (f (_helper c)). Qed.

Lemma keeps_assert b : keeps (assert_ b).
Proof. intros c. by destruct b. Qed.

Lemma keeps_deref {A} (o : option A) : keeps (deref o).
Proof. intros c. by destruct o. Qed.

Lemma keeps_throw {A} : keeps (throw (A := A)).
Proof. by intros c. Qed.

Lemma keeps_stuck {A} f : keeps (stuck (A := A) f).
Proof. by intros c. Qed.

Lemma set_q_helper w q (c : cache) : _helper (set_q w q c) = _helper c.
Proof. by destruct w. Qed.

(** [keeping] goes through the statements of a member function. *)
Ltac keeping :=
  repeat match goal with
  | |- forall _, _ => intro
  | |- keeps (mbind _ _) => apply keeps_bind
  | |- keeps (mret _) => apply keeps_ret
  | |- keeps (gets _) => apply keeps_gets
  | |- keeps (assert_ _) => apply keeps_assert
  | |- keeps (deref _) => apply keeps_deref
  | |- keeps throw => apply keeps_throw
  | |- keeps (stuck _) => apply keeps_stuck
  | |- keeps (tell (release _ _)) => apply keeps_tell, release_settings
  | |- keeps (tell (release_key _)) => apply keeps_tell, release_key_settings
  | |- keeps (tell (erase_notice _)) => apply keeps_tell, erase_notice_settings
  | |- keeps (on_helper (create _)) => apply keeps_helper, create_settings
  | |- keeps (on_helper (update _ _)) => apply keeps_helper, update_settings
  | |- keeps (on_helper (destroy _)) => apply keeps_helper, destroy_settings
  | |- keeps (modify _) => apply keeps_modify; intros; first [done | apply set_q_helper]
  | |- keeps (when _ _) => unfold when
  | |- keeps (if ?b then _ else _) => destruct b
  | |- keeps (match ?x with _ => _ end) => destruct x
  | |- keeps _ => solve [eauto with keeps]
  end.

Create HintDb keeps.

Lemma node_keeps k : keeps (node k).
Proof. unfold node. keeping. Qed.
Lemma set_node_keeps k n : keeps (set_node k n).
Proof. unfold set_node. keeping. Qed.
Lemma erase_q_keeps w it : keeps (erase_q w it).
Proof. unfold erase_q. keeping. Qed.
Lemma push_q_keeps w k : keeps (push_q w k).
Proof. unfold push_q. keeping. Qed.
#[local] Hint Resolve node_keeps set_node_keeps erase_q_keeps push_q_keeps : keeps.

Lemma map_erase_keeps k : keeps (map_erase k).
Proof. unfold map_erase, map_delete. keeping. Qed.
Lemma emplace_check_keeps : keeps emplace_check.
Proof. unfold emplace_check. keeping. Qed.
#[local] Hint Resolve emplace_check_keeps : keeps.
Lemma get_change_keeps k : keeps (get_change k).
Proof. unfold get_change. keeping. Qed.
Lemma put_change_keeps k now : keeps (put_change k now).
Proof. unfold put_change. keeping. Qed.
Lemma save_keeps k : keeps (save k).
Proof. unfold save. keeping. Qed.
#[local] Hint Resolve map_erase_keeps get_change_keeps put_change_keeps save_keeps : keeps.

Lemma drop_clean_keeps fuel : forall key it, keeps (drop_clean fuel key it).
Proof. induction fuel as [| fuel IH]; intros key it; simpl; keeping. Qed.
Lemma drop_dirty_keeps fuel : forall key it, keeps (drop_dirty fuel key it).
Proof. induction fuel as [| fuel IH]; intros key it; simpl; keeping. Qed.
Lemma drop_persistent_keeps fuel : forall key it, keeps (drop_persistent fuel key it).
Proof. induction fuel as [| fuel IH]; intros key it; simpl; keeping. Qed.
Lemma update_all_loop_keeps fuel : forall it, keeps (update_all_loop fuel it).
Proof. induction fuel as [| fuel IH]; intros it; simpl; keeping. Qed.
Lemma save_each_keeps ks : keeps (save_each ks).
Proof. induction ks as [| k ks IH]; simpl; keeping. Qed.
#[local] Hint Resolve drop_clean_keeps drop_dirty_keeps drop_persistent_keeps update_all_loop_keeps save_each_keeps : keeps.

Lemma reserve_space_keeps key : keeps (reserve_space key).
Proof. unfold reserve_space. keeping. Qed.
#[local] Hint Resolve reserve_space_keeps : keeps.

Lemma get_keeps key now : keeps (get key now).
Proof. unfold get. keeping. Qed.
Lemma put_keeps key need now : keeps (put key need now).
Proof. unfold put. keeping. Qed.
Lemma update_one_keeps : keeps update_one.
Proof. unfold update_one. keeping. Qed.
Lemma update_all_keeps : keeps update_all.
Proof. unfold update_all. keeping. Qed.
Lemma update_sorted_keeps cmp : keeps (update_all_with_order cmp).
Proof. unfold update_all_with_order. keeping. Qed.
Lemma remove_keeps key : keeps (remove key).
Proof. unfold remove. keeping. Qed.
Lemma erase_keeps key : keeps (erase key).
Proof. unfold erase. keeping. Qed.
Lemma write_value_keeps key f : keeps (write_value key f).
Proof. unfold write_value. keeping. Qed.
End Spec.
