(* ===== verification/LRUSession.v ===== *)
(** * LRUSession: sessions of a client with the cache

    The cache of LRUCache.v as a client sees it: a store of values, how often each is held,
    and which ones have been changed without an announcement.  Every sequence of calls that
    keeps the client's side of the contract (it puts what it got, announces what it changed
    and counts below 2^32) runs without a failed assertion and reads what was last written. *)

From stdpp Require Import gmap sorting.
From S2P Require Import Prelude LRUCache LRUSpec.
Local Open Scope Z_scope.

Section Session.
Context {St Key Value Content : Type} `{Countable Key} `{!CacheHelper St Key Value}
  `{!HelperLaws St Key Value Content}.

Abbreviation cache := (Cache St Key Value).
Abbreviation node_of := (Node Value).
Abbreviation run := (M (St := St) (Key := Key) (Value := Value)).
#[local] Existing Instance M_ret.
#[local] Existing Instance M_bind.
#[local] Existing Instance steady_preorder.

(** ** What a client does and what it may expect *)

Inductive lru_op :=
  | OGet (read : bool) (k : Key) (now : Z)
  | OPut (k : Key) (need : bool) (now : Z)
  | OWrite (k : Key) (x : Content)
  | OUpdateOne
  | OUpdateAll
  | OUpdateSorted (cmp : Key -> Key -> bool)
  | ORemove (k : Key)
  | OErase (k : Key)
  | OAdjust (t : adjustment (CacheHelper := CacheHelper0)).

(** The answer is what was read; for [erase], what the helper has left of the key. *)
Definition exec (o : lru_op) : run (option Content) :=
  match o with
  | OGet r k now => tell (set_reads r);; v ← get k now; mret (Some (content v))
  | OPut k need now => put k need now;; mret None
  | OWrite k x => write_value k (poke x);; mret None
  | OUpdateOne => update_one;; mret None
  | OUpdateAll => update_all;; mret None
  | OUpdateSorted cmp => update_all_with_order cmp;; mret None
  | ORemove k => remove k;; mret None
  | OErase k => erase k;; h ← gets _helper; mret (Some (backing h k))
  | OAdjust t => tell (adjust t);; mret None
  end.

Record client := mkClient { store : Key -> Content; held : Key -> Z; unsaved : gset Key }.

Definition upd {A} (k : Key) (x : A) (f : Key -> A) : Key -> A := fun j => if decide (j = k) then x else f j.

Definition op_ok (a : client) (o : lru_op) : Prop :=
  match o with
  | OGet _ k _ => held a k + 1 < 4294967296
  | OPut k need _ => 0 < held a k /\ (held a k = 1 -> need = true \/ k ∉ unsaved a)
  | OWrite k _ => 0 < held a k
  | ORemove k | OErase k => held a k = 0
  | _ => True
  end.

(** What the settings of the helper have to allow. *)
Definition ready (c : cache) (o : lru_op) : Prop :=
  match o with
  | OGet _ k _ => usable (settings (_helper c)) k
  | OAdjust t => adjustable (settings (_helper c)) t
  | _ => True
  end.

Definition answer_ok (a : client) (o : lru_op) (ans : option Content) : Prop :=
  match o with
  | OGet true k _ => ans = Some (store a k)
  | OGet false _ _ | OErase _ => is_Some ans
  | _ => ans = None
  end.

Definition next (a : client) (o : lru_op) (ans : option Content) : client :=
  match o with
  | OGet r k _ =>
      mkClient (upd k (default (store a k) ans) (store a)) (upd k (held a k + 1) (held a))
        (if r then unsaved a else {[k]} ∪ unsaved a)
  | OPut k need _ =>
      mkClient (store a) (upd k (held a k - 1) (held a)) (if need then unsaved a ∖ {[k]} else unsaved a)
  | OWrite k x => mkClient (upd k x (store a)) (held a) ({[k]} ∪ unsaved a)
  | OErase k => mkClient (upd k (default (store a k) ans) (store a)) (held a) (unsaved a)
  | _ => a
  end.

(** An exception out of the loops of [update_all] leaves the queue behind the map. *)
Definition breaks (o : lru_op) : bool :=
  match o with OUpdateAll | OUpdateSorted _ => true | _ => false end.

Definition may_throw (o : lru_op) : bool :=
  match o with OPut _ _ _ | OWrite _ _ | OErase _ | OAdjust _ => false | _ => true end.

Inductive session : cache -> client -> Prop :=
  | session_start h : owns [] h -> session (cache_new h) (mkClient (backing h) (fun _ => 0) ∅)
  | session_step c a o ans c' : session c a -> op_ok a o -> ready c o -> exec o c = Done ans c' -> session c' (next a o ans)
  | session_threw c a o c' : session c a -> op_ok a o -> ready c o -> breaks o = false -> exec o c = Threw c' -> session c' a.

Record refines (c : cache) (a : client) : Prop := {
  refines_inv : lru_inv (unsaved a) c;
  refines_view k : view c k = store a k;
  refines_pins k : pins c k = held a k;
}.

(** ** Changing one node *)

Lemma core_replace W W' c k n n' qt qp qo :
  lru_core W c -> _map c !! k = Some n -> owns (alive (<[k := n']> (_map c))) (_helper c) ->
  0 <= instantiated_size n' < 4294967296 ->
  (instantiated_size n' = 0 -> is_Some (iter n')) ->
  (is_Some (obsolete_iter n') -> instantiated_size n' = 0 /\ need_update n' = true) ->
  (need_update n' = false -> k ∉ W' -> content (value n') = backing (_helper c) k) ->
  (forall j, j <> k -> j ∈ W' <-> j ∈ W) -> (k ∈ W' -> 0 < instantiated_size n') ->
  tracks tmp_slot (<[k := n']> (_map c)) qt -> tracks per_slot (<[k := n']> (_map c)) qp ->
  lru_core W' (mkCache (_helper c) (<[k := n']> (_map c)) qp qt qo).
Proof.
  intros [_ _ Hc Hi Hd Ho Hcl Hw] Hn Ho' Hc' Hi' Hd' Hcl' HW Hwk Ht Hp.
  split; simpl; try done.
  - intros j m [[<- <-] | [Hj Hm]]%lookup_insert_Some; eauto.
  - intros j m [[<- <-] | [Hj Hm]]%lookup_insert_Some; eauto.
  - intros j m [[<- <-] | [Hj Hm]]%lookup_insert_Some; eauto.
  - intros j m [[<- <-] | [Hj Hm]]%lookup_insert_Some Hnu HW'; [by apply Hcl' |].
    apply (Hcl j m Hm Hnu). by rewrite <- HW.
  - intros j Hj. unfold pins. simpl. destruct (decide (j = k)) as [-> | Hne].
    + rewrite lookup_insert_eq. auto.
    + rewrite lookup_insert_ne by done. by apply Hw, HW.
Qed.

Lemma owns_same_value (m : gmap Key node_of) k n n' h :
  m !! k = Some n -> value n' = value n -> owns (alive m) h -> owns (alive (<[k := n']> m)) h.
Proof.
  intros Hn Hv. apply owns_perm. rewrite (alive_replace m k n n' Hn), (alive_delete m k n Hn). by rewrite Hv.
Qed.

Lemma view_replace c k n n' qt qp qo j :
  _map c !! k = Some n -> value n' = value n ->
  view (mkCache (_helper c) (<[k := n']> (_map c)) qp qt qo) j = view c j.
Proof.
  intros Hn Hv. unfold view. simpl. destruct (decide (j = k)) as [-> | Hj].
  - by rewrite lookup_insert_eq, Hn, Hv.
  - by rewrite lookup_insert_ne.
Qed.

Lemma pins_replace (c : cache) k n' qt qp qo (h : St) j :
  pins (mkCache h (<[k := n']> (_map c)) qp qt qo) j = upd k (instantiated_size n') (pins c) j.
Proof.
  unfold pins, upd. simpl. case_decide as Hj; [subst; by rewrite lookup_insert_eq | by rewrite lookup_insert_ne].
Qed.
(** A node that becomes pinned leaves the queues it is in. *)
Lemma pin_prepare W c k n n' :
  lru_inv W c -> _map c !! k = Some n -> 0 < instantiated_size n' -> obsolete_iter n' = None ->
  exists qt qp qo,
    q_erase (tmp_slot n) (_temporary c) = Some qt /\ q_erase (per_slot n) (_persistent c) = Some qp /\
    q_erase (obsolete_iter n) (_obsolete c) = Some qo /\
    tracks tmp_slot (<[k := n']> (_map c)) qt /\ tracks per_slot (<[k := n']> (_map c)) qp /\
    tracks obsolete_iter (<[k := n']> (_map c)) qo.
Proof.
  intros Hinv Hn Hz Ho.
  assert (Hk : forall slot : node_of -> option Z, _map c !! k ≫= slot = slot n) by (intros slot; by rewrite Hn).
  assert (Hk' : forall slot : node_of -> option Z, slot n' = None -> <[k := n']> (_map c) !! k ≫= slot = None)
    by (intros slot Hs; by rewrite lookup_insert_eq).
  assert (Hpos : (instantiated_size n' =? 0) = false) by (apply Z.eqb_neq; lia).
  assert (Ha := agree_off_insert k n' (_map c)).
  destruct (tracks_erase tmp_slot k _ _ _ _ Ha (Hk _) ltac:(apply Hk'; unfold tmp_slot; by rewrite Hpos)
    (inv_tracks W c Temporary Hinv)) as (qt & Et & Ht).
  destruct (tracks_erase per_slot k _ _ _ _ Ha (Hk _) ltac:(apply Hk'; unfold per_slot; by rewrite Hpos)
    (inv_tracks W c Persistent Hinv)) as (qp & Ep & Hp).
  destruct (tracks_erase obsolete_iter k _ _ _ _ Ha (Hk _) ltac:(by apply Hk')
    (inv_tracks W c Obsolete Hinv)) as (qo & Eo & Hqo).
  by exists qt, qp, qo.
Qed.

(** The node [n'] in the place of [n], with the queues to match: the invariant, when the
    value and the flags agree. *)
Lemma inv_replace W W' c k n n' qt qp qo :
  lru_inv W c -> _map c !! k = Some n -> value n' = value n ->
  0 <= instantiated_size n' < 4294967296 ->
  (instantiated_size n' = 0 -> is_Some (iter n')) ->
  (is_Some (obsolete_iter n') <-> instantiated_size n' = 0 /\ need_update n' = true) ->
  (need_update n' = false -> k ∉ W' -> need_update n = false /\ k ∉ W) ->
  (forall j, j <> k -> j ∈ W' <-> j ∈ W) -> (k ∈ W' -> 0 < instantiated_size n') ->
  tracks tmp_slot (<[k := n']> (_map c)) qt -> tracks per_slot (<[k := n']> (_map c)) qp ->
  tracks obsolete_iter (<[k := n']> (_map c)) qo ->
  lru_inv W' (mkCache (_helper c) (<[k := n']> (_map c)) qp qt qo).
Proof.
  intros Hinv Hn Hv Hz Hi Ho Hcl HW HWk Ht Hp Hq. pose proof (inv_core _ _ Hinv) as Hc. split; [| done |].
  - eapply core_replace; [done.. | | lia | done | by intros ?%Ho | | done | done | done | done].
    + eapply owns_same_value; [done.. | apply Hc].
    + intros Hnu HWn. destruct (Hcl Hnu HWn). rewrite Hv. by apply (core_clean _ _ Hc).
  - simpl. intros j m [[<- <-] | [Hj Hm]]%lookup_insert_Some Hmz; [intros; by apply Ho | by eapply inv_dirty].
Qed.

Definition counted (c c' : cache) (k : Key) (n : Z) : Prop :=
  (forall j, view c' j = view c j) /\ forall j, pins c' j = upd k n (pins c) j.

Lemma replace_counted c k n n' qt qp qo :
  _map c !! k = Some n -> value n' = value n ->
  counted c (mkCache (_helper c) (<[k := n']> (_map c)) qp qt qo) k (instantiated_size n').
Proof. intros Hn Hv. split; intros j; [by eapply view_replace | apply pins_replace]. Qed.

Lemma u32_count n : 0 <= n < 4294967296 -> u32 n = n.
Proof. apply Z.mod_small. Qed.

Definition pinned (n : node_of) (count : Z) (it ob : option Z) : node_of :=
  mkNode (value n) (need_update n) (is_persistent n) count (instantiated_time n) it ob.

Lemma pinned_slots (n : node_of) : 0 < instantiated_size n -> tmp_slot n = None /\ per_slot n = None.
Proof.
  intros Hz. unfold tmp_slot, per_slot. rewrite (proj2 (Z.eqb_neq _ _)) by lia. done.
Qed.

Lemma pinned_no_iter W c k n : lru_inv W c -> _map c !! k = Some n -> 0 < instantiated_size n -> obsolete_iter n = None.
Proof.
  intros Hinv Hn Hz. destruct (obsolete_iter n) eqn:Ho; [| done].
  destruct (core_dirty _ _ (inv_core _ _ Hinv) k n Hn) as [? _]; [by eexists | lia].
Qed.

Lemma tracks_slot W c k n n' w :
  lru_inv W c -> _map c !! k = Some n -> slot_of w n' = slot_of w n ->
  tracks (slot_of w) (<[k := n']> (_map c)) (get_q w c).
Proof.
  intros Hinv Hn Hs. eapply (tracks_keep _ k); [apply agree_off_insert | by rewrite lookup_insert_eq, Hn |].
  by eapply inv_tracks.
Qed.

Lemma tracks_queue W c k n n' w :
  lru_inv W c -> _map c !! k = Some n -> slot_of w n = None -> slot_of w n' = Some (next_id (get_q w c)) ->
  tracks (slot_of w) (<[k := n']> (_map c)) (q_push k (get_q w c)).
Proof.
  intros Hinv Hn Hs Hs'. eapply (tracks_push _ k); [apply agree_off_insert | by rewrite Hn | by rewrite lookup_insert_eq |].
  by eapply inv_tracks.
Qed.

(** A pinned node stays pinned, perhaps with other flags. *)
Lemma still_pinned W W' c k n n' :
  lru_inv W c -> _map c !! k = Some n -> 0 < instantiated_size n -> value n' = value n ->
  0 < instantiated_size n' < 4294967296 -> obsolete_iter n' = None ->
  (need_update n' = false -> k ∉ W' -> need_update n = false /\ k ∉ W) ->
  (forall j, j <> k -> j ∈ W' <-> j ∈ W) ->
  lru_inv W' (with_map (<[k := n']> (_map c)) c).
Proof.
  intros Hinv Hn Hz Hv Hz' Ho Hcl HW. destruct (pinned_slots n Hz) as [Ht Hp].
  destruct (pinned_slots n') as [Ht' Hp']; [lia |].
  eapply (inv_replace W W' c k n n'); try done; try lia.
  - rewrite Ho. split; [by intros [] | lia].
  - apply (tracks_slot W c k n n' Temporary); [done.. |]. simpl. by rewrite Ht, Ht'.
  - apply (tracks_slot W c k n n' Persistent); [done.. |]. simpl. by rewrite Hp, Hp'.
  - apply (tracks_slot W c k n n' Obsolete); [done.. |]. simpl. by rewrite Ho, (pinned_no_iter W c k n).
Qed.

(** The state a run built field by field is the one [Hg] speaks of. *)
Ltac settle c n Hg := let Hper := fresh in
  destruct c, (is_persistent n) eqn:Hper; unfold with_map, pinned in *;
  rewrite ?Hper in Hg; simpl in *; rewrite ?insert_insert_eq; simplify_eq; done.

Lemma get_change_ok W c k n :
  lru_inv W c -> _map c !! k = Some n -> instantiated_size n + 1 < 4294967296 ->
  wp (get_change k) (fun _ c' => lru_inv W c' /\ counted c c' k (instantiated_size n + 1)) (fun _ => False) c.
Proof.
  intros Hinv Hn Hm. pose proof (inv_core _ _ Hinv) as Hc. pose proof (core_count _ _ Hc k n Hn) as Hr.
  unfold get_change. apply lwp_bind, (wp_node _ n); [done |]. rewrite u32_count by lia.
  apply lwp_bind, wp_set_node. cbn [instantiated_size]. destruct (Z.ltb_spec 1 (instantiated_size n + 1)) as [Hz | Hz].
  { apply lwp_ret. split; [| destruct c; by apply (replace_counted _ k n)].
    eapply still_pinned; [done | done | lia | done | simpl; lia | | done | done].
    apply (pinned_no_iter W c k n); [done.. | lia]. }
  assert (Hzero : instantiated_size n = 0) by lia. rewrite Hzero. cbn [iter is_persistent obsolete_iter need_update].
  destruct (pin_prepare W c k n (pinned n 1 None None)) as (qt & qp & qo & Et & Ep & Eo & Ht & Hp & Ho); [done.. |].
  destruct (slot_home k n c W Hc Hn Hzero) as [Hts Hps]. rewrite Hts in Et. rewrite Hps in Ep.
  destruct (core_iter _ _ Hc k n Hn Hzero) as [i Hi].
  assert (Hgoal : lru_inv W (mkCache (_helper c) (<[k := pinned n 1 None None]> (_map c)) qp qt qo) /\
    counted c (mkCache (_helper c) (<[k := pinned n 1 None None]> (_map c)) qp qt qo) k 1).
  { split; [| by apply (replace_counted _ k n)]. eapply inv_replace; try done; [].
    simpl. split; [by intros [] | lia]. }
  apply lwp_bind, lwp_assert; [by rewrite Hi |].
  apply lwp_bind, (wp_erase_q _ _ (if is_persistent n then qp else qt)); [by destruct (is_persistent n) |].
  apply lwp_bind, wp_set_node. destruct (obsolete_iter n) as [o |] eqn:Hob.
  - destruct (core_dirty _ _ Hc k n Hn) as [_ Hu]; [by eexists |].
    apply lwp_bind, lwp_assert; [done |]. apply lwp_bind, (wp_erase_q _ _ qo); [by destruct (is_persistent n) |].
    apply wp_set_node.
    settle c n Hgoal.
  - apply lwp_ret. simpl in Eo.
    settle c n Hgoal.
Qed.
(** ** [put] *)

Definition announced (W : gset Key) (k : Key) (need : bool) : gset Key := if need then W ∖ {[k]} else W.

(** The node as the last [put] leaves it. *)
Definition released (n : node_of) (long : bool) (it ob : option Z) : node_of :=
  mkNode (value n) (need_update n) long 0 (instantiated_time n) it ob.

(** The queues after the last [put]. *)
Lemma release_queues W c k n (long : bool) :
  lru_inv W c -> _map c !! k = Some n -> instantiated_size n = 1 ->
  let it := Some (next_id (if long then _persistent c else _temporary c)) in
  let n' := released n long it (if need_update n then Some (next_id (_obsolete c)) else None) in
  tracks tmp_slot (<[k := n']> (_map c)) (if long then _temporary c else q_push k (_temporary c)) /\
  tracks per_slot (<[k := n']> (_map c)) (if long then q_push k (_persistent c) else _persistent c) /\
  tracks obsolete_iter (<[k := n']> (_map c)) (if need_update n then q_push k (_obsolete c) else _obsolete c).
Proof.
  intros Hinv Hn Hz it n'. destruct (pinned_slots n ltac:(lia)) as [Ht Hp].
  assert (Hob : obsolete_iter n = None) by (apply (pinned_no_iter W c k n); [done.. | lia]).
  split_and!.
  - destruct long; [apply (tracks_slot W c k n n' Temporary) | apply (tracks_queue W c k n n' Temporary)];
      simpl; by rewrite ?Ht.
  - destruct long; [apply (tracks_queue W c k n n' Persistent) | apply (tracks_slot W c k n n' Persistent)];
      simpl; by rewrite ?Hp.
  - subst n'. destruct (need_update n) eqn:Hu;
      [apply (tracks_queue W c k n _ Obsolete) | apply (tracks_slot W c k n _ Obsolete)]; simpl; by rewrite ?Hob.
Qed.

Lemma release_last_ok W c k n now :
  lru_inv W c -> _map c !! k = Some n -> instantiated_size n = 1 -> k ∉ W ->
  wp (put_change k now) (fun _ c' => lru_inv W c' /\ counted c c' k 0) (fun _ => False) c.
Proof.
  intros Hinv Hn Hz HW. unfold put_change. apply lwp_bind, (wp_node _ n); [done |]. rewrite Hz.
  change (u32 (1 - 1)) with 0. apply lwp_bind, wp_set_node. cbn [instantiated_size is_persistent instantiated_time Z.ltb Z.compare].
  generalize (is_persistent n || (threshold_time <=? now - instantiated_time n)) as long. intros long.
  assert (Hob : obsolete_iter n = None) by (apply (pinned_no_iter W c k n); [done.. | lia]).
  pose proof (release_queues W c k n long Hinv Hn Hz) as (Hqt & Hqp & Hqo).
  match type of Hqt with tracks _ (<[_ := ?m]> _) _ => set (n' := m) in * end.
  assert (Hgoal := conj
    (inv_replace W W c k n n' _ _ _ Hinv Hn eq_refl ltac:(simpl; lia) ltac:(by eexists)
      ltac:(simpl; destruct (need_update n); split; [done | by eexists | by intros [] | by intros []])
      ltac:(done) ltac:(done) ltac:(done) Hqt Hqp Hqo)
    (replace_counted c k n n' (if long then _temporary c else q_push k (_temporary c))
       (if long then q_push k (_persistent c) else _persistent c)
       (if need_update n then q_push k (_obsolete c) else _obsolete c) Hn eq_refl)).
  apply lwp_bind, wp_push_q, lwp_bind, wp_set_node, lwp_when; cbn [need_update obsolete_iter]; intros Hu; rewrite Hu in *.
  - apply lwp_bind, lwp_assert; [by rewrite Hob |]. apply lwp_bind, wp_push_q, wp_set_node.
    destruct c, long; unfold with_map; simpl in *; rewrite !insert_insert_eq; unfold n', released in Hgoal; rewrite Hu in Hgoal; done.
  - destruct c, long; unfold with_map; simpl in *; rewrite !insert_insert_eq; unfold n', released in Hgoal; rewrite Hob, Hu in *; done.
Qed.
Lemma put_change_ok W c k n now :
  lru_inv W c -> _map c !! k = Some n -> 0 < instantiated_size n -> (instantiated_size n = 1 -> k ∉ W) ->
  wp (put_change k now) (fun _ c' => lru_inv W c' /\ counted c c' k (instantiated_size n - 1)) (fun _ => False) c.
Proof.
  intros Hinv Hn Hz HW. destruct (decide (instantiated_size n = 1)) as [H1 | H1].
  { rewrite H1. by apply (release_last_ok W c k n); [.. | apply HW]. }
  pose proof (core_count _ _ (inv_core _ _ Hinv) k n Hn) as Hr.
  unfold put_change. apply lwp_bind, (wp_node _ n); [done |]. rewrite u32_count by lia.
  apply lwp_bind, wp_set_node. cbn [instantiated_size]. destruct (Z.ltb_spec 0 (instantiated_size n - 1)); [| lia].
  apply lwp_ret. split; [| destruct c; by apply (replace_counted _ k n)].
  eapply still_pinned; [done | done | lia | done | simpl; lia | | done | done].
  apply (pinned_no_iter W c k n); [done.. | lia].
Qed.

Lemma pins_node (c : cache) k n : _map c !! k = Some n -> pins c k = instantiated_size n.
Proof. intros Hn. unfold pins. by rewrite Hn. Qed.

Lemma upd_same (f : Key -> Z) k x j : f k = x -> upd k x f j = f j.
Proof. unfold upd. intros <-. by case_decide as Hj; [subst |]. Qed.

Lemma lru_put_ok W c k n need now :
  lru_inv W c -> _map c !! k = Some n -> 0 < instantiated_size n ->
  (instantiated_size n = 1 -> need = true \/ k ∉ W) ->
  wp (put k need now)
    (fun _ c' => lru_inv (announced W k need) c' /\ counted c c' k (instantiated_size n - 1)) (fun _ => False) c.
Proof.
  intros Hinv Hn Hz HW. unfold put. apply lwp_bind, wp_gets, lwp_bind, lwp_assert; [by rewrite Hn |].
  apply lwp_bind, (wp_node _ n); [done |]. apply lwp_bind. destruct need; simpl.
  - apply wp_set_node.
    match goal with |- context [<[k := ?m]> _] => set (n1 := m) end.
    pose proof (core_count _ _ (inv_core _ _ Hinv) k n Hn) as Hr.
    assert (Hinv1 : lru_inv (W ∖ {[k]}) (with_map (<[k := n1]> (_map c)) c)).
    { eapply still_pinned; [done | done | lia | done | simpl; lia | | done | set_solver].
      apply (pinned_no_iter W c k n); [done.. | lia]. }
    eapply lwp_mono; [apply (put_change_ok _ _ k n1 now Hinv1); [apply lookup_insert_eq | done | set_solver] | | done].
    intros [] c' [Hc' [Hv Hp]]. split; [done |]. split; intros j.
    + rewrite Hv. destruct c. by apply (view_replace _ k n).
    + rewrite Hp. unfold upd. destruct c. case_decide as Hj; [done |]. unfold with_map. rewrite pins_replace.
      apply upd_same. exact (pins_node _ k n Hn).
  - by apply put_change_ok; [.. | intros Hone; destruct (HW Hone)].
Qed.

(** ** Writing into a value that is held *)

Lemma write_ok W c k n x :
  lru_inv W c -> _map c !! k = Some n -> 0 < instantiated_size n ->
  wp (write_value k (poke x))
    (fun _ c' => lru_inv ({[k]} ∪ W) c' /\ (forall j, view c' j = upd k x (view c) j) /\ forall j, pins c' j = pins c j)
    (fun _ => False) c.
Proof.
  intros Hinv Hn Hz. unfold write_value. apply lwp_bind, (wp_node _ n); [done |]. apply wp_set_node.
  match goal with |- context [<[k := ?m]> _] => set (n' := m) end.
  pose proof (inv_core _ _ Hinv) as Hc. pose proof (core_count _ _ Hc k n Hn) as Hr.
  assert (Hob : obsolete_iter n = None) by (by apply (pinned_no_iter W c k n)).
  assert (Hsame : forall w, tracks (slot_of w) (<[k := n']> (_map c)) (get_q w c)) by
    (intros w; apply (tracks_slot W c k n n' w Hinv Hn); by destruct w).
  assert (Hinv' : lru_inv ({[k]} ∪ W) (with_map (<[k := n']> (_map c)) c)).
  { split; [| apply (Hsame Obsolete) |].
    - eapply core_replace; [done.. | | simpl; lia | simpl; lia | by simpl; rewrite Hob; intros [] | set_solver
        | set_solver | done | apply (Hsame Temporary) | apply (Hsame Persistent)].
      eapply owns_perm; [symmetry; by apply (alive_replace _ k n) |]. apply owns_poke.
      eapply owns_perm; [by apply (alive_delete _ k n) | apply Hc].
    - simpl. intros j m [[<- <-] | [Hj Hm]]%lookup_insert_Some Hmz; [simpl in Hmz; lia | by eapply inv_dirty]. }
  split; [done |]. split; intros j.
  - unfold view, upd. simpl. case_decide as Hj; [subst; by rewrite lookup_insert_eq; simpl; rewrite content_poke |].
    by rewrite lookup_insert_ne.
  - destruct c. unfold with_map. rewrite pins_replace. apply upd_same. exact (pins_node _ k n Hn).
Qed.
(** ** [get] *)

Lemma weaken_written W k c : lru_inv W c -> 0 < pins c k -> lru_inv ({[k]} ∪ W) c.
Proof.
  intros [[Ht Hp Hc Hi Hd Ho Hcl Hw] Hobs Hdi] Hk. split; [split |..]; try done.
  - intros j n Hn Hu HW. apply (Hcl j n Hn Hu). set_solver.
  - intros j [->%elem_of_singleton | Hj]%elem_of_union; [done | by apply Hw].
Qed.

(** Nothing a client sees is different. *)
Record unseen (c c' : cache) : Prop := {
  unseen_view j : view c' j = view c j;
  unseen_pins j : pins c' j = pins c j;
}.

Lemma stalled_unseen c c' : stalled c c' -> unseen c c'.
Proof. intros [Hm _ Hv _]. split; [done |]. intros j. unfold pins. by rewrite Hm. Qed.

Definition fresh_node (v : Value) (now : Z) : node_of := mkNode v false false 1 now None None.

Lemma insert_new W W' c k v h now :
  lru_inv W c -> _map c !! k = None -> owns ((k, v) :: alive (_map c)) h ->
  (forall j, backing h j = backing (_helper c) j) -> (k ∉ W' -> content v = backing h k) ->
  (forall j, j <> k -> j ∈ W' <-> j ∈ W) ->
  lru_inv W' (mkCache h (<[k := fresh_node v now]> (_map c)) (_persistent c) (_temporary c) (_obsolete c)).
Proof.
  intros Hinv Hk Ho Hb Hcl HW. destruct Hinv as [[Ht Hp Hc Hi Hd _ Hcln Hw] Hobs Hdi].
  assert (Hkeep : forall (slot : node_of -> option Z) q, slot (fresh_node v now) = None ->
    tracks slot (_map c) q -> tracks slot (<[k := fresh_node v now]> (_map c)) q).
  { intros slot q Hs. apply (tracks_keep _ k); [apply agree_off_insert |]. by rewrite lookup_insert_eq, Hk. }
  split; [split |..]; simpl; try (by apply Hkeep).
  - intros j n [[<- <-] | [Hj Hn]]%lookup_insert_Some; [simpl; lia | eauto].
  - intros j n [[<- <-] | [Hj Hn]]%lookup_insert_Some; [simpl; lia | eauto].
  - intros j n [[<- <-] | [Hj Hn]]%lookup_insert_Some; [by intros [] | eauto].
  - eapply owns_perm; [| exact Ho]. by rewrite alive_new.
  - intros j n [[<- <-] | [Hj Hn]]%lookup_insert_Some Hu HWj; [by apply Hcl |].
    rewrite Hb. apply (Hcln j n Hn Hu). by rewrite <- HW.
  - intros j HWj. unfold pins. simpl. destruct (decide (j = k)) as [-> | Hj].
    + by rewrite lookup_insert_eq.
    + rewrite lookup_insert_ne by done. by apply Hw, HW.
  - intros j n [[<- <-] | [Hj Hn]]%lookup_insert_Some; [simpl; lia | eauto].
Qed.

Definition read_written (W : gset Key) (k : Key) (r : bool) : gset Key := if r then W else {[k]} ∪ W.

Record got (W : gset Key) (c : cache) (k : Key) (v : Value) (c' : cache) : Prop := {
  got_inv : lru_inv (read_written W k (reading (settings (_helper c)))) c';
  got_read : reading (settings (_helper c)) = true -> content v = view c k;
  got_view j : view c' j = upd k (content v) (view c) j;
  got_pins j : pins c' j = upd k (pins c k + 1) (pins c) j;
}.

Lemma get_hit_ok W c k n now :
  lru_inv W c -> _map c !! k = Some n -> instantiated_size n + 1 < 4294967296 ->
  wp (get k now) (got W c k) (fun _ => False) c.
Proof.
  intros Hinv Hn Hm. pose proof (core_count _ _ (inv_core _ _ Hinv) k n Hn) as Hr.
  assert (Hv : content (value n) = view c k) by (unfold view; by rewrite Hn).
  unfold get. apply lwp_bind, wp_gets. rewrite Hn. apply lwp_bind.
  eapply lwp_mono; [by apply (get_change_ok W c k n) | | done]. intros [] c' [Hc' [Hvw Hp]]. apply lwp_ret.
  assert (Hpk : pins c' k = instantiated_size n + 1) by (rewrite Hp; unfold upd; by rewrite decide_True).
  split; [unfold read_written; destruct (reading _); [done | apply weaken_written; [done | lia]] | done | |].
  - intros j. rewrite Hvw. unfold upd. by case_decide as Hj; [subst; rewrite Hv |].
  - intros j. by rewrite Hp, (pins_node c k n).
Qed.

Lemma get_miss_ok W c k now :
  lru_inv W c -> _map c !! k = None -> usable (settings (_helper c)) k ->
  wp (get k now) (got W c k) (fun c' => lru_inv W c' /\ unseen c c') c.
Proof.
  intros Hinv Hk Hus. unfold get. apply lwp_bind, wp_gets. rewrite Hk. apply lwp_bind.
  eapply lwp_mono; [by apply reserve_space_ok | | by intros c' [? []]]. intros [] c1 (Hinv1 & Hs & Hsub & Hcan).
  assert (Hk1 : _map c1 !! k = None).
  { destruct (_map c1 !! k) as [n |] eqn:Hn; [| done]. eapply lookup_weaken in Hn; [| done]. congruence. }
  apply lwp_bind, wp_helper. pose proof (create_ok k _ _ (core_owns _ _ (inv_core _ _ Hinv1)) Hcan
    ltac:(by rewrite (steady_reads _ _ Hs))) as Hcr.
  pose proof (steady_view _ _ Hs) as Hv. pose proof (steady_pins _ _ Hs) as Hp.
  assert (Hvk : view c k = backing (_helper c1) k) by (rewrite <- Hv; unfold view; by rewrite Hk1).
  destruct (create k (_helper c1)) as [v h | h | f]; [| | done].
  - destruct Hcr as (Ho & Hb & Hrd). apply lwp_bind, wp_gets, lwp_bind, lwp_assert; [by apply bool_decide_eq_true |].
    apply lwp_bind, wp_emplace_check.
    apply lwp_bind, wp_set_node, lwp_bind, wp_set_node, lwp_ret. unfold with_map, with_helper. cbn [_map _helper _temporary _persistent _obsolete].
    rewrite insert_insert_eq. rewrite (steady_reads _ _ Hs) in Hrd.
    split.
    + apply (insert_new W _ c1 k v h now); [done.. | |].
      * unfold read_written. destruct (reading (settings (_helper c))); [rewrite Hb; auto | set_solver].
      * intros j Hj. unfold read_written. destruct (reading (settings (_helper c))); set_solver.
    + intros Hr. rewrite Hvk. auto.
    + intros j. unfold view at 1, upd. simpl. case_decide as Hj; [subst; by rewrite lookup_insert_eq |].
      rewrite lookup_insert_ne, <- Hv by done. unfold view. destruct (_map c1 !! j); [done | apply Hb].
    + intros j. rewrite pins_replace. unfold upd. case_decide; [| done]. unfold pins. by rewrite Hk.
  - destruct Hcr as (Ho & Hb). split.
    + apply stalled_inv; [done |]. apply with_helper_core; [apply Hinv1 | done | done].
    + split; intros j; [rewrite <- Hv; unfold view; simpl | rewrite <- Hp; done].
      destruct (_map c1 !! j); [done | apply Hb].
Qed.

(** ** Writing back *)

Record resaved (ks : list Key) (c c' : cache) : Prop := {
  resaved_map j : _map c' !! j = if decide (j ∈ ks) then saved <$> _map c !! j else _map c !! j;
  resaved_queue w : get_q w c' = get_q w c;
  resaved_unseen : unseen c c';
}.

(** The helper has the value of [k]: the node can be marked clean. *)
Lemma mark_saved W c k n h :
  lru_core W c -> _map c !! k = Some n -> need_update n = true -> instantiated_size n = 0 ->
  owns (alive (_map c)) h ->
  (forall j, backing h j = if decide (j = k) then content (value n) else backing (_helper c) j) ->
  let c' := with_map (<[k := saved n]> (_map c)) (with_helper h c) in
  lru_core W c' /\ resaved [k] c c'.
Proof.
  intros Hc Hn Hu Hz Ho Hb c'.
  assert (Hc1 : lru_core W (with_helper h c)).
  { apply with_helper_core; [done.. |]. intros j m Hm Hmu _. rewrite Hb, decide_False; [done |]. congruence. }
  assert (Hkeep : forall w, w <> Obsolete -> tracks (slot_of w) (<[k := saved n]> (_map c)) (get_q w c)).
  { intros w Hw. eapply (tracks_keep _ k); [apply agree_off_insert | rewrite lookup_insert_eq; simpl; rewrite Hn |].
    - by destruct w.
    - destruct w; [apply Hc | apply Hc | done]. }
  split; [| split].
  - unfold c', with_map. eapply (core_replace W W (with_helper h c) k n); [done | done | | simpl; lia | | by intros [] | | done | |
      by apply (Hkeep Temporary) | by apply (Hkeep Persistent)].
    + by eapply owns_same_value.
    + intros _. by apply (core_iter _ _ Hc k n).
    + intros _ _. simpl. by rewrite Hb, decide_True.
    + intros HW. exfalso. by apply (unpinned_written W c k n).
  - intros j. simpl. case_decide as Hj.
    + apply list_elem_of_singleton in Hj as ->. by rewrite lookup_insert_eq, Hn.
    + rewrite lookup_insert_ne; [done |]. intros ->. apply Hj. by apply list_elem_of_singleton.
  - by intros [].
  - split; intros j; unfold view, pins; simpl; (destruct (decide (j = k)) as [-> | Hj];
      [by rewrite lookup_insert_eq, Hn | rewrite lookup_insert_ne by done]); [| done].
    destruct (_map c !! j); [done |]. by rewrite Hb, decide_False.
Qed.

Lemma save_ok W c k n :
  lru_core W c -> _map c !! k = Some n -> need_update n = true -> instantiated_size n = 0 ->
  wp (save k) (fun _ c' => lru_core W c' /\ resaved [k] c c') (fun c' => lru_core W c' /\ stalled c c') c.
Proof.
  intros Hc Hn Hu Hz. unfold save. apply lwp_bind, (wp_node _ n); [done |].
  apply lwp_bind, lwp_assert; [done |]. apply lwp_bind, lwp_assert; [by rewrite Hz |]. apply lwp_bind.
  eapply wp_update; [apply Hc | by apply (alive_elem _ k) | |]; intros h Ho Hb Hr; [| by eapply failed_update].
  apply wp_set_node. by apply (mark_saved W c k n h).
Qed.

Definition savable (c : cache) (k : Key) : Prop :=
  exists n, _map c !! k = Some n /\ need_update n = true /\ instantiated_size n = 0.

Lemma save_each_ok W ks c :
  lru_core W c -> NoDup ks -> (forall k, k ∈ ks -> savable c k) ->
  wp (save_each ks) (fun _ c' => lru_core W c' /\ resaved ks c c') (fun _ => True) c.
Proof.
  revert c. induction ks as [| k ks IH]; intros c Hc Hnd Hks.
  { apply lwp_ret. split; [done |]. split; [done.. | by split]. }
  apply list.NoDup_cons in Hnd as [Hk Hnd]. destruct (Hks k ltac:(left)) as (n & Hn & Hu & Hz).
  simpl. apply lwp_bind. eapply lwp_mono; [by eapply save_ok | | done].
  intros [] c1 [Hc1 [Hm1 Hq1 Hs1]]. eapply lwp_mono; [apply IH; [done.. |] | | done].
  - intros j Hj. destruct (Hks j ltac:(by right)) as (m & Hm & ?). exists m. split; [| done].
    rewrite Hm1, decide_False; [done |]. intros ->%list_elem_of_singleton. done.
  - intros [] c2 [Hc2 [Hm2 Hq2 Hs2]]. split; [done |]. split.
    + intros j. rewrite Hm2, Hm1. destruct (decide (j = k)) as [-> | Hj].
      * rewrite (decide_False (P := k ∈ ks)), (decide_True (P := k ∈ [k])), (decide_True (P := k ∈ k :: ks)); [done | | |]; set_solver.
      * rewrite (decide_False (P := j ∈ [k])) by set_solver. apply decide_ext. set_solver.
    + intros w. by rewrite Hq2.
    + destruct Hs1, Hs2. split; congruence.
Qed.

Lemma obsolete_savable W c k : lru_inv W c -> k ∈ (items (_obsolete c)).*2 -> savable c k.
Proof.
  intros Hinv [[i j] [-> Hin]]%list_elem_of_fmap. apply (inv_obs _ _ Hinv) in Hin. simpl in *.
  destruct (_map c !! j) as [n |] eqn:Hn; [| done]. exists n. split; [done |].
  destruct (core_dirty _ _ (inv_core _ _ Hinv) j n Hn) as [? ?]; [by eexists | done].
Qed.

(** Once every node of [_obsolete] is saved the queue can be cleared. *)
Lemma clear_ok W ks c c1 :
  lru_inv W c -> ks ≡ₚ (items (_obsolete c)).*2 -> lru_core W c1 -> resaved ks c c1 ->
  let c2 := set_q Obsolete (q_clear (_obsolete c1)) c1 in
  lru_inv W c2 /\ unseen c c2 /\ forall k n, _map c2 !! k = Some n -> instantiated_size n = 0 -> need_update n = false.
Proof.
  intros Hinv Hks Hc1 [Hm Hq Hs] c2.
  assert (Hdone : forall k n, _map c1 !! k = Some n -> obsolete_iter n = None /\ (instantiated_size n = 0 -> need_update n = false)).
  { intros k n Hn. rewrite Hm in Hn. case_decide as Hk.
    - destruct (_map c !! k) as [m |]; [| done]. by simplify_eq/=.
    - assert (Ho : obsolete_iter n = None).
      { destruct (obsolete_iter n) as [i |] eqn:Hi; [| done]. destruct Hk. rewrite Hks. apply list_elem_of_fmap.
        exists (i, k). split; [done |]. apply (inv_obs _ _ Hinv). by rewrite Hn. }
      split; [done |]. intros Hz. destruct (need_update n) eqn:Hu; [| done].
      destruct (inv_dirty _ _ Hinv k n Hn Hz Hu) as [i Hi]. congruence. }
  split_and!.
  - split.
    + destruct Hc1. by split.
    + simpl. split_and!; [constructor.. |]. intros i k. split; [by intros ?%not_elem_of_nil |].
      destruct (_map c1 !! k) as [n |] eqn:Hn; [| done]. simpl. destruct (Hdone k n Hn). congruence.
    + simpl. intros k n Hn Hz Hu. destruct (Hdone k n Hn) as [_ Hd]. rewrite Hd in Hu; done.
  - destruct Hs. split; done.
  - simpl. intros k n Hn. by apply (Hdone k n).
Qed.
Lemma save_queue k c : match save k c with Done _ c' => _obsolete c' = _obsolete c | _ => True end.
Proof.
  unfold save, node, set_node, modify, assert_, gets, deref, on_helper, mbind, M_bind. simpl.
  destruct (_map c !! k) as [n |]; simpl; [| done]. destruct (need_update n); simpl; [| done].
  destruct (instantiated_size n =? 0); simpl; [| done]. by destruct (update k (value n) (_helper c)).
Qed.

(** The loop over the queue visits its elements in order. *)
Lemma update_all_loop_eq rest : forall l1 c fuel,
  items (_obsolete c) = l1 ++ rest -> NoDup (items (_obsolete c)).*1 -> (length rest < fuel)%nat ->
  update_all_loop fuel (fst <$> head rest) c = save_each rest.*2 c.
Proof.
  induction rest as [| [i k] rest IH]; intros l1 c [| fuel] Hl Hn Hf; simpl in Hf; try lia; [done |].
  cbn [update_all_loop head fmap option_fmap option_map fst list_fmap snd save_each].
  rewrite !(bind_app (save k)), bind_app. cbn [gets]. rewrite Hl in Hn. rewrite bind_app, Hl, q_find_mid by done.
  cbn [deref]. rewrite bind_app. pose proof (save_queue k c) as Hq. destruct (save k c) as [[] c' | c' | f]; [| done..].
  apply (IH (l1 ++ [(i, k)])); [by rewrite Hq, <- app_assoc | by rewrite Hq, Hl | lia].
Qed.

Definition all_saved (c c' : cache) : Prop :=
  unseen c c' /\ forall k n, _map c' !! k = Some n -> instantiated_size n = 0 -> need_update n = false.

Lemma save_list_ok W ks c (m : run unit) :
  lru_inv W c -> ks ≡ₚ (items (_obsolete c)).*2 -> (forall c, m c = save_each ks c) ->
  wp (m;; modify (fun c => set_q Obsolete (q_clear (_obsolete c)) c))
    (fun _ c' => lru_inv W c' /\ all_saved c c') (fun _ => True) c.
Proof.
  intros Hinv Hks Hm. apply lwp_bind. unfold wp at 1. rewrite Hm.
  change (wp (save_each ks) (fun _ c1 => wp (modify (fun c => set_q Obsolete (q_clear (_obsolete c)) c))
    (fun _ c' => lru_inv W c' /\ all_saved c c') (fun _ => True) c1) (fun _ => True) c).
  eapply lwp_mono; [apply (save_each_ok W); [apply Hinv | | ] | | done].
  - rewrite Hks. eapply tracks_keys, (inv_tracks W c Obsolete Hinv).
  - intros k Hk. rewrite Hks in Hk. by apply (obsolete_savable W).
  - intros [] c1 [Hc1 Hs]. apply lwp_modify. destruct (clear_ok W ks c c1) as (? & ? & ?); [done.. |].
    split; [done |]. by split.
Qed.

Lemma update_all_ok W c : lru_inv W c ->
  wp update_all (fun _ c' => lru_inv W c' /\ all_saved c c') (fun _ => True) c.
Proof.
  intros Hinv. unfold update_all. apply lwp_bind, wp_gets. unfold wp. rewrite bind_app.
  rewrite q_begin_head, (update_all_loop_eq (items (_obsolete c)) [] c); [| done | apply (inv_obs _ _ Hinv) | lia].
  pose proof (save_list_ok W (items (_obsolete c)).*2 c (save_each (items (_obsolete c)).*2) Hinv) as Hs.
  unfold wp in Hs. rewrite bind_app in Hs. by apply Hs.
Qed.

Lemma update_sorted_ok W c cmp : lru_inv W c ->
  wp (update_all_with_order cmp) (fun _ c' => lru_inv W c' /\ all_saved c c') (fun _ => True) c.
Proof.
  intros Hinv. unfold update_all_with_order. apply lwp_bind, wp_gets.
  apply (save_list_ok W (merge_sort (no_later cmp) (items (_obsolete c)).*2)); [done | apply merge_sort_Permutation | done].
Qed.

Lemma update_one_ok W c : lru_inv W c ->
  wp update_one (fun _ c' => lru_inv W c' /\ unseen c c') (fun c' => lru_inv W c' /\ unseen c c') c.
Proof.
  intros Hinv. unfold update_one. apply lwp_bind, wp_gets.
  destruct (items (_obsolete c)) as [| [i k] rest] eqn:Hl; [by apply lwp_ret |].
  rewrite zlen_cons. pose proof (zlen_nonneg rest). rewrite (proj2 (Z.ltb_lt _ _)) by lia. cbn [negb].
  pose proof (inv_tracks W c Obsolete Hinv) as Ht. simpl in Ht.
  destruct (obsolete_savable W c k Hinv) as (n & Hn & Hu & Hz); [rewrite Hl; left |].
  assert (Ho : obsolete_iter n = Some i).
  { destruct Ht as (_ & _ & Hi). destruct (Hi i k) as [Hi' _]. rewrite Hn in Hi'. apply Hi'. rewrite Hl. left. }
  apply lwp_bind, (wp_deref _ i); [unfold q_begin; by rewrite Hl |].
  apply lwp_bind, (wp_deref _ (k, fst <$> head rest)).
  { apply (q_find_mid i k []). destruct Ht as (Hnd & _). by rewrite Hl in Hnd. }
  apply lwp_bind, (wp_node _ n); [done |]. apply lwp_bind, lwp_assert; [done |].
  apply lwp_bind, lwp_assert; [by rewrite Hz |]. apply lwp_bind, lwp_assert; [by apply bool_decide_eq_true |].
  apply lwp_bind. eapply wp_update; [apply Hinv | by apply (alive_elem _ k) | |]; intros h Hh Hb Hr.
  2: { destruct (failed_update W c h k n) as [Hc' Hs]; [by try apply Hinv.. |].
       split; [by apply stalled_inv | by apply stalled_unseen]. }
  destruct (mark_saved W c k n h) as [Hc' [Hm Hq Hun]]; [by try apply Hinv.. |].
  destruct (tracks_erase obsolete_iter k (_map c) (<[k := saved n]> (_map c)) (_obsolete c) (Some i)) as (qo & Eo & Hqo);
    [apply agree_off_insert | by rewrite Hn | by rewrite lookup_insert_eq | done |].
  apply lwp_bind, wp_set_node, lwp_bind, (wp_erase_q _ _ qo); [exact Eo |]. apply wp_set_node.
  unfold with_map, with_helper in *. cbn [_map _helper _persistent _temporary _obsolete set_q] in *.
  rewrite insert_insert_eq. split; [split |].
  - destruct Hc'. by split.
  - done.
  - simpl. intros j m [[<- <-] | [Hj Hjm]]%lookup_insert_Some Hmz Hmu; [done | by eapply inv_dirty].
  - destruct Hun. by split.
Qed.
(** ** [remove] and [erase] *)

(** [remove] is the eviction of the key. *)
Lemma remove_evict W c k n :
  lru_inv W c -> _map c !! k = Some n -> instantiated_size n = 0 -> remove k c = evict k c.
Proof.
  intros Hinv Hn Hz. destruct (drop_prepare W c k n Hinv Hn Hz) as (_ & _ & qo & _ & _ & Eo & _).
  destruct (core_iter _ _ (inv_core _ _ Hinv) k n Hn Hz) as [i Hi].
  assert (Hob : if need_update n then is_Some (obsolete_iter n) else obsolete_iter n = None).
  { destruct (need_update n) eqn:Hu; [by eapply inv_dirty |]. by eapply clean_no_iter. }
  rewrite (evict_eq k n c Hn). unfold remove. rewrite bind_app. cbn [gets]. rewrite Hn.
  rewrite bind_app. unfold assert_ at 1. rewrite Hz. cbn [Z.eqb]. destruct c as [h m p t o]; simpl in *.
  unfold erase_q, on_helper, when, tell, modify, gets, deref, assert_, home, mbind, M_bind, mret, M_ret. simpl.
  destruct (need_update n); simpl.
  - destruct Hob as [o' Ho']. rewrite Ho' in *. destruct (update k (value n) h) as [[] h1 | h1 | f]; simpl; [| done..].
    simpl in Eo. rewrite Eo. simpl. rewrite Hi. destruct has_release_callable; simpl; rewrite Eo; done.
  - rewrite Hob, Hi in *. destruct has_release_callable; simpl; done.
Qed.

Lemma remove_ok W c k : lru_inv W c -> pins c k = 0 ->
  wp (remove k) (fun _ c' => lru_inv W c' /\ unseen c c') (fun c' => lru_inv W c' /\ unseen c c') c.
Proof.
  intros Hinv Hp. destruct (_map c !! k) as [n |] eqn:Hn.
  - rewrite (pins_node c k n Hn) in Hp. unfold wp. rewrite (remove_evict W c k n) by done.
    pose proof (evict_run W c k n Hinv Hn Hp) as He. destruct (evict k c) as [[] c' | c' | f]; [| | done].
    + destruct He as [Hc' He]. split; [done |].
      by destruct (evicted_steady W c c' k n (inv_core _ _ Hinv) Hn Hp He).
    + destruct He as [Hc' He]. split; [done | by apply stalled_unseen].
  - unfold remove. apply lwp_bind, wp_gets. rewrite Hn. by split.
Qed.

Lemma erase_absent W c k h :
  lru_inv W c -> _map c !! k = None -> owns (alive (_map c)) h ->
  (forall j, j <> k -> backing h j = backing (_helper c) j) -> lru_inv W (with_helper h c).
Proof.
  intros Hinv Hk Ho Hb. apply stalled_inv; [done |]. apply with_helper_core; [apply Hinv | done |].
  intros j n Hn _ _. apply Hb. intros ->. congruence.
Qed.

Record forgotten (k : Key) (c c' : cache) : Prop := {
  forgotten_view j : view c' j = upd k (backing (_helper c') k) (view c) j;
  forgotten_pins j : pins c' j = pins c j;
}.

(** A notice to the helper about [k], if it takes notices. *)
Lemma wp_notice (b : bool) (f : St -> St) k vs (Q : unit -> cache -> Prop) E c :
  owns vs (_helper c) ->
  (forall h, owns vs h -> owns vs (f h) /\ forall j, j <> k -> backing (f h) j = backing h j) ->
  (forall h, owns vs h -> (forall j, j <> k -> backing h j = backing (_helper c) j) -> Q tt (with_helper h c)) ->
  wp (when b (tell f)) Q E c.
Proof.
  intros Ho Hf HQ. apply lwp_when; intros _.
  - apply wp_tell, HQ; by apply Hf.
  - specialize (HQ (_helper c) Ho (fun _ _ => eq_refl)). by destruct c.
Qed.

Lemma erase_present W c k n h :
  lru_inv W c -> _map c !! k = Some n -> instantiated_size n = 0 -> owns (alive (_map c)) h ->
  (forall j, j <> k -> backing h j = backing (_helper c) j) ->
  wp (assert_ (instantiated_size n =? 0);;
      when (need_update n) (assert_ (bool_decide (is_Some (obsolete_iter n)));; erase_q Obsolete (obsolete_iter n));;
      assert_ (bool_decide (is_Some (iter n)));;
      erase_q (if is_persistent n then Persistent else Temporary) (iter n);;
      map_erase k)
    (fun _ c' => lru_inv W c' /\ forgotten k c c') (fun _ => False) (with_helper h c).
Proof.
  intros Hinv Hn Hz Ho Hb.
  destruct (drop_prepare W c k n Hinv Hn Hz) as (qt & qp & qo & Et & Ep & Eo & Hgone & Hdrop).
  destruct (slot_home k n c W (inv_core _ _ Hinv) Hn Hz) as [Hts Hps]. rewrite Hts in Et. rewrite Hps in Ep.
  destruct (core_iter _ _ (inv_core _ _ Hinv) k n Hn Hz) as [i Hi].
  apply lwp_bind, lwp_assert; [by rewrite Hz |]. apply lwp_bind.
  eapply (lwp_mono _ (fun _ c1 => c1 = set_q Obsolete qo (with_helper h c)) _ (fun _ => False)); [| | done].
  { apply lwp_when; intros Hu.
    - apply lwp_bind, lwp_assert; [by apply bool_decide_eq_true; eapply inv_dirty |]. by apply (wp_erase_q _ _ qo).
    - rewrite (clean_no_iter W c k n Hinv Hn Hu) in Eo. simpl in Eo. injection Eo as <-. by destruct c. }
  intros [] c1 ->. apply lwp_bind, lwp_assert; [by rewrite Hi |].
  apply lwp_bind, (wp_erase_q _ _ (if is_persistent n then qp else qt)); [by destruct (is_persistent n) |].
  apply (wp_map_erase _ n); [| by destruct (is_persistent n).. |].
  { unfold kept_iters. destruct (is_persistent n); simpl in *; simplify_eq; done. }
  intros h3 Hh3 Hb3 _.
  replace (with_helper h3 _) with (mkCache h3 (delete k (_map c)) qp qt qo).
  2: { destruct (is_persistent n); unfold with_helper, with_map; simpl in *; congruence. }
  assert (Hb' : forall j, j <> k -> backing h3 j = backing (_helper c) j).
  { intros j Hj. rewrite Hb3. destruct (is_persistent n); simpl; by apply Hb. }
  split; [apply Hdrop; [by destruct (is_persistent n) | done] |].
  split; intros j; unfold view, pins, upd; simpl; destruct (decide (j = k)) as [-> | Hj];
    rewrite ?lookup_delete_eq, ?lookup_delete_ne by done; [done | | by rewrite Hn | done].
  destruct (_map c !! j); [done | by apply Hb'].
Qed.

Lemma lru_erase_ok W c k : lru_inv W c -> pins c k = 0 ->
  wp (erase k) (fun _ c' => lru_inv W c' /\ forgotten k c c') (fun _ => False) c.
Proof.
  intros Hinv Hp. pose proof (core_owns _ _ (inv_core _ _ Hinv)) as Ho.
  unfold erase. apply lwp_bind, wp_gets. destruct (_map c !! k) as [n |] eqn:Hn.
  - rewrite (pins_node c k n Hn) in Hp. apply lwp_bind.
    eapply (wp_notice _ _ k); [done | intros h Hh; by apply release_key_ok |]. intros h1 Ho1 Hb1.
    apply lwp_bind. eapply (wp_notice _ _ k); [exact Ho1 | intros h Hh; by apply erase_notice_ok |].
    intros h2 Ho2 Hb2. apply (erase_present W c k n h2); [done.. |].
    intros j Hj. by rewrite Hb2, Hb1.
  - eapply (wp_notice _ _ k); [done | intros h Hh; by apply erase_notice_ok |]. intros h Hh Hb.
    split; [by apply (erase_absent W c k) |]. split; [| done]. intros j. unfold view, upd. simpl.
    case_decide as Hj; [by subst; rewrite Hn |]. destruct (_map c !! j); [done | by apply Hb].
Qed.

(** ** Sessions *)

Lemma new_refines h : owns [] h -> refines (cache_new h) (mkClient (backing h) (fun _ => 0) ∅).
Proof.
  intros Ho. assert (Hempty : forall slot : node_of -> option Z, tracks slot (∅ : gmap Key node_of) empty_queue).
  { intros slot. split_and!; [constructor.. |]. intros i k. simpl. rewrite lookup_empty. simpl.
    split; [by intros ?%not_elem_of_nil | done]. }
  assert (Hno : forall k (n : node_of), (∅ : gmap Key node_of) !! k = Some n -> False) by (intros k n; by rewrite lookup_empty).
  split; [split; [split |..] |..]; simpl; try done; try (by intros k n ?%Hno); try apply Hempty.
Qed.

Lemma set_reads_inv W c r : lru_inv W c ->
  lru_inv W (with_helper (set_reads r (_helper c)) c) /\ unseen c (with_helper (set_reads r (_helper c)) c) /\
  reading (settings (set_reads r (_helper c))) = r.
Proof.
  intros Hinv. destruct (set_reads_ok r _ _ (core_owns _ _ (inv_core _ _ Hinv))) as (Ho & Hb).
  split_and!; [| | apply set_reads_reading].
  - apply stalled_inv; [done |]. apply with_helper_core; [apply Hinv | done | by intros].
  - split; [| done]. intros j. unfold view. simpl. by destruct (_map c !! j).
Qed.

Lemma refines_unseen c c' a : refines c a -> lru_inv (unsaved a) c' -> unseen c c' -> refines c' a.
Proof. intros [_ Hv Hp] Hinv [Hv' Hp']. split; [done | |]; intros k; congruence. Qed.

Lemma upd_ext {A} k (x y : A) f g j : x = y -> (forall i, f i = g i) -> upd k x f j = upd k y g j.
Proof. intros -> Hfg. unfold upd. by case_decide. Qed.

Lemma get_op_ok c a r k now :
  refines c a -> op_ok a (OGet r k now) -> usable (settings (_helper c)) k ->
  wp (exec (OGet r k now)) (fun ans c' => answer_ok a (OGet r k now) ans /\ refines c' (next a (OGet r k now) ans))
    (fun c' => refines c' a) c.
Proof.
  intros Hr Hok Hus. pose proof Hr as [Hinv Hv Hp]. simpl in Hok. destruct (set_reads_inv _ c r Hinv) as (Hinv1 & [Hv1 Hp1] & Hrd).
  set (c1 := with_helper (set_reads r (_helper c)) c) in *.
  assert (Hgot : forall v c', got (unsaved a) c1 k v c' ->
    answer_ok a (OGet r k now) (Some (content v)) /\ refines c' (next a (OGet r k now) (Some (content v)))).
  { intros v c' [Hi' Hread Hview Hpins]. unfold c1 in Hi', Hread. simpl in Hi', Hread. rewrite Hrd in Hi', Hread. split.
    - destruct r; simpl; [by rewrite Hread, Hv1, Hv | by eexists].
    - split; [exact Hi' | |]; intros j; simpl.
      + rewrite Hview. apply upd_ext; [done |]. intros i. congruence.
      + rewrite Hpins. apply upd_ext; [congruence |]. intros i. congruence. }
  simpl. apply lwp_bind, wp_tell, lwp_bind. fold c1. destruct (_map c1 !! k) as [n |] eqn:Hn.
  - eapply lwp_mono; [apply (get_hit_ok (unsaved a) c1 k n now); [done.. |] | | done].
    + rewrite <- (pins_node c1 k n Hn), Hp1, Hp. done.
    + intros v c' Hg. apply lwp_ret. by apply Hgot.
  - eapply lwp_mono; [apply (get_miss_ok (unsaved a) c1 k now); [done | done | by apply set_reads_usable] | |].
    + intros v c' Hg. apply lwp_ret. by apply Hgot.
    + intros c' [Hi' [Hv' Hp']]. apply (refines_unseen c); [done.. |]. split; intros j; congruence.
Qed.

Lemma held_node (c : cache) k : 0 < pins c k -> exists n, _map c !! k = Some n /\ pins c k = instantiated_size n.
Proof. unfold pins. destruct (_map c !! k) as [n |]; [by exists n | lia]. Qed.

Lemma unseen_op c a (m : run unit) :
  refines c a -> wp m (fun _ c' => lru_inv (unsaved a) c' /\ unseen c c') (fun c' => lru_inv (unsaved a) c' /\ unseen c c') c ->
  wp (m;; mret (@None Content)) (fun ans c' => ans = None /\ refines c' a) (fun c' => refines c' a) c.
Proof.
  intros Hr Hm. apply lwp_bind. eapply lwp_mono; [exact Hm | |].
  - intros [] c' [Hi Hu]. apply lwp_ret. split; [done | by eapply refines_unseen].
  - intros c' [Hi Hu]. by eapply refines_unseen.
Qed.

Lemma saved_op c a (m : run unit) :
  refines c a -> wp m (fun _ c' => lru_inv (unsaved a) c' /\ all_saved c c') (fun _ => True) c ->
  wp (m;; mret (@None Content)) (fun ans c' => ans = None /\ refines c' a) (fun _ => True) c.
Proof.
  intros Hr Hm. apply lwp_bind. eapply lwp_mono; [exact Hm | | done].
  intros [] c' [Hi [Hu _]]. apply lwp_ret. split; [done | by eapply refines_unseen].
Qed.

Lemma step_ok c a o : refines c a -> op_ok a o -> ready c o ->
  wp (exec o) (fun ans c' => answer_ok a o ans /\ refines c' (next a o ans))
    (fun c' => may_throw o = true /\ (breaks o = false -> refines c' a)) c.
Proof.
  intros Hr Hok Hrd. pose proof Hr as [Hinv Hv Hp]. destruct o; simpl in Hok.
  - eapply lwp_mono; [by apply get_op_ok | done | done].
  - destruct Hok as [Hk HW]. rewrite <- Hp in Hk, HW. destruct (held_node c k Hk) as (n & Hn & Hpn). rewrite Hpn in *.
    simpl. apply lwp_bind. eapply lwp_mono; [by apply (lru_put_ok (unsaved a) c k n) | | done].
    intros [] c' [Hi [Hv' Hp']]. apply lwp_ret. split; [done |]. split; [exact Hi | |]; intros j; simpl.
    + by rewrite Hv', Hv.
    + rewrite Hp'. apply upd_ext; [rewrite <- Hp, Hpn |]; done.
  - rewrite <- Hp in Hok. destruct (held_node c k Hok) as (n & Hn & Hpn). rewrite Hpn in *.
    simpl. apply lwp_bind. eapply lwp_mono; [by apply (write_ok (unsaved a) c k n) | | done].
    intros [] c' (Hi & Hv' & Hp'). apply lwp_ret. split; [done |]. split; [exact Hi | |]; intros j; simpl.
    + rewrite Hv'. by apply upd_ext.
    + by rewrite Hp', Hp.
  - eapply lwp_mono; [apply unseen_op; [done | by apply update_one_ok] | done | done].
  - eapply lwp_mono; [apply saved_op; [done | by apply update_all_ok] | done | done].
  - eapply lwp_mono; [apply saved_op; [done | by apply update_sorted_ok] | done | done].
  - eapply lwp_mono; [apply unseen_op; [done | apply remove_ok; [done | by rewrite Hp]] | done | done].
  - simpl. apply lwp_bind. eapply lwp_mono; [apply (lru_erase_ok (unsaved a) c k); [done | by rewrite Hp] | | done].
    intros [] c' [Hi [Hv' Hp']]. apply lwp_bind, wp_gets, lwp_ret. split; [by eexists |].
    split; [exact Hi | |]; intros j; simpl; [| by rewrite Hp', Hp]. rewrite Hv'. by apply upd_ext.
  - simpl. apply lwp_bind, wp_tell, lwp_ret. split; [done |].
    destruct (adjust_ok t _ _ (core_owns _ _ (inv_core _ _ Hinv)) Hrd) as [Ho Hb].
    eapply refines_unseen; [done | |].
    + apply stalled_inv; [done |]. apply with_helper_core; [apply Hinv | done | by intros].
    + split; [| done]. intros j. unfold view. simpl. by destruct (_map c !! j).
Qed.

Lemma session_refines c a : session c a -> refines c a.
Proof.
  induction 1 as [h Ho | c a o ans c' _ IH Hok Hrd He | c a o c' _ IH Hok Hrd Hb He].
  - by apply new_refines.
  - pose proof (step_ok c a o IH Hok Hrd) as Hs. unfold wp in Hs. rewrite He in Hs. apply Hs.
  - pose proof (step_ok c a o IH Hok Hrd) as Hs. unfold wp in Hs. rewrite He in Hs. by apply Hs.
Qed.
(** ** The destructor *)

Record flushed (ks : list Key) (c c' : cache) : Prop := {
  flushed_map : _map c' = _map c;
  flushed_owns : owns (alive (_map c)) (_helper c');
  flushed_backing j : backing (_helper c') j =
    if decide (j ∈ ks) then view c j else backing (_helper c) j;
}.

Lemma close_nodes_ok W ks c :
  lru_core W c -> NoDup ks -> (forall k, k ∈ ks -> idle c k) ->
  wp (close_nodes ks) (fun _ c' => flushed ks c c') (fun _ => True) c.
Proof.
  intros Hc. induction ks as [| k ks IH] using rev_ind; intros Hnd Hks.
  { apply lwp_ret. split; [done | apply Hc |]. intros j. by rewrite decide_False by apply not_elem_of_nil. }
  apply list.NoDup_app in Hnd as (Hnd & Hk & _).
  assert (Happ : forall ks1 c, close_nodes (ks1 ++ [k]) c = (close_nodes ks1;; close_nodes [k]) c).
  { clear. intros ks1. induction ks1 as [| j ks1 IH]; intros c; [by rewrite bind_app |].
    rewrite bind_app. cbn [app close_nodes]. rewrite !(bind_app (node j)). destruct (node j c) as [n c1 | |]; [| done..].
    destruct (instantiated_size n =? 0); cbn [negb]; [| done]. rewrite !bind_app.
    destruct (when _ _ c1) as [[] c2 | |]; [| done..]. rewrite !bind_app.
    destruct (when _ _ c2) as [[] c3 | |]; [| done..]. by rewrite IH, bind_app. }
  unfold wp. rewrite Happ. change (wp (close_nodes ks;; close_nodes [k]) (fun _ c' => flushed (ks ++ [k]) c c') (fun _ => True) c).
  apply lwp_bind. eapply lwp_mono; [apply IH; [done | set_solver] | | done]. intros [] c1 [Hm1 Ho1 Hb1].
  destruct (Hks k ltac:(set_solver)) as (n & Hn & Hz). cbn [close_nodes].
  apply lwp_bind, (wp_node _ n); [by rewrite Hm1 |]. rewrite Hz. cbn [Z.eqb negb].
  assert (Hkv : view c k = content (value n)) by (unfold view; by rewrite Hn).
  assert (Hrest : forall h, owns (alive (_map c)) h ->
    (forall j, backing h j = if decide (j = k) then view c k else backing (_helper c1) j) ->
    wp (when has_release_callable (tell (release k (value n)));; mret tt)
      (fun _ c' => flushed (ks ++ [k]) c c') (fun _ => True) (with_helper h c1)).
  { intros h Hh Hb. apply lwp_bind. eapply wp_release; [exact Hh |]. intros h2 Hh2 Hb2 _. apply lwp_ret.
    split; [done | done |]. intros j. simpl. rewrite Hb2. simpl. rewrite Hb, Hb1.
    destruct (decide (j = k)) as [-> |]; [by rewrite decide_True by set_solver |]. apply decide_ext. set_solver. }
  apply lwp_bind, lwp_when; intros Hu.
  - eapply wp_update; [exact Ho1 | by apply (alive_elem _ k) | | done]. intros h Hh Hb _. apply Hrest; [done |].
    intros j. by rewrite Hb, Hkv.
  - specialize (Hrest (_helper c1) Ho1). replace (with_helper (_helper c1) c1) with c1 in Hrest by (by destruct c1).
    apply Hrest. intros j. case_decide as Hj; [subst j | done]. rewrite Hb1, decide_False, Hkv by (intros Hin; by apply (Hk k Hin); left).
    symmetry. eapply core_clean; [done.. |]. by eapply unpinned_written.
Qed.

Lemma destroy_nodes_ok ks c :
  NoDup ks -> (forall k, k ∈ ks -> is_Some (_map c !! k)) -> owns (alive (_map c)) (_helper c) ->
  wp (destroy_nodes ks) (fun _ c' => forall j, backing (_helper c') j = backing (_helper c) j) (fun _ => False) c.
Proof.
  revert c. induction ks as [| k ks IH]; intros c Hnd Hks Ho; [done |].
  apply list.NoDup_cons in Hnd as [Hk Hnd]. destruct (Hks k ltac:(left)) as [n Hn].
  simpl. apply lwp_bind, (wp_map_delete _ n); [done.. |]. intros h Hh Hb _.
  eapply lwp_mono; [apply IH; [done | | done] | | done].
  - intros j Hj. simpl. rewrite lookup_delete_ne by (by intros ->). apply Hks. by right.
  - simpl. intros _ c' Hb'. intros j. by rewrite Hb'.
Qed.

(** ** Properties *)

(** C4. In every session, every call that keeps the client's side of the contract, as far as the
    settings of the helper allow it, returns or throws and never fails an assertion; no queue is
    ever left with the map iterator of a node that was erased, and no iterator of an erased queue
    node is followed; a [get] that reads answers what was last written to the key, whatever was
    evicted or written back in between, and afterwards the client sees the store the call
    describes.  The map is one whose iterators outlive a rehash, as libstdc++'s do; where they do
    not, which the standard allows, the 14th key leaves invalid iterators ([rehash_faults]). *)
Theorem cache_session_safe c a o : session c a -> op_ok a o -> ready c o ->
  match exec o c with
  | Done ans c' => answer_ok a o ans /\ forall k, view c' k = store (next a o ans) k
  | Threw c' => may_throw o = true /\ (breaks o = false -> forall k, view c' k = store a k)
  | Stuck _ => False
  end.
Proof.
  intros Hs Hok Hrd. pose proof (step_ok c a o (session_refines c a Hs) Hok Hrd) as Hstep. unfold wp in Hstep.
  destruct (exec o c) as [ans c' | c' | f]; [| | done].
  - destruct Hstep as [? Hr]. split; [done | apply Hr].
  - destruct Hstep as [? Hr]. split; [done |]. intros Hb. apply Hr, Hb.
Qed.

(** C18. In every session [reserve_space] does exactly what the reference does: it evicts one
    node after the other, clean temporary ones, then dirty temporary ones, then persistent
    ones, each group from the one released longest ago, until the helper can create the value, and
    throws when the list is used up; a node that is held is never on the list. *)
Theorem cache_eviction_order c a key : session c a ->
  reserve_space key c = reserve_spec key c /\ forall k, k ∈ victims c -> held a k = 0.
Proof.
  intros Hs. pose proof (session_refines c a Hs) as [Hinv Hv Hp]. split; [by apply (reserve_space_eq (unsaved a)) |].
  intros k Hk. destruct (victims_idle _ c k Hinv Hk) as (n & Hn & Hz). rewrite <- Hp. by rewrite (pins_node c k n).
Qed.

(** C19. When [update_all] returns, the helper has the last value of every key that is not held;
    when the cache is destroyed while nothing is held, it has the last value of every key. *)
Theorem cache_nothing_lost c a ks : session c a -> ks ≡ₚ (map_to_list (_map c)).*1 ->
  match update_all c with
  | Done _ c' => forall k, held a k = 0 -> backing (_helper c') k = store a k
  | Threw _ => True | Stuck _ => False
  end /\
  ((forall k, held a k = 0) -> match cache_destroy ks c with
  | Done _ c' => forall k, backing (_helper c') k = store a k | Threw _ => True | Stuck _ => False
  end).
Proof.
  intros Hs Hks. pose proof (session_refines c a Hs) as [Hinv Hv Hp]. split.
  - pose proof (update_all_ok _ c Hinv) as Hup. unfold wp in Hup. destruct (update_all c) as [[] c' | c' | f]; [| done..].
    destruct Hup as (Hinv' & [Hv' Hp'] & Hclean). intros k Hheld. rewrite <- Hv, <- Hv'. unfold view.
    destruct (_map c' !! k) as [n |] eqn:Hn; [| done].
    assert (Hz : instantiated_size n = 0) by (rewrite <- (pins_node c' k n Hn); congruence).
    symmetry. apply (core_clean _ _ (inv_core _ _ Hinv') k n Hn); [eauto |].
    intros HW. pose proof (core_written _ _ (inv_core _ _ Hinv') k HW). rewrite (pins_node c' k n Hn) in *. lia.
  - intros Hheld. assert (Hnd : NoDup ks) by (rewrite Hks; apply NoDup_fst_map_to_list).
    assert (Hin : forall k, k ∈ ks <-> is_Some (_map c !! k)).
    { intros k. rewrite Hks, list_elem_of_fmap. split.
      - intros [[j n] [-> Hj%elem_of_map_to_list]]. by exists n.
      - intros [n Hn]. exists (k, n). split; [done | by apply elem_of_map_to_list]. }
    change (wp (cache_destroy ks) (fun _ c' => forall k, backing (_helper c') k = store a k) (fun _ => True) c).
    unfold cache_destroy. apply lwp_bind. eapply lwp_mono; [apply (close_nodes_ok (unsaved a)); [apply Hinv | done |] | | done].
    { intros k [n Hn]%Hin. exists n. split; [done |]. by rewrite <- (pins_node c k n Hn), Hp. }
    intros [] c1 [Hm1 Ho1 Hb1]. eapply lwp_mono; [apply destroy_nodes_ok; [done | | by rewrite Hm1] | | done].
    + intros k Hk. rewrite Hm1. by apply Hin.
    + simpl. intros _ c' Hb' k. rewrite Hb', Hb1, <- Hv. case_decide as Hk; [done |]. unfold view.
      destruct (_map c !! k) eqn:Hn; [| done]. destruct Hk. by apply Hin.
Qed.
End Session.

(** ** A helper to evaluate the cache with

    A disk of integers and room for [slots] values; [broken] is a key whose update throws. *)

Record disk := mkDisk { cells : gmap Z Z; slots : Z; used : Z; from_file : bool; broken : option Z }.

#[export] Instance disk_helper : CacheHelper disk Z Z := {|
  emplace_invalidates _ := false;
  can_create k h := used h <? slots h;
  create k h := Done (if from_file h then default 0 (cells h !! k) else 0)
                  (mkDisk (cells h) (slots h) (used h + 1) (from_file h) (broken h));
  update k v h := if decide (broken h = Some k) then Threw h
                  else Done tt (mkDisk (<[k := v]> (cells h)) (slots h) (used h) (from_file h) (broken h));
  has_release_callable := false;
  release k v h := h;
  release_key k h := h;
  erase_notice k h := mkDisk (delete k (cells h)) (slots h) (used h) (from_file h) (broken h);
  destroy v h := Done tt (mkDisk (cells h) (slots h) (used h - 1) (from_file h) (broken h));
  set_reads b h := mkDisk (cells h) (slots h) (used h) b (broken h);
  adjustment := Z;
  adjust room h := mkDisk (cells h) room (used h) (from_file h) (broken h) |}.

#[export] Instance disk_laws : HelperLaws disk Z Z Z.
Proof.
  refine {| content v := v; poke x v := x; backing h k := default 0 (cells h !! k);
            settings := from_file; reading b := b; usable _ _ := True; adjustable _ _ := True;
            owns vs h := used h = zlen vs |}; simpl; try done.
  - intros vs vs' h Hp ->. unfold zlen. by rewrite (Permutation_length Hp).
  - intros k vs h Hu _ _. split_and!; [rewrite zlen_cons; lia | done | by intros ->].
  - intros k v vs h Hu _. case_decide; split; try done. intros j. simpl.
    case_decide as Hj; [subst; by rewrite lookup_insert_eq | by rewrite lookup_insert_ne].
  - intros k v vs h. rewrite zlen_cons. intros Hu. split; [lia | done].
  - intros k vs h Hu. split; [done |]. intros j Hj. by rewrite lookup_delete_ne.
  - intros k v h. by case_decide.
Defined.

Definition demo_disk (room : Z) (bad : option Z) : disk := mkDisk {[1 := 10; 2 := 20; 3 := 30]} room 0 true bad.

(** What the client of this helper sees. *)
Definition disk_client : Type := client (Key := Z) (Content := Z).

#[export] Instance op_ok_dec (a : disk_client) o : Decision (op_ok a o).
Proof. destruct o; simpl; apply _. Defined.

(** Play the calls of a client as long as it keeps its side of the contract. *)
Fixpoint play (ops : list (lru_op (Key := Z) (Content := Z))) (c : Cache disk Z Z) (a : disk_client)
  : option (Cache disk Z Z * disk_client) :=
  match ops with
  | [] => Some (c, a)
  | o :: ops =>
      if decide (op_ok a o) then
        match exec o c with Done ans c' => play ops c' (next a o ans) | _ => None end
      else None
  end.

Lemma play_session ops : forall c a p, session c a -> play ops c a = Some p -> session p.1 p.2.
Proof.
  induction ops as [| o ops IH]; intros c a p Hs Hp; simpl in Hp; [by injection Hp as <- |].
  case_decide as Hok; [| done]. destruct (exec o c) as [ans c' | |] eqn:He; [| done..].
  eapply IH; [| exact Hp]. eapply session_step; [done.. | by destruct o | done].
Qed.

Definition start (h : disk) : Cache disk Z Z * disk_client := (cache_new h, mkClient (backing h) (fun _ => 0) ∅).

Lemma start_session h : used h = 0 -> session (start h).1 (start h).2.
Proof. intros Hu. apply session_start. exact Hu. Qed.

(** Two slots: reading the third key evicts one of the first two, which were written to. *)
Definition demo_ops : list lru_op :=
  [OGet true 1 0; OWrite 1 11; OPut 1 true 5; OGet true 2 6; OWrite 2 22; OPut 2 true 7].

Definition demo_state (bad : option Z) : Cache disk Z Z * disk_client :=
  default (start (demo_disk 2 bad)) (play demo_ops (start (demo_disk 2 bad)).1 (start (demo_disk 2 bad)).2).

Lemma demo_session bad : session (demo_state bad).1 (demo_state bad).2.
Proof.
  unfold demo_state. destruct (play _ _ _) as [p |] eqn:Hp; simpl; [| by apply start_session].
  eapply play_session; [| exact Hp]. by apply start_session.
Qed.

Lemma cache_session_safe_witness :
  match exec (OGet true 3 8) (demo_state None).1 with
  | Done ans c' => ans = Some 30 /\ view c' 1 = 11 | _ => False
  end.
Proof.
  pose proof (cache_session_safe _ _ (OGet true 3 8) (demo_session None)
    ltac:(apply (bool_decide_unpack _); vm_compute; exact I) I) as Hsafe.
  destruct (exec (OGet true 3 8) (demo_state None).1) as [ans c' | c' | f] eqn:He.
  - destruct Hsafe as [Ha Hv]. rewrite Ha, Hv. split; vm_compute; reflexivity.
  - exfalso. vm_compute in He. discriminate He.
  - exact Hsafe.
Defined.

Lemma cache_eviction_order_witness :
  reserve_space 3 (demo_state None).1 = reserve_spec 3 (demo_state None).1 /\
  victims (demo_state None).1 = [1; 2].
Proof.
  split; [| vm_compute; reflexivity].
  apply (cache_eviction_order _ _ 3 (demo_session None)).
Defined.

Lemma cache_nothing_lost_witness :
  match cache_destroy [2; 1] (demo_state None).1 with
  | Done _ c' => backing (_helper c') 1 = 11 | _ => False
  end.
Proof.
  assert (Hheld : forall k, held (demo_state None).2 k = 0).
  { intros k. vm_compute. repeat case_match; done. }
  destruct (cache_nothing_lost _ _ [2; 1] (demo_session None)
    ltac:(apply (bool_decide_unpack _); vm_compute; exact I)) as [_ Hd]. specialize (Hd Hheld).
  destruct (cache_destroy [2; 1] (demo_state None).1) as [u c' | c' | f] eqn:He.
  - rewrite Hd. vm_compute. reflexivity.
  - exfalso. vm_compute in He. discriminate He.
  - exact Hd.
Defined.

(** When the write-back of a key throws inside [update_all], the nodes saved before it are
    marked clean but stay in [_obsolete]; the next [update_all] fails its assertion. *)
Example update_all_not_exception_safe :
  match update_all (demo_state (Some 2)).1 with
  | Threw c => update_all c = Stuck AssertFailed
  | _ => False
  end.
Proof. vm_compute. reflexivity. Qed.

(** With a map whose iterators a rehash makes invalid (as the standard allows, here at 13
    elements, where libstdc++ gets more buckets) the queues are left with invalid iterators. *)
Definition rehashing_helper : CacheHelper disk Z Z := {|
  emplace_invalidates n := n =? 13;
  can_create := can_create (CacheHelper := disk_helper); create := create (CacheHelper := disk_helper);
  update := update (CacheHelper := disk_helper); has_release_callable := false;
  release := release (CacheHelper := disk_helper); release_key := release_key (CacheHelper := disk_helper);
  erase_notice := erase_notice (CacheHelper := disk_helper); destroy := destroy (CacheHelper := disk_helper);
  set_reads := set_reads (CacheHelper := disk_helper);
  adjustment := Z; adjust := adjust (CacheHelper := disk_helper) |}.

Fixpoint touch_all (h : CacheHelper disk Z Z) (ks : list Z) (c : Cache disk Z Z) : outcome (Cache disk Z Z) unit :=
  match ks with
  | [] => Done tt c
  | k :: ks =>
      match @get disk Z Z _ _ h k 0 c with
      | Done _ c => match put k false 0 c with
                    | Done _ c => touch_all h ks c | Threw c => Threw c | Stuck f => Stuck f end
      | Threw c => Threw c
      | Stuck f => Stuck f
      end
  end.

Example rehash_faults :
  touch_all rehashing_helper (seqZ 1 14) (cache_new (demo_disk 20 None)) = Stuck BadPointer /\
  match touch_all disk_helper (seqZ 1 14) (cache_new (demo_disk 20 None)) with Done _ c => total_size c = 14 | _ => False end.
Proof. split; vm_compute; reflexivity. Qed.
