(* ===== verification/BlockFile.v ===== *)
(** * BlockFile: a file of blocks (Base/Detail/BlockFile.hpp, src/BlockFile.cpp)

    [ioFile] wraps a stdio stream.  The model keeps the bytes that are in the file, the position,
    the room the disk has for the file, the bytes the library holds back ([pending], those just
    before the position), a part of the file it has read ahead ([ahead]), and what it chooses to
    do in the calls to come; [ftruncate] goes to the file below the library.  [BlockFile] on top
    keeps a block count and an offset of its own.  The theorem says that it is an array of blocks:
    every call that succeeds has the effect on the array its name promises, every call that fails
    leaves whole blocks and says so.  With a library that holds nothing back this includes a full
    disk and every resize; with one that does, not ([resize_brings_back]). *)

From S2P Require Import Prelude.
Local Open Scope Z_scope.

(** ** The stream below *)

(** What the library may do with a call: keep the bytes of a write in its buffer, or keep a part
    of the file it has read; without a choice it passes writes on and keeps nothing. *)
Inductive choice := Keep | Fetch (start len : Z).

Record ioFile := mkFile {
  data : list Z; pos : Z; room : Z; pending : list Z; ahead : Z * list Z; choices : list choice }.

Definition zeros (n : Z) : list Z := replicate (Z.to_nat n) 0.

(** A library that keeps nothing. *)
Abbreviation plain d p r := (mkFile d p r [] (0, []) []).

(** [bs] over the bytes [d] from [p] on; a gap behind the end reads as zeros. *)
Definition put (p : Z) (bs d : list Z) : list Z :=
  match bs with
  | [] => d
  | _ => take (Z.to_nat p) (d ++ zeros (p - zlen d)) ++ bs ++ drop (Z.to_nat (p + zlen bs)) d
  end.

(** Where the bytes held back belong. *)
Definition start (f : ioFile) : Z := pos f - zlen (pending f).

(** [write(2)]: as many bytes as the disk has room for. *)
Definition disk_write (p : Z) (bs : list Z) (f : ioFile) : Z * list Z :=
  let n := Z.max 0 (Z.min (zlen bs) (room f - p)) in (n, put p (take (Z.to_nat n) bs) (data f)).

(** [fflush(_file)]. *)
Definition file_flush (f : ioFile) : bool * ioFile :=
  let '(n, d) := disk_write (start f) (pending f) f in
  (n =? zlen (pending f), mkFile d (pos f) (room f) (drop (Z.to_nat n) (pending f)) (ahead f) (choices f)).

(** [fread(dest, 1, size, _file)]: what was read ahead is not read again. *)
Definition file_read (size : Z) (f : ioFile) : list Z * ioFile :=
  let f := snd (file_flush f) in
  let bs := slice (pos f) size (put (fst (ahead f)) (snd (ahead f)) (data f)) in
  let '(a, cs) :=
    match choices f with
    | [] => ((0, []), [])
    | Fetch s n :: cs => ((Z.max 0 s, slice (Z.max 0 s) n (data f)), cs)
    | Keep :: cs => (ahead f, cs)
    end in
  (bs, mkFile (data f) (pos f + zlen bs) (room f) (pending f) a cs).

(** [fwrite(str, 1, len, _file)]. *)
Definition file_write (str : list Z) (f : ioFile) : Z * ioFile :=
  match choices f with
  | Keep :: cs => (zlen str, mkFile (data f) (pos f + zlen str) (room f) (pending f ++ str) (0, []) cs)
  | cs =>
      let '(n, d) := disk_write (start f) (pending f ++ str) f in
      (Z.max 0 (n - zlen (pending f)),
       mkFile d (start f + Z.max n (zlen (pending f))) (room f) (drop (Z.to_nat n) (pending f)) (0, []) (tail cs))
  end.

(** [fseek(_file, step, SEEK_CUR)], [fseek(_file, step, SEEK_SET)] write what was held back. *)
Definition move_to (p : Z) (f : ioFile) : bool * ioFile :=
  let '(ok, f) := file_flush f in
  if ok && negb (p <? 0) then (true, mkFile (data f) p (room f) (pending f) (ahead f) (choices f)) else (false, f).
Definition seek_cur (step : Z) (f : ioFile) : bool * ioFile := move_to (pos f + step) f.
Definition seek_beg (step : Z) (f : ioFile) : bool * ioFile := move_to step f.

(** [ftruncate] on the descriptor, past the library. *)
Definition resize_file (size : Z) (f : ioFile) : bool * ioFile :=
  if room f <? size then (false, f)
  else (true, mkFile (take (Z.to_nat size) (data f) ++ zeros (size - zlen (data f))) (pos f) (room f)
                (pending f) (ahead f) (choices f)).

(** ** BlockFile *)

Record BlockFile := mkBlockFile { _file : ioFile; _offset : Z; _total_blocks : Z; _block_size : Z }.

Definition s64 (z : Z) : Z := if u64 z <? 9223372036854775808 then u64 z else u64 z - 18446744073709551616.

(** The constructor on a file of [bytes] bytes; [None] when it throws. *)
Definition BlockFile_new (f : ioFile) (block_size : Z) : res BlockFile :=
  if block_size =? 0 then Fault DividedByZero else
  if negb (Z.rem (zlen (data f)) block_size =? 0) then Fault Thrown
  else Ret (mkBlockFile f 0 (zlen (data f) / block_size) block_size).

(** A default-constructed object has [_block_size] 0; dividing by it is undefined. *)
Definition BlockFile_default (f : ioFile) : BlockFile := mkBlockFile f 0 0 0.

Definition open (f : ioFile) (b : BlockFile) : res BlockFile :=
  if _block_size b =? 0 then Fault DividedByZero
  else Ret (mkBlockFile f 0 (zlen (data f) / _block_size b) (_block_size b)).

(** [BlockFile(BlockFile&&)]: the new object, and what is left of the other. *)
Definition BlockFile_move (other : BlockFile) : BlockFile * BlockFile :=
  (other, mkBlockFile (plain [] 0 0) 0 0 0).

(** [fclose] writes what was held back. *)
Definition close (b : BlockFile) : BlockFile := mkBlockFile (snd (file_flush (_file b))) 0 0 (_block_size b).

(** [flush], and [flush_to_disk], which also waits for the disk. *)
Definition flush (b : BlockFile) : BlockFile :=
  mkBlockFile (snd (file_flush (_file b))) (_offset b) (_total_blocks b) (_block_size b).

Definition locating (index : Z) (b : BlockFile) : bool * BlockFile :=
  if _total_blocks b <? index then (false, b) else
  let offset := s64 (u64 (index * _block_size b) - _offset b) in
  let '(ok, f) := seek_cur offset (_file b) in
  (ok, mkBlockFile f (if ok then _offset b + offset else _offset b) (_total_blocks b) (_block_size b)).

(** [pad] is what [new char[_block_size]] holds. *)
Definition padding_write (pad bs : list Z) (b : BlockFile) : Z * BlockFile :=
  let '(written, f) := file_write bs (_file b) in
  let '(written, f) :=
    (if (written =? zlen bs) && negb (zlen bs =? _block_size b) then
       let '(n, f) := file_write (take (Z.to_nat (_block_size b - zlen bs)) pad) f in (written + n, f)
     else (written, f)) in
  (written, mkBlockFile f (_offset b + written) (_total_blocks b) (_block_size b)).

Definition write_error_handle (b : BlockFile) : bool * BlockFile :=
  let total := if negb (_total_blocks b =? 0) then _total_blocks b - 1 else _total_blocks b in
  let '(success, f) := resize_file (total * _block_size b) (_file b) in
  if success then
    let '(ok, f) := seek_beg (total * _block_size b) f in
    (success, mkBlockFile f (if ok then total * _block_size b else _offset b) total (_block_size b))
  else (success, mkBlockFile f (_offset b) total (_block_size b)).

(** The loop of [read]: block after block until one falls short. *)
Fixpoint read_loop (count : nat) (b : BlockFile) : list Z * BlockFile :=
  match count with
  | O => ([], b)
  | S count =>
      let '(bs, f) := file_read (_block_size b) (_file b) in
      let b := mkBlockFile f (_offset b + zlen bs) (_total_blocks b) (_block_size b) in
      if zlen bs =? _block_size b then
        let '(rest, b) := read_loop count b in (bs ++ rest, b)
      else (bs, b)
  end.

Definition read (index count : Z) (b : BlockFile) : list Z * BlockFile :=
  if _total_blocks b <? u64 (index + count) then ([], b) else
  let '(ok, b) := locating index b in
  if ok then read_loop (Z.to_nat count) b else ([], b).

(** The loop of [write_to_back]; [done] is [_data - data]. *)
Fixpoint write_loop (fuel : nat) (pad bs : list Z) (done : Z) (b : BlockFile) : res (Z * BlockFile) :=
  match fuel with
  | O => Fault OutOfFuel
  | S fuel =>
      if zlen bs =? 0 then Ret (done, b) else
      let s := if _block_size b <? zlen bs then _block_size b else zlen bs in
      let '(written, b) := padding_write pad (take (Z.to_nat s) bs) b in
      let b := mkBlockFile (_file b) (_offset b) (_total_blocks b + 1) (_block_size b) in
      if negb (written =? _block_size b) then
        let '(handled, b) := write_error_handle b in
        Ret ((if handled then 0 else written) + done, b)
      else write_loop fuel pad (drop (Z.to_nat s) bs) (done + written) b
  end.

Definition write_to_back (pad bs : list Z) (b : BlockFile) : res (Z * BlockFile) :=
  let '(ok, b) := locating (_total_blocks b) b in
  if ok then write_loop (S (length bs)) pad bs 0 b else Ret (0, b).

Definition update (pad bs : list Z) (index : Z) (b : BlockFile) : Z * BlockFile :=
  if _total_blocks b <=? index then (0, b) else
  let '(ok, b) := locating index b in
  if ok then padding_write pad (take (Z.to_nat (_block_size b)) bs) b else (0, b).

Definition erase_back_blocks (count : Z) (b : BlockFile) : bool * BlockFile :=
  if _total_blocks b <? count then (false, b) else
  let after_size := u64 ((_total_blocks b - count) * _block_size b) in
  let b := if after_size <? _offset b then snd (locating (_total_blocks b - count) b) else b in
  let '(ok, f) := resize_file after_size (_file b) in
  if negb ok then (false, snd (locating 0 (mkBlockFile f (_offset b) (_total_blocks b) (_block_size b))))
  else (true, mkBlockFile f (_offset b) (_total_blocks b - count) (_block_size b)).

Definition resize_file_total_blocks (new_block_size : Z) (b : BlockFile) : bool * BlockFile :=
  let '(ok, f) := resize_file (u64 (new_block_size * _block_size b)) (_file b) in
  if negb ok then (false, b)
  else (true, mkBlockFile f (_offset b) new_block_size (_block_size b)).

(** ** An array of blocks *)

Lemma s64_id z : -9223372036854775808 <= z < 9223372036854775808 -> s64 z = z.
Proof.
  intros Hz. unfold s64, u64. destruct (Z.ltb_spec z 0).
  - replace (z mod 18446744073709551616) with (z + 18446744073709551616).
    2: { symmetry. rewrite <- (Z.mod_add z 1) by lia. apply Z.mod_small. lia. }
    destruct (Z.ltb_spec (z + 18446744073709551616) 9223372036854775808); lia.
  - rewrite Z.mod_small by lia. destruct (Z.ltb_spec z 9223372036854775808); lia.
Qed.

Lemma u64_id z : 0 <= z < 18446744073709551616 -> u64 z = z.
Proof. apply Z.mod_small. Qed.

Definition blocks_of (bs : Z) (l : list (list Z)) : Prop := Forall (fun x => zlen x = bs) l.

Lemma zlen_join bs l : blocks_of bs l -> zlen (mjoin l) = zlen l * bs.
Proof.
  induction 1 as [| x l Hx _ IH]; [done |]. simpl. rewrite zlen_app, zlen_cons. lia.
Qed.

(** The library holds nothing back. *)
Lemma flush_plain d p r : file_flush (plain d p r) = (true, plain d p r).
Proof.
  unfold file_flush, disk_write. cbn [pending]. change (zlen (@nil Z)) with 0.
  replace (Z.max 0 (Z.min 0 _)) with 0 by lia. done.
Qed.

Lemma move_plain n d p r : 0 <= n -> move_to n (plain d p r) = (true, plain d n r).
Proof. intros Hn. unfold move_to. rewrite flush_plain. by destruct (Z.ltb_spec n 0); [lia |]. Qed.

Lemma read_plain n d p r : file_read n (plain d p r) = (slice p n d, plain d (p + zlen (slice p n d)) r).
Proof. unfold file_read. rewrite flush_plain. done. Qed.

Lemma write_plain str d p r :
  let n := Z.max 0 (Z.min (zlen str) (r - p)) in
  file_write str (plain d p r) = (n, plain (put p (take (Z.to_nat n) str) d) (p + n) r).
Proof.
  cbn zeta. unfold file_write, disk_write, start. cbn [choices pending pos room data app tail].
  change (zlen (@nil Z)) with 0. rewrite Z.sub_0_r, drop_nil.
  rewrite !Z.sub_0_r. by rewrite (Z.max_l (Z.max 0 _) 0), (Z.max_r 0 (Z.max 0 _)) by lia.
Qed.

(** The file [b] holds the blocks [l]. *)
Record holds (l : list (list Z)) (b : BlockFile) : Prop := {
  holds_data : data (_file b) = mjoin l;
  holds_blocks : blocks_of (_block_size b) l;
  holds_total : _total_blocks b = zlen l;
  holds_size : 0 < _block_size b;
  holds_offset : _offset b = pos (_file b);
  holds_plain : pending (_file b) = [] /\ ahead (_file b) = (0, []) /\ choices (_file b) = [];
  holds_pos : 0 <= pos (_file b) <= room (_file b);
  holds_room : zlen (data (_file b)) <= room (_file b) < 4611686018427387904;
}.

(** What no call changes. *)
Definition same_file (b b' : BlockFile) : Prop :=
  _block_size b' = _block_size b /\ room (_file b') = room (_file b).

Lemma holds_bytes l b : holds l b -> zlen (data (_file b)) = zlen l * _block_size b.
Proof. intros Hh. rewrite (holds_data _ _ Hh). apply zlen_join, Hh. Qed.

Lemma locating_ok l b i : holds l b -> 0 <= i <= zlen l ->
  exists b', locating i b = (true, b') /\ holds l b' /\ same_file b b' /\ pos (_file b') = i * _block_size b.
Proof.
  intros Hh Hi. pose proof (holds_bytes l b Hh) as Hb. destruct Hh as [Hd Hbl Ht Hs Ho (Hpe & Hah & Hch) Hp Hr].
  unfold locating. rewrite Ht. destruct (Z.ltb_spec (zlen l) i) as [|_]; [lia |].
  assert (0 <= i * _block_size b <= zlen (data (_file b))) by nia.
  rewrite u64_id, s64_id by lia. unfold seek_cur. destruct b as [[d p r pe ah ch] off t bs].
  cbn [_file _offset _total_blocks _block_size data pos room pending ahead choices] in *. subst.
  replace (pos (plain (mjoin l) p r) + (i * bs - p)) with (i * bs) by (simpl; lia). rewrite move_plain by lia.
  eexists. split; [reflexivity |]. split; [| by split; [| simpl; lia]].
  split; simpl; try done; lia.
Qed.

Lemma join_split (l : list (list Z)) i : 0 <= i < zlen l ->
  exists l1 x l2, l = l1 ++ x :: l2 /\ zlen l1 = i.
Proof.
  intros Hi. destruct (split_at l i) as (l1 & l2 & -> & Hl); [lia |].
  rewrite zlen_app in Hi. destruct l2 as [| x l2]; [unfold zlen in *; simpl in *; lia |]. by exists l1, x, l2.
Qed.

Definition filled (bs : Z) (pad w : list Z) : list Z := w ++ take (Z.to_nat (bs - zlen w)) pad.

Lemma zlen_filled bs pad w : zlen w <= bs -> zlen pad = bs -> zlen (filled bs pad w) = bs.
Proof.
  intros Hw Hp. unfold filled. rewrite zlen_app. pose proof (zlen_nonneg w). rewrite zlen_take by lia. lia.
Qed.

Lemma zlen_zero (l : list Z) : zlen l = 0 -> l = [].
Proof. unfold zlen. destruct l; [done | simpl; lia]. Qed.

Lemma put_mid X Y Y' W p : p = zlen X -> zlen Y' = zlen Y -> put p Y' (X ++ Y ++ W) = X ++ Y' ++ W.
Proof.
  intros -> Hl. pose proof (zlen_nonneg Y). pose proof (zlen_nonneg W). destruct Y' as [| y Y'].
  - by rewrite (zlen_zero Y) by done.
  - unfold put, zeros. replace (Z.to_nat (zlen X - _)) with 0%nat by (rewrite !zlen_app; lia). simpl replicate.
    rewrite app_nil_r, take_zlen by done. do 2 f_equal. rewrite Hl, <- zlen_app, app_assoc. by apply drop_zlen.
Qed.

Lemma put_end X str p : p = zlen X -> put p str X = X ++ str.
Proof.
  intros ->. destruct str as [| y str]; [by rewrite app_nil_r |]. unfold put, zeros. rewrite Z.sub_diag. simpl replicate.
  rewrite app_nil_r, take_ge, drop_ge, app_nil_r by (unfold zlen; lia). done.
Qed.

(** Writing over bytes the file has. *)
Lemma file_write_mid X Y Y' W r p :
  p = zlen X -> zlen Y' = zlen Y -> p + zlen Y <= r ->
  file_write Y' (plain (X ++ Y ++ W) p r) = (zlen Y', plain (X ++ Y' ++ W) (p + zlen Y') r).
Proof.
  intros -> Hl Hr. rewrite write_plain. pose proof (zlen_nonneg Y).
  replace (Z.max 0 (Z.min (zlen Y') (r - zlen X))) with (zlen Y') by lia.
  by rewrite take_ge, put_mid by (unfold zlen in *; lia).
Qed.

(** Writing behind the end. *)
Lemma file_write_end X str r p :
  p = zlen X -> p <= r ->
  let n := Z.min (zlen str) (r - p) in
  file_write str (plain X p r) = (n, plain (X ++ take (Z.to_nat n) str) (p + n) r).
Proof.
  intros -> Hr n. rewrite write_plain. pose proof (zlen_nonneg str). fold n.
  replace (Z.max 0 n) with n by lia. by rewrite put_end.
Qed.

(** [padding_write] over a block of the file. *)
Lemma padding_write_mid X Y W w pad off p r t bs :
  p = zlen X -> zlen Y = bs -> p + bs <= r -> zlen w <= bs -> zlen pad = bs ->
  padding_write pad w (mkBlockFile (plain (X ++ Y ++ W) p r) off t bs) =
  (bs, mkBlockFile (plain (X ++ filled bs pad w ++ W) (p + bs) r) (off + bs) t bs).
Proof.
  intros Hp HY Hr Hw Hpad. pose proof (zlen_nonneg w). unfold padding_write. cbn [_file _offset _total_blocks _block_size].
  destruct (split_at Y (zlen w)) as (Y1 & Y2 & HYs & HY1); [lia |]. subst Y. rewrite zlen_app in HY.
  rewrite <- (app_assoc Y1), (file_write_mid X Y1 w) by lia. rewrite Z.eqb_refl. cbn [andb].
  unfold filled. destruct (Z.eqb_spec (zlen w) bs) as [Hfull | Hpart]; cbn [negb].
  - rewrite Hfull, Z.sub_diag. cbn [Z.to_nat take]. rewrite (zlen_zero Y2), app_nil_r by lia. done.
  - set (tl := take (Z.to_nat (bs - zlen w)) pad). assert (Htl : zlen tl = bs - zlen w) by (apply zlen_take; lia).
    rewrite (app_assoc X w), (file_write_mid (X ++ w) Y2 tl) by (rewrite ?zlen_app; lia).
    rewrite <- !app_assoc, Htl. replace (zlen w + (bs - zlen w)) with bs by lia.
    by replace (p + zlen w + (bs - zlen w)) with (p + bs) by lia.
Qed.

(** [padding_write] behind the end: the whole block, or what there is room for. *)
Lemma padding_write_end X w pad off p r t bs :
  p = zlen X -> p <= r -> zlen w <= bs -> zlen pad = bs ->
  exists n J, n = Z.min bs (r - p) /\ zlen J = n /\ (n = bs -> J = filled bs pad w) /\
    padding_write pad w (mkBlockFile (plain X p r) off t bs) =
    (n, mkBlockFile (plain (X ++ J) (p + n) r) (off + n) t bs).
Proof.
  intros Hp Hr Hw Hpad. pose proof (zlen_nonneg w). unfold padding_write. cbn [_file _offset _total_blocks _block_size].
  rewrite file_write_end by done. cbn zeta. set (n1 := Z.min (zlen w) (r - p)).
  assert (Hn1 : zlen (take (Z.to_nat n1) w) = n1) by (apply zlen_take; lia).
  destruct (Z.eqb_spec n1 (zlen w)) as [Hall | Hshort]; cbn [andb].
  - assert (Hw' : take (Z.to_nat n1) w = w) by (apply take_ge; unfold zlen in *; lia). rewrite Hw' in *.
    destruct (Z.eqb_spec (zlen w) bs) as [Hfull | Hpart]; cbn [negb].
    + exists n1, w. split_and!; [lia | done | | done]. intros _. unfold filled. rewrite Hfull, Z.sub_diag.
      cbn [Z.to_nat take]. by rewrite app_nil_r.
    + rewrite file_write_end by (rewrite ?zlen_app; lia). cbn zeta.
      set (tl := take (Z.to_nat (bs - zlen w)) pad). assert (Htl : zlen tl = bs - zlen w) by (apply zlen_take; lia).
      set (n2 := Z.min (zlen tl) (r - (p + n1))). assert (Hn2 : zlen (take (Z.to_nat n2) tl) = n2) by (apply zlen_take; lia).
      exists (n1 + n2), (w ++ take (Z.to_nat n2) tl). split_and!; [lia | rewrite zlen_app; lia | |].
      * intros Heq. unfold filled. fold tl. f_equal. apply take_ge. unfold zlen in *. lia.
      * rewrite <- app_assoc. by replace (p + (n1 + n2)) with (p + n1 + n2) by lia.
  - exists n1, (take (Z.to_nat n1) w). split_and!; [lia | done | lia | done].
Qed.

Lemma insert_middle {A} (l1 l2 : list A) x y : <[length l1 := y]> (l1 ++ x :: l2) = l1 ++ y :: l2.
Proof. rewrite insert_app_r_alt by done. by rewrite Nat.sub_diag. Qed.

Lemma join_app (l1 l2 : list (list Z)) : mjoin (l1 ++ l2) = mjoin l1 ++ mjoin l2.
Proof. induction l1 as [| x l1 IH]; [done |]. simpl. by rewrite IH, app_assoc. Qed.

Lemma take_bounded bs (w : list Z) : 0 <= bs -> zlen (take (Z.to_nat bs) w) <= bs.
Proof. intros Hb. unfold zlen. rewrite length_take. lia. Qed.

Lemma update_block_ok l b pad w i :
  holds l b -> 0 <= i < zlen l -> zlen pad = _block_size b ->
  exists b', update pad w i b = (_block_size b, b') /\ same_file b b' /\
    holds (<[Z.to_nat i := filled (_block_size b) pad (take (Z.to_nat (_block_size b)) w)]> l) b'.
Proof.
  intros Hh Hi Hpad. unfold update. rewrite (holds_total _ _ Hh).
  destruct (Z.leb_spec (zlen l) i) as [|_]; [lia |].
  destruct (locating_ok l b i Hh ltac:(lia)) as (b1 & -> & Hh1 & [Hbs Hrm] & Hpos).
  destruct (join_split l i Hi) as (l1 & x & l2 & -> & Hl1).
  pose proof (holds_bytes _ _ Hh1) as Hbytes. destruct Hh1 as [Hd Hbl Ht Hs Ho (Hpe & Hah & Hch) Hp Hr].
  destruct b1 as [[d p r pe ah ch] off t bs]. simpl in *. subst bs d p off t pe ah ch.
  apply list.Forall_app in Hbl as Hbl'. destruct Hbl' as [Hb1 [Hx Hb2]%list.Forall_cons].
  set (y := filled _ pad _). assert (Hy : zlen y = _block_size b) by (apply zlen_filled; [apply take_bounded; lia | done]).
  rewrite join_app in *. simpl in *. rewrite !zlen_app, zlen_cons in Hbytes. rewrite !zlen_app in Hr.
  pose proof (zlen_join _ _ Hb1) as Hj1. pose proof (zlen_nonneg (mjoin l2)).
  rewrite padding_write_mid; [| lia | done | lia | apply take_bounded; lia | done]. fold y.
  eexists. split; [done |]. split; [done |].
  replace (Z.to_nat i) with (length l1) by (unfold zlen in Hl1; lia). rewrite insert_middle.
  split; simpl; try done; try lia.
  - rewrite join_app. done.
  - apply list.Forall_app. split; [done |]. by constructor.
  - rewrite !zlen_app, !zlen_cons. done.
  - rewrite !zlen_app. lia.
Qed.

Lemma read_loop_ok n : forall l1 l2 l3 b,
  holds (l1 ++ l2 ++ l3) b -> pos (_file b) = zlen l1 * _block_size b -> length l2 = n ->
  exists b', read_loop n b = (mjoin l2, b') /\ holds (l1 ++ l2 ++ l3) b' /\ same_file b b'.
Proof.
  induction n as [| n IH]; intros l1 l2 l3 b Hh Hpos Hn; [destruct l2; [| done]; by exists b |].
  destruct l2 as [| x l2]; [done |]. simpl in Hn. pose proof Hh as [Hd Hbl Ht Hs Ho (Hpe & Hah & Hch) Hp Hr].
  destruct b as [[d p r pe ah ch] off t bs]. simpl in *. subst d p off t pe ah ch.
  apply list.Forall_app in Hbl as Hbl'. destruct Hbl' as [Hb1 [Hx Hb2]%list.Forall_cons].
  pose proof (zlen_join _ _ Hb1) as Hj1. rewrite read_plain.
  rewrite join_app in *. simpl in *. rewrite (slice_mid (mjoin l1) x) by done.
  rewrite Hx, Z.eqb_refl.
  destruct (IH (l1 ++ [x]) l2 l3 (mkBlockFile (plain (mjoin l1 ++ x ++ mjoin (l2 ++ l3)) (zlen l1 * bs + bs) r)
    (zlen l1 * bs + bs) (zlen (l1 ++ x :: l2 ++ l3)) bs)) as (b' & Hrd & Hh' & Hsame).
  - rewrite !zlen_app in Hr. pose proof (zlen_nonneg (mjoin (l2 ++ l3))). rewrite <- !app_assoc. split; simpl; try done; try lia.
    + by rewrite (join_app l1).
    + rewrite !zlen_app. lia.
  - simpl. rewrite zlen_app, zlen_cons. unfold zlen. simpl. lia.
  - lia.
  - rewrite Hrd. exists b'. split; [done |]. rewrite <- app_assoc in Hh'. done.
Qed.

Lemma read_blocks_ok l b i n :
  holds l b -> 0 <= i -> 0 <= n -> i + n < 18446744073709551616 ->
  exists b', read i n b = (if zlen l <? i + n then [] else mjoin (slice i n l), b') /\ holds l b' /\ same_file b b'.
Proof.
  intros Hh Hi Hn Hbig. unfold read. rewrite (holds_total _ _ Hh), u64_id by lia.
  destruct (Z.ltb_spec (zlen l) (i + n)); [by exists b |].
  destruct (locating_ok l b i Hh ltac:(lia)) as (b1 & -> & Hh1 & [Hbs Hrm] & Hpos).
  destruct (split_at l i) as (l1 & lr & -> & Hl1); [lia |]. rewrite zlen_app in *.
  destruct (split_at lr n) as (l2 & l3 & -> & Hl2); [lia |].
  destruct (read_loop_ok (Z.to_nat n) l1 l2 l3 b1 Hh1) as (b' & -> & Hh' & [Hbs' Hrm']); [by rewrite Hpos, Hbs, Hl1 | unfold zlen in Hl2; lia |].
  exists b'. rewrite slice_mid by done. split; [done |]. split; [done |]. split; congruence.
Qed.

(** ** Appending *)

Fixpoint chunks (fuel : nat) (bs : Z) (pad w : list Z) : list (list Z) :=
  match fuel with
  | O => []
  | S fuel =>
      if zlen w =? 0 then []
      else filled bs pad (take (Z.to_nat bs) w) :: chunks fuel bs pad (drop (Z.to_nat bs) w)
  end.

(** How many of [n] more blocks there is room for. *)
Definition fitting (n : nat) (l : list (list Z)) (b : BlockFile) : nat :=
  Nat.min n (Z.to_nat (room (_file b) / _block_size b - zlen l)).

Lemma write_error_ok l J r t bs :
  blocks_of bs l -> 0 < bs -> zlen (mjoin l) + zlen J <= r < 4611686018427387904 -> t = zlen l + 1 ->
  exists b', write_error_handle (mkBlockFile (plain (mjoin l ++ J) (zlen l * bs + zlen J) r) (zlen l * bs + zlen J) t bs) = (true, b') /\
    holds l b' /\ _block_size b' = bs /\ room (_file b') = r.
Proof.
  intros Hbl Hbs Hr ->. pose proof (zlen_join _ _ Hbl) as Hj. pose proof (zlen_nonneg l). pose proof (zlen_nonneg J).
  unfold write_error_handle. cbn [_file _offset _total_blocks _block_size].
  destruct (Z.eqb_spec (zlen l + 1) 0) as [|_]; [lia |]. cbn [negb].
  replace (zlen l + 1 - 1) with (zlen l) by lia. unfold resize_file. cbn [room data pos].
  destruct (Z.ltb_spec r (zlen l * bs)) as [|_]; [lia |].
  replace (zeros _) with (@nil Z) by (unfold zeros; replace (Z.to_nat _) with 0%nat by (rewrite zlen_app; lia); done).
  rewrite app_nil_r, <- Hj, take_zlen by done. unfold seek_beg. cbn [pending ahead choices].
  rewrite move_plain by lia. eexists. split; [done |]. split; [| done].
  split; simpl; try done; lia.
Qed.

Lemma chunks_fuel bs pad f1 : forall f2 w,
  0 < bs -> (length w <= f1)%nat -> (length w <= f2)%nat -> chunks f1 bs pad w = chunks f2 bs pad w.
Proof.
  induction f1 as [| f1 IH]; intros f2 w Hbs H1 H2; [destruct w; [by destruct f2 | simpl in H1; lia] |].
  destruct f2 as [| f2]; [destruct w; [done | simpl in H2; lia] |]. simpl.
  destruct (Z.eqb_spec (zlen w) 0) as [| Hz]; [done |]. f_equal.
  apply IH; [done | |]; rewrite length_drop; unfold zlen in Hz; lia.
Qed.

Lemma chunks_step bs pad w : 0 < bs -> zlen w <> 0 ->
  chunks (length w) bs pad w =
  filled bs pad (take (Z.to_nat bs) w) :: chunks (length (drop (Z.to_nat bs) w)) bs pad (drop (Z.to_nat bs) w).
Proof.
  intros Hbs Hz. destruct w as [| x0 w0]; [done |]. cbn [length chunks].
  destruct (Z.eqb_spec (zlen (x0 :: w0)) 0); [lia |]. f_equal.
  apply chunks_fuel; [done | rewrite length_drop; simpl; lia | done].
Qed.

Lemma fitting_step n l c b b' :
  0 < _block_size b -> same_file b b' -> (zlen l + 1) * _block_size b <= room (_file b) ->
  fitting (S n) l b = S (fitting n (l ++ [c]) b').
Proof.
  intros Hbs [Hs Hr] Hroom. unfold fitting. rewrite Hs, Hr, zlen_app. change (zlen [c]) with 1.
  assert (zlen l + 1 <= room (_file b) / _block_size b) by (apply Z.div_le_lower_bound; lia). lia.
Qed.

Lemma fitting_none n l b :
  0 < _block_size b -> zlen l * _block_size b <= room (_file b) < (zlen l + 1) * _block_size b -> fitting n l b = 0%nat.
Proof.
  intros Hbs Hroom. unfold fitting.
  assert (room (_file b) / _block_size b < zlen l + 1) by (apply Z.div_lt_upper_bound; lia). lia.
Qed.

Lemma write_loop_ok fuel : forall l w done b pad,
  holds l b -> pos (_file b) = zlen l * _block_size b -> zlen pad = _block_size b -> (length w < fuel)%nat ->
  let cs := chunks (length w) (_block_size b) pad w in
  exists b', write_loop fuel pad w done b = Ret (done + Z.of_nat (fitting (length cs) l b) * _block_size b, b') /\
    holds (l ++ take (fitting (length cs) l b) cs) b' /\ same_file b b'.
Proof.
  induction fuel as [| fuel IH]; intros l w done b pad Hh Hpos Hpad Hf; [lia |]. cbn [write_loop].
  destruct (Z.eqb_spec (zlen w) 0) as [Hz | Hz].
  { rewrite (zlen_zero w Hz). exists b. cbn [length chunks]. unfold fitting. rewrite Nat.min_0_l, take_0, app_nil_r, Z.mul_0_l, Z.add_0_r.
    by split; [| split]. }
  set (s := if _block_size b <? zlen w then _block_size b else zlen w). pose proof (zlen_nonneg w) as Hw.
  pose proof (holds_size _ _ Hh) as Hbs.
  assert (Hs : take (Z.to_nat s) w = take (Z.to_nat (_block_size b)) w /\ drop (Z.to_nat s) w = drop (Z.to_nat (_block_size b)) w).
  { unfold s. destruct (Z.ltb_spec (_block_size b) (zlen w)); [done |].
    rewrite !take_ge, !drop_ge by (unfold zlen in *; lia). done. }
  destruct Hs as [-> ->]. clear s.
  rewrite (chunks_step _ pad w Hbs Hz). pose proof Hh as [Hd Hbl Ht _ Ho (Hpe & Hah & Hch) Hp Hr]. destruct b as [[d p r pe ah ch] off t bs].
  cbn [_file _offset _total_blocks _block_size data pos room pending ahead choices] in *. subst d p off t pe ah ch.
  pose proof (zlen_join _ _ Hbl) as Hj.
  destruct (padding_write_end (mjoin l) (take (Z.to_nat bs) w) pad (zlen l * bs) (zlen l * bs) r (zlen l) bs)
    as (n & J & Hn & HJ & HJfull & ->); [lia | lia | apply take_bounded; lia | done |].
  cbn [_file _offset _total_blocks _block_size]. set (c := filled bs pad (take (Z.to_nat bs) w)) in *.
  cbn zeta. cbn [length]. destruct (Z.eqb_spec n bs) as [Hfull | Hshort]; cbn [negb].
  - specialize (HJfull Hfull). subst J. rewrite Hfull in *.
    set (b1 := mkBlockFile (plain (mjoin l ++ c) (zlen l * bs + bs) r) (zlen l * bs + bs) (zlen l + 1) bs).
    assert (Hh' : holds (l ++ [c]) b1).
    { split; simpl; try done; try lia.
      - rewrite join_app. simpl. by rewrite app_nil_r.
      - apply list.Forall_app. split; [done |]. by repeat constructor.
      - by rewrite zlen_app.
      - rewrite zlen_app. lia. }
    destruct (IH (l ++ [c]) (drop (Z.to_nat bs) w) (done + bs) b1 pad Hh') as (b' & E & Hh2 & Hsame);
      [simpl; rewrite zlen_app, zlen_cons; unfold zlen; simpl; lia | done | rewrite length_drop; unfold zlen in Hz; lia |].
    rewrite E. exists b'. rewrite (fitting_step _ l c _ b1) by (done || simpl; lia). cbn [_block_size b1] in *.
    split; [f_equal; f_equal; lia |]. split; [| done]. by rewrite <- app_assoc in Hh2.
  - rewrite fitting_none by (simpl; lia). simpl. rewrite app_nil_r.
    destruct (write_error_ok l J r (zlen l + 1) bs) as (b' & E & Hh2 & Hbs' & Hrm); [done | done | lia | done |].
    rewrite HJ in E. rewrite E. exists b'. rewrite Z.add_0_r. split; [done |]. split; [done |]. by split.
Qed.

Lemma append_ok l b pad w :
  holds l b -> zlen pad = _block_size b ->
  let cs := chunks (length w) (_block_size b) pad w in
  exists b', write_to_back pad w b = Ret (Z.of_nat (fitting (length cs) l b) * _block_size b, b') /\
    holds (l ++ take (fitting (length cs) l b) cs) b' /\ same_file b b'.
Proof.
  intros Hh Hpad cs. unfold write_to_back. rewrite (holds_total _ _ Hh). pose proof (zlen_nonneg l).
  destruct (locating_ok l b (zlen l) Hh ltac:(lia)) as (b1 & -> & Hh1 & [Hbs Hrm] & Hpos). rewrite <- Hbs in Hpos, Hpad.
  destruct (write_loop_ok (S (length w)) l w 0 b1 pad Hh1 Hpos Hpad ltac:(lia)) as (b' & E & Hh' & [Hbs' Hrm']).
  assert (Hfit : forall n, fitting n l b1 = fitting n l b) by (intros n; unfold fitting; by rewrite Hbs, Hrm).
  rewrite Hbs in *. rewrite !Hfit in *. exists b'. split; [exact E |]. split; [exact Hh' |]. split; congruence.
Qed.

(** ** Resizing *)

Lemma join_take bs l n : blocks_of bs l -> 0 <= bs -> take (n * Z.to_nat bs) (mjoin l) = mjoin (take n l).
Proof.
  intros Hl Hbs. revert n. induction Hl as [| x l Hx _ IH]; intros [| n]; simpl; try done; [by rewrite take_nil |].
  rewrite take_app. unfold zlen in Hx. f_equal.
  - apply take_ge. lia.
  - rewrite <- IH. f_equal. lia.
Qed.

Lemma join_zeros n m : 0 <= m -> mjoin (replicate n (zeros m)) = zeros (Z.of_nat n * m).
Proof.
  intros Hm. induction n as [| n IH]; [done |]. simpl. rewrite IH. unfold zeros. rewrite <- replicate_add. f_equal. lia.
Qed.

(** The first [n] blocks, with zeros for those that are not there. *)
Definition resized (bs n : Z) (l : list (list Z)) : list (list Z) :=
  take (Z.to_nat n) l ++ replicate (Z.to_nat (n - zlen l)) (zeros bs).

Lemma resize_ok l f bs n :
  blocks_of bs l -> 0 < bs -> 0 <= n -> data f = mjoin l ->
  resize_file (n * bs) f = if room f <? n * bs then (false, f) else (true, mkFile (mjoin (resized bs n l)) (pos f) (room f) (pending f) (ahead f) (choices f)).
Proof.
  intros Hl Hbs Hn Hd. unfold resize_file. destruct (room f <? n * bs); [done |]. do 2 f_equal.
  rewrite Hd. unfold resized. rewrite join_app, join_zeros, <- (join_take bs) by (done || lia).
  rewrite (zlen_join bs) by done. f_equal; [f_equal; lia |]. unfold zeros. f_equal. nia.
Qed.

Lemma resized_blocks bs n l : blocks_of bs l -> 0 <= bs -> 0 <= n -> blocks_of bs (resized bs n l) /\ zlen (resized bs n l) = n.
Proof.
  intros Hl Hbs Hn. split.
  - apply list.Forall_app. split; [by apply Forall_take |]. apply Forall_replicate. unfold zeros. rewrite zlen_replicate. lia.
  - unfold resized, zlen. rewrite length_app, length_take, length_replicate. lia.
Qed.

Lemma resize_blocks_ok l b n :
  holds l b -> 0 <= n -> n * _block_size b < 18446744073709551616 ->
  exists b', resize_file_total_blocks n b = (negb (room (_file b) <? n * _block_size b), b') /\
    holds (if room (_file b) <? n * _block_size b then l else resized (_block_size b) n l) b' /\ same_file b b'.
Proof.
  intros Hh Hn Hbig. pose proof Hh as [Hd Hbl Ht Hs Ho (Hpe & Hah & Hch) Hp Hr]. unfold resize_file_total_blocks.
  rewrite u64_id, (resize_ok l) by (done || nia). destruct (Z.ltb_spec (room (_file b)) (n * _block_size b)); cbn [negb].
  - exists b. split; [done |]. split; [done |]. by split.
  - destruct (resized_blocks _ n l Hbl ltac:(lia) Hn) as [Hbl' Hlen].
    eexists. split; [done |]. split; [| done]. split; simpl; try done.
    rewrite (zlen_join (_block_size b)), Hlen by done. lia.
Qed.

Lemma erase_back_ok l b n :
  holds l b -> 0 <= n -> 
  exists b', erase_back_blocks n b = (n <=? zlen l, b') /\
    holds (if n <=? zlen l then take (Z.to_nat (zlen l - n)) l else l) b' /\ same_file b b'.
Proof.
  intros Hh Hn. unfold erase_back_blocks. rewrite (holds_total _ _ Hh).
  destruct (Z.ltb_spec (zlen l) n) as [Hlt | Hge]; [destruct (Z.leb_spec n (zlen l)); [lia |]; by exists b |].
  destruct (Z.leb_spec n (zlen l)); [| lia]. pose proof (holds_bytes _ _ Hh) as Hby. pose proof (zlen_nonneg l).
  pose proof (holds_size _ _ Hh). pose proof (holds_room _ _ Hh).
  assert (0 <= (zlen l - n) * _block_size b <= zlen (data (_file b))) by nia. rewrite u64_id by lia.
  assert (Hb1 : exists b1, (if (zlen l - n) * _block_size b <? _offset b then snd (locating (zlen l - n) b) else b) = b1 /\
    holds l b1 /\ same_file b b1).
  { destruct (_ <? _offset b); [| by exists b].
    destruct (locating_ok l b (zlen l - n) Hh ltac:(lia)) as (b1 & -> & Hh1 & Hsame & _). by exists b1. }
  destruct Hb1 as (b1 & -> & Hh1 & [Hbs Hrm]). pose proof Hh1 as [Hd Hbl Ht Hs Ho (Hpe & Hah & Hch) Hp Hr]. rewrite Hbs in *.
  rewrite (resize_ok l) by (done || lia). rewrite Hrm in *. destruct (Z.ltb_spec (room (_file b)) ((zlen l - n) * _block_size b)); [lia |].
  cbn [negb]. replace (resized (_block_size b) (zlen l - n) l) with (take (Z.to_nat (zlen l - n)) l).
  2: { unfold resized. replace (Z.to_nat (zlen l - n - zlen l)) with 0%nat by lia. by rewrite app_nil_r. }
  assert (Hlen : zlen (take (Z.to_nat (zlen l - n)) l) = zlen l - n) by (apply zlen_take; lia).
  eexists. split; [done |]. split; [| done]. split; simpl; rewrite ?Hbs, ?Hrm, ?Ht; try done; [by apply Forall_take |].
  rewrite (zlen_join (_block_size b)), Hlen by (by apply Forall_take). lia.
Qed.

(** ** Sequences of calls *)

Inductive file_op :=
  | FRead (index count : Z)
  | FUpdate (pad bytes : list Z) (index : Z)
  | FAppend (pad bytes : list Z)
  | FErase (count : Z)
  | FResize (blocks : Z)
  | FFlush.

Inductive file_out := OBytes (bs : list Z) | OWritten (n : Z) | OSuccess (ok : bool).

Definition run_op (op : file_op) (b : BlockFile) : res (file_out * BlockFile) :=
  match op with
  | FRead i n => let '(bs, b) := read i n b in Ret (OBytes bs, b)
  | FUpdate pad w i => let '(n, b) := update pad w i b in Ret (OWritten n, b)
  | FAppend pad w => '(n, b) ← write_to_back pad w b; Ret (OWritten n, b)
  | FErase n => let '(ok, b) := erase_back_blocks n b in Ret (OSuccess ok, b)
  | FResize n => let '(ok, b) := resize_file_total_blocks n b in Ret (OSuccess ok, b)
  | FFlush => Ret (OSuccess true, flush b)
  end.

Fixpoint run_ops (ops : list file_op) (b : BlockFile) : res (list file_out * BlockFile) :=
  match ops with
  | [] => Ret ([], b)
  | op :: ops => '(o, b) ← run_op op b; '(os, b) ← run_ops ops b; Ret (o :: os, b)
  end.

(** The array of blocks: [bs] bytes each, on a disk with room for [r] bytes. *)
Section Spec.
Variables bs r : Z.

Definition spec_op (op : file_op) (l : list (list Z)) : file_out * list (list Z) :=
  match op with
  | FRead i n => (OBytes (if zlen l <? i + n then [] else mjoin (slice i n l)), l)
  | FUpdate pad w i =>
      if i <? zlen l then (OWritten bs, <[Z.to_nat i := filled bs pad (take (Z.to_nat bs) w)]> l)
      else (OWritten 0, l)
  | FAppend pad w =>
      let cs := chunks (length w) bs pad w in
      let n := Nat.min (length cs) (Z.to_nat (r / bs - zlen l)) in
      (OWritten (Z.of_nat n * bs), l ++ take n cs)
  | FErase n => if n <=? zlen l then (OSuccess true, take (Z.to_nat (zlen l - n)) l) else (OSuccess false, l)
  | FResize n => if r <? n * bs then (OSuccess false, l) else (OSuccess true, resized bs n l)
  | FFlush => (OSuccess true, l)
  end.

Fixpoint spec_ops (ops : list file_op) (l : list (list Z)) : list file_out * list (list Z) :=
  match ops with
  | [] => ([], l)
  | op :: ops => let '(o, l) := spec_op op l in let '(os, l) := spec_ops ops l in (o :: os, l)
  end.

(** The padding buffer has the size of a block; indices, and the bytes of a new size, are in [uint64]. *)
Definition op_ok (op : file_op) : bool :=
  match op with
  | FRead i n => (0 <=? i) && (0 <=? n) && (i + n <? 18446744073709551616)
  | FUpdate pad w i => (zlen pad =? bs) && (0 <=? i)
  | FAppend pad w => zlen pad =? bs
  | FErase n => 0 <=? n
  | FResize n => (0 <=? n) && (n * bs <? 18446744073709551616)
  | FFlush => true
  end.

(** What goes well too when the library holds bytes back: no resize, and no append the disk has no
    room for. *)
Definition held_ok (op : file_op) (l : list (list Z)) : bool :=
  match op with
  | FAppend pad w => (zlen l + zlen (chunks (length w) bs pad w)) * bs <=? r
  | FResize _ => false
  | _ => true
  end.

Fixpoint ops_held_ok (ops : list file_op) (l : list (list Z)) : bool :=
  match ops with [] => true | op :: ops => held_ok op l && ops_held_ok ops (snd (spec_op op l)) end.
End Spec.

Lemma run_op_ok l b op :
  holds l b -> op_ok (_block_size b) op = true ->
  exists b', run_op op b = Ret (fst (spec_op (_block_size b) (room (_file b)) op l), b') /\
    holds (snd (spec_op (_block_size b) (room (_file b)) op l)) b' /\ same_file b b'.
Proof.
  intros Hh Hok. destruct op as [i n | pad w i | pad w | n | n |]; simpl in Hok |- *; zbool.
  - destruct (read_blocks_ok l b i n Hh ltac:(lia) ltac:(lia) ltac:(lia)) as (b' & -> & ?). by exists b'.
  - destruct (Z.ltb_spec i (zlen l)).
    + destruct (update_block_ok l b pad w i Hh ltac:(lia) ltac:(lia)) as (b' & -> & ? & ?). by exists b'.
    + unfold update. rewrite (holds_total _ _ Hh). destruct (Z.leb_spec (zlen l) i); [| lia]. by exists b.
  - destruct (append_ok l b pad w Hh ltac:(lia)) as (b' & -> & ?). by exists b'.
  - destruct (erase_back_ok l b n Hh ltac:(lia)) as (b' & -> & ?). exists b'. by destruct (n <=? zlen l).
  - destruct (resize_blocks_ok l b n Hh ltac:(lia) ltac:(lia)) as (b' & -> & ?). exists b'.
    by destruct (room (_file b) <? n * _block_size b).
  - exists b. split; [| done]. do 2 f_equal. destruct Hh as [_ _ _ _ _ (Hpe & Hah & Hch) _ _].
    destruct b as [[d p r pe ah ch] off t bs]. cbn [_file pending ahead choices] in *. subst. unfold flush. cbn [_file].
    by rewrite flush_plain.
Qed.

(** ** A library that keeps bytes back

    The file as a reader would see it, and the same file below a library that keeps nothing. *)

Definition contents (f : ioFile) : list Z := put (start f) (pending f) (data f).
Definition settle (f : ioFile) : ioFile := plain (contents f) (pos f) (room f).
Definition settled (b : BlockFile) : BlockFile := mkBlockFile (settle (_file b)) (_offset b) (_total_blocks b) (_block_size b).

(** What was read ahead agrees with the file as far as the file goes, nothing is kept from
    reading while bytes are held back, and there is room for those. *)
Record lawful (f : ioFile) : Prop := {
  lawful_start : 0 <= start f;
  lawful_gap : pending f = [] \/ start f <= zlen (data f) /\ snd (ahead f) = [];
  lawful_ahead : 0 <= fst (ahead f);
  lawful_seen i x : snd (ahead f) !! i = Some x -> (Z.to_nat (fst (ahead f)) + i < length (data f))%nat ->
    data f !! (Z.to_nat (fst (ahead f)) + i)%nat = Some x;
  lawful_room : zlen (contents f) <= room f;
}.

Lemma put_nil p d : put p [] d = d.
Proof. done. Qed.

Lemma put_inside p bs d : 0 <= p <= zlen d -> put p bs d = take (Z.to_nat p) d ++ bs ++ drop (Z.to_nat (p + zlen bs)) d.
Proof.
  intros Hp. destruct bs as [| x bs].
  - rewrite put_nil. change (zlen (@nil Z)) with 0. rewrite Z.add_0_r. simpl. by rewrite take_drop.
  - unfold put, zeros. replace (Z.to_nat (p - zlen d)) with 0%nat by lia. simpl replicate. by rewrite app_nil_r.
Qed.

Lemma put_length p bs d : 0 <= p <= zlen d -> zlen (put p bs d) = Z.max (zlen d) (p + zlen bs).
Proof.
  intros Hp. rewrite put_inside by done. rewrite !zlen_app, zlen_take by lia. unfold zlen. rewrite length_drop. unfold zlen in *. lia.
Qed.

Lemma put_put p a b d : 0 <= p <= zlen d -> put (p + zlen a) b (put p a d) = put p (a ++ b) d.
Proof.
  intros Hp. pose proof (zlen_nonneg a). pose proof (zlen_nonneg b).
  rewrite (put_inside (p + zlen a)) by (rewrite put_length by done; lia). rewrite !put_inside by done.
  assert (Hx : zlen (take (Z.to_nat p) d) = p) by (apply zlen_take; lia).
  rewrite zlen_app, (app_assoc _ a), take_zlen by (rewrite zlen_app; lia). rewrite <- !app_assoc. do 3 f_equal.
  replace (Z.to_nat (p + zlen a + zlen b)) with (Z.to_nat (zlen (take (Z.to_nat p) d ++ a)) + Z.to_nat (zlen b))%nat
    by (rewrite zlen_app; lia).
  rewrite (app_assoc (take _ _)), <- drop_drop, drop_zlen by done. rewrite drop_drop. f_equal. lia.
Qed.

(** Reading over what was read ahead. *)
Lemma slice_ahead p n s bs d :
  0 <= s -> (forall i x, bs !! i = Some x -> (Z.to_nat s + i < length d)%nat -> d !! (Z.to_nat s + i)%nat = Some x) ->
  0 <= p -> p + n <= zlen d -> slice p n (put s bs d) = slice p n d.
Proof.
  intros Hs Hag Hp Hn. destruct bs as [| y bs']; [done |]. set (bs := y :: bs') in *.
  replace (put s bs d) with (take (Z.to_nat s) (d ++ zeros (s - zlen d)) ++ bs ++ drop (Z.to_nat (s + zlen bs)) d) by done. unfold slice.
  apply list_eq. intros i. destruct (decide (i < Z.to_nat n)%nat) as [Hi |]; [| by rewrite !lookup_take_ge by lia].
  rewrite !lookup_take_lt, !lookup_drop by done. set (j := (Z.to_nat p + i)%nat). unfold zlen in Hn.
  assert (Hj : (j < length d)%nat) by lia. set (t := take (Z.to_nat s) _).
  assert (Ht : length t = Z.to_nat s).
  { unfold t, zeros. rewrite length_take, length_app, length_replicate. unfold zlen. lia. }
  destruct (decide (j < Z.to_nat s)%nat).
  - rewrite lookup_app_l by lia. unfold t. rewrite lookup_take_lt, lookup_app_l by lia. done.
  - rewrite lookup_app_r, Ht by lia. destruct (decide (j - Z.to_nat s < length bs)%nat) as [Hin |].
    + rewrite lookup_app_l by done. destruct (lookup_lt_is_Some_2 bs _ Hin) as [x Hx]. rewrite Hx. symmetry.
      specialize (Hag _ _ Hx). replace (Z.to_nat s + (j - Z.to_nat s))%nat with j in Hag by lia. by apply Hag.
    + rewrite lookup_app_r, lookup_drop by lia. f_equal. unfold zlen. lia.
Qed.

Lemma contents_size f : lawful f -> pending f <> [] -> pos f <= zlen (contents f).
Proof.
  intros [Hs [Hp | [Hg _]] _ _ _] Hne; [done |]. unfold contents. rewrite put_length by done. unfold start in *. lia.
Qed.

(** Writing out what was held back. *)
Lemma flush_ok f : lawful f ->
  file_flush f = (true, mkFile (contents f) (pos f) (room f) [] (ahead f) (choices f)).
Proof.
  intros Hl. unfold file_flush, disk_write. pose proof (zlen_nonneg (pending f)).
  assert (Hn : Z.max 0 (Z.min (zlen (pending f)) (room f - start f)) = zlen (pending f)).
  { destruct (pending f) as [| x q] eqn:Hp; [change (zlen (@nil Z)) with 0; lia |].
    pose proof (contents_size f Hl ltac:(by rewrite Hp)). pose proof (lawful_room _ Hl). unfold start in *. rewrite Hp in *. lia. }
  rewrite Hn, Z.eqb_refl, take_ge, drop_ge by (unfold zlen; lia). done.
Qed.

(** A file of which nothing is held back. *)
Lemma lawful_flat d p r a cs : 0 <= p -> 0 <= fst a ->
  (forall i x, snd a !! i = Some x -> (Z.to_nat (fst a) + i < length d)%nat -> d !! (Z.to_nat (fst a) + i)%nat = Some x) ->
  zlen d <= r -> lawful (mkFile d p r [] a cs).
Proof.
  intros Hp Ha Hs Hr. split; [| by left | done | done | done].
  unfold start. cbn [pos pending]. change (zlen (@nil Z)) with 0. lia.
Qed.

Lemma flushed_lawful f : lawful f -> lawful (mkFile (contents f) (pos f) (room f) [] (ahead f) (choices f)).
Proof.
  intros [Hs Hg Ha Hsee Hr]. pose proof (zlen_nonneg (pending f)).
  apply lawful_flat; [unfold start in *; lia | done | | done].
  unfold contents. destruct Hg as [-> | [Hg Hn]]; [done |]. by rewrite Hn.
Qed.

Lemma flush_data f : lawful f -> data (snd (file_flush f)) = contents f.
Proof. intros Hl. by rewrite flush_ok. Qed.

Lemma stream_move_ok p f : lawful f -> 0 <= p ->
  exists f', move_to p f = (true, f') /\ move_to p (settle f) = (true, settle f') /\ lawful f' /\ pending f' = [] /\ pos f' = p /\
    contents f' = contents f /\ room f' = room f.
Proof.
  intros Hl Hp. unfold move_to at 1. rewrite flush_ok by done. destruct (Z.ltb_spec p 0); [lia |]. cbn [andb negb].
  eexists. split; [done |]. split; [by apply move_plain |].
  destruct (flushed_lawful f Hl) as [_ _ Ha Hsee Hr]. split_and!; try done. by apply lawful_flat.
Qed.

Lemma stream_read_ok n f : lawful f -> 0 <= n -> pos f + n <= zlen (contents f) ->
  exists bs f', file_read n f = (bs, f') /\ file_read n (settle f) = (bs, settle f') /\ lawful f' /\
    contents f' = contents f /\ pos f' = pos f + zlen bs /\ zlen bs = n.
Proof.
  intros Hl Hn Hp. pose proof (flushed_lawful f Hl) as [Hs _ Ha Hsee Hr]. unfold start in Hs. cbn [pos pending] in Hs. change (zlen (@nil Z)) with 0 in Hs. rewrite Z.sub_0_r in Hs. cbn [ahead data] in Ha, Hsee. unfold contents at 1 in Hr. cbn [pending data room] in Hr. rewrite put_nil in Hr.
  unfold file_read at 1. rewrite flush_ok by done. cbn [snd pos ahead data room pending choices].
  rewrite (slice_ahead (pos f) n (fst (ahead f))) by done. unfold settle at 1. rewrite read_plain.
  set (bs := slice (pos f) n (contents f)). assert (Hbs : zlen bs = n).
  { unfold bs, slice. rewrite zlen_take; [lia |]. unfold zlen in *. rewrite length_drop. lia. }
  assert (Hgood : forall a, 0 <= fst a -> (forall i x, snd a !! i = Some x -> (Z.to_nat (fst a) + i < length (contents f))%nat ->
    contents f !! (Z.to_nat (fst a) + i)%nat = Some x) -> forall cs, lawful (mkFile (contents f) (pos f + zlen bs) (room f) [] a cs)).
  { intros a Ha' Hsee' cs. apply lawful_flat; [lia | done..]. }
  destruct (choices f) as [| [| s m] cs]; (eexists _, _; split; [done |]; split; [done |]; split; [| done]).
  - by apply Hgood.
  - by apply Hgood.
  - apply Hgood; simpl; [lia |]. intros i x Hi _. unfold slice in Hi. apply lookup_take_Some in Hi as [Hi _].
    by rewrite lookup_drop in Hi.
Qed.

Lemma stream_write_ok w f : lawful f -> pos f <= zlen (contents f) -> pos f + zlen w <= room f ->
  exists f', file_write w f = (zlen w, f') /\ file_write w (settle f) = (zlen w, settle f') /\ lawful f' /\
    pos f' = pos f + zlen w /\ contents f' = put (pos f) w (contents f) /\ room f' = room f.
Proof.
  intros Hl Hp Hr. pose proof Hl as [Hs Hg Ha Hsee Hrm]. pose proof (zlen_nonneg w). pose proof (zlen_nonneg (pending f)).
  assert (Hin : start f <= zlen (data f)).
  { destruct Hg as [Hpe | [Hg _]]; [| done]. unfold contents, start in *. rewrite Hpe in *. simpl in Hp. change (zlen (@nil Z)) with 0. lia. }
  assert (Hpos : pos f = start f + zlen (pending f)) by (unfold start; lia).
  assert (Hput : put (start f) (pending f ++ w) (data f) = put (pos f) w (contents f)).
  { unfold contents. rewrite Hpos at 1. by rewrite put_put. }
  assert (Hsize : zlen (put (pos f) w (contents f)) <= room f) by (rewrite put_length by lia; lia).
  assert (Hset : file_write w (settle f) = (zlen w, plain (put (pos f) w (contents f)) (pos f + zlen w) (room f))).
  { unfold settle. rewrite write_plain. replace (Z.max 0 _) with (zlen w) by lia. by rewrite take_ge by (unfold zlen; lia). }
  assert (Hpass : forall cs, (let '(n, d) := disk_write (start f) (pending f ++ w) f in
      (Z.max 0 (n - zlen (pending f)),
       mkFile d (start f + Z.max n (zlen (pending f))) (room f) (drop (Z.to_nat n) (pending f)) (0, []) cs)) =
      (zlen w, mkFile (put (pos f) w (contents f)) (pos f + zlen w) (room f) [] (0, []) cs)).
  { intros cs. unfold disk_write. rewrite zlen_app. replace (Z.max 0 (Z.min _ _)) with (zlen (pending f) + zlen w) by lia.
    rewrite take_ge, Hput by (rewrite length_app; unfold zlen; lia). rewrite drop_ge by (unfold zlen; lia). do 2 f_equal; lia. }
  assert (Hthen : forall cs, let f' := mkFile (put (pos f) w (contents f)) (pos f + zlen w) (room f) [] (0, []) cs in
    settle f' = plain (put (pos f) w (contents f)) (pos f + zlen w) (room f) /\ lawful f' /\ contents f' = put (pos f) w (contents f)).
  { intros cs f'. split_and!; [done | | done]. apply lawful_flat; [unfold start in *; lia | done..]. }
  unfold file_write at 1. destruct (choices f) as [| [| s m] cs] eqn:Hch.
  - cbn [tail]. rewrite Hpass. eexists. split; [done |]. rewrite Hset. destruct (Hthen []) as (-> & ? & ?). done.
  - eexists. split; [done |]. set (f' := mkFile _ _ _ _ _ _).
    assert (Hc : contents f' = put (pos f) w (contents f)).
    { rewrite <- Hput. unfold contents, start. subst f'. cbn [pos pending data]. rewrite zlen_app. f_equal. lia. }
    rewrite Hset. split; [unfold settle; by rewrite Hc |]. split; [| done]. split; [| right | done | done | by rewrite Hc].
    + unfold start in *. subst f'. cbn [pos pending]. rewrite zlen_app. lia.
    + unfold start in *. subst f'. cbn [pos pending data ahead snd]. rewrite zlen_app. split; [lia | done].
  - cbn [tail]. rewrite Hpass. eexists. split; [done |]. rewrite Hset. destruct (Hthen cs) as (-> & ? & ?). done.
Qed.

Lemma put_cut n p b d : 0 <= p <= zlen d -> p + zlen b <= n <= zlen (put p b d) ->
  take (Z.to_nat n) (put p b d) = put p b (take (Z.to_nat n) d ++ zeros (n - zlen d)).
Proof.
  intros Hp Hn. pose proof (zlen_nonneg b). pose proof (zlen_nonneg d). rewrite put_length in Hn by done.
  assert (Hx : zlen (take (Z.to_nat p) d) = p) by (apply zlen_take; lia).
  rewrite put_inside by done. unfold zeros. destruct (Z.le_gt_cases n (zlen d)) as [Hle | Hgt].
  - replace (Z.to_nat (n - zlen d)) with 0%nat by lia. simpl replicate. rewrite app_nil_r.
    rewrite put_inside by (rewrite zlen_take; lia). rewrite take_take, Nat.min_l by lia. rewrite !take_app, take_ge by (unfold zlen in *; lia).
    rewrite (take_ge b) by (unfold zlen in *; lia). do 2 f_equal. rewrite skipn_firstn_comm. f_equal. unfold zlen in *. lia.
  - assert (Hq : n = p + zlen b) by lia. rewrite (take_ge d (Z.to_nat n)) by (unfold zlen in *; lia).
    rewrite put_inside by (rewrite zlen_app, zlen_replicate; lia). rewrite (take_app_le d) by (unfold zlen in *; lia).
    rewrite app_assoc, take_zlen by (rewrite zlen_app; lia). rewrite drop_ge, app_nil_r; [done |].
    rewrite length_app, length_replicate. unfold zlen in *. lia.
Qed.

(** Cutting the file where no byte held back belongs. *)
Lemma cut_ok n f : lawful f -> 0 <= n <= zlen (contents f) -> pending f = [] \/ pos f <= n ->
  exists f', resize_file n f = (true, f') /\ resize_file n (settle f) = (true, settle f') /\ lawful f' /\ pos f' = pos f.
Proof.
  intros Hl Hn Hpe. pose proof Hl as [Hs Hg Ha Hsee Hr]. unfold resize_file, settle. cbn [data pos room pending ahead choices].
  destruct (Z.ltb_spec (room f) n) as [| _]; [lia |]. eexists. split; [done |]. pose proof (zlen_nonneg (pending f)).
  set (d' := take (Z.to_nat n) (data f) ++ zeros (n - zlen (data f))).
  assert (Hd' : pending f = [] \/ zlen d' = n /\ start f <= n /\ snd (ahead f) = []).
  { destruct Hg as [| [Hg Hah]]; [by left |]. destruct Hpe as [| Hpn]; [by left | right]. unfold start in *.
    split; [| split; [lia | done]]. unfold d', zeros. rewrite zlen_app, zlen_replicate. unfold zlen in *. rewrite length_take. lia. }
  assert (Hc : put (start f) (pending f) d' = take (Z.to_nat n) (contents f)).
  { unfold contents in *. destruct Hg as [Hq | [Hg _]].
    - rewrite Hq in *. rewrite !put_nil in *. unfold d', zeros. replace (Z.to_nat (n - zlen (data f))) with 0%nat by lia. by rewrite app_nil_r.
    - destruct Hpe as [Hq | Hpn]; [| symmetry; apply put_cut; unfold start in *; lia].
      rewrite Hq in *. rewrite !put_nil in *. unfold d', zeros. replace (Z.to_nat (n - zlen (data f))) with 0%nat by lia. by rewrite app_nil_r. }
  set (f' := mkFile d' _ _ _ _ _). assert (Hcf : contents f' = take (Z.to_nat n) (contents f)) by exact Hc.
  split; [| split; [| done]].
  - rewrite Hcf. unfold zeros. replace (Z.to_nat (n - zlen (contents f))) with 0%nat by lia. by rewrite app_nil_r.
  - split; [done | | done | |]; cbn [f' start pos room data pending ahead].
    + destruct Hd' as [| (-> & ? & ?)]; [by left | by right].
    + intros i x Hi Hlt. destruct Hd' as [Hq | (_ & _ & Hn')]; [| by rewrite Hn' in Hi].
      unfold contents in Hn. rewrite Hq, put_nil in Hn. unfold d', zeros in *. replace (Z.to_nat (n - zlen (data f))) with 0%nat in * by lia.
      rewrite app_nil_r in *. rewrite length_take in Hlt. rewrite lookup_take_lt by lia. apply Hsee; [done | lia].
    + rewrite Hcf. unfold zlen in *. rewrite length_take. lia.
Qed.

(** ** Both files take the same steps *)

Lemma locating_both l b i : holds l (settled b) -> lawful (_file b) -> 0 <= i <= zlen l ->
  exists b', locating i b = (true, b') /\ locating i (settled b) = (true, settled b') /\ lawful (_file b') /\
    pending (_file b') = [] /\ holds l (settled b') /\ same_file b b' /\ pos (_file b') = i * _block_size b /\
    contents (_file b') = contents (_file b).
Proof.
  intros Hh Hl Hi. destruct (locating_ok l (settled b) i Hh Hi) as (c & E & Hc & _ & _).
  pose proof (holds_bytes _ _ Hh) as Hb. destruct Hh as [_ _ Ht Hs Ho _ Hps Hr]. destruct b as [f off t bs].
  unfold settled, settle in *. cbn [_file _offset _total_blocks _block_size pos data room] in *. subst off.
  unfold locating in *. cbn [_file _offset _total_blocks _block_size] in *. destruct (Z.ltb_spec t i) as [|_]; [lia |].
  assert (0 <= i * bs <= zlen (contents f)) by nia. pose proof (lawful_room _ Hl).
  rewrite u64_id, s64_id in * by lia. unfold seek_cur in *. cbn [pos] in *. replace (pos f + (i * bs - pos f)) with (i * bs) in * by lia.
  destruct (stream_move_ok (i * bs) f Hl ltac:(lia)) as (f' & E1 & E2 & Hl' & Hpe & Hpos & Hcs & Hrm).
  unfold settle in E2. rewrite E1. rewrite E2 in *. eexists. split; [done |]. split; [done |]. cbn [_file]. split; [done |].
  split; [done |]. split; [by injection E as <- |]. by split_and!.
Qed.

Lemma read_loop_both n : forall b, lawful (_file b) -> 0 <= _block_size b ->
  pos (_file b) + Z.of_nat n * _block_size b <= zlen (contents (_file b)) ->
  exists out b', read_loop n b = (out, b') /\ read_loop n (settled b) = (out, settled b') /\ lawful (_file b').
Proof.
  induction n as [| n IH]; intros b Hl Hbs Hp; [by exists [], b |]. destruct b as [f off t bs].
  cbn [_file _block_size] in *. cbn [read_loop settled _file _offset _total_blocks _block_size].
  destruct (stream_read_ok bs f Hl Hbs ltac:(nia)) as (x & f' & E1 & E2 & Hl' & Hc & Hpos & Hx). rewrite E1, E2, Hx, Z.eqb_refl.
  destruct (IH (mkBlockFile f' (off + bs) t bs)) as (out & b' & R1 & R2 & Hl2); [done | done | cbn [_file _block_size]; rewrite Hc, Hpos; nia |].
  unfold settled in R2. cbn [_file _offset _total_blocks _block_size] in R2. rewrite R1, R2. by eexists _, _.
Qed.

Lemma padding_write_both pad w b :
  lawful (_file b) -> pos (_file b) <= zlen (contents (_file b)) -> zlen w <= _block_size b -> zlen pad = _block_size b ->
  pos (_file b) + _block_size b <= room (_file b) ->
  exists b', padding_write pad w b = (_block_size b, b') /\ padding_write pad w (settled b) = (_block_size b, settled b') /\
    lawful (_file b') /\ pos (_file b') = pos (_file b) + _block_size b /\ pos (_file b') <= zlen (contents (_file b')) /\
    same_file b b' /\ _total_blocks b' = _total_blocks b.
Proof.
  destruct b as [f off t bs]. cbn [_file _block_size _total_blocks]. intros Hl Hp Hw Hpad Hr. pose proof (zlen_nonneg w).
  assert (Hgrow : forall g u, 0 <= pos g <= zlen (contents g) -> pos g + zlen u <= zlen (put (pos g) u (contents g)))
    by (intros g u Hg; rewrite put_length by done; lia).
  pose proof (lawful_start _ Hl). pose proof (zlen_nonneg (pending f)). assert (0 <= pos f) by (unfold start in *; lia).
  unfold padding_write, settled. cbn [_file _offset _total_blocks _block_size].
  destruct (stream_write_ok w f Hl Hp ltac:(lia)) as (f1 & E1 & E2 & Hl1 & Hp1 & Hc1 & Hr1). rewrite E1, E2, Z.eqb_refl. cbn [andb].
  assert (Hin : pos f1 <= zlen (contents f1)) by (rewrite Hc1, Hp1; by apply Hgrow).
  destruct (Z.eqb_spec (zlen w) bs) as [Hfull | Hpart]; cbn [negb].
  - rewrite Hfull in *. eexists. by split_and!.
  - set (tl := take (Z.to_nat (bs - zlen w)) pad). assert (Htl : zlen tl = bs - zlen w) by (apply zlen_take; lia).
    destruct (stream_write_ok tl f1 Hl1 Hin ltac:(lia)) as (f2 & F1 & F2 & Hl2 & Hp2 & Hc2 & Hr2). rewrite F1, F2.
    replace (zlen w + zlen tl) with bs by lia. eexists. split_and!; try done; cbn [_file]; [lia | | by split; cbn; congruence].
    rewrite Hc2, Hp2. apply Hgrow. lia.
Qed.

Lemma write_loop_both fuel : forall w done b pad,
  lawful (_file b) -> pos (_file b) <= zlen (contents (_file b)) -> 0 < _block_size b -> zlen pad = _block_size b ->
  pos (_file b) + zlen (chunks (length w) (_block_size b) pad w) * _block_size b <= room (_file b) -> (length w < fuel)%nat ->
  exists n b', write_loop fuel pad w done b = Ret (n, b') /\ write_loop fuel pad w done (settled b) = Ret (n, settled b') /\
    lawful (_file b').
Proof.
  induction fuel as [| fuel IH]; intros w done b pad Hl Hp Hbs Hpad Hr Hf; [lia |]. cbn [write_loop].
  change (_block_size (settled b)) with (_block_size b). destruct (Z.eqb_spec (zlen w) 0) as [Hz | Hz]; [by eexists _, _ |].
  pose proof (zlen_nonneg w). set (s := if _block_size b <? zlen w then _block_size b else zlen w).
  rewrite (chunks_step _ pad w Hbs Hz), zlen_cons in Hr. set (rest := chunks _ _ _ _) in Hr. pose proof (zlen_nonneg rest).
  assert (Hs : zlen (take (Z.to_nat s) w) <= _block_size b).
  { subst s. destruct (Z.ltb_spec (_block_size b) (zlen w)); rewrite zlen_take; lia. }
  destruct (padding_write_both pad (take (Z.to_nat s) w) b Hl Hp Hs Hpad ltac:(nia)) as
    (b1 & E1 & E2 & Hl1 & Hp1 & Hin1 & [Hbs1 Hr1] & Ht1). rewrite E1, E2.
  cbn [_block_size settled]. rewrite <- Hbs1, Z.eqb_refl. cbn [negb].
  set (b2 := mkBlockFile (_file b1) (_offset b1) (_total_blocks b1 + 1) (_block_size b1)).
  assert (Hd : drop (Z.to_nat s) w = drop (Z.to_nat (_block_size b)) w).
  { subst s. destruct (Z.ltb_spec (_block_size b) (zlen w)); [done |]. rewrite !drop_ge by (unfold zlen in *; lia). done. }
  destruct (IH (drop (Z.to_nat s) w) (done + _block_size b1) b2 pad) as (n & b' & R1 & R2 & Hl'); try done; cbn [b2 _file _block_size].
  - lia.
  - congruence.
  - rewrite Hd, Hp1, Hr1, Hbs1. fold rest. lia.
  - rewrite length_drop. subst s. destruct (_ <? _); unfold zlen in *; lia.
  - exists n, b'. split; [exact R1 |]. split; [exact R2 | done].
Qed.

Lemma run_op_both l b op :
  holds l (settled b) -> lawful (_file b) -> op_ok (_block_size b) op = true ->
  held_ok (_block_size b) (room (_file b)) op l = true ->
  exists o b', run_op op b = Ret (o, b') /\ run_op op (settled b) = Ret (o, settled b') /\ lawful (_file b').
Proof.
  intros Hh Hl Hok Hk. pose proof (holds_total _ _ Hh) as Ht. pose proof (holds_size _ _ Hh) as Hbs.
  pose proof (holds_offset _ _ Hh) as Hoff. pose proof (holds_bytes _ _ Hh) as Hby. pose proof (holds_room _ _ Hh) as Hrm.
  change (data (_file (settled b))) with (contents (_file b)) in *. change (pos (_file (settled b))) with (pos (_file b)) in *.
  change (room (_file (settled b))) with (room (_file b)) in *.
  change (_total_blocks (settled b)) with (_total_blocks b) in *. change (_block_size (settled b)) with (_block_size b) in *.
  change (_offset (settled b)) with (_offset b) in *. pose proof (zlen_nonneg l).
  destruct op as [i n | pad w i | pad w | n | n |]; simpl in Hok, Hk; zbool; cbn [run_op].
  - unfold read. change (_total_blocks (settled b)) with (_total_blocks b). rewrite Ht, u64_id by lia.
    destruct (Z.ltb_spec (zlen l) (i + n)); [by eexists _, _ |].
    destruct (locating_both l b i Hh Hl ltac:(lia)) as (b1 & -> & -> & Hl1 & _ & Hh1 & [Hs1 _] & Hp1 & Hc1).
    destruct (read_loop_both (Z.to_nat n) b1 Hl1) as (out & b' & -> & -> & Hl'); [lia | rewrite Hp1, Hc1, Hs1, Hby; nia |]. by eexists _, _.
  - unfold update. change (_total_blocks (settled b)) with (_total_blocks b). rewrite Ht.
    destruct (Z.leb_spec (zlen l) i); [by eexists _, _ |].
    destruct (locating_both l b i Hh Hl ltac:(lia)) as (b1 & -> & -> & Hl1 & _ & Hh1 & [Hs1 Hr1] & Hp1 & Hc1).
    cbn [_block_size settled].
    destruct (padding_write_both pad (take (Z.to_nat (_block_size b1)) w) b1 Hl1 ltac:(rewrite Hp1, Hc1, Hby; nia)
      ltac:(apply take_bounded; lia) ltac:(lia) ltac:(rewrite Hp1, Hs1, Hr1; nia)) as (b' & E1 & E2 & Hl' & _).
    rewrite E1, E2. by eexists _, _.
  - unfold write_to_back. change (_total_blocks (settled b)) with (_total_blocks b). rewrite Ht.
    destruct (locating_both l b (zlen l) Hh Hl ltac:(lia)) as (b1 & -> & -> & Hl1 & _ & Hh1 & [Hs1 Hr1] & Hp1 & Hc1).
    destruct (write_loop_both (S (length w)) w 0 b1 pad Hl1 ltac:(rewrite Hp1, Hc1, Hby; lia) ltac:(lia) ltac:(lia)
      ltac:(rewrite Hp1, Hs1, Hr1; lia) ltac:(lia)) as (n & b' & -> & -> & Hl'). by eexists _, _.
  - unfold erase_back_blocks. change (_total_blocks (settled b)) with (_total_blocks b).
    change (_block_size (settled b)) with (_block_size b). change (_offset (settled b)) with (_offset b). rewrite Ht.
    destruct (Z.ltb_spec (zlen l) n); [by eexists _, _ |].
    assert (0 <= (zlen l - n) * _block_size b <= zlen (contents (_file b))) by nia. rewrite u64_id by lia.
    assert (Hb1 : exists b1, (if (zlen l - n) * _block_size b <? _offset b then snd (locating (zlen l - n) b) else b) = b1 /\
      (if (zlen l - n) * _block_size b <? _offset b then snd (locating (zlen l - n) (settled b)) else settled b) = settled b1 /\
      lawful (_file b1) /\ contents (_file b1) = contents (_file b) /\ pos (_file b1) <= (zlen l - n) * _block_size b).
    { destruct (Z.ltb_spec ((zlen l - n) * _block_size b) (_offset b)); [| exists b; split_and!; try done; lia].
      destruct (locating_both l b (zlen l - n) Hh Hl ltac:(lia)) as (b1 & -> & -> & Hl1 & _ & Hh1 & _ & Hp1 & Hc1).
      exists b1. split_and!; try done. lia. }
    destruct Hb1 as (b1 & E1 & E2 & Hl1 & Hc1 & Hp1). rewrite E1, E2.
    destruct (cut_ok ((zlen l - n) * _block_size b) (_file b1) Hl1 ltac:(rewrite Hc1; lia) ltac:(by right)) as (f' & R1 & R2 & Hl' & _).
    change (_file (settled b1)) with (settle (_file b1)). rewrite R1, R2. cbn [negb]. by eexists _, _.
  - done.
  - eexists _, _. split; [done |]. unfold flush. change (_file (settled b)) with (settle (_file b)). unfold settle.
    rewrite flush_plain, flush_ok by done. split; [done |]. by apply flushed_lawful.
Qed.

(** The library passes everything on at once, as it does with blocks not smaller than its buffer. *)
Definition passes_on (b : BlockFile) : Prop :=
  pending (_file b) = [] /\ ahead (_file b) = (0, []) /\ choices (_file b) = [].

Lemma passing_settled b : passes_on b -> settled b = b.
Proof.
  destruct b as [[d p r pe ah ch] off t bs]. unfold passes_on, settled, settle, contents. cbn. by intros (-> & -> & ->).
Qed.

Lemma holding_passes l b : holds l b -> passes_on b.
Proof. intros Hh. apply (holds_plain _ _ Hh). Qed.

Lemma holding_lawful l b : holds l b -> lawful (_file b).
Proof.
  intros [_ _ _ _ _ (Hpe & Hah & Hch) Hp Hr]. destruct b as [[d p r pe ah ch] off t bs]. cbn in *. subst.
  apply lawful_flat; [lia | done | done | lia].
Qed.

Lemma run_op_refines l b op :
  holds l (settled b) -> lawful (_file b) -> op_ok (_block_size b) op = true ->
  passes_on b \/ held_ok (_block_size b) (room (_file b)) op l = true ->
  exists b', run_op op b = Ret (fst (spec_op (_block_size b) (room (_file b)) op l), b') /\
    holds (snd (spec_op (_block_size b) (room (_file b)) op l)) (settled b') /\ lawful (_file b') /\ same_file b b' /\
    (passes_on b -> passes_on b').
Proof.
  intros Hh Hl Hok Hk. destruct (run_op_ok l (settled b) op Hh Hok) as (c & Ec & Hc & Hs).
  change (_block_size (settled b)) with (_block_size b) in *. change (room (_file (settled b))) with (room (_file b)) in *.
  assert (Hcase : passes_on b \/ exists o b', run_op op b = Ret (o, b') /\ run_op op (settled b) = Ret (o, settled b') /\ lawful (_file b'))
    by (destruct Hk; [by left | right; by apply (run_op_both l)]).
  destruct (decide (pending (_file b) = [] /\ ahead (_file b) = (0, []) /\ choices (_file b) = [])) as [Hp | Hn].
  - rewrite (passing_settled b Hp) in *. pose proof (holding_passes _ _ Hc) as Hpc. exists c. rewrite (passing_settled c Hpc).
    split_and!; try done. by eapply holding_lawful.
  - destruct Hcase as [Hp | (o & b' & E1 & E2 & Hl')]; [by destruct Hn |]. rewrite E2 in Ec. injection Ec as -> Hcb.
    exists b'. rewrite E1, Hcb. split_and!; try done. rewrite <- Hcb in Hs. exact Hs.
Qed.


(** Blocks of 4 bytes on a disk with room for 15: the third block of the append does not fit. *)
Definition small_file : BlockFile := mkBlockFile (plain [1; 2; 3; 4] 0 15) 0 1 4.

(** The same file behind a library that keeps writes and reads ahead. *)
Definition lazy_file : BlockFile := mkBlockFile (mkFile [1; 2; 3; 4] 0 15 [] (0, []) [Keep; Fetch 0 8; Keep]) 0 1 4.


(** What a resize makes of bytes the library holds back: an appended block is cut off and the file
    made longer again; the block comes back where zeros should be. *)
Example resize_brings_back :
  match run_ops [FAppend [0; 0; 0; 0] [5; 6; 7; 8]; FResize 1; FResize 2; FRead 1 1] lazy_file with
  | Ret (out, _) => out = [OWritten 4; OSuccess true; OSuccess true; OBytes [5; 6; 7; 8]]
  | Fault _ => False
  end /\
  match run_ops [FAppend [0; 0; 0; 0] [5; 6; 7; 8]; FResize 1; FResize 2; FRead 1 1] small_file with
  | Ret (out, _) => out = [OWritten 4; OSuccess true; OSuccess true; OBytes [0; 0; 0; 0]]
  | Fault _ => False
  end.
Proof. by vm_compute. Qed.

(** The constructor leaves a file of whole blocks as the array of its blocks. *)
Lemma BlockFile_new_holds l f bs :
  blocks_of bs l -> 0 < bs -> data f = mjoin l -> pos f = 0 -> pending f = [] -> ahead f = (0, []) ->
  zlen (data f) <= room f < 4611686018427387904 ->
  exists b, BlockFile_new f bs = Ret b /\ holds l (settled b) /\ lawful (_file b).
Proof.
  intros Hl Hbs Hd Hp Hpe Hah Hr. unfold BlockFile_new. destruct (Z.eqb_spec bs 0) as [| _]; [lia |].
  pose proof (zlen_join bs l Hl) as Hj. rewrite Hd in *. pose proof (zlen_nonneg l).
  rewrite Hj, Z.rem_mul, Z.eqb_refl, Z.div_mul by lia. eexists. split; [done |].
  destruct f as [d p r pe ah ch]. cbn [data pos room pending ahead choices] in *. subst. split.
  - split; simpl; try done; lia.
  - apply lawful_flat; [done | done | done | cbn [_file]; lia].
Qed.

(** [open] on a default-constructed object divides by its block size, 0. *)
Example default_open_faults f : open f (BlockFile_default f) = Fault DividedByZero.
Proof. reflexivity. Qed.

(** A file whose size is not a multiple of the block size makes the constructor throw, where
    [open] rounds down. *)
Example odd_size_throws : BlockFile_new (plain [1; 2; 3] 0 100) 2 = Fault Thrown.
Proof. reflexivity. Qed.
