(* ===== verification/SchedulerImpl.v ===== *)
(** * SchedulerImpl: the block scheduler over the cache (Base/BPTree_impls/Impl_Scheduler.hpp,
    src/Impl_Scheduler.cpp)

    [LRU_Helper] gives the cache of LRUCache.v its values: buffers of the pool of BufferPool.v,
    filled from and written to the file of BlockFile.v.  The laws of LRUSpec.v hold for it, and
    so the scheduler, as the tree of TreeBlocks.v uses it, hands out the blocks last written. *)

From stdpp Require Import gmap sorting.
From S2P Require Import Prelude TreeBlocks BufferPool PoolSafety BlockFile LRUCache LRUSpec LRUSession.
Local Open Scope Z_scope.

(** ** The bytes of a block *)

Definition block_bytes : Type := { l : list Z | (zlen l =? BLOCK_SIZE) = true }.

Definition to_block (l : list Z) : option block_bytes :=
  match Sumbool.sumbool_of_bool (zlen l =? BLOCK_SIZE) with left H => Some (exist _ l H) | right _ => None end.

Definition zero_list : list Z := zeros BLOCK_SIZE.

Lemma zero_list_block : (zlen zero_list =? BLOCK_SIZE) = true.
Proof. unfold zero_list, zeros. by rewrite zlen_replicate. Qed.

Definition zero_block : block_bytes := exist _ zero_list zero_list_block.

Lemma block_ext (x y : block_bytes) : proj1_sig x = proj1_sig y -> x = y.
Proof.
  destruct x as [x Hx], y as [y Hy]. simpl. intros ->. f_equal. apply Eqdep_dec.UIP_dec, Bool.bool_dec.
Qed.

Lemma to_block_bytes (x : block_bytes) : to_block (proj1_sig x) = Some x.
Proof.
  unfold to_block. destruct (Sumbool.sumbool_of_bool _) as [H | H]; [f_equal; by apply block_ext |].
  destruct x as [x Hx]. simpl in H. congruence.
Qed.

Lemma to_block_some l x : to_block l = Some x -> proj1_sig x = l.
Proof. unfold to_block. destruct (Sumbool.sumbool_of_bool _); [by intros [= <-] | done]. Qed.

Lemma to_block_none l : to_block l = None <-> zlen l <> BLOCK_SIZE.
Proof.
  unfold to_block. destruct (Sumbool.sumbool_of_bool _) as [H | H].
  - split; [done |]. apply Z.eqb_eq in H as H'. done.
  - apply Z.eqb_neq in H. by split.
Qed.

Lemma block_zlen (x : block_bytes) : zlen (proj1_sig x) = BLOCK_SIZE.
Proof. destruct x as [x Hx]. simpl. by apply Z.eqb_eq. Qed.

(** ** LRU_Helper *)

(** A [Buffer] of the pool, and what its memory holds. *)
Record Buffer := mkBuffer { place : Z * Z; contents : block_bytes }.

Record LRU_Helper := mkHelper {
  _memory_pool : BufferPool; _file : BlockFile; _total_blocks : Z; need_read_from_file : bool }.

Definition with_pool (p : BufferPool) (h : LRU_Helper) : LRU_Helper :=
  mkHelper p (_file h) (_total_blocks h) (need_read_from_file h).
Definition with_file (f : BlockFile) (h : LRU_Helper) : LRU_Helper :=
  mkHelper (_memory_pool h) f (_total_blocks h) (need_read_from_file h).

(** [LRU_Helper(filename, memory_size)]; [f] is what [fopen] gives, nothing if the file cannot
    be opened, and [memalign_ok] the answer of [posix_memalign]. *)
Definition LRU_Helper_open (f : option ioFile) (memory_size : Z) (memalign_ok : bool) : res LRU_Helper :=
  p ← pool_new memory_size memalign_ok;
  f ← from_option Ret (Fault Thrown) f;
  b ← BlockFile_new f BLOCK_SIZE;
  Ret (mkHelper p b (u32 (BlockFile._total_blocks b)) false).

(** [LRU_Helper(file, memory_size)]; [is_open] tells whether the file moved in is open. *)
Definition LRU_Helper_new (is_open : bool) (b : BlockFile) (memory_size : Z) (memalign_ok : bool) : res LRU_Helper :=
  p ← pool_new memory_size memalign_ok;
  mcheck is_open Thrown;;
  mcheck (_block_size b =? BLOCK_SIZE) Thrown;;
  Ret (mkHelper p b (u32 (BlockFile._total_blocks b)) false).

Definition can_create_block (_ : Z) (h : LRU_Helper) : bool :=
  match max_block (_memory_pool h) with Ret m => BLOCK_SIZE <=? m | Fault _ => false end.

(** [~Buffer]. *)
Definition destroy_block (v : Buffer) (h : LRU_Helper) : outcome LRU_Helper unit :=
  match BufferPool.put (place v) (_memory_pool h) with
  | Ret p => Done tt (with_pool p h)
  | Fault f => Stuck f
  end.

Section Helper.
(** What the memory of the pool holds at a place that is handed out. *)
Context (stale : Z * Z -> block_bytes).

(** A refused request gives a buffer with a null pointer, which [read] would write to.  When
    [create] throws, the buffer goes back to the pool. *)
Definition create_block (index : Z) (h : LRU_Helper) : outcome LRU_Helper Buffer :=
  match BufferPool.get BLOCK_SIZE (_memory_pool h) with
  | Fault f => Stuck f
  | Ret (None, _) => Stuck BadPointer
  | Ret (Some p, pool) =>
      let h := with_pool pool h in
      if need_read_from_file h then
        let '(bs, f) := BlockFile.read index 1 (_file h) in
        let h := with_file f h in
        match to_block bs with
        | Some x => Done (mkBuffer p x) h
        | None => match destroy_block (mkBuffer p (stale p)) h with
                  | Done _ h => Threw h | Threw h => Threw h | Stuck f => Stuck f end
        end
      else Done (mkBuffer p (stale p)) h
  end.

Definition update_block (index : Z) (buffer : Buffer) (h : LRU_Helper) : outcome LRU_Helper unit :=
  let '(resized, h) :=
    (if BlockFile._total_blocks (_file h) <=? index then
       let '(ok, f) := resize_file_total_blocks (_total_blocks h) (_file h) in (ok, with_file f h)
     else (true, h)) in
  if negb resized then Threw h else
  if negb (index <=? BlockFile._total_blocks (_file h)) then Stuck AssertFailed else
  let '(update_size, f) := BlockFile.update zero_list (proj1_sig (contents buffer)) index (_file h) in
  if update_size =? BLOCK_SIZE then Done tt (with_file f h) else Threw (with_file f h).

(** The helper as the cache sees it.  It has no [release] and no [erase]; [adjust] is
    [_total_blocks++]. *)
#[local] Instance scheduler_helper : CacheHelper LRU_Helper Z Buffer := {|
  emplace_invalidates _ := false;
  can_create := can_create_block;
  create := create_block;
  update := update_block;
  has_release_callable := false;
  release k v h := h;
  release_key k h := h;
  erase_notice k h := h;
  destroy := destroy_block;
  set_reads b h := mkHelper (_memory_pool h) (_file h) (_total_blocks h) b;
  adjustment := unit;
  adjust _ h := mkHelper (_memory_pool h) (_file h) (u32 (_total_blocks h + 1)) (need_read_from_file h) |}.

(** ** The blocks of the file *)

(** What the file has for a block: zeros behind its end. *)
Definition file_block (h : LRU_Helper) (i : Z) : block_bytes :=
  if i <? 0 then zero_block else
  default zero_block (to_block (slice (i * BLOCK_SIZE) BLOCK_SIZE (data (BlockFile._file (_file h))))).

Definition nth_block (l : list (list Z)) (i : Z) : block_bytes :=
  if i <? 0 then zero_block else default zero_block (l !! Z.to_nat i ≫= to_block).

Lemma file_nth l b h i : holds l b -> _block_size b = BLOCK_SIZE -> _file h = b -> file_block h i = nth_block l i.
Proof.
  intros Hh Hbs <-. unfold file_block, nth_block. destruct (Z.ltb_spec i 0); [done |]. f_equal.
  pose proof (holds_blocks _ _ Hh) as Hbl. rewrite Hbs in Hbl. rewrite (holds_data _ _ Hh).
  destruct (l !! Z.to_nat i) as [x |] eqn:Hx; simpl.
  - apply list_elem_of_split_length in Hx as (l1 & l2 & -> & Hl1). f_equal.
    apply list.Forall_app in Hbl as [Hb1 [Hx Hb2]%list.Forall_cons].
    rewrite join_app. simpl. apply slice_mid; [| done]. rewrite (zlen_join BLOCK_SIZE) by done. unfold zlen, BLOCK_SIZE. lia.
  - apply lookup_ge_None in Hx. apply to_block_none. unfold slice, zlen.
    rewrite length_take, length_drop. pose proof (zlen_join _ _ Hbl) as Hj. unfold zlen, BLOCK_SIZE in *. lia.
Qed.

Lemma nth_resized l n i : zlen l <= n -> nth_block (resized BLOCK_SIZE n l) i = nth_block l i.
Proof.
  intros Hn. unfold nth_block. destruct (Z.ltb_spec i 0); [done |]. unfold resized.
  rewrite take_ge by (unfold zlen in *; lia). rewrite lookup_app.
  destruct (l !! Z.to_nat i) as [x |] eqn:Hx; [done |]. simpl.
  destruct (replicate _ _ !! _) as [x |] eqn:Hr; [| done]. apply lookup_replicate in Hr as [-> _].
  exact (f_equal (default zero_block) (to_block_bytes zero_block)).
Qed.

Lemma nth_insert l i x j :
  0 <= i < zlen l -> nth_block (<[Z.to_nat i := proj1_sig x]> l) j = if decide (j = i) then x else nth_block l j.
Proof.
  intros Hi. unfold nth_block. destruct (Z.ltb_spec j 0); [case_decide; [lia | done] |]. case_decide as Hj.
  - subst j. rewrite list_lookup_insert_eq by (unfold zlen in Hi; lia). simpl. by rewrite to_block_bytes.
  - by rewrite list_lookup_insert_ne by lia.
Qed.

(** ** The laws *)

(** The live buffers come from the pool, the file is an array of blocks no longer than the
    scheduler counts, and the cached blocks are counted ones (or the next one). *)
Record owned (vs : list (Z * Buffer)) (h : LRU_Helper) : Prop := {
  owned_pool : exists L, 0 <= L < 31 /\ pool_good L (_memory_pool h) (place ∘ snd <$> vs);
  owned_file : exists l, holds l (_file h) /\ zlen l <= _total_blocks h;
  owned_size : _block_size (_file h) = BLOCK_SIZE;
  owned_total : 0 <= _total_blocks h < 4294967296;
  owned_keys k v : (k, v) ∈ vs -> 0 <= k <= _total_blocks h;
}.

Lemma pool_get_block L p live m :
  0 <= L < 31 -> pool_good L p live -> max_block p = Ret m -> BLOCK_SIZE <= m ->
  exists b p', BufferPool.get BLOCK_SIZE p = Ret (Some b, p') /\ pool_good L p' (b :: live).
Proof.
  intros HL Hg Hm Hle.
  destruct (pool_exec_good L (PGet BLOCK_SIZE) p live HL eq_refl Hg) as (p1 & live1 & E & Hg1 & _).
  destruct Hg as (U & Hp & _).
  destruct (get_ok L HL p U BLOCK_SIZE Hp ltac:(unfold BLOCK_SIZE; lia)) as (k & _ & Hround & _ & [[Hlow _] | Hgot]).
  - assert (Hk : BLOCK_SIZE * 2 ^ k = BLOCK_SIZE) by (change (round_size BLOCK_SIZE) with (Ret BLOCK_SIZE) in Hround; congruence).
    unfold max_block, of_option in Hm. unfold nd in Hlow. change (Z.to_nat 0) with O in Hlow.
    destruct (_rest p !! O) as [x |]; simpl in *; [injection Hm as ->; lia | done].
  - destruct Hgot as (i & p' & Eg & _). exists (node_off L i, BLOCK_SIZE * 2 ^ k), p'. split; [exact Eg |].
    cbn [pool_exec] in E. rewrite Eg, bind_ret in E. by injection E as <- <-.
Qed.

Lemma pool_put_block L p b live :
  0 <= L < 31 -> pool_good L p (b :: live) ->
  exists p', BufferPool.put b p = Ret p' /\ pool_good L p' live.
Proof.
  intros HL Hg. destruct (pool_exec_good L (PPut 0) p (b :: live) HL eq_refl Hg) as (p1 & live1 & E & Hg1 & _).
  cbn [pool_exec] in E. simpl in E. destruct (BufferPool.put b p) as [p' |]; [| done]. injection E as <- <-. by exists p'.
Qed.

Lemma pool_good_perm L p live live' : live ≡ₚ live' -> pool_good L p live -> pool_good L p live'.
Proof. intros Hl (U & Hp & Hu). exists U. split; [done |]. by rewrite <- Hl. Qed.

Lemma destroy_block_ok k v vs h : owned ((k, v) :: vs) h ->
  exists p, destroy_block v h = Done tt (with_pool p h) /\ owned vs (with_pool p h).
Proof.
  intros [(L & HL & Hg) Hf Hs Ht Hk]. destruct (pool_put_block L _ (place v) _ HL Hg) as (p & Hput & Hg').
  exists p. unfold destroy_block. rewrite Hput. split; [done |]. split; try done; [by exists L |].
  intros j w Hj. apply (Hk j w). by right.
Qed.

Lemma owned_with_pool k v vs h p :
  owned vs h -> 0 <= k <= _total_blocks h ->
  (exists L, 0 <= L < 31 /\ pool_good L p (place v :: (place ∘ snd <$> vs))) ->
  owned ((k, v) :: vs) (with_pool p h).
Proof.
  intros [_ Hf Hs Ht Hks] Hk Hg. split; try done.
  intros j w [[= -> ->] | Hj]%list.elem_of_cons; [done | by eapply Hks].
Qed.

(** Reading does not change the file. *)
Lemma read_one vs h i : owned vs h -> 0 <= i <= _total_blocks h ->
  exists bs f, BlockFile.read i 1 (_file h) = (bs, f) /\ owned vs (with_file f h) /\
    (forall j, file_block (with_file f h) j = file_block h j) /\
    (forall x, to_block bs = Some x -> x = file_block h i).
Proof.
  intros Ho Hi. pose proof Ho as [Hp (l & Hl & Hlen) Hs Ht Hk].
  destruct (read_blocks_ok l (_file h) i 1 Hl) as (f & Hr & Hl' & [Hbs _]); [lia.. |]. rewrite Hr.
  do 2 eexists. split; [reflexivity |]. split; [split; try done; [by exists l | simpl; congruence] |]. split.
  - intros j. rewrite (file_nth l f) by (done || simpl; congruence). by rewrite (file_nth l (_file h)).
  - intros x Hx. rewrite (file_nth l (_file h)) by done. unfold nth_block. destruct (Z.ltb_spec i 0); [lia |].
    destruct (Z.ltb_spec (zlen l) (i + 1)); [by apply to_block_some, (f_equal zlen) in Hx; rewrite block_zlen in Hx |].
    destruct (lookup_lt_is_Some_2 l (Z.to_nat i) ltac:(unfold zlen in *; lia)) as [b Hb]. rewrite Hb. simpl.
    apply list_elem_of_split_length in Hb as (l1 & l2 & -> & Hl1). rewrite (slice_mid l1 [b] l2) in Hx by (unfold zlen; simpl; lia).
    simpl in Hx. rewrite app_nil_r in Hx. by rewrite Hx.
Qed.

Lemma create_block_ok k vs h : owned vs h -> can_create_block k h = true -> 0 <= k <= _total_blocks h ->
  match create_block k h with
  | Done v h' => owned ((k, v) :: vs) h' /\ (forall j, file_block h' j = file_block h j) /\
                 (need_read_from_file h = true -> contents v = file_block h k)
  | Threw h' => owned vs h' /\ (forall j, file_block h' j = file_block h j)
  | Stuck _ => False
  end.
Proof.
  intros Ho Hcan Hk. unfold can_create_block in Hcan. destruct (max_block _) as [m |] eqn:Hm; [| done]. zbool.
  destruct (owned_pool _ _ Ho) as (L & HL & Hg). unfold create_block.
  destruct (pool_get_block L _ _ m HL Hg Hm Hcan) as (p & pool & -> & Hg').
  assert (Ho' : forall x, owned ((k, mkBuffer p x) :: vs) (with_pool pool h)) by (intros x; apply owned_with_pool; eauto).
  cbn [need_read_from_file with_pool]. destruct (need_read_from_file h); [| split; [apply Ho' | by split]].
  destruct (read_one _ _ k (Ho' (stale p)) Hk) as (bs & f & -> & Hof & Hfile & Hx).
  destruct (to_block bs) as [x |] eqn:Hb.
  - destruct (read_one _ _ k (Ho' x) Hk) as (bs' & f' & Hr' & Hof' & _).
    split; [| split; [done |]].
    + split; [apply (owned_pool _ _ (Ho' x)) | apply Hof | apply Hof | apply Hof | apply (owned_keys _ _ (Ho' x))].
    + intros _. by apply Hx.
  - destruct (destroy_block_ok k (mkBuffer p (stale p)) vs _ Hof) as (pool' & -> & Hv). by split.
Qed.

(** The resize that makes room for a block the file does not have yet. *)
Lemma make_room_ok vs h k : owned vs h -> 0 <= k <= _total_blocks h ->
  exists ok h', (if BlockFile._total_blocks (_file h) <=? k then
       let '(ok, f) := resize_file_total_blocks (_total_blocks h) (_file h) in (ok, with_file f h)
     else (true, h)) = (ok, h') /\ owned vs h' /\ (forall j, file_block h' j = file_block h j) /\
    (ok = true -> k <= BlockFile._total_blocks (_file h')) /\ _total_blocks h' = _total_blocks h /\
    need_read_from_file h' = need_read_from_file h.
Proof.
  intros Ho Hk. pose proof Ho as [Hp (l & Hl & Hlen) Hs Ht Hks].
  destruct (Z.leb_spec (BlockFile._total_blocks (_file h)) k) as [Hge | Hlt].
  - destruct (resize_blocks_ok l (_file h) (_total_blocks h)) as (f & -> & Hf & [Hbs Hr]); [done | lia | rewrite Hs; unfold BLOCK_SIZE; lia |].
    do 2 eexists. split; [reflexivity |]. rewrite Hs in *. pose proof (zlen_nonneg l).
    set (fails := room _ <? _) in *.
    destruct (resized_blocks BLOCK_SIZE (_total_blocks h) l) as [_ Hrl]; [rewrite <- Hs; apply Hl | unfold BLOCK_SIZE; lia | lia |].
    split; [split; try done | split; [| split; [| done]]].
    + eexists. split; [exact Hf |]. simpl. destruct fails; [done | lia].
    + intros j. rewrite (file_nth _ f (with_file f h) j Hf) by (done || congruence).
      rewrite (file_nth l (_file h) h j Hl) by done. destruct fails; [done | by apply nth_resized].
    + simpl. rewrite (holds_total _ _ Hf). destruct fails; [done | simpl; lia].
  - do 2 eexists. split; [reflexivity |]. split_and!; try done. lia.
Qed.

Lemma update_block_laws k v vs h : owned vs h -> (k, v) ∈ vs ->
  match update_block k v h with
  | Done _ h' => owned vs h' /\ (forall j, file_block h' j = if decide (j = k) then contents v else file_block h j)
  | Threw h' => owned vs h' /\ (forall j, j <> k -> file_block h' j = file_block h j)
  | Stuck _ => False
  end.
Proof.
  intros Ho Hv. pose proof (owned_keys _ _ Ho _ _ Hv) as Hk. unfold update_block.
  destruct (make_room_ok vs h k Ho Hk) as (ok & h1 & -> & Ho1 & Hfile & Hroom & _).
  destruct ok; cbn [negb]; [| split; [exact Ho1 | intros j _; apply Hfile]]. specialize (Hroom eq_refl).
  destruct (Z.leb_spec k (BlockFile._total_blocks (_file h1))) as [_ |]; [| lia]. cbn [negb].
  pose proof Ho1 as [Hp (l & Hl & Hlen) Hs Ht Hks]. rewrite (holds_total _ _ Hl) in Hroom.
  destruct (Z.eq_dec k (zlen l)) as [Heq | Hne].
  - unfold BlockFile.update. rewrite (holds_total _ _ Hl). destruct (Z.leb_spec (zlen l) k); [| lia].
    change (0 =? BLOCK_SIZE) with false. cbv iota beta. replace (with_file (_file h1) h1) with h1 by (by destruct h1).
    split; [exact Ho1 | intros j _; apply Hfile].
  - destruct (update_block_ok l (_file h1) zero_list (proj1_sig (contents v)) k) as (f & -> & [Hbs _] & Hf); [done | lia | |].
    { rewrite Hs. apply Z.eqb_eq, zero_list_block. }
    rewrite Hs in *. rewrite Z.eqb_refl. rewrite take_ge in Hf by (pose proof (block_zlen (contents v)); unfold zlen in *; lia).
    unfold filled in Hf. rewrite block_zlen, Z.sub_diag in Hf. cbn [Z.to_nat take] in Hf. rewrite app_nil_r in Hf. split.
    + split; try done. eexists. split; [exact Hf |]. unfold zlen in *. by rewrite length_insert.
    + intros j. rewrite (file_nth _ f (with_file f h1) j Hf) by (done || congruence). rewrite nth_insert by lia.
      case_decide; [done |]. by rewrite <- Hfile, (file_nth l (_file h1) h1 j Hl).
Qed.

(** Settings: how many blocks there are, and whether [create] reads. *)
#[local] Instance scheduler_laws : HelperLaws LRU_Helper Z Buffer block_bytes.
Proof.
  refine {| content := contents; poke x v := mkBuffer (place v) x; backing := file_block;
    settings h := (_total_blocks h, need_read_from_file h); reading := snd;
    usable s k := 0 <= k <= s.1; adjustable s _ := s.1 + 1 < 4294967296; owns := owned |}; try done.
  - intros vs vs' h Hp [(L & HL & Hg) Hf Hs Ht Hk]. split; try done.
    + exists L. split; [done |]. eapply pool_good_perm; [| exact Hg]. by rewrite Hp.
    + intros k v Hkv. apply (Hk k v). by rewrite Hp.
  - intros k x v vs h [Hg Hf Hs Ht Hk]. split; try done.
    intros j w [[= -> ->] | Hj]%list.elem_of_cons; [apply (Hk k v); left | apply (Hk j w); by right].
  - intros k vs h Ho Hc Hk. by apply create_block_ok.
  - intros k v vs h. apply update_block_laws.
  - intros k v vs h Ho. destruct (destroy_block_ok k v vs h Ho) as (p & Hd & Ho'). simpl. rewrite Hd. by split.
  - intros b vs h [Hg Hf Hs Ht Hk]. split; [| done]. by split.
  - intros t vs h [Hg (l & Hl & Hlen) Hs Ht Hk] Ha. simpl in Ha. split; [| done].
    assert (Hu : u32 (_total_blocks h + 1) = _total_blocks h + 1) by (apply Z.mod_small; lia).
    split; simpl; try done; rewrite ?Hu; try lia; [exists l; split; [done | lia] |].
    intros k v Hkv. specialize (Hk k v Hkv). lia.
  - intros k h. unfold keeps_settings, create, scheduler_helper, create_block. destruct (BufferPool.get _ _) as [[[p |] pool] |]; [| done..].
    cbv zeta. destruct (need_read_from_file (with_pool pool h)) eqn:Hr; [| by simpl in *; congruence]. simpl in Hr. destruct (BlockFile.read _ _ _) as [bs f].
    destruct (to_block bs); [done |]. unfold destroy_block.
    by destruct (BufferPool.put _ _).
  - intros k v h. unfold keeps_settings, update, scheduler_helper, update_block.
    assert (Hroom : forall r, (if BlockFile._total_blocks (_file h) <=? k then
       let '(ok, f) := resize_file_total_blocks (_total_blocks h) (_file h) in (ok, with_file f h)
     else (true, h)) = r -> _total_blocks r.2 = _total_blocks h /\ need_read_from_file r.2 = need_read_from_file h).
    { intros r <-. destruct (_ <=? k); [| done]. by destruct (resize_file_total_blocks _ _). }
    specialize (Hroom _ eq_refl). destruct (if _ <=? k then _ else _) as [ok h1]. simpl in Hroom. destruct Hroom as [Ht Hr].
    destruct ok; simpl; [| congruence]. destruct (_ <=? _); simpl; [| done]. destruct (BlockFile.update _ _ _ _) as [n f].
    destruct (n =? BLOCK_SIZE); simpl; congruence.
  - intros v h. unfold keeps_settings, destroy, scheduler_helper, destroy_block. by destruct (BufferPool.put _ _).
Defined.
(** ** Impl_Scheduler *)

#[local] Existing Instance M_ret.
#[local] Existing Instance M_bind.

Definition sched_cache : Type := Cache LRU_Helper Z Buffer.
Abbreviation run := (M (St := LRU_Helper) (Key := Z) (Value := Buffer)).

Definition total_blocks : run Z := h ← gets _helper; mret (_total_blocks h).

(** [get_block()]: a new block at the end. *)
Definition get_new_block (now : Z) : run (Z * Buffer) :=
  tell (set_reads false);;
  index ← total_blocks;
  ptr ← LRUCache.get index now;
  tell (adjust (CacheHelper := scheduler_helper) tt);;
  mret (index, ptr).

Definition get_block (index : Z) (read_data : bool) (now : Z) : run Buffer :=
  total ← total_blocks;
  assert_ (index <? total);;
  tell (set_reads read_data);;
  LRUCache.get index now.

Definition put_block (index : Z) (need_update : bool) (now : Z) : run unit :=
  total ← total_blocks;
  assert_ (index <? total);;
  LRUCache.put index need_update now.

(** [invoke], [force_invoke]: write back in the order of the blocks; flushing has no effect on
    what the file is read as. *)
Definition invoke : run unit := LRUCache.update_all_with_order Z.ltb.

(** What the tree does with the scheduler; [SWrite] is a write through the pointer it holds. *)
Inductive sched_call :=
  | SNew (now : Z)
  | SGet (index : Z) (read_data : bool) (now : Z)
  | SPut (index : Z) (need_update : bool) (now : Z)
  | SWrite (index : Z) (x : block_bytes)
  | SInvoke.

(** The answer: the block and its bytes. *)
Definition sched_exec (o : sched_call) : run (option (Z * block_bytes)) :=
  match o with
  | SNew now => '(i, b) ← get_new_block now; mret (Some (i, contents b))
  | SGet i r now => b ← get_block i r now; mret (Some (i, contents b))
  | SPut i need now => put_block i need now;; mret None
  | SWrite i x => write_value i (poke x);; mret None
  | SInvoke => invoke;; mret None
  end.

(** ** The tree's side *)

(** The same call on the scheduler TreeBlocks.v works with.  The bytes of a new block, and of one
    fetched without reading, are what the memory held. *)
Definition answered (ans : option (Z * block_bytes)) : list Z :=
  match ans with Some (_, x) => proj1_sig x | None => [] end.

Definition tree_exec (o : sched_call) (ans : option (Z * block_bytes)) (s : Scheduler) : res (option (Z * list Z) * Scheduler) :=
  match o with
  | SNew _ => let '(i, b, s) := TreeBlocks.get_new_block (answered ans) s in Ret (Some (i, b), s)
  | SGet i r _ =>
      '(b, s) ← TreeBlocks.get_block i r (if r then s else set_buffer i (answered ans) s);
      Ret (Some (i, b), s)
  | SPut i need _ => s ← TreeBlocks.put_block i need s; Ret (None, s)
  | SWrite i x => Ret (None, set_buffer i (proj1_sig x) s)
  | SInvoke => Ret (None, s)
  end.

Abbreviation sched_client := (client (Key := Z) (Content := block_bytes)).

(** The client's side: it puts back what it got, says so when it wrote, and stays below 2^32. *)
Definition call_ok (a : sched_client) (s : Scheduler) (o : sched_call) : Prop :=
  match o with
  | SNew _ => TreeBlocks._total_blocks s + 1 < 4294967296
  | SGet i _ _ => 0 <= i /\ held a i + 1 < 4294967296
  | SPut i need _ => 0 < held a i /\ (held a i = 1 -> need = true \/ i ∉ unsaved a)
  | SWrite i _ => 0 < held a i
  | SInvoke => True
  end.

Definition client_next (a : sched_client) (o : sched_call) (ans : option (Z * block_bytes)) : sched_client :=
  match o with
  | SNew now => match ans with Some (i, x) => next a (OGet false i now) (Some x) | None => a end
  | SGet i r now => match ans with Some (_, x) => next a (OGet r i now) (Some x) | None => a end
  | SPut i need now => next a (OPut i need now) None
  | SWrite i x => next a (OWrite i x) None
  | SInvoke => a
  end.

(** The file [b] as the tree starts with it. *)
Definition file_image (l : list (list Z)) (s : Scheduler) : Prop :=
  TreeBlocks._total_blocks s = zlen l /\ forall i, 0 <= i < zlen l -> _buffers s !! i = l !! Z.to_nat i.

Inductive sched_session : sched_cache -> Scheduler -> sched_client -> Prop :=
  | sched_start is_open b l memory_size h s :
      holds l b -> zlen l < 4294967296 -> 0 <= memory_size <= 2 ^ 42 ->
      LRU_Helper_new is_open b memory_size true = Ret h -> file_image l s ->
      sched_session (cache_new h) s (mkClient (file_block h) (fun _ => 0) ∅)
  | sched_step c s a o ans c' r s' :
      sched_session c s a -> call_ok a s o -> sched_exec o c = Done ans c' -> tree_exec o ans s = Ret (r, s') ->
      sched_session c' s' (client_next a o ans)
  | sched_threw c s a o c' :
      sched_session c s a -> call_ok a s o -> o <> SInvoke -> sched_exec o c = Threw c' -> sched_session c' s a.

Record matched (c : sched_cache) (s : Scheduler) (a : sched_client) : Prop := {
  matched_cache : refines c a;
  matched_total : TreeBlocks._total_blocks s = _total_blocks (_helper c);
  matched_blocks i : 0 <= i < _total_blocks (_helper c) -> _buffers s !! i = Some (proj1_sig (store a i));
  matched_held i : held a i <> 0 -> 0 <= i < _total_blocks (_helper c);
}.

(** What a call does when all goes well. *)
Definition served (o : sched_call) (s : Scheduler) (a : sched_client) (ans : option (Z * block_bytes)) (c' : sched_cache) : Prop :=
  exists s', tree_exec o ans s = Ret ((fun '(i, x) => (i, proj1_sig x)) <$> ans, s') /\ matched c' s' (client_next a o ans).

(** ** The calls of the cache *)

Abbreviation count c := (_total_blocks (_helper c)).

Lemma keeps_count {A} (m : run A) c : keeps m ->
  match m c with Done _ c' | Threw c' => count c' = count c | Stuck _ => True end.
Proof.
  intros Hm. specialize (Hm c). unfold keeps_settings, helper_settings in Hm. simpl in Hm.
  destruct (m c); simpl in *; congruence.
Qed.

Lemma get_step c a r k now : refines c a -> op_ok a (OGet r k now) -> 0 <= k <= count c ->
  match LRUCache.get k now (with_helper (set_reads r (_helper c)) c) with
  | Done v c1 => answer_ok a (OGet r k now) (Some (contents v)) /\
                 refines c1 (next a (OGet r k now) (Some (contents v))) /\ count c1 = count c
  | Threw c1 => refines c1 a /\ count c1 = count c
  | Stuck _ => False
  end.
Proof.
  intros Hr Hok Hk. pose proof (step_ok c a (OGet r k now) Hr Hok Hk) as Hs.
  pose proof (keeps_count _ (with_helper (set_reads r (_helper c)) c) (get_keeps k now)) as Hc. unfold wp in Hs.
  unfold exec, mbind, M_bind, tell, modify in Hs. destruct (LRUCache.get k now _) as [v c1 | c1 | f]; [| | done].
  - destruct Hs as [Ha Hr']. by split_and!.
  - destruct Hs as [_ Hr']. split; [by apply Hr' | done].
Qed.

Lemma upd_here {A} (k : Z) (x : A) f : upd k x f k = x.
Proof. unfold upd. by rewrite decide_True. Qed.

Lemma upd_there {A} (k i : Z) (x : A) f : i <> k -> upd k x f i = f i.
Proof. intros Hi. unfold upd. by rewrite decide_False. Qed.

Lemma sched_new_ok c s a now : matched c s a -> call_ok a s (SNew now) ->
  match sched_exec (SNew now) c with
  | Done ans c' => served (SNew now) s a ans c' | Threw c' => matched c' s a | Stuck _ => False
  end.
Proof.
  intros [Hr Ht Hb Hh] Hok. simpl in Hok. set (k := count c).
  assert (Hk : 0 <= k) by (pose proof (owned_total _ _ (core_owns _ _ (inv_core _ _ (refines_inv _ _ Hr)))) as H0; simpl in H0; lia).
  assert (Hheld : held a k = 0) by (destruct (Z.eq_dec (held a k) 0); [done | pose proof (Hh k ltac:(done)); lia]).
  pose proof (get_step c a false k now Hr ltac:(simpl; lia) ltac:(lia)) as Hg.
  unfold sched_exec, get_new_block, total_blocks, mbind, M_bind, tell, modify, gets, mret, M_ret. simpl.
  fold k. destruct (LRUCache.get k now _) as [v c1 | c1 | f]; [| | done].
  - destruct Hg as (_ & Hr1 & Hc1). unfold served, tree_exec, TreeBlocks.get_new_block. cbn [answered fmap option_fmap option_map].
    rewrite Ht. fold k. eexists. split; [reflexivity |].
    assert (Hu : u32 (k + 1) = k + 1) by (apply Z.mod_small; lia).
    destruct (adjust_ok (HelperLaws := scheduler_laws) tt _ _ (core_owns _ _ (inv_core _ _ (refines_inv _ _ Hr1)))) as [Ho Hbk]; [simpl; rewrite Hc1; fold k; lia |].
    split; cbn [client_next].
    + eapply refines_unseen; [exact Hr1 | |].
      * apply stalled_inv; [apply Hr1 |]. apply with_helper_core; [apply Hr1 | done | by intros].
      * split; [| done]. intros j. unfold view. simpl. by destruct (_map c1 !! j).
    + simpl. by rewrite Hc1.
    + simpl. rewrite Hc1. fold k. rewrite Hu. intros i Hi. unfold upd. case_decide as Hik.
      * subst i. by rewrite lookup_insert_eq.
      * rewrite lookup_insert_ne by done. apply Hb. fold k. lia.
    + simpl. rewrite Hc1. fold k. rewrite Hu. intros i. unfold upd. case_decide as Hik; [lia |]. intros Hi. specialize (Hh i Hi). fold k in Hh. lia.
  - destruct Hg as [Hr1 Hc1]. split; rewrite ?Hc1; done.
Qed.

Lemma sched_get_ok c s a i r now : matched c s a -> call_ok a s (SGet i r now) ->
  match sched_exec (SGet i r now) c with
  | Done ans c' => served (SGet i r now) s a ans c'
  | Threw c' => matched c' s a
  | Stuck f => f = AssertFailed /\ count c <= i
  end.
Proof.
  intros [Hr Ht Hb Hh] [Hi Hok]. unfold sched_exec, get_block, total_blocks, mbind, M_bind, tell, modify, gets, mret, M_ret, assert_. simpl.
  destruct (Z.ltb_spec i (count c)) as [Hlt | Hge]; [| done].
  pose proof (get_step c a r i now Hr Hok ltac:(lia)) as Hg. destruct (LRUCache.get i now _) as [v c1 | c1 | f]; [| | done].
  - destruct Hg as (Ha & Hr1 & Hc1). unfold served, tree_exec, TreeBlocks.get_block. cbn [answered fmap option_fmap option_map].
    assert (Hbuf : _buffers (if r then s else set_buffer i (proj1_sig (contents v)) s) !! i = Some (proj1_sig (contents v))).
    { destruct r; simpl in *; [| by rewrite lookup_insert_eq]. injection Ha as ->. by apply Hb. }
    assert (Htot : TreeBlocks._total_blocks (if r then s else set_buffer i (proj1_sig (contents v)) s) = count c) by (by destruct r).
    rewrite Htot, massert_true by (apply Z.ltb_lt; lia). rewrite bind_ret, Hbuf. simpl. eexists. split; [reflexivity |].
    split; cbn [client_next TreeBlocks._total_blocks TreeBlocks._buffers]; [done | congruence | |].
    + rewrite Hc1. intros j Hj. destruct (decide (j = i)) as [-> | Hji]. { cbn [store]. by rewrite upd_here. }
      cbn [store]. rewrite upd_there by done. rewrite <- Hb by done. destruct r; [done |]. simpl. by rewrite lookup_insert_ne.
    + rewrite Hc1. simpl. intros j. unfold upd. case_decide as Hji; [lia | apply Hh].
  - destruct Hg as [Hr1 Hc1]. split; rewrite ?Hc1; done.
Qed.

Lemma sched_put_ok c s a i need now : matched c s a -> call_ok a s (SPut i need now) ->
  match sched_exec (SPut i need now) c with
  | Done ans c' => served (SPut i need now) s a ans c' | _ => False
  end.
Proof.
  intros [Hr Ht Hb Hh] Hok. pose proof (Hh i ltac:(simpl in Hok; lia)) as Hi.
  pose proof (step_ok c a (OPut i need now) Hr Hok I) as Hs.
  pose proof (keeps_count _ c (put_keeps i need now)) as Hc. unfold wp in Hs.
  unfold sched_exec, put_block, total_blocks, exec, mbind, M_bind, gets, mret, M_ret, assert_ in *. simpl in *.
  destruct (Z.ltb_spec i (count c)); [| lia]. destruct (LRUCache.put i need now c) as [[] c1 | c1 | f]; [| | done].
  - destruct Hs as [_ Hr1]. unfold served, tree_exec, TreeBlocks.put_block. rewrite Ht, massert_true by (apply Z.ltb_lt; lia).
    eexists. split; [reflexivity |]. split; [done | simpl; congruence | rewrite Hc; apply Hb |].
    rewrite Hc. simpl. intros j. unfold upd. case_decide; [subst; lia | apply Hh].
  - by destruct Hs.
Qed.

Lemma sched_write_ok c s a i x : matched c s a -> call_ok a s (SWrite i x) ->
  match sched_exec (SWrite i x) c with Done ans c' => served (SWrite i x) s a ans c' | _ => False end.
Proof.
  intros [Hr Ht Hb Hh] Hok. pose proof (Hh i ltac:(simpl in Hok; lia)) as Hi.
  pose proof (step_ok c a (OWrite i x) Hr Hok I) as Hs.
  pose proof (keeps_count _ c (write_value_keeps i (poke x))) as Hc. unfold wp in Hs.
  unfold sched_exec, exec, mbind, M_bind, mret, M_ret in *. destruct (write_value i (poke x) c) as [[] c1 | c1 | f]; [| by destruct Hs | done].
  destruct Hs as [_ Hr1]. eexists. split; [reflexivity |]. split; [done | simpl; congruence | |]; rewrite Hc; [| apply Hh].
  intros j Hj. simpl. destruct (decide (j = i)) as [-> | Hji]; [by rewrite upd_here, lookup_insert_eq |].
  rewrite upd_there, lookup_insert_ne by done. by apply Hb.
Qed.

(** Writing back: nothing changes for the tree, and the file has every block nobody holds. *)
Lemma sched_invoke_ok c s a : matched c s a ->
  match sched_exec SInvoke c with
  | Done ans c' => served SInvoke s a ans c' /\
      forall i, 0 <= i < count c' -> held a i = 0 -> _buffers s !! i = Some (proj1_sig (file_block (_helper c') i))
  | Threw _ => True
  | Stuck _ => False
  end.
Proof.
  intros [Hr Ht Hb Hh]. pose proof (update_sorted_ok _ c Z.ltb (refines_inv _ _ Hr)) as Hs.
  pose proof (keeps_count _ c (update_sorted_keeps Z.ltb)) as Hc. unfold wp in Hs.
  unfold sched_exec, invoke, mbind, M_bind, mret, M_ret. destruct (update_all_with_order Z.ltb c) as [[] c1 | c1 | f]; [| done..].
  destruct Hs as (Hinv & Hun & Hclean). pose proof (refines_unseen _ _ _ Hr Hinv Hun) as Hr1. split.
  - exists s. split; [done |]. split; [done | congruence | |]; rewrite Hc; done.
  - intros i Hi Hheld. rewrite Hc in Hi. rewrite (Hb i Hi), <- (refines_view _ _ Hr1 i). do 2 f_equal. unfold view.
    destruct (_map c1 !! i) as [n |] eqn:Hn; [| done].
    pose proof (pins_node c1 i n Hn) as Hp. rewrite (refines_pins _ _ Hr1), Hheld in Hp.
    apply (core_clean _ _ (inv_core _ _ Hinv) i n Hn); [by apply (Hclean i) |].
    intros HW. pose proof (core_written _ _ (inv_core _ _ Hinv) i HW). rewrite (refines_pins _ _ Hr1) in *. lia.
Qed.

Lemma sched_start_ok is_open b l memory_size h s :
  holds l b -> zlen l < 4294967296 -> 0 <= memory_size <= 2 ^ 42 ->
  LRU_Helper_new is_open b memory_size true = Ret h -> file_image l s ->
  matched (cache_new h) s (mkClient (file_block h) (fun _ => 0) ∅).
Proof.
  intros Hh Hl Hm Hnew [Ht Hb]. unfold LRU_Helper_new in Hnew.
  destruct (pool_new_good memory_size Hm) as (L & p & Hp & HL & Hg & _). rewrite Hp, bind_ret in Hnew.
  destruct is_open; [| done]. cbn [mcheck] in Hnew. rewrite bind_ret in Hnew.
  destruct (Z.eqb_spec (_block_size b) BLOCK_SIZE) as [Hbs |]; [| done]. simpl in Hnew. injection Hnew as <-.
  pose proof (zlen_nonneg l).
  assert (Hu : u32 (BlockFile._total_blocks b) = zlen l) by (rewrite (holds_total _ _ Hh); apply Z.mod_small; lia).
  rewrite Hu. set (h := mkHelper _ _ _ _).
  assert (Ho : owned [] h).
  { split; try done; [by exists L | exists l; split; [done | simpl; lia] | by intros k v ?%not_elem_of_nil]. }
  split; [exact (new_refines (HelperLaws0 := scheduler_laws) h Ho) | done | | done].
  simpl. intros i Hi. rewrite (Hb i Hi), (file_nth l b h i Hh Hbs eq_refl). unfold nth_block. destruct (Z.ltb_spec i 0); [lia |].
  destruct (lookup_lt_is_Some_2 l (Z.to_nat i) ltac:(unfold zlen in *; lia)) as [x Hx]. rewrite Hx. simpl.
  destruct (to_block x) as [y |] eqn:Hy; simpl; [by rewrite (to_block_some x y Hy) |].
  apply to_block_none in Hy. destruct Hy. pose proof (holds_blocks _ _ Hh) as Hbl.
  unfold blocks_of in Hbl. rewrite list.Forall_lookup in Hbl. rewrite <- Hbs. by apply (Hbl (Z.to_nat i)).
Qed.

Lemma sched_call_ok c s a o : matched c s a -> call_ok a s o ->
  match sched_exec o c with
  | Done ans c' => served o s a ans c'
  | Threw c' => o <> SInvoke -> matched c' s a
  | Stuck f => tree_exec o None s = Fault f
  end.
Proof.
  intros Hm Hok. destruct o as [now | i r now | i need now | i x |].
  - pose proof (sched_new_ok c s a now Hm Hok) as Hs. by destruct (sched_exec _ c).
  - pose proof (sched_get_ok c s a i r now Hm Hok) as Hs. destruct (sched_exec _ c) as [| | f]; [done.. |].
    destruct Hs as [-> Hi]. unfold tree_exec, TreeBlocks.get_block.
    assert (Ht : forall b, TreeBlocks._total_blocks (if r then s else set_buffer i b s) = count c) by (intros b; by destruct r; apply (matched_total _ _ _ Hm)).
    rewrite Ht. by destruct (Z.ltb_spec i (count c)); [lia |].
  - pose proof (sched_put_ok c s a i need now Hm Hok) as Hs. by destruct (sched_exec _ c).
  - pose proof (sched_write_ok c s a i x Hm Hok) as Hs. by destruct (sched_exec _ c).
  - pose proof (sched_invoke_ok c s a Hm) as Hs. destruct (sched_exec _ c); [apply Hs | done | done].
Qed.

Lemma session_matched c s a : sched_session c s a -> matched c s a.
Proof.
  induction 1 as [b l m h s Hh Hl Hm Hnew Hi | c s a o ans c' r s' _ IH Hok He Ht | c s a o c' _ IH Hok Ho He].
  - by eapply sched_start_ok.
  - pose proof (sched_call_ok c s a o IH Hok) as Hs. rewrite He in Hs. destruct Hs as (s1 & Ht1 & Hm). congruence.
  - pose proof (sched_call_ok c s a o IH Hok) as Hs. rewrite He in Hs. by apply Hs.
Qed.

(** C20. The scheduler over the cache, the pool and the file is the scheduler the tree is verified
    with.  In every session on a file of 4096-byte blocks, with a client that puts back what it
    gets and announces what it wrote, a call that returns gives the answer the abstract scheduler
    gives: a new block has the next number, and a block that is read has the bytes last written
    to it, however often it was evicted and read again in between.  A call that throws (no
    memory, a failed read or write) leaves what the tree sees as it was; a call fails an assertion
    only where the abstract one does, for a block number out of range.  After [invoke] the file
    has the current bytes of every block nobody holds. *)
Theorem scheduler_refines c s a o : sched_session c s a -> call_ok a s o ->
  match sched_exec o c with
  | Done ans c' =>
      (exists s', tree_exec o ans s = Ret ((fun '(i, x) => (i, proj1_sig x)) <$> ans, s') /\
         forall i, 0 <= i < TreeBlocks._total_blocks s' ->
           _buffers s' !! i = Some (proj1_sig (view c' i))) /\
      (o = SInvoke -> forall i, 0 <= i < TreeBlocks._total_blocks s -> held a i = 0 ->
         _buffers s !! i = Some (proj1_sig (file_block (_helper c') i)))
  | Threw c' => o <> SInvoke -> forall i, 0 <= i < TreeBlocks._total_blocks s ->
                  _buffers s !! i = Some (proj1_sig (view c' i))
  | Stuck f => tree_exec o None s = Fault f
  end.
Proof.
  intros Hs Hok. pose proof (session_matched c s a Hs) as Hm. pose proof (sched_call_ok c s a o Hm Hok) as Hc.
  assert (Hview : forall c1 s1 a1, matched c1 s1 a1 -> forall i, 0 <= i < TreeBlocks._total_blocks s1 ->
    _buffers s1 !! i = Some (proj1_sig (view c1 i))).
  { intros c1 s1 a1 Hm1 i Hi. rewrite (matched_total _ _ _ Hm1) in Hi.
    by rewrite (matched_blocks _ _ _ Hm1 i Hi), (refines_view _ _ (matched_cache _ _ _ Hm1)). }
  destruct (sched_exec o c) as [ans c' | c' | f] eqn:He; [| | done].
  - split; [destruct Hc as (s' & Ht & Hm'); exists s'; split; [done | by eapply Hview] |].
    intros ->. pose proof (sched_invoke_ok c s a Hm) as Hi. rewrite He in Hi. destruct Hi as [(s' & Ht & Hm') Hf].
    injection Ht as _ <-.
    intros i Hi. apply Hf. by rewrite <- (matched_total _ _ _ Hm').
  - intros Ho. by eapply Hview, Hc.
Qed.
End Helper.

(** ** One buffer for two blocks *)

Definition stale_zero (_ : Z * Z) : block_bytes := zero_block.

#[export] Instance call_ok_dec a s o : Decision (call_ok a s o).
Proof. destruct o; simpl; apply _. Defined.

Definition sched_state : Type := sched_cache * Scheduler * client (Key := Z) (Content := block_bytes).

(** Play the calls of a client as long as it keeps its side of the contract. *)
Fixpoint sched_play (os : list sched_call) (st : sched_state) : option sched_state :=
  match os with
  | [] => Some st
  | o :: os =>
      let '(c, s, a) := st in
      if decide (call_ok a s o) then
        match sched_exec stale_zero o c with
        | Done ans c' =>
            match tree_exec o ans s with
            | Ret (_, s') => sched_play os (c', s', client_next stale_zero a o ans)
            | Fault _ => None
            end
        | _ => None
        end
      else None
  end.

Lemma sched_play_session os : forall c s a c' s' a',
  sched_session stale_zero c s a -> sched_play os (c, s, a) = Some (c', s', a') -> sched_session stale_zero c' s' a'.
Proof.
  induction os as [| o os IH]; intros c s a c' s' a' Hs Hp; simpl in Hp; [by injection Hp as <- <- <- |].
  case_decide as Hok; [| done]. destruct (sched_exec stale_zero o c) as [ans c1 | |] eqn:He; [| done..].
  destruct (tree_exec o ans s) as [[r s1] |] eqn:Ht; [| done]. eapply IH; [| exact Hp]. by eapply sched_step.
Qed.

(** An empty file, and memory for one block. *)
Definition small_helper : LRU_Helper :=
  match LRU_Helper_new true (mkBlockFile (mkFile [] 0 20000 [] (0, []) []) 0 0 BLOCK_SIZE) BLOCK_SIZE true with
  | Ret h => h
  | Fault _ => mkHelper (mkPool 0 []) (mkBlockFile (mkFile [] 0 0 [] (0, []) []) 0 0 0) 0 false
  end.

Definition sched_begin : sched_state :=
  (cache_new small_helper, mkScheduler ∅ 0 [], mkClient (file_block small_helper) (fun _ => 0) ∅).

Lemma sched_begin_session : sched_session stale_zero sched_begin.1.1 sched_begin.1.2 sched_begin.2.
Proof.
  apply (sched_start _ true (mkBlockFile (mkFile [] 0 20000 [] (0, []) []) 0 0 BLOCK_SIZE) [] BLOCK_SIZE); [| done | unfold BLOCK_SIZE; lia | by vm_compute |].
  - split; simpl; try done; try constructor; unfold BLOCK_SIZE; lia.
  - split; [done |]. intros i Hi. change (zlen []) with 0 in Hi. lia.
Qed.

Definition seven_list : list Z := 7 :: tail zero_list.

Definition seven : block_bytes := default zero_block (to_block seven_list).

(** Block 0 is written to and put back; block 1 takes its buffer. *)
Definition sched_demo : sched_state :=
  default sched_begin (sched_play [SNew 0; SWrite 0 seven; SPut 0 true 1; SNew 2; SPut 1 true 3] sched_begin).

Lemma sched_demo_session : sched_session stale_zero sched_demo.1.1 sched_demo.1.2 sched_demo.2.
Proof.
  unfold sched_demo. destruct (sched_play _ sched_begin) as [[[c s] a] |] eqn:Hp; simpl; [| apply sched_begin_session].
  eapply sched_play_session; [| exact Hp]. apply sched_begin_session.
Qed.

Definition tree_answer : option (Z * list Z) :=
  match tree_exec (SGet 0 true 4) None sched_demo.1.2 with Ret (r, _) => r | Fault _ => None end.

Lemma scheduler_refines_witness :
  match sched_exec stale_zero (SGet 0 true 4) sched_demo.1.1 with
  | Done (Some (i, x)) c' => i = 0 /\ proj1_sig x = seven_list
  | _ => False
  end.
Proof.
  pose proof (scheduler_refines stale_zero _ _ _ (SGet 0 true 4) sched_demo_session
    ltac:(apply (bool_decide_unpack _); vm_compute; exact I)) as Hr.
  assert (Ha : tree_answer = Some (0, seven_list)) by (vm_compute; reflexivity).
  assert (Hd : match sched_exec stale_zero (SGet 0 true 4) sched_demo.1.1 with Done (Some _) _ => true | _ => false end = true)
    by (vm_compute; reflexivity).
  destruct (sched_exec stale_zero (SGet 0 true 4) sched_demo.1.1) as [[[i x] |] c' | c' | f]; try discriminate Hd.
  destruct Hr as [(s' & Ht & _) _]. unfold tree_answer in Ha.
  change (tree_exec (SGet 0 true 4) (Some (i, x)) sched_demo.1.2) with (tree_exec (SGet 0 true 4) None sched_demo.1.2) in Ht.
  rewrite Ht in Ha. simpl in Ha. injection Ha as -> Hx. by split.
Defined.
