(* ===== verification/BPTree.v ===== *)
(** * BPTree: the tree over its blocks (Base/BPTree_impls/BPTree.hpp)

    [BPTree<Impl>] works on an [Impl] it only knows by the contract at the top of its file: data
    blocks and index blocks are sorted arrays of pairs, data blocks are linked in order, blocks are
    created and erased.  The model keeps the blocks in a heap by number, the order of the data
    blocks in a list, and the root; the questions an [Impl] answers by the room in a block
    ([can_insert], [erase], [merge_keep_average], [average], [split]) are computed as
    IndexBlock_Impl and DataBlock_Impl compute them (Packed.v).  An [Iter] that points at a block
    is the number of the block; an [Iter] into a block is a position. *)

From stdpp Require Import gmap sorting.
From S2P Require Import Prelude Packed.
Local Open Scope Z_scope.

(** ** The room in a block *)

(** [MaxBlockSize] and [PairSize] of a kind of block; [n] and [m] are numbers of pairs. *)
Record sizes := mkSizes { max_size : Z; pair_size : Z }.

Definition can_insert (z : sizes) (n : Z) : bool := n * pair_size z + pair_size z <=? max_size z.

(** What [erase] answers when [n] pairs are left. *)
Definition enough (z : sizes) (n : Z) : bool := max_size z / 2 <? n * pair_size z.

Definition merge_keep_average (z : sizes) (n m : Z) : Z :=
  let this_size := n * pair_size z in
  let other_size := m * pair_size z in
  if this_size + other_size <=? max_size z then 1
  else
    let difference := if other_size <? this_size then this_size - other_size else other_size - this_size in
    if difference <? max_size z / 2 then 0 else -1.

(** How many pairs [split] leaves in the block, of the [n] it has and the new one. *)
Definition split_keeps (n : Z) : Z := (n + 1) / 2.

(** How many pairs [average] leaves in the first of two blocks. *)
Definition average_keeps (n m : Z) : Z := let half := (n + m) / 2 in if m <? n then half else n + (m - half).

Section BPTree.
Context {K V : Type} `{KeyOrder K}.

(** ** The state *)

Inductive block :=
  | Data (l : list (K * V))
  | Index (l : list (K * Z)).

Record tree_state := mkState { heap : gmap Z block; chain : list Z; begin_block : option Z }.

Definition M (A : Type) : Type := tree_state -> res (A * tree_state).
#[local] Instance M_ret : MRet M := fun A a s => Ret (a, s).
#[local] Instance M_bind : MBind M := fun A B k m s => match m s with Ret (a, s') => k a s' | Fault f => Fault f end.

Definition gets {A} (f : tree_state -> A) : M A := fun s => Ret (f s, s).
Definition modify (f : tree_state -> tree_state) : M unit := fun s => Ret (tt, f s).
Definition lift {A} (m : res A) : M A := fun s => match m with Ret a => Ret (a, s) | Fault f => Fault f end.
Definition deref {A} (o : option A) : M A := lift (of_option o OutOfBounds).
Definition assert_ (b : bool) : M unit := lift (massert b).
Definition when (b : bool) (m : M unit) : M unit := if b then m else mret tt.

(** ** What the Impl provides

    [DS] and [IS] are the sizes of data and index blocks, [new_index] the number of a block
    that is created, [data_size_check] what [DataBlock] says of a value. *)
Context (DS IS : sizes) (new_index : gmap Z block -> Z) (data_size_check : V -> bool).

Definition get_block (i : Z) : M block := m ← gets heap; lift (of_option (m !! i) BadPointer).
Definition set_block (i : Z) (b : block) : M unit :=
  modify (fun s => mkState (<[i := b]> (heap s)) (chain s) (begin_block s)).
Definition set_begin_block (i : option Z) : M unit := modify (fun s => mkState (heap s) (chain s) i).

Definition is_data_block (i : Z) : M bool :=
  b ← get_block i; mret (match b with Data _ => true | Index _ => false end).

(** [iter.data_block(_impl)], [iter.index_block(_impl)]: opening the other kind throws. *)
Definition data_entries (i : Z) : M (list (K * V)) :=
  b ← get_block i; match b with Data l => mret l | Index _ => lift (Fault Thrown) end.
Definition index_entries (i : Z) : M (list (K * Z)) :=
  b ← get_block i; match b with Index l => mret l | Data _ => lift (Fault Thrown) end.

(** A data block stands alone until a split links it behind another one. *)
Definition create_data_block : M Z :=
  i ← gets (new_index ∘ heap);
  set_block i (Data []);;
  modify (fun s => mkState (heap s) (match chain s with [] => [i] | c => c end) (begin_block s));;
  mret i.
Definition create_index_block : M Z := i ← gets (new_index ∘ heap); set_block i (Index []);; mret i.

(** [erase_block]: a data block is taken out of the chain. *)
Definition erase_block (i : Z) : M unit :=
  d ← is_data_block i;
  modify (fun s => mkState (delete i (heap s)) (if (d : bool) then filter (fun j => j <> i) (chain s) else chain s) (begin_block s)).

Fixpoint link_after (i n : Z) (c : list Z) : list Z :=
  match c with
  | [] => []
  | j :: c => if j =? i then j :: n :: c else j :: link_after i n c
  end.

(** The data block behind [i], and the one before it. *)
Fixpoint next_in (i : Z) (c : list Z) : option Z :=
  match c with
  | [] => None
  | j :: c => if j =? i then head c else next_in i c
  end.
Definition prev_in (i : Z) (c : list Z) : option Z := next_in i (reverse c).
Definition to_next (i : Z) : M (option Z) := c ← gets chain; mret (next_in i c).
Definition to_prev (i : Z) : M (option Z) := c ← gets chain; mret (prev_in i c).

Definition insert_at {X} (p : nat) (x : X) (l : list X) : list X := take p l ++ x :: drop p l.
Definition erase_at {X} (p : nat) (l : list X) : list X := take p l ++ drop (S p) l.
Definition erase_between {X} (p q : nat) (l : list X) : list X := take p l ++ drop q l.

Definition data_split (i new : Z) (key : K) (value : V) : M unit :=
  l ← data_entries i;
  let keep := Z.to_nat (split_keeps (zlen l)) in
  let l := ordered_insert key value l in
  set_block i (Data (take keep l));;
  set_block new (Data (drop keep l));;
  modify (fun s => mkState (heap s) (link_after i new (chain s)) (begin_block s)).
Definition index_split (i new : Z) (key : K) (target : Z) : M unit :=
  l ← index_entries i;
  let keep := Z.to_nat (split_keeps (zlen l)) in
  let l := ordered_insert key target l in
  set_block i (Index (take keep l));;
  set_block new (Index (drop keep l)).

Definition data_average (i j : Z) : M unit :=
  l ← data_entries i; r ← data_entries j;
  let keep := Z.to_nat (average_keeps (zlen l) (zlen r)) in
  set_block i (Data (take keep (l ++ r)));; set_block j (Data (drop keep (l ++ r))).
Definition index_average (i j : Z) : M unit :=
  l ← index_entries i; r ← index_entries j;
  let keep := Z.to_nat (average_keeps (zlen l) (zlen r)) in
  set_block i (Index (take keep (l ++ r)));; set_block j (Index (drop keep (l ++ r))).

Definition data_merge (i j : Z) : M unit :=
  l ← data_entries i; r ← data_entries j; set_block i (Data (l ++ r));; set_block j (Data []).
Definition index_merge (i j : Z) : M unit :=
  l ← index_entries i; r ← index_entries j; set_block i (Index (l ++ r));; set_block j (Index []).

(** [update(iter, key)] of an index block. *)
Definition update_key (i : Z) (p : nat) (key : K) : M unit :=
  l ← index_entries i; '(_, c) ← deref (l !! p); set_block i (Index (<[p := (key, c)]> l)).

(** The key of the first pair: [block.begin().key()]. *)
Definition data_begin_key (i : Z) : M K := l ← data_entries i; '(k, _) ← deref (head l); mret k.
Definition index_begin_key (i : Z) : M K := l ← index_entries i; '(k, _) ← deref (head l); mret k.

(** ** Searching *)

(** [if (iter == end() || (iter != begin() && iter.key() > key)) --iter;] *)
Definition step_back {X} (key : K) (l : list (K * X)) (p : nat) : M nat :=
  k ← (if (p =? length l)%nat then mret true else '(k, _) ← deref (l !! p); mret (negb (p =? 0)%nat && klt key k));
  if (k : bool) then match p with O => lift (Fault OutOfBounds) | S p => mret p end else mret p.

(** The loop of [find_data]. *)
Fixpoint find_data_loop (fuel : nat) (key : K) (index_block : Z) : M Z :=
  match fuel with
  | O => lift (Fault OutOfFuel)
  | S fuel =>
      l ← index_entries index_block;
      p ← step_back key l (lb_index key l);
      '(_, c) ← deref (l !! p);
      d ← is_data_block c;
      if (d : bool) then
        p ← step_back key l p;
        '(_, c) ← deref (l !! p);
        _ ← data_entries c;
        mret c
      else find_data_loop fuel key c
  end.

Definition find_data (fuel : nat) (key : K) : M (option Z) :=
  r ← gets begin_block;
  match r with
  | None => mret None
  | Some r =>
      d ← is_data_block r;
      if (d : bool) then mret (Some r) else c ← find_data_loop fuel key r; mret (Some c)
  end.

Definition find (fuel : nat) (key : K) : M (option (K * V)) :=
  o ← find_data fuel key;
  match o with
  | None => mret None
  | Some b =>
      l ← data_entries b;
      let p := lb_index key l in
      if (p =? length l)%nat then mret None else
      '(k, v) ← deref (l !! p);
      if klt key k then mret None else mret (Some (k, v))
  end.

(** [if (data_iter == end() && have_next()) { to_next(); data_iter = begin(); }] *)
Definition cross (b : Z) (p : nat) : M (Z * nat * list (K * V)) :=
  l ← data_entries b;
  if (p =? length l)%nat then
    n ← to_next b;
    match n with
    | Some n => l ← data_entries n; mret (n, O, l)
    | None => mret (b, p, l)
    end
  else mret (b, p, l).

(** The loop of [find(begin, end, limit)]. *)
Fixpoint find_range_loop (fuel : nat) (stop : K) (limit : Z) (b : Z) (p : nat) : M (list (K * V)) :=
  match fuel with
  | O => lift (Fault OutOfFuel)
  | S fuel =>
      if limit <=? 0 then mret [] else
      '(b, p, l) ← cross b p;
      if (p =? length l)%nat then mret [] else
      '(k, v) ← deref (l !! p);
      if klt k stop then
        rest ← find_range_loop fuel stop (limit - 1) b (S p);
        mret ((k, v) :: rest)
      else mret []
  end.

Definition find_range (fuel : nat) (first stop : K) (limit : Z) : M (list (K * V)) :=
  if klt stop first || keq first stop then mret [] else
  o ← find_data fuel first;
  match o with
  | None => mret []
  | Some b => l ← data_entries b; find_range_loop fuel stop limit b (lb_index first l)
  end.

Definition lower_bound (fuel : nat) (key : K) : M (option (K * V)) :=
  o ← find_data fuel key;
  match o with
  | None => mret None
  | Some b =>
      l ← data_entries b;
      let p := lb_index key l in
      if (p =? length l)%nat then
        n ← to_next b;
        match n with
        | None => mret None
        | Some n => l ← data_entries n; e ← deref (head l); mret (Some e)
        end
      else e ← deref (l !! p); mret (Some e)
  end.

Fixpoint upper_bound_loop (fuel : nat) (key : K) (b : Z) (p : nat) : M (option (K * V)) :=
  match fuel with
  | O => lift (Fault OutOfFuel)
  | S fuel =>
      '(b, p, l) ← cross b p;
      if (p =? length l)%nat then mret None else
      '(k, v) ← deref (l !! p);
      if klt key k then mret (Some (k, v)) else upper_bound_loop fuel key b (S p)
  end.

Definition upper_bound (fuel : nat) (key : K) : M (option (K * V)) :=
  o ← find_data fuel key;
  match o with
  | None => mret None
  | Some b => l ← data_entries b; upper_bound_loop fuel key b (lb_index key l)
  end.

(** The loop of [above_or_equal], and of [search_from_begin]. *)
Fixpoint above_loop (fuel : nat) (limit : Z) (b : Z) (p : nat) : M (list (K * V)) :=
  match fuel with
  | O => lift (Fault OutOfFuel)
  | S fuel =>
      l ← data_entries b;
      n ← to_next b;
      if (limit <=? 0) || ((p =? length l)%nat && bool_decide (n = None)) then mret [] else
      '(b, p, l) ← cross b p;
      assert_ (negb (p =? length l)%nat);;
      e ← deref (l !! p);
      rest ← above_loop fuel (limit - 1) b (S p);
      mret (e :: rest)
  end.

Definition above_or_equal (fuel : nat) (key : K) (limit : Z) : M (list (K * V)) :=
  o ← find_data fuel key;
  match o with
  | None => mret []
  | Some b => l ← data_entries b; above_loop fuel limit b (lb_index key l)
  end.

(** Down the first, or the last, child of every index block. *)
Fixpoint first_data (fuel : nat) (index_block : Z) : M Z :=
  match fuel with
  | O => lift (Fault OutOfFuel)
  | S fuel =>
      l ← index_entries index_block;
      '(_, c) ← deref (head l);
      d ← is_data_block c;
      if (d : bool) then mret c else first_data fuel c
  end.
Fixpoint last_data (fuel : nat) (index_block : Z) : M Z :=
  match fuel with
  | O => lift (Fault OutOfFuel)
  | S fuel =>
      l ← index_entries index_block;
      '(_, c) ← deref (l !! pred (length l));
      d ← is_data_block c;
      if (d : bool) then mret c else last_data fuel c
  end.

(** The second loop of [below]: the pair a block begins with is added unseen. *)
Fixpoint below_loop (fuel : nat) (key : K) (limit : Z) (b : Z) (p : nat) : M (list (K * V)) :=
  match fuel with
  | O => lift (Fault OutOfFuel)
  | S fuel =>
      l ← data_entries b;
      n ← to_next b;
      go ← (if limit <=? 0 then mret false
            else if (p =? length l)%nat then mret (bool_decide (n <> None))
            else '(k, _) ← deref (l !! p); mret (klt k key));
      if (go : bool) then
        '(b, p, l) ← cross b p;
        assert_ (negb (p =? length l)%nat);;
        e ← deref (l !! p);
        rest ← below_loop fuel key (limit - 1) b (S p);
        mret (e :: rest)
      else mret []
  end.

Definition take_limit {X} (limit : Z) (l : list X) : list X := take (Z.to_nat limit) l.

Definition below (fuel : nat) (key : K) (limit : Z) : M (list (K * V)) :=
  r ← gets begin_block;
  match r with
  | None => mret []
  | Some r =>
      d ← is_data_block r;
      if (d : bool) then l ← data_entries r; mret (take_limit limit (take (lb_index key l) l))
      else c ← first_data fuel r; below_loop fuel key limit c O
  end.

Definition search_from_begin (fuel : nat) (limit : Z) : M (list (K * V)) :=
  r ← gets begin_block;
  match r with
  | None => mret []
  | Some r =>
      d ← is_data_block r;
      if (d : bool) then l ← data_entries r; mret (take_limit limit l)
      else c ← first_data fuel r; above_loop fuel limit c O
  end.

Fixpoint from_end_loop (fuel : nat) (limit : Z) (b : Z) (p : nat) : M (list (K * V)) :=
  match fuel with
  | O => lift (Fault OutOfFuel)
  | S fuel =>
      l ← data_entries b;
      n ← to_prev b;
      if (limit <=? 0) || ((p =? 0)%nat && bool_decide (n = None)) then mret [] else
      '(b, p, l) ← (if (p =? 0)%nat then
                      match n with
                      | Some n => l ← data_entries n; mret (n, length l, l)
                      | None => mret (b, p, l)
                      end
                    else mret (b, p, l));
      assert_ (negb (p =? 0)%nat);;
      e ← deref (l !! pred p);
      rest ← from_end_loop fuel (limit - 1) b (pred p);
      mret (e :: rest)
  end.

Definition search_from_end (fuel : nat) (limit : Z) : M (list (K * V)) :=
  r ← gets begin_block;
  match r with
  | None => mret []
  | Some r =>
      d ← is_data_block r;
      if (d : bool) then l ← data_entries r; mret (take_limit limit (reverse l))
      else c ← last_data fuel r; l ← data_entries c; from_end_loop fuel limit c (length l)
  end.

(** ** Updating *)

(** [fun] makes the new value from the old one; [update] checks the size before it looks for the
    key. *)
Definition replace_value (fuel : nat) (key : K) (fun_ : V -> V) : M bool :=
  o ← find_data fuel key;
  match o with
  | None => mret false
  | Some b =>
      l ← data_entries b;
      let p := lb_index key l in
      if (p =? length l)%nat then mret false else
      '(k, v) ← deref (l !! p);
      if negb (keq k key) then mret false else
      if negb (data_size_check (fun_ v)) then mret false else
      set_block b (Data (<[p := (k, fun_ v)]> l));;
      mret true
  end.

Definition update (fuel : nat) (key : K) (value : V) : M bool :=
  if negb (data_size_check value) then mret false else replace_value fuel key (fun _ => value).

Definition find_for_update (fuel : nat) (key : K) (fun_ : V -> V) : M bool := replace_value fuel key fun_.

(** ** Inserting

    [State] is a boolean, [Success] or not; an [IterKey] is the number of a block and its first
    key. *)

Definition data_block_insert (key : K) (value : V) (data_block : Z) : M (option (Z * K) * bool) :=
  l ← data_entries data_block;
  let p := lb_index key l in
  found ← (if (p =? length l)%nat then mret false else '(k, _) ← deref (l !! p); mret (keq k key));
  if (found : bool) then mret (None, false) else
  if can_insert DS (zlen l) then
    set_block data_block (Data (insert_at p (key, value) l));;
    mret (None, true)
  else
    new_data_block ← create_data_block;
    data_split data_block new_data_block key value;;
    k ← data_begin_key new_data_block;
    mret (Some (new_data_block, k), true).

Fixpoint insert_impl (fuel : nat) (key : K) (value : V) (b : Z) : M (option (Z * K) * bool) :=
  match fuel with
  | O => lift (Fault OutOfFuel)
  | S fuel =>
      d ← is_data_block b;
      if (d : bool) then data_block_insert key value b else
      l ← index_entries b;
      first ← index_begin_key b;
      let need_update := klt key first in
      let p := lb_index key l in
      found ← (if (p =? length l)%nat then mret false else '(k, _) ← deref (l !! p); mret (keq k key));
      if (found : bool) then mret (None, false) else
      let p := pred p in
      assert_ (negb (p =? length l)%nat);;
      '(_, c) ← deref (l !! p);
      '(key_iter, state) ← insert_impl fuel key value c;
      when (need_update && state) (update_key b p key);;
      match key_iter with
      | None => mret (None, state)
      | Some (i, k) =>
          l ← index_entries b;
          if can_insert IS (zlen l) then
            set_block b (Index (insert_at (S p) (k, i) l));;
            mret (None, state)
          else
            new_index_block ← create_index_block;
            index_split b new_index_block k i;;
            k ← index_begin_key new_index_block;
            mret (Some (new_index_block, k), state)
      end
  end.

(** [index_block.insert(index_block.end(), key, iter)]. *)
Definition index_append (i : Z) (key : K) (c : Z) : M unit :=
  l ← index_entries i; set_block i (Index (l ++ [(key, c)])).

Definition insert (fuel : nat) (key : K) (value : V) : M bool :=
  if negb (data_size_check value) then mret false else
  r ← gets begin_block;
  match r with
  | None =>
      data_block ← create_data_block;
      l ← data_entries data_block;
      assert_ (can_insert DS (zlen l));;
      set_block data_block (Data (l ++ [(key, value)]));;
      set_begin_block (Some data_block);;
      mret true
  | Some r =>
      '(iter_key, state) ← insert_impl fuel key value r;
      match iter_key with
      | None => mret state
      | Some (i, k) =>
          index_block ← create_index_block;
          l ← index_entries index_block;
          assert_ (can_insert IS (zlen l));;
          d ← is_data_block r;
          before ← (if (d : bool) then data_begin_key r else index_begin_key r);
          index_append index_block before r;;
          l ← index_entries index_block;
          assert_ (can_insert IS (zlen l));;
          index_append index_block k i;;
          set_begin_block (Some index_block);;
          mret state
      end
  end.

(** ** Erasing one key *)

(** The end of both [block_erase] functions: the block is short of pairs and merges with the one
    before it, or shares its pairs. *)
Definition data_block_erase (key : K) (iter_before : option Z) (data_block : Z) : M (option (Z * K) * bool) :=
  l ← data_entries data_block;
  let p := lb_index key l in
  found ← (if (p =? length l)%nat then mret false else '(k, _) ← deref (l !! p); mret (keq k key));
  if negb found then k ← data_begin_key data_block; mret (Some (data_block, k), false) else
  let l := erase_at p l in
  set_block data_block (Data l);;
  if enough DS (zlen l) || bool_decide (iter_before = None) then
    if (length l =? 0)%nat then erase_block data_block;; mret (None, true)
    else k ← data_begin_key data_block; mret (Some (data_block, k), true)
  else
    before ← deref iter_before;
    lb ← data_entries before;
    let choose := merge_keep_average DS (zlen lb) (zlen l) in
    if 0 <? choose then
      data_merge before data_block;;
      erase_block data_block;;
      mret (None, true)
    else
      when (choose <? 0) (data_average before data_block);;
      k ← data_begin_key data_block;
      mret (Some (data_block, k), true).

Fixpoint erase_impl (fuel : nat) (key : K) (iter_before : option Z) (b : Z) : M (option (Z * K) * bool) :=
  match fuel with
  | O => lift (Fault OutOfFuel)
  | S fuel =>
      d ← is_data_block b;
      if (d : bool) then data_block_erase key iter_before b else
      l ← index_entries b;
      let p := lb_index key l in
      first ← (if (p =? 0)%nat then '(k, _) ← deref (l !! p); mret (klt key k) else mret false);
      if (first : bool) then k ← index_begin_key b; mret (Some (b, k), false) else
      p ← (if (p =? length l)%nat then mret (pred p)
           else '(k, _) ← deref (l !! p); mret (if klt key k then pred p else p));
      '(pk, c) ← deref (l !! p);
      let before := if (p =? 0)%nat then None else snd <$> l !! pred p in
      '(iter_key, state) ← erase_impl fuel key before c;
      if negb state then k ← index_begin_key b; mret (Some (b, k), state) else
      match iter_key with
      | Some (_, k) =>
          when (negb (keq pk k)) (update_key b p k);;
          k ← index_begin_key b; mret (Some (b, k), state)
      | None =>
          l ← index_entries b;
          let l := erase_at p l in
          set_block b (Index l);;
          if enough IS (zlen l) || bool_decide (iter_before = None) then
            if (length l =? 0)%nat then erase_block b;; mret (None, state)
            else k ← index_begin_key b; mret (Some (b, k), state)
          else
            before ← deref iter_before;
            lb ← index_entries before;
            let choose := merge_keep_average IS (zlen lb) (zlen l) in
            if 0 <? choose then
              index_merge before b;;
              erase_block b;;
              mret (None, state)
            else
              when (choose <? 0) (index_average before b);;
              k ← index_begin_key b;
              mret (Some (b, k), state)
      end
  end.

Definition erase (fuel : nat) (key : K) : M bool :=
  r ← gets begin_block;
  match r with
  | None => mret false
  | Some r =>
      '(iter_key, state) ← erase_impl fuel key None r;
      match iter_key with
      | None => set_begin_block None;; mret state
      | Some (i, _) =>
          d ← is_data_block i;
          if negb d && state then
            l ← index_entries i;
            if (length l =? 1)%nat then
              '(_, c) ← deref (head l);
              set_begin_block (Some c);;
              erase_block i;;
              mret state
            else mret state
          else mret state
      end
  end.

(** ** Erasing a range *)

Fixpoint each {X} (f : X -> M unit) (l : list X) : M unit :=
  match l with [] => mret tt | x :: l => f x;; each f l end.

(** [erase_all_block] of one child. *)
Fixpoint erase_all_block (fuel : nat) (c : Z) : M unit :=
  match fuel with
  | O => lift (Fault OutOfFuel)
  | S fuel =>
      d ← is_data_block c;
      (if (d : bool) then mret tt else l ← index_entries c; each (erase_all_block fuel) (l.*2));;
      erase_block c
  end.

Definition iter_pair : Type := option (Z * K) * option (Z * K).

Definition data_range_erase (first stop : K) (left right : Z) : M (iter_pair * bool) :=
  if left =? right then
    l ← data_entries left;
    let b := lb_index first l in
    let e := lb_index stop l in
    let l := (if (b =? e)%nat then l else erase_between b e l) in
    set_block left (Data l);;
    if (length l =? 0)%nat then erase_block left;; mret (None, None, negb (b =? e)%nat)
    else k ← data_begin_key left; mret (Some (left, k), Some (left, k), negb (b =? e)%nat)
  else
    l ← data_entries left;
    let l := take (lb_index first l) l in
    set_block left (Data l);;
    r ← data_entries right;
    let r := drop (lb_index stop r) r in
    set_block right (Data r);;
    let choose := merge_keep_average DS (zlen l) (zlen r) in
    if 0 <? choose then
      if negb (length l =? 0)%nat then
        data_merge left right;;
        erase_block right;;
        k ← data_begin_key left;
        mret (Some (left, k), None, true)
      else
        erase_block left;;
        if (length r =? 0)%nat then erase_block right;; mret (None, None, true)
        else k ← data_begin_key right; mret (None, Some (right, k), true)
    else
      when (choose <? 0) (data_average left right);;
      kl ← data_begin_key left;
      kr ← data_begin_key right;
      mret (Some (left, kl), Some (right, kr), true).

(** [if (it == end() || it != begin() && it.key() != key) --it;] *)
Definition range_step (key : K) (l : list (K * Z)) (p : nat) : M nat :=
  b ← (if (p =? length l)%nat then mret true else
       if (p =? 0)%nat then mret false else '(k, _) ← deref (l !! p); mret (negb (keq k key)));
  if (b : bool) then match p with O => lift (Fault OutOfBounds) | S p => mret p end else mret p.

(** What becomes of the entry at [p] of block [b], after the child it points at. *)
Definition child_done (b : Z) (p : nat) (r : option (Z * K)) : M unit :=
  match r with
  | Some (_, k) => l ← index_entries b; '(pk, _) ← deref (l !! p); when (negb (keq pk k)) (update_key b p k)
  | None => l ← index_entries b; set_block b (Index (erase_at p l))
  end.

Fixpoint range_erase_impl (fuel : nat) (first stop : K) (left right : Z) : M (iter_pair * bool) :=
  match fuel with
  | O => lift (Fault OutOfFuel)
  | S fuel =>
      d ← is_data_block left;
      if (d : bool) then data_range_erase first stop left right else
      if left =? right then
        l ← index_entries left;
        li ← range_step first l (lb_index first l);
        let ri := lb_index stop l in
        ri ← (if (li =? ri)%nat then mret ri else
              if (ri =? length l)%nat then mret (pred ri) else
              '(k, _) ← deref (l !! ri); mret (if keq k stop then ri else pred ri));
        '(_, lc) ← deref (l !! li);
        '(_, rc) ← deref (l !! ri);
        '(ik_l, ik_r, state) ← range_erase_impl fuel first stop lc rc;
        (if negb (li =? ri)%nat then
           match ik_l with
           | Some _ => child_done left li ik_l;; child_done left ri ik_r
           | None => child_done left ri ik_r;; child_done left li ik_l
           end;;
           l ← index_entries left;
           let eb := lb_index first l in
           let ee := lb_index stop l in
           each (erase_all_block fuel) ((take (ee - eb) (drop eb l)).*2);;
           set_block left (Index (erase_between eb ee l))
         else child_done left li ik_l);;
        l ← index_entries left;
        if (length l =? 0)%nat then erase_block left;; mret (None, None, state)
        else k ← index_begin_key left; mret (Some (left, k), Some (left, k), state)
      else
        l ← index_entries left;
        r ← index_entries right;
        li ← range_step first l (lb_index first l);
        ri ← range_step stop r (lb_index stop r);
        '(_, lc) ← deref (l !! li);
        '(_, rc) ← deref (r !! ri);
        '(ik_l, ik_r, state) ← range_erase_impl fuel first stop lc rc;
        child_done left li ik_l;;
        child_done right ri ik_r;;
        l ← index_entries left;
        r ← index_entries right;
        let eb := lb_index first l in
        let ee := lb_index stop r in
        each (erase_all_block fuel) ((drop eb l).*2);;
        set_block left (Index (take eb l));;
        each (erase_all_block fuel) ((take ee r).*2);;
        set_block right (Index (drop ee r));;
        let l := take eb l in
        let r := drop ee r in
        let choose := merge_keep_average IS (zlen l) (zlen r) in
        if 0 <? choose then
          if negb (length l =? 0)%nat then
            index_merge left right;;
            erase_block right;;
            k ← index_begin_key left;
            mret (Some (left, k), None, state)
          else
            erase_block left;;
            if (length r =? 0)%nat then erase_block right;; mret (None, None, state)
            else k ← index_begin_key right; mret (None, Some (right, k), state)
        else
          when (choose <? 0) (index_average left right);;
          kl ← index_begin_key left;
          kr ← index_begin_key right;
          mret (Some (left, kl), Some (right, kr), state)
  end.

Definition erase_range (fuel : nat) (first stop : K) : M bool :=
  r ← gets begin_block;
  match r with
  | None => mret false
  | Some r =>
      '(iter_key, _, state) ← range_erase_impl fuel first stop r r;
      match iter_key with
      | None => set_begin_block None;; mret state
      | Some (i, _) => when (negb (i =? r)) (set_begin_block (Some i));; mret state
      end
  end.
End BPTree.
