(* ===== verification/BPTreeSpec.v ===== *)
(** * BPTreeSpec: the tree as a sorted list, and searching in it

    A ghost tree says which blocks of the heap of BPTree.v hang under which; its leaves, from
    left to right, are the chain, and their pairs make one sorted list.  The keys of an index
    block are the first keys of its children.  Searching agrees with the sorted list. *)

From stdpp Require Import gmap sorting.
From S2P Require Import Prelude Packed BPTree.
Local Open Scope Z_scope.
Import BPTree.

(** ** Positions in sorted lists *)

Section Sorted.
Context {K : Type} `{KeyOrderLaws K}.

Definition all_below {X} (key : K) (l : list (K * X)) : Prop := forall x, x ∈ l -> klt x.1 key = true.
Definition all_above {X} (key : K) (l : list (K * X)) : Prop := forall x, x ∈ l -> klt key x.1 = true.

(** The pair with the key, where [lower_bound] says. *)
Definition found {X} (key : K) (es : list (K * X)) : option (K * X) :=
  match es !! lb_index key es with Some (k, x) => if keq k key then Some (k, x) else None | None => None end.

Lemma klt_asym x y : klt x y = true -> klt y x = false.
Proof. intros Hxy. destruct (klt y x) eqn:Hyx; [| done]. pose proof (klt_trans _ _ _ Hxy Hyx) as E. by rewrite klt_irrefl in E. Qed.

Lemma klt_le_trans x y z : klt x y = true -> klt z y = false -> klt x z = true.
Proof.
  intros Hxy Hyz. destruct (klt y z) eqn:E; [by eapply klt_trans |]. by rewrite (klt_total _ _ Hyz E) in *.
Qed.

Lemma klt_from_le x y z : klt y x = false -> klt y z = true -> klt x z = true.
Proof. intros Hyx Hyz. destruct (klt x y) eqn:E; [by eapply klt_trans |]. by rewrite (klt_total _ _ E Hyx). Qed.

Lemma keq_refl x : keq x x = true.
Proof. by apply keq_eq. Qed.

Lemma keq_klt x y : klt x y = true -> keq x y = false.
Proof. intros Hlt. destruct (keq x y) eqn:E; [| done]. apply keq_eq in E as ->. by rewrite klt_irrefl in Hlt. Qed.

Lemma keq_klt' x y : klt x y = true -> keq y x = false.
Proof. intros Hlt. destruct (keq y x) eqn:E; [| done]. apply keq_eq in E as ->. by rewrite klt_irrefl in Hlt. Qed.

Lemma lb_skip {X} key (A B : list (K * X)) : all_below key A -> lb_index key (A ++ B) = (length A + lb_index key B)%nat.
Proof.
  intros HA. induction A as [| a A IH]; [done |]. simpl. rewrite HA by left. f_equal. apply IH. intros x Hx. apply HA. by right.
Qed.

Lemma lb_stop {X} key (B : list (K * X)) : all_above key B -> lb_index key B = O.
Proof. intros HB. destruct B as [| b B]; [done |]. simpl. by rewrite (klt_asym key b.1) by (apply HB; left). Qed.

Lemma lb_app_above {X} key (A B : list (K * X)) : all_above key B -> lb_index key (A ++ B) = lb_index key A.
Proof.
  intros HB. induction A as [| a A IH]; [simpl; by apply lb_stop |]. simpl. by rewrite IH.
Qed.

Lemma lb_mid {X} key (A E B : list (K * X)) :
  all_below key A -> all_above key B -> lb_index key (A ++ E ++ B) = (length A + lb_index key E)%nat.
Proof. intros HA HB. by rewrite lb_skip, lb_app_above. Qed.

Lemma found_mid {X} key (A E B : list (K * X)) :
  all_below key A -> all_above key B -> found key (A ++ E ++ B) = found key E.
Proof.
  intros HA HB. unfold found. rewrite lb_mid by done. rewrite lookup_app_r by lia.
  replace (length A + lb_index key E - length A)%nat with (lb_index key E) by lia.
  destruct (E !! lb_index key E) as [[k x] |] eqn:He; [by rewrite (lookup_app_l_Some _ _ _ _ He) |].
  apply lookup_ge_None in He. rewrite lookup_app_r by done. destruct (B !! _) as [[k x] |] eqn:Hb; [| done].
  apply list_elem_of_lookup_2, HB in Hb. simpl in Hb. by rewrite keq_klt'.
Qed.

Lemma ordered_insert_mid {X} key (x : X) (A E B : list (K * X)) :
  all_below key A -> all_above key B -> ordered_insert key x (A ++ E ++ B) = A ++ ordered_insert key x E ++ B.
Proof.
  intros HA HB. unfold ordered_insert. rewrite lb_mid by done. rewrite take_app_add, drop_app_add.
  pose proof (lb_index_le key E). rewrite take_app_le, drop_app_le by done. by rewrite <- !app_assoc.
Qed.

Lemma all_below_nil {X} key : all_below (X := X) key [].
Proof. intros x Hx. by apply elem_of_nil in Hx. Qed.
Lemma all_above_nil {X} key : all_above (X := X) key [].
Proof. intros x Hx. by apply elem_of_nil in Hx. Qed.

(** Where a search goes: to the last entry not above the key, or to the first one. *)
Record located {X} (key : K) (es A : list (K * X)) (e : K * X) (B : list (K * X)) : Prop := {
  located_split : es = A ++ e :: B;
  located_low : A = [] \/ klt key e.1 = false;
  located_high : all_above key B;
  located_lb : (lb_index key es = length A /\ (klt key e.1 = true \/ e.1 = key)) \/
               (lb_index key es = S (length A) /\ klt e.1 key = true);
}.

Lemma sorted_head {X} (a b : K * X) es : sorted (a :: b :: es) -> klt a.1 b.1 = true /\ sorted (b :: es).
Proof. intros Hs. inv Hs as [| ? ? Hs' Hall]. split; [| done]. rewrite list.Forall_forall in Hall. apply Hall. left. Qed.

Lemma sorted_above {X} key (b : K * X) es : sorted (b :: es) -> klt key b.1 = true -> all_above key (b :: es).
Proof.
  intros Hs Hb x [-> | Hx]%list.elem_of_cons; [done |]. inv Hs as [| ? ? _ Hall].
  rewrite list.Forall_forall in Hall. eapply klt_trans; [exact Hb | by apply Hall].
Qed.

Lemma located_here {X} key (e : K * X) es : all_above key es -> located key (e :: es) [] e es.
Proof.
  intros Ha. split; [done | by left | done |]. simpl. rewrite (lb_stop key es Ha). destruct (klt e.1 key) eqn:E; [by right |].
  left. split; [done |]. destruct (klt key e.1) eqn:E'; [by left | right; by apply klt_total].
Qed.

Lemma locate {X} key (es : list (K * X)) : es <> [] -> sorted es -> exists A e B, located key es A e B.
Proof.
  induction es as [| a es IH]; intros Hne Hs; [done |]. destruct es as [| b es].
  { exists [], a, []. apply located_here, all_above_nil. }
  destruct (sorted_head _ _ _ Hs) as [Hab Hs']. destruct (klt key b.1) eqn:Hb.
  { exists [], a, (b :: es). by apply located_here, sorted_above. }
  destruct (IH ltac:(done) Hs') as (A & e & B & [Hsplit Hlow Hhigh Hlb]). exists (a :: A), e, B.
  assert (Ha : klt a.1 key = true) by (by eapply klt_le_trans).
  split; [by rewrite Hsplit | | done |].
  - right. destruct Hlow as [-> | Hlow]; [| done]. simpl in Hsplit. by injection Hsplit as <- _.
  - change (lb_index key (a :: b :: es)) with (if klt a.1 key then S (lb_index key (b :: es)) else O).
    rewrite Ha. cbn [length]. destruct Hlb as [[-> ?] | [-> ?]]; [left | right]; auto.
Qed.
End Sorted.

(** ** Ghost trees *)

Section Trees.
Context {K V : Type} `{KeyOrderLaws K}.
Context (DS IS : sizes).

#[local] Set Warnings "-register-all".
Inductive tree :=
  | TData (i : Z) (l : list (K * V))
  | TIndex (i : Z) (cs : list (K * tree)).

Definition root (t : tree) : Z := match t with TData i _ | TIndex i _ => i end.

Definition entries (cs : list (K * tree)) : list (K * Z) := (fun c => (c.1, root c.2)) <$> cs.

Fixpoint leafs (t : tree) : list (Z * list (K * V)) :=
  match t with TData i l => [(i, l)] | TIndex _ cs => flat_map (fun c => leafs c.2) cs end.

Fixpoint blocks (t : tree) : list (Z * block (K := K) (V := V)) :=
  match t with
  | TData i l => [(i, Data l)]
  | TIndex i cs => (i, Index (entries cs)) :: flat_map (fun c => blocks c.2) cs
  end.

Definition pairs (ls : list (Z * list (K * V))) : list (K * V) := mjoin ls.*2.
Definition elems (t : tree) : list (K * V) := pairs (leafs t).
Definition elems_of (cs : list (K * tree)) : list (K * V) := flat_map (fun c => elems c.2) cs.
Definition leafs_of (cs : list (K * tree)) : list (Z * list (K * V)) := flat_map (fun c => leafs c.2) cs.
Definition blocks_in (cs : list (K * tree)) : list (Z * block) := flat_map (fun c => blocks c.2) cs.

Definition fits (z : sizes) (n : Z) : Prop := n * pair_size z <= max_size z.

Definition first_key (t : tree) (k : K) : Prop := exists v es, elems t = (k, v) :: es.

(** Data blocks hang at depth [h]; every block has pairs, and room for them; an index key is the
    first key below it. *)
Fixpoint wf (h : nat) (t : tree) : Prop :=
  match h, t with
  | O, TData _ l => l <> [] /\ fits DS (zlen l)
  | S h, TIndex _ cs => cs <> [] /\ fits IS (zlen cs) /\ Forall (fun c => wf h c.2 /\ first_key c.2 c.1) cs
  | _, _ => False
  end.

Lemma pairs_app A B : pairs (A ++ B) = pairs A ++ pairs B.
Proof. unfold pairs. by rewrite fmap_app, join_app. Qed.

Lemma elems_index i cs : elems (TIndex i cs) = elems_of cs.
Proof. unfold elems. simpl. induction cs as [| [k t] cs IH]; [done |]. simpl. by rewrite pairs_app, IH. Qed.

Lemma elems_data i l : elems (TData i l) = l.
Proof. unfold elems, pairs. simpl. apply app_nil_r. Qed.

Lemma elems_of_app A B : elems_of (A ++ B) = elems_of A ++ elems_of B.
Proof. apply flat_map_app. Qed.
Lemma leafs_of_app A B : leafs_of (A ++ B) = leafs_of A ++ leafs_of B.
Proof. apply flat_map_app. Qed.
Lemma blocks_in_app A B : blocks_in (A ++ B) = blocks_in A ++ blocks_in B.
Proof. apply flat_map_app. Qed.

Lemma pairs_leafs cs : pairs (leafs_of cs) = elems_of cs.
Proof. apply (elems_index 0). Qed.

Lemma entries_app A B : entries (A ++ B) = entries A ++ entries B.
Proof. apply fmap_app. Qed.
Lemma length_entries cs : length (entries cs) = length cs.
Proof. apply length_fmap. Qed.
Lemma zlen_entries cs : zlen (entries cs) = zlen cs.
Proof. unfold zlen. by rewrite length_entries. Qed.

Lemma first_key_in t k : first_key t k -> exists v, (k, v) ∈ elems t.
Proof. intros (v & es & ->). exists v. left. Qed.

Definition kids (h : nat) (cs : list (K * tree)) : Prop := Forall (fun c => wf h c.2 /\ first_key c.2 c.1) cs.

(** The keys of the entries are sorted like the pairs below them. *)
Lemma entries_sorted h cs : kids h cs -> sorted (elems_of cs) -> sorted (entries cs).
Proof.
  induction cs as [| [k t] cs IH]; intros Hk Hs; [constructor |]. apply list.Forall_cons in Hk as [[_ Hf] Hk].
  change (elems_of ((k, t) :: cs)) with (elems t ++ elems_of cs) in Hs. apply sorted_app in Hs as (_ & Hs & Hlt).
  constructor; [by apply IH |]. apply list.Forall_forall. intros e He.
  unfold entries in He. apply list_elem_of_fmap in He as ([k' t'] & -> & Hc). simpl.
  destruct (first_key_in _ _ Hf) as [v Hv]. rewrite list.Forall_forall in Hk. destruct (Hk _ Hc) as [_ Hf'].
  destruct (first_key_in _ _ Hf') as [v' Hv']. apply (Hlt (k, v) (k', v') Hv).
  unfold elems_of. rewrite list_elem_of_In, in_flat_map. exists (k', t'). by rewrite <- !list_elem_of_In.
Qed.

Lemma kids_above h key cs : kids h cs -> sorted (elems_of cs) -> all_above key (entries cs) -> all_above key (elems_of cs).
Proof.
  intros Hk Hs Ha. destruct cs as [| [k t] cs]; [apply all_above_nil |].
  apply list.Forall_cons in Hk as [[_ (v & es & He)] _].
  change (elems_of ((k, t) :: cs)) with (elems t ++ elems_of cs) in Hs |- *. simpl in He. rewrite He in *.
  apply sorted_above; [done |]. apply (Ha (k, root t)). left.
Qed.

(** Where the search goes in an index block, in terms of what is below. *)
Record child_at (key : K) (cs A : list (K * tree)) (k : K) (t : tree) (B : list (K * tree)) : Prop := {
  child_split : cs = A ++ (k, t) :: B;
  child_low : all_below key (elems_of A);
  child_high : all_above key (elems_of B);
  child_key : A = [] \/ klt key k = false;
  child_entry : located key (entries cs) (entries A) (k, root t) (entries B);
}.

Lemma locate_child h key cs : cs <> [] -> kids h cs -> sorted (elems_of cs) ->
  exists A k t B, child_at key cs A k t B /\ wf h t /\ first_key t k /\ sorted (elems t).
Proof.
  intros Hne Hk Hs. destruct (locate key (entries cs)) as (A & e & B & Hl); [by destruct cs | by eapply entries_sorted |].
  pose proof Hl as [Hsplit Hlow Hhigh _]. unfold entries in Hsplit.
  apply fmap_app_inv in Hsplit as (A' & R & -> & HR & ->). destruct R as [| [k t] B']; [done |].
  injection HR as -> ->. exists A', k, t, B'.
  apply list.Forall_app in Hk as [HkA Hk']. apply list.Forall_cons in Hk' as [[Hw Hf] HkB].
  rewrite elems_of_app in Hs. change (elems_of ((k, t) :: B')) with (elems t ++ elems_of B') in Hs.
  apply sorted_app in Hs as (HsA & HsR & Hlt). apply sorted_app in HsR as (Hst & HsB & _).
  split; [| done]. split; [done | | by eapply kids_above | destruct Hlow as [Hnil | Hlow]; [left; by destruct A' | by right] | exact Hl].
  destruct Hlow as [Hnil | Hlow]; [destruct A'; [apply all_below_nil | done] |].
  intros x Hx. destruct (first_key_in _ _ Hf) as [v Hv]. eapply klt_le_trans; [| exact Hlow].
  apply (Hlt x (k, v) Hx). apply elem_of_app. by left.
Qed.
End Trees.

(** ** Reading *)

#[local] Existing Instance M_ret.
#[local] Existing Instance M_bind.

Lemma run_bind {K V A B} (m : M (K := K) (V := V) A) (k : A -> M B) s s' a :
  m s = Ret (a, s') -> (x ← m; k x) s = k a s'.
Proof. intros Hm. unfold mbind, M_bind. by rewrite Hm. Qed.

(** [run t] executes the next statement, whose result [t] proves. *)
Ltac run_by t := erewrite run_bind by t; cbv beta iota.
Tactic Notation "run" tactic3(t) := run_by t.

Section Search.
Context {K V : Type} `{KeyOrderLaws K}.
Context (DS IS : sizes).
Abbreviation tree := (tree (K := K) (V := V)).
Abbreviation state := (tree_state (K := K) (V := V)).
Abbreviation block := (block (K := K) (V := V)).
Abbreviation wf := (wf (K := K) (V := V) DS IS).
Abbreviation kids := (kids (K := K) (V := V) DS IS).
Abbreviation child_at := (child_at (V := V)).

Lemma run_get (s : state) i b : heap s !! i = Some b -> get_block i s = Ret (b, s).
Proof. intros Hi. unfold get_block. erewrite run_bind by done. unfold lift. by rewrite Hi. Qed.

Lemma run_index (s : state) i l : heap s !! i = Some (Index l) -> index_entries i s = Ret (l, s).
Proof. intros Hi. unfold index_entries. by erewrite run_bind by (by apply run_get). Qed.

Lemma run_data (s : state) i l : heap s !! i = Some (Data l) -> data_entries i s = Ret (l, s).
Proof. intros Hi. unfold data_entries. by erewrite run_bind by (by apply run_get). Qed.

Lemma run_is_data (s : state) i l : heap s !! i = Some (Data l) -> is_data_block i s = Ret (true, s).
Proof. intros Hi. unfold is_data_block. by erewrite run_bind by (by apply run_get). Qed.

Lemma run_is_index (s : state) i l : heap s !! i = Some (Index l) -> is_data_block i s = Ret (false, s).
Proof. intros Hi. unfold is_data_block. by erewrite run_bind by (by apply run_get). Qed.

Lemma run_deref {A} (o : option A) a (s : state) : o = Some a -> deref o s = Ret (a, s).
Proof. by intros ->. Qed.

Lemma step_back_ok {X} key (es A B : list (K * X)) e (s : state) : located key es A e B ->
  step_back key es (lb_index key es) s = Ret (length A, s) /\ step_back key es (length A) s = Ret (length A, s).
Proof.
  destruct e as [k x]. intros [-> Hlow Hhigh Hlb]. unfold step_back. simpl in Hlow, Hlb.
  assert (Hmid : (A ++ (k, x) :: B) !! length A = Some (k, x)) by (rewrite lookup_app_r, Nat.sub_diag by lia; done).
  assert (Hhere : step_back key (A ++ (k, x) :: B) (length A) s = Ret (length A, s)).
  { unfold step_back. rewrite length_app. simpl. destruct (Nat.eqb_spec (length A) (length A + S (length B))); [lia |].
    erewrite run_bind by (erewrite run_bind by (by apply run_deref); reflexivity).
    destruct Hlow as [-> | ->]; [done | by rewrite andb_false_r]. }
  split; [| exact Hhere]. destruct Hlb as [[-> _] | [-> _]]; [exact Hhere |].
  rewrite length_app. cbn [length]. destruct (Nat.eqb_spec (S (length A)) (length A + S (length B))); [done |].
  destruct B as [| [k' x'] B]; [simpl in *; lia |].
  assert (Hb : (A ++ (k, x) :: (k', x') :: B) !! S (length A) = Some (k', x')) by (rewrite lookup_app_r by lia; by replace (S (length A) - length A)%nat with 1%nat by lia).
  erewrite run_bind by (erewrite run_bind by (by apply run_deref); reflexivity).
  specialize (Hhigh (k', x') ltac:(left)). simpl in *. by rewrite Hhigh.
Qed.

(** The blocks of [t] are in the heap. *)
Definition mem (s : state) (t : tree) : Prop := forall i b, (i, b) ∈ blocks t -> heap s !! i = Some b.

Lemma mem_root s i cs : mem s (TIndex i cs) -> heap s !! i = Some (Index (entries cs)).
Proof. intros Hm. apply Hm. left. Qed.

Lemma mem_child s i A k t B : mem s (TIndex i (A ++ (k, t) :: B)) -> mem s t.
Proof.
  intros Hm j b Hb. apply Hm. simpl. right. change (flat_map _ _) with (blocks_in (A ++ (k, t) :: B)).
  rewrite blocks_in_app. apply elem_of_app. right. apply elem_of_app. by left.
Qed.

Lemma child_elem {X} (A B : list (K * X)) e : (A ++ e :: B) !! length A = Some e.
Proof. by rewrite lookup_app_r, Nat.sub_diag by lia. Qed.

Lemma child_lookup key cs A k t B : child_at key cs A k t B -> entries cs !! length A = Some (k, root t).
Proof. intros [-> _ _ _ _]. rewrite entries_app. simpl. rewrite <- (length_entries A). apply child_elem. Qed.

(** The leaf a search ends in. *)
Record leaf_at (s : state) (key : K) (ls LA : list (Z * list (K * V))) (i : Z) (l : list (K * V)) (LB : list (Z * list (K * V))) : Prop := {
  leaf_split : ls = LA ++ (i, l) :: LB;
  leaf_low : all_below key (pairs LA);
  leaf_high : all_above key (pairs LB);
  leaf_mem : heap s !! i = Some (Data l);
}.

Lemma all_below_app {X} key (A B : list (K * X)) : all_below key A -> all_below key B -> all_below key (A ++ B).
Proof. intros HA HB x [Hx | Hx]%elem_of_app; [by apply HA | by apply HB]. Qed.
Lemma all_above_app {X} key (A B : list (K * X)) : all_above key A -> all_above key B -> all_above key (A ++ B).
Proof. intros HA HB x [Hx | Hx]%elem_of_app; [by apply HA | by apply HB]. Qed.

Lemma leaf_in_child s key i cs A k t B LA j l LB :
  child_at key cs A k t B -> leaf_at s key (leafs t) LA j l LB ->
  leaf_at s key (leafs (TIndex i cs)) (leafs_of A ++ LA) j l (LB ++ leafs_of B).
Proof.
  intros [-> HA HB _ _] [Hs Hl Hh Hm]. split; [| | | done].
  - change (leafs _) with (leafs_of (A ++ (k, t) :: B)). rewrite leafs_of_app.
    change (leafs_of ((k, t) :: B)) with (leafs t ++ leafs_of B). rewrite Hs. by rewrite <- !app_assoc.
  - rewrite pairs_app, pairs_leafs. by apply all_below_app.
  - rewrite pairs_app, pairs_leafs. by apply all_above_app.
Qed.

Lemma wf_data t : wf 0 t -> exists i l, t = TData i l /\ l <> [] /\ fits DS (zlen l).
Proof. destruct t as [i l |]; [| done]. intros [? ?]. by exists i, l. Qed.

Lemma wf_index h t : wf (S h) t -> exists i cs, t = TIndex i cs /\ cs <> [] /\ fits IS (zlen cs) /\ kids h cs.
Proof. destruct t as [| i cs]; [done |]. intros (? & ? & ?). by exists i, cs. Qed.

Lemma mem_data s i l : mem s (TData i l) -> heap s !! i = Some (Data l).
Proof. intros Hm. apply Hm. left. Qed.

(** One round of the loop of [find_data]. *)
Lemma find_data_step s fuel key h i cs A k t B :
  mem s (TIndex i cs) -> child_at key cs A k t B -> wf h t ->
  find_data_loop (S fuel) key i s =
    match t with TData j _ => Ret (j, s) | TIndex j _ => find_data_loop fuel key j s end.
Proof.
  intros Hm Hc Hwt. pose proof (child_split _ _ _ _ _ _ Hc) as Hcs.
  pose proof (step_back_ok key _ _ _ _ s (child_entry _ _ _ _ _ _ Hc)) as [Hp1 Hp2]. rewrite length_entries in Hp1, Hp2.
  pose proof (child_lookup _ _ _ _ _ _ Hc) as Hl. assert (Hmt : mem s t) by (rewrite Hcs in Hm; by eapply mem_child).
  cbn [find_data_loop]. run (apply run_index, mem_root; exact Hm). run exact Hp1.
  run (by apply run_deref). destruct t as [j l | j cs']; cbn [root].
  - apply mem_data in Hmt. run (by eapply run_is_data). run exact Hp2.
    run (by apply run_deref). cbn [root]. by run (by apply run_data).
  - by run (eapply run_is_index, mem_root; exact Hmt).
Qed.

Lemma find_data_loop_ok h : forall t (s : state) fuel key,
  wf (S h) t -> mem s t -> sorted (elems t) -> (h < fuel)%nat ->
  exists LA i l LB, leaf_at s key (leafs t) LA i l LB /\ find_data_loop fuel key (root t) s = Ret (i, s).
Proof.
  induction h as [| h IH]; intros t s fuel key Hwf Hm Hs Hf;
    (destruct fuel as [| fuel]; [lia |]); destruct (wf_index _ _ Hwf) as (i & cs & -> & Hne & _ & Hk);
    rewrite elems_index in Hs; destruct (locate_child DS IS _ key cs Hne Hk Hs) as (A & k & t & B & Hc & Hwt & _ & Hst);
    pose proof (child_split _ _ _ _ _ _ Hc) as Hcs; (assert (Hmt : mem s t) by (rewrite Hcs in Hm; by eapply mem_child));
    cbn [root]; rewrite (find_data_step s fuel key _ i cs A k t B Hm Hc Hwt).
  - destruct (wf_data t Hwt) as (j & l & -> & _). exists (leafs_of A), j, l, (leafs_of B). split; [| done].
    rewrite <- (app_nil_r (leafs_of A)), <- (app_nil_l (leafs_of B)). eapply leaf_in_child; [exact Hc |].
    split; [done | apply all_below_nil | apply all_above_nil | by apply mem_data].
  - destruct (wf_index _ _ Hwt) as (j & cs' & -> & _).
    destruct (IH (TIndex j cs') s fuel key Hwt Hmt Hst ltac:(lia)) as (LA & i' & l & LB & Hleaf & Hrun).
    exists (leafs_of A ++ LA), i', l, (LB ++ leafs_of B). split; [by eapply leaf_in_child | exact Hrun].
Qed.

(** ** The whole tree *)

(** [t] hangs under the root, owns every block of the heap, and its leaves are the chain. *)
Record holds (s : state) (h : nat) (t : tree) : Prop := {
  holds_root : begin_block s = Some (root t);
  holds_wf : wf h t;
  holds_heap : heap s = list_to_map (blocks t);
  holds_nodup : NoDup (blocks t).*1;
  holds_chain : chain s = (leafs t).*1;
  holds_sorted : sorted (elems t);
}.

Lemma holds_mem s h t : holds s h t -> mem s t.
Proof. intros Hh i b Hb. rewrite (holds_heap _ _ _ Hh). by apply elem_of_list_to_map_1; [apply Hh |]. Qed.

(** The leaves in the heap, as a scan along the chain meets them. *)
Record leaves_ok (s : state) (ls : list (Z * list (K * V))) : Prop := {
  leaves_chain : chain s = ls.*1;
  leaves_nodup : NoDup ls.*1;
  leaves_mem j l : (j, l) ∈ ls -> heap s !! j = Some (Data l) /\ l <> [];
}.

Lemma leafs_blocks (t : tree) : (leafs t).*1 ⊆+ (blocks t).*1.
Proof.
  revert t. fix IH 1. intros [i l | i cs]; [done |]. simpl. apply submseteq_cons.
  induction cs as [| [k t] cs IHcs]; [done |]. simpl. rewrite !fmap_app. by apply submseteq_app; [apply IH | exact IHcs].
Qed.

Lemma leaf_block h : forall t j l, wf h t -> (j, l) ∈ leafs t -> (j, Data l) ∈ blocks t /\ l <> [].
Proof.
  induction h as [| h IH]; intros t j l Hwf Hj.
  - destruct (wf_data t Hwf) as (i & l' & -> & Hne & _). simpl in *. apply list_elem_of_singleton in Hj as [= -> ->]. split; [left | done].
  - destruct (wf_index _ _ Hwf) as (i & cs & -> & _ & _ & Hk). simpl in *. rewrite list_elem_of_In, in_flat_map in Hj.
    destruct Hj as ([k t] & Hc & Hj). rewrite <- list_elem_of_In in Hc. rewrite <- list_elem_of_In in Hj. unfold kids, BPTreeSpec.kids in Hk.
    rewrite list.Forall_forall in Hk. destruct (Hk _ Hc) as [Hw _]. destruct (IH t j l Hw Hj) as [Hb Hne]. split; [| done].
    right. rewrite list_elem_of_In, in_flat_map. exists (k, t). by rewrite <- !list_elem_of_In.
Qed.

Lemma submseteq_unique {X} (l k : list X) : l ⊆+ k -> NoDup k -> NoDup l.
Proof. intros [k' Hk]%submseteq_Permutation Hnd. rewrite Hk in Hnd. by apply list.NoDup_app in Hnd as [? _]. Qed.

Lemma holds_leaves s h t : holds s h t -> leaves_ok s (leafs t).
Proof.
  intros Hh. split; [apply Hh | |].
  - eapply submseteq_unique; [apply leafs_blocks | apply Hh].
  - intros j l Hj. destruct (leaf_block h t j l (holds_wf _ _ _ Hh) Hj) as [Hb Hne]. split; [by apply (holds_mem _ _ _ Hh) | done].
Qed.

Lemma height_blocks h : forall t, wf h t -> (h < length (blocks t))%nat.
Proof.
  induction h as [| h IH]; intros t Hwf; [destruct (wf_data t Hwf) as (i & l & -> & _); simpl; lia |].
  destruct (wf_index _ _ Hwf) as (i & cs & -> & Hne & _ & Hk). destruct cs as [| [k t] cs]; [done |].
  apply list.Forall_cons in Hk as [[Hw _] _]. specialize (IH t Hw). simpl. rewrite length_app. lia.
Qed.

Lemma holds_height s h t : holds s h t -> (h < size (heap s))%nat.
Proof.
  intros Hh. rewrite (holds_heap _ _ _ Hh), map_size_list_to_map by apply Hh. apply (height_blocks h t), Hh.
Qed.

Lemma find_data_ok s h t fuel key : holds s h t -> (h <= fuel)%nat ->
  exists LA i l LB, leaf_at s key (leafs t) LA i l LB /\ find_data fuel key s = Ret (Some i, s).
Proof.
  intros Hh Hf. pose proof (holds_mem _ _ _ Hh) as Hm. unfold find_data.
  assert (Hr : forall k : option Z -> M (option Z), (r ← gets begin_block; k r) s = k (Some (root t)) s)
    by (intros k; unfold mbind, M_bind, gets; by rewrite (holds_root _ _ _ Hh)).
  rewrite Hr. pose proof (holds_wf _ _ _ Hh) as Hwf. destruct h as [| h].
  - destruct (wf_data t Hwf) as (i & l & -> & _). apply mem_data in Hm. exists [], i, l, [].
    split; [split; [done | apply all_below_nil | apply all_above_nil | done] |]. cbn [root]. by run (by eapply run_is_data).
  - destruct (find_data_loop_ok h t s fuel key Hwf Hm (holds_sorted _ _ _ Hh) ltac:(lia)) as (LA & i & l & LB & Hl & Hrun).
    exists LA, i, l, LB. split; [done |]. destruct (wf_index _ _ Hwf) as (j & cs & -> & _). apply mem_root in Hm. cbn [root] in *.
    run (by eapply run_is_index). by run exact Hrun.
Qed.

Lemma leaf_pairs s key ls LA i l LB : leaf_at s key ls LA i l LB -> pairs ls = pairs LA ++ l ++ pairs LB.
Proof. intros [-> _ _ _]. by rewrite pairs_app. Qed.

(** Where the key belongs among all pairs, and what is there. *)
Lemma leaf_lb s key ls LA i l LB : leaf_at s key ls LA i l LB ->
  lb_index key (pairs ls) = (length (pairs LA) + lb_index key l)%nat /\ found key (pairs ls) = found key l /\
  drop (lb_index key (pairs ls)) (pairs ls) = drop (lb_index key l) l ++ pairs LB.
Proof.
  intros Hl. rewrite (leaf_pairs _ _ _ _ _ _ _ Hl). destruct Hl as [_ Hlow Hhigh _].
  rewrite lb_mid, found_mid by done. split; [done |]. split; [done |]. rewrite drop_app_add.
  by rewrite drop_app_le by apply lb_index_le.
Qed.

Lemma find_ok s h t fuel key : holds s h t -> (h <= fuel)%nat -> find fuel key s = Ret (found key (elems t), s).
Proof.
  intros Hh Hf. destruct (find_data_ok s h t fuel key Hh Hf) as (LA & i & l & LB & Hl & Hrun). unfold find.
  run exact Hrun. run (apply run_data, Hl). unfold elems. destruct (leaf_lb _ _ _ _ _ _ _ Hl) as (_ & -> & _).
  unfold found. destruct (l !! lb_index key l) as [[k v] |] eqn:Hp.
  - destruct (Nat.eqb_spec (lb_index key l) (length l)) as [Heq |]; [apply lookup_lt_Some in Hp; lia |]. run (by apply run_deref).
    assert (Hge : klt k key = false).
    { destruct (klt k key) eqn:E; [| done]. pose proof (holds_sorted _ _ _ Hh) as Hs. unfold elems in Hs.
      rewrite (leaf_pairs _ _ _ _ _ _ _ Hl) in Hs. apply sorted_app in Hs as (_ & Hs & _). apply sorted_app in Hs as (Hs & _ & _).
      pose proof (lb_before _ _ _ _ Hs Hp E). lia. }
    destruct (klt key k) eqn:Hlt; [by rewrite keq_klt' |]. rewrite (klt_total _ _ Hge Hlt), keq_refl. done.
  - apply lookup_ge_None in Hp. pose proof (lb_index_le key l). by destruct (Nat.eqb_spec (lb_index key l) (length l)); [| lia].
Qed.
End Search.
