(* ===== verification/BPTreeScan.v ===== *)
(** * BPTreeScan: walking along the leaves

    The scans of BPTree.v start where a search ends and follow the chain of data blocks.  Each
    agrees with a segment of the sorted list, except [below], which can go too far. *)

From stdpp Require Import gmap sorting.
From S2P Require Import Prelude Packed BPTree BPTreeSpec.
Local Open Scope Z_scope.
Import BPTree.

Section Scan.
Context {K V : Type} `{KeyOrderLaws K}.
Context (DS IS : sizes).
#[local] Existing Instance M_ret.
#[local] Existing Instance M_bind.
Abbreviation state := (tree_state (K := K) (V := V)).
Abbreviation tree := (tree (K := K) (V := V)).
Abbreviation leaf_list := (list (Z * list (K * V))).
Abbreviation holds := (holds DS IS).

Lemma next_in_ok (A B : list Z) i : i ∉ A -> next_in i (A ++ i :: B) = head B.
Proof.
  induction A as [| a A IH]; intros Hi; simpl; [by rewrite Z.eqb_refl |].
  apply not_elem_of_cons in Hi as [Ha Hi]. destruct (Z.eqb_spec a i); [congruence | by apply IH].
Qed.

(** A position in the leaf [i]; what is still ahead, and what is behind. *)
Record cursor (s : state) (LA : leaf_list) (i : Z) (l : list (K * V)) (LB : leaf_list) (p : nat) : Prop := {
  cursor_leaves : leaves_ok s (LA ++ (i, l) :: LB);
  cursor_pos : (p <= length l)%nat;
}.
Definition ahead (l : list (K * V)) (LB : leaf_list) (p : nat) : list (K * V) := drop p l ++ pairs LB.
Definition behind (LA : leaf_list) (l : list (K * V)) (p : nat) : list (K * V) := pairs LA ++ take p l.

Lemma cursor_here s LA i l LB p : cursor s LA i l LB p -> heap s !! i = Some (Data l) /\ l <> [].
Proof. intros [Hl _]. apply (leaves_mem _ _ Hl). apply elem_of_app. right. left. Qed.

Lemma cursor_unique s LA i l LB p : cursor s LA i l LB p -> (i ∉ LA.*1) /\ i ∉ LB.*1.
Proof.
  intros [Hl _]. pose proof (leaves_nodup _ _ Hl) as Hnd. rewrite fmap_app in Hnd. simpl in Hnd.
  apply list.NoDup_app in Hnd as (_ & Hi & HB). apply list.NoDup_cons in HB as [HB _]. split; [| done].
  intros Hin. apply (Hi i Hin). left.
Qed.

Lemma to_next_ok s LA i l LB p : cursor s LA i l LB p -> to_next i s = Ret (fst <$> head LB, s).
Proof.
  intros Hc. destruct (cursor_unique _ _ _ _ _ _ Hc) as [HA _]. unfold to_next. run done.
  rewrite (leaves_chain _ _ (cursor_leaves _ _ _ _ _ _ Hc)), fmap_app. simpl. rewrite next_in_ok by done. by destruct LB as [| [j l'] LB].
Qed.

Lemma to_prev_ok s LA i l LB p : cursor s LA i l LB p -> to_prev i s = Ret (fst <$> head (reverse LA), s).
Proof.
  intros Hc. destruct (cursor_unique _ _ _ _ _ _ Hc) as [_ HB]. unfold to_prev, prev_in. run done.
  rewrite (leaves_chain _ _ (cursor_leaves _ _ _ _ _ _ Hc)), <- fmap_reverse, reverse_app, reverse_cons, <- app_assoc, fmap_app. simpl.
  rewrite next_in_ok by (rewrite fmap_reverse; by rewrite elem_of_reverse). by destruct (reverse LA) as [| [j l'] R].
Qed.

Lemma cursor_next s LA i l j l' LB p : cursor s LA i l ((j, l') :: LB) p -> cursor s (LA ++ [(i, l)]) j l' LB 0.
Proof. intros [Hl _]. split; [by rewrite <- app_assoc | lia]. Qed.

Lemma cursor_step s LA i l LB p : cursor s LA i l LB p -> (p < length l)%nat -> cursor s LA i l LB (S p).
Proof. intros [Hl _] Hp. split; [done | lia]. Qed.

(** After crossing to the next leaf the cursor is on a pair, unless there is none ahead. *)
Lemma cross_ok s LA i l LB p : cursor s LA i l LB p ->
  exists LA' i' l' LB' p', cross i p s = Ret (i', p', l', s) /\ cursor s LA' i' l' LB' p' /\
    ahead l' LB' p' = ahead l LB p /\ behind LA' l' p' = behind LA l p /\ (p' = length l' <-> ahead l LB p = []).
Proof.
  intros Hc. destruct (cursor_here _ _ _ _ _ _ Hc) as [Hi Hne]. pose proof (cursor_pos _ _ _ _ _ _ Hc) as Hp.
  assert (Hrun : cross i p s = if (p =? length l)%nat then
      match LB with (j, l') :: _ => Ret (j, O, l', s) | [] => Ret (i, p, l, s) end else Ret (i, p, l, s)).
  { unfold cross. run (by apply run_data). destruct (p =? length l)%nat; [| done]. run (by eapply to_next_ok).
    destruct LB as [| [j l'] LB]; [done |]. simpl. pose proof (cursor_next _ _ _ _ _ _ _ _ Hc) as Hc'.
    destruct (cursor_here _ _ _ _ _ _ Hc') as [Hj _]. by run (by apply run_data). }
  rewrite Hrun. unfold ahead, behind. destruct (Nat.eqb_spec p (length l)) as [-> | Hlt].
  - destruct LB as [| [j l'] LB].
    + exists LA, i, l, [], (length l). rewrite drop_all. split_and!; [done | done | by rewrite ?drop_all | done | done].
    + exists (LA ++ [(i, l)]), j, l', LB, O. pose proof (cursor_next _ _ _ _ _ _ _ _ Hc) as Hc'.
      destruct (cursor_here _ _ _ _ _ _ Hc') as [_ Hne']. split_and!; [done | done | by rewrite drop_all | |].
      * rewrite pairs_app, firstn_all. unfold pairs. simpl. by rewrite !app_nil_r.
      * rewrite drop_all. simpl. split; [by destruct l' |]. intros E. by destruct l'.
  - exists LA, i, l, LB, p. split_and!; [done | done | done | done |]. split; [lia |].
    intros E. apply (f_equal length) in E. rewrite length_app, length_drop in E. simpl in E. lia.
Qed.

(** The pair under the cursor. *)
Lemma cursor_pair s LA i l LB p : cursor s LA i l LB p -> (p < length l)%nat ->
  exists e, l !! p = Some e /\ ahead l LB p = e :: ahead l LB (S p) /\ behind LA l (S p) = behind LA l p ++ [e].
Proof.
  intros _ Hp. destruct (lookup_lt_is_Some_2 l p Hp) as [e He]. exists e. split; [done |]. unfold ahead, behind. split.
  - by rewrite (drop_S l e p He).
  - by rewrite (take_S_r l p e He), app_assoc.
Qed.

(** [cross] and the pair it ends on. *)
Lemma cross_pair s LA i l LB p : cursor s LA i l LB p ->
  exists LA' i' l' LB' p', cross i p s = Ret (i', p', l', s) /\ cursor s LA' i' l' LB' p' /\
    behind LA' l' p' = behind LA l p /\
    ((p' = length l' /\ ahead l LB p = []) \/
     exists e, p' <> length l' /\ l' !! p' = Some e /\ ahead l LB p = e :: ahead l' LB' (S p') /\ cursor s LA' i' l' LB' (S p')).
Proof.
  intros Hc. destruct (cross_ok _ _ _ _ _ _ Hc) as (LA' & i' & l' & LB' & p' & Hrun & Hc' & Ha & Hb & Hend).
  exists LA', i', l', LB', p'. split_and!; [done | done | done |]. destruct (decide (p' = length l')) as [He | Hne]; [left; by rewrite <- Hend | right].
  pose proof (cursor_pos _ _ _ _ _ _ Hc') as Hp. destruct (cursor_pair _ _ _ _ _ _ Hc' ltac:(lia)) as (e & He & Hah & _).
  exists e. split_and!; [done | done | congruence | apply cursor_step; [done | lia]].
Qed.

Lemma take_limit_nil {X} limit : take_limit limit (@nil X) = [].
Proof. apply take_nil. Qed.

Lemma take_limit_zero {X} limit (l : list X) : take_limit limit (take 0 l) = [].
Proof. apply take_nil. Qed.

Lemma take_limit_low {X} limit (l : list X) : limit <= 0 -> take_limit limit l = [].
Proof. intros Hl. unfold take_limit. by replace (Z.to_nat limit) with O by lia. Qed.

Lemma take_limit_cons {X} limit (x : X) l : 0 < limit -> take_limit limit (x :: l) = x :: take_limit (limit - 1) l.
Proof. intros Hl. unfold take_limit. by replace (Z.to_nat limit) with (S (Z.to_nat (limit - 1))) by lia. Qed.

Lemma find_range_loop_ok stop fuel : forall s LA i l LB p limit, cursor s LA i l LB p -> (length (ahead l LB p) < fuel)%nat ->
  find_range_loop fuel stop limit i p s =
    Ret (take_limit limit (take (lb_index stop (ahead l LB p)) (ahead l LB p)), s).
Proof.
  induction fuel as [| fuel IH]; intros s LA i l LB p limit Hc Hf; [lia |]. cbn [find_range_loop].
  destruct (Z.leb_spec limit 0) as [Hl | Hl]; [by rewrite take_limit_low |].
  destruct (cross_pair _ _ _ _ _ _ Hc) as (LA' & i' & l' & LB' & p' & Hrun & Hc' & _ & Hcase). run exact Hrun.
  destruct Hcase as [[-> Ha] | (e & Hne & He & Ha & Hc2)].
  - rewrite Nat.eqb_refl, Ha. simpl. by rewrite take_limit_nil.
  - destruct (Nat.eqb_spec p' (length l')) as [|_]; [done |]. run (by apply run_deref). rewrite Ha. destruct e as [k v]. cbn [lb_index fst].
    destruct (klt k stop); [| simpl; by rewrite take_limit_nil].
    rewrite Ha in Hf. simpl in Hf. run (apply (IH _ _ _ _ _ _ _ Hc2); lia). simpl. by rewrite take_limit_cons.
Qed.

Lemma above_loop_ok fuel : forall s LA i l LB p limit, cursor s LA i l LB p -> (length (ahead l LB p) < fuel)%nat ->
  above_loop fuel limit i p s = Ret (take_limit limit (ahead l LB p), s).
Proof.
  induction fuel as [| fuel IH]; intros s LA i l LB p limit Hc Hf; [lia |]. cbn [above_loop].
  destruct (cursor_here _ _ _ _ _ _ Hc) as [Hi _]. run (by apply run_data). run (by eapply to_next_ok).
  destruct (Z.leb_spec limit 0) as [Hl | Hl]; cbn [orb]; [by rewrite take_limit_low |].
  destruct (cross_pair _ _ _ _ _ _ Hc) as (LA' & i' & l' & LB' & p' & Hrun & Hc' & _ & Hcase).
  destruct ((p =? length l)%nat && bool_decide (fst <$> head LB = None)) eqn:Hend.
  - apply andb_true_iff in Hend as [Hp Hn]. apply Nat.eqb_eq in Hp as ->. apply bool_decide_eq_true in Hn.
    destruct LB as [| [j l2] LB]; [| done].
    replace (ahead l [] (length l)) with (@nil (K * V)) by (unfold ahead; by rewrite drop_all). by rewrite take_limit_nil.
  - run exact Hrun. destruct Hcase as [[_ Ha] | (e & Hne & He & Ha & Hc2)].
    + exfalso. unfold ahead in Ha. apply app_eq_nil in Ha as [Hd Hn].
      assert (p = length l) as ->. { pose proof (cursor_pos _ _ _ _ _ _ Hc). apply (f_equal length) in Hd. rewrite length_drop in Hd. simpl in Hd. lia. }
      rewrite Nat.eqb_refl in Hend. destruct LB as [| [j l2] LB]; [done |].
      pose proof (cursor_next _ _ _ _ _ _ _ _ Hc) as Hc3. destruct (cursor_here _ _ _ _ _ _ Hc3) as [_ Hne]. by destruct l2.
    + destruct (Nat.eqb_spec p' (length l')) as [| _]; [done |]. cbn [negb]. run done. run (by apply run_deref). rewrite Ha in *. simpl in Hf. run (apply (IH _ _ _ _ _ _ _ Hc2); lia). by rewrite take_limit_cons.
Qed.

Lemma ahead_end_next s LA i l LB : cursor s LA i l LB (length l) -> bool_decide (fst <$> head LB <> None) = true ->
  exists j l' LB', LB = (j, l') :: LB'.
Proof. intros _ Hn. apply bool_decide_eq_true in Hn. destruct LB as [| [j l'] LB]; [done |]. by exists j, l', LB. Qed.

(** [below] answers the pairs below the key, and may go on behind them. *)
Lemma below_loop_ok key fuel : forall s LA i l LB p limit, cursor s LA i l LB p -> (length (ahead l LB p) < fuel)%nat ->
  exists n, (lb_index key (ahead l LB p) <= n)%nat /\
    below_loop fuel key limit i p s = Ret (take_limit limit (take n (ahead l LB p)), s).
Proof.
  induction fuel as [| fuel IH]; intros s LA i l LB p limit Hc Hf; [lia |]. cbn [below_loop].
  assert (Hhead : forall go, (l ← data_entries i; n ← to_next i; go l n) s = go l (fst <$> head LB) s :> res (list (K * V) * state)).
  { intros go. destruct (cursor_here _ _ _ _ _ _ Hc) as [Hi _]. run (by apply run_data). by run (by eapply to_next_ok). }
  rewrite Hhead. clear Hhead. destruct (Z.leb_spec limit 0) as [Hl | Hl].
  { exists (length (ahead l LB p)). split; [apply lb_index_le |]. run done. by rewrite take_limit_low. }
  assert (Hmore : forall e LA' i' l' LB' p', cross i p s = Ret (i', p', l', s) -> p' <> length l' -> l' !! p' = Some e ->
    ahead l LB p = e :: ahead l' LB' (S p') -> cursor s LA' i' l' LB' (S p') ->
    exists n, (lb_index key (ahead l LB p) <= n)%nat /\
      ('(b, p, l) ← cross i p; assert_ (negb (p =? length l)%nat);; e ← deref (l !! p);
       rest ← below_loop fuel key (limit - 1) b (S p); mret (e :: rest)) s =
      Ret (take_limit limit (take n (ahead l LB p)), s)).
  { intros e LA' i' l' LB' p' Hrun Hne He Ha Hc'. rewrite Ha in Hf. simpl in Hf.
    destruct (IH _ _ _ _ _ _ (limit - 1) Hc' ltac:(lia)) as (n & Hn & Hloop). exists (S n). rewrite Ha. split.
    - cbn [lb_index]. destruct (klt e.1 key); lia.
    - run exact Hrun. destruct (Nat.eqb_spec p' (length l')) as [|_]; [done |]. cbn [negb]. run done. run (by apply run_deref).
      run exact Hloop. cbn [take]. by rewrite take_limit_cons. }
  destruct (cross_pair _ _ _ _ _ _ Hc) as (LA' & i' & l' & LB' & p' & Hrun & Hc' & _ & Hcase).
  destruct (Nat.eqb_spec p (length l)) as [-> | Hlt].
  - run done. destruct (bool_decide (fst <$> head LB <> None)) eqn:Hn.
    + destruct (ahead_end_next _ _ _ _ _ Hc Hn) as (j & l2 & LB2 & ->).
      pose proof (cursor_next _ _ _ _ _ _ _ _ Hc) as Hc3. destruct (cursor_here _ _ _ _ _ _ Hc3) as [_ Hne2].
      destruct Hcase as [[_ Ha] | (e & Hne & He & Ha & Hc2)]; [| by eapply Hmore].
      exfalso. unfold ahead in Ha. rewrite drop_all in Ha. by destruct l2.
    + exists O. apply bool_decide_eq_false in Hn. destruct LB as [| [j l2] LB]; [| by destruct Hn]. split; [| by rewrite take_limit_zero].
      unfold ahead. by rewrite drop_all.
  - pose proof (cursor_pos _ _ _ _ _ _ Hc). destruct (cursor_pair _ _ _ _ _ _ Hc ltac:(lia)) as ([k v] & He & Ha & _).
    run (run (by apply run_deref); reflexivity). destruct (klt k key) eqn:Hk.
    + destruct Hcase as [[_ Ha'] | (e & Hne & He' & Ha' & Hc2)]; [congruence | by eapply Hmore].
    + exists O. rewrite Ha. cbn [lb_index fst]. rewrite Hk. split; [done |]. by rewrite take_limit_zero.
Qed.

Lemma upper_bound_loop_ok key fuel : forall s LA i l LB p, cursor s LA i l LB p -> (length (ahead l LB p) < fuel)%nat ->
  upper_bound_loop fuel key i p s = Ret (List.find (fun e => klt key e.1) (ahead l LB p), s).
Proof.
  induction fuel as [| fuel IH]; intros s LA i l LB p Hc Hf; [lia |]. cbn [upper_bound_loop].
  destruct (cross_pair _ _ _ _ _ _ Hc) as (LA' & i' & l' & LB' & p' & Hrun & Hc' & _ & Hcase). run exact Hrun.
  destruct Hcase as [[-> Ha] | (e & Hne & He & Ha & Hc2)]; [by rewrite Nat.eqb_refl, Ha |].
  destruct (Nat.eqb_spec p' (length l')) as [|_]; [done |]. run (by apply run_deref). rewrite Ha in *. destruct e as [k v].
  simpl in Hf |- *. destruct (klt key k); [done |]. apply (IH _ _ _ _ _ _ Hc2). lia.
Qed.

(** Backwards: to the end of the leaf before. *)
Lemma cursor_prev s LA j l' i l LB : cursor s (LA ++ [(j, l')]) i l LB 0 -> cursor s LA j l' ((i, l) :: LB) (length l').
Proof. intros [Hl _]. split; [by rewrite <- app_assoc in Hl | lia]. Qed.

Lemma behind_step LA (l : list (K * V)) p e : l !! p = Some e -> behind LA l (S p) = behind LA l p ++ [e].
Proof. intros He. unfold behind. by rewrite (take_S_r l p e He), app_assoc. Qed.

Lemma from_end_loop_ok fuel : forall s LA i l LB p limit, cursor s LA i l LB p -> (length (behind LA l p) < fuel)%nat ->
  from_end_loop fuel limit i p s = Ret (take_limit limit (reverse (behind LA l p)), s).
Proof.
  induction fuel as [| fuel IH]; intros s LA i l LB p limit Hc Hf; [lia |]. cbn [from_end_loop].
  destruct (cursor_here _ _ _ _ _ _ Hc) as [Hi _]. run (by apply run_data). run (by eapply to_prev_ok).
  destruct (Z.leb_spec limit 0) as [Hl | Hl]; cbn [orb]; [by rewrite take_limit_low |].
  assert (Hback : forall LA i l LB q, cursor s LA i l LB (S q) -> (length (behind LA l (S q)) < S fuel)%nat ->
    (assert_ (negb (S q =? 0)%nat);; e ← deref (l !! pred (S q)); rest ← from_end_loop fuel (limit - 1) i (pred (S q)); mret (e :: rest)) s
    = Ret (take_limit limit (reverse (behind LA l (S q))), s)).
  { clear Hc Hf Hi i l LA LB p. intros LA i l LB q Hc Hf. pose proof (cursor_pos _ _ _ _ _ _ Hc).
    destruct (lookup_lt_is_Some_2 l q ltac:(lia)) as [e He]. cbn [negb Nat.eqb pred]. run done. run (by apply run_deref).
    rewrite (behind_step LA l q e He) in *. rewrite length_app in Hf. simpl in Hf.
    assert (Hc' : cursor s LA i l LB q) by (split; [apply Hc | lia]).
    run (apply (IH _ _ _ _ _ _ _ Hc'); lia). rewrite reverse_app. simpl. by rewrite take_limit_cons. }
  destruct p as [| q]; cbn [Nat.eqb andb].
  - destruct (decide (LA = [])) as [-> | HLA].
    + replace (behind [] l 0) with (@nil (K * V)) by done. change (reverse (@nil (K * V))) with (@nil (K * V)). by rewrite take_limit_nil.
    + destruct (exists_last HLA) as (LA' & [j l'] & ->). rewrite reverse_app. cbn [reverse rev_append app head fmap option_fmap option_map fst].
      rewrite bool_decide_eq_false_2 by done. pose proof (cursor_prev _ _ _ _ _ _ _ Hc) as Hc'.
      destruct (cursor_here _ _ _ _ _ _ Hc') as [Hj Hne]. run (by run (by apply run_data)).
      assert (Hb : behind (LA' ++ [(j, l')]) l 0 = behind LA' l' (length l')).
      { unfold behind. rewrite pairs_app, firstn_all, app_nil_r. unfold pairs. simpl. by rewrite app_nil_r. }
      rewrite Hb in *. destruct (length l') as [| q] eqn:Hq; [by destruct l' |]. by apply Hback with (LB := (i, l) :: LB).
  - run done. by apply Hback with (LB := LB).
Qed.

(** ** From the root *)

Lemma first_data_ok h : forall (t : tree) (s : state) fuel, wf DS IS (S h) t -> mem s t -> (h < fuel)%nat ->
  exists i l LB, leafs t = (i, l) :: LB /\ first_data fuel (root t) s = Ret (i, s).
Proof.
  induction h as [| h IH]; intros t s fuel Hwf Hm Hf; (destruct fuel as [| fuel]; [lia |]);
    destruct (wf_index DS IS _ _ Hwf) as (i & cs & -> & Hne & _ & Hk); destruct cs as [| [k t] cs]; try done;
    apply list.Forall_cons in Hk as [[Hw _] _]; pose proof (mem_child s i [] k t cs Hm) as Hmt; cbn [first_data root];
    simpl in Hw.
  - destruct (wf_data DS IS t Hw) as (j & l & -> & _). exists j, l, (leafs_of cs). split; [done |].
    run (eapply run_index, mem_root; exact Hm). run (by apply run_deref). by run (eapply run_is_data, mem_data; exact Hmt).
  - destruct (IH t s fuel Hw Hmt ltac:(lia)) as (j & l & LB & Hl & Hrun). exists j, l, (LB ++ leafs_of cs). split.
    + simpl. by rewrite Hl.
    + destruct (wf_index DS IS _ _ Hw) as (j' & cs' & -> & _).
      run (eapply run_index, mem_root; exact Hm). run (by apply run_deref). run (eapply run_is_index, mem_root; exact Hmt). exact Hrun.
Qed.

Lemma last_data_ok h : forall (t : tree) (s : state) fuel, wf DS IS (S h) t -> mem s t -> (h < fuel)%nat ->
  exists LA i l, leafs t = LA ++ [(i, l)] /\ last_data fuel (root t) s = Ret (i, s).
Proof.
  induction h as [| h IH]; intros t s fuel Hwf Hm Hf; (destruct fuel as [| fuel]; [lia |]);
    destruct (wf_index DS IS _ _ Hwf) as (i & cs & -> & Hne & _ & Hk); destruct (exists_last Hne) as (cs' & [k t] & ->);
    apply list.Forall_app in Hk as [_ Hk]; apply list.Forall_cons in Hk as [[Hw _] _]; pose proof (mem_child s i cs' k t [] Hm) as Hmt;
    cbn [last_data root]; simpl in Hw;
    (assert (Hlast : entries (cs' ++ [(k, t)]) !! pred (length (entries (cs' ++ [(k, t)]))) = Some (k, root t))
       by (rewrite length_entries, length_app, Nat.add_1_r; cbn [pred]; rewrite <- (length_entries cs'), entries_app; apply child_elem)).
  - destruct (wf_data DS IS t Hw) as (j & l & -> & _). exists (leafs_of cs'), j, l. split; [exact (leafs_of_app cs' [(k, TData j l)]) |].
    run (eapply run_index, mem_root; exact Hm). run (by apply run_deref). cbn [root]. by run (eapply run_is_data, mem_data; exact Hmt).
  - destruct (IH t s fuel Hw Hmt ltac:(lia)) as (LA & j & l & Hl & Hrun). exists (leafs_of cs' ++ LA), j, l. split.
    + change (leafs (TIndex i (cs' ++ [(k, t)]))) with (leafs_of (cs' ++ [(k, t)])). rewrite leafs_of_app. simpl. by rewrite Hl, app_nil_r, app_assoc.
    + destruct (wf_index DS IS _ _ Hw) as (j' & cs'' & -> & _).
      run (eapply run_index, mem_root; exact Hm). run (by apply run_deref). cbn [root]. run (eapply run_is_index, mem_root; exact Hmt). exact Hrun.
Qed.

Lemma run_root {A} (s : state) h (t : tree) (k : option Z -> M A) : holds s h t -> (r ← gets begin_block; k r) s = k (Some (root t)) s.
Proof. intros Hh. unfold mbind, M_bind, gets. by rewrite (holds_root _ _ _ _ _ Hh). Qed.

Lemma leaf_cursor (s : state) h (t : tree) key LA i l LB : holds s h t -> leaf_at s key (leafs t) LA i l LB ->
  cursor s LA i l LB (lb_index key l) /\ ahead l LB (lb_index key l) = drop (lb_index key (elems t)) (elems t).
Proof.
  intros Hh Hl. split.
  - split; [| apply lb_index_le]. rewrite <- (leaf_split _ _ _ _ _ _ _ Hl). by eapply holds_leaves.
  - unfold elems. by destruct (leaf_lb _ _ _ _ _ _ _ Hl) as (_ & _ & ->).
Qed.

Lemma find_range_ok (s : state) h (t : tree) fuel first stop limit : holds s h t -> (h + length (elems t) < fuel)%nat ->
  let es := drop (lb_index first (elems t)) (elems t) in
  find_range fuel first stop limit s =
    Ret (if klt stop first || keq first stop then [] else take_limit limit (take (lb_index stop es) es), s).
Proof.
  intros Hh Hf es. unfold find_range. destruct (klt stop first || keq first stop); [done |].
  destruct (find_data_ok DS IS s h t fuel first Hh ltac:(lia)) as (LA & i & l & LB & Hl & Hrun).
  destruct (leaf_cursor _ _ _ _ _ _ _ _ Hh Hl) as [Hc Ha]. run exact Hrun. run (apply run_data, Hl).
  rewrite (find_range_loop_ok _ _ _ _ _ _ _ _ _ Hc), Ha; [done |]. rewrite Ha, length_drop. lia.
Qed.

Lemma above_ok (s : state) h (t : tree) fuel key limit : holds s h t -> (h + length (elems t) < fuel)%nat ->
  above_or_equal fuel key limit s = Ret (take_limit limit (drop (lb_index key (elems t)) (elems t)), s).
Proof.
  intros Hh Hf. unfold above_or_equal.
  destruct (find_data_ok DS IS s h t fuel key Hh ltac:(lia)) as (LA & i & l & LB & Hl & Hrun).
  destruct (leaf_cursor _ _ _ _ _ _ _ _ Hh Hl) as [Hc Ha]. run exact Hrun. run (apply run_data, Hl).
  rewrite (above_loop_ok _ _ _ _ _ _ _ _ Hc), Ha; [done |]. rewrite Ha, length_drop. lia.
Qed.

Lemma tree_lower_bound_ok (s : state) h (t : tree) fuel key : holds s h t -> (h <= fuel)%nat ->
  lower_bound fuel key s = Ret (elems t !! lb_index key (elems t), s).
Proof.
  intros Hh Hf. unfold lower_bound. destruct (find_data_ok DS IS s h t fuel key Hh Hf) as (LA & i & l & LB & Hl & Hrun).
  destruct (leaf_cursor _ _ _ _ _ _ _ _ Hh Hl) as [Hc Ha]. run exact Hrun. run (apply run_data, Hl).
  rewrite <- (Nat.add_0_r (lb_index key (elems t))), <- lookup_drop, <- Ha. unfold ahead.
  destruct (Nat.eqb_spec (lb_index key l) (length l)) as [Heq | Hne].
  - run (by eapply to_next_ok). rewrite Heq, drop_all. destruct LB as [| [j l'] LB]; [done |].
    pose proof (cursor_next _ _ _ _ _ _ _ _ Hc) as Hc'. destruct (cursor_here _ _ _ _ _ _ Hc') as [Hj Hne]. simpl.
    run (by apply run_data). destruct l' as [| e l']; [done |]. by run (by apply run_deref).
  - pose proof (lb_index_le key l). destruct (lookup_lt_is_Some_2 l (lb_index key l) ltac:(lia)) as [e He].
    run (by apply run_deref). by rewrite (drop_S l e _ He).
Qed.

Lemma find_skip {X} (p : X -> bool) A B : (forall x, x ∈ A -> p x = false) -> List.find p (A ++ B) = List.find p B.
Proof.
  induction A as [| a A IH]; intros HA; [done |]. simpl. rewrite HA by left. apply IH. intros x Hx. apply HA. by right.
Qed.

Lemma upper_bound_ok (s : state) h (t : tree) fuel key : holds s h t -> (h + length (elems t) < fuel)%nat ->
  upper_bound fuel key s = Ret (List.find (fun e => klt key e.1) (elems t), s).
Proof.
  intros Hh Hf. unfold upper_bound. destruct (find_data_ok DS IS s h t fuel key Hh ltac:(lia)) as (LA & i & l & LB & Hl & Hrun).
  destruct (leaf_cursor _ _ _ _ _ _ _ _ Hh Hl) as [Hc Ha]. run exact Hrun. run (apply run_data, Hl).
  rewrite (upper_bound_loop_ok _ _ _ _ _ _ _ _ Hc), Ha; [| rewrite Ha, length_drop; lia].
  rewrite <- (take_drop (lb_index key (elems t)) (elems t)) at 3. rewrite find_skip; [done |].
  intros x Hx. apply klt_asym. by eapply lb_prefix.
Qed.

Lemma below_ok (s : state) h (t : tree) fuel key limit : holds s h t -> (h + length (elems t) < fuel)%nat ->
  exists n, (lb_index key (elems t) <= n)%nat /\ (h = O -> n = lb_index key (elems t)) /\
    below fuel key limit s = Ret (take_limit limit (take n (elems t)), s).
Proof.
  intros Hh Hf. unfold below. rewrite (run_root _ _ _ _ Hh). pose proof (holds_mem _ _ _ _ _ Hh) as Hm. pose proof (holds_wf _ _ _ _ _ Hh) as Hwf.
  destruct h as [| h].
  - destruct (wf_data DS IS t Hwf) as (i & l & -> & _). exists (lb_index key (elems (TData i l))). split_and!; [done | done |].
    apply mem_data in Hm. cbn [root]. run (by eapply run_is_data). run (by apply run_data). by rewrite elems_data.
  - destruct (first_data_ok h t s fuel Hwf Hm ltac:(lia)) as (i & l & LB & Hl & Hrun).
    assert (Hc : cursor s [] i l LB 0) by (split; [rewrite app_nil_l, <- Hl; by eapply holds_leaves | lia]).
    assert (Ha : ahead l LB 0 = elems t) by (unfold elems; by rewrite Hl).
    destruct (below_loop_ok key fuel _ _ _ _ _ _ limit Hc) as (n & Hn & Hloop); [rewrite Ha; lia |].
    rewrite Ha in *. exists n. split_and!; [done | done |].
    destruct (wf_index DS IS _ _ Hwf) as (j & cs & -> & _). apply mem_root in Hm. cbn [root] in *. run (by eapply run_is_index).
    run exact Hrun. exact Hloop.
Qed.

Lemma from_begin_ok (s : state) h (t : tree) fuel limit : holds s h t -> (h + length (elems t) < fuel)%nat ->
  search_from_begin fuel limit s = Ret (take_limit limit (elems t), s).
Proof.
  intros Hh Hf. unfold search_from_begin. rewrite (run_root _ _ _ _ Hh). pose proof (holds_mem _ _ _ _ _ Hh) as Hm. pose proof (holds_wf _ _ _ _ _ Hh) as Hwf.
  destruct h as [| h].
  - destruct (wf_data DS IS t Hwf) as (i & l & -> & _). apply mem_data in Hm. cbn [root]. run (by eapply run_is_data).
    run (by apply run_data). by rewrite elems_data.
  - destruct (first_data_ok h t s fuel Hwf Hm ltac:(lia)) as (i & l & LB & Hl & Hrun).
    assert (Hc : cursor s [] i l LB 0) by (split; [rewrite app_nil_l, <- Hl; by eapply holds_leaves | lia]).
    assert (Ha : ahead l LB 0 = elems t) by (unfold elems; by rewrite Hl).
    destruct (wf_index DS IS _ _ Hwf) as (j & cs & -> & _). apply mem_root in Hm. cbn [root] in *. run (by eapply run_is_index).
    run exact Hrun. rewrite (above_loop_ok _ _ _ _ _ _ _ _ Hc), Ha; [done |]. rewrite Ha. lia.
Qed.

Lemma from_end_ok (s : state) h (t : tree) fuel limit : holds s h t -> (h + length (elems t) < fuel)%nat ->
  search_from_end fuel limit s = Ret (take_limit limit (reverse (elems t)), s).
Proof.
  intros Hh Hf. unfold search_from_end. rewrite (run_root _ _ _ _ Hh). pose proof (holds_mem _ _ _ _ _ Hh) as Hm. pose proof (holds_wf _ _ _ _ _ Hh) as Hwf.
  destruct h as [| h].
  - destruct (wf_data DS IS t Hwf) as (i & l & -> & _). apply mem_data in Hm. cbn [root]. run (by eapply run_is_data).
    run (by apply run_data). by rewrite elems_data.
  - destruct (last_data_ok h t s fuel Hwf Hm ltac:(lia)) as (LA & i & l & Hl & Hrun).
    assert (Hc : cursor s LA i l [] (length l)) by (split; [rewrite <- Hl; by eapply holds_leaves | lia]).
    destruct (cursor_here _ _ _ _ _ _ Hc) as [Hi _].
    assert (Ha : behind LA l (length l) = elems t).
    { unfold elems, behind. rewrite Hl, pairs_app, firstn_all. unfold pairs. simpl. by rewrite app_nil_r. }
    destruct (wf_index DS IS _ _ Hwf) as (j & cs & -> & _). apply mem_root in Hm. cbn [root] in *. run (by eapply run_is_index).
    run exact Hrun. run (by apply run_data). rewrite (from_end_loop_ok _ _ _ _ _ _ _ _ Hc), Ha; [done |]. rewrite Ha. lia.
Qed.
End Scan.
