(* ===== verification/BPTreeWorld.v ===== *)
(** * BPTreeWorld: the heap as a list of blocks

    The writing operations of BPTree.v are verified with the heap cut into the blocks they work on
    and a frame, up to the order of the blocks: what each primitive does to the blocks, the
    chain and the root. *)

From stdpp Require Import gmap sorting.
From S2P Require Import Prelude Packed BPTree BPTreeSpec.
Local Open Scope Z_scope.
Import BPTree.
#[local] Existing Instance M_ret.
#[local] Existing Instance M_bind.

Section World.
Context {K V : Type} `{KeyOrderLaws K}.
Context (new_index : gmap Z (block (K := K) (V := V)) -> Z) (new_index_fresh : forall m, m !! new_index m = None).
Abbreviation state := (tree_state (K := K) (V := V)).
Abbreviation block := (block (K := K) (V := V)).
Implicit Types (L : list (Z * block)) (C : list Z) (s : state).

(** The heap is exactly [L]; the chain is [C], of data blocks that are there. *)
Record world s L C (r : option Z) : Prop := {
  world_heap : heap s = list_to_map L;
  world_nodup : NoDup L.*1;
  world_chain : chain s = C;
  world_unique : NoDup C;
  world_data i : i ∈ C -> exists l, (i, Data l) ∈ L;
  world_root : begin_block s = r;
}.

Lemma w_perm s L L' C r : world s L C r -> L ≡ₚ L' -> world s L' C r.
Proof.
  intros [Hh Hn Hc Hu Hd Hr] Hp. split; try done.
  - rewrite Hh. by apply list_to_map_proper.
  - by rewrite <- Hp.
  - intros i Hi. destruct (Hd i Hi) as [l Hl]. exists l. by rewrite <- Hp.
Qed.

Lemma w_chain s L C C' r : world s L C r -> C = C' -> world s L C' r.
Proof. by intros ? <-. Qed.

Lemma w_get s i b L C r : world s ((i, b) :: L) C r -> heap s !! i = Some b.
Proof. intros [-> _ _ _ _ _]. simpl. apply lookup_insert_eq. Qed.

Lemma w_read s i b L C r : world s L C r -> (i, b) ∈ L -> heap s !! i = Some b.
Proof. intros [-> Hn _ _ _ _] Hi. by apply elem_of_list_to_map_1. Qed.

(** Blocks keep their kind. *)
Definition same_kind (b b' : block) : Prop :=
  match b, b' with Data _, Data _ | Index _, Index _ => True | _, _ => False end.

Lemma w_set s i b b' L C r : world s ((i, b) :: L) C r -> same_kind b b' ->
  exists s', set_block i b' s = Ret (tt, s') /\ world s' ((i, b') :: L) C r.
Proof.
  intros [Hh Hn Hc Hu Hd Hr] Hk. eexists. split; [reflexivity |]. split; simpl; try done.
  - rewrite Hh. simpl. by rewrite insert_insert_eq.
  - intros j Hj. destruct (Hd j Hj) as (l & [[= -> <-] | Hl]%elem_of_cons).
    + destruct b' as [l' |]; [exists l'; left | done].
    + exists l. by right.
Qed.

Lemma w_set_root s L C r r' : world s L C r -> exists s', set_begin_block r' s = Ret (tt, s') /\ world s' L C r'.
Proof. intros [Hh Hn Hc Hu Hd Hr]. eexists. split; [reflexivity |]. by split. Qed.

Lemma w_fresh s L C r b : world s L C r ->
  heap s !! new_index (heap s) = None /\ NoDup ((new_index (heap s), b) :: L).*1 /\ (new_index (heap s) ∉ C) /\
  <[new_index (heap s) := b]> (heap s) = list_to_map ((new_index (heap s), b) :: L).
Proof.
  intros [Hh Hn Hc Hu Hd Hr]. set (n := new_index _). assert (Hfree : heap s !! n = None) by apply new_index_fresh.
  assert (HnL : n ∉ L.*1) by (apply not_elem_of_list_to_map_2; by rewrite <- Hh).
  split_and!; [done | | | simpl; by rewrite Hh].
  - simpl. by apply list.NoDup_cons.
  - intros Hin. destruct (Hd n Hin) as [l Hl]. apply HnL. apply list_elem_of_fmap. by exists (n, Data l).
Qed.

Lemma w_create_index s L C r : world s L C r ->
  exists n s', create_index_block new_index s = Ret (n, s') /\ world s' ((n, Index []) :: L) C r.
Proof.
  intros Hw. destruct (w_fresh s L C r (Index []) Hw) as (_ & Hn' & _ & Hh'). pose proof Hw as [Hh Hn Hc Hu Hd Hr].
  do 2 eexists. split; [reflexivity |]. split; simpl; try done.
  intros i Hi. destruct (Hd i Hi) as [l Hl]. exists l. by right.
Qed.

Lemma w_create_data s L C r : world s L C r ->
  exists n s', create_data_block new_index s = Ret (n, s') /\ (n ∉ C) /\
    world s' ((n, Data []) :: L) (match C with [] => [n] | _ => C end) r.
Proof.
  intros Hw. destruct (w_fresh s L C r (Data []) Hw) as (_ & Hn' & Hnc & Hh'). pose proof Hw as [Hh Hn Hc Hu Hd Hr].
  do 2 eexists. split; [reflexivity |]. split; [exact Hnc |]. split; simpl; try done.
  - rewrite Hc. by destruct C.
  - destruct C; [apply list.NoDup_singleton | done].
  - intros i Hi. destruct C as [| c C].
    + apply list_elem_of_singleton in Hi as ->. exists []. left.
    + destruct (Hd i Hi) as [l Hl]. exists l. by right.
Qed.

Lemma link_after_ok (A B : list Z) i n : i ∉ A -> link_after i n (A ++ i :: B) = A ++ i :: n :: B.
Proof.
  induction A as [| a A IH]; intros Hi; simpl; [by rewrite Z.eqb_refl |].
  apply not_elem_of_cons in Hi as [Ha Hi]. destruct (Z.eqb_spec a i); [congruence |]. by rewrite IH.
Qed.

Lemma chain_split (A B : list Z) i : NoDup (A ++ i :: B) -> (i ∉ A) /\ (i ∉ B) /\ NoDup (A ++ B).
Proof.
  intros (HA & Hi & HB)%list.NoDup_app. apply list.NoDup_cons in HB as [HiB HB]. split_and!; [| done |].
  - intros Hin. apply (Hi i Hin). left.
  - apply list.NoDup_app. split_and!; [done | | done]. intros x Hx Hb. apply (Hi x Hx). by right.
Qed.

Lemma w_link s L A i n B r l : world s L (A ++ i :: B) r -> n ∉ A ++ i :: B -> (n, Data l) ∈ L ->
  world (mkState (heap s) (link_after i n (chain s)) (begin_block s)) L (A ++ i :: n :: B) r.
Proof.
  intros [Hh Hn Hc Hu Hd Hr] Hnc Hl. destruct (chain_split _ _ _ Hu) as (HA & HB & _). split; simpl; try done.
  - rewrite Hc. by apply link_after_ok.
  - apply not_elem_of_app in Hnc as [HnA [Hni HnB]%not_elem_of_cons].
    apply list.NoDup_app in Hu as (HuA & HAB & HuB). apply list.NoDup_cons in HuB as [HiB HuB].
    apply list.NoDup_app. split_and!; [done | |].
    + intros x Hx [-> | [-> | Hb]%elem_of_cons]%elem_of_cons; [done | done |]. apply (HAB x Hx). by right.
    + apply list.NoDup_cons. split; [by rewrite not_elem_of_cons |]. by apply list.NoDup_cons.
  - intros j Hj. destruct (decide (j = n)) as [-> | Hne]; [by exists l |]. apply Hd.
    apply elem_of_app in Hj as [Hj | [-> | [-> | Hj]%elem_of_cons]%elem_of_cons]; [| | done |];
      apply elem_of_app; [by left | right; left | right; by right].
Qed.

Lemma filter_without (i : Z) C : i ∉ C -> filter (fun j => j <> i) C = C.
Proof.
  induction C as [| c C IH]; intros Hi; [done |]. apply not_elem_of_cons in Hi as [Hc Hi].
  rewrite filter_cons_True by congruence. by rewrite IH.
Qed.

Lemma w_erase_data s i l L A B r : world s ((i, Data l) :: L) (A ++ i :: B) r ->
  exists s', erase_block i s = Ret (tt, s') /\ world s' L (A ++ B) r.
Proof.
  intros Hw. pose proof (w_get _ _ _ _ _ _ Hw) as Hi. pose proof Hw as [Hh Hn Hc Hu Hd Hr]. simpl in Hn. apply list.NoDup_cons in Hn as [HiL Hn].
  unfold erase_block. run (by eapply run_is_data). eexists. split; [reflexivity |]. destruct (chain_split _ _ _ Hu) as (HA & HB & HAB).
  split; simpl; try done.
  - rewrite Hh. simpl. apply delete_insert_id. by apply not_elem_of_list_to_map_1.
  - rewrite Hc, list.filter_app, filter_cons_False by (by intros []). f_equal; apply filter_without; done.
  - intros j Hj. destruct (Hd j) as (l' & [[= -> _] | Hl]%elem_of_cons); [| | by exists l'].
    + apply elem_of_app in Hj as [Hj | Hj]; apply elem_of_app; [by left | right; by right].
    + by apply elem_of_app in Hj as [Hj | Hj].
Qed.

Lemma w_erase_index s i l L C r : world s ((i, Index l) :: L) C r ->
  exists s', erase_block i s = Ret (tt, s') /\ world s' L C r.
Proof.
  intros Hw. pose proof (w_get _ _ _ _ _ _ Hw) as Hi. pose proof Hw as [Hh Hn Hc Hu Hd Hr]. simpl in Hn. apply list.NoDup_cons in Hn as [HiL Hn].
  unfold erase_block. run (by eapply run_is_index). eexists. split; [reflexivity |].
  split; simpl; try done.
  - rewrite Hh. simpl. apply delete_insert_id. by apply not_elem_of_list_to_map_1.
  - intros j Hj. destruct (Hd j Hj) as (l' & [[=] | Hl]%elem_of_cons). by exists l'.
Qed.

(** *** Statements on a block at the head of the list *)

Lemma w_data s i l L C r : world s ((i, Data l) :: L) C r -> data_entries i s = Ret (l, s).
Proof. intros Hw. eapply run_data, w_get, Hw. Qed.

Lemma w_index s i l L C r : world s ((i, Index l) :: L) C r -> index_entries i s = Ret (l, s).
Proof. intros Hw. eapply run_index, w_get, Hw. Qed.

Lemma w_data_key s i k v l L C r : world s ((i, Data ((k, v) :: l)) :: L) C r -> data_begin_key i s = Ret (k, s).
Proof. intros Hw. unfold data_begin_key. run (by eapply w_data). by run (by apply run_deref). Qed.

Lemma w_index_key s i k c l L C r : world s ((i, Index ((k, c) :: l)) :: L) C r -> index_begin_key i s = Ret (k, s).
Proof. intros Hw. unfold index_begin_key. run (by eapply w_index). by run (by apply run_deref). Qed.

Lemma w_update_key s i p k c key l L C r : world s ((i, Index l) :: L) C r -> l !! p = Some (k, c) ->
  exists s', update_key i p key s = Ret (tt, s') /\ world s' ((i, Index (<[p := (key, c)]> l)) :: L) C r.
Proof.
  intros Hw Hp. unfold update_key. destruct (w_set s i _ (Index (<[p := (key, c)]> l)) L C r Hw I) as (s' & Hrun & Hw').
  exists s'. split; [| exact Hw']. run (by eapply w_index). by run (by apply run_deref).
Qed.
End World.
