(* ===== verification/BPTreeInsert.v ===== *)
(** * BPTreeInsert: inserting into the tree

    An insertion goes down one path.  A block that has no room is split, and the block above it
    gets one more entry; only the first key below a block can become smaller.  The blocks of the
    other paths are a frame. *)

From stdpp Require Import gmap sorting.
From S2P Require Import Prelude Packed BPTree BPTreeSpec BPTreeWorld.
Local Open Scope Z_scope.
Import BPTree.
#[local] Existing Instance M_ret.
#[local] Existing Instance M_bind.

(** ** Numbers of pairs *)

(** What the Impls' sizes are: a pair takes room, and a block has room for one, or for two. *)
Record room (z : sizes) (n : Z) : Prop := {
  room_pair : 0 <= pair_size z;
  room_for : n * pair_size z <= max_size z;
}.

Lemma fits_less z n m : 0 <= pair_size z -> m <= n -> fits z n -> fits z m.
Proof. unfold fits. intros. nia. Qed.

Lemma fits_insert z n : can_insert z n = true -> fits z (n + 1).
Proof. unfold can_insert, fits. intros ?%Z.leb_le. lia. Qed.

Lemma can_insert_room z n m : room z m -> n < m -> can_insert z n = true.
Proof. intros [Hp Hm] Hn. unfold can_insert. apply Z.leb_le. nia. Qed.

Lemma split_keeps_bounds n : 0 < n -> 0 < split_keeps n <= n.
Proof. unfold split_keeps. intros. pose proof (Z.div_mod (n + 1) 2). pose proof (Z.mod_pos_bound (n + 1) 2). lia. Qed.

Section Lists.
Context {K : Type} `{KeyOrderLaws K}.

Lemma zlen_ordered_insert {X} key (x : X) es : zlen (ordered_insert key x es) = zlen es + 1.
Proof.
  unfold ordered_insert, zlen. pose proof (lb_index_le key es). rewrite length_app, length_cons, length_take, length_drop. lia.
Qed.

Lemma ordered_insert_here {X} key (x : X) A B :
  all_below key A -> all_above key B -> ordered_insert key x (A ++ B) = A ++ (key, x) :: B.
Proof. intros HA HB. rewrite <- (app_nil_l B), (ordered_insert_mid key x A [] B HA HB). done. Qed.

(** The first key after an insertion. *)
Definition new_first (key k : K) : K := if klt key k then key else k.

Lemma ordered_insert_first {X} key (v x : X) k es : exists w R, ordered_insert key v ((k, x) :: es) = (new_first key k, w) :: R.
Proof.
  unfold ordered_insert, new_first. simpl. destruct (klt k key) eqn:E; simpl.
  - rewrite (klt_asym _ _ E). eauto.
  - destruct (klt key k) eqn:E'; [eauto |]. rewrite (klt_total _ _ E' E). eauto.
Qed.

Lemma found_none {X} key (es : list (K * X)) : sorted es -> found key es = None <-> forall x, (key, x) ∉ es.
Proof.
  intros Hs. unfold found. split.
  - intros Hf x [m Hm]%list_elem_of_lookup_1. rewrite (lb_at key es m (key, x) Hs Hm eq_refl), Hm, keq_refl in Hf. done.
  - intros Hn. destruct (es !! lb_index key es) as [[k x] |] eqn:E; [| done]. destruct (keq k key) eqn:Ek; [| done].
    apply keq_eq in Ek as ->. apply list_elem_of_lookup_2 in E. by apply Hn in E.
Qed.

Lemma found_sorted {X} key (x : X) es : sorted es -> found key es = None -> sorted (ordered_insert key x es).
Proof. intros Hs Hf. apply ordered_insert_sorted; [done |]. by apply found_none. Qed.

Lemma sorted_before {X} (A B : list (K * X)) e : sorted (A ++ e :: B) -> all_below e.1 A /\ all_above e.1 B.
Proof.
  intros (HA & HeB & Hlt)%sorted_app. split; [intros x Hx; apply Hlt; [done | left] |].
  inv HeB as [| ? ? _ Hall]. rewrite list.Forall_forall in Hall. exact Hall.
Qed.
End Lists.

Section Grown.
Context {K V : Type} `{KeyOrderLaws K}.
Context (DS IS : sizes).
Abbreviation tree := (tree (K := K) (V := V)).
Abbreviation wf := (wf (K := K) (V := V) DS IS).
Abbreviation kids := (kids (K := K) (V := V) DS IS).

Lemma wf_elems h : forall t, wf h t -> elems t <> [].
Proof.
  induction h as [| h IH]; intros t Hwf; [destruct (wf_data _ _ t Hwf) as (i & l & -> & Hl & _); by rewrite elems_data |].
  destruct (wf_index _ _ _ _ Hwf) as (i & cs & -> & Hne & _ & Hk). rewrite elems_index. destruct cs as [| [k t] cs]; [done |].
  apply list.Forall_cons in Hk as [[Hw _] _]. intros Hnil. simpl in Hnil. apply app_nil in Hnil as [Hnil _]. by apply (IH t Hw).
Qed.


(** The first key is the first key of any list the pairs begin. *)
Lemma first_key_prefix h t R k w es : wf h t -> elems t ++ R = (k, w) :: es -> first_key t k.
Proof. intros Hwf He. destruct (elems t) as [| [k' v] es'] eqn:E; [by apply (wf_elems h t) in E |]. injection He as -> _ _. by exists v, es'. Qed.

Lemma first_key_same h t t' k R R' : first_key t k -> wf h t' -> elems t' ++ R' = elems t ++ R -> first_key t' k.
Proof. intros (v & es & He) Hwf Heq. rewrite He in Heq. by eapply first_key_prefix. Qed.

Lemma first_key_new h t t' k key v R :
  first_key t k -> wf h t' -> elems t' ++ R = ordered_insert key v (elems t) -> first_key t' (new_first key k).
Proof.
  intros (x & es & He) Hwf Heq. rewrite He in Heq. destruct (ordered_insert_first key v x k es) as (w & R' & Hr).
  rewrite Hr in Heq. by eapply first_key_prefix.
Qed.

Lemma first_key_index h i k t cs : kids h ((k, t) :: cs) -> first_key (TIndex i ((k, t) :: cs)) k.
Proof.
  intros Hk. apply list.Forall_cons in Hk as [[_ (v & es & He)] _]. exists v, (es ++ elems_of cs).
  rewrite elems_index. simpl in *. by rewrite He.
Qed.

Lemma first_key_unique (t : tree) k k' : first_key t k -> first_key t k' -> k = k'.
Proof. intros (v & es & He) (v' & es' & He'). rewrite He in He'. by injection He' as ->. Qed.

Lemma kids_app h A B : kids h (A ++ B) <-> kids h A /\ kids h B.
Proof. apply list.Forall_app. Qed.
Lemma kids_cons h k t B : kids h ((k, t) :: B) <-> (wf h t /\ first_key t k) /\ kids h B.
Proof. unfold kids, BPTreeSpec.kids. by rewrite list.Forall_cons. Qed.
Lemma kids_take h n cs : kids h cs -> kids h (take n cs).
Proof. apply list.Forall_take. Qed.
Lemma kids_drop h n cs : kids h cs -> kids h (drop n cs).
Proof. apply list.Forall_drop. Qed.

Lemma entries_take n (cs : list (K * tree)) : take n (entries cs) = entries (take n cs).
Proof. unfold entries. by rewrite fmap_take. Qed.
Lemma entries_drop n (cs : list (K * tree)) : drop n (entries cs) = entries (drop n cs).
Proof. unfold entries. by rewrite fmap_drop. Qed.
Lemma elems_of_cut n (cs : list (K * tree)) : elems_of (take n cs) ++ elems_of (drop n cs) = elems_of cs.
Proof. by rewrite <- elems_of_app, take_drop. Qed.
Lemma leafs_of_cut n (cs : list (K * tree)) : leafs_of (take n cs) ++ leafs_of (drop n cs) = leafs_of cs.
Proof. by rewrite <- leafs_of_app, take_drop. Qed.
Lemma blocks_in_cut n (cs : list (K * tree)) : blocks_in (take n cs) ++ blocks_in (drop n cs) = blocks_in cs.
Proof. by rewrite <- blocks_in_app, take_drop. Qed.

(** A list cut where [split] and [average] cut it: both parts have entries. *)
Lemma cut_parts {X} (n : Z) (l : list X) : 0 < n < zlen l ->
  take (Z.to_nat n) l <> [] /\ drop (Z.to_nat n) l <> [] /\
  zlen (take (Z.to_nat n) l) = n /\ zlen (drop (Z.to_nat n) l) = zlen l - n.
Proof.
  intros Hn. assert (Ht : zlen (take (Z.to_nat n) l) = n) by (apply zlen_take; lia).
  assert (Hd : zlen (drop (Z.to_nat n) l) = zlen l - n) by (unfold zlen in *; rewrite length_drop; lia).
  split_and!; try done; intros Hnil; rewrite Hnil in *; rewrite zlen_nil in *; lia.
Qed.
End Grown.

Section Insert.
Context {K V : Type} `{KeyOrderLaws K}.
Context (DS IS : sizes) (roomD : room DS 1) (roomI : room IS 2).
Context (new_index : gmap Z (block (K := K) (V := V)) -> Z) (new_index_fresh : forall m, m !! new_index m = None).
Context (data_size_check : V -> bool).
Abbreviation tree := (tree (K := K) (V := V)).
Abbreviation state := (tree_state (K := K) (V := V)).
Abbreviation wf := (wf (K := K) (V := V) DS IS).
Abbreviation kids := (kids (K := K) (V := V) DS IS).
Implicit Types (s : state) (t : tree) (F : list (Z * block (K := K) (V := V))) (CA CB : list Z).

(** The test that begins every insertion and every erasure. *)
Lemma run_found {X} key (l : list (K * X)) s :
  (if (lb_index key l =? length l)%nat then mret false else '(k, _) ← deref (l !! lb_index key l); mret (keq k key)) s
    = Ret (match found key l with Some _ => true | None => false end, s).
Proof.
  unfold found. destruct (Nat.eqb_spec (lb_index key l) (length l)) as [-> | Hne]; [by rewrite lookup_ge_None_2 |].
  pose proof (lb_index_le key l). destruct (lookup_lt_is_Some_2 l (lb_index key l) ltac:(lia)) as [[k x] Hp]. rewrite Hp.
  run (by apply run_deref). by destruct (keq k key).
Qed.

(** What an insertion below [t] leaves: the block, and perhaps a block to its right. *)
Record grows key value h t F CA CB r (o : option (Z * K)) s t' (ts : list (K * tree)) : Prop := {
  grows_root : root t' = root t;
  grows_wf : wf h t';
  grows_kids : kids h ts;
  grows_entries : entries ts = match o with Some (j, k) => [(k, j)] | None => [] end;
  grows_elems : elems t' ++ elems_of ts = ordered_insert key value (elems t);
  grows_world : world s (blocks t' ++ blocks_in ts ++ F) (CA ++ (leafs t').*1 ++ (leafs_of ts).*1 ++ CB) r;
}.

Lemma data_split_ok s i l key value F CA CB r :
  world s ((i, Data l) :: F) (CA ++ i :: CB) r -> l <> [] -> fits DS (zlen l) ->
  exists n s1 s' k t' ts, create_data_block new_index s = Ret (n, s1) /\ data_split i n key value s1 = Ret (tt, s') /\
    data_begin_key n s' = Ret (k, s') /\ grows key value 0 (TData i l) F CA CB r (Some (n, k)) s' t' ts.
Proof.
  intros Hw Hl Hfits. destruct (w_create_data _ new_index_fresh _ _ _ _ Hw) as (n & s1 & Hr1 & Hn & Hw1).
  assert (Hw1' : world s1 ((n, Data []) :: (i, Data l) :: F) (CA ++ i :: CB) r) by (by destruct CA).
  eapply w_perm in Hw1'; [| apply Permutation_swap].
  set (l' := ordered_insert key value l). set (keep := Z.to_nat (split_keeps (zlen l))).
  assert (Hpos : 0 < zlen l) by (destruct l; [done | rewrite zlen_cons; pose proof (zlen_nonneg l); lia]).
  pose proof (split_keeps_bounds _ Hpos) as Hkeep. pose proof (zlen_ordered_insert key value l) as Hlen. fold l' in Hlen.
  destruct (cut_parts (split_keeps (zlen l)) l' ltac:(lia)) as (HneA & HneB & HlenA & HlenB). fold keep in HneA, HneB, HlenA, HlenB.
  destruct (w_set _ _ _ (Data (take keep l')) _ _ _ Hw1' I) as (s2 & Hr2 & Hw2).
  eapply w_perm in Hw2; [| apply Permutation_swap].
  destruct (w_set _ _ _ (Data (drop keep l')) _ _ _ Hw2 I) as (s3 & Hr3 & Hw3).
  pose proof (w_link _ _ _ _ n _ _ _ Hw3 Hn ltac:(left)) as Hw4. set (s' := mkState _ _ _) in Hw4.
  destruct (drop keep l') as [| [k v] l2] eqn:El2; [done |].
  exists n, s1, s', k, (TData i (take keep l')), [(k, TData n ((k, v) :: l2))]. split; [exact Hr1 |]. split_and!.
  - unfold data_split. run (eapply w_data; exact Hw1'). fold keep l'. rewrite El2. run exact Hr2. by run exact Hr3.
  - eapply w_data_key. exact Hw4.
  - pose proof (room_pair _ _ roomD). split; [done | | | done | |].
    + split; [done |]. eapply fits_less; [done | | exact Hfits]. lia.
    + repeat constructor; [done | |]; [eapply fits_less; [done | | exact Hfits]; simpl in *; lia |].
      exists v, l2. apply elems_data.
    + rewrite !elems_data. cbn [elems_of flat_map snd]. rewrite elems_data, app_nil_r, <- El2. apply take_drop.
    + simpl. eapply w_perm; [exact Hw4 |]. solve_Permutation.
Qed.

Lemma data_insert_ok s i l key value F CA CB r :
  world s ((i, Data l) :: F) (CA ++ i :: CB) r -> l <> [] -> fits DS (zlen l) -> found key l = None ->
  exists o s' t' ts, data_block_insert DS new_index key value i s = Ret ((o, true), s') /\
    grows key value 0 (TData i l) F CA CB r o s' t' ts.
Proof.
  intros Hw Hl Hfits Hf. unfold data_block_insert.
  destruct (can_insert DS (zlen l)) eqn:Hcan.
  - destruct (w_set _ _ _ (Data (ordered_insert key value l)) _ _ _ Hw I) as (s1 & Hr1 & Hw1).
    exists None, s1, (TData i (ordered_insert key value l)), []. split.
    + run (eapply w_data; exact Hw). run (apply run_found). rewrite Hf, Hcan. cbv iota. by run exact Hr1.
    + split; [done | | constructor | done | by rewrite !elems_data, app_nil_r | exact Hw1].
      split; [unfold ordered_insert; by destruct (take _ l) |]. rewrite zlen_ordered_insert. by apply fits_insert.
  - destruct (data_split_ok _ _ _ key value _ _ _ _ Hw Hl Hfits) as (n & s1 & s' & k & t' & ts & Hr1 & Hr2 & Hr3 & Hg).
    exists (Some (n, k)), s', t', ts. split; [| done].
    run (eapply w_data; exact Hw). run (apply run_found). rewrite Hf, Hcan. cbv iota. run exact Hr1. run exact Hr2. by run exact Hr3.
Qed.

(** ** Index blocks *)

Lemma when_update_ok s i A k t t' B (up : bool) key R C r :
  world s ((i, Index (entries (A ++ (k, t) :: B))) :: R) C r -> root t' = root t ->
  exists s', when up (update_key i (length A) key) s = Ret (tt, s') /\
    world s' ((i, Index (entries (A ++ (if up then key else k, t') :: B))) :: R) C r.
Proof.
  intros Hw Hroot. destruct up; simpl.
  - destruct (w_update_key _ _ (length A) k (root t) key _ _ _ _ Hw) as (s' & Hr & Hw').
    { rewrite entries_app, <- (length_entries A). apply child_elem. }
    exists s'. split; [exact Hr |]. rewrite !entries_app in *. simpl in *. rewrite Hroot.
    by rewrite <- (length_entries A), insert_app_r_alt, Nat.sub_diag in Hw' by lia.
  - exists s. split; [done |]. rewrite !entries_app in *. simpl in *. by rewrite Hroot.
Qed.

(** What an index block does with the entry a split below it brings. *)
Definition take_entry (i : Z) (p : nat) (o : option (Z * K)) (state : bool) : M (option (Z * K) * bool) :=
  match o with
  | None => mret (None, state)
  | Some (c, k) =>
      l ← index_entries i;
      if can_insert IS (zlen l) then set_block i (Index (insert_at (S p) (k, c) l));; mret (None, state)
      else
        n ← create_index_block new_index;
        index_split i n k c;;
        k ← index_begin_key n;
        mret (Some (n, k), state)
  end.

(** The children [cs] as one block, or as two. *)
Record placed h i (cs : list (K * tree)) F C r (o : option (Z * K)) s cs1 (ts : list (K * tree)) : Prop := {
  placed_wf : wf (S h) (TIndex i cs1);
  placed_kids : kids (S h) ts;
  placed_entries : entries ts = match o with Some (j, k) => [(k, j)] | None => [] end;
  placed_elems : elems_of cs1 ++ elems_of ts = elems_of cs;
  placed_leafs : leafs_of cs1 ++ leafs_of ts = leafs_of cs;
  placed_world : world s ((i, Index (entries cs1)) :: blocks_in cs1 ++ blocks_in ts ++ F) C r;
}.

Lemma index_split_ok s h i cs l k c F C r :
  world s ((i, Index l) :: blocks_in cs ++ F) C r -> kids h cs -> ordered_insert k c l = entries cs ->
  l <> [] -> fits IS (zlen l) ->
  exists n s1 s' key cs1 ts, create_index_block new_index s = Ret (n, s1) /\ index_split i n k c s1 = Ret (tt, s') /\
    index_begin_key n s' = Ret (key, s') /\ placed h i cs F C r (Some (n, key)) s' cs1 ts.
Proof.
  intros Hw Hk He Hl Hfits. destruct (w_create_index _ new_index_fresh _ _ _ _ Hw) as (n & s1 & Hr1 & Hw1).
  eapply w_perm in Hw1; [| apply Permutation_swap]. set (keep := Z.to_nat (split_keeps (zlen l))).
  assert (Hpos : 0 < zlen l) by (destruct l; [done | rewrite zlen_cons; pose proof (zlen_nonneg l); lia]).
  pose proof (split_keeps_bounds _ Hpos) as Hkeep. pose proof (zlen_ordered_insert k c l) as Hlen. rewrite He, zlen_entries in Hlen.
  destruct (cut_parts (split_keeps (zlen l)) cs ltac:(lia)) as (HneA & HneB & HlenA & HlenB). fold keep in HneA, HneB, HlenA, HlenB.
  destruct (w_set _ _ _ (Index (entries (take keep cs))) _ _ _ Hw1 I) as (s2 & Hr2 & Hw2).
  eapply w_perm in Hw2; [| apply Permutation_swap].
  destruct (w_set _ _ _ (Index (entries (drop keep cs))) _ _ _ Hw2 I) as (s3 & Hr3 & Hw3).
  pose proof (elems_of_cut keep cs) as Helems. pose proof (leafs_of_cut keep cs) as Hleafs. pose proof (blocks_in_cut keep cs) as Hblocks.
  pose proof (kids_take DS IS h keep cs Hk) as HkA. pose proof (kids_drop DS IS h keep cs Hk) as HkB.
  assert (Hsplit : index_split i n k c s1 = Ret (tt, s3)).
  { unfold index_split. run (eapply w_index; exact Hw1). fold keep. rewrite He, entries_take, entries_drop. run exact Hr2. exact Hr3. }
  destruct (drop keep cs) as [| [key t] cs2] eqn:Ecs2; [done |]. pose proof (room_pair _ _ roomI).
  exists n, s1, s3, key, (take keep cs), [(key, TIndex n ((key, t) :: cs2))]. split; [exact Hr1 |]. split; [exact Hsplit |].
  split; [eapply w_index_key; exact Hw3 |]. split; [| | done | | |].
  - split_and!; [done | | done]. eapply fits_less; [done | | exact Hfits]. lia.
  - apply kids_cons. split; [| constructor]. split; [| by eapply first_key_index].
    split_and!; [done | | done]. eapply fits_less; [done | | exact Hfits]. lia.
  - cbn [elems_of flat_map snd]. by rewrite elems_index, app_nil_r.
  - cbn [leafs_of flat_map snd]. by rewrite app_nil_r.
  - eapply w_perm; [exact Hw3 |]. rewrite <- Hblocks. simpl. solve_Permutation.
Qed.

Lemma take_entry_ok s h i A k t ts B o F C r :
  let cs := A ++ (k, t) :: ts ++ B in
  world s ((i, Index (entries (A ++ (k, t) :: B))) :: blocks_in cs ++ F) C r -> kids h cs -> sorted (elems_of cs) ->
  fits IS (zlen (A ++ (k, t) :: B)) -> entries ts = match o with Some (j, k) => [(k, j)] | None => [] end ->
  exists o' s' cs1 ts', take_entry i (length A) o true s = Ret ((o', true), s') /\ placed h i cs F C r o' s' cs1 ts'.
Proof.
  intros cs Hw Hk Hs Hfits He. assert (Hne : cs <> []) by (by destruct A). destruct o as [[c k2] |].
  2: { destruct ts; [| done]. exists None, s, cs, []. split; [done |]. subst cs. split; [done | constructor | done | | | done].
       - by rewrite app_nil_r.
       - by rewrite app_nil_r. }
  destruct ts as [| [k2' t2] [|]]; [done | | done]. injection He as -> <-.
  assert (Hcs : entries cs = entries (A ++ [(k, t)]) ++ (k2, root t2) :: entries B).
  { subst cs. rewrite !entries_app. simpl. by rewrite <- app_assoc. }
  assert (Hold : entries (A ++ (k, t) :: B) = entries (A ++ [(k, t)]) ++ entries B).
  { rewrite !entries_app. simpl. by rewrite <- app_assoc. }
  pose proof (entries_sorted DS IS h cs Hk Hs) as Hes. rewrite Hcs in Hes. apply sorted_before in Hes as [Hlow Hhigh].
  cbn [fst] in Hlow, Hhigh. unfold take_entry. destruct (can_insert IS (zlen (entries (A ++ (k, t) :: B)))) eqn:Hcan.
  - destruct (w_set _ _ _ (Index (entries cs)) _ _ _ Hw I) as (s1 & Hr1 & Hw1). exists None, s1, cs, []. split.
    + run (eapply w_index; exact Hw). rewrite Hcan. cbv iota.
      assert (Hat : insert_at (S (length A)) (k2, root t2) (entries (A ++ (k, t) :: B)) = entries cs).
      { rewrite Hold, Hcs. unfold insert_at. rewrite (take_app_length'), (drop_app_length'); [done | |]; rewrite length_entries, length_app; simpl; lia. }
      rewrite Hat. by run exact Hr1.
    + split; [| constructor | done | by rewrite app_nil_r | by rewrite app_nil_r | exact Hw1].
      split_and!; [done | | done]. rewrite zlen_entries in Hcan. apply fits_insert in Hcan.
      replace (zlen cs) with (zlen (A ++ (k, t) :: B) + 1); [done |]. subst cs. rewrite !zlen_app, !zlen_cons, zlen_app, zlen_cons, zlen_nil. lia.
  - destruct (index_split_ok _ _ _ _ _ k2 (root t2) _ _ _ Hw Hk) as (n & s1 & s' & key & cs1 & ts' & Hr1 & Hr2 & Hr3 & Hp).
    { rewrite Hold, Hcs. by apply ordered_insert_here. }
    { by destruct A. }
    { by rewrite zlen_entries. }
    exists (Some (n, key)), s', cs1, ts'. split; [| done].
    run (eapply w_index; exact Hw). rewrite Hcan. cbv iota. run exact Hr1. run exact Hr2. by run exact Hr3.
Qed.

(** ** Going down *)

(** The first key of an index block, against the key of the child that is taken. *)
Lemma first_in_block h key cs A k t B : child_at key cs A k t B -> kids h cs ->
  exists k0 c0 R, entries cs = (k0, c0) :: R /\ klt key k0 = klt key k.
Proof.
  intros [-> HA _ Hkey _] Hk. destruct A as [| [k0 t0] A]; [do 3 eexists; split; [reflexivity | done] |].
  do 3 eexists. split; [reflexivity |]. destruct Hkey as [| ->]; [done |].
  apply kids_cons in Hk as [[_ Hf] _]. destruct (first_key_in _ _ Hf) as [v Hv]. apply klt_asym.
  apply (HA (k0, v)). apply elem_of_app. by left.
Qed.

(** Whether the key is in the index block, and the entry before [lower_bound] if it is not. *)
Lemma found_entry key cs A k t B : child_at key cs A k t B ->
  match found key (entries cs) with Some _ => k = key | None => k <> key /\ pred (lb_index key (entries cs)) = length A end.
Proof.
  intros [_ _ _ Hkey [Hsplit Hlow Hhigh Hlb]]. unfold found. cbn [fst] in *. rewrite length_entries in Hlb.
  assert (Hat : entries cs !! length A = Some (k, root t)) by (rewrite Hsplit, <- (length_entries A); apply child_elem).
  destruct Hlb as [[-> [Hlt | ->]] | [-> Hlt]].
  - rewrite Hat, (keq_klt' _ _ Hlt). split; [intros ->; by rewrite klt_irrefl in Hlt |].
    destruct Hkey as [-> | Hk]; [done | congruence].
  - by rewrite Hat, keq_refl.
  - assert (Hne : k <> key) by (intros ->; by rewrite klt_irrefl in Hlt).
    rewrite Hsplit, lookup_app_r by (rewrite length_entries; lia). rewrite length_entries.
    replace (S (length A) - length A)%nat with 1%nat by lia. destruct (entries B) as [| [k' c'] R] eqn:EB; [done |]. simpl.
    specialize (Hhigh (k', c') ltac:(left)). simpl in Hhigh. by rewrite keq_klt'.
Qed.

Lemma insert_step s fuel i h cs A k t B key value :
  heap s !! i = Some (Index (entries cs)) -> child_at key cs A k t B -> kids h cs ->
  insert_impl DS IS new_index (S fuel) key value i s =
    if keq k key then Ret ((None, false), s)
    else ('(o, state) ← insert_impl DS IS new_index fuel key value (root t);
          when (klt key k && state) (update_key i (length A) key);; take_entry i (length A) o state) s.
Proof.
  intros Hi Hc Hk. destruct (first_in_block _ _ _ _ _ _ _ Hc Hk) as (k0 & c0 & R & Hfirst & Hlt).
  cbn [insert_impl]. run (by eapply run_is_index). run (by eapply run_index).
  assert (Hkey : index_begin_key i s = Ret (k0, s)).
  { unfold index_begin_key. run (by eapply run_index). rewrite Hfirst. by run (by apply run_deref). }
  run exact Hkey. run (apply run_found). pose proof (found_entry _ _ _ _ _ _ Hc) as Hf.
  destruct (found key (entries cs)); [subst; by rewrite keq_refl |]. destruct Hf as [Hne Hp].
  destruct (keq k key) eqn:Hkk; [by apply keq_eq in Hkk |]. rewrite Hp, Hlt.
  pose proof (child_lookup _ _ _ _ _ _ Hc) as Hat. pose proof (lookup_lt_Some _ _ _ Hat) as Hin.
  destruct (Nat.eqb_spec (length A) (length (entries cs))) as [Heq |]; [lia |].
  run done. by run (by apply run_deref).
Qed.

Lemma insert_data_step s fuel i l key value : heap s !! i = Some (Data l) ->
  insert_impl DS IS new_index (S fuel) key value i s = data_block_insert DS new_index key value i s.
Proof. intros Hi. cbn [insert_impl]. by run (by eapply run_is_data). Qed.

(** A key that is there: nothing is written. *)
Lemma insert_dup h : forall t s fuel key value,
  wf h t -> mem s t -> sorted (elems t) -> (h < fuel)%nat -> found key (elems t) <> None ->
  insert_impl DS IS new_index fuel key value (root t) s = Ret ((None, false), s).
Proof.
  induction h as [| h IH]; intros t s fuel key value Hwf Hm Hs Hf Hfound; (destruct fuel as [| fuel]; [lia |]).
  - destruct (wf_data _ _ t Hwf) as (i & l & -> & _). apply mem_data in Hm. rewrite elems_data in Hfound. cbn [root].
    rewrite (insert_data_step _ _ _ _ _ _ Hm). unfold data_block_insert. run (by eapply run_data). run (apply run_found).
    by destruct (found key l).
  - destruct (wf_index _ _ _ _ Hwf) as (i & cs & -> & Hne & _ & Hk). rewrite elems_index in Hs, Hfound.
    destruct (locate_child DS IS _ key cs Hne Hk Hs) as (A & k & t & B & Hc & Hwt & _ & Hst). cbn [root].
    rewrite (insert_step s fuel i h cs A k t B key value (mem_root _ _ _ Hm) Hc Hk). destruct (keq k key); [done |].
    pose proof (child_split _ _ _ _ _ _ Hc) as Hcs. assert (Hmt : mem s t) by (rewrite Hcs in Hm; by eapply mem_child).
    rewrite Hcs, elems_of_app in Hfound. cbn [elems_of flat_map snd] in Hfound. fold (elems_of B) in Hfound.
    rewrite found_mid in Hfound by apply Hc.
    run (apply (IH t s fuel key value Hwt Hmt Hst ltac:(lia) Hfound)). by rewrite andb_false_r.
Qed.

(** The blocks and the leaves of an index block, around one child. *)
Lemma blocks_index i (cs : list (K * tree)) : blocks (TIndex i cs) = (i, Index (entries cs)) :: blocks_in cs.
Proof. reflexivity. Qed.
Lemma leafs_index i (cs : list (K * tree)) : leafs (TIndex i cs) = leafs_of cs.
Proof. reflexivity. Qed.

Lemma blocks_at i A k t B : blocks (TIndex i (A ++ (k, t) :: B)) ≡ₚ
  blocks t ++ (i, Index (entries (A ++ (k, t) :: B))) :: blocks_in A ++ blocks_in B.
Proof. rewrite blocks_index, (blocks_in_app A ((k, t) :: B)). cbn [blocks_in flat_map snd]. solve_Permutation. Qed.

Lemma leafs_at i A k t B CA CB : CA ++ (leafs (TIndex i (A ++ (k, t) :: B))).*1 ++ CB =
  (CA ++ (leafs_of A).*1) ++ (leafs t).*1 ++ (leafs_of B).*1 ++ CB.
Proof.
  rewrite leafs_index, (leafs_of_app A ((k, t) :: B)). cbn [leafs_of flat_map snd]. rewrite !fmap_app. by rewrite <- !app_assoc.
Qed.

Lemma elems_at A k t B : elems_of (A ++ (k, t) :: B) = elems_of A ++ elems t ++ elems_of B.
Proof. by rewrite elems_of_app. Qed.

Lemma kids_replace h A k t B k' t' ts : kids h (A ++ (k, t) :: B) -> wf h t' -> first_key t' k' -> kids h ts ->
  kids h (A ++ (k', t') :: ts ++ B).
Proof. rewrite !kids_app, !kids_cons, kids_app. tauto. Qed.

Lemma sorted_mid {X} (A E B : list (K * X)) : sorted (A ++ E ++ B) -> sorted E.
Proof. intros (_ & HE & _)%sorted_app. by apply sorted_app in HE as (? & _). Qed.

Lemma insert_missing h : forall t s fuel key value F CA CB r,
  wf h t -> world s (blocks t ++ F) (CA ++ (leafs t).*1 ++ CB) r -> sorted (elems t) -> (h < fuel)%nat -> found key (elems t) = None ->
  exists o s' t' ts, insert_impl DS IS new_index fuel key value (root t) s = Ret ((o, true), s') /\
    grows key value h t F CA CB r o s' t' ts.
Proof.
  induction h as [| h IH]; intros t s fuel key value F CA CB r Hwf Hw Hs Hf Hfound; (destruct fuel as [| fuel]; [lia |]).
  { destruct (wf_data _ _ t Hwf) as (i & l & -> & Hl & Hfits). rewrite elems_data in Hfound. cbn [root].
    rewrite (insert_data_step _ _ i l _ _ (w_get _ _ _ _ _ _ Hw)). by apply data_insert_ok. }
  destruct (wf_index _ _ _ _ Hwf) as (i & cs & -> & Hne & Hfits & Hk). rewrite elems_index in Hs, Hfound.
  destruct (locate_child DS IS _ key cs Hne Hk Hs) as (A & k & t & B & Hc & Hwt & Hft & Hst).
  pose proof (w_get _ _ _ _ _ _ Hw) as Hi. pose proof (child_low _ _ _ _ _ _ Hc) as HlowA. pose proof (child_high _ _ _ _ _ _ Hc) as HhighB.
  cbn [root]. rewrite (insert_step s fuel i h cs A k t B key value Hi Hc Hk). pose proof (child_split _ _ _ _ _ _ Hc) as ->. clear Hi Hc.
  pose proof Hfound as Hfoundt. rewrite elems_at, found_mid in Hfoundt by done.
  destruct (keq k key) eqn:Hkk.
  { apply keq_eq in Hkk as ->. destruct (first_key_in _ _ Hft) as [v Hv]. rewrite (found_none _ _ Hst) in Hfoundt. by apply Hfoundt in Hv. }
  rewrite leafs_at in Hw. eapply w_perm in Hw; [| apply Permutation_app_tail, blocks_at]. rewrite <- app_assoc in Hw.
  destruct (IH t s fuel key value _ _ _ r Hwt Hw Hst ltac:(lia) Hfoundt) as (o & s1 & t' & ts & Hr1 & [Hroot Hwt' Hkts Hets Helems Hw1]).
  run exact Hr1. rewrite andb_true_r. clear Hr1 Hw. fold (new_first key k).
  assert (Hp : blocks t' ++ blocks_in ts ++ ((i, Index (entries (A ++ (k, t) :: B))) :: blocks_in A ++ blocks_in B) ++ F ≡ₚ
    (i, Index (entries (A ++ (k, t) :: B))) :: blocks_in (A ++ (new_first key k, t') :: ts ++ B) ++ F).
  { rewrite !blocks_in_app. cbn [blocks_in flat_map snd]. fold (blocks_in (ts ++ B)). rewrite blocks_in_app. solve_Permutation. }
  eapply w_perm in Hw1; [| exact Hp]. clear Hp.
  destruct (when_update_ok _ _ _ _ _ t' _ (klt key k) key _ _ _ Hw1 Hroot) as (s2 & Hr2 & Hw2). clear Hw1. run exact Hr2. clear Hr2.
  fold (new_first key k) in Hw2. pose proof (first_key_new DS IS _ _ _ _ _ _ _ Hft Hwt' Helems) as Hft'.
  pose proof (kids_replace _ _ _ _ _ _ _ _ Hk Hwt' Hft' Hkts) as Hk'.
  assert (Hcs : elems_of (A ++ (new_first key k, t') :: ts ++ B) = ordered_insert key value (elems_of (A ++ (k, t) :: B))).
  { rewrite !elems_at, elems_of_app, (app_assoc (elems t')), Helems. by rewrite ordered_insert_mid. }
  destruct (take_entry_ok _ _ _ _ _ _ _ _ o _ _ _ Hw2 Hk') as (o' & s' & cs1 & ts' & Hr3 & [Hwf' Hkts' Hets' Helems' Hleafs' Hw']).
  { rewrite Hcs. by apply found_sorted. }
  { by rewrite zlen_app, zlen_cons in *. }
  { exact Hets. }
  exists o', s', (TIndex i cs1), ts'. split; [exact Hr3 |]. split; [done | done | done | done | |].
  - by rewrite !elems_index, Helems'.
  - rewrite blocks_index, leafs_index, <- app_comm_cons. eapply w_chain; [exact Hw' |].
    rewrite (app_assoc (leafs_of cs1).*1), <- (fmap_app fst (leafs_of cs1)), Hleafs', !leafs_of_app.
    cbn [leafs_of flat_map snd]. fold (leafs_of (ts ++ B)). rewrite leafs_of_app, !fmap_app. by rewrite <- !app_assoc.
Qed.

(** ** The whole tree *)

Abbreviation holds := (holds (K := K) (V := V) DS IS).

Lemma holds_world s h t : holds s h t -> world s (blocks t) (leafs t).*1 (Some (root t)).
Proof.
  intros Hh. split; [apply Hh | apply Hh | apply Hh | | | apply Hh].
  - eapply submseteq_unique; [apply leafs_blocks | apply Hh].
  - intros i ([j l] & -> & Hl)%list_elem_of_fmap. exists l. by apply (leaf_block DS IS h t j l (holds_wf _ _ _ _ _ Hh)).
Qed.

Lemma world_holds s h t : world s (blocks t) (leafs t).*1 (Some (root t)) -> wf h t -> sorted (elems t) -> holds s h t.
Proof. intros [Hh Hn Hc _ _ Hr] Hwf Hs. by split. Qed.

(** No block but the tree's, which are as they should be; the pairs are [es]. *)
Inductive stores s : list (K * V) -> Prop :=
  | stores_nothing : heap s = ∅ -> chain s = [] -> begin_block s = None -> stores s []
  | stores_tree h t : holds s h t -> stores s (elems t).

Lemma stores_sorted s es : stores s es -> sorted es.
Proof. intros [| h t Hh]; [constructor | apply Hh]. Qed.

(** The root splits: a new index block above the two halves. *)
Definition raise_root (root : Z) (o : option (Z * K)) (state : bool) : M bool :=
  match o with
  | None => mret state
  | Some (i, k) =>
      index_block ← create_index_block new_index;
      l ← index_entries index_block;
      assert_ (can_insert IS (zlen l));;
      d ← is_data_block root;
      before ← (if (d : bool) then data_begin_key root else index_begin_key root);
      index_append index_block before root;;
      l ← index_entries index_block;
      assert_ (can_insert IS (zlen l));;
      index_append index_block k i;;
      set_begin_block (Some index_block);;
      mret state
  end.

Lemma w_append s i l k c L C r : world s ((i, Index l) :: L) C r ->
  exists s', index_append i k c s = Ret (tt, s') /\ world s' ((i, Index (l ++ [(k, c)])) :: L) C r.
Proof.
  intros Hw. destruct (w_set _ _ _ (Index (l ++ [(k, c)])) _ _ _ Hw I) as (s' & Hr & Hw'). exists s'. split; [| exact Hw'].
  unfold index_append. by run (eapply w_index; exact Hw).
Qed.

(** The key a root begins with, as [insert] reads it. *)
Lemma root_key h s t L C r : wf h t -> world s L C r -> (forall b, b ∈ blocks t -> b ∈ L) ->
  exists k d, first_key t k /\ is_data_block (root t) s = Ret (d, s) /\
    (if (d : bool) then data_begin_key (root t) else index_begin_key (root t)) s = Ret (k, s).
Proof.
  intros Hwf Hw HL. destruct t as [i l | i cs].
  - destruct h; [| done]. destruct Hwf as [Hl _]. destruct l as [| [k v] l]; [done |].
    assert (Hi : heap s !! i = Some (Data ((k, v) :: l))) by (eapply w_read; [exact Hw | apply HL; left]).
    exists k, true. split; [exists v, l; apply elems_data |]. split; [by eapply run_is_data |]. unfold data_begin_key.
    run (by eapply run_data). by run (by apply run_deref).
  - destruct h; [done |]. destruct Hwf as (Hne & _ & Hk). destruct cs as [| [k t] cs]; [done |].
    assert (Hi : heap s !! i = Some (Index (entries ((k, t) :: cs)))) by (eapply w_read; [exact Hw | apply HL; left]).
    exists k, false. split; [by eapply first_key_index |]. split; [by eapply run_is_index |]. unfold index_begin_key.
    run (by eapply run_index). by run (by apply run_deref).
Qed.

Lemma raise_root_ok h key value t s o t' ts :
  grows key value h t [] [] [] (Some (root t)) o s t' ts -> sorted (ordered_insert key value (elems t)) ->
  exists s', raise_root (root t) o true s = Ret (true, s') /\ stores s' (ordered_insert key value (elems t)).
Proof.
  intros [Hroot Hwf Hk He Helems Hw] Hs. rewrite <- Helems in *. rewrite !app_nil_r in Hw. destruct o as [[c k2] |].
  2: { destruct ts; [| done]. exists s. split; [done |]. simpl in *. rewrite !app_nil_r in *. apply (stores_tree _ h).
       apply world_holds; [by rewrite Hroot | done | done]. }
  destruct ts as [| [k2' t2] [|]]; [done | | done]. injection He as -> <-.
  destruct (w_create_index _ new_index_fresh _ _ _ _ Hw) as (n & s1 & Hr1 & Hw1).
  destruct (root_key h s1 t' _ _ _ Hwf Hw1) as (k & d & Hfk & Hd & Hkey); [intros b Hb; right; apply elem_of_app; by left |].
  destruct (w_append _ _ _ k (root t) _ _ _ Hw1) as (s2 & Hr2 & Hw2).
  destruct (w_append _ _ _ k2 (root t2) _ _ _ Hw2) as (s3 & Hr3 & Hw3).
  destruct (w_set_root _ _ _ _ (Some n) Hw3) as (s4 & Hr4 & Hw4).
  exists s4. split.
  - unfold raise_root. run exact Hr1. run (eapply w_index; exact Hw1).
    rewrite (can_insert_room IS _ 2 roomI) by (rewrite zlen_nil; lia). run done. rewrite Hroot in Hd, Hkey. run exact Hd. run exact Hkey. run exact Hr2.
    run (eapply w_index; exact Hw2). rewrite (can_insert_room IS _ 2 roomI) by (rewrite zlen_app, zlen_cons, zlen_nil; lia).
    run done. run exact Hr3. by run exact Hr4.
  - assert (Hc : elems t' ++ elems_of [(k2, t2)] = elems (TIndex n [(k, t'); (k2, t2)])) by (by rewrite elems_index).
    rewrite Hc in *. apply (stores_tree _ (S h)). apply world_holds; [| | done].
    + rewrite leafs_index. rewrite blocks_index. cbn [blocks_in leafs_of flat_map snd] in *.
      rewrite app_nil_r in *. rewrite <- Hroot in Hw4. rewrite fmap_app. exact Hw4.
    + split_and!; [done | | by apply kids_cons]. destruct roomI as [_ Htwo]. exact Htwo.
Qed.

Lemma tree_insert_ok s es fuel key value : stores s es -> (size (heap s) <= fuel)%nat ->
  let fresh := data_size_check value && match found key es with None => true | Some _ => false end in
  exists s', insert DS IS new_index data_size_check fuel key value s = Ret (fresh, s') /\
    stores s' (if fresh then ordered_insert key value es else es).
Proof.
  intros Hst Hfuel fresh. subst fresh. unfold insert. destruct (data_size_check value); [| by exists s]. simpl.
  destruct Hst as [Hheap Hchain Hbegin | h t Hh].
  - destruct (w_create_data _ new_index_fresh s [] [] None) as (n & s1 & Hr1 & _ & Hw1).
    { split; [by rewrite Hheap | constructor | done | constructor | | done]. intros i Hi. by apply elem_of_nil in Hi. }
    destruct (w_set _ _ _ (Data [(key, value)]) _ _ _ Hw1 I) as (s2 & Hr2 & Hw2).
    destruct (w_set_root _ _ _ _ (Some n) Hw2) as (s3 & Hr3 & Hw3).
    assert (Hone : can_insert DS 0 = true) by (eapply can_insert_room; [exact roomD | lia]).
    exists s3. split.
    + run (unfold gets; by rewrite Hbegin). run exact Hr1. run (eapply w_data; exact Hw1).
      rewrite zlen_nil, Hone. run done. simpl app. run exact Hr2. by run exact Hr3.
    + change (ordered_insert key value []) with ([] ++ [(key, value)]). rewrite <- (elems_data n). apply (stores_tree _ 0).
      apply world_holds; [done | | rewrite elems_data; repeat constructor].
      split; [done |]. by apply (fits_insert DS 0).
  - pose proof (holds_height _ _ _ _ _ Hh) as Hheight. destruct (found key (elems t)) as [e |] eqn:Hfound.
    + exists s. split; [| by eapply stores_tree]. run (unfold gets; by rewrite (holds_root _ _ _ _ _ Hh)).
      run (eapply (insert_dup h); [apply (holds_wf _ _ _ _ _ Hh) | exact (holds_mem _ _ _ _ _ Hh) | apply (holds_sorted _ _ _ _ _ Hh) | lia | by rewrite Hfound]). done.
    + destruct (insert_missing h t s fuel key value [] [] [] (Some (root t))) as (o & s1 & t' & ts & Hr1 & Hg);
        [apply (holds_wf _ _ _ _ _ Hh) | | apply (holds_sorted _ _ _ _ _ Hh) | lia | done |]; [rewrite !app_nil_r; exact (holds_world _ _ _ Hh) |].
      destruct (raise_root_ok _ _ _ _ _ _ _ _ Hg) as (s' & Hr2 & Hst); [apply found_sorted; [apply (holds_sorted _ _ _ _ _ Hh) | done] |].
      exists s'. split; [| exact Hst]. run (unfold gets; by rewrite (holds_root _ _ _ _ _ Hh)). by run exact Hr1.
Qed.

(** ** Replacing a value *)

Lemma leafs_of_split (cs : list (K * tree)) LA i l LB : leafs_of cs = LA ++ (i, l) :: LB ->
  exists A k t B LA' LB', cs = A ++ (k, t) :: B /\ leafs t = LA' ++ (i, l) :: LB' /\
    LA = leafs_of A ++ LA' /\ LB = LB' ++ leafs_of B.
Proof.
  revert LA. induction cs as [| [k t] cs IH]; intros LA Hls; [by destruct LA |].
  change (leafs_of ((k, t) :: cs)) with (leafs t ++ leafs_of cs) in Hls.
  apply app_eq_app in Hls as (m & [[Ht Hm] | [HLA Hcs]]).
  - destruct m as [| [j l'] m].
    + rewrite app_nil_r in Ht. simpl in Hm. destruct (IH []) as (A & k' & t' & B & LA' & LB' & -> & Hl & HA & HB); [by rewrite <- Hm |].
      exists ((k, t) :: A), k', t', B, LA', LB'. split_and!; [done | done | | done].
      change (leafs_of ((k, t) :: A)) with (leafs t ++ leafs_of A). by rewrite <- app_assoc, <- HA, app_nil_r, Ht.
    + injection Hm as <- <- ->. by exists [], k, t, cs, LA, m.
  - destruct (IH m Hcs) as (A & k' & t' & B & LA' & LB' & -> & Hl & -> & HB).
    exists ((k, t) :: A), k', t', B, LA', LB'. split_and!; [done | done | | done]. rewrite HLA. by rewrite app_assoc.
Qed.

(** One leaf with other values for the same keys. *)
Lemma set_leaf h : forall t LA i l l' LB, wf h t -> leafs t = LA ++ (i, l) :: LB -> l'.*1 = l.*1 ->
  exists t' R, root t' = root t /\ wf h t' /\ leafs t' = LA ++ (i, l') :: LB /\
    blocks t ≡ₚ (i, Data l) :: R /\ blocks t' ≡ₚ (i, Data l') :: R /\ (forall k, first_key t k -> first_key t' k).
Proof.
  induction h as [| h IH]; intros t LA i l l' LB Hwf Hls Hkeys.
  - destruct (wf_data _ _ t Hwf) as (j & l0 & -> & Hne & Hfits). destruct LA as [| ? LA]; [| by destruct LA]. injection Hls as -> -> <-.
    exists (TData i l'), []. apply (f_equal length) in Hkeys as Hlen. rewrite !length_fmap in Hlen. split_and!; try done.
    + split; [by destruct l, l' |]. unfold zlen in *. by rewrite Hlen.
    + intros k (v & es & He). rewrite elems_data in He. subst l. destruct l' as [| [k' v'] l']; [done |].
      injection Hkeys as -> _. exists v', l'. apply elems_data.
  - destruct (wf_index _ _ _ _ Hwf) as (j & cs & -> & Hne & Hfits & Hk). rewrite leafs_index in Hls.
    destruct (leafs_of_split _ _ _ _ _ Hls) as (A & k & t & B & LA' & LB' & -> & Hl & -> & ->).
    pose proof Hk as Hk'. apply kids_app in Hk' as [HkA HkB]. apply kids_cons in HkB as [[Hwt Hft] HkB].
    destruct (IH t LA' i l l' LB' Hwt Hl Hkeys) as (t' & R & Hroot & Hwf' & Hl' & Hb & Hb' & Hfirst).
    assert (Hentries : entries (A ++ (k, t') :: B) = entries (A ++ (k, t) :: B)) by (rewrite !entries_app; simpl; by rewrite Hroot).
    assert (Hkids : kids h (A ++ (k, t') :: B)) by (apply kids_app; split; [done |]; apply kids_cons; auto).
    exists (TIndex j (A ++ (k, t') :: B)), ((j, Index (entries (A ++ (k, t) :: B))) :: blocks_in A ++ R ++ blocks_in B).
    split_and!; [done | | | | |].
    + split_and!; [by destruct A | | done]. unfold zlen in *. rewrite length_app in *. done.
    + rewrite leafs_index, leafs_of_app. cbn [leafs_of flat_map snd]. rewrite Hl'. by rewrite <- !app_assoc.
    + rewrite blocks_at, Hb. solve_Permutation.
    + rewrite blocks_at, Hb', Hentries. solve_Permutation.
    + intros k0 Hf0. destruct A as [| [ka ta] A]; cbn [app] in *.
      * rewrite (first_key_unique _ _ _ Hf0 (first_key_index DS IS h j k t B Hk)). by eapply first_key_index.
      * rewrite (first_key_unique _ _ _ Hf0 (first_key_index DS IS h j ka ta _ Hk)). by eapply first_key_index.
Qed.

(** The value at a position, in the whole list. *)
Lemma elems_set_leaf (t t' : tree) LA i l l' LB : leafs t = LA ++ (i, l) :: LB -> leafs t' = LA ++ (i, l') :: LB ->
  elems t = pairs LA ++ l ++ pairs LB /\ elems t' = pairs LA ++ l' ++ pairs LB.
Proof. unfold elems. intros -> ->. by rewrite !pairs_app. Qed.

Lemma sorted_same_keys {X} (es es' : list (K * X)) : es'.*1 = es.*1 -> sorted es -> sorted es'.
Proof.
  revert es'. induction es as [| e es IH]; intros [| e' es'] Hkeys Hs; [constructor | done | done |]. injection Hkeys as He Hkeys. change (es'.*1 = es.*1) in Hkeys.
  inv Hs as [| ? ? Hs' Hall]. constructor; [by apply IH |]. rewrite list.Forall_forall in *. intros x Hx.
  apply (list_elem_of_fmap_2 fst) in Hx. rewrite Hkeys in Hx. apply list_elem_of_fmap in Hx as (y & Hy & Hin).
  rewrite He, Hy. by apply Hall.
Qed.

(** What [replace_value] answers and makes of the pairs. *)
Definition replaced (key : K) (fun_ : V -> V) (es : list (K * V)) : bool * list (K * V) :=
  match found key es with
  | Some (k, v) => if data_size_check (fun_ v) then (true, <[lb_index key es := (k, fun_ v)]> es) else (false, es)
  | None => (false, es)
  end.

Lemma replace_value_ok s es fuel key fun_ : stores s es -> (size (heap s) <= fuel)%nat ->
  exists s', replace_value data_size_check fuel key fun_ s = Ret (fst (replaced key fun_ es), s') /\
    stores s' (snd (replaced key fun_ es)).
Proof.
  intros Hst Hfuel. unfold replace_value. destruct Hst as [Hheap Hchain Hbegin | h t Hh].
  { exists s. split; [| by apply stores_nothing]. assert (Hnone : find_data fuel key s = Ret (None, s)) by (unfold find_data; by run (unfold gets; by rewrite Hbegin)).
    by run exact Hnone. }
  pose proof (holds_height _ _ _ _ _ Hh) as Hheight. unfold replaced.
  destruct (find_data_ok DS IS s h t fuel key Hh ltac:(lia)) as (LA & i & l & LB & Hleaf & Hrun). unfold elems.
  destruct (leaf_lb _ _ _ _ _ _ _ Hleaf) as (Hlb & -> & _). pose proof Hleaf as [Hsplit Hlow Hhigh Hi].
  assert (Hsame : exists s', Ret (false, s) = Ret (false, s') /\ stores s' (elems t)) by (exists s; split; [done | by eapply stores_tree]).
  run exact Hrun. run (by apply run_data). unfold found. pose proof (lb_index_le key l) as Hle.
  destruct (l !! lb_index key l) as [[k v] |] eqn:Hp.
  2: { apply lookup_ge_None in Hp. by destruct (Nat.eqb_spec (lb_index key l) (length l)); [| lia]. }
  pose proof (lookup_lt_Some _ _ _ Hp). destruct (Nat.eqb_spec (lb_index key l) (length l)); [lia |]. run (by apply run_deref).
  destruct (keq k key) eqn:Hk; [| exact Hsame]. simpl negb. cbv iota.
  destruct (data_size_check (fun_ v)); [| exact Hsame]. simpl.
  set (l' := <[lb_index key l := (k, fun_ v)]> l).
  assert (Hkeys : l'.*1 = l.*1) by (unfold l'; rewrite list_fmap_insert; apply list_insert_id; by rewrite list_lookup_fmap, Hp).
  destruct (set_leaf h t LA i l l' LB (holds_wf _ _ _ _ _ Hh) Hsplit Hkeys) as (t' & R & Hroot & Hwf & Hls & Hb & Hb' & _).
  pose proof (holds_world _ _ _ Hh) as Hw. eapply w_perm in Hw; [| exact Hb].
  destruct (w_set _ _ _ (Data l') _ _ _ Hw I) as (s' & Hr & Hw'). exists s'. split; [by run exact Hr |].
  destruct (elems_set_leaf _ _ _ _ _ _ _ Hsplit Hls) as [He He']. fold (elems t).
  assert (Hnew : <[lb_index key (elems t) := (k, fun_ v)]> (elems t) = elems t').
  { unfold elems at 1. rewrite Hlb, He, He', insert_app_r, insert_app_l by done. done. }
  rewrite Hnew. apply (stores_tree _ h). apply world_holds; [| done |].
  - eapply w_perm; [| symmetry; exact Hb']. eapply w_chain; [by rewrite Hroot |]. rewrite Hsplit, Hls, !fmap_app. done.
  - eapply sorted_same_keys; [| apply (holds_sorted _ _ _ _ _ Hh)]. rewrite He, He', !fmap_app. by rewrite Hkeys.
Qed.

Lemma update_ok s es fuel key value : stores s es -> (size (heap s) <= fuel)%nat ->
  let r := if data_size_check value then replaced key (fun _ => value) es else (false, es) in
  exists s', update data_size_check fuel key value s = Ret (fst r, s') /\ stores s' (snd r).
Proof.
  intros Hst Hfuel. unfold update. destruct (data_size_check value); [by apply replace_value_ok |]. by exists s.
Qed.
End Insert.
