(* ===== verification/BPTreeErase.v ===== *)
(** * BPTreeErase: erasing a key from the tree

    A block that is short of pairs merges with the block before it, or takes pairs from it; the
    block above loses an entry or gets a new key for it.  A root with one child gives way to the
    child. *)

From stdpp Require Import gmap sorting.
From S2P Require Import Prelude Packed BPTree BPTreeSpec BPTreeWorld BPTreeInsert.
Local Open Scope Z_scope.
Import BPTree.
#[local] Existing Instance M_ret.
#[local] Existing Instance M_bind.

(** ** Merging and sharing *)

Lemma choose_cases z n m : 0 <= pair_size z -> 0 < n -> 0 <= m -> fits z n ->
  (0 < merge_keep_average z n m /\ fits z (n + m)) \/ (merge_keep_average z n m <= 0 /\ 0 < m).
Proof.
  unfold merge_keep_average, fits. intros Hp Hn Hm Hf. destruct (Z.leb_spec (n * pair_size z + m * pair_size z) (max_size z)); [left; lia |].
  right. split; [by destruct (_ <? _ / 2) |]. destruct (Z.eq_dec m 0); [subst; lia | lia].
Qed.

Lemma enough_nil z : fits z 0 -> enough z 0 = false.
Proof. unfold fits, enough. intros Hf. apply Z.ltb_ge. pose proof (Z.div_pos (max_size z) 2). lia. Qed.

Lemma average_bounds n m : 0 < n -> 0 < m ->
  0 < average_keeps n m < n + m /\ average_keeps n m <= Z.max n m /\ n + m - average_keeps n m <= Z.max n m.
Proof.
  unfold average_keeps. intros. pose proof (Z.div_mod (n + m) 2). pose proof (Z.mod_pos_bound (n + m) 2).
  destruct (Z.ltb_spec m n); lia.
Qed.

Section Lists.
Context {K : Type} `{KeyOrderLaws K}.

Definition without {X} (key : K) (es : list (K * X)) : list (K * X) := erase_at (lb_index key es) es.

Lemma erase_at_mid {X} (A B : list X) e : erase_at (length A) (A ++ e :: B) = A ++ B.
Proof.
  unfold erase_at. rewrite take_app_length, cons_middle, app_assoc. f_equal. apply drop_app_length'. rewrite length_app. simpl. lia.
Qed.

Lemma without_key_mid {X} key (A E B : list (K * X)) : all_below key A -> all_above key B -> found key E <> None ->
  without key (A ++ E ++ B) = A ++ without key E ++ B.
Proof.
  intros HA HB Hf. unfold without, erase_at. rewrite lb_mid by done. set (p := lb_index key E).
  assert (Hp : (S p <= length E)%nat).
  { unfold found in Hf. fold p in Hf. destruct (E !! p) eqn:He; [by apply lookup_lt_Some in He | done]. }
  rewrite take_app_add, take_app_le by lia. replace (S (length A + p)) with (length A + S p)%nat by lia.
  rewrite drop_app_add, drop_app_le by lia. by rewrite <- !app_assoc.
Qed.

Lemma found_above {X} key (es : list (K * X)) : all_above key es -> found key es = None.
Proof.
  intros Ha. unfold found. rewrite lb_stop by done. destruct es as [| [k x] es]; [done |]. simpl.
  by rewrite (keq_klt' key k) by (apply (Ha (k, x)); left).
Qed.

Lemma zlen_without {X} key (es : list (K * X)) : zlen (without key es) <= zlen es.
Proof. unfold without, erase_at, zlen. rewrite length_app, length_take, length_drop. lia. Qed.

Lemma without_sorted {X} key (es : list (K * X)) : sorted es -> sorted (without key es).
Proof.
  intros Hs. unfold without, erase_at. set (p := lb_index key es). rewrite <- (take_drop p es) in Hs.
  rewrite <- (take_drop 1 (drop p es)), drop_drop in Hs. apply sorted_app in Hs as (HA & HB & Hlt).
  apply sorted_app in HB as (_ & HB & _). replace (p + 1)%nat with (S p) in * by lia.
  apply sorted_app. split_and!; [done | done |]. intros x y Hx Hy. apply Hlt; [done |]. apply elem_of_app. by right.
Qed.
End Lists.

Lemma zlen_pos {X} (l : list X) : 0 < zlen l <-> l <> [].
Proof. unfold zlen. destruct l; simpl; split; try done; lia. Qed.

Section Erase.
Context {K V : Type} `{KeyOrderLaws K}.
Context (DS IS : sizes) (roomD : 0 <= pair_size DS) (roomI : 0 <= pair_size IS).
Abbreviation tree := (tree (K := K) (V := V)).
Abbreviation state := (tree_state (K := K) (V := V)).
Abbreviation wf := (wf (K := K) (V := V) DS IS).
Abbreviation kids := (kids (K := K) (V := V) DS IS).
Implicit Types (s : state) (t : tree) (F : list (Z * block (K := K) (V := V))) (CA CB : list Z).

(** The block before, or none. *)
Definition before_of (bs : list (K * tree)) : option Z := match bs with [] => None | (_, t) :: _ => Some (root t) end.

(** What an erasure below [t] leaves of the block before and of the block itself, whose pairs
    should be [es]. *)
Record shrinks h (bs : list (K * tree)) (i : Z) (es : list (K * V)) F CA CB r (o : option (Z * K)) s (bs' ts : list (K * tree)) : Prop := {
  shrinks_before : entries bs' = entries bs;
  shrinks_kids : kids h (bs' ++ ts);
  shrinks_entries : (exists k, o = Some (i, k) /\ entries ts = [(k, i)]) \/ (o = None /\ ts = []);
  shrinks_elems : elems_of bs' ++ elems_of ts = elems_of bs ++ es;
  shrinks_world : world s (blocks_in bs' ++ blocks_in ts ++ F) (CA ++ (leafs_of bs').*1 ++ (leafs_of ts).*1 ++ CB) r;
}.

(** The end of [data_block_erase]. *)
Definition data_rebalance (i : Z) (l : list (K * V)) (iter_before : option Z) : M (K := K) (V := V) (option (Z * K) * bool) :=
  if enough DS (zlen l) || bool_decide (iter_before = None) then
    if (length l =? 0)%nat then erase_block i;; mret (None, true)
    else k ← data_begin_key i; mret (Some (i, k), true)
  else
    before ← deref iter_before;
    lb ← data_entries before;
    let choose := merge_keep_average DS (zlen lb) (zlen l) in
    if 0 <? choose then
      data_merge before i;;
      erase_block i;;
      mret (None, true)
    else
      when (choose <? 0) (data_average before i);;
      k ← data_begin_key i;
      mret (Some (i, k), true).

(** The block is left as it is. *)
Lemma data_stays s h bs i k v l F CA CB r : h = O ->
  world s (blocks_in bs ++ (i, Data ((k, v) :: l)) :: F) (CA ++ (leafs_of bs).*1 ++ i :: CB) r ->
  kids h bs -> fits DS (zlen ((k, v) :: l)) ->
  data_begin_key i s = Ret (k, s) /\ shrinks h bs i ((k, v) :: l) F CA CB r (Some (i, k)) s bs [(k, TData i ((k, v) :: l))].
Proof.
  intros -> Hw Hk Hf. split.
  - eapply w_perm in Hw; [| symmetry; apply Permutation_middle]. eapply w_data_key. exact Hw.
  - split; [done | | | | exact Hw].
    + apply kids_app. split; [done |]. apply kids_cons. split; [| constructor]. split; [done |]. exists v, l. apply elems_data.
    + left. by exists k.
    + cbn [elems_of flat_map snd]. by rewrite elems_data, app_nil_r.
Qed.

Lemma data_merge_ok s ib lb i l R CA CB r : world s ((ib, Data lb) :: (i, Data l) :: R) (CA ++ ib :: i :: CB) r ->
  exists s1 s', data_merge ib i s = Ret (tt, s1) /\ erase_block i s1 = Ret (tt, s') /\
    world s' ((ib, Data (lb ++ l)) :: R) (CA ++ ib :: CB) r.
Proof.
  intros Hw. destruct (w_set _ _ _ (Data (lb ++ l)) _ _ _ Hw I) as (s1 & Hr1 & Hw1).
  pose proof Hw as Hw'. eapply w_perm in Hw'; [| apply Permutation_swap].
  eapply w_perm in Hw1; [| apply Permutation_swap]. destruct (w_set _ _ _ (Data []) _ _ _ Hw1 I) as (s2 & Hr2 & Hw2).
  eapply w_chain in Hw2; [| apply (cons_middle ib CA (i :: CB))]. rewrite app_assoc in Hw2.
  destruct (w_erase_data _ _ _ _ _ _ _ Hw2) as (s3 & Hr3 & Hw3). exists s2, s3. split; [| split; [exact Hr3 |]].
  - unfold data_merge. run (eapply w_data; exact Hw). run (eapply w_data; exact Hw'). run exact Hr1. exact Hr2.
  - by rewrite <- app_assoc in Hw3.
Qed.

Lemma data_share_ok (b : bool) s ib lb i l R C r : world s ((ib, Data lb) :: (i, Data l) :: R) C r -> 0 < zlen lb -> 0 < zlen l ->
  fits DS (zlen lb) -> fits DS (zlen l) ->
  exists s' lb' l', when b (data_average ib i) s = Ret (tt, s') /\ world s' ((ib, Data lb') :: (i, Data l') :: R) C r /\
    lb' ++ l' = lb ++ l /\ lb' <> [] /\ l' <> [] /\ fits DS (zlen lb') /\ fits DS (zlen l').
Proof.
  intros Hw Hb Hl Hfb Hfl. destruct b; [| exists s, lb, l; split_and!; try done; by apply zlen_pos].
  set (keep := Z.to_nat (average_keeps (zlen lb) (zlen l))).
  destruct (w_set _ _ _ (Data (take keep (lb ++ l))) _ _ _ Hw I) as (s1 & Hr1 & Hw1).
  pose proof Hw as Hw'. eapply w_perm in Hw'; [| apply Permutation_swap].
  eapply w_perm in Hw1; [| apply Permutation_swap]. destruct (w_set _ _ _ (Data (drop keep (lb ++ l))) _ _ _ Hw1 I) as (s2 & Hr2 & Hw2).
  eapply w_perm in Hw2; [| apply Permutation_swap]. pose proof (average_bounds _ _ Hb Hl) as (Hk & Hk1 & Hk2).
  destruct (cut_parts (average_keeps (zlen lb) (zlen l)) (lb ++ l)) as (HneA & HneB & HlenA & HlenB); [by rewrite zlen_app |].
  fold keep in HneA, HneB, HlenA, HlenB. rewrite zlen_app in HlenB.
  exists s2, (take keep (lb ++ l)), (drop keep (lb ++ l)). split_and!; try done.
  - unfold when, data_average. run (eapply w_data; exact Hw). run (eapply w_data; exact Hw'). run exact Hr1. exact Hr2.
  - apply take_drop.
  - rewrite HlenA. destruct (Z.max_spec (zlen lb) (zlen l)) as [[_ Hm] | [_ Hm]]; rewrite Hm in *; (eapply fits_less; [exact roomD | exact Hk1 | done]).
  - rewrite HlenB. destruct (Z.max_spec (zlen lb) (zlen l)) as [[_ Hm] | [_ Hm]]; rewrite Hm in *; (eapply fits_less; [exact roomD | exact Hk2 | done]).
Qed.

Lemma data_rebalance_ok s bs i l F CA CB r :
  world s (blocks_in bs ++ (i, Data l) :: F) (CA ++ (leafs_of bs).*1 ++ i :: CB) r ->
  kids 0 bs -> (length bs <= 1)%nat -> fits DS (zlen l) ->
  exists o s' bs' ts, data_rebalance i l (before_of bs) s = Ret ((o, true), s') /\ shrinks 0 bs i l F CA CB r o s' bs' ts.
Proof.
  intros Hw Hk Hb Hf. unfold data_rebalance.
  destruct (enough DS (zlen l) || bool_decide (before_of bs = None)) eqn:Henough.
  { destruct l as [| [k v] l].
    - simpl. assert (Hbs : bs = []).
      { destruct bs as [| [kb tb] bs]; [done |]. rewrite bool_decide_eq_false_2, orb_false_r in Henough by done. exfalso. exact (eq_true_false_abs _ Henough (enough_nil DS Hf)). }
      subst bs. destruct (w_erase_data _ _ _ _ _ _ _ Hw) as (s' & Hr & Hw'). exists None, s', [], [].
      split; [by run exact Hr |]. split; [done | constructor | by right | done | exact Hw'].
    - destruct (data_stays s 0 bs i k v l F CA CB r eq_refl Hw Hk Hf) as [Hr Hsh]. do 4 eexists. split; [| exact Hsh]. simpl. by run exact Hr. }
  apply orb_false_iff in Henough as [_ Hbs]. destruct bs as [| [kb tb] [|]]; [done | | simpl in Hb; lia]. clear Hb Hbs.
  apply kids_cons in Hk as [[Hwb Hfb] _]. destruct (wf_data _ _ _ Hwb) as (ib & lb & -> & Hneb & Hfitb).
  cbn [before_of root blocks_in leafs_of flat_map snd blocks leafs app fmap list_fmap fst] in *.
  pose proof (proj2 (zlen_pos lb) Hneb) as Hposb. pose proof (zlen_nonneg l) as Hpos.
  assert (Hget : data_entries ib s = Ret (lb, s)) by (eapply w_data; exact Hw).
  destruct (choose_cases DS _ _ roomD Hposb Hpos Hfitb) as [[Hchoose Hfit] | [Hchoose Hposl]].
  - destruct (data_merge_ok _ _ _ _ _ _ _ _ _ Hw) as (s1 & s' & Hr1 & Hr2 & Hw').
    exists None, s', [(kb, TData ib (lb ++ l))], []. split.
    + run done. run exact Hget. rewrite (proj2 (Z.ltb_lt _ _) Hchoose). run exact Hr1. by run exact Hr2.
    + split; [done | | by right | | exact Hw'].
      * assert (Hwf : wf 0 (TData ib (lb ++ l))) by (split; [by destruct lb | by rewrite zlen_app]).
        apply kids_cons. split; [split; [exact Hwf |] | constructor].
        eapply (first_key_same DS IS 0 _ _ _ l []); [exact Hfb | exact Hwf | by rewrite !elems_data, app_nil_r].
      * cbn [elems_of flat_map snd]. by rewrite !elems_data, !app_nil_r.
  - destruct (data_share_ok (merge_keep_average DS (zlen lb) (zlen l) <? 0) _ _ _ _ _ _ _ _ Hw Hposb Hposl Hfitb Hf)
      as (s' & lb' & l' & Hr & Hw' & Hsum & Hneb' & Hnel' & Hfitb' & Hfitl'). destruct l' as [| [k v] l']; [done |].
    assert (Hwf : wf 0 (TData ib lb')) by done.
    destruct (data_stays s' 0 [(kb, TData ib lb')] i k v l' F CA CB r eq_refl Hw') as [Hkey Hsh]; [| done |].
    { apply kids_cons. split; [split; [exact Hwf |] | constructor].
      eapply (first_key_same DS IS 0 _ _ _ l ((k, v) :: l')); [exact Hfb | exact Hwf | by rewrite !elems_data]. }
    do 4 eexists. split.
    + run done. run exact Hget. destruct (Z.ltb_spec 0 (merge_keep_average DS (zlen lb) (zlen l))); [lia |]. run exact Hr. by run exact Hkey.
    + destruct Hsh as [Hs1 Hs2 Hs3 Hs4 Hs5]. split; [exact Hs1 | exact Hs2 | exact Hs3 | | exact Hs5].
      rewrite Hs4. cbn [elems_of flat_map snd]. by rewrite !elems_data, !app_nil_r.
Qed.

(** The end of [index_block_erase]. *)
Definition index_rebalance (i : Z) (l : list (K * Z)) (iter_before : option Z) : M (K := K) (V := V) (option (Z * K) * bool) :=
  if enough IS (zlen l) || bool_decide (iter_before = None) then
    if (length l =? 0)%nat then erase_block i;; mret (None, true)
    else k ← index_begin_key i; mret (Some (i, k), true)
  else
    before ← deref iter_before;
    lb ← index_entries before;
    let choose := merge_keep_average IS (zlen lb) (zlen l) in
    if 0 <? choose then
      index_merge before i;;
      erase_block i;;
      mret (None, true)
    else
      when (choose <? 0) (index_average before i);;
      k ← index_begin_key i;
      mret (Some (i, k), true).

Lemma index_stays s h bs i k t cs F CA CB r :
  world s (blocks_in bs ++ (i, Index (entries ((k, t) :: cs))) :: blocks_in ((k, t) :: cs) ++ F)
    (CA ++ (leafs_of bs).*1 ++ (leafs_of ((k, t) :: cs)).*1 ++ CB) r ->
  kids (S h) bs -> kids h ((k, t) :: cs) -> fits IS (zlen ((k, t) :: cs)) ->
  index_begin_key i s = Ret (k, s) /\
  shrinks (S h) bs i (elems_of ((k, t) :: cs)) F CA CB r (Some (i, k)) s bs [(k, TIndex i ((k, t) :: cs))].
Proof.
  intros Hw Hk Hkc Hf. split.
  - eapply w_perm in Hw; [| symmetry; apply Permutation_middle]. eapply w_index_key. exact Hw.
  - split; [done | | | |].
    + apply kids_app. split; [done |]. apply kids_cons. split; [| constructor]. split; [done | by eapply first_key_index].
    + left. by exists k.
    + cbn [elems_of flat_map snd]. by rewrite elems_index, app_nil_r.
    + cbn [blocks_in leafs_of flat_map snd]. by rewrite blocks_index, leafs_index, !app_nil_r.
Qed.

Lemma index_merge_ok s ib lb i l R C r : world s ((ib, Index lb) :: (i, Index l) :: R) C r ->
  exists s1 s', index_merge ib i s = Ret (tt, s1) /\ erase_block i s1 = Ret (tt, s') /\ world s' ((ib, Index (lb ++ l)) :: R) C r.
Proof.
  intros Hw. destruct (w_set _ _ _ (Index (lb ++ l)) _ _ _ Hw I) as (s1 & Hr1 & Hw1).
  pose proof Hw as Hw'. eapply w_perm in Hw'; [| apply Permutation_swap].
  eapply w_perm in Hw1; [| apply Permutation_swap]. destruct (w_set _ _ _ (Index []) _ _ _ Hw1 I) as (s2 & Hr2 & Hw2).
  destruct (w_erase_index _ _ _ _ _ _ Hw2) as (s3 & Hr3 & Hw3). exists s2, s3. split; [| split; [exact Hr3 | exact Hw3]].
  unfold index_merge. run (eapply w_index; exact Hw). run (eapply w_index; exact Hw'). run exact Hr1. exact Hr2.
Qed.

Lemma index_share_ok (b : bool) s ib (csb : list (K * tree)) i (cs : list (K * tree)) R C r : world s ((ib, Index (entries csb)) :: (i, Index (entries cs)) :: R) C r ->
  0 < zlen csb -> 0 < zlen cs -> fits IS (zlen csb) -> fits IS (zlen cs) ->
  exists s' csb' cs', when b (index_average ib i) s = Ret (tt, s') /\
    world s' ((ib, Index (entries csb')) :: (i, Index (entries cs')) :: R) C r /\
    csb' ++ cs' = csb ++ cs /\ csb' <> [] /\ cs' <> [] /\ fits IS (zlen csb') /\ fits IS (zlen cs').
Proof.
  intros Hw Hb Hl Hfb Hfl. destruct b; [| exists s, csb, cs; split_and!; try done; by apply zlen_pos].
  set (keep := Z.to_nat (average_keeps (zlen csb) (zlen cs))).
  destruct (w_set _ _ _ (Index (entries (take keep (csb ++ cs)))) _ _ _ Hw I) as (s1 & Hr1 & Hw1).
  pose proof Hw as Hw'. eapply w_perm in Hw'; [| apply Permutation_swap].
  eapply w_perm in Hw1; [| apply Permutation_swap].
  destruct (w_set _ _ _ (Index (entries (drop keep (csb ++ cs)))) _ _ _ Hw1 I) as (s2 & Hr2 & Hw2).
  eapply w_perm in Hw2; [| apply Permutation_swap]. pose proof (average_bounds _ _ Hb Hl) as (Hk & Hk1 & Hk2).
  destruct (cut_parts (average_keeps (zlen csb) (zlen cs)) (csb ++ cs)) as (HneA & HneB & HlenA & HlenB); [by rewrite zlen_app |].
  fold keep in HneA, HneB, HlenA, HlenB. rewrite zlen_app in HlenB.
  exists s2, (take keep (csb ++ cs)), (drop keep (csb ++ cs)). split_and!; try done.
  - unfold when, index_average. run (eapply w_index; exact Hw). run (eapply w_index; exact Hw').
    rewrite !zlen_entries. fold keep. rewrite <- entries_app, entries_take, entries_drop. run exact Hr1. exact Hr2.
  - apply take_drop.
  - rewrite HlenA. destruct (Z.max_spec (zlen csb) (zlen cs)) as [[_ Hm] | [_ Hm]]; rewrite Hm in *; (eapply fits_less; [exact roomI | exact Hk1 | done]).
  - rewrite HlenB. destruct (Z.max_spec (zlen csb) (zlen cs)) as [[_ Hm] | [_ Hm]]; rewrite Hm in *; (eapply fits_less; [exact roomI | exact Hk2 | done]).
Qed.

Lemma index_rebalance_ok s h bs i cs F CA CB r :
  world s (blocks_in bs ++ (i, Index (entries cs)) :: blocks_in cs ++ F) (CA ++ (leafs_of bs).*1 ++ (leafs_of cs).*1 ++ CB) r ->
  kids (S h) bs -> (length bs <= 1)%nat -> kids h cs -> fits IS (zlen cs) ->
  exists o s' bs' ts, index_rebalance i (entries cs) (before_of bs) s = Ret ((o, true), s') /\
    shrinks (S h) bs i (elems_of cs) F CA CB r o s' bs' ts.
Proof.
  intros Hw Hk Hb Hkc Hf. unfold index_rebalance. rewrite zlen_entries, length_entries.
  destruct (enough IS (zlen cs) || bool_decide (before_of bs = None)) eqn:Henough.
  { destruct cs as [| [k t] cs].
    - simpl. assert (Hbs : bs = []).
      { destruct bs as [| [kb tb] bs]; [done |]. rewrite bool_decide_eq_false_2, orb_false_r in Henough by done. exfalso. exact (eq_true_false_abs _ Henough (enough_nil IS Hf)). }
      subst bs. destruct (w_erase_index _ _ _ _ _ _ Hw) as (s' & Hr & Hw'). exists None, s', [], [].
      split; [by run exact Hr |]. split; [done | constructor | by right | done | exact Hw'].
    - destruct (index_stays s h bs i k t cs F CA CB r Hw Hk Hkc Hf) as [Hr Hsh]. do 4 eexists. split; [| exact Hsh]. simpl. by run exact Hr. }
  apply orb_false_iff in Henough as [_ Hbs]. destruct bs as [| [kb tb] [|]]; [done | | simpl in Hb; lia]. clear Hb Hbs.
  apply kids_cons in Hk as [[Hwb Hfb] _]. destruct (wf_index _ _ _ _ Hwb) as (ib & csb & -> & Hneb & Hfitb & Hkb).
  cbn [before_of root blocks_in leafs_of flat_map snd] in *. rewrite blocks_index, leafs_index, !app_nil_r in Hw.
  pose proof (proj2 (zlen_pos csb) Hneb) as Hposb. pose proof (zlen_nonneg cs) as Hpos.
  assert (Hget : index_entries ib s = Ret (entries csb, s)) by (eapply w_index; exact Hw).
  assert (Hperm : (ib, Index (entries csb)) :: blocks_in csb ++ (i, Index (entries cs)) :: blocks_in cs ++ F ≡ₚ
    (ib, Index (entries csb)) :: (i, Index (entries cs)) :: blocks_in (csb ++ cs) ++ F) by (rewrite blocks_in_app; solve_Permutation).
  eapply w_perm in Hw; [| exact Hperm]. clear Hperm. eapply w_chain in Hw; [| by rewrite (app_assoc (leafs_of csb).*1), <- fmap_app, <- leafs_of_app].
  assert (Hkids : kids h (csb ++ cs)) by (by apply kids_app).
  destruct (choose_cases IS _ _ roomI Hposb Hpos Hfitb) as [[Hchoose Hfit] | [Hchoose Hposl]].
  - destruct (index_merge_ok _ _ _ _ _ _ _ _ Hw) as (s1 & s' & Hr1 & Hr2 & Hw').
    exists None, s', [(kb, TIndex ib (csb ++ cs))], []. split.
    + run done. run exact Hget. rewrite zlen_entries, (proj2 (Z.ltb_lt _ _) Hchoose). run exact Hr1. by run exact Hr2.
    + assert (Hwf : wf (S h) (TIndex ib (csb ++ cs))) by (split_and!; [by destruct csb | by rewrite zlen_app | done]).
      split; [done | | by right | |].
      * apply kids_cons. split; [split; [exact Hwf |] | constructor].
        eapply (first_key_same DS IS (S h) _ _ _ (elems_of cs) []); [exact Hfb | exact Hwf |]. by rewrite !elems_index, app_nil_r, elems_of_app.
      * cbn [elems_of flat_map snd]. by rewrite !elems_index, !app_nil_r, elems_of_app.
      * cbn [blocks_in leafs_of flat_map snd]. rewrite blocks_index, leafs_index, entries_app, !app_nil_r. exact Hw'.
  - destruct (index_share_ok (merge_keep_average IS (zlen csb) (zlen cs) <? 0) _ _ _ _ _ _ _ _ Hw Hposb Hposl Hfitb Hf)
      as (s' & csb' & cs' & Hr & Hw' & Hsum & Hneb' & Hnel' & Hfitb' & Hfitl'). rewrite <- Hsum in Hw', Hkids.
    apply kids_app in Hkids as [Hkb' Hkc']. destruct cs' as [| [k t] cs']; [done |].
    assert (Hwf : wf (S h) (TIndex ib csb')) by done. apply (f_equal elems_of) in Hsum. rewrite !elems_of_app in Hsum.
    destruct (index_stays s' h [(kb, TIndex ib csb')] i k t cs' F CA CB r) as [Hkey Hsh]; [| | exact Hkc' | exact Hfitl' |].
    { cbn [blocks_in leafs_of flat_map snd]. rewrite blocks_index, leafs_index, !app_nil_r.
      eapply w_perm; [eapply w_chain; [exact Hw' |] |]; [by rewrite leafs_of_app, fmap_app, <- app_assoc |].
      rewrite blocks_in_app. solve_Permutation. }
    { apply kids_cons. split; [split; [exact Hwf |] | constructor].
      eapply (first_key_same DS IS (S h) _ _ _ (elems_of cs) (elems_of ((k, t) :: cs'))); [exact Hfb | exact Hwf | by rewrite !elems_index]. }
    do 4 eexists. split.
    + run done. run exact Hget. rewrite zlen_entries. destruct (Z.ltb_spec 0 (merge_keep_average IS (zlen csb) (zlen cs))); [lia |]. run exact Hr. by run exact Hkey.
    + destruct Hsh as [Hs1 Hs2 Hs3 Hs4 Hs5]. split; [exact Hs1 | exact Hs2 | exact Hs3 | | exact Hs5].
      rewrite Hs4. cbn [elems_of flat_map snd]. by rewrite !elems_index, !app_nil_r.
Qed.

(** ** Going down *)

(** What an index block does with what the erasure below it says. *)
Definition after_erase (i : Z) (p : nat) (pk : K) (iter_before : option Z) (o : option (Z * K)) (state : bool) :
    M (K := K) (V := V) (option (Z * K) * bool) :=
  if state then
    match o with
    | Some (_, k) => when (negb (keq pk k)) (update_key i p k);; k ← index_begin_key i; mret (Some (i, k), true)
    | None => l ← index_entries i; set_block i (Index (erase_at p l));; index_rebalance i (erase_at p l) iter_before
    end
  else k ← index_begin_key i; mret (Some (i, k), false).

(** The child before the one that is taken. *)
Lemma split_before (A : list (K * tree)) k (t : tree) B : exists A0 bs, A = A0 ++ bs /\ (length bs <= 1)%nat /\
  (if (length A =? 0)%nat then None else snd <$> entries (A ++ (k, t) :: B) !! pred (length A)) = before_of bs.
Proof.
  destruct A as [| [kb tb] A _] using rev_ind; [exists [], []; split_and!; [done | simpl; lia | done] |].
  exists A, [(kb, tb)]. split_and!; [done | done |].
  rewrite length_app, Nat.add_comm, entries_app, entries_app. cbn [length Nat.add Nat.eqb pred].
  rewrite <- (length_entries A), <- app_assoc. simpl. by rewrite child_elem.
Qed.

Lemma erase_here key cs A k t B : child_at key cs A k t B ->
  lb_index key (entries cs) = length A \/
  lb_index key (entries cs) = S (length A) /\ forall k' c', entries cs !! S (length A) = Some (k', c') -> klt key k' = true.
Proof.
  intros [_ _ _ _ [Hsplit Hlow Hhigh Hlb]]. rewrite length_entries in Hlb.
  destruct Hlb as [[-> _] | [-> _]].
  - by left.
  - right. split; [done |]. intros k' c' Hk'. rewrite Hsplit, lookup_app_r in Hk' by (rewrite length_entries; lia).
    rewrite length_entries in Hk'. replace (S (length A) - length A)%nat with 1%nat in Hk' by lia.
    apply (Hhigh (k', c')). by eapply list_elem_of_lookup_2.
Qed.

Lemma erase_step s fuel i cs A k t B A0 bs key bf o st s1 :
  heap s !! i = Some (Index (entries cs)) -> child_at key cs A k t B -> klt key k = false ->
  (if (length A =? 0)%nat then None else snd <$> entries cs !! pred (length A)) = before_of bs -> A = A0 ++ bs ->
  erase_impl DS IS fuel key (before_of bs) (root t) s = Ret ((o, st), s1) ->
  erase_impl DS IS (S fuel) key bf i s = after_erase i (length A) k bf o st s1.
Proof.
  intros Hi Hc Hle Hbf HA Hrec. pose proof (child_lookup _ _ _ _ _ _ Hc) as Hat. pose proof (lookup_lt_Some _ _ _ Hat) as Hin.
  pose proof (erase_here _ _ _ _ _ _ Hc) as Hlb.
  cbn [erase_impl]. run (by eapply run_is_index). run (by eapply run_index). set (p := lb_index key (entries cs)) in *.
  assert (Hfirst : (if (p =? 0)%nat then '(k, _) ← deref (entries cs !! p); mret (klt key k) else mret false) s = Ret (false, s)).
  { destruct (Nat.eqb_spec p 0) as [Hz |]; [| done]. destruct Hlb as [Hp | [Hp _]]; [| lia]. rewrite Hp, Hat. run done. by rewrite Hle. }
  run exact Hfirst.
  assert (Hpos : (if (p =? length (entries cs))%nat then mret (pred p)
       else '(k, _) ← deref (entries cs !! p); mret (if klt key k then pred p else p)) s = Ret (length A, s)).
  { destruct Hlb as [Hp | [Hp Hnext]]; rewrite Hp.
    - destruct (Nat.eqb_spec (length A) (length (entries cs))); [lia |]. rewrite Hat. run done. by rewrite Hle.
    - destruct (Nat.eqb_spec (S (length A)) (length (entries cs))); [done |].
      destruct (lookup_lt_is_Some_2 (entries cs) (S (length A)) ltac:(lia)) as [[k' c'] Hk']. rewrite Hk'. run done.
      by rewrite (Hnext _ _ Hk'). }
  run exact Hpos. rewrite Hat. run done. rewrite Hbf. run exact Hrec. unfold after_erase. destruct st; [| done]. by destruct o as [[] |].
Qed.

Lemma erase_first s fuel h i cs A k t B key bf :
  heap s !! i = Some (Index (entries cs)) -> child_at key cs A k t B -> kids h cs -> klt key k = true ->
  exists k0, erase_impl DS IS (S fuel) key bf i s = Ret ((Some (i, k0), false), s).
Proof.
  intros Hi Hc Hk Hlt. destruct (first_in_block DS IS h key cs A k t B Hc Hk) as (k0 & c0 & R & Hfirst & Hlt0). exists k0. rewrite Hlt in Hlt0.
  cbn [erase_impl]. run (by eapply run_is_index). run (by eapply run_index).
  assert (Hlb : lb_index key (entries cs) = O) by (rewrite Hfirst; simpl; by rewrite (klt_asym _ _ Hlt0)).
  rewrite Hlb. cbn [Nat.eqb]. rewrite Hfirst. cbn [lookup list_lookup]. run done. rewrite Hlt0. unfold index_begin_key.
  run (run (by eapply run_index); rewrite Hfirst; by run (by apply run_deref)). done.
Qed.

Lemma index_key s i (cs : list (K * tree)) : heap s !! i = Some (Index (entries cs)) -> cs <> [] ->
  exists k, index_begin_key i s = Ret (k, s).
Proof.
  intros Hi Hne. destruct cs as [| [k t] cs]; [done |]. exists k. unfold index_begin_key. run (by eapply run_index). by run (by apply run_deref).
Qed.

(** A key that is not there: nothing is written. *)
Lemma erase_missing h : forall t s fuel key bf,
  wf h t -> mem s t -> sorted (elems t) -> (h < fuel)%nat -> found key (elems t) = None ->
  exists k, erase_impl DS IS fuel key bf (root t) s = Ret ((Some (root t, k), false), s).
Proof.
  induction h as [| h IH]; intros t s fuel key bf Hwf Hm Hs Hf Hfound; (destruct fuel as [| fuel]; [lia |]).
  - destruct (wf_data _ _ t Hwf) as (i & l & -> & Hne & _). apply mem_data in Hm. rewrite elems_data in Hfound.
    destruct l as [| [k v] l]; [done |]. exists k. cbn [erase_impl root]. run (by eapply run_is_data). unfold data_block_erase.
    run (by eapply run_data). run (apply run_found). rewrite Hfound. cbn [negb]. unfold data_begin_key.
    run (run (by eapply run_data); by run (by apply run_deref)). done.
  - destruct (wf_index _ _ _ _ Hwf) as (i & cs & -> & Hne & _ & Hk). rewrite elems_index in Hs, Hfound.
    destruct (locate_child DS IS _ key cs Hne Hk Hs) as (A & k & t & B & Hc & Hwt & _ & Hst). cbn [root].
    pose proof (mem_root _ _ _ Hm) as Hi. pose proof (child_split _ _ _ _ _ _ Hc) as Hcs.
    destruct (klt key k) eqn:Hlt; [by eapply erase_first |].
    assert (Hmt : mem s t) by (rewrite Hcs in Hm; by eapply mem_child).
    rewrite Hcs, elems_at, found_mid in Hfound by apply Hc.
    destruct (split_before A k t B) as (A0 & bs & HA & _ & Hbf). rewrite <- Hcs in Hbf.
    destruct (IH t s fuel key (before_of bs) Hwt Hmt Hst ltac:(lia) Hfound) as [kt Hrec].
    rewrite (erase_step _ _ _ _ _ _ _ _ _ _ _ _ _ _ _ Hi Hc Hlt Hbf HA Hrec). unfold after_erase.
    destruct (index_key s i cs Hi Hne) as [k0 Hkey]. exists k0. by run exact Hkey.
Qed.

Lemma data_erase_ok s bs i l key F CA CB r :
  world s (blocks_in bs ++ (i, Data l) :: F) (CA ++ (leafs_of bs).*1 ++ i :: CB) r ->
  kids 0 bs -> (length bs <= 1)%nat -> fits DS (zlen l) -> found key l <> None ->
  exists o s' bs' ts, data_block_erase DS key (before_of bs) i s = Ret ((o, true), s') /\ shrinks 0 bs i (without key l) F CA CB r o s' bs' ts.
Proof.
  intros Hw Hk Hb Hf Hfound. pose proof Hw as Hw0. eapply w_perm in Hw0; [| symmetry; apply Permutation_middle].
  destruct (w_set _ _ _ (Data (without key l)) _ _ _ Hw0 I) as (s1 & Hr1 & Hw1).
  eapply w_perm in Hw1; [| apply Permutation_middle].
  destruct (data_rebalance_ok s1 bs i (without key l) F CA CB r Hw1 Hk Hb) as (o & s' & bs' & ts & Hr2 & Hsh).
  { eapply fits_less; [exact roomD | apply zlen_without | exact Hf]. }
  exists o, s', bs', ts. split; [| exact Hsh]. unfold data_block_erase. run (eapply w_data; exact Hw0). run (apply run_found).
  destruct (found key l); [| done]. cbn [negb]. run exact Hr1. exact Hr2.
Qed.

(** The entry of the child is changed, or erased, and the block is balanced. *)
Lemma after_erase_ok s h i p k o (A ts B cs bs : list (K * tree)) F CA CB r it :
  let cs' := A ++ ts ++ B in
  world s (blocks_in bs ++ (i, Index (entries cs)) :: blocks_in cs' ++ F) (CA ++ (leafs_of bs).*1 ++ (leafs_of cs').*1 ++ CB) r ->
  kids (S h) bs -> (length bs <= 1)%nat -> kids h cs' -> fits IS (zlen cs) ->
  entries cs = entries A ++ (k, it) :: entries B -> p = length A ->
  (exists k', o = Some (it, k') /\ entries ts = [(k', it)]) \/ (o = None /\ ts = []) ->
  exists o' s' bs' ts', after_erase i p k (before_of bs) o true s = Ret ((o', true), s') /\
    shrinks (S h) bs i (elems_of cs') F CA CB r o' s' bs' ts'.
Proof.
  intros cs' Hw Hk Hb Hkc Hf Hcs -> Ho. apply (f_equal zlen) in Hcs as Hlen. rewrite zlen_entries, zlen_app, zlen_cons, !zlen_entries in Hlen.
  pose proof Hw as Hw0. eapply w_perm in Hw0; [| symmetry; apply Permutation_middle]. unfold after_erase.
  destruct Ho as [(k' & -> & Hts) | [-> ->]].
  - assert (Hstep : exists s1, when (negb (keq k k')) (update_key i (length A) k') s = Ret (tt, s1) /\
      world s1 ((i, Index (entries cs')) :: blocks_in bs ++ blocks_in cs' ++ F) (CA ++ (leafs_of bs).*1 ++ (leafs_of cs').*1 ++ CB) r).
    { assert (Hcs' : entries cs' = entries A ++ (k', it) :: entries B) by (unfold cs'; by rewrite !entries_app, Hts).
      destruct (keq k k') eqn:Heq; [apply keq_eq in Heq as ->; exists s; split; [done |]; by rewrite Hcs', <- Hcs |].
      destruct (w_update_key _ _ (length A) k it k' _ _ _ _ Hw0) as (s1 & Hr1 & Hw1); [rewrite Hcs, <- (length_entries A); apply child_elem |].
      exists s1. split; [exact Hr1 |]. rewrite Hcs, <- (length_entries A), insert_app_r_alt, Nat.sub_diag in Hw1 by lia. by rewrite Hcs'. }
    destruct Hstep as (s1 & Hr1 & Hw1). eapply w_perm in Hw1; [| apply Permutation_middle]. run exact Hr1.
    destruct ts as [| [k1 t1] [|]]; [done | | done]. clear Hts.
    assert (Hfit : fits IS (zlen cs')) by (unfold cs'; unfold fits in *; rewrite !zlen_app, zlen_cons, zlen_nil in *; by replace (zlen A + (1 + 0 + zlen B)) with (zlen cs) by lia).
    destruct cs' as [| [k0 t0] cs0] eqn:Ecs; [by destruct A |].
    destruct (index_stays s1 h bs i k0 t0 cs0 F CA CB r Hw1 Hk Hkc Hfit) as [Hkey Hsh].
    do 4 eexists. split; [by run exact Hkey | exact Hsh].
  - assert (Her : erase_at (length A) (entries cs) = entries cs').
    { unfold cs'. by rewrite Hcs, <- (length_entries A), erase_at_mid, entries_app. }
    destruct (w_set _ _ _ (Index (entries cs')) _ _ _ Hw0 I) as (s1 & Hr1 & Hw1). eapply w_perm in Hw1; [| apply Permutation_middle].
    destruct (index_rebalance_ok s1 h bs i cs' F CA CB r Hw1 Hk Hb Hkc) as (o & s' & bs' & ts & Hr2 & Hsh).
    { eapply fits_less; [exact roomI | | exact Hf]. unfold cs'. rewrite zlen_app, zlen_app, zlen_nil. lia. }
    exists o, s', bs', ts. split; [| exact Hsh]. run (eapply w_index; exact Hw0). rewrite Her. run exact Hr1. exact Hr2.
Qed.

Lemma erase_found h : forall t bs s fuel key F CA CB r,
  wf h t -> kids h bs -> (length bs <= 1)%nat -> sorted (elems t) -> (h < fuel)%nat -> found key (elems t) <> None ->
  world s (blocks_in bs ++ blocks t ++ F) (CA ++ (leafs_of bs).*1 ++ (leafs t).*1 ++ CB) r ->
  exists o s' bs' ts, erase_impl DS IS fuel key (before_of bs) (root t) s = Ret ((o, true), s') /\
    shrinks h bs (root t) (without key (elems t)) F CA CB r o s' bs' ts.
Proof.
  induction h as [| h IH]; intros t bs s fuel key F CA CB r Hwf Hkb Hb Hs Hf Hfound Hw; (destruct fuel as [| fuel]; [lia |]).
  { destruct (wf_data _ _ t Hwf) as (i & l & -> & Hl & Hfits). rewrite elems_data in *. cbn [root]. cbn [erase_impl].
    run (eapply run_is_data, w_read; [exact Hw | apply elem_of_app; right; left]). by apply data_erase_ok. }
  destruct (wf_index _ _ _ _ Hwf) as (i & cs & -> & Hne & Hfits & Hk). rewrite elems_index in *.
  destruct (locate_child DS IS _ key cs Hne Hk Hs) as (A & k & t & B & Hc & Hwt & Hft & Hst).
  assert (Hi : heap s !! i = Some (Index (entries cs))) by (eapply w_read; [exact Hw | apply elem_of_app; right; left]).
  pose proof (child_split _ _ _ _ _ _ Hc) as Hcs. pose proof (child_low _ _ _ _ _ _ Hc) as HlowA. pose proof (child_high _ _ _ _ _ _ Hc) as HhighB.
  pose proof Hfound as Hfoundt. rewrite Hcs, elems_at, found_mid in Hfoundt by done.
  assert (Hle : klt key k = false).
  { destruct (klt key k) eqn:Hlt; [| done]. exfalso. apply Hfoundt, found_above.
    destruct (Hft) as (v & es & He). rewrite He in *. by apply sorted_above. }
  destruct (split_before A k t B) as (A0 & bsA & HA & HbA & Hbf). rewrite <- Hcs in Hbf. cbn [root].
  assert (HkA : kids h A0 /\ kids h bsA /\ kids h B) by (subst; by apply kids_app in Hk as [[? ?]%kids_app [? ?]%kids_cons]).
  destruct HkA as (HkA0 & HkbA & HkB).
  destruct (IH t bsA s fuel key (blocks_in bs ++ (i, Index (entries cs)) :: blocks_in A0 ++ blocks_in B ++ F)
    (CA ++ (leafs_of bs).*1 ++ (leafs_of A0).*1) ((leafs_of B).*1 ++ CB) r Hwt HkbA HbA Hst ltac:(lia) Hfoundt)
    as (o & s1 & bsA' & tsA & Hrec & [Hentries Hkids Ho Helems Hw1]).
  { eapply w_perm; [eapply w_chain; [exact Hw |] |].
    - subst. rewrite leafs_index, !leafs_of_app. cbn [leafs_of flat_map snd]. rewrite !fmap_app. by rewrite <- !app_assoc.
    - rewrite blocks_index. subst. rewrite !blocks_in_app. cbn [blocks_in flat_map snd]. solve_Permutation. }
  rewrite (erase_step _ _ _ _ _ _ _ _ _ _ _ _ _ _ _ Hi Hc Hle Hbf HA Hrec).
  assert (Helems' : elems_of ((A0 ++ bsA') ++ tsA ++ B) = without key (elems_of cs)).
  { rewrite Hcs, elems_at, without_key_mid by done. rewrite !elems_of_app, <- app_assoc, (app_assoc (elems_of bsA')), Helems, HA, elems_of_app.
    by rewrite <- !app_assoc. }
  rewrite <- Helems'. apply (after_erase_ok s1 h i _ k o _ _ _ cs) with (it := root t); try done.
  - eapply w_perm; [eapply w_chain; [exact Hw1 |] |].
    + rewrite !leafs_of_app, !fmap_app. by rewrite <- !app_assoc.
    + rewrite !blocks_in_app. solve_Permutation.
  - apply kids_app in Hkids as [Hk1 Hk2]. rewrite !kids_app. done.
  - by rewrite entries_app, Hentries, <- entries_app, Hcs, HA, entries_app.
  - apply (f_equal length) in Hentries. rewrite !length_entries in Hentries. rewrite HA, !length_app. lia.
Qed.

(** ** The whole tree *)

(** The end of [erase]. *)
Definition lower_root (o : option (Z * K)) (state : bool) : M (K := K) (V := V) bool :=
  match o with
  | None => set_begin_block None;; mret state
  | Some (i, _) =>
      d ← is_data_block i;
      if negb d && state then
        l ← index_entries i;
        if (length l =? 1)%nat then
          '(_, c) ← deref (head l);
          set_begin_block (Some c);;
          erase_block i;;
          mret state
        else mret state
      else mret state
  end.

Abbreviation stores := (stores (K := K) (V := V) DS IS).

Lemma world_stores s h t es : world s (blocks t) (leafs t).*1 (Some (root t)) -> wf h t -> elems t = es -> sorted es -> stores s es.
Proof. intros Hw Hwf <- Hs. apply (stores_tree _ _ _ h). by apply world_holds. Qed.

Lemma lower_root_ok s h t k es : world s (blocks t) (leafs t).*1 (Some (root t)) -> wf h t -> elems t = es -> sorted es ->
  exists s', lower_root (Some (root t, k)) true s = Ret (true, s') /\ stores s' es.
Proof.
  intros Hw Hwf He Hs. destruct h as [| h].
  - destruct (wf_data _ _ t Hwf) as (i & l & -> & _). exists s. split; [| by eapply world_stores].
    cbn [lower_root root]. by run (eapply run_is_data, w_get; exact Hw).
  - destruct (wf_index _ _ _ _ Hwf) as (i & cs & -> & Hne & _ & Hk). rewrite blocks_index, leafs_index in Hw.
    cbn [lower_root root]. pose proof (w_get _ _ _ _ _ _ Hw) as Hi.
    destruct cs as [| [k0 t] [| c cs]]; [done | | exists s; split].
    + cbn [blocks_in leafs_of flat_map snd root] in Hw. rewrite !app_nil_r in Hw.
      destruct (w_set_root _ _ _ _ (Some (root t)) Hw) as (s1 & Hr1 & Hw1).
      destruct (w_erase_index _ _ _ _ _ _ Hw1) as (s2 & Hr2 & Hw2).
      exists s2. apply kids_cons in Hk as [[Hwt _] _]. split.
      * run (by eapply run_is_index). cbn [negb andb]. run (by eapply run_index). cbn [entries fmap list_fmap length Nat.eqb]. run done. run exact Hr1. by run exact Hr2.
      * eapply world_stores; [exact Hw2 | exact Hwt | | done]. rewrite <- He, elems_index. cbn [elems_of flat_map snd]. by rewrite app_nil_r.
    + run (by eapply run_is_index). cbn [negb andb]. by run (by eapply run_index).
    + eapply (world_stores _ (S h)); [| exact Hwf | done | done]. done.
Qed.

Lemma tree_erase_ok s es fuel key : stores s es -> (size (heap s) <= fuel)%nat ->
  let there := match found key es with None => false | Some _ => true end in
  exists s', erase DS IS fuel key s = Ret (there, s') /\ stores s' (if there then without key es else es).
Proof.
  intros Hst Hfuel. unfold erase. destruct Hst as [Hheap Hchain Hbegin | h t Hh].
  { exists s. split; [by run (unfold gets; by rewrite Hbegin) | by apply stores_nothing]. }
  pose proof (holds_height _ _ _ _ _ Hh) as Hheight. pose proof (holds_wf _ _ _ _ _ Hh) as Hwf. pose proof (holds_sorted _ _ _ _ _ Hh) as Hs.
  assert (Hbegin : gets begin_block s = Ret (Some (root t), s)) by (unfold gets; by rewrite (holds_root _ _ _ _ _ Hh)).
  destruct (found key (elems t)) as [e |] eqn:Hfound.
  - destruct (erase_found h t [] s fuel key [] [] [] (Some (root t)) Hwf) as (o & s1 & bs' & ts & Hr1 & [Hbs Hk Ho Helems Hw]);
      [constructor | simpl; lia | done | lia | by rewrite Hfound | simpl; rewrite !app_nil_r; exact (holds_world _ _ _ _ _ Hh) |].
    destruct bs'; [| done]. simpl in *. rewrite !app_nil_r in Hw. destruct Ho as [(k & -> & Hts) | [-> ->]].
    + destruct ts as [| [k' t'] [|]]; [done | | done]. injection Hts as -> Hroot. simpl in *. rewrite !app_nil_r in *.
      apply kids_cons in Hk as [[Hwf' _] _]. rewrite <- Hroot in Hw.
      destruct (lower_root_ok s1 h t' k _ Hw Hwf' Helems (without_sorted _ _ Hs)) as (s' & Hr2 & Hst).
      exists s'. split; [| exact Hst]. run exact Hbegin. run exact Hr1. rewrite Hroot in Hr2. exact Hr2.
    + destruct (w_set_root _ _ _ _ None Hw) as (s' & Hr2 & [Hheap _ Hchain _ _ Hb]). exists s'. split.
      * run exact Hbegin. run exact Hr1. by run exact Hr2.
      * simpl in Helems. rewrite <- Helems. by apply stores_nothing.
  - destruct (erase_missing h t s fuel key None Hwf (holds_mem _ _ _ _ _ Hh) Hs ltac:(lia) Hfound) as [k Hr1].
    exists s. split; [| by eapply stores_tree]. run exact Hbegin. run exact Hr1.
    destruct (root_key DS IS h s t _ _ _ Hwf (holds_world _ _ _ _ _ Hh) (fun b H => H)) as (k0 & d & _ & Hd & _).
    run exact Hd. by rewrite andb_false_r.
Qed.
End Erase.
