(* ===== verification/BPTreeRange.v ===== *)
(** * BPTreeRange: erasing a range of keys

    A range inside one leaf is erased as it should be.  Across leaves the sharing of pairs can
    bring keys from before the range into the right block, which [index_block_erase] then takes
    for a block inside the range: a small tree shows pairs outside the range that are lost. *)

From stdpp Require Import gmap sorting.
From S2P Require Import Prelude Packed BPTree BPTreeSpec BPTreeWorld BPTreeInsert BPTreeErase.
Local Open Scope Z_scope.
Import BPTree.
#[local] Existing Instance M_ret.
#[local] Existing Instance M_bind.

Section Lists.
Context {K : Type} `{KeyOrderLaws K}.

(** The pairs without those from [first] on and before [stop]. *)
Definition outside {X} (first stop : K) (es : list (K * X)) : list (K * X) :=
  erase_between (lb_index first es) (lb_index stop es) es.

Lemma outside_mid {X} first stop (A E B : list (K * X)) :
  all_below first A -> all_below stop A -> all_above first B -> all_above stop B ->
  outside first stop (A ++ E ++ B) = A ++ outside first stop E ++ B.
Proof.
  intros H1 H2 H3 H4. unfold outside, erase_between. rewrite !lb_mid by done. pose proof (lb_index_le first E). pose proof (lb_index_le stop E).
  rewrite take_app_add, drop_app_add, take_app_le, drop_app_le by done. by rewrite <- !app_assoc.
Qed.

Lemma zlen_outside {X} first stop (es : list (K * X)) : (lb_index first es <= lb_index stop es)%nat -> zlen (outside first stop es) <= zlen es.
Proof. intros. unfold outside, erase_between, zlen. rewrite length_app, length_take, length_drop. lia. Qed.

Lemma lb_mono {X} first stop (es : list (K * X)) : sorted es -> klt stop first = false -> (lb_index first es <= lb_index stop es)%nat.
Proof.
  intros Hs Hle. destruct (decide (lb_index first es <= lb_index stop es)%nat) as [| Hgt]; [done |].
  pose proof (lb_index_le first es). destruct (lookup_lt_is_Some_2 es (lb_index stop es) ltac:(lia)) as [[k x] Hk].
  destruct (klt k stop) eqn:Hks; [pose proof (lb_before _ _ _ _ Hs Hk Hks); lia |].
  assert (Hkf : klt k first = false).
  { destruct (klt k first) eqn:E; [| done]. by rewrite (klt_le_trans k first stop E Hle) in Hks. }
  pose proof (lb_not_before _ _ _ _ Hk Hkf). lia.
Qed.

(** Every pair is in the range or is kept. *)
Lemma outside_spec {X} first stop (es : list (K * X)) : sorted es -> klt stop first = false ->
  forall e, e ∈ outside first stop es <-> e ∈ es /\ (klt e.1 first = true \/ klt e.1 stop = false).
Proof.
  intros Hs Hle e. unfold outside, erase_between. pose proof (lb_mono _ _ _ Hs Hle) as Hlb. rewrite elem_of_app. split.
  - intros [He | He].
    + split; [by apply elem_of_take in He as (? & ? & _); eapply list_elem_of_lookup_2 |]. left. by eapply lb_prefix.
    + apply list_elem_of_lookup_1 in He as [m Hm]. rewrite lookup_drop in Hm. split; [by eapply list_elem_of_lookup_2 |]. right.
      destruct (klt e.1 stop) eqn:E; [| done]. pose proof (lb_before _ _ _ _ Hs Hm E). lia.
  - intros [[m Hm]%list_elem_of_lookup_1 Ho]. destruct Ho as [Ho | Ho].
    + left. apply elem_of_take. exists m. split; [done |]. by eapply lb_before.
    + right. pose proof (lb_not_before _ _ _ _ Hm Ho). apply (list_elem_of_lookup_2 _ (m - lb_index stop es)). rewrite lookup_drop. by rewrite Nat.add_sub_assoc, Nat.add_comm, Nat.add_sub by done.
Qed.

Lemma outside_sorted {X} first stop (es : list (K * X)) : sorted es -> klt stop first = false -> sorted (outside first stop es).
Proof.
  intros Hs Hle. pose proof (lb_mono _ _ _ Hs Hle) as Hlb. unfold outside, erase_between.
  set (p := lb_index first es) in *. set (q := lb_index stop es) in *.
  rewrite <- (take_drop p es) in Hs. rewrite <- (take_drop (q - p) (drop p es)), drop_drop in Hs.
  apply sorted_app in Hs as (HA & HB & Hlt). apply sorted_app in HB as (_ & HB & _). replace (p + (q - p))%nat with q in * by lia.
  apply sorted_app. split_and!; [done | done |]. intros x y Hx Hy. apply Hlt; [done |]. apply elem_of_app. by right.
Qed.
End Lists.

Section Range.
Context {K V : Type} `{KeyOrderLaws K}.
Context (DS IS : sizes) (roomD : 0 <= pair_size DS) (roomI : 0 <= pair_size IS).
Abbreviation tree := (tree (K := K) (V := V)).
Abbreviation state := (tree_state (K := K) (V := V)).
Abbreviation wf := (wf (K := K) (V := V) DS IS).
Abbreviation kids := (kids (K := K) (V := V) DS IS).
Abbreviation shrinks := (shrinks (K := K) (V := V) DS IS).
Implicit Types (s : state) (t : tree) (F : list (Z * block (K := K) (V := V))) (CA CB : list Z).

(** The range begins in the leaf [i] and ends before the next one. *)
Record one_leaf (first stop : K) (ls LA : list (Z * list (K * V))) (i : Z) (l : list (K * V)) (LB : list (Z * list (K * V))) : Prop := {
  one_split : ls = LA ++ (i, l) :: LB;
  one_first : LA = [] \/ exists k v l', l = (k, v) :: l' /\ klt first k = false;
  one_stop : all_above stop (pairs LB);
}.

(** Whether there is a pair in the range. *)
Definition in_range (first stop : K) (es : list (K * V)) : bool := negb (lb_index first es =? lb_index stop es)%nat.

Lemma data_range_ok s i l first stop F CA CB r :
  world s ((i, Data l) :: F) (CA ++ i :: CB) r -> l <> [] -> fits DS (zlen l) -> sorted l -> klt stop first = false ->
  exists o s' ts, data_range_erase DS first stop i i s = Ret ((o, o, in_range first stop l), s') /\
    shrinks 0 [] i (outside first stop l) F CA CB r o s' [] ts.
Proof.
  intros Hw Hne Hf Hs Hle. unfold data_range_erase. rewrite Z.eqb_refl.
  assert (Hout : (if (lb_index first l =? lb_index stop l)%nat then l else erase_between (lb_index first l) (lb_index stop l) l) = outside first stop l).
  { destruct (Nat.eqb_spec (lb_index first l) (lb_index stop l)) as [Heq |]; [| done]. unfold outside, erase_between. rewrite Heq. by rewrite take_drop. }
  assert (Hfit : fits DS (zlen (outside first stop l))) by (eapply fits_less; [exact roomD | apply zlen_outside; by apply lb_mono | exact Hf]).
  destruct (w_set _ _ _ (Data (outside first stop l)) _ _ _ Hw I) as (s1 & Hr1 & Hw1).
  destruct (outside first stop l) as [| [k v] l'].
  - destruct (w_erase_data _ _ _ _ _ _ _ Hw1) as (s2 & Hr2 & Hw2). exists None, s2, []. split.
    + run (eapply w_data; exact Hw). rewrite Hout. run exact Hr1. cbn [length Nat.eqb]. by run exact Hr2.
    + split; [done | constructor | by right | done | exact Hw2].
  - destruct (data_stays DS IS s1 0 [] i k v l' F CA CB r eq_refl Hw1 ltac:(constructor) Hfit) as [Hkey Hsh].
    do 3 eexists. split; [| exact Hsh]. run (eapply w_data; exact Hw). rewrite Hout. run exact Hr1. cbn [length Nat.eqb]. by run exact Hkey.
Qed.

(** ** Going down *)

Lemma leafs_of_elems (cs : list (K * tree)) j l e : (j, l) ∈ leafs_of cs -> e ∈ l -> e ∈ elems_of cs.
Proof.
  intros Hj He. rewrite <- pairs_leafs. unfold pairs. apply list_elem_of_join. exists l. split; [done |].
  apply list_elem_of_fmap. by exists (j, l).
Qed.

(** The leaf of the range is below the child where the search for [first] goes. *)
Lemma one_leaf_child h first stop cs A k t B LA i l LB :
  child_at first cs A k t B -> kids h cs -> klt stop first = false -> one_leaf first stop (leafs_of cs) LA i l LB ->
  (exists LA' LB', one_leaf first stop (leafs t) LA' i l LB') /\ all_above stop (elems_of B).
Proof.
  intros Hc Hk Hle [Hsplit Hfirst Hstop]. destruct Hc as [Hcs HA HB Hkey _].
  destruct (leafs_of_split _ _ _ _ _ Hsplit) as (A' & k' & t' & B' & LA' & LB' & Hcs' & Hl & -> & ->).
  rewrite pairs_app, pairs_leafs in Hstop. rewrite Hcs in Hk, Hcs'. apply kids_app in Hk as [HkA Hk].
  apply kids_cons in Hk as [[Hwt Hft] HkB]. destruct (first_key_in _ _ Hft) as [v Hv].
  apply app_eq_app in Hcs' as (m & [[-> Hm] | [-> Hm]]).
  - destruct m as [| c m].
    + simpl in Hm. injection Hm as -> -> ->. split; [| intros x Hx; apply Hstop, elem_of_app; by right].
      exists LA', LB'. split; [exact Hl | | intros x Hx; apply Hstop, elem_of_app; by left].
      destruct Hfirst as [[_ ->]%app_nil | Hfirst]; [by left | by right].
    + exfalso. injection Hm as <- ->. assert (Hab : klt stop k = true).
      { apply (Hstop (k, v)), elem_of_app. right. rewrite elems_at. rewrite !elem_of_app. auto. }
      destruct Hkey as [Hnil | Hk]; [by destruct A' |]. by rewrite (klt_from_le first stop k Hle Hab) in Hk.
  - destruct m as [| c m].
    + simpl in Hm. injection Hm as -> -> ->. rewrite app_nil_r in *. split; [| intros x Hx; apply Hstop, elem_of_app; by right].
      exists LA', LB'. split; [exact Hl | | intros x Hx; apply Hstop, elem_of_app; by left].
      destruct Hfirst as [[_ ->]%app_nil | Hfirst]; [by left | by right].
    + exfalso. injection Hm as <- ->. destruct Hfirst as [Hnil | (k1 & v1 & l' & -> & Hk1)].
      * rewrite leafs_of_app in Hnil. apply app_nil in Hnil as [Hnil _]. apply app_nil in Hnil as [_ Hnil].
        apply (wf_elems DS IS h t Hwt). simpl in Hnil. apply app_nil in Hnil as [Hnil _]. unfold elems. by rewrite Hnil.
      * specialize (HB (k1, v1)). simpl in HB. rewrite HB in Hk1; [done |]. apply leafs_of_elems with (j := i) (l := (k1, v1) :: l'); [| left].
        rewrite leafs_of_app. apply elem_of_app. right. simpl. rewrite Hl. apply elem_of_app. left. apply elem_of_app. right. left.
Qed.

Lemma entry_key h (cs : list (K * tree)) e : kids h cs -> e ∈ entries cs -> exists v, (e.1, v) ∈ elems_of cs.
Proof.
  intros Hk ([k t] & -> & Hc)%list_elem_of_fmap. unfold kids, BPTreeSpec.kids in Hk. rewrite list.Forall_forall in Hk.
  destruct (Hk _ Hc) as [_ Hf]. destruct (first_key_in _ _ Hf) as [v Hv]. exists v.
  unfold elems_of. rewrite list_elem_of_In, in_flat_map. exists (k, t). by rewrite <- !list_elem_of_In.
Qed.

Lemma range_step_ok s key cs A k t B : child_at key cs A k t B ->
  range_step key (entries cs) (lb_index key (entries cs)) s = Ret (length A, s).
Proof.
  intros Hc. pose proof (child_lookup _ _ _ _ _ _ Hc) as Hat. pose proof (lookup_lt_Some _ _ _ Hat) as Hin.
  destruct Hc as [_ _ _ Hkey [Hsplit _ Hhigh Hlb]]. cbn [fst] in *. rewrite length_entries in Hlb. unfold range_step.
  destruct Hlb as [[-> Hk] | [-> _]].
  - destruct (Nat.eqb_spec (length A) (length (entries cs))) as [|]; [lia |].
    destruct (Nat.eqb_spec (length A) 0) as [Hz |]; [by run done |]. rewrite Hat.
    destruct Hk as [Hlt | ->]; [destruct Hkey as [-> | Hk]; [done | congruence] |].
    run (run (by apply run_deref); rewrite keq_refl; done). done.
  - destruct (Nat.eqb_spec (S (length A)) (length (entries cs))) as [|]; [by run done |]. cbn [Nat.eqb].
    destruct (lookup_lt_is_Some_2 (entries cs) (S (length A)) ltac:(lia)) as [[k' c'] Hk']. rewrite Hk'.
    rewrite Hsplit, <- (length_entries A), cons_middle, app_assoc in Hk'.
    replace (S (length (entries A))) with (length (entries A ++ [(k, root t)]) + 0)%nat in Hk' by (rewrite length_app; simpl; lia).
    rewrite lookup_app_r in Hk' by lia. apply list_elem_of_lookup_2, Hhigh in Hk'. simpl in Hk'.
    run (run (by apply run_deref); rewrite (keq_klt' _ _ Hk'); done). done.
Qed.

(** The right end is in the same child. *)
Lemma range_stop_ok s h first stop cs A k t B : child_at first cs A k t B -> kids h cs -> klt stop first = false ->
  all_above stop (elems_of B) ->
  (if (length A =? lb_index stop (entries cs))%nat then mret (lb_index stop (entries cs)) else
   if (lb_index stop (entries cs) =? length (entries cs))%nat then mret (pred (lb_index stop (entries cs))) else
   '(k, _) ← deref (entries cs !! lb_index stop (entries cs));
   mret (if keq k stop then lb_index stop (entries cs) else pred (lb_index stop (entries cs)))) s = Ret (length A, s).
Proof.
  intros [-> HA _ _ _] Hk Hle HB. apply kids_app in Hk as [HkA Hk]. apply kids_cons in Hk as [_ HkB].
  assert (HlowA : all_below stop (entries A)).
  { intros e He. destruct (entry_key _ _ _ HkA He) as [v Hv]. eapply klt_le_trans; [by apply (HA _ Hv) | exact Hle]. }
  assert (HhighB : all_above stop (entries B)).
  { intros e He. destruct (entry_key _ _ _ HkB He) as [v Hv]. by apply (HB _ Hv). }
  rewrite entries_app. change (entries ((k, t) :: B)) with ([(k, root t)] ++ entries B).
  rewrite (lb_mid stop _ [(k, root t)] _ HlowA HhighB), length_entries. simpl (lb_index stop [_]). cbn [fst].
  destruct (klt k stop).
  - destruct (Nat.eqb_spec (length A) (length A + 1)); [lia |].
    destruct (Nat.eqb_spec (length A + 1) (length (entries A ++ [(k, root t)] ++ entries B))) as [| Hne]; [by replace (pred (length A + 1)) with (length A) by lia |].
    rewrite lookup_app_r by (rewrite length_entries; lia). rewrite length_entries. replace (length A + 1 - length A)%nat with 1%nat by lia.
    rewrite length_app, length_entries in Hne. destruct (entries B) as [| [k' c'] R]; [simpl in Hne; lia |]. simpl.
    specialize (HhighB (k', c') ltac:(left)). simpl in HhighB. run done. rewrite (keq_klt' _ _ HhighB).
    by replace (pred (length A + 1)) with (length A) by lia.
  - rewrite Nat.add_0_r, Nat.eqb_refl. done.
Qed.

Lemma child_done_ok s i p k o it (A ts B cs : list (K * tree)) R C r :
  world s ((i, Index (entries cs)) :: R) C r -> entries cs = entries A ++ (k, it) :: entries B -> p = length A ->
  (exists k', o = Some (it, k') /\ entries ts = [(k', it)]) \/ (o = None /\ ts = []) ->
  exists s', child_done i p o s = Ret (tt, s') /\ world s' ((i, Index (entries (A ++ ts ++ B))) :: R) C r.
Proof.
  intros Hw Hcs -> Ho. unfold child_done. destruct Ho as [(k' & -> & Hts) | [-> ->]].
  - assert (Hat : entries cs !! length A = Some (k, it)) by (rewrite Hcs, <- (length_entries A); apply child_elem).
    assert (Hcs' : entries (A ++ ts ++ B) = entries A ++ (k', it) :: entries B) by (by rewrite !entries_app, Hts).
    destruct (keq k k') eqn:Heq.
    + apply keq_eq in Heq as ->. exists s. split; [| by rewrite Hcs', <- Hcs].
      run (eapply w_index; exact Hw). run (by apply run_deref). by rewrite keq_refl.
    + destruct (w_update_key _ _ (length A) k it k' _ _ _ _ Hw Hat) as (s1 & Hr1 & Hw1). exists s1. split.
      * run (eapply w_index; exact Hw). run (by apply run_deref). rewrite Heq. exact Hr1.
      * rewrite Hcs, <- (length_entries A), insert_app_r_alt, Nat.sub_diag in Hw1 by lia. by rewrite Hcs'.
  - destruct (w_set _ _ _ (Index (entries (A ++ [] ++ B))) _ _ _ Hw I) as (s1 & Hr1 & Hw1). exists s1. split; [| exact Hw1].
    run (eapply w_index; exact Hw). rewrite Hcs, <- (length_entries A), erase_at_mid, <- entries_app. exact Hr1.
Qed.

Lemma range_erase_leaf h : forall t s fuel first stop F CA CB r LA j l LB,
  wf h t -> sorted (elems t) -> (h < fuel)%nat -> klt stop first = false -> one_leaf first stop (leafs t) LA j l LB ->
  world s (blocks t ++ F) (CA ++ (leafs t).*1 ++ CB) r ->
  exists o s' ts, range_erase_impl DS IS fuel first stop (root t) (root t) s = Ret ((o, o, in_range first stop (elems t)), s') /\
    shrinks h [] (root t) (outside first stop (elems t)) F CA CB r o s' [] ts.
Proof.
  induction h as [| h IH]; intros t s fuel first stop F CA CB r LA j l LB Hwf Hs Hf Hle Hone Hw; (destruct fuel as [| fuel]; [lia |]).
  { destruct (wf_data _ _ t Hwf) as (i & l0 & -> & Hl & Hfits). rewrite elems_data in *. cbn [root range_erase_impl].
    run (eapply run_is_data, w_get; exact Hw). by apply data_range_ok. }
  destruct (wf_index _ _ _ _ Hwf) as (i & cs & -> & Hne & Hfits & Hk). rewrite elems_index in *. rewrite leafs_index in *.
  destruct (locate_child DS IS _ first cs Hne Hk Hs) as (A & k & t & B & Hc & Hwt & Hft & Hst).
  destruct (one_leaf_child _ _ _ _ _ _ _ _ _ _ _ _ Hc Hk Hle Hone) as [(LA' & LB' & Hone') HB].
  pose proof (w_get _ _ _ _ _ _ Hw) as Hi. pose proof (child_lookup _ _ _ _ _ _ Hc) as Hat.
  pose proof (range_step_ok s _ _ _ _ _ _ Hc) as Hleft. pose proof (range_stop_ok s _ _ _ _ _ _ _ _ Hc Hk Hle HB) as Hright.
  cbn [root range_erase_impl]. run (by eapply run_is_index). rewrite Z.eqb_refl. run (by eapply run_index). run exact Hleft. run exact Hright.
  rewrite Hat. run done. run done. pose proof (child_split _ _ _ _ _ _ Hc) as Hcs.
  destruct (IH t s fuel first stop ((i, Index (entries cs)) :: blocks_in A ++ blocks_in B ++ F) (CA ++ (leafs_of A).*1) ((leafs_of B).*1 ++ CB) r
    LA' j l LB' Hwt Hst ltac:(lia) Hle Hone') as (o & s1 & ts & Hr1 & [_ Hkids Ho Helems Hw1]).
  { eapply w_perm; [eapply w_chain; [exact Hw |] |].
    - rewrite Hcs, leafs_of_app. cbn [leafs_of flat_map snd]. rewrite !fmap_app. by rewrite <- !app_assoc.
    - rewrite Hcs, blocks_at. cbn [app]. rewrite <- !app_assoc. solve_Permutation. }
  run exact Hr1. cbn [app blocks_in leafs_of elems_of flat_map] in Hkids, Helems, Hw1.
  assert (Hcs' : world s1 ((i, Index (entries cs)) :: blocks_in (A ++ ts ++ B) ++ F) (CA ++ (leafs_of (A ++ ts ++ B)).*1 ++ CB) r).
  { eapply w_perm; [eapply w_chain; [exact Hw1 |] |]; [by rewrite !leafs_of_app, !fmap_app, <- !app_assoc |].
    rewrite !blocks_in_app. cbn [fmap list_fmap]. solve_Permutation. }
  destruct (child_done_ok _ _ (length A) k o (root t) A ts B cs _ _ _ Hcs') as (s2 & Hr2 & Hw2); [by rewrite Hcs, entries_app | done | done |].
  rewrite Nat.eqb_refl. cbn [negb]. run exact Hr2. run (eapply w_index; exact Hw2).
  assert (HlowA : all_below stop (elems_of A)) by (intros x Hx; eapply klt_le_trans; [by apply (child_low _ _ _ _ _ _ Hc) | exact Hle]).
  assert (Hin : in_range first stop (elems_of cs) = in_range first stop (elems t)).
  { unfold in_range. rewrite Hcs, elems_at, !lb_mid by (done || apply Hc). f_equal.
    destruct (Nat.eqb_spec (lb_index first (elems t)) (lb_index stop (elems t))), (Nat.eqb_spec (length (elems_of A) + lb_index first (elems t)) (length (elems_of A) + lb_index stop (elems t))); try done; lia. }
  assert (Hout : outside first stop (elems_of cs) = elems_of (A ++ ts ++ B)).
  { rewrite Hcs, elems_at, outside_mid by (done || apply Hc). by rewrite !elems_of_app, Helems. }
  rewrite Hin, Hout.
  assert (Hk' : kids h (A ++ ts ++ B)) by (rewrite Hcs in Hk; apply kids_app in Hk as [? [? ?]%kids_cons]; by rewrite !kids_app).
  assert (Hfit : fits IS (zlen (A ++ ts ++ B))).
  { eapply fits_less; [exact roomI | | exact Hfits]. rewrite Hcs, !zlen_app, zlen_cons.
    destruct Ho as [(k' & _ & Hts) | [_ ->]]; [| rewrite zlen_nil; lia]. apply (f_equal zlen) in Hts. rewrite zlen_entries in Hts. rewrite Hts. change (zlen [(k', root t)]) with 1. lia. }
  destruct (A ++ ts ++ B) as [| [k0 t0] cs0].
  - destruct (w_erase_index _ _ _ _ _ _ Hw2) as (s3 & Hr3 & Hw3). exists None, s3, []. cbn [entries fmap list_fmap length Nat.eqb].
    split; [by run exact Hr3 |]. split; [done | constructor | by right | done | exact Hw3].
  - destruct (index_stays DS IS s2 h [] i k0 t0 cs0 F CA CB r Hw2 ltac:(constructor) Hk' Hfit) as [Hkey Hsh].
    cbn [entries fmap list_fmap length Nat.eqb]. do 3 eexists. split; [by run exact Hkey | exact Hsh].
Qed.

(** A range inside one leaf. *)
Lemma tree_erase_range_ok s h t fuel first stop LA i l LB : holds DS IS s h t -> (h < fuel)%nat ->
  klt stop first = false -> one_leaf first stop (leafs t) LA i l LB ->
  exists s', erase_range DS IS fuel first stop s = Ret (in_range first stop (elems t), s') /\
    stores DS IS s' (outside first stop (elems t)).
Proof.
  intros Hh Hf Hle Hone. pose proof (holds_world _ _ _ _ _ Hh) as Hw. pose proof (holds_sorted _ _ _ _ _ Hh) as Hs.
  destruct (range_erase_leaf h t s fuel first stop [] [] [] (Some (root t)) LA i l LB (holds_wf _ _ _ _ _ Hh) Hs Hf Hle Hone)
    as (o & s1 & ts & Hr1 & [_ Hk Ho Helems Hw1]); [simpl; by rewrite !app_nil_r |].
  unfold erase_range. simpl in Hw1, Helems. rewrite !app_nil_r in Hw1.
  assert (Hbegin : gets begin_block s = Ret (Some (root t), s)) by (unfold gets; by rewrite (holds_root _ _ _ _ _ Hh)).
  destruct Ho as [(k & -> & Hts) | [-> ->]].
  - destruct ts as [| [k' t'] [|]]; [done | | done]. injection Hts as -> Hroot. simpl in *. rewrite !app_nil_r in *.
    apply kids_cons in Hk as [[Hwf _] _]. exists s1. split.
    + run exact Hbegin. run exact Hr1. rewrite Z.eqb_refl. done.
    + rewrite <- Helems. apply (stores_tree _ _ _ h). apply world_holds; [by rewrite Hroot | done |]. rewrite Helems. by apply outside_sorted.
  - destruct (w_set_root _ _ _ _ None Hw1) as (s' & Hr2 & [Hheap _ Hchain _ _ Hb]). exists s'. split.
    + run exact Hbegin. run exact Hr1. by run exact Hr2.
    + simpl in Helems. rewrite <- Helems. by apply stores_nothing.
Qed.
End Range.
