(* ===== verification/BPTreeSession.v ===== *)
(** * BPTreeSession: any use of the tree, against a sorted list

    Searches, updates, insertions and erasures of one key, in any order, answer what a sorted list
    of pairs answers, whatever the sizes of the blocks; the tree stays well formed and no block
    outlives it.  Examples in a small tree show what does not hold: [below] can return one pair
    too many, and erasing a range can lose pairs outside the range. *)

From stdpp Require Import gmap sorting.
From S2P Require Import Prelude Packed BPTree BPTreeSpec BPTreeScan BPTreeWorld BPTreeInsert BPTreeErase BPTreeRange.
Local Open Scope Z_scope.
Import BPTree.
#[local] Existing Instance M_ret.
#[local] Existing Instance M_bind.

(** ** Calls *)

(** The public functions of [BPTree], all but the erasure of a range. *)
Inductive call {K V : Type} :=
  | Find (key : K)
  | FindRange (first stop : K) (limit : Z)
  | LowerBound (key : K)
  | UpperBound (key : K)
  | AboveOrEqual (key : K) (limit : Z)
  | Below (key : K) (limit : Z)
  | SearchFromBegin (limit : Z)
  | SearchFromEnd (limit : Z)
  | Update (key : K) (value : V)
  | FindForUpdate (key : K) (fun_ : V -> V)
  | Insert (key : K) (value : V)
  | Erase (key : K).
Arguments call : clear implicits.

(** [Result], [ResultSet] or a boolean. *)
Inductive answer {K V : Type} :=
  | One (o : option (K * V))
  | Many (l : list (K * V))
  | Done (b : bool).
Arguments answer : clear implicits.

Section Session.
Context {K V : Type} `{KeyOrderLaws K}.
Context (DS IS : sizes) (new_index : gmap Z (block (K := K) (V := V)) -> Z) (data_size_check : V -> bool).
Abbreviation state := (tree_state (K := K) (V := V)).
Abbreviation stores := (stores (K := K) (V := V) DS IS).
Implicit Types (s : state) (es : list (K * V)).

Definition one (m : M (K := K) (V := V) (option (K * V))) : M (answer K V) := x ← m; mret (One x).
Definition many (m : M (K := K) (V := V) (list (K * V))) : M (answer K V) := x ← m; mret (Many x).
Definition done_ (m : M (K := K) (V := V) bool) : M (answer K V) := x ← m; mret (Done x).

Definition run_call (fuel : nat) (c : call K V) : M (answer K V) :=
  match c with
  | Find key => one (find fuel key)
  | FindRange first stop limit => many (find_range fuel first stop limit)
  | LowerBound key => one (lower_bound fuel key)
  | UpperBound key => one (upper_bound fuel key)
  | AboveOrEqual key limit => many (above_or_equal fuel key limit)
  | Below key limit => many (below fuel key limit)
  | SearchFromBegin limit => many (search_from_begin fuel limit)
  | SearchFromEnd limit => many (search_from_end fuel limit)
  | Update key value => done_ (update data_size_check fuel key value)
  | FindForUpdate key fun_ => done_ (find_for_update data_size_check fuel key fun_)
  | Insert key value => done_ (insert DS IS new_index data_size_check fuel key value)
  | Erase key => done_ (erase DS IS fuel key)
  end.

(** The rounds of every loop: the tree is not higher than its blocks are many, and no scan
    meets more pairs than the chain has. *)
Definition stored s : nat :=
  sum_list_with (fun i => match heap s !! i with Some (Data l) => length l | _ => O end) (chain s).
Definition fuel_of s : nat := S (size (heap s) + stored s).

Fixpoint run_calls (fuel : state -> nat) (cs : list (call K V)) : M (list (answer K V)) :=
  match cs with
  | [] => mret []
  | c :: cs => f ← gets fuel; a ← run_call f c; rest ← run_calls fuel cs; mret (a :: rest)
  end.

(** ** What the sorted list answers *)

Definition spec_update es (c : call K V) : list (K * V) :=
  match c with
  | Update key value => if data_size_check value then snd (replaced data_size_check key (fun _ => value) es) else es
  | FindForUpdate key fun_ => snd (replaced data_size_check key fun_ es)
  | Insert key value =>
      if data_size_check value then match found key es with None => ordered_insert key value es | Some _ => es end else es
  | Erase key => match found key es with None => es | Some _ => without key es end
  | _ => es
  end.

(** [below] may go past the key; the other answers are determined. *)
Inductive answers es : call K V -> answer K V -> Prop :=
  | find_answers key : answers es (Find key) (One (found key es))
  | find_range_answers first stop limit :
      let from := drop (lb_index first es) es in
      answers es (FindRange first stop limit)
        (Many (if klt stop first || keq first stop then [] else take_limit limit (take (lb_index stop from) from)))
  | lower_bound_answers key : answers es (LowerBound key) (One (es !! lb_index key es))
  | upper_bound_answers key : answers es (UpperBound key) (One (List.find (fun e => klt key e.1) es))
  | above_answers key limit : answers es (AboveOrEqual key limit) (Many (take_limit limit (drop (lb_index key es) es)))
  | below_answers key limit n : (lb_index key es <= n)%nat -> answers es (Below key limit) (Many (take_limit limit (take n es)))
  | from_begin_answers limit : answers es (SearchFromBegin limit) (Many (take_limit limit es))
  | from_end_answers limit : answers es (SearchFromEnd limit) (Many (take_limit limit (reverse es)))
  | update_answers key value :
      answers es (Update key value) (Done (data_size_check value && fst (replaced data_size_check key (fun _ => value) es)))
  | find_for_update_answers key fun_ : answers es (FindForUpdate key fun_) (Done (fst (replaced data_size_check key fun_ es)))
  | insert_answers key value :
      answers es (Insert key value) (Done (data_size_check value && match found key es with None => true | Some _ => false end))
  | erase_answers key : answers es (Erase key) (Done match found key es with None => false | Some _ => true end).

Inductive behaves : list (K * V) -> list (call K V) -> list (answer K V) -> list (K * V) -> Prop :=
  | behaves_nil es : behaves es [] [] es
  | behaves_cons es c cs a rest es' :
      answers es c a -> behaves (spec_update es c) cs rest es' -> behaves es (c :: cs) (a :: rest) es'.

Lemma stored_holds s h t : holds DS IS s h t -> stored s = length (elems t).
Proof.
  intros Hh. unfold stored, elems, pairs. rewrite (holds_chain _ _ _ _ _ Hh).
  assert (Hm : forall j l, (j, l) ∈ leafs t -> heap s !! j = Some (Data l)).
  { intros j l Hj. by apply (leaves_mem _ _ (holds_leaves _ _ _ _ _ Hh)). }
  induction (leafs t) as [| [j l] ls IH]; [done |]. simpl. rewrite (Hm j l) by left. rewrite length_app.
  f_equal. apply IH. intros j' l' Hj. apply Hm. by right.
Qed.

Lemma fuel_enough s h t fuel : holds DS IS s h t -> (fuel_of s <= fuel)%nat -> (h + length (elems t) < fuel)%nat.
Proof. unfold fuel_of. intros Hh Hf. rewrite (stored_holds _ _ _ Hh) in Hf. pose proof (holds_height _ _ _ _ _ Hh). lia. Qed.

(** Nothing is found in an empty tree. *)
Lemma find_data_nothing s fuel key : begin_block s = None -> find_data fuel key s = Ret (None, s).
Proof. intros Hb. unfold find_data. by run (unfold gets; by rewrite Hb). Qed.

Lemma run_one m s o : m s = Ret (o, s) -> one m s = Ret (One o, s).
Proof. intros Hm. unfold one. by run exact Hm. Qed.
Lemma run_many m s l : m s = Ret (l, s) -> many m s = Ret (Many l, s).
Proof. intros Hm. unfold many. by run exact Hm. Qed.

(** A call that only reads, in an empty tree and in a tree with pairs. *)
Definition reads (c : call K V) : bool :=
  match c with Update _ _ | FindForUpdate _ _ | Insert _ _ | Erase _ => false | _ => true end.

Lemma read_nothing s fuel c : reads c = true -> begin_block s = None ->
  exists a, run_call fuel c s = Ret (a, s) /\ answers [] c a.
Proof.
  intros Hc Hb. pose proof (fun fuel key => find_data_nothing s fuel key Hb) as Hn.
  assert (Hg : gets begin_block s = Ret (None, s)) by (unfold gets; by rewrite Hb).
  destruct c as [key | first stop limit | key | key | key limit | key limit | limit | limit | | | |]; try done; cbn [run_call].
  - exists (One None). split; [| apply (find_answers [] key)]. apply run_one. unfold find. by run (apply Hn).
  - eexists. split; [| apply find_range_answers]. apply run_many. unfold find_range. destruct (klt stop first || keq first stop); [done |].
    run (apply Hn). simpl. by rewrite take_limit_nil.
  - exists (One None). split; [| apply (lower_bound_answers [] key)]. apply run_one. unfold lower_bound. by run (apply Hn).
  - exists (One None). split; [| apply (upper_bound_answers [] key)]. apply run_one. unfold upper_bound. by run (apply Hn).
  - eexists. split; [| apply above_answers]. apply run_many. unfold above_or_equal. run (apply Hn). simpl. by rewrite take_limit_nil.
  - eexists. split; [| apply (below_answers [] key limit 0); simpl; lia]. apply run_many. unfold below. run exact Hg. by rewrite (take_nil 0), take_limit_nil.
  - eexists. split; [| apply from_begin_answers]. apply run_many. unfold search_from_begin. run exact Hg. by rewrite take_limit_nil.
  - eexists. split; [| apply from_end_answers]. apply run_many. unfold search_from_end. run exact Hg. by rewrite (reverse_nil (A := K * V)), take_limit_nil.
Qed.

Lemma read_tree s h t fuel c : reads c = true -> holds DS IS s h t -> (h + length (elems t) < fuel)%nat ->
  exists a, run_call fuel c s = Ret (a, s) /\ answers (elems t) c a.
Proof.
  intros Hc Hh Hf.
  destruct c as [key | first stop limit | key | key | key limit | key limit | limit | limit | | | |]; try done; cbn [run_call].
  - eexists. split; [apply run_one; eapply find_ok; [exact Hh | lia] | apply find_answers].
  - eexists. split; [apply run_many; by eapply find_range_ok | apply find_range_answers].
  - eexists. split; [apply run_one; eapply tree_lower_bound_ok; [exact Hh | lia] | apply lower_bound_answers].
  - eexists. split; [apply run_one; by eapply upper_bound_ok | apply upper_bound_answers].
  - eexists. split; [apply run_many; by eapply above_ok | apply above_answers].
  - destruct (below_ok DS IS s h t fuel key limit Hh Hf) as (n & Hn & _ & Hr). eexists. split; [by apply run_many | by apply below_answers].
  - eexists. split; [apply run_many; by eapply from_begin_ok | apply from_begin_answers].
  - eexists. split; [apply run_many; by eapply from_end_ok | apply from_end_answers].
Qed.

Lemma read_ok s es fuel c : reads c = true -> stores s es -> (fuel_of s <= fuel)%nat ->
  exists a, run_call fuel c s = Ret (a, s) /\ answers es c a.
Proof.
  intros Hc [Hheap Hchain Hbegin | h t Hh] Hf; [by apply read_nothing |].
  eapply read_tree; [done | exact Hh | by eapply fuel_enough].
Qed.

Context (roomD : room DS 1) (roomI : room IS 2) (new_index_fresh : forall m, m !! new_index m = None).

Lemma call_ok s es fuel c : stores s es -> (fuel_of s <= fuel)%nat ->
  exists a s', run_call fuel c s = Ret (a, s') /\ answers es c a /\ stores s' (spec_update es c).
Proof.
  intros Hst Hf. assert (Hsize : (size (heap s) <= fuel)%nat) by (unfold fuel_of in Hf; lia).
  destruct (reads c) eqn:Hc.
  { destruct (read_ok s es fuel c Hc Hst Hf) as (a & Hr & Ha). exists a, s. split; [exact Hr |]. split; [exact Ha |]. by destruct c. }
  destruct c as [| | | | | | | | key value | key fun_ | key value | key]; try done; cbn [run_call spec_update]; unfold done_.
  - destruct (update_ok DS IS data_size_check s es fuel key value Hst Hsize) as (s' & Hr & Hst').
    eexists _, s'. split; [by run exact Hr |]. split; [| by destruct (data_size_check value)].
    replace (fst _) with (data_size_check value && fst (replaced data_size_check key (fun _ => value) es)) by (by destruct (data_size_check value)).
    apply update_answers.
  - destruct (replace_value_ok DS IS data_size_check s es fuel key fun_ Hst Hsize) as (s' & Hr & Hst').
    eexists _, s'. split; [by run exact Hr |]. split; [apply find_for_update_answers | exact Hst'].
  - destruct (tree_insert_ok DS IS roomD roomI new_index new_index_fresh data_size_check s es fuel key value Hst Hsize) as (s' & Hr & Hst').
    eexists _, s'. split; [by run exact Hr |]. split; [apply insert_answers |].
    destruct (data_size_check value); [by destruct (found key es) | done].
  - destruct (tree_erase_ok DS IS (room_pair _ _ roomD) (room_pair _ _ roomI) s es fuel key Hst Hsize) as (s' & Hr & Hst').
    eexists _, s'. split; [by run exact Hr |]. split; [apply erase_answers |]. by destruct (found key es).
Qed.

Lemma calls_ok fuel cs : (forall s, (fuel_of s <= fuel s)%nat) -> forall s es, stores s es ->
  exists rs s' es', run_calls fuel cs s = Ret (rs, s') /\ behaves es cs rs es' /\ stores s' es'.
Proof.
  intros Hf. induction cs as [| c cs IH]; intros s es Hst; [exists [], s, es; split; [done | split; [constructor | done]] |].
  destruct (call_ok s es (fuel s) c Hst (Hf s)) as (a & s1 & Hr & Ha & Hst1).
  destruct (IH s1 _ Hst1) as (rs & s2 & es2 & Hrs & Hb & Hst2). exists (a :: rs), s2, es2. split.
  - cbn [run_calls]. run done. run exact Hr. by run exact Hrs.
  - split; [by econstructor | done].
Qed.
End Session.

(** ** A tree of integers *)

#[export] Instance int_order : KeyOrder Z := {| klt := Z.ltb; keq := Z.eqb |}.
#[export] Instance int_order_laws : KeyOrderLaws Z.
Proof.
  split; simpl; intros; rewrite ?Z.ltb_lt, ?Z.ltb_ge, ?Z.eqb_eq in *; try lia.
Qed.

Module Demo.

(** The number after the greatest one in use. *)
Definition next_index {K V} (m : gmap Z (block (K := K) (V := V))) : Z := 1 + map_fold (fun i _ top => Z.max i top) 0 m.

Lemma next_index_fresh {K V} (m : gmap Z (block (K := K) (V := V))) : m !! next_index m = None.
Proof.
  assert (Htop : forall i, is_Some (m !! i) -> i <= map_fold (fun i _ top => Z.max i top) 0 m).
  { apply (map_fold_weak_ind (fun top m => forall i, is_Some (m !! i) -> i <= top)).
    - intros i. rewrite lookup_empty. by intros [].
    - intros j b m' top _ IH i Hi. destruct (decide (j = i)) as [-> | Hne]; [lia |].
      rewrite lookup_insert_ne in Hi by done. specialize (IH i Hi). lia. }
  destruct (m !! next_index m) eqn:E; [| done]. specialize (Htop (next_index m) ltac:(by eexists)). unfold next_index in *. lia.
Qed.

(** Ten pairs in a data block, three in an index block. *)
Definition data_sizes := mkSizes 10 1.
Definition index_sizes := mkSizes 3 1.
Definition empty_tree : tree_state (K := Z) (V := Z) := mkState ∅ [] None.
Definition run (cs : list (call Z Z)) := run_calls data_sizes index_sizes next_index (fun _ => true) fuel_of cs.

(** Thirty keys 0, 10, ..., 290, then 51, ..., 55: two index blocks under the root. *)
Definition insertions : list (call Z Z) :=
  ((fun i => Insert (10 * Z.of_nat i) 0) <$> seq 0 30) ++ ((fun i => Insert (51 + Z.of_nat i) 0) <$> seq 0 5).
Definition tree_30 : tree_state (K := Z) (V := Z) := match run insertions empty_tree with Ret (_, s) => s | Fault _ => empty_tree end.

Definition keys (m : M (K := Z) (V := Z) (list (Z * Z))) s : list Z := match m s with Ret (l, _) => l.*1 | Fault _ => [] end.

(** [below] 45, without a limit: the last leaf before the key has no more pairs, and the first
    pair of the next one is added without a look at its key. *)
Example below_goes_too_far : keys (below 100 45 1000) tree_30 = [0; 10; 20; 30; 40; 50].
Proof. vm_compute. reflexivity. Qed.

(** Erasing the keys from 91 on and before 100, of which there are none, loses 70, ..., 140: the
    shared pairs bring the key 70 to the front of the right leaf, whose block is then taken for
    one inside the range.  The call reports success. *)
Example erase_range_loses_pairs :
  match erase_range data_sizes index_sizes 100 91 100 tree_30 with
  | Ret (b, s) => (b, keys (search_from_begin 100 13) s)
  | Fault _ => (false, [])
  end = (true, [0; 10; 20; 30; 40; 50; 51; 52; 53; 54; 55; 60; 150]).
Proof. vm_compute. reflexivity. Qed.

(** Erasing the keys from 45 on and before 50 erases nothing and reports success: the key 50 is
    the first one of another leaf. *)
Example erase_range_of_nothing :
  match erase_range data_sizes index_sizes 100 45 50 tree_30 with
  | Ret (b, s) => (b, bool_decide (keys (search_from_begin 100 1000) s = keys (search_from_begin 100 1000) tree_30))
  | Fault _ => (false, false)
  end = (true, true).
Proof. vm_compute. reflexivity. Qed.
End Demo.

(** ** Properties *)

(** C2. Any calls of the public functions but the erasure of a range, from an empty tree: every
    call returns (the loops need no more rounds than [fuel_of] says) and answers what the sorted list
    of pairs answers, with [below] the one that may go past its key; insertions and erasures do to
    the tree what they do to the list; in the end the heap holds exactly the blocks of one tree of
    data blocks at equal depth, every block with pairs and within its capacity, every index key
    the first key below it, and the data blocks linked in order.  Blocks hold at least one pair, or
    two entries, and the numbers of new blocks are unused. *)
Theorem bptree_refines_list {K V : Type} `{KeyOrderLaws K} (DS IS : sizes)
    (new_index : gmap Z (block (K := K) (V := V)) -> Z) (data_size_check : V -> bool)
    (fuel : tree_state (K := K) (V := V) -> nat) (cs : list (call K V)) :
  room DS 1 -> room IS 2 -> (forall m, m !! new_index m = None) -> (forall s, (fuel_of s <= fuel s)%nat) ->
  exists rs s es, run_calls DS IS new_index data_size_check fuel cs (mkState ∅ [] None) = Ret (rs, s) /\
    behaves data_size_check [] cs rs es /\ stores DS IS s es.
Proof. intros HD HI Hn Hf. apply calls_ok; try done. by apply stores_nothing. Qed.

Lemma bptree_refines_list_witness :
  exists rs s es, run_calls Demo.data_sizes Demo.index_sizes Demo.next_index (fun _ => true) fuel_of
      (Demo.insertions ++ [Erase 50; FindRange 45 70 10; Below 45 9; Update 60 1; Find 60]) (mkState ∅ [] None) = Ret (rs, s) /\
    behaves (fun _ => true) [] (Demo.insertions ++ [Erase 50; FindRange 45 70 10; Below 45 9; Update 60 1; Find 60]) rs es /\
    stores Demo.data_sizes Demo.index_sizes s es.
Proof.
  apply (bptree_refines_list Demo.data_sizes Demo.index_sizes Demo.next_index (fun _ => true) fuel_of).
  - split; simpl; lia.
  - split; simpl; lia.
  - apply Demo.next_index_fresh.
  - intros s. apply Nat.le_refl.
Defined.

(** C21. Erasing the keys from [first] on and before [stop], when the range lies in one leaf: the
    pairs of the range are gone and no others, and the answer is whether there were any. *)
Theorem erase_range_in_one_leaf {K V : Type} `{KeyOrderLaws K} (DS IS : sizes) s h (t : tree (K := K) (V := V)) fuel first stop LA i l LB :
  0 <= pair_size DS -> 0 <= pair_size IS -> holds DS IS s h t -> (h < fuel)%nat ->
  klt stop first = false -> one_leaf first stop (leafs t) LA i l LB ->
  exists s' es, erase_range DS IS fuel first stop s = Ret (in_range first stop (elems t), s') /\ stores DS IS s' es /\
    forall e, e ∈ es <-> e ∈ elems t /\ (klt e.1 first = true \/ klt e.1 stop = false).
Proof.
  intros HD HI Hh Hf Hle Hone. destruct (tree_erase_range_ok DS IS HD HI s h t fuel first stop LA i l LB Hh Hf Hle Hone) as (s' & Hr & Hst).
  exists s', (outside first stop (elems t)). split; [done |]. split; [done |]. apply outside_spec; [apply Hh | done].
Qed.

Module DemoRange.
Definition leaf_1 : list (Z * Z) := [(0, 5); (10, 6)].
Definition leaf_2 : list (Z * Z) := [(20, 7); (30, 8)].
Definition two_leaves : tree (K := Z) (V := Z) := TIndex 3 [(0, TData 1 leaf_1); (20, TData 2 leaf_2)].
Definition state_2 : tree_state (K := Z) (V := Z) := mkState (list_to_map (blocks two_leaves)) [1; 2] (Some 3).

Lemma holds_2 : holds Demo.data_sizes Demo.index_sizes state_2 1 two_leaves.
Proof.
  split; [done | | done | | done |].
  - simpl. unfold fits. simpl. split_and!; try done. repeat constructor; try done; eexists _, _; reflexivity.
  - apply (bool_decide_unpack (NoDup [3; 1; 2])). by vm_compute.
  - change (elems two_leaves) with (leaf_1 ++ leaf_2). repeat constructor.
Qed.
End DemoRange.

Lemma erase_range_in_one_leaf_witness :
  exists s' es, erase_range Demo.data_sizes Demo.index_sizes 5 5 15 DemoRange.state_2
      = Ret (in_range 5 15 (elems DemoRange.two_leaves), s') /\ stores Demo.data_sizes Demo.index_sizes s' es /\
    forall e, e ∈ es <-> e ∈ elems DemoRange.two_leaves /\ (klt e.1 5 = true \/ klt e.1 15 = false).
Proof.
  apply (erase_range_in_one_leaf Demo.data_sizes Demo.index_sizes DemoRange.state_2 1 DemoRange.two_leaves 5 5 15
    [] 1 DemoRange.leaf_1 [(2, DemoRange.leaf_2)]); [done | done | apply DemoRange.holds_2 | lia | done |].
  split; [done | by left |]. intros x Hx. change (x ∈ DemoRange.leaf_2) in Hx.
  apply elem_of_cons in Hx as [-> | Hx]; [done |]. by apply list_elem_of_singleton in Hx as ->.
Defined.
