(* ===== verification/BPTreePacked.v ===== *)
(** * BPTreePacked: packed blocks keep the tree's contract

    BPTree.v computes with lists of pairs what IndexBlock_Impl and DataBlock_Impl (with values of
    one size) compute on the bytes of a block (Packed.v).  Here the two are tied together: what
    the tree calls of a block gives on the bytes what it gives on the list, for a block whose
    sizes are those of its layout, and what it calls of a leaf to go to its neighbours gives on
    the linked leaves (TreeBlocks.v) what it gives on the list of their indexes. *)

From stdpp Require Import gmap sorting.
From Stdlib Require Strings.Byte.
From S2P Require Import Prelude Interpreter Packed TreeBlocks BPTree.
Local Open Scope Z_scope.

Section Contract.
Context (L : layout) {K V : Type} `{FixedLaws K, FixedLaws V, KeyOrderLaws K}.
Context (Hlayout : 0 < size_off L).
Implicit Types (es : list (K * V)) (pre : list Z) (b : Block).

(** [MaxBlockSize] and [PairSize]. *)
Definition block_sizes : sizes := mkSizes (BLOCK_SIZE - BeginPos L) (PairSize (K := K) (V := V)).

Abbreviation at_ p := (pos_of (K := K) (V := V) L (Z.of_nat p)).
Abbreviation rep := (rep L (K := K) (V := V)).

(** What is called of one block that holds the pairs [es]. *)
Record block_contract pre es b : Prop := {
  contract_can_insert : Packed.can_insert (K := K) (V := V) L b = Ret (BPTree.can_insert block_sizes (zlen es));
  contract_lower_bound key : Packed.lower_bound (V := V) L key b = Ret (at_ (lb_index key es));
  contract_insert p key value : (p <= length es)%nat -> BPTree.can_insert block_sizes (zlen es) = true ->
    exists buf, Packed.insert L (at_ p) key value b = Ret (with_buffer b true buf) /\ rep pre (BPTree.insert_at p (key, value) es) buf;
  contract_erase p : (p < length es)%nat ->
    exists buf, Packed.erase (K := K) (V := V) L (at_ p) b = Ret (BPTree.enough block_sizes (zlen (BPTree.erase_at p es)), with_buffer b true buf) /\
      rep pre (BPTree.erase_at p es) buf;
  contract_erase_range p q : (p <= q <= length es)%nat ->
    exists buf, Packed.erase_range L (at_ p) (at_ q) b = Ret (with_buffer b true buf) /\ rep pre (BPTree.erase_between p q es) buf;
  contract_split pre2 new key value : rep pre2 [] (_buffer new) ->
    let keep := Z.to_nat (BPTree.split_keeps (zlen es)) in
    exists buf1 buf2, Packed.split L b new key value = Ret (with_buffer b true buf1, with_buffer new true buf2) /\
      rep pre (take keep (ordered_insert key value es)) buf1 /\ rep pre2 (drop keep (ordered_insert key value es)) buf2;
  contract_begin : Packed.begin_pos L = at_ 0;
  contract_end : Packed.end_pos L b = Ret (at_ (length es));
  contract_iter p n : (p + n <= length es)%nat -> Packed.get_offset (K := K) (V := V) L (_buffer b) (at_ p) (Z.of_nat n) = Ret (at_ (p + n));
  contract_read p key value : es !! p = Some (key, value) ->
    Packed.get_key L (_buffer b) (at_ p) = Ret key /\ Packed.get_value (K := K) L (_buffer b) (at_ p) = Ret value;
  contract_update_key p key0 key value : es !! p = Some (key0, value) ->
    exists buf, Packed.update_key L (at_ p) key b = Ret (with_buffer b true buf) /\ rep pre (<[p := (key, value)]> es) buf;
  contract_update_value p key value0 value : es !! p = Some (key, value0) ->
    exists buf, Packed.update_value (K := K) L (at_ p) value b = Ret (with_buffer b true buf) /\ rep pre (<[p := (key, value)]> es) buf;
}.

(** What is called of two blocks. *)
Record pair_contract pre1 es1 b pre2 es2 other : Prop := {
  contract_choose : Packed.merge_keep_average L b other = Ret (BPTree.merge_keep_average block_sizes (zlen es1) (zlen es2));
  contract_merge : 0 < BPTree.merge_keep_average block_sizes (zlen es1) (zlen es2) ->
    exists buf1 buf2, Packed.merge L b other = Ret (with_buffer b true buf1,
        mkBlock (_index other) (_need_update other) (_need_put_back other) buf2) /\
      rep pre1 (es1 ++ es2) buf1 /\ rep pre2 [] buf2;
  contract_average :
    let keep := Z.to_nat (BPTree.average_keeps (zlen es1) (zlen es2)) in
    exists buf1 buf2, Packed.average (K := K) (V := V) L b other = Ret (with_buffer b true buf1, with_buffer other true buf2) /\
      rep pre1 (take keep (es1 ++ es2)) buf1 /\ rep pre2 (drop keep (es1 ++ es2)) buf2;
}.

Lemma cut_app {X} (A B l : list X) n : A ++ B = l -> zlen A = n -> take (Z.to_nat n) l = A /\ drop (Z.to_nat n) l = B.
Proof. intros <- <-. by rewrite take_zlen, drop_zlen. Qed.

Lemma split_pos {X} (es : list X) p : (p <= length es)%nat -> es = take p es ++ drop p es /\ zlen (take p es) = Z.of_nat p.
Proof. intros Hp. rewrite take_drop. split; [done |]. unfold zlen. rewrite length_take. lia. Qed.

Lemma can_insert_fits n : BPTree.can_insert block_sizes n = true -> Packed.fits L (K := K) (V := V) (n + 1).
Proof. unfold BPTree.can_insert, block_sizes, Packed.fits. simpl. intros ?%Z.leb_le. lia. Qed.

Lemma middle_at {X} (es : list X) p x : es !! p = Some x ->
  es = take p es ++ x :: drop (S p) es /\ zlen (take p es) = Z.of_nat p /\
  forall y, <[p := y]> es = take p es ++ y :: drop (S p) es.
Proof.
  intros Hx. pose proof (lookup_lt_Some _ _ _ Hx) as Hp. split; [by rewrite take_drop_middle |]. split.
  - unfold zlen. rewrite length_take. lia.
  - intros y. by apply insert_take_drop.
Qed.

Lemma block_contract_ok pre es b : Packed.fits L (K := K) (V := V) 1 -> rep pre es (_buffer b) -> sorted es -> block_contract pre es b.
Proof.
  intros Hone Hr Hs. split.
  - unfold Packed.can_insert. rewrite (rep_get_size L Hlayout _ _ _ Hr), bind_ret. unfold BPTree.can_insert, block_sizes. simpl. f_equal.
    apply eq_true_iff_eq. rewrite !Z.leb_le. lia.
  - intros key. by eapply lower_bound_ok.
  - intros p key value Hp Hcan. destruct (split_pos es p Hp) as [He Hlen]. apply can_insert_fits in Hcan. rewrite He in Hr, Hcan.
    destruct (pack_insert_ok L Hlayout pre _ _ key value b Hr Hcan) as (buf & E & Hr'). exists buf. rewrite Hlen in E. by split.
  - intros p Hp. destruct (split_pos es p ltac:(lia)) as [He Hlen]. destruct (lookup_lt_is_Some_2 es p Hp) as [e Hat].
    rewrite (drop_S _ _ _ Hat) in He. rewrite He in Hr.
    destruct (pack_erase_ok L Hlayout pre _ _ _ b Hr) as (buf & E & Hr'). exists buf. rewrite Hlen in E. by split.
  - intros p q Hpq. destruct (split_pos es p ltac:(lia)) as [He Hlen]. destruct (split_pos (drop p es) (q - p)) as [Hd Hlen2]; [rewrite length_drop; lia |].
    rewrite drop_drop in Hd. replace (p + (q - p))%nat with q in Hd by lia. rewrite Hd in He. rewrite He in Hr.
    destruct (pack_erase_range_ok L Hlayout pre _ _ _ b Hr) as (buf & E & Hr'). exists buf. rewrite Hlen, Hlen2 in E.
    replace (Z.of_nat p + Z.of_nat (q - p)) with (Z.of_nat q) in E by lia. by split.
  - intros pre2 new key value Hn keep. destruct (split_ok L Hlayout pre es pre2 key value b new Hr Hs Hn Hone) as (buf1 & buf2 & es1 & es2 & E & Hr1 & Hr2 & He & Hl).
    exists buf1, buf2. destruct (cut_app _ _ _ _ He Hl) as [H1' H2']. unfold keep, BPTree.split_keeps. by rewrite H1', H2'.
  - unfold Packed.begin_pos, pos_of. lia.
  - unfold Packed.end_pos. rewrite (rep_get_size L Hlayout _ _ _ Hr), bind_ret. done.
  - intros p n Hp. unfold Packed.get_offset. rewrite (rep_kind L Hlayout _ _ _ Hr), bind_ret. f_equal.
    pose proof (PairSize_pos (K := K) (V := V)). pose proof (rep_fits L _ _ _ Hr) as Hf.
    assert (Hf' : fits L (K := K) (V := V) (Z.of_nat (p + n))) by (eapply (fits_le L); [exact Hf | unfold zlen; lia]).
    destruct (fits_bound L Hlayout _ Hf' ltac:(lia)) as [Hb _]. unfold BLOCK_SIZE in Hb.
    replace (at_ p + Z.of_nat n * PairSize (K := K) (V := V)) with (at_ (p + n)%nat) by (unfold pos_of; lia).
    apply u32_small. lia.
  - intros p key value Hx. destruct (middle_at _ _ _ Hx) as (He & Hl & _). rewrite He in Hr. rewrite <- Hl.
    split; [by eapply (get_key_ok L Hlayout) | by eapply (get_value_ok L Hlayout)].
  - intros p key0 key value Hx. destruct (middle_at _ _ _ Hx) as (He & Hl & Hi). rewrite He in Hr. rewrite <- Hl, Hi.
    by apply (update_key_ok L Hlayout) with (k := key0).
  - intros p key value0 value Hx. destruct (middle_at _ _ _ Hx) as (He & Hl & Hi). rewrite He in Hr. rewrite <- Hl, Hi.
    by apply (update_value_ok L Hlayout) with (v := value0).
Qed.

Lemma pair_contract_ok pre1 es1 b pre2 es2 other : rep pre1 es1 (_buffer b) -> rep pre2 es2 (_buffer other) -> pair_contract pre1 es1 b pre2 es2 other.
Proof.
  intros Hr1 Hr2. split.
  - unfold Packed.merge_keep_average, BPTree.merge_keep_average. rewrite (rep_get_size L Hlayout _ _ _ Hr1), bind_ret, (rep_get_size L Hlayout _ _ _ Hr2), bind_ret.
    unfold block_sizes. simpl. destruct (_ <=? _); [done |]. by destruct (_ <? _ / 2).
  - intros Hchoose. apply (merge_ok L Hlayout pre1 es1 pre2 es2 b other Hr1 Hr2).
    unfold BPTree.merge_keep_average, block_sizes in Hchoose. simpl in Hchoose. unfold Packed.fits. rewrite zlen_app.
    destruct (Z.leb_spec (zlen es1 * PairSize (K := K) (V := V) + zlen es2 * PairSize (K := K) (V := V)) (BLOCK_SIZE - BeginPos L)); [lia |].
    by destruct (_ <? _ / 2) in Hchoose.
  - intros keep. destruct (average_ok L Hlayout _ _ _ _ _ _ Hr1 Hr2) as (buf1 & buf2 & es1' & es2' & E & H1' & H2' & He & _ & Hl).
    exists buf1, buf2. destruct (cut_app _ _ _ _ He Hl) as [Ht Hd]. unfold keep, BPTree.average_keeps. cbv zeta in *. by rewrite Ht, Hd.
Qed.
End Contract.

(** ** Leaves and their neighbours *)

Section Chain.
Context {K V : Type} `{FixedLaws K, FixedLaws V, KeyOrderLaws K}.
Implicit Types (LA LB : list (Z * list (K * V))) (b : Block) (s : TreeBlocks.Scheduler).

(** The leaf [i] is open as [b]: its block in the store counts as what [b] holds, and the
    leaves [LA], [i], [LB] are linked. *)
Record leaf_open LA i es LB s b : Prop := {
  open_index : _index b = i;
  open_put_back : _need_put_back b = true;
  open_new : NoDup (LA ++ (i, es) :: LB).*1;
  open_below : TreeBlocks.below s (LA ++ (i, es) :: LB);
  open_chain : TreeBlocks.chain (<[i := _buffer b]> (_buffers s)) 0 (LA ++ (i, es) :: LB) 0;
}.

(** Going to a neighbour [j]: the leaf is put back, the neighbour's pairs are there. *)
Definition goes_to (j : Z) LA i es LB (r : res (Block * TreeBlocks.Scheduler)) : Prop :=
  exists b' s' LA' es' LB', r = Ret (b', s') /\ _need_update b' = false /\
    LA' ++ (j, es') :: LB' = LA ++ (i, es) :: LB /\ leaf_open LA' j es' LB' s' b'.

Record chain_contract LA i es LB s b : Prop := {
  contract_have_next : TreeBlocks.have_next b = Ret (bool_decide (is_Some (next_in i (LA ++ (i, es) :: LB).*1)));
  contract_have_prev : TreeBlocks.have_prev b = Ret (bool_decide (is_Some (prev_in i (LA ++ (i, es) :: LB).*1)));
  contract_to_next j : next_in i (LA ++ (i, es) :: LB).*1 = Some j -> goes_to j LA i es LB (TreeBlocks.to_next b s);
  contract_to_prev j : prev_in i (LA ++ (i, es) :: LB).*1 = Some j -> goes_to j LA i es LB (TreeBlocks.to_prev b s);
}.

Lemma next_in_here (A B : list Z) i : i ∉ A -> next_in i (A ++ i :: B) = head B.
Proof.
  induction A as [| a A IH]; intros Hi; simpl; [by rewrite Z.eqb_refl |].
  apply not_elem_of_cons in Hi as [Ha Hi]. destruct (Z.eqb_spec a i); [congruence | by apply IH].
Qed.

(** The object of leaf [i] moves to leaf [j]. *)
Lemma go_to_ok LA i es LB s b LA' j es' LB' :
  leaf_open LA i es LB s b -> LA' ++ (j, es') :: LB' = LA ++ (i, es) :: LB ->
  goes_to j LA i es LB (TreeBlocks.go_to j b s).
Proof.
  intros [Hi Hp Hn Hb Hc] He. subst i.
  assert (Hin : forall x, x ∈ LA ++ (_index b, es) :: LB -> x.1 < TreeBlocks._total_blocks s).
  { intros x Hx. unfold TreeBlocks.below in Hb. rewrite list.Forall_forall in Hb. by apply Hb. }
  destruct (close_ok b s Hp (Hin (_index b, es) ltac:(apply elem_of_app; right; by left))) as (s1 & E1 & Hb1 & Ht1).
  assert (Hc1 : TreeBlocks.chain (_buffers s1) 0 (LA' ++ (j, es') :: LB') 0) by (by rewrite Hb1, He).
  pose proof Hc1 as [_ (_ & (buf & Hbuf & Hrep) & _)]%chain_app.
  unfold goes_to, TreeBlocks.go_to. rewrite E1, bind_ret. unfold TreeBlocks.get_block.
  rewrite massert_true, bind_ret by (apply Z.ltb_lt; rewrite Ht1; apply (Hin (j, es')); rewrite <- He; apply elem_of_app; right; by left).
  rewrite Hbuf. simpl. rewrite (data_rep_kind _ _ _ _ Hrep). simpl.
  eexists _, _, LA', es', LB'. split; [reflexivity |]. split; [done |]. split; [done |].
  split; try done.
  - by rewrite He.
  - unfold TreeBlocks.below in *. rewrite He. simpl. by rewrite Ht1.
  - simpl. by rewrite (insert_id _ _ _ Hbuf).
Qed.

Lemma chain_contract_ok LA i es LB s b : leaf_open LA i es LB s b -> chain_contract LA i es LB s b.
Proof.
  intros Ho. pose proof Ho as [Hi Hp Hn Hb Hc]. pose proof Hc as [Hca Hcb]%chain_app. cbn [first_idx] in Hca.
  pose proof Hcb as (Hir & (buf & Hbuf & Hrep) & Hcb'). rewrite lookup_insert_eq in Hbuf. injection Hbuf as <-.
  assert (Hids : (LA ++ (i, es) :: LB).*1 = LA.*1 ++ i :: LB.*1) by (by rewrite fmap_app, fmap_cons).
  rewrite Hids in Hn.
  apply list.NoDup_app in Hn as (Hna & Hnx & Hnb). apply list.NoDup_cons in Hnb as [Hnib Hnb].
  assert (Hnext : next_in i (LA.*1 ++ i :: LB.*1) = head LB.*1) by (apply next_in_here; intros Hin; apply (Hnx i Hin); left).
  assert (Hprev : prev_in i (LA.*1 ++ i :: LB.*1) = head (reverse LA.*1)).
  { unfold prev_in. rewrite reverse_app, reverse_cons, <- app_assoc. apply next_in_here. by rewrite elem_of_reverse. }
  assert (Enext : next_index (_buffer b) = Ret (first_idx LB 0)).
  { eapply (next_index_ok (K := K)); [exact Hrep |]. by eapply first_idx_range; [| exact Hcb']. }
  assert (Eprev : prev_index (_buffer b) = Ret (last_idx LA 0)).
  { eapply (prev_index_ok (K := K)); [exact Hrep |]. by eapply last_idx_range; [| exact Hca]. }
  split; rewrite Hids.
  - unfold TreeBlocks.have_next. rewrite Enext, bind_ret, Hnext. f_equal. destruct LB as [| [j fs] LB]; [done |].
    destruct Hcb' as (Hj & _). cbn [first_idx]. rewrite bool_decide_true by (simpl; eauto). destruct (Z.eqb_spec j 0); [lia | done].
  - unfold TreeBlocks.have_prev. rewrite Eprev, bind_ret, Hprev. f_equal.
    destruct (leaves_snoc LA) as [-> | (LA' & j & fs & ->)]; [done |].
    rewrite last_idx_snoc, fmap_app, reverse_app. apply chain_app in Hca as [_ (Hj & _)].
    rewrite bool_decide_true by (simpl; eauto). destruct (Z.eqb_spec j 0); [lia | done].
  - rewrite Hnext. intros j Hj. unfold TreeBlocks.to_next. rewrite Enext, bind_ret.
    destruct LB as [| [j' fs] LB]; [done |]. injection Hj as ->.
    apply (go_to_ok _ _ _ _ _ _ (LA ++ [(i, es)]) _ fs LB Ho). by rewrite <- app_assoc.
  - rewrite Hprev. intros j Hj. unfold TreeBlocks.to_prev. rewrite Eprev, bind_ret.
    destruct (leaves_snoc LA) as [-> | (LA' & j' & fs & ->)]; [done |].
    rewrite fmap_app, reverse_app in Hj. injection Hj as ->. rewrite last_idx_snoc.
    apply (go_to_ok _ _ _ _ _ _ LA' _ fs ((i, es) :: LB) Ho). by rewrite <- app_assoc.
Qed.
End Chain.


Module DemoBlocks.
Definition other_pairs : list (Byte.byte * Byte.byte) := [(Byte.x30, Byte.x03)].
Definition other_block : Block := mkBlock 6 false true (make_buffer [3] other_pairs).
Definition first_leaf : Block := mkBlock 1 true true (demo_leaf 0 2 demo_pairs).

Lemma first_leaf_open : leaf_open [] 1 demo_pairs [(2, demo_second)] demo_store first_leaf.
Proof.
  split; try done.
  - distinct.
  - repeat constructor.
  - unfold demo_store, first_leaf. cbn [_buffers _buffer]. rewrite insert_insert_eq. apply demo_chain.
Qed.
End DemoBlocks.

