(* ===== verification/StateMonad.v ===== *)
(** * StateMonad: operations on a state that return or fault

    The monad of the components whose operations change many fields of one object, and a
    weakest-precondition calculus for it: [wp m Q s] says that [m] returns from [s], with a
    result and a state that satisfy [Q].  [wp_run] walks through straight-line code. *)

From S2P Require Import Prelude.

Definition ST (S A : Type) : Type := S -> res (A * S).
#[export] Instance ST_ret {S} : MRet (ST S) := fun A a s => Ret (a, s).
#[export] Instance ST_bind {S} : MBind (ST S) := fun A B k m s =>
  match m s with Ret (a, s') => k a s' | Fault f => Fault f end.

Section Monad.
Context {S : Type}.
Implicit Types (s : S).

Definition gets {A} (f : S -> A) : ST S A := fun s => Ret (f s, s).
Definition modify (f : S -> S) : ST S unit := fun s => Ret (tt, f s).
Definition lift {A} (m : res A) : ST S A := fun s => match m with Ret a => Ret (a, s) | Fault f => Fault f end.
Definition deref {A} (o : option A) : ST S A := lift (of_option o BadPointer).
Definition assert_ (b : bool) : ST S unit := lift (massert b).
Definition when (b : bool) (m : ST S unit) : ST S unit := if b then m else mret tt.

(** ** Weakest preconditions *)

Definition wp {A} (m : ST S A) (Q : A -> S -> Prop) s : Prop :=
  match m s with Ret (a, s') => Q a s' | Fault _ => False end.

#[global] Arguments wp : simpl never.

Lemma st_intro {A} (m : ST S A) (Q : A -> S -> Prop) s :
  wp m Q s <-> exists a s', m s = Ret (a, s') /\ Q a s'.
Proof. unfold wp. destruct (m s) as [[a s'] |]; naive_solver. Qed.

Lemma st_ret {A} (a : A) Q s : Q a s -> wp (mret a) Q s.
Proof. done. Qed.

Lemma st_bind {A B} (m : ST S A) (k : A -> ST S B) Q s : wp m (fun a => wp (k a) Q) s -> wp (m ≫= k) Q s.
Proof. unfold wp, mbind, ST_bind. by destruct (m s) as [[a s'] |]. Qed.

Lemma st_mono {A} (m : ST S A) (P Q : A -> S -> Prop) s : wp m P s -> (forall a s', P a s' -> Q a s') -> wp m Q s.
Proof. unfold wp. destruct (m s) as [[a s'] |]; eauto. Qed.

Lemma st_gets {A} (f : S -> A) (Q : A -> S -> Prop) s : Q (f s) s -> wp (gets f) Q s.
Proof. done. Qed.

Lemma st_modify (f : S -> S) (Q : unit -> S -> Prop) s : Q tt (f s) -> wp (modify f) Q s.
Proof. done. Qed.

Lemma st_lift {A} (m : res A) a (Q : A -> S -> Prop) s : m = Ret a -> Q a s -> wp (lift m) Q s.
Proof. by intros ->. Qed.

Lemma st_deref {A} (o : option A) a (Q : A -> S -> Prop) s : o = Some a -> Q a s -> wp (deref o) Q s.
Proof. by intros ->. Qed.

Lemma st_assert b (Q : unit -> S -> Prop) s : b = true -> Q tt s -> wp (assert_ b) Q s.
Proof. by intros ->. Qed.

(** Two facts of one run. *)
Lemma st_and {A} (m : ST S A) (P Q : A -> S -> Prop) s : wp m P s -> wp m Q s -> wp m (fun a s' => P a s' /\ Q a s') s.
Proof. unfold wp. by destruct (m s) as [[a s'] |]. Qed.
End Monad.

(** [wp_run] takes the steps whose effect is computed; it stops at a call of another operation,
    at a dereference and at a branch. *)
Ltac wp_step :=
  lazymatch goal with
  | |- wp (mret _) _ _ => apply st_ret
  | |- wp (mbind _ _) _ _ => apply st_bind
  | |- wp (gets _) _ _ => apply st_gets
  | |- wp (modify _) _ _ => apply st_modify
  end.
Ltac wp_run := repeat wp_step.

(** [wp_call H]: a call whose behaviour [H] states. *)
Ltac wp_call H := eapply st_mono; [eapply H | cbv beta].

(** [wp_eq H]: a call that returns, as [H] says. *)
Ltac wp_eq H := apply st_intro; eexists _, _; split; [exact H |]; cbv beta iota; wp_run.
Ltac wp_lift H := eapply st_lift; [exact H |]; cbv beta iota; wp_run.
