(* ===== verification/LinkLogFormat.v ===== *)
(** * LinkLogFormat: ids, messages and the encoder of the link log (LogSystem/linkLog/)

    Identification.hpp, LinkLogOperation.hpp, LinkLogErrors.hpp and the static functions of
    [LinkLogEncoder] (LinkLogInterpreter.cpp).  Every message is a byte for the operation and a
    [Mark], an array of bytes whose members are references into it: here a member is a
    [field], an offset with a codec, read by [get] and assigned by [put].  The lemmas at the
    end say that a message that was built holds the values it was built from. *)

From S2P Require Import Prelude Interpreter.
Local Open Scope Z_scope.

(** ** Enumerations: the values of the underlying [uint8] *)

(** [LinkNodeType]; the code compares the values. *)
Definition Invalid : Z := 0.
Definition Head : Z := 1.
Definition BranchHead : Z := 2.
Definition Fork : Z := 3.
Definition Follow : Z := 4.
Definition Decision : Z := 5.
Definition RpcFork : Z := 6.
Definition RpcFollow : Z := 7.
Definition RpcDecision : Z := 8.

(** [LinkErrorType]. *)
Inductive LinkErrorType :=
  | Success | ExtraFollow | WrongType | ExtraDecision | ConflictingNode | FailureNotice
  | NotRegister | AlreadyCreated | CreateTimeOut | EndTimeOut.
#[export] Instance LinkErrorType_dec : EqDecision LinkErrorType.
Proof. solve_decision. Defined.

Definition error_code (e : LinkErrorType) : Z :=
  match e with
  | Success => 0 | ExtraFollow => 1 | WrongType => 2 | ExtraDecision => 3 | ConflictingNode => 4
  | FailureNotice => 5 | NotRegister => 6 | AlreadyCreated => 7 | CreateTimeOut => 8 | EndTimeOut => 9
  end.

(** [OperationType], and the [switch] on a byte that was received; [None] is its [default]. *)
Inductive OperationType :=
  | Null | RegisterLogger | CreateLogger | EndLogger | LinkLog | ErrorLogger | NodeOffline.

Definition operation_code (ot : OperationType) : Z :=
  match ot with
  | Null => 0 | RegisterLogger => 1 | CreateLogger => 2 | EndLogger => 3 | LinkLog => 4
  | ErrorLogger => 5 | NodeOffline => 6
  end.

Definition operation_of (b : Z) : option OperationType :=
  if b =? 1 then Some RegisterLogger else if b =? 2 then Some CreateLogger
  else if b =? 3 then Some EndLogger else if b =? 4 then Some LinkLog
  else if b =? 5 then Some ErrorLogger else if b =? 6 then Some NodeOffline else None.

(** ** Identification.hpp *)

Definition SERVICE_ID_SIZE : Z := 8.
Definition NODE_ID_SIZE : Z := 8.

(** [memcmp] of blocks of the same size: the sign of the first difference. *)
Fixpoint memcmp (l r : list Z) : Z :=
  match l, r with
  | x :: l, y :: r => if x =? y then memcmp l r else x - y
  | _, _ => 0
  end.

Definition mark_equal (l r : list Z) : bool := memcmp l r =? 0.
Definition mark_less (l r : list Z) : bool := memcmp l r <? 0.
Definition mark_great (l r : list Z) : bool := 0 <? memcmp l r.

(** [Mark(data, size)]: zeros, then [size] bytes of the data. *)
Definition Mark_of (n : Z) (data : list Z) : res (list Z) :=
  _ ← massert (zlen data <=? n); mem_write (replicate (Z.to_nat n) 0) 0 data.

Definition mark_valid (m : list Z) : bool := existsb (fun b => negb (b =? 0)) m.

Record Identification := mkID { serviceID : list Z; nodeID : list Z }.
#[export] Instance Identification_dec : EqDecision Identification.
Proof. solve_decision. Defined.

Definition id_equal (l r : Identification) : bool :=
  mark_equal (serviceID l) (serviceID r) && mark_equal (nodeID l) (nodeID r).
Definition id_less (l r : Identification) : bool :=
  if negb (mark_equal (serviceID l) (serviceID r)) then mark_less (serviceID l) (serviceID r)
  else mark_less (nodeID l) (nodeID r).

Definition id_great (l r : Identification) : bool :=
  if negb (mark_equal (serviceID l) (serviceID r)) then mark_great (serviceID l) (serviceID r)
  else mark_great (nodeID l) (nodeID r).

(** ** Members of a [Mark]

    A codec is how a value sits in memory; its laws are part of it. *)

Record codec (A : Type) := mkCodec {
  width : Z;
  encode : A -> list Z;
  decode : list Z -> A;
  fits : A -> Prop;
  encode_width : forall a, fits a -> zlen (encode a) = width;
  decode_encode : forall a, fits a -> decode (encode a) = a
}.
Arguments width {A}. Arguments encode {A}. Arguments decode {A}. Arguments fits {A}.
Arguments encode_width {A}. Arguments decode_encode {A}.

Definition int64_of (z : Z) : Z := if z <? 9223372036854775808 then z else z - 18446744073709551616.

Lemma int64_of_u64 t : -9223372036854775808 <= t < 9223372036854775808 -> int64_of (u64 t) = t.
Proof.
  intros Ht. unfold int64_of, u64. destruct (Z.ltb_spec t 0).
  - replace (t mod 18446744073709551616) with (t + 18446744073709551616).
    2: { symmetry. rewrite <- (Z.mod_add t 1) by lia. apply Z.mod_small. lia. }
    destruct (Z.ltb_spec (t + 18446744073709551616) 9223372036854775808); lia.
  - rewrite Z.mod_small by lia. destruct (Z.ltb_spec t 9223372036854775808); lia.
Qed.

(** Unsigned integers, marks, and [TimeInterval] (an [int64] of nanoseconds). *)
Definition uint_codec (n : nat) : codec Z.
Proof.
  refine (mkCodec Z (Z.of_nat n) (le_encode n) le_decode (fun z => 0 <= z < 256 ^ Z.of_nat n) _ _).
  - intros z _. apply zlen_encode.
  - intros z Hz. by apply le_decode_encode.
Defined.

Definition mark_codec (n : Z) : codec (list Z) :=
  mkCodec (list Z) n (fun bs => bs) (fun bs => bs) (fun bs => zlen bs = n) (fun _ H => H) (fun _ _ => eq_refl).

Definition time_codec : codec Z.
Proof.
  refine (mkCodec Z 8 (fun t => le_encode 8 (u64 t)) (fun bs => int64_of (le_decode bs))
            (fun t => -9223372036854775808 <= t < 9223372036854775808) _ _).
  - intros z _. apply (zlen_encode 8).
  - intros t Ht. rewrite le_decode_encode by (apply (Z.mod_pos_bound t 18446744073709551616); lia).
    by apply int64_of_u64.
Defined.

Record field (A : Type) := mkField { offset : Z; shape : codec A }.
Arguments mkField {A}. Arguments offset {A}. Arguments shape {A}.

Definition get {A} (f : field A) (o : list Z) : A := decode (shape f) (slice (offset f) (width (shape f)) o).
(** The bytes of a member. *)
Definition raw {A} (f : field A) (o : list Z) : list Z := slice (offset f) (width (shape f)) o.
Definition put {A} (f : field A) (a : A) (o : list Z) : list Z := blit (offset f) (encode (shape f) a) o.

Section Members.
Context (n : Z).

Lemma zlen_put_wide {A} (f : field A) a o :
  zlen (encode (shape f) a) = width (shape f) -> 0 <= offset f /\ offset f + width (shape f) <= n -> zlen o = n -> zlen (put f a o) = n.
Proof.
  intros Ha [Ho Hl] <-. unfold put. apply zlen_blit. pose proof (zlen_nonneg (encode (shape f) a)) as Hn.
  rewrite Ha in *. by apply in_block_intro.
Qed.

Lemma zlen_put {A} (f : field A) a o :
  fits (shape f) a -> 0 <= offset f /\ offset f + width (shape f) <= n -> zlen o = n -> zlen (put f a o) = n.
Proof. intros Ha. apply zlen_put_wide. by apply encode_width. Qed.

Lemma get_put_same {A} (f : field A) a o :
  fits (shape f) a -> 0 <= offset f /\ offset f + width (shape f) <= n -> zlen o = n -> get f (put f a o) = a.
Proof.
  intros Ha [Ho Hl] <-. unfold get, put. rewrite <- (decode_encode (shape f) a Ha) at 2. f_equal.
  pose proof (encode_width _ _ Ha) as Hw. pose proof (zlen_nonneg (encode (shape f) a)).
  destruct (split_at o (offset f)) as (X & Y & -> & HX); [lia |]. rewrite zlen_app in Hl.
  destruct (split_at Y (width (shape f))) as (E & W & -> & HE); [lia |].
  rewrite (blit_mid X E) by lia. by apply slice_mid.
Qed.

Lemma get_put_other {A B} (f : field A) (g : field B) b o :
  fits (shape g) b -> 0 <= offset g /\ offset g + width (shape g) <= n -> zlen o = n ->
  0 <= offset f /\ (offset f + width (shape f) <= offset g \/ offset g + width (shape g) <= offset f) ->
  get f (put g b o) = get f o.
Proof.
  intros Hb [Ho Hl] <- [Hf Hd]. unfold get, put. f_equal. pose proof (encode_width _ _ Hb) as Hw.
  apply list_eq. intros i. rewrite !lookup_slice. case_decide; [| done].
  rewrite lookup_blit by lia. rewrite decide_False; [done | lia].
Qed.

Lemma raw_put_same {A} (f : field A) a o :
  fits (shape f) a -> 0 <= offset f /\ offset f + width (shape f) <= n -> zlen o = n -> raw f (put f a o) = encode (shape f) a.
Proof.
  intros Ha [Ho Hl] <-. unfold raw, put. pose proof (encode_width _ _ Ha) as Hw. pose proof (zlen_nonneg (encode (shape f) a)).
  destruct (split_at o (offset f)) as (X & Y & -> & HX); [lia |]. rewrite zlen_app in Hl.
  destruct (split_at Y (width (shape f))) as (E & W & -> & HE); [lia |]. rewrite (blit_mid X E) by lia. by apply slice_mid.
Qed.

Lemma raw_put_other {A B} (f : field A) (g : field B) b o :
  fits (shape g) b -> 0 <= offset g /\ offset g + width (shape g) <= n -> zlen o = n ->
  0 <= offset f /\ (offset f + width (shape f) <= offset g \/ offset g + width (shape g) <= offset f) ->
  raw f (put g b o) = raw f o.
Proof.
  intros Hb [Ho Hl] <- [Hf Hd]. unfold raw, put. pose proof (encode_width _ _ Hb) as Hw.
  apply list_eq. intros i. rewrite !lookup_slice. case_decide; [| done].
  rewrite lookup_blit by lia. rewrite decide_False; [done | lia].
Qed.
End Members.
#[global] Opaque get put.

(** [members n] computes the members of an object of [n] bytes that was built by assignments:
    constant offsets are compared by computation, values fit by assumption. *)
Ltac constants := vm_compute; intuition discriminate.
Ltac fitting := match goal with H : fits _ ?a |- fits _ ?a => exact H end.
Ltac sized := repeat (apply zlen_put; [fitting | constants |]); try first [reflexivity | assumption].
Ltac side := match goal with |- fits _ _ => fitting | |- zlen _ = _ => sized | |- _ => constants end.
Ltac member n :=
  match goal with
  | |- context [get ?f (put ?g ?a ?o)] =>
      first [ constr_eq f g; rewrite (get_put_same n f a o) by side
            | rewrite (get_put_other n f g a o) by side ]
  end.
Ltac members n := cbv zeta; split; [sized |]; repeat member n; done.

Definition sizeof_LinkNodeType : Z := 1.
Definition sizeof_OperationType : Z := 1.
Definition sizeof_LinkErrorType : Z := 1.
Definition sizeof_LogRank : Z := 1.
Definition sizeof_TimeInterval : Z := 8.
Definition sizeof_uint16 : Z := 2.
Definition sizeof_uint32 : Z := 4.

Definition service_at (off : Z) : field (list Z) := mkField off (mark_codec SERVICE_ID_SIZE).
Definition node_at (off : Z) : field (list Z) := mkField off (mark_codec NODE_ID_SIZE).
Definition time_at (off : Z) : field Z := mkField off time_codec.
Definition byte_at (off : Z) : field Z := mkField off (uint_codec 1).
Definition uint16_at (off : Z) : field Z := mkField off (uint_codec 2).
Definition uint32_at (off : Z) : field Z := mkField off (uint_codec 4).

(** The [Mark<size>] of a new object. *)
Definition blank (size : Z) : list Z := replicate (Z.to_nat size) 0.

(** ** LinkLogOperation.hpp *)

Module Index_Key.
Definition size : Z := SERVICE_ID_SIZE + sizeof_TimeInterval + NODE_ID_SIZE.
Definition service := service_at 0.
Definition init_time := time_at SERVICE_ID_SIZE.
Definition node := node_at (SERVICE_ID_SIZE + sizeof_TimeInterval).
Definition make (service_ : list Z) (init_time_ : Z) (node_ : list Z) : list Z :=
  put node node_ (put init_time init_time_ (put service service_ (blank size))).
End Index_Key.

Module Index_Value.
Definition size : Z := sizeof_TimeInterval + NODE_ID_SIZE + sizeof_LinkNodeType + sizeof_TimeInterval + sizeof_uint32.
Definition parent_init_time := time_at 0.
Definition parent_node := node_at sizeof_TimeInterval.
Definition type := byte_at (sizeof_TimeInterval + NODE_ID_SIZE).
Definition latest_file := time_at (sizeof_TimeInterval + NODE_ID_SIZE + sizeof_LinkNodeType).
Definition latest_index := uint32_at (sizeof_TimeInterval + NODE_ID_SIZE + sizeof_LinkNodeType + sizeof_TimeInterval).
Definition make (parent_init_time_ : Z) (parent_node_ : list Z) (type_ latest_file_ latest_index_ : Z) : list Z :=
  put latest_index latest_index_ (put latest_file latest_file_ (put type type_
    (put parent_node parent_node_ (put parent_init_time parent_init_time_ (blank size))))).
End Index_Value.

Module Register_Logger.
Definition size : Z :=
  sizeof_LinkNodeType + SERVICE_ID_SIZE + NODE_ID_SIZE + NODE_ID_SIZE +
  sizeof_TimeInterval + sizeof_TimeInterval + sizeof_TimeInterval.
Definition type := byte_at 0.
Definition service := service_at sizeof_LinkNodeType.
Definition node := node_at (sizeof_LinkNodeType + SERVICE_ID_SIZE).
Definition parent_node := node_at (sizeof_LinkNodeType + SERVICE_ID_SIZE + NODE_ID_SIZE).
Definition time := time_at (sizeof_LinkNodeType + SERVICE_ID_SIZE + NODE_ID_SIZE + NODE_ID_SIZE).
Definition parent_init_time :=
  time_at (sizeof_LinkNodeType + SERVICE_ID_SIZE + NODE_ID_SIZE + NODE_ID_SIZE + sizeof_TimeInterval).
Definition expire_time :=
  time_at (sizeof_LinkNodeType + SERVICE_ID_SIZE + NODE_ID_SIZE + NODE_ID_SIZE + sizeof_TimeInterval + sizeof_TimeInterval).
Definition make (type_ : Z) (service_ node_ parent_node_ : list Z) (time_ parent_init_time_ expire_time_ : Z) : list Z :=
  put expire_time expire_time_ (put parent_init_time parent_init_time_ (put time time_
    (put parent_node parent_node_ (put node node_ (put service service_ (put type type_ (blank size))))))).
End Register_Logger.

Module Create_Logger.
Definition size : Z :=
  sizeof_LinkNodeType + SERVICE_ID_SIZE + NODE_ID_SIZE + NODE_ID_SIZE + sizeof_TimeInterval + sizeof_TimeInterval.
Definition type := byte_at 0.
Definition service := service_at sizeof_LinkNodeType.
Definition node := node_at (sizeof_LinkNodeType + SERVICE_ID_SIZE).
Definition parent_node := node_at (sizeof_LinkNodeType + SERVICE_ID_SIZE + NODE_ID_SIZE).
Definition init_time := time_at (sizeof_LinkNodeType + SERVICE_ID_SIZE + NODE_ID_SIZE + NODE_ID_SIZE).
Definition parent_init_time :=
  time_at (sizeof_LinkNodeType + SERVICE_ID_SIZE + NODE_ID_SIZE + NODE_ID_SIZE + sizeof_TimeInterval).
Definition make (type_ : Z) (service_ node_ parent_node_ : list Z) (init_time_ parent_init_time_ : Z) : list Z :=
  put parent_init_time parent_init_time_ (put init_time init_time_
    (put parent_node parent_node_ (put node node_ (put service service_ (put type type_ (blank size)))))).
End Create_Logger.

Module End_Logger.
Definition size : Z := SERVICE_ID_SIZE + NODE_ID_SIZE + sizeof_TimeInterval + sizeof_TimeInterval.
Definition service := service_at 0.
Definition node := node_at SERVICE_ID_SIZE.
Definition init_time := time_at (SERVICE_ID_SIZE + NODE_ID_SIZE).
Definition end_time := time_at (SERVICE_ID_SIZE + NODE_ID_SIZE + sizeof_TimeInterval).
Definition make (service_ node_ : list Z) (init_time_ end_time_ : Z) : list Z :=
  put end_time end_time_ (put init_time init_time_ (put node node_ (put service service_ (blank size)))).
End End_Logger.

(** The constructor leaves [latest_file] and [latest_index] zero. *)
Module Link_Log_Header.
Definition size : Z :=
  sizeof_uint16 + sizeof_TimeInterval + sizeof_uint32 + Index_Key.size + sizeof_TimeInterval + sizeof_LogRank.
Definition log_size := uint16_at 0.
Definition latest_file := time_at sizeof_uint16.
Definition latest_index := uint32_at (sizeof_uint16 + sizeof_TimeInterval).
Definition service := service_at (sizeof_uint16 + sizeof_TimeInterval + sizeof_uint32).
Definition init_time := time_at (sizeof_uint16 + sizeof_TimeInterval + sizeof_uint32 + SERVICE_ID_SIZE).
Definition node := node_at (sizeof_uint16 + sizeof_TimeInterval + sizeof_uint32 + SERVICE_ID_SIZE + sizeof_TimeInterval).
Definition time :=
  time_at (sizeof_uint16 + sizeof_TimeInterval + sizeof_uint32 + SERVICE_ID_SIZE + sizeof_TimeInterval + NODE_ID_SIZE).
Definition rank :=
  byte_at (sizeof_uint16 + sizeof_TimeInterval + sizeof_uint32 + SERVICE_ID_SIZE + sizeof_TimeInterval + NODE_ID_SIZE +
           sizeof_TimeInterval).
Definition make (log_size_ : Z) (service_ : list Z) (init_time_ : Z) (node_ : list Z) (time_ rank_ : Z) : list Z :=
  put rank rank_ (put time time_ (put node node_ (put init_time init_time_
    (put service service_ (put log_size log_size_ (blank size)))))).
End Link_Log_Header.

Module Error_Logger.
Definition size : Z := SERVICE_ID_SIZE + NODE_ID_SIZE + sizeof_TimeInterval + sizeof_LinkErrorType.
Definition service := service_at 0.
Definition node := node_at SERVICE_ID_SIZE.
Definition time := time_at (SERVICE_ID_SIZE + NODE_ID_SIZE).
Definition error_type := byte_at (SERVICE_ID_SIZE + NODE_ID_SIZE + sizeof_TimeInterval).
Definition make (service_ node_ : list Z) (time_ error_type_ : Z) : list Z :=
  put error_type error_type_ (put time time_ (put node node_ (put service service_ (blank size)))).
End Error_Logger.

Module Node_Offline.
Definition size : Z := sizeof_TimeInterval.
Definition time := time_at 0.
Definition make (time_ : Z) : list Z := put time time_ (blank size).
End Node_Offline.

(** The object in memory: the byte [ot] and the mark, with no padding. *)
Definition object (ot : OperationType) (mark : list Z) : list Z := operation_code ot :: mark.
Definition sizeof (size : Z) : Z := sizeof_OperationType + size.

(** ** LinkLogEncoder

    [memcpy(dest, &logger, limit)] copies [limit] bytes, past the object when [limit] is more
    than its size.  The result is the size that is returned and the memory at [dest]. *)

Module LinkLogEncoder.
Definition MAX_USHORT : Z := 65535.

Definition copy_object (obj dest : list Z) (limit : Z) : res (list Z) :=
  bs ← mem_read obj 0 limit; mem_write dest 0 bs.

Definition register_logger (type_ : Z) (service_ node_ parent_node_ : list Z) (time_ parent_init_time_ expire_time_ : Z)
    (dest : list Z) (limit : Z) : res (Z * list Z) :=
  if limit <? sizeof Register_Logger.size then Ret (0, dest) else
  let logger := Register_Logger.make type_ service_ node_ parent_node_ time_ parent_init_time_ expire_time_ in
  dest ← copy_object (object RegisterLogger logger) dest limit;
  Ret (sizeof Register_Logger.size, dest).

Definition create_logger (type_ : Z) (service_ node_ parent_node_ : list Z) (init_time_ parent_init_time_ : Z)
    (dest : list Z) (limit : Z) : res (Z * list Z) :=
  if limit <? sizeof Create_Logger.size then Ret (0, dest) else
  let logger := Create_Logger.make type_ service_ node_ parent_node_ init_time_ parent_init_time_ in
  dest ← copy_object (object CreateLogger logger) dest limit;
  Ret (sizeof Create_Logger.size, dest).

Definition end_logger (service_ node_ : list Z) (init_time_ end_time_ : Z) (dest : list Z) (limit : Z) : res (Z * list Z) :=
  if limit <? sizeof End_Logger.size then Ret (0, dest) else
  let logger := End_Logger.make service_ node_ init_time_ end_time_ in
  dest ← copy_object (object EndLogger logger) dest limit;
  Ret (sizeof End_Logger.size, dest).

Definition can_write_log (size limit : Z) : bool :=
  (size <=? MAX_USHORT - sizeof Link_Log_Header.size) && (sizeof Link_Log_Header.size + size <=? limit).

(** [dest] is a place of the block [buf]. *)
Definition write_log (service_ : list Z) (node_init_time_ : Z) (node_ : list Z) (time_ rank_ : Z)
    (data : list Z) (size : Z) (buf : list Z) (dest : Z) : res (Z * list Z) :=
  let header := Link_Log_Header.make size service_ node_init_time_ node_ time_ rank_ in
  buf ← mem_write buf dest (object LinkLog header);
  data ← mem_read data 0 size;
  buf ← mem_write buf (dest + sizeof Link_Log_Header.size) data;
  Ret (u16 (sizeof Link_Log_Header.size + get Link_Log_Header.log_size header), buf).
End LinkLogEncoder.

(** ** What the members of a new object are *)

Abbreviation is_service := (fits (mark_codec SERVICE_ID_SIZE)).
Abbreviation is_node := (fits (mark_codec NODE_ID_SIZE)).
Abbreviation is_time := (fits time_codec).
Abbreviation is_uint n := (fits (uint_codec n)).

Section Built.
Context (service node parent_node : list Z) (time init_time parent_init_time expire_time : Z).
Context (type_ rank_ size_ index_ error_ : Z).
Context (Hs : is_service service) (Hn : is_node node) (Hp : is_node parent_node).
Context (Ht : is_time time) (Hi : is_time init_time) (Hpi : is_time parent_init_time) (He : is_time expire_time).
Context (Hty : is_uint 1 type_) (Hr : is_uint 1 rank_) (Hsz : is_uint 2 size_) (Hix : is_uint 4 index_) (Her : is_uint 1 error_).

Lemma key_members :
  let o := Index_Key.make service init_time node in
  zlen o = Index_Key.size /\
  get Index_Key.service o = service /\ get Index_Key.init_time o = init_time /\ get Index_Key.node o = node.
Proof. unfold Index_Key.make. members Index_Key.size. Qed.

Lemma value_members :
  let o := Index_Value.make parent_init_time parent_node type_ time index_ in
  zlen o = Index_Value.size /\
  get Index_Value.parent_init_time o = parent_init_time /\ get Index_Value.parent_node o = parent_node /\
  get Index_Value.type o = type_ /\ get Index_Value.latest_file o = time /\ get Index_Value.latest_index o = index_.
Proof. unfold Index_Value.make. members Index_Value.size. Qed.

Lemma register_members :
  let o := Register_Logger.make type_ service node parent_node time parent_init_time expire_time in
  zlen o = Register_Logger.size /\
  get Register_Logger.type o = type_ /\ get Register_Logger.service o = service /\
  get Register_Logger.node o = node /\ get Register_Logger.parent_node o = parent_node /\
  get Register_Logger.time o = time /\ get Register_Logger.parent_init_time o = parent_init_time /\
  get Register_Logger.expire_time o = expire_time.
Proof. unfold Register_Logger.make. members Register_Logger.size. Qed.

Lemma create_members :
  let o := Create_Logger.make type_ service node parent_node init_time parent_init_time in
  zlen o = Create_Logger.size /\
  get Create_Logger.type o = type_ /\ get Create_Logger.service o = service /\
  get Create_Logger.node o = node /\ get Create_Logger.parent_node o = parent_node /\
  get Create_Logger.init_time o = init_time /\ get Create_Logger.parent_init_time o = parent_init_time.
Proof. unfold Create_Logger.make. members Create_Logger.size. Qed.

Lemma end_members :
  let o := End_Logger.make service node init_time time in
  zlen o = End_Logger.size /\
  get End_Logger.service o = service /\ get End_Logger.node o = node /\
  get End_Logger.init_time o = init_time /\ get End_Logger.end_time o = time.
Proof. unfold End_Logger.make. members End_Logger.size. Qed.

Lemma header_members :
  let o := Link_Log_Header.make size_ service init_time node time rank_ in
  zlen o = Link_Log_Header.size /\
  get Link_Log_Header.log_size o = size_ /\ get Link_Log_Header.service o = service /\
  get Link_Log_Header.init_time o = init_time /\ get Link_Log_Header.node o = node /\
  get Link_Log_Header.time o = time /\ get Link_Log_Header.rank o = rank_.
Proof. unfold Link_Log_Header.make. members Link_Log_Header.size. Qed.

Lemma error_members :
  let o := Error_Logger.make service node time error_ in
  zlen o = Error_Logger.size /\
  get Error_Logger.service o = service /\ get Error_Logger.node o = node /\
  get Error_Logger.time o = time /\ get Error_Logger.error_type o = error_.
Proof. unfold Error_Logger.make. members Error_Logger.size. Qed.

Lemma offline_members :
  let o := Node_Offline.make time in zlen o = Node_Offline.size /\ get Node_Offline.time o = time.
Proof. unfold Node_Offline.make. members Node_Offline.size. Qed.
End Built.

Lemma operation_of_code ot : ot <> Null -> operation_of (operation_code ot) = Some ot.
Proof. by destruct ot. Qed.

Lemma zlen_object ot mark : zlen (object ot mark) = sizeof (zlen mark).
Proof. unfold object. by rewrite zlen_cons. Qed.

(** [memcmp] decides equality of marks of one size, and orders them. *)
Lemma memcmp_refl l : memcmp l l = 0.
Proof. induction l as [| x l IH]; [done |]. simpl. by rewrite Z.eqb_refl. Qed.

Lemma memcmp_eq l r : length l = length r -> memcmp l r = 0 -> l = r.
Proof.
  revert r. induction l as [| x l IH]; intros [| y r]; try done. simpl. intros [= Hl].
  destruct (Z.eqb_spec x y) as [-> | Hne]; [| lia]. intros Hm. by rewrite (IH r).
Qed.

Lemma memcmp_sign l r : Z.sgn (memcmp r l) = - Z.sgn (memcmp l r).
Proof.
  revert r. induction l as [| x l IH]; intros [| y r]; try done. simpl. rewrite (Z.eqb_sym y x).
  destruct (Z.eqb_spec x y); [apply IH |]. lia.
Qed.

Lemma memcmp_app l1 r1 l2 r2 : length l1 = length r1 ->
  memcmp (l1 ++ l2) (r1 ++ r2) = if memcmp l1 r1 =? 0 then memcmp l2 r2 else memcmp l1 r1.
Proof.
  revert r1. induction l1 as [| x l1 IH]; intros [| y r1]; try done. simpl. intros [= Hl].
  destruct (Z.eqb_spec x y); [by apply IH |]. destruct (Z.eqb_spec (x - y) 0); [lia | done].
Qed.

Lemma memcmp_trans l m r : length l = length m -> length m = length r ->
  memcmp l m < 0 -> memcmp m r < 0 -> memcmp l r < 0.
Proof.
  revert m r. induction l as [| x l IH]; intros [| y m] [| z r]; try done. simpl. intros [= H1] [= H2].
  destruct (Z.eqb_spec x y), (Z.eqb_spec y z), (Z.eqb_spec x z); subst; try lia. by apply IH.
Qed.

Lemma mark_equal_spec l r : length l = length r -> mark_equal l r = true <-> l = r.
Proof.
  intros Hl. unfold mark_equal. rewrite Z.eqb_eq. split; [by apply memcmp_eq | intros ->; apply memcmp_refl].
Qed.

Lemma can_write_log_spec size limit :
  LinkLogEncoder.can_write_log size limit = true <-> size <= 65487 /\ 48 + size <= limit.
Proof.
  unfold LinkLogEncoder.can_write_log. rewrite andb_true_iff, !Z.leb_le.
  change (sizeof Link_Log_Header.size) with 48. change LinkLogEncoder.MAX_USHORT with 65535. lia.
Qed.

Lemma log_size_fits size limit : 0 <= size -> LinkLogEncoder.can_write_log size limit = true -> is_uint 2 size.
Proof.
  intros H0 [H1 _]%can_write_log_spec. change (0 <= size < 65536). lia.
Qed.

Lemma copy_object_ok obj n : zlen obj = n -> LinkLogEncoder.copy_object obj (blank n) n = Ret obj.
Proof.
  intros Hn. pose proof (zlen_nonneg obj). unfold LinkLogEncoder.copy_object. rewrite mem_read_ok by lia. rewrite bind_ret.
  rewrite slice_all by done. assert (Hb : zlen (blank n) = n) by (unfold blank; rewrite zlen_replicate; lia).
  rewrite mem_write_ok by lia. f_equal. unfold blit. simpl. rewrite drop_ge; [apply app_nil_r |].
  unfold zlen in *. lia.
Qed.

(** The size of an object needs the marks to have theirs; integers and times always do. *)
Lemma time_wide t : zlen (encode time_codec t) = 8.
Proof. apply (zlen_encode 8). Qed.
Lemma byte_wide z : zlen (encode (uint_codec 1) z) = 1.
Proof. apply (zlen_encode 1). Qed.
Ltac wide :=
  repeat (apply zlen_put_wide; [first [apply time_wide | apply byte_wide | assumption] | constants |]); try reflexivity.

Section Sizes.
Context (service node parent_node : list Z).
Context (Hs : zlen service = SERVICE_ID_SIZE) (Hn : zlen node = NODE_ID_SIZE) (Hp : zlen parent_node = NODE_ID_SIZE).

Lemma register_size ty t pt e :
  zlen (Register_Logger.make ty service node parent_node t pt e) = Register_Logger.size.
Proof. unfold Register_Logger.make. wide. Qed.
Lemma create_size ty t pt : zlen (Create_Logger.make ty service node parent_node t pt) = Create_Logger.size.
Proof. unfold Create_Logger.make. wide. Qed.
Lemma end_size t t' : zlen (End_Logger.make service node t t') = End_Logger.size.
Proof. unfold End_Logger.make. wide. Qed.

Lemma register_encoded ty t pt e :
  LinkLogEncoder.register_logger ty service node parent_node t pt e (blank (sizeof Register_Logger.size)) (sizeof Register_Logger.size) =
  Ret (sizeof Register_Logger.size, object RegisterLogger (Register_Logger.make ty service node parent_node t pt e)).
Proof.
  unfold LinkLogEncoder.register_logger. rewrite Z.ltb_irrefl, copy_object_ok; [done |]. rewrite zlen_object. by rewrite register_size.
Qed.
Lemma create_encoded ty t pt :
  LinkLogEncoder.create_logger ty service node parent_node t pt (blank (sizeof Create_Logger.size)) (sizeof Create_Logger.size) =
  Ret (sizeof Create_Logger.size, object CreateLogger (Create_Logger.make ty service node parent_node t pt)).
Proof.
  unfold LinkLogEncoder.create_logger. rewrite Z.ltb_irrefl, copy_object_ok; [done |]. rewrite zlen_object. by rewrite create_size.
Qed.
Lemma end_encoded t t' :
  LinkLogEncoder.end_logger service node t t' (blank (sizeof End_Logger.size)) (sizeof End_Logger.size) =
  Ret (sizeof End_Logger.size, object EndLogger (End_Logger.make service node t t')).
Proof.
  unfold LinkLogEncoder.end_logger. rewrite Z.ltb_irrefl, copy_object_ok; [done |]. rewrite zlen_object. by rewrite end_size.
Qed.
End Sizes.
