(* ===== verification/LinkLogReplay.v ===== *)
(** * LinkLogReplay: reading a record file back (LogSystem/linkLog/src/LinkLogCenter.cpp)

    [LinkLogCenter::replay_history] and the six functions it dispatches to.  The file is a list
    of bytes behind [readv]; the handler is the list of calls it receives.  The theorem:
    whatever operations the encoder wrote, and wherever the last one was cut off, the replay
    makes the calls of all complete operations, in order, however the reads are split. *)

From S2P Require Import Prelude Interpreter RingBuffer RingQueue RingVectors LinkLogFormat.
Local Open Scope Z_scope.

(** ** LinkLogHandler.hpp *)

Record Link_Log := mkLog {
  service : list Z; node_init_time : Z; node : list Z; rank : Z; time : Z; text : list Z }.

(** [Link_Log(header, text)]. *)
Definition Link_Log_of (header text : list Z) : Link_Log :=
  mkLog (get Link_Log_Header.service header) (get Link_Log_Header.init_time header) (get Link_Log_Header.node header)
    (get Link_Log_Header.rank header) (get Link_Log_Header.time header) text.

(** The calls of [LinkLogReplayHandler]. *)
Inductive handler_call :=
  | create_head_logger (service node : list Z) (time : Z)
  | register_logger (service node parent_node : list Z) (type time expire_time : Z)
  | create_logger (service node : list Z) (init_time : Z)
  | logger_end (service node : list Z) (end_time : Z)
  | receive_log (log : Link_Log)
  | handling_error (service node : list Z) (time error_type : Z).

(** ** The six functions: the bytes read, the calls made and the buffer left *)

Definition replay (A : Type) := ring -> res (A * list handler_call * ring).

(** [buffer.read(&object, sizeof(object))], and its mark. *)
Definition read_mark (size : Z) (buffer : ring) : res (list Z * ring) :=
  '(bs, buffer) ← read (sizeof size) buffer; Ret (tail bs, buffer).

(** What five of the six functions do: nothing when the object is not complete, else read it
    and call the handler with members of it. *)
Definition replay_object (size : Z) (calls : list Z -> list handler_call) : replay Z := fun buffer =>
  if readable_len buffer <? sizeof size then Ret (0, [], buffer) else
  '(o, buffer) ← read_mark size buffer;
  Ret (sizeof size, calls o, buffer).

Definition replay_register_logger : replay Z :=
  replay_object Register_Logger.size (fun o =>
    [register_logger (get Register_Logger.service o) (get Register_Logger.node o) (get Register_Logger.parent_node o)
       (get Register_Logger.type o) (get Register_Logger.time o) (get Register_Logger.parent_init_time o)]).

Definition replay_create_logger : replay Z :=
  replay_object Create_Logger.size (fun o =>
    [if get Create_Logger.type o =? Head
     then create_head_logger (get Create_Logger.service o) (get Create_Logger.node o) (get Create_Logger.init_time o)
     else create_logger (get Create_Logger.service o) (get Create_Logger.node o) (get Create_Logger.init_time o)]).

Definition replay_end_logger : replay Z :=
  replay_object End_Logger.size (fun o =>
    [logger_end (get End_Logger.service o) (get End_Logger.node o) (get End_Logger.end_time o)]).

Definition replay_error_logger : replay Z :=
  replay_object Error_Logger.size (fun o =>
    [handling_error (get Error_Logger.service o) (get Error_Logger.node o) (get Error_Logger.time o)
       (get Error_Logger.error_type o)]).

Definition replay_remove_server : replay Z := replay_object Node_Offline.size (fun _ => []).

Definition replay_log : replay Z := fun buffer =>
  if readable_len buffer <? sizeof Link_Log_Header.size then Ret (0, [], buffer) else
  bs ← try_read (sizeof Link_Log_Header.size) 0 buffer;
  let header := tail bs in
  let log_size := get Link_Log_Header.log_size header in
  if readable_len buffer <? log_size + sizeof Link_Log_Header.size then Ret (0, [], buffer) else
  buffer ← read_advance (sizeof Link_Log_Header.size) buffer;
  '(text, buffer) ← read log_size buffer;
  Ret (sizeof Link_Log_Header.size + log_size, [receive_log (Link_Log_of header text)], buffer).

(** ** replay_history *)

(** The [switch]; a byte that is no operation ends the process. *)
Definition replay_one : replay Z := fun buffer =>
  ot ← try_read sizeof_OperationType 0 buffer;
  match operation_of (hd 0 ot) with
  | Some RegisterLogger => replay_register_logger buffer
  | Some CreateLogger => replay_create_logger buffer
  | Some EndLogger => replay_end_logger buffer
  | Some LinkLog => replay_log buffer
  | Some ErrorLogger => replay_error_logger buffer
  | Some NodeOffline => replay_remove_server buffer
  | _ => Fault Exited
  end.

(** The inner loop; [total] is [total_read]. *)
Fixpoint replay_buffer (fuel : nat) (read total : Z) : replay Z := fun buffer =>
  match fuel with
  | O => Fault OutOfFuel
  | S fuel =>
      if negb (read =? 0) && (sizeof_OperationType <? readable_len buffer) then
        '(read, calls, buffer) ← replay_one buffer;
        '(total, rest, buffer) ← replay_buffer fuel read (u64 (total + read)) buffer;
        Ret (total, calls ++ rest, buffer)
      else Ret (total, [], buffer)
  end.

Section File.

(** [readv(fd, array, 2)] of a file with [rest] bytes left into [room] bytes of buffers. *)
Context (readv : Z -> Z -> Z).

Definition inner_fuel (buffer : ring) : nat := S (Z.to_nat (readable_len buffer)).

Fixpoint replay_file (fuel : nat) (file : list Z) (total : Z) : replay Z := fun buffer =>
  match fuel with
  | O => Fault OutOfFuel
  | S fuel =>
      arr ← writable_array buffer;
      let file_read := readv (zlen file) (array_size_of arr) in
      if file_read <=? 0 then Ret (total, [], buffer) else
      buf ← array_put (_buffer buffer) arr (take (Z.to_nat file_read) file);
      buffer ← write_advance file_read (mkRing buf (_read buffer) (_write buffer) (_readable buffer));
      '(total, calls, buffer) ← replay_buffer (inner_fuel buffer) 1 total buffer;
      '(total, rest, buffer) ← replay_file fuel (drop (Z.to_nat file_read) file) total buffer;
      Ret (total, calls ++ rest, buffer)
  end.

(** [None] when the file does not open; [mem] is the block of [RingBuffer buffer(1 << 16)]. *)
Definition replay_history (mem : list Z) (file : option (list Z)) : res (Z * list handler_call) :=
  match file with
  | None => Ret (0, [])
  | Some file =>
      if negb (_size (ring_init mem) =? 65536) then Ret (0, []) else
      '(total, calls, _) ← replay_file (S (length file)) file 0 (ring_init mem);
      Ret (total, calls)
  end.
End File.

(** ** What the encoder writes *)

(** The operations of the server, with what they put into the record file. *)
Inductive operation :=
  | Register (type : Z) (service node parent_node : list Z) (time parent_init_time expire_time : Z)
  | Create (type : Z) (service node parent_node : list Z) (init_time parent_init_time : Z)
  | End (service node : list Z) (init_time end_time : Z)
  | Log (service : list Z) (init_time : Z) (node : list Z) (time rank : Z) (text : list Z)
  | Error (service node : list Z) (time error : Z)
  | Offline (time : Z).

(** The encoder into a new object of the right size, as the server calls it; errors and the
    last message of a connection are copied as objects. *)
Definition encode_operation (op : operation) : res (list Z) :=
  match op with
  | Register type service node parent_node time parent_init_time expire_time =>
      let size := sizeof Register_Logger.size in
      '(_, bs) ← LinkLogEncoder.register_logger type service node parent_node time parent_init_time expire_time (blank size) size;
      Ret bs
  | Create type service node parent_node init_time parent_init_time =>
      let size := sizeof Create_Logger.size in
      '(_, bs) ← LinkLogEncoder.create_logger type service node parent_node init_time parent_init_time (blank size) size; Ret bs
  | End service node init_time end_time =>
      let size := sizeof End_Logger.size in
      '(_, bs) ← LinkLogEncoder.end_logger service node init_time end_time (blank size) size; Ret bs
  | Log service init_time node time rank text =>
      '(_, bs) ← LinkLogEncoder.write_log service init_time node time rank text (zlen text)
                    (blank (sizeof Link_Log_Header.size + zlen text)) 0; Ret bs
  | Error service node time error => Ret (object ErrorLogger (Error_Logger.make service node time error))
  | Offline time => Ret (object NodeOffline (Node_Offline.make time))
  end.

(** Values that fit their members, and a log that [can_write_log] lets pass. *)
Definition valid_operation (op : operation) : Prop :=
  match op with
  | Register type service node parent_node time parent_init_time expire_time =>
      is_uint 1 type /\ is_service service /\ is_node node /\ is_node parent_node /\
      is_time time /\ is_time parent_init_time /\ is_time expire_time
  | Create type service node parent_node init_time parent_init_time =>
      is_uint 1 type /\ is_service service /\ is_node node /\ is_node parent_node /\
      is_time init_time /\ is_time parent_init_time
  | End service node init_time end_time =>
      is_service service /\ is_node node /\ is_time init_time /\ is_time end_time
  | Log service init_time node time rank text =>
      is_service service /\ is_time init_time /\ is_node node /\ is_time time /\ is_uint 1 rank /\
      LinkLogEncoder.can_write_log (zlen text) 65535 = true
  | Error service node time error => is_service service /\ is_node node /\ is_time time /\ is_uint 1 error
  | Offline time => is_time time
  end.

(** What the handler hears of an operation.  A registration is replayed with the parent's
    initial time in the place of its expiry. *)
Definition calls_of (op : operation) : list handler_call :=
  match op with
  | Register type service node parent_node time parent_init_time expire_time =>
      [register_logger service node parent_node type time parent_init_time]
  | Create type service node parent_node init_time parent_init_time =>
      [if type =? Head then create_head_logger service node init_time else create_logger service node init_time]
  | End service node init_time end_time => [logger_end service node end_time]
  | Log service init_time node time rank text => [receive_log (mkLog service init_time node rank time text)]
  | Error service node time error => [handling_error service node time error]
  | Offline time => []
  end.

(** The bytes of an operation: its code, its mark, and the text of a log. *)
Definition code_of (op : operation) : OperationType :=
  match op with
  | Register _ _ _ _ _ _ _ => RegisterLogger
  | Create _ _ _ _ _ _ => CreateLogger
  | End _ _ _ _ => EndLogger
  | Log _ _ _ _ _ _ => LinkLog
  | Error _ _ _ _ => ErrorLogger
  | Offline _ => NodeOffline
  end.
Definition mark_of (op : operation) : list Z :=
  match op with
  | Register type service node parent_node time parent_init_time expire_time =>
      Register_Logger.make type service node parent_node time parent_init_time expire_time
  | Create type service node parent_node init_time parent_init_time =>
      Create_Logger.make type service node parent_node init_time parent_init_time
  | End service node init_time end_time => End_Logger.make service node init_time end_time
  | Log service init_time node time rank text => Link_Log_Header.make (zlen text) service init_time node time rank
  | Error service node time error => Error_Logger.make service node time error
  | Offline time => Node_Offline.make time
  end.
Definition text_of (op : operation) : list Z := match op with Log _ _ _ _ _ text => text | _ => [] end.
Definition mark_size (op : operation) : Z :=
  match op with
  | Register _ _ _ _ _ _ _ => Register_Logger.size
  | Create _ _ _ _ _ _ => Create_Logger.size
  | End _ _ _ _ => End_Logger.size
  | Log _ _ _ _ _ _ => Link_Log_Header.size
  | Error _ _ _ _ => Error_Logger.size
  | Offline _ => Node_Offline.size
  end.
Definition bytes_of (op : operation) : list Z := object (code_of op) (mark_of op) ++ text_of op.

Lemma zlen_mark op : valid_operation op -> zlen (mark_of op) = mark_size op.
Proof.
  destruct op; cbn [valid_operation mark_of mark_size]; intros; destruct_and?.
  - by apply register_members.
  - by apply create_members.
  - by apply end_members.
  - apply header_members; try assumption. eapply log_size_fits; [apply zlen_nonneg | eassumption].
  - by apply error_members.
  - by apply offline_members.
Qed.

Lemma zlen_bytes op : valid_operation op -> zlen (bytes_of op) = sizeof (mark_size op) + zlen (text_of op).
Proof. intros Hv. unfold bytes_of. rewrite zlen_app, zlen_object. by rewrite zlen_mark. Qed.

Lemma encode_ok op : valid_operation op -> encode_operation op = Ret (bytes_of op).
Proof.
  intros Hv. pose proof (zlen_mark op Hv) as Hm. unfold bytes_of.
  destruct op; cbn [encode_operation code_of mark_of mark_size text_of] in *; rewrite ?app_nil_r; try done.
  - unfold LinkLogEncoder.register_logger. rewrite Z.ltb_irrefl, copy_object_ok; [done |]. rewrite zlen_object. by rewrite Hm.
  - unfold LinkLogEncoder.create_logger. rewrite Z.ltb_irrefl, copy_object_ok; [done |]. rewrite zlen_object. by rewrite Hm.
  - unfold LinkLogEncoder.end_logger. rewrite Z.ltb_irrefl, copy_object_ok; [done |]. rewrite zlen_object. by rewrite Hm.
  - unfold LinkLogEncoder.write_log.
    assert (Ho : zlen (object LinkLog (Link_Log_Header.make (zlen text0) service0 init_time node0 time0 rank0)) = sizeof Link_Log_Header.size)
      by (rewrite zlen_object; by rewrite Hm).
    assert (Hb : blank (sizeof Link_Log_Header.size + zlen text0) = blank (sizeof Link_Log_Header.size) ++ blank (zlen text0) ++ []).
    { unfold blank. rewrite app_nil_r, <- replicate_add. f_equal. pose proof (zlen_nonneg text0). change (sizeof Link_Log_Header.size) with 48. lia. }
    rewrite Hb, (mem_write_mid [] (blank (sizeof Link_Log_Header.size)) _ (blank (zlen text0) ++ []) 0) by (done || by rewrite Ho).
    rewrite bind_ret, app_nil_l.
    pose proof (zlen_nonneg text0). rewrite mem_read_ok by lia. rewrite bind_ret, slice_all by done.
    rewrite mem_write_mid; [by rewrite app_nil_r | rewrite Ho; lia |]. unfold blank. rewrite zlen_replicate. lia.
Qed.

(** ** One operation *)

Section One.
Implicit Types (b : ring).

Lemma tail_object ot mark : tail (object ot mark) = mark.
Proof. reflexivity. Qed.

Lemma readable_contents b : ring_wf b -> readable_len b = zlen (contents b).
Proof. intros Hb. unfold readable_len. by rewrite zlen_contents. Qed.

Lemma read_mark_ok ot mark rest b : ring_wf b -> contents b = object ot mark ++ rest ->
  exists b', read_mark (zlen mark) b = Ret (mark, b') /\ ring_wf b' /\ contents b' = rest /\ _size b' = _size b.
Proof.
  intros Hb Hc. unfold read_mark. pose proof (zlen_nonneg mark).
  destruct (read_spec (sizeof (zlen mark)) b Hb) as (b' & -> & Hb' & Hc' & _ & Hbuf); [unfold sizeof, sizeof_OperationType; lia |].
  exists b'. rewrite bind_ret. rewrite Hc in Hc'. rewrite drop_zlen in Hc' by (by rewrite zlen_object).
  split; [| split; [done | split; [done | unfold _size; by rewrite Hbuf]]].
  rewrite Hc, take_zlen by (by rewrite zlen_object). done.
Qed.

Lemma first_byte op rest b : ring_wf b -> contents b = object (code_of op) (mark_of op) ++ rest ->
  try_read sizeof_OperationType 0 b = Ret [operation_code (code_of op)].
Proof.
  intros Hb Hc. rewrite try_read_spec by (done || unfold sizeof_OperationType, MAX_UINT; lia). rewrite Hc. done.
Qed.

Lemma replay_object_ok size calls ot mark rest b :
  zlen mark = size -> ring_wf b -> contents b = object ot mark ++ rest ->
  exists b', replay_object size calls b = Ret (sizeof size, calls mark, b') /\
    ring_wf b' /\ contents b' = rest /\ _size b' = _size b.
Proof.
  intros <- Hb Hc. destruct (read_mark_ok ot mark rest b Hb Hc) as (b' & Hr & Hb'). exists b'. split; [| done].
  unfold replay_object. rewrite readable_contents, Hc, zlen_app, zlen_object by done.
  pose proof (zlen_nonneg rest). rewrite (proj2 (Z.ltb_ge _ _)) by lia. by rewrite Hr.
Qed.

Lemma replay_object_short size calls b :
  ring_wf b -> zlen (contents b) < sizeof size -> replay_object size calls b = Ret (0, [], b).
Proof. intros Hb Hl. unfold replay_object. rewrite readable_contents by done. by rewrite (proj2 (Z.ltb_lt _ _)) by done. Qed.

(** A log whose header is there: the text may still be missing. *)
Lemma replay_log_header service init_time node time rank text rest b :
  let op := Log service init_time node time rank text in
  valid_operation op -> ring_wf b -> contents b = object LinkLog (mark_of op) ++ rest ->
  if zlen rest <? zlen text then replay_log b = Ret (0, [], b)
  else exists b', replay_log b = Ret (zlen (bytes_of op), [receive_log (mkLog service init_time node rank time (take (length text) rest))], b') /\
         ring_wf b' /\ contents b' = drop (length text) rest /\ _size b' = _size b.
Proof.
  intros op Hv Hb Hc. pose proof (zlen_mark op Hv) as Hm. pose proof (zlen_bytes op Hv) as Hz. pose proof (zlen_nonneg rest) as Hr.
  cbn [valid_operation op] in Hv. destruct Hv as (Hs & Hi & Hn & Ht & Hk & Hw).
  destruct (header_members service node time init_time rank (zlen text)) as (_ & Hsz & Es & Ei & En & Et & Ek); try assumption.
  { eapply log_size_fits; [apply zlen_nonneg | eassumption]. }
  assert (Ho : zlen (object LinkLog (mark_of op)) = sizeof Link_Log_Header.size) by (rewrite zlen_object; by rewrite Hm).
  assert (Hl : readable_len b = sizeof Link_Log_Header.size + zlen rest) by (rewrite readable_contents, Hc, zlen_app, Ho; done).
  assert (Hgo : replay_log b =
    if zlen rest <? zlen text then Ret (0, [], b) else
    b1 ← read_advance (sizeof Link_Log_Header.size) b; '(t, b2) ← read (zlen text) b1;
    Ret (zlen (bytes_of op), [receive_log (mkLog service init_time node rank time t)], b2)).
  { unfold replay_log. rewrite Hl, (proj2 (Z.ltb_ge _ _)) by lia.
    rewrite try_read_spec by (done || (vm_compute; congruence)). rewrite bind_ret, Hc. unfold slice.
    rewrite drop_0, take_zlen by (by rewrite Ho). rewrite tail_object. cbn [op mark_of]. rewrite Hsz.
    assert (Hlt : (sizeof Link_Log_Header.size + zlen rest <? zlen text + sizeof Link_Log_Header.size) = (zlen rest <? zlen text))
      by (destruct (Z.ltb_spec (sizeof Link_Log_Header.size + zlen rest) (zlen text + sizeof Link_Log_Header.size)), (Z.ltb_spec (zlen rest) (zlen text)); (done || lia)).
    rewrite Hlt. unfold Link_Log_of. rewrite Es, Ei, En, Et, Ek, Hz. done. }
  rewrite Hgo. clear Hgo. destruct (Z.ltb_spec (zlen rest) (zlen text)); [done |].
  destruct (read_advance_spec (sizeof Link_Log_Header.size) b Hb) as (b1 & -> & Hb1 & Hbuf1 & _ & Hc1).
  { rewrite <- Ho. pose proof (zlen_nonneg (object LinkLog (mark_of op))). unfold readable_len in Hl. lia. }
  rewrite bind_ret. rewrite Hc, drop_zlen in Hc1 by (by rewrite Ho).
  destruct (read_spec (zlen text) b1 Hb1) as (b2 & -> & Hb2 & Hc2 & _ & Hbuf2); [apply zlen_nonneg |].
  rewrite bind_ret. exists b2. rewrite Hc2, Hc1. unfold zlen at 2 4. rewrite !Nat2Z.id.
  split; [done | split; [done | split; [done |]]]. unfold _size. by rewrite Hbuf2, Hbuf1.
Qed.

(** The calls of the five functions, for the mark the operation has. *)
Lemma replay_object_case calls op rest b :
  valid_operation op -> text_of op = [] -> calls (mark_of op) = calls_of op -> ring_wf b ->
  contents b = object (code_of op) (mark_of op) ++ text_of op ++ rest ->
  exists b', replay_object (mark_size op) calls b = Ret (sizeof (mark_size op) + zlen (text_of op), calls_of op, b') /\
    ring_wf b' /\ contents b' = rest /\ _size b' = _size b.
Proof.
  intros Hv Ht Hcalls Hb Hc. rewrite Ht in *. change (zlen []) with 0. rewrite Z.add_0_r, <- Hcalls.
  by apply (replay_object_ok _ _ (code_of op)); [apply zlen_mark | |].
Qed.

Lemma replay_one_ok op rest b : valid_operation op -> ring_wf b -> contents b = bytes_of op ++ rest ->
  exists b', replay_one b = Ret (zlen (bytes_of op), calls_of op, b') /\ ring_wf b' /\ contents b' = rest /\ _size b' = _size b.
Proof.
  intros Hv Hb Hc. unfold bytes_of in Hc. rewrite <- app_assoc in Hc.
  unfold replay_one. rewrite (first_byte op _ b Hb Hc), bind_ret. cbn [hd].
  rewrite operation_of_code by (by destruct op). rewrite (zlen_bytes op Hv).
  destruct op as [ty s n p t pt e | ty s n p t pt | s n t t' | s t n t' r x | s n t e | t]; cbn [code_of].
  1, 2, 3, 5, 6: (apply (replay_object_case _ _ _ _ Hv eq_refl); [| done | exact Hc]; cbn [mark_of calls_of valid_operation] in *; destruct_and?).
  - by destruct (register_members s n p t pt e ty) as (_ & -> & -> & -> & -> & -> & -> & _).
  - by destruct (create_members s n p t pt ty) as (_ & -> & -> & -> & _ & -> & _).
  - by destruct (end_members s n t' t) as (_ & -> & -> & _ & ->).
  - by destruct (error_members s n t e) as (_ & -> & -> & -> & ->).
  - done.
  - pose proof (replay_log_header s t n t' r x (x ++ rest) b Hv Hb Hc) as Hlog. cbn [text_of] in *.
    pose proof (zlen_nonneg rest). rewrite zlen_app, (proj2 (Z.ltb_ge _ _)), take_app_length, drop_app_length in Hlog by lia.
    rewrite (zlen_bytes _ Hv) in Hlog. exact Hlog.
Qed.

(** An operation that is not complete is left in the buffer. *)
Lemma replay_one_short op more b : valid_operation op -> ring_wf b ->
  bytes_of op = contents b ++ more -> more <> [] -> contents b <> [] -> replay_one b = Ret (0, [], b).
Proof.
  intros Hv Hb Hc Hmore Hne. assert (Hl : zlen (contents b) < zlen (bytes_of op)).
  { rewrite Hc, zlen_app. destruct more; [done |]. rewrite zlen_cons. pose proof (zlen_nonneg more). lia. }
  rewrite (zlen_bytes op Hv) in Hl. unfold replay_one.
  assert (Hf : try_read sizeof_OperationType 0 b = Ret [operation_code (code_of op)]).
  { rewrite try_read_spec by (done || (unfold sizeof_OperationType, MAX_UINT; lia)).
    destruct (contents b) as [| c l]; [done |]. unfold bytes_of, object in Hc. injection Hc as <- _. done. }
  rewrite Hf, bind_ret. cbn [hd]. rewrite operation_of_code by (by destruct op).
  destruct op as [ty s n p t pt e | ty s n p t pt | s n t t' | s t n t' r x | s n t e | t]; cbn [code_of].
  1, 2, 3, 5, 6: (apply replay_object_short; [done |]; cbn [mark_size text_of] in Hl; change (zlen []) with 0 in Hl; lia).
  destruct (Z.ltb_spec (zlen (contents b)) (sizeof Link_Log_Header.size)) as [Hlt | Hge].
  { unfold replay_log. rewrite readable_contents by done. by rewrite (proj2 (Z.ltb_lt _ _)) by done. }
  pose proof (zlen_mark _ Hv) as Hm. cbn [text_of mark_size] in *.
  assert (Ho : zlen (object LinkLog (mark_of (Log s t n t' r x))) = sizeof Link_Log_Header.size) by (rewrite zlen_object; by rewrite Hm).
  destruct (split_at (contents b) (sizeof Link_Log_Header.size)) as (X & Y & HXY & HX); [vm_compute in Hge; vm_compute; split; congruence || lia |].
  assert (HX' : X = object LinkLog (mark_of (Log s t n t' r x))).
  { unfold bytes_of in Hc. rewrite HXY, <- app_assoc in Hc. apply (f_equal (take (Z.to_nat (sizeof Link_Log_Header.size)))) in Hc.
    rewrite (take_zlen X) in Hc by done. by rewrite take_zlen in Hc by done. }
  pose proof (replay_log_header s t n t' r x Y b Hv Hb) as Hlog. rewrite HXY, HX' in Hlog. specialize (Hlog eq_refl).
  rewrite HXY, zlen_app, HX in Hl. by rewrite (proj2 (Z.ltb_lt _ _)) in Hlog by lia.
Qed.
End One.

(** ** The loops *)

Definition stream (ops : list operation) : list Z := concat (map bytes_of ops).

(** Bytes an operation was cut off at. *)
Definition cut_off (c : list Z) : Prop := exists op more, valid_operation op /\ bytes_of op = c ++ more /\ more <> [].

Lemma bytes_bounds op : valid_operation op -> 2 <= zlen (bytes_of op) <= 65535.
Proof.
  intros Hv. rewrite zlen_bytes by done. pose proof (zlen_nonneg (text_of op)).
  destruct op; cbn [mark_size text_of] in *; try (vm_compute; split; congruence).
  cbn [valid_operation] in Hv. destruct_and?. change (sizeof Link_Log_Header.size) with 48.
  match goal with H : LinkLogEncoder.can_write_log _ _ = true |- _ => apply can_write_log_spec in H as [? _] end. lia.
Qed.

Lemma cut_off_bound c : cut_off c -> zlen c < 65535.
Proof.
  intros (op & more & Hv & He & Hne). pose proof (bytes_bounds op Hv) as [_ Hb]. rewrite He, zlen_app in Hb.
  destruct more; [done |]. rewrite zlen_cons in Hb. pose proof (zlen_nonneg more). lia.
Qed.

Lemma cut_off_prefix c d : cut_off (c ++ d) -> cut_off c.
Proof.
  intros (op & more & Hv & He & Hne). exists op, (d ++ more). rewrite He, app_assoc. split; [done | split; [done |]].
  by destruct d.
Qed.

(** What is left when the loop has read all complete operations. *)
Definition stuck (ops : list operation) (c : list Z) : Prop :=
  cut_off c /\ match ops with [] => True | op :: _ => zlen c < zlen (bytes_of op) end.

Lemma stuck_now c more ops rest : Forall valid_operation ops -> cut_off rest -> c ++ more = stream ops ++ rest ->
  match ops with [] => True | op :: _ => zlen c < zlen (bytes_of op) end -> stuck ops c.
Proof.
  intros Hv Hrest He Hl. split; [| done]. destruct ops as [| op ops].
  - simpl in He. rewrite <- He in Hrest. by eapply cut_off_prefix.
  - exists op, (drop (length c) (bytes_of op)). unfold stream in He. cbn [map concat] in He. rewrite <- app_assoc in He.
    assert (Hc : take (length c) (bytes_of op) = c).
    { apply (f_equal (take (length c))) in He. rewrite take_app_length in He. rewrite take_app_le in He; [done |].
      unfold zlen in Hl. lia. }
    apply list.Forall_cons in Hv as [Hv _]. split; [done |]. split; [rewrite <- Hc at 1; by rewrite take_drop |].
    intros Hd. apply (f_equal length) in Hd. rewrite length_drop, length_nil in Hd. unfold zlen in Hl. lia.
Qed.

Lemma replay_buffer_ok fuel : forall ops b read total more rest,
  Forall valid_operation ops -> ring_wf b -> cut_off rest -> contents b ++ more = stream ops ++ rest ->
  read <> 0 -> zlen (contents b) < Z.of_nat fuel -> 0 <= total -> total + zlen (contents b) < 18446744073709551616 ->
  exists ops1 ops2 b', ops = ops1 ++ ops2 /\
    replay_buffer fuel read total b = Ret (total + zlen (stream ops1), flat_map calls_of ops1, b') /\
    ring_wf b' /\ _size b' = _size b /\ contents b = stream ops1 ++ contents b' /\ stuck ops2 (contents b').
Proof.
  induction fuel as [| fuel IH]; intros ops b read total more rest Hops Hb Hrest He Hread Hf Ht Htot.
  { pose proof (zlen_nonneg (contents b)). lia. }
  cbn [replay_buffer]. rewrite (proj2 (Z.eqb_neq _ _) Hread). cbn [negb andb].
  assert (Hstay : stuck ops (contents b) -> exists ops1 ops2 b', ops = ops1 ++ ops2 /\
    Ret (total, [], b) = Ret (total + zlen (stream ops1), flat_map calls_of ops1, b') /\
    ring_wf b' /\ _size b' = _size b /\ contents b = stream ops1 ++ contents b' /\ stuck ops2 (contents b')).
  { intros Hs. exists [], ops, b. cbn. by rewrite Z.add_0_r. }
  rewrite readable_contents by done. unfold sizeof_OperationType. destruct (Z.ltb_spec 1 (zlen (contents b))) as [Hl | Hl].
  - assert (Hcons : ops = [] \/ (exists op ops', ops = op :: ops' /\ zlen (contents b) < zlen (bytes_of op)) \/
                    (exists op ops', ops = op :: ops' /\ zlen (bytes_of op) <= zlen (contents b))).
    { destruct ops as [| op ops']; [by left | right].
      destruct (Z.lt_ge_cases (zlen (contents b)) (zlen (bytes_of op))); [left | right]; by exists op, ops'. }
    assert (Hshort : stuck ops (contents b) -> exists ops1 ops2 b', ops = ops1 ++ ops2 /\
      ('(read, calls, buffer) ← replay_one b; '(total, rest, buffer) ← replay_buffer fuel read (u64 (total + read)) buffer;
       Ret (total, calls ++ rest, buffer)) = Ret (total + zlen (stream ops1), flat_map calls_of ops1, b') /\
      ring_wf b' /\ _size b' = _size b /\ contents b = stream ops1 ++ contents b' /\ stuck ops2 (contents b')).
    { clear IH. intros Hs. pose proof Hs as [(op & more' & Hv & Hop & Hne) _].
      rewrite (replay_one_short op more' b Hv Hb Hop Hne) by (intros Hn; rewrite Hn in Hl; done).
      rewrite bind_ret. destruct fuel as [| fuel]; [lia |]. cbn [replay_buffer]. cbn [Z.eqb negb andb]. rewrite bind_ret, Z.add_0_r.
      unfold u64. rewrite Z.mod_small by (pose proof (zlen_nonneg (contents b)); lia). by apply Hstay. }
    destruct Hcons as [-> | [(op & ops' & -> & Hlt) | (op & ops' & -> & Hge)]].
    + apply Hshort. by apply (stuck_now _ more _ rest).
    + apply Hshort. by apply (stuck_now _ more _ rest).
    + apply list.Forall_cons in Hops as [Hv Hops']. unfold stream in He. cbn [map concat] in He. rewrite <- app_assoc in He.
      assert (Hc : contents b = bytes_of op ++ drop (length (bytes_of op)) (contents b)).
      { rewrite <- (take_drop (length (bytes_of op)) (contents b)) at 1. f_equal.
        apply (f_equal (take (length (bytes_of op)))) in He. rewrite take_app_length in He. rewrite <- He at 2.
        rewrite (take_app_le _ more); [reflexivity |]. unfold zlen in Hge. lia. }
      destruct (replay_one_ok op _ b Hv Hb Hc) as (b1 & -> & Hb1 & Hc1 & Hs1). rewrite bind_ret.
      pose proof (bytes_bounds op Hv) as [Hb2 _]. rewrite Hc, zlen_app in Htot, Hf. rewrite <- Hc1 in Hc, Hf, Htot.
      rewrite Hc, <- app_assoc in He. apply app_inv_head in He.
      unfold u64. rewrite Z.mod_small by (pose proof (zlen_nonneg (contents b1)); lia).
      destruct (IH ops' b1 (zlen (bytes_of op)) (total + zlen (bytes_of op)) more rest) as (ops1 & ops2 & b' & -> & Hr & Hb' & Hs' & Hc' & Hst);
        try done; try lia.
      rewrite Hr, bind_ret. exists (op :: ops1), ops2, b'. unfold stream. cbn [map concat flat_map].
      split; [done |]. split; [rewrite zlen_app; do 3 f_equal; unfold stream; lia |].
      split; [done |]. split; [by rewrite Hs' |]. split; [| done]. rewrite Hc, Hc'. by rewrite <- app_assoc.
  - apply Hstay. destruct ops as [| op ops]; [by apply (stuck_now _ more _ rest) |].
    apply (stuck_now _ more _ rest); try done. apply list.Forall_cons in Hops as [Hv _]. pose proof (bytes_bounds op Hv). lia.
Qed.

(** ** Reading the file *)

(** The law of [readv]: at most what there is and what fits, and something unless one of them is
    nothing. *)
Definition reads_file (readv : Z -> Z -> Z) : Prop :=
  forall rest room, 0 <= rest -> 0 <= room ->
    0 <= readv rest room <= Z.min rest room /\ (0 < Z.min rest room -> 0 < readv rest room).

Section Files.
Context (readv : Z -> Z -> Z) (Hreadv : reads_file readv).

Lemma replay_file_ok fuel : forall file ops b total rest,
  Forall valid_operation ops -> ring_wf b -> _size b = 65536 -> cut_off rest ->
  stuck ops (contents b) -> contents b ++ file = stream ops ++ rest ->
  (length file < fuel)%nat -> 0 <= total -> total + zlen (stream ops ++ rest) < 18446744073709551616 ->
  exists b', replay_file readv fuel file total b = Ret (total + zlen (stream ops), flat_map calls_of ops, b').
Proof.
  induction fuel as [| fuel IH]; intros file ops b total rest Hops Hb Hs Hrest Hst He Hf Ht Htot; [lia |].
  assert (Hroom : 0 < writable_len b).
  { unfold writable_len. rewrite Hs. destruct Hst as [Hc%cut_off_bound _]. rewrite zlen_contents in Hc by done. lia. }
  pose proof (zlen_nonneg file) as Hfile. destruct (Hreadv (zlen file) (writable_len b)) as [Hn Hpos]; [lia.. |].
  set (n := readv (zlen file) (writable_len b)) in *.
  assert (Hd : zlen (take (Z.to_nat n) file) = n) by (apply zlen_take; lia).
  destruct (fill_spec b (take (Z.to_nat n) file) Hb ltac:(lia)) as (arr & buf & b1 & Harr & Hsz & Hput & Hadv & Hb1 & Hc1 & Hs1).
  cbn [replay_file]. rewrite Harr, bind_ret, Hsz. fold n. rewrite Hd in Hadv. destruct (Z.leb_spec n 0) as [Hz | Hz].
  { assert (zlen file = 0) as Hz' by lia. assert (file = []) as -> by (by destruct file). rewrite app_nil_r in He.
    destruct Hst as [_ Hst]. destruct ops as [| op ops]; [exists b; cbn; by rewrite Z.add_0_r |].
    rewrite He in Hst. unfold stream in Hst. cbn [map concat] in Hst. rewrite !zlen_app in Hst.
    pose proof (zlen_nonneg (concat (map bytes_of ops))). pose proof (zlen_nonneg rest). lia. }
  rewrite Hput, bind_ret, Hadv, bind_ret.
  assert (He1 : contents b1 ++ drop (Z.to_nat n) file = stream ops ++ rest) by (by rewrite Hc1, <- app_assoc, take_drop).
  assert (Hzc : zlen (contents b1) <= zlen (stream ops ++ rest)).
  { rewrite <- He1, zlen_app. pose proof (zlen_nonneg (drop (Z.to_nat n) file)). lia. }
  pose proof (zlen_nonneg (contents b1)).
  destruct (replay_buffer_ok (inner_fuel b1) ops b1 1 total (drop (Z.to_nat n) file) rest) as (ops1 & ops2 & b2 & -> & Hr & Hb2 & Hs2 & Hc2 & Hst2);
    try done; try lia.
  { unfold inner_fuel. rewrite readable_contents by done. lia. }
  rewrite Hr, bind_ret. unfold stream in He1, Htot |- *. rewrite map_app, concat_app in He1, Htot |- *.
  fold (stream ops1) (stream ops2) in *. rewrite Hc2, <- !app_assoc in He1. apply app_inv_head in He1. apply Forall_app in Hops as [_ Hops2].
  rewrite <- app_assoc, (zlen_app (stream ops1)) in Htot. pose proof (zlen_nonneg (stream ops1)).
  destruct (IH (drop (Z.to_nat n) file) ops2 b2 (total + zlen (stream ops1)) rest) as (b' & Hr2); try done; try lia.
  { rewrite length_drop. unfold zlen in Hn. lia. }
  exists b'. rewrite Hr2, bind_ret, zlen_app, flat_map_app. do 3 f_equal. lia.
Qed.
End Files.

(** ** Properties *)

(** Every operation the encoder produced is one the replay reads. *)
Definition encodes (op : operation) (bs : list Z) : Prop := encode_operation op = Ret bs.

Lemma encodes_stream ops chunks : Forall valid_operation ops -> Forall2 encodes ops chunks -> concat chunks = stream ops.
Proof.
  intros Hv He. induction He as [| op bs ops chunks Hop _ IH]; [done |]. apply list.Forall_cons in Hv as [Hv Hvs].
  unfold stream. cbn [map concat]. rewrite IH by done. unfold encodes in Hop. rewrite encode_ok in Hop by done. by injection Hop as <-.
Qed.

(** C24. Replaying a record file: the encoder writes any operations whose values fit (and logs that
    [can_write_log] accepts), the file may end in the middle of one more; however [readv] splits
    the file, the replay returns (its loops end), reads all the complete operations, calls the
    handler once for each of them with the values that were encoded, in the order they were
    written, and never touches memory outside its buffer.  As [calls_of] says, an [Offline] record
    calls nothing, and a registration is replayed with the parent's initial time where the handler
    expects the expiry. *)
Theorem record_replay (readv : Z -> Z -> Z) (mem : list Z) (ops : list operation) (chunks : list (list Z)) (rest : list Z) :
  reads_file readv -> zlen mem = 65536 -> Forall valid_operation ops -> Forall2 encodes ops chunks ->
  (exists op bs more, valid_operation op /\ encodes op bs /\ bs = rest ++ more /\ more <> []) ->
  zlen (concat chunks ++ rest) < 18446744073709551616 ->
  replay_history readv mem (Some (concat chunks ++ rest)) = Ret (zlen (concat chunks), flat_map calls_of ops).
Proof.
  intros Hr Hm Hv He Hrest Hl. rewrite (encodes_stream _ _ Hv He) in *. unfold replay_history.
  change (_size (ring_init mem)) with (zlen mem). rewrite Hm. cbn [Z.eqb Pos.eqb negb].
  assert (Hcut : cut_off rest).
  { destruct Hrest as (op & bs & more & Hop & Henc & Hbs & Hne). exists op, more. split; [done |]. split; [| done].
    unfold encodes in Henc. rewrite encode_ok in Henc by done. injection Henc as <-. done. }
  assert (Hwf : ring_wf (ring_init mem)) by (apply ring_init_wf; rewrite Hm; vm_compute; congruence).
  assert (Hempty : contents (ring_init mem) = []) by (apply length_zero_iff_nil; pose proof (zlen_contents _ Hwf) as Hz; unfold zlen in Hz; cbn [_readable ring_init] in Hz; lia).
  destruct (replay_file_ok readv Hr (S (length (stream ops ++ rest))) (stream ops ++ rest) ops (ring_init mem) 0 rest) as (b' & Hb'); try done; try lia.
  { rewrite Hempty. apply (stuck_now [] (stream ops ++ rest) ops rest); try done. destruct ops as [| op ops]; [done |].
    apply list.Forall_cons in Hv as [Hv _]. pose proof (bytes_bounds op Hv). change (zlen []) with 0. lia. }
  by rewrite Hb', bind_ret, Z.add_0_l.
Qed.

Definition demo_operations : list operation :=
  [Create Head (blank 8) (blank 8) (blank 8) 5 0; Log (blank 8) 5 (blank 8) 7 2 [104; 105]; Error (blank 8) (blank 8) (-3) 4;
   Register Fork (blank 8) (blank 8) (blank 8) 8 5 90; End (blank 8) (blank 8) 5 9].

Lemma record_replay_witness :
  let chunks := match mapM encode_operation demo_operations with Ret c => c | Fault _ => [] end in
  replay_history (fun rest room => Z.min 7 (Z.min rest room)) (replicate (Z.to_nat 65536) 0) (Some (concat chunks ++ [4; 2; 0])) =
  Ret (zlen (concat chunks), flat_map calls_of demo_operations).
Proof.
  apply record_replay.
  - intros rest room Hrest Hroom. lia.
  - by rewrite zlen_replicate.
  - repeat constructor; vm_compute; congruence.
  - repeat constructor.
  - exists (Log (blank 8) 5 (blank 8) 7 2 [104; 105]). eexists. eexists.
    split; [repeat constructor; vm_compute; congruence |]. split; [reflexivity |].
    split; [vm_compute; reflexivity | discriminate].
  - vm_compute. reflexivity.
Defined.
