(* ===== verification/LinkLogServer.v ===== *)
(** * LinkLogServer: the registry of loggers (LogSystem/linkLog/src/LinkLogServer.cpp, LinkLogger.cpp)

    The map of nodes, the timers and the flags the two share.  A [std::map] iterator is a key
    and the number of the allocation it points at, so that a dereference of an erased
    entry faults, even when the key is in the map again; the flags are cells of a heap, so that a
    use after [delete] faults.  What an operation writes to its buffer, what it tells the handler
    and what it queues for the center are the events of the state. *)

From stdpp Require Import gmap.
From S2P Require Import Prelude StateMonad Interpreter LinkLogFormat.
From S2P Require LinkLogReplay.
Local Open Scope Z_scope.

#[export] Instance Identification_countable : Countable Identification :=
  inj_countable' (fun i => (serviceID i, nodeID i)) (fun p => mkID p.1 p.2) (fun '(mkID s n) => eq_refl).

(** ** State *)

Record MapIter := mkIter { key : Identification; alloc : nat }.
#[export] Instance MapIter_dec : EqDecision MapIter.
Proof. solve_decision. Defined.

(** [None] is a default-constructed buffer iterator, [_nodes.end()], a null pointer. *)
Record NodeMessage := mkNode {
  type : Z; subtype : Z; created : bool; sub_decision_created : bool;
  buf_iter : option nat; init_time : Z; parent_iter : option MapIter; logger_timout : option nat }.

Definition NodeMessage_new (t : Z) (pi : option MapIter) : NodeMessage :=
  mkNode t Invalid false false None 0 pi None.

Definition with_subtype t (m : NodeMessage) := mkNode (type m) t (created m) (sub_decision_created m) (buf_iter m) (init_time m) (parent_iter m) (logger_timout m).
Definition with_created c (m : NodeMessage) := mkNode (type m) (subtype m) c (sub_decision_created m) (buf_iter m) (init_time m) (parent_iter m) (logger_timout m).
Definition with_sub_decision (m : NodeMessage) := mkNode (type m) (subtype m) (created m) true (buf_iter m) (init_time m) (parent_iter m) (logger_timout m).
Definition with_buffer b (m : NodeMessage) := mkNode (type m) (subtype m) (created m) (sub_decision_created m) b (init_time m) (parent_iter m) (logger_timout m).
Definition with_init_time t (m : NodeMessage) := mkNode (type m) (subtype m) (created m) (sub_decision_created m) (buf_iter m) t (parent_iter m) (logger_timout m).
Definition with_flag p (m : NodeMessage) := mkNode (type m) (subtype m) (created m) (sub_decision_created m) (buf_iter m) (init_time m) (parent_iter m) p.

Record TimerData := mkTimer { expire_time : Z; iter : MapIter; timer_flag : option nat }.

Inductive event :=
  | Wrote (buffer : nat) (bytes : list Z)
  | Logged (buffer : nat) (service : list Z) (init_time : Z) (node : list Z) (time rank : Z) (data : list Z)
  | Called (c : LinkLogReplay.handler_call)
  | Queued (bytes : list Z).

Record server := mkServer {
  _nodes : gmap Identification (nat * NodeMessage);
  next_alloc : nat;
  flags : gmap nat bool;
  next_flag : nat;
  _timers : list TimerData;
  ref_counts : list Z;
  ticks : nat;
  events : list event
}.

Definition set_nodes f s := mkServer (f (_nodes s)) (next_alloc s) (flags s) (next_flag s) (_timers s) (ref_counts s) (ticks s) (events s).
Definition set_flags f s := mkServer (_nodes s) (next_alloc s) (f (flags s)) (next_flag s) (_timers s) (ref_counts s) (ticks s) (events s).
Definition set_timers f s := mkServer (_nodes s) (next_alloc s) (flags s) (next_flag s) (f (_timers s)) (ref_counts s) (ticks s) (events s).
Definition set_refs f s := mkServer (_nodes s) (next_alloc s) (flags s) (next_flag s) (_timers s) (f (ref_counts s)) (ticks s) (events s).
Definition tick s := mkServer (_nodes s) (next_alloc s) (flags s) (next_flag s) (_timers s) (ref_counts s) (S (ticks s)) (events s).
Definition emit e s := mkServer (_nodes s) (next_alloc s) (flags s) (next_flag s) (_timers s) (ref_counts s) (ticks s) (events s ++ [e]).

Abbreviation M := (ST server).

(** ** std::map and the cells of the flags *)

Definition live s (it : MapIter) : option NodeMessage :=
  match _nodes s !! key it with Some (a, m) => if decide (a = alloc it) then Some m else None | None => None end.

Definition find (id : Identification) : M (option MapIter) :=
  gets (fun s => match _nodes s !! id with Some (a, _) => Some (mkIter id a) | None => None end).

Definition node_of (it : MapIter) : M NodeMessage := fun s => deref (live s it) s.

Definition update_node (it : MapIter) (f : NodeMessage -> NodeMessage) : M unit :=
  m ← node_of it; modify (set_nodes <[key it := (alloc it, f m)]>).

Definition try_emplace (id : Identification) (m : NodeMessage) : M (MapIter * bool) := fun s =>
  match _nodes s !! id with
  | Some (a, _) => Ret ((mkIter id a, false), s)
  | None =>
      Ret ((mkIter id (next_alloc s), true),
           mkServer (<[id := (next_alloc s, m)]> (_nodes s)) (S (next_alloc s)) (flags s) (next_flag s) (_timers s)
             (ref_counts s) (ticks s) (events s))
  end.

Definition erase_node (it : MapIter) : M unit := _ ← node_of it; modify (set_nodes (delete (key it))).

Definition new_flag : M nat := fun s =>
  Ret (next_flag s, mkServer (_nodes s) (next_alloc s) (<[next_flag s := false]> (flags s)) (S (next_flag s)) (_timers s)
                      (ref_counts s) (ticks s) (events s)).
Definition read_flag (p : nat) : M bool := fun s => deref (flags s !! p) s.
Definition set_flag (p : nat) : M unit := _ ← read_flag p; modify (set_flags <[p := true]>).
Definition delete_flag (p : nat) : M unit := _ ← read_flag p; modify (set_flags (delete p)).

(** ** NodeMessage *)

Definition create (it : MapIter) : M unit :=
  p ← new_flag; update_node it (with_flag (Some p)).

Definition destroy (it : MapIter) : M unit :=
  m ← node_of it;
  p ← deref (logger_timout m);
  b ← read_flag p;
  (if b : bool then delete_flag p else set_flag p);;
  update_node it (with_flag None).

(** [++buf_iter->ref_count], [--buf_iter->ref_count]. *)
Definition ref_count (b : nat) : M Z := fun s => deref (ref_counts s !! b) s.
Definition change_ref (b : nat) (d : Z) : M unit := c ← ref_count b; modify (set_refs <[b := u32 (c + d)]>).

Section Server.

(** [Unix_to_now()]: the clock when it is read for the nth time. *)
Context (clock : nat -> Z).
Definition Unix_to_now : M Z := t ← gets (fun s => clock (ticks s)); modify tick;; mret t.

Definition complete_message (it : MapIter) (b : nat) : M unit :=
  update_node it (with_created true);;
  update_node it (with_buffer (Some b));;
  change_ref b 1;;
  now ← Unix_to_now;
  update_node it (with_init_time now).

Definition shutdown (it : MapIter) : M unit :=
  update_node it (with_created false);;
  m ← node_of it;
  b ← deref (buf_iter m);
  change_ref b (-1).

(** ** The timers: [std::priority_queue], first the one that expires first *)

Fixpoint insert_timer (t : TimerData) (l : list TimerData) : list TimerData :=
  match l with
  | [] => [t]
  | t' :: l => if expire_time t <? expire_time t' then t :: t' :: l else t' :: insert_timer t l
  end.

(** [_timers.emplace(expire_time, iter)]: the constructor copies the node's pointer. *)
Definition emplace_timer (expire : Z) (it : MapIter) : M unit :=
  m ← node_of it; modify (set_timers (insert_timer (mkTimer expire it (logger_timout m)))).

(** [TimerData::check_timeout]. *)
Definition timer_check (t : TimerData) : M bool :=
  p ← deref (timer_flag t);
  b ← read_flag p;
  if b : bool then delete_flag p;; mret false else set_flag p;; mret true.

(** ** Writing to a buffer *)

Definition valid_buffer (b : option nat) : M nat :=
  b ← deref b; _ ← ref_count b; mret b.

Definition safe_write (b : option nat) (data : list Z) : M unit := b ← valid_buffer b; modify (emit (Wrote b data)).

Definition safe_error (b : option nat) (service node : list Z) (error : LinkErrorType) : M unit :=
  b ← valid_buffer b;
  now ← Unix_to_now;
  modify (emit (Wrote b (object ErrorLogger (Error_Logger.make service node now (error_code error)))));;
  modify (emit (Called (LinkLogReplay.handling_error service node now (error_code error)))).

(** ** The operations *)

(** The buffer with the fewest references. *)
Fixpoint least_used (min_ref : Z) (best i : nat) (refs : list Z) : nat :=
  match refs with
  | [] => best
  | r :: refs => if min_ref <=? r then least_used min_ref best (S i) refs else least_used r i (S i) refs
  end.
Definition get_buffer_iter : M nat :=
  refs ← gets ref_counts;
  match refs with [] => deref None | r :: refs => mret (least_used r 0%nat 1%nat refs) end.

Definition create_head_logger_locked (service node : list Z) (timeout : Z) (is_branch : bool) :
    M (LinkErrorType * MapIter * option nat * list Z) :=
  let type := if is_branch then BranchHead else Head in
  '(new_iter, success) ← try_emplace (mkID service node) (NodeMessage_new type None);
  if negb success then m ← node_of new_iter; mret (ConflictingNode, new_iter, buf_iter m, []) else
  b ← get_buffer_iter;
  complete_message new_iter b;;
  create new_iter;;
  m ← node_of new_iter;
  emplace_timer (init_time m + timeout) new_iter;;
  '(_, logger) ← lift (LinkLogEncoder.create_logger type service node (blank NODE_ID_SIZE) (init_time m) 0
                         (blank (sizeof Create_Logger.size)) (sizeof Create_Logger.size));
  mret (Success, new_iter, Some b, logger).

(** The members of a message that was encoded. *)
Definition told {A} (f : field A) (logger : list Z) : A := get f (tail logger).

Definition create_head_logger (service node : list Z) (timeout : Z) (is_branch : bool) : M (LinkErrorType * MapIter) :=
  '(state, it, b, logger) ← create_head_logger_locked service node timeout is_branch;
  (if decide (state = Success) then
     safe_write b logger;;
     modify (emit (Called (LinkLogReplay.create_head_logger (told Create_Logger.service logger) (told Create_Logger.node logger)
                             (told Create_Logger.init_time logger))))
   else safe_error b service node state);;
  mret (state, it).

Definition register_logger_locked (parent : MapIter) (type_ : Z) (node_id : list Z) (timeout : Z) :
    M (LinkErrorType * option nat * list Z) :=
  p ← node_of parent;
  let b := buf_iter p in
  if subtype p =? Follow then mret (ExtraFollow, b, []) else
  when (subtype p =? Invalid) (update_node parent (with_subtype type_));;
  p ← node_of parent;
  if negb (subtype p =? type_) then mret (WrongType, b, []) else
  if (subtype p =? Decision) && sub_decision_created p then mret (ExtraDecision, b, []) else
  now ← Unix_to_now;
  ok ← (if type_ <=? Decision then
          '(new_iter, success) ← try_emplace (mkID (serviceID (key parent)) node_id) (NodeMessage_new type_ (Some parent));
          if negb success then mret false else
          create new_iter;; emplace_timer (now + timeout) new_iter;; mret true
        else mret true);
  if negb ok then mret (ConflictingNode, b, []) else
  p ← node_of parent;
  '(_, logger) ← lift (LinkLogEncoder.register_logger type_ (serviceID (key parent)) node_id (nodeID (key parent)) now
                         (init_time p) (now + timeout) (blank (sizeof Register_Logger.size)) (sizeof Register_Logger.size));
  mret (Success, buf_iter p, logger).

Definition register_logger (parent : MapIter) (type_ : Z) (node_id : list Z) (timeout : Z) : M LinkErrorType :=
  '(state, b, logger) ← register_logger_locked parent type_ node_id timeout;
  (if decide (state = Success) then
     safe_write b logger;;
     modify (emit (Called (LinkLogReplay.register_logger (told Register_Logger.service logger) (told Register_Logger.node logger)
                             (told Register_Logger.parent_node logger) (told Register_Logger.type logger)
                             (told Register_Logger.time logger) (told Register_Logger.expire_time logger))))
   else safe_error b (serviceID (key parent)) node_id state);;
  mret state.

(** [_nodes.end()] is the iterator of the result that nobody uses. *)
Definition end_iter : MapIter := mkIter (mkID [] []) 0.

Definition create_logger_locked (service node : list Z) (timeout : Z) : M (LinkErrorType * MapIter * option nat * list Z) :=
  it ← find (mkID service node);
  match it with
  | None => b ← get_buffer_iter; mret (NotRegister, end_iter, Some b, [])
  | Some it =>
      m ← node_of it;
      if created m then mret (AlreadyCreated, it, buf_iter m, []) else
      when (type m =? Decision) (pi ← deref (parent_iter m); update_node pi with_sub_decision);;
      parent ← deref (parent_iter m);
      p ← node_of parent;
      b ← deref (buf_iter p);
      complete_message it b;;
      destroy it;;
      m ← node_of it;
      p ← node_of parent;
      '(_, logger) ← lift (LinkLogEncoder.create_logger (type m) service node (nodeID (key parent)) (init_time m) (init_time p)
                             (blank (sizeof Create_Logger.size)) (sizeof Create_Logger.size));
      create it;;
      now ← Unix_to_now;
      emplace_timer (now + timeout) it;;
      mret (Success, it, Some b, logger)
  end.

Definition create_logger (service node : list Z) (timeout : Z) : M (LinkErrorType * MapIter) :=
  '(state, it, b, logger) ← create_logger_locked service node timeout;
  if decide (state = Success) then
    safe_write b logger;;
    modify (emit (Called (LinkLogReplay.create_logger (told Create_Logger.service logger) (told Create_Logger.node logger)
                            (told Create_Logger.init_time logger))));;
    mret (state, it)
  else
    safe_error b service node state;;
    if decide (state = NotRegister) then create_head_logger service node timeout false else mret (state, it).

Definition destroy_logger_locked (it : MapIter) : M (option nat * list Z) :=
  found ← find (key it);
  assert_ (bool_decide (found = Some it));;
  m ← node_of it;
  now ← Unix_to_now;
  '(_, logger) ← lift (LinkLogEncoder.end_logger (serviceID (key it)) (nodeID (key it)) (init_time m) now
                         (blank (sizeof End_Logger.size)) (sizeof End_Logger.size));
  shutdown it;;
  destroy it;;
  erase_node it;;
  mret (buf_iter m, logger).

Definition destroy_logger (it : MapIter) : M unit :=
  '(b, logger) ← destroy_logger_locked it;
  safe_write b logger;;
  modify (emit (Called (LinkLogReplay.logger_end (told End_Logger.service logger) (told End_Logger.node logger)
                          (told End_Logger.end_time logger)))).

(** What [check_timeout] does with a timer that went off; [center] is [_center.agent_valid()]. *)
Definition report_timeout (center : bool) (t : TimerData) (error : LinkErrorType) : M unit :=
  let service := serviceID (key (iter t)) in let node := nodeID (key (iter t)) in
  when center (modify (emit (Queued (object ErrorLogger (Error_Logger.make service node (expire_time t) (error_code error))))));;
  modify (emit (Called (LinkLogReplay.handling_error service node (expire_time t) (error_code error)))).

Definition handle_timeout (center : bool) (t : TimerData) : M unit :=
  m ← node_of (iter t);
  if created m then report_timeout center t EndTimeOut
  else when (negb (type m =? Decision)) (report_timeout center t CreateTimeOut);; destroy (iter t);; erase_node (iter t).

Fixpoint check_timers (fuel : nat) (center : bool) (now : Z) : M unit :=
  match fuel with
  | O => lift (Fault OutOfFuel)
  | S fuel =>
      timers ← gets _timers;
      match timers with
      | t :: _ =>
          if expire_time t <=? now then
            off ← timer_check t;
            when off (handle_timeout center t);;
            modify (set_timers tail);;
            check_timers fuel center now
          else mret tt
      | [] => mret tt
      end
  end.

Definition check_timeout (center : bool) : M unit :=
  now ← Unix_to_now;
  fuel ← gets (fun s => S (length (_timers s)));
  check_timers fuel center now.

(** ** LinkLogger.cpp

    An object is its rank, its iterator ([None] is [Iter()]) and whether [_server] is set. *)

Record LinkLogger := mkLogger { _rank : Z; _iter : option MapIter; _server : bool }.

(** Using [_server] when it is null is undefined. *)
Definition server_of (g : LinkLogger) : M unit := deref (if _server g then Some tt else None).

Definition moved_from (g : LinkLogger) : LinkLogger := mkLogger (_rank g) (_iter g) false.

(** A constructor: an exception when the state is not [Success]. *)
Definition construct (rank : Z) (m : M (LinkErrorType * MapIter)) : M (LinkErrorType + LinkLogger) :=
  '(state, it) ← m;
  mret (if decide (state = Success) then inr (mkLogger rank (Some it) true) else inl state).

Definition LinkLogger_head (rank : Z) (service node : list Z) (is_branch : bool) (end_timeout : Z) : M (LinkErrorType + LinkLogger) :=
  construct rank (create_head_logger service node end_timeout is_branch).
Definition LinkLogger_node (rank : Z) (service node : list Z) (end_timeout : Z) : M (LinkErrorType + LinkLogger) :=
  construct rank (create_logger service node end_timeout).
Definition LinkLogger_child (rank : Z) (parent : LinkLogger) (node : list Z) (end_timeout : Z) : M (LinkErrorType + LinkLogger) :=
  server_of parent;;
  it ← deref (_iter parent);
  _ ← node_of it;
  construct rank (create_logger (serviceID (key it)) node end_timeout).

(** [push]: what happens to the buffer is in LinkLogBuffers.v. *)
Definition push (g : LinkLogger) (rank : Z) (data : list Z) : M unit :=
  if rank <? _rank g then mret tt else
  it ← deref (_iter g);
  m ← node_of it;
  b ← valid_buffer (buf_iter m);
  now ← Unix_to_now;
  modify (emit (Logged b (serviceID (key it)) (init_time m) (nodeID (key it)) now rank data)).

(** The error that [register_child_node] throws, if any. *)
Definition register_child_node (g : LinkLogger) (type : Z) (node_id : list Z) (create_timeout : Z) : M (option LinkErrorType) :=
  it ← deref (_iter g);
  if (type =? BranchHead) || (type =? Head) then _ ← node_of it; mret (Some WrongType) else
  server_of g;;
  state ← register_logger it type node_id create_timeout;
  mret (if decide (state = Success) then None else Some state).

Definition fork (g : LinkLogger) := register_child_node g Fork.
Definition follow (g : LinkLogger) := register_child_node g Follow.
Definition decision (g : LinkLogger) := register_child_node g Decision.
Definition rpc_fork (g : LinkLogger) := register_child_node g RpcFork.
Definition rpc_follow (g : LinkLogger) := register_child_node g RpcFollow.
Definition rpc_decision (g : LinkLogger) := register_child_node g RpcDecision.

Definition close (g : LinkLogger) : M LinkLogger :=
  if _server g then it ← deref (_iter g); destroy_logger it;; mret (mkLogger (_rank g) None false) else mret g.
End Server.
