(* ===== verification/LinkLogWiring.v ===== *)
(** * LinkLogWiring: who owns the flags of the link log server

    A flag is a cell that a node and its timer share: the first of the two that is done with it
    sets it, the second deletes it.  [wired] is the invariant on the maps the server's
    state is seen as: a flag is false exactly when both hold it, true when one of them does, and
    no flag is without an owner.  The lemmas are the moves the operations consist of. *)

From stdpp Require Import gmap.
From S2P Require Import Prelude StateMonad Interpreter LinkLogFormat LinkLogServer.
Local Open Scope Z_scope.

(** A node may be without a flag, or its flag without a timer, in the middle of an operation. *)
Inductive stage := Wired | Unarmed (id : Identification) | Untimed (id : Identification).

Section Wiring.
Implicit Types (W : gmap Identification (nat * option nat)) (F : gmap nat bool) (l : list TimerData) (X : stage).

Definition timer_has l (p : nat) : Prop := exists t, t ∈ l /\ timer_flag t = Some p.
Definition node_has W (id : Identification) (p : nat) : Prop := exists a, W !! id = Some (a, Some p).

Record wired X l W F (n : nat) : Prop := {
  w_timer : forall t, t ∈ l -> exists p b, timer_flag t = Some p /\ F !! p = Some b /\
    (b = false -> W !! key (iter t) = Some (alloc (iter t), Some p));
  w_node : forall id a o, W !! id = Some (a, o) ->
    match o with
    | Some p => exists b, F !! p = Some b /\ (b = false <-> timer_has l p \/ X = Untimed id) /\ (X = Untimed id -> ~ timer_has l p)
    | None => X = Unarmed id
    end;
  w_flag : forall p b, F !! p = Some b -> timer_has l p \/ exists id, node_has W id p;
  w_timers : NoDup (timer_flag <$> l);
  w_nodes : forall id1 id2 p, node_has W id1 p -> node_has W id2 p -> id1 = id2;
  w_next : forall p, is_Some (F !! p) -> (p < n)%nat
}.

Lemma timer_has_perm l l' p : l ≡ₚ l' -> timer_has l p -> timer_has l' p.
Proof. intros Hp (t & Ht & Hf). exists t. by rewrite <- Hp. Qed.

Lemma wired_perm X l l' W F n : l ≡ₚ l' -> wired X l W F n -> wired X l' W F n.
Proof.
  intros Hp [H1 H2 H3 H4 H5 H6].
  assert (Hh : forall p, timer_has l p <-> timer_has l' p) by (intros p; split; by apply timer_has_perm).
  split; try done.
  - intros t Ht. apply H1. by rewrite Hp.
  - intros id a o Ho. specialize (H2 id a o Ho). destruct o as [p |]; [| done]. by setoid_rewrite <- Hh.
  - intros p b Hb. rewrite <- Hh. by eapply H3.
  - by rewrite <- Hp.
Qed.

Lemma insert_timer_perm t l : insert_timer t l ≡ₚ t :: l.
Proof.
  induction l as [| t' l IH]; [done |]. simpl. destruct (expire_time t <? expire_time t'); [done |].
  rewrite IH. constructor.
Qed.

Lemma timer_has_cons t l p : timer_has (t :: l) p <-> timer_flag t = Some p \/ timer_has l p.
Proof.
  split.
  - intros (t' & [-> | Ht]%elem_of_cons & Hf); [by left | right; by exists t'].
  - intros [Hf | (t' & Ht & Hf)]; [exists t | exists t']; (split; [set_solver | done]).
Qed.

Lemma timer_has_elem l p : timer_has l p <-> Some p ∈ timer_flag <$> l.
Proof.
  rewrite list_elem_of_fmap. split; [intros (t & ? & ?); exists t; by split | intros (t & ? & ?); exists t; by split].
Qed.

Lemma wired_known X l W F n id a p : wired X l W F n -> W !! id = Some (a, Some p) -> is_Some (F !! p).
Proof. intros Hw Hid. destruct (w_node _ _ _ _ _ Hw _ _ _ Hid) as (b & Hb & _). by exists b. Qed.

(** A new node has no flag. *)
Lemma wired_add l W F n id a : wired Wired l W F n -> W !! id = None -> wired (Unarmed id) l (<[id := (a, None)]> W) F n.
Proof.
  intros [H1 H2 H3 H4 H5 H6] Hid. split; try done.
  - intros t Ht. destruct (H1 t Ht) as (p & b & Hp & Hb & Hl). exists p, b. split; [done | split; [done |]].
    intros Hf. specialize (Hl Hf). rewrite lookup_insert_ne; [done | congruence].
  - intros id' a' o Ho. apply lookup_insert_Some in Ho as [[-> [= _ <-]] | [Hne Ho]]; [done |].
    specialize (H2 _ _ _ Ho). destruct o as [p |]; [| done]. destruct H2 as (b & Hb & Hx & _). exists b.
    split; [done |]. split; [rewrite Hx; intuition congruence | done].
  - intros p b Hb. destruct (H3 p b Hb) as [? | (id' & a' & Hi)]; [by left | right; exists id', a'].
    rewrite lookup_insert_ne; [done | congruence].
  - intros id1 id2 p (a1 & Ha1) (a2 & Ha2). apply lookup_insert_Some in Ha1 as [[_ ?] | [_ Ha1]]; [done |].
    apply lookup_insert_Some in Ha2 as [[_ ?] | [_ Ha2]]; [done |]. apply (H5 _ _ p); [by exists a1 | by exists a2].
Qed.

(** [create]: a new flag for the node. *)
Lemma wired_arm l W F n id a : wired (Unarmed id) l W F n -> W !! id = Some (a, None) ->
  wired (Untimed id) l (<[id := (a, Some n)]> W) (<[n := false]> F) (S n).
Proof.
  intros [H1 H2 H3 H4 H5 H6] Hid.
  assert (Hn : F !! n = None) by (destruct (F !! n) eqn:E; [| done]; specialize (H6 n ltac:(by eexists)); lia).
  assert (Hnt : ~ timer_has l n).
  { intros (t & Ht & Hf). destruct (H1 t Ht) as (p & b & Hp & Hb & _). congruence. }
  split; try done.
  - intros t Ht. destruct (H1 t Ht) as (p & b & Hp & Hb & Hl). exists p, b. split; [done |].
    rewrite lookup_insert_ne by congruence. split; [done |]. intros Hf. specialize (Hl Hf). rewrite lookup_insert_ne; [done | congruence].
  - intros id' a' o Ho. apply lookup_insert_Some in Ho as [[-> [= _ <-]] | [Hne Ho]].
    { exists false. rewrite lookup_insert_eq. naive_solver. }
    specialize (H2 _ _ _ Ho). destruct o as [p |]; [| naive_solver]. destruct H2 as (b & Hb & Hx & Hy). exists b.
    rewrite lookup_insert_ne by congruence. split; [done |]. split; [rewrite Hx; naive_solver | naive_solver].
  - intros p b Hb. apply lookup_insert_Some in Hb as [[<- _] | [Hne Hb]].
    { right. exists id, a. apply lookup_insert_eq. }
    destruct (H3 p b Hb) as [? | (id' & a' & Hi)]; [by left | right; exists id', a'].
    rewrite lookup_insert_ne; [done | congruence].
  - intros id1 id2 p (a1 & Ha1) (a2 & Ha2).
    assert (Hold : forall id' a', W !! id' = Some (a', Some n) -> False).
    { intros id' a' Hi. specialize (H2 _ _ _ Hi) as (b & Hb & _). congruence. }
    apply lookup_insert_Some in Ha1 as [[<- [= _ <-]] | [_ Ha1]]; apply lookup_insert_Some in Ha2 as [[<- Ha2] | [_ Ha2]]; try done.
    + by apply Hold in Ha2.
    + injection Ha2 as _ <-. by apply Hold in Ha1.
    + apply (H5 _ _ p); [by exists a1 | by exists a2].
  - intros p Hp. destruct (decide (p = n)) as [-> | Hne]; [lia |]. rewrite lookup_insert_ne in Hp by done.
    specialize (H6 p Hp). lia.
Qed.

(** [_timers.emplace]: the timer copies the node's flag. *)
Lemma wired_time l W F n id a p e : wired (Untimed id) l W F n -> W !! id = Some (a, Some p) ->
  wired Wired (insert_timer (mkTimer e (mkIter id a) (Some p)) l) W F n.
Proof.
  intros Hw Hid. apply (wired_perm _ (mkTimer e (mkIter id a) (Some p) :: l)); [symmetry; apply insert_timer_perm |].
  pose proof (w_node _ _ _ _ _ Hw _ _ _ Hid) as (b & Hb & Hx & Hy). specialize (Hy eq_refl).
  assert (b = false) as -> by (apply Hx; by right). destruct Hw as [H1 H2 H3 H4 H5 H6]. split; try done.
  - intros t [-> | Ht]%elem_of_cons; [| by apply H1]. exists p, false. done.
  - intros id' a' o Ho. pose proof (H2 _ _ _ Ho) as Hn. destruct o as [q |]; [| done]. destruct Hn as (b & Hb' & Hx' & Hy').
    exists b. split; [done |]. split; [| done]. rewrite Hx', timer_has_cons. cbn [timer_flag].
    destruct (decide (id' = id)) as [-> | Hne].
    + assert (q = p) as -> by congruence. naive_solver.
    + assert (q <> p) by (intros ->; apply Hne, (H5 _ _ p); [by exists a' | by exists a]). naive_solver congruence.
  - intros q b Hq. destruct (H3 q b Hq) as [? | ?]; [left | by right]. apply timer_has_cons. by right.
  - cbn [fmap list_fmap]. apply list.NoDup_cons. split; [| done]. cbn [timer_flag]. by rewrite <- timer_has_elem.
Qed.

(** [destroy]: the node lets go of its flag. *)
Lemma wired_let_go l W F n id a p F' : wired Wired l W F n -> W !! id = Some (a, Some p) ->
  (forall q, q <> p -> F' !! q = F !! q) ->
  F' !! p = (if decide (F !! p = Some true) then None else Some true) ->
  wired (Unarmed id) l (<[id := (a, None)]> W) F' n.
Proof.
  intros Hw Hid Hother Hp. pose proof (w_node _ _ _ _ _ Hw _ _ _ Hid) as (b & Hb & Hx & _).
  assert (Hone : forall id' a', W !! id' = Some (a', Some p) -> id' = id).
  { intros id' a' Hi. apply (w_nodes _ _ _ _ _ Hw id' id p); [by exists a' | by exists a]. }
  destruct Hw as [H1 H2 H3 H4 H5 H6]. split; try done.
  - intros t Ht. destruct (H1 t Ht) as (q & b' & Hq & Hbq & Hl). destruct (decide (q = p)) as [-> | Hne].
    + assert (b = false) as -> by (apply Hx; left; by exists t). exists p, true. split; [done |]. split; [| done].
      rewrite Hp. by rewrite decide_False by congruence.
    + exists q, b'. rewrite Hother by done. split; [done |]. split; [done |]. intros Hf. specialize (Hl Hf).
      rewrite lookup_insert_ne; [done |]. intros ->. congruence.
  - intros id' a' o Ho. apply lookup_insert_Some in Ho as [[-> [= _ <-]] | [Hne Ho]]; [done |].
    specialize (H2 _ _ _ Ho). destruct o as [q |]; [| done]. destruct H2 as (b' & Hb' & Hx' & _). exists b'.
    assert (q <> p) by (intros ->; by apply Hne, eq_sym, (Hone _ a')). rewrite Hother by done. naive_solver congruence.
  - intros q b' Hq. destruct (decide (q = p)) as [-> | Hne].
    + rewrite Hp in Hq. case_decide; [done |]. left. destruct b; [done |]. destruct (proj1 Hx eq_refl) as [? | ?]; done.
    + rewrite Hother in Hq by done. destruct (H3 q b' Hq) as [? | (id' & a' & Hi)]; [by left | right]. exists id', a'.
      rewrite lookup_insert_ne; [done |]. intros ->. congruence.
  - intros id1 id2 q (a1 & Ha1) (a2 & Ha2). apply lookup_insert_Some in Ha1 as [[_ ?] | [_ Ha1]]; [done |].
    apply lookup_insert_Some in Ha2 as [[_ ?] | [_ Ha2]]; [done |]. apply (H5 _ _ q); [by exists a1 | by exists a2].
  - intros q [b' Hq]. destruct (decide (q = p)) as [-> | Hne]; [apply H6; by exists b |].
    apply H6. exists b'. by rewrite <- Hother.
Qed.

(** An entry without a flag leaves the map. *)
Lemma wired_drop l W F n id : wired (Unarmed id) l W F n -> (exists a, W !! id = Some (a, None)) -> wired Wired l (delete id W) F n.
Proof.
  intros [H1 H2 H3 H4 H5 H6] [a Hid]. split; try done.
  - intros t Ht. destruct (H1 t Ht) as (p & b & Hp & Hb & Hl). exists p, b. split; [done | split; [done |]].
    intros Hf. specialize (Hl Hf). rewrite lookup_delete_ne; [done |]. intros ->. congruence.
  - intros id' a' o Ho. apply lookup_delete_Some in Ho as [Hne Ho]. specialize (H2 _ _ _ Ho).
    destruct o as [p |]; [| congruence]. destruct H2 as (b & Hb & Hx & _). exists b. naive_solver congruence.
  - intros p b Hb. destruct (H3 p b Hb) as [? | (id' & a' & Hi)]; [by left | right]. exists id', a'.
    rewrite lookup_delete_ne; [done |]. intros ->. congruence.
  - intros id1 id2 p (a1 & Ha1) (a2 & Ha2). apply lookup_delete_Some in Ha1 as [_ Ha1]. apply lookup_delete_Some in Ha2 as [_ Ha2].
    apply (H5 _ _ p); [by exists a1 | by exists a2].
Qed.

(** A timer goes off: with the flag still false it is the first of the two. *)
Lemma wired_fire t l W F n p (b : bool) F' : wired Wired (t :: l) W F n -> timer_flag t = Some p -> F !! p = Some b ->
  (forall q, q <> p -> F' !! q = F !! q) -> F' !! p = (if b then None else Some true) -> wired Wired l W F' n.
Proof.
  intros Hw Ht Hb Hother Hp. pose proof (w_timers _ _ _ _ _ Hw) as Hnd. cbn [fmap list_fmap] in Hnd.
  apply list.NoDup_cons in Hnd as [Hnot Hnd]. rewrite Ht, <- timer_has_elem in Hnot.
  destruct (w_timer _ _ _ _ _ Hw t (list_elem_of_here _ _)) as (p' & b' & Hp' & Hb' & Hl).
  assert (p' = p) as -> by congruence. assert (b' = b) as -> by congruence.
  assert (Hnode : forall id a, W !! id = Some (a, Some p) -> b = false).
  { intros id a Hi. destruct (w_node _ _ _ _ _ Hw _ _ _ Hi) as (b' & Hb'' & Hx & _).
    assert (b' = b) as -> by congruence. apply Hx. left. apply timer_has_cons. by left. }
  destruct Hw as [H1 H2 H3 _ H5 H6]. split; try done.
  - intros t' Ht'. destruct (H1 t' (list_elem_of_further _ _ _ Ht')) as (q & b' & Hq & Hbq & Hlq).
    assert (q <> p) by (intros ->; apply Hnot; by exists t'). exists q, b'. by rewrite Hother.
  - intros id a o Ho. pose proof (H2 _ _ _ Ho) as Hn. destruct o as [q |]; [| done]. destruct Hn as (b' & Hbq & Hx & _).
    rewrite timer_has_cons, Ht in Hx. destruct (decide (q = p)) as [-> | Hne].
    + exists true. rewrite Hp, (Hnode _ _ Ho). split; [done |]. split; [| done].
      split; [done |]. intros [? | ?]; done.
    + exists b'. rewrite Hother by done. split; [done |]. split; [| done]. rewrite Hx. naive_solver congruence.
  - intros q b' Hq. destruct (decide (q = p)) as [-> | Hne].
    + rewrite Hp in Hq. destruct b; [done |]. right. exists (key (iter t)), (alloc (iter t)). by apply Hl.
    + rewrite Hother in Hq by done. destruct (H3 q b' Hq) as [Hh | ?]; [| by right]. left.
      apply timer_has_cons in Hh as [? | ?]; [congruence | done].
  - intros q [b' Hq]. destruct (decide (q = p)) as [-> | Hne]; [apply H6; by exists b |].
    apply H6. exists b'. by rewrite <- Hother.
Qed.
End Wiring.
