(* ===== verification/LinkLogRegistry.v ===== *)
(** * LinkLogRegistry: the operations of the link log server are safe

    Every operation of LinkLogServer.v keeps the registry well formed: the flags are owned as
    LinkLogWiring.v says, the reference counts of the buffers count the nodes that use them, and
    every node is created with a buffer or waits with a parent.  An operation that returns says
    which loggers it opened or closed. *)

From stdpp Require Import gmap.
From S2P Require Import Prelude StateMonad Interpreter LinkLogFormat LinkLogServer LinkLogWiring.
Local Open Scope Z_scope.

(** ** The state as maps *)

Definition wiring (nodes : gmap Identification (nat * NodeMessage)) : gmap Identification (nat * option nat) :=
  (fun n => (n.1, logger_timout n.2)) <$> nodes.
Definition usage (nodes : gmap Identification (nat * NodeMessage)) : gmap Identification (option nat) :=
  (fun n => if created n.2 then buf_iter n.2 else None) <$> nodes.

(** The number of nodes that use a buffer. *)
Definition uses (b : nat) (U : gmap Identification (option nat)) : nat := size (filter (fun e => e.2 = Some b) U).

Definition counted nodes (refs : list Z) : Prop :=
  forall b c, refs !! b = Some c -> c = u32 (Z.of_nat (uses b (usage nodes))).

Definition node_ok (len : nat) (id : Identification) (m : NodeMessage) : Prop :=
  zlen (serviceID id) = SERVICE_ID_SIZE /\ zlen (nodeID id) = NODE_ID_SIZE /\
  if created m then exists b, buf_iter m = Some b /\ (b < len)%nat else is_Some (parent_iter m).

Definition nodes_ok (nodes : gmap Identification (nat * NodeMessage)) (next len : nat) : Prop :=
  forall id a m, nodes !! id = Some (a, m) -> (a < next)%nat /\ node_ok len id m.

Definition registry (s : server) : Prop :=
  wired Wired (_timers s) (wiring (_nodes s)) (flags s) (next_flag s) /\ counted (_nodes s) (ref_counts s) /\
  nodes_ok (_nodes s) (next_alloc s) (length (ref_counts s)) /\ ref_counts s <> [].

Definition is_open (s : server) (it : MapIter) : Prop := exists m, live s it = Some m /\ created m = true.

(** ** Counting *)

Lemma uses_insert b U id o : uses b (<[id := o]> U) = (uses b (delete id U) + if decide (o = Some b) then 1 else 0)%nat.
Proof.
  unfold uses. rewrite <- insert_delete_eq. case_decide as Ho.
  - rewrite map_filter_insert_True by done. rewrite map_size_insert_None; [lia |].
    apply map_lookup_filter_None. left. apply lookup_delete_eq.
  - rewrite map_filter_insert_False by done. rewrite delete_delete_eq. lia.
Qed.

Lemma uses_split b U id o : U !! id = Some o -> uses b U = (uses b (delete id U) + if decide (o = Some b) then 1 else 0)%nat.
Proof. intros Hid. rewrite <- uses_insert. by rewrite insert_id. Qed.

Lemma uses_absent b U id : U !! id = None -> uses b (delete id U) = uses b U.
Proof. intros Hid. by rewrite delete_id. Qed.

Lemma u32_step n d : u32 (u32 n + d) = u32 (n + d).
Proof. unfold u32. by rewrite Zplus_mod_idemp_l. Qed.

Lemma usage_insert nodes id a m :
  usage (<[id := (a, m)]> nodes) = <[id := if created m then buf_iter m else None]> (usage nodes).
Proof. unfold usage. by rewrite fmap_insert. Qed.
Lemma wiring_insert nodes id a m : wiring (<[id := (a, m)]> nodes) = <[id := (a, logger_timout m)]> (wiring nodes).
Proof. unfold wiring. by rewrite fmap_insert. Qed.
Lemma wiring_delete nodes id : wiring (delete id nodes) = delete id (wiring nodes).
Proof. unfold wiring. by rewrite fmap_delete. Qed.
Lemma usage_delete nodes id : usage (delete id nodes) = delete id (usage nodes).
Proof. unfold usage. by rewrite fmap_delete. Qed.
Lemma wiring_lookup nodes id a m : nodes !! id = Some (a, m) -> wiring nodes !! id = Some (a, logger_timout m).
Proof. intros Hid. unfold wiring. by rewrite lookup_fmap, Hid. Qed.
Lemma wiring_none nodes id : nodes !! id = None -> wiring nodes !! id = None.
Proof. intros Hid. unfold wiring. by rewrite lookup_fmap, Hid. Qed.
Lemma usage_lookup nodes id a m : nodes !! id = Some (a, m) -> usage nodes !! id = Some (if created m then buf_iter m else None).
Proof. intros Hid. unfold usage. by rewrite lookup_fmap, Hid. Qed.

(** A node starts to use a buffer, and stops. *)
Lemma counted_more nodes refs id a m b c :
  counted nodes refs -> refs !! b = Some c -> (forall a' m', nodes !! id = Some (a', m') -> created m' = false) ->
  created m = true -> buf_iter m = Some b -> counted (<[id := (a, m)]> nodes) (<[b := u32 (c + 1)]> refs).
Proof.
  intros Hc Hb Hid Hcr Hbuf b' c' Hb'. rewrite usage_insert, Hcr, Hbuf, uses_insert.
  assert (Hd : uses b' (delete id (usage nodes)) = uses b' (usage nodes)).
  { destruct (nodes !! id) as [[a' m'] |] eqn:E.
    - rewrite (uses_split b' (usage nodes) id (if created m' then buf_iter m' else None)) by by eapply usage_lookup.
      rewrite (Hid _ _ eq_refl). rewrite decide_False by done. lia.
    - apply uses_absent. unfold usage. by rewrite lookup_fmap, E. }
  rewrite Hd. apply list_lookup_insert_Some in Hb' as [(<- & <- & _) | [Hne Hb']].
  - rewrite decide_True by done. rewrite (Hc b c Hb), u32_step. f_equal. lia.
  - rewrite decide_False by congruence. rewrite Nat.add_0_r. by apply Hc.
Qed.

Lemma counted_less nodes refs id a m b c :
  counted nodes refs -> nodes !! id = Some (a, m) -> created m = true -> buf_iter m = Some b -> refs !! b = Some c ->
  counted (delete id nodes) (<[b := u32 (c + -1)]> refs).
Proof.
  intros Hc Hid Hcr Hbuf Hb b' c' Hb'. rewrite usage_delete.
  assert (Hs : forall b, uses b (usage nodes) = (uses b (delete id (usage nodes)) + if decide (buf_iter m = Some b) then 1 else 0)%nat).
  { intros b1. apply uses_split. rewrite (usage_lookup _ _ _ _ Hid), Hcr. done. }
  apply list_lookup_insert_Some in Hb' as [(<- & <- & _) | [Hne Hb']].
  - rewrite (Hc b c Hb), u32_step, Hs, decide_True by done. f_equal. lia.
  - rewrite (Hc b' c' Hb'), Hs, decide_False by congruence. f_equal. lia.
Qed.

(** Nothing else changes a count. *)
Lemma counted_same nodes refs id a m :
  counted nodes refs -> usage (<[id := (a, m)]> nodes) = usage nodes \/ (nodes !! id = None /\ created m = false) ->
  counted (<[id := (a, m)]> nodes) refs.
Proof.
  intros Hc [Hu | [Hid Hcr]] b c Hb; [rewrite Hu; by apply Hc |].
  rewrite usage_insert, Hcr, uses_insert, decide_False by done. rewrite Nat.add_0_r, uses_absent; [by apply Hc |].
  unfold usage. by rewrite lookup_fmap, Hid.
Qed.

Lemma counted_waiting nodes refs id a m :
  counted nodes refs -> nodes !! id = Some (a, m) -> created m = false -> counted (delete id nodes) refs.
Proof.
  intros Hc Hid Hcr b c Hb. rewrite usage_delete. rewrite (Hc b c Hb).
  rewrite (uses_split b (usage nodes) id None), decide_False by (done || (rewrite (usage_lookup _ _ _ _ Hid), Hcr; done)).
  do 2 f_equal. lia.
Qed.

(** ** The primitives *)

Definition put_node it m s := set_nodes <[key it := (alloc it, m)]> s.

Lemma live_iff s it m : live s it = Some m <-> _nodes s !! key it = Some (alloc it, m).
Proof.
  unfold live. destruct (_nodes s !! key it) as [[a m'] |]; [| naive_solver]. case_decide; naive_solver.
Qed.

Lemma live_put it m s : live (put_node it m s) it = Some m.
Proof. apply live_iff. cbn. apply lookup_insert_eq. Qed.

Section Steps.
Context (clock : nat -> Z).
Implicit Types (s : server) (it : MapIter) (m : NodeMessage).

Lemma node_of_wp s it m (Q : NodeMessage -> server -> Prop) : live s it = Some m -> Q m s -> wp (node_of it) Q s.
Proof. intros Hl HQ. unfold node_of, wp. by rewrite Hl. Qed.

Lemma update_wp s it m f (Q : unit -> server -> Prop) :
  live s it = Some m -> Q tt (put_node it (f m) s) -> wp (update_node it f) Q s.
Proof. intros Hl HQ. unfold update_node. apply st_bind. eapply node_of_wp; [done |]. exact HQ. Qed.

Lemma ref_wp s b c (Q : Z -> server -> Prop) : ref_counts s !! b = Some c -> Q c s -> wp (ref_count b) Q s.
Proof. intros Hb HQ. unfold ref_count, wp. by rewrite Hb. Qed.

Lemma change_ref_wp s b c d (Q : unit -> server -> Prop) :
  ref_counts s !! b = Some c -> Q tt (set_refs <[b := u32 (c + d)]> s) -> wp (change_ref b d) Q s.
Proof. intros Hb HQ. unfold change_ref. apply st_bind. by eapply ref_wp. Qed.

Lemma flag_wp s p b (Q : bool -> server -> Prop) : flags s !! p = Some b -> Q b s -> wp (read_flag p) Q s.
Proof. intros Hb HQ. unfold read_flag, wp. by rewrite Hb. Qed.

Lemma create_wp s it m (Q : unit -> server -> Prop) : live s it = Some m ->
  Q tt (mkServer (<[key it := (alloc it, with_flag (Some (next_flag s)) m)]> (_nodes s)) (next_alloc s)
          (<[next_flag s := false]> (flags s)) (S (next_flag s)) (_timers s) (ref_counts s) (ticks s) (events s)) ->
  wp (create it) Q s.
Proof. intros Hl HQ. unfold create. apply st_bind. unfold wp at 1. cbn [new_flag]. eapply update_wp; [exact Hl | exact HQ]. Qed.

Definition flags_after (b : bool) (p : nat) (F : gmap nat bool) : gmap nat bool := if b then delete p F else <[p := true]> F.

Lemma destroy_wp s it m p b (Q : unit -> server -> Prop) :
  live s it = Some m -> logger_timout m = Some p -> flags s !! p = Some b ->
  Q tt (mkServer (<[key it := (alloc it, with_flag None m)]> (_nodes s)) (next_alloc s)
          (flags_after b p (flags s)) (next_flag s) (_timers s) (ref_counts s) (ticks s) (events s)) ->
  wp (destroy it) Q s.
Proof.
  intros Hl Hp Hb HQ. unfold destroy. apply st_bind. eapply node_of_wp; [exact Hl |].
  apply st_bind. eapply st_deref; [exact Hp |]. apply st_bind. eapply flag_wp; [exact Hb |]. apply st_bind.
  destruct b; unfold delete_flag, set_flag; apply st_bind; (eapply flag_wp; [exact Hb |]); wp_run;
    (eapply update_wp; [exact Hl | exact HQ]).
Qed.

Definition completed (b : nat) (t : Z) (m : NodeMessage) : NodeMessage :=
  with_init_time t (with_buffer (Some b) (with_created true m)).

Lemma complete_wp s it m b c (Q : unit -> server -> Prop) :
  live s it = Some m -> ref_counts s !! b = Some c ->
  Q tt (mkServer (<[key it := (alloc it, completed b (clock (ticks s)) m)]> (_nodes s)) (next_alloc s)
          (flags s) (next_flag s) (_timers s) (<[b := u32 (c + 1)]> (ref_counts s)) (S (ticks s)) (events s)) ->
  wp (complete_message clock it b) Q s.
Proof.
  intros Hl Hb HQ. unfold complete_message. apply st_bind. eapply update_wp; [exact Hl |].
  apply st_bind. eapply update_wp; [apply live_put |]. apply st_bind. eapply change_ref_wp; [exact Hb |].
  unfold Unix_to_now. wp_run. eapply update_wp; [apply live_iff; cbn; apply lookup_insert_eq |].
  unfold put_node, set_nodes, set_refs, tick. cbn. rewrite !insert_insert_eq. exact HQ.
Qed.

Lemma emplace_wp s it m e (Q : unit -> server -> Prop) :
  live s it = Some m -> Q tt (set_timers (insert_timer (mkTimer e it (logger_timout m))) s) -> wp (emplace_timer e it) Q s.
Proof. intros Hl HQ. unfold emplace_timer. apply st_bind. eapply node_of_wp; [exact Hl |]. exact HQ. Qed.

Lemma now_wp s (Q : Z -> server -> Prop) : Q (clock (ticks s)) (tick s) -> wp (Unix_to_now clock) Q s.
Proof. done. Qed.

Lemma valid_buffer_wp s b (Q : nat -> server -> Prop) :
  (b < length (ref_counts s))%nat -> Q b s -> wp (valid_buffer (Some b)) Q s.
Proof.
  intros Hb HQ. unfold valid_buffer. apply st_bind, (st_deref _ b); [done |]. apply st_bind.
  destruct (lookup_lt_is_Some_2 _ _ Hb) as [c Hc]. eapply ref_wp; [exact Hc |]. exact HQ.
Qed.

(** Writing and telling leave the registry alone. *)
Definition same_registry s s' : Prop :=
  _nodes s' = _nodes s /\ next_alloc s' = next_alloc s /\ flags s' = flags s /\ next_flag s' = next_flag s /\
  _timers s' = _timers s /\ ref_counts s' = ref_counts s.

Lemma safe_write_wp s b data (Q : unit -> server -> Prop) :
  (b < length (ref_counts s))%nat -> (forall s', same_registry s s' -> Q tt s') -> wp (safe_write (Some b) data) Q s.
Proof.
  intros Hb HQ. unfold safe_write. apply st_bind. eapply valid_buffer_wp; [exact Hb |]. apply st_modify, HQ. by split_and!.
Qed.

Lemma safe_error_wp s b service node e (Q : unit -> server -> Prop) :
  (b < length (ref_counts s))%nat -> (forall s', same_registry s s' -> Q tt s') -> wp (safe_error clock (Some b) service node e) Q s.
Proof.
  intros Hb HQ. unfold safe_error. apply st_bind. eapply valid_buffer_wp; [exact Hb |]. unfold Unix_to_now. wp_run.
  apply HQ. by split_and!.
Qed.

Lemma registry_same s s' : same_registry s s' -> registry s -> registry s'.
Proof. unfold registry. intros (-> & -> & -> & -> & -> & ->). done. Qed.
Lemma open_same s s' it : same_registry s s' -> is_open s' it <-> is_open s it.
Proof. unfold is_open, live. by intros (-> & _). Qed.

Lemma least_used_bound refs : forall min best i, (best < i)%nat -> (least_used min best i refs < i + length refs)%nat.
Proof.
  induction refs as [| r refs IH]; intros min best i Hb; simpl; [lia |].
  destruct (min <=? r); [specialize (IH min best (S i)) | specialize (IH r i (S i))]; lia.
Qed.

Lemma buffer_wp s (Q : nat -> server -> Prop) :
  ref_counts s <> [] -> (forall b, (b < length (ref_counts s))%nat -> Q b s) -> wp get_buffer_iter Q s.
Proof.
  intros Hne HQ. unfold get_buffer_iter. wp_run. destruct (ref_counts s) as [| r refs]; [done |].
  apply st_ret, HQ. apply (least_used_bound refs r 0 1). lia.
Qed.
End Steps.

(** ** What an operation opens and closes *)

Definition open_in (nodes : gmap Identification (nat * NodeMessage)) (it : MapIter) : Prop :=
  exists m, nodes !! key it = Some (alloc it, m) /\ created m = true.
Definition opened (s s' : server) (it : MapIter) : Prop :=
  ~ is_open s it /\ forall it', is_open s' it' <-> is_open s it' \/ it' = it.
Definition closed (s s' : server) (it : MapIter) : Prop := forall it', is_open s' it' <-> is_open s it' /\ it' <> it.
Definition unchanged (s s' : server) : Prop := forall it, is_open s' it <-> is_open s it.

Lemma open_nodes s it : is_open s it <-> open_in (_nodes s) it.
Proof. unfold is_open, open_in. by setoid_rewrite live_iff. Qed.

Lemma iter_eta it : it = mkIter (key it) (alloc it).
Proof. by destruct it. Qed.

Lemma open_insert nodes id a m it : created m = true ->
  (forall a' m', nodes !! id = Some (a', m') -> created m' = false) ->
  open_in (<[id := (a, m)]> nodes) it <-> open_in nodes it \/ it = mkIter id a.
Proof.
  intros Hm Hid. unfold open_in. destruct (decide (key it = id)) as [<- | Hne].
  - rewrite lookup_insert_eq. split.
    + intros (m' & [= Ha <-] & _). right. by rewrite (iter_eta it), Ha.
    + intros [(m' & Hl & Hc) | Hi]; [by rewrite (Hid _ _ Hl) in Hc |]. exists m. by rewrite Hi.
  - rewrite lookup_insert_ne by done. split; [by left |]. intros [? | ->]; done.
Qed.

Lemma open_same_node nodes id a m m' it : nodes !! id = Some (a, m) -> created m' = created m ->
  open_in (<[id := (a, m')]> nodes) it <-> open_in nodes it.
Proof.
  intros Hid Hc. unfold open_in. destruct (decide (key it = id)) as [<- | Hne]; [| by rewrite lookup_insert_ne].
  rewrite lookup_insert_eq, Hid. split; intros (m1 & [= Ha <-] & Hm); eexists; (split; [by rewrite Ha |]); congruence.
Qed.

Lemma open_waiting nodes id a m it : nodes !! id = None -> created m = false ->
  open_in (<[id := (a, m)]> nodes) it <-> open_in nodes it.
Proof.
  intros Hid Hc. unfold open_in. destruct (decide (key it = id)) as [<- | Hne]; [| by rewrite lookup_insert_ne].
  rewrite lookup_insert_eq, Hid. split; intros (m1 & [= Ha <-] & Hm); congruence.
Qed.

Lemma open_delete nodes id it : open_in (delete id nodes) it <-> open_in nodes it /\ key it <> id.
Proof.
  unfold open_in. destruct (decide (key it = id)) as [<- | Hne].
  - rewrite lookup_delete_eq. split; [by intros (? & ? & _) | by intros (_ & ?)].
  - rewrite lookup_delete_ne by done. naive_solver.
Qed.

Lemma nodes_ok_insert nodes next next' len id a m :
  nodes_ok nodes next len -> (next <= next')%nat -> (a < next')%nat -> node_ok len id m -> nodes_ok (<[id := (a, m)]> nodes) next' len.
Proof.
  intros Hok Hn Ha Hm id' a' m' Hl. apply lookup_insert_Some in Hl as [[<- [= <- <-]] | [_ Hl]]; [done |].
  destruct (Hok _ _ _ Hl) as [? ?]. split; [lia | done].
Qed.

Lemma nodes_ok_delete nodes next len id : nodes_ok nodes next len -> nodes_ok (delete id nodes) next len.
Proof. intros Hok id' a' m' [_ Hl]%lookup_delete_Some. by eapply Hok. Qed.

(** A node that has its flag and its timer: [create] and [_timers.emplace]. *)
Lemma wired_started l W F n id a e :
  wired (Unarmed id) l (<[id := (a, None)]> W) F n ->
  wired Wired (insert_timer (mkTimer e (mkIter id a) (Some n)) l) (<[id := (a, Some n)]> W) (<[n := false]> F) (S n).
Proof.
  intros Hw. apply (wired_arm l _ F n id a) in Hw; [| apply lookup_insert_eq]. rewrite insert_insert_eq in Hw.
  eapply wired_time; [exact Hw |]. apply lookup_insert_eq.
Qed.

Section Operations.
Context (clock : nat -> Z).
Implicit Types (s : server) (it : MapIter) (m : NodeMessage).

Lemma try_emplace_wp s id m (Q : MapIter * bool -> server -> Prop) :
  match _nodes s !! id with
  | Some (a, _) => Q (mkIter id a, false) s
  | None => Q (mkIter id (next_alloc s), true)
              (mkServer (<[id := (next_alloc s, m)]> (_nodes s)) (S (next_alloc s)) (flags s) (next_flag s) (_timers s)
                 (ref_counts s) (ticks s) (events s))
  end -> wp (try_emplace id m) Q s.
Proof. unfold wp, try_emplace. by destruct (_nodes s !! id) as [[a m'] |]. Qed.

Definition made s (r : LinkErrorType * MapIter) s' : Prop :=
  registry s' /\ if decide (r.1 = Success) then opened s s' r.2 else unchanged s s'.

Lemma create_head_locked_ok s service node timeout is_branch :
  registry s -> zlen service = SERVICE_ID_SIZE -> zlen node = NODE_ID_SIZE ->
  (forall a m, _nodes s !! mkID service node = Some (a, m) -> created m = true) ->
  wp (create_head_logger_locked clock service node timeout is_branch)
    (fun '(state, it, b, _) s' => made s (state, it) s' /\ (exists j, b = Some j /\ (j < length (ref_counts s'))%nat)) s.
Proof.
  intros (Hw & Hc & Hn & Hne) Hs Hnd Hid. unfold create_head_logger_locked.
  apply st_bind, try_emplace_wp. destruct (_nodes s !! mkID service node) as [[a m] |] eqn:E; simpl.
  { apply st_bind. eapply node_of_wp; [apply live_iff; exact E |]. apply st_ret.
    destruct (Hn _ _ _ E) as (_ & _ & _ & Hm). rewrite (Hid _ _ eq_refl) in Hm. split; [| exact Hm].
    split; [by split_and! |]. by intros it. }
  apply st_bind. eapply buffer_wp; [done |]. cbn [ref_counts]. intros b Hb. destruct (lookup_lt_is_Some_2 _ _ Hb) as [c Hbc].
  set (type := if is_branch then BranchHead else Head). set (id := mkID service node) in *.
  apply st_bind. eapply complete_wp; [apply live_iff; cbn; apply lookup_insert_eq | exact Hbc |]. cbn.
  rewrite insert_insert_eq. apply st_bind. eapply create_wp; [apply live_iff; cbn; apply lookup_insert_eq |]. cbn.
  rewrite insert_insert_eq. apply st_bind. eapply node_of_wp; [apply live_iff; cbn; apply lookup_insert_eq |].
  apply st_bind. eapply emplace_wp; [apply live_iff; cbn; apply lookup_insert_eq |]. unfold set_timers. cbn.
  apply st_bind. eapply st_lift; [by apply create_encoded |]. apply st_ret. cbn.
  set (m' := with_flag (Some (next_flag s)) (completed b (clock (ticks s)) (NodeMessage_new type None))).
  split; [| exists b; split; [done | by rewrite length_insert]].
  split; [split; [| split; [| split]] |].
  - cbn. rewrite wiring_insert. apply wired_started. apply wired_add; [done | by apply wiring_none].
  - cbn. apply counted_more; try done. intros a' m1. rewrite E. done.
  - cbn. rewrite length_insert. eapply nodes_ok_insert; [exact Hn | lia | lia |]. split; [done | split; [done |]]. by exists b.
  - cbn. destruct (ref_counts s); [done |]. by destruct b.
  - cbn. split.
    + rewrite open_nodes. intros (m1 & Hm1 & _). cbn in Hm1. congruence.
    + intros it'. rewrite !open_nodes. cbn. apply open_insert; [done |]. intros a' m1. rewrite E. done.
Qed.

(** The unlocked half of an operation: the message goes to the buffer, or an error does. *)
Lemma report_ok s (P : server -> Prop) b (ok : bool) bs call service node e :
  (b < length (ref_counts s))%nat -> (forall s', same_registry s s' -> P s') ->
  wp (if ok then safe_write (Some b) bs;; modify (emit (Called call)) else safe_error clock (Some b) service node e) (fun _ => P) s.
Proof.
  intros Hb HP. destruct ok.
  - apply st_bind, safe_write_wp; [done |]. intros s' H'. wp_run. apply HP. destruct H' as (? & ? & ? & ? & ? & ?). by split_and!.
  - by apply safe_error_wp.
Qed.

Lemma made_same s s' s1 r : same_registry s' s1 -> made s r s' -> made s r s1.
Proof.
  intros H1 [Hreg Hopen]. split; [by eapply registry_same |]. destruct (decide (r.1 = Success)).
  - destruct Hopen as [Hno Hop]. split; [done |]. intros it'. rewrite (open_same _ _ _ H1). apply Hop.
  - intros it'. rewrite (open_same _ _ _ H1). apply Hopen.
Qed.

Lemma create_head_ok s service node timeout is_branch :
  registry s -> zlen service = SERVICE_ID_SIZE -> zlen node = NODE_ID_SIZE ->
  (forall a m, _nodes s !! mkID service node = Some (a, m) -> created m = true) ->
  wp (create_head_logger clock service node timeout is_branch) (made s) s.
Proof.
  intros Hr Hs Hn Hid. unfold create_head_logger. apply st_bind. wp_call create_head_locked_ok; try done.
  intros [[[state it] b] logger] s' (Hm & j & -> & Hj).
  apply st_bind. eapply st_mono with (P := fun _ s1 => made s (state, it) s1); [| by intros; apply st_ret].
  assert (HP : forall s1, same_registry s' s1 -> made s (state, it) s1) by (intros s1 H1; by eapply made_same).
  destruct (decide (state = Success)); [by apply (report_ok _ _ _ true _ _ [] [] Success) | by apply (report_ok _ _ _ false [] (LinkLogReplay.logger_end [] [] 0))].
Qed.

(** A change of a node's other members. *)
Definition alike m m' : Prop :=
  created m' = created m /\ buf_iter m' = buf_iter m /\ parent_iter m' = parent_iter m /\ logger_timout m' = logger_timout m.

Lemma registry_touch s it m m' : registry s -> live s it = Some m -> alike m m' ->
  registry (put_node it m' s) /\ unchanged s (put_node it m' s).
Proof.
  intros (Hw & Hc & Hn & Hne) Hl%live_iff (Hcr & Hb & Hp & Hf). split; [split; [| split; [| split]] |]; cbn; try done.
  - rewrite wiring_insert, Hf, insert_id; [done |]. by apply wiring_lookup.
  - apply counted_same; [done |]. left. rewrite usage_insert, Hcr, Hb, insert_id; [done |]. by eapply usage_lookup.
  - destruct (Hn _ _ _ Hl) as [Ha Hok]. eapply nodes_ok_insert; [exact Hn | lia | done |].
    unfold node_ok in *. by rewrite Hcr, Hb, Hp.
  - intros it'. rewrite !open_nodes. cbn. by apply (open_same_node _ _ _ m).
Qed.

Lemma unchanged_trans s1 s2 s3 : unchanged s1 s2 -> unchanged s2 s3 -> unchanged s1 s3.
Proof. intros H1 H2 it. by rewrite (H2 it). Qed.

(** A child that is registered: a new node with a flag and a timer, and no logger yet. *)
Lemma register_child_ok s parent type_ node timeout now :
  registry s -> is_open s parent -> zlen node = NODE_ID_SIZE ->
  wp ('(new_iter, success) ← try_emplace (mkID (serviceID (key parent)) node) (NodeMessage_new type_ (Some parent));
      if negb success then mret false else create new_iter;; emplace_timer (now + timeout) new_iter;; mret true)
    (fun _ s' => registry s' /\ unchanged s s' /\ forall m, live s parent = Some m -> live s' parent = Some m) s.
Proof.
  intros (Hw & Hc & Hn & Hne) Hop Hz. apply st_bind, try_emplace_wp.
  destruct (_nodes s !! mkID (serviceID (key parent)) node) as [[a m] |] eqn:E; simpl.
  { apply st_ret. split; [by split_and! |]. split; [by intros it | done]. }
  apply st_bind. eapply create_wp; [apply live_iff; cbn; apply lookup_insert_eq |]. cbn. rewrite insert_insert_eq.
  apply st_bind. eapply emplace_wp; [apply live_iff; cbn; apply lookup_insert_eq |]. unfold set_timers. cbn. apply st_ret.
  split; [split; [| split; [| split]] |]; cbn; try done.
  - rewrite wiring_insert. apply wired_started, wired_add; [done | by apply wiring_none].
  - apply counted_same; [done |]. by right.
  - eapply nodes_ok_insert; [exact Hn | lia | lia |].
    destruct Hop as (m & Hl%live_iff & _). destruct (Hn _ _ _ Hl) as (_ & Hs & _). split_and!; [done | done | by eexists].
  - split.
    + intros it. rewrite !open_nodes. cbn. by apply open_waiting.
    + intros m. rewrite !live_iff. cbn. intros Hl. rewrite lookup_insert_ne; [done | congruence].
Qed.

Lemma register_locked_ok s parent type_ node timeout :
  registry s -> is_open s parent -> zlen node = NODE_ID_SIZE ->
  wp (register_logger_locked clock parent type_ node timeout)
    (fun '(_, b, _) s' => registry s' /\ unchanged s s' /\ exists j, b = Some j /\ (j < length (ref_counts s'))%nat) s.
Proof.
  intros Hr (p & Hp & Hcr) Hz. unfold register_logger_locked.
  assert (Hbuf : forall s1 p1, registry s1 -> live s1 parent = Some p1 -> created p1 = true ->
            exists j, buf_iter p1 = Some j /\ (j < length (ref_counts s1))%nat).
  { intros s1 p1 (_ & _ & Hn & _) Hl%live_iff Hc1. destruct (Hn _ _ _ Hl) as (_ & _ & _ & Hb). by rewrite Hc1 in Hb. }
  apply st_bind. eapply node_of_wp; [exact Hp |]. destruct (subtype p =? Follow).
  { apply st_ret. split; [done |]. split; [by intros it |]. by eapply Hbuf. }
  assert (Hwhen : wp (when (subtype p =? Invalid) (update_node parent (with_subtype type_)))
    (fun _ s1 => registry s1 /\ unchanged s s1 /\ ref_counts s1 = ref_counts s /\
                 exists p1, live s1 parent = Some p1 /\ alike p p1) s).
  { unfold when. destruct (subtype p =? Invalid).
    - eapply update_wp; [exact Hp |]. destruct (registry_touch s parent p (with_subtype type_ p)) as [Hr1 Hu]; try done.
      split; [done |]. split; [done |]. split; [done |]. exists (with_subtype type_ p). split; [apply live_put | done].
    - apply st_ret. split; [done |]. split; [by intros it |]. split; [done |]. by exists p. }
  apply st_bind. eapply st_mono; [exact Hwhen |]. intros _ s1 (Hr1 & Hu1 & Hrefs & p1 & Hp1 & Hal). destruct Hal as (Hc1 & Hb1 & _).
  rewrite Hcr in Hc1. destruct (Hbuf s1 p1 Hr1 Hp1 Hc1) as (j & Hj & Hjl). rewrite Hb1 in Hj.
  apply st_bind. eapply node_of_wp; [exact Hp1 |].
  assert (Hret : forall (e : LinkErrorType) (bs : list Z), wp (mret (e, buf_iter p, bs))
    (fun '(_, b, _) s' => registry s' /\ unchanged s s' /\ exists j, b = Some j /\ (j < length (ref_counts s'))%nat) s1).
  { intros e bs. apply st_ret. split; [done |]. split; [done |]. by exists j. }
  destruct (negb (subtype p1 =? type_)); [apply Hret |]. destruct ((subtype p1 =? Decision) && sub_decision_created p1); [apply Hret |].
  apply st_bind, now_wp.
  assert (Hop1 : is_open (tick s1) parent) by (exists p1; done).
  assert (Hmake : wp (if type_ <=? Decision then
          '(new_iter, success) ← try_emplace (mkID (serviceID (key parent)) node) (NodeMessage_new type_ (Some parent));
          if negb success then mret false else
          create new_iter;; emplace_timer (clock (ticks s1) + timeout) new_iter;; mret true
        else mret true)
    (fun _ s2 => registry s2 /\ unchanged (tick s1) s2 /\ live s2 parent = Some p1) (tick s1)).
  { destruct (type_ <=? Decision); [| by apply st_ret].
    eapply st_mono; [by eapply (register_child_ok (tick s1)) |]. intros _ s2 (Hr2 & Hu2 & Hl2). split_and!; try done. by apply Hl2. }
  apply st_bind. eapply st_mono; [exact Hmake |]. intros ok s2 (Hr2 & Hu2 & Hl2).
  assert (Hu : unchanged s s2) by (eapply unchanged_trans; [exact Hu1 | exact Hu2]).
  destruct (Hbuf s2 p1 Hr2 Hl2 Hc1) as (j2 & Hj2 & Hjl2).
  assert (Hgood : registry s2 /\ unchanged s s2 /\ exists j, buf_iter p = Some j /\ (j < length (ref_counts s2))%nat).
  { split_and!; try done. exists j2. by rewrite <- Hb1. }
  destruct (negb ok); [by apply st_ret |]. apply st_bind. eapply node_of_wp; [exact Hl2 |].
  destruct Hr2 as (_ & _ & Hn2 & _). apply live_iff in Hl2. destruct (Hn2 _ _ _ Hl2) as (_ & Hs & Hnd & _).
  apply st_bind. eapply st_lift; [by apply register_encoded |]. apply st_ret. by rewrite Hb1.
Qed.

Lemma register_logger_ok s parent type_ node timeout :
  registry s -> is_open s parent -> zlen node = NODE_ID_SIZE ->
  wp (register_logger clock parent type_ node timeout) (fun _ s' => registry s' /\ unchanged s s') s.
Proof.
  intros Hr Hop Hz. unfold register_logger. apply st_bind. wp_call register_locked_ok; try done.
  intros [[state b] logger] s' (Hr' & Hu & j & -> & Hj). apply st_bind.
  eapply st_mono with (P := fun _ s1 => registry s1 /\ unchanged s s1); [| by intros; apply st_ret].
  assert (HP : forall s1, same_registry s' s1 -> registry s1 /\ unchanged s s1).
  { intros s1 H1. split; [by eapply registry_same |]. intros it. rewrite (open_same _ _ _ H1). apply Hu. }
  destruct (decide (state = Success)); [by apply (report_ok _ _ _ true _ _ [] [] Success) | by apply (report_ok _ _ _ false [] (LinkLogReplay.logger_end [] [] 0))].
Qed.

Lemma flags_after_other b p F q : q <> p -> flags_after b p F !! q = F !! q.
Proof. intros Hne. unfold flags_after. destruct b; [by rewrite lookup_delete_ne | by rewrite lookup_insert_ne]. Qed.
Lemma flags_after_here b p F : F !! p = Some b -> flags_after b p F !! p = if decide (F !! p = Some true) then None else Some true.
Proof.
  intros Hb. unfold flags_after. rewrite Hb. destruct b; [by rewrite lookup_delete_eq | by rewrite lookup_insert_eq].
Qed.

(** The flag a node of a well-formed registry has, and what letting go of it gives. *)
Lemma registry_flag s it m : registry s -> live s it = Some m ->
  exists p b, logger_timout m = Some p /\ flags s !! p = Some b /\
    wired (Unarmed (key it)) (_timers s) (<[key it := (alloc it, None)]> (wiring (_nodes s))) (flags_after b p (flags s)) (next_flag s).
Proof.
  intros (Hw & _) Hl%live_iff. pose proof (wiring_lookup _ _ _ _ Hl) as Hwl.
  pose proof (w_node _ _ _ _ _ Hw _ _ _ Hwl) as Hn. destruct (logger_timout m) as [p |]; [| done].
  destruct Hn as (b & Hb & _). exists p, b. split; [done | split; [done |]].
  eapply wired_let_go; [exact Hw | exact Hwl | by apply flags_after_other | by apply flags_after_here].
Qed.

(** A waiting node whose parent is open. *)
Definition parent_open s m : Prop := exists pi, parent_iter m = Some pi /\ is_open s pi.

(** What is left of [create_logger] when the parent is known. *)
Lemma create_child_ok s it m parent p service node timeout :
  registry s -> live s it = Some m -> created m = false -> live s parent = Some p -> created p = true ->
  key it = mkID service node ->
  wp (b ← deref (buf_iter p);
      complete_message clock it b;;
      destroy it;;
      m ← node_of it;
      p ← node_of parent;
      '(_, logger) ← lift (LinkLogEncoder.create_logger (type m) service node (nodeID (key parent)) (init_time m) (init_time p)
                             (blank (sizeof Create_Logger.size)) (sizeof Create_Logger.size));
      create it;;
      now ← Unix_to_now clock;
      emplace_timer (now + timeout) it;;
      mret (Success, it, Some b, logger))
    (fun r s' => exists j logger, r = (Success, it, Some j, logger) /\ made s (Success, it) s' /\ (j < length (ref_counts s'))%nat) s.
Proof.
  intros Hr Hl Hm Hlp Hp Hkey. pose proof Hr as (Hw & Hc & Hn & Hne).
  pose proof Hl as Hl'%live_iff. pose proof Hlp as Hlp'%live_iff.
  assert (Hdiff : key parent <> key it) by (intros E; rewrite E in Hlp'; congruence).
  destruct (Hn _ _ _ Hlp') as (_ & Hps & Hpn & Hbuf). rewrite Hp in Hbuf. destruct Hbuf as (b & Hb & Hbl).
  destruct (lookup_lt_is_Some_2 _ _ Hbl) as [c Hbc]. destruct (Hn _ _ _ Hl') as (Ha & Hs & Hnd & _).
  rewrite Hkey in Hs, Hnd. cbn in Hs, Hnd. destruct (registry_flag s it m Hr Hl) as (q & f & Hq & Hf & Hw').
  apply st_bind. eapply st_deref; [exact Hb |].
  apply st_bind. eapply complete_wp; [exact Hl | exact Hbc |].
  apply st_bind. eapply destroy_wp; [apply live_iff; cbn; apply lookup_insert_eq | exact Hq | exact Hf |]. cbn. rewrite insert_insert_eq.
  apply st_bind. eapply node_of_wp; [apply live_iff; cbn; apply lookup_insert_eq |].
  apply st_bind. eapply node_of_wp; [apply live_iff; cbn; by rewrite lookup_insert_ne |].
  apply st_bind. eapply st_lift; [by apply create_encoded |].
  apply st_bind. eapply create_wp; [apply live_iff; cbn; apply lookup_insert_eq |]. cbn. rewrite insert_insert_eq.
  apply st_bind, now_wp. apply st_bind. eapply emplace_wp; [apply live_iff; cbn; apply lookup_insert_eq |]. unfold set_timers. apply st_ret. cbn.
  set (m' := with_flag _ _). eexists b, _. split; [reflexivity |]. split; [| by rewrite length_insert].
  split; [split; [| split; [| split]] |]; cbn.
  - rewrite wiring_insert. rewrite (iter_eta it) at 1. by apply wired_started.
  - apply counted_more; try done. intros a' m1 Hl1. congruence.
  - rewrite length_insert. eapply nodes_ok_insert; [exact Hn | lia | done |]. rewrite Hkey. split_and!; [done | done | by exists b].
  - destruct (ref_counts s); [done |]. by destruct b.
  - split.
    + intros (m1 & Hm1%live_iff & Hc1). congruence.
    + intros it'. rewrite !open_nodes. cbn. rewrite open_insert, <- iter_eta; [done | done |]. intros a' m1 Hl1. congruence.
Qed.

Lemma create_locked_ok s service node timeout :
  registry s -> (forall a m, _nodes s !! mkID service node = Some (a, m) -> created m = false -> parent_open s m) ->
  wp (create_logger_locked clock service node timeout)
    (fun '(state, it', b, _) s' => made s (state, it') s' /\ (exists j, b = Some j /\ (j < length (ref_counts s'))%nat) /\
       (state = NotRegister -> _nodes s' !! mkID service node = None)) s.
Proof.
  intros Hr Hpar. pose proof Hr as (Hw & Hc & Hn & Hne). unfold create_logger_locked, find. wp_run.
  destruct (_nodes s !! mkID service node) as [[a m] |] eqn:E.
  2: { apply st_bind. eapply buffer_wp; [done |]. intros b Hb. apply st_ret. split; [split; [done | by intros it] |]. split; [by exists b | done]. }
  assert (Hl : live s (mkIter (mkID service node) a) = Some m) by by apply live_iff.
  apply st_bind. eapply node_of_wp; [exact Hl |]. destruct (created m) eqn:Hcr.
  { apply st_ret. split; [split; [done | by intros it] |]. destruct (Hn _ _ _ E) as (_ & _ & _ & Hb). by rewrite Hcr in Hb. }
  destruct (Hpar _ _ eq_refl Hcr) as (pi & Hpi & p & Hp & Hpc).
  assert (Hdiff : key pi <> mkID service node) by (intros Ek; apply live_iff in Hp; rewrite Ek in Hp; congruence).
  assert (Hwhen : wp (when (type m =? Decision) (pi ← deref (parent_iter m); update_node pi with_sub_decision))
    (fun _ s1 => registry s1 /\ unchanged s s1 /\ live s1 (mkIter (mkID service node) a) = Some m /\
                 exists p1, live s1 pi = Some p1 /\ created p1 = true) s).
  { unfold when. destruct (type m =? Decision).
    - apply st_bind. eapply st_deref; [exact Hpi |]. eapply update_wp; [exact Hp |].
      destruct (registry_touch s pi p (with_sub_decision p)) as [Hr1 Hu]; try done. split; [done |]. split; [done |]. split.
      + apply live_iff. cbn. by rewrite lookup_insert_ne.
      + exists (with_sub_decision p). split; [apply live_put | done].
    - apply st_ret. split; [done |]. split; [by intros it |]. split; [done |]. by exists p. }
  apply st_bind. eapply st_mono; [exact Hwhen |]. intros _ s1 (Hr1 & Hu1 & Hl1 & p1 & Hp1 & Hpc1).
  apply st_bind. eapply st_deref; [exact Hpi |]. apply st_bind. eapply node_of_wp; [exact Hp1 |].
  eapply st_mono; [by eapply (create_child_ok s1 _ m pi p1) |]. intros r s' (j & logger & -> & [Hr' [Hno Hop]] & Hj).
  split; [| split; [by exists j | done]]. split; [done |]. cbn. split; [by rewrite <- (Hu1 _) |]. intros it'. by rewrite (Hop it'), (Hu1 it').
Qed.

Lemma create_logger_ok s service node timeout :
  registry s -> zlen service = SERVICE_ID_SIZE -> zlen node = NODE_ID_SIZE ->
  (forall a m, _nodes s !! mkID service node = Some (a, m) -> created m = false -> parent_open s m) ->
  wp (create_logger clock service node timeout) (made s) s.
Proof.
  intros Hr Hs Hnd Hpar. unfold create_logger. apply st_bind. wp_call create_locked_ok; try done.
  intros [[[state it] b] logger] s' (Hm & (j & -> & Hj) & Hnot).
  destruct (decide (state = Success)) as [-> | Hne].
  { apply st_bind, safe_write_wp; [done |]. intros s1 H1. wp_run.
    apply (made_same s s'); [| done]. destruct H1 as (? & ? & ? & ? & ? & ?). by split_and!. }
  apply st_bind, safe_error_wp; [done |]. intros s1 H1. pose proof (made_same s s' s1 _ H1 Hm) as Hm1.
  destruct (decide (state = NotRegister)) as [-> | Hne2]; [| by apply st_ret].
  destruct Hm1 as [Hr1 Hu1]. eapply st_mono; [apply create_head_ok; try done |].
  { intros a m. destruct H1 as (-> & _). rewrite (Hnot eq_refl). done. }
  intros r s2 [Hr2 Hop2]. split; [done |]. cbn in Hu1. destruct (decide (r.1 = Success)).
  - destruct Hop2 as [Hno Hop]. split; [by rewrite <- (Hu1 _) |]. intros it'. by rewrite (Hop it'), (Hu1 it').
  - intros it'. by rewrite (Hop2 it').
Qed.

Lemma destroy_logger_ok s it : registry s -> is_open s it -> wp (destroy_logger clock it) (fun _ s' => registry s' /\ closed s s' it) s.
Proof.
  intros Hr (m & Hl & Hcr). pose proof Hr as (Hw & Hc & Hn & Hne). pose proof Hl as Hl'%live_iff.
  destruct (Hn _ _ _ Hl') as (Ha & Hs & Hnd & Hb). rewrite Hcr in Hb. destruct Hb as (b & Hb & Hbl).
  destruct (lookup_lt_is_Some_2 _ _ Hbl) as [c Hbc]. destruct (registry_flag s it m Hr Hl) as (q & f & Hq & Hf & Hw').
  unfold destroy_logger. apply st_bind. unfold destroy_logger_locked, find. wp_run. rewrite Hl'.
  apply st_assert; [apply bool_decide_eq_true; by destruct it |].
  apply st_bind. eapply node_of_wp; [exact Hl |]. apply st_bind, now_wp. apply st_bind. eapply st_lift; [by apply end_encoded |].
  unfold shutdown. apply st_bind, st_bind. eapply update_wp; [exact Hl |]. apply st_bind. eapply node_of_wp; [apply live_put |].
  apply st_bind. eapply st_deref; [exact Hb |]. eapply change_ref_wp; [exact Hbc |].
  apply st_bind. eapply destroy_wp; [apply live_iff; cbn; apply lookup_insert_eq | exact Hq | exact Hf |]. cbn. rewrite insert_insert_eq.
  unfold erase_node. apply st_bind, st_bind. eapply node_of_wp; [apply live_iff; cbn; apply lookup_insert_eq |]. wp_run.
  unfold set_nodes. cbn. rewrite delete_insert_eq, Hb. apply safe_write_wp; [cbn; by rewrite length_insert |]. intros s' (E1 & E2 & E3 & E4 & E5 & E6). wp_run.
  unfold registry, closed. setoid_rewrite open_nodes. cbn. rewrite E1, E2, E3, E4, E5, E6. cbn. split; [split; [| split; [| split]] |].
  - rewrite wiring_delete. apply wired_drop in Hw'; [by rewrite delete_insert_eq in Hw' |]. exists (alloc it). apply lookup_insert_eq.
  - by eapply counted_less.
  - rewrite length_insert. by apply nodes_ok_delete.
  - destruct (ref_counts s); [done |]. by destruct b.
  - intros it'. rewrite open_delete. split; intros [Ho Hd]; (split; [done |]); [congruence |].
    intros Hk. apply Hd. destruct Ho as (m1 & Hm1 & _). rewrite Hk in Hm1. rewrite (iter_eta it'), (iter_eta it). f_equal; congruence.
Qed.

(** ** Timeouts *)

Definition registry_at (l : list TimerData) s : Prop :=
  wired Wired l (wiring (_nodes s)) (flags s) (next_flag s) /\ counted (_nodes s) (ref_counts s) /\
  nodes_ok (_nodes s) (next_alloc s) (length (ref_counts s)) /\ ref_counts s <> [].

Lemma report_timeout_wp s center t e (Q : unit -> server -> Prop) :
  (forall s', same_registry s s' -> Q tt s') -> wp (report_timeout center t e) Q s.
Proof.
  intros HQ. unfold report_timeout, when. destruct center; wp_run; (apply HQ; by split_and!).
Qed.

Lemma registry_at_same l s s' : same_registry s s' -> registry_at l s -> registry_at l s'.
Proof. unfold registry_at. intros (-> & -> & -> & -> & _ & ->). done. Qed.

(** The timer that went off: its node is there and shares its flag, which is set by now. *)
Lemma handle_timeout_ok s center t l p :
  registry_at l s -> _nodes s !! key (iter t) = Some (alloc (iter t), p) ->
  (exists q, logger_timout p = Some q /\ flags s !! q = Some true) ->
  wp (handle_timeout center t) (fun _ s' => registry_at l s' /\ unchanged s s' /\ _timers s' = _timers s) s.
Proof.
  intros Hr Hl (q & Hq & Hf). unfold handle_timeout. apply st_bind. eapply node_of_wp; [by apply live_iff |].
  assert (Hsame : forall s1, same_registry s s1 -> registry_at l s1 /\ unchanged s s1 /\ _timers s1 = _timers s).
  { intros s1 H1. split; [by eapply registry_at_same |]. split; [intros it; by apply open_same | apply H1]. }
  destruct (created p) eqn:Hcr; [by apply report_timeout_wp |].
  assert (Hrest : forall s1, same_registry s s1 ->
    wp (destroy (iter t);; erase_node (iter t)) (fun _ s' => registry_at l s' /\ unchanged s s' /\ _timers s' = _timers s) s1).
  { intros s1 (E1 & E2 & E3 & E4 & E5 & E6). apply st_bind.
    eapply destroy_wp; [apply live_iff; rewrite E1; exact Hl | exact Hq | rewrite E3; exact Hf |].
    unfold erase_node. apply st_bind. eapply node_of_wp; [apply live_iff; cbn; apply lookup_insert_eq |]. wp_run.
    unfold registry_at, unchanged, set_nodes. setoid_rewrite open_nodes. cbn. rewrite E1, E2, E3, E4, E5, E6, delete_insert_eq.
    destruct Hr as (Hw & Hc & Hn & Hne). split; [split; [| split; [| split]] |]; try done.
    - rewrite wiring_delete. pose proof (wiring_lookup _ _ _ _ Hl) as Hwl. rewrite Hq in Hwl.
      apply (wired_let_go _ _ _ _ (key (iter t)) (alloc (iter t)) q (delete q (flags s))) in Hw; [| done | by intros; rewrite lookup_delete_ne | by rewrite lookup_delete_eq, decide_True].
      apply wired_drop in Hw; [by rewrite delete_insert_eq in Hw |]. exists (alloc (iter t)). apply lookup_insert_eq.
    - by eapply counted_waiting.
    - by apply nodes_ok_delete.
    - split; [| done]. intros it. rewrite open_delete. split; [by intros [? _] |]. intros Ho. split; [done |].
      intros Hk. destruct Ho as (m1 & Hm1 & Hc1). rewrite Hk in Hm1. congruence. }
  unfold when. apply st_bind. destruct (negb (type p =? Decision)); [apply report_timeout_wp; exact Hrest |].
  apply st_ret, Hrest. by split_and!.
Qed.

Lemma check_timers_ok fuel center now : forall s, registry s -> (length (_timers s) < fuel)%nat ->
  wp (check_timers fuel center now) (fun _ s' => registry s' /\ unchanged s s') s.
Proof.
  induction fuel as [| fuel IH]; intros s Hr Hf; [lia |]. cbn [check_timers]. apply st_bind, st_gets.
  destruct (_timers s) as [| t l] eqn:Ht; [by apply st_ret; split; [| intros it] |].
  destruct (expire_time t <=? now); [| by apply st_ret; split; [| intros it]].
  pose proof Hr as (Hw & Hc & Hn & Hne). rewrite Ht in Hw.
  destruct (w_timer _ _ _ _ _ Hw t (list_elem_of_here _ _)) as (p & b & Hp & Hb & Hl).
  assert (Hnext : forall s1, registry_at l s1 -> unchanged s s1 -> _timers s1 = t :: l ->
    wp (modify (set_timers tail);; check_timers fuel center now) (fun _ s' => registry s' /\ unchanged s s') s1).
  { intros s1 Hr1 Hu1 Ht1. wp_run. eapply st_mono; [apply IH |].
    - unfold registry. cbn. rewrite Ht1. exact Hr1.
    - cbn. rewrite Ht1. simpl in *. lia.
    - intros _ s2 [Hr2 Hu2]. split; [done |]. intros it. rewrite (Hu2 it). apply (Hu1 it). }
  apply st_bind. unfold timer_check. apply st_bind. eapply st_deref; [exact Hp |]. apply st_bind. eapply flag_wp; [exact Hb |].
  assert (Hfire : forall F', (forall q, q <> p -> F' !! q = flags s !! q) -> F' !! p = (if b then None else Some true) ->
    registry_at l (set_flags (fun _ => F') s)).
  { intros F' Hother Hhere. split_and!; try done. cbn. by eapply wired_fire. }
  destruct b.
  - unfold delete_flag. apply st_bind, st_bind. eapply flag_wp; [exact Hb |]. wp_run. unfold when. apply st_ret.
    apply Hnext; [| by intros it | done]. apply (Hfire (delete p (flags s))); [by intros; rewrite lookup_delete_ne | by rewrite lookup_delete_eq].
  - unfold set_flag. apply st_bind, st_bind. eapply flag_wp; [exact Hb |]. wp_run. unfold when.
    assert (Hr1 : registry_at l (set_flags <[p := true]> s))
      by (apply (Hfire (<[p := true]> (flags s))); [by intros; rewrite lookup_insert_ne | by rewrite lookup_insert_eq]).
    specialize (Hl eq_refl). unfold wiring in Hl. rewrite lookup_fmap in Hl.
    destruct (_nodes s !! key (iter t)) as [[a m] |] eqn:Hm; [| done]. cbn in Hl. injection Hl as -> Hfl.
    eapply st_mono; [eapply (handle_timeout_ok _ center t l m Hr1) |].
    + exact Hm.
    + exists p. split; [done |]. apply lookup_insert_eq.
    + intros _ s1 (Hr1' & Hu1 & Ht1). apply Hnext; [done | exact Hu1 | by rewrite Ht1].
Qed.

Lemma check_timeout_ok s center : registry s -> wp (check_timeout clock center) (fun _ s' => registry s' /\ unchanged s s') s.
Proof.
  intros Hr. unfold check_timeout. apply st_bind, now_wp. wp_run.
  apply (check_timers_ok _ _ _ (tick s)); [done |]. cbn. lia.
Qed.
End Operations.
