(* ===== verification/LinkLogSession.v ===== *)
(** * LinkLogSession: programs that use the link log server

    Sequences of constructions, registrations, pushes, closes and moves of [LinkLogger]s, with
    timeouts in between.  The server asks two things of its clients that it does not check: no
    head is created for an id that is registered and waits, and no child is created after
    its parent was closed.  The theorem is about every sequence that respects both; the
    examples are what happens otherwise. *)

From stdpp Require Import gmap.
From S2P Require Import Prelude StateMonad Interpreter LinkLogFormat LinkLogServer LinkLogWiring LinkLogRegistry.
Local Open Scope Z_scope.

(** ** Clients *)

Record client := mkClient { srv : server; loggers : list LinkLogger }.

Definition on_server {A} (m : M A) : ST client A := fun k =>
  match m (srv k) with Ret (a, s) => Ret (a, mkClient s (loggers k)) | Fault f => Fault f end.
Definition set_loggers f : ST client unit := modify (fun k => mkClient (srv k) (f (loggers k))).
Definition logger (i : nat) : ST client LinkLogger := fun k => deref (loggers k !! i) k.

Inductive call :=
  | NewHead (rank : Z) (service node : list Z) (is_branch : bool) (timeout : Z)
  | NewNode (rank : Z) (service node : list Z) (timeout : Z)
  | NewChild (rank : Z) (parent : nat) (node : list Z) (timeout : Z)
  | Push (i : nat) (rank : Z) (data : list Z)
  | RegisterChild (i : nat) (type : Z) (node : list Z) (timeout : Z)
  | Close (i : nat)
  | Move (i : nat)
  | CheckTimeout (center : bool).

Section Session.
Context (clock : nat -> Z).

(** A construction that throws leaves no object. *)
Definition construct_object (m : M (LinkErrorType + LinkLogger)) : ST client unit :=
  r ← on_server m; match r with inr g => set_loggers (fun l => l ++ [g]) | inl _ => mret tt end.

Definition run_call (c : call) : ST client unit :=
  match c with
  | NewHead rank service node is_branch timeout => construct_object (LinkLogger_head clock rank service node is_branch timeout)
  | NewNode rank service node timeout => construct_object (LinkLogger_node clock rank service node timeout)
  | NewChild rank i node timeout => g ← logger i; construct_object (LinkLogger_child clock rank g node timeout)
  | Push i rank data => g ← logger i; on_server (push clock g rank data)
  | RegisterChild i type node timeout => g ← logger i; _ ← on_server (register_child_node clock g type node timeout); mret tt
  | Close i => g ← logger i; g ← on_server (close clock g); set_loggers <[i := g]>
  | Move i => g ← logger i; set_loggers (fun l => <[i := moved_from g]> l ++ [g])
  | CheckTimeout center => on_server (check_timeout clock center)
  end.

(** ** What a client respects *)

Definition open_now (s : server) (it : MapIter) : bool := match live s it with Some m => created m | None => false end.

(** The id of a new head does not wait for its creation. *)
Definition not_waiting (s : server) (id : Identification) : bool :=
  match _nodes s !! id with Some (_, m) => created m | None => true end.

(** The parent of a node that waits is still open. *)
Definition parent_alive (s : server) (id : Identification) : bool :=
  match _nodes s !! id with
  | Some (_, m) => created m || match parent_iter m with Some pi => open_now s pi | None => false end
  | None => true
  end.

Definition is_mark (bs : list Z) : bool := zlen bs =? 8.

(** Objects are used while they hold a logger; ids are marks of eight bytes. *)
Definition permitted (c : call) (k : client) : bool :=
  match c with
  | NewHead _ service node _ _ => is_mark service && is_mark node && not_waiting (srv k) (mkID service node)
  | NewNode _ service node _ => is_mark service && is_mark node && parent_alive (srv k) (mkID service node)
  | NewChild _ i node _ =>
      is_mark node &&
      match loggers k !! i with
      | Some g => _server g && match _iter g with Some it => parent_alive (srv k) (mkID (serviceID (key it)) node) | None => false end
      | None => false
      end
  | Push i _ _ => match loggers k !! i with Some g => _server g | None => false end
  | RegisterChild i _ node _ => is_mark node && match loggers k !! i with Some g => _server g | None => false end
  | Close i | Move i => match loggers k !! i with Some _ => true | None => false end
  | CheckTimeout _ => true
  end.

(** A client makes the calls it may make. *)
Fixpoint run_session (cs : list call) : ST client unit :=
  match cs with
  | [] => mret tt
  | c :: cs => ok ← gets (permitted c); (if ok : bool then run_call c else mret tt);; run_session cs
  end.

Definition server_init (buffers : nat) : server := mkServer ∅ 0 ∅ 0 [] (replicate buffers 0) 0 [].
Definition client_init (buffers : nat) : client := mkClient (server_init buffers) [].

(** ** The invariant of a session *)

Definition holds_logger (l : list LinkLogger) (i : nat) (it : MapIter) : Prop :=
  exists g, l !! i = Some g /\ _server g = true /\ _iter g = Some it.

(** The loggers in use are the created nodes, one for one. *)
Definition one_for_one (s : server) (l : list LinkLogger) : Prop :=
  (forall it, is_open s it <-> exists i, holds_logger l i it) /\
  (forall i j it, holds_logger l i it -> holds_logger l j it -> i = j) /\
  (forall i g, l !! i = Some g -> _server g = true -> is_Some (_iter g)).

Definition session_ok (k : client) : Prop := registry (srv k) /\ one_for_one (srv k) (loggers k).

Lemma on_server_wp {A} (m : M A) (Q : A -> client -> Prop) k :
  wp m (fun a s' => Q a (mkClient s' (loggers k))) (srv k) -> wp (on_server m) Q k.
Proof. unfold wp, on_server. by destruct (m (srv k)) as [[a s] |]. Qed.

Lemma logger_wp i g (Q : LinkLogger -> client -> Prop) k : loggers k !! i = Some g -> Q g k -> wp (logger i) Q k.
Proof. intros Hi HQ. unfold wp, logger. by rewrite Hi. Qed.

Lemma unchanged_session s s' l : registry s' -> unchanged s s' -> one_for_one s l -> session_ok (mkClient s' l).
Proof. intros Hr Hu (H1 & H2). split; [done |]. split; [| done]. intros it. cbn. by rewrite (Hu it), H1. Qed.

Lemma holds_app l g i it : holds_logger (l ++ [g]) i it <-> holds_logger l i it \/ (i = length l /\ _server g = true /\ _iter g = Some it).
Proof.
  unfold holds_logger. split.
  - intros (g' & Hi & Hg). apply lookup_app_Some in Hi as [Hi | [Hge Hi]]; [left; by exists g' |]. right.
    apply list_lookup_singleton_Some in Hi as [Hi <-]. split; [lia | done].
  - intros [(g' & Hi & Hg) | (-> & Hg)]; [exists g' | exists g]; (split; [| done]).
    + by apply lookup_app_l_Some.
    + rewrite lookup_app_r, Nat.sub_diag by done. done.
Qed.

(** A new object. *)
Lemma opened_session s s' l it rank : registry s' -> opened s s' it -> one_for_one s l ->
  session_ok (mkClient s' (l ++ [mkLogger rank (Some it) true])).
Proof.
  intros Hr [Hno Hop] (H1 & H2 & H3). split; [done |]. cbn. split; [| split].
  - intros it'. rewrite (Hop it'), H1. setoid_rewrite holds_app. cbn. split.
    + intros [[i Hi] | ->]; [exists i; by left | exists (length l); by right].
    + intros (i & [Hi | (_ & _ & [= ->])]); [left; by exists i | by right].
  - intros i j it'. rewrite !holds_app. cbn.
    intros [Hi | (-> & _ & Hi)] [Hj | (-> & _ & Hj)]; [by eapply H2 | | | done].
    + exfalso. injection Hj as <-. apply Hno, H1. by exists i.
    + exfalso. injection Hi as <-. apply Hno, H1. by exists j.
  - intros i g Hi Hg. apply lookup_app_Some in Hi as [Hi | [_ Hi]]; [by eapply H3 |].
    apply list_lookup_singleton_Some in Hi as [_ <-]. by eexists.
Qed.

Lemma construct_ok m rank k :
  session_ok k -> wp m (made (srv k)) (srv k) -> wp (construct_object (construct rank m)) (fun _ => session_ok) k.
Proof.
  intros [Hr H1] Hm. unfold construct_object. apply st_bind, on_server_wp. unfold construct. apply st_bind.
  eapply st_mono; [exact Hm |]. intros [state it] s' [Hr' Hop]. apply st_ret. cbn in Hop. destruct (decide (state = Success)).
  - wp_run. cbn. by eapply opened_session.
  - apply st_ret. by eapply unchanged_session.
Qed.

Lemma is_mark_spec bs : is_mark bs = true -> zlen bs = 8.
Proof. apply Z.eqb_eq. Qed.

Lemma open_now_spec s it : open_now s it = true -> is_open s it.
Proof. unfold open_now, is_open. destruct (live s it) as [m |]; [by exists m | done]. Qed.

Lemma parent_alive_spec s id : parent_alive s id = true ->
  forall a m, _nodes s !! id = Some (a, m) -> created m = false -> parent_open s m.
Proof.
  unfold parent_alive. intros Hp a m Hm Hc. rewrite Hm, Hc in Hp. cbn in Hp.
  destruct (parent_iter m) as [pi |] eqn:E; [| done]. exists pi. split; [done |]. by apply open_now_spec.
Qed.

Lemma not_waiting_spec s id : not_waiting s id = true -> forall a m, _nodes s !! id = Some (a, m) -> created m = true.
Proof. unfold not_waiting. intros Hp a m Hm. by rewrite Hm in Hp. Qed.

(** A logger in use has an iterator to a created node. *)
Lemma logger_open k i g : session_ok k -> loggers k !! i = Some g -> _server g = true -> exists it, _iter g = Some it /\ is_open (srv k) it.
Proof.
  intros [_ (H1 & _ & H3)] Hi Hg. destruct (H3 i g Hi Hg) as [it Hit]. exists it. split; [done |]. apply H1. exists i. by exists g.
Qed.

Lemma holds_insert l i g j it : (i < length l)%nat ->
  holds_logger (<[i := g]> l) j it <-> (j <> i /\ holds_logger l j it) \/ (j = i /\ _server g = true /\ _iter g = Some it).
Proof.
  intros Hi. unfold holds_logger. destruct (decide (j = i)) as [-> | Hne].
  - rewrite list_lookup_insert_eq by done. naive_solver.
  - rewrite list_lookup_insert_ne by done. naive_solver.
Qed.

Lemma link_push_ok k g i rank data : session_ok k -> loggers k !! i = Some g -> _server g = true ->
  wp (push clock g rank data) (fun _ s' => same_registry (srv k) s') (srv k).
Proof.
  intros Hk Hi Hg. destruct (logger_open k i g Hk Hi Hg) as (it & Hit & m & Hl & Hm). unfold push.
  destruct (rank <? _rank g); [apply st_ret; by split_and! |].
  apply st_bind. eapply st_deref; [exact Hit |]. apply st_bind. eapply node_of_wp; [exact Hl |].
  destruct Hk as [(_ & _ & Hn & _) _]. apply live_iff in Hl. destruct (Hn _ _ _ Hl) as (_ & _ & _ & Hb). rewrite Hm in Hb.
  destruct Hb as (b & -> & Hb). apply st_bind. eapply valid_buffer_wp; [exact Hb |]. apply st_bind, now_wp, st_modify. by split_and!.
Qed.

Lemma same_session k s' : session_ok k -> same_registry (srv k) s' -> session_ok (mkClient s' (loggers k)).
Proof.
  intros [Hr H1] Hs. apply (unchanged_session (srv k)); [by eapply registry_same | intros it; by apply open_same | done].
Qed.

Lemma register_ok k g i type node timeout : session_ok k -> loggers k !! i = Some g -> _server g = true -> zlen node = 8 ->
  wp (register_child_node clock g type node timeout) (fun _ s' => registry s' /\ unchanged (srv k) s') (srv k).
Proof.
  intros Hk Hi Hg Hn. destruct (logger_open k i g Hk Hi Hg) as (it & Hit & Hop). unfold register_child_node.
  apply st_bind. eapply st_deref; [exact Hit |]. destruct ((type =? BranchHead) || (type =? Head)).
  { destruct Hop as (m & Hl & _). apply st_bind. eapply node_of_wp; [exact Hl |]. apply st_ret. split; [apply Hk | by intros it']. }
  unfold server_of. rewrite Hg. apply st_bind, (st_deref _ tt); [done |].
  apply st_bind. eapply st_mono; [apply register_logger_ok; [apply Hk | exact Hop | exact Hn] |]. intros e s' H'. by apply st_ret.
Qed.

Lemma link_close_ok k g i : session_ok k -> loggers k !! i = Some g ->
  wp (close clock g) (fun g' s' => session_ok (mkClient s' (<[i := g']> (loggers k)))) (srv k).
Proof.
  intros Hk Hi. unfold close. pose proof (lookup_lt_Some _ _ _ Hi) as Hlt. destruct (_server g) eqn:Hg.
  2: { apply st_ret. rewrite list_insert_id by done. by destruct k. }
  destruct (logger_open k i g Hk Hi Hg) as (it & Hit & Hop). apply st_bind. eapply st_deref; [exact Hit |].
  destruct Hk as [Hr (H1 & H2 & H3)]. apply st_bind. eapply st_mono; [by apply destroy_logger_ok |].
  intros _ s' [Hr' Hcl]. apply st_ret. split; [done |]. cbn. split; [| split].
  - intros it'. rewrite (Hcl it'), H1. setoid_rewrite holds_insert; [| done..]. cbn. split.
    + intros [[j Hj] Hne]. exists j. left. split; [| done]. intros ->. destruct Hj as (g' & Hj & _ & Hj'). congruence.
    + intros [j [[Hne Hj] | (_ & ? & _)]]; [| done]. split; [by exists j |]. intros ->. apply Hne, (H2 _ _ it); [done |]. by exists g.
  - intros j1 j2 it'. rewrite !holds_insert by done. cbn. intros [[_ Hj1] | (_ & ? & _)] [[_ Hj2] | (_ & ? & _)]; try done. by eapply H2.
  - intros j g' Hj Hg'. apply list_lookup_insert_Some in Hj as [(_ & <- & _) | [_ Hj]]; [done | by eapply H3].
Qed.

Lemma link_move_ok k g i : session_ok k -> loggers k !! i = Some g -> session_ok (mkClient (srv k) (<[i := moved_from g]> (loggers k) ++ [g])).
Proof.
  intros [Hr (H1 & H2 & H3)] Hi. pose proof (lookup_lt_Some _ _ _ Hi) as Hlt. split; [done |]. cbn.
  assert (Hiff : forall j it, holds_logger (<[i := moved_from g]> (loggers k) ++ [g]) j it <->
            (j <> i /\ holds_logger (loggers k) j it) \/ (j = length (loggers k) /\ holds_logger (loggers k) i it)).
  { intros j it. rewrite holds_app, holds_insert, length_insert by done. cbn. unfold holds_logger at 3. rewrite Hi. naive_solver. }
  split; [| split].
  - intros it. rewrite H1. setoid_rewrite Hiff. split.
    + intros [j Hj]. destruct (decide (j = i)) as [-> | Hne]; [exists (length (loggers k)); by right | exists j; by left].
    + intros [j [[_ Hj] | [_ Hj]]]; by eexists.
  - intros j1 j2 it. rewrite !Hiff. intros [[Hn1 Hj1] | [-> Hj1]] [[Hn2 Hj2] | [-> Hj2]]; [by eapply H2 | | | done];
      exfalso; [apply Hn1 | apply Hn2]; by apply (H2 _ _ it).
  - intros j g' Hj Hg'. apply lookup_app_Some in Hj as [Hj | [_ Hj]].
    + apply list_lookup_insert_Some in Hj as [(_ & <- & _) | [_ Hj]]; [done | by eapply H3].
    + apply list_lookup_singleton_Some in Hj as [_ <-]. by eapply H3.
Qed.

Lemma link_call_ok k c : session_ok k -> permitted c k = true -> wp (run_call c) (fun _ => session_ok) k.
Proof.
  intros Hk Hp. pose proof Hk as [Hr H1]. destruct c as [rank sv n br t | rank sv n t | rank i n t | i rank d | i ty n t | i | i | ce]; cbn [permitted run_call] in *.
  - zbool. apply construct_ok; [done |]. apply create_head_ok; try done; [by apply is_mark_spec.. | by apply not_waiting_spec].
  - zbool. apply construct_ok; [done |]. apply create_logger_ok; try done; [by apply is_mark_spec.. | by apply parent_alive_spec].
  - destruct (loggers k !! i) as [g |] eqn:Hi; zbool; [| done]. destruct (_iter g) as [it |] eqn:Hit; [| done].
    apply st_bind. eapply logger_wp; [exact Hi |]. destruct (logger_open k i g Hk Hi ltac:(done)) as (it' & Hit' & m & Hl & Hm).
    assert (it' = it) as -> by congruence.
    assert (Hsv : zlen (serviceID (key it)) = SERVICE_ID_SIZE) by (destruct Hr as (_ & _ & Hn & _); apply live_iff in Hl; by destruct (Hn _ _ _ Hl) as (_ & ? & _)).
    assert (Heq : LinkLogger_child clock rank g n t (srv k) = construct rank (create_logger clock (serviceID (key it)) n t) (srv k)).
    { unfold LinkLogger_child, server_of, mbind at 1, ST_bind at 1. rewrite H0. cbn. unfold mbind at 1, ST_bind at 1. rewrite Hit. cbn.
      unfold mbind at 1, ST_bind at 1, node_of at 1. rewrite Hl. done. }
    pose proof (construct_ok (create_logger clock (serviceID (key it)) n t) rank k Hk) as Hc.
    unfold construct_object, wp, mbind, ST_bind, on_server in *. rewrite Heq. apply Hc.
    apply create_logger_ok; try done; [by apply is_mark_spec | by apply parent_alive_spec].
  - destruct (loggers k !! i) as [g |] eqn:Hi; [| done]. apply st_bind. eapply logger_wp; [exact Hi |]. apply on_server_wp.
    eapply st_mono; [by eapply link_push_ok |]. intros ? s' Hs. by apply same_session.
  - destruct (loggers k !! i) as [g |] eqn:Hi; zbool; [| done]. apply st_bind. eapply logger_wp; [exact Hi |]. apply st_bind, on_server_wp.
    eapply st_mono; [by eapply register_ok; [| | | apply is_mark_spec] |]. intros ? s' [Hr' Hu]. apply st_ret. by eapply unchanged_session.
  - destruct (loggers k !! i) as [g |] eqn:Hi; [| done]. apply st_bind. eapply logger_wp; [exact Hi |]. apply st_bind, on_server_wp.
    eapply st_mono; [by eapply link_close_ok |]. intros g' s' Hs. by wp_run.
  - destruct (loggers k !! i) as [g |] eqn:Hi; [| done]. apply st_bind. eapply logger_wp; [exact Hi |]. wp_run. by apply link_move_ok.
  - apply on_server_wp. eapply st_mono; [by apply check_timeout_ok |]. intros ? s' [Hr' Hu]. by eapply unchanged_session.
Qed.

Lemma session_run cs : forall k, session_ok k -> wp (run_session cs) (fun _ => session_ok) k.
Proof.
  induction cs as [| c cs IH]; intros k Hk; [by apply st_ret |]. cbn [run_session]. apply st_bind, st_gets, st_bind.
  destruct (permitted c k) eqn:Hp; [eapply st_mono; [by apply link_call_ok | intros ? k' Hk'; by apply IH] |]. apply st_ret. by apply IH.
Qed.

Lemma init_ok buffers : buffers <> 0%nat -> session_ok (client_init buffers).
Proof.
  intros Hb. split; [split; [| split; [| split]] |]; cbn.
  - split; try done; cbn.
    + intros t Ht. by apply elem_of_nil in Ht.
    + constructor.
    + intros id1 id2 p [a Ha]. done.
    + intros p [b Hb']. done.
  - intros b c Hc. apply lookup_replicate in Hc as [-> _]. done.
  - by intros id a m Hm.
  - by destruct buffers.
  - split; [| split].
    + intros it. split; [intros (m & Hm & _); done | intros (i & g & Hi & _); done].
    + intros i j it (g & Hi & _). done.
    + by intros i g Hi.
Qed.
End Session.

(** ** What the server does not check *)

Module Demo.
Definition clock (n : nat) : Z := 1000 * Z.of_nat n.
Definition mark (b : Z) : list Z := [b; 0; 0; 0; 0; 0; 0; 0].
Definition after (cs : list call) : ST client unit := foldr (fun c m => run_call clock c;; m) (mret tt) cs.

(** A child is created when its parent is closed: the server follows an iterator to the erased
    parent. *)
Example create_after_parent_closed :
  after [NewHead 0 (mark 1) (mark 1) false 100; RegisterChild 0 Fork (mark 2) 100; Close 0; NewNode 0 (mark 1) (mark 2) 100] (client_init 2) =
  Fault BadPointer.
Proof. vm_compute. reflexivity. Qed.

(** A head takes the id of a node that waits for its creation: the conflict is written to the
    buffer of that node, which has none yet. *)
Example head_conflicts_with_waiting_node :
  after [NewHead 0 (mark 1) (mark 1) false 100; RegisterChild 0 Fork (mark 2) 100; NewHead 0 (mark 1) (mark 2) false 100] (client_init 2) =
  Fault BadPointer.
Proof. vm_compute. reflexivity. Qed.

(** A registration that fails with a conflict still decides the kind of children of its parent. *)
Example conflict_sets_subtype :
  (after [NewHead 0 (mark 1) (mark 1) false 100];; g ← logger 0;
   a ← on_server (register_child_node clock g Fork (mark 1) 100);
   b ← on_server (register_child_node clock g Follow (mark 2) 100); mret (a, b)) (client_init 2)
  ≫= (fun r => Ret r.1) = Ret (Some ConflictingNode, Some WrongType).
Proof. vm_compute. reflexivity. Qed.

(** A session with all kinds of calls: two loggers stay open. *)
Definition calls : list call :=
  [NewHead 0 (mark 1) (mark 1) false 5000; RegisterChild 0 Fork (mark 2) 100000; NewChild 0 0 (mark 2) 100; Push 1 0 [104; 105];
   RegisterChild 1 Decision (mark 3) 10; CheckTimeout true; Move 0; NewHead 0 (mark 4) (mark 4) true 1; Close 1; Close 0;
   CheckTimeout true; NewNode 0 (mark 1) (mark 3) 10; NewHead 0 (mark 1) (mark 1) false 10].
End Demo.

(** ** Properties *)

(** Both owners or, once one of them is gone, the other. *)
Definition flag_owned (s : server) (p : nat) (b : bool) : Prop :=
  let node := exists id, node_has (wiring (_nodes s)) id p in
  if b then (timer_has (_timers s) p /\ ~ node) \/ (~ timer_has (_timers s) p /\ node)
  else timer_has (_timers s) p /\ node.

Lemma wired_owned s p b : registry s -> flags s !! p = Some b -> flag_owned s p b.
Proof.
  intros (Hw & _) Hb. unfold flag_owned.
  assert (Hnode : forall id, node_has (wiring (_nodes s)) id p -> b = false <-> timer_has (_timers s) p).
  { intros id [a Hi]. destruct (w_node _ _ _ _ _ Hw _ _ _ Hi) as (b' & Hb' & Hx & _). naive_solver congruence. }
  assert (Htimer : b = false -> timer_has (_timers s) p -> exists id, node_has (wiring (_nodes s)) id p).
  { intros Hf (t & Ht & Hp). destruct (w_timer _ _ _ _ _ Hw t Ht) as (q & b' & Hq & Hb' & Hl).
    assert (q = p) as -> by congruence. exists (key (iter t)), (alloc (iter t)). apply Hl. congruence. }
  destruct (w_flag _ _ _ _ _ Hw p b Hb) as [Ht | [id Hi]]; destruct b.
  - left. split; [done |]. intros [id Hi]. by apply (Hnode id Hi) in Ht.
  - split; [done |]. by apply Htimer.
  - right. split; [| by exists id]. intros Ht. by apply (Hnode id Hi) in Ht.
  - split; [by apply (Hnode id Hi) | by exists id].
Qed.

(** C10. Any session of loggers (heads, children, registrations, pushes, moves, closes, timeouts,
    under any clock) that creates no child of a closed parent and no head for a waiting id:
    every call returns, so no iterator of an erased node and no deleted flag is used;
    a flag is in memory as long as its timer or its node has it, it is true exactly when one of
    the two is gone, and none is leaked; a buffer's reference count is the number of created
    nodes that write to it; the loggers in use are the created nodes, one for one. *)
Theorem link_log_registry_safe (clock : nat -> Z) (buffers : nat) (cs : list call) :
  buffers <> 0%nat ->
  exists k, run_session clock cs (client_init buffers) = Ret (tt, k) /\
    (forall p b, flags (srv k) !! p = Some b -> flag_owned (srv k) p b) /\
    (forall t, t ∈ _timers (srv k) -> exists p, timer_flag t = Some p /\ is_Some (flags (srv k) !! p)) /\
    (forall id a m, _nodes (srv k) !! id = Some (a, m) -> exists p, logger_timout m = Some p /\ is_Some (flags (srv k) !! p)) /\
    (forall b c, ref_counts (srv k) !! b = Some c -> c = u32 (Z.of_nat (uses b (usage (_nodes (srv k)))))) /\
    one_for_one (srv k) (loggers k).
Proof.
  intros Hb. pose proof (session_run clock cs _ (init_ok buffers Hb)) as Hrun.
  apply st_intro in Hrun as ([] & k & Hrun & Hr & H1). exists k. split; [done |]. pose proof Hr as (Hw & Hc & _).
  split; [intros p b; by apply wired_owned |]. split; [| split; [| by split]].
  - intros t Ht. destruct (w_timer _ _ _ _ _ Hw t Ht) as (p & b & Hp & Hb' & _). exists p. split; [done | by eexists].
  - intros id a m Hm. apply wiring_lookup in Hm. pose proof (w_node _ _ _ _ _ Hw _ _ _ Hm) as Hn.
    destruct (logger_timout m) as [p |]; [| done]. destruct Hn as (b & Hb' & _). exists p. split; [done | by eexists].
Qed.

Lemma link_log_registry_safe_witness :
  exists k, run_session Demo.clock Demo.calls (client_init 2) = Ret (tt, k) /\
    (forall p b, flags (srv k) !! p = Some b -> flag_owned (srv k) p b) /\
    (forall t, t ∈ _timers (srv k) -> exists p, timer_flag t = Some p /\ is_Some (flags (srv k) !! p)) /\
    (forall id a m, _nodes (srv k) !! id = Some (a, m) -> exists p, logger_timout m = Some p /\ is_Some (flags (srv k) !! p)) /\
    (forall b c, ref_counts (srv k) !! b = Some c -> c = u32 (Z.of_nat (uses b (usage (_nodes (srv k)))))) /\
    one_for_one (srv k) (loggers k).
Proof. apply (link_log_registry_safe Demo.clock 2 Demo.calls). discriminate. Defined.

Example session_keeps_two :
  match run_session Demo.clock Demo.calls (client_init 2) with
  | Ret (_, k) => length (filter (fun g => _server g = true) (loggers k))
  | Fault _ => 0%nat
  end = 3%nat.
Proof. vm_compute. reflexivity. Qed.
