(* ===== verification/ThreadPool.v ===== *)
(** * ThreadPool: the pool of worker threads (Base/ThreadPool.hpp, src/ThreadPool.cpp)

    A small-step model of every thread that runs the code of the pool: its workers and any
    number of clients, each with a list of calls to make.  A thread is the place it has reached
    ([pc]); one step is one access to the shared state: a load or a store of an atomic, the
    acquisition of the lock, a notification, one evaluation of the condition of an [if] or of a
    wait.  What a section does last and the release of its lock are one step.  A wait is what
    Condition.hpp makes of it: test, release the lock and sleep, wake up, take the lock, test
    again; a sleeping thread is woken by a notification or spuriously.

    Tasks are numbers: the nth task that was submitted.  [fun(false)] runs a task, [fun(true)]
    kills it.  The number of threads is a [Z] that is never rounded to 32 bits
    (ThreadPoolSafety.v: it counts the workers). *)

From S2P Require Import Prelude.

(** ** Shared state *)

Inductive State := RUNNING | STOP | SHUTTING | TERMINATED.
#[export] Instance State_dec : EqDecision State.
Proof. solve_decision. Defined.

Inductive Condition := consume | submit.
Definition same_condition (c d : Condition) : bool :=
  match c, d with consume, consume | submit, submit => true | _, _ => false end.

Record ThreadPool := mkPool {
  _core_threads : Z; _target_thread_size : Z; _max_tasks : nat; _state : State; _list : list nat;
  owner : option nat;
  submitted : nat; ran : list nat; killed : list nat; dropped : list nat;
  created : list nat; next_thread : nat }.

Definition set_core n p := mkPool n (_target_thread_size p) (_max_tasks p) (_state p) (_list p) (owner p) (submitted p) (ran p) (killed p) (dropped p) (created p) (next_thread p).
Definition set_target n p := mkPool (_core_threads p) n (_max_tasks p) (_state p) (_list p) (owner p) (submitted p) (ran p) (killed p) (dropped p) (created p) (next_thread p).
Definition set_state st p := mkPool (_core_threads p) (_target_thread_size p) (_max_tasks p) st (_list p) (owner p) (submitted p) (ran p) (killed p) (dropped p) (created p) (next_thread p).
Definition set_list l p := mkPool (_core_threads p) (_target_thread_size p) (_max_tasks p) (_state p) l (owner p) (submitted p) (ran p) (killed p) (dropped p) (created p) (next_thread p).
Definition set_owner o p := mkPool (_core_threads p) (_target_thread_size p) (_max_tasks p) (_state p) (_list p) o (submitted p) (ran p) (killed p) (dropped p) (created p) (next_thread p).

Definition unlock := set_owner None.

Definition push_task p := mkPool (_core_threads p) (_target_thread_size p) (_max_tasks p) (_state p) (_list p ++ [submitted p]) (owner p) (S (submitted p)) (ran p) (killed p) (dropped p) (created p) (next_thread p).
Definition run_task f p := mkPool (_core_threads p) (_target_thread_size p) (_max_tasks p) (_state p) (_list p) (owner p) (submitted p) (ran p ++ [f]) (killed p) (dropped p) (created p) (next_thread p).
(** [for (fun : _list) fun(true); _list.clear();] *)
Definition kill_tasks p := mkPool (_core_threads p) (_target_thread_size p) (_max_tasks p) (_state p) [] (owner p) (submitted p) (ran p) (killed p ++ _list p) (dropped p) (created p) (next_thread p).
(** [_list.resize(size)] when it is not larger. *)
Definition resize_list n p := mkPool (_core_threads p) (_target_thread_size p) n (_state p) (take n (_list p)) (owner p) (submitted p) (ran p) (killed p) (dropped p ++ drop n (_list p)) (created p) (next_thread p).
Definition create_done i p := mkPool (_core_threads p) (_target_thread_size p) (_max_tasks p) (_state p) (_list p) (owner p) (submitted p) (ran p) (killed p) (dropped p) (i :: created p) (next_thread p).
Definition new_thread p := mkPool (_core_threads p) (_target_thread_size p) (_max_tasks p) (_state p) (_list p) (owner p) (submitted p) (ran p) (killed p) (dropped p) (created p) (S (next_thread p)).

(** [_list.back()] and [pop_back()]. *)
Definition pop_back (l : list nat) : option (nat * list nat) :=
  match rev l with [] => None | f :: r => Some (f, rev r) end.

Definition stopping p : bool := match _state p with RUNNING => false | _ => true end.
Definition need_delete p : bool := (_target_thread_size p <? _core_threads p)%Z.
Definition has_room p : bool := length (_list p) <? _max_tasks p.
Definition is_empty (l : list nat) : bool := match l with [] => true | _ => false end.

(** ** Threads *)

Inductive call :=
  | Submit
  | Steal
  | Stop
  | Start
  | Clear
  | Shutdown
  | ResizeThreads (size : Z)
  | ResizeQueue (size : nat).

(** Who waits: a worker for a task, [submit] for room, [create_thread] for its thread,
    [shutdown] for the last thread. *)
Inductive waiter := ForTask | ForRoom | ForThread (worker : nat) | ForEnd.

Inductive pc :=
  (* Condition::wait(lock, fun) *)
  | Test (k : waiter) | Park (k : waiter) | Sleep (k : waiter) | Wake (k : waiter)
  (* a worker: thread_begin, the loop of create_thread, thread_end *)
  | Begin_add | Begin_done | Begin_notify | Begin_check | Begin_store
  | Loop_lock | Loop_notify | Loop_delete | Loop_sub | Loop_take | Loop_run (f : nat)
  | End_check | End_store | End_notify | Exited
  (* a client, between two calls and in each of them *)
  | Idle
  | Submit_lock | Submit_check | Submit_notify | Submit_push
  | Steal_lock | Steal_take | Steal_notify (f : nat) | Steal_run (f : nat)
  | Stop_load | Stop_store | Stop_notify
  | Start_load | Start_lock | Start_store | Start_notify_submit | Start_notify_consume
  | Clear_lock | Clear_kill
  | Shutdown_lock | Shutdown_check | Shutdown_store | Shutdown_kill | Shutdown_target | Shutdown_notify
  | Resize_load (size : Z) | Resize_store (size : Z) | Resize_notify | Resize_loop | Create_lock (worker : nat)
  | Queue_lock (size : nat) | Queue_resize (size : nat).

Record thread := mkThread { at_pc : pc; todo : list call }.

Definition worker : thread := mkThread Begin_add [].

Definition entry (c : call) : pc :=
  match c with
  | Submit => Submit_lock
  | Steal => Steal_lock
  | Stop => Stop_load
  | Start => Start_load
  | Clear => Clear_lock
  | Shutdown => Shutdown_lock
  | ResizeThreads n => Resize_load n
  | ResizeQueue n => Queue_lock n
  end.

(** ** One step of a thread

    The new shared state, where the thread is next, whom it notifies and the thread it
    starts; [None] when it cannot step: it sleeps, waits for the lock or has nothing to do. *)

Inductive notify := nobody | notify_one (c : Condition) | notify_all (c : Condition).

Definition outcome : Type := ThreadPool * pc * notify * option thread.

Definition cond_of (k : waiter) : Condition := match k with ForTask => consume | _ => submit end.

Definition holds (k : waiter) p : bool :=
  match k with
  | ForTask => negb (is_empty (_list p)) && negb (bool_decide (_state p = STOP)) || need_delete p
  | ForRoom => stopping p || has_room p
  | ForThread w => bool_decide (w ∈ created p)
  | ForEnd => bool_decide (_state p = TERMINATED)
  end.

(** What follows a wait: the last two release the lock. *)
Definition continue (k : waiter) p : ThreadPool * pc :=
  match k with
  | ForTask => (p, Loop_delete)
  | ForRoom => (p, Submit_check)
  | ForThread _ => (unlock p, Resize_loop)
  | ForEnd => (unlock p, Idle)
  end.

Definition go p (q : pc) : option outcome := Some (p, q, nobody, None).
Definition lock (i : nat) p (q : pc) : option outcome :=
  match owner p with None => go (set_owner (Some i) p) q | Some _ => None end.

Section Exec.
Context (i : nat) (q : pc) (p : ThreadPool).

Definition exec_wait : option outcome :=
  match q with
  | Test k => if holds k p then let '(p, q) := continue k p in go p q else go p (Park k)
  | Park k => go (unlock p) (Sleep k)
  | Wake k => lock i p (Test k)
  | _ => None
  end.

Definition thread_begin : option outcome :=
  match q with
  | Begin_add => go (set_core (_core_threads p + 1) p) Begin_done
  | Begin_done => go (create_done i p) Begin_notify
  | Begin_notify => Some (p, Begin_check, notify_all submit, None)
  | Begin_check => go p (if decide (_state p = TERMINATED) then Begin_store else Loop_lock)
  | Begin_store => go (set_state RUNNING p) Loop_lock
  | _ => None
  end.

Definition exec_loop : option outcome :=
  match q with
  | Loop_lock => lock i p Loop_notify
  | Loop_notify => Some (p, Test ForTask, notify_one submit, None)
  | Loop_delete => go p (if need_delete p then Loop_sub else Loop_take)
  | Loop_sub => go (unlock (set_core (_core_threads p - 1) p)) End_check
  | Loop_take =>
      if decide (_state p = STOP) then go (unlock p) Loop_lock else
      match pop_back (_list p) with
      | None => go (unlock p) Loop_lock
      | Some (f, l) => go (unlock (set_list l p)) (Loop_run f)
      end
  | Loop_run f => go (run_task f p) Loop_lock
  | _ => None
  end.

Definition thread_end : option outcome :=
  match q with
  | End_check => go p (if (_core_threads p =? 0)%Z then End_store else Exited)
  | End_store => go (set_state TERMINATED p) End_notify
  | End_notify => Some (p, Exited, notify_all submit, None)
  | _ => None
  end.

Definition exec_submit : option outcome :=
  match q with
  | Submit_lock => lock i p (Test ForRoom)
  | Submit_check => if stopping p then go (unlock p) Idle else go p Submit_notify
  | Submit_notify => Some (p, Submit_push, notify_one consume, None)
  | Submit_push => go (unlock (push_task p)) Idle
  | _ => None
  end.

Definition stolen_a_task : option outcome :=
  match q with
  | Steal_lock => lock i p Steal_take
  | Steal_take =>
      match pop_back (_list p) with
      | None => go (unlock p) Idle
      | Some (f, l) => go (set_list l p) (Steal_notify f)
      end
  | Steal_notify f => Some (unlock p, Steal_run f, notify_one submit, None)
  | Steal_run f => go (run_task f p) Idle
  | _ => None
  end.

Definition stop : option outcome :=
  match q with
  | Stop_load => go p (if decide (_state p = RUNNING) then Stop_store else Idle)
  | Stop_store => go (set_state STOP p) Stop_notify
  | Stop_notify => Some (p, Idle, notify_all submit, None)
  | _ => None
  end.

Definition start : option outcome :=
  match q with
  | Start_load => go p (if decide (_state p = STOP) then Start_lock else Idle)
  | Start_lock => lock i p Start_store
  | Start_store => go (set_state RUNNING p) Start_notify_submit
  | Start_notify_submit => Some (p, Start_notify_consume, notify_all submit, None)
  | Start_notify_consume => Some (unlock p, Idle, notify_all consume, None)
  | _ => None
  end.

Definition clear_task : option outcome :=
  match q with
  | Clear_lock => lock i p Clear_kill
  | Clear_kill => go (unlock (kill_tasks p)) Idle
  | _ => None
  end.

Definition shutdown : option outcome :=
  match q with
  | Shutdown_lock => lock i p Shutdown_check
  | Shutdown_check =>
      match _state p with
      | RUNNING | STOP => go p Shutdown_store
      | SHUTTING | TERMINATED => go (unlock p) Idle
      end
  | Shutdown_store => go (set_state SHUTTING p) Shutdown_kill
  | Shutdown_kill => go (kill_tasks p) Shutdown_target
  | Shutdown_target => go (set_target 0 p) Shutdown_notify
  | Shutdown_notify => Some (p, Test ForEnd, notify_all consume, None)
  | _ => None
  end.

Definition resize_core_threads : option outcome :=
  match q with
  | Resize_load n => go p (if decide (_state p = SHUTTING) then Idle else Resize_store n)
  | Resize_store n => go (set_target n p) Resize_notify
  | Resize_notify => Some (p, Resize_loop, notify_all consume, None)
  | Resize_loop =>
      if (_core_threads p <? _target_thread_size p)%Z
      then Some (new_thread p, Create_lock (next_thread p), nobody, Some worker)
      else go p Idle
  | Create_lock w => lock i p (Test (ForThread w))
  | _ => None
  end.

Definition resize_max_queue : option outcome :=
  match q with
  | Queue_lock n => lock i p (Queue_resize n)
  | Queue_resize n => go (unlock (resize_list n p)) Idle
  | _ => None
  end.

Definition orelse (a b : option outcome) : option outcome := match a with Some o => Some o | None => b end.

Definition exec_pc : option outcome :=
  orelse exec_wait (orelse thread_begin (orelse exec_loop (orelse thread_end (orelse exec_submit (orelse stolen_a_task
    (orelse stop (orelse start (orelse clear_task (orelse shutdown (orelse resize_core_threads resize_max_queue)))))))))).
End Exec.

Definition exec (i : nat) (t : thread) p : option (ThreadPool * thread * notify * option thread) :=
  match at_pc t, todo t with
  | Idle, [] => None
  | Idle, c :: cs => Some (p, mkThread (entry c) cs, nobody, None)
  | q, cs => '(p, q, n, w) ← exec_pc i q p; Some (p, mkThread q cs, n, w)
  end.

(** ** All threads *)

Record config := mkConfig { pool : ThreadPool; threads : list thread }.

Definition sleeps (c : Condition) (t : thread) : bool :=
  match at_pc t with Sleep k => same_condition (cond_of k) c | _ => false end.

Definition wake (t : thread) : thread :=
  match at_pc t with Sleep k => mkThread (Wake k) (todo t) | _ => t end.

(** A notification; [w] is the thread that the system picks for [notify_one]. *)
Definition deliver (n : notify) (w : nat) (ts : list thread) : option (list thread) :=
  match n with
  | nobody => Some ts
  | notify_all c => Some ((fun t => if sleeps c t then wake t else t) <$> ts)
  | notify_one c =>
      if existsb (sleeps c) ts then
        match ts !! w with
        | Some t => if sleeps c t then Some (<[w := wake t]> ts) else None
        | None => None
        end
      else Some ts
  end.

Definition step (i w : nat) (c : config) : option config :=
  t ← threads c !! i;
  '(p, t, n, new) ← exec i t (pool c);
  ts ← deliver n w (<[i := t]> (threads c));
  Some (mkConfig p (ts ++ option_list new)).

(** A spurious wakeup. *)
Definition spurious (i : nat) (c : config) : option config :=
  t ← threads c !! i;
  match at_pc t with
  | Sleep _ => Some (mkConfig (pool c) (<[i := wake t]> (threads c)))
  | _ => None
  end.

Inductive transition : config -> config -> Prop :=
  | stepped i w c c' : step i w c = Some c' -> transition c c'
  | awoken i c c' : spurious i c = Some c' -> transition c c'.

(** Nothing happens any more, spurious wakeups apart. *)
Definition quiet (c : config) : Prop := forall i w, step i w c = None.

(** ** Where a pool starts *)

Definition client (cs : list call) : thread := mkThread Idle cs.

(** Before its constructor, [ThreadPool(threads_size, max_tasks)], which is the call
    [ResizeThreads threads_size] of one of the clients. *)
Definition fresh (max_tasks : nat) (clients : list (list call)) : config :=
  mkConfig (mkPool 0 0 max_tasks TERMINATED [] None 0 [] [] [] [] (length clients)) (client <$> clients).

(** [n] workers that have begun. *)
Definition started (n max_tasks : nat) (clients : list (list call)) : config :=
  mkConfig (mkPool (Z.of_nat n) (Z.of_nat n) max_tasks RUNNING [] None 0 [] [] [] [] (n + length clients))
           (replicate n (mkThread Loop_lock []) ++ (client <$> clients)).

(** A schedule: which thread steps, and whom it wakes. *)
Fixpoint run (schedule : list (nat * nat)) (c : config) : option config :=
  match schedule with
  | [] => Some c
  | (i, w) :: schedule => c ← step i w c; run schedule c
  end.
Definition times (n i : nat) : list (nat * nat) := replicate n (i, 0).

(** A scheduler: the first thread that can step does, and wakes the first one it can. *)
Definition next_step (c : config) : option config :=
  let n := length (threads c) in
  head (omap (fun iw => step iw.1 iw.2 c) (list_prod (seq 0 n) (seq 0 n))).
Fixpoint drive (fuel : nat) (c : config) : config :=
  match fuel with
  | O => c
  | S fuel => match next_step c with Some c' => drive fuel c' | None => c end
  end.

Inductive steps : config -> config -> Prop :=
  | steps_refl c : steps c c
  | steps_next c c' c'' : steps c c' -> transition c' c'' -> steps c c''.
