(* ===== verification/ThreadPoolSafety.v ===== *)
(** * ThreadPoolSafety: what holds in every interleaving of a thread pool

    Invariants are sums of a weight over all threads ([total]) or facts of each thread.  The
    lock has one owner, [_core_threads] counts the workers, and every submitted task is in one
    place: the queue, a thread, or what was run, killed or dropped. *)

From S2P Require Import Prelude ThreadPool.

#[local] Arguments Nat.ltb : simpl never.

(** ** Sums over threads *)

Definition total (w : thread -> nat) (ts : list thread) : nat := sum_list_with w ts.
#[global] Arguments total : simpl never.

Lemma total_nil w : total w [] = 0.
Proof. done. Qed.
Lemma total_one w t : total w [t] = w t.
Proof. unfold total. cbn. lia. Qed.

Lemma total_app w l1 l2 : total w (l1 ++ l2) = total w l1 + total w l2.
Proof. unfold total. induction l1; cbn; lia. Qed.

Lemma total_insert w ts i t t' : ts !! i = Some t -> total w (<[i := t']> ts) + w t = total w ts + w t'.
Proof.
  unfold total. revert i. induction ts as [| u ts IH]; intros [| i] Hi; try done.
  - injection Hi as <-. cbn. lia.
  - change (<[S i := t']> (u :: ts)) with (u :: <[i := t']> ts). cbn [sum_list_with]. specialize (IH i Hi). lia.
Qed.

Lemma total_ext w w' ts : (forall t, t ∈ ts -> w t = w' t) -> total w ts = total w' ts.
Proof.
  unfold total. induction ts as [| t ts IH]; cbn; [done |]. intros H.
  rewrite (H t), IH; [done | intros; apply H; by right | by left].
Qed.

Lemma total_fmap w f ts : total w (f <$> ts) = total (fun t => w (f t)) ts.
Proof. unfold total. induction ts; cbn; congruence. Qed.

Lemma total_pos w ts i t : ts !! i = Some t -> w t <= total w ts.
Proof.
  unfold total. revert i. induction ts as [| u ts IH]; intros [| i] Hi; try done; cbn.
  - injection Hi as <-. lia.
  - specialize (IH i Hi). lia.
Qed.

Lemma total_zero w ts : total w ts = 0 <-> forall t, t ∈ ts -> w t = 0.
Proof.
  unfold total. induction ts as [| t ts IH]; cbn; [split; [intros _ t Ht; by apply elem_of_nil in Ht | done] |].
  split.
  - intros H u [-> | Hu]%elem_of_cons; [lia |]. apply IH; [lia | done].
  - intros H. assert (w t = 0) by (apply H; left). assert (sum_list_with w ts = 0) by (apply IH; intros; apply H; by right). lia.
Qed.

Lemma total_exists w ts : 0 < total w ts -> exists i t, ts !! i = Some t /\ 0 < w t.
Proof.
  unfold total. induction ts as [| t ts IH]; cbn; [lia |]. intros H. destruct (w t) eqn:E; [| exists 0, t; split; [done | lia]].
  destruct (IH H) as (i & u & Hi & Hu). by exists (S i), u.
Qed.

(** A weight that a wakeup does not change. *)
Definition stable {A} (w : thread -> A) : Prop := forall t, w (wake t) = w t.

Lemma deliver_total w n k ts ts' : stable w -> deliver n k ts = Some ts' -> total w ts' = total w ts.
Proof.
  intros Hw. destruct n as [| c | c]; cbn; [naive_solver | |].
  - destruct (existsb _ _); [| naive_solver]. destruct (ts !! k) as [t |] eqn:E; [| done].
    destruct (sleeps c t); [| done]. intros [= <-]. pose proof (total_insert w ts k t (wake t) E) as H. rewrite (Hw t) in H. lia.
  - intros [= <-]. rewrite total_fmap. apply total_ext. intros t _. destruct (sleeps c t); [apply Hw | done].
Qed.

Lemma deliver_length n k ts ts' : deliver n k ts = Some ts' -> length ts' = length ts.
Proof.
  destruct n as [| c | c]; cbn; [naive_solver | |].
  - destruct (existsb _ _); [| naive_solver]. destruct (ts !! k) as [t |]; [| done]. destruct (sleeps c t); [| done].
    intros [= <-]. apply length_insert.
  - intros [= <-]. apply length_fmap.
Qed.

(** The other threads at most wake up. *)
Lemma deliver_lookup n k ts ts' i t' :
  deliver n k ts = Some ts' -> ts' !! i = Some t' -> exists t, ts !! i = Some t /\ (t' = t \/ t' = wake t).
Proof.
  destruct n as [| c | c]; cbn; [naive_solver | |].
  - destruct (existsb _ _); [| naive_solver]. destruct (ts !! k) as [t |] eqn:E; [| done]. destruct (sleeps c t); [| done].
    intros [= <-]. intros [(-> & <- & _) | [_ Hi]]%list_lookup_insert_Some; eauto.
  - intros [= <-]. rewrite list_lookup_fmap. intros (t & -> & Ht)%fmap_Some. exists t. split; [done |]. destruct (sleeps c t); auto.
Qed.

Lemma step_inversion i k c c' :
  step i k c = Some c' ->
  exists t t' n new ts, threads c !! i = Some t /\ exec i t (pool c) = Some (pool c', t', n, new) /\
    deliver n k (<[i := t']> (threads c)) = Some ts /\ threads c' = ts ++ option_list new.
Proof.
  unfold step. intros H. destruct (threads c !! i) as [t |] eqn:E; [| done]. cbn in H.
  destruct (exec i t (pool c)) as [[[[p t'] n] new] |] eqn:E'; [| done]. cbn in H.
  destruct (deliver n k _) as [ts |] eqn:E''; [| done]. cbn in H. injection H as <-. by exists t, t', n, new, ts.
Qed.

Lemma step_total w i k c c' :
  stable w -> step i k c = Some c' ->
  exists t t' n new, threads c !! i = Some t /\ exec i t (pool c) = Some (pool c', t', n, new) /\
    total w (threads c') + w t = total w (threads c) + w t' + total w (option_list new).
Proof.
  intros Hw H. apply step_inversion in H as (t & t' & n & new & ts & Hi & He & Hd & ->). exists t, t', n, new. split; [done |]. split; [done |].
  rewrite total_app, (deliver_total w n k _ ts Hw Hd). pose proof (total_insert w (threads c) i t t' Hi). lia.
Qed.

Lemma spurious_inv i c c' :
  spurious i c = Some c' ->
  exists t k, threads c !! i = Some t /\ at_pc t = Sleep k /\ c' = mkConfig (pool c) (<[i := wake t]> (threads c)).
Proof.
  unfold spurious. intros H. destruct (threads c !! i) as [t |] eqn:E; [| done]. cbn in H.
  destruct (at_pc t) eqn:E'; try done. injection H as <-. by exists t, k.
Qed.

Lemma spurious_total w i c c' : stable w -> spurious i c = Some c' -> total w (threads c') = total w (threads c).
Proof.
  intros Hw H. apply spurious_inv in H as (t & k & Hi & _ & ->). cbn. pose proof (total_insert w _ _ _ (wake t) Hi) as Ht. rewrite (Hw t) in Ht. cbn. lia.
Qed.

(** ** The places of a step *)

(** [exec_cases H]: one goal for each way a step [H : exec i t p = Some _] can go;
    [exec_split H] leaves the result alone. *)
Ltac exec_split H :=
  unfold exec, exec_pc, orelse, exec_wait, thread_begin, exec_loop, thread_end, exec_submit, stolen_a_task, stop, start,
    clear_task, shutdown, resize_core_threads, resize_max_queue, lock, go in H;
  match type of H with context [at_pc ?t] => let q := fresh "q" in let cs := fresh "cs" in destruct t as [q cs]; cbn in H; destruct q end;
  try match goal with k : waiter |- _ => destruct k end;
  cbn in H;
  repeat (match type of H with
    | context [match ?x with _ => _ end] =>
        lazymatch x with context [match _ with _ => _ end] => fail | _ => let E := fresh "E" in destruct x eqn:E; cbn in H end
    end);
  try discriminate H.
Ltac exec_cases H :=
  exec_split H; injection H as <- <- <- <-; cbn in *;
  try match goal with |- context [entry ?c] => destruct c; cbn end.

Definition in_section (q : pc) : bool :=
  match q with
  | Test _ | Park _ | Loop_notify | Loop_delete | Loop_sub | Loop_take
  | Submit_check | Submit_notify | Submit_push | Steal_take | Steal_notify _
  | Start_store | Start_notify_submit | Start_notify_consume | Clear_kill
  | Shutdown_check | Shutdown_store | Shutdown_kill | Shutdown_target | Shutdown_notify | Queue_resize _ => true
  | _ => false
  end.

(** The workers that [_core_threads] counts. *)
Definition counted (q : pc) : nat :=
  match q with
  | Test ForTask | Park ForTask | Sleep ForTask | Wake ForTask
  | Begin_done | Begin_notify | Begin_check | Begin_store
  | Loop_lock | Loop_notify | Loop_delete | Loop_sub | Loop_take | Loop_run _ => 1
  | _ => 0
  end.

(** The task a thread has taken and not run yet. *)
Definition held (q : pc) : list nat :=
  match q with Loop_run f | Steal_notify f | Steal_run f => [f] | _ => [] end.

Definition count (f : nat) (l : list nat) : nat := sum_list_with (fun g => if decide (f = g) then 1 else 0) l.

#[global] Arguments count : simpl never.

Lemma count_nil f : count f [] = 0.
Proof. done. Qed.
Lemma count_one f g : count f [g] = Nat.b2n (f =? g).
Proof. unfold count. cbn. case_decide; destruct (Nat.eqb_spec f g); try done; lia. Qed.
Lemma count_app f l1 l2 : count f (l1 ++ l2) = count f l1 + count f l2.
Proof. unfold count. induction l1 as [| g l1 IH]; cbn; [done |]. rewrite IH. lia. Qed.

Lemma pop_back_some l f l' : pop_back l = Some (f, l') -> l = l' ++ [f].
Proof.
  unfold pop_back. destruct (rev l) as [| g r] eqn:E; [done |]. intros [= <- <-].
  rewrite <- (rev_involutive l), E. done.
Qed.

Lemma pop_back_none l : pop_back l = None <-> l = [].
Proof.
  unfold pop_back. destruct (rev l) as [| g r] eqn:E; [| split; [done | intros ->; done]].
  split; [| done]. intros _. by rewrite <- (rev_involutive l), E.
Qed.

(** ** What one step does *)

Lemma exec_lock i t p p' t' n new :
  exec i t p = Some (p', t', n, new) -> (in_section (at_pc t) = true -> owner p = Some i) ->
  (owner p = Some i -> in_section (at_pc t) = true) ->
  (in_section (at_pc t') = true <-> owner p' = Some i) /\
  (owner p' = owner p \/ (owner p = None /\ owner p' = Some i) \/ (owner p = Some i /\ owner p' = None)).
Proof. intros H Ho Ho'. exec_cases H; intuition congruence. Qed.

Lemma exec_count i t p p' t' n new :
  exec i t p = Some (p', t', n, new) ->
  (_core_threads p' - _core_threads p = Z.of_nat (counted (at_pc t')) - Z.of_nat (counted (at_pc t)))%Z /\
  total (fun t => counted (at_pc t)) (option_list new) = 0.
Proof. intros H. exec_cases H; rewrite ?total_nil, ?total_one; cbn; lia. Qed.

Definition places f p : nat := count f (_list p) + count f (ran p) + count f (killed p) + count f (dropped p).

Lemma exec_tasks f i t p p' t' n new :
  exec i t p = Some (p', t', n, new) ->
  places f p' + count f (held (at_pc t')) + Nat.b2n (f <? submitted p) =
  places f p + count f (held (at_pc t)) + Nat.b2n (f <? submitted p').
Proof.
  intros H. unfold places. exec_cases H; rewrite ?count_app, ?count_nil, ?count_one; try lia.
  all: try (match goal with E : pop_back _ = Some _ |- _ => apply pop_back_some in E; rewrite E, count_app, count_one; lia end).
  - destruct (Nat.ltb_spec f (submitted p)), (Nat.ltb_spec f (S (submitted p))), (Nat.eqb_spec f (submitted p)); cbn; lia.
  - rewrite <- (take_drop size (_list p)) at 3. rewrite count_app. lia.
Qed.

Lemma exec_new i t p p' t' n new :
  exec i t p = Some (p', t', n, new) ->
  next_thread p' = next_thread p + length (option_list new) /\ (new = None \/ new = Some worker).
Proof. intros H. exec_cases H; split; auto; lia. Qed.

(** ** The invariant *)

Definition counted_t (t : thread) : nat := counted (at_pc t).
Definition held_t f (t : thread) : nat := count f (held (at_pc t)).

Record safe (c : config) : Prop := mkSafe {
  safe_section : forall i t, threads c !! i = Some t -> in_section (at_pc t) = true <-> owner (pool c) = Some i;
  safe_owner : forall i, owner (pool c) = Some i -> is_Some (threads c !! i);
  safe_count : _core_threads (pool c) = Z.of_nat (total counted_t (threads c));
  safe_tasks : forall f, places f (pool c) + total (held_t f) (threads c) = Nat.b2n (f <? submitted (pool c));
  safe_next : next_thread (pool c) = length (threads c) }.

Lemma wake_at t : at_pc (wake t) = match at_pc t with Sleep k => Wake k | q => q end.
Proof. unfold wake. by destruct t as [[]]. Qed.

Lemma stable_section : stable (fun t => in_section (at_pc t)).
Proof. intros t. rewrite wake_at. by destruct (at_pc t). Qed.
Lemma stable_counted : stable counted_t.
Proof. intros t. unfold counted_t. rewrite wake_at. by destruct (at_pc t). Qed.
Lemma stable_held f : stable (held_t f).
Proof. intros t. unfold held_t. rewrite wake_at. by destruct (at_pc t). Qed.

Lemma step_section i k c c' : safe c -> step i k c = Some c' ->
  (forall j t, threads c' !! j = Some t -> in_section (at_pc t) = true <-> owner (pool c') = Some j) /\
  (forall j, owner (pool c') = Some j -> is_Some (threads c' !! j)).
Proof.
  intros Hs H. apply step_inversion in H as (t & t' & n & new & ts & Hi & He & Hd & Hts).
  destruct (exec_lock _ _ _ _ _ _ _ He) as [Hown Hch]; [apply (safe_section c Hs), Hi | by intros; apply (safe_section c Hs i t) |].
  pose proof (deliver_length _ _ _ _ Hd) as Hlen. rewrite length_insert in Hlen.
  assert (Hnew : forall j u, ts !! j = Some u -> in_section (at_pc u) = true <-> owner (pool c') = Some j).
  { intros j u Hu. destruct (deliver_lookup _ _ _ _ _ _ Hd Hu) as (v & Hv & Huv).
    assert (in_section (at_pc u) = in_section (at_pc v)) as ->.
    { destruct Huv as [-> | ->]; [done | apply (stable_section v)]. }
    apply list_lookup_insert_Some in Hv as [(<- & <- & _) | [Hne Hv]]; [done |].
    rewrite (safe_section c Hs j v Hv). destruct Hch as [-> | [[-> ->] | [-> ->]]]; clear - Hne; intuition congruence. }
  rewrite Hts. split.
  - intros j u [Hu | [Hge Hu]]%lookup_app_Some; [by apply Hnew |].
    destruct (exec_new _ _ _ _ _ _ _ He) as [_ [-> | ->]]; [done |].
    apply list_lookup_singleton_Some in Hu as [Hj <-]. cbn. split; [done |]. intros Ho. exfalso.
    assert (j < length (threads c)); [| lia].
    destruct Hch as [Hch | [[_ Hch] | [_ Hch]]]; [| | congruence].
    + rewrite Ho in Hch. symmetry in Hch. apply (safe_owner c Hs) in Hch. by apply lookup_lt_is_Some.
    + assert (j = i) as -> by congruence. by apply lookup_lt_Some in Hi.
  - intros j Ho. apply lookup_lt_is_Some. rewrite length_app, Hlen. enough (j < length (threads c)) by lia.
    destruct Hch as [Hch | [[_ Hch] | [_ Hch]]]; [| | congruence].
    + rewrite Ho in Hch. symmetry in Hch. apply (safe_owner c Hs) in Hch. by apply lookup_lt_is_Some.
    + assert (j = i) as -> by congruence. by apply lookup_lt_Some in Hi.
Qed.

Lemma step_safe i k c c' : safe c -> step i k c = Some c' -> safe c'.
Proof.
  intros Hs H. destruct (step_section i k c c' Hs H) as [H1 H2]. split; [done.. | | |].
  - destruct (step_total _ _ _ _ _ stable_counted H) as (t & t' & n & new & Hi & He & Ht).
    destruct (exec_count _ _ _ _ _ _ _ He) as [Hc Hn]. pose proof (safe_count c Hs). fold counted_t in Hn.
    pose proof (total_pos counted_t _ _ _ Hi). unfold counted_t at 2 4 in Ht. lia.
  - intros f. destruct (step_total _ _ _ _ _ (stable_held f) H) as (t & t' & n & new & Hi & He & Ht).
    pose proof (exec_tasks f _ _ _ _ _ _ _ He) as Hf. pose proof (safe_tasks c Hs f) as Hc.
    assert (total (held_t f) (option_list new) = 0) as Hnew by (destruct (exec_new _ _ _ _ _ _ _ He) as [_ [-> | ->]]; done).
    unfold held_t at 2 4 in Ht. lia.
  - pose proof H as Hst. apply step_inversion in H as (t & t' & n & new & ts & Hi & He & Hd & ->).
    destruct (exec_new _ _ _ _ _ _ _ He) as [-> _]. rewrite length_app, (deliver_length _ _ _ _ Hd), length_insert, (safe_next c Hs). lia.
Qed.

Lemma spurious_safe i c c' : safe c -> spurious i c = Some c' -> safe c'.
Proof.
  intros Hs H. pose proof H as Hsp. apply spurious_inv in H as (t & k & Hi & Ht & ->). cbn in Hsp.
  pose proof (fun w Hw => spurious_total w i c _ Hw Hsp) as Htot. split; cbn in *.
  - intros j u [(<- & <- & _) | [_ Hu]]%list_lookup_insert_Some; [| by apply (safe_section c Hs)].
    rewrite (stable_section t). by apply (safe_section c Hs).
  - intros j Hj. apply lookup_lt_is_Some. rewrite length_insert. by apply lookup_lt_is_Some, (safe_owner c Hs).
  - rewrite Htot; [apply (safe_count c Hs) | apply stable_counted].
  - intros f. rewrite Htot; [apply (safe_tasks c Hs) | apply stable_held].
  - rewrite length_insert. apply (safe_next c Hs).
Qed.

Lemma transition_safe c c' : safe c -> transition c c' -> safe c'.
Proof. intros Hs Ht. destruct Ht; [eapply step_safe | eapply spurious_safe]; eassumption. Qed.

Lemma steps_inv (I : config -> Prop) c c' :
  (forall c c', I c -> transition c c' -> I c') -> I c -> steps c c' -> I c'.
Proof. intros Hstep Hc Hrun. induction Hrun; eauto. Qed.

Lemma steps_trans c1 c2 c3 : steps c1 c2 -> steps c2 c3 -> steps c1 c3.
Proof.
  intros H1 H2. revert H1. induction H2 as [| c c' c'' _ IH Ht]; intros H1; [done |].
  eapply steps_next; [by apply IH | done].
Qed.

Lemma steps_one i w c c' : step i w c = Some c' -> steps c c'.
Proof. intros H. eapply steps_next; [constructor | by eapply stepped]. Qed.

Lemma drive_steps fuel c : steps c (drive fuel c).
Proof.
  revert c. induction fuel as [| fuel IH]; intros c; cbn; [constructor |].
  destruct (next_step c) as [c' |] eqn:E; [| constructor]. eapply steps_trans; [| apply IH].
  unfold next_step in E. apply head_Some_elem_of, list_elem_of_omap in E as ([i w] & _ & H). by eapply steps_one.
Qed.

(** ** The two starts *)

Lemma total_replicate w n t : total w (replicate n t) = n * w t.
Proof. unfold total. induction n; cbn; lia. Qed.

Lemma total_clients w css : (forall cs, w (client cs) = 0) -> total w (client <$> css) = 0.
Proof. intros Hw. unfold total. induction css as [| cs css IH]; cbn; [done |]. by rewrite Hw, IH. Qed.

Lemma start_safe n p css :
  owner p = None -> _core_threads p = Z.of_nat n -> submitted p = 0 -> next_thread p = n + length css ->
  (forall f, places f p = 0) -> safe (mkConfig p (replicate n (mkThread Loop_lock []) ++ (client <$> css))).
Proof.
  intros Ho Hc Hsub Hn Hpl. split; cbn.
  - intros i t Hi. rewrite Ho. split; [| done]. intros Hsec. exfalso.
    apply lookup_app_Some in Hi as [Hi | [_ Hi]]; [by apply lookup_replicate in Hi as [-> _] |].
    rewrite list_lookup_fmap in Hi. by apply fmap_Some in Hi as (cs & _ & ->).
  - congruence.
  - rewrite Hc, total_app, total_replicate, total_clients by done. change (counted_t _) with 1. by rewrite Nat.mul_1_r, Nat.add_0_r.
  - intros f. rewrite Hpl, Hsub, total_app, total_replicate, total_clients by done. change (held_t f _) with 0. by rewrite Nat.mul_0_r, (proj2 (Nat.ltb_ge f 0)) by lia.
  - rewrite length_app, length_replicate, length_fmap, Hn. done.
Qed.

Lemma fresh_safe m css : safe (fresh m css).
Proof. by apply (start_safe 0). Qed.
Lemma started_safe n m css : safe (started n m css).
Proof. by apply (start_safe n). Qed.

(** ** Restricting the calls that clients make *)

Definition strip (c : call) : call :=
  match c with ResizeThreads _ => ResizeThreads 0 | ResizeQueue _ => ResizeQueue 0 | c => c end.

(** The call a place belongs to; a thread that begins was created by a [ResizeThreads]. *)
Definition part_of (q : pc) : option call :=
  match q with
  | Test k | Park k | Sleep k | Wake k =>
      match k with ForTask => None | ForRoom => Some Submit | ForThread _ => Some (ResizeThreads 0) | ForEnd => Some Shutdown end
  | Begin_add | Begin_done | Begin_notify | Begin_check | Begin_store
  | Resize_load _ | Resize_store _ | Resize_notify | Resize_loop | Create_lock _ => Some (ResizeThreads 0)
  | Submit_lock | Submit_check | Submit_notify | Submit_push => Some Submit
  | Steal_lock | Steal_take | Steal_notify _ | Steal_run _ => Some Steal
  | Stop_load | Stop_store | Stop_notify => Some Stop
  | Start_load | Start_lock | Start_store | Start_notify_submit | Start_notify_consume => Some Start
  | Clear_lock | Clear_kill => Some Clear
  | Shutdown_lock | Shutdown_check | Shutdown_store | Shutdown_kill | Shutdown_target | Shutdown_notify => Some Shutdown
  | Queue_lock _ | Queue_resize _ => Some (ResizeQueue 0)
  | _ => None
  end.

Definition permits (A : call -> bool) (t : thread) : bool :=
  match part_of (at_pc t) with Some c => A c | None => true end && forallb (fun c => A (strip c)) (todo t).

Lemma exec_permits A i t p p' t' n new :
  exec i t p = Some (p', t', n, new) -> permits A t = true ->
  permits A t' = true /\ (forall u, new = Some u -> permits A u = true).
Proof.
  intros H. unfold permits. exec_cases H; rewrite ?andb_true_iff; intros Hp; split; try (intuition done); intros u [= <-]; cbn; by destruct Hp as [-> _].
Qed.

Lemma stable_permits A : stable (permits A).
Proof. intros t. unfold permits, wake. by destruct t as [[]]. Qed.

(** A fact of each thread is kept when the thread that steps has it afterwards and the others,
    which at most wake up, keep it. *)
Lemma step_each (P : ThreadPool -> thread -> Prop) i k c c' :
  step i k c = Some c' -> (forall p t, P p t -> P p (wake t)) ->
  (forall t, t ∈ threads c -> P (pool c) t) ->
  (forall t t' n new, threads c !! i = Some t -> exec i t (pool c) = Some (pool c', t', n, new) ->
    P (pool c') t' /\ (forall u, new = Some u -> P (pool c') u) /\
    (forall j u, j <> i -> threads c !! j = Some u -> P (pool c) u -> P (pool c') u)) ->
  forall t, t ∈ threads c' -> P (pool c') t.
Proof.
  intros H Hw Hall Hstep t Ht. apply step_inversion in H as (u & u' & n & new & ts & Hi & He & Hd & Hts).
  destruct (Hstep _ _ _ _ Hi He) as (H1 & H2 & H3). rewrite Hts in Ht. apply elem_of_app in Ht as [Ht | Ht].
  - apply list_elem_of_lookup in Ht as [j Hj]. destruct (deliver_lookup _ _ _ _ _ _ Hd Hj) as (v & Hv & Hvt).
    assert (P (pool c') v).
    { apply list_lookup_insert_Some in Hv as [(<- & <- & _) | [Hne Hv]]; [done |].
      eapply H3; [| done |]; [done |]. apply Hall. by eapply list_elem_of_lookup_2. }
    destruct Hvt as [-> | ->]; [done | by apply Hw].
  - destruct new as [v |]; cbn in Ht; [| by apply elem_of_nil in Ht]. apply list_elem_of_singleton in Ht as ->. by apply H2.
Qed.

Lemma spurious_each (P : ThreadPool -> thread -> Prop) i c c' :
  spurious i c = Some c' -> (forall p t, P p t -> P p (wake t)) ->
  (forall t, t ∈ threads c -> P (pool c) t) -> forall t, t ∈ threads c' -> P (pool c') t.
Proof.
  intros H Hw Hall t Ht. apply spurious_inv in H as (u & k & Hi & _ & ->). cbn in *.
  apply list_elem_of_lookup in Ht as [j Hj]. apply list_lookup_insert_Some in Hj as [(<- & <- & _) | [_ Hj]].
  - apply Hw, Hall. by eapply list_elem_of_lookup_2.
  - apply Hall. by eapply list_elem_of_lookup_2.
Qed.

Definition all_permit A (c : config) : Prop := forall t, t ∈ threads c -> permits A t = true.

Lemma transition_permits A c c' : all_permit A c -> transition c c' -> all_permit A c'.
Proof.
  intros Hall Ht. destruct Ht as [i w c c' H | i c c' H].
  - refine (step_each (fun _ t => permits A t = true) _ _ _ _ H _ Hall _); [intros p t; by rewrite stable_permits |].
    intros t t' n new Hi He. destruct (exec_permits A _ _ _ _ _ _ _ He) as [H1 H2]; [| done].
    apply Hall. by eapply list_elem_of_lookup_2.
  - refine (spurious_each (fun _ t => permits A t = true) _ _ _ H _ Hall). intros p t. by rewrite stable_permits.
Qed.

Lemma started_permits A n m css :
  (forall c, A (strip c) = A c) -> forallb (forallb A) css = true -> all_permit A (started n m css).
Proof.
  intros HA Hcs t Ht. cbn in Ht. apply elem_of_app in Ht as [Ht | Ht].
  - by apply elem_of_replicate in Ht as [-> _].
  - apply list_elem_of_fmap in Ht as (cs & -> & Hin). unfold permits. cbn.
    rewrite forallb_forall in Hcs. apply list_elem_of_In, Hcs in Hin. rewrite forallb_forall in Hin |- *.
    intros c Hc. rewrite HA. by apply Hin.
Qed.

(** ** Exactly once *)

(** The tasks that threads have taken and not run yet. *)
Definition in_hand (ts : list thread) : list nat := ts ≫= fun t => held (at_pc t).

Lemma count_in_hand f ts : count f (in_hand ts) = total (held_t f) ts.
Proof.
  unfold in_hand. induction ts as [| t ts IH]; [done |]. cbn. rewrite count_app, IH. done.
Qed.

Lemma count_cons f g l : count f (g :: l) = Nat.b2n (f =? g) + count f l.
Proof. change (g :: l) with ([g] ++ l). by rewrite count_app, count_one. Qed.

Lemma count_pos f l : 0 < count f l <-> f ∈ l.
Proof.
  induction l as [| g l IH]; [split; [unfold count; cbn; lia | intros H; by apply elem_of_nil in H] |].
  rewrite count_cons, elem_of_cons, <- IH. destruct (Nat.eqb_spec f g); cbn; [intuition lia | intuition congruence].
Qed.

Lemma count_NoDup l : (forall f, count f l <= 1) -> NoDup l.
Proof.
  induction l as [| g l IH]; intros H; [constructor |]. apply list.NoDup_cons. split.
  - rewrite <- count_pos. specialize (H g). rewrite count_cons, Nat.eqb_refl in H. cbn in H. lia.
  - apply IH. intros f. specialize (H f). rewrite count_cons in H. lia.
Qed.

Lemma count_permutation l n : (forall f, count f l = Nat.b2n (f <? n)) -> l ≡ₚ seq 0 n.
Proof.
  intros H. apply NoDup_Permutation.
  - apply count_NoDup. intros f. rewrite H. destruct (f <? n); cbn; lia.
  - apply NoDup_ListNoDup, seq_NoDup.
  - intros f. rewrite <- count_pos, H, elem_of_seq. destruct (Nat.ltb_spec f n); cbn; lia.
Qed.

Definition starts (c : config) : Prop :=
  (exists max_tasks clients, c = fresh max_tasks clients) \/ (exists n max_tasks clients, c = started n max_tasks clients).

Lemma starts_safe c : starts c -> safe c.
Proof. intros [(m & css & ->) | (n & m & css & ->)]; [apply fresh_safe | apply started_safe]. Qed.

Lemma safe_permutation c : safe c ->
  _list (pool c) ++ in_hand (threads c) ++ ran (pool c) ++ killed (pool c) ++ dropped (pool c) ≡ₚ seq 0 (submitted (pool c)).
Proof.
  intros H. apply count_permutation. intros f. rewrite !count_app, count_in_hand.
  pose proof (safe_tasks c H f). unfold places in *. lia.
Qed.

(** C6. In every interleaving of any clients with a pool, from before its constructor or with its
    workers running, with any calls and spurious wakeups: every task submitted so far is in exactly
    one of: the queue, the hands of one thread, the tasks that were run, were killed, or
    were dropped by [resize_max_queue]; at most one thread is inside the lock; and
    [_core_threads] counts the workers that have begun and not left, so it never wraps below zero. *)
Theorem tasks_exactly_once (c0 c : config) :
  starts c0 -> steps c0 c ->
  _list (pool c) ++ in_hand (threads c) ++ ran (pool c) ++ killed (pool c) ++ dropped (pool c) ≡ₚ seq 0 (submitted (pool c)) /\
  (forall i j t u, threads c !! i = Some t -> threads c !! j = Some u ->
    in_section (at_pc t) = true -> in_section (at_pc u) = true -> i = j) /\
  _core_threads (pool c) = Z.of_nat (total counted_t (threads c)).
Proof.
  intros Hs Hrun. assert (safe c) as H by (eapply steps_inv; [apply transition_safe | by apply starts_safe | done]).
  split; [by apply safe_permutation | split; [| apply (safe_count c H)]].
  intros i j t u Hi Hj Ht Hu. apply (safe_section c H i) in Ht; [| done]. apply (safe_section c H j) in Hu; [| done]. congruence.
Qed.

Lemma tasks_exactly_once_witness :
  let c := drive 40 (fresh 2 [[ResizeThreads 1; Submit; Submit]; [Steal; Clear]]) in
  _list (pool c) ++ in_hand (threads c) ++ ran (pool c) ++ killed (pool c) ++ dropped (pool c) ≡ₚ seq 0 (submitted (pool c)) /\
  (forall i j t u, threads c !! i = Some t -> threads c !! j = Some u ->
    in_section (at_pc t) = true -> in_section (at_pc u) = true -> i = j) /\
  _core_threads (pool c) = Z.of_nat (total counted_t (threads c)).
Proof.
  apply (tasks_exactly_once (fresh 2 [[ResizeThreads 1; Submit; Submit]; [Steal; Clear]])); [left; by eexists 2, _ | apply drive_steps].
Defined.
