(* ===== verification/ThreadPoolBounds.v ===== *)
(** * ThreadPoolBounds: a pool whose workers run, and the size of its queue

    What a thread does outside of the lock, when no call changes the number of threads, and the
    first consequence: the queue never holds more tasks than [_max_tasks]. *)

From S2P Require Import Prelude ThreadPool ThreadPoolSafety.

#[local] Arguments Nat.ltb : simpl never.

(** Every call but [resize_core_threads]. *)
Definition fixed_threads (c : call) : bool := match c with ResizeThreads _ => false | _ => true end.

Lemma exec_outside i t p p' t' n new :
  exec i t p = Some (p', t', n, new) -> permits fixed_threads t = true -> in_section (at_pc t) = false ->
  _list p' = _list p /\ _max_tasks p' = _max_tasks p /\ _target_thread_size p' = _target_thread_size p /\
  _core_threads p' = _core_threads p /\ submitted p' = submitted p /\
  (_state p' = _state p \/ (_state p' = STOP /\ at_pc t = Stop_store) \/ (_state p' = TERMINATED /\ at_pc t = End_store)) /\ new = None.
Proof. intros H Hp Hin. unfold permits in Hp. exec_cases H; try discriminate; repeat split; auto. Qed.

(** A thread that is in the section keeps the others out of it. *)
Lemma alone c i j t u :
  safe c -> threads c !! i = Some t -> threads c !! j = Some u -> j <> i -> in_section (at_pc u) = true -> in_section (at_pc t) = false.
Proof.
  intros Hs Hi Hj Hne Hu. destruct (in_section (at_pc t)) eqn:Ht; [| done]. exfalso. apply Hne.
  apply (safe_section c Hs i) in Ht; [| done]. apply (safe_section c Hs j) in Hu; [| done]. congruence.
Qed.

Definition room (p : ThreadPool) (t : thread) : Prop :=
  match at_pc t with
  | Submit_check => stopping p = true \/ has_room p = true
  | Submit_notify | Submit_push => has_room p = true
  | _ => True
  end.

Lemma exec_room i t p p' t' n new :
  exec i t p = Some (p', t', n, new) -> room p t -> length (_list p) <= _max_tasks p ->
  room p' t' /\ length (_list p') <= _max_tasks p'.
Proof.
  intros H Hr Hl. unfold room, has_room in *.
  exec_cases H; try done; rewrite ?length_app, ?length_take; cbn; try (split; [done |]);
    try (match goal with E : pop_back _ = Some _ |- _ => apply pop_back_some in E; rewrite E, length_app in Hl; cbn in Hl end);
    rewrite ?Nat.ltb_lt in *; try lia.
  apply orb_true_iff in E. by rewrite <- Nat.ltb_lt.
Qed.

Record bounded (c : config) : Prop := mkBounded {
  bounded_safe : safe c;
  bounded_calls : all_permit fixed_threads c;
  bounded_room : forall t, t ∈ threads c -> room (pool c) t;
  bounded_size : length (_list (pool c)) <= _max_tasks (pool c) }.

Lemma room_wake p t : room p t -> room p (wake t).
Proof. unfold room. rewrite wake_at. by destruct (at_pc t). Qed.

(** What another thread does outside of the section does not take the room away. *)
Lemma room_outside i t p p' t' n new u :
  exec i t p = Some (p', t', n, new) -> permits fixed_threads t = true -> in_section (at_pc t) = false ->
  room p u -> room p' u.
Proof.
  intros He Hp Hin. destruct (exec_outside _ _ _ _ _ _ _ He Hp Hin) as (Hl & Hm & _ & _ & _ & Hst & _).
  unfold room, has_room, stopping. rewrite Hl, Hm.
  destruct (at_pc u); try done. destruct Hst as [-> | [[-> _] | [-> _]]]; auto.
Qed.

Lemma transition_bounded c c' : bounded c -> transition c c' -> bounded c'.
Proof.
  intros [Hs Hp Hr Hl] Ht. pose proof (transition_safe _ _ Hs Ht) as Hs'. pose proof (transition_permits _ _ _ Hp Ht) as Hp'.
  destruct Ht as [i w c c' H | i c c' H].
  - pose proof H as Hst. apply step_inversion in H as (t & t' & n & new & ts & Hi & He & Hd & Hts).
    assert (Hin : t ∈ threads c) by (by eapply list_elem_of_lookup_2).
    destruct (exec_room _ _ _ _ _ _ _ He (Hr t Hin) Hl) as [Hr' Hl'].
    split; [done | done | | done].
    refine (step_each room _ _ _ _ Hst room_wake Hr _). intros v v' n' new' Hv He'.
    assert (v = t) as -> by congruence. rewrite He in He'. injection He' as <- <- <-. split; [done |]. split.
    + intros u Hu. subst new. destruct (exec_new _ _ _ _ _ _ _ He) as [_ [? | [= ->]]]; done.
    + intros j u Hne Hj Hu. destruct (in_section (at_pc u)) eqn:Hsec.
      * eapply room_outside; [exact He | by apply Hp | by eapply (alone c i j) | done].
      * unfold room in *. by destruct (at_pc u).
  - pose proof (spurious_each room _ _ _ H room_wake Hr) as Hr'. apply spurious_inv in H as (t & k & Hi & _ & ->). by split.
Qed.

Lemma started_bounded n m css :
  forallb (forallb fixed_threads) css = true -> bounded (started n m css).
Proof.
  intros Hcs. split; [apply started_safe | | | cbn; lia].
  - apply started_permits; [by intros [] | done].
  - intros t Ht. cbn in Ht. apply elem_of_app in Ht as [Ht | Ht].
    + by apply elem_of_replicate in Ht as [-> _].
    + by apply list_elem_of_fmap in Ht as (cs & -> & _).
Qed.

(** C27. While the workers of a pool run and no call changes their number, its queue never holds more
    than [_max_tasks] tasks, whatever clients submit, steal, stop, start, clear, shut down and
    resize; a submitter that is about to push a task has found room for it. *)
Theorem queue_bounded (n max_tasks : nat) (clients : list (list call)) (c : config) :
  forallb (forallb fixed_threads) clients = true -> steps (started n max_tasks clients) c ->
  length (_list (pool c)) <= _max_tasks (pool c) /\
  (forall t, t ∈ threads c -> at_pc t = Submit_push -> length (_list (pool c)) < _max_tasks (pool c)).
Proof.
  intros Hcs Hrun. assert (bounded c) as [_ _ Hr Hl].
  { eapply steps_inv; [apply transition_bounded | by apply started_bounded | done]. }
  split; [done |]. intros t Ht Hpc. specialize (Hr t Ht). unfold room in Hr. rewrite Hpc in Hr. by apply Nat.ltb_lt.
Qed.

Lemma queue_bounded_witness :
  let c := drive 30 (started 1 1 [[Submit; Submit]; [Submit; ResizeQueue 3]; [Stop; Start; Shutdown]]) in
  length (_list (pool c)) <= _max_tasks (pool c) /\
  (forall t, t ∈ threads c -> at_pc t = Submit_push -> length (_list (pool c)) < _max_tasks (pool c)).
Proof.
  apply (queue_bounded 1 1 [[Submit; Submit]; [Submit; ResizeQueue 3]; [Stop; Start; Shutdown]]); [reflexivity | apply drive_steps].
Defined.
