(* ===== verification/ThreadPoolLiveness.v ===== *)
(** * ThreadPoolLiveness: nothing is left behind

    A pool is [quiet] when no thread can step.  Every thread then sleeps or has finished.  While clients
    submit, steal, stop and start, a quiet running pool has run every task and answered every
    client: no notification is lost that matters.  After a shutdown a quiet pool has terminated. *)

From S2P Require Import Prelude ThreadPool ThreadPoolSafety ThreadPoolBounds.
#[local] Arguments Nat.ltb : simpl never.

(** ** Quiet threads *)

Lemma deliver_some n ts : exists w ts', deliver n w ts = Some ts'.
Proof.
  destruct n as [| c | c]; cbn; [by exists 0, ts | | by eexists 0, _].
  destruct (existsb (sleeps c) ts) eqn:E; [| by exists 0, ts].
  apply existsb_exists in E as (t & Ht & Hs). apply list_elem_of_In, list_elem_of_lookup in Ht as [w Hw].
  exists w. rewrite Hw, Hs. by eexists.
Qed.

Lemma quiet_exec c i t : quiet c -> threads c !! i = Some t -> exec i t (pool c) = None.
Proof.
  intros Hq Hi. destruct (exec i t (pool c)) as [[[[p t'] n] new] |] eqn:E; [| done]. exfalso.
  destruct (deliver_some n (<[i := t']> (threads c))) as (w & ts & Hd).
  specialize (Hq i w). unfold step in Hq. rewrite Hi in Hq. cbn in Hq. rewrite E in Hq. cbn in Hq. rewrite Hd in Hq. done.
Qed.

(** The same, computed. *)
Definition quietb (c : config) : bool :=
  forallb (fun i => match threads c !! i with
                    | Some t => match exec i t (pool c) with Some _ => false | None => true end
                    | None => true
                    end) (seq 0 (length (threads c))).

Lemma quietb_spec c : if quietb c then quiet c else exists i w c', step i w c = Some c'.
Proof.
  destruct (quietb c) eqn:E; unfold quietb in E.
  - intros i w. unfold step. destruct (threads c !! i) as [t |] eqn:Hi; [| done]. cbn.
    rewrite forallb_forall in E. specialize (E i). rewrite Hi in E.
    destruct (exec i t (pool c)); [| done]. exfalso. enough (false = true) by done. apply E, in_seq.
    apply lookup_lt_Some in Hi. lia.
  - assert (H : exists i t o, threads c !! i = Some t /\ exec i t (pool c) = Some o).
    { apply not_true_iff_false in E. induction (seq 0 (length (threads c))) as [| i l IH]; [done |]. cbn in E.
      destruct (threads c !! i) as [t |] eqn:Hi; [| by apply IH].
      destruct (exec i t (pool c)) as [o |] eqn:He; [by exists i, t, o | by apply IH]. }
    destruct H as (i & t & [[[p t'] n] new] & Hi & He).
    destruct (deliver_some n (<[i := t']> (threads c))) as (w & ts & Hd). exists i, w. unfold step.
    rewrite Hi. cbn. rewrite He. cbn. rewrite Hd. by eexists.
Qed.

(** Where a thread can be when nothing happens any more. *)
Definition at_rest (t : thread) : Prop :=
  (exists k, at_pc t = Sleep k) \/ t = mkThread Idle [] \/ at_pc t = Exited.

Lemma exec_section i t p : in_section (at_pc t) = true -> exec i t p <> None.
Proof. intros Ht H. exec_split H; discriminate Ht. Qed.

Lemma exec_free i t p : owner p = None -> exec i t p = None -> at_rest t.
Proof. intros Ho H. unfold at_rest. exec_split H; cbn; try congruence; eauto. Qed.

Lemma quiet_free c : safe c -> quiet c -> owner (pool c) = None.
Proof.
  intros Hs Hq. destruct (owner (pool c)) as [i |] eqn:Ho; [| done]. exfalso.
  destruct (safe_owner c Hs i Ho) as [t Hi]. apply (exec_section i t (pool c)); [| by apply quiet_exec].
  by apply (safe_section c Hs i t).
Qed.

Lemma quiet_rest c t : safe c -> quiet c -> t ∈ threads c -> at_rest t.
Proof.
  intros Hs Hq Ht. apply list_elem_of_lookup in Ht as [i Hi]. eapply (exec_free i); [by apply quiet_free | by apply quiet_exec].
Qed.

(** ** Who sleeps and who is awake *)

Definition weigh (P : thread -> bool) (t : thread) : nat := Nat.b2n (P t).

Definition sleeper (t : thread) : bool := match at_pc t with Sleep ForTask => false | Sleep _ => true | _ => false end.
Definition awake_worker (t : thread) : bool :=
  match at_pc t with Sleep ForTask => false | q => counted q =? 1 end.

(** A worker that notifies a submitter before it sleeps again. *)
Definition notifier (t : thread) : bool := match at_pc t with Loop_lock | Loop_notify | Loop_run _ => true | _ => false end.
(** A submitter that takes the room there is. *)
Definition taker (t : thread) : bool :=
  match at_pc t with Wake ForTask => false | Wake _ | Test ForRoom | Submit_check | Submit_notify | Submit_push => true | _ => false end.
Definition is_stealing (t : thread) : bool := match at_pc t with Steal_notify _ => true | _ => false end.
Definition is_starting (t : thread) : bool := match at_pc t with Start_notify_submit | Start_notify_consume => true | _ => false end.
Definition is_waking (t : thread) : bool := match at_pc t with Start_notify_submit => true | _ => false end.
Definition is_pushing (t : thread) : bool := match at_pc t with Submit_push => true | _ => false end.

Notation num P ts := (total (weigh P) ts).

Lemma total_le w w' d ts : (forall t, w' t <= w t + d) -> total w' ts <= total w ts + d * length ts.
Proof. intros Hle. unfold total. induction ts as [| t ts IH]; cbn; [lia |]. specialize (Hle t). lia. Qed.

Lemma total_mono w w' ts : (forall t, w t <= w' t) -> total w ts <= total w' ts.
Proof. intros Hle. assert (total w ts <= total w' ts + 0 * length ts); [| lia]. apply total_le. intros t. specialize (Hle t). lia. Qed.

Lemma deliver_mono n k ts ts' w :
  deliver n k ts = Some ts' -> (forall t, w t <= w (wake t)) -> total w ts <= total w ts'.
Proof.
  intros H Hw. destruct n as [| c | c]; cbn in H; [by injection H as <- | |].
  - destruct (existsb _ _); [| by injection H as <-]. destruct (ts !! k) as [t |] eqn:E; [| done]. destruct (sleeps c t); [| done].
    injection H as <-. pose proof (total_insert w ts k t (wake t) E). specialize (Hw t). lia.
  - injection H as <-. rewrite total_fmap. apply total_mono. intros t. destruct (sleeps c t); [apply Hw | done].
Qed.

Lemma deliver_anti n k ts ts' w :
  deliver n k ts = Some ts' -> (forall t, w (wake t) <= w t) -> total w ts' <= total w ts.
Proof.
  intros H Hw. destruct n as [| c | c]; cbn in H; [by injection H as <- | |].
  - destruct (existsb _ _); [| by injection H as <-]. destruct (ts !! k) as [t |] eqn:E; [| done]. destruct (sleeps c t); [| done].
    injection H as <-. pose proof (total_insert w ts k t (wake t) E). specialize (Hw t). lia.
  - injection H as <-. rewrite total_fmap. apply total_mono. intros t. destruct (sleeps c t); [apply Hw | done].
Qed.

(** After [notify_all] nobody sleeps on the condition; after [notify_one] somebody is awake. *)
Lemma deliver_all c k ts ts' : deliver (notify_all c) k ts = Some ts' -> num (sleeps c) ts' = 0.
Proof.
  cbn. intros [= <-]. rewrite total_fmap. apply total_zero. intros t _. unfold weigh.
  destruct (sleeps c t) eqn:E; [| by rewrite E]. unfold sleeps. rewrite wake_at. unfold sleeps in E. by destruct (at_pc t).
Qed.

Lemma deliver_one c k ts ts' P :
  deliver (notify_one c) k ts = Some ts' -> (forall t, sleeps c t = true -> P (wake t) = true) ->
  num (sleeps c) ts' = 0 \/ 0 < num P ts'.
Proof.
  cbn. intros H HP. destruct (existsb (sleeps c) ts) eqn:E.
  - right. destruct (ts !! k) as [t |] eqn:Ek; [| done]. destruct (sleeps c t) eqn:Es; [| done]. injection H as <-.
    assert (Hk : <[k := wake t]> ts !! k = Some (wake t)) by (apply list_lookup_insert_eq; by eapply lookup_lt_Some).
    pose proof (total_pos (weigh P) _ _ _ Hk) as Hpos. unfold weigh in Hpos at 1. rewrite (HP t Es) in Hpos. cbn in Hpos. lia.
  - left. injection H as <-. apply total_zero. intros t Ht. unfold weigh. destruct (sleeps c t) eqn:Es; [| done]. exfalso.
    assert (existsb (sleeps c) ts = true); [| congruence]. apply existsb_exists. exists t. by rewrite <- list_elem_of_In.
Qed.

(** Only one thread is in the section. *)
Lemma total_alone c i t w :
  safe c -> threads c !! i = Some t -> in_section (at_pc t) = true -> (forall u, 0 < w u -> in_section (at_pc u) = true) ->
  total w (threads c) = w t.
Proof.
  intros Hs Hi Ht Hw. pose proof (total_insert w (threads c) i t (mkThread Idle []) Hi) as H.
  assert (w (mkThread Idle []) = 0) as Hz by (destruct (Nat.eq_0_gt_0_cases (w (mkThread Idle []))) as [|Hpos]; [done | by apply Hw in Hpos]).
  enough (total w (<[i := mkThread Idle []]> (threads c)) = 0) by lia. apply total_zero. intros u Hu.
  apply list_elem_of_lookup in Hu as [j Hj]. apply list_lookup_insert_Some in Hj as [(_ & <- & _) | [Hne Hj]]; [done |].
  destruct (w u) eqn:E; [done |]. assert (in_section (at_pc u) = true) as Hu by (apply Hw; lia).
  rewrite (alone c i j t u Hs Hi Hj) in Ht; [done | congruence | done].
Qed.

(** What a notification on [submit] or [consume] leaves. *)
Lemma deliver_submit n k ts ts' :
  deliver n k ts = Some ts' -> n = notify_one submit \/ n = notify_all submit -> num sleeper ts' = 0 \/ 0 < num taker ts'.
Proof.
  rewrite (total_ext (weigh sleeper) (weigh (sleeps submit)) ts') by (intros [[] ?] _; try done; by match goal with k : waiter |- _ => destruct k end).
  intros H [-> | ->].
  - apply (deliver_one submit k ts); [done |]. intros t Ht. unfold sleeps in Ht. unfold taker. rewrite wake_at.
    destruct (at_pc t); try done; match goal with k' : waiter |- _ => by destruct k' end.
  - left. by apply (deliver_all submit k ts).
Qed.

Lemma counted_split ts : total counted_t ts = num awake_worker ts + num (sleeps consume) ts.
Proof.
  assert (H : forall t, counted_t t = weigh awake_worker t + weigh (sleeps consume) t).
  { intros [q cs]. destruct q; try done; by destruct k. }
  unfold total. induction ts as [| t ts IH]; cbn; [done |]. rewrite IH, H. lia.
Qed.

Lemma stable_counted_deliver n k ts ts' : deliver n k ts = Some ts' -> total counted_t ts' = total counted_t ts.
Proof. apply deliver_total, stable_counted. Qed.

Lemma deliver_consume n k ts ts' :
  deliver n k ts = Some ts' -> n = notify_one consume \/ n = notify_all consume -> 0 < total counted_t ts -> 0 < num awake_worker ts'.
Proof.
  intros H Hn Hc. rewrite <- (stable_counted_deliver _ _ _ _ H) in Hc.
  assert (num (sleeps consume) ts' = 0 \/ 0 < num awake_worker ts') as [Hz | Hz]; [| | done].
  - destruct Hn as [-> | ->].
    + apply (deliver_one consume k ts); [done |]. intros t Ht. unfold sleeps in Ht. unfold awake_worker. rewrite wake_at.
      destruct (at_pc t); try done; match goal with k' : waiter |- _ => by destruct k' end.
    + left. by apply (deliver_all consume k ts).
  - rewrite counted_split in Hc. lia.
Qed.

(** ** A pool that serves: submit, steal, stop and start *)

Definition serve_calls (c : call) : bool := match c with Submit | Steal | Stop | Start => true | _ => false end.

Definition serving_at (p : ThreadPool) (t : thread) : Prop :=
  match at_pc t with
  | Park ForTask => length (_list p) = 0 \/ _state p = STOP
  | Park ForRoom => 0 < length (_list p)
  | Loop_sub | End_check | End_store | End_notify | Exited => False
  | _ => True
  end.

Record serving (c : config) : Prop := mkServing {
  sv_safe : safe c;
  sv_calls : all_permit serve_calls c;
  sv_core : _core_threads (pool c) = _target_thread_size (pool c) /\ (0 < _core_threads (pool c))%Z;
  sv_max : 0 < _max_tasks (pool c);
  sv_state : _state (pool c) = RUNNING \/ _state (pool c) = STOP;
  sv_kept : killed (pool c) = [] /\ dropped (pool c) = [];
  sv_local : forall t, t ∈ threads c -> serving_at (pool c) t;
  sv_push : 0 < num is_pushing (threads c) -> 0 < num awake_worker (threads c);
  sv_work : _state (pool c) = RUNNING -> 0 < length (_list (pool c)) ->
    0 < num awake_worker (threads c) + num is_starting (threads c);
  sv_room : _state (pool c) = RUNNING -> 0 < num sleeper (threads c) ->
    0 < length (_list (pool c)) + num notifier (threads c) + num taker (threads c) + num is_waking (threads c) + num is_stealing (threads c) }.

Lemma permits_impl A B t : (forall c, A c = true -> B c = true) -> permits A t = true -> permits B t = true.
Proof.
  intros H. unfold permits. rewrite !andb_true_iff, !forallb_forall. intros [H1 H2]. split; [| auto].
  destruct (part_of (at_pc t)); auto.
Qed.

Lemma is_empty_length l : is_empty l = true <-> length l = 0.
Proof. by destruct l. Qed.

Lemma task_false p : holds ForTask p = false -> (length (_list p) = 0 \/ _state p = STOP) /\ need_delete p = false.
Proof.
  cbn. intros [[H | H]%andb_false_iff Hd]%orb_false_iff; (split; [| done]).
  - left. apply is_empty_length. by apply negb_false_iff in H.
  - right. apply negb_false_iff in H. by apply bool_decide_eq_true in H.
Qed.

Lemma task_true p : holds ForTask p = true -> (0 < length (_list p) /\ _state p <> STOP) \/ need_delete p = true.
Proof.
  cbn. intros [[H1 H2]%andb_true_iff | Hd]%orb_true_iff; [left | by right]. split.
  - destruct (_list p); [done | cbn; lia].
  - intros Hs. by rewrite bool_decide_true in H2.
Qed.

Lemma room_false p : holds ForRoom p = false -> _state p = RUNNING /\ _max_tasks p <= length (_list p).
Proof.
  cbn. intros [H1 H2]%orb_false_iff. split; [unfold stopping in H1; by destruct (_state p) | by apply Nat.ltb_ge].
Qed.

Lemma exec_serving i t p p' t' n new :
  exec i t p = Some (p', t', n, new) -> permits serve_calls t = true -> serving_at p t ->
  _core_threads p = _target_thread_size p -> 0 < _max_tasks p -> _state p = RUNNING \/ _state p = STOP ->
  serving_at p' t' /\ _core_threads p' = _core_threads p /\ _target_thread_size p' = _target_thread_size p /\
  _max_tasks p' = _max_tasks p /\ (_state p' = RUNNING \/ _state p' = STOP) /\ killed p' = killed p /\ dropped p' = dropped p /\ new = None.
Proof.
  intros H Hp Hl Hc Hm Hst. unfold permits in Hp. unfold serving_at in *.
  exec_cases H; try discriminate; try contradiction; try (repeat split; auto; fail).
  - apply task_false in E as [? _]. auto 9.
  - apply room_false in E as [_ ?]. split; [lia | auto 9].
  - unfold need_delete in E. apply Z.ltb_lt in E. lia.
Qed.

(** Inside the section only its owner changes the queue and starts the pool. *)
Lemma serving_outside i t p p' t' n new u :
  exec i t p = Some (p', t', n, new) -> permits fixed_threads t = true -> in_section (at_pc t) = false ->
  serving_at p t -> serving_at p u -> serving_at p' u.
Proof.
  intros He Hp Hin Ht Hu. destruct (exec_outside _ _ _ _ _ _ _ He Hp Hin) as (Hl & _ & _ & _ & _ & Hst & _).
  unfold serving_at in *. rewrite Hl. destruct Hst as [-> | [[-> _] | [_ Hpc]]]; [done | |].
  - destruct (at_pc u); try done; match goal with k : waiter |- _ => destruct k end; auto.
  - by rewrite Hpc in Ht.
Qed.

Lemma sleeper_wake t : weigh sleeper (wake t) <= weigh sleeper t.
Proof. unfold weigh, sleeper. rewrite wake_at. destruct (at_pc t); cbn; lia. Qed.
Lemma awake_wake t : weigh awake_worker t <= weigh awake_worker (wake t).
Proof.
  unfold weigh, awake_worker. rewrite wake_at. destruct (at_pc t); cbn; try lia; match goal with k : waiter |- _ => destruct k; cbn; lia end.
Qed.
Lemma taker_wake t : weigh taker t <= weigh taker (wake t).
Proof.
  unfold weigh, taker. rewrite wake_at. destruct (at_pc t); cbn; try lia; match goal with k : waiter |- _ => destruct k; cbn; lia end.
Qed.
Lemma stable_weigh P : (forall k cs, P (mkThread (Wake k) cs) = P (mkThread (Sleep k) cs)) -> stable (weigh P).
Proof. intros H [q cs]. unfold weigh, wake. destruct q; cbn; try done. by rewrite H. Qed.

(** The sums of a step, before and after its notification. *)
Lemma step_sums i k c c' :
  step i k c = Some c' -> all_permit fixed_threads c ->
  exists t t' n ts, threads c !! i = Some t /\ exec i t (pool c) = Some (pool c', t', n, None) /\
    deliver n k ts = Some (threads c') /\ (forall w, total w ts + w t = total w (threads c) + w t').
Proof.
  intros H Hp. apply step_inversion in H as (t & t' & n & new & ts & Hi & He & Hd & Hts).
  assert (new = None) as ->.
  { destruct (exec_permits _ _ _ _ _ _ _ _ He (Hp t ltac:(by eapply list_elem_of_lookup_2))) as [_ Hnew].
    destruct (exec_new _ _ _ _ _ _ _ He) as [_ [-> | ->]]; [done |]. by specialize (Hnew _ eq_refl). }
  cbn in Hts. rewrite app_nil_r in Hts. subst ts. eexists t, t', n, _. split; [done |]. split; [done |]. split; [done |].
  intros w. by apply total_insert.
Qed.

Lemma serve_fixed c : all_permit serve_calls c -> all_permit fixed_threads c.
Proof. intros H t Ht. eapply permits_impl; [| by apply H]. by intros []. Qed.

Lemma serving_others i k c c' :
  serving c -> step i k c = Some c' -> (forall t, t ∈ threads c' -> serving_at (pool c') t).
Proof.
  intros Hv H. refine (step_each serving_at _ _ _ _ H _ (sv_local c Hv) _).
  { intros p t. unfold serving_at. rewrite wake_at. by destruct (at_pc t). }
  intros t t' n new Hi He. assert (Hin : t ∈ threads c) by (by eapply list_elem_of_lookup_2).
  destruct (exec_serving _ _ _ _ _ _ _ He (sv_calls c Hv t Hin) (sv_local c Hv t Hin) (proj1 (sv_core c Hv)) (sv_max c Hv) (sv_state c Hv))
    as (Hl & _ & _ & _ & _ & _ & _ & ->).
  split; [done |]. split; [done |]. intros j u Hne Hj Hu. destruct (in_section (at_pc u)) eqn:Hsec.
  - eapply serving_outside; [exact He | | | by apply (sv_local c Hv) | done].
    + by apply (serve_fixed c (sv_calls c Hv)).
    + eapply (alone c i j); [apply (sv_safe c Hv) | done..].
  - unfold serving_at in *. by destruct (at_pc u).
Qed.

(** What [deliver] does to each count; [sums] collects them with those of the step. *)
Lemma deliver_counts n k ts ts' :
  deliver n k ts = Some ts' -> 0 < total counted_t ts ->
  num sleeper ts' <= num sleeper ts /\ num awake_worker ts <= num awake_worker ts' /\ num taker ts <= num taker ts' /\
  num notifier ts' = num notifier ts /\ num is_stealing ts' = num is_stealing ts /\ num is_starting ts' = num is_starting ts /\
  num is_waking ts' = num is_waking ts /\ num is_pushing ts' = num is_pushing ts /\
  (n = notify_one submit \/ n = notify_all submit -> num sleeper ts' = 0 \/ 0 < num taker ts') /\
  (n = notify_one consume \/ n = notify_all consume -> 0 < num awake_worker ts').
Proof.
  intros H Hc. split; [| split; [| split]].
  - apply (deliver_anti _ _ _ _ _ H), sleeper_wake.
  - apply (deliver_mono _ _ _ _ _ H), awake_wake.
  - apply (deliver_mono _ _ _ _ _ H), taker_wake.
  - repeat (split; [eapply deliver_total; [by apply stable_weigh | exact H] |]). split; intros Hn.
    + by eapply deliver_submit.
    + by eapply deliver_consume.
Qed.

Lemma serving_counts i k c c' :
  serving c -> step i k c = Some c' ->
  (0 < num is_pushing (threads c') -> 0 < num awake_worker (threads c')) /\
  (_state (pool c') = RUNNING -> 0 < length (_list (pool c')) -> 0 < num awake_worker (threads c') + num is_starting (threads c')) /\
  (_state (pool c') = RUNNING -> 0 < num sleeper (threads c') ->
    0 < length (_list (pool c')) + num notifier (threads c') + num taker (threads c') + num is_waking (threads c') + num is_stealing (threads c')).
Proof.
  intros Hv H. pose proof (serve_fixed c (sv_calls c Hv)) as Hfix.
  destruct (step_sums _ _ _ _ H Hfix) as (t & t' & n & ts & Hi & He & Hd & Hsum).
  assert (Hin : t ∈ threads c) by (by eapply list_elem_of_lookup_2).
  pose proof (sv_push c Hv) as Hpush. pose proof (sv_work c Hv) as Hwork. pose proof (sv_room c Hv) as Hroom.
  pose proof (sv_local c Hv t Hin) as Hloc. pose proof (sv_calls c Hv t Hin) as Hperm. pose proof (sv_core c Hv) as [Hc1 Hc2]. pose proof (sv_max c Hv) as Hmax.
  pose proof (safe_count c (sv_safe c Hv)) as Hcnt. pose proof (Hsum counted_t) as Hcs.
  pose proof (exec_count _ _ _ _ _ _ _ He) as [Hc' _].
  destruct (exec_serving _ _ _ _ _ _ _ He Hperm Hloc Hc1 (sv_max c Hv) (sv_state c Hv)) as (_ & Hcore & _).
  assert (Hpos : 0 < total counted_t ts) by (unfold counted_t at 2 4 in Hcs; lia).
  destruct (deliver_counts _ _ _ _ Hd Hpos) as (D1 & D2 & D3 & D4 & D5 & D6 & D7 & D8 & D9 & D10).
  assert (Halone : in_section (at_pc t) = true -> num is_pushing (threads c) = weigh is_pushing t).
  { intros Hs. apply (total_alone c i); [apply (sv_safe c Hv) | done | done |]. intros u. unfold weigh, is_pushing. by destruct (at_pc u); cbn; try lia. }
  pose proof (Hsum (weigh sleeper)) as S1. pose proof (Hsum (weigh awake_worker)) as S2. pose proof (Hsum (weigh taker)) as S3.
  pose proof (Hsum (weigh notifier)) as S4. pose proof (Hsum (weigh is_stealing)) as S5. pose proof (Hsum (weigh is_starting)) as S6.
  pose proof (Hsum (weigh is_waking)) as S7. pose proof (Hsum (weigh is_pushing)) as S8.
  clear Hsum Hcs Hcnt Hd H Hc' Hpos. generalize dependent (pool c'). intros p' He Hcore.
  generalize dependent (pool c). intros p. intros.
  revert D1 D2 D3 D4 D5 D6 D7 D8 D9 D10 S1 S2 S3 S4 S5 S6 S7 S8 Hpush Hwork Hroom Halone.
  generalize (num sleeper (threads c')), (num awake_worker (threads c')), (num taker (threads c')), (num notifier (threads c')), (num is_stealing (threads c')), (num is_starting (threads c')), (num is_waking (threads c')), (num is_pushing (threads c')).
  generalize (num sleeper ts), (num awake_worker ts), (num taker ts), (num notifier ts), (num is_stealing ts), (num is_starting ts), (num is_waking ts), (num is_pushing ts).
  generalize (num sleeper (threads c)), (num awake_worker (threads c)), (num taker (threads c)), (num notifier (threads c)), (num is_stealing (threads c)), (num is_starting (threads c)), (num is_waking (threads c)), (num is_pushing (threads c)).
  intros. unfold permits in Hperm. unfold weigh, serving_at in *. remember (@None thread) as new eqn:Hnone in He.
  exec_cases He; try discriminate; try contradiction;
    try (match goal with H : context [entry ?c] |- _ => destruct c; try discriminate Hperm; cbn in * end);
    try specialize (D9 (or_introl eq_refl)); try specialize (D9 (or_intror eq_refl));
    try specialize (D10 (or_introl eq_refl)); try specialize (D10 (or_intror eq_refl)); try specialize (Halone eq_refl);
    try (match goal with E : pop_back _ = Some _ |- _ => apply pop_back_some in E; rewrite E, length_app in Hwork, Hroom; cbn in Hwork, Hroom end);
    try (match goal with E : stopping p || has_room p = false |- _ => apply room_false in E as [_ ?] end);
    rewrite ?length_app; cbn;
    (destruct (decide (_state p = RUNNING)) as [HR | HR]; [specialize (Hwork HR); specialize (Hroom HR) | clear Hwork Hroom]);
    (split; [| split]); intros; try congruence; try lia.
  - destruct Hloc; [lia | congruence].
  - unfold stopping in E. by rewrite HR in E.
Qed.

Lemma transition_serving c c' : serving c -> transition c c' -> serving c'.
Proof.
  intros Hv Ht. pose proof (transition_safe _ _ (sv_safe c Hv) Ht) as Hs'. pose proof (transition_permits _ _ _ (sv_calls c Hv) Ht) as Hp'.
  destruct Ht as [i w c c' H | i c c' H].
  - destruct (serving_counts _ _ _ _ Hv H) as (H1 & H2 & H3). pose proof (serving_others _ _ _ _ Hv H) as Hl.
    destruct (step_sums _ _ _ _ H (serve_fixed c (sv_calls c Hv))) as (t & t' & n & ts & Hi & He & _).
    assert (Hin : t ∈ threads c) by (by eapply list_elem_of_lookup_2).
    destruct (exec_serving _ _ _ _ _ _ _ He (sv_calls c Hv t Hin) (sv_local c Hv t Hin) (proj1 (sv_core c Hv)) (sv_max c Hv) (sv_state c Hv))
      as (_ & E1 & E2 & E3 & E4 & E5 & E6 & _).
    pose proof (sv_core c Hv). pose proof (sv_max c Hv). pose proof (sv_kept c Hv).
    split; rewrite ?E1, ?E2, ?E3, ?E5, ?E6; done.
  - pose proof (spurious_each serving_at _ _ _ H) as Hl. pose proof H as Hsp. apply spurious_inv in H as (t & k & Hi & Hpc & ->).
    cbn in *. pose proof (fun w => total_insert w (threads c) i t (wake t) Hi) as Hsum.
    pose proof (Hsum (weigh sleeper)). pose proof (sleeper_wake t). pose proof (Hsum (weigh awake_worker)). pose proof (awake_wake t).
    pose proof (Hsum (weigh taker)). pose proof (taker_wake t).
    pose proof (sv_push c Hv). pose proof (sv_work c Hv) as Hw. pose proof (sv_room c Hv) as Hr.
    assert (Hst : forall P, (forall k cs, P (mkThread (Wake k) cs) = P (mkThread (Sleep k) cs)) -> num P (<[i:=wake t]> (threads c)) = num P (threads c)).
    { intros P HP. apply (spurious_total (weigh P) i c (mkConfig (pool c) (<[i:=wake t]> (threads c)))); [by apply stable_weigh | done]. }
    split; cbn; try apply Hv; try done.
    + apply Hl; [| apply (sv_local c Hv)]. intros p u. unfold serving_at. rewrite wake_at. by destruct (at_pc u).
    + rewrite (Hst is_pushing) by done. lia.
    + rewrite (Hst is_starting) by done. intros HR ?. specialize (Hw HR). lia.
    + rewrite !(Hst notifier), !(Hst is_waking), !(Hst is_stealing) by done. intros HR ?. specialize (Hr HR). lia.
Qed.

Lemma started_serving n m css :
  0 < n -> 0 < m -> forallb (forallb serve_calls) css = true -> serving (started n m css).
Proof.
  intros Hn Hm Hcs. assert (Hz : forall P, P (mkThread Loop_lock []) = false -> (forall cs, P (client cs) = false) ->
    num P (threads (started n m css)) = 0).
  { intros P H1 H2. cbn. rewrite total_app, total_replicate, total_clients; [unfold weigh; rewrite H1; cbn; lia |]. unfold weigh.
    intros cs. by rewrite H2. }
  split.
  - apply started_safe.
  - apply started_permits; [by intros [] | done].
  - cbn. lia.
  - done.
  - by left.
  - done.
  - intros t Ht. cbn in Ht. apply elem_of_app in Ht as [Ht | Ht].
    + by apply elem_of_replicate in Ht as [-> _].
    + by apply list_elem_of_fmap in Ht as (cs & -> & _).
  - rewrite (Hz is_pushing) by done. lia.
  - cbn. lia.
  - rewrite (Hz sleeper) by done. lia.
Qed.

(** At rest a thread holds no task and is none of those that would go on. *)
Lemma rest_zero c P : (forall t, t ∈ threads c -> at_rest t) -> (forall t, at_rest t -> P t = false) -> num P (threads c) = 0.
Proof. intros Hr HP. apply total_zero. intros t Ht. unfold weigh. by rewrite HP by auto. Qed.

Ltac at_rest_cases := intros [q cs] [[k Hk] | [Hk | Hk]]; cbn in *; [subst q; by destruct k | by injection Hk as -> -> | by subst q].

Lemma rest_in_hand c : (forall t, t ∈ threads c -> at_rest t) -> in_hand (threads c) = [].
Proof.
  intros Hr. unfold in_hand. induction (threads c) as [| t ts IH]; [done |]. cbn. rewrite IH by (intros; apply Hr; by right).
  rewrite app_nil_r. destruct (Hr t ltac:(left)) as [[k ->] | [-> | ->]]; done.
Qed.

(** C8. Clients submit, steal, stop and start, in any interleaving with the workers of a pool that has at least
    one worker and room for one task.  When nothing can happen any more: workers sleep
    waiting for tasks and every client has made all its calls, except submitters waiting for a
    stopped pool with a full queue; if the pool is running, no submitter waits and every submitted task has
    been run. *)
Theorem running_pool_serves_all (n max_tasks : nat) (clients : list (list call)) (c : config) :
  0 < n -> 0 < max_tasks -> forallb (forallb serve_calls) clients = true ->
  steps (started n max_tasks clients) c -> quiet c ->
  (forall t, t ∈ threads c -> at_pc t = Sleep ForTask \/ t = client [] \/ (at_pc t = Sleep ForRoom /\ _state (pool c) = STOP)) /\
  (_state (pool c) = RUNNING -> _list (pool c) = [] /\ ran (pool c) ≡ₚ seq 0 (submitted (pool c))).
Proof.
  intros Hn Hm Hcs Hrun Hq. pose proof (steps_inv serving _ _ transition_serving (started_serving _ _ _ Hn Hm Hcs) Hrun) as Hv.
  assert (Hrest : forall t, t ∈ threads c -> at_rest t) by (intros; by eapply quiet_rest; [apply (sv_safe c Hv) | ..]).
  assert (Hempty : _state (pool c) = RUNNING -> _list (pool c) = [] /\ num sleeper (threads c) = 0).
  { intros HR. pose proof (sv_work c Hv HR) as Hw. pose proof (sv_room c Hv HR) as Hr.
    rewrite (rest_zero c awake_worker), (rest_zero c is_starting) in Hw by (done || at_rest_cases).
    rewrite (rest_zero c notifier), (rest_zero c taker), (rest_zero c is_waking), (rest_zero c is_stealing) in Hr by (done || at_rest_cases).
    destruct (_list (pool c)); cbn in *; split; try done; lia. }
  split.
  - intros t Ht. pose proof (sv_calls c Hv t Ht) as Hp. pose proof (sv_local c Hv t Ht) as Hl. unfold permits in Hp. unfold serving_at in Hl.
    destruct (Hrest t Ht) as [[k Hk] | [-> | Hk]]; [| by right; left | by rewrite Hk in Hl].
    rewrite Hk in Hp. destruct k; cbn in Hp; try done; [by left |]. right; right. split; [done |].
    destruct (sv_state c Hv) as [HR | HS]; [| done]. exfalso. destruct (Hempty HR) as [_ Hz].
    pose proof (proj1 (total_zero _ _) Hz t Ht) as Hs. unfold weigh, sleeper in Hs. by rewrite Hk in Hs.
  - intros HR. destruct (Hempty HR) as [Hl _]. split; [done |].
    pose proof (safe_permutation c (sv_safe c Hv)) as Hperm. destruct (sv_kept c Hv) as [Hk Hd].
    by rewrite Hl, Hk, Hd, rest_in_hand, !app_nil_r in Hperm.
Qed.

(** A computed configuration that is quiet. *)
Lemma quiet_computed c : quietb c = true -> quiet c.
Proof. intros H. pose proof (quietb_spec c) as Hq. by rewrite H in Hq. Qed.

Lemma running_pool_serves_all_witness :
  let c := drive 100 (started 2 1 [[Submit; Submit; Steal]; [Submit; Stop; Start]]) in
  (forall t, t ∈ threads c -> at_pc t = Sleep ForTask \/ t = client [] \/ (at_pc t = Sleep ForRoom /\ _state (pool c) = STOP)) /\
  (_state (pool c) = RUNNING -> _list (pool c) = [] /\ ran (pool c) ≡ₚ seq 0 (submitted (pool c))).
Proof.
  apply (running_pool_serves_all 2 1 [[Submit; Submit; Steal]; [Submit; Stop; Start]]);
    [lia | lia | reflexivity | apply drive_steps | apply quiet_computed; vm_compute; reflexivity].
Defined.

Example served_three :
  let p := pool (drive 100 (started 2 1 [[Submit; Submit; Steal]; [Submit; Stop; Start]])) in
  _state p = RUNNING /\ submitted p = 3 /\ length (ran p) = 3.
Proof. vm_compute. auto. Qed.
