(* ===== verification/ThreadPoolShutdown.v ===== *)
(** * ThreadPoolShutdown: what a shutdown leaves

    Clients submit, steal, clear and shut down while the workers run.  From the moment a
    shutdown has stored [SHUTTING] the workers leave, the last one stores
    [TERMINATED], and every task has been run or killed. *)

From S2P Require Import Prelude ThreadPool ThreadPoolSafety ThreadPoolBounds ThreadPoolLiveness.
#[local] Arguments Nat.ltb : simpl never.
Local Notation num P ts := (total (weigh P) ts).

Definition closing_calls (c : call) : bool := match c with Submit | Steal | Clear | Shutdown => true | _ => false end.

Definition is_killing (t : thread) : bool := match at_pc t with Shutdown_kill | Shutdown_target => true | _ => false end.
Definition is_kill (t : thread) : bool := match at_pc t with Shutdown_kill => true | _ => false end.
Definition is_notifying (t : thread) : bool := match at_pc t with Shutdown_notify => true | _ => false end.
Definition is_ending (t : thread) : bool := match at_pc t with End_check | End_store => true | _ => false end.
Definition is_last (t : thread) : bool := match at_pc t with End_notify => true | _ => false end.
Definition room_sleeper (t : thread) : bool := match at_pc t with Sleep ForRoom => true | _ => false end.

Definition closing_at (p : ThreadPool) (t : thread) : Prop :=
  match at_pc t with
  | Park ForTask => (0 < _target_thread_size p)%Z
  | Park ForRoom | Submit_notify | Submit_push | Shutdown_store => _state p = RUNNING
  | Loop_sub | End_check | End_store | End_notify | Shutdown_kill => _state p <> RUNNING
  | Shutdown_target => _state p <> RUNNING /\ length (_list p) = 0
  | Shutdown_notify => _target_thread_size p = 0%Z
  | _ => True
  end.

Record closing (c : config) : Prop := mkClosing {
  cl_safe : safe c;
  cl_calls : all_permit closing_calls c;
  cl_state : _state (pool c) <> STOP;
  cl_dropped : dropped (pool c) = [];
  cl_local : forall t, t ∈ threads c -> closing_at (pool c) t;
  cl_before : _state (pool c) = RUNNING -> _target_thread_size (pool c) = _core_threads (pool c) /\ (0 < _core_threads (pool c))%Z;
  cl_after : _state (pool c) <> RUNNING -> _target_thread_size (pool c) = 0%Z \/ 0 < num is_killing (threads c);
  cl_list : _state (pool c) <> RUNNING -> length (_list (pool c)) = 0 \/ 0 < num is_kill (threads c);
  cl_awake : _target_thread_size (pool c) = 0%Z -> num (sleeps consume) (threads c) = 0 \/ 0 < num is_notifying (threads c);
  cl_end : _core_threads (pool c) = 0%Z -> _state (pool c) = TERMINATED \/ 0 < num is_ending (threads c);
  cl_room : _state (pool c) = TERMINATED -> num room_sleeper (threads c) = 0 \/ 0 < num is_last (threads c) }.

Lemma exec_closing i t p p' t' n new :
  exec i t p = Some (p', t', n, new) -> permits closing_calls t = true -> closing_at p t -> _state p <> STOP ->
  (_state p = RUNNING -> _target_thread_size p = _core_threads p /\ (0 < _core_threads p)%Z) ->
  (Z.of_nat (counted_t t) <= _core_threads p)%Z ->
  closing_at p' t' /\ _state p' <> STOP /\ dropped p' = dropped p /\ (_state p <> RUNNING -> _state p' <> RUNNING) /\
  (_state p' = RUNNING -> _target_thread_size p' = _core_threads p' /\ (0 < _core_threads p')%Z).
Proof.
  intros H Hp Hl Hst Hb Hc. unfold permits in Hp. unfold closing_at, counted_t in *.
  exec_cases H; try discriminate; try contradiction; 
    (split; [| split; [| split; [| split]]]); try done; try congruence; try (intros; intuition congruence).
  - apply task_false in E as [_ E]. apply Z.ltb_ge in E. lia.
  - by apply room_false in E as [? _].
  - intros HR. destruct (Hb HR). apply Z.ltb_lt in E. lia.
  - unfold stopping in E. by destruct (_state p).
Qed.

Lemma closing_outside i t p p' t' n new u :
  exec i t p = Some (p', t', n, new) -> permits fixed_threads t = true -> in_section (at_pc t) = false ->
  closing_at p t -> _state p' <> STOP -> closing_at p u -> closing_at p' u.
Proof.
  intros He Hp Hin Ht Hns Hu. destruct (exec_outside _ _ _ _ _ _ _ He Hp Hin) as (Hl & _ & Htg & _ & _ & Hst & _).
  unfold closing_at in *. rewrite Hl, Htg. destruct Hst as [-> | [[? _] | [Hst Hpc]]]; [done | done |].
  rewrite Hpc in Ht. destruct (at_pc u); try done; try match goal with k : waiter |- _ => destruct k end; try done; rewrite ?Hst; try done; try congruence.
  by destruct Hu.
Qed.

Lemma closing_fixed c : all_permit closing_calls c -> all_permit fixed_threads c.
Proof. intros H t Ht. eapply permits_impl; [| by apply H]. by intros []. Qed.

Lemma closing_exec i t t' n new c c' :
  closing c -> threads c !! i = Some t -> exec i t (pool c) = Some (pool c', t', n, new) ->
  closing_at (pool c') t' /\ _state (pool c') <> STOP /\ dropped (pool c') = dropped (pool c) /\
  (_state (pool c) <> RUNNING -> _state (pool c') <> RUNNING) /\
  (_state (pool c') = RUNNING -> _target_thread_size (pool c') = _core_threads (pool c') /\ (0 < _core_threads (pool c'))%Z).
Proof.
  intros Hv Hi He. assert (Hin : t ∈ threads c) by (by eapply list_elem_of_lookup_2).
  refine (exec_closing _ _ _ _ _ _ _ He (cl_calls c Hv t Hin) (cl_local c Hv t Hin) (cl_state c Hv) (cl_before c Hv) _).
  rewrite (safe_count c (cl_safe c Hv)). pose proof (total_pos counted_t _ _ _ Hi). lia.
Qed.

Lemma closing_others i k c c' :
  closing c -> step i k c = Some c' -> forall t, t ∈ threads c' -> closing_at (pool c') t.
Proof.
  intros Hv H. refine (step_each closing_at _ _ _ _ H _ (cl_local c Hv) _).
  { intros p t. unfold closing_at. rewrite wake_at. by destruct (at_pc t). }
  intros t t' n new Hi He. assert (Hin : t ∈ threads c) by (by eapply list_elem_of_lookup_2).
  destruct (closing_exec _ _ _ _ _ _ _ Hv Hi He) as (Hl & Hns & _ & Hmono & _).
  split; [done |]. split.
  { intros u ->. destruct (exec_new _ _ _ _ _ _ _ He) as [_ [? | [= ->]]]; done. }
  intros j u Hne Hj Hu. destruct (in_section (at_pc u)) eqn:Hsec.
  - eapply closing_outside; [exact He | | | by apply (cl_local c Hv) | done | done].
    + by apply (closing_fixed c (cl_calls c Hv)).
    + eapply (alone c i j); [apply (cl_safe c Hv) | done..].
  - unfold closing_at in *. destruct (at_pc u); try done; by apply Hmono.
Qed.

Ltac room_cases :=
  intros [q cs]; unfold weigh; destruct q; try done; match goal with k : waiter |- _ => destruct k end; cbn; lia.

Lemma consume_wake t : weigh (sleeps consume) (wake t) <= weigh (sleeps consume) t.
Proof. revert t. room_cases. Qed.
Lemma room_wake' t : weigh room_sleeper (wake t) <= weigh room_sleeper t.
Proof. revert t. room_cases. Qed.

Lemma closing_deliver n k ts ts' :
  deliver n k ts = Some ts' ->
  num (sleeps consume) ts' <= num (sleeps consume) ts /\ num room_sleeper ts' <= num room_sleeper ts /\
  num is_killing ts' = num is_killing ts /\ num is_kill ts' = num is_kill ts /\ num is_notifying ts' = num is_notifying ts /\
  num is_ending ts' = num is_ending ts /\ num is_last ts' = num is_last ts /\
  (n = notify_all consume -> num (sleeps consume) ts' = 0) /\ (n = notify_all submit -> num room_sleeper ts' = 0).
Proof.
  intros H. split; [| split].
  - apply (deliver_anti _ _ _ _ _ H), consume_wake.
  - apply (deliver_anti _ _ _ _ _ H), room_wake'.
  - repeat (split; [eapply deliver_total; [by apply stable_weigh | exact H] |]). split; intros ->.
    + by eapply deliver_all.
    + pose proof (deliver_all _ _ _ _ H) as Hz. assert (num room_sleeper ts' <= num (sleeps submit) ts'); [| lia].
      apply total_mono. room_cases.
Qed.

Lemma closing_counts i k c c' :
  closing c -> step i k c = Some c' ->
  (_state (pool c') <> RUNNING -> _target_thread_size (pool c') = 0%Z \/ 0 < num is_killing (threads c')) /\
  (_state (pool c') <> RUNNING -> length (_list (pool c')) = 0 \/ 0 < num is_kill (threads c')) /\
  (_target_thread_size (pool c') = 0%Z -> num (sleeps consume) (threads c') = 0 \/ 0 < num is_notifying (threads c')) /\
  (_core_threads (pool c') = 0%Z -> _state (pool c') = TERMINATED \/ 0 < num is_ending (threads c')) /\
  (_state (pool c') = TERMINATED -> num room_sleeper (threads c') = 0 \/ 0 < num is_last (threads c')).
Proof.
  intros Hv H. pose proof (closing_fixed c (cl_calls c Hv)) as Hfix.
  destruct (step_sums _ _ _ _ H Hfix) as (t & t' & n & ts & Hi & He & Hd & Hsum).
  assert (Hin : t ∈ threads c) by (by eapply list_elem_of_lookup_2).
  pose proof (cl_local c Hv t Hin) as Hloc. pose proof (cl_calls c Hv t Hin) as Hperm.
  pose proof (cl_after c Hv) as H1. pose proof (cl_list c Hv) as H2. pose proof (cl_awake c Hv) as H3. pose proof (cl_end c Hv) as H4.
  pose proof (cl_room c Hv) as H5. pose proof (cl_state c Hv) as Hns. pose proof (cl_before c Hv) as Hb.
  destruct (closing_deliver _ _ _ _ Hd) as (D1 & D2 & D3 & D4 & D5 & D6 & D7 & D8 & D9).
  pose proof (Hsum (weigh (sleeps consume))) as S1. pose proof (Hsum (weigh room_sleeper)) as S2. pose proof (Hsum (weigh is_killing)) as S3.
  pose proof (Hsum (weigh is_kill)) as S4. pose proof (Hsum (weigh is_notifying)) as S5. pose proof (Hsum (weigh is_ending)) as S6.
  pose proof (Hsum (weigh is_last)) as S7. rewrite D3, D4, D5, D6, D7. clear Hsum Hd H D3 D4 D5 D6 D7.
  generalize dependent (pool c'). intros p' He. generalize dependent (pool c). intros p. intros.
  unfold permits in Hperm. unfold weigh, closing_at in *. remember (@None thread) as new eqn:Hnone in He.
  exec_cases He; try discriminate; try contradiction;
    try (match goal with H : context [entry ?c] |- _ => destruct c; try discriminate Hperm; cbn in * end);
    try specialize (D8 eq_refl); try specialize (D9 eq_refl);
    try (match goal with E : pop_back _ = Some _ |- _ => apply pop_back_some in E; rewrite E, length_app in H2; cbn in H2 end);
    try specialize (H1 Hloc); try specialize (H2 Hloc);
    try (match goal with E : _state p = _ |- _ => rewrite E end).
  all: (split; [| split; [| split; [| split]]]); intros HH; try specialize (H1 HH); try specialize (H2 HH); try specialize (H3 HH); try specialize (H4 HH); try specialize (H5 HH);
    try congruence; try lia; try (destruct H4; first [by left | congruence | right; lia]); try (by left).
Qed.

Lemma transition_closing c c' : closing c -> transition c c' -> closing c'.
Proof.
  intros Hv Ht. pose proof (transition_safe _ _ (cl_safe c Hv) Ht) as Hs'. pose proof (transition_permits _ _ _ (cl_calls c Hv) Ht) as Hp'.
  destruct Ht as [i w c c' H | i c c' H].
  - destruct (closing_counts _ _ _ _ Hv H) as (H1 & H2 & H3 & H4 & H5). pose proof (closing_others _ _ _ _ Hv H) as Hl.
    destruct (step_sums _ _ _ _ H (closing_fixed c (cl_calls c Hv))) as (t & t' & n & ts & Hi & He & _).
    destruct (closing_exec _ _ _ _ _ _ _ Hv Hi He) as (_ & E1 & E2 & _ & E3).
    split; try done. rewrite E2. apply (cl_dropped c Hv).
  - pose proof (spurious_each closing_at _ _ _ H) as Hl. apply spurious_inv in H as (t & k & Hi & Hpc & ->). cbn in *.
    pose proof (fun w => total_insert w (threads c) i t (wake t) Hi) as Hsum.
    assert (Hst : forall P, (forall k cs, P (mkThread (Wake k) cs) = P (mkThread (Sleep k) cs)) -> num P (<[i:=wake t]> (threads c)) = num P (threads c)).
    { intros P HP. pose proof (Hsum (weigh P)) as Hw. rewrite (stable_weigh P HP t) in Hw. lia. }
    pose proof (Hsum (weigh (sleeps consume))). pose proof (Hsum (weigh room_sleeper)).
    pose proof (consume_wake t). pose proof (room_wake' t). pose proof (cl_awake c Hv) as Ha. pose proof (cl_room c Hv) as Hr.
    split; cbn; try apply Hv; try done.
    + apply Hl; [| apply (cl_local c Hv)]. intros p u. unfold closing_at. rewrite wake_at. by destruct (at_pc u).
    + rewrite (Hst is_killing) by done. apply (cl_after c Hv).
    + rewrite (Hst is_kill) by done. apply (cl_list c Hv).
    + rewrite (Hst is_notifying) by done. intros HT. specialize (Ha HT). lia.
    + rewrite (Hst is_ending) by done. apply (cl_end c Hv).
    + rewrite (Hst is_last) by done. intros HT. specialize (Hr HT). lia.
Qed.

Lemma started_closing n m css :
  0 < n -> forallb (forallb closing_calls) css = true -> closing (started n m css).
Proof.
  intros Hn Hcs. split; cbn; try done.
  - apply started_safe.
  - apply started_permits; [by intros [] | done].
  - intros t Ht. apply elem_of_app in Ht as [Ht | Ht].
    + by apply elem_of_replicate in Ht as [-> _].
    + by apply list_elem_of_fmap in Ht as (cs & -> & _).
  - lia.
  - lia.
  - lia.
Qed.

(** C25. Clients submit, steal, clear and shut down, in any interleaving with the workers of a pool that has at
    least one.  Once a shutdown has begun and nothing can happen any more, the pool is
    [TERMINATED], all workers have left, the queue is empty, every submitted task was run or killed
    (and none twice), and every client has made all its calls or sleeps in [shutdown] because the last
    notification came between its test and its sleep. *)
Theorem shutdown_leaves_nothing (n max_tasks : nat) (clients : list (list call)) (c : config) :
  0 < n -> forallb (forallb closing_calls) clients = true ->
  steps (started n max_tasks clients) c -> quiet c -> _state (pool c) <> RUNNING ->
  _state (pool c) = TERMINATED /\ _core_threads (pool c) = 0%Z /\ _list (pool c) = [] /\
  ran (pool c) ++ killed (pool c) ≡ₚ seq 0 (submitted (pool c)) /\
  (forall t, t ∈ threads c -> at_pc t = Exited \/ t = client [] \/ at_pc t = Sleep ForEnd).
Proof.
  intros Hn Hcs Hrun Hq HR. pose proof (steps_inv closing _ _ transition_closing (started_closing _ _ _ Hn Hcs) Hrun) as Hv.
  assert (Hrest : forall t, t ∈ threads c -> at_rest t) by (intros; by eapply quiet_rest; [apply (cl_safe c Hv) | ..]).
  pose proof (cl_after c Hv HR) as H1. pose proof (cl_list c Hv HR) as H2. pose proof (cl_awake c Hv) as H3.
  pose proof (cl_end c Hv) as H4. pose proof (cl_room c Hv) as H5.
  rewrite (rest_zero c is_killing) in H1 by (done || at_rest_cases). rewrite (rest_zero c is_kill) in H2 by (done || at_rest_cases).
  rewrite (rest_zero c is_notifying) in H3 by (done || at_rest_cases). rewrite (rest_zero c is_ending) in H4 by (done || at_rest_cases).
  rewrite (rest_zero c is_last) in H5 by (done || at_rest_cases).
  destruct H1 as [H1 |]; [| lia]. destruct H2 as [H2 |]; [| lia]. destruct (H3 H1) as [Hz |]; [| lia].
  assert (Hcore : _core_threads (pool c) = 0%Z).
  { rewrite (safe_count c (cl_safe c Hv)), counted_split, Hz, (rest_zero c awake_worker) by (done || at_rest_cases). done. }
  destruct (H4 Hcore) as [HT |]; [| lia]. destruct (H5 HT) as [Hroom |]; [| lia].
  apply length_zero_iff_nil in H2. split; [done |]. split; [done |]. split; [done |]. split.
  - pose proof (safe_permutation c (cl_safe c Hv)) as Hperm. by rewrite H2, (cl_dropped c Hv), rest_in_hand, app_nil_r in Hperm.
  - intros t Ht. destruct (Hrest t Ht) as [[k Hk] | [-> | Hk]]; [| by right; left | by left].
    pose proof (proj1 (total_zero _ _) Hz t Ht) as Hs. pose proof (proj1 (total_zero _ _) Hroom t Ht) as Hs'.
    pose proof (cl_calls c Hv t Ht) as Hp. unfold weigh, sleeps, room_sleeper, permits in *. rewrite Hk in Hs, Hs', Hp.
    destruct k; try done. by right; right.
Qed.

Lemma shutdown_leaves_nothing_witness :
  let c := drive 100 (started 2 1 [[Submit; Submit]; [Clear; Shutdown]; [Submit; Steal]]) in
  _state (pool c) = TERMINATED /\ _core_threads (pool c) = 0%Z /\ _list (pool c) = [] /\
  ran (pool c) ++ killed (pool c) ≡ₚ seq 0 (submitted (pool c)) /\
  (forall t, t ∈ threads c -> at_pc t = Exited \/ t = client [] \/ at_pc t = Sleep ForEnd).
Proof.
  apply (shutdown_leaves_nothing 2 1 [[Submit; Submit]; [Clear; Shutdown]; [Submit; Steal]]);
    [lia | reflexivity | apply drive_steps | apply quiet_computed; vm_compute; reflexivity | vm_compute; discriminate].
Defined.
