(* ===== verification/ThreadPoolTermination.v ===== *)
(** * ThreadPoolTermination: every run ends

    Clients make finitely many calls, tasks end: then workers, submitters and shutdowns do not wake each
    other for ever.  Every place has an energy; a step that is no spurious wakeup uses some of
    it, a task carries what its worker and the submitter it notifies will need. *)

From S2P Require Import Prelude ThreadPool ThreadPoolSafety ThreadPoolBounds ThreadPoolLiveness.
#[local] Arguments Nat.ltb : simpl never.
#[local] Arguments Nat.mul : simpl never.

(** ** Energy *)

Section Energy.
Context (N : nat).

(** A task; waking all threads; a change of what workers test for. *)
Definition TASK : nat := 10.
Definition ALL : nat := 4 * N.
Definition CHANGE : nat := 9 * N.
(** What a worker needs to leave. *)
Definition LEAVE : nat := ALL + 2 * CHANGE + 4.
Definition ROOM : nat := TASK + 5.

Definition base (k : waiter) : nat := match k with ForTask => LEAVE | ForRoom => ROOM | _ => 0 end.

Definition energy (q : pc) : nat :=
  match q with
  | Sleep k => base k | Park k => base k + 1 | Test k => base k + 3 | Wake k => base k + 4
  | Loop_take => LEAVE + 1 | Loop_delete => LEAVE + 2
  | Loop_notify => LEAVE + 8 | Loop_lock => LEAVE + 9 | Loop_run _ => LEAVE + 10
  | Loop_sub => ALL + 2 * CHANGE + 4 | End_check => ALL + CHANGE + 3 | End_store => ALL + CHANGE + 2 | End_notify => ALL + 1
  | Submit_lock => ROOM + 4 | Submit_check => ROOM + 2 | Submit_notify => ROOM + 1 | Submit_push => TASK + 1
  | Steal_lock => 8 | Steal_take => 7 | Steal_notify _ => 6 | Steal_run _ => 1
  | Stop_load => ALL + CHANGE + 3 | Stop_store => ALL + CHANGE + 2 | Stop_notify => ALL + 1
  | Start_load => 2 * ALL + CHANGE + 5 | Start_lock => 2 * ALL + CHANGE + 4 | Start_store => 2 * ALL + CHANGE + 3
  | Start_notify_submit => 2 * ALL + 2 | Start_notify_consume => ALL + 1
  | Clear_lock => 2 | Clear_kill => 1
  | Shutdown_lock => ALL + 2 * CHANGE + 9 | Shutdown_check => ALL + 2 * CHANGE + 8 | Shutdown_store => ALL + 2 * CHANGE + 7
  | Shutdown_kill => ALL + CHANGE + 6 | Shutdown_target => ALL + CHANGE + 5 | Shutdown_notify => ALL + 4
  | Queue_lock _ => 2 | Queue_resize _ => 1
  | _ => 0
  end.

(** What a worker needs to go round when the pool was stopped after its test. *)
Definition extra (p : ThreadPool) (q : pc) : nat :=
  match q with
  | Loop_delete => if decide (_state p = STOP) then if need_delete p then 0 else 9 else 0
  | Loop_take => if decide (_state p = STOP) then 9 else 0
  | _ => 0
  end.

Definition calls_energy (cs : list call) : nat := sum_list_with (fun c => energy (entry c) + 1) cs.

Definition weight (p : ThreadPool) (t : thread) : nat := energy (at_pc t) + extra p (at_pc t) + calls_energy (todo t).

Definition notice (n : notify) : nat := match n with nobody => 0 | notify_one _ => 4 | notify_all _ => ALL end.

(** The steps that may change what the others test for. *)
Definition change (q : pc) : nat :=
  match q with Stop_store | Start_store | Shutdown_store | Shutdown_target | Loop_sub | End_store => CHANGE | _ => 0 end.

Definition found (p : ThreadPool) (t : thread) : Prop :=
  match at_pc t with
  | Loop_delete => 0 < length (_list p) \/ need_delete p = true
  | Loop_take => 0 < length (_list p)
  | _ => True
  end.

Lemma extra_le p p' q : extra p' q <= extra p q + 9.
Proof. destruct q; cbn; try lia; repeat case_decide; repeat case_match; lia. Qed.

Lemma exec_extra i t p p' t' n new q :
  exec i t p = Some (p', t', n, new) -> permits fixed_threads t = true -> change (at_pc t) = 0 -> N <> 0 -> extra p' q = extra p q.
Proof.
  intros H Hp Hc HN. unfold permits in Hp. unfold change, CHANGE in Hc. exec_cases H; try discriminate; try done; destruct q; try done; lia.
Qed.

Lemma exec_found i t p p' t' n new :
  exec i t p = Some (p', t', n, new) -> found p t -> found p' t'.
Proof.
  intros H Hf. unfold found in *. exec_cases H; try done.
  - apply task_true in E as [[? _] | ?]; auto.
  - destruct Hf as [? | ?]; [done | congruence].
Qed.

Lemma exec_energy i t p p' t' n new :
  exec i t p = Some (p', t', n, new) -> permits fixed_threads t = true -> found p t ->
  weight p' t' + TASK * length (_list p') + notice n + change (at_pc t) < weight p t + TASK * length (_list p).
Proof.
  intros H Hp Hf. unfold permits in Hp. unfold found, weight, notice, change, LEAVE, ROOM, TASK in *.
  exec_cases H; try discriminate;
    try (match goal with E : pop_back _ = Some _ |- _ => apply pop_back_some in E; rewrite E end);
    try (match goal with E : pop_back _ = None |- _ => apply pop_back_none in E; rewrite E in Hf; cbn in Hf end);
    rewrite ?length_app, ?length_take; cbn; repeat case_decide; try lia.
  all: try (match goal with E : need_delete _ = _ |- _ => rewrite E end); unfold LEAVE; try lia; try congruence.
  all: rewrite bool_decide_true, andb_false_r in E by done; cbn in E; rewrite E; lia.
Qed.
End Energy.

(** ** Runs *)

(** [k] steps and [s] spurious wakeups lead from one configuration to another. *)
Inductive trace : config -> nat -> nat -> config -> Prop :=
  | trace_nil c : trace c 0 0 c
  | trace_step c k s c' i w c'' : trace c k s c' -> step i w c' = Some c'' -> trace c (S k) s c''
  | trace_spurious c k s c' i c'' : trace c k s c' -> spurious i c' = Some c'' -> trace c k (S s) c''.

Definition potential (c : config) : nat :=
  total (weight (length (threads c)) (pool c)) (threads c) + TASK * length (_list (pool c)).

Record ending (c : config) : Prop := mkEnding {
  en_safe : safe c;
  en_calls : all_permit fixed_threads c;
  en_found : forall t, t ∈ threads c -> found (pool c) t }.

Lemma weight_wake N p t : weight N p (wake t) <= weight N p t + 4.
Proof. destruct t as [q cs]. unfold weight. destruct q; cbn; lia. Qed.

Lemma deliver_weight N p n k ts ts' :
  deliver n k ts = Some ts' -> length ts = N -> total (weight N p) ts' <= total (weight N p) ts + notice N n.
Proof.
  intros H HN. destruct n as [| c | c]; cbn in H |- *.
  - injection H as <-. lia.
  - destruct (existsb _ _); [| injection H as <-; lia]. destruct (ts !! k) as [t |] eqn:E; [| done].
    destruct (sleeps c t); [| done]. injection H as <-. pose proof (total_insert (weight N p) ts k t (wake t) E).
    pose proof (weight_wake N p t). lia.
  - injection H as <-. rewrite total_fmap. unfold ALL. rewrite <- HN at 2. apply total_le.
    intros t. destruct (sleeps c t); [apply weight_wake | lia].
Qed.

Lemma change_weight N p p' q ts :
  (change N q = 0 -> forall q', extra p' q' = extra p q') -> change N q = 0 \/ change N q = CHANGE N -> length ts = N ->
  total (weight N p') ts <= total (weight N p) ts + change N q.
Proof.
  intros H0 H HN. destruct H as [H | H]; rewrite H.
  - rewrite Nat.add_0_r. apply total_mono. intros t. unfold weight. by rewrite H0.
  - unfold CHANGE. rewrite <- HN at 3. apply total_le. intros t. unfold weight. pose proof (extra_le p p' (at_pc t)). lia.
Qed.

Lemma found_outside i t p p' t' n new u :
  exec i t p = Some (p', t', n, new) -> permits fixed_threads t = true -> in_section (at_pc t) = false -> found p u -> found p' u.
Proof.
  intros He Hp Hin. destruct (exec_outside _ _ _ _ _ _ _ He Hp Hin) as (Hl & _ & Ht & Hc & _).
  unfold found, need_delete. by rewrite Hl, Ht, Hc.
Qed.

Lemma step_ending i k c c' : ending c -> step i k c = Some c' -> ending c' /\ potential c' < potential c.
Proof.
  intros [Hs Hp Hf] H. pose proof H as Hst. apply step_sums in H as (t & t' & n & ts & Hi & He & Hd & Hsum); [| done].
  assert (Hin : t ∈ threads c) by (by eapply list_elem_of_lookup_2). split; [split |].
  - by eapply step_safe.
  - eapply transition_permits; [exact Hp | by eapply stepped].
  - refine (step_each found _ _ _ _ Hst _ Hf _).
    { intros p u. unfold found. rewrite wake_at. by destruct (at_pc u). }
    intros v v' n' new' Hv He'. assert (v = t) as -> by congruence. rewrite He in He'. injection He' as <- <- <-.
    split; [by apply (exec_found _ _ _ _ _ _ _ He), Hf |]. split; [done |]. intros j u Hne Hj Hu.
    destruct (in_section (at_pc u)) eqn:Hsec; [| unfold found in *; by destruct (at_pc u)].
    eapply found_outside; [exact He | by apply Hp | by eapply (alone c i j) | done].
  - pose proof (deliver_length _ _ _ _ Hd) as Hlen. unfold potential. rewrite Hlen.
    assert (Hts : length ts = length (threads c)).
    { pose proof (Hsum (fun _ => 1)) as H1. assert (Hone : forall l, total (fun _ => 1) l = length l) by (intros l; unfold total; induction l; cbn; lia).
      rewrite !Hone in H1. lia. }
    rewrite Hts. set (N := length (threads c)) in *.
    pose proof (exec_energy N _ _ _ _ _ _ _ He (Hp t Hin) (Hf t Hin)) as Hen.
    pose proof (deliver_weight N (pool c') _ _ _ _ Hd Hts) as Hdel.
    pose proof (Hsum (weight N (pool c'))) as Hw.
    assert (HN : N <> 0) by (apply lookup_lt_Some in Hi; unfold N; lia).
    assert (Hext : change N (at_pc t) = 0 -> forall q, extra (pool c') q = extra (pool c) q).
    { intros Hc q. by eapply (exec_extra N); [exact He | apply Hp | ..]. }
    assert (Hsame : weight N (pool c') t = weight N (pool c) t).
    { unfold weight. destruct (decide (change N (at_pc t) = 0)) as [Hc | Hc]; [by rewrite Hext |]. by destruct (at_pc t). }
    pose proof (change_weight N (pool c) (pool c') (at_pc t) (threads c) Hext) as Hch.
    assert (change N (at_pc t) = 0 \/ change N (at_pc t) = CHANGE N) as Hz by (destruct (at_pc t); cbn; auto).
    specialize (Hch Hz eq_refl). lia.
Qed.

Lemma spurious_ending i c c' : ending c -> spurious i c = Some c' -> ending c' /\ potential c' <= potential c + 4.
Proof.
  intros [Hs Hp Hf] H. split; [split |].
  - by eapply spurious_safe.
  - eapply transition_permits; [exact Hp | by eapply awoken].
  - refine (spurious_each found _ _ _ H _ Hf). intros p u. unfold found. rewrite wake_at. by destruct (at_pc u).
  - apply spurious_inv in H as (t & k & Hi & _ & ->). unfold potential. cbn. rewrite length_insert.
    pose proof (total_insert (weight (length (threads c)) (pool c)) _ _ _ (wake t) Hi).
    pose proof (weight_wake (length (threads c)) (pool c) t). lia.
Qed.

Lemma started_ending n m css : forallb (forallb fixed_threads) css = true -> ending (started n m css).
Proof.
  intros Hcs. pose proof (started_bounded n m css Hcs) as [Hs Hp _ _]. split; [done | done |].
  intros t Ht. cbn in Ht. apply elem_of_app in Ht as [Ht | Ht].
  - by apply elem_of_replicate in Ht as [-> _].
  - by apply list_elem_of_fmap in Ht as (cs & -> & _).
Qed.

(** From any configuration some schedule leads to a quiet one. *)
Lemma reaches_quiet c : ending c -> exists c', steps c c' /\ quiet c'.
Proof.
  remember (potential c) as m eqn:Hm. revert c Hm. induction (lt_wf m) as [m _ IH]. intros c -> He.
  pose proof (quietb_spec c) as Hq. destruct (quietb c); [exists c; split; [constructor | done] |].
  destruct Hq as (i & w & c' & H). destruct (step_ending _ _ _ _ He H) as [He' Hlt].
  destruct (IH _ Hlt c' eq_refl He') as (c'' & Hrun & Hq). exists c''. split; [| done].
  eapply steps_trans; [by eapply steps_one | exact Hrun].
Qed.

(** The bound of [runs_end]. *)
Definition bound (n max_tasks : nat) (clients : list (list call)) : nat := potential (started n max_tasks clients).

(** C26. While the number of threads is not changed, a run of [n] workers and any clients makes at most
    [bound] steps, and four more for each spurious wakeup: submitters, workers and shutdowns cannot
    wake each other for ever; and every run can be continued to a configuration where nothing can happen any more. *)
Theorem runs_end (n max_tasks : nat) (clients : list (list call)) (k s : nat) (c : config) :
  forallb (forallb fixed_threads) clients = true -> trace (started n max_tasks clients) k s c ->
  k <= bound n max_tasks clients + 4 * s /\ exists c', steps c c' /\ quiet c'.
Proof.
  intros Hcs Ht. pose proof (started_ending n max_tasks clients Hcs) as He. unfold bound.
  assert (ending c /\ potential c + k <= potential (started n max_tasks clients) + 4 * s) as [Hc Hle]; [| split; [lia | by apply reaches_quiet]].
  remember (started n max_tasks clients) as c0 eqn:E0. clear E0. induction Ht as [c0 | c0 k s c' i w c'' Ht IH H | c0 k s c' i c'' Ht IH H].
  - split; [done | lia].
  - destruct (IH He) as [He' Hle]. destruct (step_ending _ _ _ _ He' H). split; [done | lia].
  - destruct (IH He) as [He' Hle]. destruct (spurious_ending _ _ _ He' H). split; [done | lia].
Qed.

Lemma runs_end_witness :
  0 <= bound 2 1 [[Submit; Stop]; [Start; Shutdown]] + 4 * 0 /\
  exists c', steps (started 2 1 [[Submit; Stop]; [Start; Shutdown]]) c' /\ quiet c'.
Proof. apply (runs_end 2 1 [[Submit; Stop]; [Start; Shutdown]] 0 0); [reflexivity | constructor]. Defined.
