(* ===== verification/ThreadPoolRaces.v ===== *)
(** * ThreadPoolRaces: schedules on which the pool does not do what it means to

    Each example is one interleaving, without spurious wakeups, that the model computes. *)

From S2P Require Import Prelude ThreadPool ThreadPoolSafety ThreadPoolBounds ThreadPoolLiveness.

(** What a schedule ends with: the configuration, and whether anything can still happen. *)
Definition ends (schedule : list (nat * nat)) (c : config) : option (config * bool) :=
  c ← run schedule c; Some (c, quietb c).

Definition place (i : nat) (c : config) : option pc := at_pc <$> threads c !! i.

(** The constructor returns when the first worker has set [create_done]; the worker stores
    [RUNNING] later.  A [submit] in between throws. *)
Example submit_after_constructor_throws :
  match run (times 5 0 ++ times 2 1 ++ times 7 0) (fresh 1 [[ResizeThreads 1; Submit]]) with
  | Some c => submitted (pool c) = 0 /\ place 0 c = Some Idle /\ place 1 c = Some Begin_notify
  | None => False
  end.
Proof. vm_compute. auto. Qed.

(** A [shutdown] in between returns at once, and the worker goes on. *)
Example shutdown_after_constructor_returns :
  match run (times 5 0 ++ times 2 1 ++ times 6 0) (fresh 1 [[ResizeThreads 1; Shutdown]]) with
  | Some c => place 0 c = Some Idle /\ place 1 c = Some Begin_notify /\
              let c := drive 20 c in quietb c = true /\ _state (pool c) = RUNNING /\ place 1 c = Some (Sleep ForTask)
  | None => False
  end.
Proof. vm_compute. auto 10. Qed.

(** [thread_end] stores and notifies without the lock: [shutdown] tests before the store and sleeps
    after the notification. *)
Example shutdown_misses_the_end :
  match ends (times 9 1 ++ [(0, 1); (0, 1)] ++ times 3 0 ++ times 2 1 ++ times 3 0 ++ times 1 1) (started 1 1 [[Shutdown]]) with
  | Some (c, q) => q = true /\ _state (pool c) = TERMINATED /\ place 0 c = Some Exited /\ place 1 c = Some (Sleep ForEnd)
  | None => False
  end.
Proof. vm_compute. auto. Qed.

(** [start] reads [STOP] before it takes the lock; a shutdown in between is undone, the pool runs without
    workers, accepts a task, and the next shutdown waits for ever. *)
Example start_revives_a_terminated_pool :
  match ends (times 4 1 ++ times 2 2 ++ times 9 3 ++ [(0, 3); (0, 3)] ++ times 6 0 ++ times 2 3 ++ times 4 2 ++ times 15 3)
          (started 1 1 [[Stop]; [Start]; [Shutdown; Submit; Shutdown]]) with
  | Some (c, q) => q = true /\ _core_threads (pool c) = 0%Z /\ submitted (pool c) = 1 /\ place 3 c = Some (Sleep ForEnd)
  | None => False
  end.
Proof. vm_compute. auto. Qed.

(** [stop] overwrites [TERMINATED]: the shutdown that waits for it sleeps for ever, spurious wakeups or not. *)
Example stop_overwrites_terminated :
  match ends (times 2 1 ++ times 9 2 ++ [(0, 2); (0, 2)] ++ times 6 0 ++ times 2 1 ++ times 3 2) (started 1 1 [[Stop]; [Shutdown]]) with
  | Some (c, q) => q = true /\ _state (pool c) = STOP /\ place 0 c = Some Exited /\ place 2 c = Some (Sleep ForEnd)
  | None => False
  end.
Proof. vm_compute. auto. Qed.

(** [clear_task] makes room and notifies nobody. *)
Example clear_wakes_nobody :
  match ends (times 4 0 ++ times 6 1 ++ times 4 2 ++ times 3 3 ++ times 3 0) (started 1 1 [[Submit]; [Submit]; [Clear]]) with
  | Some (c, q) => q = true /\ _state (pool c) = RUNNING /\ _list (pool c) = [] /\ place 2 c = Some (Sleep ForRoom)
  | None => False
  end.
Proof. vm_compute. auto. Qed.

(** So does [resize_max_queue]. *)
Example resize_queue_wakes_nobody :
  match ends (times 4 0 ++ times 4 1 ++ times 3 2) (started 1 0 [[Submit]; [ResizeQueue 1]]) with
  | Some (c, q) => q = true /\ has_room (pool c) = true /\ place 1 c = Some (Sleep ForRoom)
  | None => False
  end.
Proof. vm_compute. auto. Qed.

(** And when it shrinks the queue it drops tasks: neither run nor killed. *)
Example resize_queue_drops_tasks :
  match run (times 15 1) (started 1 2 [[Submit; Submit; ResizeQueue 1]]) with
  | Some c => _list (pool c) = [0] /\ dropped (pool c) = [1]
  | None => False
  end.
Proof. vm_compute. auto. Qed.

(** [resize_core_threads] stores and notifies without the lock: a worker between its test and its sleep stays. *)
Example shrinking_misses_a_worker :
  match ends (times 3 0 ++ times 5 1 ++ times 1 0) (started 1 1 [[ResizeThreads 0]]) with
  | Some (c, q) => q = true /\ _target_thread_size (pool c) = 0%Z /\ _core_threads (pool c) = 1%Z /\ place 0 c = Some (Sleep ForTask)
  | None => False
  end.
Proof. vm_compute. auto. Qed.

(** From before the constructor to a running pool with two workers that wait. *)
Example constructor_starts_workers :
  let c := drive 100 (fresh 4 [[ResizeThreads 2]]) in
  quietb c = true /\ _state (pool c) = RUNNING /\ _core_threads (pool c) = 2%Z /\
  place 1 c = Some (Sleep ForTask) /\ place 2 c = Some (Sleep ForTask).
Proof. vm_compute. auto 10. Qed.
