(* ===== verification/OrderedFile.v ===== *)
(** * OrderedFile: what a client of a B+ tree relies on

    The interface between the tree (BPTree.v) and the classes that keep one: a file of pairs
    that answers every call as the sorted list of its pairs does.  Its clients are proved against
    the class; [tree_file] is the instance by the tree itself. *)

From stdpp Require Import gmap.
From S2P Require Import Prelude Packed BPTree BPTreeSpec BPTreeInsert BPTreeSession.
Local Open Scope Z_scope.

(** The calls are those of [BPTree]; [file_erase_range] is [erase(begin, end)]. *)
Class OrderedFile (T K V : Type) := {
  file_call : call K V -> T -> res (answer K V * T);
  file_erase_range : K -> K -> T -> res (bool * T);
  file_pairs : T -> list (K * V);
}.

Definition any_size {V : Type} (_ : V) : bool := true.

(** Nothing is promised of the erasure of a range: across leaves it loses pairs. *)
Class OrderedFileLaws (T K V : Type) `{KeyOrder K, !OrderedFile T K V} := {
  file_ok : T -> Prop;
  file_sorted (t : T) : file_ok t -> sorted (file_pairs t);
  file_calls (t : T) (c : call K V) : file_ok t ->
    exists a t', file_call c t = Ret (a, t') /\ answers any_size (file_pairs t) c a /\
      file_ok t' /\ file_pairs t' = spec_update any_size (file_pairs t) c;
}.

(** ** The functions of [BPTree], by their names *)

Section Calls.
Context {T K V : Type} `{!OrderedFile T K V}.

Definition file_one (c : call K V) (t : T) : res (option (K * V) * T) :=
  '(a, t) ← file_call c t; match a with One o => Ret (o, t) | _ => Fault BadPointer end.
Definition file_many (c : call K V) (t : T) : res (list (K * V) * T) :=
  '(a, t) ← file_call c t; match a with Many l => Ret (l, t) | _ => Fault BadPointer end.
Definition file_done (c : call K V) (t : T) : res (bool * T) :=
  '(a, t) ← file_call c t; match a with Done b => Ret (b, t) | _ => Fault BadPointer end.

Definition file_find (key : K) : T -> res (option (K * V) * T) := file_one (Find key).
Definition file_find_range (first stop : K) : T -> res (list (K * V) * T) := file_many (FindRange first stop MAX_ULLONG).
Definition file_above_or_equal (key : K) : T -> res (list (K * V) * T) := file_many (AboveOrEqual key MAX_ULLONG).
Definition file_below (key : K) (limit : Z) : T -> res (list (K * V) * T) := file_many (Below key limit).
Definition file_search_from_begin (limit : Z) : T -> res (list (K * V) * T) := file_many (SearchFromBegin limit).
Definition file_search_from_end (limit : Z) : T -> res (list (K * V) * T) := file_many (SearchFromEnd limit).
Definition file_insert (key : K) (value : V) : T -> res (bool * T) := file_done (Insert key value).
Definition file_update (key : K) (value : V) : T -> res (bool * T) := file_done (Update key value).
End Calls.

Section Laws.
Context {T K V : Type} `{EqDecision K, KeyOrderLaws K, !OrderedFile T K V, !OrderedFileLaws T K V}.
Implicit Types (t : T) (key : K) (v : V) (es : list (K * V)).
Abbreviation pairs_of := (file_pairs (T := T) (K := K) (V := V)).
Abbreviation ok := (file_ok (T := T) (K := K) (V := V)).

Lemma file_find_ok key t : ok t ->
  exists t' : T, file_find (V := V) key t = Ret (found key (pairs_of t), t') /\ ok t' /\ pairs_of t' = pairs_of t.
Proof.
  intros Ht. destruct (file_calls t (Find key) Ht) as (a & t' & Hc & Ha & Ht' & He). exists t'.
  unfold file_find, file_one. rewrite Hc, bind_ret. inversion Ha; subst. by split.
Qed.

Lemma file_insert_ok key value t : ok t ->
  exists t' : T, file_insert key value t = Ret (bool_decide (found key (pairs_of t) = None), t') /\ ok t' /\
    pairs_of t' = match found key (pairs_of t) with None => ordered_insert key value (pairs_of t) | Some _ => pairs_of t end.
Proof.
  intros Ht. destruct (file_calls t (Insert key value) Ht) as (a & t' & Hc & Ha & Ht' & He). exists t'.
  unfold file_insert, file_done. rewrite Hc, bind_ret. inversion Ha; subst. split; [| by split].
  cbn [any_size andb]. by destruct (found key (pairs_of t)).
Qed.

Lemma file_update_ok key value t : ok t ->
  exists t' : T, file_update key value t = Ret (fst (replaced any_size key (fun _ => value) (pairs_of t)), t') /\ ok t' /\
    pairs_of t' = snd (replaced any_size key (fun _ => value) (pairs_of t)).
Proof.
  intros Ht. destruct (file_calls t (Update key value) Ht) as (a & t' & Hc & Ha & Ht' & He). exists t'.
  unfold file_update, file_done. rewrite Hc, bind_ret. inversion Ha; subst. by split.
Qed.

(** ** Sorted pairs as a map *)

Definition value_of (es : list (K * V)) key : option V := snd <$> found key es.

Lemma found_some es key k (v : V) : found key es = Some (k, v) -> k = key /\ (key, v) ∈ es.
Proof.
  unfold found. destruct (es !! lb_index key es) as [[j x] |] eqn:E; [| done]. destruct (keq j key) eqn:Hk; [| done].
  intros [= -> ->]. apply keq_eq in Hk as ->. split; [reflexivity |]. eapply list_elem_of_lookup_2; exact E.
Qed.

Lemma value_of_some es key v : value_of es key = Some v -> (key, v) ∈ es.
Proof.
  unfold value_of. destruct (found key es) as [[k x] |] eqn:E; [| done]. intros [= ->]. by apply (found_some es key k).
Qed.

Lemma found_cons e es key : found key (e :: es) = if klt e.1 key then found key es else if keq e.1 key then Some e else None.
Proof. unfold found. simpl. destruct (klt e.1 key); [done |]. simpl. by destruct e. Qed.

Lemma sorted_tail (e : K * V) es : sorted (e :: es) -> sorted es /\ all_above e.1 es.
Proof. intros Hs. inversion Hs as [| ? ? Ht Hf]; subst. split; [done |]. intros x Hx. rewrite list.Forall_forall in Hf. by apply Hf. Qed.

Lemma sorted_keys es : sorted es -> NoDup es.*1.
Proof.
  induction es as [| e es IH]; intros Hs; [constructor |]. apply sorted_tail in Hs as [Hs Ha]. apply list.NoDup_cons. split; [| by apply IH].
  intros (x & Hx & Hin)%list_elem_of_fmap. specialize (Ha _ Hin). by rewrite <- Hx, klt_irrefl in Ha.
Qed.

Lemma found_in es key v : sorted es -> (key, v) ∈ es -> found key es = Some (key, v).
Proof.
  induction es as [| e es IH]; intros Hs Hin; [by apply not_elem_of_nil in Hin |]. apply sorted_tail in Hs as [Hs Ha].
  rewrite found_cons. apply elem_of_cons in Hin as [<- | Hin]; [by rewrite klt_irrefl, keq_refl |].
  specialize (Ha _ Hin). simpl in Ha. rewrite Ha. by apply IH.
Qed.

Lemma value_of_elem es key v : sorted es -> value_of es key = Some v <-> (key, v) ∈ es.
Proof. intros Hs. split; [apply value_of_some |]. intros Hin. unfold value_of. by rewrite (found_in es key v). Qed.

Lemma found_value_none es key : found key es = None <-> value_of es key = None.
Proof. unfold value_of. by destruct (found key es). Qed.

Lemma ordered_insert_elem es key v e : e ∈ ordered_insert key v es <-> e = (key, v) \/ e ∈ es.
Proof.
  assert (He : e ∈ es <-> e ∈ take (lb_index key es) es \/ e ∈ drop (lb_index key es) es) by (by rewrite <- elem_of_app, take_drop).
  unfold ordered_insert. rewrite elem_of_app, elem_of_cons. tauto.
Qed.

Lemma ordered_insert_cons e es key v :
  ordered_insert key v (e :: es) = if klt e.1 key then e :: ordered_insert key v es else (key, v) :: e :: es.
Proof. unfold ordered_insert. simpl. by destruct (klt e.1 key). Qed.

Lemma value_insert es key v k : sorted (ordered_insert key v es) -> sorted es ->
  value_of (ordered_insert key v es) k = if decide (k = key) then Some v else value_of es k.
Proof.
  intros Hs Hs'. case_decide as Hk; [subst; apply value_of_elem; [done |]; apply ordered_insert_elem; by left |].
  apply option_eq. intros x. rewrite !value_of_elem, ordered_insert_elem by done. split; [| by right]. intros [[= -> ->] |]; done.
Qed.

Lemma value_replaced es key v k : sorted es -> sorted (snd (replaced any_size key (fun _ => v) es)) -> is_Some (value_of es key) ->
  value_of (snd (replaced any_size key (fun _ => v) es)) k = if decide (k = key) then Some v else value_of es k.
Proof.
  intros Hs Hs' [x Hx]. unfold replaced in *. unfold value_of in Hx. destruct (found key es) as [[j y] |] eqn:E; [| done].
  pose proof E as E'. apply found_some in E as [-> Hin]. simpl in *. unfold found in E'. destruct (es !! lb_index key es) as [[i z] |] eqn:El; [| done].
  destruct (keq i key) eqn:Hk; [| done]. injection E' as -> ->.
  assert (Hlen : (lb_index key es < length es)%nat) by (by eapply lookup_lt_Some).
  assert (Hmem : forall e, e ∈ <[lb_index key es := (key, v)]> es <-> e = (key, v) \/ e ∈ es /\ e.1 <> key).
  { intros e. rewrite !list_elem_of_lookup. split.
    - intros [i Hi]. apply list_lookup_insert_Some in Hi as [(<- & -> & _) | [Hne Hi]]; [by left |]. right. split; [by eexists |].
      intros Hkey. destruct e as [k' x']. simpl in Hkey. subst k'. apply list_elem_of_lookup_2 in Hi as Hin'.
      apply (found_in es key x' Hs) in Hin'. unfold found in Hin'. rewrite El, Hk in Hin'. injection Hin' as ->.
      pose proof (sorted_keys es Hs) as Hnd.
      apply Hne. eapply NoDup_lookup; [exact Hnd | by rewrite list_lookup_fmap, El | by rewrite list_lookup_fmap, Hi].
    - intros [-> | [[i Hi] Hne]]; [exists (lb_index key es); by apply list_lookup_insert_eq |].
      exists i. rewrite list_lookup_insert_ne; [done |]. intros <-. rewrite El in Hi. injection Hi as <-. done. }
  case_decide as Hkk; [subst; apply value_of_elem; [done |]; apply Hmem; by left |].
  apply option_eq. intros w. rewrite !value_of_elem, Hmem by done. split; [intros [[= ? ?] | []]; done | intros; right; by split].
Qed.

(** The pairs of a range. *)
Lemma range_elem es (first stop : K) e : sorted es -> klt stop first = false ->
  e ∈ (let from := drop (lb_index first es) es in take (lb_index stop from) from) <->
  e ∈ es /\ klt e.1 first = false /\ klt e.1 stop = true.
Proof.
  intros Hs Hle. cbn zeta.
  assert (Htake : forall l key, sorted l -> e ∈ take (lb_index key l) l <-> e ∈ l /\ klt e.1 key = true).
  { clear -H0. induction l as [| a l IH]; intros key Hs; simpl; [split; [by intros ?%not_elem_of_nil | by intros [?%not_elem_of_nil _]] |].
    apply sorted_tail in Hs as [Hs Ha]. destruct (klt a.1 key) eqn:Hk; simpl.
    - rewrite !elem_of_cons, IH by done. split; [intros [-> | []]; auto | intros [[-> |] ?]; auto].
    - split; [by intros ?%not_elem_of_nil |]. intros [[-> | Hin]%elem_of_cons Hlt]; [congruence |].
      specialize (Ha _ Hin). rewrite (klt_trans _ _ _ Ha Hlt) in Hk. done. }
  assert (Hdrop : forall l key, sorted l -> e ∈ drop (lb_index key l) l <-> e ∈ l /\ klt e.1 key = false).
  { clear -H0. induction l as [| a l IH]; intros key Hs; simpl; [split; [by intros ?%not_elem_of_nil | by intros [?%not_elem_of_nil _]] |].
    apply sorted_tail in Hs as [Hs Ha]. destruct (klt a.1 key) eqn:Hk; simpl.
    - rewrite !elem_of_cons, IH by done. split; [intros []; auto | intros [[-> |] ?]; [congruence | auto]].
    - rewrite !elem_of_cons. split; [| by intros []]. intros Hin. split; [done |]. destruct Hin as [-> | Hin]; [done |].
      specialize (Ha _ Hin). destruct (klt e.1 key) eqn:Hlt; [| done]. rewrite (klt_trans _ _ _ Ha Hlt) in Hk. done. }
  assert (Hsd : forall n (l : list (K * V)), sorted l -> sorted (drop n l)).
  { clear -H0. induction n as [| n IH]; intros [| a l] Hs; [done.. |]. simpl. apply IH. by apply sorted_tail in Hs as [Hs _]. }
  rewrite Htake, Hdrop by auto. tauto.
Qed.

Lemma file_find_range_ok (first stop : K) t : ok t -> klt first stop = true -> zlen (pairs_of t) <= MAX_ULLONG ->
  exists rs (t' : T), file_find_range first stop t = Ret (rs, t') /\ ok t' /\ pairs_of t' = pairs_of t /\ NoDup rs.*1 /\
    forall key v, (key, v) ∈ rs <-> value_of (pairs_of t) key = Some v /\ klt key first = false /\ klt key stop = true.
Proof.
  intros Ht Hlt Hlen. destruct (file_calls t (FindRange first stop MAX_ULLONG) Ht) as (a & t' & Hc & Ha & Ht' & He).
  assert (Hle : klt stop first = false).
  { destruct (klt stop first) eqn:E; [| done]. by rewrite <- (klt_irrefl first), (klt_trans _ _ _ Hlt E). }
  assert (Hk : keq first stop = false).
  { destruct (keq first stop) eqn:E; [| done]. apply keq_eq in E as ->. by rewrite klt_irrefl in Hlt. }
  pose proof (file_sorted _ Ht) as Hs.
  set (rs := take (lb_index stop (drop (lb_index first (pairs_of t)) (pairs_of t))) (drop (lb_index first (pairs_of t)) (pairs_of t))).
  assert (Hrs : (length rs <= Z.to_nat MAX_ULLONG)%nat) by (unfold rs; rewrite length_take, length_drop; unfold zlen in Hlen; lia).
  assert (a = Many rs) as ->.
  { inversion Ha; subst. rewrite Hle, Hk. cbn [orb]. f_equal. unfold take_limit. by apply take_ge. }
  exists rs, t'. unfold file_find_range, file_many. rewrite Hc, bind_ret. split; [done |]. split; [done |]. split; [done |].
  split; [| intros key v; rewrite value_of_elem by done; by apply (range_elem (pairs_of t) first stop (key, v))].
  eapply sublist_NoDup; [by apply sorted_keys |]. apply fmap_sublist. unfold rs. etrans; [apply sublist_take | apply sublist_drop].
Qed.
End Laws.

(** ** The tree as a file *)

Section Tree.
Context {K V : Type} `{KeyOrderLaws K}.
Context (DS IS : sizes) (new_index : gmap Z (block (K := K) (V := V)) -> Z).
Abbreviation state := (tree_state (K := K) (V := V)).

Definition leaf_pairs (s : state) : list (K * V) :=
  flat_map (fun i => match heap s !! i with Some (Data l) => l | _ => [] end) (chain s).

Definition tree_file : OrderedFile state K V := {|
  file_call c s := run_call DS IS new_index any_size (fuel_of s) c s;
  file_erase_range first stop s := BPTree.erase_range DS IS (fuel_of s) first stop s;
  file_pairs := leaf_pairs |}.

Lemma stores_pairs s es : stores DS IS s es -> leaf_pairs s = es.
Proof.
  intros [Hheap Hchain Hbegin | h t Hh]; unfold leaf_pairs; [by rewrite Hchain |].
  rewrite (holds_chain _ _ _ _ _ Hh). unfold elems, pairs.
  assert (Hm : forall j l, (j, l) ∈ leafs t -> heap s !! j = Some (Data l)).
  { intros j l Hj. by apply (leaves_mem _ _ (holds_leaves _ _ _ _ _ Hh)). }
  induction (leafs t) as [| [j l] ls IH]; [done |]. simpl. rewrite (Hm j l) by left. f_equal.
  apply IH. intros j' l' Hj. apply Hm. by right.
Qed.

Context (roomD : room DS 1) (roomI : room IS 2) (new_index_fresh : forall m, m !! new_index m = None).

Definition tree_file_laws : @OrderedFileLaws state K V _ tree_file.
Proof.
  refine (@Build_OrderedFileLaws state K V _ tree_file (fun s => stores DS IS s (leaf_pairs s)) _ _).
  - intros s Hs. by eapply stores_sorted.
  - intros s c Hs. destruct (call_ok DS IS new_index any_size roomD roomI new_index_fresh s (leaf_pairs s) (fuel_of s) c Hs) as (a & s' & Hr & Ha & Hs'); [lia |].
    exists a, s'. split; [done |]. split; [done |]. cbn [file_pairs tree_file]. by rewrite (stores_pairs s' _ Hs').
Defined.
End Tree.
