(* ===== verification/LRUCalm.v ===== *)
(** * LRUCalm: the cache over a helper that does not throw

    When no function of the helper throws and the helper has room for a value as soon as the
    cache is empty, a client that holds nothing can get any key: [get] evicts until there is
    room.  [fetch], [assign] and [write_back] are the uses of the cache its clients make. *)

From stdpp Require Import gmap.
From S2P Require Import Prelude LRUCache LRUSpec LRUSession.
Local Open Scope Z_scope.

Section Calm.
Context {St Key Value Content : Type} `{Countable Key} `{!CacheHelper St Key Value}
  `{!HelperLaws St Key Value Content}.

Abbreviation cache := (Cache St Key Value).
Abbreviation run := (M (St := St) (Key := Key) (Value := Value)).
#[local] Existing Instance M_ret.
#[local] Existing Instance M_bind.

Definition returns {S A : Type} (o : outcome S A) : Prop := match o with Threw _ => False | _ => True end.

Definition calm {A} (m : run A) : Prop := forall c, returns (m c).

Definition nothing_held (c : cache) : Prop := forall k, pins c k = 0.

(** ** A client that holds at most one value

    [resting]: nothing is held, nothing unannounced; what the helper would deliver is read. *)

Record resting (c : cache) : Prop := {
  resting_inv : lru_inv ∅ c;
  resting_pins : nothing_held c;
  resting_reads : reading (settings (_helper c)) = true;
}.

(** Between [get] and [put]. *)
Record holding (k : Key) (c : cache) : Prop := {
  holding_inv : exists W, lru_inv W c /\ W ⊆ {[k]};
  holding_pins j : pins c j = upd k 1 (fun _ => 0) j;
  holding_reads : reading (settings (_helper c)) = true;
}.

Lemma keeps_out {A} (m : run A) (c : cache) a c' : keeps m -> m c = Done a c' -> settings (_helper c') = settings (_helper c).
Proof. intros Hk Hm. specialize (Hk c). unfold keeps_settings in Hk. rewrite Hm in Hk. exact Hk. Qed.

Lemma holding_node k c : holding k c -> exists n, _map c !! k = Some n /\ instantiated_size n = 1.
Proof.
  intros Hu. pose proof (holding_pins _ _ Hu k) as Hp. unfold upd in Hp. rewrite decide_True in Hp by done.
  unfold pins in Hp. destruct (_map c !! k) as [n |]; [by exists n | done].
Qed.

(** A write through the pointer; [g] is what it means for the contents. *)
Lemma assign_ok c k f (g : Content -> Content) :
  (forall v : Value, f v = poke (g (content v)) v) -> holding k c ->
  exists c', write_value k f c = Done tt c' /\ holding k c' /\
    (forall j, view c' j = upd k (g (view c k)) (view c) j) /\ settings (_helper c') = settings (_helper c).
Proof.
  intros Hf Hu. destruct (holding_node k c Hu) as (n & Hn & H1). destruct Hu as [(W & Hinv & HW) Hp Hr].
  assert (He : write_value k f c = write_value k (poke (g (view c k))) c).
  { assert (Hnode : node k c = Done n c) by (unfold node; rewrite bind_app; cbn [gets id]; by rewrite Hn).
    unfold write_value. rewrite !bind_app, !Hnode, Hf. do 3 f_equal. unfold view. by rewrite Hn. }
  pose proof (write_ok W c k n (g (view c k)) Hinv Hn ltac:(lia)) as Hw. unfold wp in Hw. rewrite <- He in Hw.
  destruct (write_value k f c) as [[] c' | |] eqn:E; [| done..]. destruct Hw as (Hi & Hv & Hpins).
  pose proof (keeps_out _ _ _ _ (write_value_keeps k f) E) as Hs.
  exists c'. split; [done |]. split; [| done]. split; [exists ({[k]} ∪ W); split; [done | set_solver] | intros j; by rewrite Hpins | by rewrite Hs].
Qed.

Lemma return_ok c k now : holding k c ->
  exists c', put k true now c = Done tt c' /\ resting c' /\ (forall j, view c' j = view c j) /\
    settings (_helper c') = settings (_helper c).
Proof.
  intros Hu. destruct (holding_node k c Hu) as (n & Hn & H1). destruct Hu as [(W & Hinv & HW) Hp Hr].
  pose proof (lru_put_ok W c k n true now Hinv Hn ltac:(lia) ltac:(by left)) as Hput. unfold wp in Hput.
  destruct (put k true now c) as [[] c' | |] eqn:E; [| done..]. destruct Hput as (Hi & Hv & Hpins).
  pose proof (keeps_out _ _ _ _ (put_keeps k true now) E) as Hs.
  exists c'. split; [done |]. split; [| done]. split; [| | by rewrite Hs].
  - unfold announced in Hi. replace (W ∖ {[k]}) with (∅ : gset Key) in Hi by set_solver. done.
  - intros j. rewrite Hpins, H1. unfold upd. case_decide; [done |]. rewrite Hp. unfold upd. by rewrite decide_False.
Qed.

(** Nothing is waiting to be written back when [_obsolete] is empty. *)
Lemma nothing_waiting c j : resting c -> items (_obsolete c) = [] -> backing (_helper c) j = view c j.
Proof.
  intros [Hinv Hp _] Hq. unfold view. destruct (_map c !! j) as [n |] eqn:Hn; [| done].
  assert (Hz : instantiated_size n = 0) by (by rewrite <- (pins_node c j n Hn), Hp).
  symmetry. apply (core_clean _ _ (inv_core _ _ Hinv) j n Hn); [| set_solver].
  destruct (need_update n) eqn:Hnu; [| done]. destruct (inv_dirty _ _ Hinv j n Hn Hz Hnu) as [i Hi].
  destruct (inv_obs _ _ Hinv) as (_ & _ & Ht). specialize (proj2 (Ht i j)). rewrite Hn. simpl. rewrite Hi, Hq.
  intros Hin. by destruct (not_elem_of_nil (i, j) (Hin eq_refl)).
Qed.
(** ** The hypotheses on the helper *)

Context (create_calm : forall k (h : St), returns (create k h)).
Context (update_calm : forall k (v : Value) (h : St), returns (update k v h)).
Context (destroy_calm : forall (v : Value) (h : St), returns (destroy (Key := Key) v h)).
Context (room_when_empty : forall k (h : St), owns [] h -> can_create k h = true).

Lemma calm_ret {A} (a : A) : calm (mret a : run A).
Proof. by intros c. Qed.
Lemma calm_bind {A B} (m : run A) (k : A -> run B) : calm m -> (forall a, calm (k a)) -> calm (x ← m; k x).
Proof.
  intros Hm Hk c. specialize (Hm c). unfold mbind, M_bind. destruct (m c) as [a c1 | |]; [apply Hk | done..].
Qed.
Lemma calm_gets {A} (f : cache -> A) : calm (gets f).
Proof. by intros c. Qed.
Lemma calm_modify (f : cache -> cache) : calm (modify f).
Proof. by intros c. Qed.
Lemma calm_assert b : calm (assert_ b).
Proof. intros c. by destruct b. Qed.
Lemma calm_deref {A} (o : option A) : calm (deref o).
Proof. intros c. by destruct o. Qed.
Lemma calm_stuck {A} f : calm (stuck (A := A) f).
Proof. by intros c. Qed.
Lemma calm_helper {A} (f : St -> outcome St A) : (forall h, returns (f h)) -> calm (on_helper f).
Proof. intros Hf c. specialize (Hf (_helper c)). unfold on_helper. by destruct (f (_helper c)). Qed.

Create HintDb calm.
Ltac calming :=
  repeat match goal with
  | |- forall _, _ => intro
  | |- calm (mbind _ _) => apply calm_bind
  | |- calm (mret _) => apply calm_ret
  | |- calm (gets _) => apply calm_gets
  | |- calm (assert_ _) => apply calm_assert
  | |- calm (deref _) => apply calm_deref
  | |- calm (stuck _) => apply calm_stuck
  | |- calm (tell _) => apply calm_modify
  | |- calm (modify _) => apply calm_modify
  | |- calm (on_helper (create _)) => apply calm_helper, create_calm
  | |- calm (on_helper (update _ _)) => apply calm_helper, update_calm
  | |- calm (on_helper (destroy _)) => apply calm_helper, destroy_calm
  | |- calm (when _ _) => unfold when
  | |- calm (if ?b then _ else _) => destruct b
  | |- calm (match ?x with _ => _ end) => destruct x
  | |- calm _ => solve [eauto with calm]
  end.

Lemma node_calm k : calm (node k).
Proof. unfold node. calming. Qed.
Lemma set_node_calm k n : calm (set_node k n).
Proof. unfold set_node. calming. Qed.
Lemma erase_q_calm w it : calm (erase_q w it).
Proof. unfold erase_q. calming. Qed.
#[local] Hint Resolve node_calm set_node_calm erase_q_calm : calm.
Lemma map_erase_calm k : calm (map_erase k).
Proof. unfold map_erase, map_delete. calming. Qed.
Lemma emplace_check_calm : calm emplace_check.
Proof. unfold emplace_check. calming. Qed.
#[local] Hint Resolve emplace_check_calm : calm.
Lemma get_change_calm k : calm (get_change k).
Proof. unfold get_change. calming. Qed.
#[local] Hint Resolve map_erase_calm get_change_calm : calm.
Lemma evict_calm k : calm (evict k).
Proof. unfold evict. calming. Qed.
#[local] Hint Resolve evict_calm : calm.
Lemma evict_while_calm key ks : calm (evict_while key ks).
Proof. induction ks as [| k ks IH]; simpl; calming. Qed.
Lemma save_calm k : calm (save k).
Proof. unfold save. calming. Qed.
#[local] Hint Resolve save_calm : calm.
Lemma update_all_loop_calm fuel : forall it, calm (update_all_loop fuel it).
Proof. induction fuel as [| fuel IH]; intros it; simpl; calming. Qed.
#[local] Hint Resolve update_all_loop_calm : calm.
Lemma update_all_calm : calm update_all.
Proof. unfold update_all. calming. Qed.

(** ** Room *)

Lemma idle_victim W c k n : lru_inv W c -> nothing_held c -> _map c !! k = Some n -> k ∈ victims c.
Proof.
  intros Hinv Hp Hn. pose proof (Hp k) as Hz. rewrite (pins_node c k n Hn) in Hz.
  destruct (core_iter _ _ (inv_core _ _ Hinv) k n Hn Hz) as [i Hi]. pose proof (inv_core _ _ Hinv) as Hc.
  destruct (slot_home k n c W Hc Hn Hz) as [Ht Hpe]. unfold victims. rewrite !elem_of_app, !list_elem_of_filter.
  destruct (is_persistent n).
  - right. right. apply list_elem_of_fmap. exists (i, k). split; [done |].
    apply (inv_tracks W c Persistent Hinv). simpl. by rewrite Hn; simpl; rewrite Hpe.
  - assert (Hin : k ∈ (items (_temporary c)).*2).
    { apply list_elem_of_fmap. exists (i, k). split; [done |]. apply (inv_tracks W c Temporary Hinv). simpl. by rewrite Hn; simpl; rewrite Ht. }
    destruct (dirty c k); tauto.
Qed.

Lemma reserve_returns W c key : lru_inv W c -> nothing_held c -> returns (reserve_space key c).
Proof.
  intros Hinv Hp. rewrite (reserve_space_eq W) by done. unfold reserve_spec. fold (ending key).
  rewrite bind_app. cbn [gets id]. rewrite bind_app.
  pose proof (evict_while_can W key (victims c) c Hinv (victims_NoDup W c Hinv) ltac:(intros k; by apply (victims_idle W))) as He.
  pose proof (evict_while_calm key (victims c) c) as Hcalm.
  destruct (evict_while key (victims c) c) as [[] c1 | c1 | f]; [| done..].
  destruct He as (Hinv1 & Hs & Hsub & Hdr). destruct (can_create key (_helper c1)) eqn:Hcan; [by rewrite ending_can |].
  specialize (Hdr eq_refl). assert (Hempty : _map c1 = ∅).
  { apply map_eq. intros k. rewrite lookup_empty, (drained_map _ _ _ Hdr k). case_decide as Hk; [done |].
    destruct (_map c !! k) as [n |] eqn:Hn; [| done]. destruct Hk. by eapply idle_victim. }
  pose proof (core_owns _ _ (inv_core _ _ Hinv1)) as Ho. rewrite Hempty in Ho. unfold alive in Ho. rewrite map_to_list_empty in Ho.
  rewrite (room_when_empty key _ Ho) in Hcan. done.
Qed.

Lemma get_returns W c key now : lru_inv W c -> nothing_held c -> returns (get key now c).
Proof.
  intros Hinv Hp. unfold get. rewrite bind_app. cbn [gets]. destruct (_map c !! key) as [n |].
  { assert (Hm : calm (get_change key;; mret (value n))) by calming. apply Hm. }
  rewrite bind_app. pose proof (reserve_returns W c key Hinv Hp) as Hr. destruct (reserve_space key c) as [[] c1 | |]; [| done..].
  match goal with |- returns (?m c1) => assert (Hm : calm m) by calming end. apply Hm.
Qed.

(** ** Getting a value, and writing all back *)

Lemma fetch_ok c k now : resting c -> usable (settings (_helper c)) k ->
  exists v c', get k now c = Done v c' /\ content v = view c k /\ holding k c' /\
    (forall j, view c' j = view c j) /\ settings (_helper c') = settings (_helper c).
Proof.
  intros [Hinv Hp Hr] Hu. pose proof (get_returns ∅ c k now Hinv Hp) as Hret.
  assert (Hg : wp (get k now) (got ∅ c k) (fun c' => lru_inv ∅ c' /\ unseen c c') c).
  { destruct (_map c !! k) as [n |] eqn:Hn; [| by apply get_miss_ok].
    eapply lwp_mono; [apply (get_hit_ok ∅ c k n now Hinv Hn) | done | done]. rewrite <- (pins_node c k n Hn), Hp. done. }
  unfold wp in Hg. destruct (get k now c) as [v c' | c' | f] eqn:E; [| done..]. destruct Hg as [Hi Hv Hw Hpins].
  pose proof (keeps_out _ _ _ _ (get_keeps k now) E) as Hs.
  assert (Hcv : content v = view c k) by auto.
  exists v, c'. split; [done |]. split; [done |]. split; [| split; [| done]].
  - split; [| | by rewrite Hs].
    + exists ∅. unfold read_written in Hi. rewrite Hr in Hi. split; [done | set_solver].
    + intros j. rewrite Hpins. unfold upd. case_decide; [by rewrite Hp | apply Hp].
  - intros j. rewrite Hw. unfold upd. case_decide; [by subst | done].
Qed.

(** After [update_all] the helper has everything. *)
Lemma save_all_ok c : resting c ->
  exists c', update_all c = Done tt c' /\ resting c' /\ (forall j, view c' j = view c j) /\
    (forall j, backing (_helper c') j = view c j) /\ settings (_helper c') = settings (_helper c).
Proof.
  intros [Hinv Hp Hr]. pose proof (update_all_ok ∅ c Hinv) as Hu. unfold wp in Hu. pose proof (update_all_calm c) as Hcalm.
  destruct (update_all c) as [[] c' | |] eqn:E; [| done..]. destruct Hu as (Hi & [Hv Hpins] & Hclean).
  pose proof (keeps_out _ _ _ _ update_all_keeps E) as Hs.
  exists c'. split; [done |]. split; [| split; [done | split; [| done]]].
  - split; [done | intros j; by rewrite Hpins, Hp | by rewrite Hs].
  - intros j. rewrite <- Hv. unfold view. destruct (_map c' !! j) as [n |] eqn:Hn; [| done].
    assert (Hz : instantiated_size n = 0) by (by rewrite <- (pins_node c' j n Hn), Hpins, Hp).
    symmetry. apply (core_clean _ _ (inv_core _ _ Hi) j n Hn); [by eapply Hclean | set_solver].
Qed.

End Calm.
