(* ===== verification/LinkLogIndex.v ===== *)
(** * LinkLogIndex: the index of the link log's nodes (LogSystem/linkLog/src/LinkLogInterpreter.cpp)

    [LinkLogStorage] keeps its nodes in a B+ tree and looks at them through an LRU cache, whose
    helper is [LinkLogStorage::CacheHelper].  Here is that helper, over any file that keeps the
    contract of a tree (OrderedFile.v), and what the storage relies on: the cache over the tree is
    one map from [Index_Key] to [Index_Value]. *)

From stdpp Require Import gmap.
From S2P Require Import Prelude Packed BPTree BPTreeSpec BPTreeInsert BPTreeSession OrderedFile LRUCache LRUSpec LRUSession LRUCalm LinkLogFormat.
Local Open Scope Z_scope.
#[local] Existing Instance M_ret.
#[local] Existing Instance M_bind.

(** ** Keys: a [Mark] of [n] bytes in the order of [memcmp] *)

Definition mark (n : Z) : Type := { m : list Z | zlen m = n }.
Definition bytes {n} (k : mark n) : list Z := proj1_sig k.

#[export] Instance mark_dec n : EqDecision (mark n) := _.
#[export] Instance mark_countable n : Countable (mark n) := _.

Definition pad (n : nat) (l : list Z) : list Z := take n (l ++ replicate n 0).
Lemma zlen_pad n l : zlen (pad n l) = Z.of_nat n.
Proof. unfold zlen, pad. rewrite length_take, length_app, length_replicate. lia. Qed.
Definition mark_from (n : nat) (l : list Z) : mark (Z.of_nat n) := exist _ (pad n l) (zlen_pad n l).

Lemma bytes_mark_from n l : zlen l = Z.of_nat n -> bytes (mark_from n l) = l.
Proof.
  intros Hl. unfold bytes, mark_from, pad. simpl. unfold zlen in Hl. rewrite take_app_le by lia. apply take_ge. lia.
Qed.

Lemma mark_ext {n} (a b : mark n) : bytes a = bytes b -> a = b.
Proof. intros H. by apply (proj2 (sig_eq_pi _ a b)). Qed.

#[export] Instance mark_order n : KeyOrder (mark n) := {|
  klt a b := mark_less (bytes a) (bytes b); keq a b := mark_equal (bytes a) (bytes b) |}.

Lemma same_length {n} (a b : mark n) : length (bytes a) = length (bytes b).
Proof. destruct a as [a Ha], b as [b Hb]. unfold zlen in *. simpl. lia. Qed.

#[export] Instance mark_order_laws n : KeyOrderLaws (mark n).
Proof.
  split; unfold klt, keq, mark_order, mark_less; intros.
  - by rewrite memcmp_refl.
  - rewrite Z.ltb_lt in *. pose proof (memcmp_trans (bytes x) (bytes y) (bytes z)). eauto using same_length.
  - apply mark_ext, memcmp_eq; [apply same_length |]. rewrite Z.ltb_ge in *. pose proof (memcmp_sign (bytes x) (bytes y)). lia.
  - rewrite mark_equal_spec by apply same_length. split; [apply mark_ext | by intros ->].
Qed.

Definition index_key : Type := mark Index_Key.size.
Definition Index_Key_of (service : list Z) (init_time : Z) (node : list Z) : index_key :=
  mark_from 24 (Index_Key.make service init_time node).

(** ** CacheHelper *)

Definition CACHE_LIMIT_SIZE : Z := 3000.

(** What the helper works on: the tree [_indexes] of the storage and [_cache.total_size()].  The
    size is counted here as values are created and destroyed.  [ghost] is not in the code and
    nothing depends on it: the keys of the tree, and that the storage looks at what it gets. *)
Record index_state (T : Type) := mkIndex { _indexes : T; total_cached : Z; ghost : gset index_key * bool }.
Arguments mkIndex {T}. Arguments _indexes {T}. Arguments total_cached {T}. Arguments ghost {T}.

Section Index.
Context {T : Type} `{!OrderedFile T index_key (list Z)}.
Abbreviation state := (index_state T).
Abbreviation pairs := (file_pairs (T := T) (K := index_key) (V := list Z)).

(** [find] returns a default [Result] for a key that is not there; the log line of [CHECK] is left
    out. *)
Definition helper_create (k : index_key) (h : state) : outcome state (list Z) :=
  match file_find (V := list Z) k (_indexes h) with
  | Ret (o, t) => LRUCache.Done (default (blank Index_Value.size) (snd <$> o)) (mkIndex t (total_cached h + 1) (ghost h))
  | Fault f => Stuck f
  end.
Definition helper_update (k : index_key) (value : list Z) (h : state) : outcome state unit :=
  match file_update k value (_indexes h) with
  | Ret (_, t) => LRUCache.Done tt (mkIndex t (total_cached h) (ghost h))
  | Fault f => Stuck f
  end.

(** The helper has an [erase] and no [release]; [FunChecker] takes the second for the first, so
    [LRUCache::erase] does not call it. *)
#[export] Instance index_helper : CacheHelper state index_key (list Z) := {|
  emplace_invalidates _ := false;
  can_create k h := u32 (total_cached h) <? CACHE_LIMIT_SIZE;
  create := helper_create;
  update := helper_update;
  has_release_callable := false;
  release k v h := h;
  release_key k h := h;
  erase_notice k h := h;
  destroy v h := LRUCache.Done tt (mkIndex (_indexes h) (total_cached h - 1) (ghost h));
  set_reads b h := mkIndex (_indexes h) (total_cached h) ((ghost h).1, b);
  adjustment := unit;
  adjust _ h := h |}.

Context `{!OrderedFileLaws T index_key (list Z)}.
Abbreviation ok := (file_ok (T := T) (K := index_key) (V := list Z)).

Record index_owns (vs : list (index_key * list Z)) (h : state) : Prop := {
  owns_file : ok (_indexes h);
  owns_count : total_cached h = zlen vs;
  owns_room : zlen vs <= CACHE_LIMIT_SIZE;
  owns_keys k : k ∈ (ghost h).1 <-> is_Some (value_of (pairs (_indexes h)) k);
  owns_known k v : (k, v) ∈ vs -> k ∈ (ghost h).1;
}.

#[export] Instance index_laws : HelperLaws state index_key (list Z) (list Z).
Proof.
  refine {| content v := v; poke x v := x;
            backing h k := default (blank Index_Value.size) (value_of (pairs (_indexes h)) k);
            settings := ghost; reading s := s.2;
            usable s k := k ∈ s.1; adjustable _ _ := True; owns := index_owns |}; try done.
  - intros vs vs' h Hp [Hf Hc Hr Hk Hn].
    assert (zlen vs' = zlen vs) as Hl by (unfold zlen; by rewrite (Permutation_length Hp)).
    split; [done | lia | lia | done |]. intros k v. rewrite <- Hp. apply Hn.
  - intros k x v vs h [Hf Hc Hr Hk Hn]. rewrite zlen_cons in *. split; [done | by rewrite zlen_cons | by rewrite zlen_cons | done |].
    intros j y [[= -> ->] | Hin]%elem_of_cons; [apply (Hn k v); left | apply (Hn j y); by right].
  - intros k vs h [Hf Hc Hr Hk Hn] Hroom Hin. cbn [create index_helper]. unfold helper_create.
    destruct (file_find_ok k (_indexes h) Hf) as (t' & -> & Ht' & He).
    split_and!; [| intros j; cbn [_indexes]; by rewrite He | intros _; unfold value_of; by destruct (found k _)].
    apply Z.ltb_lt in Hroom. unfold u32, CACHE_LIMIT_SIZE in *. pose proof (zlen_nonneg vs). rewrite Z.mod_small in Hroom by lia.
    split; cbn [_indexes total_cached ghost]; [done | rewrite zlen_cons; lia | rewrite zlen_cons; unfold CACHE_LIMIT_SIZE; lia | by rewrite He |].
    intros j y [[= -> ->] | Hin']%elem_of_cons; [done | by apply (Hn j y)].
  - intros k v vs h [Hf Hc Hr Hk Hn] Hin. cbn [update index_helper]. unfold helper_update.
    destruct (file_update_ok k v (_indexes h) Hf) as (t' & -> & Ht' & He).
    pose proof (file_sorted _ Hf) as Hs. pose proof (file_sorted _ Ht') as Hs'. rewrite He in Hs'.
    assert (Hv : forall j, value_of (pairs t') j = if decide (j = k) then Some v else value_of (pairs (_indexes h)) j).
    { intros j. rewrite He. apply value_replaced; [done | done |]. apply Hk, (Hn k v), Hin. }
    split; [split; cbn [_indexes total_cached ghost]; [done | done | done | | done] |].
    + intros j. rewrite Hk, Hv. case_decide; [subst | done]. split; [by eexists |]. intros _. apply Hk, (Hn k v), Hin.
    + intros j. cbn [_indexes]. rewrite Hv. by case_decide.
  - intros k v vs h [Hf Hc Hr Hk Hn]. rewrite zlen_cons in *. cbn [destroy index_helper]. split; [| done].
    split; cbn [_indexes total_cached ghost]; [done | lia | lia | done |]. intros j y Hj. apply (Hn j y). by right.
  - intros b vs h [Hf Hc Hr Hk Hn]. split; [by split | done].
  - intros k h. cbn [create index_helper]. unfold helper_create. by destruct (file_find k _) as [[] |].
  - intros k v h. cbn [update index_helper]. unfold helper_update. by destruct (file_update k v _) as [[] |].
Defined.

Lemma create_calm k (h : state) : returns (create k h).
Proof. cbn [create index_helper]. unfold helper_create. by destruct (file_find k _) as [[] |]. Qed.
Lemma update_calm k (v : list Z) (h : state) : returns (update k v h).
Proof. cbn [update index_helper]. unfold helper_update. by destruct (file_update k v _) as [[] |]. Qed.
Lemma destroy_calm (v : list Z) (h : state) : returns (destroy (Key := index_key) v h).
Proof. done. Qed.
Lemma room_when_empty k (h : state) : owns [] h -> can_create k h = true.
Proof. intros [_ Hc _ _ _]. cbn [can_create index_helper]. by rewrite Hc. Qed.

(** ** The cache over the tree is one map *)

Abbreviation cache := (Cache state index_key (list Z)).
Implicit Types (c : cache) (m : gmap index_key (list Z)).

Definition shows c m : Prop := forall k, m !! k = if decide (k ∈ (ghost (_helper c)).1) then Some (view c k) else None.

Record indexed c m : Prop := { indexed_rests : resting c; indexed_shows : shows c m }.

(** While the value of [k] is in use. *)
Record opened (k : index_key) c m : Prop := { opened_holds : holding k c; opened_shows : shows c m }.

Lemma index_fetch c m k v now : indexed c m -> m !! k = Some v ->
  exists c', LRUCache.get k now c = LRUCache.Done v c' /\ opened k c' m.
Proof.
  intros [Hr Hs] Hk. pose proof (Hs k) as Hsk. rewrite Hk in Hsk. case_decide as Hin; [| done]. injection Hsk as Hv.
  destruct (fetch_ok create_calm update_calm destroy_calm room_when_empty c k now Hr Hin) as (x & c' & Hg & Hx & Hu & Hw & Hg').
  exists c'. cbn [content index_laws] in Hx. split; [rewrite Hg; by rewrite Hx, Hv |].
  split; [done |]. intros j. cbn [settings index_laws] in Hg'. rewrite Hg', Hw. apply Hs.
Qed.

Lemma index_assign c m k v f : opened k c m -> m !! k = Some v ->
  exists c', write_value k f c = LRUCache.Done tt c' /\ opened k c' (<[k := f v]> m).
Proof.
  intros [Hu Hs] Hk. pose proof (Hs k) as Hsk. rewrite Hk in Hsk. case_decide as Hin; [| done]. injection Hsk as Hv.
  destruct (assign_ok c k f f) as (c' & Hw & Hu' & Hv' & Hg); [done | done |]. exists c'. split; [done |]. split; [done |].
  intros j. cbn [settings index_laws] in Hg. rewrite Hg, Hv', <- Hv. unfold upd. destruct (decide (j = k)) as [-> | Hj].
  - by rewrite lookup_insert_eq, decide_True.
  - rewrite lookup_insert_ne by done. apply Hs.
Qed.

Lemma index_return c m k now : opened k c m ->
  exists c', LRUCache.put k true now c = LRUCache.Done tt c' /\ indexed c' m.
Proof.
  intros [Hu Hs]. destruct (return_ok c k now Hu) as (c' & Hp & Hr & Hv & Hg). exists c'. split; [done |]. split; [done |].
  intros j. cbn [settings index_laws] in Hg. rewrite Hg, Hv. apply Hs.
Qed.

(** The file may change as long as its pairs do not. *)
Lemma index_look c m t' : indexed c m -> ok t' -> pairs t' = pairs (_indexes (_helper c)) ->
  indexed (with_helper (mkIndex t' (total_cached (_helper c)) (ghost (_helper c))) c) m.
Proof.
  intros [[Hinv Hp Hr] Hs] Ht' He. pose proof (core_owns _ _ (inv_core _ _ Hinv)) as [Hf Hc Hl Hk Hn].
  split; [split; [apply stalled_inv; [done |] | done | done] |].
  - apply with_helper_core; [apply Hinv | split; cbn [_indexes total_cached ghost]; [done | done | done | by rewrite He | done] |].
    intros. cbn [backing index_laws _indexes]. by rewrite He.
  - intros j. rewrite (Hs j). cbn [with_helper _helper ghost]. case_decide; [| done]. f_equal. unfold view. cbn [with_helper _map _helper].
    destruct (_map c !! j); [done |]. cbn [backing index_laws _indexes]. by rewrite He.
Qed.

(** Insertion goes past the cache. *)
Definition index_insert (k : index_key) (value : list Z) (h : state) : res (bool * state) :=
  '(b, t) ← file_insert (T := T) (V := list Z) k value (_indexes h);
  Ret (b, mkIndex t (total_cached h) (if (b : bool) then {[k]} ∪ (ghost h).1 else (ghost h).1, (ghost h).2)).

Lemma index_insert_ok c m k (v : list Z) : indexed c m ->
  exists h, index_insert k v (_helper c) = Ret (bool_decide (m !! k = None), h) /\
    indexed (with_helper h c) (if decide (m !! k = None) then <[k := v]> m else m).
Proof.
  intros [[Hinv Hp Hrd] Hs]. pose proof (core_owns _ _ (inv_core _ _ Hinv)) as [Hf Hc Hr Hk Hn].
  destruct (file_insert_ok k v (_indexes (_helper c)) Hf) as (t' & Hi & Ht' & He). unfold index_insert. rewrite Hi, bind_ret.
  pose proof (file_sorted _ Hf) as Hst. pose proof (file_sorted _ Ht') as Hst'.
  assert (Hnone : m !! k = None <-> found k (pairs (_indexes (_helper c))) = None).
  { rewrite found_value_none, (Hs k). case_decide as Hin; [| split; [|done]; intros _; destruct (value_of _ k) eqn:E; [destruct Hin; apply Hk; by eexists | done]].
    split; [done |]. apply Hk in Hin as [x ->]. done. }
  eexists. split; [by rewrite (bool_decide_ext _ _ (iff_sym Hnone)) |].
  destruct (found k (pairs (_indexes (_helper c)))) as [e |] eqn:Ef.
  { assert (Hm : m !! k <> None) by (rewrite Hnone; done). rewrite bool_decide_eq_false_2, decide_False by done.
    rewrite <- surjective_pairing. by apply index_look. }
  assert (Hm : m !! k = None) by (by apply Hnone). rewrite bool_decide_eq_true_2, decide_True by done.
  assert (Hval : forall j, value_of (pairs t') j = if decide (j = k) then Some v else value_of (pairs (_indexes (_helper c))) j).
  { intros j. rewrite He. apply value_insert; [by rewrite <- He | done]. }
  assert (Hkn : k ∉ (ghost (_helper c)).1). { intros Hin. apply Hk in Hin as [x Hx]. apply found_value_none in Ef. congruence. }
  assert (Hback : forall j, j ∈ (ghost (_helper c)).1 -> default (blank Index_Value.size) (value_of (pairs t') j) =
                  default (blank Index_Value.size) (value_of (pairs (_indexes (_helper c))) j)).
  { intros j Hj. rewrite Hval. rewrite decide_False; [done |]. by intros ->. }
  assert (Hmap : forall j n, _map c !! j = Some n -> j ∈ (ghost (_helper c)).1).
  { intros j n Hj. apply (Hn j (value n)), alive_elem, Hj. }
  split; [split; [apply stalled_inv; [done |] | done | done] |].
  - apply with_helper_core; [apply Hinv | |].
    + split; cbn [_indexes total_cached ghost fst]; [done | done | done | |].
      * intros j. rewrite elem_of_union, elem_of_singleton, Hk, Hval. case_decide; [subst | naive_solver]. split; [by eexists | by left].
      * intros j x Hj. apply elem_of_union. right. by apply (Hn j x).
    + intros j n Hj _ _. cbn [backing index_laws _indexes]. by apply Hback, (Hmap j n).
  - intros j. cbn [with_helper _helper ghost fst]. destruct (decide (j = k)) as [-> | Hj].
    + rewrite lookup_insert_eq, decide_True by set_solver. f_equal. unfold view. cbn [with_helper _map _helper].
      destruct (_map c !! k) as [n |] eqn:Hkm; [by apply Hmap in Hkm |]. cbn [backing index_laws _indexes]. by rewrite Hval, decide_True.
    + rewrite lookup_insert_ne, (Hs j) by done. rewrite (decide_ext (j ∈ {[k]} ∪ (ghost (_helper c)).1) (j ∈ (ghost (_helper c)).1)) by set_solver.
      case_decide as Hin; [| done]. f_equal. unfold view. cbn [with_helper _map _helper]. destruct (_map c !! j); [done |].
      cbn [backing index_laws _indexes]. by rewrite Hback.
Qed.

(** [flush_cache]: afterwards the tree holds the map. *)
Definition flush_cache : M (St := state) (Key := index_key) (Value := list Z) unit := c ← gets id; if negb (need_update_size c =? 0) then update_all else mret tt.

Definition stored_in c m : Prop := forall k, value_of (pairs (_indexes (_helper c))) k = m !! k.

Lemma stored_when c m : indexed c m -> (forall k, backing (_helper c) k = view c k) -> stored_in c m.
Proof.
  intros [[Hinv _ _] Hs] Hb k. pose proof (core_owns _ _ (inv_core _ _ Hinv)) as [_ _ _ Hk _].
  rewrite (Hs k), <- Hb. cbn [backing index_laws]. case_decide as Hin.
  - apply Hk in Hin as [v ->]. done.
  - destruct (value_of _ k) eqn:E; [destruct Hin; apply Hk; by eexists | done].
Qed.

Lemma few_waiting c : resting c -> zlen (items (_obsolete c)) <= CACHE_LIMIT_SIZE.
Proof.
  intros [Hinv _ _]. pose proof (core_owns _ _ (inv_core _ _ Hinv)) as [_ _ Hr _ _].
  pose proof (tracks_keys _ _ _ (inv_obs _ _ Hinv)) as Hnd. destruct (inv_obs _ _ Hinv) as (_ & _ & Ht).
  assert (Hsub : (items (_obsolete c)).*2 ⊆ (map_to_list (_map c)).*1).
  { intros k ([i j] & -> & Hin)%list_elem_of_fmap. apply Ht in Hin. destruct (_map c !! j) as [n |] eqn:Hn; [| done].
    apply list_elem_of_fmap. exists (j, n). split; [done | by apply elem_of_map_to_list]. }
  apply (NoDup_submseteq _ _ Hnd) in Hsub. apply submseteq_length in Hsub. rewrite !length_fmap in Hsub.
  unfold alive in Hr. unfold zlen in *. rewrite length_fmap in Hr. lia.
Qed.

Lemma index_flush c m : indexed c m ->
  exists c', flush_cache c = LRUCache.Done tt c' /\ indexed c' m /\ stored_in c' m.
Proof.
  intros Hi. pose proof Hi as [Hr Hs]. unfold flush_cache. rewrite bind_app. cbn [gets id].
  destruct (Z.eqb_spec (need_update_size c) 0) as [Hz | Hz]; cbn [negb].
  - exists c. split; [done |]. split; [done |]. apply stored_when; [done |]. intros k. apply nothing_waiting; [done |].
    pose proof (few_waiting c Hr). pose proof (zlen_nonneg (items (_obsolete c))). unfold need_update_size, u32, CACHE_LIMIT_SIZE in *.
    rewrite Z.mod_small in Hz by lia. destruct (items (_obsolete c)); [done |]. rewrite zlen_cons in Hz. pose proof (zlen_nonneg l). lia.
  - destruct (save_all_ok create_calm update_calm destroy_calm room_when_empty c Hr) as (c' & Hu & Hr' & Hv & Hb & Hg). exists c'. split; [done |].
    assert (Hi' : indexed c' m). { split; [done |]. intros j. cbn [settings index_laws] in Hg. rewrite Hg, Hv. apply Hs. }
    split; [done |]. apply stored_when; [done |]. intros k. by rewrite Hb, Hv.
Qed.

Lemma index_start t : ok t -> pairs t = [] -> indexed (cache_new (mkIndex t 0 (∅, true))) ∅.
Proof.
  intros Ht He. assert (Ho : owns [] (mkIndex t 0 (∅, true))).
  { split; cbn [_indexes total_cached ghost fst]; [done | done | done | | by intros k v ?%not_elem_of_nil].
    intros k. rewrite He. split; [by intros ?%not_elem_of_empty | by intros []]. }
  pose proof (new_refines _ Ho) as [Hinv _ Hp]. split; [by split |]. intros k. cbn. rewrite lookup_empty. by rewrite decide_False by set_solver.
Qed.
End Index.
