(* ===== verification/TimeText.v ===== *)
(** * TimeText: times as text (Base/Time/Time.hpp, src/Time.cpp, src/TimeInterval.cpp)

    [to_string] and [format] print a time with [sprintf]; the log files are named by what they
    print.  Text is a list of bytes.  The broken-down time comes from [localtime_r] or [gmtime_r],
    which are arguments.  The theorem: the names of files sort as their times do. *)

From S2P Require Import Prelude Calendar LinkLogFormat.
Local Open Scope Z_scope.

(** ** The conversions of [sprintf] *)

Definition ascii_space : Z := 32.
Definition ascii_zero : Z := 48.

(** The decimal digits of [z >= 0]; a number has no more digits than bits. *)
Fixpoint digits_loop (fuel : nat) (z : Z) : list Z :=
  match fuel with
  | O => []
  | S fuel => (if z <? 10 then [] else digits_loop fuel (z / 10)) ++ [ascii_zero + z mod 10]
  end.
Definition digits (z : Z) : list Z := digits_loop (S (Z.to_nat (Z.log2 z))) z.

(** [%4d]: spaces, sign, digits; [%02d]: sign, zeros, digits. *)
Definition print_spaces (width : nat) (z : Z) : list Z :=
  let body := (if z <? 0 then [45] else []) ++ digits (Z.abs z) in
  replicate (width - length body) ascii_space ++ body.
Definition print_zeros (width : nat) (z : Z) : list Z :=
  let sign := if z <? 0 then [45] else [] in
  let body := digits (Z.abs z) in
  sign ++ replicate (width - length sign - length body) ascii_zero ++ body.

(** ** Time *)

(** The fields of [tm] that are used, and [tm_us]. *)
Record Time := mkTime { tm_year : Z; tm_mon : Z; tm_mday : Z; tm_hour : Z; tm_min : Z; tm_sec : Z; tm_us : Z }.

Definition Time_us_format_len : Z := 24.
Definition Time_format_len : Z := 17.

(** What [sprintf] stores, without the final zero. *)
Definition Time_text (time : Time) (show_us : bool) : list Z :=
  print_spaces 4 (tm_year time + 1900) ++ print_zeros 2 (tm_mon time + 1) ++ print_zeros 2 (tm_mday time) ++ [45] ++
  print_zeros 2 (tm_hour time) ++ [58] ++ print_zeros 2 (tm_min time) ++ [58] ++ print_zeros 2 (tm_sec time) ++
  (if show_us then [46] ++ print_zeros 6 (tm_us time) else []).

(** [format(dest, time, show_us)]: the text and a zero byte into the memory at [dest]. *)
Definition format (dest : list Z) (time : Time) (show_us : bool) : res (list Z) :=
  mem_write dest 0 (Time_text time show_us ++ [0]).

(** A [std::string] of [n] bytes has a zero byte behind them. *)
Definition Time_to_string (time : Time) (show_us : bool) : res (list Z) :=
  let n := if show_us then Time_us_format_len else Time_format_len in
  temp ← format (blank (n + 1)) time show_us;
  mem_read temp 0 n.

Section Zone.

(** [localtime_r] and [gmtime_r]; [tm_us] is not theirs. *)
Context (localtime gmtime : Z -> Time).

Definition to_Time (nanoseconds : Z) (UTC : bool) : Time :=
  let seconds := Z.quot nanoseconds SEC_ in
  let time := if UTC then gmtime seconds else localtime seconds in
  mkTime (tm_year time) (tm_mon time) (tm_mday time) (tm_hour time) (tm_min time) (tm_sec time)
    (Z.quot (Z.rem nanoseconds SEC_) US_).

Definition to_string (nanoseconds : Z) (show_us UTC : bool) : res (list Z) := Time_to_string (to_Time nanoseconds UTC) show_us.
End Zone.

(** ** Digits *)

(** The last [k] digits, with [fill] in front of a shorter number. *)
Fixpoint column (fill : Z) (k : nat) (z : Z) : list Z :=
  match k with
  | O => []
  | S k => (if z <? 10 then replicate k fill else column fill k (z / 10)) ++ [ascii_zero + z mod 10]
  end.

Lemma length_column fill k z : length (column fill k z) = k.
Proof.
  revert z. induction k as [| k IH]; intros z; [done |]. simpl. rewrite length_app. destruct (z <? 10); [rewrite length_replicate | rewrite IH]; simpl; lia.
Qed.

Lemma digits_fuel fuel fuel' z : 0 <= z < 2 ^ Z.of_nat fuel -> (fuel <= fuel')%nat -> fuel <> O -> digits_loop fuel z = digits_loop fuel' z.
Proof.
  revert fuel' z. induction fuel as [| fuel IH]; intros fuel' z Hz Hf Hn; [done |]. destruct fuel' as [| fuel']; [lia |].
  cbn [digits_loop]. destruct (Z.ltb_spec z 10); [done |]. f_equal. apply IH; [| lia |].
  - split; [apply Z.div_pos; lia |]. apply Z.div_lt_upper_bound; [lia |]. rewrite Nat2Z.inj_succ, Z.pow_succ_r in Hz by lia. lia.
  - intros ->. simpl in Hz. lia.
Qed.

Lemma digits_step z : 0 <= z -> digits z = (if z <? 10 then [] else digits (z / 10)) ++ [ascii_zero + z mod 10].
Proof.
  intros Hz. unfold digits at 1. cbn [digits_loop]. destruct (Z.ltb_spec z 10) as [| H10]; [done |]. f_equal. unfold digits.
  symmetry. apply digits_fuel; [| | lia].
  - rewrite Nat2Z.inj_succ, Z2Nat.id by apply Z.log2_nonneg. split; [apply Z.div_pos; lia |].
    apply Z.log2_spec. apply Z.div_str_pos. lia.
  - apply Nat.le_succ_l. apply Z2Nat.inj_lt; [apply Z.log2_nonneg.. |].
    assert (z / 10 < z / 2 + 1) by (pose proof (Z.div_le_compat_l z 2 10); lia).
    apply Z.le_lt_trans with (Z.log2 (z / 2)); [apply Z.log2_le_mono; lia |].
    replace (z / 2) with (Z.shiftr z 1) by (by rewrite Z.shiftr_div_pow2 by lia).
    rewrite Z.log2_shiftr by lia. assert (3 <= Z.log2 z) by (apply (Z.log2_le_mono 8); lia). lia.
Qed.

Lemma digits_column fill k z : 0 <= z < 10 ^ Z.of_nat k -> (0 < k)%nat ->
  (length (digits z) <= k)%nat /\ column fill k z = replicate (k - length (digits z)) fill ++ digits z.
Proof.
  revert z. induction k as [| k IH]; intros z Hz Hk; [lia |]. rewrite (digits_step z) by lia. rewrite Nat2Z.inj_succ, Z.pow_succ_r in Hz by lia.
  cbn [column]. destruct (Z.ltb_spec z 10) as [H10 | H10]; cbn [app length].
  - split; [lia |]. by rewrite Nat.sub_1_r.
  - destruct k as [| k]; [simpl in Hz; lia |]. destruct (IH (z / 10)) as [Hl Hc]; [| lia |].
    { split; [apply Z.div_pos; lia | apply Z.div_lt_upper_bound; lia]. }
    rewrite length_app. cbn [length]. split; [lia |]. rewrite Hc, app_assoc. do 3 f_equal. lia.
Qed.

Lemma print_spaces_column k z : 0 <= z < 10 ^ Z.of_nat k -> (0 < k)%nat -> print_spaces k z = column ascii_space k z.
Proof.
  intros Hz Hk. destruct (digits_column ascii_space k z Hz Hk) as [_ ->]. unfold print_spaces.
  destruct (Z.ltb_spec z 0); [lia |]. by rewrite Z.abs_eq by lia.
Qed.
Lemma print_zeros_column k z : 0 <= z < 10 ^ Z.of_nat k -> (0 < k)%nat -> print_zeros k z = column ascii_zero k z.
Proof.
  intros Hz Hk. destruct (digits_column ascii_zero k z Hz Hk) as [_ ->]. unfold print_zeros.
  destruct (Z.ltb_spec z 0); [lia |]. rewrite Z.abs_eq by lia. cbn [app length]. by rewrite Nat.sub_0_r.
Qed.

(** ** Columns sort as numbers *)

Lemma memcmp_snoc l r x y : length l = length r -> memcmp (l ++ [x]) (r ++ [y]) = if memcmp l r =? 0 then x - y else memcmp l r.
Proof.
  intros Hl. rewrite memcmp_app by done. destruct (memcmp l r =? 0); [| done]. simpl. destruct (Z.eqb_spec x y); lia.
Qed.

(** A positive number is above the filling. *)
Lemma column_above fill k z : fill <= ascii_zero -> 0 < z < 10 ^ Z.of_nat k -> memcmp (replicate k fill) (column fill k z) < 0.
Proof.
  intros Hf. revert z. induction k as [| k IH]; intros z Hz; [simpl in Hz; lia |]. rewrite Nat2Z.inj_succ, Z.pow_succ_r in Hz by lia.
  replace (replicate (S k) fill) with (replicate k fill ++ [fill]) by (by rewrite <- replicate_cons_app). cbn [column].
  assert (0 <= z mod 10 < 10) by (apply Z.mod_pos_bound; lia). unfold ascii_zero in *.
  destruct (Z.ltb_spec z 10) as [H10 | H10].
  - rewrite memcmp_snoc, memcmp_refl by done. simpl. rewrite Z.mod_small by lia. lia.
  - rewrite memcmp_snoc by (by rewrite length_replicate, length_column).
    assert (memcmp (replicate k fill) (column fill k (z / 10)) < 0); [apply IH |].
    { split; [apply Z.div_str_pos; lia | apply Z.div_lt_upper_bound; lia]. }
    destruct (Z.eqb_spec (memcmp (replicate k fill) (column fill k (z / 10))) 0); lia.
Qed.

Lemma column_lt fill k a b : fill <= ascii_zero -> 0 <= a < b -> b < 10 ^ Z.of_nat k -> memcmp (column fill k a) (column fill k b) < 0.
Proof.
  intros Hf. revert a b. induction k as [| k IH]; intros a b Ha Hb; [simpl in Hb; lia |]. rewrite Nat2Z.inj_succ, Z.pow_succ_r in Hb by lia.
  cbn [column]. assert (0 <= a mod 10 < 10 /\ 0 <= b mod 10 < 10) by (split; apply Z.mod_pos_bound; lia).
  assert (a = 10 * (a / 10) + a mod 10 /\ b = 10 * (b / 10) + b mod 10) by (split; apply Z.div_mod; lia).
  assert (a / 10 <= b / 10) by (apply Z.div_le_mono; lia). assert (0 <= a / 10) by (apply Z.div_pos; lia).
  rewrite memcmp_snoc by (destruct (a <? 10), (b <? 10); by rewrite ?length_replicate, ?length_column).
  set (c := memcmp _ _). assert (Hc : a / 10 = b / 10 /\ c = 0 \/ c < 0).
  { unfold c. destruct (Z.ltb_spec a 10) as [Ha10 | Ha10], (Z.ltb_spec b 10) as [Hb10 | Hb10]; [| | lia |].
    - left. rewrite !Z.div_small by lia. by rewrite memcmp_refl.
    - right. apply column_above; [done |]. split; [apply Z.div_str_pos; lia | apply Z.div_lt_upper_bound; lia].
    - destruct (Z.eq_dec (a / 10) (b / 10)) as [He | He]; [left; by rewrite He, memcmp_refl |]. right. apply IH; [lia |].
      apply Z.div_lt_upper_bound; lia. }
  destruct (Z.eqb_spec c 0); lia.
Qed.

(** ** The text of a time *)

(** The numbers that are printed, in their order. *)
Definition fields (t : Time) : list Z :=
  [tm_year t + 1900; tm_mon t + 1; tm_mday t; tm_hour t; tm_min t; tm_sec t; tm_us t].

(** No field is wider than its column: years from 0 to 9999. *)
Definition printable (t : Time) : Prop :=
  0 <= tm_year t + 1900 < 10000 /\ Forall (fun z => 0 <= z < 100) [tm_mon t + 1; tm_mday t; tm_hour t; tm_min t; tm_sec t] /\
  0 <= tm_us t < 1000000.

Definition two (z : Z) : list Z := column ascii_zero 2 z.

Lemma text_columns t : printable t -> Time_text t true =
  column ascii_space 4 (tm_year t + 1900) ++ two (tm_mon t + 1) ++ two (tm_mday t) ++ [45] ++
  two (tm_hour t) ++ [58] ++ two (tm_min t) ++ [58] ++ two (tm_sec t) ++ [46] ++ column ascii_zero 6 (tm_us t).
Proof.
  intros (Hy & Hm & Hu). rewrite !list.Forall_cons in Hm. destruct Hm as (H1 & H2 & H3 & H4 & H5 & _). unfold Time_text, two.
  rewrite print_spaces_column, !print_zeros_column by (simpl; lia). done.
Qed.

Lemma zlen_text t : printable t -> zlen (Time_text t true) = Time_us_format_len.
Proof.
  intros Hp. rewrite text_columns by done. unfold two. rewrite !zlen_app. unfold zlen. by rewrite !length_column.
Qed.

Lemma to_string_text t : printable t -> Time_to_string t true = Ret (Time_text t true).
Proof.
  intros Hp. unfold Time_to_string, format. pose proof (zlen_text t Hp) as Hl.
  assert (Hb : blank (Time_us_format_len + 1) = [] ++ blank (Time_us_format_len + 1) ++ []) by done.
  rewrite Hb, (mem_write_mid [] _ (Time_text t true ++ [0]) [] 0); [| done |].
  - rewrite bind_ret, app_nil_l, app_nil_r. by apply (mem_read_mid [] (Time_text t true) [0]).
  - rewrite zlen_app, Hl. reflexivity.
Qed.

(** One column decides as its number does. *)
Lemma column_step fill k a b (X Y A B : list Z) : fill <= ascii_zero -> 0 <= a < 10 ^ Z.of_nat k -> 0 <= b < 10 ^ Z.of_nat k ->
  Z.sgn (memcmp X Y) = Z.sgn (memcmp A B) ->
  Z.sgn (memcmp (column fill k a ++ X) (column fill k b ++ Y)) = Z.sgn (memcmp (a :: A) (b :: B)).
Proof.
  intros Hf Ha Hb He. rewrite memcmp_app by (by rewrite !length_column). cbn [memcmp].
  destruct (Z.eqb_spec a b) as [-> | Hne]; [by rewrite memcmp_refl |].
  destruct (Z_lt_le_dec a b) as [Hlt | Hle].
  - pose proof (column_lt fill k a b Hf ltac:(lia) ltac:(lia)). destruct (Z.eqb_spec (memcmp (column fill k a) (column fill k b)) 0); lia.
  - pose proof (column_lt fill k b a Hf ltac:(lia) ltac:(lia)). pose proof (memcmp_sign (column fill k b) (column fill k a)).
    destruct (Z.eqb_spec (memcmp (column fill k a) (column fill k b)) 0); lia.
Qed.

Lemma mark_step x (X Y A B : list Z) : Z.sgn (memcmp X Y) = Z.sgn (memcmp A B) ->
  Z.sgn (memcmp ([x] ++ X) ([x] ++ Y)) = Z.sgn (memcmp A B).
Proof. cbn. by rewrite Z.eqb_refl. Qed.

Lemma text_order a b : printable a -> printable b ->
  Z.sgn (memcmp (Time_text a true) (Time_text b true)) = Z.sgn (memcmp (fields a) (fields b)).
Proof.
  intros Ha Hb. rewrite !text_columns by done. destruct Ha as (Ha1 & Ha & Hau), Hb as (Hb1 & Hb & Hbu).
  rewrite !list.Forall_cons in Ha, Hb. destruct Ha as (? & ? & ? & ? & ? & _), Hb as (? & ? & ? & ? & ? & _). unfold two, fields.
  assert (ascii_space <= ascii_zero /\ ascii_zero <= ascii_zero) as [Hs Hz] by (unfold ascii_space, ascii_zero; lia).
  repeat first [ apply column_step; [done | simpl; lia | simpl; lia |] | apply mark_step ].
  rewrite <- (app_nil_r (column _ _ (tm_us a))), <- (app_nil_r (column _ _ (tm_us b))).
  by apply column_step; [| simpl; lia | simpl; lia |].
Qed.

(** ** Properties *)

(** What the names rely on of [localtime_r], for the seconds of an interval: fields that fit, and
    a later second has later fields.  It fails in the hour the clocks go back. *)
Definition zone_ok (localtime : Z -> Time) (first last : Z) : Prop :=
  (forall s, first <= s <= last -> forall us, 0 <= us < 1000000 ->
    printable (mkTime (tm_year (localtime s)) (tm_mon (localtime s)) (tm_mday (localtime s)) (tm_hour (localtime s))
                 (tm_min (localtime s)) (tm_sec (localtime s)) us)) /\
  (forall s s', first <= s < s' -> s' <= last ->
    memcmp (take 6 (fields (localtime s))) (take 6 (fields (localtime s'))) < 0).

Lemma fields_split t : fields t = take 6 (fields t) ++ [tm_us t].
Proof. done. Qed.

(** The text of a time, when its fields fit. *)
Definition time_name (localtime gmtime : Z -> Time) (t : Z) : list Z := Time_text (to_Time localtime gmtime t false) true.

Lemma name_order (localtime gmtime : Z -> Time) (first last t t' : Z) :
  zone_ok localtime first last -> 0 <= first ->
  first * SEC_ <= t <= t' -> t' < (last + 1) * SEC_ ->
  let name := time_name localtime gmtime t in let name' := time_name localtime gmtime t' in
  to_string localtime gmtime t true false = Ret name /\ to_string localtime gmtime t' true false = Ret name' /\
    zlen name = 24 /\ zlen name' = 24 /\
    (name = name' <-> t / US_ = t' / US_) /\ (mark_less name name' = true <-> t / US_ < t' / US_).
Proof.
  intros [Hp Hmono] Hfirst Ht Ht'. unfold SEC_, US_ in *.
  set (tm s := to_Time localtime gmtime s false).
  assert (Hdiv : forall s, first * 1000000000 <= s < (last + 1) * 1000000000 ->
    Z.quot s 1000000000 = s / 1000000000 /\ Z.quot (Z.rem s 1000000000) 1000 = s / 1000 - 1000000 * (s / 1000000000) /\
    0 <= s / 1000 - 1000000 * (s / 1000000000) < 1000000 /\ first <= s / 1000000000 <= last).
  { intros s Hs. rewrite Z.quot_div_nonneg, Z.rem_mod_nonneg by lia. rewrite Z.quot_div_nonneg by (try apply Z.mod_pos_bound; lia).
    Z.to_euclidean_division_equations; lia. }
  assert (Hpr : forall s, first * 1000000000 <= s < (last + 1) * 1000000000 -> printable (tm s)).
  { intros s Hs. destruct (Hdiv s Hs) as (Hq & Hr & Hb & Hr'). unfold tm, to_Time, SEC_, US_. rewrite Hq, Hr. by apply Hp. }
  assert (Hf : forall s, first * 1000000000 <= s < (last + 1) * 1000000000 ->
    fields (tm s) = take 6 (fields (localtime (s / 1000000000))) ++ [s / 1000 - 1000000 * (s / 1000000000)]).
  { intros s Hs. destruct (Hdiv s Hs) as (Hq & Hr & _). unfold tm, to_Time, SEC_, US_. by rewrite Hq, Hr. }
  cbv zeta. unfold time_name, to_string. fold (tm t) (tm t').
  rewrite !to_string_text, !zlen_text by (apply Hpr; lia). do 4 (split; [done |]).
  assert (Hlen : length (Time_text (tm t) true) = length (Time_text (tm t') true)).
  { pose proof (zlen_text _ (Hpr t ltac:(lia))). pose proof (zlen_text _ (Hpr t' ltac:(lia))). unfold zlen in *. lia. }
  assert (Hcmp : Z.sgn (memcmp (Time_text (tm t) true) (Time_text (tm t') true)) = Z.sgn (t / 1000 - t' / 1000)).
  { rewrite text_order by (apply Hpr; lia). rewrite !Hf by lia. rewrite memcmp_snoc by done.
    destruct (Hdiv t ltac:(lia)) as (_ & _ & _ & ?), (Hdiv t' ltac:(lia)) as (_ & _ & _ & ?).
    assert (t / 1000000000 <= t' / 1000000000) by (apply Z.div_le_mono; lia).
    destruct (Z.eq_dec (t / 1000000000) (t' / 1000000000)) as [He | He].
    - rewrite He, memcmp_refl. cbn [Z.eqb]. f_equal. lia.
    - pose proof (Hmono (t / 1000000000) (t' / 1000000000) ltac:(lia) ltac:(lia)) as Hlt.
      destruct (Z.eqb_spec (memcmp (take 6 (fields (localtime (t / 1000000000)))) (take 6 (fields (localtime (t' / 1000000000))))) 0); [lia |].
      rewrite Z.sgn_neg by lia. symmetry. apply Z.sgn_neg. Z.to_euclidean_division_equations; lia. }
  unfold mark_less. rewrite Z.ltb_lt. split; split.
  - intros He. rewrite He, memcmp_refl in Hcmp. simpl in Hcmp. lia.
  - intros He. apply memcmp_eq; [done |]. lia.
  - lia.
  - lia.
Qed.

(** C29. Names from times: for times of one interval in which the time zone's clock runs
    forward, [to_string(time, true)] returns 24 bytes, inside of its buffer; times of the same
    microsecond have the same text, and otherwise the texts compare, byte by byte, as the times do.  So the files of
    the log, which are named by it, sort by age. *)
Theorem names_sort_by_time (localtime gmtime : Z -> Time) (first last t t' : Z) :
  zone_ok localtime first last -> 0 <= first ->
  first * SEC_ <= t <= t' -> t' < (last + 1) * SEC_ ->
  exists name name', to_string localtime gmtime t true false = Ret name /\ to_string localtime gmtime t' true false = Ret name' /\
    zlen name = 24 /\ zlen name' = 24 /\
    (name = name' <-> t / US_ = t' / US_) /\ (mark_less name name' = true <-> t / US_ < t' / US_).
Proof. intros Hz Hf Ht Ht'. eexists _, _. by apply (name_order localtime gmtime first last). Qed.

(** A month of a zone without changes of the clock. *)
Definition demo_zone (s : Z) : Time :=
  mkTime 124 9 (1 + s / 86400) (s / 3600 mod 24) (s / 60 mod 60) (s mod 60) 0.

Lemma demo_zone_ok : zone_ok demo_zone 0 2678399.
Proof.
  split.
  - intros s Hs us Hus. unfold printable, demo_zone. cbn [tm_year tm_mon tm_mday tm_hour tm_min tm_sec tm_us].
    split; [lia |]. split; [| lia]. repeat constructor; Z.to_euclidean_division_equations; lia.
  - intros s s' Hs Hs'. unfold demo_zone, fields. cbn [take tm_year tm_mon tm_mday tm_hour tm_min tm_sec tm_us memcmp].
    rewrite !Z.eqb_refl.
    destruct (Z.eqb_spec (1 + s / 86400) (1 + s' / 86400)); [| Z.to_euclidean_division_equations; lia].
    destruct (Z.eqb_spec (s / 3600 mod 24) (s' / 3600 mod 24)); [| Z.to_euclidean_division_equations; lia].
    destruct (Z.eqb_spec (s / 60 mod 60) (s' / 60 mod 60)); [| Z.to_euclidean_division_equations; lia].
    destruct (Z.eqb_spec (s mod 60) (s' mod 60)); Z.to_euclidean_division_equations; lia.
Qed.

Lemma names_sort_by_time_witness :
  exists name name', to_string demo_zone demo_zone 90061000001999 true false = Ret name /\
    to_string demo_zone demo_zone 90061000002000 true false = Ret name' /\ zlen name = 24 /\ zlen name' = 24 /\
    (name = name' <-> 90061000001999 / US_ = 90061000002000 / US_) /\
    (mark_less name name' = true <-> 90061000001999 / US_ < 90061000002000 / US_).
Proof.
  apply (names_sort_by_time demo_zone demo_zone 0 2678399); [apply demo_zone_ok | lia | unfold SEC_; lia | unfold SEC_; lia].
Defined.

(** 20241002-01:01:01.000001 *)
Example demo_text : to_string demo_zone demo_zone 90061000001999 true false =
  Ret [50;48;50;52;49;48;48;50;45;48;49;58;48;49;58;48;49;46;48;48;48;48;48;49].
Proof. vm_compute. reflexivity. Qed.
