(* ===== verification/RecordFiles.v ===== *)
(** * RecordFiles: the record files of the link log (LogSystem/linkLog/src/LinkLogInterpreter.cpp)

    [LinkLogEncoder] appends what it is given to a file and begins a new one, named by the time,
    when the file has reached its limit; of more than ten files it removes the oldest.  The disk
    is a map from paths to contents; the buffer of a [FILE] is not modelled, and [fwrite] writes
    all it gets. *)

From stdpp Require Import gmap sorting.
From S2P Require Import Prelude StateMonad Calendar LinkLogFormat TimeText.
Local Open Scope Z_scope.

Abbreviation path := (list Z).

(** Paths in ASCII. *)
Definition record_file_suffix : path := [46;114;101;99;111;114;100].
Definition slash : Z := 47.

Definition RECORD_FILE_LIMIT_SIZE : Z := 1048576.
Definition FILE_SIZE_LIMIT : Z := 10.

(** The encoder and the disk it works on. *)
Record encoder := mkEncoder {
  _current_size : Z;
  _record_file : option path;
  _dictionary_path : path;
  _file_names : list path;
  disk : gmap path (list Z);
}.

Definition set_size (n : Z) (e : encoder) : encoder :=
  mkEncoder n (_record_file e) (_dictionary_path e) (_file_names e) (disk e).
Definition set_file (f : option path) (e : encoder) : encoder :=
  mkEncoder (_current_size e) f (_dictionary_path e) (_file_names e) (disk e).
Definition set_names (l : list path) (e : encoder) : encoder :=
  mkEncoder (_current_size e) (_record_file e) (_dictionary_path e) l (disk e).
Definition set_disk (d : gmap path (list Z)) (e : encoder) : encoder :=
  mkEncoder (_current_size e) (_record_file e) (_dictionary_path e) (_file_names e) d.

(** [record_file_filter]: [d_name] is the whole array of the entry. *)
Definition record_file_filter (d_reclen : Z) (d_name : list Z) : bool :=
  if d_reclen <? Time_us_format_len + zlen record_file_suffix then false
  else bool_decide (slice Time_us_format_len (zlen record_file_suffix) d_name = record_file_suffix).

Section Files.

(** The time zone, and whether [fopen] succeeds. *)
Context (localtime gmtime : Z -> Time) (openable : path -> bool).

Abbreviation M := (ST encoder).

(** [_record_file.open(path, true, true)]: closes the file it had, creates the file when there is none. *)
Definition open_record_file (p : path) : M unit :=
  if openable p then
    modify (fun e => set_file (Some p) (set_disk (match disk e !! p with Some _ => disk e | None => <[p := []]> (disk e) end) e))
  else modify (set_file None).

Definition get_record_file_name (file_init_time : Z) : M path :=
  d ← gets _dictionary_path;
  t ← lift (to_string localtime gmtime file_init_time true false);
  mret (d ++ t ++ record_file_suffix).

Definition open_new_file (now : Z) : M bool :=
  names ← gets _file_names;
  when (FILE_SIZE_LIMIT <=? zlen names) (
    front ← deref (head names);
    modify (fun e => set_disk (delete front (disk e)) e);;
    modify (set_names (tail names)));;
  filename ← get_record_file_name now;
  open_record_file filename;;
  f ← gets _record_file;
  if bool_decide (f = None) then mret false else
  modify (set_size 0);;
  modify (fun e => set_names (_file_names e ++ [filename]) e);;
  mret true.

Definition write_to_file (now : Z) (data : list Z) : M Z :=
  e ← gets id;
  go ← (if bool_decide (_record_file e = None) || (RECORD_FILE_LIMIT_SIZE <=? _current_size e) then open_new_file now else mret true);
  if negb go then mret 0 else
  p ← gets _record_file;
  p ← deref p;
  modify (fun e => set_disk (alter (fun content => content ++ data) p (disk e)) e);;
  modify (fun e => set_size (u64 (_current_size e + zlen data)) e);;
  mret (zlen data).

(** The constructor; [array] is what [scandir] returns: the names that pass the filter, in the
    order of [alphasort].  [files] is the disk. *)
Definition encoder_new (dictionary_path : path) (array : list path) (files : gmap path (list Z)) : res encoder :=
  c ← of_option (list.last dictionary_path) OutOfBounds;
  let d := (if c =? slash then removelast dictionary_path else dictionary_path) ++ [slash] in
  let names := map (fun name => d ++ name) array in
  let e := mkEncoder 0 None d names files in
  match list.last names with
  | None => Ret e
  | Some p =>
      '(_, e) ← open_record_file p e;
      match _record_file e with
      | None => Ret e
      | Some p => Ret (set_size (zlen (default [] (disk e !! p))) e)
      end
  end.

Fixpoint write_all (chunks : list (Z * list Z)) : M unit :=
  match chunks with
  | [] => mret tt
  | (now, data) :: chunks => write_to_file now data;; write_all chunks
  end.
End Files.

(** ** What the files hold *)

Definition content (e : encoder) (p : path) : list Z := default [] (disk e !! p).

Section Kept.
Context (localtime gmtime : Z -> Time) (openable : path -> bool) (openable_all : forall p, openable p = true).
Context (first last : Z) (zone : zone_ok localtime first last) (first_pos : 0 <= first).
Abbreviation write_to_file := (write_to_file localtime gmtime openable).
Abbreviation open_new_file := (open_new_file localtime gmtime openable).

Definition in_zone (t : Z) : Prop := first * SEC_ <= t < (last + 1) * SEC_.
Definition file_at (d : path) (t : Z) : path := d ++ time_name localtime gmtime t ++ record_file_suffix.
Definition sooner (t t' : Z) : Prop := t / US_ < t' / US_.

Lemma file_at_less d t t' : in_zone t -> in_zone t' -> sooner t t' -> mark_less (file_at d t) (file_at d t') = true.
Proof.
  unfold in_zone, sooner. intros Ht Ht' Hs. assert (Hle : t <= t') by (unfold US_ in Hs; Z.to_euclidean_division_equations; lia).
  destruct (name_order localtime gmtime first last t t') as (_ & _ & Hl & Hl' & _ & Hless); [done | done | lia | lia |].
  apply Hless in Hs. unfold mark_less in *. rewrite Z.ltb_lt in *. unfold file_at. rewrite memcmp_app, memcmp_refl by done. cbn [Z.eqb].
  rewrite memcmp_app by (unfold zlen in *; lia). by destruct (Z.eqb_spec (memcmp (time_name localtime gmtime t) (time_name localtime gmtime t')) 0); [lia |].
Qed.

Lemma mark_less_irrefl l : mark_less l l = false.
Proof. unfold mark_less. by rewrite memcmp_refl. Qed.

Definition full (e : encoder) (p : path) : Prop := RECORD_FILE_LIMIT_SIZE <= zlen (content e p).

(** [W] is all that was written; only whole files are lost, and only when ten others are left. *)
Record kept (W : list Z) (newest : Z) (e : encoder) : Prop := {
  kept_names : exists ts, _file_names e = map (file_at (_dictionary_path e)) ts /\
    StronglySorted sooner ts /\ Forall (fun t => in_zone t /\ t / US_ <= newest / US_) ts;
  kept_disk p : is_Some (disk e !! p) <-> p ∈ _file_names e;
  kept_few : zlen (_file_names e) <= FILE_SIZE_LIMIT;
  kept_content : exists old, W = old ++ flat_map (content e) (_file_names e) /\ (old = [] \/ zlen (_file_names e) = FILE_SIZE_LIMIT);
  kept_full l p : _file_names e = l ++ [p] -> Forall (full e) l;
  kept_open : match list.last (_file_names e) with
              | None => _record_file e = None /\ _current_size e = 0
              | Some p => _record_file e = Some p /\ _current_size e = zlen (content e p)
              end;
}.

Lemma sorted_paths d ts : StronglySorted sooner ts -> Forall in_zone ts ->
  StronglySorted (fun p q => mark_less p q = true) (map (file_at d) ts).
Proof.
  intros Hs Hz. induction Hs as [| t ts Hs IH Hall]; [constructor |]. apply list.Forall_cons in Hz as [Ht Hts].
  simpl. constructor; [by apply IH |]. apply list.Forall_forall. intros p (t' & -> & Hin)%list_elem_of_fmap.
  rewrite list.Forall_forall in Hall, Hts. by apply file_at_less; auto.
Qed.

Lemma sorted_NoDup (l : list path) : StronglySorted (fun p q => mark_less p q = true) l -> NoDup l.
Proof.
  induction 1 as [| p l Hs IH Hall]; [constructor |]. apply list.NoDup_cons. split; [| done]. intros Hin.
  rewrite list.Forall_forall in Hall. specialize (Hall p Hin). by rewrite mark_less_irrefl in Hall.
Qed.

Lemma kept_sorted W newest e : kept W newest e -> StronglySorted (fun p q => mark_less p q = true) (_file_names e).
Proof.
  intros Hk. destruct (kept_names _ _ _ Hk) as (ts & -> & Hs & Hf). apply sorted_paths; [done |].
  eapply list.Forall_impl; [exact Hf |]. by intros t [].
Qed.

Lemma flat_map_content (d d' : gmap path (list Z)) l : (forall p, p ∈ l -> d' !! p = d !! p) ->
  flat_map (fun p => default [] (d' !! p)) l = flat_map (fun p => default [] (d !! p)) l.
Proof.
  induction l as [| p l IH]; intros Hd; [done |]. simpl. rewrite Hd by left. f_equal. apply IH. intros q Hq. apply Hd. by right.
Qed.

(** [name_order] for one time. *)
Lemma to_string_name t : in_zone t -> to_string localtime gmtime t true false = Ret (time_name localtime gmtime t).
Proof. intros [? ?]. apply (name_order localtime gmtime first last t t); [done | done | lia | done]. Qed.

(** What [open_new_file] begins with. *)
Definition dropped (e : encoder) : encoder :=
  if FILE_SIZE_LIMIT <=? zlen (_file_names e) then
    set_names (tail (_file_names e)) (set_disk (delete (hd [] (_file_names e)) (disk e)) e) else e.

Lemma dropped_kept W newest e : kept W newest e -> (forall p, list.last (_file_names e) = Some p -> full e p) ->
  (exists ts, _file_names (dropped e) = map (file_at (_dictionary_path e)) ts /\
    StronglySorted sooner ts /\ Forall (fun t => in_zone t /\ t / US_ <= newest / US_) ts) /\
  (forall p, is_Some (disk (dropped e) !! p) <-> p ∈ _file_names (dropped e)) /\
  zlen (_file_names (dropped e)) + 1 <= FILE_SIZE_LIMIT /\
  (exists old, W = old ++ flat_map (content (dropped e)) (_file_names (dropped e)) /\
     (old = [] \/ zlen (_file_names (dropped e)) + 1 = FILE_SIZE_LIMIT)) /\
  Forall (full (dropped e)) (_file_names (dropped e)).
Proof.
  intros Hk Hlast. pose proof (sorted_NoDup _ (kept_sorted _ _ _ Hk)) as Hnd.
  assert (Hfulls : Forall (full e) (_file_names e)).
  { pose proof (kept_full _ _ _ Hk) as Hfull. destruct (_file_names e) as [| q l _] eqn:Hl using rev_ind; [constructor |].
    apply Forall_app. split; [by apply (Hfull l q) |]. apply list.Forall_singleton, Hlast. by rewrite last_snoc. }
  destruct Hk as [Hn Hd Hf Hc _ _].
  unfold dropped. destruct (Z.leb_spec FILE_SIZE_LIMIT (zlen (_file_names e))) as [Hle | Hlt]; [| destruct Hc as (old & Hc & Hold); split_and!; [done | done | lia | exists old; split; [done |]; destruct Hold; [by left | lia] | done]].
  destruct e as [sz f d names fs]. cbn in *. destruct names as [| p names]; [unfold zlen, FILE_SIZE_LIMIT in Hle; simpl in Hle; lia |].
  apply list.NoDup_cons in Hnd as [Hp Hnd]. rewrite zlen_cons in Hf. cbn [set_names set_disk disk _file_names tail hd]. split_and!.
  - destruct Hn as ([| t ts] & Hn & Hs & Hall); [done |]. injection Hn as _ ->. exists ts. split; [done |].
    apply list.Forall_cons in Hall as [_ Hall]. by inversion Hs.
  - intros q. rewrite lookup_delete_is_Some, Hd, elem_of_cons. split; [intros [? [|]]; naive_solver |]. intros Hq. split; [by intros -> | by right].
  - lia.
  - destruct Hc as (old & -> & _). exists (old ++ default [] (fs !! p)). split.
    + rewrite <- app_assoc. cbn [flat_map]. do 2 f_equal. unfold content. cbn [disk].
      symmetry. apply (flat_map_content fs). intros q Hq. apply lookup_delete_ne. by intros ->.
    + right. rewrite zlen_cons in Hle. lia.
  - apply list.Forall_cons in Hfulls as [_ Hfulls]. apply list.Forall_forall. intros q Hq. rewrite list.Forall_forall in Hfulls.
    specialize (Hfulls q Hq). unfold full, content in *. cbn in *. rewrite lookup_delete_ne; [done |]. by intros ->.
Qed.

Lemma open_new_ok W newest now e : kept W newest e -> (forall p, list.last (_file_names e) = Some p -> full e p) -> in_zone now -> sooner newest now ->
  wp (open_new_file now) (fun b e' => b = true /\ kept W now e' /\ _dictionary_path e' = _dictionary_path e /\ list.last (_file_names e') <> None) e.
Proof.
  intros Hk Hlast Hnow Hnew. destruct (dropped_kept W newest e Hk Hlast) as ((ts & Hn & Hs & Hall) & Hd & Hl & (old & Hc & Hold) & Hfull).
  unfold open_new_file. wp_run.
  assert (Hrest : wp (filename ← get_record_file_name localtime gmtime now; open_record_file openable filename;; f ← gets _record_file;
      if bool_decide (f = None) then mret false else modify (set_size 0);; modify (fun e => set_names (_file_names e ++ [filename]) e);; mret true)
      (fun b e' => b = true /\ kept W now e' /\ _dictionary_path e' = _dictionary_path e /\ list.last (_file_names e') <> None) (dropped e)).
  { assert (Hdict : _dictionary_path (dropped e) = _dictionary_path e) by (unfold dropped; by destruct (_ <=? _)).
    unfold get_record_file_name. wp_run. eapply st_lift; [by apply to_string_name |]. wp_run. rewrite Hdict.
    set (p := _dictionary_path e ++ time_name localtime gmtime now ++ record_file_suffix).
    assert (Hfresh : p ∉ _file_names (dropped e)).
    { rewrite Hn. intros (t & Hp & Ht)%list_elem_of_fmap. rewrite list.Forall_forall in Hall. destruct (Hall t Ht) as [Hz Hle].
      assert (Hless : mark_less (file_at (_dictionary_path e) t) (file_at (_dictionary_path e) now) = true) by (apply file_at_less; unfold sooner in *; [done | done | lia]).
      unfold p in Hp. fold (file_at (_dictionary_path e) now) in Hp. by rewrite <- Hp, mark_less_irrefl in Hless. }
    assert (Hnone : disk (dropped e) !! p = None) by (destruct (disk (dropped e) !! p) eqn:E; [destruct Hfresh; apply Hd; by eexists | done]).
    unfold open_record_file. rewrite openable_all. wp_run. rewrite Hnone. cbn. wp_run. cbn.
    split; [done |]. split; [| split; [done | by rewrite last_snoc]]. split; cbn.
    - exists (ts ++ [now]). rewrite Hn, map_app, Hdict. split; [reflexivity |]. split.
      + apply StronglySorted_app_2; [| done | repeat constructor]. intros t t' Ht ->%list_elem_of_singleton. rewrite list.Forall_forall in Hall.
        destruct (Hall t Ht). unfold sooner in *. lia.
      + apply Forall_app. split; [| apply list.Forall_singleton; split; [done | lia]]. eapply list.Forall_impl; [exact Hall |]. intros t [? ?]. split; [done |].
        unfold sooner in Hnew. lia.
    - intros q. rewrite elem_of_app, list_elem_of_singleton, <- Hd. destruct (decide (q = p)) as [-> | Hq].
      + rewrite lookup_insert_eq. split; [by right | by eexists].
      + rewrite lookup_insert_ne by done. tauto.
    - rewrite zlen_app. exact Hl.
    - exists old. split; [| destruct Hold; [by left | right; rewrite zlen_app; done]]. rewrite flat_map_app. cbn [flat_map]. unfold content at 2. cbn [set_names set_size set_file set_disk disk]. rewrite lookup_insert_eq.
      cbn. rewrite !app_nil_r, Hc at 1. f_equal. symmetry. apply (flat_map_content (disk (dropped e))). intros q Hq. cbn. apply lookup_insert_ne. by intros <-.
    - intros l q [<- _]%app_inj_tail. apply list.Forall_forall. intros q' Hq'. rewrite list.Forall_forall in Hfull. specialize (Hfull q' Hq').
      unfold full, content in *. cbn. rewrite lookup_insert_ne; [done |]. by intros <-.
    - rewrite last_snoc. split; [done |]. unfold content. cbn. by rewrite lookup_insert_eq. }
  unfold dropped in Hrest. destruct (FILE_SIZE_LIMIT <=? zlen (_file_names e)) eqn:Hlim; cbn [when]; [| exact Hrest].
  destruct (_file_names e) as [| front names] eqn:Hnames; [done |].
  wp_step. eapply st_deref; [done |]. apply st_bind, st_modify, st_modify. exact Hrest.
Qed.

Lemma record_append_ok W now e p data : kept W now e -> list.last (_file_names e) = Some p -> zlen (W ++ data) < 18446744073709551616 ->
  kept (W ++ data) now (set_size (u64 (_current_size e + zlen data)) (set_disk (alter (fun content => content ++ data) p (disk e)) e)).
Proof.
  intros Hk Hp Hlen. pose proof (sorted_NoDup _ (kept_sorted _ _ _ Hk)) as Hnd. destruct Hk as [Hn Hd Hf Hc Hfull Ho].
  rewrite Hp in Ho. destruct Ho as [Hrf Hsz]. apply last_Some in Hp as [l Hl]. rewrite Hl in *.
  apply list.NoDup_app in Hnd as (Hnd & Hdis & _).
  assert (His : is_Some (disk e !! p)) by (apply Hd, elem_of_app; right; left). destruct His as [x Hx].
  split; cbn [set_size set_disk _file_names _dictionary_path disk _record_file _current_size]; rewrite ?Hl.
  - done.
  - intros q. rewrite <- Hd. unfold is_Some. rewrite lookup_alter. case_decide; [| done]. subst q. rewrite Hx. simpl. naive_solver.
  - done.
  - destruct Hc as (old & -> & Hold). exists old. split; [| done]. rewrite !flat_map_app, <- !app_assoc. f_equal. f_equal.
    + symmetry. apply (flat_map_content (disk e)). intros q Hq. cbn. rewrite lookup_alter. rewrite decide_False; [done |]. intros <-. by apply (Hdis p Hq), list_elem_of_singleton.
    + cbn [flat_map]. unfold content. cbn. rewrite lookup_alter_eq, Hx. cbn. by rewrite !app_nil_r.
  - intros l' q [<- _]%app_inj_tail. specialize (Hfull _ _ eq_refl). apply list.Forall_forall. intros q' Hq'. rewrite list.Forall_forall in Hfull.
    specialize (Hfull q' Hq'). unfold full, content in *. cbn. rewrite lookup_alter, decide_False; [done |]. intros <-. by apply (Hdis p Hq'), list_elem_of_singleton.
  - rewrite last_snoc. split; [done |]. rewrite Hsz. unfold content. cbn. rewrite lookup_alter_eq, Hx. cbn. rewrite zlen_app. apply Z.mod_small.
    destruct Hc as (old & -> & _). rewrite flat_map_app in Hlen. cbn [flat_map] in Hlen. unfold content in Hlen at 2. rewrite Hx in Hlen. cbn in Hlen.
    rewrite !zlen_app, zlen_nil in Hlen. pose proof (zlen_nonneg old). pose proof (zlen_nonneg (flat_map (content e) l)). pose proof (zlen_nonneg x). pose proof (zlen_nonneg data). lia.
Qed.

Lemma kept_later W newest now e : kept W newest e -> sooner newest now -> kept W now e.
Proof.
  intros [(ts & Hn & Hs & Hall) Hd Hf Hc Hfull Ho] Hnew. split; [| done..]. exists ts. split; [done |]. split; [done |].
  eapply list.Forall_impl; [exact Hall |]. intros t [? ?]. split; [done |]. unfold sooner in Hnew. lia.
Qed.

Lemma record_write_ok W newest now data e : kept W newest e -> in_zone now -> sooner newest now -> zlen (W ++ data) < 18446744073709551616 ->
  wp (write_to_file now data) (fun n e' => n = zlen data /\ kept (W ++ data) now e' /\ _dictionary_path e' = _dictionary_path e) e.
Proof.
  intros Hk Hnow Hnew Hlen. unfold write_to_file. wp_run.
  apply (st_mono _ (fun b e' => b = true /\ kept W now e' /\ _dictionary_path e' = _dictionary_path e /\ list.last (_file_names e') <> None)).
  - destruct (bool_decide (_record_file (id e) = None) || _) eqn:Hgo.
    + apply (open_new_ok W newest); [done | | done | done]. intros p Hp. pose proof (kept_open _ _ _ Hk) as Ho. rewrite Hp in Ho. destruct Ho as [Ho Hsz].
      unfold id in Hgo. rewrite Ho, bool_decide_eq_false_2 in Hgo by done. apply Z.leb_le in Hgo. unfold full. by rewrite <- Hsz.
    + apply st_ret. split; [done |].
    split; [by eapply kept_later |]. split; [done |]. intros Hl. pose proof (kept_open _ _ _ Hk) as Ho. rewrite Hl in Ho. destruct Ho as [Ho _].
    apply orb_false_iff in Hgo as [Hgo _]. by apply bool_decide_eq_false in Hgo.
  - intros b e' (-> & Hk' & Hdict & Hlast). cbn [negb]. destruct (list.last (_file_names e')) as [p |] eqn:Hp; [| done].
    pose proof (kept_open _ _ _ Hk') as Ho. rewrite Hp in Ho. destruct Ho as [Hrf _]. wp_run. eapply st_deref; [exact Hrf |]. wp_run.
    split; [done |]. split; [| done]. exact (record_append_ok W now e' p data Hk' Hp Hlen).
Qed.

Lemma write_all_ok chunks : forall W newest e, kept W newest e ->
  Forall (fun c => in_zone c.1) chunks -> StronglySorted sooner (newest :: chunks.*1) ->
  zlen (W ++ flat_map snd chunks) < 18446744073709551616 ->
  exists e' newest', write_all localtime gmtime openable chunks e = Ret (tt, e') /\ kept (W ++ flat_map snd chunks) newest' e' /\
    _dictionary_path e' = _dictionary_path e.
Proof.
  induction chunks as [| [now data] chunks IH]; intros W newest e Hk Hz Hs Hlen.
  { exists e, newest. split; [done |]. cbn. by rewrite app_nil_r. }
  apply list.Forall_cons in Hz as [Hnow Hz]. cbn [flat_map snd] in *. inversion Hs as [| ? ? Hs' Hall]; subst.
  apply list.Forall_cons in Hall as [Hnew Hall]. cbn [fst] in *.
  assert (Hlen1 : zlen (W ++ data) < 18446744073709551616).
  { rewrite !zlen_app in *. pose proof (zlen_nonneg (flat_map snd chunks)). lia. }
  destruct (proj1 (st_intro _ _ _) (record_write_ok W newest now data e Hk Hnow Hnew Hlen1)) as (n & e1 & Hw & _ & Hk1 & Hd1).
  destruct (IH (W ++ data) now e1 Hk1 Hz Hs') as (e' & newest' & Hr & Hk' & Hd'); [by rewrite <- app_assoc |].
  exists e', newest'. cbn [write_all]. unfold mbind, ST_bind. rewrite Hw. split; [exact Hr |]. rewrite <- app_assoc in Hk'. split; [done | congruence].
Qed.
End Kept.

(** ** A new encoder on the same directory *)

#[export] Instance mark_less_antisymm : AntiSymm (=) (fun p q : path => mark_less p q = true).
Proof. intros p q. unfold mark_less. rewrite !Z.ltb_lt. pose proof (memcmp_sign p q). lia. Qed.

Lemma mark_less_prefix d p q : mark_less (d ++ p) (d ++ q) = mark_less p q.
Proof. unfold mark_less. by rewrite memcmp_app, memcmp_refl. Qed.

(** The listing of the directory: its names, sorted. *)
Definition listing (d : path) (files : gmap path (list Z)) (array : list path) : Prop :=
  StronglySorted (fun p q => mark_less p q = true) array /\ forall name, name ∈ array <-> is_Some (files !! (d ++ name)).

Lemma listing_names localtime gmtime first last W newest e array :
  zone_ok localtime first last -> 0 <= first -> kept localtime gmtime first last W newest e ->
  listing (_dictionary_path e) (disk e) array -> map (fun name => _dictionary_path e ++ name) array = _file_names e.
Proof.
  intros Hzone Hfirst Hk [Hs Hin]. pose proof (kept_sorted _ _ _ _ Hzone Hfirst _ _ _ Hk) as Hsort. pose proof (sorted_NoDup _ Hsort) as Hnd.
  assert (Hs' : StronglySorted (fun p q => mark_less p q = true) (map (fun name => _dictionary_path e ++ name) array)).
  { clear Hin. induction Hs as [| p l Hs IH Hall]; [constructor |]. simpl. constructor; [done |]. apply list.Forall_forall.
    intros q (q' & -> & Hq)%list_elem_of_fmap. rewrite mark_less_prefix. rewrite list.Forall_forall in Hall. by apply Hall. }
  apply (StronglySorted_unique _ _ _ Hs' Hsort), NoDup_Permutation; [by apply sorted_NoDup | done |].
  intros p. rewrite <- (kept_disk _ _ _ _ _ _ _ Hk), list_elem_of_fmap. split; [intros (name & -> & Hn); by apply Hin |].
  intros Hp. pose proof Hp as Hp'. apply (kept_disk _ _ _ _ _ _ _ Hk) in Hp'. destruct (kept_names _ _ _ _ _ _ _ Hk) as (ts & Hnames & _).
  rewrite Hnames in Hp'. apply list_elem_of_fmap in Hp' as (t & -> & _). eexists. split; [reflexivity |]. by apply Hin.
Qed.

(** The path the constructor keeps. *)
Definition directory (dictionary_path : path) : path :=
  (if bool_decide (list.last dictionary_path = Some slash) then removelast dictionary_path else dictionary_path) ++ [slash].

Lemma encoder_new_eq openable dictionary_path array files : dictionary_path <> [] ->
  encoder_new openable dictionary_path array files =
  (let d := directory dictionary_path in let names := map (fun name => d ++ name) array in let e := mkEncoder 0 None d names files in
   match list.last names with
   | None => Ret e
   | Some p => '(_, e) ← open_record_file openable p e;
               match _record_file e with None => Ret e | Some p => Ret (set_size (zlen (default [] (disk e !! p))) e) end
   end).
Proof.
  intros Hne. unfold encoder_new, directory. destruct (list.last dictionary_path) as [c |] eqn:Hl; [| by apply last_None in Hl].
  cbn [of_option]. rewrite bind_ret. destruct (Z.eqb_spec c slash) as [-> | Hc]; [by rewrite bool_decide_eq_true_2 |].
  rewrite bool_decide_eq_false_2 by congruence. done.
Qed.

Lemma encoder_reopen localtime gmtime openable first last W newest e dictionary_path array : (forall p, openable p = true) ->
  zone_ok localtime first last -> 0 <= first -> kept localtime gmtime first last W newest e ->
  dictionary_path <> [] -> _dictionary_path e = directory dictionary_path ->
  listing (_dictionary_path e) (disk e) array -> encoder_new openable dictionary_path array (disk e) = Ret e.
Proof.
  intros Hop Hzone Hfirst Hk Hne Hd Hl. rewrite encoder_new_eq by done. cbv zeta. rewrite <- Hd.
  rewrite (listing_names localtime gmtime first last W newest e array) by done.
  pose proof (kept_open _ _ _ _ _ _ _ Hk) as Ho. destruct e as [sz f d names fs]. cbn in *.
  destruct (list.last names) as [p |] eqn:Hlast; [| by destruct Ho as [-> ->]]. destruct Ho as [-> Hsz].
  assert (His : is_Some (fs !! p)). { apply (kept_disk _ _ _ _ _ _ _ Hk). cbn. apply last_Some in Hlast as [l ->]. apply elem_of_app. right. left. }
  destruct His as [x Hx]. unfold open_record_file. rewrite Hop. unfold modify. rewrite bind_ret. cbn. rewrite Hx. cbn. rewrite Hx. cbn.
  unfold content in Hsz. cbn in Hsz. rewrite Hx in Hsz. cbn in Hsz. by rewrite <- Hsz.
Qed.

(** ** Properties *)

(** C28. The record files.  From an empty directory, every file of which can be opened, write any
    chunks, less than 2^64 bytes together, at times of one zone without a change of the clock, each
    in a later microsecond than the one before: every write returns the size of its chunk; there are
    never more than ten files, and they are the files of the directory; all that was written, in
    order, is what the files hold in the order of their names, but for whole files at the front;
    something is missing only when there are ten files; all but the newest always hold at least
    [RECORD_FILE_LIMIT_SIZE] bytes; and a new encoder that lists the directory is the same
    encoder, so it goes on with the newest file. *)
Theorem record_files_hold (localtime gmtime : Z -> Time) (openable : path -> bool) (first last : Z) (dictionary_path : path)
    (chunks : list (Z * list Z)) :
  zone_ok localtime first last -> 0 <= first -> (forall p, openable p = true) -> dictionary_path <> [] ->
  Forall (fun c => first * SEC_ <= c.1 < (last + 1) * SEC_) chunks -> StronglySorted sooner chunks.*1 ->
  zlen (flat_map snd chunks) < 18446744073709551616 ->
  exists e0 e old, encoder_new openable dictionary_path [] ∅ = Ret e0 /\
    write_all localtime gmtime openable chunks e0 = Ret (tt, e) /\
    zlen (_file_names e) <= FILE_SIZE_LIMIT /\ (forall p, is_Some (disk e !! p) <-> p ∈ _file_names e) /\
    flat_map snd chunks = old ++ flat_map (content e) (_file_names e) /\
    (old = [] \/ zlen (_file_names e) = FILE_SIZE_LIMIT) /\ (forall l p, _file_names e = l ++ [p] -> Forall (full e) l) /\
    (forall array, listing (_dictionary_path e) (disk e) array -> encoder_new openable dictionary_path array (disk e) = Ret e).
Proof.
  intros Hzone Hfirst Hop Hne Hz Hs Hlen. exists (mkEncoder 0 None (directory dictionary_path) [] ∅).
  assert (Hk0 : forall newest, kept localtime gmtime first last [] newest (mkEncoder 0 None (directory dictionary_path) [] ∅)).
  { intros newest. split; cbn; [exists []; split; [done |]; split; constructor | | unfold zlen, FILE_SIZE_LIMIT; simpl; lia | exists []; by split; [| left] | by intros [] ? | done].
    intros p. rewrite lookup_empty. split; [by intros [] | by intros ?%not_elem_of_nil]. }
  destruct (write_all_ok localtime gmtime openable Hop first last Hzone Hfirst chunks [] (first * SEC_ - SEC_) _ (Hk0 _)) as (e & newest & Hw & Hk & Hd);
    [done | constructor; [done |] | done |].
  { apply list.Forall_forall. intros t (c & -> & Hc)%list_elem_of_fmap. rewrite list.Forall_forall in Hz. specialize (Hz c Hc).
    unfold sooner, SEC_, US_ in *. Z.to_euclidean_division_equations; lia. }
  destruct (kept_content _ _ _ _ _ _ _ Hk) as (old & He & Hold). exists e, old.
  split; [by rewrite encoder_new_eq |]. split; [done |]. split; [apply Hk |]. split; [apply Hk |]. split; [done |]. split; [done |]. split.
  - intros l p. apply (kept_full _ _ _ _ _ _ _ Hk).
  - intros array Hl. by eapply encoder_reopen.
Qed.

Definition demo_chunks : list (Z * list Z) := [(5000, [1; 2]); (9000, [3]); (86400000000000, [4; 5; 6])].

Lemma record_files_hold_witness :
  exists e0 e old, encoder_new (fun _ => true) [108; 47] [] ∅ = Ret e0 /\
    write_all demo_zone demo_zone (fun _ => true) demo_chunks e0 = Ret (tt, e) /\
    zlen (_file_names e) <= FILE_SIZE_LIMIT /\ (forall p, is_Some (disk e !! p) <-> p ∈ _file_names e) /\
    flat_map snd demo_chunks = old ++ flat_map (content e) (_file_names e) /\
    (old = [] \/ zlen (_file_names e) = FILE_SIZE_LIMIT) /\ (forall l p, _file_names e = l ++ [p] -> Forall (full e) l) /\
    (forall array, listing (_dictionary_path e) (disk e) array -> encoder_new (fun _ => true) [108; 47] array (disk e) = Ret e).
Proof.
  apply (record_files_hold demo_zone demo_zone (fun _ => true) 0 2678399).
  - apply demo_zone_ok.
  - lia.
  - done.
  - done.
  - repeat constructor; cbn; unfold SEC_; lia.
  - repeat constructor.
  - vm_compute. reflexivity.
Defined.

(** ** Where it goes wrong *)

Definition ten : list path := map (fun i => [100; 47; 48 + Z.of_nat i]) (seq 0 10).
Definition full_encoder : encoder :=
  mkEncoder RECORD_FILE_LIMIT_SIZE (Some [100; 47; 57]) [100; 47] ten (list_to_map (map (fun p => (p, p)) ten)).

(** The oldest file is removed before the new one is opened: when opening fails, the file is lost and
    nothing is written. *)
Example failing_open_loses_files :
  match write_all demo_zone demo_zone (fun _ => false) [(1000, [1]); (2000, [2]); (3000, [3])] full_encoder with
  | Ret (_, e) => (length (_file_names e), size (disk e), _record_file e)
  | Fault _ => (O, O, None)
  end = (9%nat, 9%nat, None).
Proof. vm_compute. reflexivity. Qed.
