(* ===== verification/Disk.v ===== *)
(** * Disk: files by name, for the classes that keep files open

    A name leads to a file; a file stays while it is open even when its name is removed, and what
    is appended to it then is lost with it.  [fopen], [remove], [fread], [fseek] and the writes of
    [oFile] and [iFile] (Base/Detail/) are operations of this type; the buffers of [FILE] are not
    modelled. *)

From stdpp Require Import gmap.
From S2P Require Import Prelude StateMonad.
Local Open Scope Z_scope.

Abbreviation path := (list Z).

Record disk := mkDisk { names : gmap path Z; inodes : gmap Z (list Z); next_inode : Z }.

Definition disk_ok (d : disk) : Prop := (forall i, is_Some (inodes d !! i) -> i < next_inode d) /\ map_Forall (fun _ i => is_Some (inodes d !! i)) (names d).

(** [fopen(path, "ab")]: creates the file when there is none. *)
Definition open_append (p : path) (d : disk) : Z * disk :=
  match names d !! p with
  | Some i => (i, d)
  | None => (next_inode d, mkDisk (<[p := next_inode d]> (names d)) (<[next_inode d := []]> (inodes d)) (next_inode d + 1))
  end.

Definition open_read (p : path) (d : disk) : option Z := names d !! p.

(** [remove(path)]; whether there was such a name. *)
Definition remove_name (p : path) (d : disk) : bool * disk :=
  (bool_decide (is_Some (names d !! p)), mkDisk (delete p (names d)) (inodes d) (next_inode d)).

Definition append (i : Z) (data : list Z) (d : disk) : disk :=
  mkDisk (names d) (alter (fun content => content ++ data) i (inodes d)) (next_inode d).

Definition content_of (i : Z) (d : disk) : list Z := default [] (inodes d !! i).

(** An open [iFile]: the file and the position in it. *)
Record reader := mkReader { inode : Z; position : Z }.

(** [seek_cur]; a position past the end is allowed. *)
Definition seek_cur (step : Z) (r : reader) : bool * reader :=
  if position r + step <? 0 then (false, r) else (true, mkReader (inode r) (position r + step)).

(** [read(size, dest)]: what is read, at most [size] bytes. *)
Definition read_file (size : Z) (d : disk) (r : reader) : list Z * reader :=
  let data := slice (position r) size (content_of (inode r) d) in
  (data, mkReader (inode r) (position r + zlen data)).

Lemma content_append i data d j : is_Some (inodes d !! i) ->
  content_of j (append i data d) = if decide (j = i) then content_of i d ++ data else content_of j d.
Proof.
  intros [x Hx]. unfold content_of. cbn [append inodes]. rewrite lookup_alter. case_decide as Hj.
  - subst j. rewrite decide_True by done. by rewrite Hx.
  - by rewrite decide_False by congruence.
Qed.

Lemma append_names i data d : names (append i data d) = names d.
Proof. done. Qed.

Lemma append_some i data d j : is_Some (inodes (append i data d) !! j) <-> is_Some (inodes d !! j).
Proof. cbn [append inodes]. unfold is_Some. rewrite lookup_alter. case_decide; [subst; destruct (inodes d !! j); naive_solver | done]. Qed.

Lemma append_keeps_disk i data d : disk_ok d -> disk_ok (append i data d).
Proof.
  intros [Hn Hm]. split.
  - intros j. rewrite append_some. apply Hn.
  - intros p j Hp. apply append_some. by apply (Hm p).
Qed.
