(* ===== verification/RingHistory.v ===== *)
(** * RingHistory: what lies behind the reading position of a ring

    [read_back] makes bytes readable again that were read before: the link log's center reads the
    messages of a buffer one after the other, changes some in place, and then goes back and writes
    them to a file in one piece.  [recalls h r] says that going back from [r] finds [h]. *)

From S2P Require Import Prelude RingBuffer.
Local Open Scope Z_scope.

Definition recalls (h : list byte) (r : ring) : Prop :=
  zlen h <= writable_len r /\
  forall i : nat, Z.of_nat i < zlen h -> _buffer r !! Z.to_nat (ring_pos r (_size r - zlen h + Z.of_nat i)) = h !! i.

Lemma recalls_nothing r : ring_wf r -> recalls [] r.
Proof. intros Hwf. wf_facts Hwf. unfold recalls, zlen in *. split; cbn; [ring_arith; unfold zlen in *; lia | intros; lia]. Qed.

Lemma recalls_advance h n r r' :
  ring_wf r -> recalls h r -> 0 <= n <= _readable r -> read_advance n r = Ret r' ->
  recalls (h ++ take (Z.to_nat n) (contents r)) r'.
Proof.
  intros Hwf [Hl Hh] Hn E. pose proof (zlen_contents r Hwf) as Hz. pose proof (zlen_nonneg h) as Hh0.
  assert (Ht : zlen (take (Z.to_nat n) (contents r)) = n) by (apply zlen_take; lia).
  unfold read_advance in E. rewrite massert_true, bind_ret in E by (apply Z.leb_le; apply Hn). injection E as <-.
  split.
  - rewrite zlen_app, Ht. ring_arith. lia.
  - intros i Hi. rewrite zlen_app, Ht in *. rewrite lookup_app_dec. case_decide as Hih.
    + rewrite <- Hh by done. cbn [_buffer]. f_equal. f_equal. wf_facts Hwf. clear Hh. zsplit; lia.
    + rewrite lookup_take_lt by (unfold zlen in *; lia). rewrite contents_lookup by done. rewrite decide_True by (unfold zlen in *; lia).
      cbn [_buffer]. f_equal. f_equal. wf_facts Hwf. clear Hh. unfold zlen in *. zsplit; lia.
Qed.

Lemma recalls_read h n r : ring_wf r -> recalls h r -> 0 <= n <= _readable r ->
  exists r', read n r = Ret (take (Z.to_nat n) (contents r), r') /\ ring_wf r' /\
             contents r' = drop (Z.to_nat n) (contents r) /\ _size r' = _size r /\ recalls (h ++ take (Z.to_nat n) (contents r)) r'.
Proof.
  intros Hwf Hh Hn. destruct (read_spec n r Hwf) as (r' & E & Hwf' & Hc & _ & Hb); [lia |].
  exists r'. split; [done |]. split; [done |]. split; [done |]. split; [unfold _size; by rewrite Hb |].
  unfold read in E. rewrite (proj2 (Z.ltb_ge _ _)) in E by (unfold readable_len; lia).
  destruct (read_from r (_read r) n) as [d |]; [| done]. rewrite bind_ret in E.
  destruct (read_advance n r) as [r1 |] eqn:Ea; [| done]. rewrite bind_ret in E. injection E as _ <-. by apply (recalls_advance h n r).
Qed.

(** Changes to what has not been read do not touch it. *)
Lemma recalls_change h o data r : ring_wf r -> recalls h r -> 0 <= o -> o + zlen data <= _readable r ->
  exists r', change_written o data r = Ret (zlen data, r') /\ ring_wf r' /\ contents r' = blit o data (contents r) /\
             _size r' = _size r /\ recalls h r'.
Proof.
  intros Hwf [Hl Hh] Ho Hd. pose proof (zlen_nonneg data) as Hd0. pose proof (zlen_nonneg h). pose proof (wf_readable _ Hwf) as Hr. pose proof (wf_size _ Hwf).
  destruct (change_written_store o data r Hwf) as (buf & E & Hst); [lia | unfold MAX_UINT in *; lia |].
  rewrite Z.min_l in E by lia. rewrite take_ge in Hst by (unfold zlen in *; lia).
  destruct (contents_store r o data buf Hwf Hst) as [Hc Hwf']; [done | done |].
  destruct Hst as [Hlen Hst]. eexists. split; [exact E |]. split; [done |]. split; [done |]. split; [done |]. split; [unfold writable_len, _size in *; cbn; lia |].
  intros i Hi. rewrite <- Hh by done. unfold writable_len in Hl. cbn [_buffer].
  assert (Hp : 0 <= _size r - zlen h + Z.of_nat i < _size r) by lia.
  specialize (Hst (Z.to_nat (_size r - zlen h + Z.of_nat i))). rewrite Z2Nat.id in Hst by lia. rewrite decide_False in Hst by lia.
  rewrite <- Hst by lia. f_equal. f_equal. unfold ring_pos, _size in *. cbn. by rewrite Hlen.
Qed.

Lemma recalls_back h r : ring_wf r -> recalls h r ->
  exists r', read_back (zlen h) r = Ret r' /\ ring_wf r' /\ contents r' = h ++ contents r /\ _size r' = _size r.
Proof.
  intros Hwf [Hl Hh]. pose proof (zlen_nonneg h). unfold read_back. rewrite massert_true by (apply Z.leb_le; exact Hl). rewrite bind_ret.
  eexists. split; [reflexivity |].
  assert (Hwf' : ring_wf (mkRing (_buffer r) (if _read r - zlen h <? 0 then _read r - zlen h + _size r else _read r - zlen h)
    (_write r) (_readable r + zlen h))).
  { clear Hh. wf_facts Hwf. split; ring_arith; try lia; zsplit; lia. }
  split; [done |]. split; [| done]. apply list_eq. intros i. rewrite contents_lookup by done. cbn [_readable _buffer].
  rewrite lookup_app_dec. case_decide as Hi.
  - case_decide as Hih.
    + rewrite <- Hh by done. f_equal. f_equal. clear Hh. wf_facts Hwf. unfold zlen in *. zsplit; lia.
    + rewrite contents_lookup by done. rewrite decide_True by (unfold zlen in *; lia). f_equal. f_equal. clear Hh. wf_facts Hwf. unfold zlen in *. zsplit; lia.
  - pose proof (wf_readable _ Hwf). rewrite decide_False by (unfold zlen in *; lia). symmetry. apply lookup_ge_zlen. rewrite zlen_contents by done. unfold zlen in *. lia.
Qed.
