(* ===== verification/LinkLogStorage.v ===== *)
(** * LinkLogStorage: the log files of a center (LogSystem/linkLog/src/LinkLogInterpreter.cpp)

    [LinkLogStorage]: the log file that is appended to, the records of how far it is written, the
    index of nodes (LinkLogIndex.v), the trees of file names and of nodes to delete, and every
    operation that changes them.  Every operation of the code holds [_mutex] from its first line to
    its last, so here it is one step. *)

From stdpp Require Import gmap.
From S2P Require Import Prelude Packed BPTree BPTreeSession OrderedFile Calendar LRUCache LRUSpec LRUSession LRUCalm.
From S2P Require Import RingBuffer LinkLogFormat TimeText Disk LinkLogIndex StateMonad.
Local Open Scope Z_scope.

(** ".link_log" *)
Definition link_log_file_suffix : path := [46;108;105;110;107;95;108;111;103].

Definition header_offset0 : Z := sizeof_OperationType.
Definition header_offset1 : Z := sizeof_OperationType + sizeof_uint16.
Definition header_offset2 : Z := sizeof_OperationType + sizeof_uint16 + sizeof_TimeInterval.
Definition header_offset3 : Z := sizeof_OperationType + sizeof_uint16 + sizeof_TimeInterval + sizeof_uint32.

Definition LOG_FILE_LIMIT_SIZE : Z := 268435456.

(** [LinkLogStorage::Record]. *)
Record file_record := mkRecord { file : Z; latest_time : Z; index : Z; written : Z }.

(** [Record()]: both times are one reading of the clock. *)
Definition new_record (now : Z) : file_record := mkRecord now now 0 0.
Definition add_index (n : Z) (r : file_record) : file_record := mkRecord (file r) (latest_time r) (u32 (index r + n)) (written r).
Definition add_written (n : Z) (r : file_record) : file_record := mkRecord (file r) (latest_time r) (index r) (u32 (written r + n)).

(** [T], [F] and [D] are the trees of the index, of the file names and of the deletions.  [_logs] is the
    file that is open for appending. *)
Record storage (T F D : Type) := mkStorage {
  _logs : option Z;
  _records : list file_record;
  _dictionary_path : path;
  _filename_file : F;
  _node_deletion : D;
  _cache : Cache (index_state T) index_key (list Z);
  fs : disk;
}.
Arguments mkStorage {T F D}. Arguments _logs {T F D}. Arguments _records {T F D}. Arguments _dictionary_path {T F D}.
Arguments _filename_file {T F D}. Arguments _node_deletion {T F D}. Arguments _cache {T F D}. Arguments fs {T F D}.

Section Storage.
Context {T F D : Type} `{!OrderedFile T index_key (list Z), !OrderedFile F Z Z, !OrderedFile D Z index_key}.

(** The time zone, whether [fopen] succeeds, and how much of so many bytes [writev] writes (-1 for
    an error). *)
Context (localtime gmtime : Z -> Time) (openable : path -> bool) (writev : Z -> Z).

Abbreviation state := (storage T F D).
Abbreviation M := (ST state).

Definition set_logs (l : option Z) (s : state) : state :=
  mkStorage l (_records s) (_dictionary_path s) (_filename_file s) (_node_deletion s) (_cache s) (fs s).
Definition set_records (r : list file_record) (s : state) : state :=
  mkStorage (_logs s) r (_dictionary_path s) (_filename_file s) (_node_deletion s) (_cache s) (fs s).
Definition set_fs (d : disk) (s : state) : state :=
  mkStorage (_logs s) (_records s) (_dictionary_path s) (_filename_file s) (_node_deletion s) (_cache s) d.

(** Calls of the members: of the cache, past the cache of its tree, of the other two trees. *)
Definition on_cache {A} (m : LRUCache.M (St := index_state T) (Key := index_key) (Value := list Z) A) : M A := fun s =>
  match m (_cache s) with
  | LRUCache.Done a c => Ret (a, mkStorage (_logs s) (_records s) (_dictionary_path s) (_filename_file s) (_node_deletion s) c (fs s))
  | Threw _ => Fault Thrown
  | Stuck f => Fault f
  end.
Definition on_index {A} (f : index_state T -> res (A * index_state T)) : M A := fun s =>
  match f (_helper (_cache s)) with
  | Ret (a, h) => Ret (a, mkStorage (_logs s) (_records s) (_dictionary_path s) (_filename_file s) (_node_deletion s) (with_helper h (_cache s)) (fs s))
  | Fault f => Fault f
  end.
Definition on_names {A} (f : F -> res (A * F)) : M A := fun s =>
  match f (_filename_file s) with
  | Ret (a, t) => Ret (a, mkStorage (_logs s) (_records s) (_dictionary_path s) t (_node_deletion s) (_cache s) (fs s))
  | Fault f => Fault f
  end.
Definition on_deletions {A} (f : D -> res (A * D)) : M A := fun s =>
  match f (_node_deletion s) with
  | Ret (a, t) => Ret (a, mkStorage (_logs s) (_records s) (_dictionary_path s) (_filename_file s) t (_cache s) (fs s))
  | Fault f => Fault f
  end.
Definition on_index_file {A} (f : T -> res (A * T)) : M A :=
  on_index (fun h => match f (_indexes h) with Ret (a, t) => Ret (a, mkIndex t (total_cached h) (ghost h)) | Fault f => Fault f end).

(** ** Names and files *)

Definition get_log_name (file_init_time : Z) : M path :=
  d ← gets _dictionary_path;
  t ← lift (to_string localtime gmtime file_init_time true false);
  mret (d ++ t ++ link_log_file_suffix).

(** [_logs.open(path, true)], and the assignment of a new [LinkLogWriteFile]. *)
Definition open_logs (p : path) : M bool :=
  if openable p then
    d ← gets fs;
    let '(i, d) := open_append p d in
    modify (fun s => set_logs (Some i) (set_fs d s));; mret true
  else modify (set_logs None);; mret false.

(** The value type of the tree of names is [uint32]: a time is cut to 32 bits. *)
Definition names_insert (key value : Z) : M bool := on_names (file_insert (V := Z) key (u32 value)).
Definition names_update (key value : Z) : M bool := on_names (file_update (V := Z) key (u32 value)).

Definition open_new_log_file (record : file_record) (end_time : Z) : M unit :=
  results ← on_names (file_search_from_end (K := Z) (V := Z) 1);
  match results with
  | [] => mret tt
  | (key, _) :: _ => names_update key end_time;; mret tt
  end;;
  path ← get_log_name (file record);
  opened ← open_logs path;
  if negb opened then mret tt else
  success ← names_insert (file record) (latest_time record);
  assert_ success.

(** The constructor, on the trees and the disk it finds. *)
Definition storage_init (now : Z) : M unit :=
  results ← on_names (file_search_from_end (K := Z) (V := Z) 1);
  '(key, value) ←
    match results with
    | [] => success ← names_insert now (u32 now); assert_ success;; mret (now, u32 now)
    | r :: _ => mret r
    end;
  path ← get_log_name key;
  opened ← open_logs path;
  if negb opened then mret tt else
  logs ← gets _logs;
  i ← deref logs;
  d ← gets fs;
  let size := u32 (zlen (content_of i d)) in
  modify (fun s => set_records (_records s ++ [mkRecord key value size size]) s).

Definition storage_new (dictionary_path : path) (names : F) (indexes : T) (deletions : D) (keys : gset index_key) (d : disk) (now : Z) : res state :=
  c ← of_option (list.last dictionary_path) OutOfBounds;
  let dir := if c =? 47 then dictionary_path else dictionary_path ++ [47] in
  '(_, s) ← storage_init now (mkStorage None [] dir names deletions (cache_new (mkIndex indexes 0 (keys, true))) d);
  Ret s.

(** ** Nodes *)

(** [create_logger] with the parent: the log line of [CHECK] is left out, here and below. *)
Definition create_logger (service node : list Z) (parent_init_time : Z) (parent : list Z) (type node_init_time : Z) : M bool :=
  let key := Index_Key_of service node_init_time node in
  let val := Index_Value.make parent_init_time parent type 0 MAX_UINT in
  on_index (index_insert key val).

Definition create_logger_alone (service node : list Z) (node_init_time : Z) : M bool :=
  let key := Index_Key_of service node_init_time node in
  let val := put Index_Value.latest_index MAX_UINT (put Index_Value.latest_file 0 (blank Index_Value.size)) in
  on_index (index_insert key val).

Definition update_logger (service node : list Z) (parent_init_time : Z) (parent : list Z) (type node_init_time now now' : Z) : M unit :=
  let key := Index_Key_of service node_init_time node in
  _ ← on_cache (LRUCache.get key now);
  on_cache (write_value key (put Index_Value.parent_init_time parent_init_time));;
  on_cache (write_value key (put Index_Value.parent_node parent));;
  on_cache (write_value key (put Index_Value.type type));;
  on_cache (LRUCache.put key true now').

Definition end_logger (service node : list Z) (node_init_time now : Z) : M unit :=
  let key := Index_Key_of service node_init_time node in
  _ ← on_deletions (file_insert now key); mret tt.

(** ** Logs *)

(** [_records.back()] of an empty vector is no object. *)
Definition back_record : M file_record := r ← gets _records; deref (list.last r).
Definition change_record (i : nat) (f : file_record -> file_record) : M unit :=
  modify (fun s => set_records (alter f i (_records s)) s).

Definition add_record (size now : Z) : M unit :=
  records ← gets _records;
  when (match list.last records with None => true | Some r => LOG_FILE_LIMIT_SIZE <=? index r end)
    (modify (fun s => set_records (_records s ++ [new_record now]) s));;
  records ← gets _records;
  change_record (pred (length records)) (add_index size).

(** The [Index_Key] that begins at [header.service()]: three members that follow each other. *)
Definition header_key (header : list Z) : index_key :=
  mark_from 24 (slice (offset Link_Log_Header.service) Index_Key.size header).

(** The ring is [const] and changed all the same: its bytes are [mutable]. *)
Definition handle_a_log (header : list Z) (buf : ring) (now now' : Z) : M ring :=
  let key := header_key header in
  val ← on_cache (LRUCache.get key now);
  '(_, buf) ← lift (change_written header_offset1 (raw Index_Value.latest_file val) buf);
  '(_, buf) ← lift (change_written header_offset2 (raw Index_Value.latest_index val) buf);
  r ← back_record;
  on_cache (write_value key (put Index_Value.latest_file (file r)));;
  r ← back_record;
  on_cache (write_value key (put Index_Value.latest_index (index r)));;
  on_cache (LRUCache.put key true now');;
  mret buf.

(** [_logs.write(arr)]: [writev] on a file that is not open fails. *)
Definition logs_write (data : list Z) : M Z :=
  l ← gets _logs;
  match l with
  | None => mret (-1)
  | Some i =>
      let n := writev (zlen data) in
      modify (fun s => set_fs (append i (take (Z.to_nat n) data) (fs s)) s);; mret n
  end.

(** The loop over the records, from the [i]-th; [size] is what is left to write. *)
Fixpoint write_records (fuel i : nat) (size written_bytes : Z) (buf : ring) : M (Z * ring) :=
  match fuel with
  | O => mret (written_bytes, buf)
  | S fuel =>
      records ← gets _records;
      match records !! i with
      | None => mret (written_bytes, buf)
      | Some r =>
          if size =? 0 then mret (written_bytes, buf) else
          when (0 <? Z.of_nat i) (before ← deref (records !! pred i); open_new_log_file r (latest_time before));;
          let can_write := Z.min (u32 (index r - written r)) size in
          chunks ← lift (array_get (_buffer buf) (read_array can_write 0 buf));
          n ← logs_write (concat chunks);
          if negb (n =? can_write) then mret (written_bytes, buf) else
          buf ← lift (read_advance n buf);
          change_record i (add_written n);;
          records ← gets _records;
          r ← deref (records !! i);
          assert_ (index r =? written r);;
          write_records fuel (S i) (size - n) (written_bytes + n) buf
      end
  end.

Definition write_to_file (buf : ring) (size : Z) : M (Z * ring) :=
  assert_ (size <=? readable_len buf);;
  on_cache flush_cache;;
  records ← gets _records;
  write_records (length records) 0 size 0 buf.

(** ** Deletion *)

Fixpoint each {A} (f : A -> M unit) (l : list A) : M unit :=
  match l with [] => mret tt | x :: l => f x;; each f l end.

(** [assert(find(k).key == 0)]: a key that is not found gives a [Result] with key 0. *)
Definition assert_no_name (k : Z) : M unit :=
  o ← on_names (file_find (V := Z) k); assert_ (match o with Some (key, _) => key =? 0 | None => true end).
Definition assert_no_deletion (k : Z) : M unit :=
  o ← on_deletions (file_find (V := index_key) k); assert_ (match o with Some (key, _) => key =? 0 | None => true end).

Definition remove_log (time : Z) : M unit :=
  path ← get_log_name time;
  modify (fun s => set_fs (snd (remove_name path (fs s))) s).

(** The first keys of a range and of the one after its last. *)
Definition ends {A} (l : list (Z * A)) : option (Z * Z) :=
  match head l, list.last l with Some (k, _), Some (k', _) => Some (k, k' + 1) | _, _ => None end.

Definition erase_deletions (deletions : list (Z * index_key)) : M unit :=
  each (fun e => on_cache (LRUCache.erase e.2)) deletions;;
  '(first, stop) ← deref (ends deletions);
  _ ← on_deletions (file_erase_range (V := index_key) first stop);
  each (fun e => assert_no_deletion e.1) deletions.

(** The last line of the loop's body declares another [deletions]: the one of the loop stays empty
    and the loop ends. *)
Definition delete_oldest_files (size : Z) : M Z :=
  results ← on_names (file_search_from_begin (K := Z) (V := Z) size);
  if zlen results <? 2 then mret 0 else
  each (fun e => remove_log e.1) results;;
  '(first, stop) ← deref (ends results);
  _ ← on_names (file_erase_range (V := Z) first stop);
  each (fun e => assert_no_name e.1) results;;
  '(_, end_time) ← deref (list.last results);
  deletions ← on_deletions (file_below (V := index_key) end_time 256);
  match deletions with
  | [] => mret 0
  | _ =>
      erase_deletions deletions;;
      if zlen deletions <? 256 then mret (zlen deletions) else
      _ ← on_deletions (file_below (V := index_key) end_time 256);
      mret (zlen deletions)
  end.
End Storage.
