(* ===== verification/LinkLogQuery.v ===== *)
(** * LinkLogQuery: searching the log files (LogSystem/linkLog/src/LinkLogInterpreter.cpp)

    [get_query_set] collects where the newest log of every node of a service is; [query] takes the
    newest of these places, copies the log there and puts in its place the one its header points
    to.  [LinkLogCenter::search_link] hands what is copied to a handler, log by log.  The overload
    of [query] that fills a ring is not modelled: it reads the same file with [fread] and with
    [readv], and what it finds depends on the buffer of the [FILE]. *)

From stdpp Require Import gmap.
From S2P Require Import Prelude Packed BPTree BPTreeSession OrderedFile Calendar LRUCache.
From S2P Require Import Interpreter RingBuffer LinkLogFormat LinkLogReplay TimeText Disk LinkLogIndex StateMonad LinkLogStorage.
Local Open Scope Z_scope.

(** ** Places: the name of a file and an offset, in the order of [std::pair] *)

Definition place : Type := Z * Z.
Definition place_less (a b : place) : bool := (a.1 <? b.1) || (negb (b.1 <? a.1) && (a.2 <? b.2)).

(** [std::priority_queue]: kept in descending order, the top is the head. *)
Fixpoint emplace (x : place) (l : list place) : list place :=
  match l with
  | [] => [x]
  | y :: r => if place_less x y then y :: emplace x r else x :: y :: r
  end.

(** [QuerySet]. *)
Record query_set := mkQuery { _file : option reader; _pos : Z; _log_location : list place; _current_file : Z }.

Definition query_new : query_set := mkQuery None 0 [] 0.

Section Query.
Context {T F D : Type} `{!OrderedFile T index_key (list Z), !OrderedFile F Z Z, !OrderedFile D Z index_key}.
Context (localtime gmtime : Z -> Time) (openable : path -> bool).

Abbreviation state := (storage T F D).
Abbreviation M := (ST state).

(** The end of the range of a service: its last byte plus one, with a carry as the code has it
    ([(char)256] is 0).  The loop goes from the last byte down; the boolean is
    [ptr >= end.data()]. *)
Fixpoint carry (l : list Z) : list Z * bool :=
  match l with
  | [] => ([], false)
  | b :: l => if negb (b =? 0) then ((b + 1) mod 256 :: l, true) else let '(l, stopped) := carry l in (0 :: l, stopped)
  end.
Definition range_end (id : list Z) : list Z * bool := let '(l, stopped) := carry (reverse id) in (reverse l, stopped).

Definition service_key (service : list Z) : index_key := mark_from 24 (put Index_Key.service service (blank Index_Key.size)).

(** The loop over the results. *)
Fixpoint collect (first stop : index_key) (filter : index_key -> list Z -> bool) (results : list (index_key * list Z)) (l : list place) : M (list place) :=
  match results with
  | [] => mret l
  | (k, v) :: results =>
      assert_ ((klt first k || keq k first) && klt k stop);;
      if negb (filter k v) || (get Index_Value.latest_index v =? MAX_UINT) then collect first stop filter results l
      else collect first stop filter results (emplace (get Index_Value.latest_file v, get Index_Value.latest_index v) l)
  end.

(** A filter that is not set lets everything pass. *)
Definition get_query_set (id : list Z) (filter : option (index_key -> list Z -> bool)) : M (option query_set) :=
  on_cache flush_cache;;
  let '(stop, stopped) := range_end id in
  let k_begin := service_key id in
  let k_end := service_key stop in
  results ← on_index_file (if stopped then file_find_range (V := list Z) k_begin k_end else file_above_or_equal (V := list Z) k_begin);
  match results with
  | [] => mret None
  | _ => l ← collect k_begin k_end (default (fun _ _ => true) filter) results []; mret (Some (mkQuery None 0 l 0))
  end.

(** [get_log_file]. *)
Definition get_log_file (file_init_time : Z) : M (option reader) :=
  path ← get_log_name localtime gmtime file_init_time;
  d ← gets fs;
  mret (if openable path then (fun i => mkReader i 0) <$> open_read path d else None).

(** [prepare_read_a_log]: the first bytes of the log at the top, or nothing; then the set is gone. *)
Definition prepare_read_a_log (point : query_set) : M (option (list Z * query_set)) :=
  '(file_name, index) ← deref (head (_log_location point));
  point ←
    (if negb (file_name =? _current_file point) then
       f ← get_log_file file_name;
       mret match f with Some _ => Some (mkQuery f 0 (_log_location point) file_name) | None => None end
     else mret (Some point));
  match point with
  | None => mret None
  | Some point =>
      f ← deref (_file point);
      let '(moved, f) := seek_cur (index - _pos point) f in
      if negb moved then mret None else
      d ← gets fs;
      let '(msg, f) := read_file header_offset3 d f in
      if negb (zlen msg =? header_offset3) then mret None else
      mret (Some (msg, mkQuery (Some f) (index + header_offset3) (_log_location point) (_current_file point)))
  end.

(** [querying_a_log]: -1, 1 or 0, with the set and the bytes written at [ptr]. *)
Inductive step_result := Failed | NoRoom (point : query_set) | Copied (data : list Z) (point : query_set).

Definition msg_log_size (msg : list Z) : Z := le_decode (slice header_offset0 sizeof_uint16 msg).
Definition msg_latest_file (msg : list Z) : Z := int64_of (le_decode (slice header_offset1 sizeof_TimeInterval msg)).
Definition msg_latest_index (msg : list Z) : Z := le_decode (slice header_offset2 sizeof_uint32 msg).

Definition querying_a_log (point : query_set) (limit : Z) : M step_result :=
  o ← prepare_read_a_log point;
  match o with
  | None => mret Failed
  | Some (msg, point) =>
      let log_size := msg_log_size msg in
      if limit <? log_size + sizeof Link_Log_Header.size then mret (NoRoom point) else
      let need_write := log_size + sizeof Link_Log_Header.size - header_offset3 in
      d ← gets fs;
      f ← deref (_file point);
      let '(rest, f) := read_file need_write d f in
      if negb (zlen rest =? need_write) then mret Failed else
      let locations := tail (_log_location point) in
      let locations := if negb (msg_latest_index msg =? MAX_UINT)
                       then emplace (msg_latest_file msg, msg_latest_index msg) locations else locations in
      mret (Copied (msg ++ rest) (mkQuery (Some f) (_pos point + need_write) locations (_current_file point)))
  end.

(** The loop of [query]: what is written at [dest], and the set unless it is used up or gone. *)
Fixpoint query_loop (fuel : nat) (limit : Z) (point : query_set) : M (list Z * option query_set) :=
  match fuel with
  | O => lift (Fault OutOfFuel)
  | S fuel =>
      match _log_location point with
      | [] => mret ([], None)
      | _ =>
          if negb (0 <? limit) then mret ([], Some point) else
          r ← querying_a_log point limit;
          match r with
          | Failed => mret ([], None)
          | NoRoom point => mret ([], Some point)
          | Copied data point =>
              '(more, point) ← query_loop fuel (limit - zlen data) point;
              mret (data ++ more, point)
          end
      end
  end.

(** A round writes at least a header, so [limit] bounds the rounds. *)
Definition query (limit : Z) (point : option query_set) : M (list Z * option query_set) :=
  match point with
  | None => mret ([], None)
  | Some point => query_loop (S (Z.to_nat limit)) limit point
  end.

(** ** LinkLogCenter::search_link

    [buffer] holds what is not handed over yet ([rest] is its length); the result is the logs the
    handler receives. *)

Fixpoint search_loop (fuel : nat) (buffer_size : Z) (point : option query_set) (buffer : list Z) : M (list Link_Log) :=
  match fuel with
  | O => lift (Fault OutOfFuel)
  | S fuel =>
      match point, buffer with
      | None, [] => mret []
      | _, _ =>
          '(buffer, point, stop) ←
            match buffer with
            | [] =>
                '(written, ptr) ← query buffer_size point;
                assert_ (negb ((zlen written =? 0) && match ptr with Some _ => true | None => false end));;
                mret (written, ptr, zlen written =? 0)
            | _ => mret (buffer, point, false)
            end;
          if (stop : bool) then mret [] else
          header ← lift (mem_read buffer 0 (sizeof Link_Log_Header.size));
          let log_size := get Link_Log_Header.log_size (tail header) in
          assert_ (log_size + sizeof Link_Log_Header.size <=? zlen buffer);;
          text ← lift (mem_read buffer (sizeof Link_Log_Header.size) log_size);
          rest ← search_loop fuel buffer_size point (drop (Z.to_nat (sizeof Link_Log_Header.size + log_size)) buffer);
          mret (Link_Log_of (tail header) text :: rest)
      end
  end.

Definition search_link (fuel : nat) (service : list Z) (node_filter : index_key -> list Z -> bool) (buffer_size : Z) : M (list Link_Log) :=
  assert_ (65536 <=? buffer_size);;
  point ← get_query_set service (Some node_filter);
  search_loop fuel buffer_size point [].
End Query.
