(* ===== verification/LinkLogCenter.v ===== *)
(** * LinkLogCenter: the center of the link log (LogSystem/linkLog/src/LinkLogCenter.cpp)

    What the center does with the messages of its servers: the map of nodes that wait for their
    other half ([_check]), the timers, the handlers of the six messages and the loop of
    [handle_read] that ends by writing what it read to the log file.  The connections themselves
    ([add_server], [remove_server], [handle_error]) belong to the reactor and are not modelled; an
    address is a number, and the calls of the user's handler are a list. *)

From stdpp Require Import gmap.
From S2P Require Import Prelude Packed BPTree BPTreeSession OrderedFile Calendar LRUCache LRUSpec LRUSession LRUCalm.
From S2P Require Import RingBuffer LinkLogFormat LinkLogReplay TimeText Disk LinkLogIndex StateMonad LinkLogStorage.
Local Open Scope Z_scope.

(** [ID(service, node)], compared by its bytes. *)
Abbreviation node_id := (list Z * list Z)%type.

(** [LoggerCheckData]; [logger_timout] is the number of a [bool] on the heap. *)
Record LoggerCheckData := mkCheck {
  parent : list Z; type : Z; init_time : Z; parent_init_time : Z; logger_timout : option Z }.

(** The two constructors: neither copies the parent's initial time. *)
Definition check_of_register (logger : list Z) : LoggerCheckData :=
  mkCheck (get Register_Logger.parent_node logger) (get Register_Logger.type logger) 0 0 None.
Definition check_of_create (logger : list Z) : LoggerCheckData :=
  mkCheck (blank NODE_ID_SIZE) (get Create_Logger.type logger) (get Create_Logger.init_time logger) 0 None.

Record TimerData := mkTimer { expire_time : Z; iter : node_id; flag : option Z; timer_address : Z }.

(** What the user's handler hears, with the address of the server. *)
Inductive notice :=
  | Notice (address : Z) (call : handler_call)
  | Node_offline (address time : Z).

Record center (T F D : Type) := mkCenter {
  _check : gmap node_id LoggerCheckData;
  flags : gmap Z bool;
  next_flag : Z;
  _timers : list TimerData;
  _storage : storage T F D;
}.
Arguments mkCenter {T F D}. Arguments _check {T F D}. Arguments flags {T F D}. Arguments next_flag {T F D}.
Arguments _timers {T F D}. Arguments _storage {T F D}.

Definition ILLEGAL_LOGGER_TIMOUT : Z := 10000000000.

(** [_timers] is a [std::priority_queue]: kept in ascending order of expiry.  Timers that expire
    together come out in the order they went in; the heap may order them otherwise. *)
Fixpoint timers_emplace (t : TimerData) (l : list TimerData) : list TimerData :=
  match l with
  | [] => [t]
  | u :: r => if expire_time t <? expire_time u then t :: u :: r else u :: timers_emplace t r
  end.

Section Center.
Context {T F D : Type} `{!OrderedFile T index_key (list Z), !OrderedFile F Z Z, !OrderedFile D Z index_key}.
Context (localtime gmtime : Z -> Time) (openable : path -> bool) (writev : Z -> Z).

Abbreviation state := (center T F D).
Abbreviation M := (ST state).

Definition set_check (m : gmap node_id LoggerCheckData) (c : state) : state :=
  mkCenter m (flags c) (next_flag c) (_timers c) (_storage c).
Definition set_flags (m : gmap Z bool) (c : state) : state :=
  mkCenter (_check c) m (next_flag c) (_timers c) (_storage c).
Definition set_timers (l : list TimerData) (c : state) : state :=
  mkCenter (_check c) (flags c) (next_flag c) l (_storage c).

Definition on_storage {A} (m : ST (storage T F D) A) : M A := fun c =>
  match m (_storage c) with
  | Ret (a, s) => Ret (a, mkCenter (_check c) (flags c) (next_flag c) (_timers c) s)
  | Fault f => Fault f
  end.

(** ** LoggerCheckData and TimerData *)

(** [create()]: a new flag, true. *)
Definition check_create (id : node_id) (d : LoggerCheckData) : M unit := modify (fun c =>
  mkCenter (<[id := mkCheck (parent d) (type d) (init_time d) (parent_init_time d) (Some (next_flag c))]> (_check c))
    (<[next_flag c := true]> (flags c)) (next_flag c + 1) (_timers c) (_storage c)).

(** The object a pointer leads to, if it leads anywhere. *)
Definition flag_at (p : option Z) : M (Z * bool) :=
  i ← deref p; m ← gets flags; b ← deref (m !! i); mret (i, b).

(** [on_time()]. *)
Definition on_time (d : LoggerCheckData) : M unit :=
  '(i, _) ← flag_at (logger_timout d); modify (fun c => set_flags (<[i := false]> (flags c)) c).

(** [check_timeout()] of a timer: reads the flag and deletes it. *)
Definition timer_check_timeout (t : TimerData) : M bool :=
  '(i, b) ← flag_at (flag t); modify (fun c => set_flags (delete i (flags c)) c);; mret b.

Definition check_erase (id : node_id) : M unit := modify (fun c => set_check (delete id (_check c)) c).

(** [_check.try_emplace(id, logger)]: what is there, or nothing and the new data goes in. *)
Definition try_emplace (id : node_id) (d : LoggerCheckData) : M (option LoggerCheckData) :=
  m ← gets _check;
  match m !! id with
  | Some old => mret (Some old)
  | None => modify (fun c => set_check (<[id := d]> m) c);; mret None
  end.

Definition add_timer (expire : Z) (id : node_id) (address : Z) : M unit :=
  m ← gets _check;
  d ← deref (m !! id);
  modify (fun c => set_timers (timers_emplace (mkTimer expire id (logger_timout d) address) (_timers c)) c).

(** ** The handlers: how much was read, the notices, and the buffer

    [now] is what the clock shows; it is read several times in one message. *)

Definition handled : Type := Z * list notice * ring.

Definition notify (address : Z) (c : handler_call) : list notice := [Notice address c].

(** [if (buffer.readable_len() < sizeof(object)) return 0; buffer.read(&object, sizeof(object));] *)
Definition with_object (size : Z) (buffer : ring) (body : list Z -> M (list notice)) (now : Z) : M handled :=
  if readable_len buffer <? sizeof size then mret (0, [], buffer) else
  '(logger, buffer) ← lift (read_mark size buffer);
  notices ← body logger;
  on_storage (add_record (sizeof size) now);;
  mret (sizeof size, notices, buffer).

Definition register_body (address now : Z) (logger : list Z) : M (list notice) :=
  let service := get Register_Logger.service logger in
  let node := get Register_Logger.node logger in
  when (Decision <? get Register_Logger.type logger) (
    let id := (service, node) in
    old ← try_emplace id (check_of_register logger);
    match old with
    | Some d =>
        on_storage (update_logger service node (get Register_Logger.parent_init_time logger) (get Register_Logger.parent_node logger)
                      (get Register_Logger.type logger) (init_time d) now now);;
        on_time d;;
        check_erase id
    | None =>
        check_create id (check_of_register logger);;
        add_timer (get Register_Logger.expire_time logger) id address
    end);;
  mret (notify address (register_logger service node (get Register_Logger.parent_node logger) (get Register_Logger.type logger)
                          (get Register_Logger.time logger) (get Register_Logger.parent_init_time logger))).

Definition handle_register_logger (address now : Z) (buffer : ring) : M handled :=
  with_object Register_Logger.size buffer (register_body address now) now.

Definition create_body (address now : Z) (logger : list Z) : M (list notice) :=
  let service := get Create_Logger.service logger in
  let node := get Create_Logger.node logger in
  logger ←
    (if get Create_Logger.type logger =? BranchHead then
       let id := (service, node) in
       old ← try_emplace id (check_of_create logger);
       match old with
       | Some d =>
           on_time d;;
           check_erase id;;
           mret (put Create_Logger.parent_init_time (parent_init_time d)
                   (put Create_Logger.parent_node (parent d) (put Create_Logger.type (type d) logger)))
       | None =>
           check_create id (check_of_create logger);;
           add_timer (now + ILLEGAL_LOGGER_TIMOUT) id address;;
           mret logger
       end
     else mret logger);
  success ← on_storage (LinkLogStorage.create_logger service node (get Create_Logger.parent_init_time logger)
                          (get Create_Logger.parent_node logger) (get Create_Logger.type logger) (get Create_Logger.init_time logger));
  mret (notify address
    (if (success : bool) then
       if get Create_Logger.type logger =? Head
       then create_head_logger service node (get Create_Logger.init_time logger)
       else LinkLogReplay.create_logger service node (get Create_Logger.init_time logger)
     else handling_error service node (get Create_Logger.init_time logger) (error_code ConflictingNode))).

Definition handle_create_logger (address now : Z) (buffer : ring) : M handled :=
  with_object Create_Logger.size buffer (create_body address now) now.

Definition end_body (address now : Z) (logger : list Z) : M (list notice) :=
  let service := get End_Logger.service logger in
  let node := get End_Logger.node logger in
  on_storage (end_logger service node (get End_Logger.init_time logger) now);;
  mret (notify address (logger_end service node (get End_Logger.end_time logger))).

Definition handle_end_logger (address now : Z) (buffer : ring) : M handled :=
  with_object End_Logger.size buffer (end_body address now) now.

Definition error_body (address : Z) (logger : list Z) : M (list notice) :=
  mret (notify address (handling_error (get Error_Logger.service logger) (get Error_Logger.node logger)
                          (get Error_Logger.time logger) (get Error_Logger.error_type logger))).

Definition handle_error_logger (address now : Z) (buffer : ring) : M handled :=
  with_object Error_Logger.size buffer (error_body address) now.

(** The hang-up of the socket is the reactor's. *)
Definition handle_remove_server (address now : Z) (buffer : ring) : M handled :=
  with_object Node_Offline.size buffer (fun offline => mret [Node_offline address (get Node_Offline.time offline)]) now.

Definition handle_log (address now : Z) (buffer : ring) : M handled :=
  if readable_len buffer <? sizeof Link_Log_Header.size then mret (0, [], buffer) else
  bs ← lift (try_read (sizeof Link_Log_Header.size) 0 buffer);
  let header := tail bs in
  let log_size := get Link_Log_Header.log_size header in
  if readable_len buffer <? log_size + sizeof Link_Log_Header.size then mret (0, [], buffer) else
  buffer ← on_storage (handle_a_log header buffer now now);
  buffer ← lift (read_advance (sizeof Link_Log_Header.size) buffer);
  '(text, buffer) ← lift (read log_size buffer);
  on_storage (add_record (sizeof Link_Log_Header.size + log_size) now);;
  mret (sizeof Link_Log_Header.size + log_size, notify address (receive_log (Link_Log_of header text)), buffer).

(** ** handle_read *)

(** The [switch]; a byte that is no operation ends the process.  After the last message of a
    server nothing may follow it. *)
Definition handle_one (address now : Z) (buffer : ring) : M handled :=
  ot ← lift (try_read sizeof_OperationType 0 buffer);
  match operation_of (hd 0 ot) with
  | Some RegisterLogger => handle_register_logger address now buffer
  | Some CreateLogger => handle_create_logger address now buffer
  | Some EndLogger => handle_end_logger address now buffer
  | Some LinkLog => handle_log address now buffer
  | Some ErrorLogger => handle_error_logger address now buffer
  | Some NodeOffline =>
      '(read, notices, buffer) ← handle_remove_server address now buffer;
      assert_ ((readable_len buffer =? 0) || (read =? 0));;
      mret (read, notices, buffer)
  | _ => lift (Fault Exited)
  end.

Fixpoint handle_buffer (fuel : nat) (address now read total : Z) (buffer : ring) : M handled :=
  match fuel with
  | O => lift (Fault OutOfFuel)
  | S fuel =>
      if negb (read =? 0) && (sizeof_OperationType <? readable_len buffer) then
        '(read, notices, buffer) ← handle_one address now buffer;
        '(total, rest, buffer) ← handle_buffer fuel address now read (u32 (total + read)) buffer;
        mret (total, notices ++ rest, buffer)
      else mret (total, [], buffer)
  end.

(** What the center makes of the bytes in the input buffer of a server. *)
Definition handle_read (address now : Z) (buffer : ring) : M (list notice * ring) :=
  '(total, notices, buffer) ← handle_buffer (S (Z.to_nat (readable_len buffer))) address now 1 0 buffer;
  buffer ← lift (read_back total buffer);
  '(_, buffer) ← on_storage (write_to_file localtime gmtime openable writev buffer total);
  mret (notices, buffer).

(** ** check_timeout *)

(** The loop; it pops one timer in each round. *)
Fixpoint check_timers (fuel : nat) (now : Z) : M (list notice) :=
  match fuel with
  | O => lift (Fault OutOfFuel)
  | S fuel =>
      timers ← gets _timers;
      match timers with
      | [] => mret []
      | t :: _ =>
          if negb (expire_time t <=? now) then mret [] else
          late ← timer_check_timeout t;
          notices ←
            (if (late : bool) then
               m ← gets _check;
               d ← deref (m !! iter t);
               check_erase (iter t);;
               mret (if negb (type d =? RpcDecision)
                     then notify (timer_address t) (handling_error (iter t).1 (iter t).2 (expire_time t)
                            (error_code (if type d =? BranchHead then NotRegister else CreateTimeOut)))
                     else [])
             else mret []);
          modify (fun c => set_timers (tail (_timers c)) c);;
          rest ← check_timers fuel now;
          mret (notices ++ rest)
      end
  end.

Definition check_timeout (now : Z) : M (list notice) :=
  timers ← gets _timers; check_timers (S (length timers)) now.
End Center.
