(* ===== verification/LinkLogSpec.v ===== *)
(** * LinkLogSpec: what the storage of the link log keeps

    A log file is a sequence of messages.  Every log in it names the place of the log before it of
    the same node, and the index names the newest one of each node: [linked] says so of the bytes
    of the file, the bytes that are still in the ring, and the map the index shows.  [stored]
    adds the records, the open file and the trees.  Below are what the operations of the storage
    (LinkLogStorage.v) do to it, as long as one file is enough: a log that begins a new file is
    entered in the wrong one. *)

From stdpp Require Import gmap.
From S2P Require Import Prelude Packed BPTree BPTreeSession OrderedFile Calendar LRUCache LRUSpec LRUSession LRUCalm.
From S2P Require Import RingBuffer RingHistory LinkLogFormat LinkLogReplay TimeText Disk LinkLogIndex StateMonad LinkLogStorage.
Local Open Scope Z_scope.

(** ** Logs in a file *)

(** A log and where its message begins. *)
Record placed := mkPlaced { start : Z; what : Link_Log }.

Definition log_key (l : Link_Log) : index_key := Index_Key_of (service l) (node_init_time l) (node l).
Definition owner (p : placed) : index_key := log_key (what p).

Definition header_size : Z := sizeof Link_Log_Header.size.
Definition extent (p : placed) : Z := header_size + zlen (text (what p)).
Definition image (content : list Z) (p : placed) : list Z := slice (start p) (extent p) content.

(** The newest log of a node, of logs that are listed from the newest. *)
Definition prev_of (k : index_key) (l : list placed) : option Z := start <$> head (filter (fun p => owner p = k) l).

(** The file [F] holds, at its place, the message of a log whose node had its last log at [prev]. *)
Definition entry_at (F : Z) (content : list Z) (p : placed) (prev : option Z) : Prop :=
  exists header, zlen header = Link_Log_Header.size /\
    image content p = object LinkLog header ++ text (what p) /\
    get Link_Log_Header.log_size header = zlen (text (what p)) /\
    Link_Log_of header (text (what p)) = what p /\
    get Link_Log_Header.latest_index header = default MAX_UINT prev /\
    (is_Some prev -> get Link_Log_Header.latest_file header = F).

Fixpoint well_stored (F : Z) (content : list Z) (l : list placed) : Prop :=
  match l with
  | [] => True
  | p :: l =>
      0 <= start p /\ start p + extent p <= zlen content /\ extent p <= 65535 /\
      (forall q, q ∈ l -> start q < start p) /\ entry_at F content p (prev_of (owner p) l) /\ well_stored F content l
  end.

(** The value of a node points to its newest log. *)
Definition points_to (F : Z) (prev : option Z) (v : list Z) : Prop :=
  zlen v = Index_Value.size /\ get Index_Value.latest_index v = default MAX_UINT prev /\
  (is_Some prev -> get Index_Value.latest_file v = F) /\
  raw Index_Value.latest_index v = encode (uint_codec 4) (get Index_Value.latest_index v) /\
  raw Index_Value.latest_file v = encode time_codec (get Index_Value.latest_file v) /\
  is_time (get Index_Value.latest_file v).

Record linked (F : Z) (m : gmap index_key (list Z)) (content : list Z) (l : list placed) : Prop := {
  linked_values k v : m !! k = Some v -> points_to F (prev_of k l) v;
  linked_owners p : p ∈ l -> is_Some (m !! owner p);
  linked_stored : well_stored F content l;
}.

Lemma prev_of_cons k p l : prev_of k (p :: l) = if decide (owner p = k) then Some (start p) else prev_of k l.
Proof. unfold prev_of. rewrite filter_cons. by case_decide. Qed.

Lemma prev_of_elem k l a : prev_of k l = Some a -> exists p, p ∈ l /\ owner p = k /\ start p = a.
Proof.
  induction l as [| p l IH]; [done |]. rewrite prev_of_cons. case_decide as Hk.
  - intros [= <-]. exists p. split; [by left | done].
  - intros Ha. destruct (IH Ha) as (q & Hq & Hqk). exists q. split; [by right | done].
Qed.

Lemma prev_of_none k l : prev_of k l = None -> forall p, p ∈ l -> owner p <> k.
Proof.
  induction l as [| q l IH]; [by intros _ p ?%not_elem_of_nil |]. rewrite prev_of_cons. case_decide as Hk; [done |].
  intros Hn p [-> | Hp]%elem_of_cons; [done | by apply IH].
Qed.

Lemma well_stored_elem F content l p : well_stored F content l -> p ∈ l -> 0 <= start p /\ start p + extent p <= zlen content /\ extent p <= 65535.
Proof.
  induction l as [| q l IH]; [by intros _ ?%not_elem_of_nil |]. intros (H0 & H1 & H2 & _ & _ & Hl) [-> | Hp]%elem_of_cons; [done | by apply IH].
Qed.

Lemma extent_pos p : 48 <= extent p.
Proof. unfold extent. change header_size with 48. pose proof (zlen_nonneg (text (what p))). lia. Qed.

Lemma prev_of_bound F content l k a : well_stored F content l -> prev_of k l = Some a -> 0 <= a < zlen content.
Proof.
  intros Hw (p & Hp & _ & <-)%prev_of_elem. pose proof (well_stored_elem _ _ _ _ Hw Hp). pose proof (extent_pos p).
  lia.
Qed.

Lemma image_app content data p : 0 <= start p -> start p + extent p <= zlen content -> image (content ++ data) p = image content p.
Proof.
  intros H0 H1. pose proof (extent_pos p). unfold image, slice, zlen in *. rewrite drop_app_le by lia. rewrite take_app_le; [done |]. rewrite length_drop. lia.
Qed.

(** What follows a log does not matter to it. *)
Lemma well_stored_app F content data l : well_stored F content l -> well_stored F (content ++ data) l.
Proof.
  induction l as [| p l IH]; [done |]. intros (H0 & H1 & H2 & H3 & (header & H4) & Hl). rewrite <- (image_app content data p) in H4 by done.
  split; [done |]. split; [rewrite zlen_app; pose proof (zlen_nonneg data); lia |]. split; [done |]. split; [done |]. split; [by exists header | by apply IH].
Qed.

Lemma linked_app F m content data l : linked F m content l -> linked F m (content ++ data) l.
Proof. intros [Hv Ho Hs]. split; [done | done | by apply well_stored_app]. Qed.

(** ** Values *)

Lemma fits_max_uint : is_uint 4 MAX_UINT.
Proof. change (0 <= 4294967295 < 4294967296). lia. Qed.
Lemma fits_zero_time : is_time 0.
Proof. change (-9223372036854775808 <= 0 < 9223372036854775808). lia. Qed.
#[export] Hint Resolve fits_max_uint fits_zero_time : core.

Lemma new_value fn pt p ty : is_time pt -> is_node p -> is_uint 1 ty -> points_to fn None (Index_Value.make pt p ty 0 MAX_UINT).
Proof.
  intros Ht Hp Hty. pose proof fits_max_uint as Hm. pose proof fits_zero_time as Hz.
  destruct (value_members p 0 pt ty MAX_UINT) as (Hl & _ & _ & _ & Hf & Hi); [assumption.. |].
  split; [done |]. rewrite Hi, Hf. split; [done |]. split; [by intros [] |]. unfold Index_Value.make.
  split; [rewrite (raw_put_same Index_Value.size) by side; done |].
  split; [| done]. rewrite (raw_put_other Index_Value.size) by side. rewrite (raw_put_same Index_Value.size) by side. done.
Qed.

(** Registration changes other members. *)
Lemma update_value fn prev v pt p ty : is_time pt -> is_node p -> is_uint 1 ty -> points_to fn prev v ->
  points_to fn prev (put Index_Value.type ty (put Index_Value.parent_node p (put Index_Value.parent_init_time pt v))).
Proof.
  intros Ht Hp Hty (Hl & Hi & Hf & Hri & Hrf & Htf). unfold points_to.
  split; [sized |]. repeat member Index_Value.size.
  by rewrite !(raw_put_other Index_Value.size) by side.
Qed.

(** A log makes itself the newest. *)
Lemma log_value fn a v : is_time fn -> is_uint 4 a -> zlen v = Index_Value.size ->
  points_to fn (Some a) (put Index_Value.latest_index a (put Index_Value.latest_file fn v)).
Proof.
  intros Ht Ha Hl. unfold points_to. split; [sized |]. repeat member Index_Value.size.
  rewrite (raw_put_same Index_Value.size) by side.
  rewrite !(raw_put_other Index_Value.size) by side.
  by rewrite (raw_put_same Index_Value.size) by side.
Qed.

(** ** A log is added *)

(** Its header with the place of the log before it. *)
Definition linked_header (v header : list Z) : list Z :=
  put Link_Log_Header.latest_index (get Index_Value.latest_index v) (put Link_Log_Header.latest_file (get Index_Value.latest_file v) header).

Lemma linked_header_members v header : zlen header = Link_Log_Header.size -> is_uint 4 (get Index_Value.latest_index v) -> is_time (get Index_Value.latest_file v) ->
  zlen (linked_header v header) = Link_Log_Header.size /\
  get Link_Log_Header.log_size (linked_header v header) = get Link_Log_Header.log_size header /\
  (forall text, Link_Log_of (linked_header v header) text = Link_Log_of header text) /\
  get Link_Log_Header.latest_index (linked_header v header) = get Index_Value.latest_index v /\
  get Link_Log_Header.latest_file (linked_header v header) = get Index_Value.latest_file v.
Proof.
  intros Hl Hi Hf. unfold linked_header. split; [sized |]. unfold Link_Log_of. by repeat member Link_Log_Header.size.
Qed.

Lemma points_fits fn m content l k v : linked fn m content l -> zlen content <= MAX_UINT -> m !! k = Some v ->
  is_uint 4 (get Index_Value.latest_index v) /\ is_time (get Index_Value.latest_file v).
Proof.
  intros [Hv _ Hs] Hc Hk. destruct (Hv k v Hk) as (_ & -> & _ & _ & _ & Ht). split; [| done].
  destruct (prev_of k l) as [a |] eqn:E; [| done]. apply (prev_of_bound _ _ _ _ _ Hs) in E. change (0 <= a < 4294967296). unfold MAX_UINT in *. lia.
Qed.

Lemma log_linked fn m content l v header text :
  let lg := Link_Log_of header text in
  linked fn m content l -> is_time fn -> zlen content <= MAX_UINT ->
  zlen header = Link_Log_Header.size -> get Link_Log_Header.log_size header = zlen text -> header_size + zlen text <= 65535 ->
  m !! log_key lg = Some v ->
  linked fn (<[log_key lg := put Index_Value.latest_index (zlen content) (put Index_Value.latest_file fn v)]> m)
    (content ++ object LinkLog (linked_header v header) ++ text) (mkPlaced (zlen content) lg :: l).
Proof.
  intros lg Hlinked Hfn Hc Hh Hsz Hmax Hk. destruct (points_fits _ _ _ _ _ _ Hlinked Hc Hk) as [Hi Hf].
  destruct (linked_header_members v header Hh Hi Hf) as (Hl & Hs & Hlog & Hpi & Hpf). pose proof Hlinked as [Hv Ho Hst].
  assert (Ha : is_uint 4 (zlen content)). { change (0 <= zlen content < 4294967296). pose proof (zlen_nonneg content). unfold MAX_UINT in *. lia. }
  destruct (Hv _ _ Hk) as (Hvl & Hvi & Hvf & _). split.
  - intros j x. rewrite prev_of_cons. unfold owner. cbn [what start]. case_decide as Hj.
    + subst j. rewrite lookup_insert_eq. intros [= <-]. by apply log_value.
    + rewrite lookup_insert_ne by done. apply Hv.
  - intros p [-> | Hp]%elem_of_cons; [unfold owner; cbn [what]; rewrite lookup_insert_eq; eauto |].
    destruct (decide (log_key lg = owner p)) as [-> |]; [rewrite lookup_insert_eq; eauto | rewrite lookup_insert_ne by done; eauto].
  - cbn [well_stored start]. assert (He : extent (mkPlaced (zlen content) lg) = zlen (object LinkLog (linked_header v header) ++ text)).
    { rewrite zlen_app, zlen_object, Hl. done. }
    split; [apply zlen_nonneg |]. split; [rewrite zlen_app; lia |]. split; [done |]. split; [| split; [| by apply well_stored_app]].
    + intros q Hq. pose proof (well_stored_elem _ _ _ _ Hst Hq). pose proof (extent_pos q). lia.
    + exists (linked_header v header). unfold image, owner. cbn [what start]. split; [done |]. split; [| split; [by rewrite Hs | split; [apply Hlog |]]].
      * rewrite He. pose proof (slice_mid content (object LinkLog (linked_header v header) ++ text) [] _ _ eq_refl eq_refl) as Hm.
        rewrite app_nil_r in Hm. exact Hm.
      * split; [by rewrite Hpi | intros Hp; rewrite Hpf; by apply Hvf].
Qed.

(** ** The storage *)

Section Stored.
Context {T F D : Type} `{!OrderedFile T index_key (list Z), !OrderedFile F Z Z, !OrderedFile D Z index_key}.
Context `{!OrderedFileLaws T index_key (list Z), !OrderedFileLaws D Z index_key}.
Context (localtime gmtime : Z -> Time) (openable : path -> bool) (writev : Z -> Z).
Abbreviation state := (storage T F D).
Implicit Types (s : state).

(** One record, whose file is open: [pending] is what is handled and not written yet. *)
Record holds (file_name i : Z) (pending : list Z) s : Prop := {
  holds_open : _logs s = Some i;
  holds_record : exists t, _records s = [mkRecord file_name t (zlen (content_of i (fs s) ++ pending)) (zlen (content_of i (fs s)))];
  holds_name : exists t, to_string localtime gmtime file_name true false = Ret t /\
    let p := _dictionary_path s ++ t ++ link_log_file_suffix in openable p = true /\ names (fs s) !! p = Some i;
  holds_disk : disk_ok (fs s);
  holds_time : is_time file_name /\ file_name <> 0;
}.

Record stored (file_name i : Z) (m : gmap index_key (list Z)) (l : list placed) (pending : list Z) s : Prop := {
  stored_holds : holds file_name i pending s;
  stored_index : indexed (_cache s) m;
  stored_deletions : file_ok (T := D) (K := Z) (V := index_key) (_node_deletion s);
  stored_linked : linked file_name m (content_of i (fs s) ++ pending) l;
}.

Lemma holds_alive file_name i pending s : holds file_name i pending s -> is_Some (inodes (fs s) !! i).
Proof. intros [_ _ (t & _ & _ & Hn) [_ Hd] _]. by eapply Hd. Qed.

Definition with_cache (c : Cache (index_state T) index_key (list Z)) s : state :=
  mkStorage (_logs s) (_records s) (_dictionary_path s) (_filename_file s) (_node_deletion s) c (fs s).

Lemma holds_cache file_name i pending s c : holds file_name i pending s -> holds file_name i pending (with_cache c s).
Proof. intros [Ho Hr Hn Hd Ht]. by split. Qed.

Lemma stored_cache file_name i m m' l pending s c : stored file_name i m l pending s -> indexed c m' ->
  linked file_name m' (content_of i (fs s) ++ pending) l -> stored file_name i m' l pending (with_cache c s).
Proof. intros [Hh Hi Hd Hl] Hc Hl'. split; [by apply holds_cache | done..]. Qed.

(** ** Nodes *)

Lemma linked_insert fn m content l k v : linked fn m content l -> m !! k = None -> points_to fn None v -> linked fn (<[k := v]> m) content l.
Proof.
  intros [Hv Ho Hs] Hk Hp. split; [| | done].
  - intros j x. destruct (decide (k = j)) as [-> | Hj].
    + rewrite lookup_insert_eq. intros [= <-]. destruct (prev_of j l) eqn:E; [| done].
      apply prev_of_elem in E as (p & Hp' & <- & _). apply Ho in Hp' as [? Hx]. congruence.
    + rewrite lookup_insert_ne by done. apply Hv.
  - intros p Hp'. destruct (decide (k = owner p)) as [-> | Hj]; [rewrite lookup_insert_eq | rewrite lookup_insert_ne by done]; eauto.
Qed.

Lemma linked_update fn m content l k v v' : linked fn m content l -> m !! k = Some v ->
  (forall prev, points_to fn prev v -> points_to fn prev v') -> linked fn (<[k := v']> m) content l.
Proof.
  intros [Hv Ho Hs] Hk Hp. split; [| | done].
  - intros j x. destruct (decide (k = j)) as [-> | Hj]; [rewrite lookup_insert_eq; intros [= <-]; by apply Hp, Hv | rewrite lookup_insert_ne by done; apply Hv].
  - intros p Hp'. destruct (decide (k = owner p)) as [-> | Hj]; [rewrite lookup_insert_eq; eauto | rewrite lookup_insert_ne by done; eauto].
Qed.

Lemma on_cache_ok {A} (r : LRUCache.M (St := index_state T) (Key := index_key) (Value := list Z) A) s a c :
  r (_cache s) = LRUCache.Done a c -> on_cache r s = Ret (a, with_cache c s).
Proof. intros E. unfold on_cache. by rewrite E. Qed.

Lemma store_logger_ok fn i m l pending s service node pt p ty t :
  stored fn i m l pending s -> is_time pt -> is_node p -> is_uint 1 ty ->
  let k := Index_Key_of service t node in
  exists s', create_logger service node pt p ty t s = Ret (bool_decide (m !! k = None), s') /\ fs s' = fs s /\
    stored fn i (if decide (m !! k = None) then <[k := Index_Value.make pt p ty 0 MAX_UINT]> m else m) l pending s'.
Proof.
  intros Hs Ht Hp Hty k. pose proof Hs as [Hh Hi Hd Hl].
  destruct (index_insert_ok (_cache s) m k (Index_Value.make pt p ty 0 MAX_UINT) Hi) as (h & E & Hi').
  exists (with_cache (with_helper h (_cache s)) s). split; [unfold create_logger, on_index; fold k; by rewrite E |]. split; [done |].
  apply (stored_cache fn i m); [done.. |]. case_decide; [| done]. apply linked_insert; [done.. |]. by apply new_value.
Qed.

Lemma update_logger_ok fn i m l pending s service node pt p ty t now now' v :
  stored fn i m l pending s -> is_time pt -> is_node p -> is_uint 1 ty ->
  let k := Index_Key_of service t node in m !! k = Some v ->
  exists s', update_logger service node pt p ty t now now' s = Ret (tt, s') /\ fs s' = fs s /\
    stored fn i (<[k := put Index_Value.type ty (put Index_Value.parent_node p (put Index_Value.parent_init_time pt v))]> m) l pending s'.
Proof.
  intros Hs Ht Hp Hty k Hk. pose proof Hs as [Hh Hi Hd Hl].
  destruct (index_fetch (_cache s) m k v now Hi Hk) as (c1 & E1 & H1).
  destruct (index_assign c1 m k v (put Index_Value.parent_init_time pt) H1 Hk) as (c2 & E2 & H2).
  destruct (index_assign c2 _ k _ (put Index_Value.parent_node p) H2 (lookup_insert_eq _ _ _)) as (c3 & E3 & H3).
  destruct (index_assign c3 _ k _ (put Index_Value.type ty) H3 (lookup_insert_eq _ _ _)) as (c4 & E4 & H4).
  destruct (index_return c4 _ k now' H4) as (c5 & E5 & H5). rewrite !insert_insert_eq in H5.
  exists (with_cache c5 s). split; [| split; [done |]].
  - unfold update_logger, mbind, ST_bind. fold k. rewrite (on_cache_ok _ s v c1 E1). rewrite (on_cache_ok _ _ tt c2) by exact E2.
    rewrite (on_cache_ok _ _ tt c3) by exact E3. rewrite (on_cache_ok _ _ tt c4) by exact E4. by rewrite (on_cache_ok _ _ tt c5) by exact E5.
  - apply (stored_cache fn i m); [done.. |]. eapply linked_update; [done.. |]. intros prev. by apply update_value.
Qed.

Lemma end_logger_ok fn i m l pending s service node t now :
  stored fn i m l pending s ->
  exists s', end_logger service node t now s = Ret (tt, s') /\ fs s' = fs s /\ stored fn i m l pending s'.
Proof.
  intros [[Ho Hr Hn Hdk Ht] Hi Hd Hl]. destruct (file_insert_ok now (Index_Key_of service t node) (_node_deletion s) Hd) as (t' & E & Ht' & _).
  eexists. split; [unfold end_logger, mbind, ST_bind, on_deletions; rewrite E; reflexivity |]. split; [done |]. by split.
Qed.

(** ** Logs *)

Lemma add_record_holds fn i pending data s now :
  holds fn i pending s -> zlen (content_of i (fs s) ++ pending ++ data) <= LOG_FILE_LIMIT_SIZE -> 0 < zlen data ->
  exists r, add_record (zlen data) now s = Ret (tt, set_records r s) /\ holds fn i (pending ++ data) (set_records r s).
Proof.
  intros [Ho (t & Hr) Hn Hdk Ht] Hlim Hpos. rewrite app_assoc, zlen_app in Hlim. unfold LOG_FILE_LIMIT_SIZE in Hlim.
  pose proof (zlen_nonneg (content_of i (fs s) ++ pending)).
  eexists. split.
  - unfold add_record, mbind, ST_bind, gets, change_record, modify. rewrite Hr. cbn [list.last index].
    rewrite (proj2 (Z.leb_gt _ _)) by (unfold LOG_FILE_LIMIT_SIZE; lia). cbn [when mret ST_ret]. rewrite Hr. reflexivity.
  - split; try done. exists t. cbn. unfold add_index, u32. cbn. rewrite Z.mod_small by lia. by rewrite app_assoc, (zlen_app (_ ++ _)).
Qed.

Lemma add_record_ok fn i m l pending data s now :
  stored fn i m l pending s -> zlen (content_of i (fs s) ++ pending ++ data) <= LOG_FILE_LIMIT_SIZE -> 0 < zlen data ->
  exists s', add_record (zlen data) now s = Ret (tt, s') /\ fs s' = fs s /\ stored fn i m l (pending ++ data) s'.
Proof.
  intros [Hh Hi Hd Hl] Hlim Hpos. destruct (add_record_holds _ _ _ _ _ now Hh Hlim Hpos) as (r & E & Hh').
  exists (set_records r s). split; [done |]. split; [done |]. split; [done.. | rewrite app_assoc; by apply linked_app].
Qed.

(** Bytes of the mark behind the byte of the operation. *)
Lemma blit_object ot o d mark rest : 0 <= o -> o + zlen d <= zlen mark ->
  blit (1 + o) d (object ot mark ++ rest) = object ot (blit o d mark) ++ rest.
Proof.
  intros Ho Hd. pose proof (zlen_nonneg d). destruct (split_at mark o) as (X & Y & -> & HX); [lia |]. rewrite zlen_app in Hd.
  destruct (split_at Y (zlen d)) as (E & W & -> & HE); [lia |]. rewrite (blit_mid X E) by lia.
  unfold object. rewrite !app_comm_cons, <- !app_assoc. rewrite (blit_mid (operation_code ot :: X) E) by (rewrite ?zlen_cons; lia).
  done.
Qed.

#[local] Transparent put.
Lemma put_blit {A} (f : field A) a o : put f a o = blit (offset f) (encode (shape f) a) o.
Proof. reflexivity. Qed.
#[local] Opaque put.

Lemma zlen_content_limit fn i m l pending s : stored fn i m l pending s -> zlen (content_of i (fs s) ++ pending) < LOG_FILE_LIMIT_SIZE ->
  is_uint 4 (zlen (content_of i (fs s) ++ pending)) /\ zlen (content_of i (fs s) ++ pending) <= MAX_UINT.
Proof.
  intros _ Hl. pose proof (zlen_nonneg (content_of i (fs s) ++ pending)). unfold LOG_FILE_LIMIT_SIZE, MAX_UINT in *.
  split; [change (0 <= zlen (content_of i (fs s) ++ pending) < 4294967296) |]; lia.
Qed.

(** The header in the ring gets the place of the log before it, the index that of this one. *)
Lemma handle_a_log_ok fn i m l pending s header rest buf v now now' :
  stored fn i m l pending s -> ring_wf buf -> recalls pending buf -> contents buf = object LinkLog header ++ rest ->
  zlen header = Link_Log_Header.size -> zlen (content_of i (fs s) ++ pending) < LOG_FILE_LIMIT_SIZE ->
  m !! header_key header = Some v ->
  exists buf' c, handle_a_log header buf now now' s = Ret (buf', with_cache c s) /\
    ring_wf buf' /\ recalls pending buf' /\ _size buf' = _size buf /\ contents buf' = object LinkLog (linked_header v header) ++ rest /\
    indexed c (<[header_key header := put Index_Value.latest_index (zlen (content_of i (fs s) ++ pending)) (put Index_Value.latest_file fn v)]> m).
Proof.
  intros Hs Hwf Hrec Hc Hh Hlim Hk. destruct (zlen_content_limit _ _ _ _ _ _ Hs Hlim) as [_ Hmax]. pose proof Hs as [[Ho (t & Hr) Hn Hdk Ht] Hi Hd Hl].
  destruct (linked_values _ _ _ _ Hl _ _ Hk) as (Hvl & _ & _ & Hri & Hrf & _). destruct (points_fits _ _ _ _ _ _ Hl Hmax Hk) as [Hfi Hff].
  destruct (index_fetch (_cache s) m _ v now Hi Hk) as (c1 & E1 & H1).
  destruct (index_assign c1 m _ v (put Index_Value.latest_file fn) H1 Hk) as (c2 & E2 & H2).
  destruct (index_assign c2 _ _ _ (put Index_Value.latest_index (zlen (content_of i (fs s) ++ pending))) H2 (lookup_insert_eq _ _ _)) as (c3 & E3 & H3).
  destruct (index_return c3 _ _ now' H3) as (c4 & E4 & H4). rewrite insert_insert_eq in H4.
  assert (Hzf : zlen (raw Index_Value.latest_file v) = 8) by (rewrite Hrf; by apply (encode_width time_codec)).
  assert (Hzi : zlen (raw Index_Value.latest_index v) = 4) by (rewrite Hri; by apply (encode_width (uint_codec 4))).
  assert (Hrd : _readable buf = 48 + zlen rest).
  { rewrite <- zlen_contents, Hc, zlen_app, zlen_object, Hh by done. done. }
  pose proof (zlen_nonneg rest).
  destruct (recalls_change pending header_offset1 (raw Index_Value.latest_file v) buf Hwf Hrec) as (b1 & E5 & Hwf1 & Hc1 & Hs1 & Hrec1);
    [done | rewrite Hzf; change header_offset1 with 3; lia |].
  rewrite Hc in Hc1. change header_offset1 with (1 + 2) in Hc1. rewrite blit_object in Hc1 by (rewrite ?Hzf, ?Hh; change Link_Log_Header.size with 47; lia).
  rewrite Hrf in Hc1. assert (Hh1 : zlen (blit 2 (encode time_codec (get Index_Value.latest_file v)) header) = 47).
  { rewrite zlen_blit; [done |]. apply in_block_intro; [lia | apply zlen_nonneg |]. rewrite <- Hrf, Hzf, Hh. change Link_Log_Header.size with 47. lia. }
  assert (Hrd1 : _readable b1 = 48 + zlen rest).
  { rewrite <- zlen_contents, Hc1, zlen_app, zlen_object, Hh1 by done. done. }
  destruct (recalls_change pending header_offset2 (raw Index_Value.latest_index v) b1 Hwf1 Hrec1) as (b2 & E6 & Hwf2 & Hc2 & Hs2 & Hrec2);
    [done | rewrite Hzi; change header_offset2 with 11; lia |].
  rewrite Hc1 in Hc2. change header_offset2 with (1 + 10) in Hc2. rewrite blit_object in Hc2 by (rewrite ?Hzi, ?Hh1; lia). rewrite Hri in Hc2.
  exists b2, c4. split; [| split; [done | split; [done | split; [by rewrite Hs2 |]]]].
  - unfold handle_a_log, mbind, ST_bind. rewrite (on_cache_ok _ s v c1 E1). unfold lift. rewrite E5, E6. unfold back_record, mbind, ST_bind, gets, deref, lift.
    cbn [with_cache _records]. rewrite Hr. cbn [list.last of_option file index]. rewrite (on_cache_ok _ _ tt c2) by exact E2. cbn [with_cache _records]. rewrite Hr.
    cbn [list.last of_option file index]. rewrite (on_cache_ok _ _ tt c3) by exact E3. rewrite (on_cache_ok _ _ tt c4) by exact E4. done.
  - split; [| exact H4]. rewrite Hc2. unfold linked_header. rewrite !put_blit. done.
Qed.

Lemma log_added_ok fn i m l pending s c v header text now :
  let lg := Link_Log_of header text in
  let content := content_of i (fs s) ++ pending in
  let message := object LinkLog (linked_header v header) ++ text in
  stored fn i m l pending s -> zlen (content ++ message) <= LOG_FILE_LIMIT_SIZE ->
  zlen header = Link_Log_Header.size -> get Link_Log_Header.log_size header = zlen text -> header_size + zlen text <= 65535 ->
  m !! log_key lg = Some v ->
  indexed c (<[log_key lg := put Index_Value.latest_index (zlen content) (put Index_Value.latest_file fn v)]> m) ->
  exists s', add_record (header_size + zlen text) now (with_cache c s) = Ret (tt, s') /\ fs s' = fs s /\
    stored fn i (<[log_key lg := put Index_Value.latest_index (zlen content) (put Index_Value.latest_file fn v)]> m)
      (mkPlaced (zlen content) lg :: l) (pending ++ message) s'.
Proof.
  intros lg content message [Hh Hi Hd Hl] Hlim Hz Hsz Hmax Hk Hc.
  assert (Hcm : zlen content <= MAX_UINT).
  { rewrite zlen_app in Hlim. pose proof (zlen_nonneg message). unfold LOG_FILE_LIMIT_SIZE, MAX_UINT in *. lia. }
  destruct (points_fits _ _ _ _ _ _ Hl Hcm Hk) as [Hfi Hff]. destruct (linked_header_members v header Hz Hfi Hff) as (Hzl & _).
  assert (Hm : zlen message = header_size + zlen text) by (unfold message; rewrite zlen_app, zlen_object, Hzl; done).
  rewrite <- Hm. destruct (add_record_holds fn i pending message (with_cache c s) now) as (r & E & Hh').
  { by apply holds_cache. }
  { by rewrite app_assoc. }
  { rewrite Hm. change header_size with 48. pose proof (zlen_nonneg text). lia. }
  exists (set_records r (with_cache c s)). split; [done |]. split; [done |]. split; [done.. |]. cbn [set_records with_cache fs].
  rewrite app_assoc. apply log_linked; try done. apply Hh.
Qed.

(** ** Writing *)

Context (writes_all : forall n, 0 <= n -> writev n = n).

Lemma write_to_file_ok fn i m l pending s buf rest :
  stored fn i m l pending s -> ring_wf buf -> contents buf = pending ++ rest -> zlen (content_of i (fs s) ++ pending) <= LOG_FILE_LIMIT_SIZE ->
  wp (write_to_file localtime gmtime openable writev buf (zlen pending)) (fun r s' =>
    r.1 = zlen pending /\ ring_wf r.2 /\ _size r.2 = _size buf /\ contents r.2 = rest /\ stored fn i m l [] s' /\
    content_of i (fs s') = content_of i (fs s) ++ pending) s.
Proof.
  intros [Hh Hi Hd Hl] Hwf Hc Hlim. destruct (index_flush (_cache s) m Hi) as (c & Ec & Hic & _).
  pose proof (holds_alive _ _ _ _ Hh) as Halive. destruct Hh as [Ho (t & Hr) Hn Hdk Ht].
  pose proof (zlen_nonneg pending) as Hp0. pose proof (zlen_nonneg (content_of i (fs s))). pose proof (zlen_nonneg rest).
  assert (Hrd : _readable buf = zlen pending + zlen rest) by (by rewrite <- zlen_contents, Hc, zlen_app).
  unfold write_to_file. wp_run. apply st_assert; [apply Z.leb_le; unfold readable_len; lia |]. wp_run.
  wp_eq (on_cache_ok _ s tt c Ec). cbn [with_cache _records]. rewrite Hr. cbn [length write_records].
  wp_run. cbn [with_cache _records]. rewrite Hr. change ([?x] !! 0%nat) with (Some x). cbv iota beta.
  rewrite zlen_app in *. destruct (Z.eqb_spec (zlen pending) 0) as [Hz | Hz].
  - assert (pending = []) as -> by (by destruct pending). apply st_ret. cbn [fst snd]. rewrite !app_nil_r.
    split; [done | split; [done | split; [done | split; [done | split; [| done]]]]].
    split; [apply holds_cache | done.. |]; [| by rewrite app_nil_r in *]. split; try done. exists t. rewrite app_nil_r, Hr, Hz, Z.add_0_r. done.
  - change (0 <? Z.of_nat 0) with false. unfold when. wp_run. cbn [index written].
    replace (zlen (content_of i (fs s)) + zlen pending - zlen (content_of i (fs s))) with (zlen pending) by lia.
    unfold LOG_FILE_LIMIT_SIZE in Hlim. unfold u32. rewrite Z.mod_small, Z.min_id by lia.
    destruct (read_array_spec (zlen pending) 0 buf Hwf) as (a & b & Ea & Hab); [lia | lia | unfold MAX_UINT; lia |].
    assert (Hcat : concat [a; b] = pending) by (cbn [concat]; rewrite app_nil_r, Hab, Hc; unfold slice; by rewrite drop_0, take_zlen).
    wp_run. eapply st_lift; [exact Ea |]. rewrite Hcat. unfold logs_write. wp_run. cbn [with_cache _logs]. rewrite Ho. wp_run.
    rewrite writes_all by lia. rewrite take_ge by (unfold zlen; lia). rewrite Z.eqb_refl. cbn [negb]. wp_run.
    destruct (read_advance_spec (zlen pending) buf Hwf) as (buf' & Er & Hwf' & Hbuf & _ & Hc'); [lia |]. eapply st_lift; [exact Er |]. wp_run.
    unfold change_record. wp_run. cbn [set_fs set_records with_cache _records fs]. rewrite Hr. eapply st_deref; [reflexivity |]. wp_run.
    apply st_assert; [apply Z.eqb_eq; cbn; unfold u32; rewrite Z.mod_small; lia |]. wp_run. cbn [fst snd].
    split; [lia |]. split; [done |]. split; [unfold _size; by rewrite Hbuf |]. split; [rewrite Hc', Hc; by apply drop_zlen |].
    assert (Hca : forall j, content_of j (append i pending (fs s)) = if decide (j = i) then content_of i (fs s) ++ pending else content_of j (fs s))
      by (intros j; by apply content_append).
    split; [| cbn [set_records set_fs with_cache fs]; by rewrite Hca, decide_True].
    split; [split | done.. |]; cbn [set_records set_fs with_cache fs _records _logs _cache _dictionary_path]; try done.
    + exists t. rewrite Hca, decide_True by done. rewrite app_nil_r, zlen_app. unfold add_written, u32. cbn. rewrite Z.mod_small by lia. done.
    + by apply append_keeps_disk.
    + rewrite Hca, decide_True, app_nil_r by done. done.
Qed.

(** ** A new storage: three empty trees and an empty directory *)

Context `{!OrderedFileLaws F Z Z}.
Abbreviation ok_file X K V := (file_ok (T := X) (K := K) (V := V)).
Abbreviation no_pairs X K V := (fun t : X => file_pairs (T := X) (K := K) (V := V) t = []).

Lemma search_from_end_empty (t : F) limit : ok_file F Z Z t -> no_pairs F Z Z t ->
  exists t' : F, file_search_from_end (K := Z) (V := Z) limit t = Ret ([], t') /\ ok_file F Z Z t' /\ no_pairs F Z Z t'.
Proof.
  intros Ht He. destruct (file_calls t (SearchFromEnd limit) Ht) as (a & t' & Hc & Ha & Ht' & He'). exists t'.
  unfold file_search_from_end, file_many. rewrite Hc, bind_ret. rewrite He in *. inversion Ha; subst.
  split; [| by split]. do 2 f_equal. unfold take_limit. cbn. apply take_nil.
Qed.

Definition no_files : disk := mkDisk ∅ ∅ 0.

Lemma storage_new_ok dict c names indexes deletions now t :
  list.last dict = Some c -> is_time now -> now <> 0 -> to_string localtime gmtime now true false = Ret t ->
  (forall p, openable p = true) ->
  ok_file F Z Z names -> no_pairs F Z Z names -> ok_file T index_key (list Z) indexes -> no_pairs T index_key (list Z) indexes ->
  ok_file D Z index_key deletions ->
  exists s, storage_new localtime gmtime openable dict names indexes deletions ∅ no_files now = Ret s /\
    stored now 0 ∅ [] [] s /\ content_of 0 (fs s) = [].
Proof.
  intros Hc Hn Hn0 Ht Hop Hnames Hnp Hidx Hip Hdel. unfold storage_new. rewrite Hc. cbn [of_option]. rewrite bind_ret.
  set (dir := if c =? 47 then dict else dict ++ [47]). set (s0 := mkStorage _ _ _ _ _ _ _).
  destruct (search_from_end_empty names 1 Hnames Hnp) as (names1 & E1 & Hnames1 & Hnp1).
  destruct (file_insert_ok now (u32 (u32 now)) names1 Hnames1) as (names2 & E2 & _ & _). rewrite Hnp1 in E2.
  pose proof (index_start indexes Hidx Hip) as Hix.
  set (final := mkStorage (Some 0) [mkRecord now (u32 now) 0 0] dir names2 deletions (cache_new (mkIndex indexes 0 (∅, true)))
                  (mkDisk {[dir ++ t ++ link_log_file_suffix := 0]} {[0 := []]} 1)).
  assert (Hrun : wp (storage_init localtime gmtime openable now) (fun _ s => s = final) s0).
  { unfold storage_init. wp_run. apply st_intro. eexists _, _. split; [unfold on_names; cbn [s0 _filename_file]; rewrite E1; reflexivity |].
    wp_run. unfold names_insert. apply st_intro. eexists _, _. split; [unfold on_names; cbn [_filename_file]; rewrite E2; reflexivity |].
    wp_run. apply st_assert; [done |]. wp_run. unfold get_log_name. wp_run. eapply st_lift; [exact Ht |]. wp_run. cbn [_dictionary_path].
    unfold open_logs. rewrite Hop. wp_run. cbn [fs s0 no_files]. unfold open_append. cbn [Disk.names no_files]. rewrite lookup_empty. cbn [next_inode inodes].
    wp_run. cbn [negb]. wp_run. eapply st_deref; [reflexivity |]. wp_run. reflexivity. }
  apply st_intro in Hrun as ([] & s' & E & ->). rewrite E, bind_ret. exists final. split; [done |]. split; [| done].
  split; [split | exact Hix | exact Hdel |]; cbn [final fs _logs _records _dictionary_path _cache]; try done.
  - eexists. reflexivity.
  - exists t. split; [done |]. cbv zeta. split; [apply Hop | apply lookup_singleton_eq].
  - split; cbn [inodes Disk.names next_inode].
    + intros i [x Hx]. apply lookup_singleton_Some in Hx as [<- _]. lia.
    + intros p i Hp. apply lookup_singleton_Some in Hp as [_ <-]. rewrite lookup_singleton_eq. eauto.
  - split; [by intros k v Hk; rewrite lookup_empty in Hk | by intros p ?%not_elem_of_nil | done].
Qed.
End Stored.
