(* ===== verification/LinkLogSearch.v ===== *)
(** * LinkLogSearch: a search finds the logs of a service, newest first

    What [get_query_set], [query] and [search_link] (LinkLogQuery.v) do on a storage that is
    [stored] (LinkLogSpec.v).  A query holds one place for every node that was chosen and has logs
    left: that of its newest log not yet read.  So the places are a permutation of [fronts], the
    greatest is the newest log left of all, and the log read there puts the place of the one
    before it in its stead. *)

From stdpp Require Import gmap sorting.
From S2P Require Import Prelude Packed BPTree BPTreeSession OrderedFile Calendar LRUCache LRUSpec LRUSession LRUCalm.
From S2P Require Import RingBuffer LinkLogFormat LinkLogReplay TimeText Disk LinkLogIndex StateMonad LinkLogStorage LinkLogQuery LinkLogSpec.
Local Open Scope Z_scope.

(** ** The places of a query *)

Abbreviation descending := (StronglySorted (fun x y : place => place_less x y = false)).

Lemma emplace_perm x l : emplace x l ≡ₚ x :: l.
Proof. induction l as [| y l IH]; [done |]. simpl. destruct (place_less x y); [| done]. rewrite IH. apply Permutation_swap. Qed.

Lemma place_less_spec (x y : place) : place_less x y = true <-> x.1 < y.1 \/ x.1 = y.1 /\ x.2 < y.2.
Proof. unfold place_less. rewrite orb_true_iff, andb_true_iff, negb_true_iff, !Z.ltb_lt, Z.ltb_ge. lia. Qed.

Lemma place_less_false (x y : place) : place_less x y = false <-> y.1 < x.1 \/ y.1 = x.1 /\ y.2 <= x.2.
Proof. rewrite <- not_true_iff_false, place_less_spec. lia. Qed.

Lemma emplace_descending x l : descending l -> descending (emplace x l).
Proof.
  induction l as [| y l IH]; intros Hs; [by repeat constructor |]. simpl. inversion_clear Hs as [| ? ? Hl Hy].
  destruct (place_less x y) eqn:Hxy.
  - constructor; [by apply IH |]. rewrite emplace_perm. constructor; [| done]. apply place_less_spec in Hxy. apply place_less_false. lia.
  - constructor; [by constructor |]. constructor; [done |]. eapply list.Forall_impl; [exact Hy |]. cbv beta. intros z Hz.
    rewrite place_less_false in *. lia.
Qed.

(** The greatest of descending places comes first. *)
Lemma greatest_first x l rest : descending l -> l ≡ₚ x :: rest -> (forall y, y ∈ rest -> place_less y x = true) ->
  exists t, l = x :: t /\ t ≡ₚ rest.
Proof.
  intros Hs Hp Hmax. destruct l as [| h t]; [by apply Permutation_nil_cons in Hp |].
  assert (h = x) as ->.
  { assert (Hh : h ∈ x :: rest) by (rewrite <- Hp; by left). apply elem_of_cons in Hh as [-> | Hh]; [done |].
    assert (Hx : x ∈ h :: t) by (rewrite Hp; by left). apply elem_of_cons in Hx as [-> | Hx]; [done |].
    inversion_clear Hs as [| ? ? _ Hall]. rewrite list.Forall_forall in Hall. specialize (Hall x Hx). cbv beta in Hall.
    apply Hmax in Hh. congruence. }
  exists t. split; [done |]. by apply Permutation_cons_inv in Hp.
Qed.

(** ** What is chosen, and what is left to read of it *)

Section Fronts.
Context (F : Z) (ks : list index_key).

Definition chosen (l : list placed) : list placed := filter (fun p => owner p ∈ ks) l.
Definition fronts (l : list placed) : list place := omap (fun k => (fun a => (F, a)) <$> prev_of k l) ks.

Lemma fronts_skip p l : owner p ∉ ks -> fronts (p :: l) = fronts l.
Proof.
  intros Hp. unfold fronts. induction ks as [| k ks' IH]; [done |]. rewrite not_elem_of_cons in Hp. destruct Hp as [Hk Hp]. cbn.
  rewrite prev_of_cons, decide_False by done. by rewrite IH.
Qed.

Context (once : NoDup ks).

Lemma fronts_take p l : owner p ∈ ks -> exists others,
  fronts (p :: l) ≡ₚ (F, start p) :: others /\ fronts l ≡ₚ (match prev_of (owner p) l with Some a => [(F, a)] | None => [] end) ++ others /\
  (forall x, x ∈ others -> exists q, q ∈ l /\ x = (F, start q)).
Proof.
  intros Hp. apply elem_of_Permutation in Hp as [ks' Hks]. assert (Hnd : NoDup (owner p :: ks')) by (by rewrite <- Hks).
  apply list.NoDup_cons in Hnd as [Hn _]. exists (omap (fun k => (fun a => (F, a)) <$> prev_of k l) ks').
  assert (Hsame : omap (fun k => (fun a => (F, a)) <$> prev_of k (p :: l)) ks' = omap (fun k => (fun a => (F, a)) <$> prev_of k l) ks').
  { clear -Hn. induction ks' as [| k ks' IH]; [done |]. rewrite not_elem_of_cons in Hn. destruct Hn as [Hk Hn]. cbn.
    rewrite prev_of_cons, decide_False by done. by rewrite IH. }
  split; [| split].
  - unfold fronts. rewrite Hks. cbn. rewrite prev_of_cons, decide_True by done. cbn. by rewrite Hsame.
  - unfold fronts. rewrite Hks. cbn. destruct (prev_of (owner p) l); done.
  - intros x (k & Hk & Hx)%list_elem_of_omap. destruct (prev_of k l) as [a |] eqn:E; [| done]. injection Hx as <-.
    apply prev_of_elem in E as (q & Hq & _ & <-). by exists q.
Qed.

Lemma chosen_cons p l : chosen (p :: l) = if decide (owner p ∈ ks) then p :: chosen l else chosen l.
Proof. unfold chosen. rewrite filter_cons. by case_decide. Qed.

(** Unless nothing is chosen, there is a first log that is. *)
Lemma first_chosen content l : well_stored F content l -> fronts l <> [] ->
  exists p r, owner p ∈ ks /\ chosen l = p :: chosen r /\ fronts l = fronts (p :: r) /\ well_stored F content (p :: r).
Proof.
  induction l as [| p l IH]; intros Hw Hne.
  { destruct Hne. unfold fronts. clear. induction ks as [| k ks' IH]; [done | exact IH]. }
  destruct (decide (owner p ∈ ks)) as [Hp | Hp].
  - exists p, l. rewrite chosen_cons, decide_True by done. done.
  - rewrite fronts_skip in Hne by done. destruct Hw as (_ & _ & _ & _ & _ & Hw). destruct (IH Hw Hne) as (q & r & Hq & Hc & Hf & Hwr).
    exists q, r. rewrite chosen_cons, decide_False, fronts_skip by done. done.
Qed.

Lemma none_chosen l : fronts l = [] -> chosen l = [].
Proof.
  induction l as [| p l IH]; [done |]. intros Hf. rewrite chosen_cons. case_decide as Hp.
  - destruct (fronts_take p l Hp) as (others & Hperm & _). rewrite Hf in Hperm. by apply Permutation_nil_cons in Hperm.
  - rewrite fronts_skip in Hf by done. by apply IH.
Qed.
End Fronts.

(** ** Reading a log *)

(** The message of a log, whatever it points to. *)
Definition readable (content : list Z) (p : placed) : Prop :=
  exists header, zlen header = Link_Log_Header.size /\ image content p = object LinkLog header ++ text (what p) /\
    get Link_Log_Header.log_size header = zlen (text (what p)) /\ Link_Log_of header (text (what p)) = what p.

Lemma well_stored_readable F content l p : well_stored F content l -> p ∈ l -> readable content p /\ zlen (image content p) = extent p.
Proof.
  induction l as [| q l IH]; [by intros _ ?%not_elem_of_nil |]. intros (H0 & H1 & _ & _ & (header & Hz & Him & Hs & Hl & _) & Hw) [-> | Hp]%elem_of_cons; [| by apply IH].
  split; [by exists header |]. rewrite Him, zlen_app, zlen_object, Hz. done.
Qed.

(** The first members of a message, in the bytes that are read before the rest. *)
Lemma slice_prefix {A} (l : list A) off n m : 0 <= off -> 0 <= n -> off + n <= m -> slice off n (take (Z.to_nat m) l) = slice off n l.
Proof.
  intros H0 Hn Hm. apply list_eq. intros j. rewrite !lookup_slice. case_decide; [| done]. rewrite lookup_take_lt by lia. done.
Qed.

Lemma slice_cons {A} (x : A) l off n : 0 <= off -> slice (1 + off) n (x :: l) = slice off n l.
Proof. intros H0. unfold slice. rewrite Z2Nat.inj_add by lia. done. Qed.

Lemma slice_app_l {A} (l r : list A) off n : 0 <= off -> 0 <= n -> off + n <= zlen l -> slice off n (l ++ r) = slice off n l.
Proof. intros H0 Hn Hl. apply list_eq. intros j. rewrite !lookup_slice. case_decide; [| done]. unfold zlen in *. rewrite lookup_app_l by lia. done. Qed.

Section Query.
Context {T F D : Type} `{!OrderedFile T index_key (list Z), !OrderedFile F Z Z, !OrderedFile D Z index_key}.
Context `{!OrderedFileLaws T index_key (list Z), !OrderedFileLaws D Z index_key}.
Context (localtime gmtime : Z -> Time) (openable : path -> bool).
Context (fn i : Z) (s : storage T F D).
Context (Hholds : holds localtime gmtime openable fn i [] s).
Abbreviation content := (content_of i (fs s)).
Implicit Types (point : query_set).

Definition reading point : Prop :=
  match _file point with
  | None => _current_file point = 0
  | Some f => _current_file point = fn /\ inode f = i /\ position f = _pos point
  end.

Lemma get_log_file_ok : get_log_file localtime gmtime openable fn s = Ret (Some (mkReader i 0), s).
Proof.
  destruct Hholds as [_ _ (t & Ht & Hop & Hn) _ _]. unfold get_log_file, get_log_name, mbind, ST_bind, gets, lift. rewrite Ht. cbn [mret ST_ret].
  rewrite Hop. unfold open_read. by rewrite Hn.
Qed.

Lemma prepare_ok point p : reading point -> head (_log_location point) = Some (fn, start p) -> 0 <= start p -> start p + extent p <= zlen content ->
  exists f, prepare_read_a_log localtime gmtime openable point s =
      Ret (Some (slice (start p) header_offset3 content, mkQuery (Some f) (start p + header_offset3) (_log_location point) fn), s) /\
    inode f = i /\ position f = start p + header_offset3.
Proof.
  intros Hr Hh H0 H1. pose proof (extent_pos p) as He.
  assert (Hz : zlen (slice (start p) header_offset3 content) = header_offset3).
  { apply zlen_slice, in_block_intro; change header_offset3 with 15; lia. }
  assert (Hread : forall point1 f, _file point1 = Some f -> inode f = i -> position f = _pos point1 -> _log_location point1 = _log_location point -> _current_file point1 = fn ->
    wp (deref (_file point1)) (fun f => wp (
        let '(moved, f) := seek_cur (start p - _pos point1) f in
        if negb moved then mret None else
        d ← gets fs;
        let '(msg, f) := read_file header_offset3 d f in
        if negb (zlen msg =? header_offset3) then mret None else
        mret (Some (msg, mkQuery (Some f) (start p + header_offset3) (_log_location point1) (_current_file point1))))
      (fun o s' => s' = s /\ exists f, o = Some (slice (start p) header_offset3 content, mkQuery (Some f) (start p + header_offset3) (_log_location point) fn) /\
         inode f = i /\ position f = start p + header_offset3)) s).
  { intros point1 f Hf Hi Hp Hl Hc. rewrite Hf. eapply st_deref; [reflexivity |]. unfold seek_cur. rewrite Hp.
    replace (_pos point1 + (start p - _pos point1)) with (start p) by lia. rewrite (proj2 (Z.ltb_ge _ _)) by lia. cbn [negb]. wp_run.
    unfold read_file. cbn [inode position]. rewrite Hi, Hz, Z.eqb_refl. cbn [negb]. wp_run. split; [done |].
    exists (mkReader i (start p + header_offset3)). rewrite Hl, Hc. done. }
  assert (Hrun : wp (prepare_read_a_log localtime gmtime openable point)
      (fun o s' => s' = s /\ exists f, o = Some (slice (start p) header_offset3 content, mkQuery (Some f) (start p + header_offset3) (_log_location point) fn) /\
         inode f = i /\ position f = start p + header_offset3) s).
  { unfold prepare_read_a_log. wp_run. rewrite Hh. eapply st_deref; [reflexivity |]. unfold reading in Hr.
    destruct (_file point) as [f |] eqn:Hf.
    - destruct Hr as (Hc & Hi & Hp). rewrite Hc, Z.eqb_refl. cbn [negb]. wp_run. by apply (Hread point f).
    - rewrite Hr. destruct Hholds as [_ _ _ _ [_ Hne]]. rewrite (proj2 (Z.eqb_neq _ _) Hne). cbn [negb]. wp_run. wp_eq get_log_file_ok.
      apply (Hread (mkQuery (Some (mkReader i 0)) 0 (_log_location point) fn) (mkReader i 0)); done. }
  apply st_intro in Hrun as (o & s' & E & -> & f & -> & Hf). exists f. split; [exact E | exact Hf].
Qed.

(** ** querying_a_log *)

Context (ks : list index_key) (once : NoDup ks).
Context (limited : zlen content <= LOG_FILE_LIMIT_SIZE).

(** A query that has the logs [r] before it. *)
Record before (r : list placed) point : Prop := {
  before_sorted : descending (_log_location point);
  before_fronts : _log_location point ≡ₚ fronts fn ks r;
  before_reading : reading point;
  before_stored : well_stored fn content r;
}.

Lemma msg_members header x :
  let msg := take (Z.to_nat header_offset3) (object LinkLog header ++ x) in zlen header = Link_Log_Header.size ->
  msg_log_size msg = get Link_Log_Header.log_size header /\ msg_latest_file msg = get Link_Log_Header.latest_file header /\
  msg_latest_index msg = get Link_Log_Header.latest_index header.
Proof.
  intros msg Hz. assert (Hs : forall off n, 0 <= off -> 0 <= n -> off + n <= 14 -> slice (1 + off) n msg = slice off n header).
  { intros off n H0 Hn Hm. unfold msg. change header_offset3 with 15. rewrite slice_prefix by lia. unfold object. rewrite <- app_comm_cons, slice_cons by lia.
    apply slice_app_l; try lia. rewrite Hz. change Link_Log_Header.size with 47. lia. }
  unfold msg_log_size, msg_latest_file, msg_latest_index. change header_offset0 with (1 + 0). change header_offset1 with (1 + 2). change header_offset2 with (1 + 10).
  rewrite !Hs by (vm_compute; congruence). done.
Qed.

Lemma querying_ok point p r limit : before (p :: r) point -> owner p ∈ ks ->
  wp (querying_a_log localtime gmtime openable point limit) (fun o s' => s' = s /\
    if limit <? extent p then exists point', o = NoRoom point' /\ before (p :: r) point'
    else exists point', o = Copied (image content p) point' /\ before r point') s.
Proof.
  intros [Hsort Hfr Hrd Hw] Hp. pose proof Hw as (H0 & H1 & H2 & Hless & (header & Hz & Him & Hsz & Hlog & Hpi & Hpf) & Hwr).
  destruct (fronts_take fn ks once p r Hp) as (others & Hp1 & Hp2 & Hoth).
  assert (Hmax : forall y, y ∈ others -> place_less y (fn, start p) = true).
  { intros y (q & Hq & ->)%Hoth. apply place_less_spec. right. cbn. split; [done | by apply Hless]. }
  destruct (greatest_first (fn, start p) (_log_location point) others) as (rest & Hl & Hrest); [done | by rewrite Hfr, Hp1 | done |].
  destruct (prepare_ok point p) as (f & E & Hfi & Hfp); [done | by rewrite Hl | done | done |]. pose proof (extent_pos p) as Hext.
  assert (Hmsg : slice (start p) header_offset3 content = take (Z.to_nat header_offset3) (object LinkLog header ++ text (what p))).
  { rewrite <- Him. unfold image, slice. rewrite take_take. f_equal. change header_offset3 with 15. lia. }
  destruct (msg_members header (text (what p)) Hz) as (Hm1 & Hm2 & Hm3). rewrite <- Hmsg in Hm1, Hm2, Hm3. rewrite Hsz in Hm1. rewrite Hpi in Hm3.
  assert (Hread : slice (start p) header_offset3 content ++ slice (start p + header_offset3) (extent p - header_offset3) content = image content p).
  { unfold image. change header_offset3 with 15. unfold slice. rewrite !Z2Nat.inj_add by lia. rewrite <- drop_drop, take_take_drop. f_equal. lia. }
  unfold querying_a_log. wp_run. wp_eq E. rewrite Hm1. unfold extent, header_size in *. rewrite (Z.add_comm (sizeof _)) in *.
  destruct (Z.ltb_spec limit (zlen (text (what p)) + sizeof Link_Log_Header.size)) as [Hlt | Hge].
  - wp_run. split; [done |]. eexists. split; [reflexivity |]. split; [done.. | | done]. cbn. by rewrite Hfi, Hfp.
  - cbv zeta. wp_run. cbn [_file]. eapply st_deref; [reflexivity |]. unfold read_file. rewrite Hfi, Hfp.
    assert (Hzr : zlen (slice (start p + header_offset3) (zlen (text (what p)) + sizeof Link_Log_Header.size - header_offset3) content) =
                  zlen (text (what p)) + sizeof Link_Log_Header.size - header_offset3).
    { apply zlen_slice, in_block_intro; change header_offset3 with 15 in *; lia. }
    rewrite Hzr, Z.eqb_refl. cbn [negb]. rewrite Hm2, Hm3, Hread. cbn [_log_location _pos _current_file]. rewrite Hl. cbn [tail]. wp_run.
    split; [done |]. eexists. split; [reflexivity |].
    assert (Hrs : descending rest) by (rewrite Hl in Hsort; by inversion_clear Hsort).
    assert (Hrd' : forall pos, pos = start p + (zlen (text (what p)) + sizeof Link_Log_Header.size) -> forall loc,
      reading (mkQuery (Some (mkReader i (start p + header_offset3 + (zlen (text (what p)) + sizeof Link_Log_Header.size - header_offset3)))) pos loc fn)).
    { intros pos -> loc. unfold reading. cbn. split; [done |]. split; [done | lia]. }
    destruct (prev_of (owner p) r) as [a |] eqn:Ea; cbn [default id] in *.
    + pose proof (prev_of_bound _ _ _ _ _ Hwr Ea). rewrite (proj2 (Z.eqb_neq a MAX_UINT)) by (unfold MAX_UINT, LOG_FILE_LIMIT_SIZE in *; lia). cbn [negb].
      rewrite Hpf by eauto. split; cbn [_log_location]; [by apply emplace_descending | | apply Hrd'; lia | done].
      by rewrite emplace_perm, Hrest, Hp2.
    + rewrite Z.eqb_refl. cbn [negb]. split; cbn [_log_location]; [done | by rewrite Hrest, Hp2 | apply Hrd'; lia | done].
Qed.

(** ** query *)

(** The first logs of those that are left, and what remains then. *)
Definition queried (limit : Z) (r : list placed) : list Z * option query_set -> storage T F D -> Prop := fun o s' =>
  s' = s /\ exists q rest, chosen ks r = q ++ rest /\ o.1 = concat (map (image content) q) /\ Forall (readable content) q /\
    match o.2 with
    | None => rest = []
    | Some point => (exists r', chosen ks r' = rest /\ before r' point) /\ (65535 <= limit -> q <> [])
    end.

Lemma query_loop_ok fuel : forall limit r point, before r point -> (Z.to_nat limit < fuel)%nat ->
  wp (query_loop localtime gmtime openable fuel limit point) (queried limit r) s.
Proof.
  induction fuel as [| fuel IH]; intros limit r point Hb Hf; [lia |]. cbn [query_loop]. pose proof Hb as [Hsort Hfr Hrd Hw].
  destruct (_log_location point) as [| pl pls] eqn:Hloc.
  { apply st_ret. split; [done |]. exists [], []. split; [| done]. apply Permutation_nil in Hfr. by eapply (none_chosen fn ks once). }
  assert (Hne : fronts fn ks r <> []). { intros Hn. rewrite Hn in Hfr. symmetry in Hfr. by apply Permutation_nil_cons in Hfr. }
  destruct (first_chosen fn ks content r Hw Hne) as (p & r' & Hp & Hch & Hfr' & Hw').
  assert (Hb' : before (p :: r') point) by (split; [by rewrite Hloc | by rewrite Hloc, Hfr, Hfr' | done | done]).
  destruct (Z.ltb_spec 0 limit) as [Hlim | Hlim]; cbn [negb].
  2: { apply st_ret. split; [done |]. exists [], (chosen ks r). split; [done |]. split; [done |]. split; [constructor |]. split; [by exists r | lia]. }
  wp_run. eapply st_mono; [by apply (querying_ok point p r') | cbv beta]. intros o s' (-> & Ho).
  destruct (well_stored_readable fn content (p :: r') p Hw') as [Hre Him]; [by left |].
  pose proof Hw' as (_ & _ & Hext & _). pose proof (extent_pos p).
  destruct (Z.ltb_spec limit (extent p)) as [Hlt | Hge]; destruct Ho as (point' & -> & Hb2).
  - apply st_ret. split; [done |]. exists [], (chosen ks r). split; [done |]. split; [done |]. split; [constructor |]. split; [| lia].
    exists (p :: r'). split; [by rewrite chosen_cons, decide_True | done].
  - wp_run. eapply st_mono; [apply (IH (limit - zlen (image content p)) r' point' Hb2); rewrite Him; lia | cbv beta].
    intros [more point2] s' (-> & q & rest & Hq & Hm & Hall & Hend). cbn [fst snd] in *. wp_run. split; [done |].
    exists (p :: q), rest. split; [by rewrite Hch, Hq |]. split; [cbn; by rewrite Hm |]. split; [by constructor |].
    destruct point2; [| done]. destruct Hend as [Hend _]. by split.
Qed.

(** ** search_link *)

(** The query of a search, with the logs it has not copied yet. *)
Definition asks (point : option query_set) (rest : list placed) : Prop :=
  match point with None => rest = [] | Some point => exists r, chosen ks r = rest /\ before r point end.

Lemma image_pos p : readable content p -> 48 <= zlen (image content p).
Proof.
  intros (header & Hz & -> & _). rewrite zlen_app, zlen_object, Hz. pose proof (zlen_nonneg (text (what p))). change (sizeof Link_Log_Header.size) with 48. lia.
Qed.

(** A log is taken from the buffer. *)
Lemma take_log p more (k : Link_Log -> list Z -> ST (storage T F D) (list Link_Log)) (Q : list Link_Log -> storage T F D -> Prop) :
  readable content p -> wp (k (what p) more) Q s ->
  let buffer := image content p ++ more in
  wp (header ← lift (mem_read buffer 0 (sizeof Link_Log_Header.size));
      let log_size := get Link_Log_Header.log_size (tail header) in
      assert_ (log_size + sizeof Link_Log_Header.size <=? zlen buffer);;
      text ← lift (mem_read buffer (sizeof Link_Log_Header.size) log_size);
      k (Link_Log_of (tail header) text) (drop (Z.to_nat (sizeof Link_Log_Header.size + log_size)) buffer)) Q s.
Proof.
  intros (header & Hz & Him & Hs & Hl) Hk buffer. unfold buffer. rewrite Him. pose proof (zlen_nonneg more). pose proof (zlen_nonneg (text (what p))).
  assert (Hzo : zlen (object LinkLog header) = sizeof Link_Log_Header.size) by (rewrite zlen_object; by rewrite Hz).
  wp_run. eapply st_lift; [rewrite <- app_assoc; by apply (mem_read_mid [] (object LinkLog header)) |]. rewrite tail_object, Hs. cbv zeta. wp_run.
  apply st_assert; [apply Z.leb_le; rewrite !zlen_app, Hzo; lia |]. wp_run.
  eapply st_lift; [rewrite <- app_assoc; by apply (mem_read_mid (object LinkLog header)) |]. rewrite Hl.
  rewrite (drop_zlen (object LinkLog header ++ text (what p)) more); [done | by rewrite zlen_app, Hzo].
Qed.

Lemma search_loop_ok buffer_size fuel : 65536 <= buffer_size -> forall (point : option query_set) q rest,
  asks point rest -> Forall (readable content) q -> (length q + length rest < fuel)%nat ->
  wp (search_loop localtime gmtime openable fuel buffer_size point (concat (map (image content) q)))
    (fun logs s' => s' = s /\ logs = map what (q ++ rest)) s.
Proof.
  intros Hsize. induction fuel as [| fuel IH]; intros point q rest Ha Hq Hf; [lia |]. cbn [search_loop].
  (* a log that is in the buffer *)
  assert (Hnext : forall (point : option query_set) p q rest, asks point rest -> Forall (readable content) (p :: q) -> (length (p :: q) + length rest < S fuel)%nat ->
    wp (header ← lift (mem_read (concat (map (image content) (p :: q))) 0 (sizeof Link_Log_Header.size));
        let log_size := get Link_Log_Header.log_size (tail header) in
        assert_ (log_size + sizeof Link_Log_Header.size <=? zlen (concat (map (image content) (p :: q))));;
        text ← lift (mem_read (concat (map (image content) (p :: q))) (sizeof Link_Log_Header.size) log_size);
        rest ← search_loop localtime gmtime openable fuel buffer_size point
                 (drop (Z.to_nat (sizeof Link_Log_Header.size + log_size)) (concat (map (image content) (p :: q))));
        mret (Link_Log_of (tail header) text :: rest))
      (fun logs s' => s' = s /\ logs = map what ((p :: q) ++ rest)) s).
  { clear point q rest Ha Hq Hf. intros point p q rest Ha [Hp Hq]%list.Forall_cons Hf.
    refine (take_log p (concat (map (image content) q)) (fun log more => rest ← search_loop localtime gmtime openable fuel buffer_size point more; mret (log :: rest)) _ Hp _).
    wp_run. eapply st_mono; [apply (IH point q rest Ha Hq); cbn in Hf; lia | cbv beta]. intros logs s' [-> ->]. by wp_run. }
  destruct q as [| p q].
  - destruct point as [point |]; [| cbn in Ha; subst rest; by apply st_ret]. destruct Ha as (r & <- & Hb). cbn [map concat length app Nat.add] in *.
    apply st_bind, st_bind. eapply st_mono; [apply (query_loop_ok _ buffer_size r point Hb); lia | cbv beta].
    intros [written ptr] s' (-> & q & rest & Hc & Hw & Hall & Hend). cbn [fst snd] in *. rewrite Hc in Hf |- *. rewrite length_app in Hf.
    assert (Hempty : (zlen written =? 0) = bool_decide (q = [])).
    { destruct q as [| p q]; [by rewrite Hw |]. rewrite bool_decide_eq_false_2 by done. apply Z.eqb_neq. rewrite Hw. cbn [map concat].
      apply list.Forall_cons in Hall as [Hp _]. apply image_pos in Hp. rewrite zlen_app. pose proof (zlen_nonneg (concat (map (image content) q))). lia. }
    rewrite Hempty. apply st_bind, st_assert.
    { case_bool_decide as Hq0; [| done]. destruct ptr; [| done]. destruct Hend as [_ Hend]. by apply Hend in Hq0; [| lia]. }
    apply st_ret. destruct q as [| p q]; cbn [bool_decide decide_rel].
    + destruct ptr; [by destruct Hend as [_ Hend]; destruct Hend; [lia |] |]. subst rest. cbv iota beta. by apply st_ret.
    + rewrite bool_decide_eq_false_2 by done. cbv iota beta. rewrite Hw. apply (Hnext ptr p q rest); [| done | cbn in Hf; lia]. destruct ptr; [by destruct Hend | done].
  - assert (Hne : exists z l, concat (map (image content) (p :: q)) = z :: l).
    { destruct (concat (map (image content) (p :: q))) as [| z l] eqn:E; [| by exists z, l]. apply list.Forall_cons in Hq as [Hp _]. apply image_pos in Hp.
      cbn [map concat] in E. apply app_eq_nil in E as [E _]. by rewrite E in Hp. }
    destruct Hne as (z & l & Hzl). specialize (Hnext point p q rest Ha Hq Hf). rewrite Hzl in Hnext |- *.
    destruct point; apply st_bind, st_ret; exact Hnext.
Qed.
End Query.

(** ** The whole search *)

Section Search.
Context {T F D : Type} `{!OrderedFile T index_key (list Z), !OrderedFile F Z Z, !OrderedFile D Z index_key}.
Context `{!OrderedFileLaws T index_key (list Z), !OrderedFileLaws D Z index_key}.
Context (localtime gmtime : Z -> Time) (openable : path -> bool).
Context (fn i : Z) (m : gmap index_key (list Z)) (l : list placed).
Abbreviation stored := (stored (T := T) (F := F) (D := D) localtime gmtime openable fn i m l []).
Implicit Types (s : storage T F D).

Lemma omap_keys {A B C} (f : A -> option C) (es : list (A * B)) : omap f es.*1 = omap (fun e => f e.1) es.
Proof. induction es as [| e es IH]; [done |]. cbn. by destruct (f e.1); rewrite <- IH. Qed.

(** The nodes a search asks for. *)
Definition asked (first stop : index_key) (node_filter : index_key -> list Z -> bool) (k : index_key) : bool :=
  negb (klt k first) && klt k stop && match m !! k with Some v => node_filter k v | None => false end.

Lemma stored_pairs s c : stored_in c m -> indexed c m -> zlen (file_pairs (T := T) (K := index_key) (V := list Z) (_indexes (_helper c))) <= Z.of_nat (size m).
Proof.
  intros Hin [[Hinv _ _] _]. pose proof (core_owns _ _ (inv_core _ _ Hinv)) as [Hf _ _ _ _]. pose proof (file_sorted _ Hf) as Hs.
  set (es := file_pairs _) in *. assert (Hnd : NoDup es.*1) by (by apply sorted_keys).
  assert (Hsub : es.*1 ⊆+ elements (dom m)).
  { apply NoDup_submseteq; [done |]. intros k ([j v] & -> & Hj)%list_elem_of_fmap. apply elem_of_elements, elem_of_dom. cbn.
    rewrite <- Hin. exists v. by apply value_of_elem. }
  apply submseteq_length in Hsub. rewrite length_fmap in Hsub. unfold zlen. rewrite <- size_dom. change (size (dom m)) with (length (elements (dom m))). lia.
Qed.

(** Every node that is let through and has a log gives a place. *)
Lemma collect_ok s first stop node_filter rs : forall acc,
  (forall k v, (k, v) ∈ rs -> klt k first = false /\ klt k stop = true /\ points_to fn (prev_of k l) v) ->
  (forall k a, prev_of k l = Some a -> a <> MAX_UINT) -> descending acc ->
  wp (collect (T := T) (F := F) (D := D) first stop node_filter rs acc) (fun l' s' => s' = s /\ descending l' /\
    l' ≡ₚ omap (fun e => (fun a => (fn, a)) <$> prev_of e.1 l) (filter (fun e => node_filter e.1 e.2 = true) rs) ++ acc) s.
Proof.
  induction rs as [| [k v] rs IH]; intros acc Hrs Hmax Hacc; [by apply st_ret |]. cbn [collect].
  destruct (Hrs k v) as (Hf & Hst & Hpt & Hpi & Hpf & _); [by left |].
  assert (Hrest : forall k v, (k, v) ∈ rs -> klt k first = false /\ klt k stop = true /\ points_to fn (prev_of k l) v) by (intros; apply Hrs; by right).
  wp_run. apply st_assert.
  { rewrite Hst, andb_true_r, orb_true_iff. destruct (klt first k) eqn:E; [by left | right]. apply keq_eq. by apply klt_total. }
  rewrite filter_cons. cbn [fst snd]. destruct (node_filter k v) eqn:En; cbn [negb orb].
  - rewrite decide_True by done. cbn. rewrite Hpi. destruct (prev_of k l) as [a |] eqn:Ea; cbn [default id].
    + rewrite (proj2 (Z.eqb_neq _ _)) by (by eapply Hmax). rewrite Hpf by eauto.
      eapply st_mono; [apply (IH (emplace (fn, a) acc)); [done | done | by apply emplace_descending] | cbv beta]. intros l' s' (-> & Hd & Hp).
      split; [done |]. split; [done |]. rewrite Hp, emplace_perm. cbn. by rewrite Permutation_middle.
    + rewrite Z.eqb_refl. by apply IH.
  - rewrite decide_False by done. by apply IH.
Qed.

Definition small : Prop := Z.of_nat (size m) <= MAX_ULLONG.

Lemma get_query_set_ok s service node_filter :
  stored s -> small -> zlen (content_of i (fs s)) <= LOG_FILE_LIMIT_SIZE ->
  (range_end service).2 = true -> klt (service_key service) (service_key (range_end service).1) = true ->
  wp (get_query_set service (Some node_filter)) (fun o s' => stored s' /\ fs s' = fs s /\
    exists ks, NoDup ks /\ (forall k, k ∈ ks <-> asked (service_key service) (service_key (range_end service).1) node_filter k = true) /\
      asks fn i s' ks o (chosen ks l)) s.
Proof.
  intros Hst Hsmall Hlim Hstop Hlt. pose proof Hst as [Hh Hi Hd Hl]. destruct (index_flush (_cache s) m Hi) as (c & Ec & Hic & Hin).
  unfold get_query_set. wp_run. wp_eq (on_cache_ok _ s tt c Ec).
  destruct (range_end service) as [stop stopped] eqn:Er. cbn [fst snd] in *. subst stopped.
  set (kb := service_key service) in *. set (ke := service_key stop) in *.
  pose proof (core_owns _ _ (inv_core _ _ (resting_inv _ (indexed_rests _ _ Hic)))) as [Hf _ _ _ _].
  destruct (file_find_range_ok kb ke (_indexes (_helper c)) Hf Hlt) as (rs & t' & Ef & Ht' & Hp' & Hnd & Hrs).
  { pose proof (stored_pairs s c Hin Hic). unfold small in Hsmall. lia. }
  pose proof (index_look c m t' Hic Ht' Hp') as Hic'. set (c' := with_helper _ c) in *.
  assert (Ei : on_index_file (file_find_range (V := list Z) kb ke) (with_cache c s) = Ret (rs, with_cache c' s)).
  { unfold on_index_file, on_index. cbn [with_cache _cache]. rewrite Ef. done. }
  cbv zeta. wp_run. wp_eq Ei.
  assert (Hst' : stored (with_cache c' s)) by (by apply (stored_cache localtime gmtime openable fn i m)).
  assert (Hval : forall k v, (k, v) ∈ rs <-> m !! k = Some v /\ klt k kb = false /\ klt k ke = true) by (intros k v; by rewrite Hrs, Hin).
  set (ks := (filter (fun e => node_filter e.1 e.2 = true) rs).*1).
  assert (Hks : NoDup ks).
  { eapply sublist_NoDup; [exact Hnd |]. apply fmap_sublist, sublist_filter. }
  assert (Hask : forall k, k ∈ ks <-> asked kb ke node_filter k = true).
  { intros k. unfold ks, asked. rewrite list_elem_of_fmap, !andb_true_iff, negb_true_iff. split.
    - intros ([j v] & -> & [Hn Hin']%list_elem_of_filter). apply Hval in Hin' as (Hm & H1 & H2). cbn in *. by rewrite Hm.
    - intros [[H1 H2] Hn]. destruct (m !! k) as [v |] eqn:Hm; [| done]. exists (k, v). split; [done |]. apply list_elem_of_filter. split; [done |]. by apply Hval. }
  destruct rs as [| e rs'].
  { apply st_ret. split; [done |]. split; [done |]. exists ks. split; [done |]. split; [done |]. cbn. unfold ks. clear. induction l as [| p l' IH]; [done |].
    unfold chosen in *. rewrite filter_cons, decide_False by (by intros ?%not_elem_of_nil). exact IH. }
  set (rs := e :: rs') in *. wp_run.
  eapply st_mono; [apply (collect_ok (with_cache c' s) kb ke (default (fun _ _ => true) (Some node_filter)) rs []) | cbv beta].
  - intros k v Hkv. apply Hval in Hkv as (Hm & H1 & H2). split; [done |]. split; [done |]. by eapply linked_values.
  - intros k a Ha. destruct Hl as [_ _ Hw]. rewrite app_nil_r in Hw. apply (prev_of_bound _ _ _ _ _ Hw) in Ha. unfold LOG_FILE_LIMIT_SIZE, MAX_UINT in *. lia.
  - constructor.
  - intros loc s' (-> & Hdl & Hloc). rewrite app_nil_r in Hloc. wp_run. split; [done |]. split; [done |]. exists ks. split; [done |]. split; [done |].
    exists l. split; [done |]. split; [done | | done | by destruct Hl as [_ _ Hw]; rewrite app_nil_r in Hw].
    cbn [_log_location default]. rewrite Hloc. unfold fronts, ks. by rewrite omap_keys.
Qed.

Lemma search_link_ok s fuel service node_filter buffer_size :
  stored s -> small -> zlen (content_of i (fs s)) <= LOG_FILE_LIMIT_SIZE ->
  (range_end service).2 = true -> klt (service_key service) (service_key (range_end service).1) = true ->
  65536 <= buffer_size -> (length l < fuel)%nat ->
  wp (search_link localtime gmtime openable fuel service node_filter buffer_size) (fun logs s' => stored s' /\ fs s' = fs s /\
    logs = map what (filter (fun p => asked (service_key service) (service_key (range_end service).1) node_filter (owner p) = true) l)) s.
Proof.
  intros Hst Hsmall Hlim Hstop Hlt Hbuf Hfuel. unfold search_link. wp_run. apply st_assert; [by apply Z.leb_le |]. wp_run.
  eapply st_mono; [by apply get_query_set_ok | cbv beta]. intros o s' (Hst' & Hfs & ks & Hks & Hask & Ha).
  eapply st_mono; [eapply (search_loop_ok localtime gmtime openable fn i s' (stored_holds _ _ _ _ _ _ _ _ _ Hst') ks Hks) with (q := []) | cbv beta].
  - by rewrite Hfs.
  - done.
  - exact Ha.
  - constructor.
  - cbn. unfold chosen. pose proof (length_filter (fun p => owner p ∈ ks) l). lia.
  - intros logs s2 (-> & ->). split; [done |]. split; [done |]. cbn [app]. f_equal. apply list_filter_iff. intros p. apply Hask.
Qed.
End Search.
