(* ===== verification/LinkLogBook.v ===== *)
(** * LinkLogBook: what a center of the link log promises

    The abstract specification of the center: a book with the nodes, the halves of nodes that wait
    for the other half, and the logs, newest first.  Messages, the passing of time and searches
    act on it without files, caches, flags or timers.  Then the part of the refinement that
    concerns the timers of LinkLogCenter.v: [watched] ties them to the waiting halves. *)

From stdpp Require Import gmap sorting.
From S2P Require Import Prelude Packed BPTree BPTreeSession OrderedFile Calendar LRUCache LRUSpec LRUSession LRUCalm.
From S2P Require Import RingBuffer RingHistory LinkLogFormat LinkLogReplay TimeText Disk LinkLogIndex StateMonad LinkLogStorage LinkLogQuery LinkLogCenter LinkLogSpec.
Local Open Scope Z_scope.

(** ** The book *)

Record node_info := mkInfo { info_parent_init_time : Z; info_parent : list Z; info_type : Z }.

Definition info_of (v : list Z) : node_info :=
  mkInfo (get Index_Value.parent_init_time v) (get Index_Value.parent_node v) (get Index_Value.type v).

(** A half that waits: until when, from which server, and what it said. *)
Record waiting_half := mkWaiting { deadline : Z; server : Z; half : LoggerCheckData }.

Record book := mkBook {
  nodes : gmap index_key node_info;
  waiting : gmap node_id waiting_half;
  logs : list Link_Log;
  used : Z;
}.

Definition empty_book : book := mkBook ∅ ∅ [] 0.
Definition set_nodes m b := mkBook m (waiting b) (logs b) (used b).
Definition set_waiting m b := mkBook (nodes b) m (logs b) (used b).
Definition log_entry l b := mkBook (nodes b) (waiting b) (l :: logs b) (used b).
Definition spend n b := mkBook (nodes b) (waiting b) (logs b) (used b + n).

(** A creation that meets a waiting registration takes type and parent from it. *)
Definition meet (address now type : Z) (id : node_id) (parent : list Z) (init_time parent_init_time : Z) (b : book)
    : book * (Z * list Z * Z) :=
  if type =? BranchHead then
    match waiting b !! id with
    | Some w => (set_waiting (delete id (waiting b)) b, (LinkLogCenter.type (half w), LinkLogCenter.parent (half w), LinkLogCenter.parent_init_time (half w)))
    | None => (set_waiting (<[id := mkWaiting (now + ILLEGAL_LOGGER_TIMOUT) address (mkCheck (blank NODE_ID_SIZE) type init_time 0 None)]> (waiting b)) b,
               (type, parent, parent_init_time))
    end
  else (b, (type, parent, parent_init_time)).

(** [None]: a message no server sends, a log of a node that does not exist or the third half of a
    node, or no room in the file. *)
Definition book_op (address now : Z) (op : operation) (b : book) : option (list notice * book) :=
  if LOG_FILE_LIMIT_SIZE <? used b + zlen (bytes_of op) then None else
  let b := spend (zlen (bytes_of op)) b in
  match op with
  | Register type service node parent time parent_init_time expire =>
      let heard := notify address (register_logger service node parent type time parent_init_time) in
      if negb (Decision <? type) then Some (heard, b) else
      let id := (service, node) in
      match waiting b !! id with
      | Some w =>
          let k := Index_Key_of service (init_time (half w)) node in
          match nodes b !! k with
          | Some _ => Some (heard, set_waiting (delete id (waiting b)) (set_nodes (<[k := mkInfo parent_init_time parent type]> (nodes b)) b))
          | None => None
          end
      | None => Some (heard, set_waiting (<[id := mkWaiting expire address (mkCheck parent type 0 0 None)]> (waiting b)) b)
      end
  | Create type service node parent init_time parent_init_time =>
      let '(b, (type, parent, parent_init_time)) := meet address now type (service, node) parent init_time parent_init_time b in
      let k := Index_Key_of service init_time node in
      match nodes b !! k with
      | Some _ => Some (notify address (handling_error service node init_time (error_code ConflictingNode)), b)
      | None => Some (notify address (if type =? Head then create_head_logger service node init_time else LinkLogReplay.create_logger service node init_time),
                      set_nodes (<[k := mkInfo parent_init_time parent type]> (nodes b)) b)
      end
  | End service node init_time end_time => Some (notify address (logger_end service node end_time), b)
  | Log service init_time node time rank text =>
      let log := mkLog service init_time node rank time text in
      match nodes b !! log_key log with
      | Some _ => Some (notify address (receive_log log), log_entry log b)
      | None => None
      end
  | Error service node time error => Some (notify address (handling_error service node time error), b)
  | Offline time => Some ([Node_offline address time], b)
  end.

(** Nothing may follow the last message of a server. *)
Definition last_one (op : operation) (more : list Z) : bool := match op with Offline _ => bool_decide (more = []) | _ => true end.

Fixpoint book_ops (address now : Z) (ops : list operation) (rest : list Z) (b : book) : option (list notice * book) :=
  match ops with
  | [] => Some ([], b)
  | op :: ops =>
      if negb (last_one op (stream ops ++ rest)) then None else
      match book_op address now op b with
      | Some (heard, b) =>
          match book_ops address now ops rest b with
          | Some (more, b) => Some (heard ++ more, b)
          | None => None
          end
      | None => None
      end
  end.

(** ** Time *)

Definition late (now : Z) (w : waiting_half) : bool := deadline w <=? now.

Definition late_notice (e : node_id * waiting_half) : list notice :=
  if negb (type (half e.2) =? RpcDecision)
  then notify (server e.2) (handling_error e.1.1 e.1.2 (deadline e.2) (error_code (if type (half e.2) =? BranchHead then NotRegister else CreateTimeOut)))
  else [].

Definition late_halves (now : Z) (b : book) : gmap node_id waiting_half := filter (fun e => late now e.2 = true) (waiting b).
Definition late_notices (now : Z) (b : book) : list notice := flat_map late_notice (map_to_list (late_halves now b)).
Definition book_tick (now : Z) (b : book) : book := set_waiting (filter (fun e => late now e.2 = false) (waiting b)) b.

(** ** Searches *)

(** The keys from the first of a service to the last. *)
Definition covers (service : list Z) (k : index_key) : bool :=
  negb (klt k (service_key service)) && klt k (service_key (range_end service).1).

Definition wanted (service : list Z) (want : index_key -> node_info -> bool) (b : book) (log : Link_Log) : bool :=
  covers service (log_key log) && match nodes b !! log_key log with Some info => want (log_key log) info | None => false end.

Definition book_search (service : list Z) (want : index_key -> node_info -> bool) (b : book) : list Link_Log :=
  filter (fun log => wanted service want b log = true) (logs b).

(** ** Flags and timers

    A half that waits has a flag, which is true; its timer has the same flag.  A half that was met
    leaves its timer behind with a flag that is false.  Every flag belongs to one timer. *)

Definition forget (d : LoggerCheckData) : LoggerCheckData := mkCheck (parent d) (type d) (init_time d) (parent_init_time d) None.

(** Its values fit the members of messages. *)
Definition half_fits (d : LoggerCheckData) : Prop :=
  is_node (parent d) /\ is_uint 1 (type d) /\ is_time (init_time d) /\ is_time (parent_init_time d).

Section Watched.
Context {T F D : Type} `{!OrderedFile T index_key (list Z), !OrderedFile F Z Z, !OrderedFile D Z index_key}.
Abbreviation state := (center T F D).
Implicit Types (c : state) (W : gmap node_id waiting_half).

Definition watches (id : node_id) (d : LoggerCheckData) (w : waiting_half) (f : Z) c : Prop :=
  logger_timout d = Some f /\ half w = forget d /\ half_fits d /\ flags c !! f = Some true /\
  mkTimer (deadline w) id (Some f) (server w) ∈ _timers c.

Record watched W c : Prop := {
  watched_check id d : _check c !! id = Some d -> exists w f, W !! id = Some w /\ watches id d w f c;
  watched_all id : is_Some (W !! id) -> is_Some (_check c !! id);
  watched_timers t : t ∈ _timers c -> exists f b, flag t = Some f /\ flags c !! f = Some b /\
    (b = true -> exists d, _check c !! iter t = Some d /\ logger_timout d = Some f);
  watched_once : NoDup (map flag (_timers c));
  watched_owned f : is_Some (flags c !! f) -> exists t, t ∈ _timers c /\ flag t = Some f;
  watched_fresh f : is_Some (flags c !! f) -> f < next_flag c;
  watched_sorted : StronglySorted (fun t u => expire_time t <= expire_time u) (_timers c);
}.

Lemma timers_emplace_perm t l : timers_emplace t l ≡ₚ t :: l.
Proof. induction l as [| u l IH]; [done |]. simpl. destruct (_ <? _); [done |]. rewrite IH. apply Permutation_swap. Qed.

Lemma timers_emplace_sorted t l : StronglySorted (fun t u => expire_time t <= expire_time u) l ->
  StronglySorted (fun t u => expire_time t <= expire_time u) (timers_emplace t l).
Proof.
  induction l as [| u l IH]; intros Hs; [by repeat constructor |]. simpl. inversion_clear Hs as [| ? ? Hl Hu].
  destruct (Z.ltb_spec (expire_time t) (expire_time u)) as [Hlt | Hge].
  - constructor; [by constructor |]. constructor; [lia |]. eapply list.Forall_impl; [exact Hu |]. simpl. lia.
  - constructor; [by apply IH |]. rewrite timers_emplace_perm. by constructor.
Qed.

Lemma watched_none W c id : watched W c -> W !! id = None <-> _check c !! id = None.
Proof.
  intros HW. split; intros Hn.
  - destruct (_check c !! id) as [d |] eqn:E; [| done]. destruct (watched_check _ _ HW id d E) as (w & f & Hw & _). congruence.
  - destruct (W !! id) as [w |] eqn:E; [| done]. destruct (watched_all _ _ HW id) as [? Hx]; [eauto |]. congruence.
Qed.

(** Two halves never share a flag. *)
Lemma watched_unshared W c id d id' d' f : watched W c -> _check c !! id = Some d -> _check c !! id' = Some d' ->
  logger_timout d = Some f -> logger_timout d' = Some f -> id = id'.
Proof.
  intros HW Hd Hd' Hf Hf'. destruct (watched_check _ _ HW id d Hd) as (w & g & _ & Hg & _ & _ & _ & Ht).
  destruct (watched_check _ _ HW id' d' Hd') as (w' & g' & _ & Hg' & _ & _ & _ & Ht').
  assert (g = f) as -> by congruence. assert (g' = f) as -> by congruence.
  apply list_elem_of_lookup in Ht as [i Hi]. apply list_elem_of_lookup in Ht' as [j Hj].
  assert (i = j) as ->.
  { eapply (NoDup_lookup (map flag (_timers c))); [apply HW | |]; rewrite list_lookup_fmap; [by rewrite Hi | by rewrite Hj]. }
  congruence.
Qed.

Lemma try_emplace_ok id d c :
  try_emplace id d c = match _check c !! id with Some old => Ret (Some old, c) | None => Ret (None, set_check (<[id := d]> (_check c)) c) end.
Proof. unfold try_emplace, mbind, ST_bind, gets. by destruct (_check c !! id). Qed.

(** The first half arrives: it is entered, a flag and a timer are made for it. *)
Lemma wait_ok W c id d expire address :
  watched W c -> W !! id = None -> half_fits d -> logger_timout d = None ->
  wp (check_create id d) (fun _ c1 => exists c', add_timer expire id address c1 = Ret (tt, c') /\
    watched (<[id := mkWaiting expire address (forget d)]> W) c' /\ _storage c' = _storage c) (set_check (<[id := d]> (_check c)) c).
Proof.
  intros HW Hid Hfit Hnone. pose proof (proj1 (watched_none W c id HW) Hid) as Hc.
  unfold check_create. wp_run. unfold add_timer, mbind, ST_bind, gets. cbn [_check]. unfold deref, lift. rewrite lookup_insert_eq.
  eexists. split; [reflexivity |]. split; [| done].
  set (f := next_flag c). assert (Hnew : flags c !! f = None).
  { destruct (flags c !! f) eqn:E; [| done]. pose proof (watched_fresh _ _ HW f). unfold f in *. rewrite E in *. specialize (H ltac:(eauto)). lia. }
  set (t := mkTimer expire id (Some f) address).
  split; cbn [set_check set_timers _check flags next_flag _timers]; fold f; fold t.
  - intros j x. destruct (decide (j = id)) as [-> | Hj].
    + rewrite !lookup_insert_eq. intros [= <-]. exists (mkWaiting expire address (forget d)), f. split; [done |]. split; [done |].
      split; [done |]. split; [done |]. cbn [set_timers flags _timers]. split; [by rewrite lookup_insert_eq |]. rewrite timers_emplace_perm. by left.
    + rewrite !lookup_insert_ne by done. intros Hx. destruct (watched_check _ _ HW j x Hx) as (w & g & Hw & Hg & Hh & Hfx & Hfg & Ht).
      exists w, g. split; [done |]. split; [done |]. split; [done |]. split; [done |]. cbn [set_timers flags _timers].
      split; [rewrite lookup_insert_ne; [done | congruence] |]. rewrite timers_emplace_perm. by right.
  - intros j. destruct (decide (j = id)) as [-> | Hj]; [rewrite !lookup_insert_eq; eauto |]. rewrite !lookup_insert_ne by done. apply HW.
  - intros u. rewrite timers_emplace_perm. intros [-> | Hu]%elem_of_cons.
    + exists f, true. split; [done |]. split; [by rewrite lookup_insert_eq |]. intros _. eexists. split; [apply lookup_insert_eq | done].
    + destruct (watched_timers _ _ HW u Hu) as (g & b & Hg & Hb & Hd). exists g, b. split; [done |].
      split; [rewrite lookup_insert_ne; [done | congruence] |]. intros Hbt. destruct (Hd Hbt) as (x & Hx & Hxg).
      assert (iter u <> id) by (intros <-; congruence). exists x. split; [| done]. by rewrite !lookup_insert_ne.
  - rewrite (Permutation_map flag (timers_emplace_perm _ _)). cbn [map]. apply list.NoDup_cons. split; [| apply HW].
    intros (u & Hu & Hin)%list_elem_of_fmap. destruct (watched_timers _ _ HW u Hin) as (g & b & Hg & Hb & _). cbn in Hu. congruence.
  - intros g. destruct (decide (g = f)) as [-> | Hg]; [intros _; exists t; rewrite timers_emplace_perm; split; [by left | done] |].
    rewrite lookup_insert_ne by done. intros Hs. destruct (watched_owned _ _ HW g Hs) as (u & Hu & Huf). exists u. rewrite timers_emplace_perm. split; [by right | done].
  - intros g. destruct (decide (g = f)) as [-> | Hg]; [intros _; unfold f; lia |]. rewrite lookup_insert_ne by done. intros Hs.
    pose proof (watched_fresh _ _ HW g Hs). unfold f. lia.
  - apply timers_emplace_sorted, HW.
Qed.

Lemma watched_flag W c t f u : watched W c -> t ∈ _timers c -> u ∈ _timers c -> flag t = Some f -> flag u = Some f -> t = u.
Proof.
  intros HW Ht Hu Hf Hg. apply list_elem_of_lookup in Ht as [i Hi]. apply list_elem_of_lookup in Hu as [j Hj].
  assert (i = j) as ->; [| congruence].
  eapply (NoDup_lookup (map flag (_timers c)) i j (Some f)); [apply HW | |]; rewrite list_lookup_fmap; [rewrite Hi; cbn; by rewrite Hf | rewrite Hj; cbn; by rewrite Hg].
Qed.

(** The other half arrives: the flag goes down, the timer stays. *)
Lemma met_ok W c id d : watched W c -> _check c !! id = Some d ->
  wp (on_time d) (fun _ c1 => exists c', check_erase id c1 = Ret (tt, c') /\ watched (delete id W) c' /\ _storage c' = _storage c) c.
Proof.
  intros HW Hd. destruct (watched_check _ _ HW id d Hd) as (w & f & Hw & Hf & _ & _ & Hfl & Ht).
  unfold on_time, flag_at, check_erase. wp_run. rewrite Hf. eapply st_deref; [reflexivity |]. wp_run. eapply st_deref; [exact Hfl |]. wp_run.
  eexists. split; [reflexivity |]. split; [| done]. split; cbn [set_check set_flags _check flags next_flag _timers].
  - intros j x. destruct (decide (j = id)) as [-> | Hj]; [by rewrite lookup_delete_eq |]. rewrite !lookup_delete_ne by done. intros Hx.
    destruct (watched_check _ _ HW j x Hx) as (v & g & Hv & Hg & Hh & Hfit & Hgl & Hgt). exists v, g. split; [done |].
    split; [done | split; [done | split; [done |]]]. cbn [set_check set_flags flags _timers]. split; [| done].
    rewrite lookup_insert_ne; [done |]. intros <-. apply Hj. by eapply watched_unshared.
  - intros j. destruct (decide (j = id)) as [-> | Hj]; [by rewrite lookup_delete_eq; intros [] |]. rewrite !lookup_delete_ne by done. apply HW.
  - intros u Hu. destruct (watched_timers _ _ HW u Hu) as (g & b & Hg & Hb & Hx). destruct (decide (g = f)) as [-> | Hgf].
    + exists f, false. split; [done |]. split; [apply lookup_insert_eq | done].
    + exists g, b. split; [done |]. split; [by rewrite lookup_insert_ne |]. intros Hbt. destruct (Hx Hbt) as (x & Hx1 & Hx2).
      exists x. split; [| done]. rewrite lookup_delete_ne; [done |]. intros ->. rewrite Hd in Hx1. congruence.
  - apply HW.
  - intros g Hg. apply (watched_owned _ _ HW). destruct (decide (g = f)) as [-> | Hgf]; [eauto | by rewrite lookup_insert_ne in Hg].
  - intros g Hg. apply (watched_fresh _ _ HW). destruct (decide (g = f)) as [-> | Hgf]; [eauto | by rewrite lookup_insert_ne in Hg].
  - apply HW.
Qed.

(** A timer leaves the queue, its flag is deleted; when the flag was still up, the half goes too. *)
Lemma timer_pop_ok W c t ts f (b : bool) : watched W c -> _timers c = t :: ts -> flag t = Some f -> flags c !! f = Some b ->
  watched (if b then delete (iter t) W else W)
    (set_timers ts (set_check (if b then delete (iter t) (_check c) else _check c) (set_flags (delete f (flags c)) c))).
Proof.
  intros HW Ht Hf Hb. assert (Hin : t ∈ _timers c) by (rewrite Ht; by left). pose proof (watched_once _ _ HW) as Hnd. rewrite Ht in Hnd.
  cbn [map] in Hnd. apply list.NoDup_cons in Hnd as [Hnot Hnd]. assert (Hsub : forall u, u ∈ ts -> u ∈ _timers c) by (intros u Hu; rewrite Ht; by right).
  assert (Hother : forall u g, u ∈ ts -> flag u = Some g -> g <> f).
  { intros u g Hu Hg ->. apply Hnot. apply list_elem_of_fmap. exists u. split; [congruence | done]. }
  destruct (watched_timers _ _ HW t Hin) as (f' & b' & Hf' & Hb' & Hlive). assert (f' = f) as -> by congruence. assert (b' = b) as -> by congruence.
  assert (Hkeep : forall j x, (if b then delete (iter t) (_check c) else _check c) !! j = Some x -> _check c !! j = Some x /\ (b = true -> j <> iter t)).
  { destruct b; [| done]. intros j x [Hne Hx]%lookup_delete_Some. split; [done | congruence]. }
  assert (HkeepW : forall j, j <> iter t \/ b = false -> (if b then delete (iter t) W else W) !! j = W !! j).
  { destruct b; [| done]. intros j [Hj | Hj]; [by rewrite lookup_delete_ne | done]. }
  assert (Hkeepc : forall j, j <> iter t \/ b = false -> (if b then delete (iter t) (_check c) else _check c) !! j = _check c !! j).
  { destruct b; [| done]. intros j [Hj | Hj]; [by rewrite lookup_delete_ne | done]. }
  assert (Hcase : forall j, (b = true -> j <> iter t) -> j <> iter t \/ b = false) by (destruct b; auto).
  split; cbn [set_timers set_check set_flags _check flags next_flag _timers].
  - intros j x Hx. apply Hkeep in Hx as [Hx Hj]. destruct (watched_check _ _ HW j x Hx) as (v & g & Hv & Hg & Hh & Hfit & Hgl & Hgt).
    assert (Hgf : g <> f).
    { intros ->. destruct b; [| congruence]. destruct (Hlive eq_refl) as (y & Hy & Hyf). apply (Hj eq_refl). by eapply watched_unshared. }
    exists v, g. split; [by rewrite HkeepW by auto |]. split; [done | split; [done | split; [done |]]]. cbn [set_timers set_check set_flags flags _timers].
    split; [by rewrite lookup_delete_ne |]. rewrite Ht in Hgt. apply elem_of_cons in Hgt as [Heq |]; [| done]. destruct t. cbn in Hf. congruence.
  - intros j Hj. assert (Hjt : b = true -> j <> iter t). { intros -> ->. rewrite lookup_delete_eq in Hj. by destruct Hj. }
    rewrite HkeepW in Hj by auto. rewrite Hkeepc by auto. by apply HW.
  - intros u Hu. destruct (watched_timers _ _ HW u (Hsub u Hu)) as (g & b' & Hg & Hgb & Hx). exists g, b'. split; [done |].
    split; [rewrite lookup_delete_ne; [done |]; intros <-; by eapply Hother |]. intros Hbt. destruct (Hx Hbt) as (x & Hx1 & Hx2). exists x. split; [| done].
    rewrite Hkeepc; [done |]. apply Hcase. intros -> Heq. destruct (Hlive eq_refl) as (y & Hy & Hyf). rewrite <- Heq in Hy. apply (Hother u g Hu Hg). congruence.
  - done.
  - intros g [y Hy]. apply lookup_delete_Some in Hy as [Hne Hy]. destruct (watched_owned _ _ HW g) as (u & Hu & Hug); [eauto |]. exists u. split; [| done].
    rewrite Ht in Hu. apply elem_of_cons in Hu as [-> |]; [congruence | done].
  - intros g [y Hy]. apply lookup_delete_Some in Hy as [Hne Hy]. apply (watched_fresh _ _ HW). eauto.
  - pose proof (watched_sorted _ _ HW) as Hs. rewrite Ht in Hs. by inversion_clear Hs.
Qed.

Lemma live_half W c t f : watched W c -> t ∈ _timers c -> flag t = Some f -> flags c !! f = Some true ->
  exists d w, _check c !! iter t = Some d /\ W !! iter t = Some w /\ half w = forget d /\ deadline w = expire_time t /\ server w = timer_address t.
Proof.
  intros HW Ht Hf Hb. destruct (watched_timers _ _ HW t Ht) as (f' & b' & Hf' & Hb' & Hlive). assert (f' = f) as -> by congruence.
  destruct Hlive as (d & Hd & Hdf); [congruence |]. destruct (watched_check _ _ HW _ d Hd) as (w & g & Hw & Hg & Hh & _ & _ & Hgt).
  assert (g = f) as -> by congruence. exists d, w. split; [done |]. split; [done |]. split; [done |].
  rewrite (watched_flag W c t f _ HW Ht Hgt Hf eq_refl). done.
Qed.

Definition late_of (now : Z) W : gmap node_id waiting_half := filter (fun e => late now e.2 = true) W.
Definition early_of (now : Z) W : gmap node_id waiting_half := filter (fun e => late now e.2 = false) W.

Lemma late_timers_ok now fuel : forall W c, watched W c -> (length (_timers c) < fuel)%nat ->
  wp (check_timers fuel now) (fun l c' => watched (early_of now W) c' /\ l ≡ₚ flat_map late_notice (map_to_list (late_of now W)) /\ _storage c' = _storage c) c.
Proof.
  induction fuel as [| fuel IH]; intros W c HW Hf; [lia |]. cbn [check_timers]. wp_run.
  assert (Hrest : (forall t, t ∈ _timers c -> now < expire_time t) ->
    wp (mret [] : ST state _) (fun l c' => watched (early_of now W) c' /\ l ≡ₚ flat_map late_notice (map_to_list (late_of now W)) /\ _storage c' = _storage c) c).
  { intros Hnone. assert (Hall : forall id w, W !! id = Some w -> now < deadline w).
    { intros id w Hw. destruct (watched_all _ _ HW id) as [d Hd]; [eauto |]. destruct (watched_check _ _ HW id d Hd) as (w' & f & Hw' & _ & _ & _ & _ & Ht).
      assert (w' = w) as -> by congruence. by apply Hnone in Ht. }
    assert (He : early_of now W = W).
    { apply map_filter_id. intros id w Hw. apply Hall in Hw. cbn. unfold late. by apply Z.leb_gt. }
    assert (Hl : late_of now W = ∅).
    { apply map_empty_filter_2. intros id w Hw. apply Hall in Hw. cbn. unfold late. rewrite (proj2 (Z.leb_gt _ _)) by lia. done. }
    apply st_ret. rewrite He, Hl, map_to_list_empty. done. }
  destruct (_timers c) as [| t ts] eqn:Ht; [by apply Hrest; intros ? ?%not_elem_of_nil |].
  destruct (Z.leb_spec (expire_time t) now) as [Hle | Hgt]; cbn [negb].
  2: { apply Hrest. pose proof (watched_sorted _ _ HW) as Hs. rewrite Ht in Hs. inversion_clear Hs as [| ? ? _ Hall].
       intros u [-> | Hu]%elem_of_cons; [done |]. rewrite list.Forall_forall in Hall. specialize (Hall u Hu). simpl in Hall. lia. }
  assert (Hin : t ∈ _timers c) by (rewrite Ht; by left). destruct (watched_timers _ _ HW t Hin) as (f & b & Hfl & Hb & _).
  pose proof (timer_pop_ok W c t ts f b HW Ht Hfl Hb) as Hpop. cbn [length] in Hf.
  unfold timer_check_timeout, flag_at. wp_run. rewrite Hfl. eapply st_deref; [reflexivity |]. wp_run. eapply st_deref; [exact Hb |]. wp_run.
  destruct b; wp_run.
  - destruct (live_half W c t f HW Hin Hfl Hb) as (d & w & Hd & Hw & Hh & Hdl & Hsv). cbn [set_flags _check]. eapply st_deref; [exact Hd |].
    unfold check_erase. wp_run. cbn [set_flags set_check _check _timers]. rewrite Ht. cbn [tail].
    eapply st_mono; [apply (IH _ _ Hpop); cbn; lia | cbv beta]. intros l c' (HW' & Hl & Hst). wp_run.
    assert (Hlate : late now w = true) by (apply Z.leb_le; lia).
    split; [| split; [| done]].
    + replace (early_of now W) with (early_of now (delete (iter t) W)); [done |].
      unfold early_of. rewrite map_filter_delete. apply delete_id. apply map_lookup_filter_None. right. intros x Hx. assert (x = w) as -> by congruence. cbn. congruence.
    + assert (HlW : late_of now W = <[iter t := w]> (late_of now (delete (iter t) W))).
      { unfold late_of. rewrite <- map_filter_insert_True by done. by rewrite insert_delete_id. }
      rewrite HlW, map_to_list_insert by (apply map_lookup_filter_None; left; apply lookup_delete_eq). cbn [flat_map]. rewrite Hl.
      apply Permutation_app_tail. unfold late_notice. cbn [fst snd]. rewrite Hh, Hdl, Hsv. reflexivity.
  - cbn [set_flags set_check _check _timers]. rewrite Ht. cbn [tail]. eapply st_mono; [apply (IH W); [| cbn; lia] | cbv beta].
    { eapply eq_ind; [exact Hpop |]. by destruct c. }
    intros l c' (HW' & Hl & Hst). wp_run. done.
Qed.

Lemma watched_storage W c s : watched W c -> watched W (mkCenter (_check c) (flags c) (next_flag c) (_timers c) s).
Proof. intros [H1 H2 H3 H4 H5 H6 H7]. by split. Qed.

Lemma watched_start s : watched ∅ (mkCenter ∅ ∅ 0 [] s).
Proof.
  split; cbn.
  - intros id d Hd. by rewrite lookup_empty in Hd.
  - intros id Hd. rewrite lookup_empty in Hd. by destruct Hd.
  - by intros t ?%not_elem_of_nil.
  - constructor.
  - intros f Hf. rewrite lookup_empty in Hf. by destruct Hf.
  - intros f Hf. rewrite lookup_empty in Hf. by destruct Hf.
  - constructor.
Qed.
End Watched.
