(* ===== verification/LinkLogCenterSpec.v ===== *)
(** * LinkLogCenterSpec: the handlers of the center keep the book

    Each message that the book accepts is handled without a fault: the handlers of LinkLogCenter.v
    tell the user what the book says, and leave the storage, the waiting halves and the timers as
    the book has them.  [handle_read_ok]: so does a whole buffer of messages, cut off anywhere, and
    what was handled is in the log file afterwards. *)

From stdpp Require Import gmap sorting.
From S2P Require Import Prelude Packed BPTree BPTreeSession OrderedFile Calendar LRUCache LRUSpec LRUSession LRUCalm.
From S2P Require Import RingBuffer RingHistory LinkLogFormat LinkLogReplay TimeText Disk LinkLogIndex StateMonad LinkLogStorage LinkLogQuery LinkLogCenter LinkLogSpec LinkLogBook.
Local Open Scope Z_scope.

(** As [member], for the bytes of a member. *)
Ltac raw_member n :=
  match goal with
  | |- context [raw ?f (put ?g ?a ?o)] =>
      first [ constr_eq f g; rewrite (raw_put_same n f a o) by side
            | rewrite (raw_put_other n f g a o) by side ]
  end.

Section Spec.
Context {T F D : Type} `{!OrderedFile T index_key (list Z), !OrderedFile F Z Z, !OrderedFile D Z index_key}.
Context `{!OrderedFileLaws T index_key (list Z), !OrderedFileLaws D Z index_key}.
Context (localtime gmtime : Z -> Time) (openable : path -> bool) (writev : Z -> Z).
Context (writes_all : forall n, 0 <= n -> writev n = n).
Context (fn i : Z).
Abbreviation state := (center T F D).
Abbreviation stored := (stored localtime gmtime openable).
Implicit Types (c : state) (b : book).

(** The center and the book, while [pending] is handled and not yet written. *)
Record follows (pending : list Z) b c : Prop := {
  follows_stored : exists m l, stored fn i m l pending (_storage c) /\ info_of <$> m = nodes b /\ map what l = logs b;
  follows_watched : watched (waiting b) c;
}.

Definition file_content c : list Z := content_of i (fs (_storage c)).

Definition with_storage s c : state := mkCenter (_check c) (flags c) (next_flag c) (_timers c) s.

Lemma on_storage_ok {A} (r : ST (storage T F D) A) c a s : r (_storage c) = Ret (a, s) -> on_storage r c = Ret (a, with_storage s c).
Proof. intros E. unfold on_storage. by rewrite E. Qed.

(** ** The five messages without a text *)

(** What a body does: it tells what is heard and follows the book to [b']. *)
Definition bodied (pending : list Z) b' heard c : list notice -> state -> Prop := fun l c' =>
  l = heard /\ follows pending b' c' /\ file_content c' = file_content c.

Lemma info_of_update fn' prev v pt p ty : is_time pt -> is_node p -> is_uint 1 ty -> points_to fn' prev v ->
  info_of (put Index_Value.type ty (put Index_Value.parent_node p (put Index_Value.parent_init_time pt v))) = mkInfo pt p ty.
Proof.
  intros Ht Hp Hty (Hl & _). unfold info_of. by repeat member Index_Value.size.
Qed.

Lemma info_of_make pt p ty : is_time pt -> is_node p -> is_uint 1 ty -> info_of (Index_Value.make pt p ty 0 MAX_UINT) = mkInfo pt p ty.
Proof.
  intros Ht Hp Hty. destruct (value_members p 0 pt ty MAX_UINT) as (_ & H1 & H2 & H3 & _); [auto.. |]. unfold info_of. by rewrite H1, H2, H3.
Qed.

Lemma register_body_ok pending b b' c address now ty s n p t pt e heard :
  let op := Register ty s n p t pt e in
  follows pending b c -> valid_operation op -> book_op address now op b = Some (heard, b') ->
  wp (register_body address now (mark_of op)) (bodied pending b' heard c) c.
Proof.
  intros op [(m & l & Hst & Hn & Hl) HW] (Hty & Hs & Hno & Hp & Ht & Hpt & He). unfold book_op. destruct (_ <? _); [done |].
  cbn [op spend waiting nodes].
  destruct (register_members s n p t pt e ty) as (_ & E1 & E2 & E3 & E4 & E5 & E6 & E7); [assumption.. |].
  unfold register_body. cbn [op mark_of]. rewrite E1, E2, E3, E4, E5, E6, E7. unfold when.
  destruct (Decision <? ty); cbn [negb].
  2: { intros [= <- <-]. wp_run. split; [done |]. split; [| done]. split; [by exists m, l | done]. }
  pose proof (try_emplace_ok (s, n) (check_of_register (Register_Logger.make ty s n p t pt e)) c) as Htry.
  destruct (waiting b !! (s, n)) as [w |] eqn:Hw.
  - destruct (nodes b !! _) as [inf |] eqn:Hk; [| done]. intros [= <- <-].
    destruct (watched_all _ _ HW (s, n)) as [d Hd]; [eauto |]. destruct (watched_check _ _ HW _ d Hd) as (w' & f & Hw' & _ & Hh & _).
    pose proof (eq_trans (eq_sym Hw') Hw) as [= ->]. rewrite Hd in Htry. rewrite Hh in Hk |- *. cbn [forget init_time] in Hk |- *.
    rewrite <- Hn, lookup_fmap in Hk. destruct (m !! _) as [v |] eqn:Hmk; [| done].
    destruct (update_logger_ok localtime gmtime openable fn i m l pending (_storage c) s n pt p ty (init_time d) now now v Hst Hpt Hp Hty Hmk) as (s' & Hup & Hfs & Hst').
    wp_run. wp_eq Htry. wp_eq (on_storage_ok _ c _ _ Hup). wp_call (met_ok (waiting b) (with_storage s' c) (s, n) d); [by apply watched_storage | done |].
    intros _ c1 (c' & E & HW' & Hc'). wp_run. wp_eq E. split; [done |]. split; [| unfold file_content; by rewrite Hc', <- Hfs].
    split; [| done]. cbn [nodes logs set_waiting set_nodes spend]. rewrite Hc'. eexists _, _. split; [exact Hst' |]. split; [| done].
    rewrite fmap_insert, Hn. f_equal. destruct Hst as [_ _ _ Hlk]. eapply info_of_update; [done.. |]. by eapply linked_values.
  - intros [= <- <-]. rewrite (proj1 (watched_none _ _ _ HW) Hw) in Htry.
    wp_run. wp_eq Htry. wp_call (wait_ok (waiting b) c (s, n)); [done | done | | done |].
    { unfold half_fits, check_of_register. cbn [parent type init_time LinkLogCenter.parent_init_time]. rewrite E1, E4. done. }
    intros _ c1 (c' & E & HW' & Hc'). wp_run. wp_eq E. split; [done |]. split; [| unfold file_content; by rewrite Hc'].
    split; [rewrite Hc'; by exists m, l |]. unfold check_of_register, forget in HW'. cbn [parent type init_time LinkLogCenter.parent_init_time] in HW'. by rewrite E1, E4 in HW'.
Qed.

(** The node of a creation, once its type and parent are known. *)
Lemma enter_node_ok pending b c s n t ty p pt :
  follows pending b c -> is_time pt -> is_node p -> is_uint 1 ty ->
  let k := Index_Key_of s t n in
  wp (on_storage (LinkLogStorage.create_logger s n pt p ty t)) (fun ok c' =>
    ok = bool_decide (nodes b !! k = None) /\ file_content c' = file_content c /\
    follows pending (match nodes b !! k with None => set_nodes (<[k := mkInfo pt p ty]> (nodes b)) b | Some _ => b end) c') c.
Proof.
  intros [(m & l & Hst & Hn & Hl) HW] Hpt Hp Hty k.
  destruct (store_logger_ok localtime gmtime openable fn i m l pending (_storage c) s n pt p ty t Hst Hpt Hp Hty) as (s' & E & Hfs & Hst').
  fold k in E, Hst'. assert (Hk : m !! k = None <-> nodes b !! k = None) by (rewrite <- Hn, lookup_fmap; by destruct (m !! k)).
  wp_eq (on_storage_ok _ c _ _ E). split; [by apply bool_decide_ext |]. split; [unfold file_content; by cbn; rewrite Hfs |].
  split; [| destruct (nodes b !! k); by apply watched_storage]. cbn [with_storage _storage]. eexists _, _. split; [exact Hst' |].
  case_decide as Hm; [| by destruct (nodes b !! k); [| destruct Hm; apply Hk]].
  rewrite (proj1 Hk Hm). cbn [set_nodes nodes logs]. split; [| done]. rewrite fmap_insert, Hn. f_equal. by apply info_of_make.
Qed.

Lemma create_body_ok pending b b' c address now ty s n p t pt heard :
  let op := Create ty s n p t pt in
  follows pending b c -> valid_operation op -> book_op address now op b = Some (heard, b') ->
  wp (create_body address now (mark_of op)) (bodied pending b' heard c) c.
Proof.
  intros op Hc (Hty & Hs & Hno & Hp & Ht & Hpt). unfold book_op. destruct (_ <? _); [done |]. cbn [op].
  destruct (create_members s n p t pt ty) as (Hz & E1 & E2 & E3 & E4 & E5 & E6); [assumption.. |].
  set (lg := Create_Logger.make ty s n p t pt) in *.
  (* what is known of the message once the other half was met *)
  assert (Htail : forall b1 c1 lg' ty' p' pt',
    (match nodes b1 !! Index_Key_of s t n with
     | Some _ => Some (notify address (handling_error s n t (error_code ConflictingNode)), b1)
     | None => Some (notify address (if ty' =? Head then create_head_logger s n t else LinkLogReplay.create_logger s n t),
                     set_nodes (<[Index_Key_of s t n := mkInfo pt' p' ty']> (nodes b1)) b1)
     end = Some (heard, b')) ->
    follows pending b1 c1 -> file_content c1 = file_content c -> is_time pt' -> is_node p' -> is_uint 1 ty' ->
    get Create_Logger.type lg' = ty' -> get Create_Logger.parent_node lg' = p' -> get Create_Logger.parent_init_time lg' = pt' -> get Create_Logger.init_time lg' = t ->
    wp (on_storage (LinkLogStorage.create_logger s n (get Create_Logger.parent_init_time lg') (get Create_Logger.parent_node lg')
          (get Create_Logger.type lg') (get Create_Logger.init_time lg'))) (fun success =>
        wp (mret (notify address (if (success : bool) then if get Create_Logger.type lg' =? Head
              then create_head_logger s n (get Create_Logger.init_time lg') else LinkLogReplay.create_logger s n (get Create_Logger.init_time lg')
              else handling_error s n (get Create_Logger.init_time lg') (error_code ConflictingNode)))) (bodied pending b' heard c)) c1).
  { intros b1 c1 lg' ty' p' pt' Hb Hc1 Hf1 Hpt' Hp' Hty' -> -> -> ->. wp_run. wp_call (enter_node_ok pending b1 c1 s n t); [done.. |].
    intros ok c2 (-> & Hf2 & Hc2). wp_run. destruct (nodes b1 !! _) eqn:Ek; injection Hb as <- <-; cbn [bool_decide]; (split; [done | split; [done | congruence]]). }
  unfold create_body. cbn [op mark_of]. fold lg. rewrite E1, E2, E3. unfold meet. cbn [spend waiting].
  destruct (ty =? BranchHead).
  2: { intros Hb. wp_run. eapply Htail; [exact Hb | | done..]. destruct Hc as [(m & l & Hst & Hn & Hl) HW]. split; [by exists m, l | done]. }
  destruct Hc as [(m & l & Hst & Hn & Hl) HW]. pose proof (try_emplace_ok (s, n) (check_of_create lg) c) as Htry.
  destruct (waiting b !! (s, n)) as [w |] eqn:Hw; intros Hb.
  - destruct (watched_all _ _ HW (s, n)) as [d Hd]; [eauto |]. destruct (watched_check _ _ HW _ d Hd) as (w' & f & Hw' & _ & Hh & (Hf1 & Hf2 & Hf3 & Hf4) & _).
    pose proof (eq_trans (eq_sym Hw') Hw) as [= ->]. rewrite Hd in Htry. rewrite Hh in Hb. cbn [forget type parent LinkLogCenter.parent_init_time] in Hb.
    wp_run. wp_eq Htry. wp_call (met_ok (waiting b) c (s, n) d); [done.. |].
    intros _ c1 (c' & E & HW' & Hc'). wp_run. wp_eq E.
    eapply Htail; [exact Hb | split; [| exact HW'] | | exact Hf4 | exact Hf1 | exact Hf2 | ..]; [rewrite Hc'; by exists m, l | unfold file_content; by rewrite Hc' | ..];
      by repeat member Create_Logger.size.
  - rewrite (proj1 (watched_none _ _ _ HW) Hw) in Htry. wp_run. wp_eq Htry. wp_call (wait_ok (waiting b) c (s, n)); [done | done | | done |].
    { unfold half_fits, check_of_create. cbn [parent type init_time LinkLogCenter.parent_init_time]. rewrite E1, E5. done. }
    intros _ c1 (c' & E & HW' & Hc'). wp_run. wp_eq E. unfold check_of_create, forget in HW'. cbn [parent type init_time LinkLogCenter.parent_init_time] in HW'. rewrite E1, E5 in HW'.
    eapply Htail; [exact Hb | split; [| exact HW'] | ..]; try done; [rewrite Hc'; by exists m, l | unfold file_content; by rewrite Hc'].
Qed.

Lemma end_body_ok pending b b' c address now s n t t' heard :
  let op := End s n t t' in
  follows pending b c -> valid_operation op -> book_op address now op b = Some (heard, b') ->
  wp (end_body address now (mark_of op)) (bodied pending b' heard c) c.
Proof.
  intros op [(m & l & Hst & Hn & Hl) HW] (Hs & Hno & Ht & Ht'). unfold book_op. destruct (_ <? _); [done |]. cbn [op]. intros [= <- <-].
  destruct (end_members s n t' t) as (_ & E1 & E2 & E3 & E4); [assumption.. |]. unfold end_body. cbn [op mark_of]. rewrite E1, E2, E3, E4.
  destruct (end_logger_ok localtime gmtime openable fn i m l pending (_storage c) s n t now Hst) as (s' & E & Hfs & Hst').
  wp_run. wp_eq (on_storage_ok _ c _ _ E). split; [done |]. split; [| unfold file_content; cbn; by rewrite Hfs].
  split; [by exists m, l | by apply watched_storage].
Qed.

Lemma error_body_ok pending b b' c address now s n t e heard :
  let op := Error s n t e in
  follows pending b c -> valid_operation op -> book_op address now op b = Some (heard, b') ->
  wp (error_body address (mark_of op)) (bodied pending b' heard c) c.
Proof.
  intros op [(m & l & Hst & Hn & Hl) HW] (Hs & Hno & Ht & He). unfold book_op. destruct (_ <? _); [done |]. cbn [op]. intros [= <- <-].
  destruct (error_members s n t e) as (_ & E1 & E2 & E3 & E4); [assumption.. |]. unfold error_body. cbn [op mark_of]. rewrite E1, E2, E3, E4.
  wp_run. split; [done |]. split; [| done]. split; [by exists m, l | done].
Qed.

(** A message that was handled: how much was read, what was told, and where the center is now. *)
Definition handled_as (size : Z) heard b' (rest : list Z) (pending : list Z) (buf : ring) c : handled -> state -> Prop := fun r c' =>
  r.1.1 = size /\ r.1.2 = heard /\ ring_wf r.2 /\ _size r.2 = _size buf /\ contents r.2 = rest /\
  file_content c' = file_content c /\
  exists pending', zlen pending' = zlen pending + size /\ recalls pending' r.2 /\ follows pending' b' c'.

Lemma with_object_ok pending b' c buf op rest body heard now :
  valid_operation op -> text_of op = [] -> ring_wf buf -> recalls pending buf -> contents buf = bytes_of op ++ rest ->
  zlen (file_content c ++ pending) + zlen (bytes_of op) <= LOG_FILE_LIMIT_SIZE ->
  wp (body (mark_of op)) (bodied pending b' heard c) c ->
  wp (with_object (mark_size op) buf body now) (handled_as (zlen (bytes_of op)) heard b' rest pending buf c) c.
Proof.
  intros Hv Htext Hwf Hrec Hc Hlim Hbody. pose proof (zlen_mark op Hv) as Hm. pose proof (zlen_bytes op Hv) as Hz. rewrite Htext in Hz. change (zlen []) with 0 in Hz.
  assert (Hb : bytes_of op = object (code_of op) (mark_of op)) by (unfold bytes_of; by rewrite Htext, app_nil_r).
  assert (Hrd : _readable buf = sizeof (mark_size op) + zlen rest) by (rewrite <- zlen_contents, Hc, zlen_app, Hz by done; lia).
  pose proof (zlen_nonneg rest). pose proof (bytes_bounds op Hv) as Hbb. unfold with_object, readable_len. rewrite (proj2 (Z.ltb_ge _ _)) by lia.
  destruct (recalls_read pending (sizeof (mark_size op)) buf Hwf Hrec ltac:(lia)) as (buf' & E & Hwf' & Hc' & Hs' & Hrec').
  rewrite Hc, take_zlen in E, Hrec' by lia. rewrite Hc, drop_zlen in Hc' by lia.
  wp_run. eapply st_lift; [unfold read_mark; rewrite E, bind_ret, Hb; reflexivity |]. cbn [object tail]. wp_run.
  eapply st_mono; [exact Hbody | cbv beta]. intros l c' (-> & [(m & ls & Hst & Hn & Hl) HW] & Hf). wp_run.
  destruct (add_record_ok localtime gmtime openable fn i m ls pending (bytes_of op) (_storage c') now Hst) as (s' & Ea & Hfs & Hst').
  { fold (file_content c'). rewrite Hf, app_assoc, zlen_app. lia. }
  { lia. }
  replace (sizeof (mark_size op)) with (zlen (bytes_of op)) by lia.
  wp_eq (on_storage_ok _ c' _ _ Ea). split; [done |]. split; [done |]. split; [done |]. split; [done |]. split; [done |].
  split; [unfold file_content in *; cbn; by rewrite Hfs |]. exists (pending ++ bytes_of op). split; [by rewrite zlen_app |]. split; [done |].
  split; [by exists m, ls | by apply watched_storage].
Qed.

(** ** A log *)

Lemma slice_join {A} off n k (l : list A) : 0 <= off -> 0 <= n -> 0 <= k -> slice off (n + k) l = slice off n l ++ slice (off + n) k l.
Proof.
  intros H0 Hn Hk. unfold slice. rewrite !Z2Nat.inj_add by lia. rewrite <- take_take_drop, drop_drop. done.
Qed.

(** The key in the header is three members that follow each other. *)
Lemma header_key_make s t n size time rank : is_service s -> is_time t -> is_node n -> is_time time -> is_uint 1 rank -> is_uint 2 size ->
  header_key (Link_Log_Header.make size s t n time rank) = Index_Key_of s t n.
Proof.
  intros Hs Ht Hn Htm Hr Hsz. unfold header_key, Index_Key_of. f_equal.
  set (h := Link_Log_Header.make size s t n time rank). set (k := Index_Key.make s t n).
  assert (Hk : k = slice 0 24 k) by (symmetry; apply slice_all; symmetry; by apply key_members).
  rewrite Hk. change Index_Key.size with (8 + (8 + 8)). change (slice 0 24 k) with (slice 0 (8 + (8 + 8)) k). change (offset Link_Log_Header.service) with 14.
  rewrite !slice_join by lia.
  change (slice 14 8 h) with (raw Link_Log_Header.service h). change (slice (14 + 8) 8 h) with (raw Link_Log_Header.init_time h).
  change (slice (14 + 8 + 8) 8 h) with (raw Link_Log_Header.node h).
  change (slice 0 8 k) with (raw Index_Key.service k). change (slice (0 + 8) 8 k) with (raw Index_Key.init_time k).
  change (slice (0 + 8 + 8) 8 k) with (raw Index_Key.node k).
  unfold h, k, Link_Log_Header.make, Index_Key.make.
  repeat raw_member Link_Log_Header.size. repeat raw_member Index_Key.size. done.
Qed.

Lemma info_of_log fn' prev v a : is_time fn' -> is_uint 4 a -> points_to fn' prev v ->
  info_of (put Index_Value.latest_index a (put Index_Value.latest_file fn' v)) = info_of v.
Proof. intros Ht Ha (Hl & _). unfold info_of. by repeat member Index_Value.size. Qed.

Lemma handle_log_ok pending b b' c buf address now s t n t' r x rest heard :
  let op := Log s t n t' r x in
  follows pending b c -> zlen (file_content c ++ pending) = used b -> valid_operation op -> ring_wf buf -> recalls pending buf ->
  contents buf = bytes_of op ++ rest -> book_op address now op b = Some (heard, b') ->
  wp (handle_log address now buf) (handled_as (zlen (bytes_of op)) heard b' rest pending buf c) c.
Proof.
  intros op [(m & l & Hst & Hn & Hl) HW] Hused Hv Hwf Hrec Hc. unfold book_op. destruct (Z.ltb_spec LOG_FILE_LIMIT_SIZE (used b + zlen (bytes_of op))) as [| Hlim]; [done |].
  cbn [op spend nodes]. destruct (nodes b !! _) as [inf |] eqn:Hk; [| done]. intros [= <- <-].
  pose proof (zlen_mark op Hv) as Hm. pose proof (zlen_bytes op Hv) as Hz. cbn [op text_of mark_size] in Hz. pose proof Hv as (Hs & Ht & Hno & Ht' & Hr & Hw).
  pose proof (zlen_nonneg x). pose proof (zlen_nonneg rest). assert (Hsz : is_uint 2 (zlen x)) by (eapply log_size_fits; [done | exact Hw]).
  apply can_write_log_spec in Hw as [Hw _].
  destruct (header_members s n t' t r (zlen x)) as (_ & E1 & E2 & E3 & E4 & E5 & E6); [assumption.. |].
  set (header := Link_Log_Header.make (zlen x) s t n t' r) in *. change (mark_of op) with header in Hm. change (mark_size op) with Link_Log_Header.size in Hm.
  assert (Hb : bytes_of op = object LinkLog header ++ x) by done. rewrite Hb, <- app_assoc in Hc.
  change (sizeof Link_Log_Header.size) with 48 in Hz.
  assert (Hzo : zlen (object LinkLog header) = 48) by (rewrite zlen_object, Hm; done).
  assert (Hrd : _readable buf = 48 + (zlen x + zlen rest)) by (rewrite <- zlen_contents, Hc, !zlen_app, Hzo by done; lia).
  assert (Hlog : Link_Log_of header x = mkLog s t n r t' x) by (unfold Link_Log_of; by rewrite E2, E3, E4, E5, E6).
  assert (Hkey : header_key header = log_key (Link_Log_of header x)) by (rewrite Hlog; by apply header_key_make).
  rewrite <- Hlog, <- Hn, lookup_fmap in Hk. destruct (m !! _) as [v |] eqn:Hmk; [| done].
  assert (Hroom : zlen (content_of i (fs (_storage c)) ++ pending) < LOG_FILE_LIMIT_SIZE) by (fold (file_content c); lia).
  destruct (handle_a_log_ok localtime gmtime openable fn i m l pending (_storage c) header (x ++ rest) buf v now now Hst Hwf Hrec Hc Hm Hroom)
    as (b1 & ch & Eh & Hwf1 & Hrec1 & Hs1 & Hc1 & Hix); [by rewrite Hkey |].
  rewrite Hkey in Hix. set (content := content_of i (fs (_storage c)) ++ pending) in *. pose proof Hst as [Hholds _ _ Hlinked].
  assert (Hmax : zlen content <= MAX_UINT) by (unfold LOG_FILE_LIMIT_SIZE, MAX_UINT in *; lia).
  destruct (points_fits _ _ _ _ _ _ Hlinked Hmax Hmk) as [Hfi Hff]. destruct (linked_header_members v header Hm Hfi Hff) as (Hzl & _).
  assert (Hzo1 : zlen (object LinkLog (linked_header v header)) = 48) by (rewrite zlen_object, Hzl; done).
  assert (Hrd1 : _readable b1 = 48 + (zlen x + zlen rest)) by (rewrite <- zlen_contents, Hc1, !zlen_app, Hzo1 by done; lia).
  destruct (read_advance_spec 48 b1 Hwf1) as (b2 & Ea & Hwf2 & Hbuf2 & Hrd2 & Hc2); [lia |]. pose proof (recalls_advance pending 48 b1 b2 Hwf1 Hrec1 ltac:(lia) Ea) as Hrec2.
  rewrite Hc1, take_zlen in Hrec2 by lia. rewrite Hc1, drop_zlen in Hc2 by lia.
  destruct (recalls_read _ (zlen x) b2 Hwf2 Hrec2) as (b3 & Er & Hwf3 & Hc3 & Hs3 & Hrec3); [lia |].
  rewrite Hc2, take_zlen in Er, Hrec3 by done. rewrite Hc2, drop_zlen in Hc3 by done.
  destruct (log_added_ok localtime gmtime openable fn i m l pending (_storage c) ch v header x now Hst) as (s' & Ead & Hfs & Hst'); try done.
  { fold content. rewrite !zlen_app, Hzo1. fold (file_content c) in Hused. unfold content. unfold file_content in Hused. rewrite zlen_app in *. lia. }
  { change header_size with 48. lia. }
  unfold handle_log. unfold readable_len. rewrite (proj2 (Z.ltb_ge _ _)) by (change (sizeof Link_Log_Header.size) with 48; lia).
  wp_run. eapply st_lift; [apply try_read_spec; [done | done | done | vm_compute; congruence] |]. rewrite Hc. change (sizeof Link_Log_Header.size) with 48. unfold slice.
  rewrite drop_0, take_zlen by done. rewrite tail_object, E1. rewrite (proj2 (Z.ltb_ge _ _)) by lia.
  wp_run. wp_eq (on_storage_ok _ c _ _ Eh). wp_lift Ea. wp_lift Er.
  assert (Ead' : on_storage (add_record (48 + zlen x) now) (with_storage (with_cache ch (_storage c)) c) = Ret (tt, with_storage s' c))
    by exact (on_storage_ok _ (with_storage (with_cache ch (_storage c)) c) _ _ Ead).
  wp_eq Ead'. unfold handled_as. cbn [fst snd]. split; [lia |]. split; [by rewrite Hlog |]. split; [done |]. split; [rewrite Hs3; unfold _size in *; by rewrite Hbuf2 |].
  split; [done |]. split; [unfold file_content; cbn; by rewrite Hfs |].
  exists ((pending ++ object LinkLog (linked_header v header)) ++ x). split; [rewrite !zlen_app, Hzo1; lia |]. split; [done |].
  split; [| by apply watched_storage]. cbn [with_storage _storage log_entry nodes logs]. eexists _, _. split; [rewrite <- app_assoc; exact Hst' |].
  split; [| cbn [map what]; by rewrite Hlog, Hl]. rewrite fmap_insert, (info_of_log _ (prev_of (log_key (Link_Log_of header x)) l)); [| apply Hholds | | by eapply linked_values].
  - rewrite insert_id; [done |]. by rewrite lookup_fmap, Hmk.
  - change (0 <= zlen content < 4294967296). pose proof (zlen_nonneg content). unfold MAX_UINT in *. lia.
Qed.

(** ** The switch and the loop *)

Lemma handle_one_ok pending b b' c buf address now op rest heard :
  follows pending b c -> zlen (file_content c ++ pending) = used b -> valid_operation op -> ring_wf buf -> recalls pending buf ->
  contents buf = bytes_of op ++ rest -> book_op address now op b = Some (heard, b') -> last_one op rest = true ->
  wp (handle_one address now buf) (handled_as (zlen (bytes_of op)) heard b' rest pending buf c) c.
Proof.
  intros Hc Hused Hv Hwf Hrec Hb Hop Hlast.
  assert (Hlim : zlen (file_content c ++ pending) + zlen (bytes_of op) <= LOG_FILE_LIMIT_SIZE).
  { rewrite Hused. unfold book_op in Hop. destruct (Z.ltb_spec LOG_FILE_LIMIT_SIZE (used b + zlen (bytes_of op))); [done | lia]. }
  assert (Hobj : contents buf = object (code_of op) (mark_of op) ++ text_of op ++ rest) by (rewrite Hb; unfold bytes_of; by rewrite <- app_assoc).
  unfold handle_one. wp_run. eapply st_lift; [by eapply first_byte |]. cbn [hd]. rewrite operation_of_code by (by destruct op).
  destruct op as [ty s n p t pt e | ty s n p t pt | s n t t' | s t n t' r x | s n t e | t] eqn:Eop; cbn [code_of]; rewrite <- Eop in *.
  - subst op. eapply (with_object_ok pending b' c buf (Register ty s n p t pt e)); try done. by eapply register_body_ok.
  - subst op. eapply (with_object_ok pending b' c buf (Create ty s n p t pt)); try done. by eapply create_body_ok.
  - subst op. eapply (with_object_ok pending b' c buf (End s n t t')); try done. by eapply end_body_ok.
  - subst op. by eapply handle_log_ok.
  - subst op. eapply (with_object_ok pending b' c buf (Error s n t e)); try done. by eapply error_body_ok.
  - subst op. wp_run. eapply st_mono; [eapply (with_object_ok pending b' c buf (Offline t) rest _ heard); try done | cbv beta].
    + unfold book_op in Hop. destruct (_ <? _) in Hop; [done |]. injection Hop as <- <-. cbn [mark_of].
      destruct (offline_members t) as (_ & ->); [done |]. wp_run. split; [done |]. split; [| done]. destruct Hc as [Hst HW]. by split.
    + intros [[size l] b1] c1 (Hsz & Hl & Hwf1 & Hs1 & Hc1 & Hrest). cbn [fst snd] in *. wp_run. apply st_assert; [| by wp_run].
      cbn [last_one] in Hlast. apply bool_decide_eq_true in Hlast. subst rest. rewrite readable_contents, Hc1 by done. done.
Qed.

Lemma book_op_used address now op b heard b' : book_op address now op b = Some (heard, b') -> used b' = used b + zlen (bytes_of op).
Proof.
  unfold book_op. destruct (_ <? _); [done |]. destruct op; cbn [spend waiting nodes].
  - destruct (negb _); [by intros [= <- <-] |]. destruct (waiting b !! _); [| by intros [= <- <-]]. destruct (nodes b !! _); [| done]. by intros [= <- <-].
  - unfold meet. cbn [waiting spend]. destruct (_ =? BranchHead); [destruct (waiting b !! _) |]; cbn [nodes set_waiting spend];
      (destruct (nodes b !! _); by intros [= <- <-]).
  - by intros [= <- <-].
  - destruct (nodes b !! _); [| done]. by intros [= <- <-].
  - by intros [= <- <-].
  - by intros [= <- <-].
Qed.

(** A message that is not complete stays in the buffer: the replay of a file has the same tests. *)
Lemma replay_object_zero size calls buf l buf' : 0 <= size -> replay_object size calls buf = Ret (0, l, buf') -> (readable_len buf <? sizeof size) = true.
Proof.
  intros Hs. unfold replay_object. destruct (_ <? _); [done |]. destruct (read_mark size buf) as [[o b] |]; [| done]. rewrite bind_ret. intros [= Hz _ _].
  unfold sizeof, sizeof_OperationType in Hz. lia.
Qed.

Lemma with_object_zero size calls body now buf c l buf' : 0 <= size -> replay_object size calls buf = Ret (0, l, buf') ->
  with_object (T := T) (F := F) (D := D) size buf body now c = Ret ((0, [], buf), c).
Proof. intros Hs Hr. apply replay_object_zero in Hr; [| done]. unfold with_object. by rewrite Hr. Qed.

Lemma handle_log_zero address now buf c buf' : replay_log buf = Ret (0, [], buf') -> handle_log address now buf c = Ret ((0, [], buf), c).
Proof.
  intros Hr. unfold replay_log in Hr. unfold handle_log, mbind, ST_bind, lift. destruct (readable_len buf <? sizeof Link_Log_Header.size); [done |].
  destruct (try_read _ 0 buf) as [bs |]; [| done]. rewrite bind_ret in Hr. cbv zeta. destruct (_ <? _); [done |].
  destruct (read_advance _ buf) as [b1 |]; [| done]. rewrite bind_ret in Hr. by destruct (read _ b1) as [[x b2] |].
Qed.

Lemma handle_one_short address now op more buf c : valid_operation op -> ring_wf buf ->
  bytes_of op = contents buf ++ more -> more <> [] -> contents buf <> [] -> handle_one address now buf c = Ret ((0, [], buf), c).
Proof.
  intros Hv Hwf Hb Hmore Hne. pose proof (replay_one_short op more buf Hv Hwf Hb Hmore Hne) as Hr. unfold replay_one in Hr. unfold handle_one, mbind, ST_bind, lift.
  destruct (try_read _ 0 buf) as [ot |]; [| done]. rewrite bind_ret in Hr. destruct (operation_of (hd 0 ot)) as [[] |]; try done.
  - by eapply with_object_zero in Hr.
  - by eapply with_object_zero in Hr.
  - by eapply with_object_zero in Hr.
  - by eapply handle_log_zero.
  - by eapply with_object_zero in Hr.
  - unfold handle_remove_server. eapply with_object_zero in Hr; [| done]. rewrite Hr. by rewrite orb_true_r.
Qed.

Lemma book_op_limit address now op b heard b' : book_op address now op b = Some (heard, b') -> used b' <= LOG_FILE_LIMIT_SIZE.
Proof.
  intros Hop. pose proof (book_op_used _ _ _ _ _ _ Hop) as ->. unfold book_op in Hop.
  destruct (Z.ltb_spec LOG_FILE_LIMIT_SIZE (used b + zlen (bytes_of op))); [done | lia].
Qed.

(** Where the loop ends: all complete messages are handled, the rest is still in the buffer. *)
Definition looped heard b' (rest : list Z) (buf : ring) c : handled -> state -> Prop := fun r c' =>
  exists pending', r.1.1 = zlen pending' /\ r.1.2 = heard /\ ring_wf r.2 /\ _size r.2 = _size buf /\ contents r.2 = rest /\
    recalls pending' r.2 /\ follows pending' b' c' /\ file_content c' = file_content c /\ zlen (file_content c ++ pending') = used b'.

Lemma handle_buffer_ok address now fuel : forall ops rest pending b b' c buf read heard,
  follows pending b c -> zlen (file_content c ++ pending) = used b -> used b <= LOG_FILE_LIMIT_SIZE ->
  Forall valid_operation ops -> cut_off rest -> ring_wf buf -> recalls pending buf -> contents buf = stream ops ++ rest ->
  book_ops address now ops rest b = Some (heard, b') -> read <> 0 -> zlen (contents buf) < Z.of_nat fuel ->
  wp (handle_buffer fuel address now read (zlen pending) buf) (looped heard b' rest buf c) c.
Proof.
  induction fuel as [| fuel IH]; intros ops rest pending b b' c buf read heard Hc Hused Hlim Hops Hrest Hwf Hrec Hb Hbook Hread Hf.
  { pose proof (zlen_nonneg (contents buf)). lia. }
  cbn [handle_buffer]. rewrite (proj2 (Z.eqb_neq _ _) Hread). cbn [negb andb]. rewrite readable_contents by done. unfold sizeof_OperationType.
  assert (Hmod : u32 (zlen pending + 0) = zlen pending).
  { unfold u32. rewrite Z.add_0_r. apply Z.mod_small. rewrite zlen_app in Hused. pose proof (zlen_nonneg (file_content c)). pose proof (zlen_nonneg pending). unfold LOG_FILE_LIMIT_SIZE in *. lia. }
  destruct ops as [| op ops].
  - cbn in Hbook. injection Hbook as <- <-. cbn in Hb.
    assert (Hdone : wp (mret (zlen pending, [], buf) : ST state handled) (looped [] b rest buf c) c) by (apply st_ret; by exists pending).
    destruct (Z.ltb_spec 1 (zlen (contents buf))) as [Hl | Hl]; [| exact Hdone].
    pose proof Hrest as (op & more & Hv & Hop & Hmore). rewrite <- Hb in Hop.
    pose proof (handle_one_short address now op more buf c Hv Hwf Hop Hmore) as E. specialize (E ltac:(intros Hn; by rewrite Hn in Hl)).
    wp_run. wp_eq E. rewrite Hmod. destruct fuel as [| fuel]; [lia |]. cbn [handle_buffer Z.eqb negb andb]. wp_run. exists pending. done.
  - apply list.Forall_cons in Hops as [Hv Hops]. cbn [book_ops] in Hbook. destruct (last_one op (stream ops ++ rest)) eqn:Hlast; [| done]. cbn [negb] in Hbook.
    destruct (book_op address now op b) as [[h1 b1] |] eqn:Hop; [| done]. destruct (book_ops address now ops rest b1) as [[h2 b2] |] eqn:Hmore; [| done].
    injection Hbook as <- <-. pose proof (bytes_bounds op Hv) as [Hb2 _].
    unfold stream in Hb. cbn [map concat] in Hb. rewrite <- app_assoc in Hb. fold (stream ops) in Hb.
    pose proof Hb as Hz. apply (f_equal zlen) in Hz. rewrite zlen_app in Hz. pose proof (zlen_nonneg (stream ops ++ rest)).
    rewrite (proj2 (Z.ltb_lt _ _)) by lia. wp_run.
    eapply st_mono; [by eapply (handle_one_ok pending b b1 c buf address now op (stream ops ++ rest)) | cbv beta].
    intros [[n l] buf1] c1 (Hn & Hl & Hwf1 & Hs1 & Hc1 & Hf1 & pending1 & Hp1 & Hrec1 & Hfol1). cbn [fst snd] in *. subst n l.
    pose proof (book_op_used _ _ _ _ _ _ Hop) as Hu1. pose proof (book_op_limit _ _ _ _ _ _ Hop) as Hlim1. wp_run.
    assert (Hused1 : zlen (file_content c1 ++ pending1) = used b1) by (rewrite Hf1, zlen_app, Hp1; rewrite zlen_app in Hused; lia).
    assert (u32 (zlen pending + zlen (bytes_of op)) = zlen pending1) as ->.
    { rewrite <- Hp1. apply Z.mod_small. rewrite zlen_app in Hused1. pose proof (zlen_nonneg (file_content c1)). pose proof (zlen_nonneg pending1). unfold LOG_FILE_LIMIT_SIZE in *. lia. }
    eapply st_mono; [eapply (IH ops rest pending1 b1 b2 c1 buf1); try done; rewrite ?Hc1; lia | cbv beta].
    intros [[total l] buf2] c2 (pending2 & Ht & Hl2 & Hwf2 & Hs2 & Hc2 & Hrec2 & Hfol2 & Hf2 & Hu2). cbn [fst snd] in *. subst total l. wp_run.
    exists pending2. cbn [fst snd]. rewrite Hf1 in *. split; [done |]. split; [done |]. split; [done |]. split; [by rewrite Hs2 |]. by rewrite Hf2.
Qed.

(** What the book says of a center between two reads. *)
Record keeps b c : Prop := {
  keeps_follows : follows [] b c;
  keeps_used : zlen (file_content c) = used b;
  keeps_limit : used b <= LOG_FILE_LIMIT_SIZE;
}.

Lemma book_ops_limit address now ops rest : forall b heard b', used b <= LOG_FILE_LIMIT_SIZE ->
  book_ops address now ops rest b = Some (heard, b') -> used b' <= LOG_FILE_LIMIT_SIZE.
Proof.
  induction ops as [| op ops IH]; intros b heard b' Hl; cbn [book_ops]; [by intros [= _ <-] |].
  destruct (negb _); [done |]. destruct (book_op address now op b) as [[h b1] |] eqn:Hop; [| done].
  destruct (book_ops address now ops rest b1) as [[h2 b2] |] eqn:Hm; [| done]. intros [= _ <-]. eapply IH; [| done]. by eapply book_op_limit.
Qed.

Lemma handle_read_ok b b' c buf address now ops rest heard :
  keeps b c -> Forall valid_operation ops -> cut_off rest -> ring_wf buf -> contents buf = stream ops ++ rest ->
  book_ops address now ops rest b = Some (heard, b') ->
  wp (handle_read localtime gmtime openable writev address now buf) (fun r c' =>
    r.1 = heard /\ ring_wf r.2 /\ _size r.2 = _size buf /\ contents r.2 = rest /\ keeps b' c') c.
Proof.
  intros [Hfol Hused Hlim] Hops Hrest Hwf Hb Hbook. pose proof (zlen_nonneg (contents buf)). unfold handle_read. wp_run.
  pose proof (book_ops_limit _ _ _ _ _ _ _ Hlim Hbook) as Hlim'.
  eapply st_mono; [eapply (handle_buffer_ok address now _ ops rest [] b b' c buf 1 heard); try done | cbv beta].
  { by rewrite app_nil_r. }
  { by apply recalls_nothing. }
  { rewrite readable_contents by done. lia. }
  intros [[total l] buf1] c1 (pending & Ht & Hl & Hwf1 & Hs1 & Hc1 & Hrec1 & [(m & ls & Hst & Hn & Hlg) HW] & Hf1 & Hu1). cbn [fst snd] in *. subst total l. wp_run.
  destruct (recalls_back pending buf1 Hwf1 Hrec1) as (buf2 & E & Hwf2 & Hc2 & Hs2). wp_lift E.
  pose proof (write_to_file_ok localtime gmtime openable writev writes_all fn i m ls pending (_storage c1) buf2 rest Hst Hwf2) as Hw.
  destruct (proj1 (st_intro _ _ _) (Hw ltac:(by rewrite Hc2, Hc1) ltac:(fold (file_content c1); rewrite Hf1; lia))) as ([n buf3] & s' & Ew & Hn3 & Hwf3 & Hs3 & Hc3 & Hst' & Hcont).
  cbn [fst snd] in *. wp_eq (on_storage_ok _ c1 _ _ Ew). cbn [fst snd]. split; [done |]. split; [done |]. split; [congruence |]. split; [done |].
  split; [split; [by exists m, ls | by apply watched_storage] | | done]. unfold file_content at 1. cbn [with_storage _storage]. rewrite Hcont. fold (file_content c1). by rewrite Hf1.
Qed.

Lemma tick_ok now b c : keeps b c ->
  wp (check_timeout now) (fun l c' => l ≡ₚ late_notices now b /\ keeps (book_tick now b) c') c.
Proof.
  intros [[(m & l & Hst & Hn & Hl) HW] Hu Hlim]. unfold check_timeout. wp_run.
  eapply st_mono; [apply (late_timers_ok now _ (waiting b) c HW); lia | cbv beta]. intros l' c' (HW' & Hl' & Hs').
  split; [exact Hl' |]. split; [split; [rewrite Hs'; by exists m, l | exact HW'] | unfold file_content; by rewrite Hs' | done].
Qed.
End Spec.
