(* ===== verification/LinkLogCenterSession.v ===== *)
(** * LinkLogCenterSession: a center of the link log keeps its book

    The life of a center: servers' buffers are read, time passes, users search.  The theorem: as
    long as the book of LinkLogBook.v accepts what comes, and one log file is enough, nothing goes
    wrong and everything that is told and found is what the book says.  A whole read is one step
    here; the code takes the lock of the storage for each call, so a search of another thread can
    come between the index and the file. *)

From stdpp Require Import gmap sorting.
From S2P Require Import Prelude Interpreter Packed BPTree BPTreeSpec BPTreeInsert BPTreeSession OrderedFile Calendar LRUCache LRUSpec LRUSession LRUCalm.
From S2P Require Import RingBuffer RingHistory LinkLogFormat LinkLogReplay TimeText Disk LinkLogIndex StateMonad LinkLogStorage LinkLogQuery LinkLogCenter.
From S2P Require Import LinkLogSpec LinkLogBook LinkLogCenterSpec LinkLogSearch.
Local Open Scope Z_scope.

(** ** Events *)

(** [Read]: the input buffer of a server with what has arrived. *)
Inductive event :=
  | Read (address now : Z) (buffer : ring)
  | Tick (now : Z)
  | Search (fuel : nat) (service : list Z) (want : index_key -> node_info -> bool) (buffer_size : Z).

Inductive outcome :=
  | Heard (notices : list notice) (left : list Z)
  | Late (notices : list notice)
  | Found (logs : list Link_Log).

Section Run.
Context {T F D : Type} `{!OrderedFile T index_key (list Z), !OrderedFile F Z Z, !OrderedFile D Z index_key}.
Context (localtime gmtime : Z -> Time) (openable : path -> bool) (writev : Z -> Z).

(** The constructor, on the trees it finds; the user's filter looks at the members of a value that
    are the node's. *)
Definition center_new (dictionary_path : path) (names : F) (indexes : T) (deletions : D) (now : Z) : res (center T F D) :=
  s ← storage_new localtime gmtime openable dictionary_path names indexes deletions ∅ no_files now;
  Ret (mkCenter ∅ ∅ 0 [] s).

Definition exec (e : event) : ST (center T F D) outcome :=
  match e with
  | Read address now buffer => '(l, buffer) ← handle_read localtime gmtime openable writev address now buffer; mret (Heard l (contents buffer))
  | Tick now => l ← check_timeout now; mret (Late l)
  | Search fuel service want buffer_size =>
      l ← on_storage (search_link localtime gmtime openable fuel service (fun k v => want k (info_of v)) buffer_size); mret (Found l)
  end.

Fixpoint run (es : list event) : ST (center T F D) (list outcome) :=
  match es with
  | [] => mret []
  | e :: es => o ← exec e; os ← run es; mret (o :: os)
  end.
End Run.

(** ** What the book says of an event *)

(** A service with eight bytes, the last of which is neither 0 nor 255: its keys have an end. *)
Definition bounded_service (service : list Z) : Prop :=
  zlen service = SERVICE_ID_SIZE /\ exists front x, service = front ++ [x] /\ 1 <= x < 255.

(** The ids in the book are made of bytes. *)
Definition plain_log (l : Link_Log) : Prop :=
  is_service (service l) /\ is_time (node_init_time l) /\ is_node (node l) /\ Forall (Z.le 0) (node l).

(** The logs of a service that are asked for. *)
Definition asked_logs (service : list Z) (want : index_key -> node_info -> bool) (b : book) : list Link_Log :=
  filter (fun log => bool_decide (LinkLogReplay.service log = service) &&
    match nodes b !! log_key log with Some info => want (log_key log) info | None => false end = true) (logs b).

Inductive tells : book -> event -> outcome -> book -> Prop :=
  | tells_read b b' address now buffer ops rest heard :
      Forall valid_operation ops -> cut_off rest -> ring_wf buffer -> contents buffer = stream ops ++ rest ->
      book_ops address now ops rest b = Some (heard, b') ->
      tells b (Read address now buffer) (Heard heard rest) b'
  | tells_tick b now notices : notices ≡ₚ late_notices now b -> tells b (Tick now) (Late notices) (book_tick now b)
  | tells_search b fuel service want buffer_size :
      bounded_service service -> Forall plain_log (logs b) -> 65536 <= buffer_size -> (length (logs b) < fuel)%nat ->
      tells b (Search fuel service want buffer_size) (Found (asked_logs service want b)) b.

(** What one event after the other tells. *)
Inductive story : book -> list event -> list outcome -> book -> Prop :=
  | story_end b : story b [] [] b
  | story_next b b1 b' e es o os : tells b e o b1 -> story b1 es os b' -> story b (e :: es) (o :: os) b'.

(** Halves that are late together are told in any order. *)
Definition same_outcome (o o' : outcome) : Prop :=
  match o, o' with Late l, Late l' => l ≡ₚ l' | _, _ => o = o' end.

(** ** A book has room for its nodes *)

Definition few (b : book) : Prop := Z.of_nat (size (nodes b)) <= used b.

Lemma size_insert_le {A} (m : gmap index_key A) k x : Z.of_nat (size (<[k := x]> m)) <= Z.of_nat (size m) + 1.
Proof. rewrite map_size_insert. unfold id. destruct (m !! k); lia. Qed.

Lemma book_op_few address now op b heard b' : valid_operation op -> few b -> book_op address now op b = Some (heard, b') -> few b'.
Proof.
  intros Hv Hf Hop. pose proof (bytes_bounds op Hv) as [Hb _]. pose proof (book_op_used _ _ _ _ _ _ Hop) as Hu. unfold few in *. rewrite Hu.
  assert (Hn : nodes b' = nodes b \/ exists k x, nodes b' = <[k := x]> (nodes b)).
  { unfold book_op in Hop. destruct (_ <? _); [done |]. destruct op; cbn [spend waiting nodes] in Hop.
    - destruct (negb _); [injection Hop as _ <-; by left |]. destruct (waiting b !! _); [| injection Hop as _ <-; by left].
      destruct (nodes b !! _); [| done]. injection Hop as _ <-. right. by eexists _, _.
    - unfold meet in Hop. cbn [waiting spend] in Hop. destruct (_ =? BranchHead); [destruct (waiting b !! _) |]; cbn [nodes set_waiting spend] in Hop;
        (destruct (nodes b !! _); injection Hop as _ <-; [by left | right; by eexists _, _]).
    - injection Hop as _ <-. by left.
    - destruct (nodes b !! _); [| done]. injection Hop as _ <-. by left.
    - injection Hop as _ <-. by left.
    - injection Hop as _ <-. by left. }
  destruct Hn as [-> | (k & x & ->)]; [lia |]. pose proof (size_insert_le (nodes b) k x). lia.
Qed.

Lemma book_ops_few address now ops rest : forall b heard b', Forall valid_operation ops -> few b ->
  book_ops address now ops rest b = Some (heard, b') -> few b'.
Proof.
  induction ops as [| op ops IH]; intros b heard b' Hv Hf; cbn [book_ops]; [by intros [= _ <-] |].
  apply list.Forall_cons in Hv as [Hv Hvs]. destruct (negb _); [done |]. destruct (book_op address now op b) as [[h b1] |] eqn:Hop; [| done].
  destruct (book_ops address now ops rest b1) as [[h2 b2] |] eqn:Hm; [| done]. intros [= _ <-]. eapply IH; [done | | done]. by eapply book_op_few.
Qed.

(** ** The keys of a service

    The query takes the keys from the first one of the service to the first one after it. *)

Lemma eight (l : list Z) : zlen l = 8 -> exists a b c d e f g h, l = [a; b; c; d; e; f; g; h].
Proof.
  unfold zlen. intros Hl. do 8 (destruct l as [| ? l]; [simpl in Hl; lia |]). destruct l; [| simpl in Hl; lia]. by repeat eexists.
Qed.

#[local] Transparent put get.

Lemma key_bytes s t n : is_service s -> is_time t -> is_node n -> bytes (Index_Key_of s t n) = s ++ le_encode 8 (u64 t) ++ n.
Proof.
  intros Hs Ht Hn. transitivity (Index_Key.make s t n); [apply (bytes_mark_from 24); by apply key_members |].
  unfold Index_Key.make, put. change (encode (shape Index_Key.init_time) t) with (le_encode 8 (u64 t)).
  destruct (eight (le_encode 8 (u64 t)) (zlen_encode 8 _)) as (?&?&?&?&?&?&?&?& ->).
  destruct (eight s Hs) as (?&?&?&?&?&?&?&?& ->), (eight n Hn) as (?&?&?&?&?&?&?&?& ->). reflexivity.
Qed.

Lemma service_bytes s : zlen s = SERVICE_ID_SIZE -> bytes (service_key s) = s ++ replicate 16 0.
Proof. intros Hs. destruct (eight s Hs) as (?&?&?&?&?&?&?&?& ->). reflexivity. Qed.

#[local] Opaque put get.

Lemma range_end_bounded front x : 1 <= x < 255 -> range_end (front ++ [x]) = (front ++ [x + 1], true).
Proof.
  intros Hx. unfold range_end. rewrite reverse_app. cbn [reverse rev_append app carry]. destruct (Z.eqb_spec x 0); [lia |]. cbn [negb].
  rewrite Z.mod_small by lia. by rewrite reverse_cons, reverse_involutive.
Qed.

Lemma memcmp_zeros l k : Forall (Z.le 0) l -> 0 <= memcmp l (replicate k 0).
Proof. intros Hl. revert k. induction Hl as [| x l Hx Hl IH]; intros [| k]; try done. simpl. destruct (Z.eqb_spec x 0); [apply IH | lia]. Qed.

Lemma bounded_range service : bounded_service service ->
  (range_end service).2 = true /\ klt (service_key service) (service_key (range_end service).1) = true.
Proof.
  intros (Hl & front & x & -> & Hx). rewrite range_end_bounded by done. split; [done |]. cbn [fst]. unfold klt, mark_order, mark_less.
  rewrite !service_bytes by (unfold zlen in *; rewrite length_app in *; done). rewrite memcmp_app by (by rewrite !length_app).
  rewrite memcmp_snoc, memcmp_refl by done. cbn [Z.eqb]. destruct (Z.eqb_spec (x - (x + 1)) 0); lia.
Qed.

Lemma le_encode_nonneg n z : Forall (Z.le 0) (le_encode n z).
Proof. revert z. induction n as [| n IH]; intros z; cbn [le_encode]; constructor; [Z.to_euclidean_division_equations; lia | apply IH]. Qed.

(** Exactly the keys of the service are in the range. *)
Lemma covers_service service log : bounded_service service -> plain_log log ->
  covers service (log_key log) = true <-> LinkLogReplay.service log = service.
Proof.
  intros (Hl & front & x & -> & Hx) (Hs & Ht & Hn & Hb). unfold covers, log_key, klt, mark_order, mark_less. rewrite range_end_bounded by done. cbn [fst].
  assert (Hl' : zlen (front ++ [x + 1]) = SERVICE_ID_SIZE) by (unfold zlen in *; rewrite length_app in *; done).
  rewrite !service_bytes, key_bytes by done. change (zlen (LinkLogReplay.service log) = SERVICE_ID_SIZE) in Hs.
  rewrite !memcmp_app by (unfold zlen in *; lia).
  assert (Hz : 0 <= memcmp (le_encode 8 (u64 (node_init_time log)) ++ node log) (replicate 16 0)).
  { apply memcmp_zeros, Forall_app. split; [| done]. apply le_encode_nonneg. }
  destruct (exists_last (l := LinkLogReplay.service log)) as (s & y & E); [intros E; by rewrite E in Hs |]. rewrite E in *.
  assert (Hsf : length s = length front) by (unfold zlen in *; rewrite !length_app in *; cbn in *; lia). rewrite !memcmp_snoc by done.
  pose proof (memcmp_eq s front Hsf) as He. split.
  - intros Hc. destruct (Z.eqb_spec (memcmp s front) 0) as [H0 | H0].
    + rewrite (He H0). assert (y = x) as ->; [| done].
      destruct (Z.eqb_spec (y - x) 0); [lia |]. destruct (Z.eqb_spec (y - (x + 1)) 0); lia.
    + destruct (Z.eqb_spec (memcmp s front) 0); lia.
  - intros [-> ->]%app_inj_tail. rewrite memcmp_refl. cbn [Z.eqb]. rewrite Z.sub_diag. cbn [Z.eqb]. destruct (Z.eqb_spec (x - (x + 1)) 0); lia.
Qed.

Lemma asked_logs_search service want b : bounded_service service -> Forall plain_log (logs b) -> book_search service want b = asked_logs service want b.
Proof.
  intros Hs. unfold book_search, asked_logs. generalize (logs b) as l. induction 1 as [| log l Hlog _ IH]; [done |].
  rewrite !filter_cons, IH. unfold wanted. replace (covers service (log_key log)) with (bool_decide (LinkLogReplay.service log = service)); [done |].
  pose proof (covers_service service log Hs Hlog) as Hc. apply Bool.eq_iff_eq_true. by rewrite bool_decide_eq_true, Hc.
Qed.

(** ** The refinement *)

Lemma filter_what (f : placed -> bool) (g : Link_Log -> bool) l : (forall p, f p = g (what p)) ->
  map what (filter (fun p => f p = true) l) = filter (fun x => g x = true) (map what l).
Proof.
  intros Hfg. induction l as [| p l IH]; [done |]. cbn [map]. rewrite !filter_cons. rewrite <- Hfg. by destruct (f p); cbn; rewrite <- IH.
Qed.

Section Refines.
Context {T F D : Type} `{!OrderedFile T index_key (list Z), !OrderedFile F Z Z, !OrderedFile D Z index_key}.
Context `{!OrderedFileLaws T index_key (list Z), !OrderedFileLaws F Z Z, !OrderedFileLaws D Z index_key}.
Context (localtime gmtime : Z -> Time) (openable : path -> bool) (writev : Z -> Z).
Context (opens_all : forall p, openable p = true) (writes_all : forall n, 0 <= n -> writev n = n).
Abbreviation exec := (exec (T := T) (F := F) (D := D) localtime gmtime openable writev).
Abbreviation run := (run (T := T) (F := F) (D := D) localtime gmtime openable writev).
Abbreviation keeps := (keeps (T := T) (F := F) (D := D) localtime gmtime openable).
Implicit Types (c : center T F D).

Lemma search_keeps fn i b c fuel service want buffer_size :
  keeps fn i b c -> few b -> bounded_service service -> Forall plain_log (logs b) -> 65536 <= buffer_size -> (length (logs b) < fuel)%nat ->
  wp (on_storage (search_link localtime gmtime openable fuel service (fun k v => want k (info_of v)) buffer_size))
    (fun l c' => l = asked_logs service want b /\ keeps fn i b c') c.
Proof.
  intros [[(m & l & Hst & Hn & Hl) HW] Hu Hlim] Hfew Hb Hplain Hbuf Hfuel. destruct (bounded_range service Hb) as [Hb1 Hb2].
  assert (Hsize : size (nodes b) = size m) by (rewrite <- Hn; apply map_size_fmap).
  assert (Hlen : length l = length (logs b)) by (by rewrite <- Hl, length_map).
  pose proof (search_link_ok localtime gmtime openable fn i m l (_storage c) fuel service (fun k v => want k (info_of v)) buffer_size Hst) as Hs.
  destruct (proj1 (st_intro _ _ _) (Hs ltac:(unfold small, few, LOG_FILE_LIMIT_SIZE, MAX_ULLONG in *; lia) ltac:(unfold file_content in Hu; lia) Hb1 Hb2 Hbuf ltac:(lia)))
    as (r & s' & E & Hst' & Hfs & ->).
  wp_eq (on_storage_ok _ c _ _ E). split.
  - rewrite <- asked_logs_search by done. unfold book_search. rewrite <- Hl. apply filter_what. intros p. unfold asked, wanted, covers, owner. rewrite <- Hn, lookup_fmap. by destruct (m !! log_key (what p)).
  - split; [split; [by exists m, l | by apply watched_storage] | | done]. unfold file_content in *. cbn [with_storage _storage]. by rewrite Hfs.
Qed.

Lemma exec_ok fn i b c e o b' : keeps fn i b c -> few b -> tells b e o b' ->
  wp (exec e) (fun o' c' => same_outcome o o' /\ keeps fn i b' c' /\ few b') c.
Proof.
  intros Hk Hf Ht. destruct Ht as [b b' address now buffer ops rest heard Hv Hr Hwf Hc Hb | b now l Hl | b fuel service want buffer_size Hs Hp Hbuf Hfuel]; cbn [LinkLogCenterSession.exec].
  - wp_run. eapply st_mono; [by eapply (handle_read_ok localtime gmtime openable writev writes_all fn i b b') | cbv beta].
    intros [l' buf] c' (Hl1 & _ & _ & Hl & Hk'). cbn [fst snd] in *. subst l'. wp_run. cbn [same_outcome]. split; [by rewrite Hl |]. split; [done |]. by eapply book_ops_few.
  - wp_run. eapply st_mono; [by apply (tick_ok localtime gmtime openable fn i now b) | cbv beta]. intros l' c' (Hl' & Hk'). wp_run.
    split; [by cbn [same_outcome]; rewrite Hl, Hl' |]. by split.
  - wp_run. eapply st_mono; [by apply (search_keeps fn i b) | cbv beta]. intros l c' (-> & Hk'). by wp_run.
Qed.

Lemma session_ok fn i es : forall b c os b', keeps fn i b c -> few b -> story b es os b' ->
  wp (run es) (fun os' c' => Forall2 same_outcome os os' /\ keeps fn i b' c') c.
Proof.
  induction es as [| e es IH]; intros b c os b' Hk Hf Hs; inversion Hs as [| ? b1 ? ? ? o os1 Ht Hs1]; subst; cbn [LinkLogCenterSession.run]; wp_run; [done |].
  eapply st_mono; [by eapply exec_ok | cbv beta]. intros o' c1 (Ho & Hk1 & Hf1). wp_run.
  eapply st_mono; [by eapply IH | cbv beta]. intros os' c2 (Hos & Hk2). wp_run. split; [by constructor | done].
Qed.

(** C3. A center of the link log, started on an empty directory at the time [now], refines the
    abstract book.  Whatever the servers send, in whatever pieces, however much time passes and
    whatever is searched for: if the book tells [os] of these events, the center handles them all
    without a fault (no assertion, no pointer to nothing, no access outside a buffer, no loop
    without end) and its outcomes are those of the book: the user hears the same calls in the same
    order, the bytes of an incomplete message stay in the buffer, the halves of nodes that are late
    are reported once, and a search hands over exactly the logs of the nodes that were asked for,
    newest first, although they lie in one file of mixed messages behind a cache and a tree.  The
    services all have identifiers of eight bytes the last of which is from 1 to 254
    ([bounded_service], a condition of [story]): of a shorter identifier, filled up with zero
    bytes, the code's upper bound of a search is wrong, and the search hands over logs of other
    services too.  The trees keep the contract of a tree; the file system and [writev] do their
    work; the log file stays below its limit. *)
Theorem center_refines_book dict last_byte (names : F) (indexes : T) (deletions : D) now name es os b :
  list.last dict = Some last_byte -> is_time now -> now <> 0 -> to_string localtime gmtime now true false = Ret name ->
  file_ok (T := F) (K := Z) (V := Z) names -> file_pairs (T := F) (K := Z) (V := Z) names = [] ->
  file_ok (T := T) (K := index_key) (V := list Z) indexes -> file_pairs (T := T) (K := index_key) (V := list Z) indexes = [] ->
  file_ok (T := D) (K := Z) (V := index_key) deletions ->
  story empty_book es os b ->
  exists c os' c', center_new localtime gmtime openable dict names indexes deletions now = Ret c /\
    run es c = Ret (os', c') /\ Forall2 same_outcome os os'.
Proof.
  intros Hd Hn Hn0 Hname Hf1 Hf2 Ht1 Ht2 Hdel Hs.
  destruct (storage_new_ok localtime gmtime openable dict last_byte names indexes deletions now name) as (s & E & Hst & Hc); [done.. |].
  exists (mkCenter ∅ ∅ 0 [] s). unfold center_new. rewrite E, bind_ret.
  assert (Hk : keeps now 0 empty_book (mkCenter ∅ ∅ 0 [] s)).
  { split; [split; [| by apply watched_start] | unfold file_content; cbn; by rewrite Hc | done]. exists ∅, []. split; [done |]. split; [apply fmap_empty | done]. }
  destruct (proj1 (st_intro _ _ _) (session_ok now 0 es empty_book _ os b Hk ltac:(done) Hs)) as (os' & c' & Er & Hos & _). by exists os', c'.
Qed.
End Refines.

(** ** A center and its book *)

Module Demo.
Abbreviation file K V := (tree_state (K := K) (V := V)).
Definition empty_file {K V} : file K V := mkState ∅ [] None.

#[export] Instance demo_file K V `{KeyOrder K} : OrderedFile (file K V) K V :=
  tree_file BPTreeSession.Demo.data_sizes BPTreeSession.Demo.index_sizes BPTreeSession.Demo.next_index.

Lemma room_data : room BPTreeSession.Demo.data_sizes 1.
Proof. by split. Qed.
Lemma room_index : room BPTreeSession.Demo.index_sizes 2.
Proof. by split. Qed.

#[export] Instance demo_laws K V `{KeyOrderLaws K} : OrderedFileLaws (file K V) K V :=
  tree_file_laws _ _ _ room_data room_index BPTreeSession.Demo.next_index_fresh.

Definition service : list Z := replicate 8 7.
Definition node (i : Z) : list Z := replicate 8 i.
Definition path : list Z := [47; 100].
Definition start : Z := 90061000001999.
Definition name : list Z := [50;48;50;52;49;48;48;50;45;48;49;58;48;49;58;48;49;46;48;48;48;48;48;49].

(** Two nodes with a log each and a third half that nobody meets, then the first bytes of a
    message; a minute later a search for the logs of the second node, and one for all. *)
Definition messages : list operation :=
  [Create Head service (node 1) (blank 8) 5 0; Log service 5 (node 1) 7 2 [104; 105];
   Create Fork service (node 2) (node 1) 6 5; Log service 6 (node 2) 8 3 [106];
   Register 7 service (node 3) (node 1) 9 5 90; Log service 5 (node 1) 9 1 []].
Definition sent : list Z := stream messages ++ [4; 2; 0].
Definition arrived : ring := mkRing (sent ++ replicate 5 0) 0 (zlen sent) (zlen sent).
Definition of_node_2 (k : index_key) (i : node_info) : bool := bool_decide (info_parent i = node 1).
Definition events : list event :=
  [Read 1 10 arrived; Tick 100; Search 4 service of_node_2 65536; Search 4 service (fun _ _ => true) 65536].

(** What the book tells of it. *)
Definition told : list notice * book := default ([], empty_book) (book_ops 1 10 messages [4; 2; 0] empty_book).
Definition book_late : book := book_tick 100 told.2.
Definition outcomes : list outcome :=
  [Heard told.1 [4; 2; 0]; Late (late_notices 100 told.2);
   Found (asked_logs service of_node_2 book_late); Found (asked_logs service (fun _ _ => true) book_late)].

Lemma story_told : story empty_book events outcomes book_late.
Proof.
  assert (Hs : bounded_service service) by (by split; [vm_compute | exists (replicate 7 7), 7]).
  assert (Hl : Forall plain_log (logs book_late)).
  { replace (logs book_late) with [mkLog service 5 (node 1) 1 9 []; mkLog service 6 (node 2) 3 8 [106]; mkLog service 5 (node 1) 2 7 [104; 105]]
      by (vm_compute; reflexivity).
    repeat (apply list.Forall_cons; split); [| | | done]; (split; [done | split; [by split; vm_compute | split; [done | by repeat constructor; vm_compute]]]). }
  eapply story_next.
  - apply (tells_read empty_book told.2 1 10 arrived messages [4; 2; 0] told.1).
    + repeat constructor; vm_compute; congruence.
    + exists (Log (blank 8) 5 (blank 8) 7 2 [104; 105]). eexists. split; [repeat constructor; vm_compute; congruence |].
      split; [vm_compute; reflexivity | discriminate].
    + split; [by vm_compute | by split; vm_compute | split; [by vm_compute | left; by vm_compute] | left; by vm_compute].
    + by vm_compute.
    + unfold told. destruct (book_ops _ _ _ _ _) as [[l b] |] eqn:E; [done |]. exfalso. vm_compute in E. discriminate.
  - eapply story_next; [by apply tells_tick |].
    eapply story_next; [apply tells_search; [done | done | lia | vm_compute; lia] |].
    eapply story_next; [apply tells_search; [done | done | lia | vm_compute; lia] |]. apply story_end.
Qed.
End Demo.
Import Demo.

Lemma center_refines_book_witness :
  exists c os' c', center_new demo_zone demo_zone (fun _ => true) Demo.path Demo.empty_file Demo.empty_file Demo.empty_file Demo.start = Ret c /\
    run demo_zone demo_zone (fun _ => true) (fun n => n) Demo.events c = Ret (os', c') /\ Forall2 same_outcome Demo.outcomes os'.
Proof.
  apply (center_refines_book demo_zone demo_zone (fun _ => true) (fun n => n) (fun _ => eq_refl) (fun _ _ => eq_refl)
    Demo.path 100 Demo.empty_file Demo.empty_file Demo.empty_file Demo.start Demo.name Demo.events Demo.outcomes Demo.book_late).
  - reflexivity.
  - by vm_compute.
  - by vm_compute.
  - vm_compute. reflexivity.
  - by apply stores_nothing.
  - reflexivity.
  - by apply stores_nothing.
  - reflexivity.
  - by apply stores_nothing.
  - apply Demo.story_told.
Defined.

Definition demo_center : res (center (Demo.file index_key (list Z)) (Demo.file Z Z) (Demo.file Z index_key)) :=
  center_new demo_zone demo_zone (fun _ => true) Demo.path Demo.empty_file Demo.empty_file Demo.empty_file Demo.start.

(** The center itself, on the same events. *)
Example center_runs :
  match demo_center with
  | Ret c => match run demo_zone demo_zone (fun _ => true) (fun n => n) Demo.events c with Ret (os, _) => os | Fault _ => [] end
  | Fault _ => []
  end = Demo.outcomes.
Proof. vm_compute. reflexivity. Qed.

(** A service whose last byte is 255 has no keys before its end, and its logs are not found. *)
Example service_255 :
  let log := mkLog (replicate 8 255) 5 (Demo.node 1) 2 7 [] in covers (replicate 8 255) (log_key log) = false.
Proof. vm_compute. reflexivity. Qed.
