(* ===== verification/Errors.v ===== *)
(** * Errors: marks of errors and their texts (Net/error/)

    [error_mark.hpp] has the operations that can fail, [errors.cpp] a [switch] per system call
    from [errno] to a text.  The numbers are those of Linux. *)

From Stdlib Require Import String Ascii.
From S2P Require Import Prelude.
Local Open Scope Z_scope.
Local Open Scope string_scope.

(** ** error_mark.hpp *)

Inductive error_types :=
  | Null | Socket | Close | Read | Write | Connect | Bind | Listen | Accept | Shutdown | Sendfile | Encoding
  | Select | Poll | Epoll_create | Epoll_wait | Epoll_ctl | Socket_opt | ErrorEvent | TimeoutEvent | UnexpectedShutdown.
#[export] Instance error_types_dec : EqDecision error_types.
Proof. solve_decision. Defined.

Definition type_index (t : error_types) : nat :=
  match t with
  | Null => 0 | Socket => 1 | Close => 2 | Read => 3 | Write => 4 | Connect => 5 | Bind => 6 | Listen => 7 | Accept => 8 | Shutdown => 9
  | Sendfile => 10 | Encoding => 11 | Select => 12 | Poll => 13 | Epoll_create => 14 | Epoll_wait => 15 | Epoll_ctl => 16
  | Socket_opt => 17 | ErrorEvent => 18 | TimeoutEvent => 19 | UnexpectedShutdown => 20
  end.

Definition type_names : list string :=
  ["Null"; "Socket"; "Close"; "Read"; "Write"; "Connect"; "Bind"; "Listen"; "Accept"; "Shutdown"; "Sendfile"; "Encoding"; "Poll";
   "Epoll_create"; "Socket_opt"; "Epoll_wait"; "Epoll_ctl"; "Socket_opt"; "ErrorEvent"; "TimeoutEvent"; "UnexpectedShutdown"].

(** The array is indexed without a test. *)
Definition get_error_type_name (t : error_types) : res string := of_option (type_names !! type_index t) OutOfBounds.

Record error_mark := mkMark { types : error_types; codes : Z }.
Definition no_error : error_mark := mkMark Null (-1).

(** ** errors.cpp *)

Definition E2BIG : Z := 7.
Definition EACCES : Z := 13.
Definition EADDRINUSE : Z := 98.
Definition EADDRNOTAVAIL : Z := 99.
Definition EAFNOSUPPORT : Z := 97.
Definition EAGAIN : Z := 11.
Definition EALREADY : Z := 114.
Definition EBADE : Z := 52.
Definition EBADF : Z := 9.
Definition ECONNABORTED : Z := 103.
Definition ECONNREFUSED : Z := 111.
Definition EDESTADDRREQ : Z := 89.
Definition EDQUOT : Z := 122.
Definition EEXIST : Z := 17.
Definition EFAULT : Z := 14.
Definition EFBIG : Z := 27.
Definition EILSEQ : Z := 84.
Definition EINPROGRESS : Z := 115.
Definition EINTR : Z := 4.
Definition EINVAL : Z := 22.
Definition EIO : Z := 5.
Definition EISCONN : Z := 106.
Definition ELOOP : Z := 40.
Definition EMFILE : Z := 24.
Definition ENAMETOOLONG : Z := 36.
Definition ENETUNREACH : Z := 101.
Definition ENOBUFS : Z := 105.
Definition ENOENT : Z := 2.
Definition ENOMEM : Z := 12.
Definition ENOPROTOOPT : Z := 92.
Definition ENOSPC : Z := 28.
Definition ENOTCONN : Z := 107.
Definition ENOTDIR : Z := 20.
Definition ENOTSOCK : Z := 88.
Definition EOPNOTSUPP : Z := 95.
Definition EOVERFLOW : Z := 75.
Definition EPERM : Z := 1.
Definition EPIPE : Z := 32.
Definition EPROTO : Z := 71.
Definition EPROTONOSUPPORT : Z := 93.
Definition EPROTOTYPE : Z := 91.
Definition EROFS : Z := 30.
Definition ESPIPE : Z := 29.
Definition ETIMEDOUT : Z := 110.
Definition EWOULDBLOCK : Z := 11.

(** A [switch]: the labels of each branch and its text, and the text of [default]. *)
Record table := mkTable { cases : list (list Z * string); otherwise : string }.
Fixpoint switch (cs : list (list Z * string)) (d : string) (error : Z) : string :=
  match cs with
  | [] => d
  | (labels, text) :: cs => if bool_decide (error ∈ labels) then text else switch cs d error
  end.
Definition text_of (t : table) (error : Z) : string := switch (cases t) (otherwise t) error.

Definition socket_errors : table := mkTable [
    ([EACCES], "ops: creation permission is insufficient.");
    ([EAFNOSUPPORT], "ops: not support the specified address family.");
    ([EINVAL], "ops: unknown protocol, or protocol family not available, or invalid flags.");
    ([EMFILE], "ops: the maximum number of sockets can be created.");
    ([ENOBUFS; ENOMEM], "ops: insufficient memory is available.");
    ([EPROTONOSUPPORT], "ops: protocol is not supported within this domain.")
  ] "ops: unknown error.".
Definition get_socket_error (error : Z) : string := text_of socket_errors error.

Definition close_errors : table := mkTable [
    ([EBADF], "close: fd isn't a valid open file descriptor.");
    ([EINTR], "close: close() call was interrupted by a signal.");
    ([EIO], "close: I/O error occurred.")
  ] "close: unknown error.".
Definition get_close_error (error : Z) : string := text_of close_errors error.

Definition read_errors : table := mkTable [
    ([EWOULDBLOCK], "read: fd has been marked nonblocking,but read() would block.");
    ([EBADF], "read: fd is invalid or is not open for reading.");
    ([EFAULT], "read: buf is outside your accessible address space.");
    ([EINTR], "read: The call was interrupted by a signal before any data was read.");
    ([EINVAL], "read: fd is attached to an object which is unsuitable for reading,or fd was created via a call to timerfd_create(2) and the wrong size Buffer was given to read()");
    ([EIO], "read: I/O error.")
  ] "read: unknown error.".
Definition get_read_error (error : Z) : string := text_of read_errors error.

Definition write_errors : table := mkTable [
    ([EWOULDBLOCK], "write: fd marked nonblocking,but write() would block.");
    ([EBADF], "write: fd is invalid or is not open for writing.");
    ([EDESTADDRREQ], "write: fd has not using connect(2).");
    ([EDQUOT], "write: user's quota of disk blocks has been exhausted.");
    ([EFAULT], "write: buf is outside your accessible address space.");
    ([EFBIG], "write: The number of writes exceeds the limit.");
    ([EINTR], "write: call was interrupted by a signal.");
    ([EINVAL], "write: fd is unsuitable for writing, or the file was opened with the O_DIRECT flag, and either the address specified in buf, the value specified in count,or the file offset is not suitably aligned.");
    ([EIO], "write: a low-level I/O error occurred while modifying the inode.");
    ([ENOSPC], "write: The device no room for the data.");
    ([EPERM], "write: operation was prevented by a file seal.");
    ([EPIPE], "write: fd is connected to a pipe or ops whose reading end is closed.")
  ] "write: unknown error.".
Definition get_write_error (error : Z) : string := text_of write_errors error.

Definition connect_errors : table := mkTable [
    ([ETIMEDOUT], "connect: Timeout while attempting connection.");
    ([EPERM; EACCES], "connect: permission is denied or tried to connect to a broadcast address without having the ops broadcast flag enabled or the connection request failed because of a local firewall rule.");
    ([EADDRINUSE], "connect: local address is already in use.");
    ([EADDRNOTAVAIL], "connect: fd had not previously been bound to an address.");
    ([EAFNOSUPPORT], "connect: passed address didn't have the correct address family.");
    ([EAGAIN], "connect: for nonblocking sockets: ops is nonblocking,but connect would blocked;for other insufficient entries in the routing cache.");
    ([EALREADY], "connect: ops is nonblocking and a previous connection attempt has not yet been completed.");
    ([EFAULT], "connect: ops structure address is outside the user's address space.");
    ([EBADF], "connect: fd is not a valid open file descriptor.");
    ([ECONNREFUSED], "connect: no one listening on the remote address.");
    ([EINTR], "connect: system call was interrupted by a signal.");
    ([EINPROGRESS], "connect: ops is nonblocking but connect would blocked.");
    ([EISCONN], "connect: ops is already connected.");
    ([ENETUNREACH], "connect: Network is unreachable.");
    ([ENOTSOCK], "connect: fd does not refer to a ops.");
    ([EPROTOTYPE], "connect: ops type does not support the requested protocol.")
  ] "connect: unknown error.".
Definition get_connect_error (error : Z) : string := text_of connect_errors error.

Definition bind_errors : table := mkTable [
    ([EADDRINUSE], "bind: address is already in use or port number was specified as zero in the ops address structure");
    ([EBADF], "bind: fd is invalid.");
    ([EINVAL], "bind: ops is already bound to an address or addrlen is wrong, or addr is not a valid address");
    ([ENOTSOCK], "bind: fd does not refer to a ops.");
    ([EACCES], "bind: search permission is denied on a component of the path prefix.");
    ([EADDRNOTAVAIL], "bind: nonexistent interface was requested or the requested address was not local.");
    ([EFAULT], "bind: addr points outside the user's accessible address space.");
    ([ELOOP], "bind: Too many symbolic links.");
    ([ENAMETOOLONG], "bind: addr is too long.");
    ([ENOENT], "bind: prefix of the ops pathname does not exist.");
    ([ENOMEM], "bind: Insufficient kernel memory was available.");
    ([ENOTDIR], "bind: A component of the path prefix is not a directory.");
    ([EROFS], "bind: ops inode would reside on a read-only filesystem.")
  ] "bind: unknown error.".
Definition get_bind_error (error : Z) : string := text_of bind_errors error.

Definition listen_errors : table := mkTable [
    ([EACCES], "listen: the address is protected or search permission is denied on a component of the path prefix.");
    ([EADDRINUSE], "listen: given address is already in use or port number was specified as zero in the ops address structure.");
    ([EBADF], "listen: fd is not a valid file descriptor.");
    ([EINVAL], "listen: ops is already bound to an address, or addrlen is wrong,or addr is not a valid address for this ops's domain.");
    ([ENOTSOCK], "listen: fd does not refer to a ops.");
    ([EADDRNOTAVAIL], "listen: nonexistent interface was requested or the requested address was not local.");
    ([EFAULT], "listen: addr points outside the user's accessible address space.");
    ([ELOOP], "listen: too many symbolic links were encountered in resolving addr.");
    ([ENAMETOOLONG], "listen: addr is too long.");
    ([ENOENT], "listen: component in the directory prefix of the ops pathname does not exist.");
    ([ENOMEM], "listen: insufficient kernel memory was available.");
    ([ENOTDIR], "listen: component of the path prefix is not a directory.");
    ([EROFS], "listen: ops inode would reside on a read-only filesystem.")
  ] "listen: unknown error.".
Definition get_listen_error (error : Z) : string := text_of listen_errors error.

Definition accept_errors : table := mkTable [
    ([EAGAIN], "accept: nonblocking ops no connections are present to be accepted.");
    ([EBADF], "accept: ops fd is not open.");
    ([ECONNABORTED], "accept: connection has been aborted.");
    ([EFAULT], "accept: addr argument is not in a writable part of the user address space.");
    ([EINTR], "accept: The system call was interrupted by a signal.");
    ([EINVAL], "accept: ops is not listening for connections, or addrlen is invalid");
    ([EMFILE], "accept: the maximum number of sockets can be created.");
    ([ENOTSOCK], "accept: fd does not refer to a ops.");
    ([ENOBUFS; ENOMEM], "accept: insufficient memory is available.");
    ([EOPNOTSUPP], "accept: fd is not of type SOCK_STREAM.");
    ([EPROTO], "accept: Protocol error.")
  ] "accept: unknown error.".
Definition get_accept_error (error : Z) : string := text_of accept_errors error.

Definition shutdown_errors : table := mkTable [
    ([EBADF], "shutdown: fd is invalid.");
    ([EINVAL], "shutdown: An invalid value was specified in how.");
    ([ENOTCONN], "shutdown: ops is not connected.");
    ([ENOTSOCK], "shutdown: fd does not refer to a ops.")
  ] "shutdown: unknown error.".
Definition get_shutdown_error (error : Z) : string := text_of shutdown_errors error.

Definition sendfile_errors : table := mkTable [
    ([EAGAIN], "Sendfile: Nonblocking I/O selected but cannot send all bytes at once.");
    ([EBADE], "Sendfile: input file was not opened for reading or the output file was not opened for writing.");
    ([EFAULT], "Sendfile: Bad address.");
    ([EINVAL], "Sendfile: fd is not valid or locked, or an mmap(2)-like operation is not available for in_fd, or count is negative, or out_fd has the O_APPEND flag set but not supported.");
    ([EIO], "Sendfile: unspecified error while reading from in_fd.");
    ([ENOMEM], "Sendfile: insufficient memory to read from in_fd.");
    ([EOVERFLOW], "Sendfile: count is too large.");
    ([ESPIPE], "Sendfile: offset is not NULL but the input file is not seekable.")
  ] "Sendfile: unknown error.".
Definition get_sendfile_error (error : Z) : string := text_of sendfile_errors error.

Definition encoding_errors : table := mkTable [
    ([E2BIG], "Encoding_conversion: output Buffer is insufficient");
    ([EILSEQ], "Encoding_conversion: invalid multibyte sequence");
    ([EINVAL], "Encoding_conversion: incomplete multibyte sequence or The conversion from fromcode to tocode is not supported ")
  ] "Encoding_conversion: unknown error.".
Definition get_encoding_error (error : Z) : string := text_of encoding_errors error.

Definition select_errors : table := mkTable [
    ([EBADF], "select: an invalid fd was given in one of the sets.(Perhaps fd was already closed, or an error has occurred.) or timeout is invalid.");
    ([EINTR], "select: a signal was caught.");
    ([EINVAL], "select: nfds is negative or exceeds the RLIMIT_NOFILE resource limit.");
    ([ENOMEM], "select: Unable to allocate memory for internal tables.")
  ] "select: unknown error.".
Definition get_select_error (error : Z) : string := text_of select_errors error.

Definition poll_errors : table := mkTable [
    ([EFAULT], "poll: fds points outside the process's accessible address space.");
    ([EINTR], "poll: a signal occurred before any requested event.");
    ([EINVAL], "poll: nfds value exceeds the RLIMIT_NOFILE value or (ppoll())  The  timeout value expressed in *ip is invalid");
    ([ENOMEM], "poll: unable to allocate memory for kernel data structures.")
  ] "poll: unknown error.".
Definition get_poll_error (error : Z) : string := text_of poll_errors error.

Definition epoll_create_errors : table := mkTable [
    ([EINVAL], "epoll_create: size is not positive or (epoll_create1()) invalid value specified in flags.");
    ([EMFILE], "epoll_create: The number of epoll instances reaches the user limit(control by /proc/sys/fs/epoll/max_user_instances) or the number of fd reaches process/system limit.");
    ([ENOMEM], "epoll_create: insufficient memory to create the kernel object.")
  ] "epoll_create: unknown error.".
Definition get_epoll_create_error (error : Z) : string := text_of epoll_create_errors error.

Definition epoll_wait_errors : table := mkTable [
    ([EBADF], "epoll_wait: epfd is not a valid file descriptor.");
    ([EFAULT], "epoll_wait: The memory area pointed to by events is not accessible with write permissions.");
    ([EINTR], "epoll_wait: The call was interrupted by a signal.");
    ([EINVAL], "epoll_wait: epfd is not an epoll fd, or maxevents is less than one.")
  ] "epoll_wait: unknown error.".
Definition get_epoll_wait_error (error : Z) : string := text_of epoll_wait_errors error.

Definition epoll_ctl_errors : table := mkTable [
    ([EBADF], "epoll_ctl: epfd or fd is invalid.");
    ([EEXIST], "epoll_ctl: EPOLL_CTL_ADD: supplied fd is already registered.");
    ([EINVAL], "epoll_ctl: epfd is not an epoll fd; or fd is the same as epfd; or the requested operation op not support; or invalid event type is specified in the event; or EPOLL_CTL_MOD: events included EPOLLEXCLUSIVE or the EPOLLEXCLUSIVE flag has previously been applied to epfd; or EPOLLEXCLUSIVE was specified in event and fd refers to an epoll instance.");
    ([ELOOP], "epoll_ctl: fd refers to an epoll instance.");
    ([ENOENT], "epoll_ctl: EPOLL_CTL_MOD or EPOLL_CTL_DEL: fd is not registered.");
    ([ENOMEM], "epoll_ctl: insufficient memory to handle the requested op control operation.");
    ([ENOSPC], "epoll_wait: register fd reaches limit(by /proc/sys/fs/epoll/max_user_watches).");
    ([EPERM], "epoll_wait: target file fd does not support epoll.")
  ] "epoll_wait: unknown error.".
Definition get_epoll_ctl_error (error : Z) : string := text_of epoll_ctl_errors error.

Definition socket_opt_errors : table := mkTable [
    ([EBADF], "getsockopt: fd is invalid.");
    ([EFAULT], "getsockopt: address pointed to by optval is not in a valid part of the process address space.");
    ([EINVAL], "getsockopt: optlen invalid in setsockopt().");
    ([ENOPROTOOPT], "getsockopt: option is unknown at the level indicated.");
    ([ENOTSOCK], "getsockopt: fd does not refer to a socket.")
  ] "getsockopt: unknown error.".
Definition get_socket_opt_error (error : Z) : string := text_of socket_opt_errors error.

Definition get_error (mark : error_mark) : string :=
  match types mark with
  | Null => "no error."
  | Socket => get_socket_error (codes mark)
  | Close => get_close_error (codes mark)
  | Read => get_read_error (codes mark)
  | Write => get_write_error (codes mark)
  | Connect => get_connect_error (codes mark)
  | Bind => get_bind_error (codes mark)
  | Listen => get_listen_error (codes mark)
  | Accept => get_accept_error (codes mark)
  | Shutdown => get_shutdown_error (codes mark)
  | Sendfile => get_sendfile_error (codes mark)
  | Encoding => get_encoding_error (codes mark)
  | Select => get_select_error (codes mark)
  | Poll => get_poll_error (codes mark)
  | Epoll_create => get_epoll_create_error (codes mark)
  | Epoll_wait => get_epoll_wait_error (codes mark)
  | Epoll_ctl => get_epoll_ctl_error (codes mark)
  | Socket_opt => get_socket_opt_error (codes mark)
  | ErrorEvent => "ErrorEvent"
  | TimeoutEvent => "TimeoutEvent"
  | UnexpectedShutdown => "unexpectedShutdown"
  end.

(** ** The branches *)

Definition table_of (t : error_types) : option table :=
  match t with
  | Socket => Some socket_errors | Close => Some close_errors | Read => Some read_errors | Write => Some write_errors
  | Connect => Some connect_errors | Bind => Some bind_errors | Listen => Some listen_errors | Accept => Some accept_errors
  | Shutdown => Some shutdown_errors | Sendfile => Some sendfile_errors | Encoding => Some encoding_errors | Select => Some select_errors
  | Poll => Some poll_errors | Epoll_create => Some epoll_create_errors | Epoll_wait => Some epoll_wait_errors | Epoll_ctl => Some epoll_ctl_errors
  | Socket_opt => Some socket_opt_errors
  | Null | ErrorEvent | TimeoutEvent | UnexpectedShutdown => None
  end.

Definition labels (t : table) : list Z := flat_map fst (cases t).
(** No two branches of a [switch] have the same label. *)
Lemma labels_distinct t tb : table_of t = Some tb -> NoDup (labels tb).
Proof. destruct t; intros [= <-]; apply (bool_decide_unpack _); vm_compute; exact I. Qed.

Lemma get_error_table m t : table_of (types m) = Some t -> get_error m = text_of t (codes m).
Proof. unfold get_error. by destruct (types m); intros [= <-]. Qed.

(** A branch is taken exactly for its labels. *)
Lemma switch_branch cs d error ls text : NoDup (flat_map fst cs) -> (ls, text) ∈ cs -> error ∈ ls -> switch cs d error = text.
Proof.
  induction cs as [| [ls' text'] cs IH]; cbn [flat_map switch fst]; [by intros _ ?%elem_of_nil |]. intros (_ & Hd & Hnd)%list.NoDup_app Hin Herr.
  apply elem_of_cons in Hin as [[= <- <-] | Hin]; [by rewrite bool_decide_eq_true_2 |].
  rewrite bool_decide_eq_false_2; [by apply IH |]. intros He. apply (Hd error He), list_elem_of_In, in_flat_map. exists (ls, text). by split; apply list_elem_of_In.
Qed.

(** The text of a mark whose code has a branch in the table of its call is the text of that branch. *)
Lemma get_error_branch m t ls text : table_of (types m) = Some t -> (ls, text) ∈ cases t -> codes m ∈ ls -> get_error m = text.
Proof.
  intros Ht Hin Hc. rewrite (get_error_table _ _ Ht). eapply switch_branch; [by eapply labels_distinct | done | done].
Qed.

(** Three texts of [epoll_ctl] name another call. *)
Example epoll_ctl_names_epoll_wait : get_epoll_ctl_error EPERM = "epoll_wait: target file fd does not support epoll.".
Proof. reflexivity. Qed.

(** The array of names has an entry in the wrong place and lacks one: three types get the name of another. *)
Example type_names_shifted :
  get_error_type_name Select = Ret "Poll" /\ get_error_type_name Poll = Ret "Epoll_create" /\ get_error_type_name Epoll_create = Ret "Socket_opt".
Proof. auto. Qed.
