(* ===== verification/EventLoop.v ===== *)
(** * EventLoop: the loop of a reactor (Net/EventLoop.hpp, Net/src/EventLoop.cpp)

    One thread runs [loop()]; any number of others put events, wake it up or shut it down.  What
    [_mutex] guards is only touched under it, so a section under the lock is one step; the
    store of [_quit] and the notification that follows it are not under the lock and are two
    steps for another thread.  An event is a function that makes calls on its own loop. *)

From stdpp Require Import list relations.
From S2P Require Import Prelude.

Inductive call (E : Type) :=
  | PutEvent (event : option E)
  | WeakUp
  | Shutdown.
Arguments PutEvent {E}. Arguments WeakUp {E}. Arguments Shutdown {E}.

(** Where the user's code goes on when it has made its calls: the distributor returns to
    [loop_begin], an event to those after it. *)
Inductive continuation (E : Type) :=
  | ToBegin
  | ToNext (rest : list (option E)).
Arguments ToBegin {E}. Arguments ToNext {E}.

(** Where the thread of the loop is. *)
Inductive place (E : Type) :=
  | Before
  | Check_quit
  | Calls (k : continuation E) (cs : list (call E))
  | Begin
  | Sleeping
  | Next (rest : list (option E))
  | Loop_end
  | Done.
Arguments Before {E}. Arguments Check_quit {E}. Arguments Calls {E}. Arguments Begin {E}. Arguments Sleeping {E}.
Arguments Next {E}. Arguments Loop_end {E}. Arguments Done {E}.

(** [put] and [ran] are not in the code: what was put so far and what was run.  [notified]: the
    sleeping thread was woken.  [late]: the notifications that shutdowns of other threads still owe. *)
Record EventLoop (E : Type) := mkLoop {
  _run : bool; _quit : bool; _weak : bool;
  _queue : list (option E); _waiting : list (option E);
  at_place : place E; notified : bool; late : nat;
  put : list (option E); ran : list E }.
Arguments mkLoop {E}. Arguments _run {E}. Arguments _quit {E}. Arguments _weak {E}. Arguments _queue {E}. Arguments _waiting {E}.
Arguments at_place {E}. Arguments notified {E}. Arguments late {E}. Arguments put {E}. Arguments ran {E}.

Section Loop.
Context {E : Type}.
Abbreviation state := (EventLoop E).
Implicit Types (s : state) (e : option E) (cs : list (call E)).

(** The calls an event makes, and whether a distributor is set. *)
Context (body : E -> list (call E)) (has_distributor : bool).

Definition event_loop : state := mkLoop false false false [] [] Before false 0 [] [].

Definition go p s : state := mkLoop (_run s) (_quit s) (_weak s) (_queue s) (_waiting s) p (notified s) (late s) (put s) (ran s).
Definition set_run b s : state := mkLoop b (_quit s) (_weak s) (_queue s) (_waiting s) (at_place s) (notified s) (late s) (put s) (ran s).
Definition set_quit s : state := mkLoop (_run s) true (_weak s) (_queue s) (_waiting s) (at_place s) (notified s) (late s) (put s) (ran s).
Definition set_weak b s : state := mkLoop (_run s) (_quit s) b (_queue s) (_waiting s) (at_place s) (notified s) (late s) (put s) (ran s).
Definition set_queues q w s : state := mkLoop (_run s) (_quit s) (_weak s) q w (at_place s) (notified s) (late s) (put s) (ran s).
Definition set_notified b s : state := mkLoop (_run s) (_quit s) (_weak s) (_queue s) (_waiting s) (at_place s) b (late s) (put s) (ran s).
Definition set_late n s : state := mkLoop (_run s) (_quit s) (_weak s) (_queue s) (_waiting s) (at_place s) (notified s) n (put s) (ran s).
Definition record_put e s : state := mkLoop (_run s) (_quit s) (_weak s) (_queue s) (_waiting s) (at_place s) (notified s) (late s) (put s ++ [e]) (ran s).
Definition record_run (x : E) s : state := mkLoop (_run s) (_quit s) (_weak s) (_queue s) (_waiting s) (at_place s) (notified s) (late s) (put s) (ran s ++ [x]).

(** [_condition.notify_one()]: only the loop waits. *)
Definition notify_one s : state := match at_place s with Sleeping => set_notified true s | _ => s end.

Definition put_event e s : state := notify_one (record_put e (set_queues (_queue s) (_waiting s ++ [e]) s)).
Definition weak_up s : state := notify_one (set_weak true s).
Definition shutdown s : state := notify_one (set_quit s).

Definition do_call (c : call E) s : state :=
  match c with PutEvent e => put_event e s | WeakUp => weak_up s | Shutdown => shutdown s end.

(** The predicate of the wait. *)
Definition has_work s : bool := match _waiting s with [] => _weak s | _ => true end.

(** One test of [loop_begin]: on success the queues are swapped. *)
Definition loop_begin s : state :=
  if has_work s then go (Next (_waiting s)) (set_weak false (set_queues (_waiting s) (_queue s) s))
  else go Sleeping s.

Definition loop_end s : state := go Check_quit (set_queues [] (_waiting s) s).

(** One step of the thread of [loop()]; [cs] are the calls the distributor makes, if it is its turn. *)
Definition loop_step cs s : option state :=
  match at_place s with
  | Before => Some (go Check_quit (set_run true s))
  | Check_quit => Some (if _quit s then go Done (set_run false s) else go (Calls ToBegin (if has_distributor then cs else [])) s)
  | Calls k (c :: rest) => Some (do_call c (go (Calls k rest) s))
  | Calls ToBegin [] => Some (go Begin s)
  | Calls (ToNext rest) [] => Some (go (Next rest) s)
  | Begin => Some (loop_begin s)
  | Sleeping => if notified s then Some (loop_begin (set_notified false s)) else None
  | Next [] => Some (go Loop_end s)
  | Next (None :: rest) => Some (go (Next rest) s)
  | Next (Some x :: rest) => Some (go (Calls (ToNext rest) (body x)) (record_run x s))
  | Loop_end => Some (loop_end s)
  | Done => None
  end.

(** Another thread, or a spurious wakeup. *)
Inductive other_step : state -> state -> Prop :=
  | other_put e s : other_step s (put_event e s)
  | other_weak_up s : other_step s (weak_up s)
  | other_quit s : other_step s (set_late (S (late s)) (set_quit s))
  | other_notify n s : late s = S n -> other_step s (notify_one (set_late n s))
  | other_spurious s : at_place s = Sleeping -> other_step s (set_notified true s).

Inductive step : state -> state -> Prop :=
  | step_loop cs s s' : loop_step cs s = Some s' -> step s s'
  | step_other s s' : other_step s s' -> step s s'.

Definition reachable s : Prop := rtc step event_loop s.

(** Nothing happens any more unless somebody calls. *)
Definition idle s : Prop := (forall cs, loop_step cs s = None) /\ late s = 0.

(** ** Every event once, in order, and none forgotten *)

(** What is put and neither run nor given up. *)
Definition rest_of s : list (option E) := match at_place s with Next r | Calls (ToNext r) _ => r | _ => [] end.

Record loop_inv s : Prop := {
  inv_order : omap id (put s) = ran s ++ omap id (rest_of s ++ _waiting s);
  inv_queue : match at_place s with Next _ | Calls (ToNext _) _ | Loop_end => True | _ => _queue s = [] end;
  inv_awake : at_place s = Sleeping -> notified s = false -> has_work s = false;
  inv_notified : notified s = true -> at_place s = Sleeping;
}.

(** A thread that is not asleep needs no notification; one that is wakes up and looks. *)
Lemma notify_inv s : omap id (put s) = ran s ++ omap id (rest_of s ++ _waiting s) ->
  (match at_place s with Next _ | Calls (ToNext _) _ | Loop_end => True | _ => _queue s = [] end) ->
  (notified s = true -> at_place s = Sleeping) -> loop_inv (notify_one s).
Proof.
  intros Ho Hq Hn. unfold notify_one. destruct (at_place s) eqn:Hp; split; unfold rest_of in *; cbn; rewrite ?Hp in *; done.
Qed.

Lemma put_event_inv e s : loop_inv s -> loop_inv (put_event e s).
Proof.
  intros [Ho Hq _ Hn]. apply notify_inv; [| done | done]. unfold rest_of in *. cbn.
  rewrite !omap_app, Ho, !omap_app, !app_assoc. done.
Qed.

Lemma do_call_inv c s : loop_inv s -> loop_inv (do_call c s).
Proof. destruct c; [apply put_event_inv | intros [Ho Hq _ Hn]; by apply notify_inv..]. Qed.

Lemma other_step_inv s s' : loop_inv s -> other_step s s' -> loop_inv s'.
Proof.
  intros Hi Ho. destruct Ho as [e s | s | s | n s Hl | s Hp]; [by apply put_event_inv | by apply (do_call_inv WeakUp) | | |]; destruct Hi as [Ho Hq Ha Hn].
  - by split.
  - by apply notify_inv.
  - split; unfold rest_of in *; cbn; rewrite ?Hp in *; done.
Qed.

Lemma loop_begin_inv s : omap id (put s) = ran s ++ omap id (_waiting s) -> _queue s = [] -> notified s = false -> loop_inv (loop_begin s).
Proof.
  intros Ho Hq Hn. unfold loop_begin. destruct (has_work s) eqn:Hw; split; unfold rest_of; cbn; rewrite ?Hq, ?app_nil_r, ?Hn; done.
Qed.

Lemma loop_step_inv cs s s' : loop_inv s -> loop_step cs s = Some s' -> loop_inv s'.
Proof.
  intros [Ho Hq Ha Hn] Hs. assert (Hawake : at_place s <> Sleeping -> notified s = false) by (intros Hp; destruct (notified s); [by destruct Hp; apply Hn | done]).
  unfold loop_step in Hs. unfold rest_of in Ho. destruct (at_place s) as [| | k [| c rest] | | | [| [x |] rest] | |] eqn:Hp; try done.
  - injection Hs as <-. split; unfold rest_of; cbn; rewrite ?Hawake by done; done.
  - destruct (_quit s); injection Hs as <-; split; unfold rest_of; cbn; rewrite ?Hawake by done; done.
  - destruct k; injection Hs as <-; split; unfold rest_of; cbn; rewrite ?Hawake by done; done.
  - destruct k; injection Hs as <-; apply do_call_inv; split; unfold rest_of; cbn; rewrite ?Hawake by done; done.
  - injection Hs as <-. apply loop_begin_inv; [done | done | by apply Hawake].
  - destruct (notified s); [| done]. injection Hs as <-. by apply loop_begin_inv.
  - injection Hs as <-. split; unfold rest_of; cbn; rewrite ?Hawake by done; done.
  - injection Hs as <-. split; unfold rest_of; cbn; rewrite ?Hawake by done; try done. by rewrite Ho, <- app_assoc.
  - injection Hs as <-. split; unfold rest_of; cbn; rewrite ?Hawake by done; done.
  - injection Hs as <-. split; unfold rest_of; cbn; rewrite ?Hawake by done; done.
Qed.

Lemma loop_reachable_inv s : reachable s -> loop_inv s.
Proof.
  intros Hr. assert (H0 : loop_inv event_loop) by (by split). revert H0. induction Hr as [s | s s1 s' Hs _ IH]; [done |]. intros Hi. apply IH.
  destruct Hs as [cs ? ? Hs | ? ? Hs]; [by eapply loop_step_inv | by eapply other_step_inv].
Qed.

(** C31. In every interleaving of the loop with any number of threads that put events, wake it up
    and shut it down, and with spurious wakeups: the events run are the events put, each once and
    in the order in which they were put (empty functions are skipped), followed by those still
    waiting; and no notification is lost: when the loop sleeps and nothing can happen without
    another call, every event that was put was run. *)
Theorem loop_delivers s : reachable s ->
  omap id (put s) = ran s ++ omap id (rest_of s ++ _waiting s) /\
  (idle s -> at_place s = Sleeping -> ran s = omap id (put s) /\ _weak s = false).
Proof.
  intros Hr. pose proof (loop_reachable_inv s Hr) as [Ho Hq Ha Hn]. split; [done |]. intros [Hi _] Hp. specialize (Hi []).
  unfold loop_step in Hi. rewrite Hp in Hi. destruct (notified s); [done |]. specialize (Ha Hp eq_refl). unfold has_work in Ha.
  unfold rest_of in Ho. rewrite Hp in Ho. destruct (_waiting s); [| done]. rewrite app_nil_r in Ho. done.
Qed.

(** ** A loop that is told to stop by one of its events ends

    What other threads do in between does not matter; they may put events for ever. *)

Definition stops (e : option E) : Prop := match e with Some x => Shutdown ∈ body x | None => False end.

(** [_quit] is set and the loop looks at it before it can sleep. *)
Definition quitting s : Prop :=
  _quit s = true /\ match at_place s with Next _ | Calls (ToNext _) _ | Loop_end | Check_quit => True | _ => False end.

(** An event that shuts down is among those the loop runs now. *)
Definition in_batch s : Prop :=
  match at_place s with
  | Next rest => Exists stops rest
  | Calls (ToNext rest) cs => Shutdown ∈ cs \/ Exists stops rest
  | _ => False
  end.

(** It was put; the loop does not sleep, or was woken. *)
Definition was_put s : Prop :=
  Exists stops (_waiting s) /\ match at_place s with Done => False | Sleeping => notified s = true | _ => True end.

(** Any steps of other threads, then one of the loop. *)
Inductive turn s' s : Prop :=
  | turn_intro cs s1 : rtc other_step s s1 -> loop_step cs s1 = Some s' -> turn s' s.

(** What other threads cannot change. *)
Record same_thread s s' : Prop := {
  same_place : at_place s' = at_place s;
  same_quit : _quit s = true -> _quit s' = true;
  same_waiting : exists more, _waiting s' = _waiting s ++ more;
  same_notified : notified s = true -> notified s' = true;
}.

Lemma same_notify s s' : same_thread s s' -> same_thread s (notify_one s').
Proof. intros [Hp Hq Hw Hn]. unfold notify_one. destruct (at_place s') eqn:H; split; cbn; try done; congruence. Qed.

Lemma same_others s s' : rtc other_step s s' -> same_thread s s'.
Proof.
  assert (Hrefl : forall s, same_thread s s) by (intros x; split; try done; by exists []; rewrite app_nil_r).
  induction 1 as [s | s s1 s' Hs _ IH]; [done |]. assert (H1 : same_thread s s1).
  { destruct Hs as [e s | s | s | n s Hl | s Hp]; try apply same_notify; split; cbn; try done; [by exists [e] | by exists []; rewrite app_nil_r..]. }
  destruct H1 as [Hp Hq [m Hw] Hn], IH as [Hp' Hq' [m' Hw'] Hn']. split; [congruence | tauto | | tauto]. exists (m ++ m'). by rewrite Hw', Hw, app_assoc.
Qed.

(** The steps left: of the calls being made, then of the events of the batch. *)
Definition batch s : nat := match at_place s with Next rest | Calls (ToNext rest) _ => S (length rest) | Loop_end => 0 | _ => 0 end.
Definition calls_left s : nat := match at_place s with Calls _ cs => S (length cs) | Loop_end => 1 | _ => 0 end.

Lemma same_measures s s' : same_thread s s' -> batch s' = batch s /\ calls_left s' = calls_left s.
Proof. intros [Hp _ _ _]. unfold batch, calls_left. by rewrite Hp. Qed.

Definition stopping s : Prop := was_put s \/ in_batch s \/ quitting s.

(** The part of the way that is left: before the loop looks at [_quit], up to its wait, and in a batch. *)
Definition way s : nat := match at_place s with Before | Next _ | Calls (ToNext _) _ | Loop_end => 3 | Check_quit => 2 | Calls ToBegin _ => 1 | _ => 0 end.

(** Less is left to do. *)
Definition nearer (a b c a' b' c' : nat) : Prop := a' < a \/ a' = a /\ (b' < b \/ b' = b /\ c' < c).

Lemma notify_place s : at_place (notify_one s) = at_place s.
Proof. unfold notify_one. destruct (at_place s) eqn:E0; cbn; by rewrite ?E0. Qed.
Lemma do_call_place c s : at_place (do_call c s) = at_place s.
Proof. by destruct c; cbn; unfold put_event, weak_up, shutdown; rewrite notify_place. Qed.
Lemma do_call_waiting c s : Exists stops (_waiting s) -> Exists stops (_waiting (do_call c s)).
Proof. intros H. destruct c; cbn; unfold put_event, weak_up, shutdown, notify_one; destruct (at_place _); cbn; try done; apply Exists_app; by left. Qed.
Lemma do_call_quit c s : _quit s = true -> _quit (do_call c s) = true.
Proof. intros H. destruct c; cbn; unfold put_event, weak_up, shutdown, notify_one; by destruct (at_place _). Qed.
Lemma shutdown_quits s : _quit (shutdown s) = true.
Proof. unfold shutdown, notify_one. by destruct (at_place _). Qed.

Lemma quitting_step cs s s' : quitting s -> loop_step cs s = Some s' ->
  at_place s' = Done \/ quitting s' /\ nearer (way s) (batch s) (calls_left s) (way s') (batch s') (calls_left s').
Proof.
  intros [Hq Hp] Hs. unfold loop_step in Hs. unfold quitting, nearer, way, batch, calls_left.
  destruct (at_place s) as [| | [| rest] [| c l] | | | [| [x |] rest] | |]; try done; injection Hs as <-;
    rewrite ?Hq, ?do_call_place; cbn; try (by left); right; (split; [split; [try done; by apply do_call_quit | done] | lia]).
Qed.

Lemma in_batch_step cs s s' : in_batch s -> loop_step cs s = Some s' ->
  quitting s' \/ in_batch s' /\ nearer (way s) (batch s) (calls_left s) (way s') (batch s') (calls_left s').
Proof.
  intros Hb Hs. unfold in_batch in Hb. unfold loop_step in Hs. unfold quitting, in_batch, nearer, way, batch, calls_left.
  destruct (at_place s) as [| | [| rest] [| c l] | | | [| [x |] rest] | |]; try done; injection Hs as <-; rewrite ?do_call_place; cbn in *.
  - right. split; [| lia]. destruct Hb as [Hb | Hb]; [by apply elem_of_nil in Hb | done].
  - destruct Hb as [[<- | Hb]%elem_of_cons | Hb].
    + left. split; [apply shutdown_quits | done].
    + right. split; [by left | lia].
    + right. split; [by right | lia].
  - by apply Exists_nil in Hb.
  - right. split; [| lia]. by apply Exists_cons in Hb.
  - right. split; [| lia]. apply Exists_cons in Hb as [Hb | Hb]; [done | done].
Qed.

Lemma was_put_step cs s s' : was_put s -> loop_step cs s = Some s' ->
  at_place s' = Done \/ in_batch s' \/ was_put s' /\ nearer (way s) (batch s) (calls_left s) (way s') (batch s') (calls_left s').
Proof.
  intros [Ho Hp] Hs. unfold loop_step in Hs. assert (Hwork : has_work s = true) by (unfold has_work; destruct (_waiting s); [by apply Exists_nil in Ho | done]).
  unfold was_put, in_batch, nearer, way, batch, calls_left.
  destruct (at_place s) as [| | [| rest] [| c l] | | | [| [x |] rest] | |]; try done.
  - injection Hs as <-. right; right. split; [done | cbn; lia].
  - destruct (_quit s); injection Hs as <-; [by left |]. right; right. split; [done | cbn; lia].
  - injection Hs as <-. right; right. split; [done | cbn; lia].
  - injection Hs as <-. right; right. rewrite do_call_place. split; [split; [by apply do_call_waiting | done] | cbn; lia].
  - injection Hs as <-. right; right. split; [done | cbn; lia].
  - injection Hs as <-. right; right. rewrite do_call_place. split; [split; [by apply do_call_waiting | done] | cbn; lia].
  - injection Hs as <-. unfold loop_begin. rewrite Hwork. by right; left.
  - rewrite Hp in Hs. injection Hs as <-. unfold loop_begin, has_work in *. cbn. rewrite Hwork. by right; left.
  - injection Hs as <-. right; right. split; [done | cbn; lia].
  - injection Hs as <-. right; right. split; [done | cbn; lia].
  - injection Hs as <-. right; right. split; [done | cbn; lia].
  - injection Hs as <-. right; right. split; [done | cbn; lia].
Qed.

(** The steps end where each one is nearer or leads to where they end. *)
Lemma ends_when_nearer (P : state -> Prop) :
  (forall s s', same_thread s s' -> P s -> P s') ->
  (forall cs s s', P s -> loop_step cs s = Some s' -> Acc turn s' \/ P s' /\ nearer (way s) (batch s) (calls_left s) (way s') (batch s') (calls_left s')) ->
  forall s, P s -> Acc turn s.
Proof.
  intros Hothers Hstep. assert (Hall : forall a b c s, way s = a -> batch s = b -> calls_left s = c -> P s -> Acc turn s).
  { induction a as [a IHa] using lt_wf_ind. induction b as [b IHb] using lt_wf_ind. induction c as [c IHc] using lt_wf_ind.
    intros s Ha Hb Hc Hs. constructor. intros s' [cs s1 Hr Hl]. pose proof (same_others _ _ Hr) as Hsame.
    destruct (same_measures _ _ Hsame) as [Hb1 Hc1]. assert (Ha1 : way s1 = way s) by (unfold way; by rewrite (same_place _ _ Hsame)).
    destruct (Hstep cs s1 s' (Hothers _ _ Hsame Hs) Hl) as [Hacc | [Hs' Hn]]; [done |].
    rewrite Ha1, Hb1, Hc1, Ha, Hb, Hc in Hn. destruct Hn as [Hn | [Hn1 [Hn | [Hn2 Hn]]]]; [by eapply IHa | by eapply IHb | by eapply IHc]. }
  intros s Hs. by eapply Hall.
Qed.

Lemma done_ends s : at_place s = Done -> Acc turn s.
Proof.
  intros Hd. constructor. intros s' [cs s1 Hr Hl]. pose proof (same_place _ _ (same_others _ _ Hr)) as Hp. unfold loop_step in Hl. by rewrite Hp, Hd in Hl.
Qed.

Lemma quitting_others s s' : same_thread s s' -> quitting s -> quitting s'.
Proof. intros Hs [Hq Hp]. split; [by apply (same_quit _ _ Hs) | by rewrite (same_place _ _ Hs)]. Qed.
Lemma in_batch_others s s' : same_thread s s' -> in_batch s -> in_batch s'.
Proof. intros Hs Hb. unfold in_batch. by rewrite (same_place _ _ Hs). Qed.
Lemma was_put_others s s' : same_thread s s' -> was_put s -> was_put s'.
Proof.
  intros [Hp _ [m Hw] Hn] [Ho Hx]. unfold was_put. rewrite Hp, Hw. split; [apply Exists_app; by left |]. destruct (at_place s); by try apply Hn.
Qed.

Lemma stopping_others s s' : same_thread s s' -> stopping s -> stopping s'.
Proof. intros Hs [H | [H | H]]; [left; by eapply was_put_others | right; left; by eapply in_batch_others | right; right; by eapply quitting_others]. Qed.

Lemma quitting_ends s : quitting s -> Acc turn s.
Proof.
  apply ends_when_nearer; [apply quitting_others |]. intros cs s1 s' Hs Hl.
  destruct (quitting_step cs s1 s' Hs Hl) as [Hd | Hq]; [left; by apply done_ends | by right].
Qed.
Lemma in_batch_ends s : in_batch s -> Acc turn s.
Proof.
  apply ends_when_nearer; [apply in_batch_others |]. intros cs s1 s' Hs Hl.
  destruct (in_batch_step cs s1 s' Hs Hl) as [Hd | Hq]; [left; by apply quitting_ends | by right].
Qed.
Lemma was_put_ends s : was_put s -> Acc turn s.
Proof.
  apply ends_when_nearer; [apply was_put_others |]. intros cs s1 s' Hs Hl.
  destruct (was_put_step cs s1 s' Hs Hl) as [Hd | [Hb | Hq]]; [left; by apply done_ends | left; by apply in_batch_ends | by right].
Qed.

Lemma stopping_step cs s s' : stopping s -> loop_step cs s = Some s' -> at_place s' = Done \/ stopping s'.
Proof.
  unfold stopping. intros [Hs | [Hs | Hs]] Hl.
  - destruct (was_put_step _ _ _ Hs Hl) as [? | [? | [? _]]]; tauto.
  - destruct (in_batch_step _ _ _ Hs Hl) as [? | [? _]]; tauto.
  - destruct (quitting_step _ _ _ Hs Hl) as [? | [? _]]; tauto.
Qed.

(** It can always go on. *)
Lemma stopping_turn s : stopping s -> exists s', turn s' s.
Proof.
  intros Hs. assert (Hl : exists s', loop_step [] s = Some s').
  { unfold loop_step. unfold stopping, was_put, in_batch, quitting in Hs. destruct (at_place s) as [| | [| rest] [| c l] | | | [| [x |] rest] | |]; eauto; [| naive_solver].
    destruct Hs as [[_ ->] | [Hs | [_ Hs]]]; [eauto | done | done]. }
  destruct Hl as [s' Hl]. exists s'. by apply (turn_intro s' s [] s (rtc_refl _ s)).
Qed.

(** C32. [Reactor::stop] returns: once an event that shuts the loop down was put (and the loop has
    not ended), whatever the loop is doing, asleep included, and whatever other threads and the
    events themselves do, the loop takes only finitely many more steps and ends; it never sleeps
    through the shutdown. *)
Theorem stop_ends e s : at_place s <> Done -> stops e ->
  Acc turn (put_event e s) /\ forall s', rtc (fun a b => turn b a) (put_event e s) s' -> at_place s' = Done \/ exists s'', turn s'' s'.
Proof.
  intros Hp He. assert (Hs : was_put (put_event e s)).
  { unfold was_put, put_event. rewrite notify_place. cbn. split.
    - unfold notify_one. destruct (at_place _); cbn; apply Exists_app; right; by constructor.
    - unfold notify_one. destruct (at_place s) eqn:H; cbn; rewrite ?H; done. }
  split; [by apply was_put_ends |]. intros s' Hr.
  assert (Hst : at_place (put_event e s) = Done \/ stopping (put_event e s)) by (right; by left). clear Hs. revert Hst.
  induction Hr as [s0 | s0 s1 s' [cs s2 Ho Hl] _ IH]; intros Hst; [destruct Hst; [by left | right; by apply stopping_turn] |].
  apply IH. destruct Hst as [Hd | Hst].
  - pose proof (same_place _ _ (same_others _ _ Ho)) as Hp2. unfold loop_step in Hl. by rewrite Hp2, Hd in Hl.
  - eapply stopping_step; [| exact Hl]. eapply stopping_others; [by apply same_others | done].
Qed.
End Loop.

(** ** Concrete runs *)

Module Demo.
(** Event 0 shuts down, event 1 puts event 2. *)
Definition demo_body (n : nat) : list (call nat) := match n with 0 => [Shutdown] | 1 => [PutEvent (Some 2)] | _ => [] end.

(** The thread of the loop, or another call. *)
Inductive turn_of := Of_loop | Of_other (c : call nat).
Definition one_turn (t : turn_of) (s : EventLoop nat) : option (EventLoop nat) :=
  match t with Of_loop => loop_step demo_body false [] s | Of_other Shutdown => None | Of_other c => Some (do_call c s) end.
Fixpoint turns (ts : list turn_of) (s : EventLoop nat) : option (EventLoop nat) :=
  match ts with [] => Some s | t :: ts => match one_turn t s with Some s' => turns ts s' | None => None end end.

Lemma turns_reach ts : forall s s', turns ts s = Some s' -> rtc (step demo_body false) s s'.
Proof.
  induction ts as [| t ts IH]; intros s s'; cbn [turns]; [by intros [= ->] |].
  destruct (one_turn t s) as [s1 |] eqn:Ht; [| done]. intros Hs. eapply rtc_l; [| by apply IH].
  destruct t as [| [e | |]]; cbn in Ht; try done; [by eapply step_loop | injection Ht as <-; apply step_other, other_put | injection Ht as <-; apply step_other, other_weak_up].
Qed.

(** The loop goes to sleep, another thread puts events 1 and 3 and an empty function; the loop runs them. *)
Definition schedule : list turn_of := replicate 4 Of_loop ++ [Of_other (PutEvent (Some 1)); Of_other (PutEvent None); Of_other (PutEvent (Some 3))] ++ replicate 19 Of_loop.
Definition asleep : EventLoop nat := default event_loop (turns schedule event_loop).
End Demo.

Lemma loop_delivers_witness :
  omap id (put Demo.asleep) = ran Demo.asleep ++ omap id (rest_of Demo.asleep ++ _waiting Demo.asleep) /\
  (idle Demo.demo_body false Demo.asleep -> at_place Demo.asleep = Sleeping -> ran Demo.asleep = omap id (put Demo.asleep) /\ _weak Demo.asleep = false).
Proof.
  apply (loop_delivers Demo.demo_body false). apply (Demo.turns_reach Demo.schedule). vm_compute. reflexivity.
Defined.

Example demo_ran : ran Demo.asleep = [1; 3; 2] /\ at_place Demo.asleep = Sleeping.
Proof. by vm_compute. Qed.

Lemma stop_ends_witness :
  Acc (turn Demo.demo_body false) (put_event (Some 0) Demo.asleep) /\
  forall s', rtc (fun a b => turn Demo.demo_body false b a) (put_event (Some 0) Demo.asleep) s' -> at_place s' = Done \/ exists s'', turn Demo.demo_body false s'' s'.
Proof.
  apply (stop_ends Demo.demo_body false); [by vm_compute |]. cbn. by left.
Defined.

(** [shutdown()] of another thread wakes the loop, but the condition it waits for does not ask for
    [_quit]: the loop goes on sleeping, and nothing will wake it. *)
Example shutdown_sleeps :
  let s := notify_one (set_late 0 (set_late 1 (set_quit Demo.asleep))) in
  match Demo.one_turn Demo.Of_loop s with
  | Some s' => _quit s' = true /\ at_place s' = Sleeping /\ Demo.one_turn Demo.Of_loop s' = None /\ late s' = 0
  | None => False
  end.
Proof. vm_compute. auto. Qed.
