(* ===== verification/Channel.v ===== *)
(** * Channel: the callbacks of an agent (Net/Channel.hpp, Net/src/Channel.cpp, Net/MessageAgent.hpp)

    A [Channel] holds the user's functions for one agent; [invoke_event] calls them until the
    agent's event mask is empty.  What an agent can do is an interface ([MessageAgent] is an
    abstract class): operations on whatever state [S] the agent is a part of, since the functions
    of the user reach further than the agent.  The log lines and the thread an agent belongs to
    are left out. *)

From S2P Require Import Prelude Monitors.
From S2P Require Errors.
From S2P Require Import StateMonad.
Local Open Scope Z_scope.

(** [can_receive] and [can_send] are tested for zero only. *)
Record MessageAgent (S : Type) := mkAgent {
  receive_message : ST S Z;
  send_message : ST S Z;
  close : ST S unit;
  agent_valid : S -> bool;
  can_receive : S -> bool;
  can_send : S -> bool;
  socket_event : S -> Event;
  set_socket_event : Event -> S -> S;
  set_error_mark : Errors.error_mark -> S -> S;
  errno : S -> Z }.
Arguments receive_message {S}. Arguments send_message {S}. Arguments close {S}. Arguments agent_valid {S}. Arguments can_receive {S}.
Arguments can_send {S}. Arguments socket_event {S}. Arguments set_socket_event {S}. Arguments set_error_mark {S}. Arguments errno {S}.

Record Channel (S : Type) := mkChannel {
  _readFun : option (ST S unit);
  _writeFun : option (ST S unit);
  _errorFun : option (ST S unit);
  _closeFun : option (ST S unit) }.
Arguments mkChannel {S}. Arguments _readFun {S}. Arguments _writeFun {S}. Arguments _errorFun {S}. Arguments _closeFun {S}.

(** The cases of a mask of three bits. *)
Ltac below_8 m :=
  let Hc := fresh "Hc" in
  assert (m = 0 \/ m = 1 \/ m = 2 \/ m = 3 \/ m = 4 \/ m = 5 \/ m = 6 \/ m = 7) as Hc by lia; destruct_or! Hc; rewrite Hc in *.

Ltac below_32 m :=
  let Hc := fresh "Hc" in
  assert (exists k : nat, m = Z.of_nat k /\ (k < 32)%nat) as (k & Hc & ?) by (exists (Z.to_nat m); lia);
  rewrite Hc in *; clear Hc; do 32 (try destruct k as [| k]); try lia.

Section Channel.
Context {S : Type} (agent : MessageAgent S) (channel : Channel S).
Abbreviation M := (ST S).
Implicit Types (s : S).

Definition on_event (f : Event -> Event) : M unit := modify (fun s => set_socket_event agent (f (socket_event agent s)) s).
Definition mask s : Z := event (socket_event agent s).
Definition set_mark (t : Errors.error_types) (code : Z) : M unit := modify (set_error_mark agent (Errors.mkMark t code)).

(** [if (fun) fun(agent)]. *)
Definition call (f : option (M unit)) : M unit := match f with Some f => f | None => mret tt end.

Definition handle_error : M unit :=
  on_event unset_error;;
  match _errorFun channel with None => on_event set_HangUp | Some f => f end;;
  modify (set_error_mark agent Errors.no_error).

Definition handle_close : M unit :=
  call (_closeFun channel);;
  close agent;;
  on_event set_NoEvent.

(** What comes before [_readFun]; [false]: the function returns first. *)
Definition try_receive : M bool :=
  can ← gets (can_receive agent);
  if negb can then mret true else
  received ← receive_message agent;
  e ← gets (socket_event agent);
  if hasHangUp e then mret false else
  if received <? 0 then set_mark Errors.Read 0;; handle_error;; mret false
  else mret true.

Definition handle_read : M unit :=
  on_event unset_read;;
  valid ← gets (agent_valid agent);
  if negb valid then set_mark Errors.UnexpectedShutdown 0;; handle_error else
  go_on ← try_receive;
  when go_on (call (_readFun channel)).

Definition try_send : M unit :=
  can ← gets (can_send agent);
  if negb can then mret tt else
  sent ← send_message agent;
  if sent <? 0 then code ← gets (errno agent); set_mark Errors.Write code;; handle_error else mret tt.

Definition handle_write : M unit :=
  on_event unset_write;;
  valid ← gets (agent_valid agent);
  if negb valid then set_mark Errors.UnexpectedShutdown 0;; handle_error else
  try_send;;
  call (_writeFun channel).

Definition if_event (p : Event -> bool) (m : M unit) : M unit := e ← gets (socket_event agent); when (p e) m.

(** The [while] of [invoke_event]. *)
Fixpoint invoke_event (fuel : nat) : M unit :=
  e ← gets (socket_event agent);
  if is_NoEvent e then mret tt else
  match fuel with
  | O => lift (Fault OutOfFuel)
  | Datatypes.S fuel =>
      if_event hasError handle_error;;
      if_event hasHangUp handle_close;;
      if_event canRead handle_read;;
      if_event canWrite handle_write;;
      invoke_event fuel
  end.

(** ** Event masks

    An agent is asked for reading, writing, errors and hang-ups: the five lowest bits.  The sixth,
    [Invalid], is reported for a descriptor that is not open. *)

Definition known (m : Z) : Prop := 0 <= m < 32.

(** A mask that gained at most [HangUp]. *)
Definition hung (m m' : Z) : Prop := m' = m \/ m' = Z.lor m HangUp.

Lemma hung_refl m : hung m m.
Proof. by left. Qed.
Lemma hung_lor m : hung m (Z.lor m HangUp).
Proof. by right. Qed.
Lemma hung_trans m1 m2 m3 : hung m1 m2 -> hung m2 m3 -> hung m1 m3.
Proof. intros [-> | ->] [-> | ->]; unfold hung; auto. right. by rewrite <- Z.lor_assoc, Z.lor_diag. Qed.
#[local] Hint Resolve hung_refl hung_lor : core.
#[local] Hint Extern 2 (hung ?a ?c) => match goal with H : hung a ?b |- _ => eapply hung_trans; [exact H |] end : core.

(** ** What the functions of the user keep

    [I] holds while the agent is used, [closed] once it was closed.  The functions of the user and
    of the agent may ask for a hang-up, the function for reading also for writing, and leave the other
    bits alone; otherwise the loop of [invoke_event] could go on for ever. *)

Context (I closed : S -> Prop).
Definition calm {A} (m : M A) : Prop := forall s, I s -> wp m (fun _ s' => I s' /\ hung (mask s) (mask s')) s.

Record well_behaved : Prop := {
  event_law e s : I s -> socket_event agent (set_socket_event agent e s) = e;
  mark_law m s : I s -> socket_event agent (set_error_mark agent m s) = socket_event agent s;
  event_keeps e s : I s -> fd e = fd (socket_event agent s) -> I (set_socket_event agent e s);
  event_closed e s : closed s -> closed (set_socket_event agent e s);
  mark_keeps m s : I s -> I (set_error_mark agent m s);
  receive_calm : calm (receive_message agent);
  send_calm : calm (send_message agent);
  read_asks s : I s -> wp (call (_readFun channel)) (fun _ s' => I s' /\ (hung (mask s) (mask s') \/ hung (Z.lor (mask s) Write) (mask s'))) s;
  write_calm : calm (call (_writeFun channel));
  error_calm : calm (call (_errorFun channel));
  close_fun_keeps s : I s -> wp (call (_closeFun channel)) (fun _ s' => I s') s;
  close_closes s : I s -> wp (close agent) (fun _ s' => I s' /\ closed s') s;
}.
Context (W : well_behaved).

Lemma mask_mark m s : I s -> mask (set_error_mark agent m s) = mask s.
Proof. intros Hs. unfold mask. by rewrite (mark_law W). Qed.
Lemma mask_event e s : I s -> mask (set_socket_event agent e s) = event e.
Proof. intros Hs. unfold mask. by rewrite (event_law W). Qed.

Lemma on_event_ok f s : I s -> (forall e, fd (f e) = fd e) -> wp (on_event f) (fun _ s' => I s' /\ mask s' = event (f (socket_event agent s))) s.
Proof. intros Hs Hf. unfold on_event. wp_run. rewrite mask_event by done. split; [by apply (event_keeps W) | done]. Qed.

Lemma set_mark_ok t c s : I s -> wp (set_mark t c) (fun _ s' => I s' /\ mask s' = mask s) s.
Proof. intros Hs. unfold set_mark. wp_run. rewrite mask_mark by done. split; [by apply (mark_keeps W) | done]. Qed.

Lemma handle_error_ok s : I s ->
  wp handle_error (fun _ s' => I s' /\ hung (Z.land (mask s) (Z.lnot Error)) (mask s') /\
    (_errorFun channel = None -> mask s' = Z.lor (Z.land (mask s) (Z.lnot Error)) HangUp)) s.
Proof.
  intros Hs. unfold handle_error. wp_run. wp_call (on_event_ok unset_error s Hs); [done |]. intros _ s1 (Hs1 & Hm1).
  change (event (unset_error (socket_event agent s))) with (Z.land (mask s) (Z.lnot Error)) in Hm1. wp_run.
  pose proof (error_calm W) as Hc. unfold calm, call in Hc. destruct (_errorFun channel) as [f |].
  - wp_call (Hc s1 Hs1). intros _ s2 (Hs2 & Hm2). wp_run. rewrite mask_mark by done. rewrite <- Hm1. split_and!; [by apply (mark_keeps W) | done | done].
  - wp_call (on_event_ok set_HangUp s1 Hs1); [done |]. intros _ s2 (Hs2 & Hm2). wp_run. rewrite mask_mark by done.
    rewrite Hm2, <- Hm1. split_and!; [by apply (mark_keeps W) | apply hung_lor | done].
Qed.

Lemma handle_close_ok s : I s -> wp handle_close (fun _ s' => I s' /\ closed s' /\ mask s' = 0) s.
Proof.
  intros Hs. unfold handle_close. wp_run. wp_call (close_fun_keeps W s Hs). intros _ s1 Hs1. wp_run.
  wp_call (close_closes W s1 Hs1). intros _ s2 (Hs2 & Hc2). unfold on_event. wp_run. rewrite mask_event by done.
  split_and!; [by apply (event_keeps W) | by apply (event_closed W) | done].
Qed.

(** An error that is handled while no error is in the mask. *)
Lemma error_again s u : I s -> hung u (mask s) -> 0 <= u < 8 -> wp handle_error (fun _ s' => I s' /\ hung u (mask s')) s.
Proof.
  intros Hs Hu Hb. wp_call (handle_error_ok s Hs). intros _ s' (Hs' & Hm & _). split; [done |]. eapply hung_trans; [exact Hu |].
  assert (Hl : Z.land (mask s) (Z.lnot Error) = mask s); [| by rewrite Hl in Hm].
  destruct Hu as [-> | ->]; by below_8 u.
Qed.

Lemma try_receive_ok s u : I s -> hung u (mask s) -> 0 <= u < 8 -> wp try_receive (fun _ s' => I s' /\ hung u (mask s')) s.
Proof.
  intros Hs Hu Hb. unfold try_receive. wp_run. destruct (negb _); [by wp_run |]. wp_run. wp_call (receive_calm W s Hs). intros n s1 (Hs1 & Hm1). wp_run.
  destruct (hasHangUp _); wp_run; [eauto using hung_trans |]. destruct (n <? 0); wp_run; [| eauto using hung_trans].
  wp_call (set_mark_ok Errors.Read 0 s1 Hs1). intros _ s2 (Hs2 & Hm2). wp_run.
  wp_call (error_again s2 u Hs2); [rewrite Hm2; eauto using hung_trans | done |]. intros _ s3 H3. by wp_run.
Qed.

(** Nothing to read any more; [Write] may be new. *)
Definition after_read (m m' : Z) : Prop := hung (Z.land m Write) m' \/ hung Write m'.

Lemma after_read_asks m m1 m' : hung (Z.land m Write) m1 -> 0 <= m < 8 -> (hung m1 m' \/ hung (Z.lor m1 Write) m') -> after_read m m'.
Proof.
  intros H1 Hb [H | H]; [left; by eapply hung_trans |]. right. eapply hung_trans; [| exact H]. destruct H1 as [-> | ->]; below_8 m; by (left + right).
Qed.

Lemma channel_read_ok s : I s -> 0 <= mask s < 8 -> wp handle_read (fun _ s' => I s' /\ after_read (mask s) (mask s')) s.
Proof.
  intros Hs Hb. unfold handle_read. wp_run. wp_call (on_event_ok unset_read s Hs); [done |]. intros _ s1 (Hs1 & Hm1). wp_run.
  assert (Hu : hung (Z.land (mask s) Write) (mask s1) /\ 0 <= Z.land (mask s) Write < 8).
  { rewrite Hm1. change (event (unset_read (socket_event agent s))) with (Z.land (mask s) (Z.lnot 19)).
    below_8 (mask s); (split; [by left | by vm_compute]). }
  destruct Hu as [Hu Hb1]. destruct (negb _).
  - wp_run. wp_call (set_mark_ok Errors.UnexpectedShutdown 0 s1 Hs1). intros _ s2 (Hs2 & Hm2).
    wp_call (error_again s2 (Z.land (mask s) Write) Hs2); [by rewrite Hm2 | done |]. intros _ s3 [Hs3 Hm3]. split; [done | by left].
  - wp_run. wp_call (try_receive_ok s1 _ Hs1 Hu Hb1). intros b s2 (Hs2 & Hm2). wp_run. unfold when. destruct b; [| wp_run; split; [done | by left]].
    wp_call (read_asks W s2 Hs2). intros _ s3 (Hs3 & Hm3). split; [done |]. by eapply after_read_asks.
Qed.

Lemma try_send_ok s u : I s -> hung u (mask s) -> 0 <= u < 8 -> wp try_send (fun _ s' => I s' /\ hung u (mask s')) s.
Proof.
  intros Hs Hu Hb. unfold try_send. wp_run. destruct (negb _); [by wp_run |]. wp_run. wp_call (send_calm W s Hs). intros n s1 (Hs1 & Hm1). wp_run.
  destruct (n <? 0); wp_run; [| eauto using hung_trans]. wp_call (set_mark_ok Errors.Write (errno agent s1) s1 Hs1). intros _ s2 (Hs2 & Hm2). wp_run.
  apply error_again; [done | rewrite Hm2; eauto using hung_trans | done].
Qed.

(** At most [Write], and a hang-up that may have come since. *)
Lemma channel_write_ok s : I s -> hung 4 (mask s) -> wp handle_write (fun _ s' => I s' /\ hung 0 (mask s')) s.
Proof.
  intros Hs Hb. unfold handle_write. wp_run. wp_call (on_event_ok unset_write s Hs); [done |]. intros _ s1 (Hs1 & Hm1). wp_run.
  assert (Hu : hung 0 (mask s1)).
  { rewrite Hm1. change (event (unset_write (socket_event agent s))) with (Z.land (mask s) (Z.lnot 4)). destruct Hb as [-> | ->]; [by left | by right]. }
  destruct (negb _).
  - wp_run. wp_call (set_mark_ok Errors.UnexpectedShutdown 0 s1 Hs1). intros _ s2 (Hs2 & Hm2). apply error_again; [done | by rewrite Hm2 | done].
  - wp_run. wp_call (try_send_ok s1 0 Hs1 Hu); [done |]. intros _ s2 (Hs2 & Hm2).
    wp_call (write_calm W s2 Hs2). intros _ s3 (Hs3 & Hm3). eauto using hung_trans.
Qed.

(** ** The loop of [invoke_event] *)

Definition must_close (m : Z) : bool := truthy (Z.land m HangUp) || truthy (Z.land m Error) && match _errorFun channel with None => true | Some _ => false end.

Lemma if_event_ok p m (Q : Z -> bool) (P : S -> Prop) s : (forall e, p e = Q (event e)) ->
  (Q (mask s) = true -> wp m (fun _ s' => P s') s) -> (Q (mask s) = false -> P s) -> wp (if_event p m) (fun _ s' => P s') s.
Proof.
  intros Hp H1 H0. unfold if_event. wp_run. rewrite Hp. fold (mask s). unfold when. destruct (Q (mask s)); [by apply H1 | wp_run; by apply H0].
Qed.

(** The first two tests: no error is left, and a hang-up closed the agent. *)
Lemma closing_ok s : I s -> known (mask s) ->
  wp (if_event hasError handle_error;; if_event hasHangUp handle_close)
    (fun _ s' => I s' /\ (mask s' = 0 /\ closed s' \/ 0 <= mask s' < 8 /\ must_close (mask s) = false)) s.
Proof.
  intros Hs Hk. apply st_bind.
  apply (if_event_ok _ _ (fun m => truthy (Z.land m (Z.lor Error Invalid))) (fun s1 => wp (if_event hasHangUp handle_close)
    (fun _ s' => I s' /\ (mask s' = 0 /\ closed s' \/ 0 <= mask s' < 8 /\ must_close (mask s) = false)) s1)); [done | |].
  - intros He. wp_call (handle_error_ok s Hs). intros _ s1 (Hs1 & Hm1 & Hn1).
    apply (if_event_ok _ _ (fun m => truthy (Z.land m HangUp))); [done | |].
    + intros _. wp_call (handle_close_ok s1 Hs1). intros _ s2 (Hs2 & Hc & Hm2). split; [done | by left].
    + intros Hh. split; [done |]. right. unfold must_close. destruct (_errorFun channel) as [f |].
      * rewrite andb_false_r, orb_false_r. clear He Hn1. unfold known in Hk. revert Hh. destruct Hm1 as [-> | ->]; below_32 (mask s); by vm_compute.
      * exfalso. rewrite (Hn1 eq_refl) in Hh. revert Hh. unfold known in Hk. clear - Hk. below_32 (mask s); by vm_compute.
  - intros He. apply (if_event_ok _ _ (fun m => truthy (Z.land m HangUp))); [done | |].
    + intros _. wp_call (handle_close_ok s Hs). intros _ s2 (Hs2 & Hc & Hm2). split; [done | by left].
    + intros Hh. split; [done |]. right. unfold must_close. rewrite Hh. revert He Hh. unfold known in Hk. below_32 (mask s); by vm_compute.
Qed.

Lemma handlers_assoc (a b k : M unit) Q s : wp ((a;; b);; k) Q s -> wp (a;; b;; k) Q s.
Proof. unfold wp, mbind, ST_bind. by destruct (a s) as [[u s1] |]. Qed.

Lemma after_read_cases m m' : 0 <= m < 8 -> after_read m m' -> m' = 0 \/ m' = 4 \/ m' = 16 \/ m' = 20.
Proof. intros Hb [[-> | ->] | [-> | ->]]; [below_8 m; vm_compute; tauto.. | |]; vm_compute; tauto. Qed.

Lemma after_read_write m m' : 0 <= m < 8 -> after_read m m' -> if truthy (Z.land m' Write) then hung 4 m' else hung 0 m'.
Proof.
  intros Hb Ha. destruct (after_read_cases m m' Hb Ha) as [-> | [-> | [-> | ->]]]; cbn; [by left | by left | by right | by right].
Qed.

(** The other two tests: nothing is left but a hang-up that has come since. *)
Lemma transfer_ok s : I s -> 0 <= mask s < 8 -> wp (if_event canRead handle_read;; if_event canWrite handle_write) (fun _ s' => I s' /\ hung 0 (mask s')) s.
Proof.
  intros Hs Hm. apply st_bind.
  assert (Hread : wp (if_event canRead handle_read) (fun _ s' => I s' /\ after_read (mask s) (mask s')) s).
  { apply (if_event_ok _ _ (fun m => truthy (Z.land m (Z.lor (Z.lor Read Urgent) HangUp))) (fun s' => I s' /\ after_read (mask s) (mask s'))); [done | by intros _; apply channel_read_ok |].
    intros Hr. split; [done |]. left; left. revert Hr. below_8 (mask s); by vm_compute. }
  wp_call Hread. intros _ s1 (Hs1 & Hm1).
  apply (if_event_ok _ _ (fun m => truthy (Z.land m Write)) (fun s' => I s' /\ hung 0 (mask s'))); [done | |].
  - intros Hw. apply channel_write_ok; [done |]. pose proof (after_read_write _ _ Hm Hm1) as Hc. by rewrite Hw in Hc.
  - intros Hw. split; [done |]. pose proof (after_read_write _ _ Hm Hm1) as Hc. by rewrite Hw in Hc.
Qed.

Lemma invoke_none s fuel : mask s = 0 -> wp (invoke_event fuel) (fun _ s' => s' = s) s.
Proof. intros Hm. destruct fuel; cbn [invoke_event]; wp_run; (replace (is_NoEvent _) with true; [by wp_run |]); unfold is_NoEvent; fold (mask s); by rewrite Hm. Qed.

Lemma is_NoEvent_mask s : is_NoEvent (socket_event agent s) = (mask s =? 0).
Proof. done. Qed.

(** One turn of the loop. *)
Lemma turn_ok s fuel Q : I s -> known (mask s) -> mask s <> 0 ->
  (forall s1, I s1 -> mask s1 = 0 -> closed s1 -> Q tt s1) ->
  (forall s1, I s1 -> hung 0 (mask s1) -> must_close (mask s) = false -> wp (invoke_event fuel) Q s1) ->
  wp (invoke_event (Datatypes.S fuel)) Q s.
Proof.
  intros Hs Hk Hne Hclosed Hgo. cbn [invoke_event]. apply st_bind, st_gets. rewrite is_NoEvent_mask. destruct (Z.eqb_spec (mask s) 0); [done |].
  apply handlers_assoc, st_bind. wp_call (closing_ok s Hs Hk). intros _ s1 (Hs1 & [[Hm1 Hc1] | [Hm1 Hn]]).
  - assert (Hskip : forall p m (q : Z -> bool), (forall e, p e = q (event e)) -> q 0 = false -> wp (if_event p m) (fun _ s' => s' = s1) s1).
    { intros p m q Hp Hq. apply (if_event_ok _ _ q (fun s' => s' = s1)); [done | by rewrite Hm1, Hq | done]. }
    apply st_bind. wp_call (Hskip canRead handle_read (fun m => truthy (Z.land m (Z.lor (Z.lor Read Urgent) HangUp)))); [done | done |]. intros _ ? ->.
    apply st_bind. wp_call (Hskip canWrite handle_write (fun m => truthy (Z.land m Write))); [done | done |]. intros _ ? ->.
    wp_call (invoke_none s1 fuel Hm1). intros [] ? ->. by apply Hclosed.
  - apply handlers_assoc, st_bind. wp_call (transfer_ok s1 Hs1 Hm1). intros _ s2 (Hs2 & Hm2). by apply Hgo.
Qed.

Lemma invoke_event_ok s : I s -> known (mask s) ->
  wp (invoke_event 2) (fun _ s' => I s' /\ mask s' = 0 /\ (must_close (mask s) = true -> closed s')) s.
Proof.
  intros Hs Hk. destruct (decide (mask s = 0)) as [H0 | Hne].
  { wp_call (invoke_none s 2 H0). intros _ ? ->. rewrite H0. split_and!; done. }
  apply turn_ok; [done.. | |]; [intros s1 Hs1 Hm1 Hc1; by split_and! |].
  intros s1 Hs1 Hm1 Hn. rewrite Hn. destruct (decide (mask s1 = 0)) as [H1 | Hne1].
  { wp_call (invoke_none s1 1 H1). intros _ ? ->. by split_and!. }
  destruct Hm1 as [Hm1 | Hm1]; [done |]. apply turn_ok; [done | by rewrite Hm1 | done | |]; [intros s2 Hs2 Hm2 Hc2; by split_and! |].
  intros s2 Hs2 Hm2 Hn2. by rewrite Hm1 in Hn2.
Qed.

(** C33. [Channel::invoke_event] ends, after at most two turns of its loop, when the functions of the
    user and of the agent ask for nothing more than a hang-up and the mask has none of the bits an
    agent is not asked for: no event is left, what the functions keep is kept, and the agent was
    closed if a hang-up was reported, or an error nobody handles. *)
Theorem invoke_event_ends s : I s -> known (mask s) -> exists s', invoke_event 2 s = Ret (tt, s') /\
  I s' /\ mask s' = 0 /\ (must_close (mask s) = true -> closed s').
Proof. intros Hs Hk. destruct (proj1 (st_intro _ _ _) (invoke_event_ok s Hs Hk)) as ([] & s' & E & H). by exists s'. Qed.
End Channel.
Arguments event_law {S agent channel I closed}.
Arguments mark_law {S agent channel I closed}.
Arguments event_keeps {S agent channel I closed}.
Arguments event_closed {S agent channel I closed}.
Arguments mark_keeps {S agent channel I closed}.
Arguments receive_calm {S agent channel I closed}.
Arguments send_calm {S agent channel I closed}.
Arguments read_asks {S agent channel I closed}.
Arguments write_calm {S agent channel I closed}.
Arguments error_calm {S agent channel I closed}.
Arguments close_fun_keeps {S agent channel I closed}.
Arguments close_closes {S agent channel I closed}.

(** ** A small agent

    It hears the letters [todo] one by one, the user says them again. *)
Module Demo.
Record parrot := mkParrot { parrot_event : Event; todo : list Z; heard : list Z; said : list Z; alive : bool }.
Definition parrot_agent : MessageAgent parrot := {|
  receive_message := p ← gets id;
    match todo p with
    | [] => modify (fun p => mkParrot (set_HangUp (parrot_event p)) [] (heard p) (said p) (alive p));; mret 0
    | x :: l => modify (fun p => mkParrot (parrot_event p) l (heard p ++ [x]) (said p) (alive p));; mret 1
    end;
  send_message := modify (fun p => mkParrot (parrot_event p) (todo p) [] (said p ++ heard p) (alive p));; mret 1;
  close := modify (fun p => mkParrot (parrot_event p) (todo p) (heard p) (said p) false);
  agent_valid := alive;
  can_receive _ := true;
  can_send p := match heard p with [] => false | _ => true end;
  socket_event := parrot_event;
  set_socket_event e p := mkParrot e (todo p) (heard p) (said p) (alive p);
  set_error_mark _ p := p;
  errno _ := 0 |}.
Definition ask_write : ST parrot unit := modify (fun p => mkParrot (set_write (parrot_event p)) (todo p) (heard p) (said p) (alive p)).
Definition parrot_channel : Channel parrot := mkChannel (Some ask_write) None (Some (mret tt)) None.
Definition talking : parrot := mkParrot (mkEvent 5 (Z.lor Read Error) 0) [1; 2] [] [] true.
Definition leaving : parrot := mkParrot (mkEvent 5 (Z.lor Read HangUp) 0) [] [] [1] true.
End Demo.

Lemma parrot_well_behaved : well_behaved Demo.parrot_agent Demo.parrot_channel (fun _ => True) (fun p => Demo.alive p = false).
Proof.
  split; cbn; try done.
  - intros p _. wp_run. unfold id. destruct (Demo.todo p); wp_run; split; [done | | done |]; [by right | by left].
  - intros p _. wp_run. split; [done | by left].
  - intros p _. unfold call, Demo.ask_write. wp_run. split; [done |]. right. by left.
  - intros p _. unfold call. wp_run. split; [done | by left].
  - intros p _. unfold call. wp_run. split; [done | by left].
Qed.

Lemma invoke_event_ends_witness : exists p, invoke_event Demo.parrot_agent Demo.parrot_channel 2 Demo.leaving = Ret (tt, p) /\
  True /\ mask Demo.parrot_agent p = 0 /\ (must_close Demo.parrot_channel (mask Demo.parrot_agent Demo.leaving) = true -> Demo.alive p = false).
Proof.
  apply (invoke_event_ends Demo.parrot_agent Demo.parrot_channel (fun _ => True) (fun p => Demo.alive p = false) parrot_well_behaved Demo.leaving I).
  by vm_compute.
Defined.

(** An error the user ignores does not keep it from hearing and answering. *)
Example parrot_talks :
  invoke_event Demo.parrot_agent Demo.parrot_channel 2 Demo.talking = Ret (tt, Demo.mkParrot (mkEvent 5 0 0) [2] [] [1] true).
Proof. vm_compute. reflexivity. Qed.
