(* ===== verification/TcpAgent.v ===== *)
(** * TcpAgent: the agent of a TCP socket (Net/TcpMessageAgent.hpp, Net/src/TcpMassageAgent.cpp)

    [TcpMessageAgent] has a socket, a ring for what arrives and a ring for what is to be sent.
    [readv] and [writev] are the system's: each takes what it is given as an argument and returns
    its answer and the system after the call.  The theorem: between the user's buffers and the
    wire nothing is doubled or reordered, and only what [close] and [reset_socket] throw away with
    the rings is lost. *)

From S2P Require Import Prelude RingBuffer RingQueue RingVectors Monitors.
From S2P Require Errors.
From S2P Require Import StateMonad Channel.
Local Open Scope Z_scope.

Record TcpMessageAgent (W : Type) := mkTcp {
  _socket : Z; _input : ring; _output : ring; agent_event : Event; agent_error : Errors.error_mark; system : W }.
Arguments mkTcp {W}. Arguments _socket {W}. Arguments _input {W}. Arguments _output {W}. Arguments agent_event {W}. Arguments agent_error {W}. Arguments system {W}.

Section Agent.
Context {W : Type}.
Abbreviation state := (TcpMessageAgent W).
Abbreviation M := (ST state).
Implicit Types (a : state) (w : W).

(** [readv(fd, ...)] into so many bytes: what was read, or [None] for an error; [writev] of some
    bytes: how many were taken, or less than 0. *)
Context (readv : Z -> Z -> W -> option (list Z) * W) (writev : Z -> list Z -> W -> Z * W) (errno_of : W -> Z).

Definition set_socket fd a : state := mkTcp fd (_input a) (_output a) (agent_event a) (agent_error a) (system a).
Definition set_input r a : state := mkTcp (_socket a) r (_output a) (agent_event a) (agent_error a) (system a).
Definition set_output r a : state := mkTcp (_socket a) (_input a) r (agent_event a) (agent_error a) (system a).
Definition set_event e a : state := mkTcp (_socket a) (_input a) (_output a) e (agent_error a) (system a).
Definition set_error_of m a : state := mkTcp (_socket a) (_input a) (_output a) (agent_event a) m (system a).
Definition set_system w a : state := mkTcp (_socket a) (_input a) (_output a) (agent_event a) (agent_error a) w.

(** The constructor; the rings are [RingBuffer]s of the given sizes. *)
Definition tcp_agent_new (fd : Z) (input output : list Z) (w : W) : state :=
  mkTcp fd (ring_init input) (ring_init output) (mkEvent 0 0 0) Errors.no_error w.

Definition tcp_send_message : M Z :=
  output ← gets _output;
  if readable_len output =? 0 then mret 0 else
  array ← lift (readable_array output);
  chunks ← lift (array_get (_buffer output) array);
  a ← gets id;
  let '(written, w) := writev (_socket a) (concat chunks) (system a) in
  modify (set_system w);;
  if written <? 0 then mret (-1) else
  output ← lift (read_advance written output);
  modify (set_output output);;
  mret written.

Definition tcp_receive_message : M Z :=
  input ← gets _input;
  if writable_len input =? 0 then mret 0 else
  array ← lift (writable_array input);
  a ← gets id;
  let '(answer, w) := readv (_socket a) (array_size_of array) (system a) in
  modify (set_system w);;
  match answer with
  | None => mret (-1)
  | Some data =>
      let read := zlen data in
      buffer ← lift (array_put (_buffer input) array data);
      when (read =? 0) (modify (fun a => set_event (set_HangUp (agent_event a)) a));;
      input ← lift (write_advance read (mkRing buffer (_read input) (_write input) (_readable input)));
      modify (set_input input);;
      mret read
  end.

(** [Socket::close] closes the descriptor if there is one. *)
Definition tcp_close : M unit :=
  input ← gets _input;
  input ← lift (read_advance (readable_len input) input);
  modify (set_input input);;
  output ← gets _output;
  output ← lift (read_advance (readable_len output) output);
  modify (set_output output);;
  modify (fun a => if 0 <? _socket a then set_socket (-1) a else a).

Definition reset_socket (fd : Z) : M unit := tcp_close;; modify (set_socket fd).

Definition tcp_agent : MessageAgent state := {|
  receive_message := tcp_receive_message;
  send_message := tcp_send_message;
  close := tcp_close;
  agent_valid a := 0 <? _socket a;
  can_receive a := negb (writable_len (_input a) =? 0);
  can_send a := negb (readable_len (_output a) =? 0);
  socket_event := agent_event;
  set_socket_event := set_event;
  set_error_mark := set_error_of;
  errno a := errno_of (system a) |}.

(** The user's ends of the rings: [input().read] and [output().write]. *)
Definition user_read (n : Z) : M (list Z) :=
  input ← gets _input; '(data, input) ← lift (RingBuffer.read n input); modify (set_input input);; mret data.
Definition user_write (data : list Z) : M Z :=
  output ← gets _output; '(n, output) ← lift (RingBuffer.write data output); modify (set_output output);; mret n.

(** ** The two streams *)

Inductive tcp_call :=
  | Send
  | Receive
  | UserRead (n : Z)
  | UserWrite (data : list Z)
  | Close
  | Reset (fd : Z).

(** What became of bytes that left a ring: they reached the other end (the user, the wire), or
    were thrown away with the ring's contents. *)
Inductive fate := Passed (l : list Z) | Dropped (l : list Z).

Definition bytes_of (s : fate) : list Z := match s with Passed l | Dropped l => l end.
Definition passed_of (s : fate) : list Z := match s with Passed l => l | Dropped _ => [] end.
Definition dropped_of (s : fate) : list Z := match s with Passed _ => [] | Dropped l => l end.
Definition bytes (ss : list fate) : list Z := concat (map bytes_of ss).
Definition passed (ss : list fate) : list Z := concat (map passed_of ss).
Definition dropped (ss : list fate) : list Z := concat (map dropped_of ss).

(** What left the input ring, what the user put into the output ring and what left that. *)
Record trace := mkTrace { in_gone : list fate; gave : list Z; out_gone : list fate }.
Definition no_trace : trace := mkTrace [] [] [].
Definition then_ (t u : trace) : trace :=
  mkTrace (in_gone t ++ in_gone u) (gave t ++ gave u) (out_gone t ++ out_gone u).

Definition throws (c : tcp_call) : bool := match c with Close | Reset _ => true | _ => false end.

Definition exec (c : tcp_call) : M trace :=
  a ← gets id;
  match c with
  | Send => n ← tcp_send_message; mret (mkTrace [] [] [Passed (take (Z.to_nat n) (contents (_output a)))])
  | Receive => tcp_receive_message;; mret no_trace
  | UserRead n => data ← user_read n; mret (mkTrace [Passed data] [] [])
  | UserWrite data => n ← user_write data; mret (mkTrace [] (take (Z.to_nat n) data) [])
  | Close => tcp_close;; mret (mkTrace [Dropped (contents (_input a))] [] [Dropped (contents (_output a))])
  | Reset fd => reset_socket fd;; mret (mkTrace [Dropped (contents (_input a))] [] [Dropped (contents (_output a))])
  end.

Fixpoint run (cs : list tcp_call) : M trace :=
  match cs with
  | [] => mret no_trace
  | c :: cs => t ← exec c; u ← run cs; mret (then_ t u)
  end.

(** What the system delivered so far and what it took: the documented behaviour of the two calls. *)
Context (arrived wire : W -> list Z).
Context (readv_law : forall fd room w answer w', 0 <= room -> readv fd room w = (answer, w') ->
  wire w' = wire w /\ match answer with Some data => zlen data <= room /\ arrived w' = arrived w ++ data | None => arrived w' = arrived w end).
Context (writev_law : forall fd data w n w', writev fd data w = (n, w') ->
  arrived w' = arrived w /\ n <= zlen data /\ wire w' = wire w ++ take (Z.to_nat n) data).

(** The calls so far left the trace [t]. *)
Record streams (t : trace) a : Prop := {
  input_wf : ring_wf (_input a);
  output_wf : ring_wf (_output a);
  input_stream : arrived (system a) = bytes (in_gone t) ++ contents (_input a);
  output_stream : gave t = bytes (out_gone t) ++ contents (_output a);
  output_wire : passed (out_gone t) = wire (system a);
}.

Lemma bytes_app l l' : bytes (l ++ l') = bytes l ++ bytes l'.
Proof. unfold bytes. by rewrite map_app, concat_app. Qed.
Lemma passed_app l l' : passed (l ++ l') = passed l ++ passed l'.
Proof. unfold passed. by rewrite map_app, concat_app. Qed.
Lemma dropped_app l l' : dropped (l ++ l') = dropped l ++ dropped l'.
Proof. unfold dropped. by rewrite map_app, concat_app. Qed.

Lemma bytes_one x : bytes [x] = bytes_of x.
Proof. unfold bytes. cbn. apply app_nil_r. Qed.
Lemma passed_one x : passed [x] = passed_of x.
Proof. unfold passed. cbn. apply app_nil_r. Qed.

Lemma then_assoc t u v : then_ t (then_ u v) = then_ (then_ t u) v.
Proof. unfold then_. cbn. by rewrite !app_assoc. Qed.
Lemma then_nothing t : then_ t no_trace = t.
Proof. destruct t. unfold then_. cbn. by rewrite !app_nil_r. Qed.

Lemma concat_two {A} (x y : list A) : concat [x; y] = x ++ y.
Proof. cbn. by rewrite app_nil_r. Qed.

(** Both rings are well formed. *)
Definition tidy a : Prop := ring_wf (_input a) /\ ring_wf (_output a).

Lemma send_ok a : tidy a ->
  wp tcp_send_message (fun n a' => tidy a' /\ _socket a' = _socket a /\ agent_event a' = agent_event a /\ _input a' = _input a /\
    arrived (system a') = arrived (system a) /\ let sent := take (Z.to_nat n) (contents (_output a)) in
    wire (system a') = wire (system a) ++ sent /\ contents (_output a) = sent ++ contents (_output a')) a.
Proof.
  intros [Hi Ho]. unfold tcp_send_message. wp_run. destruct (readable_len (_output a) =? 0); [wp_run; split_and!; (done || by rewrite app_nil_r) |]. wp_run.
  destruct (drain_spec _ Ho) as (arr & x & y & E1 & E2 & E3). wp_lift E1. wp_lift E2. rewrite concat_two, E3. unfold id.
  destruct (writev (_socket a) (contents (_output a)) (system a)) as [n w] eqn:Ew. destruct (writev_law _ _ _ _ _ Ew) as (Ha & Hn & Hw). wp_run.
  destruct (Z.ltb_spec n 0); wp_run.
  - assert (Hz : Z.to_nat n = 0%nat) by lia. rewrite Hz, app_nil_r in Hw. split_and!; cbn; try done. by rewrite app_nil_r.
  - rewrite zlen_contents in Hn by done. destruct (read_advance_spec n (_output a) Ho) as (r & E & Hr & _ & _ & Hc); [lia |]. wp_lift E.
    split_and!; cbn; try done. by rewrite Hc, take_drop.
Qed.

Lemma receive_ok a : tidy a ->
  wp tcp_receive_message (fun n a' => tidy a' /\ _socket a' = _socket a /\ _output a' = _output a /\ wire (system a') = wire (system a) /\
    (agent_event a' = agent_event a \/ agent_event a' = Monitors.set_HangUp (agent_event a)) /\
    exists data, arrived (system a') = arrived (system a) ++ data /\ contents (_input a') = contents (_input a) ++ data) a.
Proof.
  assert (Hnothing : forall a, exists data, arrived (system a) = arrived (system a) ++ data /\ contents (_input a) = contents (_input a) ++ data)
    by (intros a'; exists []; by rewrite !app_nil_r).
  intros [Hi Ho]. unfold tcp_receive_message. wp_run. destruct (writable_len (_input a) =? 0); [wp_run; split_and!; by try left |]. wp_run.
  destruct (fill_spec (_input a) [] Hi) as (arr & _ & _ & E1 & Hsize & _); [wf_facts Hi; change (zlen (@nil Z)) with 0; lia |]. wp_lift E1. rewrite Hsize. unfold id.
  assert (Hroom : 0 <= writable_len (_input a)) by (wf_facts Hi; lia).
  destruct (readv (_socket a) (writable_len (_input a)) (system a)) as [answer w] eqn:Er. destruct (readv_law _ _ _ _ _ Hroom Er) as (Hw & Hd). wp_run.
  destruct answer as [data |]; [| wp_run; split_and!; cbn; try done; [by left | exists []; by rewrite !app_nil_r, Hd]].
  destruct Hd as [Hd Ha]. destruct (fill_spec (_input a) data Hi Hd) as (arr' & buf & r & E1' & _ & E2 & E3 & Hr & Hc & _).
  rewrite E1 in E1'. injection E1' as <-. wp_run. wp_lift E2. unfold when. destruct (zlen data =? 0); wp_run; wp_lift E3;
    (split_and!; cbn; try done; [by (left + right) | by exists data]).
Qed.

Lemma user_read_ok n a : tidy a -> 0 <= n -> wp (user_read n) (fun data a' => tidy a' /\ a' = set_input (_input a') a /\ data ++ contents (_input a') = contents (_input a)) a.
Proof.
  intros [Hi Ho] Hn. unfold user_read. wp_run. destruct (read_spec n (_input a) Hi Hn) as (r & E & Hr & Hd & _). wp_lift E.
  split_and!; [done | done |]. cbn. by rewrite Hd, take_drop.
Qed.

Lemma user_write_ok data a : tidy a -> wp (user_write data) (fun n a' => tidy a' /\ a' = set_output (_output a') a /\ contents (_output a') = contents (_output a) ++ take (Z.to_nat n) data) a.
Proof.
  intros [Hi Ho]. unfold user_write. wp_run. destruct (write_spec data (_output a) Ho) as (r & E & Hr & Hd & _). wp_lift E.
  split_and!; [done | done |]. cbn. rewrite Hd. f_equal.
  destruct (Z.le_ge_cases (zlen data) (writable_len (_output a))) as [Hle | Hge]; [| f_equal; lia]. unfold zlen in *. rewrite !take_ge by lia. done.
Qed.

Lemma drop_all_ok r : ring_wf r -> exists r', read_advance (readable_len r) r = Ret r' /\ ring_wf r' /\ contents r' = [].
Proof.
  intros Hr. pose proof (wf_readable r Hr). destruct (read_advance_spec (readable_len r) r Hr) as (r' & E & Hr' & _ & _ & Hc); [unfold readable_len; lia |].
  exists r'. split_and!; [done | done |]. rewrite Hc. apply drop_ge. pose proof (zlen_contents r Hr) as Hz. unfold zlen, readable_len in *. lia.
Qed.

Lemma tcp_close_ok a : tidy a -> wp tcp_close (fun _ a' => tidy a' /\ agent_event a' = agent_event a /\ system a' = system a /\ _socket a' <= 0 /\
  contents (_input a') = [] /\ contents (_output a') = []) a.
Proof.
  intros [Hi Ho]. unfold tcp_close. wp_run. destruct (drop_all_ok _ Hi) as (r & E & Hr & Hc). wp_lift E.
  destruct (drop_all_ok _ Ho) as (r' & E' & Hr' & Hc'). wp_lift E'. cbn. destruct (Z.ltb_spec 0 (_socket a)); (split; [done |]); split_and!; cbn; try done; lia.
Qed.

(** A call and the trace it adds; only [close] and [reset_socket] throw something away. *)
Lemma tcp_exec_ok c t a : streams t a -> match c with UserRead n => 0 <= n | _ => True end ->
  wp (exec c) (fun u a' => streams (then_ t u) a' /\ (throws c = false -> dropped (in_gone u) = [] /\ dropped (out_gone u) = [])) a.
Proof.
  intros [Hi Ho Hin Hout Hwire] Hc. assert (Ht : tidy a) by done.
  assert (Hclose : wp tcp_close (fun _ a' => forall fd, streams (then_ t (mkTrace [Dropped (contents (_input a))] [] [Dropped (contents (_output a))])) a' /\
    streams (then_ t (mkTrace [Dropped (contents (_input a))] [] [Dropped (contents (_output a))])) (set_socket fd a')) a).
  { wp_call (tcp_close_ok a Ht). intros _ a' ([Hi' Ho'] & _ & Es & _ & Ei & Eo) fd.
    split; split; cbn [then_ in_gone gave out_gone set_socket _input _output system];
      rewrite ?bytes_app, ?passed_app, ?bytes_one, ?passed_one, ?Es, ?Ei, ?Eo; cbn [bytes_of passed_of]; rewrite ?app_nil_r; done. }
  destruct c as [| | n | data | | fd]; unfold exec; wp_run; unfold id.
  - wp_call (send_ok a Ht). intros n a' ([Hi' Ho'] & _ & _ & E & Ha & Hw & Hd). wp_run. split; [| done].
    split; cbn [then_ in_gone gave out_gone]; rewrite ?bytes_app, ?passed_app, ?bytes_one, ?passed_one, ?app_nil_r; cbn [bytes_of passed_of]; try done.
    + by rewrite Ha, Hin, E.
    + by rewrite Hout, Hd at 1; rewrite app_assoc.
    + by rewrite Hw, <- Hwire.
  - wp_call (receive_ok a Ht). intros _ a' ([Hi' Ho'] & _ & E & Hw & _ & data & Ha & Hd). wp_run. rewrite then_nothing. split; [| done].
    split; [done | done | by rewrite Ha, Hin, Hd, app_assoc | by rewrite E | by rewrite Hw].
  - wp_call (user_read_ok n a Ht Hc). intros data a' ([Hi' Ho'] & E & Hd). wp_run. split; [| done].
    split; cbn [then_ in_gone gave out_gone]; rewrite ?bytes_app, ?bytes_one, ?app_nil_r; cbn [bytes_of]; try done; rewrite E; cbn [set_input _input _output system]; try done.
    by rewrite Hin, <- Hd, app_assoc.
  - wp_call (user_write_ok data a Ht). intros n a' ([Hi' Ho'] & E & Hd). wp_run. split; [| done].
    split; cbn [then_ in_gone gave out_gone]; rewrite ?app_nil_r; try done; rewrite E; cbn [set_output _input _output system]; try done. by rewrite Hd, Hout, app_assoc.
  - wp_call Hclose. intros _ a' Ha'. wp_run. split; [apply (Ha' 0) | done].
  - unfold reset_socket. wp_run. wp_call Hclose. intros _ a' Ha'. wp_run. split; [apply (Ha' fd) | done].
Qed.

(** C34. A [TcpMessageAgent] is two streams of bytes.  In whatever way the user's reads and writes,
    [close], [reset_socket] and the calls of [readv] and [writev] follow each other, answer short
    or fail, no call goes wrong; what [readv] delivered is what left the input ring followed by
    what is in it, what the user has written is what left the output ring followed by what is in
    it, each in order.  What left the input ring was read by the user or thrown away by [close] or
    [reset_socket], what left the output ring was taken by [writev], in that order, or thrown
    away; without these two calls nothing is thrown away. *)
Theorem tcp_streams cs fd input output w : zlen input <= MAX_UINT -> zlen output <= MAX_UINT ->
  arrived w = [] -> wire w = [] -> Forall (fun c => match c with UserRead n => 0 <= n | _ => True end) cs ->
  exists t a, run cs (tcp_agent_new fd input output w) = Ret (t, a) /\
    arrived (system a) = bytes (in_gone t) ++ contents (_input a) /\
    gave t = bytes (out_gone t) ++ contents (_output a) /\ passed (out_gone t) = wire (system a) /\
    (forallb (fun c => negb (throws c)) cs = true ->
       bytes (in_gone t) = passed (in_gone t) /\ bytes (out_gone t) = passed (out_gone t)).
Proof.
  intros Hi Ho Ha Hw Hcs.
  assert (Hrun : forall t a, streams t a -> wp (run cs) (fun u a' => streams (then_ t u) a' /\
    (forallb (fun c => negb (throws c)) cs = true -> dropped (in_gone u) = [] /\ dropped (out_gone u) = [])) a).
  { clear Ha Hw. induction Hcs as [| c cs Hc _ IH]; intros t a Hs; cbn [run]; wp_run; [by rewrite then_nothing |].
    wp_call (tcp_exec_ok c t a Hs Hc). intros u a1 [Hs1 Hd]. wp_run. wp_call (IH _ a1 Hs1). intros u' a2 [Hs2 Hd']. wp_run.
    rewrite then_assoc. split; [done |]. cbn [forallb]. intros [Hk Hks]%andb_true_iff. apply negb_true_iff in Hk.
    destruct (Hd Hk) as [E1 E2]. destruct (Hd' Hks) as [E3 E4]. unfold then_. cbn [in_gone out_gone]. by rewrite !dropped_app, E1, E2, E3, E4. }
  assert (H0 : streams no_trace (tcp_agent_new fd input output w)).
  { split; cbn; [by apply ring_init_wf | by apply ring_init_wf | by rewrite Ha | done | by rewrite Hw]. }
  assert (Hall : forall ss, dropped ss = [] -> bytes ss = passed ss).
  { induction ss as [| [l | l] ss IH]; [done | |]; unfold dropped, bytes, passed in *; cbn; intros Hd; [by rewrite IH |].
    apply app_eq_nil in Hd as [-> Hd]. by rewrite IH. }
  destruct (proj1 (st_intro _ _ _) (Hrun no_trace _ H0)) as (t & a & E & [Hs1 Hs2 Hs3 Hs4 Hs5] & Hd). exists t, a.
  split; [done |]. split; [done |]. split; [done |]. split; [done |]. intros Hk. destruct (Hd Hk) as [D1 D2]. split; by apply Hall.
Qed.
End Agent.

(** ** Concrete runs *)

Module Demo.
(** A system: the answers of [readv] to come, what it delivered and what [writev] took, at most two
    bytes at a time. *)
Record net := mkNet { answers : list (option (list Z)); delivered : list Z; taken : list Z }.

Definition demo_readv (fd room : Z) (w : net) : option (list Z) * net :=
  match answers w with
  | Some data :: rest => let data := take (Z.to_nat room) data in (Some data, mkNet rest (delivered w ++ data) (taken w))
  | None :: rest => (None, mkNet rest (delivered w) (taken w))
  | [] => (None, w)
  end.
Definition demo_writev (fd : Z) (data : list Z) (w : net) : Z * net :=
  (zlen (take 2 data), mkNet (answers w) (delivered w) (taken w ++ take 2 data)).

Lemma demo_readv_law fd room w answer w' : 0 <= room -> demo_readv fd room w = (answer, w') ->
  taken w' = taken w /\ match answer with Some data => zlen data <= room /\ delivered w' = delivered w ++ data | None => delivered w' = delivered w end.
Proof.
  intros Hr. unfold demo_readv. destruct (answers w) as [| [data |] rest]; intros [= <- <-]; cbn; try done. split_and!; [done | | done].
  unfold zlen. rewrite length_take. lia.
Qed.
Lemma demo_writev_law fd data w n w' : demo_writev fd data w = (n, w') ->
  delivered w' = delivered w /\ n <= zlen data /\ taken w' = taken w ++ take (Z.to_nat n) data.
Proof.
  intros [= <- <-]. cbn. split_and!; [done | unfold zlen; rewrite length_take; lia |]. f_equal. unfold zlen. rewrite Nat2Z.id, length_take.
  destruct (Nat.le_ge_cases 2 (length data)); [by rewrite Nat.min_l | rewrite Nat.min_r by done; by rewrite !take_ge].
Qed.

Definition zeros : list Z := replicate 4 0.
Definition calls : list tcp_call := [Receive; UserRead 1; UserWrite [7; 8; 9]; Send; Receive; Reset 6; UserWrite [5]; Receive; UserRead 9; Send].
Definition net_0 : net := mkNet [Some [1; 2]; None; Some [3]] [] [].

(** An agent with a socket whose functions echo what arrives. *)
Abbreviation demo_agent := (tcp_agent demo_readv demo_writev (fun _ => 11)).
Definition echo : ST (TcpMessageAgent net) unit :=
  data ← user_read 4; user_write data;; modify (fun a => set_event (set_write (agent_event a)) a).
Definition echo_channel : Channel (TcpMessageAgent net) := mkChannel (Some echo) None None None.
Definition connected : TcpMessageAgent net := set_event (mkEvent 5 (Z.lor Monitors.Read Monitors.Error) 0) (tcp_agent_new 5 zeros zeros net_0).
Definition connected_ok : TcpMessageAgent net := set_event (mkEvent 5 Monitors.Read 0) (tcp_agent_new 5 zeros zeros net_0).
End Demo.

Lemma tcp_streams_witness :
  exists t a, run Demo.demo_readv Demo.demo_writev Demo.calls (tcp_agent_new 5 Demo.zeros Demo.zeros Demo.net_0) = Ret (t, a) /\
    Demo.delivered (system a) = bytes (in_gone t) ++ contents (_input a) /\
    gave t = bytes (out_gone t) ++ contents (_output a) /\ passed (out_gone t) = Demo.taken (system a) /\
    (forallb (fun c => negb (throws c)) Demo.calls = true ->
       bytes (in_gone t) = passed (in_gone t) /\ bytes (out_gone t) = passed (out_gone t)).
Proof.
  apply (tcp_streams Demo.demo_readv Demo.demo_writev Demo.delivered Demo.taken Demo.demo_readv_law Demo.demo_writev_law);
    [by vm_compute | by vm_compute | reflexivity | reflexivity | repeat constructor; lia].
Defined.

(** [reset_socket] throws away byte 2, which the user had not read, and byte 9, which had not been
    sent. *)
Example tcp_demo_trace :
  match run Demo.demo_readv Demo.demo_writev Demo.calls (tcp_agent_new 5 Demo.zeros Demo.zeros Demo.net_0) with
  | Ret (t, a) => (passed (in_gone t), dropped (in_gone t), passed (out_gone t), dropped (out_gone t)) | Fault _ => ([], [], [], []) end
  = ([1; 3], [2], [7; 8; 5], [9]).
Proof. vm_compute. reflexivity. Qed.

(** An agent whose user echoes what arrives. *)
Definition is_closed {W} (a : TcpMessageAgent W) : Prop := _socket a <= 0.

Lemma echo_well_behaved : well_behaved Demo.demo_agent Demo.echo_channel tidy is_closed.
Proof.
  split; cbn.
  - done.
  - done.
  - by intros e a Ha _.
  - done.
  - done.
  - intros a Ha. wp_call (receive_ok Demo.demo_readv Demo.delivered Demo.taken Demo.demo_readv_law a Ha).
    intros _ a' (Ht & _ & _ & _ & He & _). split; [done |]. unfold mask. cbn. by destruct He as [-> | ->]; [left | right].
  - intros a Ha. wp_call (send_ok Demo.demo_writev Demo.delivered Demo.taken Demo.demo_writev_law a Ha).
    intros _ a' (Ht & _ & He & _). split; [done |]. unfold mask. cbn. left. by rewrite He.
  - intros a Ha. unfold call, Demo.echo. wp_run. wp_call (user_read_ok 4 a Ha); [lia |]. intros data a1 (Ht1 & E1 & _). wp_run.
    wp_call (user_write_ok data a1 Ht1). intros n a2 (Ht2 & E2 & _). wp_run. split; [done |]. right. left. unfold mask. cbn. by rewrite E2, E1.
  - intros a Ha. unfold call. wp_run. split; [done | by left].
  - intros a Ha. unfold call. wp_run. split; [done | by left].
  - intros a Ha. by wp_run.
  - intros a Ha. wp_call (tcp_close_ok a Ha). intros _ a' (Ht & _ & _ & Hc & _). by split.
Qed.

Lemma echo_event_ok a : tidy a -> known (mask Demo.demo_agent a) ->
  wp (invoke_event Demo.demo_agent Demo.echo_channel 2)
    (fun _ a' => tidy a' /\ mask Demo.demo_agent a' = 0 /\ (must_close Demo.echo_channel (mask Demo.demo_agent a) = true -> is_closed a')) a.
Proof. apply (invoke_event_ok Demo.demo_agent Demo.echo_channel tidy is_closed echo_well_behaved). Qed.

(** Without an error the echo is sent, two bytes at a time; with one and no function for it the socket is closed. *)
Example echo_sends :
  match invoke_event Demo.demo_agent Demo.echo_channel 2 Demo.connected_ok with
  | Ret (_, a) => (Demo.taken (system a), _socket a) | Fault _ => ([], 0) end = ([1; 2], 5).
Proof. vm_compute. reflexivity. Qed.
Example error_closes :
  match invoke_event Demo.demo_agent Demo.echo_channel 2 Demo.connected with
  | Ret (_, a) => (Demo.taken (system a), _socket a) | Fault _ => ([], 0) end = ([], -1).
Proof. vm_compute. reflexivity. Qed.

(** [POLLNVAL] counts as an error and is never taken out of the mask: with a function for errors
    that does not hang up the loop has no end. *)
Example invalid_descriptor_loops :
  invoke_event Demo.demo_agent (mkChannel None None (Some (mret tt)) None) 1000 (set_event (mkEvent 5 Monitors.Invalid 0) Demo.connected)
  = Fault OutOfFuel.
Proof. vm_compute. reflexivity. Qed.
