(* ===== verification/Reactor.v ===== *)
(** * Reactor: agents, their timers and a monitor (Net/reactor/Reactor.hpp, Net/reactor/src/Reactor.cpp)

    What the thread of a [Reactor] does between two waits of its loop (EventLoop.v): the tasks
    other threads put, and the distributor, which tells the agents that were silent for too long and
    those the monitor reports.  The map has nodes at addresses, and an iterator is an address: the
    monitor keeps one as the user data of each descriptor.  The queue of timers is the sequence
    that DList.v shows a [List] to be, so an iterator into it is the address of a cell.

    The monitor is any class with the laws of Monitors.v, the agents any with those of Channel.v.
    The functions of a user act on the whole reactor and get the agent, so a channel is a name
    here and [functions] says what it stands for at a node.  [Unix_to_now] reads one instant after the other. *)

From stdpp Require Import gmap sorting.
From S2P Require Import Prelude Links Monitors.
From S2P Require Errors.
From S2P Require Import StateMonad Channel.
Local Open Scope Z_scope.

Record TimerData := mkTimer { flush_time : Z; timer_fd : Z }.

(** The order of a [std::map] over descriptors. *)
Definition key_le (a b : Z * Z) : Prop := fst a <= fst b.
#[export] Instance key_le_dec : RelDecision key_le := fun a b => Z_le_dec (fst a) (fst b).

(** A node of [_map]: the descriptor it is found under and the [ChannelData]. *)
Record ChannelData (A C : Type) := mkData { key : Z; agent : A; channel : C; timer_iter : ptr; monitor_event : Event }.
Arguments mkData {A C}. Arguments key {A C}. Arguments agent {A C}. Arguments channel {A C}. Arguments timer_iter {A C}. Arguments monitor_event {A C}.

Record Reactor (M A C : Type) := mkReactor {
  _monitor : M;
  nodes : gmap Z (ChannelData A C);
  _map : gmap Z Z;
  _queue : cells_of TimerData;
  next_node : Z; next_cell : positive;
  instants : nat }.
Arguments mkReactor {M A C}. Arguments _monitor {M A C}. Arguments nodes {M A C}. Arguments _map {M A C}. Arguments _queue {M A C}.
Arguments next_node {M A C}. Arguments next_cell {M A C}. Arguments instants {M A C}.

Section Reactor.
Context {M A C : Type} `{!Monitor M}.
Abbreviation state := (Reactor M A C).
Abbreviation data := (ChannelData A C).
Abbreviation ST := (ST state).
Implicit Types (s : state) (d : data) (i : Z).

Context (agent_ops : MessageAgent A) (fd_of : A -> Z) (functions : Z -> C -> Channel state).
Context (get_aliveEvent : Z -> M -> res (Z * list Event * M)) (clock : nat -> Z) (timeout : Z).

Definition set_monitor m s : state := mkReactor m (nodes s) (_map s) (_queue s) (next_node s) (next_cell s) (instants s).
Definition set_nodes n s : state := mkReactor (_monitor s) n (_map s) (_queue s) (next_node s) (next_cell s) (instants s).
Definition set_queue q s : state := mkReactor (_monitor s) (nodes s) (_map s) q (next_node s) (next_cell s) (instants s).

Definition with_agent a d : data := mkData (key d) a (channel d) (timer_iter d) (monitor_event d).
Definition with_timer p d : data := mkData (key d) (agent d) (channel d) p (monitor_event d).
Definition with_monitor_event e d : data := mkData (key d) (agent d) (channel d) (timer_iter d) e.

Definition reactor_new : state := mkReactor m_empty ∅ ∅ [] 0 1 0.

Definition unix_to_now : ST Z :=
  n ← gets instants;
  modify (fun s => mkReactor (_monitor s) (nodes s) (_map s) (_queue s) (next_node s) (next_cell s) (S n));;
  mret (clock n).

(** ** Nodes and cells through their addresses *)

Definition at_node i : ST data := s ← gets nodes; StateMonad.deref (s !! i).
Definition put_node i d : ST unit := modify (fun s => set_nodes (<[i := d]> (nodes s)) s).

Definition cell_at (p : ptr) (q : cells_of TimerData) : option (positive * TimerData) :=
  match p with Some a => List.find (fun c => bool_decide (c.1 = a)) q | None => None end.

(** [_queue.insert(_queue.end(), fd)]: the new tail. *)
Definition queue_push (t : TimerData) : ST ptr :=
  a ← gets next_cell;
  modify (fun s => mkReactor (_monitor s) (nodes s) (_map s) (_queue s ++ [(a, t)]) (next_node s) (Pos.succ a) (instants s));;
  mret (Some a).

Definition without (a : positive) (q : cells_of TimerData) : cells_of TimerData := filter (fun c => c.1 <> a) q.

(** [_queue.erase(iter)]: nothing for the null iterator. *)
Definition queue_erase (p : ptr) : ST unit :=
  match p with
  | None => mret tt
  | Some a => q ← gets _queue; StateMonad.deref (cell_at p q);; modify (fun s => set_queue (without a (_queue s)) s)
  end.

(** [iter->flush_time = now; _queue.move_to(_queue.end(), iter)]. *)
Definition queue_refresh (p : ptr) (now : Z) : ST unit :=
  q ← gets _queue;
  c ← StateMonad.deref (cell_at p q);
  modify (fun s => set_queue (without c.1 (_queue s) ++ [(c.1, mkTimer now (timer_fd c.2))]) s).

(** [++iter]. *)
Fixpoint next_of (a : positive) (q : cells_of TimerData) : ptr :=
  match q with
  | [] => None
  | (b, _) :: q => if bool_decide (b = a) then first_ptr q None else next_of a q
  end.

(** ** An agent in its node *)

Definition on_agent {R} i (m : StateMonad.ST A R) : ST R :=
  d ← at_node i;
  '(r, a) ← lift (m (agent d));
  put_node i (with_agent a d);;
  mret r.

Definition agent_in {R} (f : A -> R) (default : R) i s : R := match nodes s !! i with Some d => f (agent d) | None => default end.
Definition change_agent (f : A -> A) i s : state := set_nodes (alter (fun d => with_agent (f (agent d)) d) i (nodes s)) s.

Definition agent_at i : MessageAgent state := {|
  receive_message := on_agent i (receive_message agent_ops);
  send_message := on_agent i (send_message agent_ops);
  close := on_agent i (close agent_ops);
  agent_valid := agent_in (agent_valid agent_ops) false i;
  can_receive := agent_in (can_receive agent_ops) false i;
  can_send := agent_in (can_send agent_ops) false i;
  socket_event := agent_in (socket_event agent_ops) (mkEvent 0 0 0) i;
  set_socket_event e := change_agent (set_socket_event agent_ops e) i;
  set_error_mark m := change_agent (set_error_mark agent_ops m) i;
  errno := agent_in (errno agent_ops) 0 i |}.

(** The rounds of the loop in [invoke_event] (Channel.v). *)
Definition invoke_fuel : nat := 2.
Definition invoke_at i : ST unit := d ← at_node i; invoke_event (agent_at i) (functions i (channel d)) invoke_fuel.

(** [agent.socket_event.set_error(); agent.error = ...]. *)
Definition tell_error i (t : Errors.error_types) (code : Z) : ST unit :=
  at_node i;;
  on_event (agent_at i) Monitors.set_error;;
  set_mark (agent_at i) t code;;
  invoke_at i.

Definition valid_at i : ST bool := d ← at_node i; mret (agent_valid agent_ops (agent d)).

(** ** The member functions *)

Definition on_monitor {R} (m : M -> res (R * M)) : ST R :=
  mon ← gets _monitor;
  '(r, mon) ← lift (m mon);
  modify (set_monitor mon);;
  mret r.
Definition no_result (m : M -> res M) : M -> res (unit * M) := fun mon => mon ← m mon; Ret (tt, mon).

(** [_map.erase(iter)]. *)
Definition map_erase i : ST unit :=
  d ← at_node i;
  modify (fun s => mkReactor (_monitor s) (delete i (nodes s)) (delete (key d) (_map s)) (_queue s) (next_node s) (next_cell s) (instants s)).

Definition erase_channel i : ST unit :=
  d ← at_node i;
  on_monitor (no_result (m_remove (key d) (negb (agent_valid agent_ops (agent d)))));;
  queue_erase (timer_iter d);;
  map_erase i.

(** [_map.try_emplace(fd, ...)]: the node and whether it is new. *)
Definition map_emplace (fd : Z) d : ST (Z * bool) :=
  m ← gets _map;
  match m !! fd with
  | Some i => mret (i, false)
  | None =>
      i ← gets next_node;
      modify (fun s => mkReactor (_monitor s) (<[i := d]> (nodes s)) (<[fd := i]> (_map s)) (_queue s) (i + 1) (next_cell s) (instants s));;
      mret (i, true)
  end.

(** The task [add_channel] puts into the loop. *)
Definition add_task (a : A) (c : C) (e : Event) : ST unit :=
  let fd := fd_of a in
  '(i, success) ← map_emplace fd (mkData fd a c None e);
  when success (
    added ← on_monitor (m_add (mkEvent (Monitors.fd e) (event e) i));
    if added : bool then
      now ← unix_to_now;
      p ← queue_push (mkTimer now fd);
      d ← at_node i;
      put_node i (with_timer p d)
    else map_erase i).

Definition add_channel (a : A) (c : C) (e : Event) : ST unit :=
  assert_ ((fd_of a =? Monitors.fd e) && (0 <? fd_of a));;
  if negb (agent_valid agent_ops a) then mret tt else add_task a c e.

(** [update_channel] in the thread of the loop. *)
Definition update_channel (e : Event) : ST unit :=
  m ← gets _map;
  match m !! Monitors.fd e with
  | None => mret tt
  | Some i =>
      d ← at_node i;
      assert_ (agent_valid agent_ops (agent d));;
      put_node i (with_monitor_event e d);;
      on_monitor (no_result (m_update (mkEvent (Monitors.fd e) (event e) i)))
  end.

(** The task of [weak_up_channel]; [fun] gets the node. *)
Definition weak_up_channel (fd : Z) (fun_ : Z -> ST unit) : ST unit :=
  m ← gets _map;
  match m !! fd with
  | None => mret tt
  | Some i =>
      fun_ i;;
      valid ← valid_at i;
      when (negb valid) (erase_channel i)
  end.

Fixpoint timeouts_loop (fuel : nat) (time : Z) (iter : ptr) : ST unit :=
  match iter with
  | None => mret tt
  | Some a =>
      match fuel with
      | O => lift (Fault OutOfFuel)
      | S fuel =>
          q ← gets _queue;
          c ← StateMonad.deref (cell_at iter q);
          if negb (flush_time c.2 <=? time) then mret tt else
          m ← gets _map;
          i ← StateMonad.deref (m !! timer_fd c.2);
          let iter := next_of a q in
          d ← at_node i;
          tell_error i Errors.TimeoutEvent (fd_of (agent d));;
          valid ← valid_at i;
          when (negb valid) (erase_channel i);;
          timeouts_loop fuel time iter
      end
  end.

Definition remove_timeouts : ST unit :=
  now ← unix_to_now;
  q ← gets _queue;
  timeouts_loop (length q) (now - timeout) (first_ptr q None).

Definition create_task (e : Event) : ST unit :=
  let i := extra_data e in
  d ← at_node i;
  assert_ (key d =? Monitors.fd e);;
  on_event (agent_at i) (fun ev => with_event ev (event e));;
  invoke_at i;;
  valid ← valid_at i;
  if negb valid then erase_channel i else
  now ← unix_to_now;
  d ← at_node i;
  queue_refresh (timer_iter d) now.

Fixpoint tasks (ret : nat) (l : list Event) : ST unit :=
  match ret, l with
  | O, _ => mret tt
  | S ret, e :: l => create_task e;; tasks ret l
  | S _, [] => lift (Fault OutOfBounds)
  end.

Definition invoke (timeoutMS : Z) : ST unit :=
  mon ← gets _monitor;
  '(ret, l, mon) ← lift (get_aliveEvent timeoutMS mon);
  modify (set_monitor mon);;
  if ret <? 0 then mret tt else tasks (Z.to_nat ret) l.

(** What [start] makes the distributor of the loop. *)
Definition distribute (fixed_fun : ST unit) (timeoutMS : Z) : ST unit :=
  fixed_fun;;
  remove_timeouts;;
  q ← gets _queue;
  when (negb (bool_decide (q = []))) (invoke timeoutMS).

(** The agents in the order of the map. *)
Definition in_order (m : gmap Z Z) : list Z := map snd (merge_sort key_le (map_to_list m)).

Fixpoint close_each (iters : list Z) : ST unit :=
  match iters with
  | [] => mret tt
  | i :: iters =>
      tell_error i Errors.UnexpectedShutdown 0;;
      valid ← valid_at i;
      when valid (on_event (agent_at i) Monitors.set_HangUp;; invoke_at i);;
      close_each iters
  end.

Definition close_alive : ST unit :=
  m ← gets _map;
  if bool_decide (m = ∅) then mret tt else
  close_each (in_order m);;
  modify (fun s => mkReactor (_monitor s) ∅ ∅ [] (next_node s) (next_cell s) (instants s)).

(** What a thread makes the loop do: a task of another thread or of the user ([send_to_loop]), or
    the distributor. *)
Inductive turn :=
  | AddChannel (a : A) (c : C) (e : Event)
  | UpdateChannel (e : Event)
  | WeakUpChannel (fd : Z) (fun_ : Z -> ST unit)
  | SendToLoop (fun_ : ST unit)
  | Distribute (timeoutMS : Z).

Definition exec_turn (fixed_fun : ST unit) (t : turn) : ST unit :=
  match t with
  | AddChannel a c e => add_channel a c e
  | UpdateChannel e => update_channel e
  | WeakUpChannel fd fun_ => weak_up_channel fd fun_
  | SendToLoop fun_ => fun_
  | Distribute timeoutMS => distribute fixed_fun timeoutMS
  end.

Fixpoint run_turns (fixed_fun : ST unit) (ts : list turn) : ST unit :=
  match ts with
  | [] => mret tt
  | t :: ts => exec_turn fixed_fun t;; run_turns fixed_fun ts
  end.
End Reactor.
Arguments AddChannel {M A C}. Arguments UpdateChannel {M A C}. Arguments WeakUpChannel {M A C}. Arguments SendToLoop {M A C}. Arguments Distribute {M A C}.
