(* ===== verification/ReactorSafety.v ===== *)
(** * ReactorSafety: what the map, the timers and the monitor of a reactor agree on

    The [shape] of a reactor is what the functions of a user leave alone: which descriptors have
    which nodes, the queue of timers and the watched descriptors.  [consistent] says that the three
    belong together and that the queue is in the order of time; every turn of the loop keeps it,
    and between turns every agent of the map is valid. *)

From stdpp Require Import gmap sorting.
From S2P Require Import Prelude Links Monitors.
From S2P Require Errors.
From S2P Require Import StateMonad Channel Reactor.
Local Open Scope Z_scope.

(** What a reactor asks of [get_aliveEvent]: no more events than it says, one for a descriptor, each
    watched and with the user data of the descriptor, and none of [POLLNVAL]. *)
Class AliveLaws (M : Type) `{MonitorLaws M accepts stored} (get_aliveEvent : Z -> M -> res (Z * list Event * M)) := {
  alive_ok t m : mon_inv m -> exists n l m', get_aliveEvent t m = Ret (n, l, m') /\ mon_inv m' /\ view m' = view m /\
    n <= zlen l /\ NoDup (map fd l) /\ Forall (fun e => known (event e) /\ snd <$> view m !! fd e = Some (extra_data e)) l }.

(** A node without its agent. *)
Record node (C : Type) := mkNode { node_fd : Z; node_channel : C; node_timer : ptr }.
Arguments mkNode {C}. Arguments node_fd {C}. Arguments node_channel {C}. Arguments node_timer {C}.

Record shape (C : Type) := mkShape {
  sh_map : gmap Z Z;
  sh_nodes : gmap Z (node C);
  sh_queue : cells_of TimerData;
  sh_next_node : Z; sh_next_cell : positive; sh_instants : nat;
  sh_watched : gmap Z Z }.
Arguments mkShape {C}. Arguments sh_map {C}. Arguments sh_nodes {C}. Arguments sh_queue {C}. Arguments sh_next_node {C}.
Arguments sh_next_cell {C}. Arguments sh_instants {C}. Arguments sh_watched {C}.

Section Safety.
Context {M A C : Type} `{HL : MonitorLaws M accepts stored} {get_aliveEvent : Z -> M -> res (Z * list Event * M)} `{!AliveLaws M get_aliveEvent}.
Abbreviation state := (Reactor M A C).
Abbreviation data := (ChannelData A C).
Abbreviation ST := (ST state).
Implicit Types (s : state) (d : data) (i : Z) (sh : shape C) (q : cells_of TimerData) (busy : gset Z).

Context (agent_ops : MessageAgent A) (fd_of : A -> Z) (functions : Z -> C -> Channel state) (clock : nat -> Z) (timeout : Z).
Context (A_ok : A -> Prop).
Context (clock_mono : forall n, clock n <= clock (S n)).
Context (agent_laws : well_behaved agent_ops (mkChannel None None None None) A_ok (fun a => agent_valid agent_ops a = false)).

Abbreviation agent_at := (agent_at (M := M) (C := C) agent_ops).

(** ** Shapes *)

Definition node_shape d : node C := mkNode (key d) (channel d) (timer_iter d).
Definition watched_data (m : M) : gmap Z Z := snd <$> view m.
Definition shape_of s : shape C :=
  mkShape (_map s) (node_shape <$> nodes s) (_queue s) (next_node s) (next_cell s) (instants s) (watched_data (_monitor s)).

Definition not_later (x y : positive * TimerData) : Prop := flush_time x.2 <= flush_time y.2.

Record consistent sh : Prop := {
  keys f i : sh_map sh !! f = Some i <-> exists c p, sh_nodes sh !! i = Some (mkNode f c p);
  old_nodes i n : sh_nodes sh !! i = Some n -> i < sh_next_node sh;
  same_fds : sh_watched sh = sh_map sh;
  cells_nodup : NoDup (map fst (sh_queue sh));
  old_cells x : x ∈ sh_queue sh -> (x.1 < sh_next_cell sh)%positive;
  timed i f c p : sh_nodes sh !! i = Some (mkNode f c p) -> exists a t, p = Some a /\ (a, mkTimer t f) ∈ sh_queue sh;
  timer_of a t f : (a, mkTimer t f) ∈ sh_queue sh -> exists i c, sh_nodes sh !! i = Some (mkNode f c (Some a));
  by_time : StronglySorted not_later (sh_queue sh);
  past x : x ∈ sh_queue sh -> flush_time x.2 <= clock (sh_instants sh) }.

(** [busy]: nodes whose agents are being used, or were told to end. *)
Definition agents_ok (busy : gset Z) s : Prop := forall j d, nodes s !! j = Some d ->
  A_ok (agent d) /\ (j ∉ busy -> agent_valid agent_ops (agent d) = true /\ known (event (socket_event agent_ops (agent d)))).
Record inv (busy : gset Z) sh s : Prop := {
  inv_mon : mon_inv (_monitor s);
  inv_shape : shape_of s = sh;
  inv_agents : agents_ok busy s }.
Definition in_use (busy : gset Z) i sh s : Prop := inv busy sh s /\ i ∈ busy /\ is_Some (nodes s !! i).
Definition closed i s : Prop := exists d, nodes s !! i = Some d /\ agent_valid agent_ops (agent d) = false.

(** What the functions of a user keep of the reactor, and ask for. *)
Record polite (busy : gset Z) i (c : Channel state) sh : Prop := {
  polite_read s : in_use busy i sh s -> wp (call (_readFun c)) (fun _ s' => in_use busy i sh s' /\
    (hung (mask (agent_at i) s) (mask (agent_at i) s') \/ hung (Z.lor (mask (agent_at i) s) Write) (mask (agent_at i) s'))) s;
  polite_write : calm (agent_at i) (in_use busy i sh) (call (_writeFun c));
  polite_error : calm (agent_at i) (in_use busy i sh) (call (_errorFun c));
  polite_close s : in_use busy i sh s -> wp (call (_closeFun c)) (fun _ s' => in_use busy i sh s') s }.

Context (users_polite : forall busy i sh f c p, sh_nodes sh !! i = Some (mkNode f c p) -> polite busy i (functions i c) sh).

(** ** An agent in its node *)

Lemma node_of_shape i sh s d busy : inv busy sh s -> nodes s !! i = Some d -> sh_nodes sh !! i = Some (node_shape d).
Proof. intros [_ <- _] Hd. cbn. by rewrite lookup_fmap, Hd. Qed.
Lemma shape_node i sh s n busy : inv busy sh s -> sh_nodes sh !! i = Some n -> exists d, nodes s !! i = Some d /\ node_shape d = n.
Proof. intros [_ <- _] Hn. cbn in Hn. rewrite lookup_fmap in Hn. apply fmap_Some in Hn as (d & Hd & ->). eauto. Qed.

Lemma put_agent_in_use busy i sh s d a : in_use busy i sh s -> nodes s !! i = Some d -> A_ok a -> in_use busy i sh (set_nodes (<[i := with_agent a d]> (nodes s)) s).
Proof.
  intros [[Hm Hs Ha] [Hb _]] Hd Ha'. split; [split; cbn | split; [done |]].
  - done.
  - rewrite <- Hs. unfold shape_of. cbn. f_equal. rewrite fmap_insert. apply insert_id. by rewrite lookup_fmap, Hd.
  - intros j d' Hj. cbn in Hj. destruct (decide (i = j)) as [<- | Hne].
    + rewrite lookup_insert_eq in Hj. injection Hj as <-. cbn. split; [done | by intros []].
    + rewrite lookup_insert_ne in Hj by done. by apply Ha.
  - cbn. rewrite lookup_insert_eq. eauto.
Qed.

Lemma in_use_agent busy i sh s : in_use busy i sh s -> exists d, nodes s !! i = Some d /\ A_ok (agent d).
Proof. intros [Hi [_ [d Hd]]]. exists d. split; [done |]. by destruct (inv_agents _ _ _ Hi i d Hd). Qed.

Lemma mask_at i s d : nodes s !! i = Some d -> mask (agent_at i) s = mask agent_ops (agent d).
Proof. intros Hd. unfold mask. cbn. unfold agent_in. by rewrite Hd. Qed.

Lemma on_agent_ok {R} busy i sh (m : StateMonad.ST A R) (Q : A -> A -> Prop) :
  (forall a, A_ok a -> wp m (fun _ a' => A_ok a' /\ Q a a') a) ->
  forall s d, in_use busy i sh s -> nodes s !! i = Some d ->
  wp (on_agent i m) (fun _ s' => in_use busy i sh s' /\ exists d', nodes s' !! i = Some d' /\ Q (agent d) (agent d')) s.
Proof.
  intros Hm s d Hs Hd. unfold on_agent, at_node. wp_run. eapply st_deref; [exact Hd |]. wp_run.
  destruct (in_use_agent busy i sh s Hs) as (d' & Hd' & Ha). rewrite Hd in Hd'. injection Hd' as <-.
  destruct (proj1 (st_intro _ _ _) (Hm _ Ha)) as (r & a & E & Ha' & Hq). wp_lift E. unfold put_node. wp_run.
  split; [by apply put_agent_in_use |]. exists (with_agent a d). cbn. by rewrite lookup_insert_eq.
Qed.

Lemma on_agent_calm {R} busy i sh (m : StateMonad.ST A R) : calm agent_ops A_ok m -> calm (agent_at i) (in_use busy i sh) (on_agent i m).
Proof.
  intros Hm s Hs. destruct (in_use_agent busy i sh s Hs) as (d & Hd & Ha).
  wp_call (on_agent_ok busy i sh m (fun a a' => hung (mask agent_ops a) (mask agent_ops a')) Hm s d Hs Hd).
  intros r s' (Hs' & d' & Hd' & Hh). split; [done |]. by rewrite (mask_at i s d Hd), (mask_at i s' d' Hd').
Qed.

Lemma change_agent_in_use busy f i sh s d : in_use busy i sh s -> nodes s !! i = Some d -> A_ok (f (agent d)) -> in_use busy i sh (change_agent f i s).
Proof.
  intros Hs Hd Ha. unfold change_agent.
  replace (alter _ i (nodes s)) with (<[i := with_agent (f (agent d)) d]> (nodes s)); [by apply put_agent_in_use; auto |].
  apply map_eq. intros j. destruct (decide (i = j)) as [<- | Hne].
  - by rewrite lookup_insert_eq, lookup_alter_eq, Hd.
  - by rewrite lookup_insert_ne, lookup_alter_ne.
Qed.

Lemma change_agent_at f i s d : nodes s !! i = Some d -> nodes (change_agent f i s) !! i = Some (with_agent (f (agent d)) d).
Proof. intros Hd. unfold change_agent. cbn. by rewrite lookup_alter_eq, Hd. Qed.

Lemma at_in {R} (f : A -> R) r i s d : nodes s !! i = Some d -> agent_in f r i s = f (agent d).
Proof. intros Hd. unfold agent_in. by rewrite Hd. Qed.

Lemma agent_at_well_behaved busy i sh f c p : sh_nodes sh !! i = Some (mkNode f c p) -> well_behaved (agent_at i) (functions i c) (in_use busy i sh) (closed i).
Proof.
  intros Hn. destruct (users_polite busy i sh f c p Hn) as [Hr Hw He Hc]. split.
  - intros e s Hs. destruct (in_use_agent busy i sh s Hs) as (d & Hd & Ha). cbn [Channel.socket_event Channel.set_socket_event Reactor.agent_at].
    rewrite (at_in _ _ i _ _ (change_agent_at _ i s d Hd)). by apply (event_law agent_laws).
  - intros m s Hs. destruct (in_use_agent busy i sh s Hs) as (d & Hd & Ha). cbn [Channel.socket_event Channel.set_error_mark Reactor.agent_at].
    rewrite (at_in _ _ i _ _ (change_agent_at _ i s d Hd)), (at_in _ _ i s d Hd). by apply (mark_law agent_laws).
  - intros e s Hs Hf. destruct (in_use_agent busy i sh s Hs) as (d & Hd & Ha). cbn in Hf. rewrite (at_in _ _ i s d Hd) in Hf.
    apply (change_agent_in_use busy _ i sh s d); [done | done |]. by apply (event_keeps agent_laws).
  - intros e s (d & Hd & Hv). eexists. split; [by apply change_agent_at |]. by apply (event_closed agent_laws).
  - intros m s Hs. destruct (in_use_agent busy i sh s Hs) as (d & Hd & Ha). apply (change_agent_in_use busy _ i sh s d); [done | done |]. by apply (mark_keeps agent_laws).
  - apply on_agent_calm, (receive_calm agent_laws).
  - apply on_agent_calm, (send_calm agent_laws).
  - exact Hr.
  - exact Hw.
  - exact He.
  - exact Hc.
  - intros s Hs. destruct (in_use_agent busy i sh s Hs) as (d & Hd & Ha).
    wp_call (on_agent_ok busy i sh (close agent_ops) (fun _ a' => agent_valid agent_ops a' = false)); [| exact Hs | exact Hd |].
    + intros a Ha'. apply (close_closes agent_laws a Ha').
    + intros _ s' (Hs' & d' & Hd' & Hv). split; [done |]. by exists d'.
Qed.

(** ** One agent's turn *)

Lemma at_node_ok i s d (Q : data -> state -> Prop) : nodes s !! i = Some d -> Q d s -> wp (at_node i) Q s.
Proof. intros Hd Hq. unfold at_node. wp_run. by eapply st_deref. Qed.

Lemma busy_inv i sh s : inv ∅ sh s -> is_Some (nodes s !! i) -> in_use {[i]} i sh s.
Proof. intros [Hm Hs Ha] Hi. split_and!; [| set_solver | done]. split; [done | done |]. intros j d Hj. destruct (Ha j d Hj) as [H1 H2]. split; [done |]. intros _. by apply H2. Qed.

(** After [invoke_event] no event is left, and the agent was closed if it had to be. *)
Definition handled busy i (m : Z) sh s' : Prop := in_use busy i sh s' /\ mask (agent_at i) s' = 0 /\
  forall f c p, sh_nodes sh !! i = Some (mkNode f c p) -> must_close (functions i c) m = true -> closed i s'.

Lemma invoke_at_ok busy i sh s : in_use busy i sh s -> known (mask (agent_at i) s) -> wp (invoke_at agent_ops functions i) (fun _ s' => handled busy i (mask (agent_at i) s) sh s') s.
Proof.
  intros Hs Hk. destruct (in_use_agent busy i sh s Hs) as (d & Hd & _). unfold invoke_at. wp_run. apply (at_node_ok i s d); [done |].
  pose proof (node_of_shape i sh s d busy (proj1 Hs) Hd) as Hn.
  wp_call (invoke_event_ok (agent_at i) (functions i (channel d)) (in_use busy i sh) (closed i) (agent_at_well_behaved busy i sh _ _ _ Hn) s Hs Hk).
  intros _ s' (Hs' & Hm & Hc). split_and!; [done | done |]. intros f c p Hn'. rewrite Hn in Hn'. injection Hn' as _ <- _. exact Hc.
Qed.

Lemma known_error m : known m -> known (Z.lor m Error) /\ truthy (Z.land (Z.lor m Error) Error) = true.
Proof. intros Hm. unfold known in *. below_32 m; by vm_compute. Qed.
Lemma known_hang_up m : known m -> known (Z.lor m HangUp) /\ truthy (Z.land (Z.lor m HangUp) HangUp) = true.
Proof. intros Hm. unfold known in *. below_32 m; by vm_compute. Qed.

Lemma tell_error_ok busy i sh s t code : in_use busy i sh s -> known (mask (agent_at i) s) -> wp (tell_error agent_ops functions i t code)
  (fun _ s' => in_use busy i sh s' /\ mask (agent_at i) s' = 0 /\
    forall f c p, sh_nodes sh !! i = Some (mkNode f c p) -> _errorFun (functions i c) = None -> closed i s') s.
Proof.
  intros Hs Hk. destruct (in_use_agent busy i sh s Hs) as (d & Hd & _). unfold tell_error. wp_run. apply (at_node_ok i s d); [done |]. wp_run.
  pose proof (node_of_shape i sh s d busy (proj1 Hs) Hd) as Hn. pose proof (agent_at_well_behaved busy i sh _ _ _ Hn) as W.
  wp_call (on_event_ok (agent_at i) _ _ _ W Monitors.set_error s Hs); [done |]. intros _ s1 (Hs1 & Hm1). wp_run.
  wp_call (set_mark_ok (agent_at i) _ _ _ W t code s1 Hs1). intros _ s2 (Hs2 & Hm2).
  change (mask (agent_at i) s1 = Z.lor (mask (agent_at i) s) Error) in Hm1. destruct (known_error _ Hk) as [Hk' He]. rewrite Hm1 in Hm2.
  wp_call (invoke_at_ok busy i sh s2 Hs2); [by rewrite Hm2 |]. intros _ s3 (Hs3 & Hm3 & Hc). split_and!; [done | done |].
  intros f c p Hn' Hf. apply (Hc f c p Hn'). unfold must_close. rewrite Hm2, He, Hf. apply orb_true_r.
Qed.

(** ** The calls of the monitor *)

Lemma monitor_add e m : mon_inv m -> exists b m', m_add e m = Ret (b, m') /\ mon_inv m' /\
  (b = true -> view m !! fd e = None) /\ watched_data m' = if b : bool then <[fd e := extra_data e]> (watched_data m) else watched_data m.
Proof.
  intros Hm. destruct (call_ok (CallAdd e) m Hm) as (b & m' & E & Hm' & Hv). exists b, m'. cbn [exec_call] in E. unfold spec_call in Hv.
  split_and!; [done | done | |]; destruct (accepts (fd e) && _) eqn:Hb; injection Hv as -> Hv; try done.
  - intros _. apply andb_true_iff in Hb as [_ Hb]. by apply bool_decide_eq_true in Hb.
  - unfold watched_data. rewrite Hv, fmap_insert. done.
  - unfold watched_data. by rewrite Hv.
Qed.

Lemma monitor_remove f b m : mon_inv m -> exists m', m_remove f b m = Ret m' /\ mon_inv m' /\ watched_data m' = delete f (watched_data m).
Proof.
  intros Hm. destruct (call_ok (CallRemove f b) m Hm) as (b' & m' & E & Hm' & Hv). cbn [exec_call] in E. minv. exists m'. split_and!; [done | done |].
  cbn in Hv. injection Hv as Hv. unfold watched_data. by rewrite Hv, fmap_delete.
Qed.

Lemma monitor_update e m : mon_inv m -> watched_data m !! fd e = Some (extra_data e) ->
  exists m', m_update e m = Ret m' /\ mon_inv m' /\ watched_data m' = watched_data m.
Proof.
  intros Hm He. destruct (call_ok (CallUpdate e) m Hm) as (b' & m' & E & Hm' & Hv). cbn [exec_call] in E. minv. exists m'. split_and!; [done | done |].
  cbn in Hv. injection Hv as Hv. unfold watched_data in *. rewrite Hv. apply map_eq. intros g. rewrite !lookup_fmap in *.
  destruct (decide (fd e = g)) as [<- | Hne]; [| by rewrite lookup_alter_ne].
  rewrite lookup_alter_eq. destruct (view m !! fd e); cbn in *; congruence.
Qed.

(** ** Erasing a node *)

Definition sh_erase i f a sh : shape C :=
  mkShape (delete f (sh_map sh)) (delete i (sh_nodes sh)) (without a (sh_queue sh)) (sh_next_node sh) (sh_next_cell sh) (sh_instants sh) (delete f (sh_watched sh)).

Lemma elem_of_without a q x : x ∈ without a q <-> x.1 <> a /\ x ∈ q.
Proof. unfold without. by rewrite list_elem_of_filter. Qed.

Lemma without_fst a q : map fst (without a q) = filter (fun b => b <> a) (map fst q).
Proof. unfold without. induction q as [| [b t] q IH]; [done |]. cbn [map fst]. rewrite !filter_cons. cbn [fst]. case_decide; cbn [map fst]; by rewrite IH. Qed.

Lemma timers_sorted a q : StronglySorted not_later q -> StronglySorted not_later (without a q).
Proof.
  unfold without. induction 1 as [| x q Hq IH Hx]; [constructor |]. rewrite filter_cons. case_decide; [| done]. constructor; [done |].
  rewrite list.Forall_forall in *. intros y [_ Hy]%list_elem_of_filter. by apply Hx.
Qed.

Lemma one_node sh i j f c c' p p' : consistent sh -> sh_nodes sh !! i = Some (mkNode f c p) -> sh_nodes sh !! j = Some (mkNode f c' p') -> i = j.
Proof.
  intros Hc Hi Hj. assert (Hfi : sh_map sh !! f = Some i) by (apply (keys _ Hc); eauto). assert (Hfj : sh_map sh !! f = Some j) by (apply (keys _ Hc); eauto). congruence.
Qed.

Lemma erase_consistent sh i f c a : consistent sh -> sh_nodes sh !! i = Some (mkNode f c (Some a)) -> consistent (sh_erase i f a sh).
Proof.
  intros Hc Hi. destruct (timed _ Hc _ _ _ _ Hi) as (? & t0 & [= <-] & Ha). split; cbn.
  - intros g j. destruct (decide (g = f)) as [-> | Hgf].
    + rewrite lookup_delete_eq. split; [done |]. intros (c' & p' & [Hj Hnj]%lookup_delete_Some). by destruct Hj; eapply one_node.
    + rewrite lookup_delete_ne by done. rewrite (keys _ Hc). split; intros (c' & p' & Hj); exists c', p'.
      * rewrite lookup_delete_ne; [done |]. intros ->. congruence.
      * by apply lookup_delete_Some in Hj as [_ Hj].
  - intros j n [_ Hj]%lookup_delete_Some. by eapply old_nodes.
  - by rewrite (same_fds _ Hc).
  - rewrite without_fst. apply list.NoDup_filter, (cells_nodup _ Hc).
  - intros x [_ Hx]%elem_of_without. by apply (old_cells _ Hc).
  - intros j g c' p' [Hne Hj]%lookup_delete_Some. destruct (timed _ Hc _ _ _ _ Hj) as (b & t & -> & Hb). exists b, t. split; [done |].
    apply elem_of_without. split; [| done]. cbn. intros ->. pose proof (cells_functional _ _ _ _ (cells_nodup _ Hc) Ha Hb) as [= -> ->].
    by destruct Hne; eapply one_node.
  - intros b t g [Hne Hb]%elem_of_without. cbn in Hne. destruct (timer_of _ Hc _ _ _ Hb) as (j & c' & Hj). exists j, c'.
    rewrite lookup_delete_ne; [done |]. intros ->. congruence.
  - by apply timers_sorted, (by_time _ Hc).
  - intros x [_ Hx]%elem_of_without. by apply (past _ Hc).
Qed.

Lemma cell_at_ok q a t : NoDup (map fst q) -> (a, t) ∈ q -> cell_at (Some a) q = Some (a, t).
Proof. apply find_node. Qed.

Lemma map_erase_ok i d s (Q : unit -> state -> Prop) : nodes s !! i = Some d ->
  Q tt (mkReactor (_monitor s) (delete i (nodes s)) (delete (key d) (_map s)) (_queue s) (next_node s) (next_cell s) (instants s)) -> wp (map_erase i) Q s.
Proof. intros Hd Hq. unfold map_erase. wp_run. apply (at_node_ok i s d); [done |]. by wp_run. Qed.

Lemma erase_channel_ok i sh s : in_use {[i]} i sh s -> consistent sh ->
  wp (erase_channel agent_ops i) (fun _ s' => exists f c a, sh_nodes sh !! i = Some (mkNode f c (Some a)) /\ inv ∅ (sh_erase i f a sh) s') s.
Proof.
  intros [Hi (_ & d & Hd)] Hc. pose proof (node_of_shape i sh s d _ Hi Hd) as Hn. destruct Hi as [Hm <- Ha].
  destruct (timed _ Hc _ _ _ _ Hn) as (a & t & Ep & Hq). unfold erase_channel. wp_run. apply (at_node_ok i s d); [done |].
  unfold on_monitor, no_result. wp_run. destruct (monitor_remove (key d) (negb (agent_valid agent_ops (agent d))) _ Hm) as (m' & E & Hm' & Hw).
  eapply st_lift; [by rewrite E |]. wp_run. rewrite Ep. unfold queue_erase. wp_run.
  eapply st_deref; [apply (cell_at_ok _ a _ (cells_nodup _ Hc) Hq) |]. wp_run. apply (map_erase_ok i d); [done |]. cbn.
  unfold node_shape in Hn. rewrite Ep in Hn. exists (key d), (channel d), a. split; [done |]. split; cbn.
  - done.
  - unfold shape_of, sh_erase. cbn. by rewrite fmap_delete, Hw.
  - intros j d' Hj. cbn in Hj. apply lookup_delete_Some in Hj as [Hne Hj]. destruct (Ha j d' Hj) as [H1 H2]. split; [done |]. intros _. apply H2. set_solver.
Qed.

(** A node whose agent is still valid is at rest again. *)
Lemma at_rest i sh s d : in_use {[i]} i sh s -> nodes s !! i = Some d -> known (mask (agent_at i) s) -> agent_valid agent_ops (agent d) = true -> inv ∅ sh s.
Proof.
  intros [[Hm Hs Ha] _] Hd Hk Hv. split; [done | done |]. intros j d' Hj. destruct (Ha j d' Hj) as [H1 H2]. split; [done |]. intros _.
  destruct (decide (j = i)) as [-> | Hne]; [| apply H2; set_solver]. rewrite Hd in Hj. injection Hj as <-. split; [done |].
  by rewrite (mask_at i s d Hd) in Hk.
Qed.

(** [sh'] is [sh], without node [i] if the agent is closed. *)
Definition settled i sh sh' : Prop := sh' = sh \/ exists f c a, sh_nodes sh !! i = Some (mkNode f c (Some a)) /\ sh' = sh_erase i f a sh.

Lemma settled_consistent i sh sh' : consistent sh -> settled i sh sh' -> consistent sh'.
Proof. intros Hc [-> | (f & c & a & Hn & ->)]; [done |]. by eapply erase_consistent. Qed.

Lemma valid_at_ok i s d (Q : bool -> state -> Prop) : nodes s !! i = Some d -> Q (agent_valid agent_ops (agent d)) s -> wp (valid_at agent_ops i) Q s.
Proof. intros Hd Hq. unfold valid_at. wp_run. apply (at_node_ok i s d); [done |]. by wp_run. Qed.

(** [if (!agent.agent_valid()) erase_channel(iter)]. *)
Lemma settle_ok i sh s : in_use {[i]} i sh s -> consistent sh -> known (mask (agent_at i) s) ->
  wp (valid ← valid_at agent_ops i; when (negb valid) (erase_channel agent_ops i))
    (fun _ s' => exists sh', settled i sh sh' /\ inv ∅ sh' s' /\ (closed i s -> sh_nodes sh' !! i = None)) s.
Proof.
  intros Hs Hc Hk. destruct (in_use_agent _ i sh s Hs) as (d & Hd & _). wp_run. apply (valid_at_ok i s d); [done |]. unfold when.
  destruct (agent_valid agent_ops (agent d)) eqn:Hv; cbn [negb].
  - wp_run. exists sh. split_and!; [by left | by eapply at_rest |]. intros (d' & Hd' & Hv'). congruence.
  - wp_call (erase_channel_ok i sh s Hs Hc). intros _ s' (f & c & a & Hn & Hi). exists (sh_erase i f a sh).
    split_and!; [right; eauto | done |]. intros _. cbn. by rewrite lookup_delete_eq.
Qed.

(** ** Refreshing a timer *)

Definition sh_tick sh : shape C := mkShape (sh_map sh) (sh_nodes sh) (sh_queue sh) (sh_next_node sh) (sh_next_cell sh) (S (sh_instants sh)) (sh_watched sh).
Definition sh_refresh a f now sh : shape C :=
  mkShape (sh_map sh) (sh_nodes sh) (without a (sh_queue sh) ++ [(a, mkTimer now f)]) (sh_next_node sh) (sh_next_cell sh) (sh_instants sh) (sh_watched sh).

Lemma tick_consistent sh : consistent sh -> consistent (sh_tick sh).
Proof. intros [? ? ? ? ? ? ? ? Hp]. split; try done. cbn. intros x Hx. specialize (Hp x Hx). pose proof (clock_mono (sh_instants sh)). lia. Qed.

Lemma tick_inv busy sh s (Q : Z -> state -> Prop) : inv busy sh s ->
  (forall s', inv busy (sh_tick sh) s' -> nodes s' = nodes s -> Q (clock (sh_instants sh)) s') -> wp (unix_to_now clock) Q s.
Proof. intros [Hm <- Ha] Hq. unfold unix_to_now. wp_run. by apply Hq. Qed.

Lemma sorted_snoc q x : StronglySorted not_later q -> (forall y, y ∈ q -> not_later y x) -> StronglySorted not_later (q ++ [x]).
Proof.
  induction 1 as [| y q Hq IH Hy]; intros Hx; cbn [app]; [repeat constructor |]. constructor; [apply IH; intros z Hz; apply Hx; by right |].
  rewrite list.Forall_forall in *. intros z [Hz | ->%list_elem_of_singleton]%elem_of_app; [by apply Hy | apply Hx; by left].
Qed.

Lemma nodup_snoc {T} (l : list T) x : NoDup l -> x ∉ l -> NoDup (l ++ [x]).
Proof. intros Hl Hx. apply list.NoDup_app. split_and!; [done | set_solver | apply NoDup_singleton]. Qed.

Lemma refresh_consistent sh i f c a : consistent sh -> sh_nodes sh !! i = Some (mkNode f c (Some a)) ->
  consistent (sh_refresh a f (clock (sh_instants sh)) (sh_tick sh)).
Proof.
  intros Hc Hi. assert (Hin : forall x, x ∈ without a (sh_queue sh) ++ [(a, mkTimer (clock (sh_instants sh)) f)] ->
    x.1 <> a /\ x ∈ sh_queue sh \/ x = (a, mkTimer (clock (sh_instants sh)) f)).
  { intros x [Hx%elem_of_without | Hx%list_elem_of_singleton]%elem_of_app; tauto. }
  destruct (timed _ Hc _ _ _ _ Hi) as (? & t0 & [= <-] & Ha). split; cbn -[without]; [apply Hc | apply Hc | apply Hc | | | | | |].
  - rewrite map_app, without_fst. apply nodup_snoc; [apply list.NoDup_filter, (cells_nodup _ Hc) |]. by intros [Hne _]%list_elem_of_filter.
  - intros x [[_ Hx] | ->]%Hin; [by apply (old_cells _ Hc) |]. by apply (old_cells _ Hc _ Ha).
  - intros j g c' p' Hj. destruct (timed _ Hc _ _ _ _ Hj) as (b & t & -> & Hb). destruct (decide (b = a)) as [-> | Hne].
    + pose proof (cells_functional _ _ _ _ (cells_nodup _ Hc) Ha Hb) as [= -> ->]. eexists a, _. split; [done |]. apply elem_of_app. right. by left.
    + exists b, t. split; [done |]. apply elem_of_app. left. by apply elem_of_without.
  - intros b t g [[_ Hx] | [= -> -> ->]]%Hin; [by eapply timer_of |]. eauto.
  - apply sorted_snoc; [by apply timers_sorted, (by_time _ Hc) |]. intros y [_ Hy]%elem_of_without. by apply (past _ Hc).
  - pose proof (clock_mono (sh_instants sh)). intros x [[_ Hx] | ->]%Hin; [pose proof (past _ Hc x Hx); lia | cbn; lia].
Qed.

Lemma queue_refresh_ok busy sh s a f t now : inv busy sh s -> consistent sh -> (a, mkTimer t f) ∈ sh_queue sh ->
  wp (queue_refresh (Some a) now) (fun _ s' => inv busy (sh_refresh a f now sh) s') s.
Proof.
  intros [Hm <- Ha] Hc Hq. unfold queue_refresh. wp_run. eapply st_deref; [apply (cell_at_ok _ a _ (cells_nodup _ Hc) Hq) |]. wp_run. by split.
Qed.

(** ** Events *)

Lemma node_at f i sh s busy : consistent sh -> inv busy sh s -> sh_map sh !! f = Some i ->
  exists d a t, nodes s !! i = Some d /\ key d = f /\ sh_nodes sh !! i = Some (mkNode f (channel d) (Some a)) /\ timer_iter d = Some a /\ (a, mkTimer t f) ∈ sh_queue sh.
Proof.
  intros Hc Hi (c & p & Hn)%(keys _ Hc). destruct (timed _ Hc _ _ _ _ Hn) as (a & t & -> & Hq).
  destruct (shape_node i sh s _ busy Hi Hn) as (d & Hd & Es). unfold node_shape in Es. injection Es as Ef Ec Ep.
  exists d, a, t. by rewrite Ec.
Qed.

Lemma create_task_ok sh s e : inv ∅ sh s -> consistent sh -> sh_map sh !! fd e = Some (extra_data e) -> known (event e) ->
  wp (create_task agent_ops functions clock e) (fun _ s' => exists sh', inv ∅ sh' s' /\ consistent sh' /\
    forall g, g <> fd e -> sh_map sh' !! g = sh_map sh !! g) s.
Proof.
  intros Hi Hc He Hk. set (i := extra_data e) in *. destruct (node_at _ i sh s ∅ Hc Hi He) as (d & a & t & Hd & Hf & Hn & _ & Hq).
  unfold create_task. fold i. wp_run. apply (at_node_ok i s d); [done |]. wp_run. apply st_assert; [by apply Z.eqb_eq |]. wp_run.
  pose proof (busy_inv i sh s Hi ltac:(eauto)) as Hs. pose proof (agent_at_well_behaved {[i]} i sh _ _ _ Hn) as W.
  wp_call (on_event_ok (agent_at i) _ _ _ W (fun ev => with_event ev (event e)) s Hs); [done |]. intros _ s1 (Hs1 & Hm1). wp_run. cbn [with_event event] in Hm1.
  wp_call (invoke_at_ok _ i sh s1 Hs1); [by rewrite Hm1 |]. intros _ s2 (Hs2 & Hm2 & _). wp_run.
  destruct (in_use_agent _ i sh s2 Hs2) as (d2 & Hd2 & _). apply (valid_at_ok i s2 d2); [done |].
  destruct (agent_valid agent_ops (agent d2)) eqn:Hv; cbn [negb].
  - assert (Hr : inv ∅ sh s2) by (eapply at_rest; [exact Hs2 | exact Hd2 | by rewrite Hm2 | done]).
    destruct (node_at _ i sh s2 ∅ Hc Hr He) as (d3 & b & t' & Hd3 & _ & Hn' & Ep & Hq'). wp_run. apply (tick_inv ∅ sh); [done |]. intros s3 Hi3 Hn3. wp_run.
    apply (at_node_ok i s3 d3); [by rewrite Hn3 |]. rewrite Ep.
    wp_call (queue_refresh_ok ∅ (sh_tick sh) s3 b (fd e) t' (clock (sh_instants sh)) Hi3 (tick_consistent _ Hc) Hq'). intros _ s4 Hi4.
    eexists. split_and!; [exact Hi4 | by eapply refresh_consistent | done].
  - wp_call (erase_channel_ok i sh s2 Hs2 Hc). intros _ s' (f & c & b & Hn' & Hi'). eexists. split_and!; [exact Hi' | by eapply erase_consistent |].
    rewrite Hn in Hn'. injection Hn' as <- _ _. intros g Hg. cbn. by rewrite lookup_delete_ne.
Qed.

Lemma tasks_ok l : forall n sh s, inv ∅ sh s -> consistent sh -> (n <= length l)%nat -> NoDup (map fd l) ->
  Forall (fun e => known (event e) /\ sh_map sh !! fd e = Some (extra_data e)) l ->
  wp (tasks agent_ops functions clock n l) (fun _ s' => exists sh', inv ∅ sh' s' /\ consistent sh') s.
Proof.
  induction l as [| e l IH]; intros n sh s Hi Hc Hn Hd He.
  - destruct n; [| cbn in Hn; lia]. cbn. wp_run. eauto.
  - destruct n as [| n]; cbn [tasks]; [wp_run; eauto |]. wp_run. apply list.NoDup_cons in Hd as [Hnot Hd]. apply list.Forall_cons in He as [[Hk Hm] He].
    wp_call (create_task_ok sh s e Hi Hc Hm Hk). intros _ s1 (sh1 & Hi1 & Hc1 & Hsame). apply (IH n sh1); [done | done | cbn in Hn; lia | done |].
    rewrite list.Forall_forall in *. intros e' Hin. destruct (He e' Hin) as [Hk' Hm']. split; [done |]. rewrite Hsame; [done |].
    intros E. apply Hnot. rewrite <- E. by apply (list_elem_of_fmap_2 fd).
Qed.

Lemma set_monitor_inv busy sh s m : inv busy sh s -> mon_inv m -> watched_data m = watched_data (_monitor s) -> inv busy sh (set_monitor m s).
Proof. intros [Hm <- Ha] Hm' Hv. split; [done | | done]. unfold shape_of. cbn. by rewrite Hv. Qed.

Lemma invoke_ok sh s t : inv ∅ sh s -> consistent sh -> wp (invoke agent_ops functions get_aliveEvent clock t) (fun _ s' => exists sh', inv ∅ sh' s' /\ consistent sh') s.
Proof.
  intros Hi Hc. unfold invoke. wp_run. destruct (alive_ok t _ (inv_mon _ _ _ Hi)) as (n & l & m' & E & Hm' & Hv & Hn & Hd & He). wp_lift E.
  assert (Hi' : inv ∅ sh (set_monitor m' s)) by (apply set_monitor_inv; [done | done |]; unfold watched_data; by rewrite Hv).
  destruct (n <? 0); [wp_run; eauto |]. apply (tasks_ok l _ sh); [done | done | unfold zlen in Hn; lia | done |].
  eapply list.Forall_impl; [exact He |]. intros e [Hk Hx]. split; [done |]. rewrite <- (same_fds _ Hc). destruct Hi as [_ <- _]. cbn. unfold watched_data.
  by rewrite lookup_fmap.
Qed.

(** ** Timeouts *)

Lemma wp_assoc {R1 R2 R3} (m : ST R1) (k : R1 -> ST R2) (k' : R2 -> ST R3) Q s : wp ((m ≫= k) ≫= k') Q s -> wp (m ≫= fun x => k x ≫= k') Q s.
Proof. unfold wp, mbind, ST_bind. by destruct (m s) as [[u s1] |]. Qed.

(** Node [i] was not refreshed after [time]. *)
Definition silent time sh i : Prop := exists f c a t, sh_nodes sh !! i = Some (mkNode f c (Some a)) /\ (a, mkTimer t f) ∈ sh_queue sh /\ t <= time.

Lemma next_of_ok dn a t rest : NoDup (map fst (dn ++ (a, t) :: rest)) -> next_of a (dn ++ (a, t) :: rest) = first_ptr rest None.
Proof.
  induction dn as [| [b u] dn IH]; cbn [app map fst next_of]; intros [Hb Hd]%list.NoDup_cons; [by rewrite bool_decide_eq_true_2 |].
  rewrite bool_decide_eq_false_2; [by apply IH |]. intros ->. apply Hb. rewrite map_app. apply elem_of_app. right. by left.
Qed.

Lemma timer_out dn a t rest : NoDup (map fst (dn ++ (a, t) :: rest)) -> without a (dn ++ (a, t) :: rest) = dn ++ rest.
Proof.
  intros Hd. assert (Hnone : forall q, a ∉ map fst q -> without a q = q).
  { intros q. unfold without. induction q as [| [b u] q IH]; [done |]. cbn [map fst]. intros [Hne Hq]%not_elem_of_cons. rewrite filter_cons_True by (cbn; congruence). by rewrite IH. }
  rewrite map_app in Hd. apply list.NoDup_app in Hd as (_ & Hdis & Hd). cbn [map fst] in *. apply list.NoDup_cons in Hd as [Hr _].
  unfold without. rewrite list.filter_app, filter_cons_False by (cbn; by intros []). f_equal; apply Hnone; [| done]. intros Hin. apply (Hdis a Hin). by left.
Qed.

Lemma silent_settled time sh sh1 i j : settled i sh sh1 -> silent time sh1 j -> silent time sh j.
Proof.
  intros Hs (g & c' & b & t & Hn & Hq & Ht). destruct Hs as [-> | (f & c & a & _ & ->)]; [by exists g, c', b, t |].
  cbn -[without] in *. apply lookup_delete_Some in Hn as [_ Hn]. apply elem_of_without in Hq as [_ Hq]. by exists g, c', b, t.
Qed.

(** What a scan of the timers from [rest] on does to the nodes. *)
Definition scanned time (rest : cells_of TimerData) sh sh' : Prop :=
  (forall j, sh_nodes sh' !! j = sh_nodes sh !! j \/ sh_nodes sh' !! j = None /\ silent time sh j) /\
  (forall a t f j c, (a, mkTimer t f) ∈ rest -> t <= time -> sh_nodes sh !! j = Some (mkNode f c (Some a)) -> _errorFun (functions j c) = None ->
    sh_nodes sh' !! j = None).

Lemma settled_nodes i sh sh1 : settled i sh sh1 -> forall j, sh_nodes sh1 !! j = sh_nodes sh !! j \/ sh_nodes sh1 !! j = None /\ j = i.
Proof.
  intros [-> | (f & c & a & _ & ->)] j; [by left |]. cbn. destruct (decide (i = j)) as [<- | Hne]; [right; by rewrite lookup_delete_eq | left; by rewrite lookup_delete_ne].
Qed.

Lemma scanned_cons time a t f i c rest sh sh1 sh2 : consistent sh -> sh_nodes sh !! i = Some (mkNode f c (Some a)) -> (a, mkTimer t f) ∈ sh_queue sh -> t <= time ->
  settled i sh sh1 -> (_errorFun (functions i c) = None -> sh_nodes sh1 !! i = None) -> scanned time rest sh1 sh2 -> scanned time ((a, mkTimer t f) :: rest) sh sh2.
Proof.
  intros Hc Hn Hq Ht Hs Hgone [H1 H2]. pose proof (settled_nodes _ _ _ Hs) as Hset. split.
  - intros j. destruct (H1 j) as [E | [E Hj]]; [| right; split; [done | by eapply silent_settled]]. rewrite E.
    destruct (Hset j) as [E1 | [E1 ->]]; [by left |]. right. split; [done |]. by exists f, c, a, t.
  - intros b u g j c' Hin Hu Hj Hf.
    assert (Hlost : sh_nodes sh1 !! j = None -> sh_nodes sh2 !! j = None) by (intros E; destruct (H1 j) as [-> | [-> _]]; done).
    apply elem_of_cons in Hin as [[= -> -> ->] | Hin].
    + apply Hlost. pose proof (one_node sh j i f c' c _ _ Hc Hj Hn) as ->. rewrite Hn in Hj. injection Hj as <-. by apply Hgone.
    + destruct (Hset j) as [E | [E _]]; [| by apply Hlost]. rewrite <- E in Hj. by eapply H2.
Qed.

Lemma settled_queue i f c a t dn rest sh sh1 : consistent sh -> sh_nodes sh !! i = Some (mkNode f c (Some a)) -> sh_queue sh = dn ++ (a, t) :: rest ->
  settled i sh sh1 -> exists dn', sh_queue sh1 = dn' ++ rest.
Proof.
  intros Hc Hn Hq [-> | (f' & c' & a' & Hn' & ->)]; [exists (dn ++ [(a, t)]); by rewrite Hq, <- app_assoc |].
  exists dn. rewrite Hn in Hn'. injection Hn' as <- <- <-. cbn -[without]. rewrite Hq. apply timer_out. rewrite <- Hq. apply (cells_nodup _ Hc).
Qed.

Lemma timeouts_loop_ok time rest : forall fuel dn sh s, inv ∅ sh s -> consistent sh -> sh_queue sh = dn ++ rest -> (length rest <= fuel)%nat ->
  wp (timeouts_loop agent_ops fd_of functions fuel time (first_ptr rest None)) (fun _ s' => exists sh', inv ∅ sh' s' /\ consistent sh' /\ scanned time rest sh sh') s.
Proof.
  induction rest as [| [a [t f]] rest IH]; intros fuel dn sh s Hi Hc Hq Hfuel.
  { destruct fuel; cbn; wp_run; exists sh; (split_and!; [done | done |]); (split; [by left | by intros ? ? ? ? ? ?%elem_of_nil]). }
  destruct fuel as [| fuel]; [cbn in Hfuel; lia |]. cbn [timeouts_loop first_ptr]. wp_run.
  assert (Hin : (a, mkTimer t f) ∈ sh_queue sh) by (rewrite Hq; apply elem_of_app; right; by left).
  assert (Eq : _queue s = sh_queue sh) by (by destruct Hi as [_ <- _]). rewrite Eq.
  eapply st_deref; [apply (cell_at_ok _ a _ (cells_nodup _ Hc) Hin) |]. cbn [snd flush_time timer_fd].
  destruct (Z.leb_spec t time) as [Ht | Ht]; cbn [negb].
  2:{ wp_run. exists sh. split_and!; [done | done |]. split; [by left |]. intros b u g j c Hx Hu _ _. exfalso.
      pose proof (by_time _ Hc) as Hsort. rewrite Hq in Hsort. apply StronglySorted_app in Hsort as (_ & _ & Hsort).
      apply StronglySorted_inv in Hsort as [_ Hle]. rewrite list.Forall_forall in Hle. apply elem_of_cons in Hx as [[= -> -> ->] | Hx]; [lia |].
      specialize (Hle _ Hx). unfold not_later in Hle. cbn in Hle. lia. }
  destruct (timer_of _ Hc _ _ _ Hin) as (i & c & Hn). assert (Hm : sh_map sh !! f = Some i) by (apply (keys _ Hc); eauto).
  wp_run. eapply st_deref; [destruct Hi as [_ <- _]; exact Hm |]. rewrite Hq, next_of_ok by (rewrite <- Hq; apply (cells_nodup _ Hc)). wp_run.
  destruct (shape_node i sh s _ ∅ Hi Hn) as (d & Hd & _). apply (at_node_ok i s d); [done |]. wp_run.
  destruct (inv_agents _ _ _ Hi i d Hd) as [_ Hrest]. destruct (Hrest ltac:(set_solver)) as [_ Hk].
  wp_call (tell_error_ok {[i]} i sh s Errors.TimeoutEvent (fd_of (agent d)) (busy_inv i sh s Hi ltac:(eauto))); [by rewrite (mask_at i s d Hd) |].
  intros _ s1 (Hs1 & Hm1 & Hclosed). apply wp_assoc, st_bind.
  wp_call (settle_ok i sh s1 Hs1 Hc); [by rewrite Hm1 |]. intros _ s2 (sh2 & Hset & Hi2 & Hgone).
  destruct (settled_queue i f c a _ dn rest sh sh2 Hc Hn Hq Hset) as [dn' Hq2].
  wp_call (IH fuel dn' sh2 s2 Hi2 (settled_consistent _ _ _ Hc Hset) Hq2); [cbn in Hfuel; lia |]. intros _ s3 (sh3 & Hi3 & Hc3 & Hscan).
  exists sh3. split_and!; [done | done |]. eapply scanned_cons; [done | done | done | done | exact Hset | | done]. intros Hf. apply Hgone. by eapply Hclosed.
Qed.

Lemma remove_timeouts_ok sh s : inv ∅ sh s -> consistent sh -> wp (remove_timeouts agent_ops fd_of functions clock timeout)
  (fun _ s' => exists sh', inv ∅ sh' s' /\ consistent sh' /\ scanned (clock (instants s) - timeout) (_queue s) sh sh') s.
Proof.
  intros Hi Hc. unfold remove_timeouts. wp_run. apply (tick_inv ∅ sh); [done |]. intros s1 Hi1 _. wp_run.
  assert (E1 : _queue s1 = sh_queue (sh_tick sh)) by (by destruct Hi1 as [_ <- _]). assert (E : _queue s = sh_queue sh) by (by destruct Hi as [_ <- _]).
  assert (Et : instants s = sh_instants sh) by (by destruct Hi as [_ <- _]). rewrite E1, E, Et.
  exact (timeouts_loop_ok _ (sh_queue sh) _ [] (sh_tick sh) s1 Hi1 (tick_consistent _ Hc) eq_refl (le_n _)).
Qed.

(** ** Tasks of other threads *)

Definition sh_skip sh : shape C := mkShape (sh_map sh) (sh_nodes sh) (sh_queue sh) (sh_next_node sh + 1) (sh_next_cell sh) (sh_instants sh) (sh_watched sh).
Definition sh_add f c sh : shape C :=
  let i := sh_next_node sh in let a := sh_next_cell sh in
  mkShape (<[f := i]> (sh_map sh)) (<[i := mkNode f c (Some a)]> (sh_nodes sh)) (sh_queue sh ++ [(a, mkTimer (clock (sh_instants sh)) f)])
    (i + 1) (Pos.succ a) (S (sh_instants sh)) (<[f := i]> (sh_watched sh)).

Lemma skip_consistent sh : consistent sh -> consistent (sh_skip sh).
Proof. intros [? Ho ? ? ? ? ? ? ?]. split; try done. cbn. intros i n Hn. specialize (Ho i n Hn). lia. Qed.

Lemma fresh_node sh : consistent sh -> sh_nodes sh !! sh_next_node sh = None.
Proof. intros Hc. destruct (sh_nodes sh !! sh_next_node sh) eqn:E; [| done]. pose proof (old_nodes _ Hc _ _ E). lia. Qed.

Lemma add_consistent sh f c : consistent sh -> sh_map sh !! f = None -> consistent (sh_add f c sh).
Proof.
  intros Hc Hf. pose proof (fresh_node sh Hc) as Hnew. pose proof (clock_mono (sh_instants sh)) as Hcl.
  assert (Hno : forall g i c' p, sh_nodes sh !! i = Some (mkNode g c' p) -> g <> f /\ i <> sh_next_node sh).
  { intros g i c' p Hi. split; [| intros ->; congruence]. intros ->. assert (sh_map sh !! f = Some i) by (apply (keys _ Hc); eauto). congruence. }
  assert (Hin : forall x, x ∈ sh_queue sh ++ [(sh_next_cell sh, mkTimer (clock (sh_instants sh)) f)] -> x ∈ sh_queue sh \/ x = (sh_next_cell sh, mkTimer (clock (sh_instants sh)) f)).
  { intros x [Hx | Hx%list_elem_of_singleton]%elem_of_app; tauto. }
  split; cbn.
  - intros g j. destruct (decide (f = g)) as [<- | Hne].
    + rewrite lookup_insert_eq. split; [intros [= <-]; rewrite lookup_insert_eq; eauto |]. intros (c' & p' & [[<- _] | [_ Hj]]%lookup_insert_Some); [done |]. by destruct (Hno _ _ _ _ Hj).
    + rewrite lookup_insert_ne by done. rewrite (keys _ Hc). split; intros (c' & p' & Hj); exists c', p'.
      * rewrite lookup_insert_ne; [done |]. by destruct (Hno _ _ _ _ Hj).
      * apply lookup_insert_Some in Hj as [[_ E] | [_ Hj]]; [congruence | done].
  - intros j n [[<- _] | [_ Hj]]%lookup_insert_Some; [lia |]. pose proof (old_nodes _ Hc _ _ Hj). lia.
  - by rewrite (same_fds _ Hc).
  - rewrite map_app. apply nodup_snoc; [apply (cells_nodup _ Hc) |]. intros ([b t] & E & Hx)%list_elem_of_fmap. cbn in E. subst b. pose proof (old_cells _ Hc _ Hx). cbn in *. lia.
  - intros x [Hx | ->]%Hin; [pose proof (old_cells _ Hc _ Hx); lia | cbn; lia].
  - intros j g c' p' [[<- E] | [_ Hj]]%lookup_insert_Some.
    + injection E as <- _ <-. eexists _, _. split; [done |]. apply elem_of_app. right. by left.
    + destruct (timed _ Hc _ _ _ _ Hj) as (b & t & -> & Hb). exists b, t. split; [done |]. apply elem_of_app. by left.
  - intros b t g [Hb | [= -> -> ->]]%Hin; [| by eexists _, _; rewrite lookup_insert_eq]. destruct (timer_of _ Hc _ _ _ Hb) as (j & c' & Hj).
    exists j, c'. rewrite lookup_insert_ne; [done |]. by destruct (Hno _ _ _ _ Hj).
  - apply sorted_snoc; [apply (by_time _ Hc) |]. intros y Hy. apply (past _ Hc y Hy).
  - intros x [Hx | ->]%Hin; [pose proof (past _ Hc x Hx); lia | cbn; lia].
Qed.

Definition fresh_agent a : Prop := A_ok a /\ agent_valid agent_ops a = true /\ known (event (socket_event agent_ops a)).

Lemma agents_insert s d : agents_ok ∅ s -> fresh_agent (agent d) -> forall j d', <[next_node s := d]> (nodes s) !! j = Some d' ->
  A_ok (agent d') /\ (j ∉ (∅ : gset Z) -> agent_valid agent_ops (agent d') = true /\ known (event (socket_event agent_ops (agent d')))).
Proof. intros Ha (H1 & H2 & H3) j d' [[_ <-] | [_ Hj]]%lookup_insert_Some; [done | by apply Ha]. Qed.

Lemma add_task_ok sh s a c e : inv ∅ sh s -> consistent sh -> fresh_agent a -> fd e = fd_of a ->
  wp (add_task fd_of clock a c e) (fun _ s' => exists sh', inv ∅ sh' s' /\ consistent sh') s.
Proof.
  intros [Hm Hs Ha] Hc Hfresh Hf. unfold add_task, map_emplace. wp_run. destruct (_map s !! fd_of a) as [i |] eqn:E; wp_run.
  { cbn. wp_run. exists sh. split; [by split | done]. }
  subst sh. cbn [when]. pose proof (fresh_node _ Hc) as Hnew. unfold on_monitor. wp_run. set (i := next_node s) in *.
  destruct (monitor_add (mkEvent (fd e) (event e) i) _ Hm) as (b & m' & Em & Hm' & _ & Hw). cbn in Hw. cbn. eapply st_lift; [exact Em |]. wp_run. destruct b.
  - unfold unix_to_now, queue_push, put_node. wp_run. apply (at_node_ok i _ (mkData (fd_of a) a c None e)); [cbn; by rewrite lookup_insert_eq |]. wp_run. cbn.
    exists (sh_add (fd_of a) c (shape_of s)). split; [| by apply add_consistent]. split; cbn.
    + done.
    + unfold shape_of, sh_add. cbn. rewrite insert_insert_eq, fmap_insert, Hw, Hf. done.
    + intros j d'. cbn. rewrite insert_insert_eq. by apply (agents_insert s).
  - apply (map_erase_ok i (mkData (fd_of a) a c None e)); [cbn; by rewrite lookup_insert_eq |]. cbn. exists (sh_skip (shape_of s)).
    cbn in Hnew. rewrite lookup_fmap, fmap_None in Hnew. rewrite !delete_insert_id by done. split; [| by apply skip_consistent]. split; cbn; [done | | done].
    unfold shape_of, sh_skip. cbn. by rewrite Hw.
Qed.

Lemma update_channel_ok sh s e : inv ∅ sh s -> consistent sh -> wp (update_channel agent_ops e) (fun _ s' => inv ∅ sh s') s.
Proof.
  intros Hi Hc. unfold update_channel. wp_run. destruct (_map s !! fd e) as [i |] eqn:E; [| by wp_run].
  assert (Hmap : sh_map sh !! fd e = Some i) by (by destruct Hi as [_ <- _]).
  destruct (node_at _ i sh s ∅ Hc Hi Hmap) as (d & a & t & Hd & _). wp_run. apply (at_node_ok i s d); [done |]. wp_run.
  destruct Hi as [Hm <- Ha]. destruct (Ha i d Hd) as [Hok Hv]. apply st_assert; [apply Hv; set_solver |]. unfold put_node, on_monitor, no_result. wp_run. cbn.
  destruct (monitor_update (mkEvent (fd e) (event e) i) _ Hm) as (m' & Em & Hm' & Hw).
  { pose proof (same_fds _ Hc) as Hsame. cbn in Hsame. cbn. by rewrite Hsame. }
  eapply st_lift; [by rewrite Em |]. wp_run. split; cbn; [done | |].
  - unfold shape_of. cbn. rewrite Hw, fmap_insert. f_equal. apply insert_id. by rewrite lookup_fmap, Hd.
  - intros j d' Hj. cbn in Hj. apply lookup_insert_Some in Hj as [[<- <-] | [_ Hj]]; [done | by apply Ha].
Qed.

(** What a function given to [weak_up_channel] keeps. *)
Definition wakes_politely (fun_ : Z -> ST unit) : Prop := forall i sh s, in_use {[i]} i sh s -> known (mask (agent_at i) s) ->
  wp (fun_ i) (fun _ s' => in_use {[i]} i sh s' /\ known (mask (agent_at i) s')) s.

Lemma weak_up_channel_ok sh s f fun_ : inv ∅ sh s -> consistent sh -> wakes_politely fun_ ->
  wp (weak_up_channel agent_ops f fun_) (fun _ s' => exists sh', inv ∅ sh' s' /\ consistent sh') s.
Proof.
  intros Hi Hc Hfun. unfold weak_up_channel. wp_run. destruct (_map s !! f) as [i |] eqn:E; [| wp_run; eauto].
  assert (Hmap : sh_map sh !! f = Some i) by (by destruct Hi as [_ <- _]).
  destruct (node_at _ i sh s ∅ Hc Hi Hmap) as (d & a & t & Hd & _). destruct (inv_agents _ _ _ Hi i d Hd) as [_ Hrest]. destruct (Hrest ltac:(set_solver)) as [_ Hk].
  apply st_bind. wp_call (Hfun i sh s (busy_inv i sh s Hi ltac:(eauto))); [by rewrite (mask_at i s d Hd) |]. intros _ s1 [Hs1 Hk1].
  wp_call (settle_ok i sh s1 Hs1 Hc Hk1). intros _ s2 (sh2 & Hset & Hi2 & _). exists sh2. split; [done | by eapply settled_consistent].
Qed.

(** ** The end *)

Lemma in_order_ok sh i : consistent sh -> NoDup (in_order (sh_map sh)) /\ (i ∈ in_order (sh_map sh) -> is_Some (sh_nodes sh !! i)).
Proof.
  intros Hc. unfold in_order. pose proof (merge_sort_Permutation key_le (map_to_list (sh_map sh))) as Hp. split.
  - assert (E : map snd (merge_sort key_le (map_to_list (sh_map sh))) ≡ₚ map snd (map_to_list (sh_map sh))) by (by apply Permutation_map).
    rewrite E. apply (NoDup_fmap_2_strong snd); [| apply NoDup_map_to_list]. intros [f1 i1] [f2 i2] H1%elem_of_map_to_list H2%elem_of_map_to_list Ei. cbn in Ei. subst i2.
    apply (keys _ Hc) in H1 as (c1 & p1 & H1), H2 as (c2 & p2 & H2). congruence.
  - intros ([f j] & -> & Hin)%list_elem_of_fmap. rewrite Hp in Hin. apply elem_of_map_to_list in Hin. apply (keys _ Hc) in Hin as (c & p & Hn). cbn. eauto.
Qed.

Lemma add_busy busy i sh s : inv busy sh s -> is_Some (nodes s !! i) -> in_use (busy ∪ {[i]}) i sh s.
Proof. intros [Hm Hs Ha] Hi. split_and!; [| set_solver | done]. split; [done | done |]. intros j d Hj. destruct (Ha j d Hj) as [H1 H2]. split; [done |]. intros Hn. apply H2. set_solver. Qed.

Lemma close_each_ok l : forall busy sh s, inv busy sh s -> NoDup l -> (forall i, i ∈ l -> i ∉ busy /\ is_Some (sh_nodes sh !! i)) ->
  wp (close_each agent_ops functions l) (fun _ s' => exists busy', inv busy' sh s') s.
Proof.
  induction l as [| i l IH]; intros busy sh s Hi Hd Hl; cbn [close_each]; wp_run; [eauto |]. apply list.NoDup_cons in Hd as [Hnot Hd].
  destruct (Hl i ltac:(by left)) as [Hb [n Hn]]. destruct (shape_node i sh s n busy Hi Hn) as (d & Hd0 & _).
  pose proof (add_busy busy i sh s Hi ltac:(eauto)) as Hs. destruct (inv_agents _ _ _ Hi i d Hd0) as [_ Hrest]. destruct (Hrest Hb) as [_ Hk].
  wp_call (tell_error_ok _ i sh s Errors.UnexpectedShutdown 0 Hs); [by rewrite (mask_at i s d Hd0) |]. intros _ s1 (Hs1 & Hm1 & _). apply st_bind.
  destruct (in_use_agent _ i sh s1 Hs1) as (d1 & Hd1 & _). apply (valid_at_ok i s1 d1); [done |]. apply st_bind.
  assert (Hgo : forall s2, in_use (busy ∪ {[i]}) i sh s2 -> wp (close_each agent_ops functions l) (fun _ s' => exists busy', inv busy' sh s') s2).
  { intros s2 [Hi2 _]. apply (IH (busy ∪ {[i]})); [done | done |]. intros j Hj. destruct (Hl j ltac:(by right)) as [Hjb Hjn]. split; [| done]. set_solver. }
  unfold when. destruct (agent_valid agent_ops (agent d1)); [| wp_run; by apply Hgo]. destruct n as [f c p]. pose proof (agent_at_well_behaved (busy ∪ {[i]}) i sh _ _ _ Hn) as W. wp_run.
  wp_call (on_event_ok (agent_at i) _ _ _ W Monitors.set_HangUp s1 Hs1); [done |]. intros _ s2 (Hs2 & Hm2).
  change (mask (agent_at i) s2 = Z.lor (mask (agent_at i) s1) HangUp) in Hm2. rewrite Hm1 in Hm2.
  wp_call (invoke_at_ok _ i sh s2 Hs2); [by rewrite Hm2 |]. intros _ s3 (Hs3 & _). by apply Hgo.
Qed.

Lemma close_alive_ok sh s : inv ∅ sh s -> consistent sh -> wp (close_alive agent_ops functions) (fun _ s' => _map s' = ∅ /\ _queue s' = []) s.
Proof.
  intros Hi Hc. assert (Em : _map s = sh_map sh) by (by destruct Hi as [_ <- _]). assert (Eq : _queue s = sh_queue sh) by (by destruct Hi as [_ <- _]).
  unfold close_alive. wp_run. rewrite Em. case_bool_decide as He.
  - wp_run. rewrite Em, Eq. split; [done |]. destruct (sh_queue sh) as [| [a [t f]] q] eqn:E; [done |].
    destruct (timer_of _ Hc a t f) as (i & c & Hn); [rewrite E; by left |]. assert (Hm : sh_map sh !! f = Some i) by (apply (keys _ Hc); eauto). by rewrite He in Hm.
  - destruct (in_order_ok sh 0 Hc) as [Hd _]. wp_run. wp_call (close_each_ok _ ∅ sh s Hi Hd).
    + intros i Hin. split; [set_solver |]. by apply in_order_ok.
    + intros _ s1 _. by wp_run.
Qed.

(** ** Any turns of the loop *)

Context (fixed_fun : ST unit).
Definition calm_task (m : ST unit) : Prop := forall sh s, inv ∅ sh s -> wp m (fun _ s' => inv ∅ sh s') s.

Definition turn_ok (t : turn (M := M) (A := A) (C := C)) : Prop :=
  match t with
  | AddChannel a c e => fresh_agent a /\ fd e = fd_of a /\ 0 < fd_of a
  | WeakUpChannel _ fun_ => wakes_politely fun_
  | SendToLoop m => calm_task m
  | _ => True
  end.

Definition at_peace s : Prop := exists sh, inv ∅ sh s /\ consistent sh.
Abbreviation exec_turn := (exec_turn agent_ops fd_of functions get_aliveEvent clock timeout fixed_fun).
Abbreviation run_turns := (run_turns agent_ops fd_of functions get_aliveEvent clock timeout fixed_fun).

Lemma reactor_new_ok : at_peace reactor_new.
Proof.
  destruct empty_ok as [Hm Hv]. exists (shape_of reactor_new). split; [by split |]. split; cbn; try done.
  - intros f i. rewrite lookup_empty. split; [done |]. intros (c & p & Hn). by rewrite fmap_empty, lookup_empty in Hn.
  - unfold watched_data. by rewrite Hv, fmap_empty.
  - constructor.
  - by intros x ?%elem_of_nil.
  - by intros a t f ?%elem_of_nil.
  - constructor.
  - by intros x ?%elem_of_nil.
Qed.

Lemma exec_turn_ok t s : calm_task fixed_fun -> turn_ok t -> at_peace s -> wp (exec_turn t) (fun _ s' => at_peace s') s.
Proof.
  intros Hfix Ht (sh & Hi & Hc). unfold at_peace. destruct t as [a c e | e | f fun_ | m | n]; cbn [Reactor.exec_turn].
  - destruct Ht as (Hfresh & Hf & Hpos). unfold add_channel. wp_run. apply st_assert; [apply andb_true_iff; split; [by apply Z.eqb_eq | by apply Z.ltb_lt] |].
    destruct (negb _); [wp_run; eauto |]. by apply (add_task_ok sh).
  - wp_call (update_channel_ok sh s e Hi Hc). eauto.
  - by apply (weak_up_channel_ok sh).
  - wp_call (Ht sh s Hi). eauto.
  - unfold distribute. wp_run. wp_call (Hfix sh s Hi). intros _ s1 Hi1. wp_run. wp_call (remove_timeouts_ok sh s1 Hi1 Hc). intros _ s2 (sh2 & Hi2 & Hc2 & _). wp_run.
    unfold when. destruct (negb _); [by apply (invoke_ok sh2) | wp_run; eauto].
Qed.

Lemma run_turns_ok ts s : calm_task fixed_fun -> Forall turn_ok ts -> at_peace s -> wp (run_turns ts) (fun _ s' => at_peace s') s.
Proof.
  intros Hfix Hts. revert s. induction Hts as [| t ts Ht _ IH]; intros s Hs; cbn [Reactor.run_turns]; wp_run; [done |].
  wp_call (exec_turn_ok t s Hfix Ht Hs). intros _ s1 Hs1. by apply IH.
Qed.

(** C9. Take a monitor that keeps the laws of [AliveLaws] (it reports each watched descriptor once,
    with a mask of known bits; [Poller] does, [Selector] does not, [selector_counts_bits]), and user
    functions that leave the reactor as they find it ([calm_task], [turn_ok], [users_polite]); the clock
    never goes back.  Whatever channels are added, updated and woken and however long agents are silent: no turn of the loop goes wrong (no iterator of an erased node or timer
    is used, no assertion fails), and between turns the map, the watched descriptors and the
    queue of timers have the same agents, the queue is in the order of time and every agent is
    valid.  The end of the loop then leaves nothing behind. *)
Theorem reactor_consistent ts : calm_task fixed_fun -> Forall turn_ok ts ->
  exists s, run_turns ts reactor_new = Ret (tt, s) /\ consistent (shape_of s) /\
    (forall i d, nodes s !! i = Some d -> agent_valid agent_ops (agent d) = true) /\
    exists s', close_alive agent_ops functions s = Ret (tt, s') /\ _map s' = ∅ /\ _queue s' = [].
Proof.
  intros Hfix Hts. destruct (proj1 (st_intro _ _ _) (run_turns_ok ts _ Hfix Hts reactor_new_ok)) as ([] & s & E & sh & Hi & Hc).
  exists s. split; [done |]. destruct (proj1 (st_intro _ _ _) (close_alive_ok sh s Hi Hc)) as ([] & s' & E' & Hend).
  destruct Hi as [_ <- Ha]. split_and!; [done | | by exists s']. intros i d Hd. destruct (Ha i d Hd) as [_ Hv]. apply Hv. set_solver.
Qed.

(** C36. At any time [remove_timeouts] takes out every agent that was silent for [timeout] and whose
    user does not handle errors, and keeps every agent that was not. *)
Theorem timeouts_exact ts : calm_task fixed_fun -> Forall turn_ok ts ->
  exists s s', run_turns ts reactor_new = Ret (tt, s) /\ remove_timeouts agent_ops fd_of functions clock timeout s = Ret (tt, s') /\
    forall i d, nodes s !! i = Some d -> exists a t, timer_iter d = Some a /\ (a, mkTimer t (key d)) ∈ _queue s /\
      (clock (instants s) - timeout < t -> node_shape <$> nodes s' !! i = Some (node_shape d)) /\
      (t <= clock (instants s) - timeout -> _errorFun (functions i (channel d)) = None -> nodes s' !! i = None).
Proof.
  intros Hfix Hts. destruct (proj1 (st_intro _ _ _) (run_turns_ok ts _ Hfix Hts reactor_new_ok)) as ([] & s & E & sh & Hi & Hc).
  destruct (proj1 (st_intro _ _ _) (remove_timeouts_ok sh s Hi Hc)) as ([] & s' & E' & sh' & Hi' & Hc' & Hkeep & Hgone).
  exists s, s'. split_and!; [done | done |]. intros i d Hd. pose proof (node_of_shape i sh s d ∅ Hi Hd) as Hn.
  destruct (timed _ Hc _ _ _ _ Hn) as (a & t & Ep & Hq). assert (Eq : _queue s = sh_queue sh) by (by destruct Hi as [_ <- _]).
  assert (Es : forall j, node_shape <$> nodes s' !! j = sh_nodes sh' !! j) by (intros j; destruct Hi' as [_ <- _]; cbn; by rewrite lookup_fmap).
  exists a, t. rewrite Eq. unfold node_shape in Hn. rewrite Ep in Hn. split_and!; [done | done | |].
  - intros Ht. rewrite Es. destruct (Hkeep i) as [-> | [_ (f & c & b & u & Hn' & Hq' & Hu)]]; [unfold node_shape; by rewrite Ep |].
    rewrite Hn in Hn'. injection Hn' as <- _ <-. pose proof (cells_functional _ _ _ _ (cells_nodup _ Hc) Hq Hq') as [= ->]. lia.
  - intros Ht Hf. rewrite Eq in Hgone. specialize (Hgone a t (key d) i (channel d) Hq Ht Hn Hf). rewrite <- Es in Hgone. by apply fmap_None in Hgone.
Qed.
End Safety.

(** ** Poller as the monitor of a reactor *)

(** What [poll] is documented to do: an answer for every entry, the number of entries with
    events; [POLLNVAL] is for descriptors that are not open. *)
Definition poll_law (poll : list Poller.pollfd -> Z -> Z * list Z) : Prop := forall fds t,
  length (poll fds t).2 = length fds /\ (poll fds t).1 <= zlen (filter (fun r => 0 < r) (poll fds t).2) /\ Forall (fun r => 0 < r -> known r) (poll fds t).2.

Definition reported (fds : list Poller.pollfd) (datas rs : list Z) : list Event :=
  omap (fun '(p, (d, r)) => if 0 <? r then Some (mkEvent (Poller.pfd p) r d) else None) (zip fds (zip datas rs)).

Lemma reported_ok fds : forall datas rs, length datas = length fds -> length rs = length fds -> NoDup (map Poller.pfd fds) -> Forall (fun r => 0 < r -> known r) rs ->
  zlen (reported fds datas rs) = zlen (filter (fun r => 0 < r) rs) /\ NoDup (map fd (reported fds datas rs)) /\
  Forall (fun e => fd e ∈ map Poller.pfd fds /\ known (event e) /\ exists v, (fd e, (v, extra_data e)) ∈ zip_with poller_cell fds datas) (reported fds datas rs).
Proof.
  induction fds as [| p fds IH]; intros [| d datas] [| r rs] Hd Hr Hn Hk; try done.
  cbn [map] in Hn. apply list.NoDup_cons in Hn as [Hp Hn]. apply list.Forall_cons in Hk as [Hkr Hk]. destruct (IH datas rs ltac:(cbn in *; lia) ltac:(cbn in *; lia) Hn Hk) as (Hl & Hnd & Hf).
  assert (Hrest : Forall (fun e => fd e ∈ map Poller.pfd (p :: fds) /\ known (event e) /\ exists v, (fd e, (v, extra_data e)) ∈ zip_with poller_cell (p :: fds) (d :: datas)) (reported fds datas rs)).
  { eapply list.Forall_impl; [exact Hf |]. intros e (H1 & H2 & v & H3). split_and!; [by right | done | exists v; by right]. }
  unfold reported in *. cbn [zip zip_with omap list_omap]. destruct (Z.ltb_spec 0 r) as [Hpos | Hneg].
  - rewrite filter_cons_True by done. cbn [map fd]. split_and!; [rewrite !zlen_cons; lia | |].
    + apply list.NoDup_cons. split; [| done]. intros (e & Ee & He)%list_elem_of_fmap. rewrite list.Forall_forall in Hf. apply Hp. rewrite Ee. by apply Hf.
    + apply list.Forall_cons. split; [| done]. cbn. split_and!; [by left | by apply Hkr | exists (Poller.events p); by left].
  - rewrite filter_cons_False by lia. by split_and!.
Qed.

Lemma poller_alive poll : poll_law poll -> AliveLaws Poller.t (fun t m => Poller.get_aliveEvent poll t [] m).
Proof.
  intros Hp. split. intros t m Hm. destruct (poll (Poller._fds m) t) as [n rs] eqn:E. destruct (Hp (Poller._fds m) t) as (Hl & Hn & Hk). rewrite E in Hl, Hn, Hk. cbn [fst snd] in *.
  destruct (Z.lt_ge_cases 0 n) as [Hpos | Hneg].
  - destruct (poller_reports poll t [] m n rs Hm E Hl Hpos) as (m' & Er & Hm' & Hv).
    assert (Hnd : NoDup (map Poller.pfd (Poller._fds m))) by (pose proof (poller_NoDup m Hm) as Hnd; by rewrite cells_fst in Hnd by apply Hm).
    destruct (reported_ok (Poller._fds m) (Poller._datas m) rs (proj1 Hm) Hl Hnd Hk) as (H1 & H2 & H3).
    eexists n, _, m'. split_and!; [exact Er | done | done | | exact H2 |]; cbn [app].
    + unfold reported in H1. lia.
    + eapply list.Forall_impl; [exact H3 |]. intros e (_ & H4 & v & H5). split; [done |].
      assert (Hx : poller_view m !! fd e = Some (v, extra_data e)) by (by apply poller_view_lookup). cbn. by rewrite Hx.
  - exists n, [], (Poller.set_revents rs m). destruct (set_revents_ok rs m Hm Hl) as [Hm' Hv]. split_and!; [| done | done | done | constructor | constructor].
    unfold Poller.get_aliveEvent. rewrite E. by rewrite (proj2 (Z.ltb_ge 0 n) Hneg).
Qed.

(** ** A concrete reactor

    Two agents over a [Poller]; the user of the first handles errors, that of the second does not.
    A turn takes 10 units of time, an agent may be silent for 25. *)
Module Demo.
Import Channel.Demo.
Definition demo_poll (fds : list Poller.pollfd) (t : Z) : Z * list Z :=
  let rs := map (fun p => Z.land (Poller.events p) 1) fds in (zlen (filter (fun r => 0 < r) rs), rs).
Lemma demo_poll_law : poll_law demo_poll.
Proof.
  intros fds t. cbn. split_and!; [apply length_map | done |]. rewrite list.Forall_forall. intros r (p & -> & _)%list_elem_of_fmap _.
  change 1 with (Z.ones 1). rewrite Z.land_ones by lia. unfold known. pose proof (Z.mod_pos_bound (Poller.events p) (2 ^ 1)). lia.
Qed.
#[global] Instance demo_alive : AliveLaws Poller.t (fun t m => Poller.get_aliveEvent demo_poll t [] m) := poller_alive demo_poll demo_poll_law.

Abbreviation demo_reactor := (Reactor Poller.t parrot bool).
Definition demo_functions (i : Z) (handles_errors : bool) : Channel demo_reactor :=
  mkChannel (Some (on_event (agent_at parrot_agent i) set_write)) None (if handles_errors then Some (mret tt) else None) None.
Definition parrot_fd (p : parrot) : Z := fd (parrot_event p).
Definition demo_clock (n : nat) : Z := 10 * Z.of_nat n.

Definition demo_parrot (fd : Z) (todo : list Z) : parrot := mkParrot (mkEvent fd 0 0) todo [] [] true.
Definition demo_turns : list (turn (M := Poller.t) (A := parrot) (C := bool)) :=
  [AddChannel (demo_parrot 5 [1; 2]) true (mkEvent 5 Read 0); AddChannel (demo_parrot 7 [3]) false (mkEvent 7 Write 0);
   Distribute 10; UpdateChannel (mkEvent 5 Write 0); WeakUpChannel 7 (fun i => mret tt); SendToLoop (mret tt)].
Abbreviation demo_run := (run_turns parrot_agent parrot_fd demo_functions (fun t m => Poller.get_aliveEvent demo_poll t [] m) demo_clock 25 (mret tt)).
Abbreviation demo_timeouts := (remove_timeouts (M := Poller.t) parrot_agent parrot_fd demo_functions demo_clock 25).
End Demo.

Lemma parrot_laws : well_behaved Channel.Demo.parrot_agent (mkChannel None None None None) (fun _ => True) (fun p => agent_valid Channel.Demo.parrot_agent p = false).
Proof.
  split; cbn; try done.
  - intros p _. wp_run. unfold id. destruct (Channel.Demo.todo p); wp_run; (split; [done |]); [by right | by left].
  - intros p _. wp_run. split; [done | by left].
  - intros p _. wp_run. split; [done |]. left. by left.
  - intros p _. wp_run. split; [done | by left].
  - intros p _. wp_run. split; [done | by left].
Qed.

Lemma demo_polite busy i sh f c p : sh_nodes sh !! i = Some (mkNode f c p) -> polite Channel.Demo.parrot_agent (fun _ => True) busy i (Demo.demo_functions i c) sh.
Proof.
  intros _. split; cbn [_readFun _writeFun _errorFun _closeFun Demo.demo_functions call].
  - intros s Hs. destruct (in_use_agent Channel.Demo.parrot_agent (fun _ => True) busy i sh s Hs) as (d & Hd & _). unfold on_event. wp_run.
    split; [by apply (change_agent_in_use Channel.Demo.parrot_agent (fun _ => True) busy _ i sh s d) |]. right. left.
    unfold mask. cbn. unfold agent_in. cbn. by rewrite lookup_alter_eq, Hd.
  - intros s Hs. wp_run. split; [done | by left].
  - intros s Hs. destruct c; cbn; wp_run; (split; [done | by left]).
  - intros s Hs. by wp_run.
Qed.

Lemma demo_calm : calm_task Channel.Demo.parrot_agent (fun _ => True) (mret tt : StateMonad.ST (Reactor Poller.t Channel.Demo.parrot bool) unit).
Proof. intros sh s Hs. by wp_run. Qed.

Lemma demo_turns_ok : Forall (turn_ok Channel.Demo.parrot_agent Demo.parrot_fd (fun _ => True)) Demo.demo_turns.
Proof.
  unfold Demo.demo_turns. rewrite !list.Forall_cons. unfold turn_ok, fresh_agent, known. cbn. split_and!; try done. exact demo_calm.
Qed.

Lemma demo_clock_mono n : Demo.demo_clock n <= Demo.demo_clock (S n).
Proof. unfold Demo.demo_clock. lia. Qed.

Lemma reactor_consistent_witness : exists s, Demo.demo_run Demo.demo_turns reactor_new = Ret (tt, s) /\ consistent Demo.demo_clock (shape_of s) /\
  (forall i d, nodes s !! i = Some d -> agent_valid Channel.Demo.parrot_agent (agent d) = true) /\
  exists s', close_alive Channel.Demo.parrot_agent Demo.demo_functions s = Ret (tt, s') /\ _map s' = ∅ /\ _queue s' = [].
Proof.
  apply (reactor_consistent Channel.Demo.parrot_agent Demo.parrot_fd Demo.demo_functions Demo.demo_clock 25 (fun _ => True) demo_clock_mono parrot_laws demo_polite (mret tt) Demo.demo_turns demo_calm demo_turns_ok).
Defined.

Lemma timeouts_exact_witness : exists s s', Demo.demo_run Demo.demo_turns reactor_new = Ret (tt, s) /\ Demo.demo_timeouts s = Ret (tt, s') /\
  forall i d, nodes s !! i = Some d -> exists a t, timer_iter d = Some a /\ (a, mkTimer t (key d)) ∈ _queue s /\
    (Demo.demo_clock (instants s) - 25 < t -> node_shape <$> nodes s' !! i = Some (node_shape d)) /\
    (t <= Demo.demo_clock (instants s) - 25 -> _errorFun (Demo.demo_functions i (channel d)) = None -> nodes s' !! i = None).
Proof.
  apply (timeouts_exact Channel.Demo.parrot_agent Demo.parrot_fd Demo.demo_functions Demo.demo_clock 25 (fun _ => True) demo_clock_mono parrot_laws demo_polite (mret tt) Demo.demo_turns demo_calm demo_turns_ok).
Defined.

(** The first agent hears and answers; the second is not asked and goes after the timeout. *)
Definition watched_fds (r : res (unit * Reactor Poller.t Channel.Demo.parrot bool)) : list Z :=
  match r with Ret (_, s) => map fst (map_to_list (_map s)) | Fault _ => [] end.
Example reactor_runs :
  watched_fds (Demo.demo_run Demo.demo_turns reactor_new) = [7; 5] /\
  watched_fds (Demo.demo_run (Demo.demo_turns ++ [Distribute 10]) reactor_new) = [5].
Proof. vm_compute. auto. Qed.

(** [select] counts a descriptor that can be read and written twice: a [Selector] then says two
    events and gives one, and [invoke] goes on behind the end of the list. *)
Definition both_ready (ndfs : Z) (r w x : option (gset Z)) (t : option Selector.timeval) : Z * (gset Z * gset Z * gset Z) := (2, ({[5]}, {[5]}, ∅)).
Example selector_counts_bits :
  match Selector.add_fd (mkEvent 5 (Z.lor Read Write) 0) Selector.empty with
  | Ret (_, m) => let '(n, l) := Selector.get_aliveEvent both_ready 10 [] m in (n, length l)
  | Fault _ => (0, 0%nat)
  end = (2, 1%nat).
Proof. vm_compute. reflexivity. Qed.
