(* ===== verification/ScheduledThread.v ===== *)
(** * ScheduledThread: periodic tasks on one thread (Base/ScheduledThread.hpp, Base/src/ScheduledThread.cpp)

    Objects ([Scheduler]) are registered with a thread; tasks for them are submitted from any
    thread and invoked in turn, and objects without tasks are asked to flush once a period.  What
    [_mutex] guards is one step; the thread keeps iterators to the nodes of [_schedulers] while
    it does not hold the lock.  An iterator is the address of a node (Links.v).  The timed wait
    may return at any moment, with or without a notification.

    [std::vector] grows by doubling, as in libstdc++; this matters for [set_need_flush]. *)

From stdpp Require Import gmap relations.
From S2P Require Import Prelude Links.
Local Open Scope Z_scope.

Record Scheduler := mkSched { waiting_tasks : Z; need_flush : bool; sched_shutdown : bool; self_location : ptr }.

Record Task (A : Type) := mkTask { task_iter : ptr; arg : A }.
Arguments mkTask {A}. Arguments task_iter {A}. Arguments arg {A}.

(** Where [invoke()] returns to: the timed wait, the flush after it, or the rest of [flush_need]. *)
Inductive continuation :=
  | ToTimed
  | ToNeed
  | ToFlush (rest : list ptr).

(** Where the thread is. [To_sleep]: the test of [wait_if_no_scheduler] failed and the lock is still held.
    [Sub]: a task was invoked and is not counted out yet. *)
Inductive place (A : Type) :=
  | Check
  | Test_none
  | To_sleep
  | Sleep_none
  | After_none
  | Timed
  | Invoke (rest : list (Task A)) (k : continuation)
  | Sub (t : Task A) (rest : list (Task A)) (k : continuation)
  | Get_need
  | Flush (rest : list ptr)
  | Set_need
  | Closing
  | Done.
Arguments Check {A}. Arguments Test_none {A}. Arguments To_sleep {A}. Arguments Sleep_none {A}. Arguments After_none {A}. Arguments Timed {A}.
Arguments Invoke {A}. Arguments Sub {A}. Arguments Get_need {A}. Arguments Flush {A}. Arguments Set_need {A}. Arguments Closing {A}. Arguments Done {A}.

(** [objects]: the schedulers by name; [submitted] and [ran] are not in the code; [notified] and
    [late] as in EventLoop.v. *)
Record ScheduledThread (A : Type) := mkThread {
  shutdown : bool;
  _schedulers : cells_of nat;
  _ready : list (Task A);
  _invoking : list (Task A);
  need_flushes : list ptr; capacity : nat;
  objects : gmap nat Scheduler; next_cell : positive;
  at_place : place A; notified : bool; late : nat;
  submitted : list (Task A); ran : list (Task A) }.
Arguments mkThread {A}. Arguments shutdown {A}. Arguments _schedulers {A}. Arguments _ready {A}. Arguments _invoking {A}.
Arguments need_flushes {A}. Arguments capacity {A}. Arguments objects {A}. Arguments next_cell {A}. Arguments at_place {A}.
Arguments notified {A}. Arguments late {A}. Arguments submitted {A}. Arguments ran {A}.

Section Thread.
Context {A : Type}.
Abbreviation state := (ScheduledThread A).
Implicit Types (s : state) (o : nat) (t : Task A) (p : ptr).

Definition go pl s : state := mkThread (shutdown s) (_schedulers s) (_ready s) (_invoking s) (need_flushes s) (capacity s) (objects s) (next_cell s) pl (notified s) (late s) (submitted s) (ran s).
Definition set_queues r i s : state := mkThread (shutdown s) (_schedulers s) r i (need_flushes s) (capacity s) (objects s) (next_cell s) (at_place s) (notified s) (late s) (submitted s) (ran s).
Definition set_need v c s : state := mkThread (shutdown s) (_schedulers s) (_ready s) (_invoking s) v c (objects s) (next_cell s) (at_place s) (notified s) (late s) (submitted s) (ran s).
Definition set_schedulers l m s : state := mkThread (shutdown s) l (_ready s) (_invoking s) (need_flushes s) (capacity s) m (next_cell s) (at_place s) (notified s) (late s) (submitted s) (ran s).
Definition set_objects m s : state := set_schedulers (_schedulers s) m s.
Definition set_notified b s : state := mkThread (shutdown s) (_schedulers s) (_ready s) (_invoking s) (need_flushes s) (capacity s) (objects s) (next_cell s) (at_place s) b (late s) (submitted s) (ran s).
Definition set_shutdown n s : state := mkThread true (_schedulers s) (_ready s) (_invoking s) (need_flushes s) (capacity s) (objects s) (next_cell s) (at_place s) (notified s) n (submitted s) (ran s).
Definition set_late n s : state := mkThread (shutdown s) (_schedulers s) (_ready s) (_invoking s) (need_flushes s) (capacity s) (objects s) (next_cell s) (at_place s) (notified s) n (submitted s) (ran s).
Definition record_ran (l : list (Task A)) s : state := mkThread (shutdown s) (_schedulers s) (_ready s) (_invoking s) (need_flushes s) (capacity s) (objects s) (next_cell s) (at_place s) (notified s) (late s) (submitted s) (ran s ++ l).

Definition scheduled_thread : state := mkThread false [] [] [] [] 0 ∅ 1 Check false 0 [] [].

(** [**iter]: the object a node points to. *)
Definition deref p s : res (nat * Scheduler) :=
  match p with
  | None => Fault BadPointer
  | Some a =>
      o ← of_option (snd <$> List.find (fun c => bool_decide (fst c = a)) (_schedulers s)) BadPointer;
      x ← of_option (objects s !! o) BadPointer;
      Ret (o, x)
  end.

Definition with_waiting n (x : Scheduler) : Scheduler := mkSched n (need_flush x) (sched_shutdown x) (self_location x).
Definition with_flags f d (x : Scheduler) : Scheduler := mkSched (waiting_tasks x) f d (self_location x).

(** ** The calls of other threads, under the lock *)

Definition notify_one s : state := match at_place s with Sleep_none => set_notified true s | _ => s end.

Definition add_scheduler o s : state :=
  if shutdown s then s else
  let a := next_cell s in
  notify_one (mkThread (shutdown s) (_schedulers s ++ [(a, o)]) (_ready s) (_invoking s) (need_flushes s) (capacity s)
    (<[o := mkSched 0 true false (Some a)]> (objects s)) (Pos.succ a) (at_place s) (notified s) (late s) (submitted s) (ran s)).

Definition remove_scheduler o s : state :=
  if shutdown s then s else set_objects (alter (with_flags false true) o (objects s)) s.

(** [_ready.push_back(...)], the counter and the notification; [d]: the scheduler is to go. *)
Definition push_task o (x : Scheduler) (d : bool) (v : A) s : state :=
  let t := mkTask (self_location x) v in
  notify_one (mkThread (shutdown s) (_schedulers s) (_ready s ++ [t]) (_invoking s) (need_flushes s) (capacity s)
    (<[o := mkSched (waiting_tasks x + 1) false (d || sched_shutdown x) (self_location x)]> (objects s))
    (next_cell s) (at_place s) (notified s) (late s) (submitted s ++ [t]) (ran s)).

Definition remove_scheduler_and_invoke o x (v : A) s : state := if shutdown s then s else push_task o x true v s.
Definition submit_task o x (v : A) s : state := push_task o x false v s.

(** ** The thread *)

(** [push_back] onto a vector with [n] elements and room for [cap]. *)
Definition grow (n cap : nat) : nat := if decide (n < cap)%nat then cap else Nat.max 1 (2 * cap).

Definition push_back p (v : list ptr * nat) : list ptr * nat := (v.1 ++ [p], grow (length v.1) v.2).

Fixpoint get_need_flush (l : cells_of nat) (m : gmap nat Scheduler) (v : list ptr * nat) : res (list ptr * nat) :=
  match l with
  | [] => Ret v
  | (a, o) :: l =>
      x ← of_option (m !! o) BadPointer;
      get_need_flush l m (if need_flush x then push_back (Some a) v else v)
  end.

(** The loop of [set_need_flush]: what is left of the list, and the objects. *)
Fixpoint set_need_loop (l : cells_of nat) (m : gmap nat Scheduler) : res (cells_of nat * gmap nat Scheduler) :=
  match l with
  | [] => Ret ([], m)
  | (a, o) :: l =>
      x ← of_option (m !! o) BadPointer;
      if sched_shutdown x then
        '(l, m) ← set_need_loop l m;
        Ret (if waiting_tasks x =? 0 then (l, m) else ((a, o) :: l, m))
      else
        '(l, m) ← set_need_loop l (<[o := with_flags true false x]> m);
        Ret ((a, o) :: l, m)
  end.

(** [v.resize(n)]. *)
Definition resize (n : nat) (v : list ptr) : list ptr := take n v ++ replicate (n - length v) None.

Definition set_need_flush s : res state :=
  let n := (length (_schedulers s) * 4)%nat in
  let v := if decide (n < capacity s)%nat then resize n (need_flushes s) else need_flushes s in
  '(l, m) ← set_need_loop (_schedulers s) (objects s);
  Ret (set_schedulers l m (set_need v (capacity s) s)).

Definition after (k : continuation) : place A := match k with ToTimed => Timed | ToNeed => Get_need | ToFlush rest => Flush rest end.

(** [closing]: the first loop starts at the end; what is left is invoked under the lock. *)
Fixpoint close_tasks (l : list (Task A)) s : res state :=
  match l with
  | [] => Ret s
  | t :: l => deref (task_iter t) s;; close_tasks l (record_ran [t] s)
  end.

(** One step; [again]: what the timed wait returns. *)
Definition thread_step (again : bool) s : res (option state) :=
  match at_place s with
  | Check => Ret (Some (go (if shutdown s then Closing else Test_none) s))
  | Test_none => Ret (Some (go (if negb (bool_decide (_schedulers s = [])) || shutdown s then After_none else To_sleep) s))
  | To_sleep => Ret (Some (go Sleep_none s))
  | Sleep_none => Ret (if notified s then Some (go Test_none (set_notified false s)) else None)
  | After_none => Ret (Some (go (if shutdown s then Closing else Timed) s))
  | Timed =>
      let k := if again && negb (shutdown s) then ToTimed else ToNeed in
      Ret (Some (go (Invoke (_ready s) k) (set_queues (_invoking s) (_ready s) s)))
  | Invoke [] k => Ret (Some (go (after k) (set_queues (_ready s) [] s)))
  | Invoke (t :: rest) k => deref (task_iter t) s;; Ret (Some (go (Sub t rest k) (record_ran [t] s)))
  | Sub t rest k =>
      '(o, x) ← deref (task_iter t) s;
      Ret (Some (go (Invoke rest k) (set_objects (<[o := with_waiting (waiting_tasks x - 1) x]> (objects s)) s)))
  | Get_need =>
      '(v, c) ← get_need_flush (_schedulers s) (objects s) (need_flushes s, capacity s);
      Ret (Some (go (Flush v) (set_need v c s)))
  | Flush [] => Ret (Some (go Set_need (set_need [] (capacity s) s)))
  | Flush (p :: rest) =>
      '(o, x) ← deref p s;
      Ret (Some (if waiting_tasks x =? 0 then go (Flush rest) s
                 else go (Invoke (_ready s) (ToFlush rest)) (set_queues (_invoking s) (_ready s) s)))
  | Set_need => s ← set_need_flush s; Ret (Some (go Check s))
  | Closing => s ← close_tasks (_ready s) s; Ret (Some (go Done s))
  | Done => Ret None
  end.

(** ** Any number of other threads

    An object is added once; tasks are submitted for it, and it is removed, while it is in use. *)

Definition in_use o x s : Prop := objects s !! o = Some x /\ is_null (self_location x) = false /\ sched_shutdown x = false.

(** At most [limit] schedulers at a time.  Nobody else gets the lock between a test that fails
    and the sleep; [shutdown_thread] does not take it. *)
Context (limit : nat).
Inductive client_step s : state -> Prop :=
  | client_add o : at_place s <> To_sleep -> objects s !! o = None -> (length (_schedulers s) < limit)%nat -> client_step s (add_scheduler o s)
  | client_remove o x : at_place s <> To_sleep -> in_use o x s -> client_step s (remove_scheduler o s)
  | client_remove_invoke o x v : at_place s <> To_sleep -> in_use o x s -> client_step s (remove_scheduler_and_invoke o x v s)
  | client_submit o x v : at_place s <> To_sleep -> in_use o x s -> client_step s (submit_task o x v s)
  | client_shutdown : client_step s (set_shutdown (S (late s)) s)
  | client_notify n : late s = S n -> client_step s (notify_one (set_late n s))
  | client_spurious : at_place s = Sleep_none -> client_step s (set_notified true s).

Inductive step s s' : Prop :=
  | step_thread again : thread_step again s = Ret (Some s') -> step s s'
  | step_client : client_step s s' -> step s s'.

Definition reachable s : Prop := rtc step scheduled_thread s.

(** ** Every task once, and no node after it was erased *)

Definition pending (pl : place A) : list (Task A) := match pl with Invoke rest _ | Sub _ rest _ => rest | _ => [] end.
Definition opened (pl : place A) : list (Task A) := match pl with Sub t _ _ => [t] | _ => [] end.
Definition needs (pl : place A) : list ptr := match pl with Flush rest | Invoke _ (ToFlush rest) | Sub _ _ (ToFlush rest) => rest | _ => [] end.
Definition owed s : list (Task A) := opened (at_place s) ++ pending (at_place s) ++ _ready s.
Definition count (a : positive) (l : list (Task A)) : Z := Z.of_nat (length (List.filter (fun t => bool_decide (task_iter t = Some a)) l)).

Lemma tasks_count_app a l l' : count a (l ++ l') = count a l + count a l'.
Proof. unfold count. rewrite List.filter_app, length_app. lia. Qed.
Lemma tasks_count_one a t : count a [t] = if decide (task_iter t = Some a) then 1 else 0.
Proof. unfold count. cbn. rewrite <- decide_bool_decide. by case_decide. Qed.
Lemma tasks_count_cons a t l : count a (t :: l) = (if decide (task_iter t = Some a) then 1 else 0) + count a l.
Proof. change (t :: l) with ([t] ++ l). by rewrite tasks_count_app, tasks_count_one. Qed.
Lemma count_none a l : (forall t, t ∈ l -> task_iter t <> Some a) <-> count a l = 0.
Proof.
  induction l as [| t l IH]; [split; [done | by intros _ t ?%elem_of_nil] |]. rewrite tasks_count_cons.
  assert (0 <= count a l) by (unfold count; lia). split.
  - intros Ht. rewrite decide_False by (apply Ht; by left). apply IH. intros t' Ht'. apply Ht. by right.
  - case_decide as Hd; [lia |]. intros E t' [-> | Ht']%elem_of_cons; [done |]. apply IH; [lia | done].
Qed.

(** The list, its objects and the tasks [l] that are owed. *)
Record core (q : cells_of nat) (m : gmap nat Scheduler) (next : positive) (l : list (Task A)) : Prop := {
  cells_once : NoDup (map fst q);
  objects_once : NoDup (map snd q);
  cells_old a o : (a, o) ∈ q -> (a < next)%positive;
  known_objects a o : (a, o) ∈ q -> exists x, m !! o = Some x /\ self_location x = Some a /\ waiting_tasks x = count a l;
  usable o x a : m !! o = Some x -> sched_shutdown x = false -> self_location x = Some a -> (a, o) ∈ q;
  tasks_here t : t ∈ l -> exists a o, task_iter t = Some a /\ (a, o) ∈ q }.

Lemma core_permute q m next l l' : core q m next l -> (forall a, count a l' = count a l) -> (forall t, t ∈ l' -> t ∈ l) -> core q m next l'.
Proof.
  intros [H1 H2 H3 H4 H5 H6] Hc Hin. split; try done; [| intros t Ht; by apply H6, Hin]. intros a o Ha. rewrite Hc. by apply H4.
Qed.

Lemma other_cell (q : cells_of nat) a b o o' : NoDup (map snd q) -> NoDup (map fst q) -> (a, o) ∈ q -> (b, o') ∈ q -> o <> o' -> a <> b.
Proof. intros _ Hf Ha Hb Hne ->. apply Hne. by eapply cells_functional. Qed.

Lemma same_object (q : cells_of nat) a b o : NoDup (map snd q) -> (a, o) ∈ q -> (b, o) ∈ q -> a = b.
Proof.
  intros Hn Ha Hb. induction q as [| [c n] q IH]; [by apply elem_of_nil in Ha |]. cbn [map snd] in Hn. apply list.NoDup_cons in Hn as [Hx Hn].
  assert (Hin : forall c, (c, o) ∈ q -> o ∈ map snd q) by (intros c' Hc; by apply (list_elem_of_fmap_2 snd q (c', o))).
  apply elem_of_cons in Ha as [E | Ha]; apply elem_of_cons in Hb as [E' | Hb]; simplify_eq; [done | | | by apply IH].
  - by destruct Hx; eapply Hin.
  - by destruct Hx; eapply Hin.
Qed.

(** Counting a task of [o] in or out. *)
Lemma core_count q m next l l' a o x y : core q m next l -> (a, o) ∈ q -> m !! o = Some x ->
  self_location y = Some a -> waiting_tasks y = count a l' -> (sched_shutdown y = false -> sched_shutdown x = false) ->
  (forall b, b <> a -> count b l' = count b l) -> (forall t, t ∈ l' -> t ∈ l \/ task_iter t = Some a) -> core q (<[o := y]> m) next l'.
Proof.
  intros [H1 H2 H3 H4 H5 H6] Ha Hm Hl Hw Hsh Hc Hin. split; try done.
  - intros b o' Hb. destruct (decide (o' = o)) as [-> | Hne].
    + rewrite lookup_insert_eq. exists y. split_and!; [done | |]; by rewrite (same_object _ _ _ _ H2 Hb Ha).
    + rewrite lookup_insert_ne by done. rewrite Hc by (by eapply other_cell). by apply H4.
  - intros o' x' b Hx' Hf Hb. destruct (decide (o' = o)) as [-> | Hne].
    + rewrite lookup_insert_eq in Hx'. injection Hx' as <-. by rewrite Hl in Hb; injection Hb as <-.
    + rewrite lookup_insert_ne in Hx' by done. by eapply H5.
  - intros t Ht. destruct (Hin t Ht) as [Hold | Hnew]; [by apply H6 | by exists a, o].
Qed.

Definition still (q : cells_of nat) p : Prop := exists a o, p = Some a /\ (a, o) ∈ q.

(** What holds until the thread has ended. *)
Record live s : Prop := {
  live_core : core (_schedulers s) (objects s) (next_cell s) (owed s);
  live_once : submitted s = ran s ++ pending (at_place s) ++ _ready s;
  live_needs p : p ∈ needs (at_place s) -> still (_schedulers s) p;
  live_empty : match at_place s with Flush _ | Invoke _ (ToFlush _) | Sub _ _ (ToFlush _) => True | _ => need_flushes s = [] end;
  live_invoking : match at_place s with Invoke _ _ | Sub _ _ _ => True | _ => _invoking s = [] end;
  live_asleep : at_place s = To_sleep \/ at_place s = Sleep_none /\ notified s = false -> _schedulers s = [] }.

(** The capacities of a vector that never had more than four elements. *)
Definition room_ok (c : nat) : Prop := c = 0%nat \/ c = 1%nat \/ c = 2%nat \/ c = 4%nat.

Record inv s : Prop := {
  inv_live : at_place s <> Done -> live s;
  inv_once : at_place s = Done -> ran s `prefix_of` submitted s;
  inv_few : (length (_schedulers s) <= limit)%nat;
  inv_room : room_ok (capacity s);
  inv_notified : notified s = true -> at_place s = Sleep_none }.

Lemma inv_new : inv scheduled_thread.
Proof.
  split; try done; cbn; try lia; [| by left]. intros _. split; try done; [| cbn; by intros p ?%elem_of_nil]. split; cbn; try done; try apply NoDup_nil_2; try (by intros ? ? ?%elem_of_nil).
  by intros t ?%elem_of_nil.
Qed.

Lemma deref_ok s p l : core (_schedulers s) (objects s) (next_cell s) l -> still (_schedulers s) p ->
  exists a o x, p = Some a /\ (a, o) ∈ _schedulers s /\ objects s !! o = Some x /\ deref p s = Ret (o, x).
Proof.
  intros Hc (a & o & -> & Ha). destruct (known_objects _ _ _ _ Hc a o Ha) as (x & Hx & _). exists a, o, x. split_and!; [done | done | done |].
  unfold deref. rewrite (find_node _ a o (cells_once _ _ _ _ Hc) Ha). cbn. by rewrite Hx.
Qed.

(** ** The steps of the others *)

Lemma notify_live s : (notified s = true -> at_place s = Sleep_none) ->
  (at_place s <> Done -> core (_schedulers s) (objects s) (next_cell s) (owed s) /\ submitted s = ran s ++ pending (at_place s) ++ _ready s /\
    (forall p, p ∈ needs (at_place s) -> still (_schedulers s) p) /\
    match at_place s with Flush _ | Invoke _ (ToFlush _) | Sub _ _ (ToFlush _) => True | _ => need_flushes s = [] end /\
    match at_place s with Invoke _ _ | Sub _ _ _ => True | _ => _invoking s = [] end /\ (at_place s = To_sleep -> _schedulers s = [])) ->
  (at_place s = Done -> ran s `prefix_of` submitted s) -> (length (_schedulers s) <= limit)%nat -> room_ok (capacity s) -> inv (notify_one s).
Proof.
  intros Hn Hl Hp Hf Hr. unfold notify_one. destruct (at_place s) eqn:E; split; cbn; rewrite ?E; try done;
    intros Hne; destruct (Hl Hne) as (H1 & H2 & H3 & H4 & H5 & H6); split; cbn; rewrite ?E; try done;
    (intros [Hx | [Hx Hy]]; first [done | by apply H6]).
Qed.

Lemma add_scheduler_inv o s : inv s -> at_place s <> To_sleep -> objects s !! o = None -> (length (_schedulers s) < limit)%nat -> inv (add_scheduler o s).
Proof.
  intros [Hl Ho Hf Hr Hn] Hp Hnew Hlim. unfold add_scheduler. destruct (shutdown s); [by split |]. apply notify_live; cbn; [done | | done | rewrite length_app; cbn; lia | done].
  intros Hne. destruct (Hl Hne) as [Hc H2 H3 H4 H5 _]. split_and!; [| done | | done | done | done].
  - destruct Hc as [C1 C2 C3 C4 C5 C6]. assert (Hfresh : forall a, (a, o) ∉ _schedulers s) by (intros a Ha; destruct (C4 _ _ Ha) as (x & Hx & _); congruence).
    assert (Hnone : count (next_cell s) (owed s) = 0).
    { apply count_none. intros t Ht E. destruct (C6 t Ht) as (a & o' & Ea & Ha). rewrite E in Ea. injection Ea as <-. specialize (C3 _ _ Ha). lia. }
    unfold owed in *. cbn. split.
    + rewrite map_app. apply list.NoDup_app. split_and!; [done | | apply NoDup_singleton]. intros a ([b o'] & -> & Hb)%list_elem_of_fmap Hs%list_elem_of_singleton. cbn in Hs. subst b. specialize (C3 _ _ Hb). lia.
    + rewrite map_app. apply list.NoDup_app. split_and!; [done | | apply NoDup_singleton]. intros o' ([b o''] & -> & Hb)%list_elem_of_fmap Hs%list_elem_of_singleton. cbn in Hs. subst o''. by apply Hfresh in Hb.
    + intros a o' [Ha | [= -> ->]%list_elem_of_singleton]%elem_of_app; [specialize (C3 _ _ Ha); lia | lia].
    + intros a o' [Ha | [= -> ->]%list_elem_of_singleton]%elem_of_app.
      * destruct (decide (o' = o)) as [-> | Hd]; [by apply Hfresh in Ha |]. rewrite lookup_insert_ne by done. by apply C4.
      * rewrite lookup_insert_eq. by eexists.
    + intros o' x a Hx Hs Ha. apply elem_of_app. destruct (decide (o' = o)) as [-> | Hd].
      * rewrite lookup_insert_eq in Hx. injection Hx as <-. injection Ha as <-. right. by left.
      * rewrite lookup_insert_ne in Hx by done. left. by eapply C5.
    + intros t Ht. destruct (C6 t Ht) as (a & o' & Ea & Ha). exists a, o'. split; [done |]. apply elem_of_app. by left.
  - intros p Hin. destruct (H3 p Hin) as (a & o' & -> & Ha). exists a, o'. split; [done |]. apply elem_of_app. by left.
Qed.

Lemma remove_scheduler_inv o x s : inv s -> at_place s <> To_sleep -> in_use o x s -> inv (remove_scheduler o s).
Proof.
  intros [Hl Ho Hf Hr Hn] Hp (Hx & Hloc & Hsh). unfold remove_scheduler. destruct (shutdown s); [by split |]. split; cbn; try done.
  intros Hne. destruct (Hl Hne) as [Hc H2 H3 H4 H5 H6]. split; cbn; try done. destruct (self_location x) as [a |] eqn:Ea; [| done].
  pose proof (usable _ _ _ _ Hc o x a Hx Hsh Ea) as Ha. replace (alter _ o (objects s)) with (<[o := with_flags false true x]> (objects s)).
  - destruct (known_objects _ _ _ _ Hc a o Ha) as (x' & Hx' & _ & Hw). rewrite Hx in Hx'. injection Hx' as <-.
    eapply core_count; [exact Hc | exact Ha | exact Hx | done | done | done | done | by left].
  - apply map_eq. intros o'. destruct (decide (o = o')) as [<- | Hd]; [by rewrite lookup_insert_eq, lookup_alter_eq, Hx | by rewrite lookup_insert_ne, lookup_alter_ne].
Qed.

Lemma push_task_inv o x d v s : inv s -> at_place s <> To_sleep -> in_use o x s -> inv (push_task o x d v s).
Proof.
  intros [Hl Ho Hf Hr Hn] Hp (Hx & Hloc & Hsh). unfold push_task. apply notify_live; cbn; [done | | | done | done].
  - intros Hne. destruct (Hl Hne) as [Hc H2 H3 H4 H5 _]. destruct (self_location x) as [a |] eqn:Ea; [| done].
    pose proof (usable _ _ _ _ Hc o x a Hx Hsh Ea) as Ha. destruct (known_objects _ _ _ _ Hc a o Ha) as (x' & Hx' & _ & Hw). rewrite Hx in Hx'. injection Hx' as <-.
    split_and!; [| by rewrite H2, !app_assoc | done | done | done | done]. unfold owed. cbn. rewrite !app_assoc.
    eapply core_count; [exact Hc | exact Ha | exact Hx | done | | done | |]; cbn.
    + rewrite Hw. unfold owed. rewrite !tasks_count_app, tasks_count_one. cbn. rewrite decide_True by done. lia.
    + intros b Hb. unfold owed. rewrite !tasks_count_app, tasks_count_one. cbn. rewrite decide_False by congruence. lia.
    + intros t. unfold owed. rewrite !elem_of_app, list_elem_of_singleton. intros [Ht | ->]; [left; tauto | by right].
  - intros E. by apply prefix_app_r, Ho.
Qed.

Lemma client_inv s s' : inv s -> client_step s s' -> inv s'.
Proof.
  intros Hi Hs. destruct Hs as [o Hp Ho Hl | o x Hp Hx | o x v Hp Hx | o x v Hp Hx | | n Hl | Hp].
  - by apply add_scheduler_inv.
  - by eapply remove_scheduler_inv.
  - unfold remove_scheduler_and_invoke. destruct (shutdown s); [done |]. by apply push_task_inv.
  - by apply push_task_inv.
  - destruct Hi as [Hl Ho Hf Hr Hn]. split; cbn; try done. intros Hne. by destruct (Hl Hne); split.
  - destruct Hi as [Hl' Ho Hf Hr Hn]. apply notify_live; cbn; try done. intros Hne. destruct (Hl' Hne) as [? ? ? ? ? Hs]. split_and!; try done. intros E. apply Hs. by left.
  - destruct Hi as [Hl Ho Hf Hr Hn]. split; cbn; try done. intros Hne. destruct (Hl Hne) as [H1 H2 H3 H4 H5 _]. split; cbn; try done.
    intros [E | [_ E]]; [congruence | done].
Qed.

(** ** The steps of the thread *)

Lemma grow_ok n c : room_ok c -> (n < 4)%nat -> room_ok (grow n c).
Proof. unfold room_ok, grow. intros [-> | [-> | [-> | ->]]] Hn; case_decide; cbn; lia. Qed.

Lemma get_need_flush_ok l m : forall v c, (forall a o, (a, o) ∈ l -> is_Some (m !! o)) -> room_ok c -> (length v + length l <= 4)%nat ->
  exists w c', get_need_flush l m (v, c) = Ret (v ++ w, c') /\ room_ok c' /\ forall p, p ∈ w -> still l p.
Proof.
  induction l as [| [a o] l IH]; intros v c Hm Hc Hlen; cbn [get_need_flush]; [exists [], c; rewrite app_nil_r; split_and!; [done | done | by intros p ?%elem_of_nil] |].
  destruct (Hm a o ltac:(by left)) as [x Hx]. rewrite Hx. cbn [of_option]. rewrite bind_ret. cbn [length] in Hlen.
  assert (Hm' : forall b o', (b, o') ∈ l -> is_Some (m !! o')) by (intros b o' Hb; apply (Hm b); by right).
  assert (Hstill : forall p, still l p -> still ((a, o) :: l) p) by (intros p (b & o' & -> & Hb); exists b, o'; split; [done | by right]).
  destruct (need_flush x).
  - unfold push_back. cbn [fst snd]. destruct (IH (v ++ [Some a]) (grow (length v) c) Hm') as (w & c' & E & Hc' & Hw); [apply grow_ok; [done | lia] | rewrite length_app; cbn; lia |].
    exists (Some a :: w), c'. split_and!; [etrans; [exact E | by rewrite <- app_assoc] | done |]. intros p [-> | Hp]%elem_of_cons; [exists a, o; split; [done | by left] | by apply Hstill, Hw].
  - destruct (IH v c Hm' Hc ltac:(lia)) as (w & c' & E & Hc' & Hw). exists w, c'. rewrite E. split_and!; [done | done |]. intros p Hp. by apply Hstill, Hw.
Qed.

Definition same x x' : Prop := waiting_tasks x' = waiting_tasks x /\ sched_shutdown x' = sched_shutdown x /\ self_location x' = self_location x.
Definition same_objects (m m' : gmap nat Scheduler) : Prop := forall o, option_Forall2 same (m !! o) (m' !! o).

Lemma same_objects_refl m : same_objects m m.
Proof. intros o. destruct (m !! o); by constructor. Qed.

Lemma set_need_loop_ok l : forall m, NoDup (map snd l) -> (forall a o, (a, o) ∈ l -> is_Some (m !! o)) ->
  exists l' m', set_need_loop l m = Ret (l', m') /\ l' `sublist_of` l /\ same_objects m m' /\
    forall a o x, (a, o) ∈ l -> m !! o = Some x -> (a, o) ∈ l' \/ sched_shutdown x = true /\ waiting_tasks x = 0.
Proof.
  induction l as [| [a o] l IH]; intros m Hn Hm; cbn [set_need_loop].
  { exists [], m. split_and!; [done | done | apply same_objects_refl |]. intros ? ? ? Hin. by apply elem_of_nil in Hin. }
  cbn [map snd] in Hn. apply list.NoDup_cons in Hn as [Ho Hn]. destruct (Hm a o ltac:(by left)) as [x Hx]. rewrite Hx. cbn [of_option]. rewrite bind_ret.
  assert (Hne : forall b o', (b, o') ∈ l -> o' <> o) by (intros b o' Hb E; apply Ho; rewrite <- E; by apply (list_elem_of_fmap_2 snd l (b, o'))).
  destruct (sched_shutdown x) eqn:Hs.
  - destruct (IH m Hn) as (l' & m' & E & Hsub & Hsame & Hkeep); [intros b o' Hb; apply (Hm b); by right |]. rewrite E, bind_ret. exists (if waiting_tasks x =? 0 then l' else (a, o) :: l'), m'. split; [by destruct (waiting_tasks x =? 0) |].
    destruct (Z.eqb_spec (waiting_tasks x) 0) as [Hw | Hw]; (split_and!; [by constructor | done |]); intros b o' y [[= -> ->] | Hb]%elem_of_cons Hy.
    + right. rewrite Hx in Hy. by injection Hy as <-.
    + by eapply Hkeep.
    + left. by left.
    + destruct (Hkeep b o' y Hb Hy) as [Hin | ?]; [left; by right | by right].
  - destruct (IH (<[o := with_flags true false x]> m) Hn) as (l' & m' & E & Hsub & Hsame & Hkeep).
    { intros b o' Hb. rewrite lookup_insert_ne by (intros <-; by eapply Hne). apply (Hm b). by right. }
    rewrite E, bind_ret. exists ((a, o) :: l'), m'. split_and!; [done | by constructor | |].
    + intros o'. specialize (Hsame o'). destruct (decide (o = o')) as [<- | Hd]; [| by rewrite lookup_insert_ne in Hsame].
      rewrite lookup_insert_eq in Hsame. rewrite Hx. inversion Hsame as [? y Hxy |]; subst. constructor. destruct Hxy as (H1 & H2 & H3). split_and!; [done | by rewrite Hs | done].
    + intros b o' y [[= -> ->] | Hb]%elem_of_cons Hy; [left; by left |]. destruct (Hkeep b o' y Hb) as [Hin | ?]; [rewrite lookup_insert_ne; [done | intros <-; by eapply Hne] | left; by right | by right].
Qed.

Lemma core_set_need q m next l q' m' : core q m next l -> q' `sublist_of` q -> same_objects m m' ->
  (forall a o x, (a, o) ∈ q -> m !! o = Some x -> (a, o) ∈ q' \/ sched_shutdown x = true /\ waiting_tasks x = 0) -> core q' m' next l.
Proof.
  intros [H1 H2 H3 H4 H5 H6] Hsub Hsame Hkeep. assert (Hin : forall c, c ∈ q' -> c ∈ q) by (intros c Hc; by eapply elem_of_sublist).
  split.
  - eapply sublist_NoDup; [exact H1 | exact (fmap_sublist fst _ _ Hsub)].
  - eapply sublist_NoDup; [exact H2 | exact (fmap_sublist snd _ _ Hsub)].
  - intros a o Ha. by eapply H3, Hin.
  - intros a o Ha. destruct (H4 a o (Hin _ Ha)) as (x & Hx & Hl & Hw). specialize (Hsame o). rewrite Hx in Hsame. inversion Hsame as [? y (E1 & E2 & E3) Ex Ey |]; subst.
    exists y. split_and!; congruence.
  - intros o x' a Hx' Hs Ha. specialize (Hsame o). rewrite Hx' in Hsame. inversion Hsame as [x ? (E1 & E2 & E3) Ex Ey |]; subst.
    destruct (Hkeep a o x) as [Hk | [Hk _]]; [apply (H5 o x); congruence | done | done | congruence].
  - intros t Ht. destruct (H6 t Ht) as (a & o & Ea & Ha). destruct (H4 a o Ha) as (x & Hx & _ & Hw). exists a, o. split; [done |].
    destruct (Hkeep a o x Ha Hx) as [Hk | [_ Hz]]; [done |]. exfalso. rewrite Hz in Hw. symmetry in Hw. by apply (proj2 (count_none a l) Hw t Ht).
Qed.

Context (four : (limit <= 4)%nat).

Lemma close_tasks_ok l : forall s, (forall t, t ∈ l -> exists o x, deref (task_iter t) s = Ret (o, x)) -> close_tasks l s = Ret (record_ran l s).
Proof.
  induction l as [| t l IH]; intros s Hd; cbn [close_tasks]; [by destruct s; unfold record_ran; cbn; rewrite app_nil_r |].
  destruct (Hd t ltac:(by left)) as (o & x & E). rewrite E, bind_ret, IH; [unfold record_ran; cbn; by rewrite <- app_assoc |].
  intros t' Ht'. apply (Hd t'). by right.
Qed.

Lemma set_need_flush_ok s : inv s -> at_place s = Set_need -> exists s', set_need_flush s = Ret s' /\ inv (go Check s').
Proof.
  intros [Hl _ Hf Hr Hn] Hp. destruct (Hl ltac:(by rewrite Hp)) as [Hc H2 H3 H4 H5 H6]. rewrite Hp in *. unfold set_need_flush. rewrite H4.
  assert (Hv : (if decide (length (_schedulers s) * 4 < capacity s)%nat then resize (length (_schedulers s) * 4) [] else []) = []).
  { case_decide as Hd; [| done]. unfold room_ok in Hr. destruct (length (_schedulers s)) as [| n]; [done | lia]. }
  rewrite Hv. destruct (set_need_loop_ok (_schedulers s) (objects s)) as (l' & m' & E & Hsub & Hsame & Hkeep).
  { apply Hc. }
  { intros a o Ha. destruct (known_objects _ _ _ _ Hc a o Ha) as (x & Hx & _). eauto. }
  rewrite E, bind_ret. eexists. split; [done |]. pose proof (core_set_need _ _ _ _ _ _ Hc Hsub Hsame Hkeep) as Hc'. unfold owed in Hc'. rewrite Hp in Hc'.
  assert (Hnot : notified s = false) by (destruct (notified s); [by specialize (Hn eq_refl) | done]).
  split; cbn; try done; [| pose proof (sublist_length _ _ Hsub); lia | by rewrite Hnot]. intros _. split; cbn; try done; [by intros p ?%elem_of_nil |]. by intros [? | [? _]].
Qed.

Ltac moved Hawake := split; cbn;
  [intros _; split; cbn; try done; try (by intros ? ?%elem_of_nil); try (by intros [? | [? _]]) | try done | try done | try done | first [done | by rewrite Hawake | idtac]].

(** The thread can always go on, but when it has ended or sleeps without a scheduler and nobody woke it. *)
Lemma thread_step_ok again s : inv s -> exists r, thread_step again s = Ret r /\
  match r with Some s' => inv s' | None => at_place s = Done \/ at_place s = Sleep_none /\ notified s = false end.
Proof.
  intros Hi. pose proof Hi as [Hl Ho Hf Hr Hn].
  assert (Hawake : at_place s <> Sleep_none -> notified s = false) by (intros Hp; destruct (notified s); [by specialize (Hn eq_refl) | done]).
  unfold thread_step. destruct (at_place s) as [| | | | | | [| t rest] k | t rest k | | [| p rest] | | |] eqn:Hp.
  all: try (destruct (Hl ltac:(done)) as [Hc H2 H3 H4 H5 H6]; unfold owed in *; rewrite Hp in *; cbn [needs pending opened app] in * ).
  - eexists. split; [done |]. destruct (shutdown s); moved Hawake.
  - eexists. split; [done |]. destruct (negb _ || _) eqn:Ht; moved Hawake.
    intros _. apply orb_false_iff in Ht as [Ht _]. apply negb_false_iff, bool_decide_eq_true in Ht. done.
  - eexists. split; [done |]. moved Hawake. intros _. apply H6. by left.
  - destruct (notified s) eqn:Hb; eexists; (split; [done |]); [| by right]. moved Hawake.
  - eexists. split; [done |]. destruct (shutdown s); moved Hawake.
  - eexists. split; [done |]. moved Hawake.
    + unfold owed. cbn. by rewrite H5, app_nil_r.
    + by rewrite H5, app_nil_r.
    + destruct (_ && _); by intros p ?%elem_of_nil.
    + by destruct (_ && _).
  - eexists. split; [done |]. destruct k as [| | v]; moved Hawake.
  - destruct (deref_ok s (task_iter t) _ Hc) as (a & o & x & _ & _ & _ & E); [apply (tasks_here _ _ _ _ Hc t); by left |]. rewrite E, bind_ret. eexists. split; [done |].
    moved Hawake. by rewrite H2, <- app_assoc.
  - destruct (deref_ok s (task_iter t) _ Hc) as (a & o & x & Et & Ha & Hx & E); [apply (tasks_here _ _ _ _ Hc t); by left |]. rewrite E, bind_ret. eexists. split; [done |].
    destruct (known_objects _ _ _ _ Hc a o Ha) as (x' & Hx' & Hloc & Hw). rewrite Hx in Hx'. injection Hx' as <-.
    moved Hawake. unfold owed. cbn.
    eapply core_count; [exact Hc | exact Ha | exact Hx | done | | done | |]; cbn.
    + rewrite Hw, tasks_count_cons, decide_True by done. lia.
    + intros b Hb. rewrite tasks_count_cons, decide_False by congruence. lia.
    + intros t' Ht'. left. by right.
  - destruct (get_need_flush_ok (_schedulers s) (objects s) (need_flushes s) (capacity s)) as (w & c' & E & Hc' & Hw).
    { intros a o Ha. destruct (known_objects _ _ _ _ Hc a o Ha) as (x & Hx & _). eauto. }
    { done. }
    { rewrite H4. cbn. lia. }
    rewrite E, bind_ret. eexists. split; [done |]. moved Hawake.
    intros p Hin. rewrite H4 in Hin. by apply Hw.
  - eexists. split; [done |]. moved Hawake.
  - destruct (deref_ok s p _ Hc) as (a & o & x & -> & _ & _ & E); [apply H3; by left |]. rewrite E, bind_ret. eexists. split; [done |].
    assert (Hrest : forall p, p ∈ rest -> still (_schedulers s) p) by (intros q Hq; apply H3; by right).
    destruct (waiting_tasks x =? 0); moved Hawake.
    + unfold owed. cbn. by rewrite H5, app_nil_r.
    + by rewrite H5, app_nil_r.
  - destruct (set_need_flush_ok s Hi Hp) as (s' & E & Hs'). rewrite E, bind_ret. by eexists.
  - rewrite close_tasks_ok.
    + rewrite bind_ret. eexists. split; [done |]. split; cbn; try done; [intros _; by rewrite H2 | by rewrite Hawake].
    + intros t Ht. destruct (deref_ok s (task_iter t) _ Hc) as (a & o & x & _ & _ & _ & E); [by apply (tasks_here _ _ _ _ Hc t) | by exists o, x].
  - eexists. split; [done |]. by left.
Qed.

Lemma reached_inv s : reachable s -> inv s.
Proof.
  intros Hr. assert (H0 : inv scheduled_thread) by apply inv_new. revert H0. induction Hr as [s | s s1 s' Hs _ IH]; [done |]. intros Hi. apply IH.
  destruct Hs as [again Hs | Hs]; [| by eapply client_inv]. destruct (thread_step_ok again s Hi) as (r & E & Hok). rewrite Hs in E. by injection E as <-.
Qed.

(** C37. Objects are added, removed and given tasks by any number of threads, at most four
    registered at a time, and the thread is shut down at any moment: no step of the thread uses the
    iterator of an erased node; the tasks invoked so far are the first of those submitted, each
    once and in order, and until the end the others are still to be invoked; a scheduler
    counts exactly the tasks it is still owed, and it can be erased only when that is zero.  The
    thread stops moving only when it has ended or sleeps because no scheduler is registered. *)
Theorem tasks_run_in_order s : reachable s ->
  (forall again, exists r, thread_step again s = Ret r /\
    (r = None -> at_place s = Done \/ at_place s = Sleep_none /\ notified s = false /\ _schedulers s = [])) /\
  ran s `prefix_of` submitted s /\
  (at_place s <> Done -> submitted s = ran s ++ pending (at_place s) ++ _ready s /\
    forall a o, (a, o) ∈ _schedulers s -> exists x, objects s !! o = Some x /\ waiting_tasks x = count a (owed s)).
Proof.
  intros Hr. pose proof (reached_inv s Hr) as Hi. pose proof Hi as [Hl Ho _ _ _]. split_and!.
  - intros again. destruct (thread_step_ok again s Hi) as (r & E & Hok). exists r. split; [done |]. intros ->. destruct Hok as [Hd | [Hs Hn]]; [by left |].
    right. split_and!; [done | done |]. destruct (Hl ltac:(by rewrite Hs)) as [_ _ _ _ _ H6]. apply H6. by right.
  - destruct (at_place s) eqn:Hp; try (by apply Ho); destruct (Hl ltac:(done)) as [_ -> _ _ _ _]; by apply prefix_app_r.
  - intros Hne. destruct (Hl Hne) as [Hc H2 _ _ _ _]. split; [done |]. intros a o Ha. destruct (known_objects _ _ _ _ Hc a o Ha) as (x & Hx & _ & Hw). by exists x.
Qed.
End Thread.

(** ** Concrete runs *)

Module Demo.
Inductive turn_of :=
  | Of_thread (again : bool)
  | Add (o : nat)
  | Remove (o : nat)
  | RemoveInvoke (o : nat) (v : Z)
  | Submit (o : nat) (v : Z)
  | Shutdown
  | Notify.

(** A turn, if it is possible: the checks of [client_step] as tests. *)
Definition usable_in (o : nat) (s : ScheduledThread Z) : option Scheduler :=
  x ← objects s !! o;
  if negb (is_null (self_location x)) && negb (sched_shutdown x) then Some x else None.
Definition unlocked (s : ScheduledThread Z) : bool := match at_place s with To_sleep => false | _ => true end.
Definition one_turn (limit : nat) (t : turn_of) (s : ScheduledThread Z) : res (option (ScheduledThread Z)) :=
  match t with
  | Of_thread again => thread_step again s
  | Add o => Ret (if unlocked s && bool_decide (objects s !! o = None) && bool_decide (length (_schedulers s) < limit)%nat then Some (add_scheduler o s) else None)
  | Remove o => Ret (if unlocked s then x ← usable_in o s; Some (remove_scheduler o s) else None)
  | RemoveInvoke o v => Ret (if unlocked s then x ← usable_in o s; Some (remove_scheduler_and_invoke o x v s) else None)
  | Submit o v => Ret (if unlocked s then x ← usable_in o s; Some (submit_task o x v s) else None)
  | Shutdown => Ret (Some (set_shutdown (S (late s)) s))
  | Notify => Ret (match late s with S n => Some (notify_one (set_late n s)) | O => None end)
  end.
Fixpoint turns (limit : nat) (ts : list turn_of) (s : ScheduledThread Z) : res (option (ScheduledThread Z)) :=
  match ts with
  | [] => Ret (Some s)
  | t :: ts => r ← one_turn limit t s; match r with Some s => turns limit ts s | None => Ret None end
  end.

(** Two objects; the second is removed with a last task. *)
Definition schedule : list turn_of :=
  [Add 1; Of_thread true; Of_thread true; Of_thread true; Add 2; Submit 1 10; RemoveInvoke 2 20; Of_thread true; Of_thread true; Submit 1 11] ++ replicate 5 (Of_thread false).
Definition worked : ScheduledThread Z := match turns 4 schedule scheduled_thread with Ret (Some s) => s | _ => scheduled_thread end.
End Demo.

Lemma usable_in_ok o s x : Demo.usable_in o s = Some x -> in_use o x s.
Proof.
  unfold Demo.usable_in, in_use. destruct (objects s !! o) as [y |]; cbn; [| done]. destruct (is_null (self_location y)) eqn:H1, (sched_shutdown y) eqn:H2; cbn; try done.
  by intros [= <-].
Qed.

Lemma turn_step limit t s s' : Demo.one_turn limit t s = Ret (Some s') -> step limit s s'.
Proof.
  assert (Hu : Demo.unlocked s = true -> at_place s <> To_sleep) by (unfold Demo.unlocked; by destruct (at_place s)).
  destruct t as [again | o | o | o v | o v | |]; cbn [Demo.one_turn].
  - intros H. by apply (step_thread limit s s' again).
  - destruct (_ && _) eqn:Hb; [| done]. intros [= <-]. apply andb_true_iff in Hb as [Hb H3]. apply andb_true_iff in Hb as [H1 H2]. apply step_client, client_add; [by apply Hu | by apply bool_decide_eq_true in H2 | by apply bool_decide_eq_true in H3].
  - destruct (Demo.unlocked s); [| done]. destruct (Demo.usable_in o s) as [x |] eqn:E; [| done]. intros [= <-]. eapply step_client, client_remove; [by apply Hu | by apply usable_in_ok].
  - destruct (Demo.unlocked s); [| done]. destruct (Demo.usable_in o s) as [x |] eqn:E; [| done]. intros [= <-]. eapply step_client, client_remove_invoke; [by apply Hu | by apply usable_in_ok].
  - destruct (Demo.unlocked s); [| done]. destruct (Demo.usable_in o s) as [x |] eqn:E; [| done]. intros [= <-]. eapply step_client, client_submit; [by apply Hu | by apply usable_in_ok].
  - intros [= <-]. apply step_client, client_shutdown.
  - destruct (late s) eqn:E; [done |]. intros [= <-]. by apply step_client, client_notify.
Qed.

Lemma turns_reachable limit ts : forall s s', reachable limit s -> Demo.turns limit ts s = Ret (Some s') -> reachable limit s'.
Proof.
  induction ts as [| t ts IH]; intros s s' Hs; cbn [Demo.turns]; [by intros [= <-] |]. destruct (Demo.one_turn limit t s) as [[s1 |] |] eqn:E; rewrite ?bind_ret; try done.
  intros Hrest. apply (IH s1); [| done]. eapply rtc_r; [exact Hs |]. by eapply turn_step.
Qed.

Lemma tasks_run_in_order_witness :
  (forall again, exists r, thread_step again Demo.worked = Ret r /\
    (r = None -> at_place Demo.worked = Done \/ at_place Demo.worked = Sleep_none /\ notified Demo.worked = false /\ _schedulers Demo.worked = [])) /\
  ran Demo.worked `prefix_of` submitted Demo.worked /\
  (at_place Demo.worked <> Done -> submitted Demo.worked = ran Demo.worked ++ pending (at_place Demo.worked) ++ _ready Demo.worked /\
    forall a o, (a, o) ∈ _schedulers Demo.worked -> exists x, objects Demo.worked !! o = Some x /\ waiting_tasks x = count a (owed Demo.worked)).
Proof.
  apply (tasks_run_in_order 4 (le_n 4) Demo.worked). apply (turns_reachable 4 Demo.schedule scheduled_thread); [apply rtc_refl | vm_compute; reflexivity].
Defined.

Example worked_ran : map arg (ran Demo.worked) = [10; 20] /\ map arg (pending (at_place Demo.worked)) = [11].
Proof. vm_compute. auto. Qed.

(** Five objects make the vector of [flush_need] grow to eight; when four of them are gone
    [set_need_flush] resizes it to four null iterators, and the next flush follows one. *)
Definition five_then_one : list Demo.turn_of :=
  map Demo.Add [1; 2; 3; 4; 5]%nat ++ replicate 10 (Demo.Of_thread false) ++ map Demo.Remove [1; 2; 3; 4]%nat ++ replicate 20 (Demo.Of_thread false).
Example resize_leaves_null : Demo.turns 5 five_then_one scheduled_thread = Fault BadPointer.
Proof. vm_compute. reflexivity. Qed.

(** [shutdown_thread] stores and notifies without the lock: between the test that finds no scheduler
    and the sleep both are lost, and the thread that joins waits for ever. *)
Example shutdown_lost :
  match Demo.turns 4 [Demo.Of_thread true; Demo.Of_thread true; Demo.Shutdown; Demo.Notify; Demo.Of_thread true] scheduled_thread with
  | Ret (Some s) => at_place s = Sleep_none /\ shutdown s = true /\ late s = 0%nat /\ thread_step true s = Ret None
  | _ => False
  end.
Proof. vm_compute. auto. Qed.
