(* ===== verification/SystemLog.v ===== *)
(** * SystemLog: the text log (Base/SystemLog.hpp, Base/src/SystemLog.cpp, Base/LogRank.hpp)

    [push] appends a line to a buffer; a full buffer becomes a task of the thread of
    ScheduledThread.v, which appends buffers to files of limited size.  Here the thread is the
    queue of buffers it was given (that theorem says it invokes them once and in order) and what it
    has left of the buffer it is writing.  [push], [flush] and the destructor hold [IO_lock], so
    their calls are one sequence; [LogScheduler::invoke] takes no lock, so the rounds of its loop
    come between those calls.  [push] touches nothing the thread does; a [flush] that has something
    to write while the thread is in the middle of a buffer is a data race on [_file] and
    [current_size], and a fault here.  The disk is a map from paths to contents, [fwrite] writes all it gets, the pool of
    buffers gives what [pool] says, and [clock] is what [Time::now] reads. *)

From stdpp Require Import gmap.
From S2P Require Import Prelude Calendar LinkLogFormat TimeText.
From S2P Require Import StateMonad.
Local Open Scope Z_scope.

Abbreviation path := (list Z).

Inductive LogRank := TRACE | DEBUG | INFO | WARN | ERROR | FATAL | EMPTY.
Definition rank_value (r : LogRank) : Z := match r with TRACE => 0 | DEBUG => 1 | INFO => 2 | WARN => 3 | ERROR => 4 | FATAL => 5 | EMPTY => 6 end.

(** The six bytes of each rank, in ASCII. *)
Definition rank_toString (r : LogRank) : list Z :=
  match r with
  | TRACE => [84;82;65;67;69;58] | DEBUG => [68;69;66;85;71;58] | INFO => [73;78;70;79;32;58] | WARN => [87;65;82;78;32;58]
  | ERROR => [69;82;82;79;82;58] | FATAL => [70;65;84;65;76;58] | EMPTY => [69;77;80;84;89;58]
  end.
Definition log_suffix : path := [46;108;111;103].

(** A buffer of the pool and the bytes below [_index]. *)
Record LogBuffer := mkBuffer { room : Z; bytes : list Z }.

(** [waiting]: buffers submitted and not invoked.  The three before the last are not in the code: the files
    in the order of their opening, the lines that were pushed, and whether the buffers were written in the
    order they were filled.  [writing]: what [invoke] still has to write, while the thread is in it. *)
Record SystemLog := mkLog {
  outputRank : LogRank; closed : bool;
  _buffer : option LogBuffer; waiting : list LogBuffer;
  current_size : Z; _file : option path; disk : gmap path (list Z);
  asked : nat; instants : nat;
  opened : list path; pushed : list (list Z); in_order : bool; writing : option (list Z) }.

Section Log.
Context (clock : nat -> Time) (pool : nat -> Z) (patience : nat) (_path : path) (limit_size : Z).
Abbreviation M := (ST SystemLog).
Implicit Types (s : SystemLog).

Definition set_buffer b s : SystemLog := mkLog (outputRank s) (closed s) b (waiting s) (current_size s) (_file s) (disk s) (asked s) (instants s) (opened s) (pushed s) (in_order s) (writing s).
Definition set_waiting l s : SystemLog := mkLog (outputRank s) (closed s) (_buffer s) l (current_size s) (_file s) (disk s) (asked s) (instants s) (opened s) (pushed s) (in_order s) (writing s).
Definition set_size n s : SystemLog := mkLog (outputRank s) (closed s) (_buffer s) (waiting s) n (_file s) (disk s) (asked s) (instants s) (opened s) (pushed s) (in_order s) (writing s).
Definition set_disk d s : SystemLog := mkLog (outputRank s) (closed s) (_buffer s) (waiting s) (current_size s) (_file s) d (asked s) (instants s) (opened s) (pushed s) (in_order s) (writing s).
Definition set_writing w s : SystemLog := mkLog (outputRank s) (closed s) (_buffer s) (waiting s) (current_size s) (_file s) (disk s) (asked s) (instants s) (opened s) (pushed s) (in_order s) w.
Definition set_closed s : SystemLog := mkLog (outputRank s) true (_buffer s) (waiting s) (current_size s) (_file s) (disk s) (asked s) (instants s) (opened s) (pushed s) (in_order s) (writing s).

Definition now : M Time :=
  n ← gets instants;
  modify (fun s => mkLog (outputRank s) (closed s) (_buffer s) (waiting s) (current_size s) (_file s) (disk s) (asked s) (S n) (opened s) (pushed s) (in_order s) (writing s));;
  mret (clock n).

(** [_bufferPool->get(_buffer_size)]; a refusal is a buffer of size 0. *)
Definition pool_get : M LogBuffer :=
  n ← gets asked;
  modify (fun s => mkLog (outputRank s) (closed s) (_buffer s) (waiting s) (current_size s) (_file s) (disk s) (S n) (instants s) (opened s) (pushed s) (in_order s) (writing s));;
  mret (mkBuffer (pool n) []).

(** ** LogBuffer *)

Definition Line (rank : LogRank) (time : Time) (data : list Z) : list Z := Time_text time true ++ [32] ++ rank_toString rank ++ data ++ [10].

Definition append (rank : LogRank) (time : Time) (data : list Z) (b : LogBuffer) : Z * LogBuffer :=
  if room b - zlen (bytes b) <? zlen data + Time_us_format_len + 8 then (0, b)
  else (zlen data, mkBuffer (room b) (bytes b ++ Line rank time data)).

Definition valid (b : LogBuffer) : bool := 0 <? room b.

(** ** LogScheduler *)

Definition open_new_file : M unit :=
  t ← now;
  name ← lift (Time_to_string t true);
  let p := _path ++ name ++ log_suffix in
  modify (fun s => mkLog (outputRank s) (closed s) (_buffer s) (waiting s) 0 (Some p) (<[p := []]> (disk s)) (asked s) (instants s) (opened s ++ [p]) (pushed s) (in_order s) (writing s)).

Definition file_write (data : list Z) : M Z :=
  p ← gets _file;
  p ← deref p;
  modify (fun s => set_disk (alter (fun content => content ++ data) p (disk s)) s);;
  mret (zlen data).

(** A round of the loop of [write_to_file] on what is left of the buffer, and what is left then; nothing
    after the [break]. *)
Definition write_round (buffer : list Z) : M (option (list Z)) :=
  current ← gets current_size;
  let rest := limit_size - current in
  if rest <? zlen buffer then
    file_write (take (Z.to_nat rest) buffer);;
    open_new_file;;
    mret (Some (drop (Z.to_nat rest) buffer))
  else
    n ← file_write buffer;
    modify (fun s => set_size (current_size s + n) s);;
    mret None.

Fixpoint write_loop (fuel : nat) (buffer : list Z) : M unit :=
  if zlen buffer =? 0 then mret tt else
  match fuel with
  | O => lift (Fault OutOfFuel)
  | S fuel => r ← write_round buffer; match r with Some rest => write_loop fuel rest | None => mret tt end
  end.

Definition write_to_file (b : LogBuffer) : M unit := write_loop (length (bytes b) + 2) (bytes b).

Definition invoke (b : LogBuffer) : M unit := write_to_file b.

Definition note_order : M unit :=
  modify (fun s => mkLog (outputRank s) (closed s) (_buffer s) (waiting s) (current_size s) (_file s) (disk s) (asked s) (instants s) (opened s) (pushed s)
    (in_order s && bool_decide (waiting s = [])) (writing s)).

Definition force_invoke : M unit :=
  b ← gets _buffer;
  match b with
  | None => mret tt
  | Some b =>
      if zlen (bytes b) =? 0 then mret tt else
      w ← gets writing;
      match w with
      | Some _ => lift (Fault DataRace)
      | None =>
          note_order;;
          write_to_file b;;
          modify (set_buffer (Some (mkBuffer (room b) [])))
      end
  end.

(** ** SystemLog *)

(** Until the pool has a buffer. *)
Fixpoint new_buffer (fuel : nat) : M unit :=
  b ← pool_get;
  if valid b then modify (set_buffer (Some b)) else
  match fuel with O => lift (Fault OutOfFuel) | S fuel => new_buffer fuel end.

Fixpoint push_loop (fuel : nat) (rank : LogRank) (data : list Z) : M unit :=
  if zlen data =? 0 then mret tt else
  match fuel with
  | O => lift (Fault OutOfFuel)
  | S fuel =>
      b ← gets _buffer;
      b ← deref b;
      t ← now;
      let '(ret, b) := append rank t data b in
      modify (set_buffer (Some b));;
      if ret <? zlen data then
        modify (fun s => set_waiting (waiting s ++ [b]) s);;
        new_buffer patience;;
        push_loop fuel rank (drop (Z.to_nat ret) data)
      else
        modify (fun s => mkLog (outputRank s) (closed s) (_buffer s) (waiting s) (current_size s) (_file s) (disk s) (asked s) (instants s) (opened s)
          (pushed s ++ [Line rank t data]) (in_order s) (writing s))
  end.

(** Two turns are enough for a message that fits into a buffer. *)
Definition push (fuel : nat) (rank : LogRank) (data : list Z) : M unit :=
  s ← gets id;
  if (rank_value rank <? rank_value (outputRank s)) || closed s then mret tt else push_loop fuel rank data.

Definition log_new (rank : LogRank) : res SystemLog :=
  '(_, s) ← open_new_file (mkLog rank false None [] 0 None ∅ 0 0 [] [] true None);
  '(b, s) ← pool_get s;
  Ret (set_buffer (Some b) s).

(** [~SystemLog]: the thread that is shut down takes nothing. *)
Definition destroy : M unit :=
  s ← gets id;
  when (negb (closed s)) (
    match _buffer s with Some b => modify (set_waiting (waiting s ++ [b])) | None => mret tt end);;
  modify (set_buffer None).

(** A step of the thread: it begins [invoke] of the next buffer it was given, or makes a round of its
    loop, or returns from it. *)
Definition invoke_step : M unit :=
  w ← gets writing;
  match w with
  | None =>
      l ← gets waiting;
      match l with
      | [] => mret tt
      | b :: l => modify (set_waiting l);; modify (set_writing (Some (bytes b)))
      end
  | Some buffer =>
      if zlen buffer =? 0 then modify (set_writing None) else
      r ← write_round buffer;
      modify (set_writing r)
  end.

(** The rest of an [invoke], and a whole one, when nobody else is left. *)
Definition invoke_rest : M unit :=
  w ← gets writing;
  match w with
  | None => mret tt
  | Some buffer => write_loop (length buffer + 2) buffer;; modify (set_writing None)
  end.

Definition invoke_next : M unit :=
  l ← gets waiting;
  match l with
  | [] => mret tt
  | b :: l => modify (set_waiting l);; invoke b
  end.

Inductive log_call :=
  | Push (rank : LogRank) (data : list Z)
  | InvokeStep
  | Flush
  | CloseThread.

Definition exec (c : log_call) : M unit :=
  match c with
  | Push rank data => push 2 rank data
  | InvokeStep => invoke_step
  | Flush => force_invoke
  | CloseThread => modify set_closed
  end.

Fixpoint run (cs : list log_call) : M unit :=
  match cs with [] => mret tt | c :: cs => exec c;; run cs end.

Fixpoint drain (n : nat) : M unit :=
  match n with O => mret tt | S n => invoke_next;; drain n end.

(** A log from its constructor to its destructor, and the thread's work after it. *)
Definition session (rank : LogRank) (cs : list log_call) : res SystemLog :=
  s ← log_new rank;
  '(_, s) ← run cs s;
  '(_, s) ← destroy s;
  '(_, s) ← invoke_rest s;
  '(_, s) ← drain (length (waiting s)) s;
  Ret s.
End Log.

(** ** Nothing is lost *)

Section Kept.
Context (clock : nat -> Time) (pool : nat -> Z) (patience : nat) (_path : path) (limit_size buffer_size : Z).

(** The times read before [horizon] are printed as different names. *)
Context (horizon : Z).
Context (times_fit : forall n, Z.of_nat n < horizon -> printable (clock n)).
Context (times_differ : forall n m, Z.of_nat n < horizon -> Z.of_nat m < horizon -> Time_text (clock n) true = Time_text (clock m) true -> n = m).
Context (limit_pos : 0 < limit_size).
(** The pool refuses, or gives at least what was asked for; it does not refuse for ever. *)
Context (pool_gives : forall n, pool n = 0 \/ buffer_size <= pool n) (buffer_pos : 0 < buffer_size).
Context (pool_patient : forall n, exists k, (k <= patience)%nat /\ pool (n + k)%nat <> 0).

Abbreviation write_loop := (write_loop clock _path limit_size).
Abbreviation run := (run clock pool patience _path limit_size).
Abbreviation exec := (exec clock pool patience _path limit_size).
Implicit Types (s : SystemLog).

Definition content s (p : path) : list Z := default [] (disk s !! p).
Definition written s : list Z := flat_map (content s) (opened s).
Definition name_of (n : nat) : path := _path ++ Time_text (clock n) true ++ log_suffix.

(** The files: all full but the last, which is open. *)
Record files_ok s : Prop := {
  files_named : exists ns, opened s = map name_of ns /\ NoDup ns /\ Forall (fun n => (n < instants s)%nat /\ Z.of_nat n < horizon) ns;
  files_there p : p ∈ opened s -> is_Some (disk s !! p);
  files_last : exists l p, opened s = l ++ [p] /\ _file s = Some p /\ current_size s = zlen (content s p) /\ current_size s <= limit_size /\
    Forall (fun q => zlen (content s q) = limit_size) l }.

(** What writing leaves alone. *)
Record beside s s' : Prop := {
  beside_rank : outputRank s' = outputRank s; beside_closed : closed s' = closed s; beside_buffer : _buffer s' = _buffer s;
  beside_waiting : waiting s' = waiting s; beside_pushed : pushed s' = pushed s; beside_order : in_order s' = in_order s; beside_writing : writing s' = writing s }.
Lemma beside_refl s : beside s s.
Proof. done. Qed.
Lemma beside_trans s1 s2 s3 : beside s1 s2 -> beside s2 s3 -> beside s1 s3.
Proof. intros [] []. split; congruence. Qed.

Definition counted s : Prop := Z.of_nat (instants s) <= 2 * zlen (pushed s) + zlen (opened s).

Lemma name_of_inj n m : Z.of_nat n < horizon -> Z.of_nat m < horizon -> name_of n = name_of m -> n = m.
Proof. intros Hn Hm E. apply times_differ; [done | done |]. apply app_inv_head in E. by apply app_inv_tail in E. Qed.

Lemma opened_NoDup s : files_ok s -> NoDup (opened s).
Proof.
  intros [(ns & -> & Hn & Hf) _ _]. apply (NoDup_fmap_2_strong name_of); [| done]. intros n m Hi Hj. rewrite list.Forall_forall in Hf.
  apply name_of_inj; [by apply Hf | by apply Hf].
Qed.

(** Every file but the last has a byte. *)
Lemma opened_few s : files_ok s -> zlen (opened s) <= 1 + zlen (written s) /\ (current_size s = limit_size -> zlen (opened s) <= zlen (written s)).
Proof.
  intros [_ _ (l & p & Eo & Ef & Ec & Hle & Hl)]. unfold written. rewrite Eo, flat_map_app, !zlen_app. cbn [flat_map]. rewrite app_nil_r.
  assert (Hmany : zlen l <= zlen (flat_map (content s) l)).
  { clear - Hl limit_pos. induction Hl as [| q l Hq _ IH]; [done |]. cbn [flat_map]. rewrite zlen_app, zlen_cons. lia. }
  change (zlen [p]) with 1. pose proof (zlen_nonneg (content s p)). split; intros; lia.
Qed.

Lemma file_write_ok data s : files_ok s -> current_size s + zlen data <= limit_size ->
  wp (file_write data) (fun n s' => n = zlen data /\ beside s s' /\ instants s' = instants s /\ opened s' = opened s /\ written s' = written s ++ data /\
    current_size s' = current_size s /\ files_ok (set_size (current_size s + zlen data) s')) s.
Proof.
  intros Hf Hle. pose proof (opened_NoDup s Hf) as Hnd. destruct Hf as [Hn Ht (l & p & Eo & Ef & Ec & Hlim & Hl)]. unfold file_write. wp_run. eapply st_deref; [exact Ef |]. wp_run.
  destruct (Ht p) as [old Hp]; [rewrite Eo; apply elem_of_app; right; by left |].
  assert (Hnot : p ∉ l) by (rewrite Eo in Hnd; apply list.NoDup_app in Hnd as (_ & Hd & _); intros Hin; apply (Hd p Hin); by left).
  assert (Hsame : forall q, q ∈ l -> content (set_disk (alter (fun c => c ++ data) p (disk s)) s) q = content s q).
  { intros q Hq. unfold content. cbn. rewrite lookup_alter_ne; [done | by intros ->]. }
  assert (Hnew : content (set_disk (alter (fun c => c ++ data) p (disk s)) s) p = content s p ++ data) by (unfold content; cbn; by rewrite lookup_alter_eq, Hp).
  split_and!; try done.
  - unfold written. cbn [opened set_disk]. rewrite Eo, !flat_map_app. cbn [flat_map]. rewrite !app_nil_r, Hnew, app_assoc. f_equal. f_equal.
    clear - Hsame. induction l as [| q l IH]; [done |]. cbn [flat_map]. rewrite Hsame by left. f_equal. apply IH. intros q' Hq'. apply Hsame. by right.
  - split; cbn; [done | |].
    + intros q Hq. rewrite lookup_alter_is_Some. by apply Ht.
    + exists l, p. split_and!; [done | done | | done |].
      * transitivity (zlen (content s p ++ data)); [rewrite zlen_app; lia | by rewrite <- Hnew].
      * eapply list.Forall_impl; [| intros q Hq; exact Hq]. rewrite list.Forall_forall in *. intros q Hq. rewrite <- (Hl q Hq). f_equal. by apply Hsame.
Qed.

Lemma open_new_file_ok s : files_ok (set_size limit_size s) -> Z.of_nat (instants s) < horizon ->
  wp (open_new_file clock _path) (fun _ s' => beside s s' /\ files_ok s' /\ written s' = written s /\ zlen (opened s') = zlen (opened s) + 1 /\
    instants s' = S (instants s) /\ current_size s' = 0) s.
Proof.
  intros [(ns & Eo & Hn & Hf) Ht (l & p & El & _ & Ec & _ & Hl)] Hh. cbn in Eo, Hf, Ht, El, Ec. unfold open_new_file, now. wp_run.
  eapply st_lift; [by apply to_string_text, times_fit |]. wp_run. fold (name_of (instants s)). set (q := name_of (instants s)).
  assert (Hfresh : forall q', q' ∈ opened s -> q' <> q).
  { intros q' Hq ->. rewrite Eo in Hq. apply list_elem_of_fmap in Hq as (n & E & Hin). rewrite list.Forall_forall in Hf. destruct (Hf n Hin) as [Hlt Hnh].
    apply name_of_inj in E; [lia | done | done]. }
  assert (Hsame : forall q', q' ∈ opened s -> <[q := []]> (disk s) !! q' = disk s !! q') by (intros q' Hq; rewrite lookup_insert_ne; [done |]; symmetry; by apply Hfresh).
  split_and!; try done.
  - split; cbn.
    + exists (ns ++ [instants s]). rewrite Eo, map_app. split_and!; [done | |].
      * apply list.NoDup_app. split_and!; [done | | apply NoDup_singleton]. rewrite list.Forall_forall in Hf. intros n Hin ->%list_elem_of_singleton. destruct (Hf _ Hin). lia.
      * apply list.Forall_app. split; [| constructor; [split; [lia | done] | constructor]]. eapply list.Forall_impl; [exact Hf |]. cbn. intros n [? ?]. split; [lia | done].
    + intros q' [Hq | ->%list_elem_of_singleton]%elem_of_app; [rewrite Hsame by done; by apply Ht | rewrite lookup_insert_eq; eauto].
    + exists (opened s), q. unfold content. cbn. split_and!; [done | done | by rewrite lookup_insert_eq | lia |]. rewrite list.Forall_forall. intros q' Hq. rewrite Hsame by done.
      rewrite El in Hq. apply elem_of_app in Hq as [Hq | ->%list_elem_of_singleton]; [rewrite list.Forall_forall in Hl; by apply Hl | by rewrite Ec].
  - unfold written. cbn. rewrite flat_map_app. cbn [flat_map]. unfold content at 2. cbn. rewrite lookup_insert_eq. cbn. rewrite app_nil_r.
    unfold content. cbn. clear - Hsame. induction (opened s) as [| q' l IH]; [done |]. cbn [flat_map]. rewrite Hsame by left. f_equal. apply IH. intros q'' Hq. apply Hsame. by right.
  - cbn. rewrite zlen_app. done.
Qed.

Lemma write_round_ok data s : files_ok s -> counted s -> data <> [] -> 2 * zlen (pushed s) + zlen (written s) + zlen data < horizon ->
  wp (write_round clock _path limit_size data) (fun r s' => beside s s' /\ files_ok s' /\ counted s' /\ written s' ++ default [] r = written s ++ data /\
    forall rest, r = Some rest -> current_size s' = 0 /\ zlen rest = zlen data - (limit_size - current_size s)) s.
Proof.
  intros Hf Hc Hne Hh. pose proof (zlen_nonneg data). pose proof (files_last s Hf) as (_ & p & _ & _ & Ec & Hle & _). pose proof (zlen_nonneg (content s p)).
  unfold write_round. wp_run. destruct (Z.ltb_spec (limit_size - current_size s) (zlen data)) as [Hlt | Hge].
  - wp_run. set (r := Z.to_nat (limit_size - current_size s)). assert (Hr : zlen (take r data) = limit_size - current_size s) by (unfold zlen in *; rewrite length_take; lia).
    wp_call (file_write_ok (take r data) s Hf); [lia |]. intros _ s1 (_ & Hb1 & Hi1 & Ho1 & Hw1 & _ & Hf1). rewrite Hr, Zplus_minus in Hf1. wp_run.
    destruct (opened_few _ Hf1) as [_ Hfew]. specialize (Hfew eq_refl). change (zlen (opened s1) <= zlen (written s1)) in Hfew. rewrite Ho1, Hw1, zlen_app in Hfew.
    unfold counted in Hc. wp_call (open_new_file_ok s1 Hf1); [rewrite Hi1; lia |]. intros _ s2 (Hb2 & Hf2 & Hw2 & Ho2 & Hi2 & Hc2).
    pose proof (beside_trans _ _ _ Hb1 Hb2) as Hb. wp_run. split_and!; [done | done | | |].
    + unfold counted. rewrite Ho2, Hi2, Hi1, Ho1, (beside_pushed _ _ Hb). lia.
    + cbn [from_option id]. by rewrite Hw2, Hw1, <- app_assoc, take_drop.
    + intros rest [= <-]. split; [done |]. unfold zlen in *. rewrite length_drop. lia.
  - wp_run. wp_call (file_write_ok data s Hf); [lia |]. intros n s1 (-> & Hb1 & Hi1 & Ho1 & Hw1 & Hc1 & Hf1). wp_run. rewrite Hc1. split_and!; [| done | | | done].
    + destruct Hb1. by split.
    + unfold counted in *. cbn. rewrite Hi1, Ho1, (beside_pushed _ _ Hb1). done.
    + cbn [from_option id]. rewrite app_nil_r. exact Hw1.
Qed.

Lemma log_write_loop_ok fuel : forall data s, files_ok s -> counted s ->
  zlen data + 1 + (if decide (current_size s = limit_size) then 1 else 0) <= Z.of_nat fuel -> 2 * zlen (pushed s) + zlen (written s) + zlen data < horizon ->
  wp (write_loop fuel data) (fun _ s' => beside s s' /\ files_ok s' /\ counted s' /\ written s' = written s ++ data) s.
Proof.
  induction fuel as [| fuel IH]; intros data s Hf Hc Hfuel Hh.
  { pose proof (zlen_nonneg data). case_decide; lia. }
  cbn [SystemLog.write_loop]. destruct (Z.eqb_spec (zlen data) 0) as [Hz | Hz].
  { wp_run. destruct data; [| cbn in Hz; rewrite zlen_cons in Hz; pose proof (zlen_nonneg data); lia]. by rewrite app_nil_r. }
  pose proof (files_last s Hf) as (_ & _ & _ & _ & _ & Hle & _). wp_run. wp_call (write_round_ok data s Hf Hc); [by intros -> | done |].
  intros [rest |] s1 (Hb & Hf1 & Hc1 & Hw & Hrest); cbn [from_option id] in Hw; [| wp_run; rewrite app_nil_r in Hw; by split_and!].
  destruct (Hrest rest eq_refl) as [Hc0 Hlen]. wp_call (IH rest s1 Hf1 Hc1).
  - rewrite Hlen, Hc0, decide_False by lia. case_decide; lia.
  - rewrite (beside_pushed _ _ Hb). apply (f_equal zlen) in Hw. rewrite !zlen_app in Hw. lia.
  - intros _ s3 (Hb3 & Hf3 & Hc3 & Hw3). split_and!; [by eapply beside_trans | done | done |]. by rewrite Hw3.
Qed.

(** ** Lines *)

Lemma concat_one {A} (l : list A) : concat [l] = l.
Proof. apply app_nil_r. Qed.

(** Whole lines: [W] in the files and with the thread, [ws] in the waiting buffers, [c] in the current one. *)
Record lines s (W : list (list Z)) (ws : list (list (list Z))) (c : list (list Z)) : Prop := {
  lines_written : written s ++ default [] (writing s) = concat W;
  lines_waiting : Forall2 (fun b l => bytes b = concat l) (waiting s) ws;
  lines_current : (match _buffer s with Some b => bytes b | None => [] end) = concat c;
  lines_all : W ++ concat ws ++ c ≡ₚ pushed s;
  lines_ordered : in_order s = true -> W ++ concat ws ++ c = pushed s }.

Record kept s : Prop := {
  kept_files : files_ok s;
  kept_counted : counted s;
  kept_lines : exists W ws c, lines s W ws c }.

Definition spent s : Z := 2 * zlen (pushed s) + zlen (concat (pushed s)).

Lemma zlen_concat_perm (l l' : list (list Z)) : l ≡ₚ l' -> zlen (concat l) = zlen (concat l').
Proof.
  induction 1 as [| x l l' _ IH | x y l | l l' l'' _ IH1 _ IH2]; cbn [concat]; [done | rewrite !zlen_app; lia | rewrite !zlen_app; lia | lia].
Qed.

Lemma lines_length s W ws c : lines s W ws c -> zlen (written s) + zlen (default [] (writing s)) + zlen (concat (concat ws)) + zlen (concat c) = zlen (concat (pushed s)).
Proof. intros Hl. rewrite <- (zlen_concat_perm _ _ (lines_all _ _ _ _ Hl)), !concat_app, <- (lines_written _ _ _ _ Hl), !zlen_app. lia. Qed.

Lemma log_write_ok b s : files_ok s -> counted s -> 2 * zlen (pushed s) + zlen (written s) + zlen (bytes b) < horizon ->
  wp (write_to_file clock _path limit_size b) (fun _ s' => beside s s' /\ files_ok s' /\ counted s' /\ written s' = written s ++ bytes b) s.
Proof. intros Hf Hc Hh. unfold write_to_file. apply log_write_loop_ok; [done | done | | done]. unfold zlen. case_decide; lia. Qed.

(** ** The calls *)

Definition with_asked n s : SystemLog :=
  mkLog (outputRank s) (closed s) (_buffer s) (waiting s) (current_size s) (_file s) (disk s) n (instants s) (opened s) (pushed s) (in_order s) (writing s).

Lemma new_buffer_ok fuel : forall s, (exists k, (k <= fuel)%nat /\ pool (asked s + k)%nat <> 0) ->
  wp (new_buffer pool fuel) (fun _ s' => exists b n, s' = set_buffer (Some b) (with_asked n s) /\ buffer_size <= room b /\ bytes b = []) s.
Proof.
  induction fuel as [| fuel IH]; intros s (k & Hk & Hp); cbn [new_buffer]; unfold pool_get, valid; wp_run; cbn [room]; destruct (pool_gives (asked s)) as [E | E].
  - assert (k = 0%nat) as -> by lia. by rewrite Nat.add_0_r in Hp.
  - rewrite (proj2 (Z.ltb_lt 0 (pool (asked s)))) by lia. wp_run. by eexists _, _.
  - rewrite E. cbn [Z.ltb]. change (0 <? 0) with false. cbn iota. destruct k as [| k]; [by rewrite Nat.add_0_r in Hp |].
    wp_call (IH (with_asked (S (asked s)) s)); [exists k; split; [lia |]; cbn [asked with_asked]; by replace (S (asked s) + k)%nat with (asked s + S k)%nat by lia |].
    intros _ s' (b & n & -> & Hb). by exists b, n.
  - rewrite (proj2 (Z.ltb_lt 0 (pool (asked s)))) by lia. wp_run. by eexists _, _.
Qed.

Lemma zlen_line r n data : Z.of_nat n < horizon -> zlen (Line r (clock n) data) = zlen data + 32.
Proof.
  intros Hn. unfold Line. rewrite !zlen_app, (zlen_text _ (times_fit n Hn)). change (zlen [32]) with 1. change (zlen [10]) with 1.
  replace (zlen (rank_toString r)) with 6 by (by destruct r). unfold Time_us_format_len. lia.
Qed.

(** Appending a line that fits, and what it adds to what was pushed. *)
Lemma push_once_ok rank data s b fuel : _buffer s = Some b -> 0 < zlen data -> zlen data + 32 <= room b - zlen (bytes b) ->
  wp (push_loop clock pool patience (S fuel) rank data) (fun _ s' => s' = mkLog (outputRank s) (closed s)
    (Some (mkBuffer (room b) (bytes b ++ Line rank (clock (instants s)) data))) (waiting s) (current_size s) (_file s) (disk s) (asked s) (S (instants s))
    (opened s) (pushed s ++ [Line rank (clock (instants s)) data]) (in_order s) (writing s)) s.
Proof.
  intros Hb Hd Hfit. cbn [push_loop]. rewrite (proj2 (Z.eqb_neq (zlen data) 0)) by lia. wp_run. eapply st_deref; [exact Hb |]. unfold now. wp_run.
  unfold append. rewrite (proj2 (Z.ltb_ge (room b - zlen (bytes b)) _)) by (unfold Time_us_format_len; lia). wp_run. by rewrite Z.ltb_irrefl.
Qed.

Lemma pushed_lines s W ws c b l : lines s W ws c -> _buffer s = Some b -> forall s', written s' = written s -> writing s' = writing s -> waiting s' = waiting s -> in_order s' = in_order s ->
  _buffer s' = Some (mkBuffer (room b) (bytes b ++ l)) -> pushed s' = pushed s ++ [l] -> lines s' W ws (c ++ [l]).
Proof.
  intros [H1 H2 H3 H4 H5] Hb s' Ew Eg Ea Eo Eb Ep. rewrite Hb in H3. split; [by rewrite Ew, Eg | by rewrite Ea | | |].
  - rewrite Eb. cbn. by rewrite concat_app, H3, concat_one.
  - rewrite Ep, <- H4, !app_assoc. done.
  - rewrite Eo, Ep. intros Ho. rewrite <- H5 by done. by rewrite !app_assoc.
Qed.

Definition cost (c : log_call) : Z := match c with Push _ data => if zlen data =? 0 then 0 else 34 + zlen data | _ => 0 end.
Definition call_fits (c : log_call) : Prop := match c with Push _ data => zlen data + 32 <= buffer_size | _ => True end.

Lemma kept_instants s : kept s -> Z.of_nat (instants s) <= spent s + 1.
Proof.
  intros [Hf Hc (W & ws & c & Hl)]. pose proof (lines_length _ _ _ _ Hl). destruct (opened_few s Hf) as [H1 _]. unfold counted, spent in *.
  pose proof (zlen_nonneg (concat (concat ws))). pose proof (zlen_nonneg (concat c)).
  pose proof (zlen_nonneg (default [] (writing s))). lia.
Qed.

Lemma spent_push s l : spent s + 2 + zlen l = 2 * zlen (pushed s ++ [l]) + zlen (concat (pushed s ++ [l])).
Proof. unfold spent. rewrite concat_app, !zlen_app, concat_one. change (zlen [l]) with 1. lia. Qed.

Lemma files_grow s s' : files_ok s -> opened s' = opened s -> disk s' = disk s -> _file s' = _file s -> current_size s' = current_size s -> (instants s <= instants s')%nat ->
  files_ok s'.
Proof.
  intros [(ns & E & Hd & Hf) Ht Hl] Eo Ed Ef Ec Hi. split; [| by rewrite Eo, Ed |].
  - exists ns. rewrite Eo. split_and!; [done | done |]. eapply list.Forall_impl; [exact Hf |]. cbn. intros n [? ?]. split; [lia | done].
  - unfold content in *. rewrite Eo, Ed, Ef, Ec. exact Hl.
Qed.

(** The messages a call adds to the log. *)
Definition taken (out : LogRank) (shut : bool) (c : log_call) : list (LogRank * list Z) :=
  match c with
  | Push rank data => if (rank_value rank <? rank_value out) || shut || (zlen data =? 0) then [] else [(rank, data)]
  | _ => []
  end.
Definition shuts (shut : bool) (c : log_call) : bool := match c with CloseThread => true | _ => shut end.
Definition line_for (l : list Z) (m : LogRank * list Z) : Prop := exists n, l = Line m.1 (clock n) m.2.

Record turn_ok (c : log_call) s s' : Prop := {
  turn_kept : kept s';
  turn_buffer : is_Some (_buffer s');
  turn_spent : spent s' <= spent s + cost c;
  turn_pushed : exists ls, pushed s' = pushed s ++ ls /\ Forall2 line_for ls (taken (outputRank s) (closed s) c);
  turn_rank : outputRank s' = outputRank s;
  turn_closed : closed s' = shuts (closed s) c;
  turn_order : c <> Flush -> in_order s' = in_order s }.

Lemma turn_silent c s s' : taken (outputRank s) (closed s) c = [] -> 0 <= cost c -> kept s' -> is_Some (_buffer s') -> pushed s' = pushed s -> outputRank s' = outputRank s ->
  closed s' = shuts (closed s) c -> (c <> Flush -> in_order s' = in_order s) -> turn_ok c s s'.
Proof.
  intros Ht Hc Hk Hb Hp Hr Hs Ho. split; try done; [unfold spent; rewrite Hp; lia |]. exists []. by rewrite app_nil_r, Ht.
Qed.

Lemma turn_line rank data n s s' : taken (outputRank s) (closed s) (Push rank data) = [(rank, data)] -> Z.of_nat n < horizon -> zlen data <> 0 -> kept s' ->
  pushed s' = pushed s ++ [Line rank (clock n) data] -> is_Some (_buffer s') -> outputRank s' = outputRank s -> closed s' = closed s -> in_order s' = in_order s ->
  turn_ok (Push rank data) s s'.
Proof.
  intros Ht Hn Hz Hk Hp Hb Hr Hs Ho. split; try done.
  - unfold spent at 1. rewrite Hp, <- spent_push, zlen_line by done. cbn [cost]. rewrite (proj2 (Z.eqb_neq (zlen data) 0)) by done. lia.
  - exists [Line rank (clock n) data]. rewrite Ht. split; [done |]. constructor; [by exists n | constructor].
Qed.

Lemma log_push_ok rank data s : kept s -> is_Some (_buffer s) -> zlen data + 32 <= buffer_size -> spent s + cost (Push rank data) < horizon ->
  wp (push clock pool patience 2 rank data) (fun _ s' => turn_ok (Push rank data) s s') s.
Proof.
  intros Hk [b Hb] Hfit Hh. unfold push. wp_run. unfold id. pose proof (kept_instants s Hk) as Hi. pose proof (zlen_nonneg data).
  assert (Hcost : 0 <= cost (Push rank data)) by (cbn [cost]; destruct (_ =? _); lia).
  assert (Ht : taken (outputRank s) (closed s) (Push rank data) = if (rank_value rank <? rank_value (outputRank s)) || closed s || (zlen data =? 0) then [] else [(rank, data)]) by done.
  destruct ((rank_value rank <? rank_value (outputRank s)) || closed s); [wp_run; apply turn_silent; [done | done | done | by exists b | done ..] |]. cbn [orb] in Ht.
  destruct (Z.eqb_spec (zlen data) 0) as [Hz | Hz].
  { cbn [push_loop]. rewrite (proj2 (Z.eqb_eq (zlen data) 0)) by done. wp_run. apply turn_silent; [done | done | done | by exists b | done ..]. }
  cbn [cost] in Hh. rewrite (proj2 (Z.eqb_neq (zlen data) 0)) in Hh by done.
  destruct Hk as [Hf Hc (W & ws & c & Hl)]. unfold counted in Hc.
  destruct (Z.ltb_spec (room b - zlen (bytes b)) (zlen data + 32)) as [Hfull | Hroom].
  - cbn [push_loop]. rewrite (proj2 (Z.eqb_neq (zlen data) 0)) by done. wp_run. eapply st_deref; [exact Hb |]. unfold now. wp_run.
    unfold append. rewrite (proj2 (Z.ltb_lt (room b - zlen (bytes b)) _)) by (unfold Time_us_format_len; lia). wp_run.
    rewrite (proj2 (Z.ltb_lt 0 (zlen data))) by lia. wp_run. wp_call (new_buffer_ok patience); [cbn; apply pool_patient |].
    intros _ s1 (b1 & n1 & -> & Hroom1 & Hempty). rewrite drop_0. match goal with |- wp _ _ ?st => wp_call (push_once_ok rank data st b1 0); [done | lia | rewrite Hempty; change (zlen []) with 0; lia |] end.
    intros _ s2 ->. cbn. rewrite Hempty. cbn [app]. apply (turn_line rank data (S (instants s))); [done | lia | done | | done | by eexists | done ..]. split.
    + by apply (files_grow s); [| | | | | cbn; lia].
    + unfold counted. cbn. rewrite zlen_app. change (zlen [_]) with 1. lia.
    + exists W, (ws ++ [c]), [Line rank (clock (S (instants s))) data]. destruct Hl as [H1 H2 H3 H4 H5]. rewrite Hb in H3. split; cbn; [done | | by rewrite app_nil_r | |].
      * apply Forall2_app; [done |]. by constructor.
      * rewrite concat_app, concat_one, <- H4. by rewrite !app_assoc.
      * intros Ho. rewrite concat_app, concat_one, <- H5 by done. by rewrite !app_assoc.
  - wp_call (push_once_ok rank data s b 1 Hb); [lia | done |]. intros _ s2 ->. apply (turn_line rank data (instants s)); [done | lia | done | | done | by eexists | done ..]. split.
    + by apply (files_grow s); [| | | | | cbn; lia].
    + unfold counted. cbn. rewrite zlen_app. change (zlen [_]) with 1. lia.
    + exists W, ws, (c ++ [Line rank (clock (instants s)) data]). by eapply pushed_lines.
Qed.

Lemma turn_beside c s s' : taken (outputRank s) (closed s) c = [] -> 0 <= cost c -> shuts (closed s) c = closed s -> kept s' -> is_Some (_buffer s') ->
  pushed s' = pushed s -> outputRank s' = outputRank s -> closed s' = closed s -> (c <> Flush -> in_order s' = in_order s) -> turn_ok c s s'.
Proof. intros Ht Hc Hs ? ? ? ? Hcl ?. apply turn_silent; [done .. | by rewrite Hcl, Hs | done]. Qed.

(** What the thread leaves alone. *)
Record apart s s' : Prop := {
  apart_rank : outputRank s' = outputRank s; apart_closed : closed s' = closed s; apart_buffer : _buffer s' = _buffer s;
  apart_pushed : pushed s' = pushed s; apart_order : in_order s' = in_order s }.

(** The thread takes the next buffer. *)
Lemma take_next_ok s b l : kept s -> waiting s = b :: l -> writing s = None -> kept (set_writing (Some (bytes b)) (set_waiting l s)).
Proof.
  intros [Hf Hc (W & ws & c & [H1 H2 H3 H4 H5])] E Hn. rewrite E in H2. rewrite Hn in H1. cbn [from_option id] in H1. rewrite app_nil_r in H1.
  apply Forall2_cons_inv_l in H2 as (w & ws' & Hbw & H2 & ->). split; [by apply (files_grow s) | done |].
  exists (W ++ w), ws', c. split; cbn [waiting writing _buffer pushed in_order set_writing set_waiting from_option id]; [| done | done | |].
  - rewrite concat_app, <- Hbw, <- H1. done.
  - rewrite <- H4. cbn [concat]. by rewrite !app_assoc.
  - intros Ho. rewrite <- H5 by done. cbn [concat]. by rewrite !app_assoc.
Qed.

(** Bytes move from what the thread has left to the files. *)
Lemma write_kept s s' r : kept s -> beside s s' -> files_ok s' -> counted s' -> written s' ++ default [] r = written s ++ default [] (writing s) ->
  kept (set_writing r s').
Proof.
  intros [Hf Hc (W & ws & c & [H1 H2 H3 H4 H5])] [Er Ec Eb Ew Ep Eo Eg] Hf' Hc' Hw. split; [by apply (files_grow s') | done |]. exists W, ws, c.
  split; cbn [waiting writing _buffer pushed in_order set_writing]; rewrite ?Ew, ?Eb, ?Ep, ?Eo; try done. rewrite <- H1. exact Hw.
Qed.

Lemma left_short s : kept s -> 2 * zlen (pushed s) + zlen (written s) + zlen (default [] (writing s)) <= spent s.
Proof.
  intros [_ _ (W & ws & c & Hl)]. pose proof (lines_length _ _ _ _ Hl). pose proof (zlen_nonneg (concat (concat ws))). pose proof (zlen_nonneg (concat c)).
  unfold spent. lia.
Qed.

Lemma invoke_step_ok s : kept s -> spent s < horizon -> wp (invoke_step clock _path limit_size) (fun _ s' => kept s' /\ apart s s') s.
Proof.
  intros Hk Hh. pose proof (left_short s Hk) as Hs. pose proof Hk as [Hf Hc _]. unfold invoke_step. wp_run. destruct (writing s) as [buffer |] eqn:Eg; cbn [from_option id] in Hs.
  - destruct (Z.eqb_spec (zlen buffer) 0) as [Hz | Hz].
    + wp_run. split; [| done]. apply (write_kept s); [done | apply beside_refl | done | done |]. rewrite Eg. destruct buffer; [done |].
      rewrite zlen_cons in Hz. pose proof (zlen_nonneg buffer). lia.
    + wp_run. wp_call (write_round_ok buffer s Hf Hc); [by intros -> | lia |]. intros r s1 (Hb & Hf1 & Hc1 & Hw & _). wp_run.
      split; [apply (write_kept s); [done .. | by rewrite Eg] | by destruct Hb].
  - wp_run. destruct (waiting s) as [| b l] eqn:E; wp_run; [by split |]. split; [by apply take_next_ok | done].
Qed.

Lemma invoke_rest_ok s : kept s -> spent s < horizon ->
  wp (invoke_rest clock _path limit_size) (fun _ s' => kept s' /\ beside (set_writing None s) s') s.
Proof.
  intros Hk Hh. pose proof (left_short s Hk) as Hs. pose proof Hk as [Hf Hc _]. unfold invoke_rest. wp_run. destruct (writing s) as [buffer |] eqn:Eg; cbn [from_option id] in Hs.
  - wp_run. wp_call (log_write_loop_ok (length buffer + 2) buffer s Hf Hc); [unfold zlen; case_decide; lia | lia |]. intros _ s1 (Hb & Hf1 & Hc1 & Hw). wp_run. split.
    + apply (write_kept s); [done .. |]. rewrite Eg, app_nil_r. exact Hw.
    + destruct Hb. by split.
  - wp_run. split; [done |]. by split.
Qed.

Lemma invoke_next_ok s : kept s -> spent s < horizon -> writing s = None ->
  wp (invoke_next clock _path limit_size) (fun _ s' => kept s' /\ beside (set_waiting (tail (waiting s)) s) s') s.
Proof.
  intros Hk Hh Hn. pose proof Hk as [Hf Hc _]. unfold invoke_next, invoke. wp_run. destruct (waiting s) as [| b l] eqn:E.
  { wp_run. split; [done |]. by split. }
  pose proof (take_next_ok s b l Hk E Hn) as Hk1. pose proof (left_short _ Hk1) as Hs. cbn [from_option id writing set_writing] in Hs.
  wp_run. wp_call (log_write_ok b (set_waiting l s)); [by apply (files_grow s) | done | exact (Z.le_lt_trans _ _ _ Hs Hh) |].
  intros _ s' (Hbe & Hf' & Hc' & Hw). split; [| done].
  assert (Hb' : beside (set_writing (Some (bytes b)) (set_waiting l s)) (set_writing (Some (bytes b)) s')) by (destruct Hbe; by split).
  assert (Hk' : kept (set_writing None (set_writing (Some (bytes b)) s'))).
  { apply (write_kept (set_writing (Some (bytes b)) (set_waiting l s))); [done | done | by apply (files_grow s') | done |]. cbn [from_option id]. rewrite app_nil_r. exact Hw. }
  destruct s'. destruct Hbe. cbn in beside_writing0. rewrite Hn in beside_writing0. subst. exact Hk'.
Qed.

Lemma force_invoke_ok s : kept s -> is_Some (_buffer s) -> spent s < horizon -> writing s = None ->
  wp (force_invoke clock _path limit_size) (fun _ s' => turn_ok Flush s s') s.
Proof.
  intros Hk [b Hb] Hh Hn. pose proof Hk as [Hf Hc (W & ws & c & Hl)]. pose proof (lines_length _ _ _ _ Hl) as Hlen. pose proof (zlen_nonneg (concat (concat ws))).
  destruct Hl as [H1 H2 H3 H4 H5]. rewrite Hb in H3. rewrite Hn in H1, Hlen. cbn [from_option id] in H1, Hlen. rewrite app_nil_r in H1. change (zlen (@nil Z)) with 0 in Hlen.
  unfold force_invoke. wp_run. rewrite Hb. destruct (Z.eqb_spec (zlen (bytes b)) 0) as [Hz | Hz].
  { wp_run. apply turn_beside; [done | done | done | done | by exists b | done ..]. }
  wp_run. rewrite Hn. unfold note_order. wp_run. match goal with |- wp _ _ ?st => wp_call (log_write_ok b st) end; [by apply (files_grow s) | done | |].
  { change (2 * zlen (pushed s) + zlen (written s) + zlen (bytes b) < horizon). unfold spent in Hh. rewrite H3. lia. }
  intros _ s' (Hbe & Hf' & Hc' & Hw). destruct Hbe as [Er Ec Eb Ew Ep Eo Eg]. cbn in Er, Ec, Eb, Ew, Ep, Eo, Eg. wp_run.
  apply turn_beside; [done | done | done | | by eexists | done .. | done]. split; [by apply (files_grow s') | exact Hc' |]. exists (W ++ c), ws, []. split; cbn.
  - rewrite Eg, Hn. cbn [from_option id]. rewrite app_nil_r. change (written s' = concat (W ++ c)). rewrite Hw, concat_app, <- H3. f_equal. exact H1.
  - by rewrite Ew.
  - done.
  - rewrite app_nil_r, Ep, <- H4, <- !app_assoc. apply Permutation_app_head, Permutation_app_comm.
  - rewrite Eo, Ep. intros [Ho Hn'%bool_decide_eq_true]%andb_prop. rewrite Hn' in H2. apply Forall2_nil_inv_l in H2 as ->. cbn. rewrite !app_nil_r. by apply H5.
Qed.

(** A flush either finds the thread in the middle of a buffer or is as safe as the other calls. *)
Lemma flush_case s : (writing s = None \/ force_invoke clock _path limit_size s = Fault DataRace) \/
  wp (force_invoke clock _path limit_size) (fun _ s' => s' = s) s.
Proof.
  unfold force_invoke. destruct (writing s) eqn:E; [| by left; left]. destruct (_buffer s) as [b |] eqn:Eb.
  - destruct (zlen (bytes b) =? 0) eqn:Hz.
    + right. wp_run. by rewrite Eb, Hz.
    + left. right. unfold mbind, ST_bind, gets, lift. by rewrite Eb, Hz, E.
  - right. wp_run. by rewrite Eb.
Qed.

Lemma log_exec_ok c s : kept s -> is_Some (_buffer s) -> call_fits c -> spent s + cost c < horizon ->
  (c = Flush /\ exec c s = Fault DataRace) \/ wp (exec c) (fun _ s' => turn_ok c s s') s.
Proof.
  intros Hk Hb Hfit Hh. destruct c as [rank data | | |]; cbn [SystemLog.exec].
  - right. by apply log_push_ok.
  - right. cbn [cost] in Hh. eapply st_mono; [apply invoke_step_ok; [done | lia] |]. intros _ s' [Hk' [Er Ec Eb Ep Eo]].
    apply turn_beside; [done | done | done | done | by rewrite Eb | done ..].
  - cbn [cost] in Hh. destruct (flush_case s) as [[Hn | Hr] | Hs]; [right | by left | right].
    + apply force_invoke_ok; [done | done | lia | done].
    + eapply st_mono; [exact Hs |]. intros _ s' ->. by apply turn_beside.
  - right. wp_run. apply turn_silent; [done | done | | done ..]. destruct Hk as [Hf Hc (W & ws & c & [H1 H2 H3 H4 H5])]. split; [by apply (files_grow s) | done |]. exists W, ws, c. by split.
Qed.

Fixpoint total (cs : list log_call) : Z := match cs with [] => 0 | c :: cs => cost c + total cs end.
Fixpoint accepted (out : LogRank) (shut : bool) (cs : list log_call) : list (LogRank * list Z) :=
  match cs with [] => [] | c :: cs => taken out shut c ++ accepted out (shuts shut c) cs end.

Lemma cost_nonneg c : 0 <= cost c.
Proof. destruct c as [r d | | |]; cbn; [| done ..]. pose proof (zlen_nonneg d). destruct (_ =? _); lia. Qed.
Lemma total_nonneg cs : 0 <= total cs.
Proof. induction cs as [| c cs IH]; cbn; [done |]. pose proof (cost_nonneg c). lia. Qed.

Definition run_ok cs s s' : Prop :=
  kept s' /\ is_Some (_buffer s') /\ spent s' <= spent s + total cs /\
  (exists ls, pushed s' = pushed s ++ ls /\ Forall2 line_for ls (accepted (outputRank s) (closed s) cs)) /\
  closed s' = fold_left shuts cs (closed s) /\ (Flush ∉ cs -> in_order s' = in_order s).

Lemma log_run_ok cs : forall s, kept s -> is_Some (_buffer s) -> Forall call_fits cs -> spent s + total cs < horizon ->
  (Flush ∈ cs /\ run cs s = Fault DataRace) \/ wp (run cs) (fun _ s' => run_ok cs s s') s.
Proof.
  induction cs as [| c cs IH]; intros s Hk Hb Hfit Hh; cbn [SystemLog.run total accepted fold_left] in *.
  { right. wp_run. split_and!; try done; [cbn; lia |]. exists []. split; [by rewrite app_nil_r | constructor]. }
  apply list.Forall_cons in Hfit as [Hc Hcs]. pose proof (total_nonneg cs).
  destruct (log_exec_ok c s Hk Hb Hc ltac:(lia)) as [[-> Hr] | Hok].
  { left. split; [left |]. unfold mbind, ST_bind. by rewrite Hr. }
  apply st_intro in Hok as ([] & s1 & E1 & [Hk1 Hb1 Hs1 (ls & Ep & Hl) Er Ecl Eo]).
  destruct (IH s1 Hk1 Hb1 Hcs ltac:(lia)) as [[Hin Hr] | Hok].
  { left. split; [by right |]. unfold mbind, ST_bind. by rewrite E1. }
  right. apply st_intro in Hok as ([] & s2 & E2 & Hk2 & Hb2 & Hs2 & (ls' & Ep' & Hl') & Ecl' & Eo').
  apply st_intro. exists tt, s2. split; [unfold mbind, ST_bind; by rewrite E1 |]. split_and!; [done | done | cbn [total]; lia | | by rewrite Ecl', Ecl |].
  - exists (ls ++ ls'). rewrite Ep', Ep, app_assoc. split; [done |]. apply Forall2_app; [done |]. by rewrite <- Er, <- Ecl.
  - intros Hn. rewrite Eo' by (intros Hin; apply Hn; by right). apply Eo. intros ->. apply Hn. by left.
Qed.

Lemma drain_ok n : forall s, kept s -> spent s < horizon -> writing s = None -> length (waiting s) = n ->
  wp (drain clock _path limit_size n) (fun _ s' => kept s' /\ beside (set_waiting [] s) s') s.
Proof.
  induction n as [| n IH]; intros s Hk Hh Hg Hn; cbn [drain].
  { wp_run. split; [done |]. by destruct (waiting s) eqn:E. }
  wp_run. wp_call (invoke_next_ok s Hk Hh Hg). intros _ s1 [Hk1 [Er Ec Eb Ew Ep Eo Eg]]. cbn in Er, Ec, Eb, Ew, Ep, Eo, Eg.
  wp_call (IH s1 Hk1); [by unfold spent; rewrite Ep | congruence | by rewrite Ew; destruct (waiting s); cbn in *; lia |].
  intros _ s2 [Hk2 []]. split; [done |]. cbn in *. split; cbn; congruence.
Qed.

Lemma open_new_file_eq s : Z.of_nat (instants s) < horizon ->
  open_new_file clock _path s = Ret (tt, mkLog (outputRank s) (closed s) (_buffer s) (waiting s) 0 (Some (name_of (instants s))) (<[name_of (instants s) := []]> (disk s))
    (asked s) (S (instants s)) (opened s ++ [name_of (instants s)]) (pushed s) (in_order s) (writing s)).
Proof.
  intros Hh. assert (Hw : wp (open_new_file clock _path) (fun _ s' => s' = mkLog (outputRank s) (closed s) (_buffer s) (waiting s) 0 (Some (name_of (instants s)))
    (<[name_of (instants s) := []]> (disk s)) (asked s) (S (instants s)) (opened s ++ [name_of (instants s)]) (pushed s) (in_order s) (writing s)) s).
  { unfold open_new_file, now. wp_run. eapply st_lift; [by apply to_string_text, times_fit |]. by wp_run. }
  apply st_intro in Hw as ([] & s' & E & ->). exact E.
Qed.

Lemma log_new_ok rank : 0 < horizon -> exists s, log_new clock pool _path rank = Ret s /\ kept s /\ is_Some (_buffer s) /\ pushed s = [] /\ outputRank s = rank /\
  closed s = false /\ in_order s = true.
Proof.
  intros Hh. unfold log_new. rewrite open_new_file_eq by (cbn; lia). cbn -[Time_text]. eexists. split; [done |]. fold (name_of 0). cbn -[Time_text].
  split_and!; [| by eexists | done ..]. assert (Hc : forall q, default [] ((<[q := []]> ∅ : gmap path (list Z)) !! q) = []) by (intros q; by rewrite lookup_insert_eq).
  split.
  - split; cbn.
    + exists [0%nat]. split_and!; [done | apply NoDup_singleton | constructor; [split; cbn; lia | constructor]].
    + intros q ->%list_elem_of_singleton. rewrite lookup_insert_eq. by eexists.
    + eexists [], _. unfold content. cbn. rewrite Hc. split_and!; [done | done | done | lia | constructor].
  - change (1 <= 1). lia.
  - exists [], [], []. split; cbn; [| constructor | done ..]. unfold written, content. cbn. by rewrite Hc.
Qed.

Lemma log_destroy_ok s : kept s -> closed s = false ->
  wp destroy (fun _ s' => kept s' /\ _buffer s' = None /\ pushed s' = pushed s /\ in_order s' = in_order s) s.
Proof.
  intros [Hf Hc (W & ws & c & [H1 H2 H3 H4 H5])] Hcl. unfold destroy. wp_run. unfold id, when. rewrite Hcl. destruct (_buffer s) as [b |]; cbn [negb]; wp_run.
  - split; [| done]. split; [by apply (files_grow s) | done |]. exists W, (ws ++ [c]), []. split; cbn; [done | | done | |].
    + apply Forall2_app; [done |]. by constructor.
    + by rewrite concat_app, concat_one, app_nil_r.
    + intros Ho. rewrite concat_app, concat_one, app_nil_r. by apply H5.
  - split; [| done]. split; [by apply (files_grow s) | done |]. exists W, ws, c. by split.
Qed.

Lemma shuts_open cs shut : CloseThread ∉ cs -> fold_left shuts cs shut = shut.
Proof. induction cs as [| c cs IH]; intros Hn; [done |]. cbn. apply not_elem_of_cons in Hn as [Hc Hn]. rewrite <- (IH Hn) at 2. by destruct c. Qed.

End Kept.

(** ** Sample sessions *)

Definition demo_clock (n : nat) : Time := mkTime 124 0 1 0 0 0 (Z.of_nat n).
(** The pool refuses every third request. *)
Definition demo_pool (n : nat) : Z := if decide (n mod 3 = 2)%nat then 0 else 80.
Definition letters (from : Z) (n : nat) : list Z := map (fun i => from + Z.of_nat i) (seq 0 n).
Definition demo_calls : list log_call :=
  [Push INFO (letters 65 26); Push DEBUG (letters 97 4); Push ERROR (letters 97 26); InvokeStep; InvokeStep; Push WARN []; Push FATAL (letters 48 10); InvokeStep; Push INFO (letters 65 9)].
Definition demo_session := session demo_clock demo_pool 1 [108;47] 64.

Lemma demo_fits n : Z.of_nat n < 1000 -> printable (demo_clock n).
Proof. intros H. split_and!; cbn; [lia | lia | repeat constructor; lia | lia | lia]. Qed.
Lemma demo_differ n m : Z.of_nat n < 1000 -> Z.of_nat m < 1000 -> Time_text (demo_clock n) true = Time_text (demo_clock m) true -> n = m.
Proof.
  intros Hn Hm E. pose proof (text_order _ _ (demo_fits n Hn) (demo_fits m Hm)) as Ho. rewrite E, (text_order _ _ (demo_fits m Hm) (demo_fits m Hm)) in Ho.
  unfold demo_clock, fields in Ho. cbn [memcmp tm_year tm_mon tm_mday tm_hour tm_min tm_sec tm_us Z.add Z.eqb Pos.eqb Pos.add Pos.succ Pos.add_carry] in Ho.
  rewrite !Z.eqb_refl in Ho. destruct (Z.eqb_spec (Z.of_nat n) (Z.of_nat m)) as [| Hne]; [lia |]. change (Z.sgn 0) with 0 in Ho. symmetry in Ho. apply Z.sgn_null_iff in Ho. lia.
Qed.
Lemma demo_gives n : demo_pool n = 0 \/ 80 <= demo_pool n.
Proof. unfold demo_pool. case_decide; lia. Qed.
Lemma demo_patient n : exists k, (k <= 1)%nat /\ demo_pool (n + k)%nat <> 0.
Proof.
  unfold demo_pool. destruct (decide (n mod 3 = 2)%nat) as [E | E]; [exists 1%nat | exists 0%nat]; (split; [lia |]); rewrite decide_False; [done | | done |].
  - pose proof (Nat.div_mod_eq n 3). pose proof (Nat.div_mod_eq (n + 1) 3). pose proof (Nat.mod_upper_bound (n + 1) 3). lia.
  - by rewrite Nat.add_0_r.
Qed.


(** [flush] writes the buffer in use before the full one that waits. *)
Example flush_reorders :
  (s ← demo_session INFO [Push INFO (letters 65 26); Push INFO (letters 97 26); Flush]; Ret (written s, map (drop 31) (pushed s))) =
  Ret (Line INFO (demo_clock 3) (letters 97 26) ++ Line INFO (demo_clock 1) (letters 65 26), [letters 65 26 ++ [10]; letters 97 26 ++ [10]]).
Proof. vm_compute. reflexivity. Qed.

(** [flush] while the thread is in the middle of a buffer: [invoke] has no lock. *)
Example flush_races :
  demo_session INFO [Push INFO (letters 65 26); Push INFO (letters 97 26); InvokeStep; Flush] = Fault DataRace.
Proof. vm_compute. reflexivity. Qed.

(** What is in the buffer when the thread is shut down is never written. *)
Example shutdown_loses_buffer :
  (s ← demo_session INFO [Push INFO (letters 65 26); CloseThread]; Ret (written s, length (pushed s))) = Ret ([], 1%nat).
Proof. vm_compute. reflexivity. Qed.

(** A message that does not fit into an empty buffer is tried again for ever, a buffer being given away each time. *)
Example long_message :
  (s ← log_new demo_clock demo_pool [108;47] INFO; push demo_clock demo_pool 1 50 INFO (letters 0 60) s) = Fault OutOfFuel.
Proof. vm_compute. reflexivity. Qed.
