(* ===== verification/LogStream.v ===== *)
(** * LogStream: a line of the text log (class LogStream of Base/SystemLog.hpp)

    A stream collects the pieces of one message in an array of 256 bytes and pushes them when it is
    destroyed.  Strings are clipped; every other type is printed by [snprintf], of which the model says
    what the C standard says: at most [n - 1] characters and a zero are written, and the length the
    whole text would have is returned.  The text itself is an argument. *)

From S2P Require Import Prelude SystemLog.
Local Open Scope Z_scope.

Definition BUFFER_SIZE : Z := 256.

Record LogStream := mkStream { _rank : LogRank; _index : Z; _message : list Z }.

Definition log_stream (rank : LogRank) : LogStream := mkStream rank 0 (replicate 256 0).

(** [BUFFER_SIZE - _index] in 32 bits. *)
Definition space (s : LogStream) : Z := u32 (BUFFER_SIZE - _index s).

(** [operator<<] for strings and string views; [out] is the rank of the log. *)
Definition put_string (out : LogRank) (val : list Z) (s : LogStream) : res LogStream :=
  if rank_value (_rank s) <? rank_value out then Ret s else
  let len := if space s <? zlen val then space s else zlen val in
  m ← mem_write (_message s) (_index s) (take (Z.to_nat len) val);
  Ret (mkStream (_rank s) (u32 (_index s + len)) m).

Definition snprintf (m : list Z) (at_ n : Z) (text : list Z) : res (list Z) :=
  if n =? 0 then Ret m else mem_write m at_ (take (Z.to_nat (n - 1)) text ++ [0]).

(** [operator<<] for the other types. *)
Definition put_format (out : LogRank) (text : list Z) (s : LogStream) : res LogStream :=
  if rank_value (_rank s) <? rank_value out then Ret s else
  m ← snprintf (_message s) (_index s) (space s) text;
  Ret (mkStream (_rank s) (u32 (_index s + zlen text)) m).

(** The bytes the destructor pushes. *)
Definition pushed_bytes (s : LogStream) : res (list Z) := mem_read (_message s) 0 (_index s).

Inductive piece := Str (val : list Z) | Fmt (text : list Z).
Definition text_of (x : piece) : list Z := match x with Str v | Fmt v => v end.
Definition put_piece (out : LogRank) (x : piece) (s : LogStream) : res LogStream :=
  match x with Str v => put_string out v s | Fmt v => put_format out v s end.

Fixpoint put_pieces (out : LogRank) (xs : list piece) (s : LogStream) : res LogStream :=
  match xs with [] => Ret s | x :: xs => s ← put_piece out x s; put_pieces out xs s end.

Definition message (out rank : LogRank) (xs : list piece) : res (list Z) :=
  s ← put_pieces out xs (log_stream rank); pushed_bytes s.

(** A whole statement [INFO(log) << ...]. *)
Definition log_message (clock : nat -> TimeText.Time) (pool : nat -> Z) (patience : nat) (rank : LogRank) (xs : list piece) (s : SystemLog) : res SystemLog :=
  data ← message (outputRank s) rank xs;
  '(_, s) ← push clock pool patience 2 rank data s;
  Ret s.

(** ** Messages *)

(** Every printed text fits with its zero. *)
Fixpoint fits (used : Z) (xs : list piece) : Prop :=
  match xs with
  | [] => True
  | Str v :: xs => fits (Z.min 256 (used + zlen v)) xs
  | Fmt v :: xs => used + zlen v < 256 /\ fits (used + zlen v) xs
  end.

Definition collected (xs : list piece) : list Z := take 256 (concat (map text_of xs)).

(** What a stream holds after the bytes [X]. *)
Record holds (X : list Z) (s : LogStream) : Prop := {
  holds_index : _index s = zlen X;
  holds_room : zlen X <= 256;
  holds_bytes : exists Y, _message s = X ++ Y /\ zlen (_message s) = 256 }.

Section Streams.
Context (out : LogRank).
Implicit Types (s : LogStream) (X : list Z).

Definition enabled (rank : LogRank) : Prop := rank_value out <= rank_value rank.

Lemma space_holds X s : holds X s -> space s = 256 - zlen X.
Proof. intros [Hi Hr _]. unfold space, BUFFER_SIZE, u32. rewrite Hi. pose proof (zlen_nonneg X). apply Z.mod_small. lia. Qed.

(** Bytes written at the end, of which [k] count. *)
Lemma holds_write X s data k : holds X s -> 0 <= k <= zlen data -> zlen X + zlen data <= 256 -> exists m,
  mem_write (_message s) (_index s) data = Ret m /\ holds (X ++ take (Z.to_nat k) data) (mkStream (_rank s) (u32 (_index s + k)) m).
Proof.
  intros [Hi Hr (Y & E & Hz)] Hk Hfit. rewrite Hi, E in *. rewrite zlen_app in Hz. destruct (split_at Y (zlen data)) as (D & Y' & -> & HD); [lia |].
  rewrite (mem_write_mid X D data Y') by done. eexists. split; [done |]. rewrite !zlen_app in Hz. split; cbn.
  - rewrite zlen_app, zlen_take by lia. pose proof (zlen_nonneg X). apply Z.mod_small. lia.
  - rewrite zlen_app, zlen_take by lia. lia.
  - exists (drop (Z.to_nat k) data ++ Y'). rewrite <- app_assoc. split; [by rewrite (app_assoc (take _ _)), take_drop | rewrite !zlen_app; lia].
Qed.

Lemma put_string_ok X s v : enabled (_rank s) -> holds X s -> exists s', put_string out v s = Ret s' /\ _rank s' = _rank s /\
  holds (X ++ take (Z.to_nat (256 - zlen X)) v) s'.
Proof.
  intros He Hh. unfold put_string, enabled in *. rewrite (proj2 (Z.ltb_ge _ _)) by lia. rewrite (space_holds X s Hh). pose proof (holds_room X s Hh). pose proof (zlen_nonneg v).
  set (len := if 256 - zlen X <? zlen v then 256 - zlen X else zlen v).
  assert (Hlen : 0 <= len /\ len <= zlen v /\ len <= 256 - zlen X /\ take (Z.to_nat len) v = take (Z.to_nat (256 - zlen X)) v).
  { unfold len. destruct (Z.ltb_spec (256 - zlen X) (zlen v)); split_and!; try lia; [done |]. unfold zlen in *. rewrite !take_ge by lia. done. }
  destruct Hlen as (H1 & H2 & H3 & <-). assert (Ht : zlen (take (Z.to_nat len) v) = len) by (apply zlen_take; lia).
  destruct (holds_write X s (take (Z.to_nat len) v) len Hh) as (m & -> & Hm); [lia | lia |]. rewrite take_idemp in Hm. cbn. by eexists.
Qed.

Lemma put_format_ok X s v : enabled (_rank s) -> holds X s -> zlen X + zlen v < 256 -> exists s', put_format out v s = Ret s' /\ _rank s' = _rank s /\ holds (X ++ v) s'.
Proof.
  intros He Hh Hfit. unfold put_format, snprintf, enabled in *. rewrite (proj2 (Z.ltb_ge _ _)) by lia. rewrite (space_holds X s Hh). pose proof (zlen_nonneg v).
  rewrite (proj2 (Z.eqb_neq (256 - zlen X) 0)) by lia. assert (Ht : take (Z.to_nat (256 - zlen X - 1)) v = v) by (apply take_ge; unfold zlen in *; lia). rewrite Ht.
  destruct (holds_write X s (v ++ [0]) (zlen v) Hh) as (m & -> & Hm); [rewrite zlen_app; change (zlen [0]) with 1; lia .. |]. rewrite take_zlen in Hm by done. cbn. by eexists.
Qed.

Lemma put_pieces_ok xs : forall X s, enabled (_rank s) -> holds X s -> fits (zlen X) xs ->
  exists s', put_pieces out xs s = Ret s' /\ _rank s' = _rank s /\ holds (take 256 (X ++ concat (map text_of xs))) s'.
Proof.
  induction xs as [| x xs IH]; intros X s He Hh Hf; cbn [put_pieces map concat]; pose proof (holds_room X s Hh) as Hr.
  { exists s. rewrite app_nil_r, take_ge by (unfold zlen in Hr; lia). done. }
  destruct x as [v | v]; cbn [fits put_piece text_of] in *.
  - destruct (put_string_ok X s v He Hh) as (s1 & -> & Er & Hh1). cbn. destruct (IH _ s1 ltac:(unfold enabled; by rewrite Er) Hh1) as (s2 & E2 & Er2 & Hh2).
    { replace (zlen (X ++ _)) with (Z.min 256 (zlen X + zlen v)); [done |]. rewrite zlen_app. unfold zlen in *. rewrite length_take. lia. }
    exists s2. split_and!; [done | by rewrite Er2 |]. replace (take 256 (X ++ v ++ _)) with (take 256 ((X ++ take (Z.to_nat (256 - zlen X)) v) ++ concat (map text_of xs))); [done |].
    unfold zlen in *. replace (Z.to_nat (256 - Z.of_nat (length X))) with (256 - length X)%nat by lia.
    rewrite <- app_assoc, !take_app. rewrite take_take, length_take. f_equal. rewrite Nat.min_id. f_equal. destruct (Nat.le_gt_cases (256 - length X) (length v)).
    + rewrite Nat.min_l by done. rewrite Nat.sub_diag. replace (256 - length X - length v)%nat with 0%nat by lia. done.
    + by rewrite Nat.min_r by lia.
  - destruct Hf as [Hfit Hf]. destruct (put_format_ok X s v He Hh Hfit) as (s1 & -> & Er & Hh1). cbn. destruct (IH _ s1 ltac:(unfold enabled; by rewrite Er) Hh1) as (s2 & E2 & Er2 & Hh2).
    { by rewrite zlen_app. }
    exists s2. rewrite Er2, app_assoc. done.
Qed.

Lemma new_holds rank : holds [] (log_stream rank).
Proof. split; [done | done |]. by eexists. Qed.

Lemma pushed_holds X s : holds X s -> pushed_bytes s = Ret X.
Proof.
  intros [Hi _ (Y & E & _)]. unfold pushed_bytes. rewrite Hi, E. apply (mem_read_mid [] X Y); done.
Qed.

Lemma disabled_pieces xs : forall s, ~ enabled (_rank s) -> put_pieces out xs s = Ret s.
Proof.
  induction xs as [| x xs IH]; intros s Hn; [done |]. cbn [put_pieces]. replace (put_piece out x s) with (Ret s); [by apply IH |].
  destruct x; cbn [put_piece]; unfold put_string, put_format, enabled in *; by rewrite (proj2 (Z.ltb_lt _ _)) by lia.
Qed.

(** A text that goes past the array leaves an index past it. *)
Lemma put_format_over X s v : enabled (_rank s) -> holds X s -> 256 < zlen X + zlen v < 4294967296 -> exists s', put_format out v s = Ret s' /\
  _index s' = zlen X + zlen v /\ zlen (_message s') = 256.
Proof.
  intros He Hh Hover. unfold put_format, snprintf, enabled in *. rewrite (proj2 (Z.ltb_ge _ _)) by lia. rewrite (space_holds X s Hh).
  pose proof (zlen_nonneg X). pose proof Hh as [Hi Hr (Y & E & Hz)].
  assert (Hu : u32 (_index s + zlen v) = zlen X + zlen v) by (rewrite Hi; apply Z.mod_small; lia). rewrite Hu.
  destruct (Z.eqb_spec (256 - zlen X) 0) as [Hfull | Hroom]; [cbn; by eexists |].
  assert (Hin : in_block (_index s) (zlen (take (Z.to_nat (256 - zlen X - 1)) v ++ [0])) (_message s) = true).
  { rewrite zlen_app, zlen_take by (pose proof (zlen_nonneg v); lia). change (zlen [0]) with 1. apply in_block_intro; lia. }
  unfold mem_write. rewrite Hin. cbn. eexists. split_and!; [done | done |]. cbn. by rewrite zlen_blit.
Qed.

(** C39. A stream of a rank the log takes pushes the first 256 bytes of its pieces, whatever the
    lengths of the strings, provided each printed text fits with its zero; a printed text that goes past the
    array makes the destructor read past it; and of a lower rank nothing is pushed. *)
Theorem stream_pushes rank xs : fits 0 xs ->
  (enabled rank -> message out rank xs = Ret (collected xs) /\
    forall v, 256 < zlen (collected xs) + zlen v < 4294967296 -> message out rank (xs ++ [Fmt v]) = Fault OutOfBounds) /\
  (~ enabled rank -> message out rank xs = Ret []).
Proof.
  intros Hf. split.
  - intros He. destruct (put_pieces_ok xs [] (log_stream rank) He (new_holds rank) Hf) as (s & E & Er & Hh). fold (collected xs) in Hh. split.
    + unfold message. rewrite E. by apply pushed_holds.
    + intros v Hover. assert (Happ : forall ys s0 s1 x, put_pieces out ys s0 = Ret s1 -> put_pieces out (ys ++ [x]) s0 = put_piece out x s1).
      { induction ys as [| y ys IH]; intros s0 s1 x; cbn; [intros [= ->]; by destruct (put_piece out x s1) |]. destruct (put_piece out y s0); cbn; [apply IH | done]. }
      unfold message. rewrite (Happ _ _ _ _ E). cbn [put_piece]. destruct (put_format_over (collected xs) s v) as (s1 & -> & Hi & Hz); [by rewrite Er | done | done |]. cbn.
      unfold pushed_bytes, mem_read, in_block. rewrite Hz, Hi. rewrite (proj2 (Z.leb_gt (0 + _) 256)) by lia. by rewrite andb_false_r.
  - intros Hn. unfold message. rewrite disabled_pieces by done. by apply (pushed_holds []), new_holds.
Qed.
End Streams.

Definition sample_pieces : list piece := [Str (letters 65 20); Fmt (letters 48 3); Str (letters 0 250); Str (letters 65 5)].

Lemma stream_pushes_witness :
  fits 0 sample_pieces /\
  (enabled INFO WARN -> message INFO WARN sample_pieces = Ret (collected sample_pieces) /\
    forall v, 256 < zlen (collected sample_pieces) + zlen v < 4294967296 -> message INFO WARN (sample_pieces ++ [Fmt v]) = Fault OutOfBounds) /\
  (~ enabled INFO WARN -> message INFO WARN sample_pieces = Ret []).
Proof. assert (Hf : fits 0 sample_pieces) by (vm_compute; auto). split; [exact Hf | apply (stream_pushes INFO WARN sample_pieces Hf)]. Defined.

(** A printed text that fills the array exactly loses its last character to the zero. *)
Example last_character_lost : message INFO INFO [Str (letters 0 250); Fmt (letters 65 6)] = Ret (letters 0 250 ++ [65;66;67;68;69;0]).
Proof. vm_compute. reflexivity. Qed.

Example whole_statement :
  (s ← log_new demo_clock demo_pool [108;47] INFO; s ← log_message demo_clock demo_pool 1 WARN [Str [97]; Fmt [49;50]] s; Ret (pushed s)) =
  Ret [Line WARN (demo_clock 1) [97;49;50]].
Proof. vm_compute. reflexivity. Qed.
