(* ===== verification/LinkLogPipeline.v ===== *)
(** * LinkLogPipeline: from the loggers to the files and the center (LogSystem/linkLog/src/LinkLogServer.cpp)

    LinkLogServer.v has the registry; here are the buffers its operations write to.  A full buffer is
    sent through a pipe to the server's thread, which appends it to the record files and copies it to the
    link of the center; when the pool has no buffer left, the logger writes to the files itself.  The
    chunks given to the encoder of RecordFiles.v are a list, and the ring of the center's agent is
    the bounded queue that RingQueue.v shows it to be.  What the pool answers, whether the pipe takes a message, what
    [poll] reports and how much a socket takes are arguments, as is the clock.  A call of a logger is one
    step, since it holds the mutex of its buffer until it waits, and so are the polling, the work on one message, on one
    buffer and on the center's queue of the thread, in any order with the calls of the loggers; that
    both sides call the encoder without a lock is left out.  The functions of the
    user's handler are not called in the model. *)

From stdpp Require Import sorting.
From S2P Require Import Prelude StateMonad.
Local Open Scope Z_scope.

(** The memory of a buffer of the pool. *)
Abbreviation block := (list Z).

(** [waiter]: what the threads that wait in [submit_buffer] have still to write, with the number that is
    added to [index] then. *)
Record Buffer := mkBuffer { index : Z; buf : option block; last_flush_time : Z; waiters : list (list Z * Z) }.

Inductive LinkLogMessage :=
  | ClearBuffer (size : Z) (flushed : bool) (begin : Z) (buf_ptr : block)
  | TimeOut (time_out : list Z)
  | ShutDownServer
  | CentralOffline
  | NodeOffline (sent : bool).

(** A link to the center: the ring of its agent and what its socket took.  [told] is not in the
    code: what was put into the ring completely, in order. *)
Inductive told_unit := Logs (bytes : list Z) | Mark (bytes : list Z).
Definition unit_bytes (u : told_unit) : list Z := match u with Logs l | Mark l => l end.
Record link := mkLink { output : list Z; sent_bytes : list Z; told : list told_unit }.

(** [_pipe]: messages written to the pipe; [_input]: those the receiver has.  The last three are not
    in the code: the links that were destroyed, the records that were stored in buffers, and the number of calls
    of the pool, the pipe and the clock. *)
Record server := mkServer {
  _buffers : list Buffer; _pipe : list LinkLogMessage; _input : list LinkLogMessage; wait_queue : list LinkLogMessage;
  chunks : list (list Z); _center : option link; center_input : list LinkLogMessage; acceptor_open : bool;
  past : list link; stored : list (list Z); asked : nat; notices : nat; ticks : nat }.

(** What [poll] reports of the center's socket: the answer of the receiver when it is readable, whether the agent
    saw a hang-up, and the other events; or a connection that is accepted, or not; or messages in the pipe. *)
Inductive center_event :=
  | Accepted (ok : bool)
  | Received (n : nat)
  | CenterEvent (readable : option Z) (saw_hangup hasError hasHangUp canWrite : bool).

Section Server.
Context (pool : nat -> option block) (notify : nat -> bool) (clock : nat -> Z) (capacity : Z).
Abbreviation M := (ST server).
Implicit Types (s : server) (i : nat).

Definition set_buffers l s : server := mkServer l (_pipe s) (_input s) (wait_queue s) (chunks s) (_center s) (center_input s) (acceptor_open s) (past s) (stored s) (asked s) (notices s) (ticks s).
Definition set_pipe p q s : server := mkServer (_buffers s) p q (wait_queue s) (chunks s) (_center s) (center_input s) (acceptor_open s) (past s) (stored s) (asked s) (notices s) (ticks s).
Definition set_queue q s : server := mkServer (_buffers s) (_pipe s) (_input s) q (chunks s) (_center s) (center_input s) (acceptor_open s) (past s) (stored s) (asked s) (notices s) (ticks s).
Definition set_chunks c s : server := mkServer (_buffers s) (_pipe s) (_input s) (wait_queue s) c (_center s) (center_input s) (acceptor_open s) (past s) (stored s) (asked s) (notices s) (ticks s).
Definition set_center c p s : server := mkServer (_buffers s) (_pipe s) (_input s) (wait_queue s) (chunks s) c (center_input s) (acceptor_open s) p (stored s) (asked s) (notices s) (ticks s).
Definition set_center_input l s : server := mkServer (_buffers s) (_pipe s) (_input s) (wait_queue s) (chunks s) (_center s) l (acceptor_open s) (past s) (stored s) (asked s) (notices s) (ticks s).
Definition set_acceptor b s : server := mkServer (_buffers s) (_pipe s) (_input s) (wait_queue s) (chunks s) (_center s) (center_input s) b (past s) (stored s) (asked s) (notices s) (ticks s).
Definition set_stored l s : server := mkServer (_buffers s) (_pipe s) (_input s) (wait_queue s) (chunks s) (_center s) (center_input s) (acceptor_open s) (past s) l (asked s) (notices s) (ticks s).
Definition set_counts a n t s : server := mkServer (_buffers s) (_pipe s) (_input s) (wait_queue s) (chunks s) (_center s) (center_input s) (acceptor_open s) (past s) (stored s) a n t.

(** [_pool.get(BLOCK_SIZE)] *)
Definition pool_get : M (option block) :=
  n ← gets asked; modify (fun s => set_counts (S n) (notices s) (ticks s) s);; mret (pool n).

Definition Unix_to_now : M Z :=
  n ← gets ticks; modify (fun s => set_counts (asked s) (notices s) (S n) s);; mret (clock n).

Definition safe_notify (message : LinkLogMessage) : M bool :=
  n ← gets notices; modify (fun s => set_counts (asked s) (S n) (ticks s) s);;
  (if notify n then modify (fun s => set_pipe (_pipe s ++ [message]) (_input s) s) else mret tt);;
  mret (notify n).

(** [_encoder.write_to_file] *)
Definition write_to_file (data : list Z) : M unit := modify (fun s => set_chunks (chunks s ++ [data]) s).

Definition center_valid : M bool := gets (fun s => bool_decide (is_Some (_center s))).

Definition get_buffer i : M Buffer := b ← gets (fun s => _buffers s !! i); deref b.
Definition put_buffer i (b : Buffer) : M unit := modify (fun s => set_buffers (<[i := b]> (_buffers s)) s).
Definition buf_size (b : Buffer) : Z := match buf b with Some m => zlen m | None => 0 end.

(** ** The side of the loggers *)

(** True when the buffer is ready, false when the caller has to wait for one. *)
Definition submit_buffer i : M bool :=
  b ← get_buffer i;
  b ← match buf b with
      | Some m =>
          if index b =? 0 then mret b else
          new_buf ← pool_get;
          match new_buf with
          | Some nb =>
              ok ← safe_notify (ClearBuffer (index b) false 0 m);
              if ok : bool then mret (mkBuffer (index b) (Some nb) (last_flush_time b) (waiters b))
              else write_to_file (take (Z.to_nat (index b)) m);; mret b
          | None =>
              write_to_file (take (Z.to_nat (index b)) m);;
              valid ← center_valid;
              if valid : bool then
                ok ← safe_notify (ClearBuffer (index b) true 0 m);
                mret (if ok : bool then mkBuffer (index b) None (last_flush_time b) (waiters b) else b)
              else mret b
          end
      | None => mret b
      end;
  now ← Unix_to_now;
  match buf b with
  | Some m => put_buffer i (mkBuffer 0 (Some m) now (waiters b));; mret true
  | None =>
      m ← pool_get;
      put_buffer i (mkBuffer 0 m now (waiters b));;
      mret (bool_decide (is_Some m))
  end.

(** The copy into the buffer, after which [index] grows by [n]. *)
Definition store i (data : list Z) (n : Z) : M unit :=
  b ← get_buffer i;
  m ← deref (buf b);
  m ← lift (mem_write m (index b) data);
  put_buffer i (mkBuffer (u32 (index b + n)) (Some m) (last_flush_time b) (waiters b));;
  modify (fun s => set_stored (stored s ++ [data]) s).

Definition add_waiter i (data : list Z) (n : Z) : M unit :=
  b ← get_buffer i; put_buffer i (mkBuffer (index b) (buf b) (last_flush_time b) (waiters b ++ [(data, n)])).

Definition write_when (ready : bool) i (data : list Z) (n : Z) : M unit :=
  if ready then store i data n else add_waiter i data n.

Definition safe_write i (data : list Z) : M unit :=
  b ← get_buffer i;
  ready ← (if u64 (buf_size b - index b) <? zlen data then submit_buffer i else mret true);
  write_when ready i data (zlen data).

(** [LinkLogger::push] with the header it writes; the sizes are those of LinkLogFormat.v. *)
Definition can_write_log (header size limit : Z) : bool := (size <=? 65535 - header) && (header + size <=? limit).

Definition logger_push i (header data : list Z) : M unit :=
  b ← get_buffer i;
  ready ← (if can_write_log (zlen header) (zlen data) (u32 (buf_size b - index b)) then mret true else submit_buffer i);
  write_when ready i (header ++ data) (u16 (zlen header + zlen data)).

(** A thread that waits looks again: it takes what the pool gives, whatever the buffer has become. *)
Definition wake i (k : nat) : M unit :=
  b ← get_buffer i;
  '(data, n) ← deref (waiters b !! k);
  m ← pool_get;
  let rest := take k (waiters b) ++ drop (S k) (waiters b) in
  match m with
  | Some m => put_buffer i (mkBuffer (index b) (Some m) (last_flush_time b) rest);; store i data n
  | None => put_buffer i (mkBuffer (index b) None (last_flush_time b) (waiters b))
  end.

(** ** The center's link *)

Definition ring_write (data : list Z) (c : link) : Z * link :=
  let room := capacity - zlen (output c) in
  let n := Z.min room (zlen data) in
  (n, mkLink (output c ++ take (Z.to_nat n) data) (sent_bytes c) (told c)).

Definition finish (u : told_unit) (c : link) : link := mkLink (output c) (sent_bytes c) (told c ++ [u]).

(** [fix_write]: all or nothing. *)
Definition center_fix_write (data : list Z) : M bool :=
  c ← gets _center;
  match c with
  | None => mret false
  | Some c =>
      if capacity - zlen (output c) <? zlen data then mret false else
      modify (fun s => set_center (Some (finish (Mark data) (snd (ring_write data c)))) (past s) s);; mret true
  end.

Definition destroy_center_link : M unit :=
  c ← gets _center;
  modify (fun s => set_center None (past s ++ match c with Some c => [mkLink [] (sent_bytes c) (told c)] | None => [] end) s).

Definition accept_center_link (ok : bool) : M unit :=
  when ok (modify (fun s => set_center (Some (mkLink [] [] [])) (past s) s)).

(** What is left to do of a message, if anything. *)
Definition clear_buffer (size : Z) (flushed : bool) (begin : Z) (m : block) (can_send : bool) : M (option LinkLogMessage) :=
  (if flushed then mret tt else write_to_file (take (Z.to_nat size) m));;
  if negb can_send then mret (Some (ClearBuffer size true begin m)) else
  c ← gets _center;
  match c with
  | None => mret None
  | Some c =>
      let '(written, c) := ring_write (slice begin (size - begin) m) c in
      if negb (written =? size - begin) then
        modify (fun s => set_center (Some c) (past s) s);;
        mret (Some (ClearBuffer size true (begin + written) m))
      else
        modify (fun s => set_center (Some (finish (Logs (take (Z.to_nat size) m)) c)) (past s) s);;
        mret None
  end.

Definition logger_timeout (time_out : list Z) : M bool :=
  valid ← center_valid;
  if negb valid then mret true else center_fix_write time_out.

Context (offline : list Z).
(** [offline]: the bytes of [Node_Offline]. *)
Definition node_offline (sent : bool) : M (option LinkLogMessage) :=
  c ← gets _center;
  match c with
  | None => mret None
  | Some c =>
      if sent then
        if zlen (output c) =? 0 then destroy_center_link;; mret None else mret (Some (NodeOffline true))
      else
        written ← center_fix_write offline;
        mret (Some (NodeOffline written))
  end.

(** ** The thread *)

Definition push_wait (m : LinkLogMessage) : M unit := modify (fun s => set_queue (wait_queue s ++ [m]) s).

Fixpoint accept_message (es : list center_event) (center_can_send : bool) : M bool :=
  match es with
  | [] => mret center_can_send
  | Accepted ok :: es => accept_center_link ok;; accept_message es center_can_send
  | Received n :: es =>
      modify (fun s => set_pipe (drop n (_pipe s)) (_input s ++ take n (_pipe s)) s);;
      accept_message es center_can_send
  | CenterEvent readable saw_hangup hasError hasHangUp canWrite :: es =>
      let failed := match readable with Some r => (r <? 0) && negb saw_hangup | None => false end in
      let hup := match readable with Some r => (r <=? 0) && saw_hangup | None => false end in
      if failed || hup || hasError || hasHangUp then destroy_center_link;; accept_message es center_can_send
      else accept_message es (center_can_send || canWrite)
  end.

(** One round of the loop over what the input has; true when the thread is told to end, nothing while
    there may be more. *)
Definition handle_local_message : M (option bool) :=
  input ← gets _input;
  match input with
  | [] => mret (Some false)
  | message :: input =>
      modify (fun s => set_pipe (_pipe s) input s);;
      match message with
      | ClearBuffer size flushed begin m =>
          q ← gets wait_queue;
          left ← clear_buffer size flushed begin m (bool_decide (q = []));
          match left with Some message => push_wait message | None => mret tt end;;
          mret None
      | ShutDownServer => mret (Some true)
      | _ => mret None
      end
  end.

Fixpoint handle_remote_message (messages : list LinkLogMessage) : M unit :=
  match messages with
  | [] => modify (set_center_input [])
  | CentralOffline :: messages => modify (set_center_input messages);; push_wait (NodeOffline false)
  | _ :: messages => handle_remote_message messages
  end.

Definition BUFFER_FLUSH_TIME : Z := 1000000000.

Definition flushed_before (a b : nat * Z) : Prop := a.2 <= b.2.
#[local] Instance flushed_before_dec : RelDecision flushed_before.
Proof. intros a b. unfold flushed_before. apply _. Defined.

(** The buffers, the one that was flushed first in front. *)
Definition flush_order (l : list Buffer) : list nat :=
  map fst (merge_sort flushed_before (imap (fun i b => (i, last_flush_time b)) l)).

(** One buffer, with its mutex held. *)
Definition flush_buffer (threshold : Z) i : M unit :=
  b ← get_buffer i;
  match buf b with
  | Some m =>
      if (last_flush_time b <=? threshold) && negb (index b =? 0) then
        write_to_file (take (Z.to_nat (index b)) m);;
        valid ← center_valid;
        (if valid : bool then push_wait (ClearBuffer (index b) true 0 m) else mret tt);;
        now ← Unix_to_now;
        put_buffer i (mkBuffer 0 (if valid : bool then None else Some m) now (waiters b))
      else mret tt
  | None => mret tt
  end.

(** How far the thread is in a turn of its loop: before [poll]; with the messages of the loggers, knowing
    whether the center's socket can be written to; in [force_flush], with the buffers that are left. *)
Inductive stage :=
  | Polling
  | Handling (center_can_send : bool)
  | Flushing (center_can_send : bool) (threshold : Z) (order : list nat).

(** [force_flush], up to its loop. *)
Definition force_flush (center_can_send : bool) : M stage :=
  l ← gets _buffers;
  now ← Unix_to_now;
  mret (Flushing center_can_send (now - BUFFER_FLUSH_TIME) (flush_order l)).

(** What [check_timeout] of LinkLogServer.v queues. *)
Fixpoint queue_timeouts (l : list (list Z)) : M unit :=
  match l with
  | [] => mret tt
  | m :: l => valid ← center_valid; (if valid : bool then push_wait (TimeOut m) else mret tt);; queue_timeouts l
  end.

Definition front_message (message : LinkLogMessage) : M (option LinkLogMessage) :=
  match message with
  | ClearBuffer size flushed begin m => clear_buffer size flushed begin m true
  | TimeOut m => pop ← logger_timeout m; mret (if pop : bool then None else Some message)
  | NodeOffline sent => node_offline sent
  | _ => mret None
  end.

Fixpoint send_waiting (q : list LinkLogMessage) : M unit :=
  match q with
  | [] => modify (set_queue [])
  | message :: q =>
      left ← front_message message;
      match left with
      | None => send_waiting q
      | Some message => modify (set_queue (message :: q))
      end
  end.

(** [took]: what [send_message] of the agent answers. *)
Definition send_center_message (write_notify : bool) (took : Z) : M unit :=
  c ← gets _center;
  match c with
  | Some c =>
      when (negb (zlen (output c) =? 0) && write_notify) (
        if 0 <? took then
          let k := Z.to_nat (Z.min took (zlen (output c))) in
          modify (fun s => set_center (Some (mkLink (drop k (output c)) (sent_bytes c ++ take k (output c)) (told c))) (past s) s)
        else destroy_center_link)
  | None => mret tt
  end;;
  q ← gets wait_queue;
  send_waiting q.

(** A step of the thread's loop; the loggers may do something between any two.  A turn of the loop is a step at
    [Polling], which takes what [poll] reports, a step for each message and one when there are no more, a step
    for each buffer, and a last one, in which the timers fire and the center's socket takes what it takes. *)
Definition thread_step (es : list center_event) (timeouts : list (list Z)) (took : Z) (st : stage) : M stage :=
  match st with
  | Polling => center_can_send ← accept_message es false; mret (Handling center_can_send)
  | Handling center_can_send =>
      thread_offline_notify ← handle_local_message;
      match thread_offline_notify with
      | None => mret st
      | Some _ =>
          remote ← gets center_input;
          handle_remote_message remote;;
          force_flush center_can_send
      end
  | Flushing center_can_send threshold (i :: order) =>
      flush_buffer threshold i;; mret (Flushing center_can_send threshold order)
  | Flushing center_can_send threshold [] =>
      queue_timeouts timeouts;;
      send_center_message center_can_send took;;
      mret Polling
  end.

Definition destroy_local_link : M unit :=
  input ← gets _input;
  assert_ (bool_decide (input = []));;
  modify (set_acceptor false).

Fixpoint save_each (i : nat) (l : list Buffer) : M unit :=
  match l with
  | [] => mret tt
  | b :: l =>
      match buf b with
      | Some m =>
          if index b =? 0 then mret tt else
          write_to_file (take (Z.to_nat (index b)) m);;
          valid ← center_valid;
          if valid : bool then
            push_wait (ClearBuffer (index b) true 0 m);;
            put_buffer i (mkBuffer (index b) None (last_flush_time b) (waiters b))
          else mret tt
      | None => mret tt
      end;;
      save_each (S i) l
  end.
Definition save_logs : M unit := l ← gets _buffers; save_each 0 l.

(** The last loop: true when it ends with the turns it is given. *)
Fixpoint close_loop (turns : list (list center_event * Z)) : M bool :=
  s ← gets id;
  if bool_decide (wait_queue s = []) && match _center s with Some c => zlen (output c) =? 0 | None => true end then mret true else
  match turns with
  | [] => mret false
  | (es, took) :: turns =>
      center_can_send ← accept_message es false;
      send_center_message center_can_send took;;
      close_loop turns
  end.

Definition close_thread (turns : list (list center_event * Z)) : M bool :=
  destroy_local_link;;
  save_logs;;
  valid ← center_valid;
  (if valid : bool then push_wait (NodeOffline false) else mret tt);;
  ended ← close_loop turns;
  (if ended : bool then valid ← center_valid; assert_ (negb valid) else mret tt);;
  mret ended.

(** What the loggers, the thread and the destructor do. *)
Inductive command :=
  | Write (i : nat) (data : list Z)
  | Push (i : nat) (header data : list Z)
  | Wake (i k : nat)
  | Step (es : list center_event) (timeouts : list (list Z)) (took : Z)
  | Stop.

Definition exec (c : command) (st : stage) : M stage :=
  match c with
  | Write i data => safe_write i data;; mret st
  | Push i header data => logger_push i header data;; mret st
  | Wake i k => wake i k;; mret st
  | Step es timeouts took => thread_step es timeouts took st
  | Stop => safe_notify ShutDownServer;; mret st
  end.

Definition new_server (n : nat) : server := mkServer (replicate n (mkBuffer 0 None 0 [])) [] [] [] [] None [] true [] [] 0 0 0.
End Server.
