(* ===== verification/LinkLogPipelineSafety.v ===== *)
(** * LinkLogPipelineSafety: what the loggers write is in the files once, and reaches the center in whole buffers

    [books] accounts for the records: in the chunks of the files, in buffers that are on their way through
    the pipe, and in the buffers of the loggers.  [streams] accounts for the links: what a link carries
    is a sequence of whole units, and the chunks among them are chunks of the files. *)

From stdpp Require Import sorting.
From S2P Require Import Prelude LinkLogPipeline.
From S2P Require Import StateMonad.
Local Open Scope Z_scope.

Section Pipeline.
Context (pool : nat -> option block) (notify : nat -> bool) (clock : nat -> Z) (capacity block_size : Z) (offline : list Z).
Context (pool_size : forall n m, pool n = Some m -> zlen m = block_size).
Context (block_pos : 0 < block_size < 4294967296) (capacity_pos : 0 < capacity).
Implicit Types (s : server) (B : list Buffer) (C S : list (list Z)) (l q : list LinkLogMessage) (i : nat).

(** ** Records *)

Definition chunk (size : Z) (m : block) : list Z := take (Z.to_nat size) m.
Definition unflushed_of (m : LinkLogMessage) : list (list Z) := match m with ClearBuffer size false _ m => [chunk size m] | _ => [] end.
Definition flushed_of (m : LinkLogMessage) : list (list Z) := match m with ClearBuffer size true _ m => [chunk size m] | _ => [] end.
Definition unflushed l : list (list Z) := flat_map unflushed_of l.
Definition flushed l : list (list Z) := flat_map flushed_of l.

Definition made (c : list Z) (rs : list (list Z)) : Prop := c = concat rs.
Definition held (b : Buffer) (rs : list (list Z)) : Prop :=
  match buf b with
  | Some m => zlen m = block_size /\ 0 <= index b <= block_size /\ chunk (index b) m = concat rs
  | None => index b = 0 /\ concat rs = []
  end.

Record books C B S l : Prop := {
  books_records : exists Fs U Bs, Forall2 made C Fs /\ Forall2 made (unflushed l) U /\ Forall2 held B Bs /\ concat Fs ++ concat U ++ concat Bs ≡ₚ S }.

Lemma unflushed_app l l' : unflushed (l ++ l') = unflushed l ++ unflushed l'.
Proof. apply flat_map_app. Qed.
Lemma flushed_app l l' : flushed (l ++ l') = flushed l ++ flushed l'.
Proof. apply flat_map_app. Qed.

Lemma concat_insert (Bs : list (list (list Z))) i old new : Bs !! i = Some old -> concat (<[i := new]> Bs) ++ old ≡ₚ concat Bs ++ new.
Proof.
  intros Hi. rewrite insert_take_drop by (by eapply lookup_lt_Some). assert (E : concat Bs = concat (take i Bs) ++ old ++ concat (drop (Datatypes.S i) Bs)).
  { rewrite <- (take_drop_middle Bs i old Hi) at 1. by rewrite concat_app. }
  rewrite E, concat_app. cbn [concat]. rewrite <- !app_assoc. apply Permutation_app_head. rewrite (Permutation_app_comm old), <- !app_assoc.
  rewrite (Permutation_app_comm _ (new ++ old)), <- !app_assoc. apply Permutation_app_head. apply Permutation_app_comm.
Qed.

Lemma books_buffer C B S l i b : books C B S l -> B !! i = Some b -> exists rs, held b rs.
Proof. intros [(Fs & U & Bs & _ & _ & HB & _)] Hb. destruct (Forall2_lookup_l _ _ _ _ _ HB Hb) as (rs & _ & Hr). by exists rs. Qed.

(** A buffer changes from holding [old] to holding [new]; the difference goes to the files, the pipe or the records. *)
Lemma books_update C B S l i b b' : books C B S l -> B !! i = Some b -> (forall rs, held b rs -> held b' rs) -> books C (<[i := b']> B) S l.
Proof.
  intros [(Fs & U & Bs & HC & HU & HB & HS)] Hb Hh. split. exists Fs, U, Bs. split_and!; [done | done | | done].
  destruct (Forall2_lookup_l _ _ _ _ _ HB Hb) as (rs & Hrs & Hr). rewrite <- (list_insert_id Bs i rs Hrs). apply Forall2_insert; [done | by apply Hh].
Qed.

Lemma books_flush C B S l i b m b' : books C B S l -> B !! i = Some b -> buf b = Some m -> held b' [] ->
  books (C ++ [chunk (index b) m]) (<[i := b']> B) S l.
Proof.
  intros [(Fs & U & Bs & HC & HU & HB & HS)] Hb Hm Hh. destruct (Forall2_lookup_l _ _ _ _ _ HB Hb) as (rs & Hrs & Hr). unfold held in Hr. rewrite Hm in Hr. destruct Hr as (_ & _ & Hr).
  split. exists (Fs ++ [rs]), U, (<[i := []]> Bs). split_and!; [by apply Forall2_app; [| constructor] | done | by apply Forall2_insert |].
  rewrite <- HS, concat_app. cbn [concat]. rewrite app_nil_r, <- !app_assoc. apply Permutation_app_head. rewrite (Permutation_app_comm rs), <- app_assoc. apply Permutation_app_head.
  rewrite (concat_insert Bs i rs []) by done. by rewrite app_nil_r.
Qed.

Lemma books_submit C B S l i b m b' : books C B S l -> B !! i = Some b -> buf b = Some m -> held b' [] ->
  books C (<[i := b']> B) S (l ++ [ClearBuffer (index b) false 0 m]).
Proof.
  intros [(Fs & U & Bs & HC & HU & HB & HS)] Hb Hm Hh. destruct (Forall2_lookup_l _ _ _ _ _ HB Hb) as (rs & Hrs & Hr). unfold held in Hr. rewrite Hm in Hr. destruct Hr as (_ & _ & Hr).
  split. exists Fs, (U ++ [rs]), (<[i := []]> Bs). rewrite unflushed_app. split_and!; [done | by apply Forall2_app; [| constructor] | by apply Forall2_insert |].
  rewrite <- HS, concat_app. cbn [concat]. rewrite app_nil_r, <- !app_assoc. do 2 apply Permutation_app_head. rewrite (Permutation_app_comm rs).
  rewrite (concat_insert Bs i rs []) by done. by rewrite app_nil_r.
Qed.

Lemma books_other C B S l m : books C B S l -> unflushed_of m = [] -> books C B S (l ++ [m]).
Proof. intros [(Fs & U & Bs & H)] Hm. split. exists Fs, U, Bs. rewrite unflushed_app. cbn. by rewrite Hm, app_nil_r. Qed.

Lemma books_handled C B S l m : books C B S (m :: l) -> books (C ++ unflushed_of m) B S l.
Proof.
  intros [(Fs & U & Bs & HC & HU & HB & HS)]. cbn in HU. split. apply Forall2_app_inv_l in HU as (V & U' & Hm & HU & ->). exists (Fs ++ V), U', Bs.
  split_and!; [by apply Forall2_app | done | done |]. by rewrite <- HS, !concat_app, <- !app_assoc.
Qed.

Lemma books_store C B S l i b m data m' b' : books C B S l -> B !! i = Some b -> buf b = Some m -> index b + zlen data <= block_size ->
  mem_write m (index b) data = Ret m' -> buf b' = Some m' -> index b' = index b + zlen data -> books C (<[i := b']> B) (S ++ [data]) l.
Proof.
  intros [(Fs & U & Bs & HC & HU & HB & HS)] Hb Hm Hfit Hw Hb' Hi'. destruct (Forall2_lookup_l _ _ _ _ _ HB Hb) as (rs & Hrs & Hr). unfold held in Hr. rewrite Hm in Hr.
  destruct Hr as (Hz & Hi & Hr). pose proof (zlen_nonneg data). split. exists Fs, U, (<[i := rs ++ [data]]> Bs). split_and!; [done | done | |].
  - apply Forall2_insert; [done |]. unfold held. rewrite Hb', Hi'. destruct (split_at m (index b)) as (X & Y & -> & HX); [lia |].
    rewrite zlen_app in Hz. destruct (split_at Y (zlen data)) as (D & Y' & -> & HD); [lia |]. rewrite (mem_write_mid X D data Y') in Hw by done. injection Hw as <-.
    rewrite !zlen_app in *. split_and!; [lia | lia | lia |]. unfold chunk in *. rewrite take_zlen in Hr by done.
    rewrite app_assoc, take_zlen by (rewrite zlen_app; lia). rewrite concat_app, Hr. cbn. by rewrite app_nil_r.
  - rewrite <- HS, <- !app_assoc. do 2 apply Permutation_app_head.
    apply (Permutation_app_inv_r rs). rewrite (concat_insert Bs i rs (rs ++ [data])) by done. rewrite <- app_assoc. apply Permutation_app_head, Permutation_app_comm.
Qed.

(** ** Links *)

Definition logs_told (c : link) : list (list Z) := flat_map (fun u => match u with Logs x => [x] | Mark _ => [] end) (told c).
Definition units (c : link) : list Z := flat_map unit_bytes (told c).
Definition all_told (p : list link) (c : option link) : list (list Z) := flat_map logs_told p ++ match c with Some c => logs_told c | None => [] end.

(** What the front of the queue has put into the ring. *)
Definition begun q : list Z := match q with ClearBuffer size _ begin m :: _ => chunk begin m | _ => [] end.
Definition unbegun (m : LinkLogMessage) : Prop := match m with ClearBuffer _ _ begin _ => begin = 0 | _ => True end.
Definition sized (m : LinkLogMessage) : Prop := match m with ClearBuffer size _ begin m => 0 <= begin <= size /\ size <= zlen m | _ => True end.
Definition is_flushed (m : LinkLogMessage) : Prop := unflushed_of m = [].

Definition carried C (c : link) : Prop := exists rest part, sent_bytes c ++ rest = units c ++ part /\ (part = [] \/ exists x, x ∈ C /\ part `prefix_of` x).

Record streams C (c : option link) (p : list link) l q : Prop := {
  streams_told : all_told p c ++ flushed l ++ flushed q ⊆+ C;
  streams_pipe : Forall (fun m => sized m /\ unbegun m) l;
  streams_queue : Forall (fun m => sized m /\ is_flushed m) q;
  streams_tail : c <> None -> Forall unbegun (tail q);
  streams_link : forall k, c = Some k -> sent_bytes k ++ output k = units k ++ begun q /\ zlen (output k) <= capacity;
  streams_past : Forall (carried C) p }.

Lemma carried_more C X c : carried C c -> carried (C ++ X) c.
Proof.
  intros (rest & part & E & Hp). exists rest, part. split; [done |]. destruct Hp as [| (x & Hx & Hp)]; [by left | right]. exists x. split; [apply elem_of_app; by left | done].
Qed.

Lemma streams_more C X c p l q : streams C c p l q -> streams (C ++ X) c p l q.
Proof.
  intros [H1 H2 H3 H4 H5 H6]. split; [| done | done | done | done |].
  - etransitivity; [exact H1 | apply submseteq_inserts_r]. reflexivity.
  - eapply list.Forall_impl; [exact H6 |]. intros k. apply carried_more.
Qed.

(** A message of the pipe is queued, written to the files if that was not done. *)
Lemma streams_queued C c p l q m : streams C c p (m :: l) q -> forall m', flushed_of m' = unflushed_of m ++ flushed_of m -> unflushed_of m' = [] -> sized m' -> unbegun m' ->
  streams (C ++ unflushed_of m) c p l (q ++ [m']).
Proof.
  intros [H1 H2 H3 H4 H5 H6] m' Hf Hu Hs Hn. apply list.Forall_cons in H2 as [_ H2]. split; [| done | | | |].
  - rewrite flushed_app. cbn in *. rewrite app_nil_r, Hf. etransitivity; [| apply submseteq_app; [exact H1 | reflexivity]]. solve_submseteq.
  - apply list.Forall_app. split; [done |]. by repeat constructor.
  - intros Hc. specialize (H4 Hc). destruct q; cbn; [done |]. apply list.Forall_app. split; [done |]. by repeat constructor.
  - intros k Hk. destruct (H5 k Hk) as [E Hz]. split; [| done]. rewrite E. f_equal. destruct q as [| x q]; [| done]. cbn. destruct m'; try done. cbn in Hn. by subst.
  - eapply list.Forall_impl; [exact H6 |]. intros k. apply carried_more.
Qed.

Lemma all_told_none p c k : c = Some k -> all_told (p ++ [mkLink [] (sent_bytes k) (told k)]) None = all_told p c.
Proof. intros ->. unfold all_told. rewrite flat_map_app. cbn. by rewrite !app_nil_r. Qed.

Lemma begun_prefix C c p l q : streams C c p l q -> begun q = [] \/ exists x, x ∈ C /\ begun q `prefix_of` x.
Proof.
  intros [H1 _ H3 _ _ _]. destruct q as [| m q]; [by left |]. destruct m as [size fl begin blk | | | |]; try by left. right. apply list.Forall_cons in H3 as [[Hs Hf] _].
  cbn in Hs. exists (chunk size blk). split.
  - eapply elem_of_submseteq; [| exact H1]. unfold is_flushed in Hf. cbn in Hf. destruct fl; [| done]. cbn. rewrite !elem_of_app. right. right. by left.
  - cbn. unfold chunk. replace (take (Z.to_nat begin) blk) with (take (Z.to_nat begin) (take (Z.to_nat size) blk)); [apply prefix_take |]. rewrite take_take. f_equal. lia.
Qed.

Lemma streams_destroy C c p l q : streams C c p l q ->
  streams C None (p ++ match c with Some k => [mkLink [] (sent_bytes k) (told k)] | None => [] end) l q.
Proof.
  intros H. pose proof (begun_prefix C c p l q H) as Hb. destruct H as [H1 H2 H3 H4 H5 H6]. destruct c as [k |]; [| rewrite app_nil_r; by split].
  split; [| done | done | done | done |].
  - by rewrite (all_told_none p (Some k) k).
  - apply list.Forall_app. split; [done |]. repeat constructor. destruct (H5 k eq_refl) as [E _]. exists (output k), (begun q). by split.
Qed.

Lemma streams_accept C p l : streams C None p l [] -> streams C (Some (mkLink [] [] [])) p l [].
Proof. intros [H1 H2 H3 H4 H5 H6]. split; [done | done | done | done | | done]. intros k [= <-]. split; [done | change (0 <= capacity); lia]. Qed.

(** The whole invariant; [l] is what has not been taken from the pipe, [q] what waits. *)
Definition inv s l q : Prop := books (chunks s) (_buffers s) (stored s) l /\ streams (chunks s) (_center s) (past s) l q.
Record beside s s' : Prop := { beside_pipe : _pipe s' = _pipe s; beside_input : _input s' = _input s; beside_remote : center_input s' = center_input s; beside_open : acceptor_open s' = acceptor_open s }.
Record quiet s s' : Prop := { quiet_buffers : _buffers s' = _buffers s; quiet_chunks : chunks s' = chunks s; quiet_stored : stored s' = stored s; quiet_beside : beside s s' }.
Lemma apart_trans s1 s2 s3 : beside s1 s2 -> beside s2 s3 -> beside s1 s3.
Proof. intros [] []. split; congruence. Qed.

(** ** The center's side *)

Lemma destroy_link_ok s q l : streams (chunks s) (_center s) (past s) l q ->
  wp destroy_center_link (fun _ s' => quiet s s' /\ wait_queue s' = wait_queue s /\ _center s' = None /\ streams (chunks s) (_center s') (past s') l q) s.
Proof.
  intros H. unfold destroy_center_link. wp_run. split_and!; [done | done | done |]. cbn. pose proof (streams_destroy _ _ _ _ _ H) as Hd. by destruct (_center s).
Qed.

(** A link after the front of the queue put [data] into its ring. *)
Lemma ring_write_ok k data : zlen (output k) <= capacity -> exists n, 0 <= n <= zlen data /\
  ring_write capacity data k = (n, mkLink (output k ++ take (Z.to_nat n) data) (sent_bytes k) (told k)) /\ zlen (output k) + n <= capacity.
Proof. intros H. unfold ring_write. eexists. pose proof (zlen_nonneg data). split; [| split; [reflexivity |]]; lia. Qed.

Lemma chunk_slice begin size n (m : block) : 0 <= begin <= size -> size <= zlen m -> 0 <= n <= size - begin ->
  chunk begin m ++ take (Z.to_nat n) (slice begin (size - begin) m) = chunk (begin + n) m /\ zlen (slice begin (size - begin) m) = size - begin.
Proof.
  intros Hb Hs Hn. destruct (split_at m begin) as (X & Y & -> & HX); [lia |]. rewrite zlen_app in Hs. destruct (split_at Y (size - begin)) as (D & Y' & -> & HD); [lia |].
  rewrite (slice_mid X D Y') by done. split; [| done]. unfold chunk. rewrite take_zlen by done. destruct (split_at D n) as (D1 & D2 & -> & H1); [lia |]. rewrite take_zlen by done.
  rewrite <- !app_assoc, (app_assoc X D1), take_zlen; [done |]. rewrite zlen_app. lia.
Qed.

Definition as_list (m : option LinkLogMessage) : list LinkLogMessage := match m with Some m => [m] | None => [] end.

(** A message the front of the queue is done with. *)
Lemma streams_pop C c p l q m : streams C c p l (m :: q) -> c = None -> streams C c p l q.
Proof.
  intros [H1 H2 H3 H4 H5 H6] ->. apply list.Forall_cons in H3 as [_ H3]. split; [| done | done | done | done | done]. etransitivity; [| exact H1]. cbn. solve_submseteq.
Qed.

Lemma begun_tail q : Forall unbegun q -> begun q = [].
Proof. intros H. destruct q as [| m q]; [done |]. destruct m; try done. apply list.Forall_cons in H as [H _]. cbn in H. by subst. Qed.

Lemma streams_done C k p l q m u : streams C (Some k) p l (m :: q) -> forall out, sent_bytes k ++ out = units k ++ unit_bytes u -> zlen out <= capacity ->
  match u with Logs x => [x] | Mark _ => [] end = flushed_of m -> streams C (Some (mkLink out (sent_bytes k) (told k ++ [u]))) p l q.
Proof.
  intros [H1 H2 H3 H4 H5 H6] out E Hz Hu. apply list.Forall_cons in H3 as [_ H3]. pose proof (H4 ltac:(done)) as Ht. cbn in Ht. split; [| done | done | | | done].
  - etransitivity; [| exact H1]. unfold all_told, logs_told. cbn [told]. rewrite flat_map_app. cbn [flat_map flushed]. rewrite app_nil_r, Hu. fold (flushed q). cbn. solve_submseteq.
  - intros _. destruct q; cbn; [done |]. by apply list.Forall_cons in Ht as [_ ?].
  - intros k' [= <-]. cbn. split; [| done]. rewrite begun_tail by done. rewrite E. unfold units. cbn. rewrite flat_map_app. cbn. by rewrite !app_nil_r.
Qed.

Lemma clear_sends s l q size begin m : streams (chunks s) (_center s) (past s) l (ClearBuffer size true begin m :: q) ->
  wp (clear_buffer capacity size true begin m true) (fun left s' => quiet s s' /\ wait_queue s' = wait_queue s /\
    streams (chunks s') (_center s') (past s') l (as_list left ++ q) /\ (_center s = None -> left = None /\ _center s' = None) /\ (is_Some (_center s) -> is_Some (_center s'))) s.
Proof.
  intros H. unfold clear_buffer. wp_run. cbn [negb]. wp_run. destruct (_center s) as [k |] eqn:Ek.
  2:{ wp_run. split_and!; [done | done | rewrite Ek; by eapply streams_pop | done | rewrite Ek; by intros []]. }
  pose proof (streams_link _ _ _ _ _ H k eq_refl) as [Hk Hz]. cbn in Hk. pose proof (streams_queue _ _ _ _ _ H) as Hq. apply list.Forall_cons in Hq as [[[Hb Hs] _] _].
  destruct (ring_write_ok k (slice begin (size - begin) m) Hz) as (n & Hn & -> & Hroom).
  assert (Hlen : zlen (slice begin (size - begin) m) = size - begin) by (apply (chunk_slice begin size 0 m); lia). rewrite Hlen in Hn.
  destruct (chunk_slice begin size n m Hb Hs Hn) as [Hc _].
  assert (Hout : sent_bytes k ++ output k ++ take (Z.to_nat n) (slice begin (size - begin) m) = units k ++ chunk (begin + n) m) by (rewrite app_assoc, Hk, <- app_assoc; by f_equal).
  assert (Hlen' : zlen (output k ++ take (Z.to_nat n) (slice begin (size - begin) m)) <= capacity) by (rewrite zlen_app, zlen_take by lia; lia).
  destruct (Z.eqb_spec n (size - begin)) as [-> | Hne]; cbn [negb]; wp_run.
  - split_and!; [done | done | | done | done]. cbn. apply (streams_done _ k _ _ _ _ (Logs (chunk size m)) H); [| done | done]. etransitivity; [exact Hout |]. cbn. by rewrite Zplus_minus.
  - split_and!; [done | done | | done | done]. destruct H as [H1 H2 H3 H4 H5 H6]. cbn. apply list.Forall_cons in H3 as [[_ Hf] H3]. split; cbn; [| done | | | | done].
    + exact H1.
    + constructor; [| done]. split; [cbn; lia | done].
    + intros _. by apply H4.
    + intros k' [= <-]. cbn. done.
Qed.

Lemma mark_sends s l q m data : streams (chunks s) (_center s) (past s) l (m :: q) -> is_Some (_center s) -> begun (m :: q) = [] -> flushed_of m = [] ->
  wp (center_fix_write capacity data) (fun ok s' => quiet s s' /\ wait_queue s' = wait_queue s /\ is_Some (_center s') /\
    (if ok : bool then streams (chunks s') (_center s') (past s') l q else s' = s)) s.
Proof.
  intros H [k Hk] Hb Hf. unfold center_fix_write. wp_run. rewrite Hk. pose proof (streams_link _ _ _ _ _ H k Hk) as [He Hz].
  destruct (Z.ltb_spec (capacity - zlen (output k)) (zlen data)) as [Hfull | Hroom]; wp_run; [by split_and! |].
  split_and!; [done | done | done |]. cbn. rewrite Hk in H. apply (streams_done _ k _ _ _ _ (Mark data) H); cbn; [| | done].
  - unfold ring_write. cbn. rewrite Z.min_r, take_ge by (unfold zlen in *; lia). rewrite app_assoc, He, Hb, app_nil_r. done.
  - unfold ring_write. cbn. rewrite zlen_app. rewrite Z.min_r, take_ge by (unfold zlen in *; lia). lia.
Qed.

(** Messages that carry no buffer. *)
Definition plain (m : LinkLogMessage) : Prop := match m with ClearBuffer _ _ _ _ => False | _ => True end.
Lemma streams_drop C c p l q m : streams C c p l (m :: q) -> plain m -> streams C c p l q.
Proof.
  intros [H1 H2 H3 H4 H5 H6] Hm. assert (Hf : flushed_of m = []) by (by destruct m). apply list.Forall_cons in H3 as [_ H3]. split; [| done | done | | | done].
  - etransitivity; [| exact H1]. cbn. rewrite Hf. solve_submseteq.
  - intros Hc. specialize (H4 Hc). cbn in H4. destruct q; cbn; [done |]. by apply list.Forall_cons in H4 as [_ ?].
  - intros k Hk. destruct (H5 k Hk) as [E Hz]. split; [| done]. rewrite E. f_equal. rewrite (begun_tail q); [by destruct m |]. apply H4. by rewrite Hk.
Qed.
Lemma streams_unbegun C c p l q m : streams C c p l (m :: q) -> c <> None -> Forall unbegun q.
Proof. intros H Hc. exact (streams_tail _ _ _ _ _ H Hc). Qed.
Lemma streams_plain C c p l q m : streams C c p l q -> (c <> None -> Forall unbegun q) -> plain m -> streams C c p l (m :: q).
Proof.
  intros [H1 H2 H3 H4 H5 H6] Hq Hm. split; [| done | | done | | done].
  - etransitivity; [| exact H1]. cbn. replace (flushed_of m) with (@nil (list Z)) by (by destruct m). reflexivity.
  - constructor; [| done]. by destruct m.
  - intros k Hk. destruct (H5 k Hk) as [E Hz]. split; [| done]. rewrite E. f_equal. rewrite (begun_tail q) by (apply Hq; by rewrite Hk). by destruct m.
Qed.

Record front_ok s m l q (left : option LinkLogMessage) s' : Prop := {
  front_quiet : quiet s s'; front_queue : wait_queue s' = wait_queue s;
  front_streams : streams (chunks s') (_center s') (past s') l (as_list left ++ q);
  front_none : _center s' = None -> left = None;
  front_still : _center s = None -> _center s' = None;
  front_mark : m = NodeOffline true \/ m = NodeOffline false -> _center s' <> None -> is_Some left /\ (left = Some (NodeOffline true) \/ left = Some (NodeOffline false)) }.

Lemma front_message_ok m l q s : streams (chunks s) (_center s) (past s) l (m :: q) ->
  wp (front_message capacity offline m) (front_ok s m l q) s.
Proof.
  intros H. destruct (_center s) as [k |] eqn:Ek.
  - destruct m as [size fl begin m | data | | | sent]; cbn [front_message].
    + pose proof (streams_queue _ _ _ _ _ H) as Hq. apply list.Forall_cons in Hq as [[_ Hf] _]. unfold is_flushed in Hf. cbn in Hf. destruct fl; [| done].
      rewrite <- Ek in H. wp_call (clear_sends s l q size begin m H). intros left s' (Hs & Hw & Hst & Hn & Hy). rewrite Ek in Hy. destruct (Hy ltac:(by eexists)) as [k' E].
      split; rewrite ?E, ?Ek; try done; [by rewrite <- E | by intros [[=] | [=]]].
    + unfold logger_timeout, center_valid. wp_run. rewrite Ek, bool_decide_true by (by eexists). cbn [negb]. rewrite <- Ek in H.
      wp_call (mark_sends s l q (TimeOut data) data H); [by rewrite Ek; eexists | done | done |]. intros ok s' (Hs & Hw & [k' E] & Hst). wp_run.
      split; rewrite ?E, ?Ek; try done; [| by intros [[=] | [=]]]. rewrite <- E. destruct ok; [done | by subst].
    + wp_run. split; rewrite ?Ek; try done; [by eapply streams_drop | by intros [[=] | [=]]].
    + wp_run. split; rewrite ?Ek; try done; [by eapply streams_drop | by intros [[=] | [=]]].
    + unfold node_offline. wp_run. rewrite Ek. destruct sent.
      * destruct (Z.eqb_spec (zlen (output k)) 0) as [Hz | Hz]; wp_run.
        -- rewrite <- Ek in H. wp_call (destroy_link_ok s _ l H). intros _ s' (Hs & Hw & Hc & Hst). wp_run. rewrite <- (quiet_chunks _ _ Hs) in Hst.
           split; rewrite ?Hc; try done. rewrite Hc in Hst. by eapply streams_drop.
        -- split; rewrite ?Ek; try done. intros _ _. split; [by eexists | by left].
      * wp_run. rewrite <- Ek in H. pose proof (streams_unbegun _ _ _ _ _ _ H ltac:(by rewrite Ek)) as Hu.
        wp_call (mark_sends s l q (NodeOffline false) offline H); [by rewrite Ek; eexists | done | done |]. intros ok s' (Hs & Hw & [k' E] & Hst). wp_run.
        split; rewrite ?E, ?Ek; try done; [| intros _ _; split; [by eexists | destruct ok; auto]]. rewrite <- E. destruct ok; [by apply streams_plain | by subst].
  - assert (Hn : forall s', s' = s -> front_ok s m l q None s').
    { intros s' ->. split; rewrite ?Ek; try done. by eapply streams_pop. }
    destruct m as [size fl begin m | data | | | sent]; cbn [front_message].
    + pose proof (streams_queue _ _ _ _ _ H) as Hq. apply list.Forall_cons in Hq as [[_ Hf] _]. unfold is_flushed in Hf. cbn in Hf. destruct fl; [| done].
      unfold clear_buffer. wp_run. cbn [negb]. wp_run. rewrite Ek. wp_run. by apply Hn.
    + unfold logger_timeout, center_valid. wp_run. rewrite Ek, bool_decide_false by (by intros []). wp_run. by apply Hn.
    + wp_run. by apply Hn.
    + wp_run. by apply Hn.
    + unfold node_offline. wp_run. rewrite Ek. wp_run. by apply Hn.
Qed.

Definition has_mark q : Prop := NodeOffline true ∈ q \/ NodeOffline false ∈ q.

Lemma untold_trans s1 s2 s3 : quiet s1 s2 -> quiet s2 s3 -> quiet s1 s3.
Proof. intros [] []. split; try congruence. by eapply apart_trans. Qed.

Lemma send_waiting_ok l q : forall s, streams (chunks s) (_center s) (past s) l q ->
  wp (send_waiting capacity offline q) (fun _ s' => quiet s s' /\ streams (chunks s') (_center s') (past s') l (wait_queue s') /\
    (_center s' = None -> wait_queue s' = []) /\ (_center s = None -> _center s' = None) /\ (has_mark q -> _center s' <> None -> has_mark (wait_queue s'))) s.
Proof.
  induction q as [| m q IH]; intros s H; cbn [send_waiting].
  { wp_run. split_and!; try done. }
  wp_run. wp_call (front_message_ok m l q s H). intros left s1 [Hs Hw Hst Hn Hy Hm]. destruct left as [m' |].
  - wp_run. split_and!; [destruct Hs as [? ? ? []]; by split | exact Hst | intros Hc; by apply Hn in Hc | exact Hy |]. intros [Hin | Hin] Hc; cbn.
    all: apply elem_of_cons in Hin as [<- | Hin]; [destruct (Hm ltac:(auto) Hc) as [_ [[= ->] | [= ->]]]; [left | right]; by left | ].
    + left. by right.
    + right. by right.
  - wp_call (IH s1 Hst). intros _ s2 (Hs2 & Hst2 & Hn2 & Hy2 & Hm2). split_and!; [by eapply untold_trans | done | done | by auto |]. intros Hin Hc.
    assert (Hc1 : _center s1 <> None) by (intros Hc1; by apply Hc, Hy2). apply Hm2; [| done]. destruct Hin as [Hin | Hin]; apply elem_of_cons in Hin as [<- | Hin].
    + destruct (Hm ltac:(auto) Hc1) as [[? ?] _]. done.
    + by left.
    + destruct (Hm ltac:(auto) Hc1) as [[? ?] _]. done.
    + by right.
Qed.

Lemma send_center_ok l write_notify took s : streams (chunks s) (_center s) (past s) l (wait_queue s) ->
  wp (send_center_message capacity offline write_notify took) (fun _ s' => quiet s s' /\ streams (chunks s') (_center s') (past s') l (wait_queue s') /\
    (_center s' = None -> wait_queue s' = []) /\ (_center s = None -> _center s' = None) /\ (has_mark (wait_queue s) -> _center s' <> None -> has_mark (wait_queue s'))) s.
Proof.
  intros H. unfold send_center_message. wp_run. destruct (_center s) as [k |] eqn:Ek.
  2:{ wp_run. rewrite <- Ek in H. wp_call (send_waiting_ok l _ s H). intros _ s' (? & ? & ? & Hy & ?). rewrite Ek in Hy. by split_and!. }
  unfold when. destruct (negb _ && _); [| wp_run; rewrite <- Ek in H; wp_call (send_waiting_ok l _ s H); intros _ s' (? & ? & ? & ? & ?); by split_and!].
  destruct (Z.ltb_spec 0 took) as [Ht | Ht]; wp_run.
  - set (n := Z.to_nat (Z.min took (zlen (output k)))). match goal with |- wp _ _ ?st => wp_call (send_waiting_ok l (wait_queue s) st) end.
    + destruct H as [H1 H2 H3 H4 H5 H6]. cbn. split; [exact H1 | done | done | intros _; by apply H4 | | done]. intros k' [= <-]. cbn. destruct (H5 k eq_refl) as [E Hz].
      rewrite <- app_assoc, take_drop. split; [done |]. unfold zlen in *. rewrite length_drop. lia.
    + intros _ s' (Hs & ? & ? & ? & ?). split_and!; try done. destruct Hs as [? ? ? []]. by split.
  - rewrite <- Ek in H. wp_call (destroy_link_ok s _ l H). intros _ s1 (Hs1 & Hw & Hc & Hst). rewrite <- (quiet_chunks _ _ Hs1), <- Hw in Hst. wp_run.
    wp_call (send_waiting_ok l _ s1 Hst). intros _ s' (Hs & ? & ? & Hy & ?). rewrite <- Hw. split_and!; try done. by eapply untold_trans.
Qed.

(** ** The pipe and the queue *)

Definition waits (b : Buffer) : Prop := waiters b = [] \/ exists data, waiters b = [(data, zlen data)] /\ zlen data <= block_size /\ buf b = None.
Record whole s l q : Prop := {
  whole_books : books (chunks s) (_buffers s) (stored s) l;
  whole_streams : streams (chunks s) (_center s) (past s) l q;
  whole_waits : Forall waits (_buffers s) }.

Lemma streams_unsent C c p l q m : streams C c p l q -> sized m -> unbegun m -> flushed_of m = [] -> streams C c p (m :: l) q.
Proof. intros [H1 H2 H3 H4 H5 H6] Hs Hn Hf. split; try done; [cbn; by rewrite Hf | by constructor]. Qed.

Lemma streams_written C c p l q size m : streams C c p l q -> 0 <= size <= zlen m -> streams (C ++ [chunk size m]) c p l (q ++ [ClearBuffer size true 0 m]).
Proof. intros H Hs. apply (streams_queued C c p l q (ClearBuffer size false 0 m)); cbn; [by apply streams_unsent; cbn; [| lia | |] | done | done | lia | done]. Qed.

Lemma streams_append C c p l q m : streams C c p l q -> plain m -> streams C c p l (q ++ [m]).
Proof.
  intros H Hm. assert (Hf : flushed_of m = [] /\ unflushed_of m = [] /\ sized m /\ unbegun m) by (by destruct m). destruct Hf as (Hf & Hu & Hs & Hn).
  rewrite <- (app_nil_r C), <- Hu. apply (streams_queued C c p l q m); [by apply streams_unsent | by rewrite Hu, Hf | done | done | done].
Qed.

Lemma streams_sent C c p l q m : streams C c p l q -> sized m -> unbegun m -> flushed_of m ⊆+ [] -> streams C c p (l ++ [m]) q.
Proof.
  intros [H1 H2 H3 H4 H5 H6] Hs Hn Hf. apply submseteq_nil_r in Hf. split; try done; [rewrite flushed_app; cbn; by rewrite Hf, !app_nil_r |]. apply list.Forall_app. split; [done |]. by repeat constructor.
Qed.

Lemma streams_sent_written C c p l q size m : streams C c p l q -> 0 <= size <= zlen m -> streams (C ++ [chunk size m]) c p (l ++ [ClearBuffer size true 0 m]) q.
Proof.
  intros H Hs. destruct (streams_more C [chunk size m] c p l q H) as [_ H2 H3 H4 H5 H6]. destruct H as [H1 _ _ _ _ _]. split; try done.
  - rewrite flushed_app. cbn. etransitivity; [| apply submseteq_app; [exact H1 | reflexivity]]. solve_submseteq.
  - apply list.Forall_app. split; [done |]. repeat constructor; cbn; lia.
Qed.

Lemma flushed_first size fl begin m can_send Q s :
  wp (clear_buffer capacity size true begin m can_send) Q (set_chunks (chunks s ++ unflushed_of (ClearBuffer size fl begin m)) s) -> wp (clear_buffer capacity size fl begin m can_send) Q s.
Proof.
  intros H. destruct fl; [| exact H]. cbn in H. rewrite app_nil_r in H. by destruct s.
Qed.

Lemma clear_buffer_ok s l size fl begin m : whole s (ClearBuffer size fl begin m :: l) (wait_queue s) ->
  wp (clear_buffer capacity size fl begin m (bool_decide (wait_queue s = []))) (fun left s' => whole s' l (wait_queue s ++ as_list left) /\ beside s s' /\
    wait_queue s' = wait_queue s /\ _buffers s' = _buffers s /\ stored s' = stored s) s.
Proof.
  intros [Hb Hs Hw]. apply flushed_first. pose proof (streams_pipe _ _ _ _ _ Hs) as Hp. apply list.Forall_cons in Hp as [[[Hbg Hsz] Hn] _]. cbn in Hn. subst begin.
  pose proof (books_handled _ _ _ _ _ Hb) as Hb'. pose proof (streams_queued _ _ _ _ _ _ Hs (ClearBuffer size true 0 m)) as Hq.
  assert (Hq' : streams (chunks s ++ unflushed_of (ClearBuffer size fl 0 m)) (_center s) (past s) l (wait_queue s ++ [ClearBuffer size true 0 m])) by (apply Hq; by destruct fl). clear Hq.
  destruct (wait_queue s) as [| x q] eqn:Eq.
  - rewrite bool_decide_true by done. match goal with |- wp _ _ ?st => wp_call (clear_sends st l [] size 0 m Hq') end. intros left s' (Hqu & Ew & Hst & _ & _). cbn in Ew.
    destruct Hqu as [E1 E2 E3 E4]. cbn in E1, E2, E3. split_and!; [split; [by rewrite E1, E2, E3 | by rewrite app_nil_r in Hst | by rewrite E1] | by destruct E4; split | by rewrite Ew | done | done].
  - rewrite bool_decide_false by done. unfold clear_buffer. wp_run. cbn [negb]. wp_run. rewrite <- Eq in *. by split_and!; [split | | | |].
Qed.

Lemma whole_skip s l m : whole s (m :: l) (wait_queue s) -> plain m -> whole s l (wait_queue s).
Proof.
  intros [Hb Hs Hw] Hm. split; [| | done].
  - apply books_handled in Hb. replace (unflushed_of m) with (@nil (list Z)) in Hb by (by destruct m). by rewrite app_nil_r in Hb.
  - destruct Hs as [H1 H2 H3 H4 H5 H6]. apply list.Forall_cons in H2 as [_ H2]. split; try done. cbn in H1. by replace (flushed_of m) with (@nil (list Z)) in H1 by (by destruct m).
Qed.

Abbreviation queued s := (_input s ++ _pipe s).

Lemma handle_local_ok s : whole s (queued s) (wait_queue s) ->
  wp (handle_local_message capacity) (fun _ s' => whole s' (queued s') (wait_queue s') /\ center_input s' = center_input s /\
    acceptor_open s' = acceptor_open s /\ stored s' = stored s /\ _buffers s' = _buffers s) s.
Proof.
  intros H. unfold handle_local_message. wp_run. destruct (_input s) as [| m rest] eqn:Ei; [wp_run; by rewrite Ei |]. wp_run. set (s0 := set_pipe (_pipe s) rest s).
  assert (H0 : whole s0 (m :: queued s0) (wait_queue s0)) by (by destruct H).
  assert (Hskip : plain m -> whole s0 (queued s0) (wait_queue s0)) by (intros Hm; by apply (whole_skip s0 _ m)).
  destruct m as [size fl begin m | data | | | sent]; [| wp_run; split_and!; try done; by apply Hskip ..].
  wp_run. wp_call (clear_buffer_ok s0 (queued s0) size fl begin m H0). intros left s1 (Hw1 & [Ep Ei1 Ec Eo] & Ew & Eb & Es). rewrite <- Ep, <- Ei1 in Hw1. wp_run.
  assert (Hq : wp (match left with Some message => push_wait message | None => mret tt end) (fun _ s2 => s2 = set_queue (wait_queue s1 ++ as_list left) s1) s1).
  { destruct left; unfold push_wait; wp_run; [done |]. cbn. rewrite app_nil_r. by destruct s1. }
  wp_call Hq. intros _ s2 ->. wp_run. split_and!; [| done ..]. cbn. rewrite Ew. by destruct Hw1.
Qed.

Lemma handle_remote_ok messages l : forall s, whole s l (wait_queue s) ->
  wp (handle_remote_message messages) (fun _ s' => whole s' l (wait_queue s') /\ _pipe s' = _pipe s /\ _input s' = _input s /\ acceptor_open s' = acceptor_open s /\ stored s' = stored s /\ _buffers s' = _buffers s) s.
Proof.
  induction messages as [| m messages IH]; intros s H; cbn [handle_remote_message].
  { wp_run. destruct H. by split_and!. }
  destruct m; try by apply IH. unfold push_wait. wp_run. destruct H as [Hb Hs Hw]. split_and!; try done. split; [done | by apply streams_append | done].
Qed.

Lemma push_plain_ok m l s : plain m -> whole s l (wait_queue s) -> wp (push_wait m) (fun _ s' => s' = set_queue (wait_queue s ++ [m]) s /\ whole s' l (wait_queue s')) s.
Proof. intros Hm [Hb Hs Hw]. unfold push_wait. wp_run. split; [done |]. split; [done | by apply streams_append | done]. Qed.

Lemma queue_timeouts_ok data l : forall s, whole s l (wait_queue s) ->
  wp (queue_timeouts data) (fun _ s' => exists q, s' = set_queue q s /\ whole s' l (wait_queue s')) s.
Proof.
  induction data as [| m data IH]; intros s H; cbn [queue_timeouts].
  { wp_run. exists (wait_queue s). by destruct s. }
  unfold center_valid. wp_run. destruct (bool_decide _).
  - wp_call (push_plain_ok (TimeOut m) l s I H). intros _ s1 [-> H1]. wp_run. wp_call (IH _ H1). intros _ s2 (q & -> & H2). by exists q.
  - wp_run. apply IH, H.
Qed.

(** ** The thread's copy of the buffers *)

Lemma whole_flush s l i b m : whole s l (wait_queue s) -> _buffers s !! i = Some b -> buf b = Some m ->
  zlen m = block_size /\ 0 <= index b <= block_size /\ waiters b = [].
Proof.
  intros [Hb _ Hw] Hi Hm. destruct (books_buffer _ _ _ _ _ _ Hb Hi) as (rs & Hr). unfold held in Hr. rewrite Hm in Hr. destruct Hr as (Hz & Hx & _). split_and!; [done | lia | lia |].
  rewrite list.Forall_lookup in Hw. destruct (Hw i b Hi) as [| (? & _ & _ & E)]; [done | by rewrite Hm in E].
Qed.

Definition untouched s s' : Prop := beside s s' /\ stored s' = stored s /\ map waiters (_buffers s') = map waiters (_buffers s) /\ _center s' = _center s.

Lemma held_empty b : buf b = None \/ (exists m, buf b = Some m /\ zlen m = block_size) -> index b = 0 -> held b [].
Proof. unfold held. intros [-> | (m & -> & Hz)] Hi; [done |]. rewrite Hi. split_and!; [done | lia | lia | done]. Qed.

Lemma flush_buffer_ok threshold i l s : whole s l (wait_queue s) -> (i < length (_buffers s))%nat ->
  wp (flush_buffer clock threshold i) (fun _ s' => whole s' l (wait_queue s') /\ untouched s s') s.
Proof.
  intros H Hi. destruct (lookup_lt_is_Some_2 _ _ Hi) as [b Hb]. unfold flush_buffer, get_buffer. wp_run. eapply st_deref; [exact Hb |]. wp_run.
  assert (Hnext : wp (mret tt) (fun _ s' => whole s' l (wait_queue s') /\ untouched s s') s) by by wp_run.
  destruct (buf b) as [m |] eqn:Em; [| exact Hnext]. destruct (_ && negb _); [| exact Hnext]. destruct (whole_flush s l i b m H Hb Em) as (Hz & Hx & Hw).
  unfold write_to_file, center_valid, Unix_to_now, put_buffer. wp_run. destruct H as [Hbk Hst Hwt]. fold (chunk (index b) m).
  assert (Hfin : forall q b' s1, chunks s1 = chunks s ++ [chunk (index b) m] -> _buffers s1 = _buffers s -> stored s1 = stored s -> _center s1 = _center s -> past s1 = past s -> beside s s1 ->
    wait_queue s1 = q -> streams (chunks s ++ [chunk (index b) m]) (_center s) (past s) l q -> index b' = 0 -> buf b' = None \/ buf b' = Some m -> waiters b' = waiters b ->
    (fun s' => whole s' l (wait_queue s') /\ untouched s s') (set_buffers (<[i := b']> (_buffers s1)) s1)).
  { intros q b' s1 E1 E2 E3 E4 E5 E6 E7 Hs Hi' Hb' Hw'. split.
    - split; cbn; rewrite ?E1, ?E2, ?E3, ?E4, ?E5, ?E7; [| done |].
      + apply (books_flush _ _ _ _ i b m); [done | done | done |]. apply held_empty; [| done]. destruct Hb' as [| ?]; [by left | right; by exists m].
      + apply Forall_insert; [done |]. left. by rewrite Hw', Hw.
    - split_and!; [by destruct E6; split | done | | done]. cbn. rewrite E2, list_fmap_insert, Hw'. apply list_insert_id. by rewrite list_lookup_fmap, Hb. }
  destruct (bool_decide _); unfold push_wait; wp_run; (eapply Hfin; [done | done | done | done | done | done | reflexivity | | done | by auto | done]).
  - apply streams_written; [done | lia].
  - by apply streams_more.
Qed.

Lemma flush_order_range B : Forall (fun i => (i < length B)%nat) (flush_order B).
Proof.
  apply list.Forall_forall. intros i Hi. unfold flush_order in Hi. apply list_elem_of_fmap in Hi as ([j t] & -> & Hin). rewrite merge_sort_Permutation in Hin.
  apply elem_of_lookup_imap in Hin as (k & b & [= -> ->] & Hb). by eapply lookup_lt_Some.
Qed.

(** ** Poll *)

Definition not_accepted (e : center_event) : Prop := match e with Accepted _ => False | _ => True end.
Definition local_event (e : center_event) : Prop := match e with Received _ => True | _ => False end.

(** The listening socket is watched only while there is no link and it is open. *)
Definition events_ok s (es : list center_event) : Prop :=
  match _center s with
  | Some _ => Forall not_accepted es
  | None => Forall local_event es \/ acceptor_open s = true /\ exists es1 ok es2, es = es1 ++ Accepted ok :: es2 /\ Forall local_event (es1 ++ es2)
  end.

Record polled s s' : Prop := {
  polled_queue : wait_queue s' = wait_queue s; polled_chunks : chunks s' = chunks s; polled_buffers : _buffers s' = _buffers s; polled_stored : stored s' = stored s;
  polled_remote : center_input s' = center_input s; polled_open : acceptor_open s' = acceptor_open s; polled_pipe : _input s' ++ _pipe s' = _input s ++ _pipe s }.
Lemma polled_trans s1 s2 s3 : polled s1 s2 -> polled s2 s3 -> polled s1 s3.
Proof. intros [] []. split; congruence. Qed.

Lemma received_ok n s : wp (modify (fun s => set_pipe (drop n (_pipe s)) (_input s ++ take n (_pipe s)) s)) (fun _ s' => polled s s' /\ _center s' = _center s /\ past s' = past s) s.
Proof. wp_run. split_and!; [| done | done]. split; try done. cbn. by rewrite <- app_assoc, take_drop. Qed.

(** Without a new connection. *)
Lemma accept_none_ok l es : Forall not_accepted es -> forall can s, streams (chunks s) (_center s) (past s) l (wait_queue s) ->
  wp (accept_message es can) (fun _ s' => polled s s' /\ streams (chunks s') (_center s') (past s') l (wait_queue s') /\ (_center s = None -> _center s' = None)) s.
Proof.
  induction es as [| e es IH]; intros He can s H; cbn [accept_message].
  { wp_run. by split_and!. }
  apply list.Forall_cons in He as [He Hes]. destruct e as [ok | n | readable saw err hup wr]; [done | |].
  - wp_step. wp_call (received_ok n s). intros _ s1 (Hp & Hc & Hpast). pose proof Hp as [E1 E2 _ _ _ _ _].
    wp_call (IH Hes can s1); [by rewrite E1, E2, Hc, Hpast |]. intros r s2 (Hp2 & H2 & Hn). split_and!; [by eapply polled_trans | done | intros; apply Hn; by rewrite Hc].
  - destruct (_ || _); [| by apply IH].
    wp_run. wp_call (destroy_link_ok s _ l H). intros _ s1 ([E1 E2 E3 [E4 E5 E6 E7]] & Ew & Hc & Hst).
    assert (Hp : polled s s1) by (split; congruence). wp_call (IH Hes can s1); [by rewrite Ew, E2 |].
    intros r s2 (Hp2 & H2 & Hn). split_and!; [by eapply polled_trans | done | intros; by apply Hn].
Qed.

Lemma local_not_accepted es : Forall local_event es -> Forall not_accepted es.
Proof. intros H. eapply list.Forall_impl; [exact H |]. by intros []. Qed.

Lemma accept_message_ok l es s : events_ok s es -> streams (chunks s) (_center s) (past s) l (wait_queue s) -> (_center s = None -> wait_queue s = []) ->
  wp (accept_message es false) (fun _ s' => polled s s' /\ streams (chunks s') (_center s') (past s') l (wait_queue s')) s.
Proof.
  intros He H Hq. unfold events_ok in He. destruct (_center s) as [k |] eqn:Ek.
  { eapply st_mono; [apply (accept_none_ok l _ He false s); by rewrite Ek |]. by intros r s' (? & ? & ?). }
  specialize (Hq eq_refl). destruct He as [Hl | (_ & es1 & ok & es2 & -> & [H1 H2]%list.Forall_app)].
  { eapply st_mono; [apply (accept_none_ok l _ (local_not_accepted _ Hl) false s); by rewrite Ek |]. by intros r s' (? & ? & ?). }
  generalize false as can. revert s H Hq Ek. induction H1 as [| e es1 He _ IH]; intros s H Hq Ek can; cbn [app accept_message].
  - unfold accept_center_link, when. wp_run. destruct ok; wp_run.
    + match goal with |- wp _ _ ?st => wp_call (accept_none_ok l _ (local_not_accepted _ H2) can st) end; [cbn; rewrite Hq in *; by apply streams_accept |].
      intros r s' (Hp & ? & _). split; [by destruct Hp; split | done].
    + wp_call (accept_none_ok l _ (local_not_accepted _ H2) can s); [by rewrite Ek |]. by intros r s' (? & ? & _).
  - destruct e as [| n |]; try done. wp_step. wp_call (received_ok n s). intros _ s1 (Hp & Hc & Hpast). pose proof Hp as [E1 E2 _ _ _ _ _].
    eapply st_mono; [apply (IH s1); [by rewrite E1, E2, Hpast | by rewrite E1 | by rewrite Hc] |]. intros r s2 (Hp2 & ?). split; [by eapply polled_trans | done].
Qed.

(** ** Steps of the thread *)

(** Between turns nothing waits for a link that is not there. *)
Record steady s (st : stage) : Prop := {
  steady_whole : whole s (queued s) (wait_queue s);
  steady_queue : st = Polling -> _center s = None -> wait_queue s = [];
  steady_remote : center_input s = [];
  steady_order : match st with Flushing _ _ order => Forall (fun i => (i < length (_buffers s))%nat) order | _ => True end }.

(** What the thread leaves as it is. *)
Record kept s s' : Prop := {
  kept_stored : stored s' = stored s; kept_open : acceptor_open s' = acceptor_open s; kept_waiters : map waiters (_buffers s') = map waiters (_buffers s) }.

Lemma stage_step_ok es data took st s : (st = Polling -> events_ok s es) -> steady s st ->
  wp (thread_step clock capacity offline es data took st) (fun st' s' => steady s' st' /\ kept s s') s.
Proof.
  intros He [Hw Hq Hr Ho]. destruct st as [| can | can threshold [| i order]]; cbn [thread_step].
  - wp_run. wp_call (accept_message_ok _ es s (He eq_refl) (whole_streams _ _ _ Hw) (Hq eq_refl)). intros can s1 ([P1 P2 P3 P4 P5 P6 P7] & Hst1). wp_run.
    split; [split; [| done | congruence | done] | split; congruence]. rewrite P7. destruct Hw. split; [by rewrite P2, P3, P4 | done | by rewrite P3].
  - wp_run. wp_call (handle_local_ok s Hw). intros [off |] s1 (Hw1 & A1 & A2 & A3 & A4); wp_run; [| split; [split; [done | done | congruence | done] | split; congruence]].
    rewrite A1, Hr. cbn [handle_remote_message]. unfold force_flush, Unix_to_now. wp_run. split; [split; [by destruct Hw1 | done | done | apply flush_order_range] | split; cbn; congruence].
  - wp_run. wp_call (queue_timeouts_ok data _ s Hw). intros _ s1 (q & -> & Hw1). wp_run.
    wp_call (send_center_ok _ can took (set_queue q s) (whole_streams _ _ _ Hw1)). intros _ s2 ([D1 D2 D3 [D4 D5 D6 D7]] & Hst & Hn & _ & _). cbn in D1, D2, D3, D4, D5, D6, D7. wp_run.
    split; [split; [| done | congruence | done] | split; congruence]. rewrite D4, D5. destruct Hw1. split; [by rewrite D1, D2, D3 | by rewrite D2 in * | by rewrite D1].
  - apply list.Forall_cons in Ho as [Hi Ho]. wp_run. wp_call (flush_buffer_ok threshold i _ s Hw Hi). intros _ s1 (Hw1 & [C1 C2 C3 C4] & C5 & C6 & C7). wp_run.
    assert (El : length (_buffers s1) = length (_buffers s)) by (by rewrite <- (length_map waiters), C6, length_map).
    split; [split; [by rewrite C1, C2 | done | congruence | by rewrite El] | split; congruence].
Qed.

(** ** The loggers *)

(** What a logger leaves alone. *)
Record client s s' : Prop := {
  client_queue : wait_queue s' = wait_queue s; client_center : _center s' = _center s; client_past : past s' = past s; client_input : _input s' = _input s;
  client_remote : center_input s' = center_input s; client_open : acceptor_open s' = acceptor_open s }.
Lemma client_trans s1 s2 s3 : client s1 s2 -> client s2 s3 -> client s1 s3.
Proof. intros [] []. split; congruence. Qed.
Lemma safe_notify_ok m s : wp (safe_notify notify m) (fun ok s' => client s s' /\ chunks s' = chunks s /\ _buffers s' = _buffers s /\ stored s' = stored s /\
  _pipe s' = _pipe s ++ (if ok : bool then [m] else [])) s.
Proof. unfold safe_notify. wp_run. destruct (notify (notices s)); wp_run; split_and!; try done. by rewrite app_nil_r. Qed.

Definition empty (b : Buffer) : Prop := index b = 0 /\ (buf b = None \/ exists m, buf b = Some m /\ zlen m = block_size).
Lemma empty_held b rs : empty b -> concat rs = [] -> held b rs.
Proof. unfold held. intros [Hi [-> | (m & -> & Hz)]] Hr; [done |]. rewrite Hi, Hr. split_and!; [done | lia | lia | done]. Qed.
Lemma held_concat b rs : held b rs -> index b = 0 -> concat rs = [].
Proof. unfold held. destruct (buf b); [intros (_ & _ & <-) ->; done | by intros [_ ?]]. Qed.
Lemma held_sized b rs : held b rs -> buf b = None \/ exists m, buf b = Some m /\ zlen m = block_size.
Proof. unfold held. destruct (buf b) as [m |]; [intros [? _]; right; by exists m | by left]. Qed.

(** What was in the buffer is on its way, so that an empty one can take its place. *)
Record submitted s i b s' (b' : Buffer) : Prop := {
  submitted_client : client s s'; submitted_stored : stored s' = stored s; submitted_buffers : _buffers s' = _buffers s; submitted_waiters : waiters b' = waiters b;
  submitted_sized : buf b' = None \/ exists m, buf b' = Some m /\ zlen m = block_size;
  submitted_books b2 : empty b2 -> books (chunks s') (<[i := b2]> (_buffers s)) (stored s) (queued s');
  submitted_streams : streams (chunks s') (_center s) (past s) (queued s') (wait_queue s) }.

(** The buffer after [submit_buffer]. *)
Definition prepared s i (ready : bool) s' : Prop :=
  whole s' (queued s') (wait_queue s') /\ client s s' /\ stored s' = stored s /\
  exists b, _buffers s' = <[i := b]> (_buffers s) /\ index b = 0 /\ waiters b = [] /\ if ready then exists m, buf b = Some m /\ zlen m = block_size else buf b = None.

Lemma prepared_ok s i b s1 b1 ready b' s' : whole s (queued s) (wait_queue s) -> submitted s i b s1 b1 -> waiters b = [] -> waiters b' = waiters b1 -> index b' = 0 ->
  (if ready : bool then exists m, buf b' = Some m /\ zlen m = block_size else buf b' = None) -> s' = set_buffers (<[i := b']> (_buffers s1)) (set_counts (asked s') (notices s') (ticks s') s1) ->
  prepared s i ready s'.
Proof.
  intros [_ _ Hw] [[C1 C2 C3 C4 C5 C6] Est Ebs Ew Hz Hbk Hst] Hno Hb' Hi' Hr E. assert (Hb0 : waiters b' = []) by congruence. unfold prepared. rewrite E, Ebs. split_and!; [| by split | done | by exists b'].
  split; cbn; rewrite ?C1, ?C2, ?C3, ?Est; [| done | apply Forall_insert; [done | by left]].
  apply Hbk. split; [done |]. destruct ready; [by right | by left].
Qed.

Lemma submit_rest i b s s1 b1 : whole s (queued s) (wait_queue s) -> submitted s i b s1 b1 -> waiters b = [] ->
  wp (now ← Unix_to_now clock;
      match buf b1 with
      | Some m => put_buffer i (mkBuffer 0 (Some m) now (waiters b1));; mret true
      | None => m ← pool_get pool; put_buffer i (mkBuffer 0 m now (waiters b1));; mret (bool_decide (is_Some m))
      end) (prepared s i) s1.
Proof.
  intros H Hs Hno. pose proof (submitted_buffers _ _ _ _ _ Hs) as Eb. unfold Unix_to_now, pool_get, put_buffer. wp_run. destruct (submitted_sized _ _ _ _ _ Hs) as [E | (m & E & Hz)]; rewrite E; wp_run.
  - cbn [asked set_counts]. destruct (pool (asked s1)) as [m |] eqn:Ep; [rewrite bool_decide_true by (by eexists) | rewrite bool_decide_false by (by intros [])].
    + refine (prepared_ok s i b s1 b1 true _ _ H Hs Hno _ _ _ eq_refl); [done | done | exists m; split; [done | exact (pool_size _ _ Ep)]].
    + by refine (prepared_ok s i b s1 b1 false _ _ H Hs Hno _ _ _ eq_refl).
  - refine (prepared_ok s i b s1 b1 true _ _ H Hs Hno _ _ _ eq_refl); [done | done | by exists m].
Qed.

Lemma submit_buffer_ok i b s : whole s (queued s) (wait_queue s) -> _buffers s !! i = Some b -> waiters b = [] -> wp (submit_buffer pool notify clock i) (prepared s i) s.
Proof.
  intros H Hi Hno. pose proof H as [Hb Hs Hw]. unfold submit_buffer, get_buffer. wp_run. eapply st_deref; [exact Hi |]. wp_run.
  destruct (books_buffer _ _ _ _ _ _ Hb Hi) as (rs & Hr). pose proof (held_sized _ _ Hr) as Hsz.
  assert (Hsame : index b = 0 -> submitted s i b s b).
  { intros E. split; try done. intros b2 H2. apply (books_update _ _ _ _ i b); [done | done |]. intros rs' Hr'. apply empty_held; [done |]. by eapply held_concat. }
  destruct (buf b) as [m |] eqn:Em; [| wp_run; apply (submit_rest i b s s b); [done | apply Hsame; unfold held in Hr; rewrite Em in Hr; apply Hr | done]].
  destruct (Z.eqb_spec (index b) 0) as [E | E]; [wp_run; by apply (submit_rest i b s s b); [| apply Hsame |] |].
  assert (Hx : 0 <= index b <= zlen m) by (unfold held in Hr; rewrite Em in Hr; lia). fold (chunk (index b) m). unfold pool_get. wp_run.
  assert (Hwritten : forall s1 b1 l2, client s s1 -> chunks s1 = chunks s ++ [chunk (index b) m] -> _buffers s1 = _buffers s -> stored s1 = stored s -> waiters b1 = [] ->
    buf b1 = None \/ buf b1 = Some m -> queued s1 = queued s ++ l2 -> l2 = [] \/ l2 = [ClearBuffer (index b) true 0 m] -> submitted s i b s1 b1).
  { intros s1 b1 l2 Hc Ech Ebs Est Ew Hbuf Eq Hl2. split; [done | done | done | by rewrite Ew, Hno | destruct Hbuf as [| ->]; [by left | by right; exists m; destruct Hsz as [? | (? & [= <-] & ?)]] | |].
    - intros b2 H2. rewrite Ech, Eq. assert (Hbk : books (chunks s ++ [chunk (index b) m]) (<[i := b2]> (_buffers s)) (stored s) (queued s)).
      { apply (books_flush _ _ _ _ i b m); [done | done | done | by apply empty_held]. }
      destruct Hl2 as [-> | ->]; [by rewrite app_nil_r | by apply books_other].
    - rewrite Ech, Eq. destruct Hl2 as [-> | ->]; [rewrite app_nil_r; by apply streams_more | by apply streams_sent_written]. }
  destruct (pool (asked s)) as [nb |] eqn:Ep.
  - wp_run. wp_call safe_notify_ok. intros ok s1 (Hc & Ech & Ebs & Est & Epi). cbn in Ech, Ebs, Est, Epi. assert (Hc' : client s s1) by (by destruct Hc; split).
    pose proof (client_input _ _ Hc') as Ein. destruct ok; wp_run.
    + apply (submit_rest i b s s1); [done | | done]. split; [done | done | done | done | right; exists nb; split; [done | exact (pool_size _ _ Ep)] | |].
      * intros b2 H2. rewrite Ech, Ein, Epi, app_assoc. apply (books_submit _ _ _ _ i b m); [done | done | done | by apply empty_held].
      * rewrite Ech, Ein, Epi, app_assoc. apply streams_sent; [done | cbn; lia | done | done].
    + unfold write_to_file. wp_run. apply (submit_rest i b s); [done | | done]. eapply (Hwritten _ b []); cbn; [by destruct Hc'; split | by rewrite Ech | done | done | done | by right | | by left].
      by rewrite Ein, Epi, !app_nil_r.
  - unfold write_to_file, center_valid. wp_run. destruct (bool_decide _); wp_run.
    + wp_call safe_notify_ok. intros ok s1 (Hc & Ech & Ebs & Est & Epi). cbn in Ech, Ebs, Est, Epi. assert (Hc' : client s s1) by (by destruct Hc; split).
      pose proof (client_input _ _ Hc') as Ein. wp_run. apply (submit_rest i b s s1); [done | | done]. destruct ok.
      * eapply (Hwritten _ _ [ClearBuffer (index b) true 0 m]); [done | done | done | done | done | by left | by rewrite Ein, Epi, app_assoc | by right].
      * eapply (Hwritten _ b []); [done | done | done | done | done | by right | by rewrite Ein, Epi, !app_nil_r | by left].
    + apply (submit_rest i b s); [done | | done]. eapply (Hwritten _ b []); cbn; [done | done | done | done | done | by right | by rewrite app_nil_r | by left].
Qed.

(** The records that threads wait to write, and all that were accepted. *)
Definition waiting_of B : list (list Z) := concat (map (fun b => map fst (waiters b)) B).
Definition accepted s : list (list Z) := stored s ++ waiting_of (_buffers s).

Lemma waiting_insert B i b b' : B !! i = Some b -> waiting_of (<[i := b']> B) ++ map fst (waiters b) ≡ₚ waiting_of B ++ map fst (waiters b').
Proof. intros Hb. unfold waiting_of. rewrite list_fmap_insert. apply concat_insert. by rewrite list_lookup_fmap, Hb. Qed.

Lemma waiting_same B i b b' : B !! i = Some b -> waiters b' = waiters b -> waiting_of (<[i := b']> B) = waiting_of B.
Proof. intros Hb Hw. unfold waiting_of. rewrite list_fmap_insert, Hw. f_equal. apply list_insert_id. by rewrite list_lookup_fmap, Hb. Qed.

Definition stepped s (data : list (list Z)) s' : Prop := whole s' (queued s') (wait_queue s') /\ client s s' /\ accepted s' ≡ₚ accepted s ++ data /\
  length (_buffers s') = length (_buffers s).

Lemma store_ok i b m data s : whole s (queued s) (wait_queue s) -> _buffers s !! i = Some b -> buf b = Some m -> index b + zlen data <= block_size ->
  wp (store i data (zlen data)) (fun _ s' => stepped s [data] s') s.
Proof.
  intros H Hi Hm Hfit. destruct (whole_flush s _ i b m H Hi Hm) as (Hz & Hx & Hno). destruct H as [Hb Hs Hw]. unfold store, get_buffer, put_buffer. wp_run. eapply st_deref; [exact Hi |]. wp_run.
  eapply st_deref; [exact Hm |]. wp_run. pose proof (zlen_nonneg data). eapply st_lift; [apply mem_write_ok; lia |]. wp_run. split_and!; [| done | | cbn; by rewrite length_insert].
  2:{ unfold accepted. cbn [stored set_stored set_buffers _buffers]. rewrite (waiting_same _ i b) by done. rewrite <- !app_assoc. apply Permutation_app_head, Permutation_app_comm. }
  assert (Hu : u32 (index b + zlen data) = index b + zlen data) by (unfold u32; apply Z.mod_small; lia). rewrite Hu. split; cbn; [| done |].
  - eapply (books_store _ _ _ _ i b m); [done | done | done | done | apply mem_write_ok; lia | done | done].
  - apply Forall_insert; [done |]. by left.
Qed.

Lemma write_ready_ok ready i data s s1 : 0 < zlen data <= block_size -> prepared s i ready s1 -> (i < length (_buffers s))%nat -> (forall b, _buffers s !! i = Some b -> waiters b = []) ->
  wp (write_when ready i data (zlen data)) (fun _ s' => stepped s [data] s') s1.
Proof.
  intros Hd (H1 & Hc & Est & b & Eb & Hi & Hno & Hr) Hlen Hclear. assert (Hl : _buffers s1 !! i = Some b) by (rewrite Eb; by apply list_lookup_insert_eq). unfold write_when.
  assert (Hac : accepted s1 ≡ₚ accepted s).
  { unfold accepted. rewrite Est, Eb. destruct (lookup_lt_is_Some_2 _ _ Hlen) as [b0 Hb0]. by rewrite (waiting_same _ i b0) by (by rewrite ?Hno, ?(Hclear b0 Hb0)). }
  destruct ready.
  - destruct Hr as (m & Hm & Hz). eapply st_mono; [apply (store_ok i b m data s1 H1 Hl Hm); lia |]. intros _ s2 (H2 & Hc2 & Hst & El). split_and!; [done | by eapply client_trans | by rewrite Hst, Hac | by rewrite El, Eb, length_insert].
  - unfold add_waiter, get_buffer, put_buffer. wp_run. eapply st_deref; [exact Hl |]. wp_run. split_and!; [| by destruct Hc; split | | cbn; by rewrite Eb, !length_insert].
    2:{ unfold accepted in *. cbn [stored set_stored set_buffers _buffers]. pose proof (waiting_insert _ i b (mkBuffer (index b) (buf b) (last_flush_time b) (waiters b ++ [(data, zlen data)])) Hl) as Hi'.
        rewrite Hno in *. cbn [map fst app waiters] in Hi'. rewrite app_nil_r in Hi'. cbn [app]. rewrite Hi', app_assoc, Hac. done. }
    destruct H1 as [Hb Hs Hw]. split; cbn; [| done |].
    + apply (books_update _ _ _ _ i b); [done | done |]. intros rs. by unfold held.
    + apply Forall_insert; [done |]. right. exists data. rewrite Hno. split_and!; [done | lia | done].
Qed.

Lemma direct_ok i b data s : whole s (queued s) (wait_queue s) -> _buffers s !! i = Some b -> waiters b = [] -> 0 < zlen data ->
  zlen data <= buf_size b - index b -> wp (write_when true i data (zlen data)) (fun _ s' => stepped s [data] s') s.
Proof.
  intros H Hi Hno Hd Hfit. unfold buf_size in Hfit. destruct (buf b) as [m |] eqn:Hm.
  - destruct (whole_flush s _ i b m H Hi Hm) as (Hz & Hx & _). apply (store_ok i b m data s H Hi Hm). lia.
  - destruct (books_buffer _ _ _ _ _ _ (whole_books _ _ _ H) Hi) as (rs & Hr). unfold held in Hr. rewrite Hm in Hr. lia.
Qed.

(** What the index leaves of a buffer. *)
Lemma rest_ok i b s : whole s (queued s) (wait_queue s) -> _buffers s !! i = Some b -> 0 <= buf_size b - index b <= block_size.
Proof.
  intros H Hi. destruct (books_buffer _ _ _ _ _ _ (whole_books _ _ _ H) Hi) as (rs & Hr). unfold held, buf_size in *. destruct (buf b) as [m |]; [destruct Hr as (? & ? & _); lia | destruct Hr; lia].
Qed.

Lemma safe_write_ok i b data s : whole s (queued s) (wait_queue s) -> _buffers s !! i = Some b -> waiters b = [] -> 0 < zlen data <= block_size ->
  wp (safe_write pool notify clock i data) (fun _ s' => stepped s [data] s') s.
Proof.
  intros H Hi Hno Hd. unfold safe_write, get_buffer. wp_run. eapply st_deref; [exact Hi |]. wp_run. pose proof (rest_ok i b s H Hi) as Hrest.
  replace (u64 (buf_size b - index b)) with (buf_size b - index b) by (symmetry; apply Z.mod_small; lia). destruct (Z.ltb_spec (buf_size b - index b) (zlen data)) as [Hlt | Hge].
  - wp_call (submit_buffer_ok i b s H Hi Hno). intros ready s1 Hp. apply write_ready_ok; [done | done | by eapply lookup_lt_Some | intros b' Hb'; by rewrite Hi in Hb'; injection Hb' as <-].
  - wp_run. apply (direct_ok i b data s); [done | done | done | lia | lia].
Qed.

Lemma logger_push_ok i b header data s : whole s (queued s) (wait_queue s) -> _buffers s !! i = Some b -> waiters b = [] -> 0 < zlen header ->
  zlen header + zlen data <= 65535 -> zlen header + zlen data <= block_size -> wp (logger_push pool notify clock i header data) (fun _ s' => stepped s [header ++ data] s') s.
Proof.
  intros H Hi Hno Hh Hu Hd. unfold logger_push, get_buffer. wp_run. eapply st_deref; [exact Hi |]. wp_run. pose proof (rest_ok i b s H Hi) as Hrest. pose proof (zlen_nonneg data).
  replace (u32 (buf_size b - index b)) with (buf_size b - index b) by (symmetry; apply Z.mod_small; lia).
  replace (u16 (zlen header + zlen data)) with (zlen (header ++ data)) by (rewrite zlen_app; symmetry; apply Z.mod_small; lia).
  unfold can_write_log. rewrite (proj2 (Z.leb_le (zlen data) _)) by lia. cbn [andb]. destruct (Z.leb_spec (zlen header + zlen data) (buf_size b - index b)) as [Hle | Hgt].
  - wp_run. apply (direct_ok i b _ s); [done | done | done | rewrite zlen_app; lia | rewrite zlen_app; lia].
  - wp_call (submit_buffer_ok i b s H Hi Hno). intros ready s1 Hp. apply write_ready_ok; [rewrite zlen_app; lia | done | by eapply lookup_lt_Some | intros b' Hb'; by rewrite Hi in Hb'; injection Hb' as <-].
Qed.

Lemma wake_ok i b k data n s : whole s (queued s) (wait_queue s) -> _buffers s !! i = Some b -> waiters b !! k = Some (data, n) ->
  wp (wake pool i k) (fun _ s' => stepped s [] s') s.
Proof.
  intros H Hi Hk. pose proof H as [Hb Hs Hw]. pose proof (proj1 (list.Forall_lookup _ _) Hw i b Hi) as [E | (data' & E & Hd & En)]; [by rewrite E in Hk |].
  rewrite E in Hk. destruct k as [| k]; [| done]. injection Hk as -> <-. unfold wake, get_buffer, pool_get, put_buffer. wp_run. eapply st_deref; [exact Hi |]. wp_run. rewrite E.
  eapply st_deref; [reflexivity |]. cbv beta iota. wp_run. destruct (books_buffer _ _ _ _ _ _ Hb Hi) as (rs & Hr). pose proof Hr as Hr'. unfold held in Hr. rewrite En in Hr. destruct Hr as [Hx _].
  assert (Hput : forall b' s1, index b' = 0 -> buf b' = None \/ (exists m, buf b' = Some m /\ zlen m = block_size) -> waits b' ->
    s1 = set_buffers (<[i := b']> (_buffers s)) (set_counts (asked s1) (notices s1) (ticks s1) s) -> whole s1 (queued s1) (wait_queue s1)).
  { intros b' s1 Hx' Hb' Hw' E1. rewrite E1. split; cbn; [| done | by apply Forall_insert]. apply (books_update _ _ _ _ i b); [done | done |]. intros rs' Hr1. apply empty_held; [done |]. by eapply held_concat. }
  destruct (pool (asked s)) as [m |] eqn:Ep; cbv beta iota; wp_run.
  - cbn [app take drop]. match goal with |- wp _ _ ?st => assert (H1 : whole st (queued st) (wait_queue st)) end.
    { refine (Hput _ _ _ _ _ eq_refl); [done | right; exists m; split; [done | exact (pool_size _ _ Ep)] | by left]. }
    eapply st_mono; [eapply (store_ok i _ m data _ H1); [cbn; apply list_lookup_insert_eq; by eapply lookup_lt_Some | done | cbn; lia] |].
    intros _ s2 (H2 & Hc & Hst & El). split_and!; [done | by destruct Hc; split | | rewrite El; cbn; by rewrite length_insert]. rewrite Hst, app_nil_r. unfold accepted. cbn [stored set_counts set_buffers _buffers].
    pose proof (waiting_insert _ i b (mkBuffer (index b) (Some m) (last_flush_time b) []) Hi) as Hi'. rewrite E in Hi'. cbn [map fst waiters] in Hi'. rewrite app_nil_r in Hi'.
    by rewrite <- app_assoc, Hi'.
  - split_and!; [| done | | cbn; by rewrite length_insert]; [refine (Hput _ _ _ _ _ eq_refl); [done | by left | right; exists data; by split_and!] |].
    unfold accepted. cbn [stored set_counts set_buffers _buffers]. rewrite app_nil_r, (waiting_same _ i b); [done | done | by rewrite E].
Qed.

(** ** Runs *)

Definition requested (c : command) : list (list Z) := match c with Write _ data => [data] | Push _ header data => [header ++ data] | _ => [] end.

(** A logger writes to a buffer nobody waits for, and what it writes fits a block. *)
Definition allowed (c : command) s (st : stage) : Prop :=
  match c with
  | Write i data => (exists b, _buffers s !! i = Some b /\ waiters b = []) /\ 0 < zlen data <= block_size
  | Push i header data => (exists b, _buffers s !! i = Some b /\ waiters b = []) /\ 0 < zlen header /\ zlen header + zlen data <= Z.min 65535 block_size
  | Wake i k => exists b w, _buffers s !! i = Some b /\ waiters b !! k = Some w
  | Step es _ _ => st = Polling -> events_ok s es
  | Stop => True
  end.

Abbreviation exec := (exec pool notify clock capacity offline).

Inductive runs (n : nat) : list command -> server -> stage -> Prop :=
  | runs_new : runs n [] (new_server n) Polling
  | runs_step cs c s s' st st' : runs n cs s st -> allowed c s st -> exec c st s = Ret (st', s') -> runs n (cs ++ [c]) s' st'.

Lemma steady_client s s' data st : steady s st -> stepped s data s' -> steady s' st /\ accepted s' ≡ₚ accepted s ++ data.
Proof. intros [H1 H2 H3 H4] (Hw & [C1 C2 C3 C4 C5 C6] & Ha & El). split; [| done]. split; [done | by rewrite C1, C2 | by rewrite C5 | by rewrite El]. Qed.

Lemma command_ok c s st : steady s st -> allowed c s st -> wp (exec c st) (fun st' s' => steady s' st' /\ accepted s' ≡ₚ accepted s ++ requested c) s.
Proof.
  intros Hs Hc. pose proof (steady_whole _ _ Hs) as Hw. destruct c as [i data | i header data | i k | es data took |]; cbn [LinkLogPipeline.exec requested allowed] in *.
  - destruct Hc as [(b & Hb & Hno) Hd]. wp_run. wp_call (safe_write_ok i b data s Hw Hb Hno Hd). intros [] s' H. wp_run. by apply (steady_client s).
  - destruct Hc as [(b & Hb & Hno) [Hh Hd]]. wp_run. wp_call (logger_push_ok i b header data s Hw Hb Hno Hh); [lia | lia |]. intros [] s' H. wp_run. by apply (steady_client s).
  - destruct Hc as (b & [data n] & Hb & Hk). wp_run. wp_call (wake_ok i b k data n s Hw Hb Hk). intros [] s' H. wp_run. by apply (steady_client s).
  - eapply st_mono; [by apply stage_step_ok |]. intros st' s' [Hs' [Est _ Ew]]. split; [done |]. unfold accepted, waiting_of. rewrite app_nil_r, Est.
    assert (E : map (fun b => map fst (waiters b)) (_buffers s') = map (fun b => map fst (waiters b)) (_buffers s)); [| by rewrite E].
    rewrite <- !(map_map waiters (map fst)). by rewrite Ew.
  - wp_run. wp_call safe_notify_ok. intros ok s' ([C1 C2 C3 C4 C5 C6] & E1 & E2 & E3 & E4). wp_run. split; [| unfold accepted; by rewrite E2, E3, app_nil_r].
    destruct Hs as [[Hb Hst Hwt] Hq Hr Ho]. split; [| by rewrite C1, C2 | by rewrite C5 | by rewrite E2]. rewrite C4, E4, app_assoc. split; rewrite ?E1, ?E2, ?E3, ?C1, ?C2, ?C3; [| | done].
    + destruct ok; [by apply books_other | by rewrite app_nil_r].
    + destruct ok; [by apply streams_sent | by rewrite app_nil_r].
Qed.

Lemma concat_nothing {A} n : concat (replicate n (@nil A)) = [].
Proof. by induction n. Qed.

Lemma new_steady n : steady (new_server n) Polling.
Proof.
  split; [| done | done | done]. split; cbn.
  - split. exists [], [], (replicate n []). split_and!; [constructor | constructor | |].
    + apply Forall2_replicate. by split.
    + cbn. by rewrite concat_nothing.
  - split; try done; cbn; constructor.
  - apply Forall_replicate. by left.
Qed.

Lemma runs_ok n cs s st : runs n cs s st -> steady s st /\ accepted s ≡ₚ flat_map requested cs.
Proof.
  induction 1 as [| cs c s s' st st' Hr [IH1 IH2] Hc He].
  - split; [apply new_steady |]. unfold accepted. cbn. unfold waiting_of. clear. by induction n.
  - pose proof (command_ok c s st IH1 Hc) as Hw. apply st_intro in Hw as (st'' & s'' & E & H1 & H2). rewrite He in E. injection E as <- <-. split; [done |].
    rewrite H2, IH2, flat_map_app. cbn. by rewrite app_nil_r.
Qed.

(** ** The end *)

(** Empty buffers hold nothing when no record is empty. *)
Lemma books_skip C b B S l : books C (b :: B) S l -> (buf b = None \/ index b = 0) -> Forall (fun r => r <> []) S -> books C B S l.
Proof.
  intros [(Fs & U & Bs & HC & HU & HB & HS)] He Hne. apply Forall2_cons_inv_l in HB as (rs & Bs' & Hr & HB & ->). assert (Hc : concat rs = []).
  { unfold held in Hr. destruct He as [E | E]; [rewrite E in Hr; apply Hr | exact (held_concat _ _ Hr E)]. }
  assert (rs = []) as ->.
  { destruct rs as [| r rs]; [done |]. cbn in Hc. apply app_eq_nil in Hc as [-> _]. exfalso. rewrite list.Forall_forall in Hne. apply (Hne []); [| done]. rewrite <- HS. cbn. rewrite !elem_of_app. right. right. by left. }
  split. by exists Fs, U, Bs'.
Qed.

Lemma books_save C b B S l m : books C (b :: B) S l -> buf b = Some m -> books (C ++ [chunk (index b) m]) B S l /\ 0 <= index b <= zlen m.
Proof.
  intros [(Fs & U & Bs & HC & HU & HB & HS)] Hm. apply Forall2_cons_inv_l in HB as (rs & Bs' & Hr & HB & ->). unfold held in Hr. rewrite Hm in Hr. destruct Hr as (Hz & Hx & Hr). split; [| lia].
  split. exists (Fs ++ [rs]), U, Bs'. split_and!; [by apply Forall2_app; [| constructor] | done | done |]. rewrite <- HS, concat_app. cbn [concat]. rewrite app_nil_r.
  rewrite <- !app_assoc. apply Permutation_app_head. rewrite !app_assoc. apply Permutation_app_tail, Permutation_app_comm.
Qed.

Record closing s l B : Prop := {
  closing_books : books (chunks s) B (stored s) l;
  closing_streams : streams (chunks s) (_center s) (past s) l (wait_queue s) }.

Lemma save_buffers_ok l B : forall i s, closing s l B -> Forall (fun r => r <> []) (stored s) ->
  wp (save_each i B) (fun _ s' => closing s' l [] /\ stored s' = stored s /\ beside s s' /\ _center s' = _center s) s.
Proof.
  induction B as [| b B IH]; intros i s [Hb Hs] Hne; cbn [save_each].
  { wp_run. done. }
  assert (Hskip : buf b = None \/ index b = 0 -> wp (mret tt) (fun _ s1 => wp (save_each (Datatypes.S i) B) (fun _ s' => closing s' l [] /\ stored s' = stored s /\ beside s s' /\ _center s' = _center s) s1) s).
  { intros He. wp_run. apply IH; [split; [by eapply books_skip | done] | done]. }
  wp_run. destruct (buf b) as [m |] eqn:Em; [| apply Hskip; by left]. destruct (Z.eqb_spec (index b) 0) as [E | E]; [apply Hskip; by right |].
  destruct (books_save _ _ _ _ _ m Hb Em) as [Hb' Hx]. fold (chunk (index b) m). unfold write_to_file, center_valid, push_wait, put_buffer. wp_run.
  destruct (bool_decide _); wp_run; (match goal with |- wp _ _ ?st => wp_call (IH (Datatypes.S i) st) end; [split; [exact Hb' |] | done | intros _ s' (H1 & H2 & [H3 H4 H5 H6] & H7); by split_and!]).
  - by apply streams_written.
  - by apply streams_more.
Qed.

Lemma close_loop_ok l turns : Forall (fun t => Forall not_accepted t.1) turns -> forall s, streams (chunks s) (_center s) (past s) l (wait_queue s) ->
  (_center s <> None -> has_mark (wait_queue s)) ->
  wp (close_loop capacity offline turns) (fun ended s' => chunks s' = chunks s /\ stored s' = stored s /\ (ended = true -> _center s' = None /\ wait_queue s' = [])) s.
Proof.
  induction turns as [| [es took] turns IH]; intros Ht s Hs Hm; cbn [close_loop]; wp_run; unfold id.
  all: destruct (bool_decide_reflect (wait_queue s = [])) as [Eq | Eq]; cbn [andb].
  all: try (assert (Hc : _center s = None) by (destruct (_center s) as [k |]; [| done]; destruct (Hm ltac:(done)) as [Hin | Hin]; rewrite Eq in Hin; by apply elem_of_nil in Hin); rewrite Hc; by wp_run).
  { by wp_run. }
  apply list.Forall_cons in Ht as [He Ht]. cbn in He. wp_run. wp_call (accept_none_ok l es He false s Hs). intros can s1 ([P1 P2 P3 P4 P5 P6 P7] & Hs1 & Hn1). wp_run.
  wp_call (send_center_ok l can took s1 Hs1). intros _ s2 ([Q1 Q2 Q3 _] & Hs2 & _ & Hn2 & Hm2). wp_call (IH Ht s2 Hs2).
  - intros Hc. apply Hm2; [| done]. rewrite P1. apply Hm. intros Hc0. by apply Hc, Hn2, Hn1.
  - intros ended s3 (E1 & E2 & E3). split_and!; [by rewrite E1, Q2, P2 | by rewrite E2, Q3, P4 | done].
Qed.

Lemma close_thread_ok turns s st : steady s st -> _input s = [] -> Forall (fun r => r <> []) (stored s) -> Forall (fun t => Forall not_accepted t.1) turns ->
  wp (close_thread capacity offline turns) (fun ended s' => books (chunks s') [] (stored s') (_pipe s) /\ stored s' = stored s /\ (ended = true -> _center s' = None /\ wait_queue s' = [])) s.
Proof.
  intros [Hw Hq Hr _] Hi Hne Ht. unfold close_thread, destroy_local_link, save_logs. rewrite Hi in Hw. cbn [app] in Hw. wp_run. rewrite Hi, bool_decide_true by done. eapply st_assert; [done |]. wp_run.
  match goal with |- wp _ _ ?st => wp_call (save_buffers_ok (_pipe s) (_buffers s) 0 st) end; [destruct Hw; by split | done |].
  intros _ s1 ([Hb1 Hs1] & E1 & _ & Ec1). cbn in E1, Ec1. unfold center_valid. wp_run.
  assert (Hnext : forall s2, chunks s2 = chunks s1 -> stored s2 = stored s1 -> streams (chunks s2) (_center s2) (past s2) (_pipe s) (wait_queue s2) -> (_center s2 <> None -> has_mark (wait_queue s2)) ->
    wp (close_loop capacity offline turns) (fun ended => wp ((if ended : bool then valid ← center_valid; assert_ (negb valid) else mret tt);; mret ended)
      (fun ended s' => books (chunks s') [] (stored s') (_pipe s) /\ stored s' = stored s /\ (ended = true -> _center s' = None /\ wait_queue s' = []))) s2).
  { intros s2 F1 F2 F3 F4. wp_call (close_loop_ok (_pipe s) turns Ht s2 F3 F4). intros ended s3 (G1 & G2 & G3). wp_run. assert (Hb3 : books (chunks s3) [] (stored s3) (_pipe s)) by (by rewrite G1, G2, F1, F2).
    assert (E3 : stored s3 = stored s) by congruence. destruct ended; wp_run; [| by split_and!]. destruct (G3 eq_refl) as [Hc Hwq]. unfold center_valid. wp_run. rewrite Hc, bool_decide_false by (by intros []).
    eapply st_assert; [done |]. wp_run. by split_and!. }
  destruct (bool_decide_reflect (is_Some (_center s1))) as [Hc | Hc].
  - unfold push_wait. wp_run. apply Hnext; [done | done | by apply streams_append | intros _; right; cbn; apply elem_of_app; right; by left].
  - wp_run. apply Hnext; [done | done | done |]. intros Hn. exfalso. apply Hc. destruct (_center s1); [by eexists | done].
Qed.

Lemma requested_nonempty n cs s st : runs n cs s st -> Forall (fun r => r <> []) (flat_map requested cs).
Proof.
  induction 1 as [| cs c s s' st st' _ IH Hc _]; [constructor |]. rewrite flat_map_app. apply list.Forall_app. split; [done |]. cbn. rewrite app_nil_r.
  destruct c as [i data | i header data | | |]; cbn in *; [| | constructor ..].
  - constructor; [destruct Hc as [_ Hd]; intros ->; unfold zlen in Hd; cbn in Hd; lia | constructor].
  - constructor; [destruct Hc as [_ [Hh _]]; destruct header; [unfold zlen in Hh; cbn in Hh; lia | done] | constructor].
Qed.


(** C40. What any link to the center was given is a sequence of whole units: full buffers of records, errors of
    timeouts, and the notice that the server ends; a link that broke has the beginning of such a sequence.
    The buffers sent over all links are different chunks of the record files; the ring of the link is
    never overfull; and between the turns of the thread, without a link nothing waits to be sent. *)
Theorem center_gets_whole_buffers n cs s st : runs n cs s st ->
  all_told (past s) (_center s) ⊆+ chunks s /\
  (forall k, _center s = Some k -> sent_bytes k ++ output k = units k ++ begun (wait_queue s) /\ zlen (output k) <= capacity) /\
  Forall (carried (chunks s)) (past s) /\
  (st = Polling -> _center s = None -> wait_queue s = []).
Proof.
  intros Hr. destruct (runs_ok n cs s st Hr) as [[[_ [H1 _ _ _ H5 H6] _] Hq _ _] _]. split_and!; [| done | done | done]. etransitivity; [| exact H1]. by apply submseteq_inserts_r.
Qed.

Fixpoint all_allowed (cs : list command) s st : Prop :=
  match cs with [] => True | c :: cs => allowed c s st /\ match exec c st s with Ret (st', s') => all_allowed cs s' st' | Fault _ => False end end.
Fixpoint after (cs : list command) s st : res (server * stage) :=
  match cs with [] => Ret (s, st) | c :: cs => '(st, s) ← exec c st s; after cs s st end.

Lemma after_runs n cs : forall cs0 s st s' st', runs n cs0 s st -> all_allowed cs s st -> after cs s st = Ret (s', st') -> runs n (cs0 ++ cs) s' st'.
Proof.
  induction cs as [| c cs IH]; intros cs0 s st s' st' Hr Hal; cbn [all_allowed after] in *; [intros [= <- <-]; by rewrite app_nil_r |].
  destruct Hal as [Hc Hal]. destruct (exec c st s) as [[st1 s1] |] eqn:E; [| done]. cbn. intros Ha. replace (cs0 ++ c :: cs) with ((cs0 ++ [c]) ++ cs) by (by rewrite <- app_assoc).
  apply (IH _ s1 st1); [by apply (runs_step n cs0 c s s1 st st1) | done | done].
Qed.
End Pipeline.

(** ** Sample runs *)

Definition demo_pool (n : nat) : option block := if decide (n mod 4 = 3)%nat then None else Some (replicate 16 0).
Definition demo_notify (n : nat) : bool := negb (Nat.eqb n 1).
Definition demo_clock (n : nat) : Z := 600000000 * Z.of_nat n.
Definition demo_offline : list Z := [9; 9; 9].
Definition bytes_of (from : Z) (n : nat) : list Z := map (fun i => from + Z.of_nat i) (seq 0 n).

(** A turn of the thread over two buffers in which it handles [k] messages before the one that tells it to end, if any. *)
Definition turn (k : nat) (es : list center_event) (timeouts : list (list Z)) (took : Z) : list command := replicate (k + 5) (Step es timeouts took).

Definition demo_calls : list command :=
  [Write 0 (bytes_of 1 10); Push 1 (bytes_of 20 4) (bytes_of 30 5); Write 0 (bytes_of 40 9)] ++ turn 0 [Accepted true] [] 0 ++ [Write 0 (bytes_of 50 9)] ++
  turn 1 [Received 2; CenterEvent None false false false true] [[7; 7]] 5 ++ [Step [CenterEvent None false false false true] [] 6; Write 1 (bytes_of 60 12)] ++
  replicate 4 (Step [] [] 6) ++ [Stop] ++ turn 0 [Received 5; CenterEvent (Some (-1)) false false false false] [] 0.
Abbreviation demo_runs := (runs demo_pool demo_notify demo_clock 8 16 demo_offline 2).
Abbreviation demo_after := (after demo_pool demo_notify demo_clock 8 demo_offline).

Definition demo_end : server * stage := match demo_after demo_calls (new_server 2) Polling with Ret c => c | Fault _ => (new_server 2, Polling) end.
Definition demo_server : server := fst demo_end.

Lemma demo_size n m : demo_pool n = Some m -> zlen m = 16.
Proof. unfold demo_pool. case_decide; [done |]. by intros [= <-]. Qed.
Lemma demo_pos : 0 < 16 < 4294967296.
Proof. lia. Qed.

Lemma demo_reached : demo_runs demo_calls demo_server (snd demo_end).
Proof.
  apply (after_runs _ _ _ 8 16 _ 2 demo_calls [] (new_server 2) Polling); [apply runs_new | | vm_compute; reflexivity].
  vm_compute. repeat split; try discriminate; try (eexists; split; reflexivity); try (by constructor).
  all: try by repeat constructor.
  right. split; [done |]. exists [], true, []. split; [done | constructor].
Qed.


Lemma center_gets_whole_buffers_witness :
  all_told (past demo_server) (_center demo_server) ⊆+ chunks demo_server /\
  (forall k, _center demo_server = Some k -> sent_bytes k ++ output k = units k ++ begun (wait_queue demo_server) /\ zlen (output k) <= 8) /\
  Forall (carried (chunks demo_server)) (past demo_server) /\
  (Polling = Polling -> _center demo_server = None -> wait_queue demo_server = []).
Proof. apply (center_gets_whole_buffers demo_pool demo_notify demo_clock 8 16 demo_offline demo_size demo_pos ltac:(lia) 2 demo_calls demo_server Polling), demo_reached. Defined.

(** The link of the sample broke inside the second buffer. *)
Example demo_link : map sent_bytes (past demo_server) = [bytes_of 20 4 ++ bytes_of 30 5 ++ [1; 2]] /\ length (chunks demo_server) = 5%nat.
Proof. vm_compute. auto. Qed.

(** While one thread waits for a buffer, another gets one and writes; the first then takes a fresh block without
    looking, and what the other wrote is gone. *)
Definition refuse_first (n : nat) : option block := match n with O => None | _ => Some (replicate 16 0) end.
Example waiting_thread_loses_record :
  match after refuse_first demo_notify demo_clock 8 demo_offline [Write 0 [1; 2; 3]; Write 0 [4; 5]; Wake 0 0] (new_server 1) Polling with
  | Ret (s, _) => map buf (_buffers s) = [Some ([0; 0; 1; 2; 3] ++ replicate 11 0)] /\ chunks s = [] /\ _pipe s = []
  | Fault _ => False
  end.
Proof. vm_compute. auto. Qed.

(** The notice of the center never arrives: its bytes are read from the pipe of the loggers. *)
Lemma center_never_heard n cs s st : forall pool notify clock capacity block_size offline, (forall n m, pool n = Some m -> zlen m = block_size) -> 0 < block_size < 4294967296 -> 0 < capacity ->
  runs pool notify clock capacity block_size offline n cs s st -> center_input s = [].
Proof. intros pool notify clock capacity block_size offline Hp Hb Hc Hr. by destruct (runs_ok pool notify clock capacity block_size offline Hp Hb Hc n cs s st Hr) as [[_ _ ? _] _]. Qed.
